(* ===== verification/_CoqProject ===== *)
-Q . S2P
Prelude.v
Pipe.v
Frames.v
FramesFacts.v
Ext2Layout.v
Ext2Cache.v
Ext2Alloc.v
Ext2Inode.v
Ext2Data.v
Ext2Dir.v
Ext2Fs.v
Ext2Mkfs.v
Text.v
Fips180.v
Sha256.v
Policy.v
PolicyFacts.v
PolicyParse.v
Ns.v
Builtin.v
Sec.v
SecFacts.v
Cpio.v
CpioFacts.v
TaskSet.v
Sched.v
Ring.v
Tty.v
TtyFacts.v
TtyCtl.v
TtyProps.v
Pty.v
PtyFacts.v
PtyRun.v
PtyLife.v
PtyProps.v
Input.v
InputProps.v
Tmpfs.v
TmpfsRep.v
TmpfsSpec.v
TmpfsTree.v
TmpfsRefine.v
TmpfsMove.v
TmpfsProps.v
BlkCache.v
BlkCacheFacts.v
BlkCacheRun.v
BlkCacheProps.v
Gpt.v
GptFacts.v
GptRound.v
Blk.v
BlkFacts.v
BlkScan.v
BlkIo.v
BlkIoFacts.v
BlkIoExact.v
BlkProps.v
Locks.v
Vm.v
VmFacts.v
VmRefine.v
Wpa.v
WpaFacts.v
WpaLink.v
WpaProps.v
SchedFacts.v
SchedRun.v
SchedLive.v
SchedWake.v
SchedHalt.v
SchedTimer.v
