(* ===== verification/Prelude.v ===== *)
(** * A verification library for myos

    myos is a small operating system: a Rust kernel for three architectures,
    loadable kernel modules (file systems, drivers), user programs, and the
    host tools that build a bootable image.  This library models the parts of
    it that are algorithms over data and proves what makes them correct.
    Paths below are under [src/].

    ** The parts and how they interact

    - The build ([src/initramfs.rs]) packs the image's files into a newc
      archive; at boot the kernel ([kernel/src/fs/cpio.rs]) unpacks it and
      registers the files.  [Cpio.v] has both ends, [CpioFacts.v] the proof
      that the second gives back what the first put in.
    - The kernel takes its memory from the boot loader's map: the heap first
      ([kernel/src/heap.rs], [kernel/src/limine_boot.rs]), then 4 KiB frames
      behind it ([kernel/src/mm.rs]).  [Frames.v] is the model,
      [FramesFacts.v] its invariant and theorems.
    - Processes exchange bytes through pipes and FIFOs
      ([kernel/src/pipe.rs]): [Pipe.v].
    - The kernel runs tasks on up to eight processors
      ([kernel/src/task/sched.rs], [bits.rs], and what of [lifecycle.rs],
      [process.rs], [thread.rs], [signals.rs] and [kernel/src/evfd.rs] it
      goes by).  [TaskSet.v] is the bit sets of its run queues, behind the
      class [SlotSet]; [Sched.v] the scheduler, as a system all processors
      step in any order: [Sys] is the shared state, [Op] what a processor
      may do next, [exec] one such step, [run] a sequence of them from
      [boot].  [SchedFacts.v] and [SchedRun.v] have its invariant and what
      follows from it, [SchedLive.v] the round robin, [SchedWake.v] waits
      and wakes, [SchedHalt.v] the idle loop, [SchedTimer.v] deadlines.
    - Every access to a file or kernel object is checked against a policy
      ([kernel/src/sec/policy.rs]) and, for a confined process, the bindings
      of its namespace ([kernel/src/task/ns.rs]); users log in with salted
      SHA-256 passwords ([kernel/src/sec/sha256.rs]); the checks, logins and
      policy loads are [kernel/src/sec/mod.rs].  [Text.v] models the strings
      these use, [Sha256.v], [Policy.v], [Ns.v] and [Sec.v] the components,
      [Fips180.v] the hash as its standard defines it, on bits,
      [Builtin.v] the policy compiled into the kernel ([etc/policy]), and
      [PolicyFacts.v], [PolicyParse.v], [SecFacts.v] their theorems.
    - Files on disk are kept by the ext2 library ([modules/ext2/ext2fs/src]):
      [Ext2Layout.v] is [layout.rs] (superblock, geometry), [Ext2Cache.v]
      [cache.rs] (a write-back cache over a device), [Ext2Alloc.v] the mount
      state and the block and inode bitmaps of [fs.rs], [Ext2Inode.v]
      [inode.rs] (inodes, block mapping, reads, writes, truncation),
      [Ext2Dir.v] [dir.rs], [Ext2Fs.v] the paths and public operations of
      [fs.rs], [Ext2Mkfs.v] [mkfs.rs].  [Ext2Data.v] holds the theorems on
      reading file data.
    - Reads and writes of disks go through a cache of 4 KiB chunks
      ([kernel/src/blk/cache.rs], called from [kernel/src/blk.rs]), which
      several tasks use at once.  [BlkCache.v] is the cache and a system of
      calls that interleave ([Sys], [Label], [step], [run]: a step is one
      critical section of the cache's lock, or one sector the device moves);
      [BlkCacheFacts.v] its operations, [BlkCacheRun.v] its invariant,
      [BlkCacheProps.v] the theorems.
    - The image builder writes a partition table ([src/limine_gpt.rs],
      [write_gpt] of [src/limine_disk.rs]) that the kernel reads
      ([kernel/src/blk/gpt.rs]).  [Gpt.v] has both ends, [GptFacts.v] what
      the reader makes of any disk, [GptRound.v] the round trip.
    - Files under [/tmp] are kept in memory ([kernel/src/fs/tmpfs.rs]), with
      FIFOs over the pipes of [Pipe.v].  [Tmpfs.v] is the table of entries
      and every call on it, [TmpfsRep.v] what the table stands for,
      [TmpfsSpec.v] the same calls on two finite maps and the invariant of
      those, [TmpfsTree.v] that the calls keep it, [TmpfsRefine.v] and
      [TmpfsMove.v] that the table follows the maps call by call,
      [TmpfsProps.v] the theorems.
    - What is typed at a terminal goes through a line discipline
      ([kernel/src/tty.rs]), and a terminal's settings are the text of a
      control file.  [Tty.v] models both, [TtyFacts.v] the input as a queue
      and a line ([Ring.v] has the ring), [TtyCtl.v] the text,
      [TtyProps.v] the theorems.
    - Terminals are pairs ([kernel/src/pty.rs]), behind [/dev/pts] and the
      kernel's own.  [Pty.v] has the pairs, on a heap, and the calls on them
      as a system of tasks that interleave ([Call] is where a task is, [go]
      its next step, [exec] and [run] the system); [PtyFacts.v] the rings,
      [PtyRun.v] what goes through them, [PtyLife.v] how long pairs live,
      [PtyProps.v] the theorems.  Bytes reach them and the console from the
      serial port and the keyboard ([kernel/src/input.rs]): [Input.v] and
      [InputProps.v].
    - Disks and their partitions are a table that drivers and partition
      tables fill ([kernel/src/blk.rs]).  [Blk.v] is the table and the calls
      on it, as a system of tasks that interleave between critical sections
      ([Sys], [Label], [step]); [BlkFacts.v] its invariant and the paths of
      devices, [BlkScan.v] who waits for whom.  [BlkIo.v] has the calls that
      move sectors and bytes, one at a time, through the cache of
      [BlkCache.v] and over drivers of the class [Disks]; [BlkIoFacts.v] what
      the cache does to them, [BlkIoExact.v] the bytes of a device,
      [BlkProps.v] the theorems.
    - Processes lock files and ranges of files ([kernel/src/fs/lock.rs] and
      the calls [flock] and [lockctl] of [kernel/src/user/syscall.rs]):
      [Locks.v].
    - A process's memory mappings are a sorted table of regions
      ([kernel/src/task/vm.rs]): [Vm.v] is the table, [VmFacts.v] its
      lemmas, [VmRefine.v] the map of pages it stands for.
    - A station joins a protected wireless network with a pre-shared key
      ([user/wifi/wpa/src]: key derivation, the handshakes, CCMP;
      [user/wifi/src/rsn.rs] and [frame.rs]: the encrypted link).  [Wpa.v]
      models them over the class [Crypto] of the primitives they take from
      outside; [WpaFacts.v] has the frames, [WpaLink.v] the handshake and
      the link over any frames heard, [WpaProps.v] the theorems.

    ** How the code is represented

    A Rust function is a definition of the same name.  A panic (index out of
    range, arithmetic overflow, [unwrap] of nothing) is [None]; an error the
    code returns is a value ([result], or the error of [prog]).  Integers are
    [Z], kept to their width where the code can overflow ([fits], [wrap_add],
    [sat_inc8]); slices and vectors are lists.  Code that mutates a structure
    through many calls runs in the state, error and panic monad [prog] below,
    with a weakest precondition [wp] for proofs; smaller components pass
    their state explicitly.  A lock-protected function is one step.

    Code outside these files enters as a parameter: the block device of ext2
    (class [Device], with its laws), the file system as the security checks
    see it (class [Services]), the frames that caches give back under memory
    pressure (an argument of [raw_alloc]), HMAC-SHA1, PBKDF2, AES key wrap
    and AES-CCM (class [Crypto], with the laws [CryptoLaws]: lengths, and
    that unwrapping and decrypting undo wrapping and encrypting), disk drivers
    under the block cache and the frames it can have (class [Disks], with the
    laws [DisksLaws]).  Theorems that rely on a law of a parameter come with a
    witness that instantiates it.

    ** What is proved

    - Pipes: the 88-slot table of ring buffers refines a table of byte
      queues, operation by operation (C1); over any run the bytes read are
      the bytes written, in order ([pipe_stream_conserved]); a blocked reader or writer is woken
      by whatever ends its wait ([pipe_no_lost_wakeup]); the 8-bit end counts are exact up to
      255; anonymous pipes and FIFOs do not take each other's slots.
    - ext2: an accepted superblock describes groups that partition the disk
      (C26), superblock copies sit at powers of 3, 5, 7; the cache refines a
      flat disk (C2) and a flush makes it durable (C28); block allocation
      (C27) and freeing do what they say to bitmaps, counters and the block,
      free counts stay exact, the bit scan returns the first clear bit; the
      inode codec round-trips, the block-map path addresses every file block
      once, reads return the file's bytes (C29), directory blocks gain (C40)
      and lose exactly one entry.
    - Files in memory: the table refines two finite maps over any calls from
      boot (C5); what the calls leave is a tree, with
      every link counted and every FIFO's pipe its own (C30);
      a file unlinked while open keeps its bytes ([unlinked_file_lives_on]).
      The calls have paths without a NUL, which the layer above refuses, and
      are fewer than 64 bits can count.
    - Terminals: over any calls and bytes typed the input refines a queue and
      a line (C6); the control file's text, written
      back, sets what it says (C35), but that a console without
      a keyboard map asks for one named none.
    - Pairs, over every interleaving of calls: output comes out as it went in
      (C9); a pair lives as long as it is used and its counts
      are exact, if it keeps a counted descriptor while a call on it goes on
      (C10); a path in a pair's directory leads to it
      ([dir_roundtrip]).  Seven defects: a newline that never ends
      ([newline_put_off]), output lost at the end of a session
      ([read_fails_before_drained]), a pair freed under a read
      ([pair_freed_under_read]), a new session hung up for the one before
      ([next_session_hung_up]), input of a session read by the one before
      ([dead_reader_gets_input]), a slave opened on another pair
      ([open_gets_other_pair]), and a pair leaked by a descriptor closed
      before it is counted ([early_close_leaks]).
    - Serial input: the staging ring, used without a lock from two sides, is
      a queue until it is found full (C25); then it can lose
      nearly all it holds ([overrun_loses_ring]).  An end of input typed at
      the console is never read ([console_eof_ignored]).
    - Mappings: the table refines a map from pages to protection and backing
      over any run of the calls (C3), and lookups and range checks answer as
      that map says ([mmap_lookup_exact]).  Two defects: an offset that panics
      ([mmap_offset_panics]), and fixed mappings that overlap
      ([fixed_mapping_race]).
    - File locks: the table refines a map from bytes to holders (C4); what
      lets a waiter in wakes it ([lock_waiters_woken]); a sleeping [flock] holds nothing
      ([flock_waits_empty_handed]).
    - Block cache, over every interleaving of calls and sectors: no panic,
      no stale byte, no frame lost or held twice (C7); a read that no write
      overlaps returns the disk's bytes (C8).  Two defects: a failed write
      stays in the cache ([failed_write_stays_cached]), and writes of one sector at once can leave
      the cache and the disk different ([overlapping_writes_diverge]).
    - Partition tables: what the builder writes the kernel reads, also from
      the backup when the primary is damaged (C34); on any disk the reader
      does not panic and finds only ranges inside the disk (C36).
    - Disks and partitions, over every interleaving of the calls: paths and
      devices correspond for lookups that find a disk in one slot
      (C32); a scan returns when no disk is being read
      ([scan_returns_when_read]).  Through a cache that has only the disks'
      bytes, writes of bytes are exact and stay in their partition, and leave
      the cache so (C31); reads give the partition's bytes
      ([device_reads_exact]).  Four defects: a lookup led astray by a disk
      replaced meanwhile ([path_leads_astray]), a disk that comes
      into use as it is unregistered goes all the same
      ([unregister_takes_disk_in_use]), its id is given out before the cache
      forgets it ([id_reused_before_forget]), and a scan may not wait for a
      task that has yet to claim a disk ([scan_returns_early]).
    - Scheduler, over every interleaving of the processors' steps: a task is
      on one processor at a time (C11) and never forgotten (C12); no wake is
      missed (C13); a queued task is reached within a round of picks (C14);
      no processor sleeps on work of its own (C15); deadlines are kept
      by the ticks that get the lock (C16).  Three defects: the deadline of a timer armed during a tick can
      be lost ([timer_deadline_lost]), a blocked signal sent as its target
      begins to wait can be missed ([sigwait_wake_lost]), a long alarm
      interval overflows in the timer interrupt ([alarm_overflow_panics]).
    - Wireless: whatever is heard, keys come only from frames authentic
      under the shared secret (C17); with an honest access point both ends
      agree (C18); no nonce is used twice in the first 2^48 - 1
      operations (C19), nothing stopping the link there ([nonce_wraps]); no frame is
      accepted twice under one installation of a key (C20); what one end
      seals the other opens ([sealed_frames_open]).  Two defects: a forged message 1 locks a
      station out ([forged_message1_locks_out]), and a group key confirmed again lets old frames in
      ([group_key_replays]).
    - SHA-256 in streaming form is that of the standard, bit for bit (C38).
    - Policy: default deny and exact rights, every accepted policy is well
      formed (C37), the parser is total on ASCII text (C39), patterns,
      labels, domain changes, namespaces confine (C23), and two facts of the
      built-in policy (C22 and [builtin_policy_guarded]).
    - Checks: complete mediation (C21), renames of trees, logins, policy
      loads, mode bits, boot.
    - Frames: no frame has two owners, over any sequence of calls (C24); the
      user reserve's line is never reached ([reserve_line_never_reached], a
      defect).
    - Boot archive: round trip of the files that have bytes (C33) and a total reader.

    ** Bounds and fuel

    Loops whose measure is not structural take fuel.  [Cpio.parse] gets one
    turn per 110 bytes, the size of a header, and [cpio_parse_total] shows it
    never runs out.  [Frames.bump_while] gets three turns per region: a
    second turn is past the kernel image and a third can only stop (part of
    C24).  The policy parser's loops take the length of the line (C39).
    [Sec.may_rename] walks a tree with fuel above its size.  ext2 recursions
    follow the three levels of the block map or a count of blocks.
    [TaskSet.drain] takes 64 turns, one per bit of a word.
    [Vm.mmap_range_in] takes a turn per region and one more: each turn moves
    past the end of one ([mmap_lookup_exact]).  The clock of [BlkCache.evict] takes two turns
    per entry, as the code's loop does, and a run of missing chunks at most
    [MAX_RUN].  The loops of [BlkIo.v] take a turn per byte, or per chunk in
    the cache, each moving one at least.  The walks over key data in [Wpa.v] take its length, each
    element being at least two bytes.  The runs of the scheduler, the cache
    and a link are finite sequences of any length.

    ** Not modelled

    Hardware: the architecture layers, interrupt controllers, page tables,
    IOMMUs, device drivers and the USB stack act on registers and memory no
    model here describes.  Third-party code: the network stack of the network
    daemon.  Kernel parts tied to page tables or to the tables of every other
    part (system calls, address spaces, page cache, the virtual file system,
    [/proc]); of the task lifecycle, what the scheduler does not see (fork's
    copies, exec's image, exit statuses, job control), and of the scheduler
    the switch of registers and address spaces, the checks of saved frames,
    CPU-time accounting and the hardware timer.  Of the wireless client, the
    drivers, scanning and association, and the loop that polls the radio
    during the handshake.  Compression of the boot archive.  User programs
    and the host's other image and test tools.  The glue that serves the
    ext2 library to the kernel. *)

From Stdlib Require Import ZArith Lia.
From stdpp Require Export base tactics numbers list option.

Open Scope Z_scope.

(** ** Lists addressed by machine integers

    Rust indexes slices with [usize]; the models keep such values in [Z].
    Every access that Rust checks at run time is an [option], [None]
    standing for the panic of the check. *)

Abbreviation zlen l := (Z.of_nat (length l)).

(** [l[i]] *)
Definition zget {A} (l : list A) (i : Z) : option A :=
  if 0 <=? i then l !! Z.to_nat i else None.

(** [l[i] = x] *)
Definition zset {A} (l : list A) (i : Z) (x : A) : option (list A) :=
  if (0 <=? i) && (i <? zlen l) then Some (<[Z.to_nat i := x]> l) else None.

(** [&l[a..b]] *)
Definition slice {A} (l : list A) (a b : Z) : option (list A) :=
  if (0 <=? a) && (a <=? b) && (b <=? zlen l)
  then Some (take (Z.to_nat (b - a)) (drop (Z.to_nat a) l)) else None.

(** [l] with the elements from [a] on overwritten by [src]. *)
Definition splice {A} (l : list A) (a : Z) (src : list A) : list A :=
  take (Z.to_nat a) l ++ src ++ drop (Z.to_nat a + length src) l.

(** [l[a..b].copy_from_slice(src)] *)
Definition copy_slice {A} (l : list A) (a b : Z) (src : list A) : option (list A) :=
  if (0 <=? a) && (a <=? b) && (b <=? zlen l) && (zlen src =? b - a)
  then Some (splice l a src) else None.

(** ** Automation

    [bool_hyps] turns the boolean tests of the models into propositions;
    [case_if] splits the [if]s of a goal or hypothesis on their test;
    [zn] is [lia] after those steps. *)

Ltac bool_hyps :=
  repeat match goal with
  | H : (_ && _)%bool = true |- _ => apply andb_true_iff in H; destruct H
  | H : (_ || _)%bool = false |- _ => apply orb_false_iff in H; destruct H
  | H : negb _ = true |- _ => apply negb_true_iff in H
  | H : negb _ = false |- _ => apply negb_false_iff in H
  | H : (_ <=? _) = true |- _ => apply Z.leb_le in H
  | H : (_ <=? _) = false |- _ => apply Z.leb_gt in H
  | H : (_ <? _) = true |- _ => apply Z.ltb_lt in H
  | H : (_ <? _) = false |- _ => apply Z.ltb_ge in H
  | H : (_ =? _) = true |- _ => apply Z.eqb_eq in H
  | H : (_ =? _) = false |- _ => apply Z.eqb_neq in H
  end.

Ltac case_if :=
  match goal with
  | |- context [if ?b then _ else _] => destruct b eqn:?
  | H : context [if ?b then _ else _] |- _ => destruct b eqn:?
  end; bool_hyps.

(** Lengths of list expressions, rewritten to arithmetic. *)
Create Rewrite HintDb lens.
#[export] Hint Rewrite @length_app @length_take @length_drop @length_replicate
  @length_insert @length_fmap @length_reverse @length_zip_with : lens.

Ltac lens := autorewrite with lens in *; simpl length in *.
Ltac zn := bool_hyps; lens; try lia.

(** Forget the body of a local definition, keeping it as an equation. *)
Ltac abstract_let x :=
  let H := fresh "E" x in
  let v := eval cbv delta [x] in x in
  assert (H : x = v) by reflexivity; clearbody x.

(** [lia] with the quotients and remainders of the goal made variables. *)
Ltac zdiv := Z.to_euclidean_division_equations; nia.

(** ** Laws of the accessors *)

Section accessors.
Context {A : Type}.
Implicit Types (l src : list A) (a b i : Z).

Lemma zget_some l i x : zget l i = Some x → 0 <= i < zlen l.
Proof. unfold zget. case_if; [|done]. intros H%lookup_lt_Some. lia. Qed.

Lemma zget_lookup l i : 0 <= i → zget l i = l !! Z.to_nat i.
Proof. unfold zget. intros. case_if; [done|lia]. Qed.

Lemma zget_is_some l i : 0 <= i < zlen l → ∃ x, zget l i = Some x.
Proof.
  intros. rewrite zget_lookup by lia.
  apply lookup_lt_is_Some_2. lia.
Qed.

Lemma slice_ok l a b :
  0 <= a → a <= b → b <= zlen l →
  slice l a b = Some (take (Z.to_nat (b - a)) (drop (Z.to_nat a) l)).
Proof. intros. unfold slice. case_if; [done|]. lia. Qed.

Lemma slice_length l a b s : slice l a b = Some s → zlen s = b - a.
Proof. unfold slice. case_if; [|done]. intros [= <-]. zn. Qed.

Lemma splice_length l a src :
  0 <= a → a + zlen src <= zlen l → length (splice l a src) = length l.
Proof. intros. unfold splice. zn. Qed.

Lemma splice_lookup_in l a src (i : nat) :
  0 <= a → a + zlen src <= zlen l →
  a <= Z.of_nat i < a + zlen src →
  splice l a src !! i = src !! (i - Z.to_nat a)%nat.
Proof.
  intros. unfold splice.
  rewrite lookup_app_r by zn. rewrite length_take, Nat.min_l by lia.
  rewrite lookup_app_l by zn. done.
Qed.

Lemma splice_lookup_out l a src (i : nat) :
  0 <= a → a + zlen src <= zlen l →
  Z.of_nat i < a ∨ a + zlen src <= Z.of_nat i →
  splice l a src !! i = l !! i.
Proof.
  intros ?? [Hi|Hi]; unfold splice.
  - rewrite lookup_app_l by zn. rewrite lookup_take_lt by lia. done.
  - rewrite lookup_app_r by zn. rewrite length_take, Nat.min_l by lia.
    rewrite lookup_app_r by zn. rewrite lookup_drop. f_equal. lia.
Qed.

Lemma copy_slice_ok l a b src :
  0 <= a → a <= b → b <= zlen l → zlen src = b - a →
  copy_slice l a b src = Some (splice l a src).
Proof. intros. unfold copy_slice. case_if; [done|]. lia. Qed.

Lemma slice_splice l a src :
  0 <= a → a + zlen src <= zlen l → slice (splice l a src) a (a + zlen src) = Some src.
Proof.
  intros. rewrite slice_ok by (rewrite ?splice_length; lia). f_equal. unfold splice.
  rewrite drop_app_length' by zn. apply take_app_length'. lia.
Qed.

(** What a copy leaves alone. *)
Lemma slice_splice_out l a src x y :
  0 <= a → a + zlen src <= zlen l → y <= a ∨ a + zlen src <= x →
  slice (splice l a src) x y = slice l x y.
Proof.
  intros Ha Hl Hd. unfold slice. rewrite splice_length by lia. case_if; [|done]. f_equal.
  apply list_eq. intros i. destruct (decide (i < Z.to_nat (y - x))%nat).
  - rewrite !lookup_take_lt, !lookup_drop by done. apply splice_lookup_out; lia.
  - by rewrite !lookup_take_ge by lia.
Qed.

(** A copy and a part of it, by index. *)
Lemma zget_splice l a src o : 0 <= a → a + zlen src <= zlen l →
  zget (splice l a src) o = (if (a <=? o) && (o <? a + zlen src) then zget src (o - a) else zget l o).
Proof.
  intros Ha Hl. destruct (Z.leb_spec 0 o) as [Ho|Ho].
  2:{ unfold zget. rewrite !(proj2 (Z.leb_gt _ _)) by lia. destruct (a <=? o) eqn:E; bool_hyps; [lia|done]. }
  case_if.
  - rewrite !zget_lookup by lia. rewrite splice_lookup_in by lia. f_equal. lia.
  - rewrite !zget_lookup by lia. apply splice_lookup_out; [lia..|]. destruct (a <=? o) eqn:E; bool_hyps; [right|left]; lia.
Qed.

Lemma zget_slice l a b s o : slice l a b = Some s → zget s o = (if (0 <=? o) && (o <? b - a) then zget l (a + o) else None).
Proof.
  unfold slice. case_if; [|done]. intros [= <-]. destruct (Z.leb_spec 0 o) as [Ho|Ho].
  2:{ unfold zget. by rewrite (proj2 (Z.leb_gt 0 o)) by lia. }
  rewrite zget_lookup by lia. cbn. case_if.
  - rewrite lookup_take_lt by lia. rewrite zget_lookup, lookup_drop by lia. f_equal. lia.
  - by rewrite lookup_take_ge by lia.
Qed.

(** A part of what was copied. *)
Lemma slice_splice_in l a src x y :
  0 <= a → a + zlen src <= zlen l → a <= x → y <= a + zlen src → slice (splice l a src) x y = slice src (x - a) (y - a).
Proof.
  intros Ha Hl Hx Hy. unfold slice. rewrite splice_length by lia.
  destruct ((0 <=? x) && (x <=? y) && (y <=? zlen l)) eqn:E1, ((0 <=? x - a) && (x - a <=? y - a) && (y - a <=? zlen src)) eqn:E2;
    bool_hyps; [|lia| |done].
  - f_equal. replace (y - a - (x - a)) with (y - x) by lia. unfold splice.
    rewrite drop_app_ge, length_take, Nat.min_l by (lens; lia). rewrite drop_app_le by lia. rewrite take_app_le by (lens; lia). do 2 f_equal. lia.
  - apply andb_false_iff in E1 as [E1|E1]; [apply andb_false_iff in E1 as [E1|E1]|]; bool_hyps; lia.
Qed.

(** Parts of a concatenation, and parts that are in range. *)
Lemma slice_prefix (x l : list A) a b : b <= zlen x → slice (x ++ l) a b = slice x a b.
Proof.
  intros Hb. unfold slice. rewrite length_app.
  replace (b <=? Z.of_nat (length x + length l)) with true by (symmetry; apply Z.leb_le; lia).
  replace (b <=? zlen x) with true by (symmetry; apply Z.leb_le; lia).
  destruct (_ && _) eqn:E; [|done]. bool_hyps. f_equal. rewrite drop_app_le by lia. apply take_app_le. lens. lia.
Qed.

Lemma slice_skip (x l : list A) a b : zlen x <= a → slice (x ++ l) a b = slice l (a - zlen x) (b - zlen x).
Proof.
  intros Ha. unfold slice. rewrite length_app.
  replace (0 <=? a) with true by (symmetry; apply Z.leb_le; lia).
  replace (0 <=? a - zlen x) with true by (symmetry; apply Z.leb_le; lia).
  replace (a - zlen x <=? b - zlen x) with (a <=? b) by (apply eq_iff_eq_true; rewrite !Z.leb_le; lia).
  replace (b <=? Z.of_nat (length x + length l)) with (b - zlen x <=? zlen l) by (apply eq_iff_eq_true; rewrite !Z.leb_le; lia).
  destruct (_ && _) eqn:E; [|done]. bool_hyps. f_equal.
  rewrite drop_app_ge by lia. f_equal; [lia|]. f_equal. lia.
Qed.

Lemma slice_some (f : list A) a b : 0 <= a → a <= b → b <= zlen f → ∃ s, slice f a b = Some s.
Proof. intros. rewrite slice_ok by done. by eexists. Qed.

End accessors.

(** ** Machine integers

    The sources are built with overflow checks, so an operation whose exact
    result does not fit its type panics. *)

Definition U16_MAX : Z := 2 ^ 16 - 1.
Definition U32_MAX : Z := 2 ^ 32 - 1.
Definition U64_MAX : Z := 2 ^ 64 - 1.

(** The exact result [v] of an operation on [w]-bit unsigned integers. *)
Definition fits (w v : Z) : option Z :=
  if (0 <=? v) && (v <? 2 ^ w) then Some v else None.

Definition add32 (a b : Z) : option Z := fits 32 (a + b).
Definition mul32 (a b : Z) : option Z := fits 32 (a * b).
Definition add64 (a b : Z) : option Z := fits 64 (a + b).

Lemma fits_in w v : 0 <= v < 2 ^ w → fits w v = Some v.
Proof. intros. unfold fits. case_if; [done|lia]. Qed.

Lemma add64_in a b : 0 <= a + b < 2 ^ 64 → add64 a b = Some (a + b).
Proof. apply fits_in. Qed.

(** [a - b] on unsigned integers of any width. *)
Definition usub (a b : Z) : option Z := if b <=? a then Some (a - b) else None.

(** [a / b], [a % b], [a.div_ceil(b)]: a zero divisor panics. *)
Definition udiv (a b : Z) : option Z := if b =? 0 then None else Some (a / b).
Definition umod (a b : Z) : option Z := if b =? 0 then None else Some (a mod b).
Definition div_ceil (a b : Z) : option Z :=
  if b =? 0 then None else Some (if a mod b =? 0 then a / b else a / b + 1).

(** ** Little-endian bytes *)

Fixpoint le_val (l : list Z) : Z :=
  match l with [] => 0 | b :: l' => b + 256 * le_val l' end.

Fixpoint le_bytes (n : nat) (v : Z) : list Z :=
  match n with O => [] | S n' => v mod 256 :: le_bytes n' (v / 256) end.

Definition is_byte (b : Z) : Prop := 0 <= b < 256.

(** A decision procedure for concrete byte strings. *)
Definition bytesb (l : list Z) : bool := forallb (λ b, (0 <=? b) && (b <? 256)) l.

Lemma slice_bytes f a b s : Forall is_byte f → slice f a b = Some s → Forall is_byte s.
Proof. intros Hf. unfold slice. destruct (_ && _); [|done]. intros [= <-]. by apply Forall_take, Forall_drop. Qed.

Lemma bytesb_bytes l : bytesb l = true → Forall is_byte l.
Proof.
  induction l as [|b l IH]; cbn [bytesb forallb]; intros H; constructor; bool_hyps.
  - unfold is_byte. lia.
  - by apply IH.
Qed.

Lemma le_bytes_length n v : length (le_bytes n v) = n.
Proof. revert v. induction n; intros v; simpl; [done|]. by rewrite IHn. Qed.
#[export] Hint Rewrite le_bytes_length : lens.

Lemma le_val_bytes n v : 0 <= v < 256 ^ Z.of_nat n → le_val (le_bytes n v) = v.
Proof.
  revert v. induction n as [|n IH]; intros v Hv; cbn [le_bytes le_val].
  - change (256 ^ Z.of_nat 0) with 1 in Hv. lia.
  - rewrite Nat2Z.inj_succ, Z.pow_succ_r in Hv by lia. rewrite IH.
    + pose proof (Z.div_mod v 256). lia.
    + split; [apply Z.div_pos; lia|]. apply Z.div_lt_upper_bound; lia.
Qed.

Lemma le_bytes_val l : Forall is_byte l → le_bytes (length l) (le_val l) = l.
Proof.
  induction 1 as [|b l Hb _ IH]; [done|]. cbn [length le_val le_bytes]. unfold is_byte in Hb.
  replace (b + 256 * le_val l) with (b + le_val l * 256) by lia.
  rewrite Z.mod_add, Z.mod_small, Z.div_add, Z.div_small by lia. by rewrite Z.add_0_l, IH.
Qed.

Lemma le_val_range l : Forall is_byte l → 0 <= le_val l < 256 ^ zlen l.
Proof.
  induction 1 as [|b l Hb _ IH]; [done|]. cbn [length le_val].
  rewrite Nat2Z.inj_succ, Z.pow_succ_r by lia. unfold is_byte in Hb. lia.
Qed.

Lemma le_bytes_are_bytes n v : Forall is_byte (le_bytes n v).
Proof.
  revert v. induction n; intros v; cbn [le_bytes]; constructor; [|done].
  apply Z.mod_pos_bound. lia.
Qed.

(** ** Fallible programs with state

    [prog S E A] is a Rust function on [&mut S] that returns
    [Result<A, E>]: it gives back the result and the state, or panics
    ([None]).  The bind is the [?] operator: an [Err] ends the function,
    keeping the state changes made so far. *)

Inductive result (E A : Type) := Ok (a : A) | Err (e : E).
Arguments Ok {E A} a.
Arguments Err {E A} e.

Definition prog (S E A : Type) : Type := S → option (result E A * S).

#[export] Instance prog_ret {S E} : MRet (prog S E) := λ A a s, Some (Ok a, s).
#[export] Instance prog_bind {S E} : MBind (prog S E) := λ A B k m s,
  match m s with
  | Some (Ok a, s') => k a s'
  | Some (Err e, s') => Some (Err e, s')
  | None => None
  end.

(** [return Err(e)] *)
Definition throw {S E A} (e : E) : prog S E A := λ s, Some (Err e, s).
(** A pure computation that may panic. *)
Definition checked {S E A} (o : option A) : prog S E A :=
  λ s, a ← o; Some (Ok a, s).
(** A pure computation that may panic or fail. *)
Definition lift_result {S E A} (o : option (result E A)) : prog S E A :=
  λ s, r ← o; Some (r, s).
Definition get_state {S E} : prog S E S := λ s, Some (Ok s, s).
Definition set_state {S E} (s : S) : prog S E () := λ _, Some (Ok tt, s).
(** The [Result] of a call as a value ([match f() { Ok(..) ... Err(..) ... }]). *)
Definition attempt {S E A} (m : prog S E A) : prog S E (result E A) := λ s,
  match m s with Some (r, s') => Some (Ok r, s') | None => None end.

(** ** Weakest preconditions

    [wp m Q s]: [m] started in [s] does not panic, and its result and final
    state satisfy [Q]. *)

Definition wp {S E A} (m : prog S E A) (Q : result E A → S → Prop) (s : S) : Prop :=
  match m s with Some (r, s') => Q r s' | None => False end.

Section wp.
Context {S E : Type}.
Implicit Types (s : S).

Lemma wp_ret {A} (a : A) Q s : Q (Ok a) s → wp (mret a : prog S E A) Q s.
Proof. done. Qed.

Lemma wp_throw {A} (e : E) Q s : Q (Err e) s → wp (throw e : prog S E A) Q s.
Proof. done. Qed.

Lemma wp_get (Q : result E S → S → Prop) s : Q (Ok s) s → wp get_state Q s.
Proof. done. Qed.

Lemma wp_set s' (Q : result E () → S → Prop) s : Q (Ok tt) s' → wp (set_state s') Q s.
Proof. done. Qed.

Lemma wp_checked {A} (o : option A) a (Q : result E A → S → Prop) s :
  o = Some a → Q (Ok a) s → wp (checked o) Q s.
Proof. intros -> ?. done. Qed.

Lemma wp_lift {A} (o : option (result E A)) r Q s :
  o = Some r → Q r s → wp (lift_result o) Q s.
Proof. intros -> ?. done. Qed.

Lemma wp_mono {A} (m : prog S E A) (P Q : result E A → S → Prop) s :
  wp m P s → (∀ r s', P r s' → Q r s') → wp m Q s.
Proof. unfold wp. destruct (m s) as [[r s']|]; auto. Qed.

Lemma wp_bind {A B} (m : prog S E A) (k : A → prog S E B) Q s :
  wp m (λ r s', match r with Ok a => wp (k a) Q s' | Err e => Q (Err e) s' end) s →
  wp (x ← m; k x) Q s.
Proof. unfold wp, mbind, prog_bind. by destruct (m s) as [[[]]|]. Qed.

(** Two steps of a longer program, taken together. *)
Lemma wp_assoc {A B C} (m : prog S E A) (k : A → prog S E B) (h : B → prog S E C) Q s :
  wp (x ← m; k x) (λ r s', match r with Ok b => wp (h b) Q s' | Err e => Q (Err e) s' end) s →
  wp m (λ r s', match r with Ok a => wp (y ← k a; h y) Q s' | Err e => Q (Err e) s' end) s.
Proof.
  unfold wp, mbind, prog_bind. destruct (m s) as [[[a|e] s']|]; [|done..].
  by destruct (k a s') as [[[]]|].
Qed.

Lemma wp_attempt {A} (m : prog S E A) Q s :
  wp m (λ r s', Q (Ok r) s') s → wp (attempt m) Q s.
Proof. unfold wp, attempt. by destruct (m s) as [[]|]. Qed.

(** From a specification back to the run it is about. *)
Lemma wp_run {A} (m : prog S E A) Q s :
  wp m Q s ↔ ∃ r s', m s = Some (r, s') ∧ Q r s'.
Proof.
  unfold wp. destruct (m s) as [[r s']|]; split.
  - intros HQ. eauto.
  - intros (?&?&[= <- <-]&HQ). done.
  - done.
  - by intros (?&?&?&?).
Qed.
End wp.

(** Symbolic execution: one step of the program at the head of the goal. *)
Ltac wp_step :=
  match goal with
  | |- wp (mbind _ _) _ _ => apply wp_bind
  | |- wp (mret _) _ _ => apply wp_ret
  | |- wp (throw _) _ _ => apply wp_throw
  | |- wp get_state _ _ => apply wp_get
  | |- wp (set_state _) _ _ => apply wp_set
  | |- wp (attempt _) _ _ => apply wp_attempt
  end; cbv beta iota.
Ltac wp_steps := repeat wp_step.

(** ** Loops over lists *)

Section loops.
Context {S E : Type}.

(** [for x in l { acc = f(acc, x)?; }] *)
Fixpoint fold_m {A B} (f : B → A → prog S E B) (l : list A) (acc : B) : prog S E B :=
  match l with
  | [] => mret acc
  | x :: l' => acc' ← f acc x; fold_m f l' acc'
  end.

(** [for x in l { if let Some(b) = f(x)? { return Some(b); } } None] *)
Fixpoint find_m {A B} (f : A → prog S E (option B)) (l : list A) : prog S E (option B) :=
  match l with
  | [] => mret None
  | x :: l' => o ← f x; match o with Some b => mret (Some b) | None => find_m f l' end
  end.

(** The rule of a loop that accumulates: an invariant [I] of what is left. *)
Lemma wp_fold_m {A B} (f : B → A → prog S E B) (I : list A → B → S → Prop)
    (Q : result E B → S → Prop) l acc s :
  I l acc s →
  (∀ x l' acc s, I (x :: l') acc s →
     wp (f acc x) (λ r s', match r with Ok a => I l' a s' | Err e => Q (Err e) s' end) s) →
  (∀ acc s, I [] acc s → Q (Ok acc) s) →
  wp (fold_m f l acc) Q s.
Proof.
  intros HI Hf HQ. revert acc s HI. induction l as [|x l IH]; intros acc s HI; cbn [fold_m].
  - apply wp_ret; auto.
  - apply wp_bind. eapply wp_mono; [by apply Hf|]. intros [a|e] s'; auto.
Qed.

(** The rule of a search: [I l s] holds while nothing is found, with [l] left. *)
Lemma wp_find_m {A B} (f : A → prog S E (option B)) (I : list A → S → Prop)
    (Q : result E (option B) → S → Prop) l s :
  I l s →
  (∀ x l' s, I (x :: l') s →
     wp (f x) (λ r s', match r with
       | Ok None => I l' s'
       | Ok (Some b) => Q (Ok (Some b)) s'
       | Err e => Q (Err e) s' end) s) →
  (∀ s, I [] s → Q (Ok None) s) →
  wp (find_m f l) Q s.
Proof.
  intros HI Hf HQ. revert s HI. induction l as [|x l IH]; intros s HI; cbn [find_m].
  - apply wp_ret; auto.
  - apply wp_bind. eapply wp_mono; [by apply Hf|]. intros [[b|]|e] s'; auto.
Qed.
End loops.

(** A program on one part of a larger state. *)
Definition zoom {S T E A} (get : T → S) (set : T → S → T) (m : prog S E A) : prog T E A := λ t,
  match m (get t) with Some (r, s) => Some (r, set t s) | None => None end.

Lemma wp_zoom {S T E A} (get : T → S) (set : T → S → T) (m : prog S E A) Q t :
  wp m (λ r s, Q r (set t s)) (get t) → wp (zoom get set m) Q t.
Proof. unfold wp, zoom. by destruct (m (get t)) as [[]|]. Qed.
