(* ===== verification/Pipe.v ===== *)
(** * Pipes ([kernel/src/pipe.rs])

    The system-wide table of pipe rings behind [pipe(2)] and named FIFOs.
    [State] is what the module's statics hold: the slots under [PIPES], the
    change counters [CHANGES], and the wake-ups handed to the scheduler, in
    order.  Each operation is the whole function of the same name; one that
    indexes a slice returns an [option], [None] being Rust's panic. *)

From S2P Require Import Prelude.

Definition ANON_PIPES : nat := 64.
Definition MAX_PIPES : nat := 64 + 24.
Definition PIPE_BUF : Z := 4096.
Definition USIZE_MAX : Z := 2 ^ 64 - 1.

Record Pipe := {
  data : list Z;
  head : Z;
  len : Z;
  readers : Z;
  writers : Z;
  write_closed : bool;
  named : bool;
  read_opens : Z;
  write_opens : Z;
}.

(** What [notify] and [write] tell the scheduler. *)
Inductive wake := WakePipe (id : nat) | WakeAny.

Record State := {
  PIPES : list (option Pipe);
  CHANGES : list Z;
  wakes : list wake;
}.

Definition initial : State := {|
  PIPES := replicate MAX_PIPES None;
  CHANGES := replicate MAX_PIPES 0;
  wakes := [];
|}.

(** ** Field updates *)

Definition set_ends (p : Pipe) (r w : Z) (closed : bool) : Pipe := {|
  data := data p; head := head p; len := len p;
  readers := r; writers := w; write_closed := closed; named := named p;
  read_opens := read_opens p; write_opens := write_opens p |}.

Definition set_ring (p : Pipe) (d : list Z) (h l : Z) : Pipe := {|
  data := d; head := h; len := l;
  readers := readers p; writers := writers p;
  write_closed := write_closed p; named := named p;
  read_opens := read_opens p; write_opens := write_opens p |}.

Definition set_named (p : Pipe) (n : bool) : Pipe := {|
  data := data p; head := head p; len := len p;
  readers := readers p; writers := writers p;
  write_closed := write_closed p; named := n;
  read_opens := read_opens p; write_opens := write_opens p |}.

Definition set_opens (p : Pipe) (ro wo : Z) : Pipe := {|
  data := data p; head := head p; len := len p;
  readers := readers p; writers := writers p;
  write_closed := write_closed p; named := named p;
  read_opens := ro; write_opens := wo |}.

(** [pipes[id] = slot] *)
Definition put (st : State) (id : nat) (slot : option Pipe) : State := {|
  PIPES := <[id := slot]> (PIPES st); CHANGES := CHANGES st; wakes := wakes st |}.

(** [pipes.get_mut(id).and_then(|s| s.as_mut())] *)
Definition pipe_at (st : State) (id : nat) : option Pipe :=
  mjoin (PIPES st !! id).

Definition emit (st : State) (ws : list wake) : State := {|
  PIPES := PIPES st; CHANGES := CHANGES st; wakes := wakes st ++ ws |}.

(** [u8::saturating_add(1)], [u8::saturating_sub(1)], [u32::wrapping_add(1)] *)
Definition sat_inc8 (x : Z) : Z := Z.min (x + 1) 255.
Definition sat_dec8 (x : Z) : Z := Z.max (x - 1) 0.
Definition wrap_inc32 (x : Z) : Z := (x + 1) mod 2 ^ 32.

(** ** The operations *)

Definition changed (st : State) (id : nat) : State :=
  match CHANGES st !! id with
  | Some c => {| PIPES := PIPES st;
                 CHANGES := <[id := (c + 1) mod 2 ^ 64]> (CHANGES st);
                 wakes := wakes st |}
  | None => st
  end.

Definition changes (st : State) (id : nat) : Z := default 0 (CHANGES st !! id).

Definition notify (st : State) (id : nat) : State :=
  emit (changed st id) [WakePipe id; WakeAny].

Definition free (st : State) (id : nat) : State := put st id None.

Definition fresh_pipe (nm : bool) : Pipe := {|
  data := replicate (Z.to_nat PIPE_BUF) 0; head := 0; len := 0;
  readers := 0; writers := 0; write_closed := false; named := nm;
  read_opens := 0; write_opens := 0 |}.

(** The first empty slot [i] with [from <= i < to]. *)
Fixpoint scan_free {A} (slots : list (option A)) (i from to : nat) : option nat :=
  match slots with
  | [] => None
  | s :: rest =>
      if bool_decide (from ≤ i)%nat && bool_decide (i < to)%nat
         && match s with None => true | Some _ => false end
      then Some i else scan_free rest (S i) from to
  end.

Definition alloc_in (st : State) (from to : nat) (nm : bool) : option nat * State :=
  match scan_free (PIPES st) 0 from to with
  | Some i => (Some i, put st i (Some (fresh_pipe nm)))
  | None => (None, st)
  end.

Definition alloc (st : State) : option nat * State := alloc_in st 0 ANON_PIPES false.

Definition alloc_named (st : State) : option nat * State :=
  alloc_in st ANON_PIPES MAX_PIPES true.

Definition add_reader (st : State) (id : nat) : bool * State :=
  match pipe_at st id with
  | None => (false, st)
  | Some p =>
      (true, put st id (Some (set_ends p (sat_inc8 (readers p)) (writers p) (write_closed p))))
  end.

Definition add_writer (st : State) (id : nat) : bool * State :=
  match pipe_at st id with
  | None => (false, st)
  | Some p =>
      (true, put st id (Some (set_ends p (readers p) (sat_inc8 (writers p)) (write_closed p))))
  end.

Definition release_if_idle (st : State) (id : nat) : State :=
  match pipe_at st id with
  | None => st
  | Some p =>
      if negb (readers p =? 0) || negb (writers p =? 0) then st
      else if named p then
        put st id (Some (set_ends (set_ring p (data p) 0 0) (readers p) (writers p) false))
      else put st id None
  end.

Definition drop_reader (st : State) (id : nat) : bool * State :=
  match pipe_at st id with
  | None => (false, st)
  | Some p =>
      let r := sat_dec8 (readers p) in
      let last := r =? 0 in
      let p' := set_ends p r (writers p) (last || write_closed p) in
      (last, notify (release_if_idle (put st id (Some p')) id) id)
  end.

Definition drop_writer (st : State) (id : nat) : bool * State :=
  match pipe_at st id with
  | None => (false, st)
  | Some p =>
      let w := sat_dec8 (writers p) in
      let last := w =? 0 in
      let p' := set_ends p (readers p) w (last || write_closed p) in
      (last, notify (release_if_idle (put st id (Some p')) id) id)
  end.

Definition fifo_unlink (st : State) (id : nat) : State :=
  match pipe_at st id with
  | None => st
  | Some p =>
      if (readers p =? 0) && (writers p =? 0) then put st id None
      else put st id (Some (set_named p false))
  end.

Definition fifo_ends (st : State) (id : nat) : option (Z * Z * Z * Z) :=
  (λ p, (readers p, writers p, read_opens p, write_opens p)) <$> pipe_at st id.

Definition fifo_attach (st : State) (id : nat) (rd wr : bool) : bool * State :=
  match pipe_at st id with
  | None => (false, st)
  | Some p =>
      let r := if rd then sat_inc8 (readers p) else readers p in
      let ro := if rd then wrap_inc32 (read_opens p) else read_opens p in
      let w := if wr then sat_inc8 (writers p) else writers p in
      let wo := if wr then wrap_inc32 (write_opens p) else write_opens p in
      let p' := set_opens (set_ends p r w (w =? 0)) ro wo in
      (true, notify (put st id (Some p')) id)
  end.

(** [read(id, out)]: the result, the caller's buffer after it, the state. *)
Definition read (st : State) (id : nat) (out : list Z)
    : option (option Z * list Z * State) :=
  match pipe_at st id with
  | None => Some (Some USIZE_MAX, out, st)
  | Some p =>
      if len p =? 0 then
        Some ((if write_closed p then Some 0 else None), out, st)
      else
        let was_full := PIPE_BUF <=? len p in
        let n := Z.min (zlen out) (len p) in
        let first := Z.min n (PIPE_BUF - head p) in
        a ← slice (data p) (head p) (head p + first);
        out1 ← copy_slice out 0 first a;
        b ← slice (data p) 0 (n - first);
        out2 ← copy_slice out1 first n b;
        let p' := set_ring p (data p) ((head p + n) mod PIPE_BUF) (len p - n) in
        let st' := put st id (Some p') in
        if was_full then Some (Some n, out2, notify st' id)
        else Some (Some n, out2, st')
  end.

Definition write (st : State) (id : nat) (src : list Z) : option (Z * State) :=
  match pipe_at st id with
  | None => Some (USIZE_MAX, st)
  | Some p =>
      if readers p =? 0 then Some (USIZE_MAX, st)
      else
        let was_empty := len p =? 0 in
        let room := PIPE_BUF - len p in
        let n := Z.min (zlen src) room in
        let tail := (head p + len p) mod PIPE_BUF in
        let first := Z.min n (PIPE_BUF - tail) in
        a ← slice src 0 first;
        d1 ← copy_slice (data p) tail (tail + first) a;
        b ← slice src first n;
        d2 ← copy_slice d1 0 (n - first) b;
        let st' := put st id (Some (set_ring p d2 (head p) (len p + n))) in
        if n =? 0 then Some (n, st')
        else if was_empty then Some (n, notify st' id)
        else Some (n, emit (changed st' id) [WakeAny])
  end.

Definition read_closed (st : State) (id : nat) : bool :=
  match pipe_at st id with Some p => write_closed p | None => false end.

Definition readers_gone (st : State) (id : nat) : bool :=
  match pipe_at st id with Some p => readers p =? 0 | None => false end.

Definition write_would_block (st : State) (id : nat) : bool :=
  match pipe_at st id with
  | Some p => (PIPE_BUF <=? len p) && negb (write_closed p)
  | None => false
  end.

Definition read_would_block (st : State) (id : nat) : bool :=
  match pipe_at st id with
  | Some p => (len p =? 0) && negb (write_closed p)
  | None => false
  end.

(** ** Well-formedness and the abstract queue *)

(** The bytes waiting in the ring, oldest first. *)
Definition contents (p : Pipe) : list Z :=
  take (Z.to_nat (len p))
    (drop (Z.to_nat (head p)) (data p) ++ take (Z.to_nat (head p)) (data p)).

Record wf_pipe (p : Pipe) : Prop := {
  wf_data : zlen (data p) = PIPE_BUF;
  wf_head : 0 <= head p < PIPE_BUF;
  wf_len : 0 <= len p <= PIPE_BUF;
  wf_readers : 0 <= readers p <= 255;
  wf_writers : 0 <= writers p <= 255;
}.

Record wf (st : State) : Prop := {
  wf_slots : length (PIPES st) = MAX_PIPES;
  wf_changes : length (CHANGES st) = MAX_PIPES;
  wf_at : ∀ id p, pipe_at st id = Some p →
    wf_pipe p ∧ (named p = true → (ANON_PIPES ≤ id)%nat);
}.

Lemma contents_length p : wf_pipe p → zlen (contents p) = len p.
Proof. intros []. unfold contents. zn. Qed.

Lemma contents_lookup p (i : nat) :
  wf_pipe p → Z.of_nat i < len p →
  contents p !! i = data p !! Z.to_nat ((head p + Z.of_nat i) mod PIPE_BUF).
Proof.
  intros [Hd Hh Hl _ _] Hi. unfold contents, PIPE_BUF in *.
  rewrite lookup_take_lt by lia.
  destruct (Z_lt_ge_dec (head p + Z.of_nat i) 4096).
  - rewrite Z.mod_small by lia. rewrite lookup_app_l by zn.
    rewrite lookup_drop. f_equal. lia.
  - rewrite (Z.mod_eq _ 4096) by lia.
    replace ((head p + Z.of_nat i) / 4096) with 1 by zdiv.
    rewrite lookup_app_r by zn. rewrite length_drop.
    rewrite lookup_take_lt by zn. f_equal. lia.
Qed.

(** A list is the ring's contents when it has the right length and each of
    its elements is the ring cell the source would read. *)
Lemma contents_eq p l :
  wf_pipe p → zlen l = len p →
  (∀ i : nat, Z.of_nat i < len p →
     l !! i = data p !! Z.to_nat ((head p + Z.of_nat i) mod PIPE_BUF)) →
  contents p = l.
Proof.
  intros Hwf Hlen H. apply list_eq_same_length with (length l); [done| |].
  - pose proof (contents_length p Hwf). lia.
  - intros i x y Hi. rewrite contents_lookup by (done || lia).
    rewrite H by lia. congruence.
Qed.

Lemma splice_app_prefix {A} (a l b : list A) :
  (length a + length b ≤ length a + length l)%nat →
  splice (a ++ l) (zlen a) b = a ++ b ++ drop (length b) l.
Proof.
  intros. unfold splice. rewrite Nat2Z.id.
  rewrite take_app_length. rewrite drop_app_ge by lia.
  do 3 f_equal. lia.
Qed.

Lemma contents_take p n :
  wf_pipe p → 0 <= n <= len p →
  take (Z.to_nat n) (contents p) =
  take (Z.to_nat (Z.min n (PIPE_BUF - head p))) (drop (Z.to_nat (head p)) (data p)) ++
  take (Z.to_nat (n - Z.min n (PIPE_BUF - head p))) (data p).
Proof.
  intros [Hd Hh Hl _ _] Hn. unfold contents.
  rewrite take_take, Nat.min_l by lia. rewrite take_app, take_take, length_drop.
  f_equal; [|f_equal; lia].
  destruct (Z_le_gt_dec n (PIPE_BUF - head p)).
  - f_equal. lia.
  - rewrite !take_ge; [done|zn..].
Qed.

Lemma read_copies p (out : list Z) n :
  wf_pipe p → n = Z.min (zlen out) (len p) →
  let first := Z.min n (PIPE_BUF - head p) in
  ∃ a b out1,
    slice (data p) (head p) (head p + first) = Some a ∧
    copy_slice out 0 first a = Some out1 ∧
    slice (data p) 0 (n - first) = Some b ∧
    copy_slice out1 first n b =
      Some (take (Z.to_nat n) (contents p) ++ drop (Z.to_nat n) out).
Proof.
  intros Hwf Hn first. pose proof Hwf as [Hd Hh Hl _ _].
  abstract_let first. do 3 eexists. split; [apply slice_ok; lia|].
  split; [apply copy_slice_ok; zn|]. split; [apply slice_ok; lia|].
  rewrite contents_take by (done || lia). rewrite <- Efirst.
  replace (head p + first - head p) with first by lia. rewrite Z.sub_0_r.
  change (drop (Z.to_nat 0) (data p)) with (data p).
  set (a := take _ (drop _ (data p))). set (b := take _ (data p)).
  assert (Ha : zlen a = first) by (subst a; zn).
  assert (Hb : zlen b = n - first) by (subst b; zn).
  rewrite copy_slice_ok; [|zn|zn| |zn].
  2:{ rewrite splice_length; lia. }
  f_equal. unfold splice at 2. simpl. rewrite <- Ha.
  rewrite splice_app_prefix by zn. rewrite <- app_assoc. do 2 f_equal.
  rewrite drop_drop. f_equal. lia.
Qed.

Lemma read_consumes p n :
  wf_pipe p → 0 <= n <= len p →
  let p' := set_ring p (data p) ((head p + n) mod PIPE_BUF) (len p - n) in
  wf_pipe p' ∧ contents p' = drop (Z.to_nat n) (contents p).
Proof.
  intros Hwf Hn p'. pose proof (contents_length p Hwf) as Hc.
  assert (Hwf' : wf_pipe p').
  { destruct Hwf. subst p'. unfold PIPE_BUF in *. split; simpl; unfold PIPE_BUF; zdiv. }
  split; [done|]. apply contents_eq; [done|subst p'; simpl; zn|].
  intros i Hi. simpl in Hi. rewrite lookup_drop, contents_lookup by (done || lia).
  simpl. rewrite Z.add_mod_idemp_l by done. do 3 f_equal. lia.
Qed.

Lemma write_cell p (src : list Z) n (i : nat) :
  wf_pipe p → n = Z.min (zlen src) (PIPE_BUF - len p) →
  Z.of_nat i < len p + n →
  let tail := (head p + len p) mod PIPE_BUF in
  let first := Z.min n (PIPE_BUF - tail) in
  let d1 := splice (data p) tail (take (Z.to_nat first) src) in
  splice d1 0 (take (Z.to_nat (n - first)) (drop (Z.to_nat first) src))
    !! Z.to_nat ((head p + Z.of_nat i) mod PIPE_BUF) =
  (contents p ++ take (Z.to_nat n) src) !! i.
Proof.
  intros Hwf Hn Hi tail first d1. pose proof Hwf as [Hd Hh Hl _ _].
  unfold PIPE_BUF in *. pose proof (contents_length p Hwf) as Hc.
  assert (Ht : 0 <= tail < 4096) by (apply Z.mod_pos_bound; done).
  abstract_let tail. abstract_let first.
  assert (Hd1 : length d1 = length (data p)) by (apply splice_length; zn).
  set (pos := (head p + Z.of_nat i) mod 4096).
  assert (Hpos : 0 <= pos < 4096) by (apply Z.mod_pos_bound; done).
  abstract_let pos.
  destruct (Z_lt_ge_dec (Z.of_nat i) (len p)) as [Hold|Hnew].
  - assert (pos < tail ∨ tail + first <= pos) by zdiv.
    assert (n - first <= pos) by zdiv.
    rewrite splice_lookup_out by zn. unfold d1. rewrite splice_lookup_out by zn.
    rewrite lookup_app_l by lia. rewrite contents_lookup by done. subst. done.
  - rewrite lookup_app_r by lia. rewrite lookup_take_lt by lia.
    destruct (Z_lt_ge_dec (Z.of_nat i - len p) first).
    + assert (pos = tail + (Z.of_nat i - len p)) by zdiv.
      assert (n - first <= pos) by zdiv.
      rewrite splice_lookup_out by zn. unfold d1. rewrite splice_lookup_in by zn.
      rewrite lookup_take_lt by lia. f_equal. lia.
    + assert (pos = Z.of_nat i - len p - first) by zdiv.
      rewrite splice_lookup_in by zn. rewrite lookup_take_lt by lia.
      rewrite lookup_drop. f_equal. lia.
Qed.

Lemma write_appends p (src : list Z) n :
  wf_pipe p → n = Z.min (zlen src) (PIPE_BUF - len p) →
  let tail := (head p + len p) mod PIPE_BUF in
  let first := Z.min n (PIPE_BUF - tail) in
  ∃ a b d1 d2,
    slice src 0 first = Some a ∧
    copy_slice (data p) tail (tail + first) a = Some d1 ∧
    slice src first n = Some b ∧
    copy_slice d1 0 (n - first) b = Some d2 ∧
    wf_pipe (set_ring p d2 (head p) (len p + n)) ∧
    contents (set_ring p d2 (head p) (len p + n)) =
      contents p ++ take (Z.to_nat n) src.
Proof.
  intros Hwf Hn tail first. pose proof Hwf as [Hd Hh Hl Hr Hw].
  pose proof (contents_length p Hwf) as Hc.
  assert (Ht : 0 <= tail < PIPE_BUF) by (apply Z.mod_pos_bound; done).
  assert (Hf : first = Z.min n (PIPE_BUF - tail)) by done.
  assert (Hs : zlen (take (Z.to_nat first) src) = first) by zn.
  assert (Hs2 : zlen (take (Z.to_nat (n - first)) (drop (Z.to_nat first) src)) = n - first) by zn.
  do 4 eexists. split; [apply slice_ok; lia|]. rewrite Z.sub_0_r.
  change (drop (Z.to_nat 0) src) with src.
  split; [apply copy_slice_ok; lia|]. split; [apply slice_ok; lia|].
  assert (Hd1 : length (splice (data p) tail (take (Z.to_nat first) src)) = length (data p))
    by (apply splice_length; lia).
  split; [apply copy_slice_ok; lia|].
  match goal with |- wf_pipe ?q ∧ _ => assert (Hwf' : wf_pipe q) end.
  { split; simpl; try lia. rewrite splice_length; lia. }
  split; [done|]. apply contents_eq; [done|simpl; zn|].
  intros i Hi. symmetry. simpl in *. by apply write_cell.
Qed.

(** ** The abstract specification

    A pipe is a bounded queue of bytes with its two reference counts; the
    table is a list of such queues.  [spec] says what each operation answers
    and what it leaves. *)

Record APipe := {
  a_queue : list Z;
  a_readers : Z;
  a_writers : Z;
  a_closed : bool;
  a_named : bool;
  a_read_opens : Z;
  a_write_opens : Z;
}.

Definition abs (p : Pipe) : APipe := {|
  a_queue := contents p; a_readers := readers p; a_writers := writers p;
  a_closed := write_closed p; a_named := named p;
  a_read_opens := read_opens p; a_write_opens := write_opens p |}.

Definition abs_table (st : State) : list (option APipe) := (λ s : option Pipe, abs <$> s) <$> PIPES st.

Inductive op :=
  | Alloc | AllocNamed | Free (id : nat)
  | AddReader (id : nat) | AddWriter (id : nat)
  | DropReader (id : nat) | DropWriter (id : nat)
  | FifoUnlink (id : nat) | FifoAttach (id : nat) (rd wr : bool)
  | Read (id : nat) (out : list Z) | Write (id : nat) (src : list Z).

Inductive reply :=
  | RUnit | RId (i : option nat) | RBool (b : bool)
  | RRead (n : option Z) (out : list Z) | RWrite (n : Z).

Definition exec (o : op) (st : State) : option (reply * State) :=
  match o with
  | Alloc => let '(i, st') := alloc st in Some (RId i, st')
  | AllocNamed => let '(i, st') := alloc_named st in Some (RId i, st')
  | Free id => Some (RUnit, free st id)
  | AddReader id => let '(b, st') := add_reader st id in Some (RBool b, st')
  | AddWriter id => let '(b, st') := add_writer st id in Some (RBool b, st')
  | DropReader id => let '(b, st') := drop_reader st id in Some (RBool b, st')
  | DropWriter id => let '(b, st') := drop_writer st id in Some (RBool b, st')
  | FifoUnlink id => Some (RUnit, fifo_unlink st id)
  | FifoAttach id rd wr => let '(b, st') := fifo_attach st id rd wr in Some (RBool b, st')
  | Read id out => '(n, out', st') ← read st id out; Some (RRead n out', st')
  | Write id src => '(n, st') ← write st id src; Some (RWrite n, st')
  end.

Definition a_fresh (nm : bool) : APipe := {|
  a_queue := []; a_readers := 0; a_writers := 0; a_closed := false; a_named := nm;
  a_read_opens := 0; a_write_opens := 0 |}.

Definition a_alloc (t : list (option APipe)) (from to : nat) (nm : bool) :=
  match scan_free t 0 from to with
  | Some i => (RId (Some i), <[i := Some (a_fresh nm)]> t)
  | None => (RId None, t)
  end.

(** The pipe after its end counts became [r] and [w]: gone once both ends
    are, unless a FIFO node keeps it (then it is emptied and open again). *)
Definition a_settle (a : APipe) (r w : Z) (closed : bool) : option APipe :=
  if (r =? 0) && (w =? 0) then
    if a_named a then
      Some (Build_APipe [] r w false true (a_read_opens a) (a_write_opens a))
    else None
  else Some (Build_APipe (a_queue a) r w closed (a_named a)
               (a_read_opens a) (a_write_opens a)).

Definition a_on (t : list (option APipe)) (id : nat) (missing : reply)
    (f : APipe → reply * option APipe) : reply * list (option APipe) :=
  match mjoin (t !! id) with
  | None => (missing, t)
  | Some a => let '(r, a') := f a in (r, <[id := a']> t)
  end.

Definition a_ends (a : APipe) (r w : Z) (closed : bool) : APipe :=
  Build_APipe (a_queue a) r w closed (a_named a) (a_read_opens a) (a_write_opens a).

Definition a_requeue (a : APipe) (q : list Z) : APipe :=
  Build_APipe q (a_readers a) (a_writers a) (a_closed a) (a_named a)
    (a_read_opens a) (a_write_opens a).

Definition spec (o : op) (t : list (option APipe)) : reply * list (option APipe) :=
  match o with
  | Alloc => a_alloc t 0 ANON_PIPES false
  | AllocNamed => a_alloc t ANON_PIPES MAX_PIPES true
  | Free id => (RUnit, <[id := None]> t)
  | AddReader id => a_on t id (RBool false) (λ a,
      (RBool true, Some (a_ends a (sat_inc8 (a_readers a)) (a_writers a) (a_closed a))))
  | AddWriter id => a_on t id (RBool false) (λ a,
      (RBool true, Some (a_ends a (a_readers a) (sat_inc8 (a_writers a)) (a_closed a))))
  | DropReader id => a_on t id (RBool false) (λ a,
      let r := sat_dec8 (a_readers a) in
      (RBool (r =? 0), a_settle a r (a_writers a) ((r =? 0) || a_closed a)))
  | DropWriter id => a_on t id (RBool false) (λ a,
      let w := sat_dec8 (a_writers a) in
      (RBool (w =? 0), a_settle a (a_readers a) w ((w =? 0) || a_closed a)))
  | FifoUnlink id => a_on t id RUnit (λ a,
      (RUnit, if (a_readers a =? 0) && (a_writers a =? 0) then None
              else Some (Build_APipe (a_queue a) (a_readers a) (a_writers a) (a_closed a) false
                           (a_read_opens a) (a_write_opens a))))
  | FifoAttach id rd wr => a_on t id (RBool false) (λ a,
      let w := if wr then sat_inc8 (a_writers a) else a_writers a in
      (RBool true, Some (Build_APipe (a_queue a)
         (if rd then sat_inc8 (a_readers a) else a_readers a) w (w =? 0) (a_named a)
         (if rd then wrap_inc32 (a_read_opens a) else a_read_opens a)
         (if wr then wrap_inc32 (a_write_opens a) else a_write_opens a))))
  | Read id out => a_on t id (RRead (Some USIZE_MAX) out) (λ a,
      match a_queue a with
      | [] => (RRead (if a_closed a then Some 0 else None) out, Some a)
      | q => let n := Nat.min (length out) (length q) in
             (RRead (Some (Z.of_nat n)) (take n q ++ drop n out), Some (a_requeue a (drop n q)))
      end)
  | Write id src => a_on t id (RWrite USIZE_MAX) (λ a,
      if a_readers a =? 0 then (RWrite USIZE_MAX, Some a)
      else let n := Nat.min (length src) (Z.to_nat PIPE_BUF - length (a_queue a)) in
           (RWrite (Z.of_nat n), Some (a_requeue a (a_queue a ++ take n src))))
  end.

(** ** Lemmas on the table *)

Lemma pipe_at_lookup st id p : pipe_at st id = Some p ↔ PIPES st !! id = Some (Some p).
Proof. unfold pipe_at. destruct (PIPES st !! id) as [[]|]; simpl; naive_solver. Qed.

Lemma abs_table_at st id : mjoin (abs_table st !! id) = abs <$> pipe_at st id.
Proof.
  unfold abs_table, pipe_at. rewrite list_lookup_fmap.
  by destruct (PIPES st !! id) as [[]|].
Qed.

Lemma abs_table_put st id s :
  abs_table (put st id s) = <[id := abs <$> s]> (abs_table st).
Proof. unfold abs_table. simpl. by rewrite list_fmap_insert. Qed.

Lemma abs_table_same st id p :
  pipe_at st id = Some p → <[id := Some (abs p)]> (abs_table st) = abs_table st.
Proof.
  intros H%pipe_at_lookup. apply list_insert_id.
  unfold abs_table. by rewrite list_lookup_fmap, H.
Qed.

Lemma changed_pipes st id : PIPES (changed st id) = PIPES st.
Proof. unfold changed. by destruct (CHANGES st !! id). Qed.

Lemma changed_wakes st id : wakes (changed st id) = wakes st.
Proof. unfold changed. by destruct (CHANGES st !! id). Qed.

Lemma abs_table_changed st id : abs_table (changed st id) = abs_table st.
Proof. unfold abs_table. by rewrite changed_pipes. Qed.

Lemma wf_changed st id : wf st → wf (changed st id).
Proof.
  intros [Hs Hc Ha]. split.
  - by rewrite changed_pipes.
  - unfold changed. destruct (CHANGES st !! id); simpl; [by rewrite length_insert|done].
  - intros i p. unfold pipe_at. rewrite changed_pipes. apply Ha.
Qed.

Lemma abs_table_emit st ws : abs_table (emit st ws) = abs_table st.
Proof. done. Qed.

Lemma wf_emit st ws : wf st → wf (emit st ws).
Proof. by intros []. Qed.

Lemma pipe_at_put st id id' s :
  (id < length (PIPES st))%nat →
  pipe_at (put st id s) id' = if decide (id = id') then s else pipe_at st id'.
Proof.
  intros. unfold pipe_at. simpl. case_decide; subst.
  - by rewrite list_lookup_insert_eq by lia.
  - by rewrite list_lookup_insert_ne.
Qed.

Lemma pipe_at_bound st id p : pipe_at st id = Some p → (id < length (PIPES st))%nat.
Proof. intros H%pipe_at_lookup. by eapply lookup_lt_Some. Qed.

Lemma wf_put st id s :
  wf st →
  (∀ p, s = Some p → wf_pipe p ∧ (named p = true → (ANON_PIPES ≤ id)%nat)) →
  wf (put st id s).
Proof.
  intros [Hs Hc Ha] Hp. split; simpl; [by rewrite length_insert|done|].
  intros i p. destruct (decide (id < length (PIPES st))%nat).
  - rewrite pipe_at_put by done. case_decide; [subst; apply Hp|apply Ha].
  - unfold pipe_at. simpl. rewrite list_insert_ge by lia. apply Ha.
Qed.

Lemma wf_notify st id : wf st → wf (notify st id).
Proof. intros. by apply wf_emit, wf_changed. Qed.

Lemma abs_table_notify st id : abs_table (notify st id) = abs_table st.
Proof. apply abs_table_changed. Qed.

Lemma scan_free_fmap {A B} (f : A → B) (l : list (option A)) i from to :
  scan_free ((λ s : option A, f <$> s) <$> l) i from to = scan_free l i from to.
Proof. revert i. induction l as [|[] l IH]; intros i; simpl; by rewrite ?IH. Qed.

Lemma scan_free_some {A} (l : list (option A)) k from to i :
  scan_free l k from to = Some i →
  (k ≤ i)%nat ∧ (from ≤ i < to)%nat ∧ l !! (i - k)%nat = Some None ∧
  ∀ j, (from ≤ j < i)%nat → (k ≤ j)%nat → ∃ a, l !! (j - k)%nat = Some (Some a).
Proof.
  revert k. induction l as [|s l IH]; intros k; simpl; [done|].
  destruct (bool_decide (from ≤ k)%nat && bool_decide (k < to)%nat && _) eqn:E.
  - intros [= <-]. repeat (apply andb_true_iff in E as [E ?]).
    apply bool_decide_eq_true in E. apply bool_decide_eq_true in H0.
    destruct s; [done|]. rewrite Nat.sub_diag. repeat split; [lia..|]. intros; lia.
  - intros (Hk & Hft & Hl & Hj)%IH. split; [lia|]. split; [done|].
    replace (i - k)%nat with (S (i - S k)) by lia. split; [done|].
    intros j Hji Hkj. destruct (decide (j = k)) as [->|].
    + rewrite Nat.sub_diag. destruct s as [a|]; [by exists a|].
      rewrite !bool_decide_true in E by lia. done.
    + replace (j - k)%nat with (S (j - S k)) by lia. apply Hj; lia.
Qed.

Lemma scan_free_none {A} (l : list (option A)) k from to :
  scan_free l k from to = None →
  ∀ j, (from ≤ j < to)%nat → (k ≤ j < k + length l)%nat →
  ∃ a, l !! (j - k)%nat = Some (Some a).
Proof.
  revert k. induction l as [|s l IH]; intros k; simpl; [intros; lia|].
  destruct (bool_decide (from ≤ k)%nat && bool_decide (k < to)%nat && _) eqn:E; [done|].
  intros H j Hft Hj. destruct (decide (j = k)) as [->|].
  - rewrite Nat.sub_diag. destruct s as [a|]; [by exists a|].
    rewrite !bool_decide_true in E by lia. done.
  - replace (j - k)%nat with (S (j - S k)) by lia. apply (IH (S k)); [done|lia..].
Qed.

(** ** The operations refine the specification *)

Definition simulates (o : op) : Prop :=
  ∀ st, wf st → ∃ r st',
    exec o st = Some (r, st') ∧ wf st' ∧ spec o (abs_table st) = (r, abs_table st').

(** An operation on a missing pipe leaves everything as it is. *)
Ltac on_pipe st id :=
  unfold a_on; rewrite (abs_table_at st id);
  destruct (pipe_at st id) as [p|] eqn:Hp; simpl; [|by eauto].

Lemma wf_pipe_fresh nm : wf_pipe (fresh_pipe nm).
Proof. split; done. Qed.

Lemma abs_fresh nm : abs (fresh_pipe nm) = a_fresh nm.
Proof. reflexivity. Qed.

Lemma alloc_in_simulates st from to nm :
  wf st → (nm = true → (ANON_PIPES ≤ from)%nat) →
  let '(i, st') := alloc_in st from to nm in
  wf st' ∧ a_alloc (abs_table st) from to nm = (RId i, abs_table st').
Proof.
  intros Hwf Hnm. unfold alloc_in, a_alloc, abs_table at 1.
  rewrite scan_free_fmap. destruct (scan_free _ _ _ _) as [i|] eqn:E; [|done].
  apply scan_free_some in E as (_ & Hi & _). split.
  - apply wf_put; [done|]. intros p [= <-]. split; [apply wf_pipe_fresh|].
    simpl. intros H%Hnm. lia.
  - by rewrite abs_table_put.
Qed.

Lemma wf_pipe_ends p r w c :
  wf_pipe p → 0 <= r <= 255 → 0 <= w <= 255 → wf_pipe (set_ends p r w c).
Proof. intros [] ??. by split. Qed.

Lemma settle_simulates st id p r w c :
  wf st → pipe_at st id = Some p → 0 <= r <= 255 → 0 <= w <= 255 →
  let st' := release_if_idle (put st id (Some (set_ends p r w c))) id in
  wf st' ∧ abs_table st' = <[id := a_settle (abs p) r w c]> (abs_table st).
Proof.
  intros Hwf Hp Hr Hw st'. pose proof (pipe_at_bound _ _ _ Hp) as Hb.
  destruct (wf_at _ Hwf _ _ Hp) as [Hwp Hnm].
  assert (Hpe : wf_pipe (set_ends p r w c)) by (by apply wf_pipe_ends).
  assert (Hput : wf (put st id (Some (set_ends p r w c)))).
  { apply wf_put; [done|]. by intros q [= <-]. }
  subst st'. unfold release_if_idle. rewrite pipe_at_put by done.
  rewrite decide_True by done. simpl. unfold a_settle. simpl.
  destruct (Z.eqb_spec r 0), (Z.eqb_spec w 0); simpl;
    try (split; [done|by rewrite abs_table_put]).
  destruct (named p) eqn:En.
  - split; [|rewrite !abs_table_put, list_insert_insert_eq; unfold abs; simpl; by rewrite En].
    apply wf_put; [done|]. intros q [= <-]. split; [|auto].
    destruct Hwp. by split.
  - split; [by apply wf_put|]. by rewrite !abs_table_put, list_insert_insert_eq.
Qed.

Lemma sat_dec8_range x : 0 <= x <= 255 → 0 <= sat_dec8 x <= 255.
Proof. unfold sat_dec8. lia. Qed.

Lemma sat_inc8_range x : 0 <= x <= 255 → 0 <= sat_inc8 x <= 255.
Proof. unfold sat_inc8. lia. Qed.

Create HintDb pipes.
#[export] Hint Resolve sat_dec8_range sat_inc8_range wf_readers wf_writers
  wf_notify wf_changed wf_emit wf_pipe_ends : pipes.

(** Storing a pipe that keeps its slot's naming right. *)
Lemma put_simulates st id p p' :
  wf st → pipe_at st id = Some p → wf_pipe p' → (named p' = true → named p = true) →
  wf (put st id (Some p')) ∧
  abs_table (put st id (Some p')) = <[id := Some (abs p')]> (abs_table st).
Proof.
  intros Hwf Hp Hp' Hn. split; [|apply abs_table_put].
  apply wf_put; [done|]. intros q [= <-]. destruct (wf_at _ Hwf _ _ Hp). naive_solver.
Qed.

Lemma end_ops_simulate o :
  match o with Read _ _ | Write _ _ => False | _ => True end → simulates o.
Proof.
  intros Ho st Hwf. destruct o; try done; simpl.
  - pose proof (alloc_in_simulates st 0 ANON_PIPES false Hwf) as H.
    unfold alloc. destruct (alloc_in _ _ _ _), H as [? ->]; [done|]. eauto.
  - pose proof (alloc_in_simulates st ANON_PIPES MAX_PIPES true Hwf) as H.
    unfold alloc_named. destruct (alloc_in _ _ _ _), H as [? ->]; [done|]. eauto.
  - do 2 eexists. split; [done|]. split; [by apply wf_put|].
    unfold free. by rewrite abs_table_put.
  - unfold add_reader. on_pipe st id. do 2 eexists. split; [done|].
    destruct (put_simulates st id p (set_ends p (sat_inc8 (readers p)) (writers p) (write_closed p)))
      as [? ->]; [done..| |done|done].
    destruct (wf_at _ Hwf _ _ Hp). eauto with pipes.
  - unfold add_writer. on_pipe st id. do 2 eexists. split; [done|].
    destruct (put_simulates st id p (set_ends p (readers p) (sat_inc8 (writers p)) (write_closed p)))
      as [? ->]; [done..| |done|done].
    destruct (wf_at _ Hwf _ _ Hp). eauto with pipes.
  - unfold drop_reader. on_pipe st id. destruct (wf_at _ Hwf _ _ Hp) as [Hwp _].
    do 2 eexists. split; [done|]. rewrite abs_table_notify.
    edestruct settle_simulates as [? ->]; eauto with pipes.
  - unfold drop_writer. on_pipe st id. destruct (wf_at _ Hwf _ _ Hp) as [Hwp _].
    do 2 eexists. split; [done|]. rewrite abs_table_notify.
    edestruct settle_simulates as [? ->]; eauto with pipes.
  - unfold fifo_unlink. on_pipe st id. destruct (wf_at _ Hwf _ _ Hp) as [Hwp _].
    do 2 eexists. split; [done|]. case_if.
    + split; [by apply wf_put|]. by rewrite abs_table_put.
    + destruct (put_simulates st id p (set_named p false)) as [? ->]; try done.
      destruct Hwp. by split.
  - unfold fifo_attach. on_pipe st id. destruct (wf_at _ Hwf _ _ Hp) as [Hwp _].
    do 2 eexists. split; [done|]. rewrite abs_table_notify.
    edestruct put_simulates as [? ->]; [done..| | |eauto with pipes]; [|done].
    pose proof (wf_readers _ Hwp). pose proof (wf_writers _ Hwp).
    destruct Hwp. destruct rd, wr; split; simpl; eauto with pipes.
Qed.

Lemma read_simulates id out : simulates (Read id out).
Proof.
  intros st Hwf. simpl. unfold read. on_pipe st id.
  destruct (wf_at _ Hwf _ _ Hp) as [Hwp _]. pose proof (contents_length p Hwp) as Hc.
  destruct (Z.eqb_spec (len p) 0) as [E|E].
  - rewrite E in Hc. destruct (contents p) eqn:Ec; [|simpl in Hc; lia].
    do 2 eexists. split; [done|]. split; [done|]. by rewrite (abs_table_same st id p Hp).
  - set (n := Z.min (zlen out) (len p)). pose proof (wf_len _ Hwp).
    destruct (read_copies p out n Hwp eq_refl) as (a & b & out1 & -> & Ho1 & Hb & Ho2).
    simpl. rewrite Ho1. simpl. rewrite Hb. simpl. rewrite Ho2. simpl.
    destruct (read_consumes p n Hwp) as [Hwp' Hc']; [lia|].
    set (p' := set_ring p _ _ _) in *.
    destruct (put_simulates st id p p') as [Hwf' Ha]; [done..|].
    assert (Hn : Z.to_nat n = Nat.min (length out) (length (contents p))) by lia.
    destruct (contents p) as [|c q] eqn:Ec; [simpl in Hc; lia|].
    case_if; do 2 eexists; (split; [done|]);
      rewrite ?abs_table_notify, Ha; (split; [by eauto with pipes|]);
      unfold abs, a_requeue; simpl; rewrite Hc', Hn; repeat f_equal;
      simpl in *; unfold n; lia.
Qed.

Lemma write_simulates id src : simulates (Write id src).
Proof.
  intros st Hwf. simpl. unfold write. on_pipe st id.
  destruct (wf_at _ Hwf _ _ Hp) as [Hwp _]. pose proof (contents_length p Hwp) as Hc.
  case_if; [do 2 eexists; split; [done|]; split; [done|]; by rewrite (abs_table_same st id p Hp)|].
  set (n := Z.min (zlen src) (PIPE_BUF - len p)). pose proof (wf_len _ Hwp).
  destruct (write_appends p src n Hwp eq_refl) as (a & b & d1 & d2 & -> & Hd1 & Hb & Hd2 & Hwp' & Hc').
  simpl. rewrite Hd1. simpl. rewrite Hb. simpl. rewrite Hd2. simpl.
  set (p' := set_ring p _ _ _) in *.
  destruct (put_simulates st id p p') as [Hwf' Ha]; [done..|].
  assert (Hn : Z.to_nat n = Nat.min (length src) (Z.to_nat PIPE_BUF - length (contents p))) by lia.
  repeat case_if; do 2 eexists; (split; [done|]);
    rewrite ?abs_table_notify, ?abs_table_emit, ?abs_table_changed, Ha;
    (split; [by eauto with pipes|]);
    unfold abs, a_requeue; simpl; rewrite Hc', <- Hn; repeat f_equal; unfold n; lia.
Qed.

(** ** Runs of operations *)

Fixpoint exec_all (os : list op) (st : State) : option (list reply * State) :=
  match os with
  | [] => Some ([], st)
  | o :: os' =>
      '(r, st1) ← exec o st;
      '(rs, st2) ← exec_all os' st1;
      Some (r :: rs, st2)
  end.

Fixpoint spec_all (os : list op) (t : list (option APipe)) : list reply * list (option APipe) :=
  match os with
  | [] => ([], t)
  | o :: os' =>
      let '(r, t1) := spec o t in
      let '(rs, t2) := spec_all os' t1 in (r :: rs, t2)
  end.

Lemma exec_simulates o : simulates o.
Proof.
  destruct o; try by apply end_ops_simulate.
  - apply read_simulates.
  - apply write_simulates.
Qed.

Lemma exec_all_simulates os st :
  wf st → ∃ rs st',
    exec_all os st = Some (rs, st') ∧ wf st' ∧
    spec_all os (abs_table st) = (rs, abs_table st').
Proof.
  revert st. induction os as [|o os IH]; intros st Hwf; simpl; [by eauto|].
  destruct (exec_simulates o st Hwf) as (r & st1 & -> & Hwf1 & ->). simpl.
  destruct (IH st1 Hwf1) as (rs & st2 & -> & Hwf2 & ->). simpl. eauto.
Qed.

Lemma wf_initial : wf initial.
Proof.
  split; [done..|]. intros id p H%pipe_at_lookup.
  change (PIPES initial) with (replicate MAX_PIPES (@None Pipe)) in H.
  apply lookup_replicate in H as [? _]. done.
Qed.

(** C1. Starting from the empty table, every sequence of pipe operations
    runs to the end without a panic (no index or slice of the ring code is
    ever out of range), and answers exactly what the bounded-queue
    specification answers, ending in a well-formed table that represents the
    specification's. *)
Theorem pipe_table_refines_queues os :
  ∃ rs st', exec_all os initial = Some (rs, st') ∧ wf st' ∧
    spec_all os (replicate MAX_PIPES None) = (rs, abs_table st').
Proof. apply (exec_all_simulates os initial wf_initial). Qed.

(** The bytes writes put into pipe [id] and reads took out of it, in order. *)
Definition accepted1 (id : nat) (o : op) (r : reply) : list Z :=
  match o, r with
  | Write i src, RWrite n =>
      if decide (i = id) then if n =? USIZE_MAX then [] else take (Z.to_nat n) src else []
  | _, _ => []
  end.

Definition delivered1 (id : nat) (o : op) (r : reply) : list Z :=
  match o, r with
  | Read i _, RRead (Some n) out =>
      if decide (i = id) then if n =? USIZE_MAX then [] else take (Z.to_nat n) out else []
  | _, _ => []
  end.

Definition accepted (id : nat) (os : list op) (rs : list reply) : list Z :=
  concat (zip_with (accepted1 id) os rs).

Definition delivered (id : nat) (os : list op) (rs : list reply) : list Z :=
  concat (zip_with (delivered1 id) os rs).

(** An operation that closes no end of pipe [id]. *)
Definition keeps (id : nat) (o : op) : Prop :=
  match o with
  | Free i | DropReader i | DropWriter i | FifoUnlink i => i ≠ id
  | _ => True
  end.

Lemma a_on_at t i missing f id a r t' :
  mjoin (t !! id) = Some a → a_on t i missing f = (r, t') →
  if decide (i = id)
  then r = (f a).1 ∧ mjoin (t' !! id) = (f a).2
  else mjoin (t' !! id) = Some a.
Proof.
  unfold a_on. intros Ha. case_decide; subst.
  - rewrite Ha. destruct (f a) as [r1 a1]. intros [= <- <-]. split; [done|].
    assert (id < length t)%nat.
    { destruct (t !! id) eqn:E; [|done]. by eapply lookup_lt_Some. }
    by rewrite list_lookup_insert_eq.
  - destruct (mjoin (t !! i)) as [b|]; [|by intros [= <- <-]].
    destruct (f b). intros [= <- <-]. by rewrite list_lookup_insert_ne.
Qed.

Lemma a_alloc_at t from to nm id a r t' :
  mjoin (t !! id) = Some a → a_alloc t from to nm = (r, t') → mjoin (t' !! id) = Some a.
Proof.
  unfold a_alloc. intros Ha. destruct (scan_free _ _ _ _) as [i|] eqn:E; intros [= <- <-]; [|done].
  apply scan_free_some in E as (_ & _ & Hi & _). rewrite Nat.sub_0_r in Hi.
  rewrite list_lookup_insert_ne; [done|]. intros ->. by rewrite Hi in Ha.
Qed.

Lemma not_usize_max (n : nat) : Z.of_nat n <= PIPE_BUF → (Z.of_nat n =? USIZE_MAX) = false.
Proof. unfold PIPE_BUF, USIZE_MAX. intros. apply Z.eqb_neq. lia. Qed.

Lemma spec_conserves o t id a r t' :
  mjoin (t !! id) = Some a → zlen (a_queue a) <= PIPE_BUF → keeps id o →
  spec o t = (r, t') →
  ∃ a', mjoin (t' !! id) = Some a' ∧
    a_queue a ++ accepted1 id o r = delivered1 id o r ++ a_queue a'.
Proof.
  intros Ha Hlen Hk Hs.
  assert (Hsame : accepted1 id o r = [] → delivered1 id o r = [] →
    (∃ a', mjoin (t' !! id) = Some a' ∧ a_queue a = a_queue a') →
    ∃ a', mjoin (t' !! id) = Some a' ∧
      a_queue a ++ accepted1 id o r = delivered1 id o r ++ a_queue a').
  { intros -> -> (a' & ? & ?). exists a'. by rewrite app_nil_r. }
  destruct o; simpl in Hs, Hk;
    try (apply Hsame; [done..|]; eexists; split; [by eapply a_alloc_at|done]).
  all: try (pose proof (a_on_at _ _ _ _ _ _ _ _ Ha Hs) as H; case_decide).
  all: try done.
  all: try (apply Hsame; [destruct r as [| | |[?|]|]; simpl; by rewrite ?decide_False by done..|];
    by eauto).
  all: try (apply Hsame; [done..|]; destruct H as [_ H]; by eauto).
  - injection Hs as <- <-. apply Hsame; [done..|].
    rewrite list_lookup_insert_ne by done. by eauto.
  - simpl in H. destruct (a_queue a) as [|c q] eqn:Eq; destruct H as [-> ->].
    + exists a. split; [done|]. rewrite Eq.
      destruct (a_closed a); simpl; by rewrite ?decide_True by done.
    + eexists. split; [done|]. simpl fst. unfold delivered1. rewrite decide_True by done.
      rewrite not_usize_max by (simpl in *; lia). rewrite Nat2Z.id, app_nil_r.
      unfold a_requeue. cbn [a_queue]. set (n := Nat.min _ _).
      rewrite take_app_le, take_take, Nat.min_id by (unfold n; zn). by rewrite take_drop.
  - simpl in H. destruct (a_readers a =? 0); destruct H as [-> ->].
    + exists a. split; [done|]. simpl. by rewrite decide_True, app_nil_r by done.
    + eexists. split; [done|]. simpl fst. unfold accepted1. rewrite decide_True by done.
      rewrite not_usize_max by lia. by rewrite Nat2Z.id.
Qed.

Lemma abs_at st id p : pipe_at st id = Some p → mjoin (abs_table st !! id) = Some (abs p).
Proof. intros H. by rewrite abs_table_at, H. Qed.

Lemma at_abs st id a : mjoin (abs_table st !! id) = Some a → ∃ p, pipe_at st id = Some p ∧ abs p = a.
Proof. rewrite abs_table_at. destruct (pipe_at st id); naive_solver. Qed.

Lemma exec_all_conserves os st id p :
  wf st → pipe_at st id = Some p → Forall (keeps id) os →
  ∃ rs st' p', exec_all os st = Some (rs, st') ∧ pipe_at st' id = Some p' ∧
    contents p ++ accepted id os rs = delivered id os rs ++ contents p'.
Proof.
  revert st p. induction os as [|o os IH]; intros st p Hwf Hp Hk; simpl.
  { exists [], st, p. by rewrite app_nil_r. }
  apply Forall_cons_iff in Hk as [Hk Hks].
  destruct (exec_simulates o st Hwf) as (r & st1 & -> & Hwf1 & Hs). simpl.
  destruct (spec_conserves o (abs_table st) id (abs p) r (abs_table st1))
    as (a' & Ha' & Hq); [by apply abs_at| |done..|].
  { destruct (wf_at _ Hwf _ _ Hp) as [Hwp _]. simpl.
    rewrite (contents_length p Hwp). by apply wf_len. }
  apply at_abs in Ha' as (p1 & Hp1 & <-).
  destruct (IH st1 p1 Hwf1 Hp1 Hks) as (rs & st2 & p2 & -> & Hp2 & Hq2). simpl.
  exists (r :: rs), st2, p2. split; [done|]. split; [done|].
  unfold accepted, delivered in *. simpl in *.
  by rewrite app_assoc, Hq, <- !app_assoc, Hq2.
Qed.

(** Between two closes, pipe [id] is a FIFO byte stream whatever is
    interleaved with it (other pipes' operations, allocations, ends being
    added, short and empty reads and writes): the bytes it held, followed by
    all bytes its writes accepted, are the bytes its reads delivered,
    followed by what it still holds.  Nothing is lost, duplicated,
    reordered, or leaked from another pipe. *)
Theorem pipe_stream_conserved os st id p :
  wf st → pipe_at st id = Some p → Forall (keeps id) os →
  ∃ rs st' p', exec_all os st = Some (rs, st') ∧ pipe_at st' id = Some p' ∧
    contents p ++ accepted id os rs = delivered id os rs ++ contents p'.
Proof. apply exec_all_conserves. Qed.

(** ** Wake-ups *)

(** The pipe an operation is on. *)
Definition target (o : op) : option nat :=
  match o with
  | Alloc | AllocNamed => None
  | Free i | AddReader i | AddWriter i | DropReader i | DropWriter i
  | FifoUnlink i | FifoAttach i _ _ | Read i _ | Write i _ => Some i
  end.

Lemma pipe_at_changed st i id : pipe_at (changed st i) id = pipe_at st id.
Proof. unfold pipe_at. by rewrite changed_pipes. Qed.

Lemma pipe_at_emit st ws id : pipe_at (emit st ws) id = pipe_at st id.
Proof. done. Qed.

Lemma pipe_at_notify st i id : pipe_at (notify st i) id = pipe_at st id.
Proof. apply pipe_at_changed. Qed.

Lemma pipe_at_put_ne st i id s : i ≠ id → pipe_at (put st i s) id = pipe_at st id.
Proof. intros. unfold pipe_at. simpl. by rewrite list_lookup_insert_ne. Qed.

Lemma pipe_at_release_ne st i id : i ≠ id → pipe_at (release_if_idle st i) id = pipe_at st id.
Proof.
  intros. unfold release_if_idle. destruct (pipe_at st i); [|done].
  repeat case_if; by rewrite ?pipe_at_put_ne.
Qed.

Lemma wakes_release st i : wakes (release_if_idle st i) = wakes st.
Proof. unfold release_if_idle. destruct (pipe_at st i); [|done]. by repeat case_if. Qed.

Lemma wakes_notify st i : wakes (notify st i) = wakes st ++ [WakePipe i; WakeAny].
Proof. unfold notify. simpl. by rewrite changed_wakes. Qed.

Create Rewrite HintDb pipe_at.
#[export] Hint Rewrite pipe_at_notify pipe_at_changed pipe_at_emit : pipe_at.
#[export] Hint Rewrite pipe_at_put_ne pipe_at_release_ne using done : pipe_at.

Lemma alloc_in_at st from to nm id p :
  pipe_at st id = Some p → pipe_at (alloc_in st from to nm).2 id = Some p.
Proof.
  unfold alloc_in. intros Hp. destruct (scan_free _ _ _ _) as [i|] eqn:E; [|done].
  apply scan_free_some in E as (_ & _ & Hi & _). rewrite Nat.sub_0_r in Hi. simpl.
  rewrite pipe_at_put_ne; [done|]. intros ->. apply pipe_at_lookup in Hp. congruence.
Qed.

Lemma exec_elsewhere o st r st' id p :
  exec o st = Some (r, st') → target o ≠ Some id → pipe_at st id = Some p →
  pipe_at st' id = Some p.
Proof.
  intros He Ht Hp. destruct o; simpl in He, Ht;
    try assert (id0 ≠ id) by congruence.
  - unfold alloc in He. destruct (alloc_in _ _ _ _) eqn:E. injection He as <- <-.
    pose proof (alloc_in_at st 0 ANON_PIPES false id p Hp). by rewrite E in H.
  - unfold alloc_named in He. destruct (alloc_in _ _ _ _) eqn:E. injection He as <- <-.
    pose proof (alloc_in_at st ANON_PIPES MAX_PIPES true id p Hp). by rewrite E in H.
  - injection He as <- <-. unfold free. by autorewrite with pipe_at.
  - unfold add_reader in He. destruct (pipe_at st id0); injection He as <- <-;
      by autorewrite with pipe_at.
  - unfold add_writer in He. destruct (pipe_at st id0); injection He as <- <-;
      by autorewrite with pipe_at.
  - unfold drop_reader in He. destruct (pipe_at st id0); injection He as <- <-;
      by autorewrite with pipe_at.
  - unfold drop_writer in He. destruct (pipe_at st id0); injection He as <- <-;
      by autorewrite with pipe_at.
  - injection He as <- <-. unfold fifo_unlink. destruct (pipe_at st id0); [|done].
    case_if; by autorewrite with pipe_at.
  - unfold fifo_attach in He. destruct (pipe_at st id0); injection He as <- <-;
      by autorewrite with pipe_at.
  - unfold read in He. destruct (pipe_at st id0); [|by simplify_eq/=].
    repeat case_if; repeat case_match; simplify_option_eq; by autorewrite with pipe_at.
  - unfold write in He. destruct (pipe_at st id0); [|by simplify_eq/=].
    repeat case_if; repeat case_match; simplify_option_eq; by autorewrite with pipe_at.
Qed.

(** What a task asleep on the pipe waits for: [Some b] is a pipe of which
    [b] tells whether a reader (resp. a writer) has to wait. *)
Definition waits (side : bool) (st : State) (id : nat) : bool :=
  if side then read_would_block st id else write_would_block st id.

Definition pipe_waits (side : bool) (p : Pipe) : bool :=
  if side then (len p =? 0) && negb (write_closed p)
  else (PIPE_BUF <=? len p) && negb (write_closed p).

Lemma waits_at side st id :
  waits side st id = match pipe_at st id with Some p => pipe_waits side p | None => false end.
Proof. destruct side; reflexivity. Qed.

Lemma waits_put side st id p p' :
  pipe_at st id = Some p → waits side (put st id (Some p')) id = pipe_waits side p'.
Proof.
  intros Hp. rewrite waits_at, pipe_at_put by (by eapply pipe_at_bound).
  by rewrite decide_True.
Qed.

(** The operations on [id] itself that end a wait notify, or free the slot. *)
Lemma target_wakes side o st r st' id :
  wf st → exec o st = Some (r, st') → target o = Some id →
  waits side st id = true → waits side st' id = false →
  (∃ ws, wakes st' = wakes st ++ ws ∧ WakePipe id ∈ ws) ∨
  o = Free id ∨
  (o = FifoUnlink id ∧ ∃ p, pipe_at st id = Some p ∧ readers p = 0 ∧ writers p = 0).
Proof.
  intros Hwf He Ht Hw Hw'. pose proof Hw as Hw0. rewrite waits_at in Hw.
  destruct (pipe_at st id) as [p|] eqn:Hp; [|done].
  assert (Hnot : ∀ s, wakes s = wakes st →
    ∃ ws, wakes (notify s id) = wakes st ++ ws ∧ WakePipe id ∈ ws).
  { intros s Hs. rewrite wakes_notify, Hs. eexists. split; [done|]. constructor. }
  destruct (wf_at _ Hwf _ _ Hp) as [Hwp _]. pose proof (wf_len _ Hwp).
  destruct o; simplify_eq/=; auto.
  - unfold add_reader in He. rewrite Hp in He. simplify_eq/=.
    rewrite (waits_put _ _ _ p) in Hw' by done. destruct side; simpl in *; congruence.
  - unfold add_writer in He. rewrite Hp in He. simplify_eq/=.
    rewrite (waits_put _ _ _ p) in Hw' by done. destruct side; simpl in *; congruence.
  - unfold drop_reader in He. rewrite Hp in He. simplify_eq/=. left. apply Hnot.
    by rewrite wakes_release.
  - unfold drop_writer in He. rewrite Hp in He. simplify_eq/=. left. apply Hnot.
    by rewrite wakes_release.
  - unfold fifo_unlink in Hw'. rewrite Hp in Hw'. case_if.
    + right. right. eauto with lia.
    + rewrite (waits_put _ _ _ p) in Hw' by done. destruct side; simpl in *; congruence.
  - unfold fifo_attach in He. rewrite Hp in He. simplify_eq/=. left. by apply Hnot.
  - unfold read in He. rewrite Hp in He.
    repeat case_if; repeat case_match; simplify_option_eq;
      try (left; by apply Hnot); try congruence; destruct side; simpl in Hw; bool_hyps; lia.
  - unfold write in He. rewrite Hp in He.
    repeat case_if; repeat case_match; simplify_option_eq;
      try (left; by apply Hnot); try congruence.
    + rewrite (waits_put _ _ _ p) in Hw' by done. exfalso. clear Hnot.
      rewrite Heqb0, Z.add_0_r in Hw'. destruct side; simpl in *; congruence.
    + exfalso. destruct side; simpl in Hw; bool_hyps; lia.
Qed.

(** No wake-up is lost: whenever an operation turns "a reader of pipe
    [id] would block" or "a writer would block" from true to false, it
    hands the scheduler a wake-up of the tasks asleep on that pipe.  The
    only exceptions release a slot no open end can be waiting on: [free]
    (a [pipe()] that found no fd) and the unlink of a FIFO nothing has
    open. *)
Theorem pipe_no_lost_wakeup side o st r st' id :
  wf st → exec o st = Some (r, st') →
  waits side st id = true → waits side st' id = false →
  (∃ ws, wakes st' = wakes st ++ ws ∧ WakePipe id ∈ ws) ∨
  o = Free id ∨
  (o = FifoUnlink id ∧ ∃ p, pipe_at st id = Some p ∧ readers p = 0 ∧ writers p = 0).
Proof.
  intros Hwf He Hw Hw'. destruct (decide (target o = Some id)) as [Ht|Ht].
  - by eapply target_wakes.
  - exfalso. rewrite waits_at in Hw, Hw'. destruct (pipe_at st id) as [p|] eqn:Hp; [|done].
    rewrite (exec_elsewhere _ _ _ _ _ _ He Ht Hp) in Hw'. congruence.
Qed.

(** ** Allocation from the two pools *)

Lemma scan_free_insert_out {A} (l : list (option A)) k from to (i : nat) s :
  (i < from ∨ to ≤ i)%nat → (k ≤ i)%nat →
  scan_free (<[(i - k)%nat := s]> l) k from to = scan_free l k from to.
Proof.
  revert k. induction l as [|x l IH]; intros k Hi Hk; simpl; [done|].
  destruct (decide (i = k)) as [->|].
  - rewrite Nat.sub_diag. simpl.
    destruct (bool_decide (from ≤ k)%nat && bool_decide (k < to)%nat) eqn:E; [|done].
    apply andb_true_iff in E as [E1%bool_decide_eq_true E2%bool_decide_eq_true]. lia.
  - replace (i - k)%nat with (S (i - S k)) by lia. simpl. by rewrite IH by lia.
Qed.

Lemma alloc_in_result st from to nm :
  (to ≤ length (PIPES st))%nat →
  match (alloc_in st from to nm).1 with
  | Some i => (from ≤ i < to)%nat ∧ pipe_at st i = None ∧
              (∀ j, (from ≤ j < i)%nat → is_Some (pipe_at st j)) ∧
              pipe_at (alloc_in st from to nm).2 i = Some (fresh_pipe nm)
  | None => ∀ j, (from ≤ j < to)%nat → is_Some (pipe_at st j)
  end.
Proof.
  intros Hto. unfold alloc_in. destruct (scan_free _ _ _ _) as [i|] eqn:E; simpl.
  - apply scan_free_some in E as (_ & Hi & Hl & Hj).
    rewrite Nat.sub_0_r in Hl. split; [done|]. unfold pipe_at at 1. rewrite Hl.
    split; [done|]. split.
    + intros j ?. destruct (Hj j) as [a Ha]; [lia..|]. rewrite Nat.sub_0_r in Ha.
      exists a. by apply pipe_at_lookup.
    + rewrite pipe_at_put by (by eapply lookup_lt_Some). by rewrite decide_True.
  - intros j Hj. destruct (scan_free_none _ _ _ _ E j) as [a Ha]; [lia..|].
    rewrite Nat.sub_0_r in Ha. exists a. by apply pipe_at_lookup.
Qed.

Lemma alloc_in_disjoint st f1 t1 n1 f2 t2 n2 :
  (t1 ≤ f2 ∨ t2 ≤ f1)%nat →
  (alloc_in (alloc_in st f1 t1 n1).2 f2 t2 n2).1 = (alloc_in st f2 t2 n2).1.
Proof.
  intros Hd. unfold alloc_in at 2. destruct (scan_free _ _ f1 t1) as [i|] eqn:E; [|done].
  apply scan_free_some in E as (_ & Hi & _). unfold alloc_in. cbn [snd put PIPES].
  pose proof (scan_free_insert_out (PIPES st) 0 f2 t2 i (Some (fresh_pipe n1))) as H.
  rewrite Nat.sub_0_r in H. rewrite H by lia.
  destruct (scan_free (PIPES st) 0 f2 t2); reflexivity.
Qed.

(** [pipe()] gets the lowest free anonymous slot, as a fresh pipe, and
    fails only when all 64 are in use; a [mkfifo] before it (successful or
    not) never changes which slot it gets, nor the other way round, so
    named FIFOs cannot starve pipes. *)
Theorem pipe_pools_do_not_interfere st :
  wf st →
  match (alloc st).1 with
  | Some i => (i < ANON_PIPES)%nat ∧ pipe_at st i = None ∧
              (∀ j, (j < i)%nat → is_Some (pipe_at st j)) ∧
              pipe_at (alloc st).2 i = Some (fresh_pipe false)
  | None => ∀ j, (j < ANON_PIPES)%nat → is_Some (pipe_at st j)
  end ∧
  (alloc (alloc_named st).2).1 = (alloc st).1 ∧
  (alloc_named (alloc st).2).1 = (alloc_named st).1.
Proof.
  intros Hwf. repeat split; [|apply alloc_in_disjoint; unfold ANON_PIPES; lia..].
  pose proof (alloc_in_result st 0 ANON_PIPES false) as H.
  rewrite (wf_slots st Hwf) in H. unfold alloc, ANON_PIPES, MAX_PIPES in *.
  destruct (alloc_in st 0 64 false).1 as [i|].
  - destruct H as (? & ? & Hj & ?); [lia|]. split; [lia|]. split; [done|].
    split; [|done]. intros. apply Hj. lia.
  - intros. apply H; lia.
Qed.

(** ** Reference counts *)

Definition add_readers (n : nat) (st : State) (id : nat) : State :=
  Nat.iter n (λ s, (add_reader s id).2) st.

Definition drop_readers (n : nat) (st : State) (id : nat) : State :=
  Nat.iter n (λ s, (drop_reader s id).2) st.

Lemma add_readers_at n st id p :
  pipe_at st id = Some p → 0 <= readers p <= 255 →
  pipe_at (add_readers n st id) id =
    Some (set_ends p (Z.min (readers p + Z.of_nat n) 255) (writers p) (write_closed p)).
Proof.
  intros Hp Hr. induction n as [|n IH].
  - change (add_readers 0 st id) with st. rewrite Hp, Z.add_0_r, Z.min_l by lia.
    by destruct p.
  - change (add_readers (S n) st id) with (add_reader (add_readers n st id) id).2.
    unfold add_reader. rewrite IH. cbn [snd].
    rewrite pipe_at_put by (by eapply pipe_at_bound). rewrite decide_True by done.
    unfold set_ends, sat_inc8. simpl. do 2 f_equal. lia.
Qed.

Lemma drop_reader_at st id p :
  pipe_at st id = Some p → 1 < readers p →
  pipe_at (drop_reader st id).2 id =
    Some (set_ends p (readers p - 1) (writers p) (write_closed p)).
Proof.
  intros Hp Hr. unfold drop_reader. rewrite Hp. simpl. rewrite pipe_at_notify.
  unfold sat_dec8. rewrite Z.max_l by lia.
  assert ((readers p - 1 =? 0) = false) as -> by lia.
  unfold release_if_idle. rewrite !pipe_at_put by (by eapply pipe_at_bound).
  rewrite !decide_True by done. simpl.
  assert ((readers p - 1 =? 0) = false) as -> by lia. simpl.
  rewrite pipe_at_put by (by eapply pipe_at_bound). by rewrite decide_True.
Qed.

Lemma drop_reader_last st id p :
  pipe_at st id = Some p → readers p = 1 → writers p = 0 → named p = false →
  pipe_at (drop_reader st id).2 id = None.
Proof.
  intros Hp Hr Hw Hn. unfold drop_reader. rewrite Hp. simpl. rewrite pipe_at_notify.
  unfold sat_dec8. rewrite Hr, Hw. simpl. unfold release_if_idle.
  pose proof (pipe_at_bound _ _ _ Hp).
  rewrite pipe_at_put by done. rewrite decide_True by done. simpl. rewrite Hn.
  rewrite pipe_at_put by (simpl; by rewrite length_insert). by rewrite decide_True.
Qed.

Lemma drop_readers_at n st id p :
  pipe_at st id = Some p → Z.of_nat n < readers p →
  pipe_at (drop_readers n st id) id =
    Some (set_ends p (readers p - Z.of_nat n) (writers p) (write_closed p)).
Proof.
  intros Hp. induction n as [|n IH]; intros Hr.
  - change (drop_readers 0 st id) with st. rewrite Hp, Z.sub_0_r. by destruct p.
  - change (drop_readers (S n) st id) with (drop_reader (drop_readers n st id) id).2.
    rewrite (drop_reader_at _ _ _ (IH ltac:(lia))) by (simpl; lia).
    unfold set_ends. simpl. do 2 f_equal. lia.
Qed.

Lemma wf_exec o st r st' : wf st → exec o st = Some (r, st') → wf st'.
Proof. intros Hwf He. destruct (exec_simulates o st Hwf) as (? & ? & ? & ? & _). by simplify_eq. Qed.

Lemma wf_add_readers n st id : wf st → wf (add_readers n st id).
Proof.
  intros Hwf. induction n as [|n IH]; [done|].
  change (add_readers (S n) st id) with (add_reader (add_readers n st id) id).2.
  destruct (add_reader _ _) as [b s] eqn:E.
  apply (wf_exec (AddReader id) _ (RBool b) s IH). simpl. by rewrite E.
Qed.

Lemma wf_drop_readers n st id : wf st → wf (drop_readers n st id).
Proof.
  intros Hwf. induction n as [|n IH]; [done|].
  change (drop_readers (S n) st id) with (drop_reader (drop_readers n st id) id).2.
  destruct (drop_reader _ _) as [b s] eqn:E.
  apply (wf_exec (DropReader id) _ (RBool b) s IH). simpl. by rewrite E.
Qed.

Lemma wf_alloc_initial : wf (alloc initial).2.
Proof. apply (wf_exec Alloc initial (RId (Some 0%nat)) _ wf_initial). done. Qed.

Lemma readers_released n st p :
  wf st → pipe_at st 0 = Some p → readers p = 0 → writers p = 0 → named p = false →
  let st' := add_readers n st 0 in
  (∀ k, Z.of_nat k < Z.min (Z.of_nat n) 255 → is_Some (pipe_at (drop_readers k st' 0) 0)) ∧
  (∀ k, Z.of_nat (S k) = Z.min (Z.of_nat n) 255 →
     pipe_at (drop_readers (S k) st' 0) 0 = None ∧
     (alloc (drop_readers (S k) st' 0)).1 = Some 0%nat).
Proof.
  intros Hwf Hp0 Hr Hw Hn st'.
  pose proof (add_readers_at n _ 0 _ Hp0 ltac:(lia)) as Hp. fold st' in Hp. rewrite Hr in Hp.
  split.
  - intros k Hk. rewrite (drop_readers_at k _ _ _ Hp) by (simpl; lia). done.
  - intros k Hk. assert (Hnone : pipe_at (drop_readers (S k) st' 0) 0 = None).
    { change (drop_readers (S k) st' 0) with (drop_reader (drop_readers k st' 0) 0).2.
      eapply drop_reader_last; [apply (drop_readers_at k _ _ _ Hp)| | |]; simpl; lia || done. }
    split; [done|]. unfold alloc, alloc_in.
    pose proof (wf_slots _ (wf_drop_readers (S k) _ 0 (wf_add_readers n _ 0 Hwf))) as Hl.
    fold st' in Hl. unfold pipe_at in Hnone.
    destruct (PIPES (drop_readers (S k) st' 0)) as [|[]]; done.
Qed.

(** The read-end count is exact up to 255 open ends and wrong above: a
    fresh pipe whose read end was duplicated [n] times (and whose writer is
    gone) keeps its slot until the last of [n <= 255] readers closes, but
    with [n >= 256] the 255th close already frees it, with [n - 255] read
    ends still open, and the next [pipe()] takes the same slot. *)
Theorem reader_count_exact_iff_within_u8 (n : nat) :
  (0 < n)%nat →
  let st := add_readers n (alloc initial).2 0 in
  ((n ≤ 255)%nat →
     (∀ k, (k < n)%nat → is_Some (pipe_at (drop_readers k st 0) 0)) ∧
     pipe_at (drop_readers n st 0) 0 = None) ∧
  ((256 ≤ n)%nat →
     pipe_at (drop_readers 255 st 0) 0 = None ∧
     (alloc (drop_readers 255 st 0)).1 = Some 0%nat).
Proof.
  intros Hn st.
  destruct (readers_released n (alloc initial).2 (fresh_pipe false)) as [Hopen Hlast];
    [apply wf_alloc_initial|reflexivity..|].
  fold st in Hopen, Hlast. split.
  - intros Hle. split; [intros k Hk; apply Hopen; lia|].
    destruct n as [|m]; [lia|]. apply Hlast. lia.
  - intros Hge. apply (Hlast 254%nat). lia.
Qed.

(** ** Concrete runs *)

(** One pipe with a reader and a writer. *)
Definition ex_open : State :=
  (add_writer (add_reader (alloc initial).2 0).2 0).2.

Definition ex_filled : State :=
  match exec (Write 0 [7; 8; 9]) ex_open with Some (_, st) => st | None => ex_open end.

Lemma wf_ex_open : wf ex_open.
Proof.
  apply (wf_exec (AddWriter 0) (add_reader (alloc initial).2 0).2 (RBool true));
    [|vm_compute; reflexivity].
  apply (wf_exec (AddReader 0) (alloc initial).2 (RBool true));
    [apply wf_alloc_initial|vm_compute; reflexivity].
Qed.

Definition ex_pipe : Pipe :=
  match pipe_at ex_open 0 with Some p => p | None => fresh_pipe false end.

Definition ex_run : list op :=
  [Write 0 [1; 2; 3]; Alloc; Read 0 [0; 0]; Write 1 [9]; Write 0 [4]; Read 0 [0; 0; 0; 0]].

Lemma pipe_stream_conserved_witness :
  ∃ rs st' p', exec_all ex_run ex_open = Some (rs, st') ∧ pipe_at st' 0 = Some p' ∧
    contents ex_pipe ++ accepted 0 ex_run rs = delivered 0 ex_run rs ++ contents p'.
Proof.
  apply (pipe_stream_conserved ex_run ex_open 0 ex_pipe).
  - apply wf_ex_open.
  - vm_compute. reflexivity.
  - repeat constructor.
Defined.

Lemma pipe_no_lost_wakeup_witness :
  (∃ ws, wakes ex_filled = wakes ex_open ++ ws ∧ WakePipe 0 ∈ ws) ∨
  Write 0 [7; 8; 9] = Free 0 ∨
  (Write 0 [7; 8; 9] = FifoUnlink 0 ∧
   ∃ p, pipe_at ex_open 0 = Some p ∧ readers p = 0 ∧ writers p = 0).
Proof.
  apply (pipe_no_lost_wakeup true (Write 0 [7; 8; 9]) ex_open (RWrite 3) ex_filled 0).
  - apply wf_ex_open.
  - vm_compute. reflexivity.
  - vm_compute. reflexivity.
  - vm_compute. reflexivity.
Defined.

Lemma pipe_pools_do_not_interfere_witness :
  (alloc (alloc_named ex_open).2).1 = Some 1%nat ∧ (alloc ex_open).1 = Some 1%nat.
Proof.
  destruct (pipe_pools_do_not_interfere ex_open wf_ex_open) as (_ & H & _).
  assert ((alloc ex_open).1 = Some 1%nat) by (vm_compute; reflexivity).
  split; congruence.
Defined.

Lemma reader_count_exact_iff_within_u8_witness :
  pipe_at (drop_readers 255 (add_readers 300 (alloc initial).2 0) 0) 0 = None ∧
  (alloc (drop_readers 255 (add_readers 300 (alloc initial).2 0) 0)).1 = Some 0%nat.
Proof.
  assert (0 < 300)%nat as H by lia.
  destruct (reader_count_exact_iff_within_u8 300 H) as [_ Hge].
  apply Hge. lia.
Defined.
