(* ===== verification/Frames.v ===== *)
(** * The frame allocator ([kernel/src/mm.rs])

    Physical 4 KiB frames: a bump cursor over the boot loader's memory map
    and a free list threaded through the free frames themselves.  Every
    function that holds [FRAMES] is one step.  The frames the block and page
    caches give back when asked ([blk::release_cache],
    [pagecache::release_unmapped]) are an argument. *)

From S2P Require Import Prelude.

Definition PAGE : Z := 4096.

(** An entry of the memory map; [e_usable] is [type_ == MEMMAP_USABLE]. *)
Record Entry := { e_usable : bool; e_base : Z; e_length : Z }.

(** What the boot loader and [heap::init] leave behind: the memory map, the
    image's physical range and the end of the kernel heap. *)
Record Boot := { bt_entries : list Entry; bt_k0 : Z; bt_k1 : Z; bt_heap_end : Z }.

(** ** The heap's place ([kernel/src/limine_boot.rs], [kernel/src/heap.rs]) *)

Definition usable_lengths (es : list Entry) : list Z := e_length <$> filter (λ e, e_usable e = true) es.
Definition usable_bytes (es : list Entry) : Z := foldr Z.add 0 (usable_lengths es).
Definition largest_usable (es : list Entry) : Z := foldr Z.max 0 (usable_lengths es).

Definition MIN_SIZE : Z := 64 * 1024 * 1024.
Definition MAX_SIZE : Z := 1024 * 1024 * 1024.

Definition size_for (usable largest_region : Z) : Z :=
  Z.ldiff (Z.min (Z.min (Z.max (usable / 4) MIN_SIZE) MAX_SIZE) (Z.max (largest_region / 2) MIN_SIZE))
    (2 * 1024 * 1024 - 1).

Definition SKIP : Z := 64 * 1024.

(** The physical address; no region large enough is a panic. *)
Fixpoint alloc_usable (es : list Entry) (size : Z) : option Z :=
  match es with
  | [] => None
  | e :: es' =>
      if negb (e_usable e) then alloc_usable es' size
      else if size + SKIP <=? e_length e then Some (Z.ldiff (e_base e + SKIP + 0xfff) 0xfff)
      else alloc_usable es' size
  end.

(** [PHYS_END] after [heap::init]. *)
Definition heap_init (es : list Entry) : option Z :=
  let size := size_for (usable_bytes es) (largest_usable es) in
  start ← alloc_usable es size;
  Some (start + size).

(** The static counters and cursors, and the memory as 8-byte words by
    physical address (the direct map only adds an offset). *)
Record Mem := {
  m_next : Z; m_head : Z; m_ram : Z → Z;
  m_allocs : Z; m_frees : Z; m_sites : list Z }.

Definition set_next (m : Mem) (v : Z) : Mem :=
  {| m_next := v; m_head := m_head m; m_ram := m_ram m; m_allocs := m_allocs m;
     m_frees := m_frees m; m_sites := m_sites m |}.
Definition set_head (m : Mem) (v : Z) : Mem :=
  {| m_next := m_next m; m_head := v; m_ram := m_ram m; m_allocs := m_allocs m;
     m_frees := m_frees m; m_sites := m_sites m |}.
Definition set_ram (m : Mem) (r : Z → Z) : Mem :=
  {| m_next := m_next m; m_head := m_head m; m_ram := r; m_allocs := m_allocs m;
     m_frees := m_frees m; m_sites := m_sites m |}.
Definition set_allocs (m : Mem) (v : Z) : Mem :=
  {| m_next := m_next m; m_head := m_head m; m_ram := m_ram m; m_allocs := v;
     m_frees := m_frees m; m_sites := m_sites m |}.
Definition set_frees (m : Mem) (v : Z) : Mem :=
  {| m_next := m_next m; m_head := m_head m; m_ram := m_ram m; m_allocs := m_allocs m;
     m_frees := v; m_sites := m_sites m |}.
Definition set_sites (m : Mem) (l : list Z) : Mem :=
  {| m_next := m_next m; m_head := m_head m; m_ram := m_ram m; m_allocs := m_allocs m;
     m_frees := m_frees m; m_sites := l |}.

(** [u64] arithmetic *)
Definition sat_add (a b : Z) : Z := Z.min (a + b) U64_MAX.
Definition sat_sub (a b : Z) : Z := Z.max (a - b) 0.
Definition sat_mul (a b : Z) : Z := Z.min (a * b) U64_MAX.
(** [AtomicU64::fetch_add], which wraps *)
Definition wrap_add (a b : Z) : Z := (a + b) mod 2 ^ 64.
(** [(x + 0xfff) & !0xfff] *)
Definition page_up (x : Z) : option Z := y ← add64 x 0xfff; Some (Z.ldiff y 0xfff).

(** The image's [start, end): the end of the linked image rounded up. *)
Definition kernel_phys_range (end_va physical_base virtual_base : Z) : option (Z * Z) :=
  a ← usub end_va virtual_base;
  b ← add64 a physical_base;
  k1 ← page_up b;
  Some (physical_base, k1).

(** The memory of one frame, or of a run of bytes, set to zero. *)
Definition zero_bytes (phys len : Z) (ram : Z → Z) : Z → Z :=
  λ a, if (phys <=? a) && (a <? phys + len) then 0 else ram a.
Definition zero_page (phys : Z) (ram : Z → Z) : Z → Z := zero_bytes phys PAGE ram.

Definition write_word (a v : Z) (ram : Z → Z) : Z → Z := λ x, if x =? a then v else ram x.

Abbreviation Range := (Z * Z)%type.
Definition ANYWHERE : Range := (0, U64_MAX).

Section frames.
Context (bt : Boot).

Definition usable_frames : Z :=
  foldr Z.add 0 ((λ e, e_length e / PAGE) <$> filter (λ e, e_usable e = true) (bt_entries bt)).

(** The cached value is the memory map's. *)
Definition usable_total : Z := usable_frames.

Definition overlaps_kernel (phys : Z) : bool :=
  (phys <? bt_k1 bt) && (bt_k0 bt <? sat_add phys PAGE).

Definition frame_in_usable_memmap (phys : Z) : bool :=
  existsb (λ e, e_usable e && (e_base e <=? phys) &&
    (sat_add phys PAGE <=? sat_add (e_base e) (e_length e))) (bt_entries bt).

Definition misaligned (phys : Z) : bool := negb (Z.land phys 0xfff =? 0).

Definition free_frame (phys : Z) (m : Mem) : Mem :=
  if (phys =? 0) || misaligned phys then m
  else if overlaps_kernel phys then m
  else
    let head := m_head m in
    let m := set_ram m (write_word phys head (m_ram m)) in
    let m := set_head m phys in
    set_frees m (wrap_add (m_frees m) 1).

(** ** The bump cursor *)

(** None of the [n] frames from [p] on overlaps the image. *)
Fixpoint run_clear (n : nat) (p : Z) : bool :=
  match n with
  | O => true
  | S n' => if overlaps_kernel p then false else run_clear n' (wrap_add p PAGE)
  end.

(** The [while] loop over one region; a second turn is past the image. *)
Fixpoint bump_while (fuel : nat) (n : nat) (need region_end phys : Z) : option (option Z) :=
  match fuel with
  | O => None
  | S fuel' =>
      if sat_add phys need <=? region_end then
        if run_clear n phys then Some (Some phys)
        else phys ← page_up (bt_k1 bt); bump_while fuel' n need region_end phys
      else Some None
  end.

Fixpoint bump_entries (es : list Entry) (n : nat) (need : Z) (range : Range) (next : Z) :
    option (option Z) :=
  match es with
  | [] => Some None
  | e :: es' =>
      if negb (e_usable e) then bump_entries es' n need range next
      else
        e_end ← add64 (e_base e) (e_length e);
        let region_end := Z.min e_end range.2 in
        phys ← page_up (Z.max (Z.max (e_base e) next) range.1);
        r ← bump_while 3 n need region_end phys;
        match r with
        | Some phys => Some (Some phys)
        | None => bump_entries es' n need range next
        end
  end.

Definition bump_run (n : nat) (need : Z) (range : Range) (m : Mem) : option (option Z * Mem) :=
  next ← page_up (if m_next m =? 0 then bt_heap_end bt else m_next m);
  r ← bump_entries (bt_entries bt) n need range next;
  match r with
  | None => Some (None, m)
  | Some phys => v ← add64 phys need; Some (Some phys, set_next m v)
  end.

Definition alloc_contiguous_frames (n : nat) (m : Mem) : option (option Z * Mem) :=
  match n with
  | O => Some (None, m)
  | _ =>
      let need := sat_mul (Z.of_nat n) PAGE in
      '(r, m) ← bump_run n need ANYWHERE m;
      match r with
      | None => Some (None, m)
      | Some phys => Some (Some phys, set_ram m (zero_bytes phys need (m_ram m)))
      end
  end.

Definition bump_dma (n : nat) (range : Range) (m : Mem) : option (option Z * Mem) :=
  need ← fits 64 (Z.of_nat n * PAGE);
  '(r, m) ← bump_run n need range m;
  match r with
  | None => Some (None, m)
  | Some phys =>
      let m := set_ram m (zero_bytes phys need (m_ram m)) in
      Some (Some phys, set_allocs m (wrap_add (m_allocs m) (Z.of_nat n)))
  end.

(** ** The free list *)

Definition bad_node (phys : Z) : bool :=
  misaligned phys || overlaps_kernel phys || negb (frame_in_usable_memmap phys).

Definition validate_free_frame (phys : Z) : option () := if bad_node phys then None else Some tt.

Definition pop_free (m : Mem) : option (option Z * Mem) :=
  let head := m_head m in
  if head =? 0 then Some (None, m)
  else
    _ ← validate_free_frame head;
    let next := m_ram m head in
    if negb (next =? 0) && bad_node next then None
    else Some (Some head, set_head m next).

(** ** One frame *)

Definition take_frame (m : Mem) : option (option Z * Mem) :=
  '(r, m) ← pop_free m;
  match r with
  | Some phys => Some (Some phys, m)
  | None => bump_run 1 PAGE ANYWHERE m
  end.

(** The caches give back the frames [give]; how many. *)
Definition release_caches (give : list Z) (m : Mem) : Z * Mem :=
  (zlen give, foldl (λ m f, free_frame f m) m give).

Definition raw_alloc (give : list Z) (m : Mem) : option (option Z * Mem) :=
  '(r, m) ← take_frame m;
  '(r, m) ← match r with
            | Some phys => Some (Some phys, m)
            | None =>
                let '(n, m) := release_caches give m in
                if 0 <? n then take_frame m else Some (None, m)
            end;
  match r with
  | None => Some (None, m)
  | Some phys =>
      let m := set_ram m (zero_page phys (m_ram m)) in
      Some (Some phys, set_allocs m (wrap_add (m_allocs m) 1))
  end.

(** Out of memory is a panic. *)
Definition alloc_frame (give : list Z) (m : Mem) : option (Z * Mem) :=
  '(r, m) ← raw_alloc give m;
  match r with Some phys => Some (phys, m) | None => None end.

(** [if site < FRAME_SITE_COUNTS.len() { FRAME_SITE_COUNTS[site].fetch_add(n) }] *)
Definition count_site (site : nat) (n : Z) (m : Mem) : Mem :=
  match m_sites m !! site with
  | Some c => set_sites m (<[site := wrap_add c n]> (m_sites m))
  | None => m
  end.

Definition alloc_frame_site (site : nat) (give : list Z) (m : Mem) : option (Z * Mem) :=
  '(f, m) ← alloc_frame give m;
  Some (f, count_site site 1 m).

Definition live_frames (m : Mem) : Z := sat_sub (m_allocs m) (m_frees m).

Definition user_reserve : Z := Z.min (Z.max (usable_total / 64) 512) 16384.

Definition over_line (m : Mem) : bool := usable_total <=? sat_add (live_frames m) user_reserve.

(** [give] is what the caches give back at the first call, [give'] at the
    one [raw_alloc] may make. *)
Definition try_alloc_frame_user (site : nat) (give give' : list Z) (m : Mem) : option (option Z * Mem) :=
  let m1 := if over_line m then (release_caches give m).2 else m in
  if over_line m && over_line m1 then Some (None, m1)
  else
    '(r, m) ← raw_alloc give' m1;
    match r with
    | None => Some (None, m)
    | Some phys => Some (Some phys, count_site site 1 m)
    end.

Definition alloc_contiguous_pages (n : nat) (range : Range) (give : list Z) (m : Mem) :
    option (option Z * Mem) :=
  '(first, m) ← match n with
    | O => Some (None, m)
    | 1%nat =>
        '(r, m) ← raw_alloc give m;
        match r with
        | None => Some (None, m)
        | Some phys =>
            if (range.1 <=? phys) && (sat_add phys PAGE <=? range.2) then Some (Some phys, m)
            else bump_dma 1 range (free_frame phys m)
        end
    | _ => bump_dma n range m
    end;
  match first with
  | None => Some (None, m)
  | Some phys => Some (Some phys, count_site 0 (Z.of_nat n) m)
  end.
End frames.
