(* ===== verification/FramesFacts.v ===== *)
(** * No frame is handed out twice

    The invariant of the frame allocator, kept by every operation and by
    every write of the frames' owners, and what it gives: an allocation does
    not panic, and its frame is nobody's, whole, outside the kernel image and
    heap, and zero. *)

From S2P Require Import Prelude Frames.
From stdpp Require Import list relations.

Open Scope Z_scope.

(** ** Rounding *)

Lemma page_up_spec x :
  0 <= x <= 2 ^ 64 - 4096 →
  ∃ y, page_up x = Some y ∧ x <= y < x + 4096 ∧ y mod 4096 = 0.
Proof.
  intros Hx. unfold page_up. rewrite add64_in by lia. cbn [mbind option_bind].
  eexists. split; [done|]. change 0xfff with (Z.ones 12).
  rewrite Z.ldiff_ones_r, Z.shiftr_div_pow2, Z.shiftl_mul_pow2 by lia.
  change (2 ^ 12) with 4096. change (Z.ones 12) with 4095.
  split; [pose proof (Z.div_mod (x + 4095) 4096); pose proof (Z.mod_pos_bound (x + 4095) 4096); lia|].
  apply Z.mod_mul. lia.
Qed.

Lemma misaligned_spec x : misaligned x = false ↔ x mod 4096 = 0.
Proof.
  unfold misaligned. change 0xfff with (Z.ones 12). rewrite Z.land_ones by lia.
  change (2 ^ 12) with 4096. rewrite negb_false_iff. apply Z.eqb_eq.
Qed.

(** Two frames that differ are a frame apart. *)
Lemma aligned_apart f g : f mod 4096 = 0 → g mod 4096 = 0 → f < g → f + 4096 <= g.
Proof. intros. zdiv. Qed.

Section frames.
Context (bt : Boot).

(** What the boot loader's answers satisfy: nothing reaches into the last
    page of the address space, and the heap is not at address 0. *)
Record wf_boot : Prop := {
  wb_entries : Forall (λ e, 0 <= e_base e ∧ 0 <= e_length e ∧ e_base e + e_length e <= 2 ^ 64 - 4096)
                 (bt_entries bt);
  wb_kernel : 0 <= bt_k0 bt ∧ bt_k0 bt <= bt_k1 bt ∧ bt_k1 bt <= 2 ^ 64 - 4096;
  wb_heap : 0 < bt_heap_end bt <= 2 ^ 64 - 4096 }.

Context (Hwf : wf_boot).

(** ** Runs *)

Definition clear_run (n : nat) (p : Z) : Prop :=
  ∀ i : nat, (i < n)%nat → overlaps_kernel bt (p + Z.of_nat i * 4096) = false.

Lemma run_clear_spec n p :
  0 <= p → p + Z.of_nat n * 4096 <= U64_MAX → run_clear bt n p = true ↔ clear_run n p.
Proof.
  unfold clear_run. revert p. induction n as [|n IH]; intros p Hp Hn; cbn [run_clear].
  - split; [lia|done].
  - destruct (overlaps_kernel bt p) eqn:E.
    + split; [done|]. intros H. specialize (H 0%nat). rewrite Z.mul_0_l, Z.add_0_r in H.
      rewrite H in E; [done|lia].
    + unfold wrap_add, PAGE. unfold U64_MAX in Hn.
      rewrite Z.mod_small by lia. rewrite IH by (unfold U64_MAX; lia). split; intros H i Hi.
      * destruct i as [|i]; [by rewrite Z.add_0_r|].
        replace (p + Z.of_nat (S i) * 4096) with (p + 4096 + Z.of_nat i * 4096) by lia. apply H. lia.
      * replace (p + 4096 + Z.of_nat i * 4096) with (p + Z.of_nat (S i) * 4096) by lia. apply H. lia.
Qed.

Lemma overlaps_spec p :
  0 <= p <= 2 ^ 64 - 4096 - 1 → overlaps_kernel bt p = true ↔ p < bt_k1 bt ∧ bt_k0 bt < p + 4096.
Proof.
  intros Hp. unfold overlaps_kernel, sat_add, PAGE, U64_MAX. rewrite Z.min_l by lia.
  rewrite andb_true_iff, !Z.ltb_lt. done.
Qed.

Lemma not_overlaps p :
  0 <= p <= 2 ^ 64 - 4096 - 1 → overlaps_kernel bt p = false ↔ bt_k1 bt <= p ∨ p + 4096 <= bt_k0 bt.
Proof.
  intros Hp. rewrite <-not_true_iff_false, overlaps_spec by done. lia.
Qed.

(** What a search of one region answers: the run, or that it has none. *)
Definition region_answer (n : nat) (region_end phys : Z) (r : option Z) : Prop :=
  match r with
  | Some q => phys <= q ∧ q mod 4096 = 0 ∧ q + Z.of_nat n * 4096 <= region_end ∧ clear_run n q
  | None => ∀ f, phys <= f → f mod 4096 = 0 → f + Z.of_nat n * 4096 <= region_end → ~ clear_run n f
  end.

Lemma bump_while_spec n region_end phys :
  (0 < n)%nat → 0 <= phys <= 2 ^ 64 - 4096 → phys mod 4096 = 0 → region_end <= 2 ^ 64 - 4096 →
  ∃ r, bump_while bt 3 n (Z.of_nat n * 4096) region_end phys = Some r ∧ region_answer n region_end phys r.
Proof.
  intros Hn Hp Ha Hr. destruct (wb_kernel Hwf) as (Hk0&Hk01&Hk1).
  assert (Hcmp : ∀ q, 0 <= q → (sat_add q (Z.of_nat n * 4096) <=? region_end) = true ↔
    q + Z.of_nat n * 4096 <= region_end).
  { intros q Hq. unfold sat_add, U64_MAX. rewrite Z.leb_le. lia. }
  cbn [bump_while]. destruct (sat_add phys _ <=? region_end) eqn:E1.
  2:{ exists None. split; [done|]. intros f Hf _ Hfe. exfalso.
      assert (~ (phys + Z.of_nat n * 4096 <= region_end)) by (rewrite <-Hcmp by lia; congruence). lia. }
  apply Hcmp in E1; [|lia].
  destruct (run_clear bt n phys) eqn:E2.
  { exists (Some phys). split; [done|]. split_and!; [lia|done|done|]. apply run_clear_spec; [lia|unfold U64_MAX; lia|done]. }
  destruct (page_up_spec (bt_k1 bt)) as (k&Hk&Hkr&Hka); [lia|]. rewrite Hk. cbn [mbind option_bind].
  assert (∃ i : nat, (i < n)%nat ∧ overlaps_kernel bt (phys + Z.of_nat i * 4096) = true) as (i&Hi&Ho).
  { apply not_true_iff_false in E2. rewrite run_clear_spec in E2 by (unfold U64_MAX; lia).
    destruct (decide (Exists (λ i, overlaps_kernel bt (phys + Z.of_nat i * 4096) = true) (seq 0 n))) as [Hex|Hno].
    - apply Exists_exists in Hex as (i&Hi%elem_of_seq&?). exists i. split; [lia|done].
    - exfalso. apply E2. intros i Hi. apply not_true_iff_false. intros Ht. apply Hno, Exists_exists.
      exists i. split; [apply elem_of_seq; lia|done]. }
  apply overlaps_spec in Ho; [|lia].
  assert (Hclear : ∀ q, bt_k1 bt <= q → q + Z.of_nat n * 4096 <= region_end → clear_run n q).
  { intros q Hq Hqe j Hj. apply not_overlaps; [lia|]. left. lia. }
  destruct (sat_add k _ <=? region_end) eqn:E3.
  - apply Hcmp in E3; [|lia]. rewrite (proj2 (run_clear_spec n k ltac:(lia) ltac:(unfold U64_MAX; lia))).
    + exists (Some k). split; [done|]. split_and!; [lia|done|done|]. apply Hclear; lia.
    + apply Hclear; lia.
  - exists None. split; [done|]. intros f Hf Hfa Hfe Hc.
    assert (Hfk : f < bt_k1 bt).
    { destruct (Z.lt_ge_cases f (bt_k1 bt)) as [|Hge]; [done|exfalso].
      assert (k <= f) by (destruct (Z.le_gt_cases k f); [done|]; pose proof (aligned_apart f k Hfa Hka); lia).
      apply not_true_iff_false in E3. apply E3, Hcmp; lia. }
    destruct (Z.le_gt_cases f (phys + Z.of_nat i * 4096)) as [Hle|Hgt].
    + assert (Hj : ∃ j : nat, phys + Z.of_nat i * 4096 = f + Z.of_nat j * 4096).
      { exists (Z.to_nat ((phys + Z.of_nat i * 4096 - f) / 4096)). rewrite Z2Nat.id by (apply Z.div_pos; lia). zdiv. }
      destruct Hj as [j Hj]. assert (Hjn : (j < n)%nat) by lia. specialize (Hc j Hjn).
      rewrite <-Hj in Hc. apply not_overlaps in Hc; lia.
    + specialize (Hc 0%nat Hn). rewrite Z.mul_0_l, Z.add_0_r in Hc. apply not_overlaps in Hc; lia.
Qed.

(** A run of [n] frames from [q] on: in one usable entry, at or past [next],
    inside [range] and clear of the image. *)
Definition run_ok (es : list Entry) (n : nat) (range : Range) (next q : Z) : Prop :=
  ∃ e, e ∈ es ∧ e_usable e = true ∧ e_base e <= q ∧ q + Z.of_nat n * 4096 <= e_base e + e_length e ∧
    next <= q ∧ range.1 <= q ∧ q + Z.of_nat n * 4096 <= range.2 ∧ q mod 4096 = 0 ∧ clear_run n q.

Definition range_ok (range : Range) : Prop := 0 <= range.1 <= 2 ^ 64 - 4096 ∧ range.2 <= U64_MAX.

Definition entry_ok (e : Entry) : Prop :=
  0 <= e_base e ∧ 0 <= e_length e ∧ e_base e + e_length e <= 2 ^ 64 - 4096.

Lemma bump_entries_spec es n range next :
  (0 < n)%nat → Forall entry_ok es → range_ok range → 0 <= next <= 2 ^ 64 - 4096 →
  ∃ r, bump_entries bt es n (Z.of_nat n * 4096) range next = Some r ∧
    match r with Some q => run_ok es n range next q | None => ∀ q, ~ run_ok es n range next q end.
Proof.
  intros Hn Hes [Hr1 Hr2] Hx. induction Hes as [|e es (Hb&Hl&He) Hes IH]; cbn [bump_entries].
  { exists None. split; [done|]. intros q (e&?%not_elem_of_nil&_). done. }
  destruct IH as (r'&Hr'&IH).
  assert (Hskip : (∀ q, ~ run_ok [e] n range next q) →
    match r' with Some q => run_ok (e :: es) n range next q | None => ∀ q, ~ run_ok (e :: es) n range next q end).
  { intros Hno. destruct r' as [q|].
    - destruct IH as (x&?&?). exists x. split; [by right|done].
    - intros q (x&Hin&Hq). apply elem_of_cons in Hin as [E|Hin].
      + apply (Hno q). exists x. split; [rewrite E; by left|done].
      + apply (IH q). by exists x. }
  destruct (e_usable e) eqn:Eu; cbn [negb].
  2:{ exists r'. split; [done|]. apply Hskip. intros q (x&->%list_elem_of_singleton&?&_). congruence. }
  rewrite add64_in by lia. cbn [mbind option_bind].
  destruct (page_up_spec (Z.max (Z.max (e_base e) next) range.1)) as (phys&Hp&Hpr&Hpa); [lia|].
  rewrite Hp. cbn [mbind option_bind].
  assert (Hpm : phys <= 2 ^ 64 - 4096).
  { destruct (Z.le_gt_cases phys (2 ^ 64 - 4096)); [done|].
    pose proof (aligned_apart (2 ^ 64 - 4096) phys eq_refl Hpa). lia. }
  destruct (bump_while_spec n (Z.min (e_base e + e_length e) range.2) phys) as (r&Hr&Ha); [done|lia|done|lia|].
  rewrite Hr. cbn [mbind option_bind]. destruct r as [q|].
  - exists (Some q). split; [done|]. destruct Ha as (?&?&?&?). exists e. split; [by left|]. split_and!; done || lia.
  - exists r'. split; [done|]. apply Hskip.
    intros q (x&->%list_elem_of_singleton&_&?&?&?&?&?&Hqa&Hc). apply (Ha q); [|done|lia|done].
    destruct (Z.le_gt_cases phys q); [done|]. pose proof (aligned_apart q phys Hqa Hpa). lia.
Qed.

(** ** The cursor *)

Definition cursor (m : Mem) : Z := if m_next m =? 0 then bt_heap_end bt else m_next m.

Definition cursor_ok (m : Mem) : Prop := bt_heap_end bt <= cursor m <= 2 ^ 64 - 4096.

Lemma bump_run_spec n range m :
  (0 < n)%nat → range_ok range → cursor_ok m →
  ∃ r m', bump_run bt n (Z.of_nat n * 4096) range m = Some (r, m') ∧
    match r with
    | Some q => run_ok (bt_entries bt) n range (cursor m) q ∧ m' = set_next m (q + Z.of_nat n * 4096) ∧
                cursor m' = q + Z.of_nat n * 4096 ∧ cursor_ok m'
    | None => m' = m ∧ ∀ q, ~ run_ok (bt_entries bt) n range (cursor m) q
    end.
Proof.
  intros Hn Hr [Hc1 Hc2]. destruct (wb_heap Hwf) as [Hh _]. unfold bump_run. fold (cursor m).
  destruct (page_up_spec (cursor m)) as (next&Hx&Hxr&Hxa); [lia|]. rewrite Hx. cbn [mbind option_bind].
  assert (Hxm : next <= 2 ^ 64 - 4096).
  { destruct (Z.le_gt_cases next (2 ^ 64 - 4096)); [done|].
    pose proof (aligned_apart (2 ^ 64 - 4096) next eq_refl Hxa). lia. }
  destruct (bump_entries_spec (bt_entries bt) n range next Hn (wb_entries Hwf) Hr) as (r&->&Ha); [lia|].
  cbn [mbind option_bind]. destruct r as [q|].
  - destruct Ha as (e&He&Hu&Hb&Hl&Hnx&?&?&?&?).
    assert (Hwe := wb_entries Hwf). rewrite Forall_forall in Hwe. destruct (Hwe _ He) as (?&?&?).
    rewrite add64_in by lia. cbn [mbind option_bind].
    eexists _, _. split; [done|]. split; [|split; [done|]].
    + exists e. split_and!; done || lia.
    + assert (E : cursor (set_next m (q + Z.of_nat n * 4096)) = q + Z.of_nat n * 4096).
      { unfold cursor. cbn [set_next m_next]. case_if; [lia|done]. }
      split; [done|]. unfold cursor_ok. rewrite E. lia.
  - eexists _, _. split; [done|]. split; [done|]. intros q (e&?&?&?&?&?&?&?&Hqa&?). apply (Ha q).
    exists e. split_and!; try done.
    destruct (Z.le_gt_cases next q); [done|]. pose proof (aligned_apart q next Hqa Hxa). lia.
Qed.

(** ** The invariant *)

(** The free list from [head] on, as the frames' first words link it. *)
Inductive chain (ram : Z → Z) : Z → list Z → Prop :=
| chain_nil : chain ram 0 []
| chain_cons f fl : f ≠ 0 → chain ram (ram f) fl → chain ram f (f :: fl).

(** A frame the allocator may hand out or hold. *)
Definition frame (m : Mem) (f : Z) : Prop :=
  f mod 4096 = 0 ∧ overlaps_kernel bt f = false ∧ frame_in_usable_memmap bt f = true ∧
  bt_heap_end bt <= f ∧ f + 4096 <= cursor m.

(** [A] are the frames handed out: with the free ones they are distinct
    frames below the cursor. *)
Definition frames_inv (A : list Z) (m : Mem) : Prop :=
  cursor_ok m ∧ ∃ fl, chain (m_ram m) (m_head m) fl ∧ NoDup (A ++ fl) ∧ Forall (frame m) (A ++ fl).

Lemma frame_bounds m f : cursor_ok m → frame m f → 0 < f <= 2 ^ 64 - 8192.
Proof. destruct (wb_heap Hwf). unfold cursor_ok. intros ? (?&?&?&?&?). lia. Qed.

Lemma frames_inv_perm A B m : A ≡ₚ B → frames_inv A m → frames_inv B m.
Proof.
  intros E (Hc&fl&Hch&Hnd&Hf). split; [done|]. exists fl. split; [done|].
  by rewrite <-E.
Qed.

Lemma chain_ext ram ram' h fl :
  (∀ f, f ∈ fl → ram' f = ram f) → chain ram h fl → chain ram' h fl.
Proof.
  intros He Hch. induction Hch as [|f fl Hf Hch IH]; [constructor|].
  constructor; [done|]. rewrite He by (by left). apply IH. intros g ?. apply He. by right.
Qed.

(** Frames apart do not share words. *)
Lemma apart_words A m f g a :
  Forall (frame m) A → NoDup A → f ∈ A → g ∈ A → f ≠ g → f <= a < f + 4096 → a ≠ g.
Proof.
  intros Hall _ Hf Hg Hne Ha ->. rewrite Forall_forall in Hall.
  destruct (Hall _ Hf) as (Hfa&_), (Hall _ Hg) as (Hga&_).
  destruct (Z.lt_total f g) as [Hlt|[?|Hlt]]; [|done|];
    [pose proof (aligned_apart f g Hfa Hga)|pose proof (aligned_apart g f Hga Hfa)]; lia.
Qed.

(** A change of the memory of owned frames only. *)
Lemma frames_inv_write A m ram' :
  frames_inv A m → (∀ a, (∀ f, f ∈ A → ~ (f <= a < f + 4096)) → ram' a = m_ram m a) →
  frames_inv A (set_ram m ram').
Proof.
  intros (Hc&fl&Hch&Hnd&Hf) He. split; [done|]. exists fl. split; [|done].
  cbn [set_ram m_ram m_head]. apply (chain_ext (m_ram m)); [|done].
  intros g Hg. apply He. intros f Hfa Ha.
  assert (f ≠ g). { intros ->. apply NoDup_app in Hnd as (_&Hn&_). by apply (Hn g). }
  eapply (apart_words _ m f g g Hf Hnd); [apply elem_of_app; by left|apply elem_of_app; by right|done..].
Qed.

Lemma free_frame_inv f A m : frames_inv (f :: A) m → frames_inv A (free_frame bt f m).
Proof.
  intros (Hc&fl&Hch&Hnd&Hall). cbn [app] in *.
  assert (Hff : frame m f) by (by apply Forall_cons in Hall as [? _]).
  assert (Hb := frame_bounds m f Hc Hff). destruct Hff as (Ha&Ho&Hu&Hh&Hcur).
  unfold free_frame. rewrite (proj2 (Z.eqb_neq f 0)), (proj2 (misaligned_spec f) Ha), Ho by lia. cbn [orb].
  split; [done|]. exists (f :: fl). cbn [set_ram set_head set_frees m_ram m_head].
  assert (Hnf : f ∉ fl). { apply NoDup_cons in Hnd as [Hn _]. intros ?. apply Hn, elem_of_app. by right. }
  split; [|split].
  - constructor; [lia|]. unfold write_word at 2. rewrite Z.eqb_refl.
    apply (chain_ext (m_ram m)); [|done]. intros g Hg. unfold write_word.
    case_if; [by subst|done].
  - by rewrite <-Permutation_middle.
  - by rewrite <-Permutation_middle.
Qed.

Lemma release_inv give A m : frames_inv (give ++ A) m → frames_inv A (release_caches bt give m).2.
Proof.
  unfold release_caches. cbn [snd]. revert m. induction give as [|f give IH]; intros m Hm; [done|].
  cbn [foldl]. by apply IH, free_frame_inv.
Qed.

(** Nothing is left: the free list is empty and no usable frame lies past
    the cursor. *)
Definition exhausted (m : Mem) : Prop :=
  m_head m = 0 ∧ ∀ q, ~ run_ok (bt_entries bt) 1 ANYWHERE (cursor m) q.

Lemma run_usable n range next q :
  0 <= q → run_ok (bt_entries bt) n range next q →
  ∀ i : nat, (i < n)%nat → frame_in_usable_memmap bt (q + Z.of_nat i * 4096) = true.
Proof.
  intros Hq (e&He&Hu&?&?&_) i Hi. unfold frame_in_usable_memmap. apply existsb_exists. exists e.
  split; [by apply list_elem_of_In|]. rewrite Hu. cbn [andb]. unfold sat_add, PAGE.
  apply andb_true_iff. rewrite !Z.leb_le. lia.
Qed.

(** The frames of a run. *)
Definition run_frames (q : Z) (n : nat) : list Z := (λ i, q + Z.of_nat i * 4096) <$> seq 0 n.

Lemma elem_run_frames f q n : f ∈ run_frames q n ↔ ∃ i : nat, (i < n)%nat ∧ f = q + Z.of_nat i * 4096.
Proof.
  unfold run_frames. rewrite list_elem_of_fmap. split.
  - intros (i&->&Hi%elem_of_seq). exists i. split; [lia|done].
  - intros (i&Hi&->). exists i. split; [done|]. apply elem_of_seq. lia.
Qed.

(** A run taken from the cursor is new. *)
Lemma bump_inv n range A m q :
  (0 < n)%nat → frames_inv A m → run_ok (bt_entries bt) n range (cursor m) q →
  cursor (set_next m (q + Z.of_nat n * 4096)) = q + Z.of_nat n * 4096 →
  cursor_ok (set_next m (q + Z.of_nat n * 4096)) →
  frames_inv (run_frames q n ++ A) (set_next m (q + Z.of_nat n * 4096)).
Proof.
  intros Hn (Hc&fl&Hch&Hnd&Hall) Hr Hcur Hc'. split; [done|]. exists fl. split; [done|].
  assert (Hc2 := Hc). destruct Hc2 as [Hh _]. destruct (wb_heap Hwf) as [Hh0 _].
  assert (Hus := run_usable n range (cursor m) q).
  assert (Hr' := Hr). destruct Hr' as (e&He&Hu&Hb&Hl&Hx&Hr1&Hr2&Ha&Hclear).
  rewrite Forall_forall in Hall. rewrite <-app_assoc. split.
  - apply NoDup_app. split_and!; [|intros f Hf Hf'|done].
    + apply NoDup_fmap_2; [|apply NoDup_seq]. intros i j Hij. lia.
    + apply elem_run_frames in Hf as (i&Hi&->). apply Hall in Hf' as (_&_&_&_&?). lia.
  - apply Forall_app. split; apply Forall_forall; intros f Hf.
    + apply elem_run_frames in Hf as (i&Hi&->). unfold frame. rewrite Hcur. split_and!.
      * zdiv.
      * by apply Hclear.
      * apply Hus; [lia|done|done].
      * lia.
      * lia.
    + destruct (Hall _ Hf) as (?&?&?&?&?). split_and!; try done. rewrite Hcur. lia.
Qed.

(** ** Taking a frame *)

Lemma good_node m f : frame m f → bad_node bt f = false.
Proof.
  intros (Ha&Ho&Hu&_). unfold bad_node. by rewrite (proj2 (misaligned_spec f) Ha), Ho, Hu.
Qed.

Lemma pop_free_spec A m :
  frames_inv A m →
  ∃ r m', pop_free bt m = Some (r, m') ∧
    match r with Some f => frames_inv (f :: A) m' | None => m' = m ∧ m_head m = 0 end.
Proof.
  intros (Hc&fl&Hch&Hnd&Hall). unfold pop_free, validate_free_frame.
  destruct Hch as [|f fl Hf Hch].
  { exists None, m. split; [done|]. done. }
  rewrite (proj2 (Z.eqb_neq f 0)) by done.
  assert (Hfl := Hall). apply Forall_app in Hfl as [_ Hfl]. apply Forall_cons in Hfl as [Hff Hfl].
  rewrite (good_node m f Hff). cbn [mbind option_bind].
  assert (Hgood : negb (m_ram m f =? 0) && bad_node bt (m_ram m f) = false).
  { inversion Hch as [E|g fl' Hg Hch' E]; subst; [done|].
    apply Forall_cons in Hfl as [Hgf _]. rewrite (good_node m _ Hgf). apply andb_false_r. }
  rewrite Hgood. exists (Some f), (set_head m (m_ram m f)). split; [done|].
  split; [done|]. exists fl. cbn [set_head m_ram m_head]. split; [done|].
  assert (E : A ++ f :: fl ≡ₚ (f :: A) ++ fl) by (by rewrite <-Permutation_middle).
  by rewrite <-E.
Qed.

Lemma take_spec A m :
  frames_inv A m →
  ∃ r m', take_frame bt m = Some (r, m') ∧
    match r with Some f => frames_inv (f :: A) m' | None => m' = m ∧ exhausted m end.
Proof.
  intros Hm. unfold take_frame. destruct (pop_free_spec A m Hm) as ([f|]&m1&->&H1); cbn [mbind option_bind].
  { by exists (Some f), m1. }
  destruct H1 as [-> Hh].
  destruct (bump_run_spec 1 ANYWHERE m) as (r&m2&E&H2); [lia| |by destruct Hm|].
  { unfold range_ok, ANYWHERE, U64_MAX. cbn [fst snd]. lia. }
  change (Z.of_nat 1 * 4096) with PAGE in E. rewrite E.
  exists r, m2. split; [done|]. destruct r as [q|].
  - destruct H2 as (Hr&->&Hcur&Hc'). apply (bump_inv 1 ANYWHERE A m q) in Hm; [|lia|done..].
    unfold run_frames in Hm. cbn [seq fmap list_fmap app] in Hm. by rewrite Z.add_0_r in Hm.
  - destruct H2 as [-> Hno]. by split.
Qed.

Definition zero_frame (m : Mem) (f : Z) : Prop := ∀ a, f <= a < f + 4096 → m_ram m a = 0.

Lemma zero_page_inv f A m v :
  frames_inv (f :: A) m →
  let m' := set_allocs (set_ram m (zero_page f (m_ram m))) v in
  frames_inv (f :: A) m' ∧ zero_frame m' f.
Proof.
  intros Hm. cbv zeta. split.
  - apply (frames_inv_write (f :: A) m (zero_page f (m_ram m))) in Hm; [done|].
    intros a Ha. specialize (Ha f ltac:(by left)). unfold zero_page, zero_bytes, PAGE. case_if; [lia|done].
  - intros a Ha. cbn [set_allocs set_ram m_ram]. unfold zero_page, zero_bytes, PAGE. case_if; [done|].
    rewrite andb_false_iff, Z.leb_gt, Z.ltb_ge in *. lia.
Qed.

(** The caches are asked only when the list and the cursor have nothing. *)
Definition asked (m : Mem) : bool := match take_frame bt m with Some (None, _) => true | _ => false end.

Lemma raw_alloc_spec give A m :
  frames_inv (give ++ A) m →
  ∃ r m', raw_alloc bt give m = Some (r, m') ∧
    let kept := if asked m then A else give ++ A in
    match r with
    | Some f => frames_inv (f :: kept) m' ∧ zero_frame m' f
    | None => frames_inv kept m' ∧ exhausted m'
    end.
Proof.
  intros Hm. unfold raw_alloc, asked.
  destruct (take_spec (give ++ A) m Hm) as ([f|]&m1&->&H1); cbn [mbind option_bind].
  { eexists (Some f), _. split; [done|]. by apply zero_page_inv. }
  destruct H1 as [-> Hex]. assert (Hrel := release_inv give A m Hm).
  destruct (release_caches bt give m) as [n m2] eqn:E. cbn [snd] in Hrel.
  assert (En : n = zlen give) by (unfold release_caches in E; congruence).
  destruct (Z.ltb_spec 0 n) as [Hn|Hn].
  - destruct (take_spec A m2 Hrel) as ([f|]&m3&->&H3); cbn [mbind option_bind].
    + eexists (Some f), _. split; [done|]. by apply zero_page_inv.
    + destruct H3 as [-> Hex3]. by exists None, m2.
  - destruct give; [|simpl in En; lia]. injection E as <- <-. by exists None, m.
Qed.

(** A run for a device or for the kernel. *)
Lemma bump_run_inv n range A m :
  (0 < n)%nat → range_ok range → frames_inv A m →
  ∃ r m', bump_run bt n (Z.of_nat n * 4096) range m = Some (r, m') ∧
    match r with
    | Some q => frames_inv (run_frames q n ++ A) m' ∧ range.1 <= q ∧ q + Z.of_nat n * 4096 <= range.2
    | None => m' = m
    end.
Proof.
  intros Hn Hr Hm. destruct (bump_run_spec n range m Hn Hr) as (r&m'&E&H); [by destruct Hm|].
  exists r, m'. split; [done|]. destruct r as [q|]; [|by destruct H].
  destruct H as (Ho&->&?&?). split; [by eapply bump_inv|]. destruct Ho as (e&?&?&?&?&?&?&?&_). done.
Qed.

Lemma zero_run_inv q n A m :
  frames_inv (run_frames q n ++ A) m →
  frames_inv (run_frames q n ++ A) (set_ram m (zero_bytes q (Z.of_nat n * 4096) (m_ram m))).
Proof.
  intros Hm. apply frames_inv_write; [done|]. intros a Ha. unfold zero_bytes. case_if; [|done]. exfalso.
  apply (Ha (q + Z.of_nat (Z.to_nat ((a - q) / 4096)) * 4096)).
  - apply elem_of_app. left. apply elem_run_frames. exists (Z.to_nat ((a - q) / 4096)). split; [|done].
    apply Nat2Z.inj_lt. rewrite Z2Nat.id by (apply Z.div_pos; lia). zdiv.
  - rewrite Z2Nat.id by (apply Z.div_pos; lia). zdiv.
Qed.

(** ** Runs of the allocator

    The owners [A] hold the frames handed out.  An owner may write its
    frames, give them back (the caches when asked), and ask for more. *)

Inductive fstep : list Z * Mem → list Z * Mem → Prop :=
| fs_alloc A give B m r m' :
    A ≡ₚ give ++ B → raw_alloc bt give m = Some (r, m') →
    fstep (A, m) (option_list r ++ (if asked m then B else A), m')
| fs_free A f B m : A ≡ₚ f :: B → fstep (A, m) (B, free_frame bt f m)
| fs_ignored A phys m :
    phys = 0 ∨ misaligned phys = true ∨ overlaps_kernel bt phys = true →
    fstep (A, m) (A, free_frame bt phys m)
| fs_dma A n range m q m' :
    (0 < n)%nat → range_ok range → bump_dma bt n range m = Some (Some q, m') →
    fstep (A, m) (run_frames q n ++ A, m')
| fs_contiguous A n m q m' :
    Z.of_nat n * 4096 <= U64_MAX → alloc_contiguous_frames bt n m = Some (Some q, m') →
    fstep (A, m) (run_frames q n ++ A, m')
| fs_count A site n m : fstep (A, m) (A, count_site site n m)
| fs_write A f a v m :
    f ∈ A → f <= a < f + 4096 → fstep (A, m) (A, set_ram m (write_word a v (m_ram m))).

Lemma free_ignored phys m :
  phys = 0 ∨ misaligned phys = true ∨ overlaps_kernel bt phys = true → free_frame bt phys m = m.
Proof.
  unfold free_frame. intros [->|[->| ->]]; [done| |by case_if]. by rewrite orb_true_r.
Qed.

Lemma count_site_inv site n A m : frames_inv A m → frames_inv A (count_site site n m).
Proof. unfold count_site. by destruct (m_sites m !! site). Qed.

Lemma fstep_inv A m A' m' : fstep (A, m) (A', m') → frames_inv A m → frames_inv A' m'.
Proof.
  intros Hs Hm. inversion Hs as [? give B ? r ? HA Ea|? f B ? HA|? phys ? Hi|? n range ? q ? Hn Hr Eb
    |? n ? q ? Hn Eb|? site n ?|? f a v ? Hf Ha]; subst.
  - destruct (raw_alloc_spec give B m (frames_inv_perm _ _ _ HA Hm)) as (r'&m2&E&H). rewrite Ea in E.
    injection E as <- <-. cbv zeta in H.
    assert (Hk : ∀ f, frames_inv (f ++ (if asked m then B else give ++ B)) m' →
      frames_inv (f ++ (if asked m then B else A)) m').
    { intros f. destruct (asked m); [done|]. apply frames_inv_perm. by rewrite HA. }
    destruct r as [f|]; [apply (Hk [f]), H|apply (Hk []), H].
  - by apply free_frame_inv, (frames_inv_perm A).
  - by rewrite free_ignored.
  - unfold bump_dma in Eb. unfold fits in Eb. destruct (_ && _); [|done]. cbn [mbind option_bind] in Eb.
    destruct (bump_run_inv n range A m Hn Hr Hm) as (r&m2&E&H). unfold PAGE in Eb. rewrite E in Eb.
    cbn [mbind option_bind] in Eb. destruct r as [q'|]; [|done]. injection Eb as <- <-.
    apply (zero_run_inv q' n A m2), H.
  - unfold alloc_contiguous_frames in Eb. destruct n as [|n]; [done|].
    unfold sat_mul, PAGE in Eb. rewrite Z.min_l in Eb by lia.
    destruct (bump_run_inv (S n) ANYWHERE A m ltac:(lia)) as (r&m2&E&H); [|done|].
    { unfold range_ok, ANYWHERE, U64_MAX. cbn [fst snd]. lia. }
    rewrite E in Eb. cbn [mbind option_bind] in Eb. destruct r as [q'|]; [|done].
    injection Eb as <- <-. apply (zero_run_inv q' (S n) A m2), H.
  - by apply count_site_inv.
  - apply frames_inv_write; [done|]. intros x Hx. unfold write_word. case_if; [|done]. subst.
    exfalso. by apply (Hx f).
Qed.

(** The state [heap::init] leaves: no frame handed out yet. *)
Definition fresh_mem (m : Mem) : Prop := m_next m = 0 ∧ m_head m = 0.

Lemma fresh_inv m : fresh_mem m → frames_inv [] m.
Proof.
  intros [Hn Hh]. destruct (wb_heap Hwf). unfold frames_inv, cursor_ok, cursor. rewrite Hn, Hh. cbn [Z.eqb].
  split; [lia|]. exists []. split; [constructor|]. split; constructor.
Qed.

Lemma reachable_inv m0 s : fresh_mem m0 → rtc fstep ([], m0) s → frames_inv s.1 s.2.
Proof.
  intros H0 Hs. apply fresh_inv in H0. change [] with (([] : list Z, m0).1) in H0.
  change m0 with (([] : list Z, m0).2) in H0 at 2. revert H0.
  induction Hs as [|[A m] [B m1] t Hst _ IH]; [done|]. intros Hm. apply IH. by eapply fstep_inv.
Qed.

(** The larger operations are runs of these steps. *)
Lemma release_steps give A B m :
  A ≡ₚ give ++ B → ∃ B', B' ≡ₚ B ∧ rtc fstep (A, m) (B', (release_caches bt give m).2).
Proof.
  unfold release_caches. cbn [snd]. revert A m. induction give as [|f give IH]; intros A m HA; cbn [foldl].
  - exists A. split; [done|apply rtc_refl].
  - destruct (IH (give ++ B) (free_frame bt f m)) as (B'&?&Hs); [done|].
    exists B'. split; [done|]. eapply rtc_l; [by apply fs_free|done].
Qed.

Lemma try_alloc_frame_user_steps site give give' A B m r m' :
  A ≡ₚ give ++ give' ++ B → try_alloc_frame_user bt site give give' m = Some (r, m') →
  ∃ A', rtc fstep (A, m) (A', m') ∧ ∀ f, r = Some f → f ∈ A'.
Proof.
  intros HA. unfold try_alloc_frame_user.
  set (m1 := if over_line bt m then (release_caches bt give m).2 else m).
  assert (∃ A1 C, A1 ≡ₚ give' ++ C ∧ rtc fstep (A, m) (A1, m1)) as (A1&C&HA1&Hs1).
  { subst m1. destruct (over_line bt m).
    - destruct (release_steps give A (give' ++ B) m HA) as (B'&?&?). by exists B', B.
    - exists A, (give ++ B). split; [|apply rtc_refl]. rewrite HA. apply Permutation_app_swap_app. }
  destruct (over_line bt m && over_line bt m1).
  { intros [= <- <-]. by exists A1. }
  destruct (raw_alloc bt give' m1) as [[r' m2]|] eqn:E; [|done]. cbn [mbind option_bind].
  assert (Hs2 := fs_alloc A1 give' C m1 r' m2 HA1 E). destruct r' as [f|]; intros [= <- <-].
  - eexists. split.
    + etrans; [exact Hs1|]. eapply rtc_l; [exact Hs2|]. eapply rtc_l; [apply fs_count|apply rtc_refl].
    + intros ? [= <-]. by left.
  - eexists. split; [|done]. etrans; [exact Hs1|]. eapply rtc_l; [exact Hs2|apply rtc_refl].
Qed.

Lemma bump_run_none n need range m m' : bump_run bt n need range m = Some (None, m') → m' = m.
Proof.
  unfold bump_run. destruct (page_up _); [|done]. cbn [mbind option_bind].
  destruct (bump_entries _ _ _ _ _ _) as [[q|]|]; [|by intros [= <-]|done]. cbn [mbind option_bind].
  by destruct (add64 q need).
Qed.

Lemma alloc_contiguous_pages_steps n range give A B m r m' :
  range_ok range → A ≡ₚ give ++ B → alloc_contiguous_pages bt n range give m = Some (r, m') →
  ∃ A', rtc fstep (A, m) (A', m') ∧ ∀ q, r = Some q → ∀ f, f ∈ run_frames q n → f ∈ A'.
Proof.
  intros Hr HA. unfold alloc_contiguous_pages.
  assert (Hdma : ∀ k A1 m1 r1 m2, (0 < k)%nat → rtc fstep (A, m) (A1, m1) → bump_dma bt k range m1 = Some (r1, m2) →
    ∃ A', rtc fstep (A, m) (A', m2) ∧ ∀ q, r1 = Some q → ∀ f, f ∈ run_frames q k → f ∈ A').
  { intros k A1 m1 [q|] m2 Hk Hs E.
    - exists (run_frames q k ++ A1). split; [eapply rtc_r; [exact Hs|by eapply fs_dma]|].
      intros ? [= <-] f Hf. apply elem_of_app. by left.
    - exists A1. split; [|done]. unfold bump_dma in E. destruct (fits 64 _); [|done]. cbn [mbind option_bind] in E.
      destruct (bump_run bt k _ range m1) as [[[q|] m3]|] eqn:Eb; [done| |done]. cbn [mbind option_bind] in E.
      apply bump_run_none in Eb as ->. by injection E as <-. }
  assert (Hcount : ∀ r1 m1, (∃ A', rtc fstep (A, m) (A', m1) ∧ ∀ q, r1 = Some q → ∀ f, f ∈ run_frames q n → f ∈ A') →
    match r1 with None => Some (None, m1) | Some phys => Some (Some phys, count_site 0 (Z.of_nat n) m1) end = Some (r, m') →
    ∃ A', rtc fstep (A, m) (A', m') ∧ ∀ q, r = Some q → ∀ f, f ∈ run_frames q n → f ∈ A').
  { intros [q|] m1 (A'&Hs&Hq) [= <- <-]; exists A'; (split; [|done]); [|done].
    eapply rtc_r; [exact Hs|apply fs_count]. }
  destruct n as [|[|n]].
  - cbn [mbind option_bind]. apply (Hcount None m). exists A. split; [apply rtc_refl|done].
  - destruct (raw_alloc bt give m) as [[[p|] m1]|] eqn:E; [| |done]; cbn [mbind option_bind].
    2:{ apply (Hcount None m1). eexists. split; [eapply rtc_r; [apply rtc_refl|by eapply fs_alloc]|done]. }
    assert (Hs := fs_alloc A give B m (Some p) m1 HA E).
    case_if; cbn [mbind option_bind].
    + apply (Hcount (Some p) m1). eexists. split; [eapply rtc_r; [apply rtc_refl|exact Hs]|].
      intros ? [= <-] f (i&Hi&->)%elem_run_frames. replace (p + Z.of_nat i * 4096) with p by lia. by left.
    + destruct (bump_dma bt 1 range _) as [[r1 m2]|] eqn:Eb; [|done]. cbn [mbind option_bind]. apply (Hcount r1 m2).
      eapply (Hdma 1%nat (if asked m then B else A)); [lia| |exact Eb].
      eapply rtc_r; [eapply rtc_r; [apply rtc_refl|exact Hs]|]. by apply fs_free.
  - destruct (bump_dma bt (S (S n)) range m) as [[r1 m2]|] eqn:Eb; [|done]. cbn [mbind option_bind]. apply (Hcount r1 m2).
    eapply Hdma; [lia|apply rtc_refl|exact Eb].
Qed.

(** ** Counting frames *)

Lemma interval_count (l : list Z) a b : NoDup l → Forall (λ x, a <= x < b) l → a <= b → zlen l <= b - a.
Proof.
  intros Hnd Hall Hab. rewrite Forall_forall in Hall.
  assert (Hsub : l ⊆+ seqZ a (b - a)).
  { apply NoDup_submseteq; [done|]. intros x Hx. apply elem_of_seqZ. specialize (Hall x Hx). lia. }
  apply submseteq_length in Hsub. rewrite length_seqZ in Hsub. lia.
Qed.

Definition whole_in (e : Entry) (f : Z) : bool :=
  e_usable e && (e_base e <=? f) && (f + 4096 <=? e_base e + e_length e).

Lemma entry_count e l :
  entry_ok e → NoDup l → Forall (λ f, f mod 4096 = 0 ∧ whole_in e f = true) l →
  zlen l <= (if e_usable e then e_length e / 4096 else 0).
Proof.
  intros (Hb&Hl&_) Hnd Hall. destruct (e_usable e) eqn:Eu.
  - rewrite Forall_forall in Hall. destruct (Z.le_gt_cases 4096 (e_length e)) as [Hle|Hlt].
    + assert (H := interval_count ((λ f, f / 4096) <$> l) ((e_base e + 4095) / 4096)
        ((e_base e + e_length e) / 4096)). rewrite length_fmap in H.
      enough (zlen l <= (e_base e + e_length e) / 4096 - (e_base e + 4095) / 4096).
      { set (c := (e_base e + 4095) / 4096) in *. assert (e_base e <= c * 4096) by (subst c; zdiv).
        assert ((e_base e + e_length e) / 4096 <= (e_length e + c * 4096) / 4096) by (apply Z.div_le_mono; lia).
        rewrite Z.div_add in * by lia. lia. }
      apply H.
      * apply NoDup_fmap_2_strong; [|done]. intros f g Hf Hg E.
        destruct (Hall _ Hf) as [? _], (Hall _ Hg) as [? _]. zdiv.
      * apply Forall_fmap, Forall_forall. intros f Hf. destruct (Hall _ Hf) as [Ha Hw].
        unfold whole_in in Hw. rewrite Eu in Hw. cbn [andb] in Hw. bool_hyps. unfold compose. zdiv.
      * zdiv.
    + destruct l as [|f l]; [simpl; zdiv|]. destruct (Hall f ltac:(by left)) as [_ Hw].
      unfold whole_in in Hw. rewrite Eu in Hw. cbn [andb] in Hw. bool_hyps. lia.
  - destruct l as [|f l]; [done|]. apply Forall_cons in Hall as [[_ Hw] _].
    unfold whole_in in Hw. by rewrite Eu in Hw.
Qed.

(** Distinct frames in usable memory are no more than its frames. *)
Lemma usable_count es l :
  Forall entry_ok es → NoDup l →
  Forall (λ f, f mod 4096 = 0 ∧ ∃ e, e ∈ es ∧ whole_in e f = true) l →
  zlen l <= foldr Z.add 0 ((λ e, e_length e / 4096) <$> filter (λ e, e_usable e = true) es).
Proof.
  intros Hes. revert l. induction Hes as [|e es He Hes IH]; intros l Hnd Hall.
  - destruct l as [|f l]; [done|]. apply Forall_cons in Hall as [(_&e&?%not_elem_of_nil&_) _]. done.
  - pose (l1 := filter (λ f, whole_in e f = true) l). pose (l2 := filter (λ f, ¬ whole_in e f = true) l).
    assert (Hp : l ≡ₚ l1 ++ l2) by (symmetry; apply list.filter_app_complement).
    rewrite Forall_forall in Hall.
    assert (H1 : zlen l1 <= if e_usable e then e_length e / 4096 else 0).
    { apply entry_count; [done|by apply NoDup_filter|]. apply Forall_forall.
      intros f [Hw Hf]%list_elem_of_filter. split; [by apply Hall|done]. }
    assert (H2 := IH l2 ltac:(by apply NoDup_filter)). rewrite Hp, length_app, list.filter_cons.
    enough (zlen l2 <= foldr Z.add 0 ((λ e, e_length e / 4096) <$> filter (λ e, e_usable e = true) es)) as H3.
    { case_decide as Hu; [rewrite Hu in H1|destruct (e_usable e); [done|]]; cbn [fmap list_fmap foldr]; lia. }
    apply H2, Forall_forall. intros f [Hw Hf]%list_elem_of_filter.
    destruct (Hall f Hf) as (Ha&x&[->|Hx]%elem_of_cons&Hxw); [done|]. eauto.
Qed.

(** ** The heap *)

Lemma size_for_spec u r : MIN_SIZE <= size_for u r ∧ size_for u r mod 4096 = 0.
Proof.
  unfold size_for, MIN_SIZE, MAX_SIZE. change (2 * 1024 * 1024 - 1) with (Z.ones 21).
  rewrite Z.ldiff_ones_r, Z.shiftr_div_pow2, Z.shiftl_mul_pow2 by lia. change (2 ^ 21) with 2097152.
  set (x := Z.min _ _). assert (67108864 <= x) by (subst x; lia). clearbody x.
  split; [|zdiv]. assert (32 <= x / 2097152) by (apply Z.div_le_lower_bound; lia). lia.
Qed.

Definition entries_aligned : Prop := Forall (λ e, e_usable e = true → e_base e mod 4096 = 0) (bt_entries bt).

(** The heap ends in a usable entry, at least its smallest size and the
    skipped part from the entry's start. *)
Lemma heap_init_spec es h :
  Forall (λ e, e_usable e = true → e_base e mod 4096 = 0) es → heap_init es = Some h →
  ∃ e n, e ∈ es ∧ e_usable e = true ∧ e_base e mod 4096 = 0 ∧ h = e_base e + Z.of_nat n * 4096 ∧
    16400 <= Z.of_nat n ∧ Z.of_nat n * 4096 <= e_length e.
Proof.
  intros Ha. unfold heap_init. generalize (usable_bytes es) (largest_usable es). intros u r.
  destruct (size_for_spec u r) as [Hs Hsa]. revert Hs Hsa. generalize (size_for u r). intros size Hs Hsa.
  induction Ha as [|e es He Ha IH]; cbn [alloc_usable]; [done|].
  assert (Hskip : (start ← alloc_usable es size; Some (start + size)) = Some h → _) by exact IH.
  assert (Hkeep : (start ← alloc_usable es size; Some (start + size)) = Some h →
    ∃ e0 n, e0 ∈ e :: es ∧ e_usable e0 = true ∧ e_base e0 mod 4096 = 0 ∧ h = e_base e0 + Z.of_nat n * 4096 ∧
      16400 <= Z.of_nat n ∧ Z.of_nat n * 4096 <= e_length e0).
  { intros H. destruct (IH H) as (e0&n&?&?). exists e0, n. split; [by right|done]. }
  destruct (e_usable e) eqn:Eu; cbn [negb]; [|done]. case_if; [|done]. cbn [mbind option_bind]. intros [= <-].
  exists e, (Z.to_nat ((SKIP + size) / 4096)). specialize (He eq_refl). unfold SKIP, MIN_SIZE in *.
  rewrite Z2Nat.id by (apply Z.div_pos; lia). change 0xfff with (Z.ones 12).
  rewrite Z.ldiff_ones_r, Z.shiftr_div_pow2, Z.shiftl_mul_pow2 by lia. change (2 ^ 12) with 4096.
  change (Z.ones 12) with 4095. split; [by left|]. split_and!; [done|done|zdiv| |zdiv].
  apply Z.div_le_lower_bound; lia.
Qed.

Lemma usable_whole_in f :
  0 <= f <= 2 ^ 64 - 8192 → frame_in_usable_memmap bt f = true → ∃ e, e ∈ bt_entries bt ∧ whole_in e f = true.
Proof.
  intros Hf. unfold frame_in_usable_memmap. intros (e&He&Hw)%existsb_exists. exists e.
  split; [by apply list_elem_of_In|]. apply list_elem_of_In in He.
  assert (Hwe := wb_entries Hwf). rewrite Forall_forall in Hwe. destruct (Hwe _ He) as (?&?&?).
  unfold whole_in. bool_hyps. unfold sat_add, PAGE, U64_MAX in *. rewrite !Z.min_l in * by lia.
  apply andb_true_iff. rewrite andb_true_iff, !Z.leb_le. done.
Qed.

(** The frames handed out and the memory before the end of the heap are
    apart, and all usable. *)
Lemma heap_frames_apart A m :
  entries_aligned → heap_init (bt_entries bt) = Some (bt_heap_end bt) → frames_inv A m →
  zlen A + 16400 <= usable_total bt.
Proof.
  intros Hal Hh (Hc&fl&_&Hnd&Hall). destruct (heap_init_spec _ _ Hal Hh) as (e&n&He&Hu&Ha&Hend&Hn&Hlen).
  apply NoDup_app in Hnd as [Hnd _]. apply Forall_app in Hall as [Hall _].
  assert (H := usable_count (bt_entries bt) (run_frames (e_base e) n ++ A) (wb_entries Hwf)).
  rewrite length_app in H. unfold run_frames in H at 3. rewrite length_fmap, length_seq in H.
  unfold usable_total, usable_frames, PAGE. enough (Z.of_nat (n + length A) <= _) by (etrans; [|exact H0]; lia).
  apply H.
  - rewrite Forall_forall in Hall. apply NoDup_app. split_and!; [|intros f Hf Hf'|done].
    + apply NoDup_fmap_2; [|apply NoDup_seq]. intros i j Hij. lia.
    + apply elem_run_frames in Hf as (i&Hi&->). destruct (Hall _ Hf') as (_&_&_&?&_). lia.
  - assert (Hwe := wb_entries Hwf). rewrite Forall_forall in Hwe. destruct (Hwe _ He) as (Hb0&?&?).
    rewrite Forall_forall in Hall. apply Forall_app. split; apply Forall_forall; intros f Hf.
    + apply elem_run_frames in Hf as (i&Hi&->). split; [zdiv|]. exists e. split; [done|].
      unfold whole_in. rewrite Hu. cbn [andb]. apply andb_true_iff. rewrite !Z.leb_le. lia.
    + assert (Hb := frame_bounds m f Hc (Hall _ Hf)). destruct (Hall _ Hf) as (?&?&?&?&?).
      split; [done|]. apply usable_whole_in; [lia|done].
Qed.
End frames.

(** ** What owners can rely on *)

(** C24: the allocator never hands out a frame twice.  In every state reached
    from boot by allocations, frees by owners, runs for devices, releases of
    the caches and writes of owners to their own frames, the frames held are
    distinct, page aligned, in usable memory, and clear of the kernel image
    and heap.  A further allocation does not panic on the free list; the
    frame it gives is held by nobody and zero; it gives none only when the
    free list is empty and no usable frame is left past the cursor. *)
Theorem frames_exclusive (bt : Boot) (m0 m : Mem) (A give B : list Z) :
  wf_boot bt → fresh_mem m0 → rtc (fstep bt) ([], m0) (A, m) → A ≡ₚ give ++ B →
  NoDup A ∧ Forall (frame bt m) A ∧
  ∃ r m', raw_alloc bt give m = Some (r, m') ∧
    let kept := if asked bt m then B else give ++ B in
    match r with
    | Some f => (f ∉ kept) ∧ frame bt m' f ∧ zero_frame m' f
    | None => exhausted bt m'
    end.
Proof.
  intros Hwf H0 Hs HA. apply (reachable_inv bt Hwf) in Hs; [|done]. cbn [fst snd] in Hs.
  assert (Hs' := Hs). destruct Hs' as (_&fl&_&Hnd&Hall). apply NoDup_app in Hnd as [Hnd _].
  apply Forall_app in Hall as [Hall _]. split; [done|]. split; [done|].
  destruct (raw_alloc_spec bt Hwf give B m (frames_inv_perm bt _ _ _ HA Hs)) as (r&m'&E&H).
  exists r, m'. split; [done|]. cbv zeta in *. destruct r as [f|]; [|by destruct H].
  destruct H as [(_&fl'&_&Hnd'&Hall') Hz]. cbn [app] in *.
  apply NoDup_cons in Hnd' as [Hf _]. apply Forall_cons in Hall' as [Hff _].
  split; [|done]. intros Hin. apply Hf, elem_of_app. by left.
Qed.

(** A machine with 64 MiB for the heap and two frames past it. *)
Definition ex_boot : Boot := {|
  bt_entries := [{| e_usable := true; e_base := 0x100000; e_length := 65536 + 67108864 + 8192 |}];
  bt_k0 := 0; bt_k1 := 0; bt_heap_end := 0x100000 + 65536 + 67108864 |}.

Definition ex_mem : Mem := {|
  m_next := 0; m_head := 0; m_ram := λ _, 7; m_allocs := 0; m_frees := 0; m_sites := replicate 6 0 |}.

Lemma ex_wf_boot : wf_boot ex_boot.
Proof. split; cbn; [|lia..]. repeat constructor; cbn; lia. Qed.

Lemma frames_exclusive_witness :
  ∃ m1 m2, raw_alloc ex_boot [] ex_mem = Some (Some 0x4110000, m1) ∧
    raw_alloc ex_boot [] m1 = Some (Some 0x4111000, m2) ∧ zero_frame m2 0x4111000.
Proof.
  assert (E1 : fst <$> raw_alloc ex_boot [] ex_mem = Some (Some 0x4110000)) by (vm_compute; reflexivity).
  assert (E2 : (fst <$> ('(_, m) ← raw_alloc ex_boot [] ex_mem; raw_alloc ex_boot [] m))
    = Some (Some 0x4111000)) by (vm_compute; reflexivity).
  destruct (raw_alloc ex_boot [] ex_mem) as [[r m1]|] eqn:E; [|done]. injection E1 as ->.
  cbn [mbind option_bind] in E2. exists m1.
  destruct (frames_exclusive ex_boot ex_mem m1 [0x4110000] [] [0x4110000] ex_wf_boot)
    as (_&_&r2&m2&Hr2&H2); [done| |done|].
  { eapply rtc_l; [|apply rtc_refl]. exact (fs_alloc ex_boot [] [] [] ex_mem _ m1 (Permutation_refl _) E). }
  rewrite Hr2 in E2. injection E2 as ->. exists m2. split; [done|]. split; [done|]. apply H2.
Defined.

(** The kernel's reserve is never kept.  [user_reserve] is to stop
    user-driven allocations while frames are left for the kernel, but the
    line it draws counts the heap's own memory, at least 64 MiB, among the
    frames still to be had: whatever number of frames is handed out, as long
    as the counters show no more than those, the line is not reached. *)
Theorem reserve_line_never_reached (bt : Boot) (m0 m : Mem) (A : list Z) :
  wf_boot bt → entries_aligned bt → heap_init (bt_entries bt) = Some (bt_heap_end bt) →
  fresh_mem m0 → rtc (fstep bt) ([], m0) (A, m) → live_frames m <= zlen A →
  over_line bt m = false.
Proof.
  intros Hwf Hal Hh H0 Hs Hlive. apply (reachable_inv bt Hwf) in Hs; [|done]. cbn [fst snd] in Hs.
  assert (H := heap_frames_apart bt Hwf A m Hal Hh Hs).
  unfold over_line, sat_add, user_reserve. apply Z.leb_gt. lia.
Qed.

Lemma reserve_line_never_reached_witness :
  heap_init (bt_entries ex_boot) = Some (bt_heap_end ex_boot) ∧ over_line ex_boot ex_mem = false.
Proof.
  split; [reflexivity|].
  apply (reserve_line_never_reached ex_boot ex_mem ex_mem []).
  - exact ex_wf_boot.
  - by repeat constructor.
  - reflexivity.
  - done.
  - apply rtc_refl.
  - reflexivity.
Defined.

(** On that machine a process takes both frames, though the reserve is 512;
    the kernel's next allocation is out of memory. *)
Theorem user_takes_the_last_frame :
  user_reserve ex_boot = 512 ∧
  ('(r1, m1) ← try_alloc_frame_user ex_boot 1 [] [] ex_mem;
   '(r2, m2) ← try_alloc_frame_user ex_boot 1 [] [] m1;
   Some (r1, r2, fst <$> alloc_frame ex_boot [] m2)) = Some (Some 0x4110000, Some 0x4111000, None).
Proof. split; vm_compute; reflexivity. Qed.
