(* ===== verification/Ext2Layout.v ===== *)
(** * ext2: the on-disk format ([modules/ext2/ext2fs/src/layout.rs], [lib.rs])

    Field offsets, little-endian accessors, the geometry a superblock
    describes, and which groups hold superblock backups.  A byte is a [Z]
    in [0, 256); an accessor past the end of its slice panics. *)

From S2P Require Import Prelude.

Inductive Error :=
  | NotFound | Exists | NotDir | IsDir | NotEmpty | NoSpace | TooBig
  | Invalid | Unsupported | Io.

#[export] Instance error_eq_dec : EqDecision Error.
Proof. solve_decision. Defined.

Inductive Kind := KFile | KDir | KSymlink | KOther.

#[export] Instance kind_eq_dec : EqDecision Kind.
Proof. solve_decision. Defined.

Definition MAGIC : Z := 0xEF53.
Definition SB_OFFSET : Z := 1024.
Definition SB_SIZE : Z := 1024.
Definition ROOT_INO : Z := 2.
Definition GOOD_OLD_FIRST_INO : Z := 11.
Definition GOOD_OLD_INODE_SIZE : Z := 128.
Definition GD_SIZE : Z := 32.

Definition S_IFMT : Z := 0xF000.
Definition S_IFREG : Z := 0x8000.
Definition S_IFDIR : Z := 0x4000.
Definition S_IFLNK : Z := 0xA000.

Definition FT_REG : Z := 1.
Definition FT_DIR : Z := 2.
Definition FT_SYMLINK : Z := 7.

Definition INDEX_FL : Z := 0x1000.

Definition INCOMPAT_FILETYPE : Z := 0x0002.
Definition RO_COMPAT_SPARSE_SUPER : Z := 0x0001.
Definition RO_COMPAT_LARGE_FILE : Z := 0x0002.

(** Superblock fields. *)
Definition S_INODES_COUNT : Z := 0.
Definition S_BLOCKS_COUNT : Z := 4.
Definition S_FREE_BLOCKS : Z := 12.
Definition S_FREE_INODES : Z := 16.
Definition S_FIRST_DATA_BLOCK : Z := 20.
Definition S_LOG_BLOCK_SIZE : Z := 24.
Definition S_BLOCKS_PER_GROUP : Z := 32.
Definition S_INODES_PER_GROUP : Z := 40.
Definition S_WTIME : Z := 48.
Definition S_MAGIC : Z := 56.
Definition S_STATE : Z := 58.
Definition S_REV_LEVEL : Z := 76.
Definition S_FIRST_INO : Z := 84.
Definition S_INODE_SIZE : Z := 88.
Definition S_BLOCK_GROUP_NR : Z := 90.
Definition S_FEATURE_INCOMPAT : Z := 96.
Definition S_FEATURE_RO_COMPAT : Z := 100.

(** Group descriptor fields. *)
Definition G_BLOCK_BITMAP : Z := 0.
Definition G_INODE_BITMAP : Z := 4.
Definition G_INODE_TABLE : Z := 8.
Definition G_FREE_BLOCKS : Z := 12.
Definition G_FREE_INODES : Z := 14.
Definition G_USED_DIRS : Z := 16.

Definition get16 (b : list Z) (o : Z) : option Z := le_val <$> slice b o (o + 2).
Definition get32 (b : list Z) (o : Z) : option Z := le_val <$> slice b o (o + 4).
Definition put16 (b : list Z) (o v : Z) : option (list Z) :=
  copy_slice b o (o + 2) (le_bytes 2 v).
Definition put32 (b : list Z) (o v : Z) : option (list Z) :=
  copy_slice b o (o + 4) (le_bytes 4 v).

Record Geometry := {
  block_size : Z;
  first_data_block : Z;
  blocks_count : Z;
  inodes_count : Z;
  blocks_per_group : Z;
  inodes_per_group : Z;
  inode_size : Z;
  first_ino : Z;
  groups : Z;
  filetype : bool;
  large_file : bool;
}.

Definition is_power_of_two (x : Z) : bool := (0 <? x) && (2 ^ Z.log2 x =? x).

(** [x & !mask != 0] *)
Definition has_other_bits (x mask : Z) : bool := negb (Z.ldiff x mask =? 0).

Definition parse (sb : list Z) : option (result Error Geometry) :=
  magic ← get16 sb S_MAGIC;
  if negb (magic =? MAGIC) then Some (Err Unsupported) else
  log ← get32 sb S_LOG_BLOCK_SIZE;
  if 2 <? log then Some (Err Unsupported) else
  rev ← get32 sb S_REV_LEVEL;
  incompat ← (if 1 <=? rev then get32 sb S_FEATURE_INCOMPAT else Some 0);
  ro_compat ← (if 1 <=? rev then get32 sb S_FEATURE_RO_COMPAT else Some 0);
  if has_other_bits incompat INCOMPAT_FILETYPE
     || has_other_bits ro_compat (Z.lor RO_COMPAT_SPARSE_SUPER RO_COMPAT_LARGE_FILE)
  then Some (Err Unsupported) else
  let bs := Z.shiftl 1024 log in
  isize ← (if 1 <=? rev then get16 sb S_INODE_SIZE else Some GOOD_OLD_INODE_SIZE);
  fino ← (if 1 <=? rev then get32 sb S_FIRST_INO else Some GOOD_OLD_FIRST_INO);
  fdb ← get32 sb S_FIRST_DATA_BLOCK;
  bc ← get32 sb S_BLOCKS_COUNT;
  ic ← get32 sb S_INODES_COUNT;
  bpg ← get32 sb S_BLOCKS_PER_GROUP;
  ipg ← get32 sb S_INODES_PER_GROUP;
  if (bpg =? 0) || (bs * 8 <? bpg) || (ipg =? 0) || (bs * 8 <? ipg)
     || negb ((128 <=? isize) && (isize <=? bs)) || negb (is_power_of_two isize)
     || (fino <=? ROOT_INO) || (bc <=? fdb)
  then Some (Err Unsupported) else
  d ← usub bc fdb;
  grps ← div_ceil d bpg;
  if negb (grps * ipg =? ic) then Some (Err Unsupported) else
  Some (Ok {|
    block_size := bs; first_data_block := fdb; blocks_count := bc; inodes_count := ic;
    blocks_per_group := bpg; inodes_per_group := ipg; inode_size := isize;
    first_ino := fino; groups := grps;
    filetype := negb (Z.land incompat INCOMPAT_FILETYPE =? 0);
    large_file := negb (Z.land ro_compat RO_COMPAT_LARGE_FILE =? 0) |}).

Definition group_first (geo : Geometry) (g : Z) : option Z :=
  p ← mul32 g (blocks_per_group geo); add32 (first_data_block geo) p.

Definition group_blocks (geo : Geometry) (g : Z) : option Z :=
  f ← group_first geo g;
  d ← usub (blocks_count geo) f;
  Some (Z.min d (blocks_per_group geo)).

Definition group_of_block (geo : Geometry) (b : Z) : option Z :=
  udiv (Z.max b (first_data_block geo) - first_data_block geo) (blocks_per_group geo).

Definition gdt_blocks (geo : Geometry) : option Z :=
  div_ceil (groups geo * GD_SIZE) (block_size geo).

Definition ptrs (geo : Geometry) : Z := block_size geo / 4.

(** The loop of [has_super]: the first power of [p] from [n] on that is not
    below [g] (saturating at [u32::MAX]). *)
Fixpoint power_at_least (fuel : nat) (p n g : Z) : option Z :=
  if n <? g then
    match fuel with
    | O => None
    | S fuel' => power_at_least fuel' p (Z.min (n * p) U32_MAX) g
    end
  else Some n.

(** Each round at least triples [n], so 32 rounds pass any [u32]. *)
Definition super_fuel : nat := 32.

Definition has_super (g : Z) (sparse : bool) : bool :=
  if negb sparse || (g <=? 1) then true
  else existsb (λ p, match power_at_least super_fuel p p g with
                     | Some n => n =? g | None => false end) [3; 5; 7].

(** ** Accessors *)

Lemma get16_ok b o : 0 <= o → o + 2 <= zlen b → ∃ v, get16 b o = Some v.
Proof. intros. unfold get16. rewrite slice_ok by lia. simpl. eauto. Qed.

Lemma get32_ok b o : 0 <= o → o + 4 <= zlen b → ∃ v, get32 b o = Some v.
Proof. intros. unfold get32. rewrite slice_ok by lia. simpl. eauto. Qed.

Lemma get16_range b o v : Forall is_byte b → get16 b o = Some v → 0 <= v < 2 ^ 16.
Proof.
  unfold get16. intros Hb Hv. apply fmap_Some in Hv as (s & Hs & ->).
  pose proof (slice_length _ _ _ _ Hs). pose proof (slice_bytes _ _ _ _ Hb Hs) as Hsb.
  apply le_val_range in Hsb. by replace (zlen s) with 2 in Hsb by lia.
Qed.

Lemma get32_range b o v : Forall is_byte b → get32 b o = Some v → 0 <= v < 2 ^ 32.
Proof.
  unfold get32. intros Hb Hv. apply fmap_Some in Hv as (s & Hs & ->).
  pose proof (slice_length _ _ _ _ Hs). pose proof (slice_bytes _ _ _ _ Hb Hs) as Hsb.
  apply le_val_range in Hsb. by replace (zlen s) with 4 in Hsb by lia.
Qed.

(** [b'] is [b] with the [n] bytes at [o] changed. *)
Definition changed_at (b b' : list Z) (o n : Z) : Prop :=
  length b' = length b ∧ (Forall is_byte b → Forall is_byte b') ∧
  ∀ x y, y <= o ∨ o + n <= x → slice b' x y = slice b x y.

Lemma changed_at_get16 b b' o n p :
  changed_at b b' o n → p + 2 <= o ∨ o + n <= p → get16 b' p = get16 b p.
Proof. intros (_ & _ & Hs) Hp. unfold get16. by rewrite Hs. Qed.

Lemma changed_at_get32 b b' o n p :
  changed_at b b' o n → p + 4 <= o ∨ o + n <= p → get32 b' p = get32 b p.
Proof. intros (_ & _ & Hs) Hp. unfold get32. by rewrite Hs. Qed.

Lemma splice_changed b o src :
  0 <= o → o + zlen src <= zlen b → Forall is_byte src →
  changed_at b (splice b o src) o (zlen src).
Proof.
  intros Ho Hl Hs. split_and!.
  - by apply splice_length.
  - intros Hb. unfold splice. rewrite !Forall_app.
    split_and!; [by apply Forall_take|done|by apply Forall_drop].
  - intros. by apply slice_splice_out.
Qed.

Lemma put16_ok b o v :
  0 <= o → o + 2 <= zlen b →
  ∃ b', put16 b o v = Some b' ∧ changed_at b b' o 2 ∧
    (0 <= v < 2 ^ 16 → get16 b' o = Some v).
Proof.
  intros Ho Hl. pose proof (le_bytes_length 2 v) as E.
  unfold put16. rewrite copy_slice_ok by lia. eexists. split; [done|]. split.
  - replace 2 with (zlen (le_bytes 2 v)) by lia. apply splice_changed; [lia..|].
    apply le_bytes_are_bytes.
  - intros Hv. unfold get16. replace (o + 2) with (o + zlen (le_bytes 2 v)) by lia.
    rewrite slice_splice by lia. cbn [fmap option_fmap option_map]. f_equal.
    apply le_val_bytes. done.
Qed.

Lemma put32_ok b o v :
  0 <= o → o + 4 <= zlen b →
  ∃ b', put32 b o v = Some b' ∧ changed_at b b' o 4 ∧
    (0 <= v < 2 ^ 32 → get32 b' o = Some v).
Proof.
  intros Ho Hl. pose proof (le_bytes_length 4 v) as E.
  unfold put32. rewrite copy_slice_ok by lia. eexists. split; [done|]. split.
  - replace 4 with (zlen (le_bytes 4 v)) by lia. apply splice_changed; [lia..|].
    apply le_bytes_are_bytes.
  - intros Hv. unfold get32. replace (o + 4) with (o + zlen (le_bytes 4 v)) by lia.
    rewrite slice_splice by lia. cbn [fmap option_fmap option_map]. f_equal.
    apply le_val_bytes. done.
Qed.

(** ** Well-formed geometries *)

(** What the code relies on about a mounted filesystem's shape. *)
Record wf_geo (geo : Geometry) : Prop := {
  wg_bs : block_size geo = 1024 ∨ block_size geo = 2048 ∨ block_size geo = 4096;
  wg_bpg : 1 <= blocks_per_group geo <= block_size geo * 8;
  wg_ipg : 1 <= inodes_per_group geo <= block_size geo * 8;
  wg_isize : 128 <= inode_size geo <= block_size geo;
  wg_isize_pow : is_power_of_two (inode_size geo) = true;
  wg_first_ino : ROOT_INO < first_ino geo < 2 ^ 32;
  wg_blocks : 0 <= first_data_block geo < blocks_count geo;
  wg_blocks_u32 : blocks_count geo < 2 ^ 32;
  wg_groups : (groups geo - 1) * blocks_per_group geo
              < blocks_count geo - first_data_block geo
              <= groups geo * blocks_per_group geo;
  wg_inodes : inodes_count geo = groups geo * inodes_per_group geo;
  wg_inodes_u32 : inodes_count geo < 2 ^ 32;
}.

Lemma div_ceil_spec a b q : 0 <= a → 0 < b → div_ceil a b = Some q → (q - 1) * b < a <= q * b ∨ (a = 0 ∧ q = 0).
Proof.
  intros Ha Hb. unfold div_ceil. case_if; [lia|]. intros [= <-].
  case_if; zdiv.
Qed.

(** Superblock reads of [parse] all succeed on a 1024-byte superblock. *)
Ltac read_field H b :=
  match goal with
  | |- context [get16 b ?o] =>
      let v := fresh "v" in let E := fresh "E" in
      destruct (get16_ok b o) as [v E]; [unfold o; lia|rewrite H; unfold o; lia|];
      rewrite E; simpl
  | |- context [get32 b ?o] =>
      let v := fresh "v" in let E := fresh "E" in
      destruct (get32_ok b o) as [v E]; [unfold o; lia|rewrite H; unfold o; lia|];
      rewrite E; simpl
  end.

Lemma parse_total sb : zlen sb = SB_SIZE → ∃ r, parse sb = Some r.
Proof.
  intros Hl. unfold SB_SIZE in Hl. unfold parse.
  repeat first [read_field Hl sb | case_if; simpl | by eauto];
    unfold usub, div_ceil; repeat (case_if; simpl; try lia); eauto.
Qed.

(** Splits the binds and tests of a successful computation. *)
Ltac inv_ok H :=
  repeat match type of H with
  | (_ ≫= _) = Some _ => apply bind_Some in H as (? & ? & H)
  | (if ?b then _ else _) = Some _ => destruct b eqn:?; bool_hyps; simplify_eq
  | Some _ = Some _ => injection H as H; simplify_eq
  | Ok _ = Ok _ => injection H as H; subst
  end.

Lemma parse_wf sb geo : Forall is_byte sb → parse sb = Some (Ok geo) → wf_geo geo.
Proof.
  intros Hb Hp. unfold parse in Hp. inv_ok Hp.
  repeat match goal with
  | H : get16 _ _ = Some _ |- _ => apply (get16_range _ _ _ Hb) in H
  | H : get32 _ _ = Some _ |- _ => apply (get32_range _ _ _ Hb) in H
  end.
  match goal with H : (if _ then get32 _ S_FIRST_INO else _) = Some ?v |- _ =>
    assert (0 <= v < 2 ^ 32) by
      (case_if; simplify_eq; [by eapply get32_range|unfold GOOD_OLD_FIRST_INO; lia]) end.
  match goal with H : usub _ _ = Some _ |- _ => unfold usub in H; inv_ok H end.
  match goal with H : div_ceil _ _ = Some _ |- _ =>
    apply div_ceil_spec in H; [|lia..] end.
  assert (Hlog : x = 0 ∨ x = 1 ∨ x = 2) by lia.
  split; simpl; try done; try lia.
  destruct Hlog as [->|[->| ->]]; auto.
Qed.

(** ** The groups *)

Section geometry.
Context (geo : Geometry) (Hg : wf_geo geo).

Definition first_of (g : Z) : Z := first_data_block geo + g * blocks_per_group geo.
Definition len_of (g : Z) : Z :=
  Z.min (blocks_count geo - first_of g) (blocks_per_group geo).

Lemma groups_pos : 0 < groups geo.
Proof. destruct Hg. nia. Qed.

Lemma first_of_bound g : 0 <= g < groups geo → first_of g < blocks_count geo.
Proof. destruct Hg. unfold first_of. nia. Qed.

Lemma group_first_ok g : 0 <= g < groups geo → group_first geo g = Some (first_of g).
Proof.
  intros H. pose proof (first_of_bound g H) as Hf. destruct Hg. unfold first_of in *.
  unfold group_first, mul32, add32, fits.
  assert (0 <= g * blocks_per_group geo) by nia.
  case_if; [|lia]. simpl. case_if; [done|lia].
Qed.

Lemma group_blocks_ok g : 0 <= g < groups geo → group_blocks geo g = Some (len_of g).
Proof.
  intros H. unfold group_blocks. rewrite group_first_ok by done. simpl.
  pose proof (first_of_bound g H). unfold usub. case_if; [done|lia].
Qed.

Lemma len_of_range g : 0 <= g < groups geo → 1 <= len_of g <= blocks_per_group geo.
Proof. intros H. pose proof (first_of_bound g H). destruct Hg. unfold len_of. lia. Qed.

Lemma group_of_block_ok b :
  first_data_block geo <= b →
  group_of_block geo b = Some ((b - first_data_block geo) / blocks_per_group geo).
Proof.
  intros H. unfold group_of_block, udiv. destruct Hg. case_if; [lia|].
  by rewrite Z.max_l by lia.
Qed.

Lemma group_of_range b :
  first_data_block geo <= b < blocks_count geo →
  let g := (b - first_data_block geo) / blocks_per_group geo in
  0 <= g < groups geo ∧ first_of g <= b < first_of g + len_of g.
Proof.
  intros H g. destruct Hg. unfold len_of, first_of.
  assert (Hd : b - first_data_block geo = blocks_per_group geo * g + (b - first_data_block geo) mod blocks_per_group geo)
    by (apply Z.div_mod; lia).
  pose proof (Z.mod_pos_bound (b - first_data_block geo) (blocks_per_group geo)).
  assert (0 <= g) by (apply Z.div_pos; lia). clearbody g. nia.
Qed.

Lemma group_of_unique g b :
  0 <= g < groups geo → first_of g <= b < first_of g + len_of g →
  (b - first_data_block geo) / blocks_per_group geo = g.
Proof.
  intros H Hb. destruct Hg. unfold len_of, first_of in *. symmetry.
  apply Z.div_unique with (b - first_data_block geo - g * blocks_per_group geo); nia.
Qed.

Lemma gdt_blocks_ok :
  ∃ n, gdt_blocks geo = Some n ∧ groups geo * GD_SIZE <= n * block_size geo ∧ 0 < n.
Proof.
  pose proof groups_pos. unfold gdt_blocks.
  assert (block_size geo ≠ 0) by (destruct Hg; lia).
  destruct (div_ceil (groups geo * GD_SIZE) (block_size geo)) as [n|] eqn:E.
  - exists n. split; [done|]. unfold GD_SIZE in *.
    apply div_ceil_spec in E; [|destruct Hg; lia..]. destruct Hg. nia.
  - unfold div_ceil in E. case_if; [lia|done].
Qed.

End geometry.

(** C26. A superblock is either refused or describes a disk whose block
    groups the code can address: parsing 1024 bytes never panics, and for an
    accepted superblock the groups' block ranges, computed without u32
    overflow, partition exactly [first_data_block, blocks_count), group by
    group, as [group_of_block] says. *)
Theorem accepted_superblock_groups_partition sb :
  zlen sb = SB_SIZE → Forall is_byte sb →
  ∃ r, parse sb = Some r ∧
  ∀ geo, r = Ok geo →
    wf_geo geo ∧
    (∀ g, 0 <= g < groups geo → ∃ f n,
       group_first geo g = Some f ∧ group_blocks geo g = Some n ∧
       1 <= n <= blocks_per_group geo ∧ f + n <= blocks_count geo ∧
       ∀ b, f <= b < f + n → group_of_block geo b = Some g) ∧
    (∀ b, first_data_block geo <= b < blocks_count geo → ∃ g f n,
       group_of_block geo b = Some g ∧ 0 <= g < groups geo ∧
       group_first geo g = Some f ∧ group_blocks geo g = Some n ∧ f <= b < f + n).
Proof.
  intros Hl Hb. destruct (parse_total sb Hl) as [r Hr]. exists r. split; [done|].
  intros geo ->. pose proof (parse_wf sb geo Hb Hr) as Hg. split; [done|]. split.
  - intros g H. exists (first_of geo g), (len_of geo g).
    rewrite group_first_ok, group_blocks_ok by done.
    pose proof (len_of_range geo Hg g H). repeat split; try lia.
    + pose proof (first_of_bound geo Hg g H). unfold len_of. lia.
    + intros b Hbb. assert (first_data_block geo <= b).
      { destruct Hg. unfold first_of in Hbb. nia. }
      rewrite group_of_block_ok by done. f_equal. by apply group_of_unique.
  - intros b H. destruct (group_of_range geo Hg b H) as [Hg1 Hg2].
    do 3 eexists. rewrite group_of_block_ok, group_first_ok, group_blocks_ok by (done || lia).
    repeat split; try done; lia.
Qed.

(** ** Superblock backups *)

Lemma power_at_least_spec fuel p j g :
  3 <= p → 0 <= j → 0 <= g < U32_MAX → U32_MAX <= p ^ (j + Z.of_nat fuel) →
  ∃ m, power_at_least fuel p (p ^ j) g = Some m ∧
       (m = g ↔ ∃ k, j <= k ∧ g = p ^ k).
Proof.
  revert j. induction fuel as [|fuel IH]; intros j Hp Hj Hg Hf; cbn [power_at_least].
  - rewrite Z.add_0_r in Hf. destruct (Z.ltb_spec (p ^ j) g); [lia|].
    exists (p ^ j). split; [done|]. split; [intros <-; exists j; lia|].
    intros (k & Hk & ->). pose proof (Z.pow_le_mono_r p j k). lia.
  - destruct (Z.ltb_spec (p ^ j) g) as [Hlt|Hge].
    + assert (Hnj : ∀ k, j <= k → g = p ^ k → j + 1 <= k).
      { intros k Hk ->. destruct (decide (k = j)); [subst; lia|lia]. }
      destruct (Z_lt_ge_dec (p ^ j * p) U32_MAX).
      * rewrite Z.min_l by lia. replace (p ^ j * p) with (p ^ (j + 1))
          by (rewrite Z.pow_add_r by lia; lia).
        destruct (IH (j + 1)) as (m & -> & Hm); [lia..| |].
        { by replace (j + 1 + Z.of_nat fuel) with (j + Z.of_nat (S fuel)) by lia. }
        exists m. split; [done|]. rewrite Hm. split; intros (k & Hk & Hgk); exists k; eauto with lia.
      * rewrite Z.min_r by lia.
        exists U32_MAX. split.
        { destruct fuel; cbn [power_at_least]; destruct (Z.ltb_spec U32_MAX g); [lia|done|lia|done]. }
        split; [lia|]. intros (k & Hk & Hgk). specialize (Hnj k Hk Hgk).
        pose proof (Z.pow_le_mono_r p (j + 1) k). rewrite Z.pow_add_r in H by lia. lia.
    + exists (p ^ j). split; [done|]. split; [intros <-; exists j; lia|].
      intros (k & Hk & ->). pose proof (Z.pow_le_mono_r p j k). lia.
Qed.

(** Under [sparse_super] exactly groups 0, 1 and the powers of 3, 5 and 7
    hold a superblock backup, and without it every group does; the search
    loop always ends. *)
Theorem has_super_spec g :
  0 <= g < U32_MAX →
  has_super g false = true ∧
  (has_super g true = true ↔
   g <= 1 ∨ ∃ p k, (p = 3 ∨ p = 5 ∨ p = 7) ∧ 1 <= k ∧ g = p ^ k) ∧
  ∀ p, p = 3 ∨ p = 5 ∨ p = 7 → is_Some (power_at_least super_fuel p p g).
Proof.
  intros Hg. split; [done|].
  assert (Hp : ∀ p, p = 3 ∨ p = 5 ∨ p = 7 → ∃ m, power_at_least super_fuel p p g = Some m ∧
    (m = g ↔ ∃ k, 1 <= k ∧ g = p ^ k)).
  { intros p Hp. pose proof (power_at_least_spec super_fuel p 1 g) as H.
    rewrite Z.pow_1_r in H. apply H; try lia.
    destruct Hp as [->|[->| ->]]; vm_compute; discriminate. }
  split; [|intros p H; destruct (Hp p H) as (m & -> & _); done].
  unfold has_super. destruct (Z.leb_spec g 1) as [|H1];
    cbn [negb orb existsb]; [split; auto|].
  destruct (Hp 3 ltac:(auto)) as (m3 & -> & H3), (Hp 5 ltac:(auto)) as (m5 & -> & H5),
    (Hp 7 ltac:(auto)) as (m7 & -> & H7).
  rewrite orb_false_r, !orb_true_iff, !Z.eqb_eq, H3, H5, H7. split.
  - intros [(k & ? & ?)|[(k & ? & ?)|(k & ? & ?)]]; right; eauto 10.
  - intros [?|(q & k & [->|[->| ->]] & ? & ?)]; [lia|eauto..].
Qed.

(** A 64-block filesystem with 1 KiB blocks, as [mkfs] lays one out. *)
Definition ex_sb : list Z :=
  let f (b : list Z) (ov : Z * Z) := default b (put32 b ov.1 ov.2) in
  let sb := foldl f (replicate 1024 0)
    [(S_INODES_COUNT, 16); (S_BLOCKS_COUNT, 64); (S_FIRST_DATA_BLOCK, 1);
     (S_BLOCKS_PER_GROUP, 8192); (S_INODES_PER_GROUP, 16); (S_REV_LEVEL, 1);
     (S_FIRST_INO, 11); (S_FEATURE_INCOMPAT, 2); (S_FEATURE_RO_COMPAT, 3)] in
  default sb (sb1 ← put16 sb S_MAGIC MAGIC; put16 sb1 S_INODE_SIZE 128).

Lemma ex_sb_bytes : Forall is_byte ex_sb.
Proof. apply bytesb_bytes. vm_compute. reflexivity. Qed.

Lemma accepted_superblock_groups_partition_witness :
  ∃ geo, parse ex_sb = Some (Ok geo) ∧ groups geo = 1 ∧ wf_geo geo.
Proof.
  destruct (accepted_superblock_groups_partition ex_sb) as (r & Hr & H).
  - vm_compute. reflexivity.
  - apply ex_sb_bytes.
  - assert (E : ∃ geo, parse ex_sb = Some (Ok geo) ∧ groups geo = 1)
      by (eexists; split; vm_compute; reflexivity).
    destruct E as (geo & E & Hgr). exists geo. split; [done|]. split; [done|].
    apply H. congruence.
Defined.

Lemma has_super_spec_witness : has_super 49 true = true ∧ has_super 6 true = false.
Proof.
  split.
  - apply (has_super_spec 49); [unfold U32_MAX; lia|].
    right. exists 7, 2. repeat split; auto; lia.
  - vm_compute. reflexivity.
Defined.
