(* ===== verification/Ext2Cache.v ===== *)
(** * ext2: the block cache ([modules/ext2/ext2fs/src/cache.rs])

    A write-back cache of [SLOTS] blocks over a [Device] (the trait of
    [lib.rs]).  [Slot] and [Cache] are the source's structs; [index] is its
    [BTreeMap] from block numbers to slot numbers, iterated in key order.
    The closures [read] and [modify] run may index the block out of range:
    they are partial functions on its bytes.  [tick], a [u64] that counts
    accesses, is not bounded. *)

From stdpp Require Import gmap sorting functions.
From S2P Require Import Prelude Ext2Layout.

(** The trait [Device]: [read] fills a buffer, [write] stores one, both
    telling whether they succeeded. *)
Class Device (D : Type) := {
  dev_read : D → Z → list Z → bool * list Z * D;
  dev_write : D → Z → list Z → bool * D;
  dev_now : D → Z * D;
}.

Definition SLOTS : nat := 256.

Record Slot := {
  s_block : Z;
  s_data : list Z;
  s_dirty : bool;
  s_used : Z;
}.

Record Cache (D : Type) := {
  dev : D;
  cbs : Z;
  slots : list Slot;
  index : gmap Z nat;
  tick : Z;
}.
Arguments dev {D} _.
Arguments cbs {D} _.
Arguments slots {D} _.
Arguments index {D} _.
Arguments tick {D} _.

(** The order in which a [BTreeMap] keyed by block iterates. *)
Definition by_block (x y : Z * nat) : Prop := x.1 <= y.1.
#[export] Instance by_block_dec x y : Decision (by_block x y).
Proof. unfold by_block. apply _. Defined.

Section cache.
Context {D : Type} `{Device D}.
Implicit Types (c : Cache D).

Definition cprog (A : Type) : Type := prog (Cache D) Error A.

Definition with_dev c (d : D) : Cache D :=
  {| dev := d; cbs := cbs c; slots := slots c; index := index c; tick := tick c |}.
Definition with_slots c (l : list Slot) : Cache D :=
  {| dev := dev c; cbs := cbs c; slots := l; index := index c; tick := tick c |}.
Definition with_index c (m : gmap Z nat) : Cache D :=
  {| dev := dev c; cbs := cbs c; slots := slots c; index := m; tick := tick c |}.
Definition with_tick c (t : Z) : Cache D :=
  {| dev := dev c; cbs := cbs c; slots := slots c; index := index c; tick := t |}.

Definition slot_data (s : Slot) (d : list Z) : Slot :=
  {| s_block := s_block s; s_data := d; s_dirty := s_dirty s; s_used := s_used s |}.
Definition slot_dirty (s : Slot) (b : bool) : Slot :=
  {| s_block := s_block s; s_data := s_data s; s_dirty := b; s_used := s_used s |}.
Definition slot_used (s : Slot) (u : Z) : Slot :=
  {| s_block := s_block s; s_data := s_data s; s_dirty := s_dirty s; s_used := u |}.

(** [self.slots[i]], and its assignment *)
Definition slot_at (i : nat) : cprog Slot :=
  c ← get_state; checked (slots c !! i).
Definition set_slot (i : nat) (s : Slot) : cprog () :=
  c ← get_state; set_state (with_slots c (<[i := s]> (slots c))).

Definition new (d : D) (bs : Z) : Cache D :=
  {| dev := d; cbs := bs; slots := []; index := ∅; tick := 0 |}.

(** A [u64] product of a [u32] and a block size of at most 4096. *)
Definition offset c (block : Z) : Z := block * cbs c.

Definition zeros (n : Z) : list Z := replicate (Z.to_nat n) 0.

Definition write_back (i : nat) : cprog () :=
  s ← slot_at i;
  if s_dirty s then
    c ← get_state;
    let '(ok, d) := dev_write (dev c) (offset c (s_block s)) (s_data s) in
    _ ← set_state (with_dev c d);
    if ok then set_slot i (slot_dirty s false) else throw Io
  else mret tt.

(** [min_by_key] over the slots' [used]: the first least recently used. *)
Fixpoint lru (l : list Slot) (i : nat) (best : nat) (best_used : Z) : nat :=
  match l with
  | [] => best
  | s :: l' => if s_used s <? best_used then lru l' (S i) i (s_used s)
               else lru l' (S i) best best_used
  end.

Definition least_used (l : list Slot) : option nat :=
  match l with [] => None | s :: l' => Some (lru l' 1 0 (s_used s)) end.

(** A slot for a block that is not cached: a new one, or the least recently
    used, written back and dropped from the index. *)
Definition take_slot (block : Z) : cprog nat :=
  c ← get_state;
  if decide (length (slots c) < SLOTS)%nat then
    let s := {| s_block := block; s_data := zeros (cbs c); s_dirty := false; s_used := 0 |} in
    _ ← set_state (with_slots c (slots c ++ [s]));
    mret (length (slots c))
  else
    i ← checked (least_used (slots c));
    _ ← write_back i;
    s ← slot_at i;
    c ← get_state;
    _ ← set_state (with_index c (delete (s_block s) (index c)));
    mret i.

Definition slot (block : Z) (fresh : bool) : cprog nat :=
  c ← get_state;
  _ ← set_state (with_tick c (tick c + 1));
  match index c !! block with
  | Some i =>
      s ← slot_at i;
      _ ← set_slot i (slot_used s (tick c + 1));
      mret i
  | None =>
      i ← take_slot block;
      s ← slot_at i;
      let s1 := {| s_block := block; s_data := s_data s; s_dirty := false;
                   s_used := tick c + 1 |} in
      _ ← (if fresh then set_slot i (slot_data s1 (replicate (length (s_data s)) 0))
           else
             c ← get_state;
             let '(ok, buf, d) := dev_read (dev c) (offset c block) (s_data s1) in
             _ ← set_state (with_dev c d);
             if ok : bool then set_slot i (slot_data s1 buf)
             else
               _ ← set_slot i {| s_block := U32_MAX; s_data := buf; s_dirty := false;
                                 s_used := 0 |};
               throw Io);
      c ← get_state;
      _ ← set_state (with_index c (<[block := i]> (index c)));
      mret i
  end.

Definition read {A} (block : Z) (f : list Z → option A) : cprog A :=
  i ← slot block false;
  s ← slot_at i;
  checked (f (s_data s)).

Definition modify {A} (block : Z) (f : list Z → option (A * list Z)) : cprog A :=
  i ← slot block false;
  s ← slot_at i;
  '(a, data) ← checked (f (s_data s));
  _ ← set_slot i (slot_dirty (slot_data s data) true);
  mret a.

Definition zero (block : Z) : cprog () :=
  i ← slot block true;
  s ← slot_at i;
  set_slot i (slot_dirty (slot_data s (replicate (length (s_data s)) 0)) true).

(** [index.range(first..end).any(|_| true)] *)
Definition cached_in c (first last : Z) : bool :=
  existsb (λ p : Z * nat, (first <=? p.1) && (p.1 <? last)) (map_to_list (index c)).

(** [dst.copy_from_slice(src)]: panics unless the lengths agree. *)
Definition copy_from_slice (dst src : list Z) : option (list Z) :=
  if decide (length dst = length src) then Some src else None.

(** [blocks.zip(out.chunks_mut(bs))]: the blocks one by one; what is left of
    [out] after them is not touched. *)
Fixpoint read_blocks (first : Z) (n : nat) (out : list Z) : cprog (list Z) :=
  match n with
  | O => mret out
  | S n' =>
      c ← get_state;
      let bs := Z.to_nat (cbs c) in
      let dst := take bs out in
      chunk ← match index c !! first with
              | Some i => s ← slot_at i; checked (copy_from_slice dst (s_data s))
              | None =>
                  let '(ok, buf, d) := dev_read (dev c) (offset c first) dst in
                  _ ← set_state (with_dev c d);
                  if ok : bool then mret buf else throw Io
              end;
      rest ← read_blocks (first + 1) n' (drop bs out);
      mret (chunk ++ rest)
  end.

(** [read_through(first, out)] gives what [out] holds afterwards (after an
    error its contents are unspecified). *)
Definition read_through (first : Z) (out : list Z) : cprog (list Z) :=
  c ← get_state;
  n ← checked (udiv (zlen out) (cbs c));
  let n := n mod 2 ^ 32 in
  last ← checked (add32 first n);
  if cached_in c first last then read_blocks first (Z.to_nat n) out
  else
    let '(ok, buf, d) := dev_read (dev c) (offset c first) out in
    _ ← set_state (with_dev c d);
    if ok : bool then mret buf else throw Io.

(** The slots of the index in the order of their blocks. *)
Definition index_values c : list nat :=
  (merge_sort by_block (map_to_list (index c))).*2.

Fixpoint write_all (l : list nat) (ok : bool) : cprog bool :=
  match l with
  | [] => mret ok
  | i :: l' =>
      r ← attempt (write_back i);
      write_all l' (ok && match r with Ok _ => true | Err _ => false end)
  end.

Definition is_dirty c (i : nat) : option bool := s_dirty <$> slots c !! i.

(** [filter(|&i| self.slots[i].dirty)]: an index out of range panics. *)
Fixpoint keep_dirty c (l : list nat) : option (list nat) :=
  match l with
  | [] => Some []
  | i :: l' =>
      d ← is_dirty c i;
      rest ← keep_dirty c l';
      Some (if d : bool then i :: rest else rest)
  end.

Definition flush : cprog () :=
  c ← get_state;
  dirty ← checked (keep_dirty c (index_values c));
  ok ← write_all dirty true;
  if ok : bool then mret tt else throw Io.

End cache.

(** ** What the cache relies on

    The documented behaviour of a [Device] over some [contents]: a read that
    succeeds fills the buffer with the bytes at its offset, a write that
    succeeds replaces them.  A call that fails may have done part of its work,
    on its own range only. *)
Class DeviceLaws (D : Type) `{Device D} := {
  contents : D → list Z;
  dev_read_spec d off buf ok buf' d' :
    dev_read d off buf = (ok, buf', d') →
    contents d' = contents d ∧ length buf' = length buf ∧
    (Forall is_byte (contents d) → Forall is_byte buf → Forall is_byte buf') ∧
    (ok = true → slice (contents d) off (off + zlen buf) = Some buf');
  dev_write_spec d off buf ok d' :
    dev_write d off buf = (ok, d') → 0 <= off →
    length (contents d') = length (contents d) ∧
    (Forall is_byte (contents d) → Forall is_byte buf → Forall is_byte (contents d')) ∧
    (∀ i : nat, Z.of_nat i < off ∨ off + zlen buf <= Z.of_nat i →
                contents d' !! i = contents d !! i) ∧
    (ok = true → slice (contents d') off (off + zlen buf) = Some buf);
  dev_now_spec d t d' :
    dev_now d = (t, d') → contents d' = contents d ∧ 0 <= t <= U32_MAX;
}.

(** A disk in memory, its clock at [ram_clock]: the requests that lie
    inside it succeed. *)
Record Ram := { ram_bytes : list Z; ram_clock : Z }.

#[export] Instance ram_device : Device Ram := {|
  dev_read r off buf :=
    match slice (ram_bytes r) off (off + zlen buf) with
    | Some l => (true, l, r)
    | None => (false, buf, r)
    end;
  dev_write r off buf :=
    match copy_slice (ram_bytes r) off (off + zlen buf) buf with
    | Some l => (true, {| ram_bytes := l; ram_clock := ram_clock r |})
    | None => (false, r)
    end;
  dev_now r := (ram_clock r mod 2 ^ 32, r);
|}.

Lemma slice_sub {A} (P : A → Prop) (l : list A) a b s :
  slice l a b = Some s → Forall P l → Forall P s.
Proof. unfold slice. case_if; [|done]. intros [= <-] ?. by apply Forall_take, Forall_drop. Qed.

#[export] Program Instance ram_laws : DeviceLaws Ram := {| contents := ram_bytes |}.
Next Obligation.
  intros r off buf ok buf' d'. cbn. destruct (slice _ _ _) as [l|] eqn:E; intros [= <- <- <-].
  - pose proof (slice_length _ _ _ _ E). split_and!; [done|lia| |done].
    intros. by eapply slice_sub.
  - done.
Qed.
Next Obligation.
  intros r off buf ok d'. cbn. unfold copy_slice. case_if; intros [= <- <-] ?; [|done].
  cbn [ram_bytes]. split_and!.
  - apply splice_length; lia.
  - intros. unfold splice. rewrite !Forall_app.
    split_and!; [by apply Forall_take|done|by apply Forall_drop].
  - intros. by apply splice_lookup_out; try lia.
  - intros _. apply slice_splice; lia.
Qed.
Next Obligation.
  intros r t d'. cbn. intros [= <- <-]. split; [done|].
  pose proof (Z.mod_pos_bound (ram_clock r) (2 ^ 32)). unfold U32_MAX. lia.
Qed.

(** ** The disk the cache presents

    [view c b] is block [b] as the filesystem sees it: the cached copy, or
    the device's.  The invariant lets one slot, [hole], be between two
    blocks: neither indexed nor holding anything that matters. *)

Definition block_of (l : list Z) (bs b : Z) : option (list Z) :=
  slice l (b * bs) (b * bs + bs).

Definition is_block (bs : Z) (data : list Z) : Prop :=
  zlen data = bs ∧ Forall is_byte data.

(** A block number [slot] accepts: the one it marks unused slots with is not. *)
Definition is_number (b : Z) : Prop := 0 <= b < U32_MAX.

Section view.
Context {D : Type} `{DeviceLaws D}.
Implicit Types (c : Cache D).

Definition view c (b : Z) : option (list Z) :=
  match index c !! b with
  | Some i => s_data <$> slots c !! i
  | None => block_of (contents (dev c)) (cbs c) b
  end.

(** Block [b] lies on the device. *)
Definition on_disk (bs : Z) c (b : Z) : Prop :=
  is_number b ∧ b * bs + bs <= zlen (contents (dev c)).

Record cache_inv (bs : Z) (hole : option nat) c : Prop := {
  ci_bs : cbs c = bs;
  ci_pos : 0 < bs;
  ci_len : (length (slots c) <= SLOTS)%nat;
  ci_bytes : Forall is_byte (contents (dev c));
  ci_index b i : index c !! b = Some i →
    on_disk bs c b ∧ hole ≠ Some i ∧ ∃ s, slots c !! i = Some s ∧ s_block s = b;
  ci_data i s : slots c !! i = Some s → is_block bs (s_data s);
  ci_slot i s : slots c !! i = Some s → hole ≠ Some i →
    index c !! s_block s = Some i ∨ (s_block s = U32_MAX ∧ s_dirty s = false);
  ci_clean i s : slots c !! i = Some s → hole ≠ Some i → s_dirty s = false →
    index c !! s_block s = Some i →
    block_of (contents (dev c)) bs (s_block s) = Some (s_data s);
}.

(** [c] presents the disk [V]. *)
Definition cache_at (bs : Z) c (V : Z → option (list Z)) : Prop :=
  cache_inv bs None c ∧ ∀ b, view c b = V b.

(** The slot [i], filled with [s] and indexed as block [b]. *)
Definition put c (i : nat) (s : Slot) (b : Z) : Cache D :=
  with_index (with_slots c (<[i := s]> (slots c))) (<[b := i]> (index c)).

(** Slot [i] is free to hold block [b]. *)
Definition vacant (bs : Z) c (i : nat) (b : Z) : Prop :=
  cache_inv bs (Some i) c ∧ index c !! b = None ∧ (i < length (slots c))%nat ∧ is_number b.

Lemma cache_inv_ext bs h c c' :
  cache_inv bs h c → cbs c' = cbs c → slots c' = slots c → index c' = index c →
  contents (dev c') = contents (dev c) → cache_inv bs h c'.
Proof.
  intros [] Ec Es Ei Ed. constructor; unfold on_disk; rewrite ?Ec, ?Es, ?Ei, ?Ed; auto.
Qed.

Lemma view_ext c c' b :
  cbs c' = cbs c → slots c' = slots c → index c' = index c →
  contents (dev c') = contents (dev c) → view c' b = view c b.
Proof. intros Ec Es Ei Ed. unfold view. by rewrite Ec, Es, Ei, Ed. Qed.

Lemma put_inv bs c i s b :
  vacant bs c i b → on_disk bs c b → s_block s = b → is_block bs (s_data s) →
  (s_dirty s = false → block_of (contents (dev c)) bs b = Some (s_data s)) →
  cache_inv bs None (put c i s b).
Proof.
  intros (Hc & Hb & Hi & Hn) Ho Es Hd Hcl. destruct Hc. constructor; cbn [put with_index with_slots
    dev cbs slots index]; auto.
  - by rewrite length_insert.
  - intros b' j. destruct (decide (b' = b)) as [->|Hne].
    + rewrite lookup_insert_eq. intros [= <-]. split_and!; [done|done|].
      exists s. by rewrite list_lookup_insert_eq.
    + rewrite lookup_insert_ne by done. intros (?&Hh&s'&Hs'&?)%ci_index0.
      split_and!; [done|done|]. exists s'. by rewrite list_lookup_insert_ne by congruence.
  - intros j s'. rewrite list_lookup_insert_Some. intros [(->&<-&_)|[_ Hs']]; eauto.
  - intros j s'. rewrite list_lookup_insert_Some. intros [(->&<-&_)|[Hj Hs']] _.
    + left. by rewrite Es, lookup_insert_eq.
    + destruct (ci_slot0 _ _ Hs') as [Hx|Hx]; [congruence| |by right].
      left. rewrite lookup_insert_ne; [done|]. congruence.
  - intros j s'. rewrite list_lookup_insert_Some. intros [(->&<-&_)|[Hj Hs']] _ Hdirty.
    + rewrite Es. auto.
    + destruct (decide (s_block s' = b)) as [Hx|Hx].
      * rewrite Hx, lookup_insert_eq. congruence.
      * rewrite lookup_insert_ne by congruence. apply ci_clean0; [done|congruence|done].
Qed.

Lemma put_view bs c i s b b' :
  vacant bs c i b →
  view (put c i s b) b' = <[b := Some (s_data s)]> (view c) b'.
Proof.
  intros (Hc & Hb & Hi & _). unfold view, put. cbn [with_index with_slots dev cbs slots index].
  destruct (decide (b' = b)) as [->|Hne].
  - rewrite lookup_insert_eq, list_lookup_insert_eq by done. by rewrite fn_lookup_insert.
  - rewrite lookup_insert_ne, fn_lookup_insert_ne by done.
    destruct (index c !! b') as [j|] eqn:Ej; [|done].
    destruct (ci_index _ _ _ Hc _ _ Ej) as (_&Hj&_).
    by rewrite list_lookup_insert_ne by congruence.
Qed.

(** A request on block [b] of [l] leaves the other blocks alone. *)
Lemma block_of_frame (l l' : list Z) bs b b' :
  0 < bs → b' ≠ b → length l' = length l →
  (∀ i : nat, Z.of_nat i < b * bs ∨ b * bs + bs <= Z.of_nat i → l' !! i = l !! i) →
  block_of l' bs b' = block_of l bs b'.
Proof.
  intros Hbs Hne Hl Hf. unfold block_of, slice. rewrite Hl. case_if; [|done]. f_equal.
  apply list_eq. intros i. destruct (decide (i < Z.to_nat (b' * bs + bs - b' * bs))%nat).
  - rewrite !lookup_take_lt, !lookup_drop by done. apply Hf. nia.
  - rewrite !lookup_take_ge by lia. done.
Qed.

Lemma block_of_is_block l bs b data :
  Forall is_byte l → block_of l bs b = Some data → is_block bs data.
Proof.
  intros Hl E. split; [|by eapply slice_sub]. apply slice_length in E. lia.
Qed.

(** A write of the dirty slot [i] that failed changed only that block of the
    device, and the slot stays dirty. *)
Lemma torn_write_inv bs c i s d :
  cache_inv bs None c → slots c !! i = Some s → s_dirty s = true →
  index c !! s_block s = Some i →
  (Forall is_byte (contents (dev c)) → Forall is_byte (s_data s) → Forall is_byte (contents d)) →
  (∀ b, b ≠ s_block s → block_of (contents d) bs b = block_of (contents (dev c)) bs b) →
  length (contents d) = length (contents (dev c)) →
  cache_inv bs None (with_dev c d).
Proof.
  intros Hc Hs Hd Hx Hby Hf El. pose proof (proj2 (ci_data _ _ _ Hc _ _ Hs)).
  destruct Hc. constructor; unfold on_disk; cbn [with_dev dev cbs slots index]; rewrite ?El; auto.
  intros j s' Hs' Hj Hd' Hx'. rewrite Hf; [by eapply ci_clean0|]. congruence.
Qed.

Lemma write_back_inv bs c i s d :
  cache_inv bs None c → slots c !! i = Some s → s_dirty s = true →
  index c !! s_block s = Some i →
  (Forall is_byte (contents (dev c)) → Forall is_byte (s_data s) → Forall is_byte (contents d)) →
  (∀ b, b ≠ s_block s → block_of (contents d) bs b = block_of (contents (dev c)) bs b) →
  (true = true → block_of (contents d) bs (s_block s) = Some (s_data s)) →
  length (contents d) = length (contents (dev c)) →
  cache_inv bs None (with_slots (with_dev c d) (<[i := slot_dirty s false]> (slots c))).
Proof.
  intros Hc Hs Hd Hx Hby Hf Hok El. pose proof (torn_write_inv _ _ _ _ _ Hc Hs Hd Hx Hby Hf El) as Ht.
  pose proof (lookup_lt_Some _ _ _ Hs). destruct Ht.
  constructor; cbn [with_slots with_dev dev cbs slots index] in *; auto.
  - by rewrite length_insert.
  - intros b j Hj. destruct (ci_index0 _ _ Hj) as (?&?&s'&Hs'&?). split_and!; [done|done|].
    destruct (decide (i = j)) as [<-|].
    + rewrite list_lookup_insert_eq by done. exists (slot_dirty s false).
      split; [done|]. cbn. congruence.
    + rewrite list_lookup_insert_ne by done. eauto.
  - intros j s'. rewrite list_lookup_insert_Some. intros [(->&<-&_)|[_ Hs']]; cbn; eauto.
  - intros j s'. rewrite list_lookup_insert_Some. intros [(->&<-&_)|[_ Hs']] Hj; cbn; eauto.
  - intros j s'. rewrite list_lookup_insert_Some. intros [(->&<-&_)|[_ Hs']] Hj; cbn; eauto.
Qed.

Lemma write_back_view bs c i s d b :
  cache_inv bs None c → slots c !! i = Some s → s_dirty s = true →
  index c !! s_block s = Some i →
  (∀ b, b ≠ s_block s → block_of (contents d) bs b = block_of (contents (dev c)) bs b) →
  view (with_slots (with_dev c d) (<[i := slot_dirty s false]> (slots c))) b = view c b.
Proof.
  intros Hc Hs Hd Hx Hf. unfold view. cbn [with_slots with_dev dev cbs slots index].
  pose proof (lookup_lt_Some _ _ _ Hs). rewrite (ci_bs _ _ _ Hc).
  destruct (index c !! b) as [j|] eqn:Ej.
  - destruct (decide (i = j)) as [<-|].
    + by rewrite list_lookup_insert_eq, Hs by done.
    + by rewrite list_lookup_insert_ne by done.
  - apply Hf. congruence.
Qed.

(** The device fails a request that lies inside it.  Nothing else makes the
    cache report [Io] for a block that is on the device. *)
Definition faulty : Prop :=
  (∃ (d : D) off buf buf' d', is_Some (slice (contents d) off (off + zlen buf)) ∧
     dev_read d off buf = (false, buf', d')) ∨
  (∃ (d : D) off buf d', is_Some (slice (contents d) off (off + zlen buf)) ∧
     dev_write d off buf = (false, d')).

Lemma slice_is_some {A} (l : list A) a b :
  0 <= a → a <= b → b <= zlen l → is_Some (slice l a b).
Proof. intros. rewrite slice_ok by lia. done. Qed.

(** The cache after slot [i] went to the device, whether it got there or not. *)
Lemma write_back_spec bs c i s :
  cache_inv bs None c → slots c !! i = Some s →
  wp (write_back i) (λ r c',
    cache_inv bs None c' ∧ (∀ b, view c' b = view c b) ∧ index c' = index c ∧
    match r with
    | Ok _ => slots c' = <[i := slot_dirty s false]> (slots c)
    | Err e => e = Io ∧ slots c' = slots c ∧ faulty
    end ∧
    (∀ b, index c !! b = None →
          block_of (contents (dev c')) bs b = block_of (contents (dev c)) bs b)) c.
Proof.
  intros Hc Hs. unfold write_back, slot_at. wp_steps. apply (wp_checked _ s); [done|].
  destruct (s_dirty s) eqn:Ed; wp_steps.
  2:{ split_and!; try done. rewrite list_insert_id; [done|]. rewrite Hs.
      destruct s; cbn in *; by subst. }
  destruct (ci_slot _ _ _ Hc _ _ Hs) as [Hx|[_ Hx]]; [done| |congruence].
  destruct (ci_index _ _ _ Hc _ _ Hx) as (Ho&_&_).
  destruct (ci_data _ _ _ Hc _ _ Hs) as [Hlen Hby]. pose proof (ci_pos _ _ _ Hc).
  unfold offset. rewrite (ci_bs _ _ _ Hc).
  destruct (dev_write (dev c) (s_block s * bs) (s_data s)) as [ok d] eqn:Ew.
  destruct Ho as [Hn Ho]. unfold is_number in Hn. pose proof Ew as Ew'.
  apply dev_write_spec in Ew as (El&Eb&Ef&Eok); [|nia]. rewrite Hlen in Ef, Eok.
  assert (Hframe : ∀ b, b ≠ s_block s →
    block_of (contents d) bs b = block_of (contents (dev c)) bs b).
  { intros b Hb. by eapply block_of_frame. }
  wp_steps. destruct ok.
  - unfold set_slot. wp_steps. cbn [with_slots with_dev dev cbs slots index].
    split_and!; try done.
    + eapply write_back_inv; eauto.
    + intros b. eapply write_back_view; eauto.
    + intros b Hb. apply Hframe. congruence.
  - wp_steps. cbn [with_slots with_dev dev cbs slots index].
    split_and!; try done.
    + eapply torn_write_inv; eauto.
    + intros b. unfold view. cbn [with_dev dev cbs slots index].
      rewrite (ci_bs _ _ _ Hc). destruct (index c !! b) eqn:Eb'; [done|].
      apply Hframe. congruence.
    + right. exists (dev c), (s_block s * bs), (s_data s), d. split; [|done].
      apply slice_is_some; nia.
    + intros b Hb. apply Hframe. congruence.
Qed.

(** [i] is the first of the least recently used slots. *)
Definition is_least (l : list Slot) (i : nat) : Prop :=
  ∃ s, l !! i = Some s ∧ ∀ j s', l !! j = Some s' →
    s_used s <= s_used s' ∧ (s_used s' = s_used s → (i <= j)%nat).

Lemma lru_least pre l best s :
  is_least pre best → pre !! best = Some s →
  is_least (pre ++ l) (lru l (length pre) best (s_used s)).
Proof.
  revert pre best s. induction l as [|x l IH]; intros pre best s Hm Hs; cbn [lru].
  { by rewrite app_nil_r. }
  replace (pre ++ x :: l) with ((pre ++ [x]) ++ l) by (by rewrite <-app_assoc).
  replace (S (length pre)) with (length (pre ++ [x])) by (rewrite length_app; simpl; lia).
  destruct Hm as (s0&Hs0&Hm). assert (s0 = s) as -> by congruence. case_if; apply IH.
  - exists x. split; [by apply list_lookup_middle|]. intros j s'.
    rewrite lookup_app_Some, list_lookup_singleton_Some. intros [Hj|(?&?&<-)]; [|lia].
    destruct (Hm _ _ Hj). lia.
  - by apply list_lookup_middle.
  - exists s. split; [by apply lookup_app_l_Some|]. intros j s'.
    rewrite lookup_app_Some, list_lookup_singleton_Some. intros [Hj|(?&?&<-)]; [by apply Hm|].
    apply lookup_lt_Some in Hs. lia.
  - by apply lookup_app_l_Some.
Qed.

Lemma least_used_spec l : l ≠ [] → ∃ i, least_used l = Some i ∧ is_least l i.
Proof.
  destruct l as [|s l]; [done|]. intros _. cbn [least_used]. eexists. split; [done|].
  apply (lru_least [s] l 0 s); [|done]. exists s. split; [done|].
  intros [|j] s' [=]; subst; lia.
Qed.

(** Dropping a clean slot from the index loses nothing: the device has it. *)
Lemma unindex_vacant bs c i s b :
  cache_inv bs None c → slots c !! i = Some s → s_dirty s = false →
  index c !! b = None → is_number b →
  vacant bs (with_index c (delete (s_block s) (index c))) i b ∧
  ∀ b', view (with_index c (delete (s_block s) (index c))) b' = view c b'.
Proof.
  intros Hc Hs Hd Hb Hn. pose proof (lookup_lt_Some _ _ _ Hs).
  assert (Hi : ∀ j b', delete (s_block s) (index c) !! b' = Some j → j ≠ i).
  { intros j b' (?&Hj)%lookup_delete_Some ->.
    destruct (ci_index _ _ _ Hc _ _ Hj) as (_&_&s'&?&?). congruence. }
  assert (Hmax : index c !! U32_MAX = None).
  { destruct (index c !! U32_MAX) eqn:E; [|done].
    destruct (ci_index _ _ _ Hc _ _ E) as ([Hx _]&_). unfold is_number in Hx. lia. }
  split.
  - split_and!; [|apply lookup_delete_None; auto|done|done].
    destruct Hc. constructor; cbn [with_index dev cbs slots index]; auto.
    + intros b' j Hj. pose proof (Hi _ _ Hj). apply lookup_delete_Some in Hj as [? Hj].
      destruct (ci_index0 _ _ Hj) as (?&_&?). split_and!; [done|congruence|done].
    + intros j s' Hs' Hj. destruct (ci_slot0 _ _ Hs') as [Hx|]; [done| |by right].
      left. rewrite lookup_delete_ne; [done|]. intros Heq.
      destruct (ci_slot0 _ _ Hs) as [Hy|[Hy _]]; [done|congruence|congruence].
    + intros j s' Hs' Hj Hd' Hx. apply lookup_delete_Some in Hx as [? Hx].
      by eapply ci_clean0.
  - intros b'. unfold view. cbn [with_index dev cbs slots index].
    destruct (decide (b' = s_block s)) as [->|].
    + rewrite lookup_delete_eq. destruct (ci_slot _ _ _ Hc _ _ Hs) as [Hx|[Hx _]]; [done| |].
      * rewrite Hx, Hs, (ci_bs _ _ _ Hc). cbn. by eapply ci_clean.
      * by rewrite Hx, Hmax.
    + by rewrite lookup_delete_ne by done.
Qed.

Lemma push_vacant bs c b :
  cache_inv bs None c → index c !! b = None → is_number b →
  (length (slots c) < SLOTS)%nat →
  let s := {| s_block := b; s_data := zeros (cbs c); s_dirty := false; s_used := 0 |} in
  vacant bs (with_slots c (slots c ++ [s])) (length (slots c)) b ∧
  ∀ b', view (with_slots c (slots c ++ [s])) b' = view c b'.
Proof.
  intros Hc Hb Hn Hl s.
  assert (Hold : ∀ b' j, index c !! b' = Some j → (j < length (slots c))%nat).
  { intros b' j Hj. destruct (ci_index _ _ _ Hc _ _ Hj) as (_&_&?&?%lookup_lt_Some&_). done. }
  split.
  - split_and!; [|done|cbn [with_slots slots]; rewrite length_app; simpl; lia|done].
    pose proof (ci_pos _ _ _ Hc). pose proof (ci_bs _ _ _ Hc) as Ebs.
    destruct Hc. constructor; cbn [with_slots dev cbs slots index]; auto.
    + rewrite length_app. simpl. lia.
    + intros b' j Hj. pose proof (Hold _ _ Hj). destruct (ci_index0 _ _ Hj) as (?&_&s'&?&?).
      split_and!; [done|intros [=]; lia|]. exists s'. by rewrite lookup_app_l by done.
    + intros j s'. rewrite lookup_app_Some, list_lookup_singleton_Some.
      intros [?|(_&_&<-)]; [eauto|]. cbn. unfold zeros. split; [zn|].
      apply Forall_replicate. unfold is_byte. lia.
    + intros j s'. rewrite lookup_app_Some, list_lookup_singleton_Some.
      intros [?|(?&?&<-)] Hj; [by apply ci_slot0|]. destruct Hj. f_equal. lia.
    + intros j s'. rewrite lookup_app_Some, list_lookup_singleton_Some.
      intros [?|(?&?&<-)] Hj; [by apply ci_clean0|]. destruct Hj. f_equal. lia.
  - intros b'. unfold view. cbn [with_slots dev cbs slots index].
    destruct (index c !! b') as [j|] eqn:Ej; [|done]. by rewrite lookup_app_l by eauto.
Qed.

Lemma take_slot_spec bs c b :
  cache_inv bs None c → index c !! b = None → is_number b →
  wp (take_slot b) (λ r c',
    (∀ b', view c' b' = view c b') ∧
    match r with
    | Ok i => vacant bs c' i b
    | Err e => e = Io ∧ cache_inv bs None c' ∧ faulty
    end) c.
Proof.
  intros Hc Hb Hn. unfold take_slot. wp_steps. case_decide as Hl.
  - wp_steps. destruct (push_vacant bs c b) as [Hv Hw]; done.
  - destruct (least_used_spec (slots c)) as (i&Ei&s&Hs&_).
    { intros E. rewrite E in Hl. unfold SLOTS in Hl. simpl in Hl. lia. }
    wp_steps. apply (wp_checked _ i); [done|]. wp_steps.
    eapply wp_mono; [by apply write_back_spec|]. intros [[]|e] c1 (Hc1&Hv1&Ex1&Es1&_).
    + wp_steps. unfold slot_at. wp_steps.
      assert (Hs1 : slots c1 !! i = Some (slot_dirty s false)).
      { rewrite Es1, list_lookup_insert_eq; [done|]. by eapply lookup_lt_Some. }
      eapply wp_checked; [exact Hs1|]. wp_steps.
      destruct (unindex_vacant bs c1 i _ b Hc1 Hs1) as [Hv Hw]; [done|congruence|done|].
      split; [|done]. intros b'. by rewrite Hw.
    + by destruct Es1 as (->&_&?).
Qed.

(** What [slot] gives its callers: a slot [s] put in a vacant place of a
    cache that agrees with the old one on every other block. *)
Definition held (bs : Z) c (fresh : bool) (b : Z) (i : nat) c' : Prop :=
  ∃ c0 s, c' = put c0 i s b ∧ vacant bs c0 i b ∧ on_disk bs c0 b ∧ s_block s = b ∧ is_block bs (s_data s) ∧
    (∀ b', b' ≠ b → view c0 b' = view c b') ∧
    (fresh = false → view c b = Some (s_data s) ∧
       (s_dirty s = false → block_of (contents (dev c0)) bs b = Some (s_data s))).

Lemma slot_hit bs c fresh b i s u :
  cache_inv bs None c → index c !! b = Some i → slots c !! i = Some s →
  held bs c fresh b i (with_slots c (<[i := slot_used s u]> (slots c))).
Proof.
  intros Hc Hx Hs. pose proof (lookup_lt_Some _ _ _ Hs).
  destruct (ci_index _ _ _ Hc _ _ Hx) as (Ho&_&s'&Hs'&Hb). assert (s' = s) as -> by congruence.
  assert (Hother : ∀ b' j, delete b (index c) !! b' = Some j → j ≠ i).
  { intros b' j (?&Hj)%lookup_delete_Some ->.
    destruct (ci_index _ _ _ Hc _ _ Hj) as (_&_&?&?&?). congruence. }
  exists (with_index c (delete b (index c))), (slot_used s u). split_and!.
  - unfold put, with_index, with_slots. cbn [dev cbs slots index tick].
    by rewrite insert_delete_eq, insert_id by done.
  - split_and!; [|by apply lookup_delete_eq|done|by apply Ho].
    destruct Hc. constructor; cbn [with_index dev cbs slots index]; auto.
    + intros b' j Hj. pose proof (Hother _ _ Hj). apply lookup_delete_Some in Hj as [? Hj].
      destruct (ci_index0 _ _ Hj) as (?&_&?). split_and!; [done|congruence|done].
    + intros j s' Hj Hh. destruct (ci_slot0 _ _ Hj) as [Hy|]; [done| |by right].
      left. rewrite lookup_delete_ne; [done|]. intros ->. congruence.
    + intros j s' Hj Hh Hd (?&Hy)%lookup_delete_Some. by eapply ci_clean0.
  - done.
  - done.
  - exact (ci_data _ _ _ Hc _ _ Hs).
  - intros b' Hb'. unfold view. cbn [with_index dev cbs slots index].
    by rewrite lookup_delete_ne by done.
  - intros _. split; [unfold view; by rewrite Hx, Hs|]. cbn. intros Hd.
    rewrite <-Hb. eapply ci_clean; [done..|]. by rewrite Hb.
Qed.

(** A slot that could not be filled is left unused. *)
Lemma abandon_inv bs c i b data :
  vacant bs c i b → is_block bs data →
  cache_inv bs None (with_slots c (<[i := {| s_block := U32_MAX; s_data := data;
    s_dirty := false; s_used := 0 |}]> (slots c))) ∧
  ∀ b', view (with_slots c (<[i := {| s_block := U32_MAX; s_data := data;
    s_dirty := false; s_used := 0 |}]> (slots c))) b' = view c b'.
Proof.
  intros (Hc&Hb&Hi&Hn) Hd. split.
  - destruct Hc. constructor; cbn [with_slots dev cbs slots index]; auto.
    + by rewrite length_insert.
    + intros b' j Hj. destruct (ci_index0 _ _ Hj) as (?&?&s'&?&?). split_and!; [done|done|].
      exists s'. by rewrite list_lookup_insert_ne by congruence.
    + intros j s'. rewrite list_lookup_insert_Some. intros [(->&<-&_)|[_ Hs']]; eauto.
    + intros j s'. rewrite list_lookup_insert_Some. intros [(->&<-&_)|[? Hs']] _; [by right|].
      apply ci_slot0; [done|congruence].
    + intros j s'. rewrite list_lookup_insert_Some. intros [(->&<-&_)|[? Hs']] _; cbn.
      * intros _ ([Hx _]&_)%ci_index0. unfold is_number in Hx. lia.
      * apply ci_clean0; [done|congruence].
  - intros b'. unfold view. cbn [with_slots dev cbs slots index].
    destruct (index c !! b') as [j|] eqn:Ej; [|done].
    destruct (ci_index _ _ _ Hc _ _ Ej) as (_&?&_).
    by rewrite list_lookup_insert_ne by congruence.
Qed.

Lemma block_of_is_some l bs b :
  0 < bs → is_number b → is_Some (block_of l bs b) ↔ b * bs + bs <= zlen l.
Proof.
  intros Hbs Hn. unfold is_number in Hn. unfold block_of, slice.
  case_if; split; intros Hx; try nia; try done.
Qed.

Lemma view_on_disk bs h c b :
  cache_inv bs h c → is_number b → is_Some (view c b) ↔ on_disk bs c b.
Proof.
  intros Hc Hn. pose proof (ci_pos _ _ _ Hc). unfold view.
  destruct (index c !! b) as [i|] eqn:Ei.
  - destruct (ci_index _ _ _ Hc _ _ Ei) as (Ho&_&s&Hs&_). rewrite Hs. done.
  - rewrite (ci_bs _ _ _ Hc), block_of_is_some by done. unfold on_disk. tauto.
Qed.

Lemma view_block bs h c b data :
  cache_inv bs h c → view c b = Some data → is_block bs data.
Proof.
  intros Hc. unfold view. rewrite (ci_bs _ _ _ Hc). destruct (index c !! b) as [i|].
  - intros (s&Hs&->)%fmap_Some. by eapply ci_data.
  - apply block_of_is_block. by eapply ci_bytes.
Qed.

Lemma with_dev_vacant bs c i b d :
  vacant bs c i b → contents d = contents (dev c) → vacant bs (with_dev c d) i b.
Proof. intros (Hc&?&?&?) Ed. split_and!; [by eapply cache_inv_ext|done..]. Qed.

Lemma view_with_dev c d b :
  contents d = contents (dev c) → view (with_dev c d) b = view c b.
Proof. intros Ed. by apply view_ext. Qed.

(** Filling the vacant slot [i] from the device. *)
Lemma fill_spec bs c0 c b i s u :
  vacant bs c i b → slots c !! i = Some s → (∀ b', view c b' = view c0 b') →
  let s1 := {| s_block := b; s_data := s_data s; s_dirty := false; s_used := u |} in
  wp (c ← get_state;
      let '(ok, buf, d) := dev_read (dev c) (offset c b) (s_data s1) in
      _ ← set_state (with_dev c d);
      if ok : bool then set_slot i (slot_data s1 buf)
      else
        _ ← set_slot i {| s_block := U32_MAX; s_data := buf; s_dirty := false; s_used := 0 |};
        throw Io)
    (λ r c', match r with
     | Ok _ => held bs c0 false b i (with_index c' (<[b := i]> (index c')))
     | Err e => e = Io ∧ cache_inv bs None c' ∧ (∀ b', view c' b' = view c0 b') ∧
                (view c0 b = None ∨ faulty)
     end) c.
Proof.
  intros Hv Hs Hview s1. pose proof Hv as (Hc&Hb&Hi&Hn).
  destruct (ci_data _ _ _ Hc _ _ Hs) as [Hlen Hby]. pose proof (ci_pos _ _ _ Hc) as Hpos.
  wp_steps. unfold offset. rewrite (ci_bs _ _ _ Hc).
  destruct (dev_read (dev c) (b * bs) (s_data s1)) as [[ok buf] d] eqn:Er.
  pose proof Er as Er'. apply dev_read_spec in Er as (Ed&El&Eby&Eok). cbn [s1 s_data] in *.
  rewrite Hlen in Eok.
  assert (Hbuf : is_block bs buf).
  { split; [lia|]. apply Eby; [by eapply ci_bytes|done]. }
  assert (Hold : view c b = block_of (contents (dev c)) bs b).
  { unfold view. by rewrite Hb, (ci_bs _ _ _ Hc). }
  pose proof (with_dev_vacant _ _ _ _ d Hv Ed) as Hv'.
  wp_steps. destruct ok; unfold set_slot; wp_steps.
  - specialize (Eok eq_refl). change (slice _ _ _) with (block_of (contents (dev c)) bs b) in Eok.
    exists (with_dev c d), (slot_data s1 buf). split_and!; try done.
    + split; [done|]. cbn [with_dev dev]. rewrite Ed.
      apply block_of_is_some; [done|done|]. by rewrite Eok.
    + intros b' _. by rewrite view_with_dev.
    + intros _. cbn [with_dev dev slot_data s_data]. rewrite Ed, <-Hview, Hold. done.
  - destruct (abandon_inv bs (with_dev c d) i b buf) as [Ha Hw]; [done|done|].
    split_and!; [done|exact Ha| |].
    + intros b'. rewrite <-Hview, <-(view_with_dev c d b') by done. apply Hw.
    + rewrite <-Hview, Hold. destruct (block_of (contents (dev c)) bs b) eqn:Eb; [|by left].
      right. left. exists (dev c), (b * bs), (s_data s), buf, d. split; [|done].
      rewrite Hlen. unfold block_of in Eb. by rewrite Eb.
Qed.

Lemma slot_spec bs c b fresh :
  cache_inv bs None c → is_number b → (fresh = true → is_Some (view c b)) →
  wp (slot b fresh) (λ r c',
    match r with
    | Ok i => held bs c fresh b i c'
    | Err e => e = Io ∧ cache_inv bs None c' ∧ (∀ b', view c' b' = view c b') ∧
               (view c b = None ∨ faulty)
    end) c.
Proof.
  intros Hc Hn Hf. unfold slot. wp_steps.
  assert (Ht : cache_inv bs None (with_tick c (tick c + 1))) by (by eapply cache_inv_ext).
  destruct (index c !! b) as [i|] eqn:Ei.
  - destruct (ci_index _ _ _ Hc _ _ Ei) as (_&_&s&Hs&_).
    unfold slot_at, set_slot. wp_steps. apply (wp_checked _ s); [done|]. wp_steps.
    by apply (slot_hit bs (with_tick c (tick c + 1))).
  - wp_steps. eapply wp_mono; [by apply (take_slot_spec bs)|].
    intros [i|e] c1 (Hv1&Hr); [|destruct Hr as (->&?&?); split_and!; auto].
    destruct (lookup_lt_is_Some_2 (slots c1) i) as [s Hs]; [apply Hr|].
    unfold slot_at. wp_steps. apply (wp_checked _ s); [done|]. wp_steps. destruct fresh.
    + unfold set_slot. wp_steps. destruct (ci_data _ _ _ (proj1 Hr) _ _ Hs) as [Hl _].
      eexists c1, _. split; [done|]. split_and!; try done.
      * apply (view_on_disk bs (Some i)); [apply Hr|done|]. rewrite Hv1. by apply Hf.
      * split; [cbn; zn|]. apply Forall_replicate. unfold is_byte. lia.
    + eapply wp_mono; [by apply (fill_spec bs c)|].
      intros [[]|e] c2 Hc2; wp_steps; done.
Qed.

(** A held slot given other contents: what its holder may leave behind. *)
Lemma held_put bs c fresh b i c' s1 V :
  held bs c fresh b i c' → (∀ b, view c b = V b) → s_block s1 = b → is_block bs (s_data s1) →
  s_dirty s1 = true →
  cache_at bs (with_slots c' (<[i := s1]> (slots c'))) (<[b := Some (s_data s1)]> V).
Proof.
  intros (c0&s&->&Hv&Ho&_&_&Hw&_) HV Hb Hd Hdirty.
  assert (E : with_slots (put c0 i s b) (<[i := s1]> (slots (put c0 i s b))) = put c0 i s1 b).
  { unfold put. cbn [with_slots with_index dev cbs slots index tick].
    by rewrite list_insert_insert_eq. }
  rewrite E. split.
  - apply put_inv; [done..|congruence].
  - intros b'. rewrite (put_view bs) by done. destruct (decide (b' = b)) as [->|].
    + by rewrite !fn_lookup_insert.
    + rewrite !fn_lookup_insert_ne by done. by rewrite Hw, HV.
Qed.

Lemma held_slot bs c fresh b i c' :
  held bs c fresh b i c' → ∃ s, slots c' !! i = Some s ∧ s_block s = b ∧ is_block bs (s_data s) ∧
    (fresh = false → view c b = Some (s_data s)).
Proof.
  intros (c0&s&->&Hv&_&Hb&Hd&_&Hf). exists s. split_and!; [|done|done|intros E; by apply Hf].
  cbn [put with_slots with_index slots]. apply list_lookup_insert_eq, Hv.
Qed.

Lemma held_read bs c b i c' V :
  held bs c false b i c' → (∀ b, view c b = V b) → cache_at bs c' V.
Proof.
  intros (c0&s&->&Hv&Ho&Hb&Hd&Hw&Hf) HV. destruct (Hf eq_refl) as [Hx Hy]. split.
  - by apply put_inv.
  - intros b'. rewrite (put_view bs) by done. destruct (decide (b' = b)) as [->|].
    + rewrite fn_lookup_insert. by rewrite <-HV, Hx.
    + rewrite fn_lookup_insert_ne by done. by rewrite Hw, HV.
Qed.

(** *** The operations, over the disk they present *)

(** An operation on block [b] of the disk [V] that fails changes nothing, and
    only fails when [b] is off the device or the device is faulty. *)
Definition io_error (bs : Z) (V : Z → option (list Z)) (b : Z) (e : Error) c' : Prop :=
  e = Io ∧ cache_at bs c' V ∧ (V b = None ∨ faulty).

Lemma slot_error bs c b e c' V :
  (∀ b, view c b = V b) →
  e = Io ∧ cache_inv bs None c' ∧ (∀ b', view c' b' = view c b') ∧ (view c b = None ∨ faulty) →
  io_error bs V b e c'.
Proof.
  intros HV (->&Hc&Hw&Hf). split_and!; [done| |by rewrite <-HV]. split; [done|].
  intros b'. by rewrite Hw.
Qed.

Lemma read_spec {A} bs c V b (f : list Z → option A) :
  cache_at bs c V → is_number b →
  (∀ data, V b = Some data → is_block bs data → is_Some (f data)) →
  wp (read b f) (λ r c',
    match r with
    | Ok a => cache_at bs c' V ∧ ∃ data, V b = Some data ∧ is_block bs data ∧ f data = Some a
    | Err e => io_error bs V b e c'
    end) c.
Proof.
  intros [Hc HV] Hn Hf. unfold read. wp_steps.
  eapply wp_mono; [by apply (slot_spec bs)|]. intros [i|e] c1 H1; [|by eapply slot_error].
  destruct (held_slot _ _ _ _ _ _ H1) as (s&Hs&Hb&Hd&Hx). specialize (Hx eq_refl).
  rewrite HV in Hx. destruct (Hf _ Hx Hd) as [a Ha].
  unfold slot_at. wp_steps. apply (wp_checked _ s); [done|]. apply (wp_checked _ a); [done|].
  split; [by eapply held_read|]. eauto.
Qed.

Lemma modify_spec {A} bs c V b (f : list Z → option (A * list Z)) :
  cache_at bs c V → is_number b →
  (∀ data, V b = Some data → is_block bs data →
     ∃ a data', f data = Some (a, data') ∧ is_block bs data') →
  wp (modify b f) (λ r c',
    match r with
    | Ok a => ∃ data data', V b = Some data ∧ is_block bs data ∧ f data = Some (a, data') ∧
                is_block bs data' ∧ cache_at bs c' (<[b := Some data']> V)
    | Err e => io_error bs V b e c'
    end) c.
Proof.
  intros [Hc HV] Hn Hf. unfold modify. wp_steps.
  eapply wp_mono; [by apply (slot_spec bs)|]. intros [i|e] c1 H1; [|by eapply slot_error].
  destruct (held_slot _ _ _ _ _ _ H1) as (s&Hs&Hb&Hd&Hx). specialize (Hx eq_refl).
  rewrite HV in Hx. destruct (Hf _ Hx Hd) as (a&data'&Ha&Hd').
  unfold slot_at, set_slot. wp_steps. apply (wp_checked _ s); [done|]. wp_steps.
  eapply wp_checked; [exact Ha|]. wp_steps. exists (s_data s), data'.
  split_and!; [done..|].
  by apply (held_put bs c false b i c1 (slot_dirty (slot_data s data') true)).
Qed.

Lemma zero_spec bs c V b :
  cache_at bs c V → is_number b → is_Some (V b) →
  wp (zero b) (λ r c',
    match r with
    | Ok _ => cache_at bs c' (<[b := Some (zeros bs)]> V)
    | Err e => io_error bs V b e c'
    end) c.
Proof.
  intros [Hc HV] Hn Hb. unfold zero. wp_steps.
  eapply wp_mono; [apply (slot_spec bs); [done|done|by rewrite HV]|].
  intros [i|e] c1 H1; [|by eapply slot_error].
  destruct (held_slot _ _ _ _ _ _ H1) as (s&Hs&Hsb&[Hl Hby]&_).
  unfold slot_at, set_slot. wp_steps. apply (wp_checked _ s); [done|]. wp_steps.
  replace (zeros bs) with (replicate (length (s_data s)) 0) by (unfold zeros; f_equal; lia).
  apply (held_put bs c true b i c1
    (slot_dirty (slot_data s (replicate (length (s_data s)) 0)) true)); try done.
  split; cbn; [zn|]. apply Forall_replicate. unfold is_byte. lia.
Qed.

(** *** Flushing *)

Lemma index_values_in c i : i ∈ index_values c ↔ ∃ b, index c !! b = Some i.
Proof.
  unfold index_values. rewrite (merge_sort_Permutation by_block), list_elem_of_fmap. split.
  - intros ([b j]&->&Hj%elem_of_map_to_list). eauto.
  - intros [b Hb]. exists (b, i). by rewrite elem_of_map_to_list.
Qed.

Lemma keep_dirty_spec c l :
  (∀ i, i ∈ l → is_Some (slots c !! i)) →
  ∃ l', keep_dirty c l = Some l' ∧
    ∀ i, i ∈ l' ↔ i ∈ l ∧ ∃ s, slots c !! i = Some s ∧ s_dirty s = true.
Proof.
  induction l as [|i l IH]; intros Hl; cbn [keep_dirty].
  { eexists. split; [done|]. intros i. rewrite elem_of_nil. tauto. }
  destruct IH as (l'&->&Hl'); [intros; apply Hl; by constructor|].
  destruct (Hl i) as [s Hs]; [by constructor|]. unfold is_dirty. rewrite Hs. cbn.
  eexists. split; [done|]. intros j.
  destruct (s_dirty s) eqn:Ed; rewrite ?elem_of_cons, Hl'; split.
  - intros [->|[? ?]]; eauto.
  - intros [[->|?] ?]; auto.
  - intros [? ?]; auto.
  - intros [[->|?] (s'&?&?)]; [congruence|eauto].
Qed.

Lemma write_all_spec bs c V l ok :
  cache_at bs c V → (∀ i, i ∈ l → is_Some (slots c !! i)) →
  wp (write_all l ok) (λ r c',
    cache_at bs c' V ∧ index c' = index c ∧ length (slots c') = length (slots c) ∧
    ∃ ok', r = Ok ok' ∧ (ok' = false → ok = false ∨ faulty) ∧ (ok' = true → ok = true) ∧
    (∀ j s, slots c' !! j = Some s → s_dirty s = true →
       slots c !! j = Some s ∧ (ok' = true → j ∉ l))) c.
Proof.
  revert c ok. induction l as [|i l IH]; intros c ok Hc Hl; cbn [write_all].
  { wp_steps. split_and!; [done..|]. exists ok. split_and!; [done|auto|auto|].
    intros. split; [done|]. intros _. apply not_elem_of_nil. }
  destruct (Hl i) as [s Hs]; [by constructor|]. destruct Hc as [Hc HV].
  wp_steps. eapply wp_mono; [by apply (write_back_spec bs)|].
  intros r c1 (Hc1&Hv1&Ex1&Es1&_). pose proof (lookup_lt_Some _ _ _ Hs) as Hi.
  assert (El : length (slots c1) = length (slots c)).
  { destruct r; [rewrite Es1; by rewrite length_insert|by destruct Es1 as (_&->&_)]. }
  eapply wp_mono; [apply IH|].
  - split; [done|]. intros b. by rewrite Hv1.
  - intros j Hj. apply lookup_lt_is_Some. rewrite El. apply lookup_lt_is_Some, Hl. by constructor.
  - intros r2 c2 (Hc2&Ex2&El2&ok'&->&Hok'&Hok&Hd). split_and!; [done|congruence|lia|].
    exists ok'. split_and!; [done| |by intros [??]%Hok%andb_true_iff|].
    + intros E. destruct (Hok' E) as [Hx|]; [|by right].
      destruct r; [left; by rewrite andb_true_r in Hx|]. right. apply Es1.
    + intros j s' Hs' Hdirty. destruct (Hd j s' Hs' Hdirty) as [Hj Hnl].
      destruct r as [[]|e].
      * rewrite Es1 in Hj. apply list_lookup_insert_Some in Hj as [(->&<-&_)|[Hne Hj]]; [done|].
        split; [done|]. intros E. rewrite elem_of_cons. intros [->|]; [done|]. by apply Hnl.
      * destruct Es1 as (_&Es1&_). rewrite Es1 in Hj. split; [done|]. intros E%Hok.
        by rewrite andb_false_r in E.
Qed.

Lemma flush_spec bs c V :
  cache_at bs c V →
  wp flush (λ r c',
    cache_at bs c' V ∧
    match r with
    | Ok _ => ∀ b, block_of (contents (dev c')) bs b = V b
    | Err e => e = Io ∧ faulty
    end) c.
Proof.
  intros Hc. pose proof Hc as [Hi HV]. unfold flush. wp_steps.
  destruct (keep_dirty_spec c (index_values c)) as (l&El&Hl).
  { intros i [b Hb]%index_values_in.
    by destruct (ci_index _ _ _ Hi _ _ Hb) as (_&_&s&->&_). }
  apply (wp_checked _ l); [done|]. wp_steps.
  eapply wp_mono; [apply (write_all_spec bs c V l true); [done|]|].
  { intros i (_&s&->&_)%Hl. done. }
  intros r c1 (Hc1&Ex1&_&ok&->&Hok&_&Hd). destruct ok; wp_steps.
  2:{ split; [done|]. by destruct (Hok eq_refl). }
  split; [done|]. intros b. destruct Hc1 as [Hi1 HV1]. rewrite <-HV1. unfold view.
  rewrite (ci_bs _ _ _ Hi1).
  destruct (index c1 !! b) as [i|] eqn:Ei; [|done].
  destruct (ci_index _ _ _ Hi1 _ _ Ei) as (_&_&s&Hs&<-). rewrite Hs. cbn.
  destruct (s_dirty s) eqn:Ed; [|by eapply ci_clean].
  destruct (Hd i s Hs Ed) as [Hs0 Hni]. destruct (Hni eq_refl). apply Hl.
  split; [|eauto]. apply index_values_in. exists (s_block s). congruence.
Qed.

(** *** Reading past the cache *)

Lemma cached_in_false c first last :
  cached_in c first last = false → ∀ b, first <= b < last → index c !! b = None.
Proof.
  intros E b Hb. destruct (index c !! b) as [i|] eqn:Ei; [|done].
  assert (cached_in c first last = true); [|congruence].
  apply existsb_exists. exists (b, i). split; [by apply list_elem_of_In, elem_of_map_to_list|].
  cbn. apply andb_true_iff. lia.
Qed.

(** [n] consecutive blocks of [V], joined. *)
Fixpoint blocks_from (V : Z → option (list Z)) (first : Z) (n : nat) : option (list Z) :=
  match n with
  | O => Some []
  | S n' => d ← V first; rest ← blocks_from V (first + 1) n'; Some (d ++ rest)
  end.

Lemma blocks_from_ext V W first n :
  (∀ b, first <= b < first + Z.of_nat n → V b = W b) →
  blocks_from V first n = blocks_from W first n.
Proof.
  revert first. induction n as [|n IH]; intros first E; [done|]. cbn [blocks_from].
  rewrite (E first) by lia. destruct (W first); [|done]. cbn.
  rewrite IH; [done|]. intros. apply E. lia.
Qed.

Lemma blocks_from_slice l bs first n buf :
  0 < bs → 0 <= first →
  slice l (first * bs) (first * bs + Z.of_nat n * bs) = Some buf →
  blocks_from (block_of l bs) first n = Some buf.
Proof.
  intros Hbs. revert first buf. induction n as [|n IH]; intros first buf Hf; cbn [blocks_from].
  - intros E. pose proof (slice_length _ _ _ _ E). destruct buf; [done|simpl in *; lia].
  - unfold slice at 1. case_if; [|done]. intros [= <-].
    assert (block_of l bs first = Some (take (Z.to_nat bs) (drop (Z.to_nat (first * bs)) l))) as ->.
    { unfold block_of. rewrite slice_ok by nia. repeat (f_equal; try lia). }
    cbn [mbind option_bind].
    erewrite (IH (first + 1)); [|lia|apply slice_ok; nia]. cbn. f_equal.
    replace (Z.to_nat (first * bs + Z.of_nat (S n) * bs - first * bs))
      with (Z.to_nat bs + Z.to_nat (Z.of_nat n * bs))%nat by nia.
    rewrite <-take_take_drop, drop_drop.
    repeat (f_equal; try nia).
Qed.

Lemma blocks_from_none V first n :
  blocks_from V first n = None → ∃ b, first <= b < first + Z.of_nat n ∧ V b = None.
Proof.
  revert first. induction n as [|n IH]; intros first; cbn [blocks_from]; [done|].
  destruct (V first) eqn:E; cbn; [|intros _; exists first; split; [lia|done]].
  destruct (blocks_from V (first + 1) n) eqn:E'; cbn; [done|].
  destruct (IH _ E') as (b&?&?). intros _. exists b. split; [lia|done].
Qed.

Lemma cache_at_with_dev bs c V d :
  cache_at bs c V → contents d = contents (dev c) → cache_at bs (with_dev c d) V.
Proof.
  intros [Hc HV] Ed. split; [by eapply cache_inv_ext|].
  intros b. by rewrite view_with_dev.
Qed.

(** What a read of [n] blocks of the disk [V] gives. *)
Definition through (bs : Z) (V : Z → option (list Z)) (first : Z) (n : nat)
    (r : result Error (list Z)) c' : Prop :=
  cache_at bs c' V ∧
  match r with
  | Ok buf => blocks_from V first n = Some buf
  | Err e => e = Io ∧ ((∃ b, first <= b < first + Z.of_nat n ∧ V b = None) ∨ faulty)
  end.

(** One device read of [n] uncached blocks. *)
Lemma dev_blocks_spec bs c V first (n : nat) out :
  cache_at bs c V → 0 <= first → (0 < n)%nat → zlen out = Z.of_nat n * bs →
  (∀ b, first <= b < first + Z.of_nat n → index c !! b = None) →
  wp (let '(ok, buf, d) := dev_read (dev c) (offset c first) out in
      _ ← set_state (with_dev c d);
      if ok : bool then mret buf else throw Io) (through bs V first n) c.
Proof.
  intros Hc Hf Hn Hl Hx. pose proof Hc as [Hi HV]. pose proof (ci_pos _ _ _ Hi).
  unfold offset. rewrite (ci_bs _ _ _ Hi).
  destruct (dev_read (dev c) (first * bs) out) as [[ok buf] d] eqn:Er.
  pose proof Er as Er'. apply dev_read_spec in Er as (Ed&_&_&Eok). rewrite Hl in Eok.
  assert (EV : blocks_from V first n = blocks_from (block_of (contents (dev c)) bs) first n).
  { apply blocks_from_ext. intros b Hb. rewrite <-HV. unfold view.
    by rewrite Hx, (ci_bs _ _ _ Hi) by done. }
  wp_steps. destruct ok; wp_steps; (split; [by apply cache_at_with_dev|]).
  - rewrite EV. apply blocks_from_slice; auto.
  - split; [done|].
    destruct (slice (contents (dev c)) (first * bs) (first * bs + zlen out)) as [l|] eqn:Es.
    + right. left. exists (dev c), (first * bs), out, buf, d. by rewrite Es.
    + left. exists (first + Z.of_nat n - 1). split; [lia|]. rewrite <-HV. unfold view.
      rewrite Hx, (ci_bs _ _ _ Hi) by lia. unfold slice in Es. case_if; [done|].
      unfold block_of, slice. case_if; [|done]. exfalso.
      apply andb_false_iff in Heqb as [[Hb|Hb]%andb_false_iff|Hb]; bool_hyps; nia.
Qed.

Lemma read_blocks_spec bs c V first n out :
  cache_at bs c V → 0 <= first → zlen out = Z.of_nat n * bs →
  wp (read_blocks first n out) (through bs V first n) c.
Proof.
  revert c first out. induction n as [|n IH]; intros c first out Hc Hf Hl; cbn [read_blocks].
  { wp_steps. split; [done|]. cbn. destruct out; [done|simpl in Hl; lia]. }
  pose proof Hc as [Hi HV]. pose proof (ci_pos _ _ _ Hi). pose proof (ci_bs _ _ _ Hi) as Ebs.
  wp_steps. rewrite Ebs. eapply (wp_mono _ (through bs V first 1)).
  - destruct (index c !! first) as [i|] eqn:Ei.
    + destruct (ci_index _ _ _ Hi _ _ Ei) as (_&_&s&Hs&_).
      destruct (ci_data _ _ _ Hi _ _ Hs) as [Hd _].
      unfold slot_at. wp_steps. apply (wp_checked _ s); [done|].
      apply (wp_checked _ (s_data s)).
      { unfold copy_from_slice. rewrite decide_True; [done|]. zn. }
      split; [done|]. cbn. rewrite <-HV. unfold view. rewrite Ei, Hs. cbn. by rewrite app_nil_r.
    + apply dev_blocks_spec; [done|done|lia|zn; nia|].
      intros b Hb. replace b with first by lia. done.
  - intros [chunk|e] c1 [Hc1 Hr1].
    + wp_steps. eapply wp_mono; [apply (IH c1 (first + 1)); [done|lia|zn; nia]|].
      intros [rest|e] c2 [Hc2 Hr2]; wp_steps; (split; [done|]).
      * cbn [blocks_from] in Hr1 |- *. destruct (V first); [|done]. cbn in Hr1 |- *.
        rewrite Hr2. cbn. rewrite app_nil_r in Hr1. by injection Hr1 as ->.
      * destruct Hr2 as [-> [(b&?&?)|?]]; (split; [done|]); [left|by right].
        exists b. split; [lia|done].
    + split; [done|]. destruct Hr1 as [-> [(b&?&?)|?]]; (split; [done|]); [left|by right].
      exists b. split; [lia|done].
Qed.

Lemma read_through_spec bs c V first n out :
  cache_at bs c V → 0 <= first → (0 < n)%nat → first + Z.of_nat n < 2 ^ 32 →
  zlen out = Z.of_nat n * bs →
  wp (read_through first out) (through bs V first n) c.
Proof.
  intros Hc Hf Hn Hb Hl. pose proof Hc as [Hi HV]. pose proof (ci_pos _ _ _ Hi).
  unfold read_through. wp_steps. rewrite (ci_bs _ _ _ Hi), Hl.
  apply (wp_checked _ (Z.of_nat n)).
  { unfold udiv. case_if; [lia|]. f_equal. apply Z.div_mul. lia. }
  rewrite Z.mod_small by lia. wp_steps. apply (wp_checked _ (first + Z.of_nat n)).
  { unfold add32, fits. case_if; [done|]. lia. }
  destruct (cached_in c first (first + Z.of_nat n)) eqn:Ec.
  - rewrite Nat2Z.id. by apply read_blocks_spec.
  - apply dev_blocks_spec; try done. by apply cached_in_false.
Qed.

End view.

(** ** Sequences of operations against the flat disk *)

Inductive op :=
  | ORead (b : Z)
  | OModify (b : Z) (f : list Z → list Z)
  | OZero (b : Z)
  | OThrough (first : Z) (n : nat)
  | OFlush.

(** The blocks an operation names. *)
Definition touches (o : op) (b : Z) : Prop :=
  match o with
  | ORead b' | OModify b' _ | OZero b' => b = b'
  | OThrough first n => first <= b < first + Z.of_nat n
  | OFlush => False
  end.

(** The flat disk: what an operation returns and leaves. *)
Definition disk_op (V : Z → option (list Z)) (o : op) : option (list Z * (Z → option (list Z))) :=
  match o with
  | ORead b => d ← V b; Some (d, V)
  | OModify b f => d ← V b; Some ([], <[b := Some (f d)]> V)
  | OZero b => d ← V b; Some ([], <[b := Some (replicate (length d) 0)]> V)
  | OThrough first n => d ← blocks_from V first n; Some (d, V)
  | OFlush => Some ([], V)
  end.

(** A client that names blocks of the device only, and changes their bytes. *)
Definition op_ok (bs : Z) (V : Z → option (list Z)) (o : op) : Prop :=
  (∀ b, touches o b → is_number b ∧ is_Some (V b)) ∧
  match o with
  | OModify _ f => ∀ d, is_block bs d → is_block bs (f d)
  | OThrough first n => 0 <= first ∧ (0 < n)%nat ∧ first + Z.of_nat n < 2 ^ 32
  | _ => True
  end.

Section runs.
Context {D : Type} `{DeviceLaws D}.
Implicit Types (c : Cache D).

Definition cache_op (bs : Z) (o : op) : cprog (D := D) (list Z) :=
  match o with
  | ORead b => read b Some
  | OModify b f => modify b (λ d, Some ([], f d))
  | OZero b => _ ← zero b; mret []
  | OThrough first n => read_through first (zeros (Z.of_nat n * bs))
  | OFlush => _ ← flush; mret []
  end.

(** The operations in turn, errors noted and passed over. *)
Fixpoint run (bs : Z) (l : list op) c : option (list (result Error (list Z)) * Cache D) :=
  match l with
  | [] => Some ([], c)
  | o :: l' => '(r, c1) ← cache_op bs o c; '(rs, c2) ← run bs l' c1; Some (r :: rs, c2)
  end.

(** The answers [rs] to [l] are those of the flat disk, from [V] to [V'], but
    for operations the device failed, which changed nothing. *)
Fixpoint answers (V : Z → option (list Z)) (l : list op)
    (rs : list (result Error (list Z))) (V' : Z → option (list Z)) : Prop :=
  match l, rs with
  | [], [] => V' = V
  | o :: l', r :: rs' =>
      match r with
      | Ok a => ∃ V1, disk_op V o = Some (a, V1) ∧ answers V1 l' rs' V'
      | Err e => e = Io ∧ faulty (D := D) ∧ answers V l' rs' V'
      end
  | _, _ => False
  end.

Lemma disk_op_dom V o a V' b :
  disk_op V o = Some (a, V') → is_Some (V b) → is_Some (V' b).
Proof.
  destruct o as [b'|b' f|b'|first n|]; cbn.
  - destruct (V b'); [|done]. by intros [= <- <-].
  - destruct (V b'); [|done]. intros [= <- <-]. unfold insert, fn_insert. by case_decide.
  - destruct (V b'); [|done]. intros [= <- <-]. unfold insert, fn_insert. by case_decide.
  - destruct (blocks_from V first n); [|done]. by intros [= <- <-].
  - by intros [= <- <-].
Qed.

Lemma op_ok_mono bs V o a V' o' :
  disk_op V o = Some (a, V') → op_ok bs V o' → op_ok bs V' o'.
Proof.
  intros E [Hb Ho]. split; [|done]. intros b Ht. destruct (Hb b Ht). split; [done|].
  by eapply disk_op_dom.
Qed.

Lemma cache_op_spec bs c V o :
  cache_at bs c V → op_ok bs V o →
  wp (cache_op bs o) (λ r c',
    match r with
    | Ok a => ∃ V', disk_op V o = Some (a, V') ∧ cache_at bs c' V'
    | Err e => e = Io ∧ faulty (D := D) ∧ cache_at bs c' V
    end) c.
Proof.
  intros Hc [Hb Ho]. destruct o as [b|b f|b|first n|]; cbn [cache_op touches] in *.
  - destruct (Hb b eq_refl) as [Hn [d Hd]]. eapply wp_mono; [by apply (read_spec bs)|].
    intros [a|e] c' Hr; [|destruct Hr as (->&?&[?|?]); [congruence|done]].
    destruct Hr as (?&d'&?&?&[= <-]). exists V. cbn. assert (d' = d) as -> by congruence.
    by rewrite Hd.
  - destruct (Hb b eq_refl) as [Hn [d Hd]].
    eapply wp_mono; [apply (modify_spec bs); [done|done|eauto]|].
    intros [a|e] c' Hr; [|destruct Hr as (->&?&[?|?]); [congruence|done]].
    destruct Hr as (d1&d2&E&_&[= <- <-]&_&Hat). eexists. cbn. by rewrite E.
  - destruct (Hb b eq_refl) as [Hn [d Hd]]. wp_steps.
    eapply wp_mono; [by apply (zero_spec bs); [..|rewrite Hd]|].
    intros [[]|e] c' Hr; [|destruct Hr as (->&?&[?|?]); [congruence|done]].
    wp_steps. eexists. cbn. rewrite Hd. split; [done|]. destruct Hc as [Hi HV].
    replace (length d) with (Z.to_nat bs); [done|].
    destruct (view_block bs None c b d) as [Hl _]; [done|by rewrite HV|]. lia.
  - destruct Ho as (Hf&Hn&Hle). pose proof (ci_pos _ _ _ (proj1 Hc)).
    eapply wp_mono; [apply (read_through_spec bs c V first n); try done; unfold zeros; zn|].
    intros [a|e] c' [Hat Hr].
    + exists V. cbn. by rewrite Hr.
    + destruct Hr as [-> [(b&Hb'&HV)|?]]; [|done]. destruct (Hb b Hb') as [_ [? ?]]. congruence.
  - wp_steps. eapply wp_mono; [by apply (flush_spec bs)|].
    intros [[]|e] c' [Hat Hr]; wp_steps; [eauto|]. by destruct Hr.
Qed.

(** A cache just made presents the device itself. *)
Lemma new_at (d : D) bs :
  0 < bs → Forall is_byte (contents d) → cache_at bs (new d bs) (block_of (contents d) bs).
Proof.
  intros Hbs Hd. split; [|done].
  constructor; cbn [new dev cbs slots index length]; try done. unfold SLOTS. lia.
Qed.

(** C2: the block cache is transparent.  Whatever blocks are read, changed,
    zeroed, read past the cache and flushed, in whatever order, and whatever
    the 256 slots had to evict in between, the cache answers as the flat disk
    does: no operation panics, every successful answer is the flat disk's, and
    the disk presented at the end is the flat disk's too.  An operation fails
    only when the device failed a request inside its bounds, and then it
    changed nothing. *)
Theorem cache_refines_flat_disk bs c V l :
  cache_at bs c V → Forall (op_ok bs V) l →
  ∃ rs c' V', run bs l c = Some (rs, c') ∧ answers V l rs V' ∧ cache_at bs c' V'.
Proof.
  revert c V. induction l as [|o l IH]; intros c V Hc Hl; cbn [run answers].
  { by exists [], c, V. }
  apply Forall_cons_iff in Hl as [Ho Hl].
  destruct (proj1 (wp_run _ _ _) (cache_op_spec bs c V o Hc Ho)) as ([a|e]&c1&E&Hr).
  - destruct Hr as (V1&Ed&Hc1).
    destruct (IH c1 V1 Hc1) as (rs&c'&V'&Er&Ha&Hc').
    { eapply Forall_impl; [|exact Hl]. intros. by eapply op_ok_mono. }
    exists (Ok a :: rs), c', V'. rewrite E. cbn. rewrite Er. cbn. split_and!; [done| |done].
    by exists V1.
  - destruct Hr as (->&Hf&Hc1).
    destruct (IH c1 V Hc1 Hl) as (rs&c'&V'&Er&Ha&Hc').
    exists (Err Io :: rs), c', V'. rewrite E. cbn. by rewrite Er.
Qed.

(** C28: a flush that reports success made everything durable: a new cache
    over the device alone (the filesystem mounted again, the old cache lost)
    presents the very disk the old one did.  It fails only if the device does,
    and a failed flush still presents the same disk. *)
Theorem flush_makes_durable bs c V :
  cache_at bs c V →
  ∃ r c', flush c = Some (r, c') ∧ cache_at bs c' V ∧
    (r = Ok tt → cache_at bs (new (dev c') bs) V) ∧
    (r ≠ Ok tt → faulty (D := D)).
Proof.
  intros Hc. destruct (proj1 (wp_run _ _ _) (flush_spec bs c V Hc)) as (r&c'&E&Hat&Hr).
  exists r, c'. split_and!; [done|done| |].
  - intros ->. destruct Hat as [Hi _].
    destruct (new_at (dev c') bs) as [Hn Hv]; [by eapply ci_pos|by eapply ci_bytes|].
    split; [done|]. intros b. by rewrite Hv, Hr.
  - destruct r as [[]|e]; [done|]. intros _. apply Hr.
Qed.

End runs.

(** *** Witnesses: a RAM disk of three four-byte blocks *)

Definition ex_disk : Ram := {| ram_bytes := [1; 2; 3; 4; 5; 6; 7; 8; 9; 10; 11; 12]; ram_clock := 0 |}.
Definition ex_ops : list op :=
  [ORead 1; OModify 1 (λ d, <[0%nat := 77]> d); OZero 2; OThrough 0 3; OFlush].

Lemma ex_at : cache_at 4 (new ex_disk 4) (block_of (contents ex_disk) 4).
Proof. apply (new_at ex_disk 4); [lia|]. by apply bytesb_bytes. Qed.

Lemma ex_ops_ok : Forall (op_ok 4 (block_of (contents ex_disk) 4)) ex_ops.
Proof.
  assert (Hb : ∀ b, 0 <= b < 3 → is_number b ∧ is_Some (block_of (contents ex_disk) 4 b)).
  { intros b Hb. assert (is_number b) by (unfold is_number, U32_MAX; lia). split; [done|].
    apply block_of_is_some; [lia|done|]. cbn. lia. }
  unfold ex_ops. rewrite !Forall_cons_iff. split_and!; [..|by constructor];
    (split; [intros b Ht; cbn in Ht; try apply Hb; lia|]); try done; [|cbn; lia].
  intros d [Hl Hd]. split; [by rewrite length_insert|].
  apply Forall_insert; [done|]. unfold is_byte. lia.
Qed.

Lemma cache_refines_flat_disk_witness :
  fst <$> run 4 ex_ops (new ex_disk 4) =
    Some [Ok [5; 6; 7; 8]; Ok []; Ok []; Ok [1; 2; 3; 4; 77; 6; 7; 8; 0; 0; 0; 0]; Ok []] ∧
  ∃ rs c' V', run 4 ex_ops (new ex_disk 4) = Some (rs, c') ∧
    answers (D := Ram) (block_of (contents ex_disk) 4) ex_ops rs V' ∧ cache_at 4 c' V'.
Proof.
  split; [vm_compute; reflexivity|].
  exact (cache_refines_flat_disk 4 (new ex_disk 4) _ ex_ops ex_at ex_ops_ok).
Defined.

Lemma flush_makes_durable_witness :
  ∃ r c', flush (new ex_disk 4) = Some (r, c') ∧
    cache_at 4 c' (block_of (contents ex_disk) 4) ∧
    (r = Ok tt → cache_at 4 (new (dev c') 4) (block_of (contents ex_disk) 4)) ∧
    (r ≠ Ok tt → faulty (D := Ram)).
Proof. exact (flush_makes_durable 4 (new ex_disk 4) _ ex_at). Defined.
