(* ===== verification/Ext2Alloc.v ===== *)
(** * ext2: the mounted filesystem's state and its allocator

    Models the struct [Fs] of [modules/ext2/ext2fs/src/fs.rs], its access to
    the superblock and the group descriptors, [flush], and the allocation of
    blocks and inodes from the bitmaps.  Paths are the bytes of a [str]. *)

From stdpp Require Import gmap functions.
From S2P Require Import Prelude Ext2Layout Ext2Cache.

Record Fs (D : Type) := {
  cache : Cache D;
  geo : Geometry;
  sb : list Z;
  sb_dirty : bool;
  gdt : list Z;
  gdt_dirty : list bool;
  last_alloc : Z;
  resolved : gmap (list Z) Z;
}.
Arguments cache {D} _.
Arguments geo {D} _.
Arguments sb {D} _.
Arguments sb_dirty {D} _.
Arguments gdt {D} _.
Arguments gdt_dirty {D} _.
Arguments last_alloc {D} _.
Arguments resolved {D} _.

(** [bm[(i / 8) as usize] & (1 << (i % 8))], [|=] and [&= !] *)
Definition bit_free (bm : list Z) (i : Z) : option bool :=
  x ← zget bm (i / 8); Some (Z.land x (Z.shiftl 1 (i mod 8)) =? 0).
Definition bit_set (bm : list Z) (i : Z) : option (list Z) :=
  x ← zget bm (i / 8); zset bm (i / 8) (Z.lor x (Z.shiftl 1 (i mod 8))).
Definition bit_clear (bm : list Z) (i : Z) : option (list Z) :=
  x ← zget bm (i / 8); zset bm (i / 8) (Z.land x (255 - Z.shiftl 1 (i mod 8))).

(** The search loop of [take_bit], from [i] to [hi]: the outer option is the
    panic, the inner one whether a clear bit was found.  [fuel] of one more
    than [hi - i] is enough. *)
Fixpoint scan_bits (fuel : nat) (bm : list Z) (i hi : Z) : option (option Z) :=
  match fuel with
  | O => None
  | S fuel' =>
      if i <? hi then
        full ← (if i mod 8 =? 0 then
                  e ← add32 i 8;
                  if e <=? hi then x ← zget bm (i / 8); Some (x =? 0xff) else Some false
                else Some false);
        if full : bool then scan_bits fuel' bm (i + 8) hi
        else
          free ← bit_free bm i;
          if free : bool then Some (Some i) else scan_bits fuel' bm (i + 1) hi
      else Some None
  end.

Definition scan_from (bm : list Z) (lo hi : Z) : option (option Z) :=
  scan_bits (S (Z.to_nat (hi - lo))) bm lo hi.

(** The closure [take_bit] runs on the bitmap. *)
Definition take_bit_in (bits start : Z) (bm : list Z) : option (option Z * list Z) :=
  let s := Z.min start bits in
  first ← scan_from bm s bits;
  found ← match first with Some i => Some (Some i) | None => scan_from bm 0 s end;
  match found with
  | Some i => bm' ← bit_set bm i; Some (Some i, bm')
  | None => Some (None, bm)
  end.

Definition clear_bit_in (i : Z) (bm : list Z) : option (bool * list Z) :=
  free ← bit_free bm i; bm' ← bit_clear bm i; Some (negb free, bm').

Section fs.
Context {D : Type} `{Device D}.

Definition fprog (A : Type) : Type := prog (Fs D) Error A.
Implicit Types (fs : Fs D).

Definition with_cache fs (c : Cache D) : Fs D :=
  {| cache := c; geo := geo fs; sb := sb fs; sb_dirty := sb_dirty fs; gdt := gdt fs;
     gdt_dirty := gdt_dirty fs; last_alloc := last_alloc fs; resolved := resolved fs |}.
Definition with_sb fs (b : list Z) (dirty : bool) : Fs D :=
  {| cache := cache fs; geo := geo fs; sb := b; sb_dirty := dirty; gdt := gdt fs;
     gdt_dirty := gdt_dirty fs; last_alloc := last_alloc fs; resolved := resolved fs |}.
Definition with_gdt fs (b : list Z) (dirty : list bool) : Fs D :=
  {| cache := cache fs; geo := geo fs; sb := sb fs; sb_dirty := sb_dirty fs; gdt := b;
     gdt_dirty := dirty; last_alloc := last_alloc fs; resolved := resolved fs |}.
Definition with_last fs (b : Z) : Fs D :=
  {| cache := cache fs; geo := geo fs; sb := sb fs; sb_dirty := sb_dirty fs; gdt := gdt fs;
     gdt_dirty := gdt_dirty fs; last_alloc := b; resolved := resolved fs |}.
Definition with_resolved fs (m : gmap (list Z) Z) : Fs D :=
  {| cache := cache fs; geo := geo fs; sb := sb fs; sb_dirty := sb_dirty fs; gdt := gdt fs;
     gdt_dirty := gdt_dirty fs; last_alloc := last_alloc fs; resolved := m |}.

(** [self.cache.f(..)] and [self.cache.dev.f(..)] *)
Definition on_cache {A} (m : cprog A) : fprog A := zoom cache with_cache m.

Definition dev_put (off : Z) (data : list Z) : fprog bool :=
  fs ← get_state;
  let '(ok, d) := dev_write (dev (cache fs)) off data in
  _ ← set_state (with_cache fs (with_dev (cache fs) d));
  mret ok.

Definition now : fprog Z :=
  fs ← get_state;
  let '(t, d) := dev_now (dev (cache fs)) in
  _ ← set_state (with_cache fs (with_dev (cache fs) d));
  mret t.

Definition gd32 fs (g field : Z) : option Z := get32 (gdt fs) (g * GD_SIZE + field).
Definition gd16 fs (g field : Z) : option Z := get16 (gdt fs) (g * GD_SIZE + field).

(** [as u16] and [as u32] of a sum in a wider signed type wrap. *)
Definition gd16_add (g field delta : Z) : fprog () :=
  fs ← get_state;
  let o := g * GD_SIZE + field in
  v ← checked (get16 (gdt fs) o);
  b ← checked (put16 (gdt fs) o ((v + delta) mod 2 ^ 16));
  i ← checked (udiv o (block_size (geo fs)));
  dirty ← checked (zset (gdt_dirty fs) i true);
  set_state (with_gdt fs b dirty).

Definition sb32_add (field delta : Z) : fprog () :=
  fs ← get_state;
  v ← checked (get32 (sb fs) field);
  b ← checked (put32 (sb fs) field ((v + delta) mod 2 ^ 32));
  set_state (with_sb fs b true).

(** One descriptor block of [flush]'s loop. *)
Definition flush_gdt_block (i : Z) : fprog () :=
  fs ← get_state;
  dirty ← checked (zget (gdt_dirty fs) i);
  if dirty : bool then
    let bs := block_size (geo fs) in
    data ← checked (slice (gdt fs) (i * bs) ((i + 1) * bs));
    ok ← dev_put ((first_data_block (geo fs) + 1 + i) * bs) data;
    if ok : bool then
      fs ← get_state;
      flags ← checked (zset (gdt_dirty fs) i false);
      set_state (with_gdt fs (gdt fs) flags)
    else throw Io
  else mret tt.

Definition flush_sb : fprog () :=
  fs ← get_state;
  if sb_dirty fs then
    t ← now;
    fs ← get_state;
    b ← checked (put32 (sb fs) S_WTIME t);
    _ ← set_state (with_sb fs b (sb_dirty fs));
    ok ← dev_put SB_OFFSET b;
    if ok : bool then
      fs ← get_state; set_state (with_sb fs (sb fs) false)
    else throw Io
  else mret tt.

Definition fs_flush : fprog () :=
  _ ← on_cache flush;
  fs ← get_state;
  _ ← fold_m (λ _ i, flush_gdt_block i) (seqZ 0 (zlen (gdt_dirty fs))) tt;
  flush_sb.

Definition sync : fprog () := fs_flush.

(** A public operation that changes the tree: flushed even when it failed,
    and its own error reported before the flush's. *)
Definition fs_op {A} (f : fprog A) : fprog A :=
  r ← attempt f;
  fs ← get_state;
  _ ← set_state (with_resolved fs ∅);
  flushed ← attempt fs_flush;
  v ← lift_result (Some r);
  _ ← lift_result (Some flushed);
  mret v.

Definition fs_run {A} (f : fprog A) : fprog A := f.

(** *** Allocation *)

Definition take_bit (block bits start : Z) : fprog (option Z) :=
  on_cache (modify block (take_bit_in bits start)).

Definition clear_bit (block i : Z) : fprog bool :=
  on_cache (modify block (clear_bit_in i)).

(** Turn [k] of [alloc_block]'s loop: the block, if the group has one. *)
Definition alloc_block_in (g0 goal k : Z) : fprog (option Z) :=
  fs ← get_state;
  sum ← checked (add32 g0 k);
  g ← checked (umod sum (groups (geo fs)));
  free ← checked (gd16 fs g G_FREE_BLOCKS);
  if free =? 0 then mret None
  else
    first ← checked (group_first (geo fs) g);
    let start := if k =? 0 then Z.max 0 (goal - first) else 0 in
    bitmap ← checked (gd32 fs g G_BLOCK_BITMAP);
    bits ← checked (group_blocks (geo fs) g);
    found ← take_bit bitmap bits start;
    match found with
    | None => mret None
    | Some i =>
        _ ← gd16_add g G_FREE_BLOCKS (-1);
        _ ← sb32_add S_FREE_BLOCKS (-1);
        b ← checked (add32 first i);
        _ ← on_cache (zero b);
        fs ← get_state;
        last ← checked (add32 b 1);
        _ ← set_state (with_last fs last);
        mret (Some b)
    end.

Definition alloc_block : fprog Z :=
  fs ← get_state;
  let goal := last_alloc fs in
  gb ← checked (group_of_block (geo fs) goal);
  gmax ← checked (usub (groups (geo fs)) 1);
  r ← find_m (alloc_block_in (Z.min gb gmax) goal) (seqZ 0 (groups (geo fs)));
  match r with Some b => mret b | None => throw NoSpace end.

Definition free_block (b : Z) : fprog () :=
  fs ← get_state;
  if (b <? first_data_block (geo fs)) || (blocks_count (geo fs) <=? b) then throw Invalid
  else
    g ← checked (group_of_block (geo fs) b);
    bitmap ← checked (gd32 fs g G_BLOCK_BITMAP);
    first ← checked (group_first (geo fs) g);
    i ← checked (usub b first);
    was ← clear_bit bitmap i;
    if was : bool then
      _ ← gd16_add g G_FREE_BLOCKS 1;
      sb32_add S_FREE_BLOCKS 1
    else mret tt.

Definition alloc_inode_in (g0 : Z) (dir : bool) (k : Z) : fprog (option Z) :=
  fs ← get_state;
  let ipg := inodes_per_group (geo fs) in
  sum ← checked (add32 g0 k);
  g ← checked (umod sum (groups (geo fs)));
  free ← checked (gd16 fs g G_FREE_INODES);
  if free =? 0 then mret None
  else
    start ← checked (if g =? 0 then usub (first_ino (geo fs)) 1 else Some 0);
    bitmap ← checked (gd32 fs g G_INODE_BITMAP);
    found ← take_bit bitmap ipg start;
    match found with
    | None => mret None
    | Some i =>
        if (g =? 0) && (i <? start) then
          _ ← clear_bit bitmap i;
          mret None
        else
          _ ← gd16_add g G_FREE_INODES (-1);
          _ ← sb32_add S_FREE_INODES (-1);
          _ ← (if dir then gd16_add g G_USED_DIRS 1 else mret tt);
          base ← checked (mul32 g ipg);
          n ← checked (add32 base i);
          ino ← checked (add32 n 1);
          mret (Some ino)
    end.

Definition alloc_inode (near : Z) (dir : bool) : fprog Z :=
  fs ← get_state;
  g0 ← checked (udiv (Z.max near 1 - 1) (inodes_per_group (geo fs)));
  r ← find_m (alloc_inode_in g0 dir) (seqZ 0 (groups (geo fs)));
  match r with Some ino => mret ino | None => throw NoSpace end.

Definition free_inode (ino : Z) (dir : bool) : fprog () :=
  fs ← get_state;
  let ipg := inodes_per_group (geo fs) in
  n ← checked (usub ino 1);
  g ← checked (udiv n ipg);
  i ← checked (umod n ipg);
  bitmap ← checked (gd32 fs g G_INODE_BITMAP);
  was ← clear_bit bitmap i;
  if was : bool then
    _ ← gd16_add g G_FREE_INODES 1;
    _ ← sb32_add S_FREE_INODES 1;
    if dir then gd16_add g G_USED_DIRS (-1) else mret tt
  else mret tt.

(** *** Mounting *)

(** [mount]'s check of one group's descriptor. *)
Definition group_ok fs (g : Z) : option bool :=
  bb ← gd32 fs g G_BLOCK_BITMAP;
  ib ← gd32 fs g G_INODE_BITMAP;
  it ← gd32 fs g G_INODE_TABLE;
  Some (negb (existsb (λ b, (b <? first_data_block (geo fs)) || (blocks_count (geo fs) <=? b))
                      [bb; ib; it])).

Fixpoint groups_ok fs (l : list Z) : option bool :=
  match l with
  | [] => Some true
  | g :: l' => ok ← group_ok fs g; if ok : bool then groups_ok fs l' else Some false
  end.

Definition mount (d : D) : option (result Error (Fs D)) :=
  let '(ok, sb, d) := dev_read d SB_OFFSET (zeros SB_SIZE) in
  if negb ok then Some (Err Io) else
  r ← parse sb;
  match r with
  | Err e => Some (Err e)
  | Ok geo =>
      n ← gdt_blocks geo;
      let '(ok, gdt, d) := dev_read d ((first_data_block geo + 1) * block_size geo)
                                    (zeros (n * block_size geo)) in
      if negb ok then Some (Err Io) else
      let fs := {| cache := new d (block_size geo); geo := geo; sb := sb; sb_dirty := false;
                   gdt := gdt; gdt_dirty := replicate (Z.to_nat n) false; last_alloc := 0;
                   resolved := ∅ |} in
      good ← groups_ok fs (seqZ 0 (groups geo));
      Some (if good : bool then Ok fs else Err Unsupported)
  end.

Record Usage := { u_block_size : Z; u_blocks : Z; u_free_blocks : Z; u_inodes : Z; u_free_inodes : Z }.

Definition usage fs : option Usage :=
  blocks ← usub (blocks_count (geo fs)) (first_data_block (geo fs));
  fb ← get32 (sb fs) S_FREE_BLOCKS;
  fi ← get32 (sb fs) S_FREE_INODES;
  Some {| u_block_size := block_size (geo fs); u_blocks := blocks; u_free_blocks := fb;
          u_inodes := inodes_count (geo fs); u_free_inodes := fi |}.

Definition device fs : D := dev (cache fs).

Definition unmount : fprog D := _ ← fs_flush; fs ← get_state; mret (dev (cache fs)).

End fs.

(** ** Bitmaps *)

(** Bit [i] of a bitmap. *)
Definition bit (bm : list Z) (i : Z) : bool :=
  match bm !! Z.to_nat (i / 8) with Some x => Z.testbit x (i mod 8) | None => false end.

(** The clear bits among the first [n]. *)
Fixpoint count_free (bm : list Z) (n : nat) : Z :=
  match n with
  | O => 0
  | S n' => count_free bm n' + (if bit bm (Z.of_nat n') then 0 else 1)
  end.

Lemma land_bit x k : 0 <= k → (Z.land x (Z.shiftl 1 k) =? 0) = negb (Z.testbit x k).
Proof.
  intros Hk. rewrite Z.shiftl_1_l. destruct (Z.testbit x k) eqn:E; cbn [negb].
  - apply Z.eqb_neq. intros Hz. pose proof (Z.land_spec x (2 ^ k) k) as Hs.
    rewrite Hz, E, Z.pow2_bits_true, Z.bits_0 in Hs by done. done.
  - apply Z.eqb_eq. apply Z.bits_inj'. intros j Hj. rewrite Z.land_spec, Z.bits_0.
    destruct (decide (j = k)) as [->|]; [by rewrite E|].
    rewrite Z.pow2_bits_false by done. by rewrite andb_false_r.
Qed.

Lemma byte_bits x : is_byte x ↔ 0 <= x ∧ ∀ j, 8 <= j → Z.testbit x j = false.
Proof.
  unfold is_byte. split.
  - intros Hx. split; [lia|]. intros j Hj. apply Z.bits_above_log2; [lia|].
    destruct (decide (x = 0)) as [->|]; [simpl; lia|].
    assert (Z.log2 x < 8) by (apply Z.log2_lt_pow2; lia). lia.
  - intros [H0 Hx]. split; [done|]. destruct (Z_lt_ge_dec x 256) as [|Hge]; [done|].
    assert (8 <= Z.log2 x) by (apply Z.log2_le_pow2; lia).
    pose proof (Z.bit_log2 x). rewrite Hx in * by done. discriminate H1. lia.
Qed.

(** Setting or clearing bit [k] of a byte gives a byte. *)
Lemma byte_set x k :
  is_byte x → 0 <= k < 8 →
  is_byte (Z.lor x (Z.shiftl 1 k)) ∧
  ∀ j, 0 <= j → Z.testbit (Z.lor x (Z.shiftl 1 k)) j = (j =? k) || Z.testbit x j.
Proof.
  intros [H0 Hx]%byte_bits Hk. rewrite Z.shiftl_1_l.
  assert (Hs : ∀ j, Z.testbit (Z.lor x (2 ^ k)) j = (j =? k) || Z.testbit x j).
  { intros j. rewrite Z.lor_spec, Z.pow2_bits_eqb, Z.eqb_sym, orb_comm by lia. done. }
  split; [|auto]. apply byte_bits. split.
  - apply Z.lor_nonneg. split; [done|]. apply Z.pow_nonneg. lia.
  - intros j Hj. rewrite Hs, Hx by done. rewrite orb_false_r. apply Z.eqb_neq. lia.
Qed.

Lemma byte_clear x k :
  is_byte x → 0 <= k < 8 →
  is_byte (Z.land x (255 - Z.shiftl 1 k)) ∧
  ∀ j, 0 <= j → Z.testbit (Z.land x (255 - Z.shiftl 1 k)) j = negb (j =? k) && Z.testbit x j.
Proof.
  intros [H0 Hx]%byte_bits Hk. rewrite Z.shiftl_1_l.
  assert (E : 255 - 2 ^ k = Z.ldiff (Z.ones 8) (2 ^ k)).
  { assert (k = 0 ∨ k = 1 ∨ k = 2 ∨ k = 3 ∨ k = 4 ∨ k = 5 ∨ k = 6 ∨ k = 7) as Hc by lia.
    by destruct Hc as [->|[->|[->|[->|[->|[->|[->| ->]]]]]]]. }
  assert (Hs : ∀ j, 0 <= j → Z.testbit (Z.land x (255 - 2 ^ k)) j = negb (j =? k) && Z.testbit x j).
  { intros j Hj. rewrite E, Z.land_spec, Z.ldiff_spec, Z.pow2_bits_eqb, (Z.eqb_sym k) by lia.
    destruct (Z_lt_ge_dec j 8).
    - rewrite Z.ones_spec_low by lia. destruct (Z.testbit x j), (j =? k); done.
    - rewrite Hx by lia. by rewrite andb_false_r. }
  split; [|auto]. apply byte_bits. split.
  - apply Z.land_nonneg. auto.
  - intros j Hj. rewrite Hs, Hx by lia. apply andb_false_r.
Qed.

Section bitmap.
Implicit Types (bm : list Z) (i j hi : Z).

Lemma div8_range bm i : 0 <= i < 8 * zlen bm → 0 <= i / 8 < zlen bm ∧ 0 <= i mod 8 < 8.
Proof. intros. zdiv. Qed.

Lemma bit_free_ok bm i :
  0 <= i < 8 * zlen bm → bit_free bm i = Some (negb (bit bm i)).
Proof.
  intros Hi. destruct (div8_range _ _ Hi). unfold bit_free, bit. rewrite zget_lookup by lia.
  destruct (lookup_lt_is_Some_2 bm (Z.to_nat (i / 8))) as [x ->]; [lia|]. cbn.
  by rewrite land_bit by lia.
Qed.

(** A byte rewritten at bit [i]. *)
Lemma bit_update bm i x x' v :
  0 <= i < 8 * zlen bm → bm !! Z.to_nat (i / 8) = Some x →
  (∀ j, 0 <= j → Z.testbit x' j = if j =? i mod 8 then v else Z.testbit x j) →
  ∀ j, 0 <= j → bit (<[Z.to_nat (i / 8) := x']> bm) j = if j =? i then v else bit bm j.
Proof.
  intros Hi Hx Hv j Hj. destruct (div8_range _ _ Hi). unfold bit.
  pose proof (Z.div_mod j 8). pose proof (Z.div_mod i 8). pose proof (Z.mod_pos_bound j 8).
  destruct (decide (j / 8 = i / 8)) as [E|E].
  - rewrite E, list_lookup_insert_eq, Hx by lia. rewrite Hv by lia.
    destruct (j =? i) eqn:?, (j mod 8 =? i mod 8) eqn:?; bool_hyps; try done; lia.
  - rewrite list_lookup_insert_ne.
    + destruct (j =? i) eqn:?; bool_hyps; [|done]. by subst.
    + assert (0 <= j / 8) by (apply Z.div_pos; lia). lia.
Qed.

Lemma bit_set_ok bm i :
  Forall is_byte bm → 0 <= i < 8 * zlen bm →
  ∃ bm', bit_set bm i = Some bm' ∧ length bm' = length bm ∧ Forall is_byte bm' ∧
    ∀ j, 0 <= j → bit bm' j = if j =? i then true else bit bm j.
Proof.
  intros Hb Hi. destruct (div8_range _ _ Hi). unfold bit_set. rewrite zget_lookup by lia.
  destruct (lookup_lt_is_Some_2 bm (Z.to_nat (i / 8))) as [x Hx]; [lia|]. rewrite Hx. cbn.
  destruct (byte_set x (i mod 8)) as [Hx' Hs]; [by eapply Forall_lookup_1|lia|].
  unfold zset. case_if; [|lia]. eexists. split; [done|]. split_and!.
  - by rewrite length_insert.
  - by apply Forall_insert.
  - eapply bit_update; [done|done|]. intros j Hj. rewrite Hs by done. by destruct (j =? i mod 8).
Qed.

Lemma bit_clear_ok bm i :
  Forall is_byte bm → 0 <= i < 8 * zlen bm →
  ∃ bm', bit_clear bm i = Some bm' ∧ length bm' = length bm ∧ Forall is_byte bm' ∧
    ∀ j, 0 <= j → bit bm' j = if j =? i then false else bit bm j.
Proof.
  intros Hb Hi. destruct (div8_range _ _ Hi). unfold bit_clear. rewrite zget_lookup by lia.
  destruct (lookup_lt_is_Some_2 bm (Z.to_nat (i / 8))) as [x Hx]; [lia|]. rewrite Hx. cbn.
  destruct (byte_clear x (i mod 8)) as [Hx' Hs]; [by eapply Forall_lookup_1|lia|].
  unfold zset. case_if; [|lia]. eexists. split; [done|]. split_and!.
  - by rewrite length_insert.
  - by apply Forall_insert.
  - eapply bit_update; [done|done|]. intros j Hj. rewrite Hs by done. by destruct (j =? i mod 8).
Qed.

(** A byte 0xff has no clear bit: the skip of the search is sound. *)
Lemma full_byte bm i k :
  zget bm (i / 8) = Some 0xff → 0 <= i → i mod 8 = 0 → i <= k < i + 8 → bit bm k = true.
Proof.
  intros Hx Hi Hm Hk. pose proof (zget_some _ _ _ Hx). rewrite zget_lookup in Hx by lia.
  assert (k / 8 = i / 8) as E by zdiv. unfold bit. rewrite E, Hx.
  change 255 with (Z.ones 8). apply Z.ones_spec_low. apply Z.mod_pos_bound. lia.
Qed.

Lemma scan_bits_ok fuel bm i hi :
  0 <= i → hi <= 8 * zlen bm → hi + 8 < 2 ^ 32 → (Z.to_nat (hi - i) < fuel)%nat →
  ∃ r, scan_bits fuel bm i hi = Some r ∧
    match r with
    | Some j => i <= j < hi ∧ bit bm j = false ∧ ∀ k, i <= k < j → bit bm k = true
    | None => ∀ k, i <= k < hi → bit bm k = true
    end.
Proof.
  revert i. induction fuel as [|fuel IH]; intros i Hi Hhi Hmax Hf; [lia|]. cbn [scan_bits].
  destruct (i <? hi) eqn:Eh; bool_hyps; [|exists None; split; [done|lia]].
  set (full := if i mod 8 =? 0 then _ else _).
  assert (Hfull : ∃ b : bool, full = Some b ∧
    (b = true → i + 8 <= hi ∧ ∀ k, i <= k < i + 8 → bit bm k = true)).
  { unfold full. destruct (i mod 8 =? 0) eqn:Em; bool_hyps; [|by exists false].
    unfold add32, fits. case_if; [|lia]. cbn.
    destruct (i + 8 <=? hi) eqn:Ee; bool_hyps; [|by exists false].
    destruct (zget_is_some bm (i / 8)) as [x Hx]; [zdiv|]. rewrite Hx. cbn.
    exists (x =? 255). split; [done|]. intros ->%Z.eqb_eq. split; [done|].
    intros k Hk. by eapply full_byte. }
  destruct Hfull as (b&->&Hb). cbn. destruct b.
  - destruct (Hb eq_refl) as [Hle Hset].
    destruct (IH (i + 8)) as (r&->&Hr); [lia..|]. exists r. split; [done|].
    destruct r as [j|].
    + destruct Hr as (?&?&Hk). split_and!; [lia|lia|done|]. intros k ?.
      destruct (decide (k < i + 8)); [apply Hset; lia|apply Hk; lia].
    + intros k ?. destruct (decide (k < i + 8)); [apply Hset; lia|apply Hr; lia].
  - rewrite bit_free_ok by lia. cbn. destruct (bit bm i) eqn:Ei; cbn.
    + destruct (IH (i + 1)) as (r&->&Hr); [lia..|]. exists r. split; [done|].
      destruct r as [j|].
      * destruct Hr as (?&?&Hk). split_and!; [lia|lia|done|]. intros k ?.
        destruct (decide (k = i)) as [->|]; [done|apply Hk; lia].
      * intros k ?. destruct (decide (k = i)) as [->|]; [done|apply Hr; lia].
    + exists (Some i). split; [done|]. split_and!; [lia|lia|done|lia].
Qed.

(** [i] is the first clear bit of [bm] from [start] on, or else from 0. *)
Definition first_clear bm (bits start i : Z) : Prop :=
  0 <= i < bits ∧ bit bm i = false ∧
  ((start <= i ∧ ∀ k, start <= k < i → bit bm k = true) ∨
   (i < start ∧ ∀ k, start <= k < bits ∨ 0 <= k < i → bit bm k = true)).

Lemma scan_from_ok bm lo hi :
  0 <= lo → hi <= 8 * zlen bm → hi + 8 < 2 ^ 32 →
  ∃ r, scan_from bm lo hi = Some r ∧
    match r with
    | Some j => lo <= j < hi ∧ bit bm j = false ∧ ∀ k, lo <= k < j → bit bm k = true
    | None => ∀ k, lo <= k < hi → bit bm k = true
    end.
Proof. intros. apply scan_bits_ok; lia. Qed.

Lemma take_bit_in_ok bm bits start :
  Forall is_byte bm → 0 <= start → bits <= 8 * zlen bm → bits + 8 < 2 ^ 32 → 0 <= bits →
  ∃ r bm', take_bit_in bits start bm = Some (r, bm') ∧
    length bm' = length bm ∧ Forall is_byte bm' ∧
    match r with
    | Some i => first_clear bm bits start i ∧
                ∀ j, 0 <= j → bit bm' j = if j =? i then true else bit bm j
    | None => bm' = bm ∧ ∀ k, 0 <= k < bits → bit bm k = true
    end.
Proof.
  intros Hb Hs Hbits Hmax Hn. unfold take_bit_in. set (s := Z.min start bits). abstract_let s.
  destruct (scan_from_ok bm s bits) as (r1&E1&H1); [lia..|]. rewrite E1. cbn [mbind option_bind].
  assert (∀ i, first_clear bm bits start i →
    ∃ bm', bit_set bm i = Some bm' ∧ length bm' = length bm ∧ Forall is_byte bm' ∧
    ∀ j, 0 <= j → bit bm' j = if j =? i then true else bit bm j) as Hset.
  { intros i (?&_). apply bit_set_ok; [done|lia]. }
  destruct r1 as [i|]; cbn [mbind option_bind].
  - assert (first_clear bm bits start i) as Hi.
    { destruct H1 as (?&?&Hk). split_and!; [lia|lia|done|]. left. split; [lia|].
      intros k ?. apply Hk. lia. }
    destruct (Hset i Hi) as (bm'&->&?&?&?). by exists (Some i), bm'.
  - destruct (scan_from_ok bm 0 s) as (r2&E2&H2); [lia..|]. rewrite E2. cbn [mbind option_bind].
    destruct r2 as [i|].
    + assert (first_clear bm bits start i) as Hi.
      { destruct H2 as (?&?&Hk). split_and!; [lia|lia|done|]. right. split; [lia|].
        intros k [?|?]; [apply H1; lia|apply Hk; lia]. }
      destruct (Hset i Hi) as (bm'&->&?&?&?). by exists (Some i), bm'.
    + exists None, bm. split_and!; [done..|]. intros k ?.
      destruct (decide (k < s)); [apply H2; lia|apply H1; lia].
Qed.

(** Clearing a clear bit changes nothing. *)
Lemma bit_clear_id bm i :
  Forall is_byte bm → 0 <= i < 8 * zlen bm → bit bm i = false → bit_clear bm i = Some bm.
Proof.
  intros Hb Hi Hclear. destruct (div8_range _ _ Hi). unfold bit in Hclear.
  unfold bit_clear. rewrite zget_lookup by lia.
  destruct (lookup_lt_is_Some_2 bm (Z.to_nat (i / 8))) as [x Hx]; [lia|]. rewrite Hx in *. cbn.
  destruct (byte_clear x (i mod 8)) as [_ Hs]; [by eapply Forall_lookup_1|lia|].
  unfold zset. case_if; [|lia]. f_equal. apply list_insert_id. rewrite Hx. f_equal.
  apply Z.bits_inj'. intros j Hj. rewrite Hs by done.
  destruct (j =? i mod 8) eqn:Ej; bool_hyps; [|done]. by subst.
Qed.

Lemma clear_bit_in_ok bm i :
  Forall is_byte bm → 0 <= i < 8 * zlen bm →
  ∃ bm', clear_bit_in i bm = Some (bit bm i, bm') ∧
    length bm' = length bm ∧ Forall is_byte bm' ∧
    (∀ j, 0 <= j → bit bm' j = if j =? i then false else bit bm j) ∧
    (bit bm i = false → bm' = bm).
Proof.
  intros Hb Hi. unfold clear_bit_in. rewrite bit_free_ok by lia.
  destruct (bit_clear_ok bm i) as (bm'&E&?&?&?); [done|done|].
  exists bm'. cbn. rewrite E. cbn. rewrite negb_involutive. split_and!; try done.
  intros Hc. rewrite bit_clear_id in E by done. congruence.
Qed.

(** One bit changed changes the count by one. *)
Lemma count_free_ext bm bm' n :
  (∀ j, 0 <= j < Z.of_nat n → bit bm' j = bit bm j) → count_free bm' n = count_free bm n.
Proof.
  induction n as [|n IH]; intros E; cbn [count_free]; [done|].
  rewrite IH, E by (intros; try apply E; lia). done.
Qed.

Lemma count_free_update bm bm' i v n :
  (∀ j, 0 <= j → bit bm' j = if j =? i then v else bit bm j) →
  bit bm i = negb v → 0 <= i < Z.of_nat n →
  count_free bm' n = count_free bm n + (if v then -1 else 1).
Proof.
  intros E Hi. induction n as [|n IH]; intros Hn; [lia|]. cbn [count_free].
  rewrite E by lia. destruct (Z.of_nat n =? i) eqn:Ei; bool_hyps.
  - rewrite (count_free_ext bm bm' n).
    + rewrite Ei, Hi. destruct v; cbn; lia.
    + intros j Hj. rewrite E by lia. case_if; [lia|done].
  - rewrite IH by lia. lia.
Qed.

Lemma count_free_range bm n : 0 <= count_free bm n <= Z.of_nat n.
Proof. induction n; cbn [count_free]; [lia|]. destruct (bit _ _); lia. Qed.

Lemma count_free_zero bm n :
  count_free bm n = 0 ↔ ∀ k, 0 <= k < Z.of_nat n → bit bm k = true.
Proof.
  induction n as [|n IH]; cbn [count_free]; [split; [lia|done]|].
  pose proof (count_free_range bm n). destruct (bit bm (Z.of_nat n)) eqn:E; split.
  - intros Hz k Hk. destruct (decide (k = Z.of_nat n)) as [->|]; [done|]. apply IH; lia.
  - intros Hk. rewrite (proj2 IH); [done|]. intros. apply Hk. lia.
  - lia.
  - intros Hk. rewrite Hk in E by lia. done.
Qed.

End bitmap.

(** ** The state of the block allocator

    A block is in use when its bit is set in its group's bitmap.  [meta_inv]
    ties the bitmaps to the counts kept beside them. *)

Fixpoint sum_to (f : Z → Z) (n : nat) : Z :=
  match n with O => 0 | S n' => sum_to f n' + f (Z.of_nat n') end.

Lemma sum_to_ext f f' n :
  (∀ k, 0 <= k < Z.of_nat n → f' k = f k) → sum_to f' n = sum_to f n.
Proof.
  induction n as [|n IH]; intros E; cbn [sum_to]; [done|].
  rewrite IH, E by (intros; try apply E; lia). done.
Qed.

Lemma sum_to_update f f' g d n :
  0 <= g < Z.of_nat n → f' g = f g + d → (∀ k, 0 <= k < Z.of_nat n → k ≠ g → f' k = f k) →
  sum_to f' n = sum_to f n + d.
Proof.
  intros Hg Ed E. induction n as [|n IH]; [lia|]. cbn [sum_to].
  destruct (decide (g = Z.of_nat n)) as [->|].
  - rewrite (sum_to_ext f f' n), Ed; [lia|]. intros. apply E; lia.
  - rewrite IH, (E (Z.of_nat n)); [lia..|]. intros. apply E; lia.
Qed.

Section meta.
Context (geo : Geometry).
Implicit Types (sb gdt : list Z) (V : Z → option (list Z)) (g b : Z).

Definition bitmap_at gdt g : Z := default 0 (get32 gdt (g * GD_SIZE + G_BLOCK_BITMAP)).
Definition bitmap_of gdt V g : list Z := default [] (V (bitmap_at gdt g)).
Definition group_no b : Z := (b - first_data_block geo) / blocks_per_group geo.
Definition is_data b : Prop := first_data_block geo <= b < blocks_count geo.

Definition used gdt V b : bool :=
  bit (bitmap_of gdt V (group_no b)) (b - first_of geo (group_no b)).

Definition free_in gdt V g : Z := count_free (bitmap_of gdt V g) (Z.to_nat (len_of geo g)).
Definition total_free gdt V : Z := sum_to (free_in gdt V) (Z.to_nat (groups geo)).

Record meta_inv sb gdt (nd : nat) V : Prop := {
  mi_geo : wf_geo geo;
  mi_groups : groups geo < 2 ^ 31;
  mi_sb : zlen sb = SB_SIZE;
  mi_sb_bytes : Forall is_byte sb;
  mi_gdt : groups geo * GD_SIZE <= zlen gdt;
  mi_gdt_bytes : Forall is_byte gdt;
  mi_dirty : zlen gdt = Z.of_nat nd * block_size geo;
  mi_dev b : is_data b → ∃ d, V b = Some d ∧ is_block (block_size geo) d;
  mi_at g : 0 <= g < groups geo → is_data (bitmap_at gdt g);
  mi_inj g g' : 0 <= g < groups geo → 0 <= g' < groups geo →
    bitmap_at gdt g = bitmap_at gdt g' → g = g';
  mi_marked g : 0 <= g < groups geo → used gdt V (bitmap_at gdt g) = true;
  mi_count g : 0 <= g < groups geo →
    get16 gdt (g * GD_SIZE + G_FREE_BLOCKS) = Some (free_in gdt V g);
  mi_total : get32 sb S_FREE_BLOCKS = Some (total_free gdt V mod 2 ^ 32);
}.

Lemma group_no_range b :
  wf_geo geo → is_data b →
  0 <= group_no b < groups geo ∧
  0 <= b - first_of geo (group_no b) < len_of geo (group_no b).
Proof.
  intros Hg Hb. destruct (group_of_range geo Hg b Hb) as [H1 H2].
  unfold group_no. cbv zeta in *. lia.
Qed.

Lemma group_no_unique g i :
  wf_geo geo → 0 <= g < groups geo → 0 <= i < len_of geo g →
  group_no (first_of geo g + i) = g ∧ is_data (first_of geo g + i).
Proof.
  intros Hg H1 H2. split; [apply group_of_unique; [done|done|lia]|].
  pose proof (first_of_bound geo Hg g H1). unfold is_data, len_of, first_of in *.
  destruct Hg. nia.
Qed.

Lemma bitmap_of_block sb gdt nd V g :
  meta_inv sb gdt nd V → 0 <= g < groups geo →
  V (bitmap_at gdt g) = Some (bitmap_of gdt V g) ∧
  is_block (block_size geo) (bitmap_of gdt V g) ∧
  len_of geo g <= 8 * zlen (bitmap_of gdt V g).
Proof.
  intros Hm Hg. destruct (mi_dev _ _ _ _ Hm _ (mi_at _ _ _ _ Hm g Hg)) as (d&E&Hd).
  pose proof (mi_geo _ _ _ _ Hm) as Hgeo. pose proof (len_of_range geo Hgeo g Hg).
  unfold bitmap_of. rewrite E. cbn. split_and!; [done|done|].
  destruct Hd as [-> _]. destruct Hgeo. lia.
Qed.

(** A block that is not a bitmap may change: the allocator does not see it. *)
Lemma meta_inv_data sb gdt nd V b d :
  meta_inv sb gdt nd V → (∀ g, 0 <= g < groups geo → bitmap_at gdt g ≠ b) →
  is_block (block_size geo) d →
  meta_inv sb gdt nd (<[b := Some d]> V) ∧
  ∀ b', is_data b' → used gdt (<[b := Some d]> V) b' = used gdt V b'.
Proof.
  intros Hm Hb Hd. pose proof (mi_geo _ _ _ _ Hm) as Hgeo.
  assert (Ebm : ∀ g, 0 <= g < groups geo → bitmap_of gdt (<[b := Some d]> V) g = bitmap_of gdt V g).
  { intros g Hg. unfold bitmap_of. rewrite fn_lookup_insert_ne; [done|]. by apply not_eq_sym, Hb. }
  assert (Eu : ∀ b', is_data b' → used gdt (<[b := Some d]> V) b' = used gdt V b').
  { intros b' Hb'. unfold used. rewrite Ebm; [done|]. by apply group_no_range. }
  split; [|done]. pose proof (mi_at _ _ _ _ Hm) as Hat. destruct Hm. constructor; auto.
  - intros b' Hb'. destruct (decide (b' = b)) as [->|].
    + rewrite fn_lookup_insert. eauto.
    + rewrite fn_lookup_insert_ne by done. auto.
  - intros g Hg. rewrite Eu by auto. auto.
  - intros g Hg. unfold free_in. rewrite Ebm by done. by apply mi_count0.
  - rewrite mi_total0. unfold total_free. do 2 f_equal. apply sum_to_ext.
    intros k Hk. unfold free_in. rewrite Ebm; [done|lia].
Qed.

Lemma bitmap_at_changed gdt gdt' g g' :
  0 <= g → 0 <= g' → changed_at gdt gdt' (g * GD_SIZE + G_FREE_BLOCKS) 2 →
  bitmap_at gdt' g' = bitmap_at gdt g'.
Proof.
  intros Hg Hg' Hc. unfold bitmap_at. f_equal. eapply changed_at_get32; [done|].
  unfold GD_SIZE, G_FREE_BLOCKS, G_BLOCK_BITMAP. lia.
Qed.

(** Bit [i] of group [g] goes to [v], and the counts follow: the allocator's
    one step.  A block that is freed is not a bitmap. *)
Lemma meta_inv_update sb sb' gdt gdt' nd V g i v bm' :
  let delta := if v : bool then -1 else 1 in
  meta_inv sb gdt nd V → 0 <= g < groups geo → 0 <= i < len_of geo g →
  bit (bitmap_of gdt V g) i = negb v →
  is_block (block_size geo) bm' →
  (∀ j, 0 <= j → bit bm' j = if j =? i then v else bit (bitmap_of gdt V g) j) →
  (v = false → ∀ g', 0 <= g' < groups geo → bitmap_at gdt g' ≠ first_of geo g + i) →
  changed_at gdt gdt' (g * GD_SIZE + G_FREE_BLOCKS) 2 →
  get16 gdt' (g * GD_SIZE + G_FREE_BLOCKS) = Some (free_in gdt V g + delta) →
  changed_at sb sb' S_FREE_BLOCKS 4 →
  get32 sb' S_FREE_BLOCKS = Some ((total_free gdt V + delta) mod 2 ^ 32) →
  meta_inv sb' gdt' nd (<[bitmap_at gdt g := Some bm']> V) ∧
  ∀ b, is_data b →
    used gdt' (<[bitmap_at gdt g := Some bm']> V) b =
    if b =? first_of geo g + i then v else used gdt V b.
Proof.
  intros delta Hm Hg Hi Hold Hbm' Hbits Hfree Hcg Hg16 Hcs Hs32.
  pose proof (mi_geo _ _ _ _ Hm) as Hgeo. set (V' := <[bitmap_at gdt g := Some bm']> V).
  assert (Eat : ∀ g', 0 <= g' < groups geo → bitmap_at gdt' g' = bitmap_at gdt g').
  { intros g' Hg'. eapply bitmap_at_changed; [..|done]; lia. }
  assert (Ebm : ∀ g', 0 <= g' < groups geo →
    bitmap_of gdt' V' g' = if decide (g' = g) then bm' else bitmap_of gdt V g').
  { intros g' Hg'. unfold bitmap_of, V'. rewrite Eat by done. case_decide as E.
    - subst. by rewrite fn_lookup_insert.
    - rewrite fn_lookup_insert_ne; [done|]. intros E'. apply E. symmetry.
      by eapply mi_inj. }
  assert (Eu : ∀ b, is_data b → used gdt' V' b = if b =? first_of geo g + i then v else used gdt V b).
  { intros b Hb. destruct (group_no_range b Hgeo Hb) as [Hn Hr]. unfold used. rewrite Ebm by done.
    case_decide as E.
    - rewrite E in Hr |- *. rewrite Hbits by lia. destruct (b =? first_of geo g + i) eqn:?; bool_hyps.
      + by replace (b - first_of geo g =? i) with true by lia.
      + by replace (b - first_of geo g =? i) with false by lia.
    - destruct (b =? first_of geo g + i) eqn:Eb; bool_hyps; [|done]. subst.
      by rewrite (proj1 (group_no_unique g i Hgeo Hg Hi)) in E. }
  assert (Ef : ∀ g', 0 <= g' < groups geo →
    free_in gdt' V' g' = if decide (g' = g) then free_in gdt V g + delta else free_in gdt V g').
  { intros g' Hg'. unfold free_in. rewrite Ebm by done. case_decide as E; [|done]. subst.
    eapply count_free_update; [done|done|]. pose proof (len_of_range geo Hgeo g Hg). lia. }
  split; [|done]. pose proof (mi_at _ _ _ _ Hm) as Hat.
  destruct Hcg as (Elg&Ebg&Esg), Hcs as (Els&Ebs&Ess). destruct Hm. constructor; auto.
  - by rewrite Els.
  - by rewrite Elg.
  - by rewrite Elg.
  - intros b Hb. unfold V'. destruct (decide (b = bitmap_at gdt g)) as [->|].
    + rewrite fn_lookup_insert. eauto.
    + rewrite fn_lookup_insert_ne by done. auto.
  - intros g' Hg'. rewrite Eat by done. auto.
  - intros g1 g2 H1 H2. rewrite !Eat by done. auto.
  - intros g' Hg'. rewrite Eat, Eu by auto. case_if; [|auto].
    destruct v; [done|]. exfalso. by apply (Hfree eq_refl g').
  - intros g' Hg'. rewrite Ef by done. case_decide as E; [by subst|].
    rewrite <-mi_count0 by done. unfold get16. rewrite Esg; [done|].
    unfold GD_SIZE, G_FREE_BLOCKS. lia.
  - rewrite Hs32. unfold total_free. do 2 f_equal. symmetry.
    apply sum_to_update with g; [lia| |].
    + rewrite Ef by lia. by rewrite decide_True.
    + intros k Hk Hne. rewrite Ef by lia. by rewrite decide_False.
Qed.

End meta.

Section alloc.
Context {D : Type} `{DeviceLaws D}.
Implicit Types (fs : Fs D) (V : Z → option (list Z)).

Definition alloc_inv fs V : Prop :=
  cache_at (block_size (geo fs)) (cache fs) V ∧
  meta_inv (geo fs) (sb fs) (gdt fs) (length (gdt_dirty fs)) V.

Lemma cache_at_ext bs (c : Cache D) V V' :
  cache_at bs c V → (∀ b, V' b = V b) → cache_at bs c V'.
Proof. intros [Hc HV] E. split; [done|]. intros b. by rewrite E. Qed.

Lemma is_data_number (g : Geometry) b : wf_geo g → is_data g b → is_number b.
Proof. intros []. unfold is_data, is_number, U32_MAX. lia. Qed.

Lemma gd16_add_spec fs g field delta v :
  0 <= g → 0 <= field <= 30 → (g + 1) * GD_SIZE <= zlen (gdt fs) →
  zlen (gdt fs) = zlen (gdt_dirty fs) * block_size (geo fs) → 0 < block_size (geo fs) →
  get16 (gdt fs) (g * GD_SIZE + field) = Some v →
  wp (gd16_add g field delta) (λ r fs', r = Ok tt ∧ ∃ b dirty,
    fs' = with_gdt fs b dirty ∧ length dirty = length (gdt_dirty fs) ∧
    changed_at (gdt fs) b (g * GD_SIZE + field) 2 ∧
    get16 b (g * GD_SIZE + field) = Some ((v + delta) mod 2 ^ 16)) fs.
Proof.
  intros Hg Hf Hl Hd Hbs Hv. unfold gd16_add, GD_SIZE in *. wp_steps.
  apply (wp_checked _ v); [done|]. wp_steps.
  destruct (put16_ok (gdt fs) (g * 32 + field) ((v + delta) mod 2 ^ 16)) as (b&Eb&Hc&Hr); [lia..|].
  apply (wp_checked _ b); [done|]. wp_steps.
  eapply wp_checked; [unfold udiv; case_if; [lia|done]|]. wp_steps.
  set (i := (g * 32 + field) / block_size (geo fs)).
  assert (0 <= i < zlen (gdt_dirty fs)).
  { unfold i. split; [apply Z.div_pos; lia|]. apply Z.div_lt_upper_bound; lia. }
  eapply wp_checked; [unfold zset; case_if; [done|lia]|]. wp_steps.
  split; [done|]. exists b, (<[Z.to_nat i := true]> (gdt_dirty fs)).
  split_and!; [done|by rewrite length_insert|done|]. apply Hr. apply Z.mod_pos_bound. lia.
Qed.

Lemma sb32_add_spec fs field delta v :
  0 <= field → field + 4 <= zlen (sb fs) → get32 (sb fs) field = Some v →
  wp (sb32_add field delta) (λ r fs', r = Ok tt ∧ ∃ b,
    fs' = with_sb fs b true ∧ changed_at (sb fs) b field 4 ∧
    get32 b field = Some ((v + delta) mod 2 ^ 32)) fs.
Proof.
  intros Hf Hl Hv. unfold sb32_add. wp_steps. apply (wp_checked _ v); [done|]. wp_steps.
  destruct (put32_ok (sb fs) field ((v + delta) mod 2 ^ 32)) as (b&Eb&Hc&Hr); [lia..|].
  apply (wp_checked _ b); [done|]. wp_steps. split; [done|]. exists b. split_and!; [done|done|].
  apply Hr. apply Z.mod_pos_bound. lia.
Qed.

(** The bitmap of group [g] was changed at bit [i], to [v]; the counts follow. *)
Lemma count_step_spec fs V g i v bm' c :
  let delta := if v : bool then -1 else 1 in
  let V' := <[bitmap_at (gdt fs) g := Some bm']> V in
  meta_inv (geo fs) (sb fs) (gdt fs) (length (gdt_dirty fs)) V →
  0 <= g < groups (geo fs) → 0 <= i < len_of (geo fs) g →
  bit (bitmap_of (gdt fs) V g) i = negb v →
  is_block (block_size (geo fs)) bm' →
  (∀ j, 0 <= j → bit bm' j = if j =? i then v else bit (bitmap_of (gdt fs) V g) j) →
  (v = false → ∀ g', 0 <= g' < groups (geo fs) →
     bitmap_at (gdt fs) g' ≠ first_of (geo fs) g + i) →
  cache_at (block_size (geo fs)) c V' →
  wp (_ ← gd16_add g G_FREE_BLOCKS delta; sb32_add S_FREE_BLOCKS delta)
    (λ r fs', r = Ok tt ∧ alloc_inv fs' V' ∧ geo fs' = geo fs ∧ cache fs' = c ∧
       (∀ g', 0 <= g' → bitmap_at (gdt fs') g' = bitmap_at (gdt fs) g') ∧
       ∀ b, is_data (geo fs) b →
         used (geo fs) (gdt fs') V' b =
         if b =? first_of (geo fs) g + i then v else used (geo fs) (gdt fs) V b)
    (with_cache fs c).
Proof.
  intros delta V' Hm Hg Hi Hold Hbm' Hbits Hfree Hc.
  pose proof (mi_geo _ _ _ _ _ Hm) as Hgeo. pose proof (len_of_range _ Hgeo g Hg).
  assert (Hbs : 0 < block_size (geo fs) <= 4096) by (destruct Hgeo; lia).
  pose proof (count_free_range (bitmap_of (gdt fs) V g) (Z.to_nat (len_of (geo fs) g))) as Hcnt.
  wp_steps. eapply wp_mono; [eapply gd16_add_spec|].
  - lia.
  - unfold G_FREE_BLOCKS. lia.
  - pose proof (mi_gdt _ _ _ _ _ Hm). unfold GD_SIZE in *. cbn [gdt with_cache]. lia.
  - exact (mi_dirty _ _ _ _ _ Hm).
  - apply Hbs.
  - exact (mi_count _ _ _ _ _ Hm g Hg).
  - intros r fs1 (->&b&dirty&->&Hld&Hcg&Hg16). cbn [with_cache gdt gdt_dirty] in *.
    eapply wp_mono; [eapply sb32_add_spec|].
    + unfold S_FREE_BLOCKS. lia.
    + cbn. rewrite (mi_sb _ _ _ _ _ Hm). unfold SB_SIZE, S_FREE_BLOCKS. lia.
    + exact (mi_total _ _ _ _ _ Hm).
    + intros r fs2 (->&sb'&->&Hcs&Hs32). cbn [with_cache with_gdt with_sb sb] in Hcs, Hs32.
      rewrite Zplus_mod_idemp_l in Hs32.
      assert (E16 : (free_in (geo fs) (gdt fs) V g + delta) mod 2 ^ 16 =
                    free_in (geo fs) (gdt fs) V g + delta).
      { apply Z.mod_small. destruct (wg_bpg _ Hgeo). unfold free_in, delta.
        destruct v; [|lia].
        assert (count_free (bitmap_of (gdt fs) V g) (Z.to_nat (len_of (geo fs) g)) ≠ 0); [|lia].
        rewrite count_free_zero. intros Hall. rewrite Hall in Hold by lia. done. }
      rewrite E16 in Hg16.
      destruct (meta_inv_update (geo fs) (sb fs) sb' (gdt fs) b (length (gdt_dirty fs)) V g i v bm')
        as [Hm' Hu]; try done.
      split_and!; try done.
      * split; [done|]. cbn [with_cache with_gdt with_sb geo sb gdt gdt_dirty]. by rewrite Hld.
      * intros g' Hg'. eapply bitmap_at_changed; [..|done]; lia.
Qed.

(** Every block of the groups the search visited is in use. *)
Definition group_full fs V g : Prop :=
  ∀ i, 0 <= i < len_of (geo fs) g → bit (bitmap_of (gdt fs) V g) i = true.

(** What [alloc_block] did when it gave block [b]. *)
Definition allocated fs V b fs' V' : Prop :=
  is_data (geo fs) b ∧ used (geo fs) (gdt fs) V b = false ∧
  V' b = Some (zeros (block_size (geo fs))) ∧
  (∀ b', is_data (geo fs) b' →
     used (geo fs) (gdt fs') V' b' = (b' =? b) || used (geo fs) (gdt fs) V b') ∧
  (∀ b', b' ≠ b → (∀ g, 0 <= g < groups (geo fs) → bitmap_at (gdt fs) g ≠ b') → V' b' = V b').

(** [fs'] is the same filesystem as [fs], bitmaps in the same places. *)
Definition same_layout fs fs' : Prop :=
  geo fs' = geo fs ∧ ∀ g, 0 <= g → bitmap_at (gdt fs') g = bitmap_at (gdt fs) g.

Lemma take_bit_spec fs V g start :
  alloc_inv fs V → 0 <= g < groups (geo fs) → 0 <= start →
  wp (take_bit (bitmap_at (gdt fs) g) (len_of (geo fs) g) start) (λ r fs',
    ∃ c, fs' = with_cache fs c ∧
    match r with
    | Ok None => cache_at (block_size (geo fs)) c V ∧ group_full fs V g
    | Ok (Some i) => ∃ bm', is_block (block_size (geo fs)) bm' ∧
        cache_at (block_size (geo fs)) c (<[bitmap_at (gdt fs) g := Some bm']> V) ∧
        first_clear (bitmap_of (gdt fs) V g) (len_of (geo fs) g) start i ∧
        ∀ j, 0 <= j → bit bm' j = if j =? i then true else bit (bitmap_of (gdt fs) V g) j
    | Err e => e = Io ∧ faulty (D := D) ∧ cache_at (block_size (geo fs)) c V
    end) fs.
Proof.
  intros [Hc Hm] Hg Hs. pose proof (mi_geo _ _ _ _ _ Hm) as Hgeo.
  destruct (bitmap_of_block _ _ _ _ _ _ Hm Hg) as (EV&[Hl Hb]&Hlen).
  pose proof (len_of_range _ Hgeo g Hg) as Hr.
  assert (Hbs : block_size (geo fs) <= 4096) by (destruct Hgeo; lia).
  pose proof (wg_bpg _ Hgeo) as Hbpg.
  set (bm := bitmap_of (gdt fs) V g) in *. apply wp_zoom.
  eapply wp_mono; [eapply (modify_spec _ _ V)|].
  - done.
  - eapply is_data_number; [done|]. by eapply mi_at.
  - intros data Ed _. rewrite EV in Ed. injection Ed as <-.
    destruct (take_bit_in_ok bm (len_of (geo fs) g) start) as (r&bm'&E&El&Eby&_);
      [done|done|lia..|].
    exists r, bm'. split; [done|]. split; [lia|done].
  - intros r c' Hr'. exists c'. split; [done|]. destruct r as [r|e].
    + destruct Hr' as (data&bm'&Ed&_&Ef&Hblk&Hat). rewrite EV in Ed. injection Ed as <-.
      destruct (take_bit_in_ok bm (len_of (geo fs) g) start) as (r0&bm0&E&El&Eby&Hres);
        [done|done|lia..|].
      rewrite E in Ef. injection Ef as -> ->. destruct r as [i|].
      * destruct Hres. by exists bm'.
      * destruct Hres as [-> Hfull]. split; [|done]. eapply cache_at_ext; [done|].
        intros b. destruct (decide (b = bitmap_at (gdt fs) g)) as [->|].
        -- by rewrite fn_lookup_insert.
        -- by rewrite fn_lookup_insert_ne.
    + destruct Hr' as (->&Hat&[?|?]); [congruence|done].
Qed.

Lemma bitmap_at_get fs V g :
  alloc_inv fs V → 0 <= g < groups (geo fs) →
  gd32 fs g G_BLOCK_BITMAP = Some (bitmap_at (gdt fs) g) ∧ is_data (geo fs) (bitmap_at (gdt fs) g).
Proof.
  intros [_ Hm] Hg. split; [|by eapply mi_at]. unfold gd32, bitmap_at.
  destruct (get32_ok (gdt fs) (g * GD_SIZE + G_BLOCK_BITMAP)) as [v ->]; [| |done];
    pose proof (mi_gdt _ _ _ _ _ Hm); unfold GD_SIZE, G_BLOCK_BITMAP in *; lia.
Qed.

Definition alloc_failed fs (e : Error) fs' : Prop :=
  e = Io ∧ faulty (D := D) ∧ ∃ V', alloc_inv fs' V' ∧ same_layout fs fs'.

(** The end of a successful turn: the block is zeroed and remembered. *)
Lemma zero_new_spec fs V fs1 V1 b :
  alloc_inv fs1 V1 → same_layout fs fs1 → is_data (geo fs) b →
  used (geo fs) (gdt fs) V b = false →
  (∀ g, 0 <= g < groups (geo fs) → used (geo fs) (gdt fs) V (bitmap_at (gdt fs) g) = true) →
  (∀ b', is_data (geo fs) b' →
     used (geo fs) (gdt fs1) V1 b' = if b' =? b then true else used (geo fs) (gdt fs) V b') →
  (∀ b', (∀ g, 0 <= g < groups (geo fs) → bitmap_at (gdt fs) g ≠ b') → V1 b' = V b') →
  wp (_ ← on_cache (zero b); fs ← get_state; last ← checked (add32 b 1);
      _ ← set_state (with_last fs last); mret (Some b))
    (λ r fs', match r with
     | Ok o => o = Some b ∧ ∃ V', alloc_inv fs' V' ∧ same_layout fs fs' ∧ allocated fs V b fs' V'
     | Err e => alloc_failed fs e fs'
     end) fs1.
Proof.
  intros [Hc Hm] [Eg Eat] Hb Hfree Hmark Hu Hv.
  pose proof (mi_geo _ _ _ _ _ Hm) as Hgeo. rewrite Eg in Hgeo.
  assert (Hnb : ∀ g, 0 <= g < groups (geo fs) → bitmap_at (gdt fs) g ≠ b).
  { intros g Hg E. rewrite <-E, Hmark in Hfree by done. done. }
  assert (Hz : is_block (block_size (geo fs1)) (zeros (block_size (geo fs1)))).
  { split; unfold zeros; [rewrite Eg; destruct Hgeo; zn|].
    apply Forall_replicate. unfold is_byte. lia. }
  wp_steps. apply wp_zoom. eapply wp_mono; [eapply (zero_spec _ _ V1)|].
  - done.
  - by eapply is_data_number.
  - destruct (mi_dev _ _ _ _ _ Hm b) as (d&->&_); [by rewrite Eg|done].
  - intros [[]|e] c1 Hr.
    + wp_steps. apply (wp_checked _ (b + 1)).
      { unfold add32, fits. destruct Hgeo, Hb. case_if; [done|lia]. }
      wp_steps. split; [done|].
      destruct (meta_inv_data _ _ _ _ _ b (zeros (block_size (geo fs1))) Hm) as [Hm2 Hu2]; [|done|].
      { intros g Hg. rewrite Eat by lia. apply Hnb. by rewrite <-Eg. }
      exists (<[b := Some (zeros (block_size (geo fs1)))]> V1). split_and!.
      * by split.
      * done.
      * split_and!; [done|done|by rewrite fn_lookup_insert, Eg| |].
        -- intros b' Hb'. cbn [with_last with_cache gdt]. rewrite <-Eg, Hu2 by (by rewrite Eg).
           rewrite Eg, Hu by done. by destruct (b' =? b).
        -- intros b' Hne Hb'. rewrite fn_lookup_insert_ne by done. auto.
    + destruct Hr as (->&Hat&Hf). split_and!; [done| |].
      * destruct Hf as [Hf|Hf]; [|done]. destruct (mi_dev _ _ _ _ _ Hm b) as (d&?&_);
          [by rewrite Eg|congruence].
      * exists V1. split; [by split|exact (conj Eg Eat)].
Qed.

Lemma alloc_block_in_spec fs V g0 goal k :
  alloc_inv fs V → 0 <= g0 < groups (geo fs) → 0 <= k < groups (geo fs) →
  wp (alloc_block_in g0 goal k) (λ r fs', match r with
    | Ok None => ∃ c, fs' = with_cache fs c ∧ cache_at (block_size (geo fs)) c V ∧
                   group_full fs V ((g0 + k) mod groups (geo fs))
    | Ok (Some b) => ∃ V', alloc_inv fs' V' ∧ same_layout fs fs' ∧ allocated fs V b fs' V'
    | Err e => alloc_failed fs e fs'
    end) fs.
Proof.
  intros Ha Hg0 Hk. pose proof Ha as [Hc Hm]. pose proof (mi_geo _ _ _ _ _ Hm) as Hgeo.
  pose proof (mi_groups _ _ _ _ _ Hm). set (g := (g0 + k) mod groups (geo fs)).
  assert (Hg : 0 <= g < groups (geo fs)) by (apply Z.mod_pos_bound; lia).
  destruct (mi_at _ _ _ _ _ Hm g Hg) as [Hat1 Hat2].
  pose proof (len_of_range _ Hgeo g Hg) as Hlen.
  unfold alloc_block_in. wp_steps. apply (wp_checked _ (g0 + k)).
  { unfold add32, fits. case_if; [done|lia]. }
  wp_steps. apply (wp_checked _ g); [unfold umod; case_if; [lia|done]|]. wp_steps.
  eapply wp_checked; [exact (mi_count _ _ _ _ _ Hm g Hg)|].
  destruct (free_in (geo fs) (gdt fs) V g =? 0) eqn:Ef; bool_hyps; wp_steps.
  { exists (cache fs). split_and!; [by destruct fs|done|]. intros i Hi.
    apply (proj1 (count_free_zero _ _) Ef). lia. }
  eapply wp_checked; [by apply group_first_ok|]. wp_steps.
  destruct (bitmap_at_get fs V g Ha Hg) as (Eb&_).
  eapply wp_checked; [exact Eb|]. wp_steps.
  eapply wp_checked; [by apply group_blocks_ok|]. wp_steps.
  eapply wp_mono; [eapply take_bit_spec; [done|done|destruct (k =? 0); lia]|].
  intros [[i|]|e] fs1 (c1&->&Hr); wp_steps; [|by exists c1|].
  2:{ destruct Hr as (->&?&?). split_and!; [done|done|]. exists V. split; [by split|by split]. }
  destruct Hr as (bm'&Hblk&Hat&(Hi&Hclear&_)&Hbits).
  destruct (group_no_unique _ g i Hgeo Hg Hi) as [Eno Hd].
  apply wp_assoc. eapply wp_mono;
    [eapply (count_step_spec fs V g i true bm' c1); try done|].
  intros r fs2 (->&Ha2&Eg2&Ec2&Eat2&Hu2). wp_steps. apply (wp_checked _ (first_of (geo fs) g + i)).
  { unfold add32, fits. unfold is_data in Hd. destruct Hgeo. case_if; [done|lia]. }
  eapply wp_mono; [eapply zero_new_spec|]; [done|by split|done| | |done| |].
  - unfold used. rewrite Eno. by replace (first_of (geo fs) g + i - first_of (geo fs) g) with i by lia.
  - intros g' Hg'. by eapply mi_marked.
  - intros b' Hb'. apply fn_lookup_insert_ne. by apply Hb'.
  - intros [o|e] fs3; [by intros [-> ?]|done].
Qed.

Lemma group_of_block_total (g : Geometry) b :
  wf_geo g → ∃ n, group_of_block g b = Some n ∧ 0 <= n.
Proof.
  intros []. unfold group_of_block, udiv. case_if; [lia|]. eexists. split; [done|].
  apply Z.div_pos; lia.
Qed.

(** Every group comes up in the round the search makes from [g0]. *)
Lemma round_covers g0 n g : 0 <= g0 < n → 0 <= g < n → ∃ k, 0 <= k < n ∧ (g0 + k) mod n = g.
Proof.
  intros. exists ((g - g0) mod n). split; [apply Z.mod_pos_bound; lia|].
  rewrite Zplus_mod_idemp_r. replace (g0 + (g - g0)) with g by lia. apply Z.mod_small. lia.
Qed.

Lemma all_full fs V g0 :
  wf_geo (geo fs) → 0 <= g0 < groups (geo fs) →
  (∀ k, 0 <= k < groups (geo fs) → group_full fs V ((g0 + k) mod groups (geo fs))) →
  ∀ b, is_data (geo fs) b → used (geo fs) (gdt fs) V b = true.
Proof.
  intros Hgeo Hg0 Hfull b Hb. destruct (group_no_range _ b Hgeo Hb) as [Hn Hi].
  destruct (round_covers g0 _ _ Hg0 Hn) as (k&Hk&E). unfold used.
  rewrite <-E at 1. apply Hfull; [done|]. by rewrite E.
Qed.

(** The outcome of [alloc_block]. *)
Definition alloc_outcome fs V (r : result Error Z) fs' : Prop :=
  same_layout fs fs' ∧
  match r with
  | Ok b => ∃ V', alloc_inv fs' V' ∧ allocated fs V b fs' V'
  | Err NoSpace => alloc_inv fs' V ∧ ∀ b, is_data (geo fs) b → used (geo fs) (gdt fs) V b = true
  | Err e => e = Io ∧ faulty (D := D) ∧ ∃ V', alloc_inv fs' V'
  end.

Lemma alloc_block_spec fs V : alloc_inv fs V → wp alloc_block (alloc_outcome fs V) fs.
Proof.
  intros Ha. pose proof Ha as [Hc Hm]. pose proof (mi_geo _ _ _ _ _ Hm) as Hgeo.
  pose proof (groups_pos _ Hgeo). unfold alloc_block. wp_steps.
  destruct (group_of_block_total (geo fs) (last_alloc fs) Hgeo) as (gb&Egb&Hgb).
  apply (wp_checked _ gb); [done|]. wp_steps.
  apply (wp_checked _ (groups (geo fs) - 1)); [unfold usub; case_if; [done|lia]|]. wp_steps.
  set (g0 := Z.min gb (groups (geo fs) - 1)). set (n := groups (geo fs)).
  assert (Hg0 : 0 <= g0 < n) by lia. clearbody g0.
  apply (wp_find_m _ (λ l fs1, ∃ c, fs1 = with_cache fs c ∧ cache_at (block_size (geo fs)) c V ∧
    (∀ k, k ∈ l → 0 <= k < n) ∧
    ∀ k, 0 <= k < n → k ∈ l ∨ group_full fs V ((g0 + k) mod n))).
  - exists (cache fs). split_and!; [by destruct fs|done|..]; intros k; rewrite elem_of_seqZ; lia.
  - intros k l' fs1 (c&->&Hcj&Hl&Hfull).
    eapply wp_mono; [apply (alloc_block_in_spec (with_cache fs c) V g0 (last_alloc fs) k);
      [by split|done|apply Hl; by constructor]|].
    intros [[b|]|e] fs2 Hr; wp_steps.
    + destruct Hr as (V'&?&?&?). split; [done|]. by exists V'.
    + destruct Hr as (c2&->&Hc2&Hk). exists c2. split_and!; [done|done| |].
      * intros k' Hk'. apply Hl. by constructor.
      * intros k' Hk'. destruct (Hfull k' Hk') as [[->|?]%elem_of_cons|?]; auto.
    + destruct Hr as (->&?&V'&?&?). split; [done|]. split_and!; [done|done|eauto].
  - intros fs1 (c&->&Hcj&_&Hfull). wp_steps. split; [done|]. split; [by split|].
    apply (all_full fs V g0); [done|done|]. intros k Hk.
    destruct (Hfull k Hk) as [[]%elem_of_nil|?]; done.
Qed.

(** C27: block allocation.  On a filesystem whose counts agree with its
    bitmaps, [alloc_block] never panics and keeps them in agreement.  A block
    it returns is a data block that was free, is now marked in use, alone,
    and is zeroed, and nothing but it and the bitmaps changed.  It reports
    [NoSpace] only when no block was free.  Otherwise it fails only if the
    device does, and even then the counts still agree. *)
Theorem alloc_block_correct fs V :
  alloc_inv fs V →
  ∃ r fs', alloc_block fs = Some (r, fs') ∧ same_layout fs fs' ∧
    match r with
    | Ok b => ∃ V', alloc_inv fs' V' ∧ allocated fs V b fs' V'
    | Err NoSpace =>
        alloc_inv fs' V ∧ ∀ b, is_data (geo fs) b → used (geo fs) (gdt fs) V b = true
    | Err e => e = Io ∧ faulty (D := D) ∧ ∃ V', alloc_inv fs' V'
    end.
Proof. intros Ha. by apply (wp_run alloc_block (alloc_outcome fs V)), alloc_block_spec. Qed.

(** The outcome of [free_block b] for a data block that is not a bitmap. *)
Definition free_outcome fs V b (r : result Error ()) fs' : Prop :=
  same_layout fs fs' ∧
  match r with
  | Ok _ => ∃ V', alloc_inv fs' V' ∧
      (∀ b', is_data (geo fs) b' →
         used (geo fs) (gdt fs') V' b' = negb (b' =? b) && used (geo fs) (gdt fs) V b') ∧
      (∀ b', (∀ g, 0 <= g < groups (geo fs) → bitmap_at (gdt fs) g ≠ b') → V' b' = V b')
  | Err e => e = Io ∧ faulty (D := D) ∧ alloc_inv fs' V
  end.

Lemma clear_bit_spec fs V g i :
  alloc_inv fs V → 0 <= g < groups (geo fs) → 0 <= i < len_of (geo fs) g →
  wp (clear_bit (bitmap_at (gdt fs) g) i) (λ r fs',
    ∃ c, fs' = with_cache fs c ∧
    match r with
    | Ok was => was = bit (bitmap_of (gdt fs) V g) i ∧
        ∃ bm', is_block (block_size (geo fs)) bm' ∧
        cache_at (block_size (geo fs)) c (<[bitmap_at (gdt fs) g := Some bm']> V) ∧
        (∀ j, 0 <= j → bit bm' j = if j =? i then false else bit (bitmap_of (gdt fs) V g) j) ∧
        (was = false → bm' = bitmap_of (gdt fs) V g)
    | Err e => e = Io ∧ faulty (D := D) ∧ cache_at (block_size (geo fs)) c V
    end) fs.
Proof.
  intros [Hc Hm] Hg Hi. pose proof (mi_geo _ _ _ _ _ Hm) as Hgeo.
  destruct (bitmap_of_block _ _ _ _ _ _ Hm Hg) as (EV&[Hl Hb]&Hlen).
  set (bm := bitmap_of (gdt fs) V g) in *.
  destruct (clear_bit_in_ok bm i) as (bm'&E&El&Eby&Hbits&Hid); [done|lia|].
  apply wp_zoom. eapply wp_mono; [eapply (modify_spec _ _ V)|].
  - done.
  - eapply is_data_number; [done|]. by eapply mi_at.
  - intros data Ed _. rewrite EV in Ed. injection Ed as <-. exists (bit bm i), bm'.
    split; [done|]. split; [lia|done].
  - intros r c' Hr'. exists c'. split; [done|]. destruct r as [was|e].
    + destruct Hr' as (data&bm0&Ed&_&Ef&Hblk&Hat). rewrite EV in Ed. injection Ed as <-.
      rewrite E in Ef. injection Ef as <- <-. split; [done|]. by exists bm'.
    + destruct Hr' as (->&Hat&[?|?]); [congruence|done].
Qed.

Lemma free_block_spec fs V b :
  alloc_inv fs V → is_data (geo fs) b →
  (∀ g, 0 <= g < groups (geo fs) → bitmap_at (gdt fs) g ≠ b) →
  wp (free_block b) (free_outcome fs V b) fs.
Proof.
  intros Ha Hb Hnb. pose proof Ha as [Hc Hm]. pose proof (mi_geo _ _ _ _ _ Hm) as Hgeo.
  destruct (group_no_range _ b Hgeo Hb) as [Hg Hi]. set (g := group_no (geo fs) b) in *.
  destruct (bitmap_of_block _ _ _ _ _ _ Hm Hg) as (EV&_&_).
  unfold free_block. wp_steps. unfold is_data in Hb. case_if.
  { apply orb_true_iff in Heqb0. bool_hyps. destruct Heqb0; bool_hyps; lia. }
  wp_steps. apply (wp_checked _ g); [apply group_of_block_ok; [done|lia]|]. wp_steps.
  eapply wp_checked; [by eapply bitmap_at_get|]. wp_steps.
  eapply wp_checked; [by apply group_first_ok|]. wp_steps.
  apply (wp_checked _ (b - first_of (geo fs) g)); [unfold usub; case_if; [done|lia]|]. wp_steps.
  eapply wp_mono; [by apply (clear_bit_spec fs V g)|]. intros [was|e] fs1 (c1&->&Hr).
  2:{ destruct Hr as (->&?&?). split; [done|]. split_and!; [done|done|by split]. }
  destruct Hr as (Ew&bm'&Hblk&Hat&Hbits&Hid). change (bit _ _) with (used (geo fs) (gdt fs) V b) in Ew.
  assert (Eb : first_of (geo fs) g + (b - first_of (geo fs) g) = b) by lia.
  destruct was.
  - eapply wp_mono; [apply (count_step_spec fs V g (b - first_of (geo fs) g) false bm' c1); try done|].
    { intros _. by rewrite Eb. }
    intros r fs2 (->&Ha2&Eg2&_&Eat2&Hu2). split; [done|]. rewrite Eb in Hu2.
    eexists. split_and!; [done| |].
    + intros b' Hb'. rewrite Hu2 by done. by destruct (b' =? b).
    + intros b' Hb'. apply fn_lookup_insert_ne. by apply Hb'.
  - wp_steps. split; [done|]. exists V. split_and!; [|intros b' Hb'|done].
    + split; [|done]. eapply cache_at_ext; [done|]. intros b'. rewrite (Hid eq_refl).
      destruct (decide (b' = bitmap_at (gdt fs) g)) as [->|].
      * by rewrite fn_lookup_insert.
      * by rewrite fn_lookup_insert_ne.
    + destruct (b' =? b) eqn:E; bool_hyps; [subst|done]. by rewrite <-Ew.
Qed.

(** Freeing.  [free_block] refuses a block outside the filesystem, and
    for a data block that holds no bitmap it never panics: it marks exactly
    that block free, twice if need be, changes no other block, and keeps the
    counts in agreement with the bitmaps.  It fails only if the device does,
    and then nothing changed. *)
Theorem free_block_correct fs V b :
  alloc_inv fs V →
  (∀ g, 0 <= g < groups (geo fs) → bitmap_at (gdt fs) g ≠ b) →
  (¬ is_data (geo fs) b → free_block b fs = Some (Err Invalid, fs)) ∧
  (is_data (geo fs) b → ∃ r fs', free_block b fs = Some (r, fs') ∧ free_outcome fs V b r fs').
Proof.
  intros Ha Hnb. split.
  - intros Hb. unfold free_block, mbind, prog_bind. cbn.
    unfold is_data in Hb. case_if; [done|]. lia.
  - intros Hb. by apply (wp_run (free_block b) (free_outcome fs V b)), free_block_spec.
Qed.

Lemma sum_to_le f f' n :
  (∀ k, 0 <= k < Z.of_nat n → 0 <= f k <= f' k) → 0 <= sum_to f n <= sum_to f' n.
Proof.
  induction n as [|n IH]; intros Hf; cbn [sum_to]; [lia|].
  pose proof (Hf (Z.of_nat n)). destruct IH; [intros; apply Hf; lia|]. lia.
Qed.

Lemma sum_len_of (g : Geometry) n :
  wf_geo g → (Z.of_nat n <= groups g) →
  sum_to (len_of g) n = Z.min (Z.of_nat n * blocks_per_group g) (blocks_count g - first_data_block g).
Proof.
  intros Hg. induction n as [|n IH]; intros Hn; cbn [sum_to]; [destruct Hg; lia|].
  rewrite IH by lia. unfold len_of, first_of. destruct Hg. nia.
Qed.

(** [usage] is exact.  The counts it reports never panic, and the free
    blocks are the clear bits of all the groups' bitmaps, at most the blocks
    there are: the superblock's 32-bit count has not wrapped. *)
Theorem usage_exact fs V :
  alloc_inv fs V →
  ∃ u, usage fs = Some u ∧
    u_blocks u = blocks_count (geo fs) - first_data_block (geo fs) ∧
    u_free_blocks u = total_free (geo fs) (gdt fs) V ∧
    0 <= u_free_blocks u <= u_blocks u.
Proof.
  intros [_ Hm]. pose proof (mi_geo _ _ _ _ _ Hm) as Hgeo. pose proof (groups_pos _ Hgeo).
  assert (Ht : 0 <= total_free (geo fs) (gdt fs) V <= blocks_count (geo fs) - first_data_block (geo fs)).
  { pose proof (sum_len_of _ (Z.to_nat (groups (geo fs))) Hgeo) as Hs.
    destruct (sum_to_le (free_in (geo fs) (gdt fs) V) (len_of (geo fs)) (Z.to_nat (groups (geo fs))))
      as [Hs1 Hs2].
    { intros k Hk. pose proof (len_of_range _ Hgeo k).
      pose proof (count_free_range (bitmap_of (gdt fs) V k) (Z.to_nat (len_of (geo fs) k))).
      unfold free_in. lia. }
    unfold total_free. lia. }
  unfold usage. destruct Hgeo. unfold usub. case_if; [|lia]. cbn.
  rewrite (mi_total _ _ _ _ _ Hm). cbn.
  destruct (get32_ok (sb fs) S_FREE_INODES) as [v ->].
  { unfold S_FREE_INODES. lia. }
  { rewrite (mi_sb _ _ _ _ _ Hm). unfold SB_SIZE, S_FREE_INODES. lia. }
  cbn. eexists. split; [done|]. cbn. rewrite Z.mod_small by lia. lia.
Qed.

End alloc.

(** The bitmap search.  [take_bit]'s scan, which skips bytes of 0xff,
    finds exactly what a bit-by-bit scan would: the first clear bit from
    [start] on, else from 0, and no bit only when all are set; it sets that
    bit and no other, and never reads outside the bitmap. *)
Theorem take_bit_first_clear bm bits start :
  Forall is_byte bm → 0 <= start → 0 <= bits <= 8 * zlen bm → bits + 8 < 2 ^ 32 →
  ∃ r bm', take_bit_in bits start bm = Some (r, bm') ∧ length bm' = length bm ∧
    match r with
    | Some i => first_clear bm bits start i ∧
                ∀ j, 0 <= j → bit bm' j = if j =? i then true else bit bm j
    | None => bm' = bm ∧ ∀ k, 0 <= k < bits → bit bm k = true
    end.
Proof.
  intros Hb Hs Hbits Hm. destruct (take_bit_in_ok bm bits start) as (r&bm'&?&?&_&?);
    [done|done|lia..|]. by exists r, bm'.
Qed.

Lemma take_bit_first_clear_witness :
  take_bit_in 24 1 [0xff; 0xff; 0x05] = Some (Some 17, [0xff; 0xff; 0x07]) ∧
  ∃ r bm', take_bit_in 24 1 [0xff; 0xff; 0x05] = Some (r, bm') ∧ length bm' = 3%nat ∧
    match r with
    | Some i => first_clear [0xff; 0xff; 0x05] 24 1 i ∧
                ∀ j, 0 <= j → bit bm' j = if j =? i then true else bit [0xff; 0xff; 0x05] j
    | None => bm' = [0xff; 0xff; 0x05] ∧ ∀ k, 0 <= k < 24 → bit [0xff; 0xff; 0x05] k = true
    end.
Proof.
  split; [reflexivity|].
  apply (take_bit_first_clear [0xff; 0xff; 0x05] 24 1); [by apply bytesb_bytes|simpl; lia..].
Defined.

(** *** A filesystem of 64 blocks of 1 KiB: one group, its block bitmap in
    block 3, blocks 1 to 10 in use *)

Definition ex_geo : Geometry := {|
  block_size := 1024; first_data_block := 1; blocks_count := 64; inodes_count := 16;
  blocks_per_group := 8192; inodes_per_group := 16; inode_size := 128; first_ino := 11;
  groups := 1; filetype := true; large_file := true |}.

Definition ex_gdt : list Z := [3; 0; 0; 0; 4; 0; 0; 0; 5; 0; 0; 0; 53; 0] ++ replicate 1010 0.
Definition ex_sb_mem : list Z := replicate 12 0 ++ [53] ++ replicate 1011 0.
Definition ex_ram : Ram :=
  {| ram_bytes := replicate (Z.to_nat 3072) 0 ++ [0xff; 0x03] ++ replicate (Z.to_nat 62462) 0;
     ram_clock := 7 |}.

Definition ex_fs : Fs Ram := {|
  cache := new ex_ram 1024; geo := ex_geo; sb := ex_sb_mem; sb_dirty := false;
  gdt := ex_gdt; gdt_dirty := [false]; last_alloc := 0; resolved := ∅ |}.

Definition ex_view : Z → option (list Z) := block_of (ram_bytes ex_ram) 1024.

Lemma ex_ram_bytes : Forall is_byte (ram_bytes ex_ram) ∧ zlen (ram_bytes ex_ram) = 65536.
Proof.
  unfold ex_ram. cbn [ram_bytes]. split.
  - rewrite !Forall_app, !Forall_cons_iff. unfold is_byte.
    split_and!; try lia; try (apply Forall_replicate; lia). constructor.
  - rewrite !length_app, !length_replicate. simpl length. lia.
Qed.

Lemma ex_wf : wf_geo ex_geo.
Proof. constructor; cbn; try lia; try (by left); try reflexivity; unfold ROOT_INO; lia. Qed.

Lemma ex_alloc_inv : alloc_inv ex_fs ex_view.
Proof.
  destruct ex_ram_bytes as [Hb Hl].
  assert (Hg : ∀ g, 0 <= g < groups ex_geo → g = 0) by (cbn; lia).
  split; [exact (new_at ex_ram 1024 ltac:(lia) Hb)|].
  constructor; cbn [ex_fs geo sb gdt gdt_dirty].
  - exact ex_wf.
  - cbn. lia.
  - reflexivity.
  - by apply bytesb_bytes.
  - cbn. unfold GD_SIZE. lia.
  - by apply bytesb_bytes.
  - reflexivity.
  - intros b Hb'. unfold is_data in Hb'. cbn in Hb'.
    destruct (proj2 (block_of_is_some (ram_bytes ex_ram) 1024 b ltac:(lia)
      ltac:(unfold is_number, U32_MAX; lia))) as [d Hd]; [lia|].
    exists d. split; [done|]. by eapply block_of_is_block.
  - intros g ->%Hg. change (bitmap_at ex_gdt 0) with 3. unfold is_data. cbn. lia.
  - intros g g' ->%Hg ->%Hg. done.
  - intros g ->%Hg. vm_compute. reflexivity.
  - intros g ->%Hg. vm_compute. reflexivity.
  - vm_compute. reflexivity.
Qed.

Lemma alloc_block_correct_witness :
  fst <$> alloc_block ex_fs = Some (Ok 11) ∧
  ∃ r fs', alloc_block ex_fs = Some (r, fs') ∧ same_layout ex_fs fs' ∧
    match r with
    | Ok b => ∃ V', alloc_inv fs' V' ∧ allocated ex_fs ex_view b fs' V'
    | Err NoSpace =>
        alloc_inv fs' ex_view ∧
        ∀ b, is_data (geo ex_fs) b → used (geo ex_fs) (gdt ex_fs) ex_view b = true
    | Err e => e = Io ∧ faulty (D := Ram) ∧ ∃ V', alloc_inv fs' V'
    end.
Proof.
  split; [vm_compute; reflexivity|].
  exact (alloc_block_correct ex_fs ex_view ex_alloc_inv).
Defined.

Lemma ex_not_bitmap b g : 0 <= g < groups (geo ex_fs) → b ≠ 3 → bitmap_at (gdt ex_fs) g ≠ b.
Proof.
  intros Hg Hb. cbn in Hg. replace g with 0 by lia.
  change (bitmap_at (gdt ex_fs) 0) with 3. auto.
Qed.

Lemma free_block_correct_witness :
  (¬ is_data (geo ex_fs) 7 → free_block 7 ex_fs = Some (Err Invalid, ex_fs)) ∧
  (is_data (geo ex_fs) 7 →
   ∃ r fs', free_block 7 ex_fs = Some (r, fs') ∧ free_outcome ex_fs ex_view 7 r fs').
Proof.
  apply (free_block_correct ex_fs ex_view 7 ex_alloc_inv).
  intros g Hg. by apply ex_not_bitmap.
Defined.

Lemma usage_exact_witness :
  ∃ u, usage ex_fs = Some u ∧
    u_blocks u = blocks_count (geo ex_fs) - first_data_block (geo ex_fs) ∧
    u_free_blocks u = total_free (geo ex_fs) (gdt ex_fs) ex_view ∧
    0 <= u_free_blocks u <= u_blocks u.
Proof. exact (usage_exact ex_fs ex_view ex_alloc_inv). Defined.
