(* ===== verification/Ext2Inode.v ===== *)
(** * ext2: inodes and file data ([modules/ext2/ext2fs/src/inode.rs])

    The on-disk inode, the block map with its three levels of indirection,
    and the reading, writing, freeing and resizing of a file's data.  The
    functions that take [node: &mut Inode] run in [nprog], whose state has the
    caller's inode beside the filesystem: what they did to it stays done when
    they fail. *)

From stdpp Require Import gmap functions.
From S2P Require Import Prelude Ext2Layout Ext2Cache Ext2Alloc.

Definition NDIRECT : Z := 12.
Definition IND : Z := 12.
Definition NBLOCKS : Z := 15.

Record Inode := {
  i_mode : Z;
  i_size : Z;
  i_atime : Z;
  i_ctime : Z;
  i_mtime : Z;
  i_dtime : Z;
  i_links : Z;
  i_sectors : Z;
  i_flags : Z;
  i_block : list Z;
  i_file_acl : Z;
}.

Definition upd_size (n : Inode) (v : Z) : Inode :=
  {| i_mode := i_mode n; i_size := v; i_atime := i_atime n; i_ctime := i_ctime n;
     i_mtime := i_mtime n; i_dtime := i_dtime n; i_links := i_links n;
     i_sectors := i_sectors n; i_flags := i_flags n; i_block := i_block n;
     i_file_acl := i_file_acl n |}.
Definition upd_atime (n : Inode) (v : Z) : Inode :=
  {| i_mode := i_mode n; i_size := i_size n; i_atime := v; i_ctime := i_ctime n;
     i_mtime := i_mtime n; i_dtime := i_dtime n; i_links := i_links n;
     i_sectors := i_sectors n; i_flags := i_flags n; i_block := i_block n;
     i_file_acl := i_file_acl n |}.
Definition upd_mtime (n : Inode) (v : Z) : Inode :=
  {| i_mode := i_mode n; i_size := i_size n; i_atime := i_atime n; i_ctime := i_ctime n;
     i_mtime := v; i_dtime := i_dtime n; i_links := i_links n;
     i_sectors := i_sectors n; i_flags := i_flags n; i_block := i_block n;
     i_file_acl := i_file_acl n |}.
Definition upd_dtime (n : Inode) (v : Z) : Inode :=
  {| i_mode := i_mode n; i_size := i_size n; i_atime := i_atime n; i_ctime := i_ctime n;
     i_mtime := i_mtime n; i_dtime := v; i_links := i_links n;
     i_sectors := i_sectors n; i_flags := i_flags n; i_block := i_block n;
     i_file_acl := i_file_acl n |}.
Definition upd_links (n : Inode) (v : Z) : Inode :=
  {| i_mode := i_mode n; i_size := i_size n; i_atime := i_atime n; i_ctime := i_ctime n;
     i_mtime := i_mtime n; i_dtime := i_dtime n; i_links := v;
     i_sectors := i_sectors n; i_flags := i_flags n; i_block := i_block n;
     i_file_acl := i_file_acl n |}.
Definition upd_sectors (n : Inode) (v : Z) : Inode :=
  {| i_mode := i_mode n; i_size := i_size n; i_atime := i_atime n; i_ctime := i_ctime n;
     i_mtime := i_mtime n; i_dtime := i_dtime n; i_links := i_links n;
     i_sectors := v; i_flags := i_flags n; i_block := i_block n;
     i_file_acl := i_file_acl n |}.
Definition upd_flags (n : Inode) (v : Z) : Inode :=
  {| i_mode := i_mode n; i_size := i_size n; i_atime := i_atime n; i_ctime := i_ctime n;
     i_mtime := i_mtime n; i_dtime := i_dtime n; i_links := i_links n;
     i_sectors := i_sectors n; i_flags := v; i_block := i_block n;
     i_file_acl := i_file_acl n |}.
Definition upd_blocks (n : Inode) (v : list Z) : Inode :=
  {| i_mode := i_mode n; i_size := i_size n; i_atime := i_atime n; i_ctime := i_ctime n;
     i_mtime := i_mtime n; i_dtime := i_dtime n; i_links := i_links n;
     i_sectors := i_sectors n; i_flags := i_flags n; i_block := v;
     i_file_acl := i_file_acl n |}.

Definition inode_new (mode now : Z) : Inode :=
  {| i_mode := mode; i_size := 0; i_atime := now; i_ctime := now; i_mtime := now;
     i_dtime := 0; i_links := 1; i_sectors := 0; i_flags := 0;
     i_block := replicate (Z.to_nat NBLOCKS) 0; i_file_acl := 0 |}.

(** The [u32]s of [b] at [o], [o + 4], ...: [n] of them. *)
Fixpoint get32s (b : list Z) (o : Z) (n : nat) : option (list Z) :=
  match n with
  | O => Some []
  | S n' => v ← get32 b o; rest ← get32s b (o + 4) n'; Some (v :: rest)
  end.

Fixpoint put32s (b : list Z) (o : Z) (l : list Z) : option (list Z) :=
  match l with
  | [] => Some b
  | v :: l' => b' ← put32 b o v; put32s b' (o + 4) l'
  end.

Definition kind_of_mode (mode : Z) : Kind :=
  let t := Z.land mode S_IFMT in
  if t =? S_IFREG then KFile
  else if t =? S_IFDIR then KDir
  else if t =? S_IFLNK then KSymlink
  else KOther.

Definition kind (n : Inode) : Kind := kind_of_mode (i_mode n).

Definition is_file (k : Kind) : bool := match k with KFile => true | _ => false end.
Definition is_dir (n : Inode) : bool := match kind n with KDir => true | _ => false end.

Definition inode_parse (b : list Z) : option Inode :=
  mode ← get16 b 0;
  block ← get32s b 40 (Z.to_nat NBLOCKS);
  high ← (if Z.land mode S_IFMT =? S_IFREG then get32 b 108 else Some 0);
  low ← get32 b 4;
  atime ← get32 b 8;
  ctime ← get32 b 12;
  mtime ← get32 b 16;
  dtime ← get32 b 20;
  links ← get16 b 26;
  sectors ← get32 b 28;
  flags ← get32 b 32;
  file_acl ← get32 b 104;
  Some {| i_mode := mode; i_size := Z.lor low (Z.shiftl high 32); i_atime := atime;
          i_ctime := ctime; i_mtime := mtime; i_dtime := dtime; i_links := links;
          i_sectors := sectors; i_flags := flags; i_block := block; i_file_acl := file_acl |}.

Definition inode_store (n : Inode) (b : list Z) : option (list Z) :=
  b ← put16 b 0 (i_mode n);
  b ← put32 b 4 (i_size n mod 2 ^ 32);
  b ← put32 b 8 (i_atime n);
  b ← put32 b 12 (i_ctime n);
  b ← put32 b 16 (i_mtime n);
  b ← put32 b 20 (i_dtime n);
  b ← put16 b 26 (i_links n);
  b ← put32 b 28 (i_sectors n);
  b ← put32 b 32 (i_flags n);
  b ← put32s b 40 (i_block n);
  b ← put32 b 104 (i_file_acl n);
  if is_file (kind n) then put32 b 108 (Z.shiftr (i_size n) 32 mod 2 ^ 32) else Some b.

Definition file_type (n : Inode) : Z :=
  match kind n with KDir => FT_DIR | KSymlink => FT_SYMLINK | _ => FT_REG end.

Definition inline_capacity (n : Inode) : Z := NBLOCKS * 4.

Definition is_fast_symlink (n : Inode) (block_size : Z) : bool :=
  let acl := if negb (i_file_acl n =? 0) then block_size / 512 else 0 in
  match kind n with KSymlink => i_sectors n =? acl | _ => false end.

Definition inline (n : Inode) : list Z := concat (le_bytes 4 <$> i_block n).

Definition set_inline (n : Inode) (data : list Z) : option Inode :=
  raw ← copy_slice (replicate 60 0) 0 (zlen data) data;
  block ← get32s raw 0 (Z.to_nat NBLOCKS);
  Some (upd_size (upd_blocks n block) (zlen data)).

(** [idx] of [map_path]: [n] digits of [rest] in base [p], from [div] down. *)
Fixpoint digits (n : nat) (rest div p : Z) : option (list Z) :=
  match n with
  | O => Some []
  | S n' =>
      q ← udiv rest div;
      d ← umod q p;
      div' ← udiv div p;
      l ← digits n' rest div' p;
      Some (d :: l)
  end.

(** The levels of indirection left to try. *)
Fixpoint map_level (n : nat) (level rest span p : Z) : option (result Error (Z * list Z)) :=
  match n with
  | O => Some (Err TooBig)
  | S n' =>
      if rest <? span then
        div ← udiv span p;
        idx ← digits (S (Z.to_nat level)) rest div p;
        Some (Ok (IND + level, idx))
      else map_level n' (level + 1) (rest - span) (span * p) p
  end.

Definition map_path (g : Geometry) (n : Z) : option (result Error (Z * list Z)) :=
  let p := ptrs g in
  if n <? NDIRECT then Some (Ok (n, []))
  else map_level 3 0 (n - NDIRECT) p p.

(** [blk.chunks_exact(4).map(|c| get32(c, 0)).collect()] *)
Definition pointers (blk : list Z) : option (list Z) := get32s blk 0 (Z.to_nat (zlen blk / 4)).

Section inode.
Context {D : Type} `{Device D}.
Implicit Types (fs : Fs D) (node : Inode).

Definition nprog (A : Type) : Type := prog (Fs D * Inode) Error A.

(** A call on the filesystem alone; the caller's inode read and assigned. *)
Definition on_fs {A} (m : fprog A) : nprog A := zoom fst (λ s fs, (fs, s.2)) m.
Definition get_node : nprog Inode := s ← get_state; mret s.2.
Definition set_node (node : Inode) : nprog () := s ← get_state; set_state (s.1, node).

(** A call with [&mut node], giving the result and what became of [node]. *)
Definition with_node {A} node (m : nprog A) : fprog (result Error A * Inode) := λ fs,
  match m (fs, node) with Some (r, (fs', node')) => Some (Ok (r, node'), fs') | None => None end.

(** The same call followed by [?]. *)
Definition try_node {A} node (m : nprog A) : fprog (A * Inode) :=
  '(r, node) ← with_node node m;
  a ← lift_result (Some r);
  mret (a, node).

Definition inode_at fs (ino : Z) : option (result Error (Z * Z)) :=
  if (ino =? 0) || (inodes_count (geo fs) <? ino) then Some (Err Invalid)
  else
    let ipg := inodes_per_group (geo fs) in
    g ← udiv (ino - 1) ipg;
    i ← umod (ino - 1) ipg;
    let byte := i * inode_size (geo fs) in
    table ← gd32 fs g G_INODE_TABLE;
    q ← udiv byte (block_size (geo fs));
    off ← umod byte (block_size (geo fs));
    b ← add32 table (q mod 2 ^ 32);
    Some (Ok (b, off)).

Definition inode (ino : Z) : fprog Inode :=
  fs ← get_state;
  '(block, off) ← lift_result (inode_at fs ino);
  on_cache (read block (λ b, s ← slice b off (off + GOOD_OLD_INODE_SIZE); inode_parse s)).

Definition write_inode (ino : Z) (node : Inode) : fprog () :=
  fs ← get_state;
  '(block, off) ← lift_result (inode_at fs ino);
  on_cache (modify block (λ b,
    let e := off + GOOD_OLD_INODE_SIZE in
    s ← slice b off e; s' ← inode_store node s; b' ← copy_slice b off e s'; Some (tt, b'))).

Definition write_new_inode (ino : Z) (node : Inode) : fprog () :=
  fs ← get_state;
  '(block, off) ← lift_result (inode_at fs ino);
  let size := inode_size (geo fs) in
  on_cache (modify block (λ b,
    let e := off + size in
    b ← copy_slice b off e (zeros size);
    s ← slice b off e; s' ← inode_store node s; b' ← copy_slice b off e s'; Some (tt, b'))).

(** *** The block map *)

Definition add_sectors (per : Z) : nprog () :=
  node ← get_node;
  n ← checked (add32 (i_sectors node) per);
  set_node (upd_sectors node n).

Fixpoint bmap_walk (path : list Z) (cur per : Z) (alloc : bool) : nprog Z :=
  match path with
  | [] => mret cur
  | i :: path' =>
      next ← on_fs (on_cache (read cur (λ b, get32 b (i * 4))));
      if negb (next =? 0) then bmap_walk path' next per alloc
      else if negb alloc then mret 0
      else
        b ← on_fs alloc_block;
        _ ← on_fs (on_cache (modify cur (λ blk, blk' ← put32 blk (i * 4) b; Some (tt, blk'))));
        _ ← add_sectors per;
        bmap_walk path' b per alloc
  end.

Definition bmap (n : Z) (alloc : bool) : nprog Z :=
  s ← get_state;
  '(slot, path) ← lift_result (map_path (geo s.1) n);
  let per := block_size (geo s.1) / 512 in
  cur ← checked (zget (i_block s.2) slot);
  if cur =? 0 then
    if negb alloc then mret 0
    else
      b ← on_fs alloc_block;
      node ← get_node;
      l ← checked (zset (i_block node) slot b);
      _ ← set_node (upd_blocks node l);
      _ ← add_sectors per;
      bmap_walk path b per alloc
  else bmap_walk path cur per alloc.

(** *** File data *)

(** [self.cache.read_through(first, &mut out[at..at + len])?] *)
Definition read_into (first : Z) (out : list Z) (at_ len : Z) : fprog (list Z) :=
  dst ← checked (slice out at_ (at_ + len));
  src ← on_cache (read_through first dst);
  checked (copy_slice out at_ (at_ + len) src).

Definition flush_run (run : option (Z * Z * Z)) (bs : Z) (out : list Z) : fprog (list Z) :=
  match run with
  | Some (first, at_, k) => read_into first out at_ (k * bs)
  | None => mret out
  end.

(** [first + k as u32 == b && at + k * bs == done] for the run in hand. *)
Definition continues (run : option (Z * Z * Z)) (whole : bool) (b bs done : Z) : option bool :=
  match run with
  | Some (first, at_, k) =>
      if whole then s ← add32 first (k mod 2 ^ 32); Some ((s =? b) && (at_ + k * bs =? done))
      else Some false
  | None => Some false
  end.

(** The loop of [read_data]: [done] grows by at least one a turn, so that a
    fuel of one more than [want] is enough. *)
Fixpoint read_loop (fuel : nat) (node : Inode) (pos want bs done : Z)
    (run : option (Z * Z * Z)) (out : list Z) : fprog (Z * list Z) :=
  match fuel with
  | O => λ _, None
  | S fuel' =>
      if done <? want then
        let at_ := pos + done in
        n ← checked (udiv at_ bs);
        into ← checked (umod at_ bs);
        let tk := Z.min (bs - into) (want - done) in
        '(b, _) ← try_node node (bmap n false);
        let whole := negb (b =? 0) && (tk =? bs) in
        c ← checked (continues run whole b bs done);
        '(run, out) ←
          match run, c with
          | Some (first, at_, k), true => mret (Some (first, at_, k + 1), out)
          | _, _ =>
              out ← flush_run run bs out;
              if whole then mret (Some (b, done, 1), out)
              else if b =? 0 then
                out ← checked (copy_slice out done (done + tk) (zeros tk));
                mret (None, out)
              else
                blk ← on_cache (read_through b (zeros bs));
                s ← checked (slice blk into (into + tk));
                out ← checked (copy_slice out done (done + tk) s);
                mret (None, out)
          end;
        read_loop fuel' node pos want bs (done + tk) run out
      else
        out ← flush_run run bs out;
        mret (done, out)
  end.

(** Gives the bytes read and what [out] holds. *)
Definition read_data (node : Inode) (pos : Z) (out : list Z) : fprog (Z * list Z) :=
  if i_size node <=? pos then mret (0, out)
  else
    fs ← get_state;
    let want := Z.min (zlen out) (i_size node - pos) in
    read_loop (S (Z.to_nat want)) node pos want (block_size (geo fs)) 0 None out.

Fixpoint write_loop (fuel : nat) (pos : Z) (buf : list Z) (bs done : Z) : nprog Z :=
  match fuel with
  | O => λ _, None
  | S fuel' =>
      if done <? zlen buf then
        let at_ := pos + done in
        n ← checked (udiv at_ bs);
        into ← checked (umod at_ bs);
        let tk := Z.min (bs - into) (zlen buf - done) in
        r ← attempt (bmap n true);
        match r with
        | Ok b =>
            _ ← on_fs (on_cache (modify b (λ blk,
                  s ← slice buf done (done + tk);
                  blk' ← copy_slice blk into (into + tk) s;
                  Some (tt, blk'))));
            node ← get_node;
            _ ← set_node (upd_size node (Z.max (i_size node) (pos + (done + tk))));
            write_loop fuel' pos buf bs (done + tk)
        | Err e => if done =? 0 then throw e else mret done
        end
      else mret done
  end.

Definition write_data (pos : Z) (buf : list Z) : nprog Z :=
  s ← get_state;
  let end_ := pos + zlen buf in
  if U64_MAX <? end_ then throw TooBig
  else if (U32_MAX <? end_) && negb (large_file (geo s.1) && is_file (kind s.2)) then throw TooBig
  else write_loop (S (length buf)) pos buf (block_size (geo s.1)) 0.

(** Free block [b] and what it points to, [depth] levels down. *)
Fixpoint free_tree (depth : nat) (b : Z) : fprog Z :=
  n ← match depth with
      | O => mret 1
      | S depth' =>
          ptrs ← on_cache (read b (λ blk, l ← pointers blk; Some (filter (λ p, p ≠ 0) l)));
          fold_m (λ n p, k ← free_tree depth' p; checked (add32 n k)) ptrs 1
      end;
  _ ← free_block b;
  mret n.

Definition free_slot (slot : Z) : nprog () :=
  node ← get_node;
  b ← checked (zget (i_block node) slot);
  _ ← (if negb (b =? 0) then
         on_fs (free_tree (Z.to_nat (Z.max 0 (slot - (NDIRECT - 1)))) b)
       else mret 0);
  l ← checked (zset (i_block node) slot 0);
  set_node (upd_blocks node l).

Definition free_data : nprog () :=
  s ← get_state;
  let bs := block_size (geo s.1) in
  _ ← (if negb (is_fast_symlink s.2 bs) then fold_m (λ _ i, free_slot i) (seqZ 0 NBLOCKS) tt
       else set_node (upd_blocks s.2 (replicate (Z.to_nat NBLOCKS) 0)));
  node ← get_node;
  let acl := if negb (i_file_acl node =? 0) then bs / 512 else 0 in
  set_node (upd_size (upd_sectors node acl) 0).

(** [depth] is at least 1.  The count of freed blocks is threaded through. *)
Fixpoint trim_tree (depth : nat) (b first span keep freed : Z) : fprog (bool * Z) :=
  match depth with
  | O => λ _, None
  | S depth' =>
      if first + span <=? keep then mret (false, freed)
      else if keep <=? first then
        n ← free_tree depth b;
        freed ← checked (add32 freed n);
        mret (true, freed)
      else
        fs ← get_state;
        child ← checked (udiv span (ptrs (geo fs)));
        l ← on_cache (read b pointers);
        freed ← fold_m (λ freed ip,
          let '(i, ptr) := ip : Z * Z in
          let at_ := first + i * child in
          if (ptr =? 0) || (at_ + child <=? keep) then mret freed
          else
            '(gone, freed) ←
              match depth' with
              | O => _ ← free_block ptr; f ← checked (add32 freed 1); mret (true, f)
              | S _ => trim_tree depth' ptr at_ child keep freed
              end;
            _ ← (if gone : bool then
                   on_cache (modify b (λ blk, blk' ← put32 blk (i * 4) 0; Some (tt, blk')))
                 else mret tt);
            mret freed) (zip (seqZ 0 (zlen l)) l) freed;
        mret (false, freed)
  end.

(** One direct slot past the end, and one indirect slot, of [resize_data]. *)
Definition trim_direct (freed slot : Z) : nprog Z :=
  node ← get_node;
  b ← checked (zget (i_block node) slot);
  if negb (b =? 0) then
    _ ← on_fs (free_block b);
    l ← checked (zset (i_block node) slot 0);
    _ ← set_node (upd_blocks node l);
    checked (add32 freed 1)
  else mret freed.

Definition trim_indirect (p keep : Z) (acc : Z * Z * Z) (level : Z) : nprog (Z * Z * Z) :=
  let '(first, span, freed) := acc in
  let slot := IND + level in
  node ← get_node;
  b ← checked (zget (i_block node) slot);
  freed ← (if negb (b =? 0) then
             '(gone, freed) ← on_fs (trim_tree (Z.to_nat (level + 1)) b first span keep freed);
             _ ← (if gone : bool then
                    l ← checked (zset (i_block node) slot 0);
                    set_node (upd_blocks node l)
                  else mret tt);
             mret freed
           else mret freed);
  mret (first + span, span * p, freed).

Definition resize_data (size : Z) : nprog () :=
  s ← get_state;
  let g := geo s.1 in
  if (U32_MAX <? size) && negb (large_file g) then throw TooBig
  else
    let bs := block_size g in
    _ ← (if size <? i_size s.2 then
           into ← checked (umod size bs);
           _ ← (if negb (into =? 0) then
                  n ← checked (udiv size bs);
                  b ← bmap n false;
                  if negb (b =? 0) then
                    on_fs (on_cache (modify b (λ blk,
                      blk' ← copy_slice blk into (zlen blk) (zeros (zlen blk - into));
                      Some (tt, blk'))))
                  else mret tt
                else mret tt);
           keep ← checked (div_ceil size bs);
           let per := bs / 512 in
           let k := Z.min keep NDIRECT in
           freed ← fold_m trim_direct (seqZ k (NDIRECT - k)) 0;
           let p := ptrs g in
           '(_, _, freed) ← fold_m (trim_indirect p keep) [0; 1; 2] (NDIRECT, p, freed);
           node ← get_node;
           sub ← checked (mul32 freed per);
           n ← checked (usub (i_sectors node) sub);
           set_node (upd_sectors node n)
         else mret tt);
    node ← get_node;
    set_node (upd_size node size).

End inode.

(** ** The on-disk inode *)

(** Every field fits its place on disk; only files have the size's top half. *)
Record wf_inode (n : Inode) : Prop := {
  wi_mode : 0 <= i_mode n < 2 ^ 16;
  wi_size : 0 <= i_size n < 2 ^ 64;
  wi_small : is_file (kind n) = false → i_size n < 2 ^ 32;
  wi_atime : 0 <= i_atime n < 2 ^ 32;
  wi_ctime : 0 <= i_ctime n < 2 ^ 32;
  wi_mtime : 0 <= i_mtime n < 2 ^ 32;
  wi_dtime : 0 <= i_dtime n < 2 ^ 32;
  wi_links : 0 <= i_links n < 2 ^ 16;
  wi_sectors : 0 <= i_sectors n < 2 ^ 32;
  wi_flags : 0 <= i_flags n < 2 ^ 32;
  wi_file_acl : 0 <= i_file_acl n < 2 ^ 32;
  wi_nblocks : length (i_block n) = 15%nat;
  wi_block : Forall (λ b, 0 <= b < 2 ^ 32) (i_block n);
}.

Lemma changed_at_trans b b' b'' o n o' n' p m :
  changed_at b b' o n → changed_at b' b'' o' n' →
  p <= o → o + n <= p + m → p <= o' → o' + n' <= p + m → changed_at b b'' p m.
Proof.
  intros (E1&B1&S1) (E2&B2&S2) ????. split_and!; [congruence|auto|].
  intros x y Hxy. rewrite S2, S1; [done|lia..].
Qed.

Lemma get32s_changed b b' o n p k :
  changed_at b b' o n → p + 4 * Z.of_nat k <= o ∨ o + n <= p → get32s b' p k = get32s b p k.
Proof.
  intros Hc. revert p. induction k as [|k IH]; intros p Hp; [done|]. cbn [get32s].
  rewrite (changed_at_get32 _ _ _ _ _ Hc), IH by lia. done.
Qed.

Lemma get32s_ok b o n :
  0 <= o → o + 4 * Z.of_nat n <= zlen b → ∃ l, get32s b o n = Some l ∧ length l = n.
Proof.
  revert o. induction n as [|n IH]; intros o Ho Hl; cbn [get32s]; [by exists []|].
  destruct (get32_ok b o) as [v ->]; [lia..|].
  destruct (IH (o + 4)) as (l&->&El); [lia..|]. exists (v :: l). cbn. by rewrite El.
Qed.

Lemma get32s_range b o n l :
  Forall is_byte b → get32s b o n = Some l → Forall (λ v, 0 <= v < 2 ^ 32) l ∧ length l = n.
Proof.
  intros Hb. revert o l. induction n as [|n IH]; intros o l; cbn [get32s].
  { by intros [= <-]. }
  intros (v&Hv&(r&Hr&[= <-])%bind_Some)%bind_Some.
  destruct (IH _ _ Hr). split; [|cbn; lia]. constructor; [by eapply get32_range|done].
Qed.

Lemma put32s_ok b o l :
  0 <= o → o + 4 * zlen l <= zlen b →
  ∃ b', put32s b o l = Some b' ∧ changed_at b b' o (4 * zlen l) ∧
    (Forall (λ v, 0 <= v < 2 ^ 32) l → get32s b' o (length l) = Some l).
Proof.
  revert b o. induction l as [|v l IH]; intros b o Ho Hl; cbn [put32s get32s length].
  { exists b. split; [done|]. split; [|done]. by repeat split. }
  cbn [length] in Hl. destruct (put32_ok b o v) as (b1&->&Hc1&Hg1); [lia..|]. cbn [mbind option_bind].
  destruct (IH b1 (o + 4)) as (b2&->&Hc2&Hg2); [lia|rewrite (proj1 Hc1); lia|].
  exists b2. split; [done|]. split.
  - eapply changed_at_trans; [exact Hc1|exact Hc2|lia..].
  - intros [Hv Hl']%Forall_cons_iff. rewrite (changed_at_get32 _ _ _ _ _ Hc2) by lia.
    rewrite Hg1, Hg2 by done. done.
Qed.

(** Storing what is there changes nothing. *)
Lemma splice_id {A} (l s : list A) a b :
  slice l a b = Some s → splice l a s = l.
Proof.
  unfold slice. case_if; [|done]. intros [= <-]. unfold splice.
  rewrite length_take, length_drop, Nat.min_l by lia.
  rewrite <-(take_drop (Z.to_nat a) l) at 4. f_equal.
  rewrite <-(take_drop (Z.to_nat (b - a)) (drop (Z.to_nat a) l)) at 2. f_equal.
  by rewrite drop_drop.
Qed.

Lemma put16_id b o v : Forall is_byte b → get16 b o = Some v → put16 b o v = Some b.
Proof.
  unfold get16, put16. intros Hb (s&Hs&->)%fmap_Some.
  pose proof (slice_length _ _ _ _ Hs). pose proof (slice_bytes _ _ _ _ Hb Hs) as Hsb.
  assert (E : le_bytes 2 (le_val s) = s).
  { rewrite <-(le_bytes_val s) at 2 by done. f_equal. lia. }
  rewrite E. unfold slice in Hs. case_if; [|done].
  rewrite copy_slice_ok by lia. f_equal. eapply splice_id. unfold slice. case_if; [done|lia].
Qed.

Lemma put32_id b o v : Forall is_byte b → get32 b o = Some v → put32 b o v = Some b.
Proof.
  unfold get32, put32. intros Hb (s&Hs&->)%fmap_Some.
  pose proof (slice_length _ _ _ _ Hs). pose proof (slice_bytes _ _ _ _ Hb Hs) as Hsb.
  assert (E : le_bytes 4 (le_val s) = s).
  { rewrite <-(le_bytes_val s) at 2 by done. f_equal. lia. }
  rewrite E. unfold slice in Hs. case_if; [|done].
  rewrite copy_slice_ok by lia. f_equal. eapply splice_id. unfold slice. case_if; [done|lia].
Qed.

Lemma put32s_id b o n l : Forall is_byte b → get32s b o n = Some l → put32s b o l = Some b.
Proof.
  intros Hb. revert o l. induction n as [|n IH]; intros o l; cbn [get32s].
  { by intros [= <-]. }
  intros (v&Hv&(r&Hr&[= <-])%bind_Some)%bind_Some. cbn [put32s].
  rewrite put32_id by done. cbn. by apply IH.
Qed.

(** The two halves of a size. *)
Lemma size_halves low high :
  0 <= low < 2 ^ 32 → 0 <= high → Z.lor low (Z.shiftl high 32) = low + high * 2 ^ 32.
Proof.
  intros Hl Hh. rewrite Z.shiftl_mul_pow2 by lia.
  assert (E : Z.land low (high * 2 ^ 32) = 0).
  { apply Z.bits_inj'. intros j Hj. rewrite Z.land_spec, Z.bits_0.
    destruct (Z_lt_ge_dec j 32).
    - rewrite (Z.mul_pow2_bits_low high) by lia. apply andb_false_r.
    - rewrite (Z.bits_above_log2 low); [done|lia|].
      destruct (decide (low = 0)) as [->|]; [simpl; lia|].
      assert (Z.log2 low < 32) by (apply Z.log2_lt_pow2; lia). lia. }
  rewrite Z.add_nocarry_lxor by done. by rewrite <-Z.lxor_lor.
Qed.

(** Step through a [put] of a program whose buffer is long enough. *)
Ltac put_step Hl :=
  match goal with
  | |- context [put16 ?b ?o ?v] =>
      let b' := fresh "b" in let Hc := fresh "Hc" in let Hg := fresh "Hg" in
      destruct (put16_ok b o v) as (b'&->&Hc&Hg); [lia|lia|];
      pose proof (proj1 Hc); cbn [mbind option_bind]
  | |- context [put32s ?b ?o ?v] =>
      let b' := fresh "b" in let Hc := fresh "Hc" in let Hg := fresh "Hg" in
      destruct (put32s_ok b o v) as (b'&->&Hc&Hg); [lia|lia|];
      pose proof (proj1 Hc); cbn [mbind option_bind]
  | |- context [put32 ?b ?o ?v] =>
      let b' := fresh "b" in let Hc := fresh "Hc" in let Hg := fresh "Hg" in
      destruct (put32_ok b o v) as (b'&->&Hc&Hg); [lia|lia|];
      pose proof (proj1 Hc); cbn [mbind option_bind]
  end.

(** Read a field back through the stores that followed it. *)
Ltac field_back :=
  repeat match goal with
  | Hc : changed_at _ ?b _ _ |- context [get32s ?b ?p ?k] =>
      rewrite (get32s_changed _ _ _ _ p k Hc) by lia
  | Hc : changed_at _ ?b _ _ |- context [get32 ?b ?p] =>
      rewrite (changed_at_get32 _ _ _ _ p Hc) by lia
  | Hc : changed_at _ ?b _ _ |- context [get16 ?b ?p] =>
      rewrite (changed_at_get16 _ _ _ _ p Hc) by lia
  end.

Ltac field_read tac :=
  repeat match goal with
  | Hg : _ → get16 ?b ?p = Some _ |- context [get16 ?b ?p] =>
      rewrite Hg by tac; cbn [mbind option_bind]
  | Hg : _ → get32 ?b ?p = Some _ |- context [get32 ?b ?p] =>
      rewrite Hg by tac; cbn [mbind option_bind]
  | Hg : _ → get32s ?b ?p ?k = Some _ |- context [get32s ?b ?p ?k] =>
      rewrite Hg by tac; cbn [mbind option_bind]
  end.

Lemma is_file_mode mode : (Z.land mode S_IFMT =? S_IFREG) = is_file (kind_of_mode mode).
Proof. unfold kind_of_mode. repeat (case_if; [done|]). done. Qed.

(** The bytes [x, y) of an inode slot are none of the fields [store] writes. *)
Definition kept (n : Inode) (x y : Z) : Prop :=
  2 <= x ∧ y <= 4 ∨ 24 <= x ∧ y <= 26 ∨ 36 <= x ∧ y <= 40 ∨ 100 <= x ∧ y <= 104 ∨
  (if is_file (kind n) then 112 else 108) <= x.

Lemma inode_store_parse n b :
  wf_inode n → 128 <= zlen b →
  ∃ b', inode_store n b = Some b' ∧ length b' = length b ∧ inode_parse b' = Some n ∧
    ∀ x y, kept n x y → slice b' x y = slice b x y.
Proof.
  intros Hn Hl. pose proof (wi_nblocks _ Hn) as Hnb. pose proof (wi_size _ Hn) as Hs.
  pose proof (Z.mod_pos_bound (i_size n) (2 ^ 32) ltac:(lia)).
  assert (Hhigh : 0 <= Z.shiftr (i_size n) 32 mod 2 ^ 32 < 2 ^ 32) by (apply Z.mod_pos_bound; lia).
  unfold inode_store. repeat put_step Hl.
  assert (Hkeep : ∀ x y, kept n x y → slice b10 x y = slice b x y ∧
    (is_file (kind n) = true → slice b11 x y = slice b x y)).
  { intros x y Hk. unfold kept in Hk.
    assert (108 <= if is_file (kind n) then 112 else 108) by (destruct (is_file (kind n)); lia).
    assert (slice b10 x y = slice b x y) as E.
    { repeat match goal with Hc : changed_at _ ?b _ _ |- slice ?b _ _ = _ =>
        rewrite (proj2 (proj2 Hc)) by lia end. done. }
    split; [done|]. intros Ek. rewrite (proj2 (proj2 Hc10)), E; [done|]. rewrite Ek in Hk. lia. }
  destruct (is_file (kind n)) eqn:Ek; eexists; (split; [reflexivity|]); (split; [lia|]);
    (split; [|intros x y Hk; by apply Hkeep]); clear Hkeep;
    unfold inode_parse; change (Z.to_nat NBLOCKS) with 15%nat; rewrite <-Hnb; field_back;
    field_read ltac:(first [apply Hn|done]); rewrite is_file_mode; fold (kind n); rewrite Ek;
    cbn [mbind option_bind]; field_read ltac:(first [apply Hn|done]).
  - f_equal. rewrite size_halves, Z.shiftr_div_pow2 by lia.
    rewrite (Z.mod_small (_ / _)) by zdiv.
    replace (i_size n mod 2 ^ 32 + i_size n / 2 ^ 32 * 2 ^ 32) with (i_size n) by zdiv.
    by destruct n.
  - f_equal. rewrite Z.shiftl_0_l, Z.lor_0_r. pose proof (wi_small _ Hn Ek).
    rewrite Z.mod_small by lia. by destruct n.
Qed.

Lemma inode_parse_store n b :
  Forall is_byte b → inode_parse b = Some n → inode_store n b = Some b.
Proof.
  intros Hb Hp. unfold inode_parse in Hp.
  repeat (apply bind_Some in Hp as (?&?&Hp)). injection Hp as <-.
  assert (Elow : ∀ h, 0 <= h → Z.lor x2 (Z.shiftl h 32) = x2 + h * 2 ^ 32).
  { intros h Hh. apply size_halves; [by eapply get32_range|done]. }
  assert (0 <= x2 < 2 ^ 32) by (by eapply get32_range).
  assert (Hh : 0 <= x1 < 2 ^ 32).
  { destruct (Z.land x S_IFMT =? S_IFREG); [by eapply get32_range|]. simplify_eq. lia. }
  unfold inode_store, kind. cbn [i_mode i_size i_atime i_ctime i_mtime i_dtime i_links i_sectors
    i_flags i_block i_file_acl]. rewrite Elow by lia.
  replace ((x2 + x1 * 2 ^ 32) mod 2 ^ 32) with x2 by zdiv.
  repeat (first [rewrite put16_id by done | rewrite put32_id by done |
    erewrite put32s_id by done]; cbn [mbind option_bind]).
  rewrite <-is_file_mode. destruct (Z.land x S_IFMT =? S_IFREG); [|done].
  rewrite Z.shiftr_div_pow2 by lia.
  replace ((x2 + x1 * 2 ^ 32) / 2 ^ 32 mod 2 ^ 32) with x1 by zdiv.
  by apply put32_id.
Qed.

(** The on-disk inode.  Any inode whose fields fit can be stored in a
    slot of at least 128 bytes and reads back as it was; the bytes of the slot
    that are none of its fields keep their values; and storing what was read
    from a slot changes no byte of it. *)
Theorem inode_codec n b :
  wf_inode n → Forall is_byte b → 128 <= zlen b →
  (∃ b', inode_store n b = Some b' ∧ length b' = length b ∧ inode_parse b' = Some n ∧
     ∀ x y, kept n x y → slice b' x y = slice b x y) ∧
  (∃ n', inode_parse b = Some n') ∧
  ∀ n', inode_parse b = Some n' → inode_store n' b = Some b.
Proof.
  intros Hn Hb Hl. split; [by apply inode_store_parse|]. split.
  - unfold inode_parse. destruct (get32s_ok b 40 (Z.to_nat NBLOCKS)) as (l&El&_);
      [lia|unfold NBLOCKS; lia|].
    destruct (get16_ok b 0) as [? ->]; [lia..|]. cbn [mbind option_bind]. rewrite El.
    cbn [mbind option_bind].
    assert (∃ h, (if Z.land x S_IFMT =? S_IFREG then get32 b 108 else Some 0) = Some h) as [h ->].
    { case_if; [apply get32_ok; lia|by eexists]. }
    cbn [mbind option_bind].
    repeat (match goal with
      | |- context [get32 b ?o] => destruct (get32_ok b o) as [? ->]; [lia..|]
      | |- context [get16 b ?o] => destruct (get16_ok b o) as [? ->]; [lia..|]
      end; cbn [mbind option_bind]).
    by eexists.
  - intros n'. by apply inode_parse_store.
Qed.

Definition ex_node : Inode := {|
  i_mode := 0x81A4; i_size := 5 * 2 ^ 32 + 7; i_atime := 1; i_ctime := 2; i_mtime := 3;
  i_dtime := 0; i_links := 1; i_sectors := 16; i_flags := 0;
  i_block := [20; 21; 0; 0; 0; 0; 0; 0; 0; 0; 0; 0; 30; 0; 0]; i_file_acl := 0 |}.

Lemma ex_node_wf : wf_inode ex_node.
Proof. constructor; cbn; try lia; try done. repeat constructor; lia. Qed.

Lemma inode_codec_witness :
  (∃ b', inode_store ex_node (replicate 128 9) = Some b' ∧ length b' = 128%nat ∧
     inode_parse b' = Some ex_node ∧
     ∀ x y, kept ex_node x y → slice b' x y = slice (replicate 128 9) x y) ∧
  (∃ n', inode_parse (replicate 128 9) = Some n') ∧
  ∀ n', inode_parse (replicate 128 9) = Some n' → inode_store n' (replicate 128 9) = Some (replicate 128 9).
Proof.
  apply (inode_codec ex_node (replicate 128 9) ex_node_wf); [by apply bytesb_bytes|simpl; lia].
Defined.

(** ** The block map's paths *)

(** The number a list of base-[p] digits stands for. *)
Definition value (p : Z) (l : list Z) : Z := foldl (λ acc d, acc * p + d) 0 l.

(** The logical block a slot of [i_block] and a path below it address. *)
Definition addressed (p slot : Z) (path : list Z) : Z :=
  if slot <? NDIRECT then slot
  else if slot =? IND then NDIRECT + value p path
  else if slot =? IND + 1 then NDIRECT + p + value p path
  else NDIRECT + p + p * p + value p path.

(** The blocks a file can have. *)
Definition max_blocks (p : Z) : Z := NDIRECT + p + p * p + p * p * p.

Lemma value_acc p l a : foldl (λ acc d, acc * p + d) a l = a * p ^ zlen l + value p l.
Proof.
  revert a. induction l as [|d l IH]; intros a; unfold value; cbn [foldl length].
  - change (Z.of_nat 0) with 0. rewrite Z.pow_0_r. lia.
  - rewrite IH, (IH (0 * p + d)), Nat2Z.inj_succ, Z.pow_succ_r by lia. lia.
Qed.

Lemma digits_ok p rest k :
  1 < p → 0 <= rest →
  ∃ l, digits (S k) rest (p ^ Z.of_nat k) p = Some l ∧ length l = S k ∧
    Forall (λ d, 0 <= d < p) l ∧ value p l = rest mod p ^ Z.of_nat (S k).
Proof.
  intros Hp Hr. induction k as [|k IH].
  - cbn [digits]. change (Z.of_nat 0) with 0. change (Z.of_nat 1) with 1.
    rewrite Z.pow_0_r, Z.pow_1_r. unfold udiv, umod. repeat (case_if; [lia|]). cbn.
    exists [rest mod p]. rewrite Z.div_1_r. split_and!; [done|done| |unfold value; cbn [foldl]; lia].
    constructor; [|done]. apply Z.mod_pos_bound. lia.
  - destruct IH as (l&El&Hl&Hd&Hv).
    assert (0 < p ^ Z.of_nat (S k)) by (apply Z.pow_pos_nonneg; lia).
    replace (digits (S (S k)) rest (p ^ Z.of_nat (S k)) p) with
      (q ← udiv rest (p ^ Z.of_nat (S k)); d ← umod q p; div' ← udiv (p ^ Z.of_nat (S k)) p;
       l ← digits (S k) rest div' p; Some (d :: l)) by done.
    unfold udiv, umod. repeat (case_if; [lia|]). cbn [mbind option_bind].
    replace (p ^ Z.of_nat (S k) / p) with (p ^ Z.of_nat k).
    2:{ rewrite Nat2Z.inj_succ, Z.pow_succ_r, Z.mul_comm, Z.div_mul by lia. done. }
    rewrite El. cbn [mbind option_bind]. eexists. split; [done|]. split_and!.
    + cbn. lia.
    + constructor; [|done]. apply Z.mod_pos_bound. lia.
    + unfold value. cbn [foldl]. rewrite value_acc, Hv, Hl.
      rewrite (Nat2Z.inj_succ (S k)), Z.pow_succ_r, (Z.mul_comm p) by lia.
      rewrite Z.rem_mul_r by lia. lia.
Qed.

(** The block map's addressing.  Every logical block below the limit of
    12 direct, [p] single, [p^2] double and [p^3] triple indirect ones has a
    slot of [i_block] and a path of in-range indexes, as long as the slot's
    level of indirection, that addresses exactly that block: two blocks never
    share a path.  Every block past the limit is [TooBig].  Nothing panics. *)
Theorem map_path_addresses g n :
  wf_geo g → 0 <= n →
  if n <? max_blocks (ptrs g) then
    ∃ slot path, map_path g n = Some (Ok (slot, path)) ∧
      0 <= slot < NBLOCKS ∧ zlen path = Z.max 0 (slot - (NDIRECT - 1)) ∧
      Forall (λ d, 0 <= d < ptrs g) path ∧ addressed (ptrs g) slot path = n
  else map_path g n = Some (Err TooBig).
Proof.
  intros Hg Hn. assert (Hp : 256 <= ptrs g) by (unfold ptrs; pose proof (wg_bs _ Hg); zdiv).
  unfold map_path, max_blocks, NDIRECT, NBLOCKS. set (p := ptrs g) in *. clearbody p.
  destruct (n <? 12) eqn:E0; bool_hyps.
  { case_if; [|nia]. exists n, []. unfold addressed, NDIRECT. split; [done|].
    cbn. case_if; [|lia]. split_and!; try lia. constructor. }
  assert (Hdig : ∀ rest k, 0 <= rest < p ^ Z.of_nat (S k) → ∃ l,
    digits (S k) rest (p ^ Z.of_nat k) p = Some l ∧ length l = S k ∧
    Forall (λ d, 0 <= d < p) l ∧ value p l = rest).
  { intros rest k Hr. destruct (digits_ok p rest k) as (l&?&?&?&Hv); [lia..|].
    exists l. rewrite Hv, Z.mod_small by done. done. }
  cbn [map_level]. change (0 + 1) with 1. change (1 + 1) with 2. unfold udiv.
  destruct (p =? 0) eqn:Ep; bool_hyps; [lia|]. cbn [mbind option_bind].
  destruct (n - 12 <? p) eqn:E1; bool_hyps.
  { rewrite (proj2 (Z.ltb_lt n _)) by nia.
    destruct (Hdig (n - 12) 0%nat) as (l&El&Hl&Hd&Hv); [change (Z.of_nat 1) with 1; rewrite Z.pow_1_r; lia|].
    change (p ^ Z.of_nat 0) with 1 in El.
    rewrite Z.div_same by lia. cbn [mbind option_bind]. change (S (Z.to_nat 0)) with 1%nat.
    rewrite El. cbn.
    exists 12, l. unfold addressed, NDIRECT, IND. cbn. split_and!; [done|lia|lia|lia|done|lia]. }
  rewrite Z.div_mul by lia.
  destruct (n - 12 - p <? p * p) eqn:E2; bool_hyps.
  { rewrite (proj2 (Z.ltb_lt n _)) by nia.
    destruct (Hdig (n - 12 - p) 1%nat) as (l&El&Hl&Hd&Hv).
    { change (Z.of_nat 2) with 2. rewrite Z.pow_2_r. lia. }
    change (Z.of_nat 1) with 1 in El. rewrite Z.pow_1_r in El.
    change (S (Z.to_nat 1)) with 2%nat. rewrite El. cbn.
    exists 13, l. unfold addressed, NDIRECT, IND. change (12 + 1) with 13. cbn.
    split_and!; [done|lia|lia|lia|done|lia]. }
  rewrite Z.div_mul by lia.
  destruct (n - 12 - p - p * p <? p * p * p) eqn:E3; bool_hyps.
  { rewrite (proj2 (Z.ltb_lt n _)) by nia.
    destruct (Hdig (n - 12 - p - p * p) 2%nat) as (l&El&Hl&Hd&Hv).
    { change (Z.of_nat 3) with 3. replace (p ^ 3) with (p * p * p) by lia. lia. }
    change (Z.of_nat 2) with 2 in El. rewrite Z.pow_2_r in El.
    change (S (Z.to_nat 2)) with 3%nat. rewrite El. cbn.
    exists 14, l. unfold addressed, NDIRECT, IND. change (12 + 1) with 13. cbn.
    split_and!; [done|lia|lia|lia|done|lia]. }
  rewrite (proj2 (Z.ltb_ge n _)) by nia. done.
Qed.

Lemma map_path_addresses_witness :
  map_path ex_geo 70000 = Some (Ok (14, [0; 16; 100])) ∧
  if 70000 <? max_blocks (ptrs ex_geo) then
    ∃ slot path, map_path ex_geo 70000 = Some (Ok (slot, path)) ∧
      0 <= slot < NBLOCKS ∧ zlen path = Z.max 0 (slot - (NDIRECT - 1)) ∧
      Forall (λ d, 0 <= d < ptrs ex_geo) path ∧ addressed (ptrs ex_geo) slot path = 70000
  else map_path ex_geo 70000 = Some (Err TooBig).
Proof. split; [reflexivity|]. apply (map_path_addresses ex_geo 70000 ex_wf). lia. Defined.
