(* ===== verification/Ext2Data.v ===== *)
(** * ext2: what a read of file data returns

    [read_data] joins whole blocks that follow each other on the disk into one
    request and reads past the cache.  Here a file is a function of the disk,
    [file_byte], block by block through the block map, and the loop is shown
    to return exactly its bytes. *)

From stdpp Require Import gmap functions.
From S2P Require Import Prelude Ext2Layout Ext2Cache Ext2Alloc Ext2Inode.

Section file.
Context (g : Geometry) (V : Z → option (list Z)).
Implicit Types (node : Inode) (n b : Z).

(** The block at the end of [path] from block [cur]; 0 is a hole.  A pointer
    to the number the cache reserves leads nowhere. *)
Fixpoint walk_to (path : list Z) (cur : Z) : option Z :=
  if negb (cur <? U32_MAX) then None
  else match path with
  | [] => Some cur
  | i :: path' =>
      d ← V cur; next ← get32 d (i * 4);
      if next =? 0 then Some 0 else walk_to path' next
  end.

Definition block_no node n : option Z :=
  match map_path g n with
  | Some (Ok (slot, path)) =>
      cur ← zget (i_block node) slot;
      if cur =? 0 then Some 0 else walk_to path cur
  | _ => None
  end.

Definition file_block node n : option (list Z) :=
  b ← block_no node n; if b =? 0 then Some (zeros (block_size g)) else V b.

Definition file_byte node (off : Z) : option Z :=
  d ← file_block node (off / block_size g); d !! Z.to_nat (off mod block_size g).

(** The logical blocks of the [len] bytes at [pos] can all be reached. *)
Definition readable node (pos len : Z) : Prop :=
  ∀ n, pos / block_size g <= n → n * block_size g < pos + len → is_Some (file_block node n).

End file.

(** Pointers on the disk are not negative. *)
Definition wf_pointers (node : Inode) : Prop := Forall (λ b, 0 <= b < 2 ^ 32) (i_block node).

Section read.
Context {D : Type} `{DeviceLaws D}.
Implicit Types (fs : Fs D) (V : Z → option (list Z)).

(** A reader's outcome: the cache may have moved, the disk has not. *)
Definition reads {A} fs V (P : A → Prop) (r : result Error A) fs' : Prop :=
  ∃ c, fs' = with_cache fs c ∧ cache_at (block_size (geo fs)) c V ∧
  match r with Ok a => P a | Err e => e = Io ∧ faulty (D := D) end.

Lemma wp_try_node {A} node (m : nprog A) (Q : result Error (A * Inode) → Fs D → Prop) fs :
  wp m (λ r s, match r with Ok a => Q (Ok (a, s.2)) s.1 | Err e => Q (Err e) s.1 end) (fs, node) →
  wp (try_node node m) Q fs.
Proof.
  unfold wp, try_node, mbind, prog_bind, with_node, lift_result. cbn.
  by destruct (m (fs, node)) as [[[a|e] [fs' node']]|].
Qed.

Lemma walk_to_spec fs V node per path cur b :
  cache_at (block_size (geo fs)) (cache fs) V → 0 <= cur → walk_to V path cur = Some b →
  wp (bmap_walk path cur per false) (λ r s, s.2 = node ∧
    reads fs V (λ b', b' = b ∧ 0 <= b < U32_MAX) r s.1) (fs, node).
Proof.
  revert fs cur. induction path as [|i path IH]; intros fs cur Hc Hcur; cbn [walk_to bmap_walk].
  { destruct (cur <? U32_MAX) eqn:E; bool_hyps; [|done]. cbn. intros [= <-]. wp_steps.
    split; [done|]. exists (cache fs). split_and!; try done. by destruct fs. }
  destruct (cur <? U32_MAX) eqn:E; bool_hyps; [|done]. cbn [negb].
  intros (d&Hd&(next&Hnext&Hb)%bind_Some)%bind_Some. wp_steps. apply wp_zoom, wp_zoom.
  eapply wp_mono; [eapply (read_spec _ _ V)|].
  - done.
  - unfold is_number. lia.
  - intros data Ed _. rewrite Hd in Ed. injection Ed as <-. by rewrite Hnext.
  - intros [nx|e] c Hr; cbn [fst snd].
    2:{ destruct Hr as (->&Hat&[?|?]); [congruence|]. split; [done|]. exists c. done. }
    destruct Hr as (Hat&data&Ed&[_ Hby]&En). rewrite Hd in Ed. injection Ed as <-.
    rewrite Hnext in En. injection En as <-. destruct (next =? 0) eqn:Ez; cbn [negb].
    + injection Hb as <-. wp_steps. split; [done|]. exists c. split_and!; try done.
    + eapply wp_mono; [apply (IH (with_cache fs c)); [done| |done]|].
      { eapply get32_range in Hnext; [lia|done]. }
      intros r s [Hs (c2&->&Hc2&Hr)]. split; [done|]. exists c2. done.
Qed.

Lemma bmap_ro_spec fs V node n b :
  cache_at (block_size (geo fs)) (cache fs) V → wf_pointers node →
  block_no (geo fs) V node n = Some b →
  wp (try_node node (bmap n false)) (reads fs V (λ bn, bn = (b, node) ∧ 0 <= b < U32_MAX)) fs.
Proof.
  intros Hc Hp Hb. apply wp_try_node. unfold block_no in Hb. unfold bmap. wp_steps. cbn [fst snd].
  destruct (map_path (geo fs) n) as [[[slot path]|e]|] eqn:Em; [|done..].
  eapply wp_lift; [done|]. apply bind_Some in Hb as (cur&Hcur&Hb). wp_steps.
  apply (wp_checked _ cur); [done|].
  assert (0 <= cur).
  { pose proof (zget_some _ _ _ Hcur). rewrite zget_lookup in Hcur by lia.
    eapply Forall_lookup_1 in Hcur; [|done]. cbv beta in Hcur. lia. }
  destruct (cur =? 0) eqn:Ez; cbn [negb].
  - injection Hb as <-. wp_steps. exists (cache fs).
    split_and!; try done; by destruct fs.
  - eapply wp_mono; [by eapply (walk_to_spec _ V node)|].
    intros [a|e] s [Hs (c&Es&Hc'&Hr)]; exists c; (split; [done|]); (split; [done|]).
    + destruct Hr as [-> ?]. by rewrite Hs.
    + done.
Qed.

Lemma blocks_from_lookup V bs first k buf j x d :
  (∀ b d, V b = Some d → zlen d = bs) → 0 <= x < bs →
  blocks_from V first k = Some buf → 0 <= j < Z.of_nat k → V (first + j) = Some d →
  buf !! Z.to_nat (j * bs + x) = d !! Z.to_nat x.
Proof.
  intros Hbs Hx. revert first buf j. induction k as [|k IH]; intros first buf j Eb Hj Hd; [lia|].
  cbn [blocks_from] in Eb. apply bind_Some in Eb as (d0&Hd0&Eb).
  apply bind_Some in Eb as (rest&Hrest&[= <-]). pose proof (Hbs _ _ Hd0).
  destruct (decide (j = 0)) as [->|Hne].
  - rewrite Z.add_0_r in Hd. assert (d0 = d) as -> by congruence.
    rewrite lookup_app_l by lia. f_equal.
  - rewrite lookup_app_r by nia.
    replace (Z.to_nat (j * bs + x) - length d0)%nat with (Z.to_nat ((j - 1) * bs + x)) by nia.
    apply (IH (first + 1)); [done|lia|]. by replace (first + 1 + (j - 1)) with (first + j) by lia.
Qed.

Lemma blocks_from_defined V first k buf j :
  blocks_from V first k = Some buf → 0 <= j < Z.of_nat k → V (first + j) ≠ None.
Proof.
  revert first buf j. induction k as [|k IH]; intros first buf j Eb Hj; [lia|].
  cbn [blocks_from] in Eb. apply bind_Some in Eb as (d0&Hd0&Eb).
  apply bind_Some in Eb as (rest&Hrest&_). destruct (decide (j = 0)) as [->|].
  - rewrite Z.add_0_r. congruence.
  - replace (first + j) with (first + 1 + (j - 1)) by lia. eapply IH; [done|lia].
Qed.

Lemma blocks_from_length V bs first k buf :
  (∀ b d, V b = Some d → zlen d = bs) → blocks_from V first k = Some buf →
  zlen buf = Z.of_nat k * bs.
Proof.
  intros Hbs. revert first buf. induction k as [|k IH]; intros first buf; cbn [blocks_from].
  { by intros [= <-]. }
  intros (d0&Hd0&(rest&Hrest&[= <-])%bind_Some)%bind_Some.
  rewrite length_app. pose proof (Hbs _ _ Hd0). pose proof (IH _ _ Hrest). lia.
Qed.

(** The run in hand: [k] blocks from [first] on, the file's from byte
    [pos + at_], to go to [out] at [at_] and up to [done]. *)
Definition run_ok fs V node (pos done : Z) (run : option (Z * Z * Z)) : Prop :=
  let bs := block_size (geo fs) in
  match run with
  | None => True
  | Some (first, at_, k) =>
      1 <= k ∧ 0 <= at_ ∧ at_ + k * bs = done ∧ (pos + at_) mod bs = 0 ∧
      0 < first ∧ first + k <= U32_MAX ∧
      ∀ j, 0 <= j < k → block_no (geo fs) V node ((pos + at_) / bs + j) = Some (first + j)
  end.

(** The bytes before this are in [out] already. *)
Definition settled (run : option (Z * Z * Z)) (done : Z) : Z :=
  match run with None => done | Some (_, at_, _) => at_ end.

(** [out] has the file's bytes up to [upto], and is [out0] from there on. *)
Definition filled fs V node (pos : Z) (out0 out : list Z) (upto : Z) : Prop :=
  length out = length out0 ∧
  (∀ i : nat, Z.of_nat i < upto → out !! i = file_byte (geo fs) V node (pos + Z.of_nat i)) ∧
  (∀ i : nat, upto <= Z.of_nat i → out !! i = out0 !! i).

(** Bytes copied in at [upto] that are the file's extend what is filled. *)
Lemma filled_extend fs V node pos out0 out upto src :
  filled fs V node pos out0 out upto → 0 <= upto → upto + zlen src <= zlen out →
  (∀ x : nat, (x < length src)%nat →
     src !! x = file_byte (geo fs) V node (pos + upto + Z.of_nat x)) →
  filled fs V node pos out0 (splice out upto src) (upto + zlen src).
Proof.
  intros (Hl&Hin&Hout) Hu Hle Hsrc. split_and!.
  - by rewrite splice_length.
  - intros i Hi. destruct (decide (Z.of_nat i < upto)).
    + rewrite splice_lookup_out by lia. by apply Hin.
    + rewrite splice_lookup_in by lia. rewrite Hsrc by lia. f_equal. lia.
  - intros i Hi. rewrite splice_lookup_out by lia. apply Hout. lia.
Qed.

Lemma reads_mono {A} fs V (P Q : A → Prop) r fs' :
  reads fs V P r fs' → (∀ a, P a → Q a) → reads fs V Q r fs'.
Proof. intros (c&->&Hc&Hr) HPQ. exists c. split_and!; [done|done|]. destruct r; auto. Qed.

(** After a reading step the rest of the program still only reads. *)
Lemma reads_bind {A B} fs V (P : A → Prop) (Q : B → Prop) (m : fprog A) (k : A → fprog B) :
  wp m (reads fs V P) fs →
  (∀ a c, P a → cache_at (block_size (geo fs)) c V →
     wp (k a) (reads (with_cache fs c) V Q) (with_cache fs c)) →
  wp (x ← m; k x) (reads fs V Q) fs.
Proof.
  intros Hm Hk. apply wp_bind. eapply wp_mono; [exact Hm|].
  intros [a|e] fs' (c&->&Hc&Hr).
  - eapply wp_mono; [by apply Hk|]. intros r fs2 (c2&->&Hc2&Hr2). by exists c2.
  - by exists c.
Qed.

Lemma reads_ret {A} fs V (P : A → Prop) a :
  cache_at (block_size (geo fs)) (cache fs) V → P a → wp (mret a) (reads fs V P) fs.
Proof. intros. apply wp_ret. exists (cache fs). split_and!; [by destruct fs|done|done]. Qed.

Lemma reads_checked {A} fs V (P : A → Prop) o a :
  cache_at (block_size (geo fs)) (cache fs) V → o = Some a → P a →
  wp (checked o) (reads fs V P) fs.
Proof.
  intros ? -> ?. eapply wp_checked; [done|]. exists (cache fs).
  split_and!; [by destruct fs|done|done].
Qed.

(** The bytes of [k] blocks from [first], when these are the file's from
    logical block [q] on. *)
Lemma blocks_are_bytes fs V node first k q buf x :
  wf_geo (geo fs) → cache_at (block_size (geo fs)) (cache fs) V → 0 <= q →
  0 < first →
  (∀ j, 0 <= j < Z.of_nat k → block_no (geo fs) V node (q + j) = Some (first + j)) →
  blocks_from V first k = Some buf → (x < length buf)%nat →
  buf !! x = file_byte (geo fs) V node (q * block_size (geo fs) + Z.of_nat x).
Proof.
  intros Hg [Hc HV] Hq Hf Hb Ebuf Hx. set (bs := block_size (geo fs)) in *.
  assert (Hpos : 0 < bs) by (destruct Hg; lia).
  assert (Hbs : ∀ b d, V b = Some d → zlen d = bs).
  { intros b d Hd. rewrite <-HV in Hd. by destruct (view_block bs None _ _ _ Hc Hd). }
  pose proof (blocks_from_length V bs first k buf Hbs Ebuf) as Hl.
  set (j := Z.of_nat x / bs). set (y := Z.of_nat x mod bs).
  assert (Exy : Z.of_nat x = j * bs + y) by (unfold j, y; pose proof (Z.div_mod (Z.of_nat x) bs); lia).
  assert (Hy : 0 <= y < bs) by (apply Z.mod_pos_bound; lia).
  assert (Hj : 0 <= j < Z.of_nat k) by (unfold j; split; [apply Z.div_pos; lia|apply Z.div_lt_upper_bound; lia]).
  clearbody j y. unfold file_byte, file_block.
  replace ((q * bs + Z.of_nat x) / block_size (geo fs)) with (q + j).
  2:{ fold bs. apply Z.div_unique with y; lia. }
  replace ((q * bs + Z.of_nat x) mod block_size (geo fs)) with y.
  2:{ fold bs. apply Z.mod_unique with (q + j); lia. }
  rewrite Hb by done. cbn [mbind option_bind]. destruct (first + j =? 0) eqn:E; bool_hyps; [lia|].
  destruct (V (first + j)) as [d|] eqn:Ed.
  - cbn [mbind option_bind]. rewrite <-(blocks_from_lookup V bs first k buf j y d) by done.
    f_equal. lia.
  - exfalso. apply (blocks_from_defined V first k buf j Ebuf Hj). done.
Qed.

(** One request for [k] of the file's blocks. *)
Lemma read_blocks_of_file fs V node first k q out :
  wf_geo (geo fs) → cache_at (block_size (geo fs)) (cache fs) V → 0 <= q → 0 < first →
  1 <= k → first + k <= U32_MAX →
  (∀ j, 0 <= j < k → block_no (geo fs) V node (q + j) = Some (first + j) ∧
                     is_Some (file_block (geo fs) V node (q + j))) →
  zlen out = k * block_size (geo fs) →
  wp (on_cache (read_through first out)) (reads fs V (λ buf,
    zlen buf = k * block_size (geo fs) ∧
    ∀ x : nat, (x < length buf)%nat →
      buf !! x = file_byte (geo fs) V node (q * block_size (geo fs) + Z.of_nat x))) fs.
Proof.
  intros Hg Hc Hq Hf Hk Hmax Hb Hl. unfold U32_MAX in Hmax. apply wp_zoom. eapply wp_mono.
  - apply (read_through_spec (block_size (geo fs)) _ V first (Z.to_nat k)); [done|lia..].
  - intros [buf|e] c' [Hc' Hr]; exists c'; (split; [done|]); (split; [done|]).
    + split.
      * rewrite (blocks_from_length V (block_size (geo fs)) first (Z.to_nat k)); [lia| |done].
        intros b d Hd. destruct Hc as [Hi HV]. rewrite <-HV in Hd.
        by destruct (view_block _ None _ _ _ Hi Hd).
      * intros x Hx. eapply (blocks_are_bytes fs V node first (Z.to_nat k) q); try done.
        intros j Hj. apply Hb. lia.
    + destruct Hr as [-> [(b&Hbr&HV)|?]]; [|done]. exfalso.
      destruct (Hb (b - first)) as [Eb [d Hd]]; [lia|]. unfold file_block in Hd.
      rewrite Eb in Hd. cbn [mbind option_bind] in Hd.
      replace (first + (b - first)) with b in Hd by lia.
      destruct (b =? 0) eqn:E; bool_hyps; [lia|congruence].
Qed.

Lemma flush_run_spec fs V node pos want done run out0 out :
  wf_geo (geo fs) → cache_at (block_size (geo fs)) (cache fs) V → 0 <= pos →
  readable (geo fs) V node pos want → done <= want → 0 <= done → done <= zlen out →
  run_ok fs V node pos done run → filled fs V node pos out0 out (settled run done) →
  wp (flush_run run (block_size (geo fs)) out)
    (reads fs V (λ out', filled fs V node pos out0 out' done)) fs.
Proof.
  intros Hg Hc Hpos Hrd Hdw Hd Hdl Hrun Hfill. destruct run as [[[first at_] k]|]; cbn [flush_run].
  2:{ by apply reads_ret. }
  destruct Hrun as (Hk&Hat&Hend&Hmod&Hf&Hmax&Hb). cbn [settled] in Hfill.
  set (bs := block_size (geo fs)) in *. set (q := (pos + at_) / bs) in *.
  assert (Hbs : 0 < bs) by (unfold bs; destruct Hg; lia).
  assert (Eq : pos + at_ = q * bs) by (unfold q; pose proof (Z.div_mod (pos + at_) bs); lia).
  assert (0 <= q) by (apply Z.div_pos; lia).
  assert (Hpq : pos / bs <= q) by (apply Z.div_le_mono; lia).
  unfold read_into. eapply reads_bind.
  { eapply (reads_checked _ _ (λ s, zlen s = k * bs)); [done|by apply slice_ok; nia|].
    rewrite length_take, length_drop. nia. }
  intros dst c1 Hdst Hc1. eapply reads_bind.
  { apply (read_blocks_of_file (with_cache fs c1) V node first k q dst); try done.
    intros j Hj. split; [by apply Hb|]. apply Hrd; cbn [with_cache geo]; fold bs; [lia|nia]. }
  intros src c2 [Hl Hbytes] Hc2. cbn [with_cache geo] in Hl. fold bs in Hl.
  eapply reads_checked; [done|apply copy_slice_ok; nia|].
  rewrite <-Hend, <-Hl.
  apply filled_extend; [done|lia|lia|].
  intros x Hx. rewrite Hbytes by done. f_equal. cbn [with_cache geo]. fold bs. lia.
Qed.

(** One piece of a block that is not joined to a run: a hole, or part of a
    block read by itself. *)
Lemma piece_spec fs V node pos n into tk done b out0 out :
  let bs := block_size (geo fs) in
  wf_geo (geo fs) → cache_at bs (cache fs) V → 0 <= n →
  pos + done = n * bs + into → 0 <= into → 0 < tk → into + tk <= bs →
  block_no (geo fs) V node n = Some b → is_Some (file_block (geo fs) V node n) →
  0 <= b < U32_MAX → 0 <= done → done + tk <= zlen out →
  filled fs V node pos out0 out done →
  wp (if b =? 0 then
        out ← checked (copy_slice out done (done + tk) (zeros tk));
        mret (None, out)
      else
        blk ← on_cache (read_through b (zeros bs));
        s ← checked (slice blk into (into + tk));
        out ← checked (copy_slice out done (done + tk) s);
        mret (None, out))
    (reads fs V (λ ro : option (Z * Z * Z) * list Z,
       ro.1 = None ∧ filled fs V node pos out0 ro.2 (done + tk))) fs.
Proof.
  intros bs Hg Hc Hn Epos Hinto Htk Hfit Eb Hrd Hb Hd Hdl Hfill.
  assert (Hbs : 0 < bs) by (unfold bs; destruct Hg; lia).
  destruct (b =? 0) eqn:Ez; bool_hyps.
  - assert (Hz : zlen (zeros tk) = tk) by (unfold zeros; zn).
    eapply reads_bind; [by eapply (reads_checked _ _ (λ o, o = splice out done (zeros tk)));
      [done|apply copy_slice_ok; lia|]|].
    intros o c1 -> Hc1. apply reads_ret; [done|]. split; [done|]. cbn [snd]. rewrite <-Hz at 2.
    apply filled_extend; [done|lia|lia|]. intros x Hx.
    unfold file_byte, file_block. cbn [with_cache geo]. fold bs.
    replace ((pos + done + Z.of_nat x) / bs) with n by (apply Z.div_unique with (into + Z.of_nat x); lia).
    replace ((pos + done + Z.of_nat x) mod bs) with (into + Z.of_nat x)
      by (apply Z.mod_unique with n; lia).
    rewrite Eb, Ez. cbn. unfold zeros in *. rewrite !lookup_replicate_2 by lia. done.
  - eapply reads_bind.
    { apply (read_blocks_of_file fs V node b 1 n (zeros bs)); try done; try lia.
      - intros j Hj. replace j with 0 by lia. rewrite !Z.add_0_r. done.
      - unfold zeros, bs. zn. }
    intros blk c1 [Hl Hbytes] Hc1. fold bs in Hl, Hbytes.
    eapply reads_bind; [eapply (reads_checked _ _ (λ s, s = take (Z.to_nat tk) (drop (Z.to_nat into) blk)));
      [done|rewrite slice_ok by lia; done|repeat f_equal; lia]|].
    intros s c2 Es Hc2.
    assert (Hs : zlen s = tk) by (rewrite Es; zn).
    eapply reads_bind; [eapply (reads_checked _ _ (λ o, o = splice out done s));
      [done|apply copy_slice_ok; lia|done]|].
    intros o c3 -> Hc3. apply reads_ret; [done|]. split; [done|]. cbn [snd]. rewrite <-Hs.
    apply filled_extend; [done|lia|lia|]. intros x Hx.
    rewrite Es, lookup_take_lt, lookup_drop by lia. rewrite Hbytes by lia.
    cbn [with_cache geo]. f_equal. lia.
Qed.

(** The test whether a whole block continues the run in hand. *)
Lemma continues_ok fs V node pos done run whole b :
  run_ok fs V node pos done run → (whole = true → (pos + done) mod block_size (geo fs) = 0) →
  0 < block_size (geo fs) → 0 <= pos → (whole = true → 0 < b < U32_MAX) →
  (whole = true → block_no (geo fs) V node ((pos + done) / block_size (geo fs)) = Some b) →
  ∃ c, continues run whole b (block_size (geo fs)) done = Some c ∧
    (c = true → ∃ first at_ k, run = Some (first, at_, k) ∧ whole = true ∧
       run_ok fs V node pos (done + block_size (geo fs)) (Some (first, at_, k + 1))).
Proof.
  intros Hrun Hmod Hbs Hpos Hb Hbn. unfold continues.
  destruct run as [[[first at_] k]|]; [|by exists false].
  destruct whole; [|by exists false].
  destruct Hrun as (Hk&Hat&Hend&Hm&Hf&Hmax&Hj). specialize (Hb eq_refl).
  unfold U32_MAX in *. rewrite Z.mod_small by lia. unfold add32, fits. case_if; [|lia]. cbn.
  eexists. split; [done|]. intros [E1 E2]%andb_true_iff. bool_hyps.
  exists first, at_, k. split; [done|]. split; [done|]. split_and!; try lia.
  - unfold U32_MAX. lia.
  - intros j Hj'. destruct (decide (j = k)) as [->|]; [|apply Hj; lia].
    rewrite E1, <-Hbn by done. f_equal.
    replace (pos + done) with (k * block_size (geo fs) + (pos + at_)) by lia.
    rewrite Z.div_add_l by lia. lia.
Qed.

Lemma read_loop_spec fuel fs V node pos want done run out0 out :
  wf_geo (geo fs) → cache_at (block_size (geo fs)) (cache fs) V → wf_pointers node →
  0 <= pos → readable (geo fs) V node pos want → 0 <= done <= want → want <= zlen out0 →
  (Z.to_nat (want - done) < fuel)%nat →
  run_ok fs V node pos done run → filled fs V node pos out0 out (settled run done) →
  wp (read_loop fuel node pos want (block_size (geo fs)) done run out)
    (reads fs V (λ no, no.1 = want ∧ filled fs V node pos out0 no.2 want)) fs.
Proof.
  revert fs done run out. induction fuel as [|fuel IH];
    intros fs done run out Hg Hc Hp Hpos Hrd Hdone Hlen Hfuel Hrun Hfill; [lia|].
  set (bs := block_size (geo fs)). cbn [read_loop].
  assert (Hbs : 0 < bs) by (unfold bs; destruct Hg; lia).
  assert (Hout : zlen out = zlen out0) by (by rewrite (proj1 Hfill)).
  destruct (done <? want) eqn:Ed; bool_hyps.
  2:{ replace done with want in * by lia. eapply reads_bind.
      - by eapply (flush_run_spec _ _ _ _ want); try done; lia.
      - intros o c1 Ho Hc1. by apply reads_ret. }
  pose proof (Z.div_mod (pos + done) bs) as Edm. pose proof (Z.mod_pos_bound (pos + done) bs Hbs).
  set (n := (pos + done) / bs) in *. set (into := (pos + done) mod bs) in *.
  assert (0 <= n) by (apply Z.div_pos; lia).
  wp_steps. apply (wp_checked _ n); [unfold udiv; case_if; [lia|done]|].
  wp_steps. apply (wp_checked _ into); [unfold umod; case_if; [lia|done]|].
  set (tk := Z.min (bs - into) (want - done)). assert (Htk : 0 < tk) by lia.
  assert (Hblk : is_Some (file_block (geo fs) V node n)).
  { apply Hrd; fold bs; [apply Z.div_le_mono; lia|]. lia. }
  assert (∃ b, block_no (geo fs) V node n = Some b) as [b Eb].
  { unfold file_block in Hblk. destruct (block_no (geo fs) V node n); [eauto|by destruct Hblk]. }
  eapply reads_bind; [by eapply bmap_ro_spec|]. intros [b' node'] c1 [[= -> ->] Hb] Hc1.
  set (whole := negb (b =? 0) && (tk =? bs)).
  assert (Hwhole : whole = true → tk = bs ∧ into = 0 ∧ b ≠ 0).
  { unfold whole. intros [? ?]%andb_true_iff. bool_hyps. lia. }
  destruct (continues_ok fs V node pos done run whole b) as (cont&Ec&Hcont); try done.
  { intros E. by apply Hwhole in E as (?&?&?). }
  { intros E. apply Hwhole in E. lia. }
  wp_step. apply (wp_checked _ cont); [done|]. cbv beta iota.
  eapply (reads_bind (with_cache fs c1) V (λ ro, run_ok fs V node pos (done + tk) ro.1 ∧
    filled fs V node pos out0 ro.2 (settled ro.1 (done + tk)))).
  - destruct cont.
    + destruct (Hcont eq_refl) as (first&at_&k&->&E&Hrun'). apply Hwhole in E as (Etk&_).
      apply reads_ret; [done|]. cbn [fst snd]. rewrite Etk. done.
    + assert (Hgoal : wp (out ← flush_run run bs out;
          if whole then mret (Some (b, done, 1), out)
          else if b =? 0 then
            out ← checked (copy_slice out done (done + tk) (zeros tk)); mret (None, out)
          else
            blk ← on_cache (read_through b (zeros bs));
            s ← checked (slice blk into (into + tk));
            out ← checked (copy_slice out done (done + tk) s);
            mret (None, out))
        (reads (with_cache fs c1) V (λ ro, run_ok fs V node pos (done + tk) ro.1 ∧
           filled fs V node pos out0 ro.2 (settled ro.1 (done + tk)))) (with_cache fs c1)).
      { eapply reads_bind.
        - eapply (flush_run_spec (with_cache fs c1) V node pos want done run out0 out); try done; lia.
        - intros o c2 Ho Hc2. destruct whole eqn:Ew.
          + apply reads_ret; [done|]. cbn [fst snd settled].
            destruct (Hwhole eq_refl) as (Etk&Ei&Ebz). split; [|done].
            unfold run_ok. cbn [with_cache geo]. fold bs. fold n. split_and!; try lia.
            intros j Hj. replace j with 0 by lia. by rewrite !Z.add_0_r.
          + eapply wp_mono; [eapply (piece_spec (with_cache (with_cache fs c1) c2) V node pos n into tk
              done b out0 o); try done; cbn [with_cache geo]; fold bs; rewrite ?(proj1 Ho); lia|].
            intros r fs2 Hr. eapply reads_mono; [exact Hr|]. intros [ro1 ro2] [E Hf]. cbn in E, Hf.
            by subst. }
      by destruct run as [[[first at_] k]|].
  - intros [run' out'] c2 [Hr' Hf'] Hc2. eapply wp_mono;
      [apply (IH (with_cache (with_cache fs c1) c2) (done + tk) run' out'); try done; lia|].
    intros r fs2 Hr. exact Hr.
Qed.

(** C29: reading.  [read_data], which joins whole blocks that follow each
    other on the disk into single requests past the cache, returns what a
    byte-by-byte reading of the block map would: as many bytes as the file has
    from [pos] on and [out] has room for, each of them the file's, holes as
    zeros, the rest of [out] untouched.  It always ends, never panics, leaves
    the disk as it was, and fails only if the device does. *)
Theorem read_data_correct fs V node pos out :
  let want := Z.max 0 (Z.min (zlen out) (i_size node - pos)) in
  wf_geo (geo fs) → cache_at (block_size (geo fs)) (cache fs) V → wf_pointers node →
  0 <= pos → readable (geo fs) V node pos want →
  ∃ r fs', read_data node pos out fs = Some (r, fs') ∧
    ∃ c, fs' = with_cache fs c ∧ cache_at (block_size (geo fs)) c V ∧
    match r with
    | Ok (n, out') => n = want ∧ length out' = length out ∧
        (∀ i : nat, Z.of_nat i < want →
           out' !! i = file_byte (geo fs) V node (pos + Z.of_nat i)) ∧
        (∀ i : nat, want <= Z.of_nat i → out' !! i = out !! i)
    | Err e => e = Io ∧ faulty (D := D)
    end.
Proof.
  intros want Hg Hc Hp Hpos Hrd.
  assert (Hwp : wp (read_data node pos out) (reads fs V (λ no,
    no.1 = want ∧ filled fs V node pos out no.2 want)) fs).
  { unfold read_data. destruct (i_size node <=? pos) eqn:E; bool_hyps.
    - apply reads_ret; [done|]. split; cbn [fst snd]; [lia|].
      split_and!; [done|intros i Hi; lia|done].
    - wp_step. apply wp_get.
      replace (Z.min (zlen out) (i_size node - pos)) with want by lia.
      apply (read_loop_spec _ fs V node pos want 0 None out out); try done; try lia.
      split_and!; [done|intros i Hi; cbn in Hi; lia|done]. }
  apply wp_run in Hwp as (r&fs'&E&c&->&Hc'&Hr). exists r, (with_cache fs c).
  split; [done|]. exists c. split_and!; [done|done|].
  destruct r as [[n out']|e]; [|done]. destruct Hr as [Hn (?&?&?)]. done.
Qed.

End read.

(** *** A file of two blocks and a hole on the disk of [ex_fs] *)

Definition ex_file : Inode := {|
  i_mode := 0x81A4; i_size := 2600; i_atime := 1; i_ctime := 2; i_mtime := 3;
  i_dtime := 0; i_links := 1; i_sectors := 4; i_flags := 0;
  i_block := [3; 4; 0; 0; 0; 0; 0; 0; 0; 0; 0; 0; 0; 0; 0]; i_file_acl := 0 |}.

Lemma ex_file_readable : readable ex_geo ex_view ex_file 0 2600.
Proof.
  intros n Hn Hlt. change (0 / block_size ex_geo) with 0 in Hn. change (block_size ex_geo) with 1024 in Hlt. assert (n = 0 ∨ n = 1 ∨ n = 2) as [->|[->| ->]] by lia;
    vm_compute; eexists; reflexivity.
Qed.

Lemma read_data_correct_witness :
  ∃ r fs', read_data ex_file 0 (replicate 3000 1) ex_fs = Some (r, fs') ∧
    ∃ c, fs' = with_cache ex_fs c ∧ cache_at 1024 c ex_view ∧
    match r with
    | Ok (n, out') => n = 2600 ∧ length out' = length (replicate 3000 1) ∧
        (∀ i : nat, Z.of_nat i < 2600 →
           out' !! i = file_byte ex_geo ex_view ex_file (0 + Z.of_nat i)) ∧
        (∀ i : nat, 2600 <= Z.of_nat i → out' !! i = replicate 3000 1 !! i)
    | Err e => e = Io ∧ faulty (D := Ram)
    end.
Proof.
  assert (E : Z.max 0 (Z.min (zlen (replicate 3000 1)) (i_size ex_file - 0)) = 2600).
  { rewrite length_replicate. reflexivity. }
  pose proof (read_data_correct ex_fs ex_view ex_file 0 (replicate 3000 1)) as Hr.
  cbv zeta in Hr. rewrite E in Hr. apply Hr.
  - exact ex_wf.
  - exact (proj1 ex_alloc_inv).
  - repeat constructor; lia.
  - lia.
  - exact ex_file_readable.
Defined.
