(* ===== verification/Ext2Dir.v ===== *)
(** * ext2: directories ([modules/ext2/ext2fs/src/dir.rs])

    A directory block as a list of variable-length entries, the closures the
    directory operations run on a block, and the operations themselves.
    Names are byte strings. *)

From stdpp Require Import gmap functions.
From S2P Require Import Prelude Ext2Layout Ext2Cache Ext2Alloc Ext2Inode.

(** [(8 + n + 3) & !3] *)
Definition entry_size (n : Z) : Z := Z.ldiff (8 + n + 3) 3.

Record Entry := { e_off : Z; e_ino : Z; e_rec_len : Z; e_name_len : Z }.

(** The loop of [entries] from [off]: a record is at least 8 bytes, so that
    the block's length is fuel enough. *)
Fixpoint entries_from (fuel : nat) (blk : list Z) (filetype : bool) (off : Z)
    : option (list Entry) :=
  match fuel with
  | O => None
  | S fuel' =>
      if off + 8 <=? zlen blk then
        rec_len ← get16 blk (off + 4);
        name_len ← (if filetype then zget blk (off + 6) else get16 blk (off + 6));
        if (rec_len <? 8) || negb (rec_len mod 4 =? 0) || (zlen blk <? off + rec_len)
           || (rec_len <? 8 + name_len)
        then Some []
        else
          ino ← get32 blk off;
          rest ← entries_from fuel' blk filetype (off + rec_len);
          Some ({| e_off := off; e_ino := ino; e_rec_len := rec_len; e_name_len := name_len |} :: rest)
      else Some []
  end.

Definition entries (blk : list Z) (filetype : bool) : option (list Entry) :=
  entries_from (S (length blk)) blk filetype 0.

Definition put_entry (blk : list Z) (off ino rec_len : Z) (name : list Z) (ft : Z)
    (filetype : bool) : option (list Z) :=
  blk ← put32 blk off ino;
  blk ← put16 blk (off + 4) (rec_len mod 2 ^ 16);
  blk ← (if filetype then
           blk ← zset blk (off + 6) (zlen name mod 2 ^ 8);
           zset blk (off + 7) ft
         else put16 blk (off + 6) (zlen name mod 2 ^ 16));
  copy_slice blk (off + 8) (off + 8 + zlen name) name.

(** [&blk[e.off + 8..e.off + 8 + e.name_len]] *)
Definition entry_name (blk : list Z) (e : Entry) : option (list Z) :=
  slice blk (e_off e + 8) (e_off e + 8 + e_name_len e).

(** [e.ino != 0 && &blk[..] == name] *)
Definition named (blk name : list Z) (e : Entry) : option bool :=
  if e_ino e =? 0 then Some false
  else s ← entry_name blk e; Some (bool_decide (s = name)).

(** [iter().find(p)], with [p] that may panic, and [position] *)
Fixpoint find_o {A} (p : A → option bool) (l : list A) : option (option A) :=
  match l with
  | [] => Some None
  | x :: l' => b ← p x; if b : bool then Some (Some x) else find_o p l'
  end.

Fixpoint position_o {A} (p : A → option bool) (l : list A) : option (option nat) :=
  match l with
  | [] => Some None
  | x :: l' => b ← p x; if b : bool then Some (Some O) else o ← position_o p l'; Some (option_map S o)
  end.

(** The bytes an entry takes, and those it has to spare. *)
Definition entry_used (e : Entry) : Z := if e_ino e =? 0 then 0 else entry_size (e_name_len e).
Definition has_room (need : Z) (e : Entry) : option bool :=
  r ← usub (e_rec_len e) (entry_used e); Some (need <=? r).

(** The closures of [lookup], [dir_add], [dir_remove] and [dir_set_parent]. *)
Definition lookup_in (ft : bool) (name blk : list Z) : option (option (Z * Z)) :=
  es ← entries blk ft;
  o ← find_o (named blk name) es;
  match o with
  | Some e => t ← (if ft then zget blk (e_off e + 7) else Some 0); Some (Some (e_ino e, t))
  | None => Some None
  end.

Definition fits_in (filetype : bool) (need : Z) (blk : list Z) : option bool :=
  es ← entries blk filetype;
  o ← find_o (has_room need) es;
  Some (bool_decide (is_Some o)).

Definition add_in (filetype : bool) (need ino : Z) (name : list Z) (ft : Z) (blk : list Z)
    : option (bool * list Z) :=
  es ← entries blk filetype;
  o ← find_o (has_room need) es;
  match o with
  | None => Some (false, blk)
  | Some e =>
      let used := entry_used e in
      blk ← (if negb (e_ino e =? 0) then put16 blk (e_off e + 4) (used mod 2 ^ 16) else Some blk);
      r ← usub (e_rec_len e) used;
      blk ← put_entry blk (e_off e + used) ino r name ft filetype;
      Some (true, blk)
  end.

Definition has_name (filetype : bool) (name blk : list Z) : option bool :=
  es ← entries blk filetype;
  o ← find_o (named blk name) es;
  Some (bool_decide (is_Some o)).

Definition remove_in (filetype : bool) (name blk : list Z) : option (option Z * list Z) :=
  es ← entries blk filetype;
  o ← position_o (named blk name) es;
  match o with
  | None => Some (None, blk)
  | Some i =>
      e ← es !! i;
      blk ← match i with
            | O => put32 blk (e_off e) 0
            | S j =>
                prev ← es !! j;
                put16 blk (e_off prev + 4) ((e_rec_len prev + e_rec_len e) mod 2 ^ 16)
            end;
      Some (Some (e_ino e), blk)
  end.

Definition DOT : list Z := [46].
Definition DOTDOT : list Z := [46; 46].

Definition set_parent_in (filetype : bool) (parent : Z) (blk : list Z) : option (bool * list Z) :=
  es ← entries blk filetype;
  o ← find_o (named blk DOTDOT) es;
  match o with
  | Some e => blk ← put32 blk (e_off e) parent; Some (true, blk)
  | None => Some (false, blk)
  end.

(** [entries(..).iter().filter(|e| e.ino != 0).all(|e| f(name, e.ino))] with a
    closure [f] that has state. *)
Fixpoint all_entries {T} (f : T → list Z → Z → bool * T) (blk : list Z) (l : list Entry) (acc : T)
    : option (bool * T) :=
  match l with
  | [] => Some (true, acc)
  | e :: l' =>
      if e_ino e =? 0 then all_entries f blk l' acc
      else
        s ← entry_name blk e;
        let '(go, acc) := f acc s (e_ino e) in
        if go : bool then all_entries f blk l' acc else Some (false, acc)
  end.

Section dir.
Context {D : Type} `{Device D}.
Implicit Types (fs : Fs D) (dir : Inode).

Definition dir_blocks dir : fprog (D := D) (list Z) :=
  fs ← get_state;
  n ← checked (div_ceil (i_size dir) (block_size (geo fs)));
  fold_m (λ out i,
    '(b, _) ← try_node dir (bmap i false);
    mret (if negb (b =? 0) then out ++ [b] else out)) (seqZ 0 n) [].

(** The accumulator of [f] is what it has collected so far. *)
Fixpoint each_block {T} (ft : bool) (f : T → list Z → Z → bool * T) (l : list Z) (acc : T)
    : fprog (D := D) T :=
  match l with
  | [] => mret acc
  | b :: l' =>
      '(go, acc) ← on_cache (read b (λ blk, es ← entries blk ft; all_entries f blk es acc));
      if go : bool then each_block ft f l' acc else mret acc
  end.

Definition for_each_entry {T} dir (f : T → list Z → Z → bool * T) (acc : T) : fprog (D := D) T :=
  fs ← get_state;
  l ← dir_blocks dir;
  each_block (filetype (geo fs)) f l acc.

Definition dir_lookup dir (name : list Z) : fprog (D := D) (option (Z * Z)) :=
  fs ← get_state;
  l ← dir_blocks dir;
  find_m (λ b, on_cache (read b (lookup_in (filetype (geo fs)) name))) l.

(** [dir_add] in one of the directory's blocks: whether it found room. *)
Definition add_to_block (dir_ino : Z) dir (filetype : bool) (need ino : Z) (name : list Z)
    (ft b : Z) : fprog (D := D) (option ()) :=
  fits ← on_cache (read b (fits_in filetype need));
  if negb fits then mret None
  else
    placed ← on_cache (modify b (add_in filetype need ino name ft));
    if placed : bool then
      _ ← (if negb (Z.land (i_flags dir) INDEX_FL =? 0) then
             write_inode dir_ino (upd_flags dir (Z.ldiff (i_flags dir) INDEX_FL))
           else mret tt);
      mret (Some tt)
    else mret None.

Definition dir_add (dir_ino : Z) (name : list Z) (ino file_type : Z) : fprog (D := D) () :=
  fs ← get_state;
  let filetype := filetype (geo fs) in
  let ft := if filetype then file_type else 0 in
  let need := entry_size (zlen name) in
  dir ← inode dir_ino;
  l ← dir_blocks dir;
  o ← find_m (add_to_block dir_ino dir filetype need ino name ft) l;
  match o with
  | Some _ => mret tt
  | None =>
      let bs := block_size (geo fs) in
      n ← checked (udiv (i_size dir) bs);
      '(b, dir) ← try_node dir (bmap n true);
      _ ← on_cache (modify b (λ blk,
            blk' ← put_entry blk 0 ino bs name ft filetype; Some (tt, blk')));
      let dir := upd_flags (upd_size dir ((n + 1) * bs)) (Z.ldiff (i_flags dir) INDEX_FL) in
      t ← now;
      write_inode dir_ino (upd_mtime dir t)
  end.

Definition remove_from_block (dir_ino : Z) dir (filetype : bool) (name : list Z) (b : Z)
    : fprog (D := D) (option Z) :=
  here ← on_cache (read b (has_name filetype name));
  if negb here then mret None
  else
    removed ← on_cache (modify b (remove_in filetype name));
    match removed with
    | Some ino =>
        let dir := upd_flags dir (Z.ldiff (i_flags dir) INDEX_FL) in
        t ← now;
        _ ← write_inode dir_ino (upd_mtime dir t);
        mret (Some ino)
    | None => mret None
    end.

Definition dir_remove (dir_ino : Z) (name : list Z) : fprog (D := D) Z :=
  fs ← get_state;
  dir ← inode dir_ino;
  l ← dir_blocks dir;
  o ← find_m (remove_from_block dir_ino dir (filetype (geo fs)) name) l;
  match o with Some ino => mret ino | None => throw NotFound end.

Definition dir_init (ino parent : Z) : fprog (D := D) () :=
  fs ← get_state;
  let filetype := filetype (geo fs) in
  let ft := if filetype then FT_DIR else 0 in
  let bs := block_size (geo fs) in
  node ← inode ino;
  '(b, node) ← try_node node (bmap 0 true);
  _ ← on_cache (modify b (λ blk,
        blk ← put_entry blk 0 ino 12 DOT ft filetype;
        r ← usub bs 12;
        blk ← put_entry blk 12 parent r DOTDOT ft filetype;
        Some (tt, blk)));
  write_inode ino (upd_links (upd_size node bs) 2).

Definition dir_set_parent (ino parent : Z) : fprog (D := D) () :=
  fs ← get_state;
  node ← inode ino;
  l ← dir_blocks node;
  o ← find_m (λ b,
        done ← on_cache (modify b (set_parent_in (filetype (geo fs)) parent));
        mret (if done : bool then Some tt else None)) l;
  match o with Some _ => mret tt | None => throw Invalid end.

Definition dir_is_empty dir : fprog (D := D) bool :=
  for_each_entry dir (λ _ name _,
    let empty := bool_decide (name = DOT) || bool_decide (name = DOTDOT) in (empty, empty)) true.

End dir.

(** ** A directory block as a list of names

    The proofs see a block as a chain of valid records, each beginning where
    the one before it ends, up to the end of the block or the first malformed
    one. *)

Lemma entry_size_spec n : 0 <= n → 8 + n <= entry_size n < 12 + n ∧ entry_size n mod 4 = 0.
Proof.
  intros Hn. unfold entry_size.
  assert (E : Z.ldiff (8 + n + 3) 3 = (8 + n + 3) / 4 * 4).
  { change 3 with (Z.ones 2) at 2. rewrite Z.ldiff_ones_r by lia.
    rewrite Z.shiftr_div_pow2, Z.shiftl_mul_pow2 by lia. done. }
  rewrite E. split; [zdiv|]. apply Z.mod_mul. lia.
Qed.

Section block.
Context (ft : bool).
Implicit Types (blk name : list Z) (e : Entry).

Definition name_len_at blk (off : Z) : option Z :=
  if ft then zget blk (off + 6) else get16 blk (off + 6).

(** The header at [off] is one the scan accepts. *)
Definition good_header blk (off rec_len name_len : Z) : bool :=
  negb ((rec_len <? 8) || negb (rec_len mod 4 =? 0) || (zlen blk <? off + rec_len)
        || (rec_len <? 8 + name_len)).

Definition valid_rec blk e : Prop :=
  e_off e + 8 <= zlen blk ∧
  get16 blk (e_off e + 4) = Some (e_rec_len e) ∧
  name_len_at blk (e_off e) = Some (e_name_len e) ∧
  get32 blk (e_off e) = Some (e_ino e) ∧
  good_header blk (e_off e) (e_rec_len e) (e_name_len e) = true.

Fixpoint chain blk (off : Z) (es : list Entry) (last : Z) : Prop :=
  match es with
  | [] => off = last
  | e :: es' => e_off e = off ∧ valid_rec blk e ∧ chain blk (off + e_rec_len e) es' last
  end.

(** The scan ends at [off]. *)
Definition stops blk (off : Z) : Prop :=
  zlen blk < off + 8 ∨
  ∃ rec_len name_len, get16 blk (off + 4) = Some rec_len ∧
    name_len_at blk off = Some name_len ∧ good_header blk off rec_len name_len = false.

Lemma name_len_at_ok blk off : 0 <= off → off + 8 <= zlen blk → ∃ v, name_len_at blk off = Some v.
Proof.
  intros. unfold name_len_at. destruct ft; [apply zget_is_some; lia|apply get16_ok; lia].
Qed.

Lemma name_len_nonneg blk off v : Forall is_byte blk → name_len_at blk off = Some v → 0 <= v.
Proof.
  intros Hb. unfold name_len_at. destruct ft; intros Hv.
  - pose proof (zget_some _ _ _ Hv). rewrite zget_lookup in Hv by lia.
    eapply Forall_lookup_1 in Hv; [|done]. unfold is_byte in Hv. lia.
  - eapply get16_range in Hv; [lia|done].
Qed.

Lemma good_header_spec blk off r n :
  good_header blk off r n = true ↔ 8 <= r ∧ r mod 4 = 0 ∧ off + r <= zlen blk ∧ 8 + n <= r.
Proof.
  unfold good_header. rewrite negb_true_iff, !orb_false_iff, negb_false_iff. lia.
Qed.

(** The scan of [entries] finds the chain, and never runs out of fuel. *)
Lemma entries_from_ok fuel blk off :
  0 <= off → (Z.to_nat (zlen blk - off) < fuel)%nat →
  ∃ es last, entries_from fuel blk ft off = Some es ∧ chain blk off es last ∧ stops blk last.
Proof.
  revert off. induction fuel as [|fuel IH]; intros off Ho Hf; [lia|]. cbn [entries_from].
  destruct (off + 8 <=? zlen blk) eqn:E; bool_hyps.
  2:{ exists [], off. split; [done|]. split; [done|]. left. lia. }
  destruct (get16_ok blk (off + 4)) as [r Er]; [lia..|].
  destruct (name_len_at_ok blk off) as [n En]; [lia..|].
  destruct (get32_ok blk off) as [ino Ei]; [lia..|].
  rewrite Er. cbn [mbind option_bind]. unfold name_len_at in En.
  rewrite En. cbn [mbind option_bind].
  destruct (good_header blk off r n) eqn:Eg.
  - pose proof Eg as Eg'. unfold good_header in Eg. apply negb_true_iff in Eg. rewrite Eg, Ei.
    cbn [mbind option_bind]. apply good_header_spec in Eg'.
    destruct (IH (off + r)) as (es&last&->&Hc&Hs); [lia..|]. cbn [mbind option_bind].
    do 2 eexists. split; [done|]. split; [|done]. cbn. split_and!; try done. unfold valid_rec. cbn.
    split_and!; try done. by apply good_header_spec.
  - pose proof Eg as Eg'. unfold good_header in Eg. apply negb_false_iff in Eg. rewrite Eg.
    exists [], off. split; [done|]. split; [done|]. right. by exists r, n.
Qed.

Lemma entries_ok blk :
  ∃ es last, entries blk ft = Some es ∧ chain blk 0 es last ∧ stops blk last.
Proof. apply entries_from_ok; lia. Qed.

(** Conversely the scan returns any chain that ends where it stops. *)
Lemma chain_entries_from fuel blk off es last :
  chain blk off es last → stops blk last → 0 <= off → (Z.to_nat (zlen blk - off) < fuel)%nat →
  entries_from fuel blk ft off = Some es.
Proof.
  revert off es. induction fuel as [|fuel IH]; intros off es Hc Hs Ho Hf; [lia|].
  cbn [entries_from]. destruct es as [|e es].
  - cbn in Hc. subst. destruct Hs as [Hs|(r&n&Er&En&Eg)].
    + destruct (last + 8 <=? zlen blk) eqn:E; bool_hyps; [lia|done].
    + destruct (last + 8 <=? zlen blk); [|done]. rewrite Er. cbn [mbind option_bind].
      unfold name_len_at in En. rewrite En. cbn [mbind option_bind].
      unfold good_header in Eg. apply negb_false_iff in Eg. by rewrite Eg.
  - destruct Hc as (<-&(Hle&Er&En&Ei&Eg)&Hc).
    destruct (e_off e + 8 <=? zlen blk) eqn:E; bool_hyps; [|lia].
    rewrite Er. cbn [mbind option_bind]. unfold name_len_at in En. rewrite En.
    cbn [mbind option_bind]. pose proof Eg as Eg'. unfold good_header in Eg.
    apply negb_true_iff in Eg. rewrite Eg, Ei. cbn [mbind option_bind].
    apply good_header_spec in Eg'. erewrite IH; [|done|done|lia..]. cbn. by destruct e.
Qed.

Lemma chain_entries blk es last :
  chain blk 0 es last → stops blk last → entries blk ft = Some es.
Proof. intros. by eapply chain_entries_from; [..|lia|lia]. Qed.

Lemma chain_app blk off es1 es2 last :
  chain blk off (es1 ++ es2) last ↔ ∃ mid, chain blk off es1 mid ∧ chain blk mid es2 last.
Proof.
  revert off. induction es1 as [|e es1 IH]; intros off; cbn [app chain].
  - split; [eauto|]. by intros (mid&->&?).
  - rewrite IH. split.
    + intros (?&?&mid&?&?). exists mid. auto.
    + intros (mid&(?&?&?)&?). eauto 10.
Qed.

Lemma chain_bounds blk off es last :
  chain blk off es last → 0 <= off → off <= zlen blk →
  off <= last <= zlen blk ∧ Forall (λ e, off <= e_off e ∧ e_off e + e_rec_len e <= last) es.
Proof.
  revert off. induction es as [|e es IH]; intros off; cbn [chain].
  - intros -> ? ?. split; [lia|constructor].
  - intros (<-&(Hle&_&_&_&Hg)&Hc) ? ?. apply good_header_spec in Hg.
    destruct (IH _ Hc) as [Hl Hf]; [lia..|]. split; [lia|]. constructor; [lia|].
    eapply Forall_impl; [|exact Hf]. cbn. lia.
Qed.

(** [blk'] has [blk]'s bytes from [x0] to [y0]. *)
Definition agree blk blk' (x0 y0 : Z) : Prop :=
  length blk' = length blk ∧ ∀ x y, x0 <= x → y <= y0 → slice blk' x y = slice blk x y.

Lemma slice_one blk i : 0 <= i → slice blk i (i + 1) = (λ v, [v]) <$> zget blk i.
Proof.
  intros Hi. rewrite zget_lookup by done. unfold slice. case_if.
  - destruct (lookup_lt_is_Some_2 blk (Z.to_nat i)) as [v Hv]; [lia|]. rewrite Hv. cbn.
    f_equal. replace (Z.to_nat (i + 1 - i)) with 1%nat by lia.
    rewrite (drop_S _ _ _ Hv). done.
  - rewrite lookup_ge_None_2; [done|]. lia.
Qed.

Lemma agree_zget blk blk' x0 y0 i :
  agree blk blk' x0 y0 → 0 <= i → x0 <= i → i + 1 <= y0 → zget blk' i = zget blk i.
Proof.
  intros [_ Hs] Hi H1 H2. specialize (Hs i (i + 1) H1 H2). rewrite !slice_one in Hs by done.
  destruct (zget blk' i), (zget blk i); cbn in Hs; congruence.
Qed.

Lemma agree_get16 blk blk' x0 y0 o :
  agree blk blk' x0 y0 → x0 <= o → o + 2 <= y0 → get16 blk' o = get16 blk o.
Proof. intros [_ Hs] ??. unfold get16. by rewrite Hs. Qed.

Lemma agree_get32 blk blk' x0 y0 o :
  agree blk blk' x0 y0 → x0 <= o → o + 4 <= y0 → get32 blk' o = get32 blk o.
Proof. intros [_ Hs] ??. unfold get32. by rewrite Hs. Qed.

Lemma agree_name_len blk blk' x0 y0 off :
  agree blk blk' x0 y0 → 0 <= off → x0 <= off → off + 8 <= y0 →
  name_len_at blk' off = name_len_at blk off.
Proof.
  intros Ha ???. unfold name_len_at. destruct ft.
  - eapply agree_zget; [done|lia..].
  - eapply agree_get16; [done|lia..].
Qed.

Lemma changed_agree b b' o n x0 y0 : changed_at b b' o n → y0 <= o ∨ o + n <= x0 → agree b b' x0 y0.
Proof. intros (Hl&_&Hs) Hd. split; [done|]. intros. apply Hs. lia. Qed.

Lemma agree_trans b b' b'' x0 y0 : agree b b' x0 y0 → agree b' b'' x0 y0 → agree b b'' x0 y0.
Proof. intros [L1 S1] [L2 S2]. split; [congruence|]. intros. rewrite S2, S1; done. Qed.

Lemma agree_sub b b' x0 y0 x1 y1 : agree b b' x0 y0 → x0 <= x1 → y1 <= y0 → agree b b' x1 y1.
Proof. intros [L S] ??. split; [done|]. intros. apply S; lia. Qed.

Lemma valid_rec_frame blk blk' e :
  agree blk blk' (e_off e) (e_off e + 8) → 0 <= e_off e → valid_rec blk e → valid_rec blk' e.
Proof.
  intros Ha Ho (Hle&Er&En&Ei&Eg). split_and!.
  - by rewrite (proj1 Ha).
  - rewrite <-Er. eapply agree_get16; [done|lia..].
  - rewrite <-En. eapply agree_name_len; [done|lia..].
  - rewrite <-Ei. eapply agree_get32; [done|lia..].
  - unfold good_header in *. by rewrite (proj1 Ha).
Qed.

Lemma chain_frame blk blk' off es last :
  agree blk blk' off last → 0 <= off → off <= zlen blk → chain blk off es last → chain blk' off es last.
Proof.
  revert off. induction es as [|e es IH]; intros off Ha Ho Hz; cbn [chain]; [done|].
  intros (<-&Hv&Hc). pose proof Hv as (_&_&_&_&Hg). apply good_header_spec in Hg.
  destruct (chain_bounds _ _ _ _ Hc) as [Hl _]; [lia..|]. split_and!; [done| |].
  - eapply valid_rec_frame; [|done|done]. eapply agree_sub; [done|lia..].
  - apply IH; [|lia..|done]. eapply agree_sub; [done|lia..].
Qed.

Lemma stops_frame blk blk' last :
  agree blk blk' last (zlen blk) → 0 <= last → stops blk last → stops blk' last.
Proof.
  intros Ha Hl [Hs|(r&n&Er&En&Eg)]; [left; by rewrite (proj1 Ha)|].
  destruct (Z_lt_ge_dec (zlen blk) (last + 8)); [left; by rewrite (proj1 Ha)|]. right.
  exists r, n. split_and!.
  - rewrite <-Er. eapply agree_get16; [done|lia..].
  - rewrite <-En. eapply agree_name_len; [done|lia..].
  - unfold good_header in *. by rewrite (proj1 Ha).
Qed.

(** *** Names *)

Definition e_name blk e : list Z := default [] (entry_name blk e).
Definition e_type blk e : Z := if ft then default 0 (zget blk (e_off e + 7)) else 0.
Definition e_info blk e : list Z * Z * Z := (e_name blk e, e_ino e, e_type blk e).

(** The names among records [es], and those of a block. *)
Definition live blk (es : list Entry) : list (list Z * Z * Z) :=
  e_info blk <$> filter (λ e, e_ino e ≠ 0) es.
Definition listing blk : list (list Z * Z * Z) := live blk (default [] (entries blk ft)).

Lemma listing_entries blk es : entries blk ft = Some es → listing blk = live blk es.
Proof. unfold listing. by intros ->. Qed.

Lemma live_app blk es1 es2 : live blk (es1 ++ es2) = live blk es1 ++ live blk es2.
Proof. unfold live. by rewrite list.filter_app, fmap_app. Qed.

Lemma live_cons blk e es :
  live blk (e :: es) = (if e_ino e =? 0 then [] else [e_info blk e]) ++ live blk es.
Proof.
  unfold live. rewrite list.filter_cons. destruct (e_ino e =? 0) eqn:E; bool_hyps.
  - by rewrite decide_False by (by intros []).
  - by rewrite decide_True.
Qed.

Lemma e_info_frame blk blk' e :
  agree blk blk' (e_off e + 6) (e_off e + 8 + e_name_len e) → 0 <= e_off e → 0 <= e_name_len e →
  e_info blk' e = e_info blk e.
Proof.
  intros Ha Ho Hn. unfold e_info, e_name, e_type, entry_name.
  rewrite (proj2 Ha) by lia. f_equal. destruct ft; [|done].
  f_equal. eapply agree_zget; [done|lia..].
Qed.

Lemma chain_name_len blk off es last :
  Forall is_byte blk → chain blk off es last → Forall (λ e, 0 <= e_name_len e ∧
    8 + e_name_len e <= e_rec_len e ∧ valid_rec blk e) es.
Proof.
  intros Hb. revert off. induction es as [|e es IH]; intros off; cbn [chain]; [constructor|].
  intros (_&Hv&Hc). constructor; [|by eapply IH]. pose proof Hv as (_&_&En&_&Hg).
  apply good_header_spec in Hg. split_and!; [by eapply name_len_nonneg|lia|done].
Qed.

Lemma live_frame blk blk' off es last :
  Forall is_byte blk → agree blk blk' off last → 0 <= off → off <= zlen blk →
  chain blk off es last → live blk' es = live blk es.
Proof.
  intros Hb Ha Ho Hz Hc. destruct (chain_bounds _ _ _ _ Hc Ho Hz) as [_ Hf].
  pose proof (chain_name_len _ _ _ _ Hb Hc) as Hn. clear Hc.
  induction es as [|e es IH]; [done|]. apply Forall_cons_iff in Hf as [He Hf], Hn as [Hne Hn].
  rewrite !live_cons, (IH Hf Hn). destruct (e_ino e =? 0); [done|].
  rewrite (e_info_frame blk blk' e); [done| |lia|lia]. eapply agree_sub; [done|lia..].
Qed.

(** *** Searches *)

Lemma find_o_spec {A} (p : A → option bool) (q : A → bool) l :
  Forall (λ x, p x = Some (q x)) l →
  (find_o p l = Some None ∧ Forall (λ x, q x = false) l) ∨
  (∃ l1 x l2, l = l1 ++ x :: l2 ∧ find_o p l = Some (Some x) ∧
     position_o p l = Some (Some (length l1)) ∧ q x = true ∧ Forall (λ x, q x = false) l1).
Proof.
  induction 1 as [|x l Hx _ IH]; cbn [find_o position_o]; [by left|]. rewrite Hx. cbn.
  destruct (q x) eqn:E.
  - right. by exists [], x, l.
  - destruct IH as [[-> Hf]|(l1&y&l2&->&->&->&Hy&Hf)].
    + left. split; [done|by constructor].
    + right. exists (x :: l1), y, l2. cbn. split_and!; try done. by constructor.
Qed.

Lemma position_o_none {A} (p : A → option bool) l :
  find_o p l = Some None → position_o p l = Some None.
Proof.
  induction l as [|x l IH]; cbn [find_o position_o]; [done|].
  destruct (p x) as [[]|]; cbn; [done| |done]. intros H. by rewrite IH.
Qed.

Definition is_named blk name e : bool :=
  negb (e_ino e =? 0) && bool_decide (e_name blk e = name).

Lemma entry_name_ok blk e :
  valid_rec blk e → 0 <= e_off e → 0 <= e_name_len e → entry_name blk e = Some (e_name blk e).
Proof.
  intros (_&_&_&_&Hg%good_header_spec) ??. unfold e_name, entry_name.
  rewrite slice_ok by lia. done.
Qed.

Lemma named_ok blk name off es last :
  Forall is_byte blk → 0 <= off → off <= zlen blk → chain blk off es last →
  Forall (λ e, named blk name e = Some (is_named blk name e)) es.
Proof.
  intros Hb Ho Hz Hc. destruct (chain_bounds _ _ _ _ Hc Ho Hz) as [_ Hf].
  pose proof (chain_name_len _ _ _ _ Hb Hc) as Hn.
  apply Forall_forall. intros e He. rewrite Forall_forall in Hf, Hn.
  destruct (Hf e He), (Hn e He) as (?&?&?). unfold named, is_named.
  destruct (e_ino e =? 0); [done|]. by rewrite entry_name_ok by (done || lia).
Qed.

Definition spare e : Z := e_rec_len e - entry_used e.

(** A record has at least the bytes its own name takes: no underflow. *)
Lemma entry_used_range blk e :
  valid_rec blk e → 0 <= e_name_len e → 0 <= entry_used e <= e_rec_len e ∧ entry_used e mod 4 = 0.
Proof.
  intros (_&_&_&_&Hg%good_header_spec) Hn. unfold entry_used.
  destruct (entry_size_spec (e_name_len e) Hn) as [Hs Hm].
  destruct (e_ino e =? 0); [split; [lia|done]|]. split; [|done].
  assert (e_rec_len e mod 4 = 0) by tauto. split; [lia|]. zdiv.
Qed.

Lemma has_room_ok blk need off es last :
  Forall is_byte blk → chain blk off es last →
  Forall (λ e, has_room need e = Some (need <=? spare e)) es.
Proof.
  intros Hb Hc. eapply Forall_impl; [|by eapply chain_name_len]. cbn. intros e (Hn&_&Hv).
  destruct (entry_used_range _ _ Hv Hn) as [Hu _]. unfold has_room, usub, spare.
  case_if; [done|lia].
Qed.

Lemma zset_ok blk i v :
  0 <= i < zlen blk → is_byte v →
  ∃ blk', zset blk i v = Some blk' ∧ changed_at blk blk' i 1 ∧ zget blk' i = Some v.
Proof.
  intros Hi Hv. assert (E : <[Z.to_nat i := v]> blk = splice blk i [v]).
  { unfold splice. rewrite insert_take_drop by lia. cbn [length app].
    by replace (Z.to_nat i + 1)%nat with (S (Z.to_nat i)) by lia. }
  unfold zset. case_if; [|lia]. exists (splice blk i [v]). rewrite E. split; [done|]. split.
  - apply (splice_changed blk i [v]); [lia|cbn; lia|by constructor].
  - rewrite zget_lookup by lia. rewrite splice_lookup_in by (cbn; lia).
    by replace (Z.to_nat i - Z.to_nat i)%nat with O by lia.
Qed.

Lemma put_entry_ok blk off ino rec name t :
  0 <= off → off + 8 + zlen name <= zlen blk → Forall is_byte name → zlen name <= 255 →
  0 <= ino < 2 ^ 32 → 0 <= rec < 2 ^ 16 → is_byte t →
  ∃ blk', put_entry blk off ino rec name t ft = Some blk' ∧
    changed_at blk blk' off (8 + zlen name) ∧ get32 blk' off = Some ino ∧
    get16 blk' (off + 4) = Some rec ∧ name_len_at blk' off = Some (zlen name) ∧
    slice blk' (off + 8) (off + 8 + zlen name) = Some name ∧
    (ft = true → zget blk' (off + 7) = Some t).
Proof.
  intros Ho Hl Hnb Hnl Hi Hr Ht. unfold put_entry.
  destruct (put32_ok blk off ino) as (b1&->&C1&G1); [lia..|]. specialize (G1 Hi).
  cbn [mbind option_bind]. rewrite (Z.mod_small rec) by done.
  destruct (put16_ok b1 (off + 4) rec) as (b2&->&C2&G2); [lia|rewrite (proj1 C1); lia|].
  specialize (G2 Hr). cbn [mbind option_bind].
  assert (L2 : length b2 = length blk) by (rewrite (proj1 C2); apply C1).
  assert (∃ b3, (if ft then blk ← zset b2 (off + 6) (zlen name mod 2 ^ 8); zset blk (off + 7) t
                 else put16 b2 (off + 6) (zlen name mod 2 ^ 16)) = Some b3 ∧
    changed_at b2 b3 (off + 6) 2 ∧ name_len_at b3 off = Some (zlen name) ∧
    (ft = true → zget b3 (off + 7) = Some t)) as (b3&E3&C3&G3&T3).
  { unfold name_len_at. destruct ft.
    - rewrite Z.mod_small by lia.
      destruct (zset_ok b2 (off + 6) (zlen name)) as (b&->&Ca&Ga); [lia|unfold is_byte; lia|].
      cbn [mbind option_bind].
      destruct (zset_ok b (off + 7) t) as (b3&->&Cb&Gb); [rewrite (proj1 Ca); lia|done|].
      exists b3. split; [done|]. split_and!; [|..|done].
      + eapply changed_at_trans; [exact Ca|exact Cb|lia..].
      + rewrite <-Ga. eapply (agree_zget _ _ (off + 6) (off + 7)); [|lia..].
        eapply changed_agree; [done|lia].
    - rewrite Z.mod_small by lia.
      destruct (put16_ok b2 (off + 6) (zlen name)) as (b3&->&Cb&Gb); [lia..|].
      exists b3. split; [done|]. split_and!; [done| |done]. apply Gb. lia. }
  rewrite E3. cbn [mbind option_bind].
  assert (L3 : length b3 = length blk) by (rewrite (proj1 C3); done).
  rewrite copy_slice_ok by lia. eexists. split; [done|].
  pose proof (splice_changed b3 (off + 8) name ltac:(lia) ltac:(lia) Hnb) as C4.
  split_and!.
  - apply (changed_at_trans blk b3 _ off 8 (off + 8) (zlen name)); [|exact C4|lia..].
    apply (changed_at_trans blk b2 b3 off 6 (off + 6) 2); [|exact C3|lia..].
    eapply changed_at_trans; [exact C1|exact C2|lia..].
  - rewrite (changed_at_get32 _ _ _ _ _ C4), (changed_at_get32 _ _ _ _ _ C3),
      (changed_at_get32 _ _ _ _ _ C2) by lia. done.
  - rewrite (changed_at_get16 _ _ _ _ _ C4), (changed_at_get16 _ _ _ _ _ C3) by lia. done.
  - rewrite <-G3. eapply (agree_name_len _ _ off (off + 8)); [|lia..].
    eapply changed_agree; [done|lia].
  - apply slice_splice; lia.
  - intros E. rewrite <-(T3 E). eapply (agree_zget _ _ (off + 6) (off + 8)); [|lia..].
    eapply changed_agree; [done|lia].
Qed.

(** Rewriting some records in place: the scan finds the new ones between the
    old ones around them. *)
Lemma replace_records blk blk' es1 old news es2 mid mid' last :
  Forall is_byte blk → chain blk 0 es1 mid → chain blk mid old mid' → chain blk mid' es2 last →
  stops blk last → agree blk blk' 0 mid → agree blk blk' mid' (zlen blk) →
  chain blk' mid news mid' →
  listing blk = live blk es1 ++ live blk old ++ live blk es2 ∧
  listing blk' = live blk es1 ++ live blk' news ++ live blk es2.
Proof.
  intros Hb C1 Co C2 Hs Ha Ha' Cn.
  destruct (chain_bounds _ _ _ _ C1) as [Hm _]; [lia..|].
  destruct (chain_bounds _ _ _ _ Co) as [Hm' _]; [lia..|].
  destruct (chain_bounds _ _ _ _ C2) as [Hl _]; [lia..|].
  split.
  - rewrite (listing_entries blk (es1 ++ old ++ es2)); [by rewrite !live_app|].
    apply (chain_entries blk _ last); [|done]. rewrite chain_app. exists mid. split; [done|].
    rewrite chain_app. eauto.
  - rewrite (listing_entries blk' (es1 ++ news ++ es2)); [|apply (chain_entries blk' _ last)].
    + rewrite !live_app. f_equal; [|f_equal].
      * apply (live_frame _ _ 0 _ mid); [done|done|lia|lia|done].
      * apply (live_frame _ _ mid' _ last); [done| |lia|lia|done].
        apply (agree_sub _ _ mid' (zlen blk)); [done|lia..].
    + rewrite chain_app. exists mid. split; [by apply (chain_frame blk); [..|lia|lia|]|].
      rewrite chain_app. exists mid'. split; [done|].
      apply (chain_frame blk); [|lia|lia|done].
      apply (agree_sub _ _ mid' (zlen blk)); [done|lia..].
    + apply (stops_frame blk); [|lia|done].
      apply (agree_sub _ _ mid' (zlen blk)); [done|lia..].
Qed.

(** Splitting a chain at one of its records. *)
Lemma chain_split blk es1 e es2 last :
  chain blk 0 (es1 ++ e :: es2) last →
  chain blk 0 es1 (e_off e) ∧ valid_rec blk e ∧ chain blk (e_off e + e_rec_len e) es2 last ∧
  0 <= e_off e.
Proof.
  rewrite chain_app. cbn [chain]. intros (mid&C1&<-&Hv&C2).
  destruct (chain_bounds _ _ _ _ C1) as [Hm _]; [lia..|]. split_and!; try done. lia.
Qed.

(** The type field a new entry gets. *)
Definition stored_type (t : Z) : Z := if ft then t else 0.

(** Record [e] with room for a name: shortened to what it uses, if it is in
    use, and followed by the new record. *)
Lemma place_ok blk e ino name t :
  Forall is_byte blk → zlen blk < 2 ^ 16 → valid_rec blk e → 0 <= e_off e → 0 <= e_name_len e →
  Forall is_byte name → zlen name <= 255 → 0 < ino < 2 ^ 32 → is_byte t →
  entry_size (zlen name) <= spare e →
  ∃ blk1 blk' news,
    (if negb (e_ino e =? 0) then put16 blk (e_off e + 4) (entry_used e mod 2 ^ 16) else Some blk)
      = Some blk1 ∧
    put_entry blk1 (e_off e + entry_used e) ino (spare e) name t ft = Some blk' ∧
    changed_at blk blk' (e_off e) (e_rec_len e) ∧
    chain blk' (e_off e) news (e_off e + e_rec_len e) ∧
    live blk' news = live blk [e] ++ [(name, ino, stored_type t)].
Proof.
  intros Hb Hl Hv Ho Hn Hnb Hnl Hi Ht Hroom.
  destruct (entry_used_range _ _ Hv Hn) as [Hu Hum].
  destruct (entry_size_spec (zlen name) ltac:(lia)) as [Hes Hesm].
  pose proof Hv as (_&_&_&_&Hg%good_header_spec). unfold spare in *.
  assert (∃ blk1, (if negb (e_ino e =? 0) then put16 blk (e_off e + 4) (entry_used e mod 2 ^ 16)
    else Some blk) = Some blk1 ∧ changed_at blk blk1 (e_off e + 4) 2 ∧
    (e_ino e ≠ 0 → get16 blk1 (e_off e + 4) = Some (entry_used e))) as (blk1&E1&C1&G1).
  { rewrite Z.mod_small by lia. destruct (e_ino e =? 0) eqn:E; bool_hyps; cbn [negb].
    - exists blk. split; [done|]. split; [by repeat split|done].
    - destruct (put16_ok blk (e_off e + 4) (entry_used e)) as (b&->&C&G); [lia..|].
      exists b. split; [done|]. split; [done|]. intros _. apply G. lia. }
  assert (L1 : length blk1 = length blk) by apply C1.
  destruct (put_entry_ok blk1 (e_off e + entry_used e) ino (e_rec_len e - entry_used e) name t)
    as (blk'&E2&C2&Gi&Gr&Gn&Gs&Gt); [lia|lia|done|lia|lia|lia|done|].
  set (new := {| e_off := e_off e + entry_used e; e_ino := ino;
                 e_rec_len := e_rec_len e - entry_used e; e_name_len := zlen name |}).
  assert (L2 : length blk' = length blk) by (rewrite (proj1 C2); done).
  assert (Hnew : valid_rec blk' new).
  { unfold valid_rec, new. cbn. split_and!; try done; [lia|].
    apply good_header_spec. destruct Hg as (?&?&?&?). split_and!; [lia|zdiv|lia|lia]. }
  assert (Inew : e_info blk' new = (name, ino, stored_type t)).
  { unfold e_info, e_name, e_type, entry_name, stored_type, new. cbn. rewrite Gs. cbn.
    destruct ft; [|done]. by rewrite Gt. }
  assert (Lnew : live blk' [new] = [(name, ino, stored_type t)]).
  { rewrite live_cons. cbn [new e_ino]. destruct (ino =? 0) eqn:E; bool_hyps; [lia|].
    by rewrite Inew. }
  assert (CC : changed_at blk blk' (e_off e) (e_rec_len e)).
  { apply (changed_at_trans blk blk1 _ (e_off e + 4) 2 (e_off e + entry_used e) (8 + zlen name));
      [done|done|lia..]. }
  exists blk1, blk'. destruct (e_ino e =? 0) eqn:Ez; bool_hyps.
  - assert (Hu0 : entry_used e = 0) by (unfold entry_used; by rewrite Ez).
    exists [new]. split_and!; try done.
    + cbn. rewrite Hu0. split_and!; [lia|done|lia].
    + rewrite Lnew, live_cons. by rewrite Ez.
  - set (old := {| e_off := e_off e; e_ino := e_ino e; e_rec_len := entry_used e;
                   e_name_len := e_name_len e |}).
    assert (Hus : 8 + e_name_len e <= entry_used e).
    { unfold entry_used. rewrite (proj2 (Z.eqb_neq _ _) Ez). apply entry_size_spec. lia. }
    assert (A1 : agree blk1 blk' 0 (e_off e + entry_used e)) by (eapply changed_agree; [done|lia]).
    exists [old; new]. split_and!; try done.
    + cbn. split_and!; [done| |done|done|lia]. destruct Hv as (Hle&Er&En&Ei&_).
      unfold valid_rec, old. cbn. split_and!.
      * lia.
      * rewrite <-(G1 Ez). eapply agree_get16; [done|lia..].
      * rewrite <-En. rewrite (agree_name_len blk1 blk' 0 (e_off e + entry_used e)) by (done || lia).
        unfold name_len_at. destruct ft.
        -- eapply (agree_zget _ _ (e_off e + 6) (e_off e + 8)); [|lia..].
           eapply changed_agree; [done|lia].
        -- eapply changed_at_get16; [done|lia].
      * rewrite <-Ei, (agree_get32 blk1 blk' 0 (e_off e + entry_used e)) by (done || lia).
        eapply changed_at_get32; [done|lia].
      * apply good_header_spec. lia.
    + rewrite live_cons, Lnew, live_cons. cbn [old e_ino]. rewrite (proj2 (Z.eqb_neq _ _) Ez).
      rewrite app_nil_r. f_equal. f_equal.
      transitivity (e_info blk old); [|done].
      eapply e_info_frame; [|cbn; lia..]. cbn [old e_off e_name_len].
      apply (agree_trans blk blk1); [eapply changed_agree; [done|lia]|].
      eapply agree_sub; [done|lia..].
Qed.

(** *** Lookup, insertion and removal over the listing *)

Fixpoint assoc (name : list Z) (l : list (list Z * Z * Z)) : option (Z * Z) :=
  match l with
  | [] => None
  | (n, i, t) :: l' => if decide (n = name) then Some (i, t) else assoc name l'
  end.

Lemma assoc_app name l1 l2 :
  assoc name (l1 ++ l2) = match assoc name l1 with Some r => Some r | None => assoc name l2 end.
Proof.
  induction l1 as [|[[n i] t] l1 IH]; [done|]. cbn [app assoc]. case_decide; [done|apply IH].
Qed.

Lemma assoc_not_named blk name es :
  Forall (λ e, is_named blk name e = false) es → assoc name (live blk es) = None.
Proof.
  induction 1 as [|e es He _ IH]; [done|]. rewrite live_cons. unfold is_named in He.
  destruct (e_ino e =? 0); [done|]. cbn [negb andb] in He. apply bool_decide_eq_false in He.
  cbn [app]. unfold e_info at 1. cbn [assoc]. by rewrite decide_False.
Qed.

Lemma lookup_in_spec name blk :
  Forall is_byte blk → lookup_in ft name blk = Some (assoc name (listing blk)).
Proof.
  intros Hb. destruct (entries_ok blk) as (es&last&Ee&Hc&_). unfold lookup_in.
  rewrite (listing_entries _ _ Ee), Ee. cbn [mbind option_bind].
  destruct (find_o_spec (named blk name) (is_named blk name) es)
    as [[-> Hf]|(es1&e&es2&->&->&_&Hx&Hf)].
  - apply (named_ok _ _ 0 _ last); [done|lia|lia|done].
  - cbn [mbind option_bind]. by rewrite assoc_not_named.
  - cbn [mbind option_bind]. destruct (chain_split _ _ _ _ _ Hc) as (_&Hv&_&Ho).
    rewrite live_app, assoc_app, assoc_not_named, live_cons by done.
    unfold is_named in Hx. apply andb_true_iff in Hx as [Hz Hn%bool_decide_eq_true].
    apply negb_true_iff in Hz. rewrite Hz. cbn [app]. unfold e_info. cbn [assoc].
    rewrite decide_True by done. unfold e_type. destruct ft; [|done].
    destruct Hv as (Hle&_). destruct (zget_is_some blk (e_off e + 7)) as [v ->]; [lia|done].
Qed.

Lemma add_in_spec blk ino name t :
  Forall is_byte blk → zlen blk < 2 ^ 16 → Forall is_byte name → zlen name <= 255 →
  0 < ino < 2 ^ 32 → is_byte t →
  ∃ r blk', add_in ft (entry_size (zlen name)) ino name t blk = Some (r, blk') ∧
    length blk' = length blk ∧ Forall is_byte blk' ∧
    if r : bool then ∃ l1 l2, listing blk = l1 ++ l2 ∧
      listing blk' = l1 ++ (name, ino, stored_type t) :: l2
    else blk' = blk.
Proof.
  intros Hb Hl Hnb Hnl Hi Ht. destruct (entries_ok blk) as (es&last&Ee&Hc&Hs).
  unfold add_in. rewrite Ee. cbn [mbind option_bind].
  pose proof (chain_name_len _ _ _ _ Hb Hc) as Hnm.
  destruct (find_o_spec (has_room (entry_size (zlen name))) (λ e, entry_size (zlen name) <=? spare e) es)
    as [[-> Hf]|(es1&e&es2&->&->&_&Hx&Hf)]; [by apply (has_room_ok blk _ 0 _ last)| |]; cbn [mbind option_bind].
  { by exists false, blk. }
  destruct (chain_split _ _ _ _ _ Hc) as (C1&Hv&C2&Ho). apply Z.leb_le in Hx.
  apply Forall_app in Hnm as [_ [(Hn&_&_) _]%Forall_cons_iff].
  destruct (place_ok blk e ino name t) as (blk1&blk'&news&E1&E2&CC&Cn&Lv); try done.
  rewrite E1. cbn [mbind option_bind]. destruct (entry_used_range _ _ Hv Hn) as [Hu _].
  unfold usub. destruct (entry_used e <=? e_rec_len e) eqn:Eu; bool_hyps; [|lia].
  cbn [mbind option_bind]. change (e_rec_len e - entry_used e) with (spare e).
  rewrite E2. cbn [mbind option_bind]. exists true, blk'.
  split; [done|]. split; [apply CC|]. split; [by apply CC|].
  destruct (replace_records blk blk' es1 [e] news es2 (e_off e) (e_off e + e_rec_len e) last)
    as [Hl1 Hl2]; try done.
  - eapply changed_agree; [done|lia].
  - eapply changed_agree; [done|lia].
  - exists (live blk es1 ++ live blk [e]), (live blk es2). split; [by rewrite Hl1, app_assoc|].
    rewrite Hl2, Lv, <-!app_assoc. done.
Qed.

(** A name's length is stored past the inode number and the record length. *)
Lemma agree_name_len4 blk blk' off :
  changed_at blk blk' off 4 → 0 <= off → name_len_at blk' off = name_len_at blk off.
Proof.
  intros C Ho. unfold name_len_at. destruct ft.
  - eapply (agree_zget _ _ (off + 6) (off + 7)); [|lia..]. eapply changed_agree; [done|lia].
  - eapply changed_at_get16; [done|lia].
Qed.

Lemma agree_name_len6 blk blk' off :
  changed_at blk blk' (off + 4) 2 → 0 <= off → name_len_at blk' off = name_len_at blk off.
Proof.
  intros C Ho. unfold name_len_at. destruct ft.
  - eapply (agree_zget _ _ (off + 6) (off + 7)); [|lia..]. eapply changed_agree; [done|lia].
  - eapply changed_at_get16; [done|lia].
Qed.

(** The two ways to drop record [e]. *)
Lemma unuse_ok blk e :
  Forall is_byte blk → valid_rec blk e → 0 <= e_off e →
  ∃ blk' e', put32 blk (e_off e) 0 = Some blk' ∧ changed_at blk blk' (e_off e) (e_rec_len e) ∧
    chain blk' (e_off e) [e'] (e_off e + e_rec_len e) ∧ live blk' [e'] = [].
Proof.
  intros Hb Hv Ho. pose proof Hv as (Hle&Er&En&Ei&Hg). apply good_header_spec in Hg as Hg'.
  destruct (put32_ok blk (e_off e) 0) as (blk'&E&C&G); [lia..|].
  exists blk', {| e_off := e_off e; e_ino := 0; e_rec_len := e_rec_len e; e_name_len := e_name_len e |}.
  split; [done|]. split_and!.
  - apply (changed_at_trans blk blk' blk' (e_off e) 4 (e_off e) 0); [done| |lia..]. by repeat split.
  - cbn. split_and!; [done| |done]. unfold valid_rec. cbn. split_and!.
    + by rewrite (proj1 C).
    + rewrite <-Er. eapply changed_at_get16; [done|lia].
    + rewrite <-En. eapply (agree_name_len4 blk); [done|lia..].
    + apply G. lia.
    + unfold good_header in *. by rewrite (proj1 C).
  - rewrite live_cons. done.
Qed.

Lemma merge_ok blk prev e :
  Forall is_byte blk → zlen blk < 2 ^ 16 → valid_rec blk prev → valid_rec blk e →
  0 <= e_off prev → 0 <= e_name_len prev → e_off e = e_off prev + e_rec_len prev →
  let rec := e_rec_len prev + e_rec_len e in
  ∃ blk' e', put16 blk (e_off prev + 4) (rec mod 2 ^ 16) = Some blk' ∧
    changed_at blk blk' (e_off prev) rec ∧
    chain blk' (e_off prev) [e'] (e_off prev + rec) ∧ live blk' [e'] = live blk [prev].
Proof.
  intros Hb Hl Hv He Ho Hn Eo rec. pose proof Hv as (Hle&Er&En&Ei&Hg%good_header_spec).
  pose proof He as (_&_&_&_&Hg2%good_header_spec).
  assert (Hrec : 0 <= rec < 2 ^ 16) by lia. rewrite Z.mod_small by done.
  destruct (put16_ok blk (e_off prev + 4) rec) as (blk'&E&C&G); [lia..|]. specialize (G Hrec).
  set (p' := {| e_off := e_off prev; e_ino := e_ino prev; e_rec_len := rec;
                e_name_len := e_name_len prev |}).
  exists blk', p'. split; [done|]. split_and!.
  - apply (changed_at_trans blk blk' blk' (e_off prev + 4) 2 (e_off prev + 4) 0); [done| |lia..].
    by repeat split.
  - cbn. split_and!; [done| |done]. unfold valid_rec, p'. cbn. split_and!; try done.
    + by rewrite (proj1 C).
    + rewrite <-En. eapply agree_name_len6; [done|lia..].
    + rewrite <-Ei. eapply changed_at_get32; [done|lia].
    + apply good_header_spec. rewrite (proj1 C). unfold rec.
      destruct Hg as (?&?&?&?), Hg2 as (?&?&?&?). split_and!; [lia|zdiv|lia|lia].
  - rewrite !live_cons. cbn [p' e_ino]. destruct (e_ino prev =? 0); [done|].
    cbn [app live filter list_filter fmap list_fmap]. f_equal.
    transitivity (e_info blk p'); [|done]. apply e_info_frame; [|done|done]. eapply changed_agree; [done|]. cbn. lia.
Qed.

Lemma remove_in_spec blk name :
  Forall is_byte blk → zlen blk < 2 ^ 16 →
  ∃ r blk', remove_in ft name blk = Some (r, blk') ∧
    length blk' = length blk ∧ Forall is_byte blk' ∧
    match r with
    | Some ino => ∃ l1 t l2, listing blk = l1 ++ (name, ino, t) :: l2 ∧
        assoc name l1 = None ∧ listing blk' = l1 ++ l2
    | None => blk' = blk ∧ assoc name (listing blk) = None
    end.
Proof.
  intros Hb Hl. destruct (entries_ok blk) as (es&last&Ee&Hc&Hs).
  unfold remove_in. rewrite Ee. cbn [mbind option_bind].
  pose proof (chain_name_len _ _ _ _ Hb Hc) as Hnm.
  destruct (find_o_spec (named blk name) (is_named blk name) es)
    as [[Ef Hf]|(es1&e&es2&->&_&->&Hx&Hf)];
    [apply (named_ok _ _ 0 _ last); [done|lia|lia|done]| |]; cbn [mbind option_bind].
  { rewrite (position_o_none _ _ Ef). cbn [mbind option_bind]. exists None, blk.
    split_and!; try done. rewrite (listing_entries _ _ Ee). by apply assoc_not_named. }
  destruct (chain_split _ _ _ _ _ Hc) as (C1&Hv&C2&Ho). rewrite list_lookup_middle by done.
  cbn [mbind option_bind]. unfold is_named in Hx.
  apply andb_true_iff in Hx as [Hz%negb_true_iff Hname%bool_decide_eq_true].
  assert (Le : live blk [e] = [(name, e_ino e, e_type blk e)]).
  { rewrite live_cons, Hz. unfold e_info. by rewrite Hname. }
  destruct es1 as [|prev es1 _] using rev_ind.
  - destruct (unuse_ok blk e Hb Hv Ho) as (blk'&e'&E&CC&Cn&Lv). cbn [length].
    rewrite E. cbn [mbind option_bind]. exists (Some (e_ino e)), blk'.
    split; [done|]. split; [apply CC|]. split; [by apply CC|].
    destruct (replace_records blk blk' [] [e] [e'] es2 (e_off e) (e_off e + e_rec_len e) last)
      as [L1 L2]; try done.
    + eapply changed_agree; [done|lia].
    + eapply changed_agree; [done|lia].
    + exists [], (e_type blk e), (live blk es2). rewrite L1, L2, Le, Lv. done.
  - apply chain_app in C1 as (mid&C1&C1'). cbn in C1'. destruct C1' as (Em&Hvp&Eo).
    destruct (chain_bounds _ _ _ _ C1) as [Hmid _]; [lia..|].
    rewrite <-app_assoc in Hnm. apply Forall_app in Hnm as [_ [(Hnp&_&_) _]%Forall_cons_iff].
    rewrite Forall_app in Hf. destruct Hf as [Hf1 Hf2]. subst mid.
    destruct (merge_ok blk prev e) as (blk'&p'&E&CC&Cn&Lv); try done; [lia|].
    rewrite length_app. cbn [length]. rewrite Nat.add_1_r.
    rewrite <-app_assoc. cbn [app]. rewrite list_lookup_middle by done. cbn [mbind option_bind].
    rewrite E. cbn [mbind option_bind]. exists (Some (e_ino e)), blk'.
    split; [done|]. split; [apply CC|]. split; [by apply CC|].
    destruct (replace_records blk blk' es1 [prev; e] [p'] es2 (e_off prev)
      (e_off prev + (e_rec_len prev + e_rec_len e)) last) as [L1 L2]; try done.
    + cbn. split_and!; try done. lia.
    + by replace (e_off prev + (e_rec_len prev + e_rec_len e)) with (e_off e + e_rec_len e) by lia.
    + eapply changed_agree; [done|lia].
    + eapply changed_agree; [done|lia].
    + exists (live blk es1 ++ live blk [prev]), (e_type blk e), (live blk es2).
      change [prev; e] with ([prev] ++ [e]) in L1. rewrite live_app, Le in L1.
      rewrite L1, L2, Lv, <-!app_assoc. split_and!; [done| |done].
      rewrite assoc_app, !assoc_not_named by done. done.
Qed.

End block.

(** C40: Adding a name.  On any directory block, malformed or not, the
    insertion of a name of at most 255 bytes never panics.  If a record has
    room the block's names are those it had plus the new one, whose lookup
    gives the inode and type stored, while every other name looks up as
    before; if none has room the block is unchanged. *)
Theorem dir_block_add ft blk ino name t :
  Forall is_byte blk → zlen blk < 2 ^ 16 → Forall is_byte name → zlen name <= 255 →
  0 < ino < 2 ^ 32 → is_byte t →
  ∃ placed blk', add_in ft (entry_size (zlen name)) ino name t blk = Some (placed, blk') ∧
    if placed : bool then
      (∃ l1 l2, listing ft blk = l1 ++ l2 ∧
         listing ft blk' = l1 ++ (name, ino, stored_type ft t) :: l2) ∧
      (lookup_in ft name blk = Some None →
         lookup_in ft name blk' = Some (Some (ino, stored_type ft t))) ∧
      ∀ other, other ≠ name → lookup_in ft other blk' = lookup_in ft other blk
    else blk' = blk.
Proof.
  intros Hb Hl Hnb Hnl Hi Ht.
  destruct (add_in_spec ft blk ino name t) as (r&blk'&E&_&Hb'&Hr); try done.
  exists r, blk'. split; [done|]. destruct r; [|done]. destruct Hr as (l1&l2&L1&L2).
  split; [eauto|]. split.
  - rewrite !lookup_in_spec, L1, L2, !assoc_app by done. intros [= E1].
    destruct (assoc name l1); [done|]. cbn [assoc]. by rewrite decide_True.
  - intros other Hne. rewrite !lookup_in_spec, L1, L2, !assoc_app by done.
    cbn [assoc]. by rewrite decide_False by congruence.
Qed.

(** Removing a name.  On any directory block the removal never panics.
    It drops the first entry of that name, returns the inode the lookup gave,
    and leaves every other name, in its order; a block without the name is
    unchanged. *)
Theorem dir_block_remove ft blk name :
  Forall is_byte blk → zlen blk < 2 ^ 16 →
  ∃ r blk', remove_in ft name blk = Some (r, blk') ∧
    match r with
    | Some ino =>
        (∃ l1 t l2, listing ft blk = l1 ++ (name, ino, t) :: l2 ∧ listing ft blk' = l1 ++ l2 ∧
           lookup_in ft name blk = Some (Some (ino, t))) ∧
        ∀ other, other ≠ name → lookup_in ft other blk' = lookup_in ft other blk
    | None => blk' = blk ∧ lookup_in ft name blk = Some None
    end.
Proof.
  intros Hb Hl. destruct (remove_in_spec ft blk name Hb Hl) as (r&blk'&E&_&Hb'&Hr).
  exists r, blk'. split; [done|]. destruct r as [ino|].
  - destruct Hr as (l1&t&l2&L1&Hn&L2). split.
    + exists l1, t, l2. split_and!; [done|done|].
      rewrite lookup_in_spec, L1, assoc_app, Hn by done. cbn [assoc]. by rewrite decide_True.
    + intros other Hne. rewrite !lookup_in_spec, L1, L2, !assoc_app by done.
      cbn [assoc]. by rewrite decide_False by congruence.
  - destruct Hr as [-> Hn]. split; [done|]. by rewrite lookup_in_spec, Hn by done.
Qed.

(** A block of 64 bytes with [.] and [..]. *)
Definition ex_dirblk : list Z :=
  [2; 0; 0; 0; 12; 0; 1; 2; 46; 0; 0; 0; 2; 0; 0; 0; 52; 0; 2; 2; 46; 46; 0; 0] ++ replicate 40 0.

Lemma dir_block_add_witness :
  ∃ placed blk', add_in true (entry_size (zlen [97; 98])) 12 [97; 98] 1 ex_dirblk = Some (placed, blk') ∧
    if placed : bool then
      (∃ l1 l2, listing true ex_dirblk = l1 ++ l2 ∧
         listing true blk' = l1 ++ ([97; 98], 12, stored_type true 1) :: l2) ∧
      (lookup_in true [97; 98] ex_dirblk = Some None →
         lookup_in true [97; 98] blk' = Some (Some (12, stored_type true 1))) ∧
      ∀ other, other ≠ [97; 98] → lookup_in true other blk' = lookup_in true other ex_dirblk
    else blk' = ex_dirblk.
Proof.
  apply (dir_block_add true ex_dirblk 12 [97; 98] 1);
    [by apply bytesb_bytes|vm_compute; reflexivity|by apply bytesb_bytes|simpl; lia|lia|].
  unfold is_byte. lia.
Defined.

Lemma dir_block_remove_witness :
  fst <$> remove_in true DOTDOT ex_dirblk = Some (Some 2) ∧
  ∃ r blk', remove_in true DOTDOT ex_dirblk = Some (r, blk') ∧
    match r with
    | Some ino =>
        (∃ l1 t l2, listing true ex_dirblk = l1 ++ (DOTDOT, ino, t) :: l2 ∧
           listing true blk' = l1 ++ l2 ∧ lookup_in true DOTDOT ex_dirblk = Some (Some (ino, t))) ∧
        ∀ other, other ≠ DOTDOT → lookup_in true other blk' = lookup_in true other ex_dirblk
    | None => blk' = ex_dirblk ∧ lookup_in true DOTDOT ex_dirblk = Some None
    end.
Proof.
  split; [vm_compute; reflexivity|].
  apply (dir_block_remove true ex_dirblk DOTDOT); [by apply bytesb_bytes|vm_compute; reflexivity].
Defined.
