(* ===== verification/Ext2Fs.v ===== *)
(** * ext2: paths and the public operations ([modules/ext2/ext2fs/src/fs.rs])

    The path walk with its cache of resolved names, and every public call of
    [Fs].  A path is the bytes of a [str]; a call that fills a buffer gives
    what the buffer holds beside its count. *)

From stdpp Require Import gmap functions.
From S2P Require Import Prelude Ext2Layout Ext2Cache Ext2Alloc Ext2Inode Ext2Dir.

Definition SLASH : Z := 47.
Definition RESOLVED_MAX : nat := Z.to_nat 1024.

(** The permissions [0o755] and [0o777]. *)
Definition RWXR_XR_X : Z := 0x1ED.
Definition RWXRWXRWX : Z := 0x1FF.

(** [path.split('/')]: never empty. *)
Fixpoint split_slash (l : list Z) : list (list Z) :=
  match l with
  | [] => [[]]
  | x :: l' =>
      if x =? SLASH then [] :: split_slash l'
      else match split_slash l' with
           | s :: rest => (x :: s) :: rest
           | [] => [[x]]
           end
  end.

(** The components [walk] follows. *)
Definition components (path : list Z) : list (list Z) :=
  filter (λ c, c ≠ [] ∧ c ≠ DOT) (split_slash path).

(** [trim_end_matches('/')] *)
Fixpoint trim_slashes (l : list Z) : list Z :=
  match l with
  | [] => []
  | x :: l' =>
      match trim_slashes l' with
      | [] => if x =? SLASH then [] else [x]
      | t => x :: t
      end
  end.

(** [rfind('/')]: what precedes the last slash, and what follows it. *)
Fixpoint rsplit_slash (l : list Z) : option (list Z * list Z) :=
  match l with
  | [] => None
  | x :: l' =>
      match rsplit_slash l' with
      | Some (a, b) => Some (x :: a, b)
      | None => if x =? SLASH then Some ([], l') else None
      end
  end.

(** [parent]'s split of a path into a directory and a name. *)
Definition dir_and_name (path : list Z) : list Z * list Z :=
  let path := trim_slashes path in
  match rsplit_slash path with Some p => p | None => ([], path) end.

Record Stat := {
  st_kind : Kind; st_mode : Z; st_size : Z; st_ino : Z; st_links : Z; st_mtime : Z; st_atime : Z }.

Definition stat_of (ino : Z) (n : Inode) : Stat :=
  {| st_kind := kind n; st_mode := i_mode n; st_size := i_size n; st_ino := ino;
     st_links := i_links n; st_mtime := i_mtime n; st_atime := i_atime n |}.

Section ops.
Context {D : Type} `{Device D}.
Implicit Types (fs : Fs D).
#[local] Abbreviation prog_fs A := (fprog (D := D) A).

(** [ok_or(e)?] *)
Definition ok_or {A} (o : option A) (e : Error) : prog_fs A :=
  match o with Some a => mret a | None => throw e end.

Definition walk (path : list Z) : prog_fs Z :=
  fold_m (λ ino name,
    dir ← inode ino;
    if negb (is_dir dir) then throw NotDir
    else
      o ← dir_lookup dir name;
      '(ino, _) ← ok_or o NotFound;
      mret ino) (components path) ROOT_INO.

Definition resolve (path : list Z) : prog_fs Z :=
  fs ← get_state;
  match resolved fs !! path with
  | Some ino => mret ino
  | None =>
      ino ← walk path;
      fs ← get_state;
      let m := if decide (RESOLVED_MAX <= size (resolved fs))%nat then ∅ else resolved fs in
      _ ← set_state (with_resolved fs (<[path := ino]> m));
      mret ino
  end.

Definition inode_at_path (path : list Z) : prog_fs Inode := ino ← resolve path; inode ino.

Definition parent (path : list Z) : prog_fs (Z * Inode * list Z) :=
  let '(dir, name) := dir_and_name path in
  if bool_decide (name = []) || bool_decide (name = DOT) || bool_decide (name = DOTDOT)
     || (255 <? zlen name)
  then throw Invalid
  else
    ino ← resolve dir;
    node ← inode ino;
    if negb (is_dir node) then throw NotDir else mret (ino, node, name).

Definition make (dir_ino : Z) (name : list Z) (mode : Z) : prog_fs (Z * Inode) :=
  let dir := Z.land mode S_IFMT =? S_IFDIR in
  ino ← alloc_inode dir_ino dir;
  t ← now;
  let node := inode_new mode t in
  _ ← write_new_inode ino node;
  r ← attempt (dir_add dir_ino name ino (file_type node));
  match r with
  | Err e => _ ← free_inode ino dir; throw e
  | Ok _ => mret (ino, node)
  end.

Definition unmake (dir_ino : Z) (name : list Z) (ino : Z) (node : Inode) : prog_fs () :=
  _ ← dir_remove dir_ino name;
  '(_, node) ← try_node node free_data;
  t ← now;
  let node := upd_dtime (upd_links node 0) (Z.max t 1) in
  _ ← write_inode ino node;
  free_inode ino (is_dir node).

Definition drop_link (ino : Z) : prog_fs () :=
  node ← inode ino;
  let node := upd_links node (Z.max 0 (i_links node - 1)) in
  if i_links node =? 0 then
    '(_, node) ← try_node node free_data;
    t ← now;
    _ ← write_inode ino (upd_dtime node (Z.max t 1));
    free_inode ino false
  else write_inode ino node.

(** *** The public operations *)

Definition stat (path : list Z) : prog_fs Stat :=
  fs_run (ino ← resolve path; n ← inode ino; mret (stat_of ino n)).

Definition retime (ino : Z) (atime mtime : option Z) : prog_fs () :=
  node ← inode ino;
  let node := match atime with Some t => upd_atime node t | None => node end in
  let node := match mtime with Some t => upd_mtime node t | None => node end in
  write_inode ino node.

Definition set_times (path : list Z) (atime mtime : option Z) : prog_fs () :=
  fs_op (ino ← resolve path; retime ino atime mtime).
Definition set_times_ino (ino : Z) (atime mtime : option Z) : prog_fs () :=
  fs_op (retime ino atime mtime).

Definition file_id (path : list Z) : prog_fs Z := fs_run (resolve path).

(** The callback's state is what it made of the names so far. *)
Definition list_dir {T} (path : list Z) (f : T → list Z → bool * T) (acc : T) : prog_fs T :=
  fs_run (
    dir ← inode_at_path path;
    if negb (is_dir dir) then throw NotDir
    else for_each_entry dir (λ acc name _,
           if bool_decide (name = DOT) || bool_decide (name = DOTDOT) then (true, acc)
           else f acc name) acc).

Definition read_path (path : list Z) (pos : Z) (out : list Z) : prog_fs (Z * list Z) :=
  fs_run (
    node ← inode_at_path path;
    match kind node with
    | KDir => throw IsDir
    | KFile => read_data node pos out
    | _ => throw Invalid
    end).

Definition write_at (ino pos : Z) (buf : list Z) : prog_fs Z :=
  node ← inode ino;
  match kind node with
  | KDir => throw IsDir
  | KFile =>
      '(n, node) ← try_node node (write_data pos buf);
      t ← now;
      _ ← write_inode ino (upd_mtime node t);
      mret n
  | _ => throw Invalid
  end.

Definition write_path (path : list Z) (pos : Z) (buf : list Z) : prog_fs Z :=
  fs_run (ino ← resolve path; write_at ino pos buf).

Definition create (path : list Z) : prog_fs () :=
  fs_op (
    '(dir_ino, dir, name) ← parent path;
    o ← dir_lookup dir name;
    match o with
    | Some (ino, _) =>
        n ← inode ino;
        match kind n with KFile => mret tt | KDir => throw IsDir | _ => throw Exists end
    | None => _ ← make dir_ino name (Z.lor S_IFREG RWXR_XR_X); mret tt
    end).

Definition truncate (path : list Z) : prog_fs () :=
  fs_op (
    ino ← resolve path;
    node ← inode ino;
    if negb (is_file (kind node)) then throw Invalid
    else
      '(_, node) ← try_node node free_data;
      t ← now;
      write_inode ino (upd_mtime node t)).

Definition resize (ino size : Z) : prog_fs () :=
  node ← inode ino;
  match kind node with
  | KFile =>
      '(_, node) ← try_node node (resize_data size);
      t ← now;
      write_inode ino (upd_mtime node t)
  | KDir => throw IsDir
  | _ => throw Invalid
  end.

Definition set_size (path : list Z) (size : Z) : prog_fs () :=
  fs_op (ino ← resolve path; resize ino size).
Definition set_size_ino (ino size : Z) : prog_fs () := fs_op (resize ino size).

Definition mkdir (path : list Z) : prog_fs () :=
  fs_op (
    '(dir_ino, dir, name) ← parent path;
    o ← dir_lookup dir name;
    match o with
    | Some _ => throw Exists
    | None =>
        '(ino, node) ← make dir_ino name (Z.lor S_IFDIR RWXR_XR_X);
        r ← attempt (dir_init ino dir_ino);
        match r with
        | Err e => _ ← unmake dir_ino name ino node; throw e
        | Ok _ =>
            dir ← inode dir_ino;
            n ← checked (fits 16 (i_links dir + 1));
            write_inode dir_ino (upd_links dir n)
        end
    end).

(** A directory that went: its blocks, its inode. *)
Definition drop_dir (ino : Z) (node : Inode) : prog_fs () :=
  '(_, node) ← try_node node free_data;
  let node := upd_links node 0 in
  t ← now;
  _ ← write_inode ino (upd_dtime node (Z.max t 1));
  free_inode ino true.

(** [dir.links -= 1] of a directory on disk *)
Definition unlink_dir (dir_ino : Z) : prog_fs () :=
  dir ← inode dir_ino;
  n ← checked (usub (i_links dir) 1);
  write_inode dir_ino (upd_links dir n).

Definition rmdir (path : list Z) : prog_fs () :=
  fs_op (
    '(dir_ino, dir, name) ← parent path;
    o ← dir_lookup dir name;
    '(ino, _) ← ok_or o NotFound;
    node ← inode ino;
    if negb (is_dir node) then throw NotDir
    else
      empty ← dir_is_empty node;
      if negb empty then throw NotEmpty
      else
        _ ← dir_remove dir_ino name;
        _ ← drop_dir ino node;
        unlink_dir dir_ino).

Definition unlink (path : list Z) : prog_fs () :=
  fs_op (
    '(dir_ino, dir, name) ← parent path;
    o ← dir_lookup dir name;
    '(ino, _) ← ok_or o NotFound;
    n ← inode ino;
    if is_dir n then throw IsDir
    else
      _ ← dir_remove dir_ino name;
      drop_link ino).

Definition unlink_keep (path : list Z) : prog_fs Z :=
  fs_op (
    '(dir_ino, dir, name) ← parent path;
    o ← dir_lookup dir name;
    '(ino, _) ← ok_or o NotFound;
    node ← inode ino;
    if is_dir node then throw IsDir
    else
      _ ← dir_remove dir_ino name;
      _ ← write_inode ino (upd_links node (Z.max 0 (i_links node - 1)));
      mret ino).

Definition forget (ino : Z) : prog_fs () :=
  fs_op (
    node ← inode ino;
    if (0 <? i_links node) || is_dir node then mret tt
    else
      '(_, node) ← try_node node free_data;
      t ← now;
      _ ← write_inode ino (upd_dtime node (Z.max t 1));
      free_inode ino false).

Definition stat_ino (ino : Z) : prog_fs Stat :=
  fs_run (n ← inode ino; mret (stat_of ino n)).

Definition read_ino (ino pos : Z) (out : list Z) : prog_fs (Z * list Z) :=
  fs_run (
    node ← inode ino;
    match kind node with
    | KFile => read_data node pos out
    | KDir => throw IsDir
    | _ => throw Invalid
    end).

Definition write_ino (ino pos : Z) (buf : list Z) : prog_fs Z := fs_run (write_at ino pos buf).

(** [is_within]'s loop of 4096 steps up. *)
Fixpoint within (n : nat) (dir ancestor : Z) : prog_fs bool :=
  match n with
  | O => throw Invalid
  | S n' =>
      if dir =? ancestor then mret true
      else if dir =? ROOT_INO then mret false
      else
        node ← inode dir;
        o ← dir_lookup node DOTDOT;
        '(up, _) ← ok_or o Invalid;
        within n' up ancestor
  end.

Definition is_within (dir ancestor : Z) : prog_fs bool := within (Z.to_nat 4096) dir ancestor.

(** What [rename] does with the [target] its new name has: true when both
    names are of the same inode, and there is nothing to do. *)
Definition replace_target (ino : Z) (moving_dir : bool) (new_dir : Z) (new_name : list Z)
    (target : Z) : prog_fs bool :=
  if target =? ino then mret true
  else
    t ← inode target;
    _ ← match moving_dir, is_dir t with
        | false, true => throw IsDir
        | true, false => throw NotDir
        | true, true => empty ← dir_is_empty t; if negb empty then throw NotEmpty else mret tt
        | false, false => mret tt
        end;
    _ ← dir_remove new_dir new_name;
    _ ← (if is_dir t then _ ← drop_dir target t; unlink_dir new_dir
         else drop_link target);
    mret false.

Definition rename (old new_ : list Z) : prog_fs () :=
  fs_op (
    '(old_dir, odir, old_name) ← parent old;
    o ← dir_lookup odir old_name;
    '(ino, ft) ← ok_or o NotFound;
    '(new_dir, ndir, new_name) ← parent new_;
    n ← inode ino;
    let moving_dir := is_dir n in
    inside ← (if moving_dir then is_within new_dir ino else mret false);
    if inside : bool then throw Invalid
    else
      o ← dir_lookup ndir new_name;
      same ← match o with
             | Some (target, _) => replace_target ino moving_dir new_dir new_name target
             | None => mret false
             end;
      if same : bool then mret tt
      else
        _ ← dir_add new_dir new_name ino ft;
        _ ← dir_remove old_dir old_name;
        if moving_dir && negb (old_dir =? new_dir) then
          _ ← dir_set_parent ino new_dir;
          _ ← unlink_dir old_dir;
          nd ← inode new_dir;
          n ← checked (fits 16 (i_links nd + 1));
          write_inode new_dir (upd_links nd n)
        else mret tt).

Definition symlink (target link : list Z) : prog_fs () :=
  fs_op (
    fs ← get_state;
    if bool_decide (target = []) || (block_size (geo fs) <=? zlen target) then throw Invalid
    else
      '(dir_ino, dir, name) ← parent link;
      o ← dir_lookup dir name;
      match o with
      | Some _ => throw Exists
      | None =>
          '(ino, node) ← make dir_ino name (Z.lor S_IFLNK RWXRWXRWX);
          if zlen target <? inline_capacity node then
            node ← checked (set_inline node target);
            write_inode ino node
          else
            '(r, node) ← with_node node (write_data 0 target);
            match r with
            | Err e => _ ← unmake dir_ino name ino node; throw e
            | Ok _ => write_inode ino node
            end
      end).

Definition readlink (path : list Z) (buf : list Z) : prog_fs (Z * list Z) :=
  fs_run (
    fs ← get_state;
    node ← inode_at_path path;
    match kind node with
    | KSymlink =>
        let len := Z.min (i_size node) (zlen buf) in
        if is_fast_symlink node (block_size (geo fs)) then
          s ← checked (slice (inline node) 0 len);
          buf ← checked (copy_slice buf 0 len s);
          mret (len, buf)
        else
          head ← checked (slice buf 0 len);
          '(n, head) ← read_data node 0 head;
          buf ← checked (copy_slice buf 0 len head);
          mret (n, buf)
    | _ => throw Invalid
    end).

End ops.
