(* ===== verification/Ext2Mkfs.v ===== *)
(** * ext2: formatting ([modules/ext2/ext2fs/src/mkfs.rs])

    [mkfs] in its three parts: the geometry it plans for a device of so many
    bytes ([plan]), the groups it writes, and the directories, inodes and
    superblocks. *)

From stdpp Require Import gmap functions.
From S2P Require Import Prelude Ext2Layout Ext2Cache Ext2Alloc.

Definition SMALL : Z := 512 * 1024 * 1024.
Definition INODE_SIZE : Z := 128.
Definition LOST_FOUND_INO : Z := 11.
Definition MIN_LAST_GROUP_DATA : Z := 50.

(** What [mkfs] computes before it writes. *)
Record Plan := {
  pl_geo : Geometry;
  pl_gdt_blocks : Z;
  pl_itable : Z;
}.

(** [if has_super(g, true) { 1 + gdt_blocks } else { 0 }] *)
Definition backup_blocks (gdt_blocks g : Z) : Z := if has_super g true then 1 + gdt_blocks else 0.

(** The closure [meta]. *)
Definition meta (gdt_blocks itable g : Z) : option Z :=
  a ← add32 (backup_blocks gdt_blocks g) 2; add32 a itable.

(** [u32::saturating_mul] *)
Definition saturating_mul (a b : Z) : Z := Z.min (a * b) U32_MAX.

Definition plan (bytes : Z) : option (result Error Plan) :=
  let '(bs, ratio) := if bytes <? SMALL then (1024, 4096) else (4096, 16384) in
  let first_data := if bs =? 1024 then 1 else 0 in
  let bpg := bs * 8 in
  let blocks := Z.min (bytes / bs) U32_MAX in
  if blocks <? first_data + 64 then Some (Err NoSpace)
  else
    n ← usub blocks first_data;
    groups ← div_ceil n bpg;
    let per_block := bs / INODE_SIZE in
    want ← div_ceil (blocks * bs / ratio) groups;
    let want := want mod 2 ^ 32 in
    tables ← div_ceil (Z.max want 16) per_block;
    let ipg := Z.min (saturating_mul tables per_block) bpg in
    let itable := ipg / per_block in
    gdt_blocks ← div_ceil (groups * GD_SIZE) bs;
    let gdt_blocks := gdt_blocks mod 2 ^ 32 in
    last_group ← usub groups 1;
    before ← mul32 last_group bpg;
    last ← usub n before;
    m ← meta gdt_blocks itable last_group;
    small ← add32 m MIN_LAST_GROUP_DATA;
    shape ← (if (1 <? groups) && (last <? small) then
               k ← mul32 last_group bpg;
               b ← add32 first_data k;
               Some (Ok (last_group, b))
             else
               least ← add32 m 2;
               if last <? least then Some (Err NoSpace) else Some (Ok (groups, blocks)));
    match shape with
    | Err e => Some (Err e)
    | Ok (groups, blocks) =>
        inodes ← mul32 groups ipg;
        Some (Ok {|
          pl_geo := {| block_size := bs; first_data_block := first_data; blocks_count := blocks;
                       inodes_count := inodes; blocks_per_group := bpg; inodes_per_group := ipg;
                       inode_size := INODE_SIZE; first_ino := GOOD_OLD_FIRST_INO;
                       groups := groups; filetype := true; large_file := true |};
          pl_gdt_blocks := gdt_blocks; pl_itable := itable |})
    end.

(** [for i in .. { bm[(i / 8) as usize] |= 1 << (i % 8); }] *)
Fixpoint set_bits (bm : list Z) (l : list Z) : option (list Z) :=
  match l with
  | [] => Some bm
  | i :: l' => bm' ← bit_set bm i; set_bits bm' l'
  end.

(** The bitmap with [used] bits set at its start and all from [len] to [size]. *)
Definition fresh_bitmap (bs used len size : Z) : option (list Z) :=
  set_bits (zeros bs) (seqZ 0 used ++ seqZ len (size - len)).

(** The closure [dirent]. *)
Definition dirent (blk : list Z) (off ino rec : Z) (name : list Z) : option (list Z) :=
  blk ← put32 blk off ino;
  blk ← put16 blk (off + 4) (rec mod 2 ^ 16);
  blk ← zset blk (off + 6) (zlen name mod 2 ^ 8);
  blk ← zset blk (off + 7) FT_DIR;
  copy_slice blk (off + 8) (off + 8 + zlen name) name.

Definition LOST_FOUND : list Z := [108; 111; 115; 116; 43; 102; 111; 117; 110; 100].

Definition root_block (bs : Z) : option (list Z) :=
  blk ← dirent (zeros bs) 0 ROOT_INO 12 [46];
  blk ← dirent blk 12 ROOT_INO 12 [46; 46];
  r ← usub bs 24;
  dirent blk 24 LOST_FOUND_INO r LOST_FOUND.

Definition lost_found_block (bs : Z) : option (list Z) :=
  blk ← dirent (zeros bs) 0 LOST_FOUND_INO 12 [46];
  r ← usub bs 12;
  dirent blk 12 ROOT_INO r [46; 46].

(** The directory inode [mkfs] writes over one slot of the table. *)
Definition dir_inode (bs now mode links blk : Z) (n : list Z) : option (list Z) :=
  n ← put16 n 0 mode;
  n ← put32 n 4 bs;
  n ← put32 n 8 now;
  n ← put32 n 12 now;
  n ← put32 n 16 now;
  n ← put16 n 26 links;
  n ← put32 n 28 (bs / 512);
  put32 n 40 blk.

(** The volume id: byte [i] of [sb[104..120]]. *)
Definition uuid_byte (seed : list Z) (i : Z) : option Z :=
  s ← zget seed (i mod 8); Some ((s * 31 + i * 17) mod 256).

Fixpoint put_uuid (sb seed : list Z) (l : list Z) : option (list Z) :=
  match l with
  | [] => Some sb
  | i :: l' => v ← uuid_byte seed i; sb' ← zset sb (104 + i) v; put_uuid sb' seed l'
  end.

(** A list of [u32] fields and a list of [u16] fields stored in turn. *)
Fixpoint put_fields (b : list Z) (l : list (bool * Z * Z)) : option (list Z) :=
  match l with
  | [] => Some b
  | (wide, o, v) :: l' =>
      b' ← (if wide : bool then put32 b o v else put16 b o v); put_fields b' l'
  end.

(** [bs.trailing_zeros() - 10] for the two block sizes used *)
Definition log_size (bs : Z) : Z := Z.log2 bs - 10.

Definition superblock (g : Geometry) (bytes now free_blocks free_inodes : Z) : option (list Z) :=
  let log := log_size (block_size g) in
  sb ← put_fields (zeros SB_SIZE) [
    (true, S_INODES_COUNT, inodes_count g); (true, S_BLOCKS_COUNT, blocks_count g);
    (true, S_FREE_BLOCKS, free_blocks); (true, S_FREE_INODES, free_inodes);
    (true, S_FIRST_DATA_BLOCK, first_data_block g);
    (true, S_LOG_BLOCK_SIZE, log); (true, 28, log);
    (true, S_BLOCKS_PER_GROUP, blocks_per_group g); (true, 36, blocks_per_group g);
    (true, S_INODES_PER_GROUP, inodes_per_group g);
    (true, 44, now); (true, S_WTIME, now);
    (false, 54, 0xffff); (false, S_MAGIC, MAGIC); (false, S_STATE, 1); (false, 60, 1);
    (true, 64, now); (true, S_REV_LEVEL, 1); (true, S_FIRST_INO, GOOD_OLD_FIRST_INO);
    (false, S_INODE_SIZE, INODE_SIZE);
    (true, S_FEATURE_INCOMPAT, INCOMPAT_FILETYPE);
    (true, S_FEATURE_RO_COMPAT, Z.lor RO_COMPAT_SPARSE_SUPER RO_COMPAT_LARGE_FILE)];
  let seed := le_bytes 8 (Z.lxor (Z.lxor bytes (Z.shiftl now 32)) 0x6d796f7365787432) in
  sb ← put_uuid sb seed (seqZ 0 16);
  copy_slice sb 120 124 [109; 121; 111; 115].

Section mkfs.
Context {D : Type} `{Device D}.

Definition dprog (A : Type) : Type := prog D Error A.

Definition dev_write_at (off : Z) (data : list Z) : dprog () :=
  d ← get_state;
  let '(ok, d) := dev_write d off data in
  _ ← set_state d;
  if ok : bool then mret tt else throw Io.

(** The closure [write]. *)
Definition write_block (bs block : Z) (data : list Z) : dprog () := dev_write_at (block * bs) data.

(** One group of the loop: its bitmaps and inode table written, its
    descriptor put in [gdt], its free blocks and inodes counted. *)
Definition make_group (p : Plan) (acc : list Z * Z * Z) (g : Z) : dprog (list Z * Z * Z) :=
  let '(gdt, free_blocks, free_inodes) := acc in
  let geo := pl_geo p in
  let bs := block_size geo in
  let ipg := inodes_per_group geo in
  first ← checked (group_first geo g);
  len ← checked (group_blocks geo g);
  bb ← checked (add32 first (backup_blocks (pl_gdt_blocks p) g));
  ib ← checked (add32 bb 1);
  it ← checked (add32 bb 2);
  m ← checked (meta (pl_gdt_blocks p) (pl_itable p) g);
  used_blocks ← checked (if g =? 0 then add32 m 2 else Some m);
  let used_inodes := if g =? 0 then LOST_FOUND_INO else 0 in
  let dirs := if g =? 0 then 2 else 0 in
  bm ← checked (fresh_bitmap bs used_blocks len (blocks_per_group geo));
  _ ← write_block bs bb bm;
  im ← checked (fresh_bitmap bs used_inodes ipg (bs * 8));
  _ ← write_block bs ib im;
  _ ← checked (add32 it (pl_itable p));
  _ ← fold_m (λ _ b, write_block bs b (zeros bs)) (seqZ it (pl_itable p)) tt;
  fb ← checked (usub len used_blocks);
  fi ← checked (usub ipg used_inodes);
  let o := g * GD_SIZE in
  gdt ← checked (put_fields gdt [
    (true, o + G_BLOCK_BITMAP, bb); (true, o + G_INODE_BITMAP, ib); (true, o + G_INODE_TABLE, it);
    (false, o + G_FREE_BLOCKS, fb mod 2 ^ 16); (false, o + G_FREE_INODES, fi mod 2 ^ 16);
    (false, o + G_USED_DIRS, dirs)]);
  free_blocks ← checked (add32 free_blocks fb);
  free_inodes ← checked (add32 free_inodes fi);
  mret (gdt, free_blocks, free_inodes).

(** One directory inode written into group 0's table; [buf] is [itable0]. *)
Definition make_dir_inode (bs now table0 : Z) (buf : list Z) (e : Z * Z * Z * Z)
    : dprog (list Z) :=
  let '(ino, mode, links, blk) := e in
  let off := (ino - 1) * INODE_SIZE in
  block ← checked (add32 table0 (off / bs));
  d ← get_state;
  let '(ok, itable0, d) := dev_read d (block * bs) buf in
  _ ← set_state d;
  if negb ok then throw Io
  else
    n ← checked (slice itable0 (off mod bs) (off mod bs + INODE_SIZE));
    n ← checked (dir_inode bs now mode links blk n);
    b ← checked (copy_slice itable0 (off mod bs) (off mod bs + INODE_SIZE) n);
    _ ← write_block bs block b;
    mret b.

(** The superblock and descriptors of one group that has them. *)
Definition make_backup (geo : Geometry) (gdt : list Z) (sb : list Z) (g : Z) : dprog (list Z) :=
  first ← checked (group_first geo g);
  sb ← checked (put16 sb S_BLOCK_GROUP_NR (g mod 2 ^ 16));
  _ ← dev_write_at (if g =? 0 then SB_OFFSET else first * block_size geo) sb;
  next ← checked (add32 first 1);
  _ ← dev_write_at (next * block_size geo) gdt;
  mret sb.

Definition mkfs (bytes : Z) : dprog () :=
  p ← lift_result (plan bytes);
  let geo := pl_geo p in
  let bs := block_size geo in
  d ← get_state;
  let '(now, d) := dev_now d in
  _ ← set_state d;
  first ← checked (group_first geo 0);
  m ← checked (meta (pl_gdt_blocks p) (pl_itable p) 0);
  root_blk ← checked (add32 first m);
  lf_blk ← checked (add32 root_blk 1);
  '(gdt, free_blocks, free_inodes) ←
    fold_m (make_group p) (seqZ 0 (groups geo)) (zeros (pl_gdt_blocks p * bs), 0, 0);
  root ← checked (root_block bs);
  _ ← write_block bs root_blk root;
  lf ← checked (lost_found_block bs);
  _ ← write_block bs lf_blk lf;
  table0 ← checked (get32 gdt G_INODE_TABLE);
  _ ← fold_m (make_dir_inode bs now table0)
        [(ROOT_INO, Z.lor S_IFDIR 0x1ED, 3, root_blk);
         (LOST_FOUND_INO, Z.lor S_IFDIR 0x1C0, 2, lf_blk)] (zeros bs);
  sb ← checked (superblock geo bytes now free_blocks free_inodes);
  _ ← fold_m (make_backup geo gdt) (filter (λ g, has_super g true = true) (seqZ 0 (groups geo))) sb;
  mret tt.

End mkfs.
