(* ===== verification/Text.v ===== *)
(** * [str]

    What the sources use of Rust's [str].  A string is the list of its
    characters (Unicode scalar values); the byte offsets that slicing and
    [len] work with come from the width of each character in UTF-8. *)

From S2P Require Import Prelude.
From stdpp Require Export strings.
From Stdlib Require Import Ascii.

Open Scope Z_scope.

Abbreviation text := (list Z) (only parsing).

(** A literal of the sources. *)
Definition str (s : string) : text := (λ a, Z.of_N (N_of_ascii a)) <$> String.list_ascii_of_string s.

(** [char::is_whitespace] (the Unicode property) and
    [char::is_ascii_whitespace]. *)
Definition is_whitespace (c : Z) : bool :=
  ((9 <=? c) && (c <=? 13)) || (c =? 32) || (c =? 0x85) || (c =? 0xa0) || (c =? 0x1680) ||
  ((0x2000 <=? c) && (c <=? 0x200a)) || (c =? 0x2028) || (c =? 0x2029) || (c =? 0x202f) ||
  (c =? 0x205f) || (c =? 0x3000).

Definition is_ascii_whitespace (c : Z) : bool :=
  (c =? 9) || (c =? 10) || (c =? 12) || (c =? 13) || (c =? 32).

(** [s.split(p)]: the pieces between the characters [p] holds of, empty
    ones included. *)
Fixpoint split_on (p : Z → bool) (s : text) : list text :=
  match s with
  | [] => [[]]
  | c :: s' =>
      if p c then [] :: split_on p s'
      else match split_on p s' with
           | [] => [[c]]
           | w :: ws => (c :: w) :: ws
           end
  end.

Definition nonempty (s : text) : bool := match s with [] => false | _ => true end.

(** [s.split(p).filter(|w| !w.is_empty())] *)
Definition words_on (p : Z → bool) (s : text) : list text := filter (λ w, nonempty w = true) (split_on p s).

(** [s.split_whitespace()] *)
Definition split_whitespace : text → list text := words_on is_whitespace.

(** [s.split_once(p)] *)
Fixpoint split_once (p : Z → bool) (s : text) : option (text * text) :=
  match s with
  | [] => None
  | c :: s' =>
      if p c then Some ([], s')
      else '(a, b) ← split_once p s'; Some (c :: a, b)
  end.

(** [s.strip_prefix(pre)], [s.strip_suffix(suf)] *)
Fixpoint strip_prefix (pre s : text) : option text :=
  match pre, s with
  | [], _ => Some s
  | c :: pre', d :: s' => if c =? d then strip_prefix pre' s' else None
  | _ :: _, [] => None
  end.

Definition strip_suffix (suf s : text) : option text :=
  r ← strip_prefix (reverse suf) (reverse s); Some (reverse r).

(** [s.split_once(sub)] for a string [sub] *)
Fixpoint split_once_str (sub s : text) : option (text * text) :=
  match strip_prefix sub s with
  | Some r => Some ([], r)
  | None =>
      match s with
      | [] => None
      | c :: s' => '(a, b) ← split_once_str sub s'; Some (c :: a, b)
      end
  end.

(** [s.trim_start_matches(p)], [s.trim_end_matches(p)], [s.trim()] *)
Fixpoint trim_start (p : Z → bool) (s : text) : text :=
  match s with
  | [] => []
  | c :: s' => if p c then trim_start p s' else s
  end.
Definition trim_end (p : Z → bool) (s : text) : text := reverse (trim_start p (reverse s)).
Definition trim (s : text) : text := trim_end is_whitespace (trim_start is_whitespace s).

(** [s.lines()]: the pieces end at a newline, which is dropped together with
    a carriage return before it; nothing follows a newline at the end. *)
Fixpoint lines (s : text) : list text :=
  match s with
  | [] => []
  | c :: s' =>
      if c =? 10 then [] :: lines s'
      else
        let next_newline := match s' with d :: _ => d =? 10 | [] => false end in
        if (c =? 13) && next_newline then lines s'
        else match lines s' with
             | [] => [[c]]
             | l :: ls => (c :: l) :: ls
             end
  end.

(** ** Byte offsets *)

Definition utf8_len (c : Z) : Z :=
  if c <? 0x80 then 1 else if c <? 0x800 then 2 else if c <? 0x10000 then 3 else 4.

(** [s.len()] *)
Fixpoint str_len (s : text) : Z :=
  match s with [] => 0 | c :: s' => utf8_len c + str_len s' end.

(** [&s[n..]] and [&s[..n]]: an offset inside a character panics. *)
Fixpoint str_from (s : text) (n : Z) : option text :=
  if n =? 0 then Some s
  else match s with
       | [] => None
       | c :: s' => if utf8_len c <=? n then str_from s' (n - utf8_len c) else None
       end.

Fixpoint str_to (s : text) (n : Z) : option text :=
  if n =? 0 then Some []
  else match s with
       | [] => None
       | c :: s' => if utf8_len c <=? n then r ← str_to s' (n - utf8_len c); Some (c :: r) else None
       end.

(** [&s[a..b]] *)
Definition str_slice (s : text) (a b : Z) : option text :=
  if b <? a then None else r ← str_from s a; str_to r (b - a).

(** [char::to_digit(16)] *)
Definition hex_digit (c : Z) : option Z :=
  if (48 <=? c) && (c <=? 57) then Some (c - 48)
  else if (97 <=? c) && (c <=? 102) then Some (c - 87)
  else if (65 <=? c) && (c <=? 70) then Some (c - 55)
  else None.

Fixpoint hex_digits (acc : Z) (s : text) : option Z :=
  match s with
  | [] => Some acc
  | c :: s' => d ← hex_digit c; v ← fits 8 (acc * 16 + d); hex_digits v s'
  end.

(** [u8::from_str_radix(s, 16).ok()]: a sign [+] may come first. *)
Definition u8_from_hex (s : text) : option Z :=
  match s with
  | [] => None
  | [c] => if (c =? 43) || (c =? 45) then None else hex_digits 0 s
  | c :: s' => if c =? 43 then hex_digits 0 s' else hex_digits 0 s
  end.

(** ** The pieces of a string are made of its characters *)

Section chars.
Context (P : Z → Prop).

Lemma Forall_split_on p s : Forall P s → Forall (Forall P) (split_on p s).
Proof.
  induction 1 as [|c s Hc _ IH]; cbn [split_on]; [by repeat constructor|].
  destruct (p c); [by constructor|].
  destruct IH; repeat constructor; auto.
Qed.

Lemma Forall_words_on p s : Forall P s → Forall (Forall P) (words_on p s).
Proof.
  intros Hs. unfold words_on. induction (Forall_split_on p s Hs) as [|w ws Hw _ IH]; [done|].
  rewrite list.filter_cons. case_decide; [by constructor|done].
Qed.

Lemma Forall_split_once p s a b : split_once p s = Some (a, b) → Forall P s → Forall P a ∧ Forall P b.
Proof.
  revert a b. induction s as [|c s IH]; intros a b; cbn [split_once]; [done|].
  intros H [Hc Hs]%Forall_cons. destruct (p c).
  - injection H as <- <-. by split.
  - destruct (split_once p s) as [[a' b']|] eqn:E; [|done]. cbn in H. injection H as <- <-.
    destruct (IH _ _ eq_refl Hs). split; [by constructor|done].
Qed.

Lemma Forall_trim_start p s : Forall P s → Forall P (trim_start p s).
Proof. induction 1 as [|c s Hc Hs IH]; cbn [trim_start]; [done|]. destruct (p c); [done|by constructor]. Qed.

Lemma Forall_trim s : Forall P s → Forall P (trim s).
Proof.
  intros. unfold trim, trim_end.
  by apply Forall_reverse, Forall_trim_start, Forall_reverse, Forall_trim_start.
Qed.

Lemma Forall_lines s : Forall P s → Forall (Forall P) (lines s).
Proof.
  induction 1 as [|c s Hc Hs IH]; cbn [lines]; [done|].
  destruct (c =? 10); [by constructor|]. cbv zeta. case_if; [done|].
  destruct IH; repeat constructor; auto.
Qed.
End chars.

Lemma split_once_length p s a b :
  split_once p s = Some (a, b) → (length a + length b + 1 = length s)%nat.
Proof.
  revert a b. induction s as [|c s IH]; intros a b; cbn [split_once]; [done|]. destruct (p c).
  - intros [= <- <-]. simpl. lia.
  - destruct (split_once p s) as [[a' b']|]; [|done]. intros [= <- <-].
    specialize (IH _ _ eq_refl). simpl. lia.
Qed.

Lemma trim_length s : (length (trim s) ≤ length s)%nat.
Proof.
  assert (H : ∀ p t, (length (trim_start p t) ≤ length t)%nat).
  { intros p t. induction t as [|c t IH]; cbn [trim_start]; [done|]. destruct (p c); simpl; lia. }
  unfold trim, trim_end. rewrite length_reverse.
  etrans; [apply H|]. rewrite length_reverse. apply H.
Qed.

(** ** ASCII strings: offsets in bytes are positions *)

Definition ascii (c : Z) : Prop := 0 <= c < 0x80.

Lemma ascii_len c : ascii c → utf8_len c = 1.
Proof. unfold ascii, utf8_len. intros. case_if; lia. Qed.

Lemma ascii_str_len s : Forall ascii s → str_len s = zlen s.
Proof. induction 1 as [|c s Hc _ IH]; cbn [str_len length]; [done|]. rewrite ascii_len, IH by done. lia. Qed.

Lemma ascii_str_from s n : Forall ascii s → 0 <= n <= zlen s → str_from s n = Some (drop (Z.to_nat n) s).
Proof.
  intros Hs. revert n. induction Hs as [|c s Hc Hs IH]; intros n Hn; cbn [str_from length] in *.
  - replace n with 0 by lia. done.
  - case_if; [by subst|]. rewrite ascii_len by done. rewrite (proj2 (Z.leb_le 1 n)) by lia.
    rewrite IH by lia. replace (Z.to_nat n) with (S (Z.to_nat (n - 1))) by lia. done.
Qed.

Lemma ascii_str_to s n : Forall ascii s → 0 <= n <= zlen s → str_to s n = Some (take (Z.to_nat n) s).
Proof.
  intros Hs. revert n. induction Hs as [|c s Hc Hs IH]; intros n Hn; cbn [str_to length] in *.
  - replace n with 0 by lia. done.
  - case_if; [by subst|]. rewrite ascii_len by done. rewrite (proj2 (Z.leb_le 1 n)) by lia.
    rewrite IH by lia. replace (Z.to_nat n) with (S (Z.to_nat (n - 1))) by lia. done.
Qed.

Lemma ascii_str_slice s a b :
  Forall ascii s → 0 <= a → a <= b → b <= zlen s → str_slice s a b = slice s a b.
Proof.
  intros. unfold str_slice. rewrite slice_ok by lia. case_if; [lia|].
  rewrite ascii_str_from by (done || lia). cbn [mbind option_bind].
  apply ascii_str_to; [by apply Forall_drop|]. rewrite length_drop. lia.
Qed.

(** ** UTF-8 *)

Definition scalar (c : Z) : bool :=
  (0 <=? c) && (c <? 0x110000) && negb ((0xd800 <=? c) && (c <? 0xe000)).

Definition encode_char (c : Z) : list Z :=
  if c <? 0x80 then [c]
  else if c <? 0x800 then [0xc0 + c / 64; 0x80 + c mod 64]
  else if c <? 0x10000 then [0xe0 + c / 4096; 0x80 + c / 64 mod 64; 0x80 + c mod 64]
  else [0xf0 + c / 262144; 0x80 + c / 4096 mod 64; 0x80 + c / 64 mod 64; 0x80 + c mod 64].

(** [s.as_bytes()] *)
Definition as_bytes (s : text) : list Z := concat (encode_char <$> s).

Definition cont (b : Z) : bool := (0x80 <=? b) && (b <? 0xc0).

(** [core::str::from_utf8(l).ok()]: the shortest form of a scalar value only. *)
Fixpoint from_utf8 (l : list Z) : option text :=
  match l with
  | [] => Some []
  | a :: l1 =>
      if a <? 0x80 then r ← from_utf8 l1; Some (a :: r)
      else match l1 with
      | [] => None
      | b :: l2 =>
          if (0xc0 <=? a) && (a <? 0xe0) then
            let c := (a - 0xc0) * 64 + (b - 0x80) in
            if cont b && (0x80 <=? c) then r ← from_utf8 l2; Some (c :: r) else None
          else match l2 with
          | [] => None
          | d :: l3 =>
              if (0xe0 <=? a) && (a <? 0xf0) then
                let c := (a - 0xe0) * 4096 + (b - 0x80) * 64 + (d - 0x80) in
                if cont b && cont d && (0x800 <=? c) && scalar c
                then r ← from_utf8 l3; Some (c :: r) else None
              else match l3 with
              | [] => None
              | e :: l4 =>
                  if (0xf0 <=? a) && (a <? 0xf8) then
                    let c := (a - 0xf0) * 262144 + (b - 0x80) * 4096 + (d - 0x80) * 64 + (e - 0x80) in
                    if cont b && cont d && cont e && (0x10000 <=? c) && scalar c
                    then r ← from_utf8 l4; Some (c :: r) else None
                  else None
              end
          end
      end
  end.

Lemma encode_char_decode c l r :
  scalar c = true → from_utf8 l = Some r → from_utf8 (encode_char c ++ l) = Some (c :: r).
Proof.
  intros Hc Hl. unfold encode_char. assert (Hc' := Hc). unfold scalar in Hc'. bool_hyps.
  repeat case_if; cbn [app from_utf8]; bool_hyps.
  - by rewrite (proj2 (Z.ltb_lt _ _)), Hl by lia.
  - rewrite (proj2 (Z.ltb_ge _ _)) by zdiv.
    rewrite (proj2 (Z.leb_le 0xc0 _)), (proj2 (Z.ltb_lt (0xc0 + _) _)) by zdiv. cbn [andb].
    replace ((0xc0 + c / 64 - 0xc0) * 64 + (0x80 + c mod 64 - 0x80)) with c by zdiv.
    unfold cont. rewrite (proj2 (Z.leb_le 0x80 (0x80 + _))), (proj2 (Z.ltb_lt (0x80 + _) _)) by zdiv.
    by rewrite (proj2 (Z.leb_le 0x80 c)), Hl by lia.
  - rewrite (proj2 (Z.ltb_ge _ _)) by zdiv.
    rewrite (proj2 (Z.ltb_ge (0xe0 + _) 0xe0)), andb_false_r by zdiv.
    rewrite (proj2 (Z.leb_le 0xe0 _)), (proj2 (Z.ltb_lt (0xe0 + _) _)) by zdiv. cbn [andb].
    replace ((0xe0 + c / 4096 - 0xe0) * 4096 + (0x80 + c / 64 mod 64 - 0x80) * 64 + (0x80 + c mod 64 - 0x80))
      with c by zdiv.
    unfold cont. rewrite !(proj2 (Z.leb_le 0x80 (0x80 + _))), !(proj2 (Z.ltb_lt (0x80 + _) _)) by zdiv.
    by rewrite (proj2 (Z.leb_le 0x800 c)), Hc, Hl by lia.
  - rewrite (proj2 (Z.ltb_ge _ _)) by zdiv.
    rewrite (proj2 (Z.ltb_ge (0xf0 + _) 0xe0)), andb_false_r by zdiv.
    rewrite (proj2 (Z.ltb_ge (0xf0 + _) 0xf0)), andb_false_r by zdiv.
    rewrite (proj2 (Z.leb_le 0xf0 _)), (proj2 (Z.ltb_lt (0xf0 + _) _)) by zdiv. cbn [andb].
    replace ((0xf0 + c / 262144 - 0xf0) * 262144 + (0x80 + c / 4096 mod 64 - 0x80) * 4096 +
      (0x80 + c / 64 mod 64 - 0x80) * 64 + (0x80 + c mod 64 - 0x80)) with c by zdiv.
    unfold cont. rewrite !(proj2 (Z.leb_le 0x80 (0x80 + _))), !(proj2 (Z.ltb_lt (0x80 + _) _)) by zdiv.
    by rewrite (proj2 (Z.leb_le 0x10000 c)), Hc, Hl by lia.
Qed.

Lemma utf8_roundtrip s : Forall (λ c, scalar c = true) s → from_utf8 (as_bytes s) = Some s.
Proof.
  unfold as_bytes. induction 1 as [|c s Hc _ IH]; [done|]. cbn [fmap list_fmap concat].
  by apply encode_char_decode.
Qed.

(** [str::len] is the number of bytes. *)
Lemma as_bytes_len s : zlen (as_bytes s) = str_len s.
Proof.
  unfold as_bytes. induction s as [|c s IH]; [done|]. cbn [fmap list_fmap concat str_len].
  rewrite length_app, Nat2Z.inj_add, IH. f_equal. unfold encode_char, utf8_len. by repeat case_if.
Qed.

(** [format!("{v}")] of an unsigned integer of at most 64 bits: at most 20
    decimal digits. *)
Fixpoint dec_from (fuel : nat) (v : Z) : text :=
  match fuel with
  | O => []
  | S fuel => if v <? 10 then [48 + v] else dec_from fuel (v / 10) ++ [48 + v mod 10]
  end.

Definition dec (v : Z) : text := dec_from 20 v.

(** The number that decimal digits stand for. *)
Definition dec_value (s : text) : Z := foldl (λ acc c, acc * 10 + (c - 48)) 0 s.

Lemma dec_from_value fuel v : 0 <= v < 10 ^ Z.of_nat fuel → dec_value (dec_from fuel v) = v.
Proof.
  revert v. induction fuel as [|fuel IH]; intros v Hv; [cbn in *; lia|]. cbn [dec_from]. destruct (Z.ltb_spec v 10); [cbn; lia|].
  unfold dec_value in *. rewrite foldl_app. rewrite IH; [cbn; pose proof (Z.div_mod v 10 ltac:(lia)); lia|].
  rewrite Nat2Z.inj_succ, Z.pow_succ_r in Hv by lia. split; [apply Z.div_pos; lia|apply Z.div_lt_upper_bound; lia].
Qed.

Lemma dec_inj a b : 0 <= a <= U64_MAX → 0 <= b <= U64_MAX → dec a = dec b → a = b.
Proof.
  intros Ha Hb E. unfold dec in E. apply (f_equal dec_value) in E. unfold U64_MAX in *. rewrite !dec_from_value in E by lia. done.
Qed.

Lemma dec_digits v : 0 <= v → Forall (λ c, 48 <= c <= 57) (dec v).
Proof.
  unfold dec. generalize 20%nat. intros fuel. revert v. induction fuel as [|fuel IH]; intros v Hv; cbn [dec_from]; [constructor|].
  destruct (Z.ltb_spec v 10); [constructor; [lia|constructor]|]. pose proof (Z.mod_pos_bound v 10 ltac:(lia)).
  apply Forall_app. split; [apply IH, Z.div_pos; lia|constructor; [lia|constructor]].
Qed.

(** [s.parse()] to an unsigned integer of at most [max] *)
Fixpoint parse_digits (max acc : Z) (s : text) : option Z :=
  match s with
  | [] => Some acc
  | c :: s =>
      if (48 <=? c) && (c <=? 57)
      then let v := acc * 10 + (c - 48) in if v <=? max then parse_digits max v s else None
      else None
  end.

Definition parse_uint (max : Z) (s : text) : option Z :=
  let digits := match s with 43 :: s' => s' | _ => s end in
  if nonempty digits then parse_digits max 0 digits else None.

Definition parse_u32 : text → option Z := parse_uint U32_MAX.

Lemma digits_grow acc s : 0 <= acc → Forall (λ c, 48 <= c <= 57) s → acc <= foldl (λ acc c, acc * 10 + (c - 48)) acc s.
Proof.
  revert acc. induction s as [|c s IH]; intros acc Ha Hs; cbn [foldl]; [done|]. apply Forall_cons in Hs as [Hc Hs].
  etrans; [|apply IH; [lia|done]]. lia.
Qed.

Lemma parse_digits_value max acc s : 0 <= acc → Forall (λ c, 48 <= c <= 57) s → foldl (λ acc c, acc * 10 + (c - 48)) acc s <= max →
  parse_digits max acc s = Some (foldl (λ acc c, acc * 10 + (c - 48)) acc s).
Proof.
  revert acc. induction s as [|c s IH]; intros acc Ha Hs Hv; cbn [foldl parse_digits] in *; [done|]. apply Forall_cons in Hs as [Hc Hs].
  rewrite (proj2 (Z.leb_le 48 c)), (proj2 (Z.leb_le c 57)) by lia. cbn [andb]. pose proof (digits_grow (acc * 10 + (c - 48)) s ltac:(lia) Hs).
  rewrite (proj2 (Z.leb_le _ max)) by lia. apply IH; [lia|done..].
Qed.

Lemma dec_nonempty v : ∃ c s, dec v = c :: s.
Proof.
  unfold dec. enough (H : ∀ n, ∃ c s, dec_from (S n) v = c :: s) by apply H.
  intros n. cbn [dec_from]. destruct (v <? 10); [by eexists _, _|]. destruct (dec_from n (v / 10)); by eexists _, _.
Qed.

Lemma parse_uint_dec max v : max <= U64_MAX → 0 <= v <= max → parse_uint max (dec v) = Some v.
Proof.
  intros Hmax Hv. assert (Hval : dec_value (dec v) = v) by (apply dec_from_value; unfold U64_MAX in Hmax; lia). pose proof (dec_digits v ltac:(lia)) as Hd.
  unfold parse_uint. assert (E : (match dec v with 43 :: s' => s' | _ => dec v end) = dec v).
  { destruct (dec_nonempty v) as (c&s&E). rewrite E in *. apply Forall_cons in Hd as [Hc _]. destruct c as [|c|c]; try lia. do 6 (destruct c as [c|c|]; try lia; try done). }
  rewrite E. destruct (dec_nonempty v) as (c&s&En). rewrite En at 1. cbn [nonempty]. rewrite parse_digits_value; [|done..|].
  - f_equal. exact Hval.
  - unfold dec_value in Hval. rewrite Hval. lia.
Qed.

Lemma parse_dec v : 0 <= v <= U32_MAX → parse_u32 (dec v) = Some v.
Proof. apply parse_uint_dec. unfold U32_MAX, U64_MAX. lia. Qed.
