(* ===== verification/Fips180.v ===== *)
(** * SHA-256 as the standard describes it (FIPS 180-4)

    A message is a list of bits and so is its digest.  A word is a number
    below 2^32; the standard's functions on words are given bit by bit, its
    constants by the roots they come from.  Nothing here is taken from the
    program: [Sha256.v] compares the program with it. *)

From S2P Require Import Prelude.

Open Scope Z_scope.

(** ** Bits and words *)

(** The bits of a number, the most significant first: [f (n - 1)] to [f 0]. *)
Fixpoint make (n : nat) (f : nat → bool) : list bool :=
  match n with O => [] | S n => f n :: make n f end.

Definition bits (n : nat) (v : Z) : list bool := make n (λ i, Z.testbit v (Z.of_nat i)).

Fixpoint num (l : list bool) : Z :=
  match l with [] => 0 | b :: l => Z.b2z b * 2 ^ zlen l + num l end.

Definition word_of (f : nat → bool) : Z := num (make 32 f).

(** Sums modulo 2^32. *)
Definition sum (l : list Z) : Z := foldr Z.add 0 l mod 2 ^ 32.

(** ** The functions (4.1.2) and operations (3.2) *)

Definition bit (x : Z) (i : nat) : bool := Z.testbit x (Z.of_nat i).

Definition ROTR (n : nat) (x : Z) : Z := word_of (λ i, bit x ((i + n) mod 32)).
Definition SHR (n : nat) (x : Z) : Z := word_of (λ i, if decide (i + n < 32)%nat then bit x (i + n) else false).
Definition xor3 (x y z : Z) : Z := word_of (λ i, xorb (bit x i) (xorb (bit y i) (bit z i))).

(** [x] chooses between [y] and [z]; the majority of three. *)
Definition Ch (x y z : Z) : Z := word_of (λ i, if bit x i then bit y i else bit z i).
Definition Maj (x y z : Z) : Z := word_of (λ i, if eqb (bit x i) (bit y i) then bit x i else bit z i).

Definition Sigma0 (x : Z) : Z := xor3 (ROTR 2 x) (ROTR 13 x) (ROTR 22 x).
Definition Sigma1 (x : Z) : Z := xor3 (ROTR 6 x) (ROTR 11 x) (ROTR 25 x).
Definition sigma0 (x : Z) : Z := xor3 (ROTR 7 x) (ROTR 18 x) (SHR 3 x).
Definition sigma1 (x : Z) : Z := xor3 (ROTR 17 x) (ROTR 19 x) (SHR 10 x).

(** ** The constants (4.2.2, 5.3.3) *)

Definition is_prime (p : nat) : bool := forallb (λ d, negb (p mod d =? 0)%nat) (seq 2 (p - 2)).

(** The first 64 primes: those up to 311. *)
Definition primes : list Z := Z.of_nat <$> filter (λ p, is_prime p = true) (seq 2 310).

(** The largest number whose cube is at most [v], found bit by bit. *)
Fixpoint cbrt_from (k : nat) (r v : Z) : Z :=
  match k with
  | O => r
  | S k => let r' := r + 2 ^ Z.of_nat k in cbrt_from k (if r' ^ 3 <=? v then r' else r) v
  end.

Definition cbrt (v : Z) : Z := cbrt_from 40 0 v.

(** The first 32 bits of the fractional parts of the cube roots of the first
    64 primes, and of the square roots of the first eight. *)
Definition constants : list Z := (λ p, cbrt (p * 2 ^ 96) mod 2 ^ 32) <$> primes.
Definition initial : list Z := (λ p, Z.sqrt (p * 2 ^ 64) mod 2 ^ 32) <$> take 8 primes.

(** ** A block (6.2.2) *)

(** The message schedule up to [W_t], the latest word first: [W_(t-2)] is
    then at 1 and [W_(t-16)] at 15. *)
Fixpoint schedule_upto (M : list Z) (n : nat) : list Z :=
  match n with
  | O => []
  | S t =>
      let W := schedule_upto M t in
      (if decide (t < 16)%nat then M !!! t
       else sum [sigma1 (W !!! 1%nat); W !!! 6%nat; sigma0 (W !!! 14%nat); W !!! 15%nat]) :: W
  end.

Definition W (M : list Z) (t : nat) : Z := schedule_upto M (S t) !!! 0%nat.

(** The working variables [a] to [h] after [t] rounds. *)
Definition eight (A : Type) : Type := A * A * A * A * A * A * A * A.

Definition one_round (k w : Z) (v : eight Z) : eight Z :=
  let '(a, b, c, d, e, f, g, h) := v in
  let T1 := sum [h; Sigma1 e; Ch e f g; k; w] in
  let T2 := sum [Sigma0 a; Maj a b c] in
  (sum [T1; T2], a, b, c, sum [d; T1], e, f, g).

Fixpoint rounds (M : list Z) (t : nat) (v : eight Z) : eight Z :=
  match t with O => v | S t => one_round (constants !!! t) (W M t) (rounds M t v) end.

(** The sixteen words of a block of 512 bits. *)
Definition words (block : list bool) : list Z := (λ i, num (take 32 (drop (i * 32) block))) <$> seq 0 16.

Definition hash_block (H : eight Z) (block : list bool) : eight Z :=
  let '(a, b, c, d, e, f, g, h) := rounds (words block) 64 H in
  let '(H0, H1, H2, H3, H4, H5, H6, H7) := H in
  (sum [a; H0], sum [b; H1], sum [c; H2], sum [d; H3], sum [e; H4], sum [f; H5], sum [g; H6], sum [h; H7]).

(** ** A message (5.1.1, 5.2.1, 6.2) *)

(** One bit, [k] zeros with [l + 1 + k] 448 modulo 512, the length in 64 bits. *)
Definition padded (M : list bool) : list bool :=
  let l := zlen M in M ++ [true] ++ replicate (Z.to_nat ((448 - (l + 1)) mod 512)) false ++ bits 64 l.

Fixpoint hash_blocks (n : nat) (H : eight Z) (M : list bool) : eight Z :=
  match n with O => H | S n => hash_blocks n (hash_block H (take 512 M)) (drop 512 M) end.

Definition listed {A} (v : eight A) : list A := let '(a, b, c, d, e, f, g, h) := v in [a; b; c; d; e; f; g; h].

Definition first_eight (l : list Z) : eight Z :=
  (l !!! 0%nat, l !!! 1%nat, l !!! 2%nat, l !!! 3%nat, l !!! 4%nat, l !!! 5%nat, l !!! 6%nat, l !!! 7%nat).

Definition sha256 (M : list bool) : list bool :=
  let P := padded M in concat (bits 32 <$> listed (hash_blocks (length P / 512) (first_eight initial) P)).

(** The bits of a string of bytes. *)
Definition bits_of (l : list Z) : list bool := concat (bits 8 <$> l).

(** ** What the definitions mean *)

Lemma cbrt_from_spec k r v : 0 <= r → r ^ 3 <= v → v < (r + 2 ^ Z.of_nat k) ^ 3 →
  let c := cbrt_from k r v in 0 <= c ∧ c ^ 3 <= v < (c + 1) ^ 3.
Proof.
  revert r. induction k as [|k IH]; intros r Hr Hl Hu; cbn [cbrt_from]; [done|].
  assert (0 < 2 ^ Z.of_nat k) by (apply Z.pow_pos_nonneg; lia). rewrite Nat2Z.inj_succ, Z.pow_succ_r in Hu by lia.
  destruct (Z.leb_spec ((r + 2 ^ Z.of_nat k) ^ 3) v); apply IH; try done; try lia.
Qed.

(** The root is the cube root, rounded down. *)
Lemma cbrt_spec v : 0 <= v < 2 ^ 120 → 0 <= cbrt v ∧ cbrt v ^ 3 <= v < (cbrt v + 1) ^ 3.
Proof. intros Hv. apply (cbrt_from_spec 40 0 v); cbn in *; lia. Qed.

(** There are 64 primes up to 311. *)
Lemma primes_64 : length primes = 64%nat ∧ take 8 primes = [2; 3; 5; 7; 11; 13; 17; 19] ∧ primes !! 63%nat = Some 311.
Proof. by vm_compute. Qed.

Lemma make_length n f : length (make n f) = n.
Proof. induction n as [|n IH]; cbn [make length]; [done|]. by rewrite IH. Qed.

Lemma make_ext n f g : (∀ i, (i < n)%nat → f i = g i) → make n f = make n g.
Proof. induction n as [|n IH]; intros H; cbn [make]; [done|]. rewrite H by lia. f_equal. apply IH. intros i Hi. apply H. lia. Qed.

Lemma bits_length n v : length (bits n v) = n.
Proof. apply make_length. Qed.

Lemma num_app a b : num (a ++ b) = num a * 2 ^ zlen b + num b.
Proof.
  induction a as [|x a IH]; cbn [app num]; [lia|]. rewrite IH, length_app, Nat2Z.inj_add, Z.pow_add_r by lia. lia.
Qed.

Lemma num_bits n v : num (bits n v) = v mod 2 ^ Z.of_nat n.
Proof.
  unfold bits. induction n as [|n IH]; cbn [make num]; [by rewrite Z.mod_1_r|]. rewrite make_length, IH.
  rewrite Z.testbit_spec' by lia. rewrite Nat2Z.inj_succ, Z.pow_succ_r, Z.mul_comm by lia.
  rewrite (Z.mul_comm 2), Z.rem_mul_r by (try apply Z.pow_nonzero; lia). lia.
Qed.

Lemma bits_app a b v : bits (a + b) v = bits a (Z.shiftr v (Z.of_nat b)) ++ bits b v.
Proof.
  unfold bits. induction a as [|a IH]; cbn [Nat.add make app]; [done|]. rewrite IH, Z.shiftr_spec, <- Nat2Z.inj_add by lia. done.
Qed.

Lemma bits_mod n v : bits n (v mod 2 ^ Z.of_nat n) = bits n v.
Proof. apply make_ext. intros i Hi. apply Z.mod_pow2_bits_low. lia. Qed.

(** A number is a word given by its bits. *)
Lemma word_eq v f : (∀ i, (32 <= i)%nat → bit v i = false) → (∀ i, (i < 32)%nat → bit v i = f i) → v = word_of f.
Proof.
  intros Hh Hl. unfold word_of. rewrite (make_ext 32 f (bit v)) by (intros; by rewrite Hl). change (make 32 (bit v)) with (bits 32 v).
  rewrite num_bits. apply Z.bits_inj'. intros n Hn. destruct (Z.ltb_spec n 32).
  - by rewrite Z.mod_pow2_bits_low by lia.
  - rewrite Z.mod_pow2_bits_high by lia. specialize (Hh (Z.to_nat n) ltac:(lia)). unfold bit in Hh. by rewrite Z2Nat.id in Hh by lia.
Qed.

Lemma bit_high x i : 0 <= x < 2 ^ 32 → (32 <= i)%nat → bit x i = false.
Proof. intros Hx Hi. unfold bit. rewrite <- (Z.mod_small x (2 ^ 32)) by done. apply Z.mod_pow2_bits_high. lia. Qed.

Lemma num_range l : 0 <= num l < 2 ^ zlen l.
Proof.
  induction l as [|b l IH]; cbn [num length]; [cbn; lia|]. rewrite Nat2Z.inj_succ, Z.pow_succ_r by lia. destruct b; cbn [Z.b2z]; lia.
Qed.

Lemma word_of_range f : 0 <= word_of f < 2 ^ 32.
Proof. unfold word_of. pose proof (num_range (make 32 f)) as H. by rewrite make_length in H. Qed.

Lemma sum_range l : 0 <= sum l < 2 ^ 32.
Proof. unfold sum. apply Z.mod_pos_bound. lia. Qed.
