(* ===== verification/Sha256.v ===== *)
(** * SHA-256 ([kernel/src/sec/sha256.rs])

    The compression function, and [digest], which takes its input in parts
    and keeps one block.  The theorem compares it with the standard
    ([Fips180.v]), bit by bit: the functions and constants of a round, the
    schedule, the padding, the chain of blocks. *)

From S2P Require Import Prelude Fips180.
From stdpp Require Import list.

Open Scope Z_scope.

(** The table by the source's rows. *)
Definition K : list Z := concat [
  [0x428a2f98; 0x71374491; 0xb5c0fbcf; 0xe9b5dba5; 0x3956c25b; 0x59f111f1; 0x923f82a4; 0xab1c5ed5];
  [0xd807aa98; 0x12835b01; 0x243185be; 0x550c7dc3; 0x72be5d74; 0x80deb1fe; 0x9bdc06a7; 0xc19bf174];
  [0xe49b69c1; 0xefbe4786; 0x0fc19dc6; 0x240ca1cc; 0x2de92c6f; 0x4a7484aa; 0x5cb0a9dc; 0x76f988da];
  [0x983e5152; 0xa831c66d; 0xb00327c8; 0xbf597fc7; 0xc6e00bf3; 0xd5a79147; 0x06ca6351; 0x14292967];
  [0x27b70a85; 0x2e1b2138; 0x4d2c6dfc; 0x53380d13; 0x650a7354; 0x766a0abb; 0x81c2c92e; 0x92722c85];
  [0xa2bfe8a1; 0xa81a664b; 0xc24b8b70; 0xc76c51a3; 0xd192e819; 0xd6990624; 0xf40e3585; 0x106aa070];
  [0x19a4c116; 0x1e376c08; 0x2748774c; 0x34b0bcb5; 0x391c0cb3; 0x4ed8aa4a; 0x5b9cca4f; 0x682e6ff3];
  [0x748f82ee; 0x78a5636f; 0x84c87814; 0x8cc70208; 0x90befffa; 0xa4506ceb; 0xbef9a3f7; 0xc67178f2] ].

Definition H0 : list Z := [
  0x6a09e667; 0xbb67ae85; 0x3c6ef372; 0xa54ff53a; 0x510e527f; 0x9b05688c; 0x1f83d9ab; 0x5be0cd19 ].

(** [u32] operations *)
Definition wadd (a b : Z) : Z := (a + b) mod 2 ^ 32.
Definition wnot (a : Z) : Z := Z.lxor a (2 ^ 32 - 1).
Definition rotate_right (x n : Z) : Z := Z.lor (Z.shiftr x n) (Z.shiftl x (32 - n) mod 2 ^ 32).

(** [to_be_bytes] of an [n]-byte integer, and [from_be_bytes] *)
Definition be_bytes (n : nat) (v : Z) : list Z := reverse (le_bytes n v).
Definition be_val (l : list Z) : Z := le_val (reverse l).

(** The first sixteen words are the block's; [w[i]] for the rest. *)
Definition block_words (block : list Z) : list Z :=
  (λ i, be_val (take 4 (drop (i * 4) block))) <$> seq 0 16.

Fixpoint schedule (n : nat) (w : list Z) : list Z :=
  match n with
  | O => w
  | S n' =>
      let i := length w in
      let w15 := w !!! (i - 15)%nat in
      let w2 := w !!! (i - 2)%nat in
      let s0 := Z.lxor (Z.lxor (rotate_right w15 7) (rotate_right w15 18)) (Z.shiftr w15 3) in
      let s1 := Z.lxor (Z.lxor (rotate_right w2 17) (rotate_right w2 19)) (Z.shiftr w2 10) in
      schedule n' (w ++ [wadd (wadd (wadd (w !!! (i - 16)%nat) s0) (w !!! (i - 7)%nat)) s1])
  end.

Record Vars := { va : Z; vb : Z; vc : Z; vd : Z; ve : Z; vf : Z; vg : Z; vh : Z }.

Definition round (v : Vars) (kw : Z * Z) : Vars :=
  let '(k, w) := kw in
  let s1 := Z.lxor (Z.lxor (rotate_right (ve v) 6) (rotate_right (ve v) 11)) (rotate_right (ve v) 25) in
  let ch := Z.lxor (Z.land (ve v) (vf v)) (Z.land (wnot (ve v)) (vg v)) in
  let t1 := wadd (wadd (wadd (wadd (vh v) s1) ch) k) w in
  let s0 := Z.lxor (Z.lxor (rotate_right (va v) 2) (rotate_right (va v) 13)) (rotate_right (va v) 22) in
  let maj := Z.lxor (Z.lxor (Z.land (va v) (vb v)) (Z.land (va v) (vc v))) (Z.land (vb v) (vc v)) in
  let t2 := wadd s0 maj in
  {| va := wadd t1 t2; vb := va v; vc := vb v; vd := vc v;
     ve := wadd (vd v) t1; vf := ve v; vg := vf v; vh := vg v |}.

Definition compress (h block : list Z) : list Z :=
  let w := schedule 48 (block_words block) in
  let v0 := {| va := h !!! 0%nat; vb := h !!! 1%nat; vc := h !!! 2%nat; vd := h !!! 3%nat;
               ve := h !!! 4%nat; vf := h !!! 5%nat; vg := h !!! 6%nat; vh := h !!! 7%nat |} in
  let v := foldl round v0 (zip K w) in
  zip_with wadd h [va v; vb v; vc v; vd v; ve v; vf v; vg v; vh v].

(** What [digest] keeps between bytes. *)
Record State := { st_h : list Z; st_block : list Z; st_fill : nat }.

Definition feed (s : State) (byte : Z) : State :=
  let block := <[st_fill s := byte]> (st_block s) in
  let fill := S (st_fill s) in
  if decide (fill = 64%nat)
  then {| st_h := compress (st_h s) block; st_block := block; st_fill := 0 |}
  else {| st_h := st_h s; st_block := block; st_fill := fill |}.

(** [block[a..b].fill(0)] *)
Definition fill_zero (block : list Z) (a b : nat) : list Z :=
  take a block ++ replicate (b - a) 0 ++ drop b block.

Definition finish (s : State) (bits : Z) : list Z :=
  let block := <[st_fill s := 0x80]> (st_block s) in
  let fill := S (st_fill s) in
  let '(h, block, fill) :=
    if decide (56 < fill)%nat
    then let block := fill_zero block fill 64 in (compress (st_h s) block, block, 0%nat)
    else (st_h s, block, fill) in
  let block := fill_zero block fill 56 in
  let block := take 56 block ++ be_bytes 8 bits in
  compress h block.

Definition digest (parts : list (list Z)) : option (list Z) :=
  let s := foldl (foldl feed) {| st_h := H0; st_block := replicate 64 0; st_fill := 0 |} parts in
  let total := foldl (λ t (part : list Z), t + zlen part) 0 parts in
  bits ← fits 64 (total * 8);
  Some (concat (be_bytes 4 <$> finish s bits)).

(** ** The whole message at once *)

(** Zero bytes after the 0x80 that bring the message to 56 modulo 64. *)
Definition pad_zeros (len : nat) : nat := (119 - len mod 64) mod 64.

Definition pad (msg : list Z) : list Z :=
  msg ++ [0x80] ++ replicate (pad_zeros (length msg)) 0 ++ be_bytes 8 (8 * zlen msg).

(** [n] blocks of 64 bytes compressed in turn. *)
Fixpoint hash_blocks (n : nat) (h msg : list Z) : list Z :=
  match n with
  | O => h
  | S n' => hash_blocks n' (compress h (take 64 msg)) (drop 64 msg)
  end.

Definition sha256 (msg : list Z) : list Z :=
  let m := pad msg in
  concat (be_bytes 4 <$> hash_blocks (length m / 64) H0 m).

Lemma hash_blocks_app a b h m1 m2 :
  length m1 = (64 * a)%nat → hash_blocks (a + b) h (m1 ++ m2) = hash_blocks b (hash_blocks a h m1) m2.
Proof.
  revert h m1. induction a as [|a IH]; intros h m1 Hl.
  - destruct m1; [done|simpl in Hl; lia].
  - cbn [Nat.add hash_blocks]. rewrite take_app_le, drop_app_le by lia. apply IH.
    rewrite length_drop. lia.
Qed.

(** ** A round and a block are the standard's *)

Abbreviation word x := (0 <= x < 2 ^ 32) (only parsing).

Lemma rotate_ROTR x n : word x → 0 < n < 32 → rotate_right x n = ROTR (Z.to_nat n) x.
Proof.
  intros Hx Hn. unfold rotate_right. apply word_eq.
  - intros i Hi. unfold bit. rewrite Z.lor_spec, Z.shiftr_spec, Z.mod_pow2_bits_high by lia.
    pose proof (bit_high x (i + Z.to_nat n) Hx ltac:(lia)) as Hb. unfold bit in Hb.
    rewrite Nat2Z.inj_add, Z2Nat.id in Hb by lia. by rewrite Hb.
  - intros i Hi. unfold bit. rewrite Z.lor_spec, Z.shiftr_spec, Z.mod_pow2_bits_low, Z.shiftl_spec by lia.
    destruct (decide (i + Z.to_nat n < 32)%nat) as [Hs|Hs].
    + rewrite Nat.mod_small by done. rewrite (Z.testbit_neg_r x (Z.of_nat i - (32 - n))) by lia. rewrite orb_false_r. f_equal. lia.
    + pose proof (bit_high x (i + Z.to_nat n) Hx ltac:(lia)) as Hb. unfold bit in Hb. rewrite Nat2Z.inj_add, Z2Nat.id in Hb by lia.
      rewrite Hb. cbn [orb]. f_equal. replace (i + Z.to_nat n)%nat with (i + Z.to_nat n - 32 + 1 * 32)%nat by lia.
      rewrite Nat.Div0.mod_add, Nat.mod_small by lia. lia.
Qed.

Lemma shiftr_SHR x n : word x → 0 <= n → Z.shiftr x n = SHR (Z.to_nat n) x.
Proof.
  intros Hx Hn. assert (Hb : ∀ i, bit (Z.shiftr x n) i = bit x (i + Z.to_nat n)).
  { intros i. unfold bit. rewrite Z.shiftr_spec by lia. f_equal. lia. }
  apply word_eq; intros i Hi; rewrite Hb; [apply bit_high; (done || lia)|]. case_decide; [done|]. apply bit_high; [done|lia].
Qed.

Lemma lxor_xor3 x y z : word x → word y → word z → Z.lxor (Z.lxor x y) z = xor3 x y z.
Proof.
  intros Hx Hy Hz. apply word_eq; intros i Hi; unfold bit; rewrite !Z.lxor_spec; fold (bit x i) (bit y i) (bit z i).
  - by rewrite !bit_high.
  - by destruct (bit x i), (bit y i), (bit z i).
Qed.

Lemma wnot_bit x i : (i < 32)%nat → bit (wnot x) i = negb (bit x i).
Proof.
  intros Hi. unfold bit, wnot. rewrite Z.lxor_spec. change (2 ^ 32 - 1) with (Z.ones 32). rewrite Z.ones_spec_low by lia. apply xorb_true_r.
Qed.

Lemma ch_Ch e f g : word e → word f → word g → Z.lxor (Z.land e f) (Z.land (wnot e) g) = Ch e f g.
Proof.
  intros He Hf Hg. apply word_eq; intros i Hi; unfold bit; rewrite !Z.lxor_spec, !Z.land_spec; fold (bit (wnot e) i) (bit e i) (bit f i) (bit g i).
  - rewrite (bit_high e), (bit_high g) by done. by rewrite andb_false_r.
  - rewrite wnot_bit by done. by destruct (bit e i), (bit f i), (bit g i).
Qed.

Lemma maj_Maj a b c : word a → word b → word c →
  Z.lxor (Z.lxor (Z.land a b) (Z.land a c)) (Z.land b c) = Maj a b c.
Proof.
  intros Ha Hb Hc. apply word_eq; intros i Hi; unfold bit; rewrite !Z.lxor_spec, !Z.land_spec; fold (bit a i) (bit b i) (bit c i).
  - by rewrite !bit_high.
  - by destruct (bit a i), (bit b i), (bit c i).
Qed.

Lemma wadd_sum2 a b : wadd a b = sum [a; b].
Proof. unfold wadd, sum. cbn [foldr]. f_equal. lia. Qed.

Lemma wadd_sum4 a b c d : wadd (wadd (wadd a b) c) d = sum [d; c; b; a].
Proof. unfold wadd, sum. cbn [foldr]. repeat (rewrite Zplus_mod_idemp_l, <- ?Z.add_assoc). f_equal. lia. Qed.

Lemma wadd_sum5 a b c d e : wadd (wadd (wadd (wadd a b) c) d) e = sum [a; b; c; d; e].
Proof. unfold wadd, sum. cbn [foldr]. repeat (rewrite Zplus_mod_idemp_l, <- ?Z.add_assoc). f_equal. lia. Qed.

Lemma wadd_range a b : word (wadd a b).
Proof. unfold wadd. apply Z.mod_pos_bound. lia. Qed.

Lemma std_K : K = constants.
Proof. by vm_compute. Qed.

Lemma K_length : length K = 64%nat.
Proof. done. Qed.

Lemma H0_words : Forall (λ x, word x) H0.
Proof. unfold H0. repeat (apply Forall_cons; split); [lia..|constructor]. Qed.

Lemma std_H0 : first_eight H0 = first_eight initial.
Proof. by vm_compute. Qed.

Definition eight_of (v : Vars) : eight Z := (va v, vb v, vc v, vd v, ve v, vf v, vg v, vh v).
Definition words_in (v : Vars) : Prop := Forall (λ x, word x) (listed (eight_of v)).

(** Constants of [nat] written out. *)
Ltac to_nats := repeat match goal with |- context [Z.to_nat ?n] => let k := eval vm_compute in (Z.to_nat n) in change (Z.to_nat n) with k end.

Lemma round_std v k w : words_in v → eight_of (round v (k, w)) = one_round k w (eight_of v) ∧ words_in (round v (k, w)).
Proof.
  intros Hv. unfold words_in, eight_of, listed in Hv. repeat (apply Forall_cons in Hv as [? Hv]). split.
  - unfold round, one_round, eight_of. cbn [va vb vc vd ve vf vg vh].
    rewrite !rotate_ROTR by (done || lia). rewrite !lxor_xor3 by apply word_of_range. rewrite ch_Ch, maj_Maj by done.
    rewrite !(wadd_sum5 (vh v) _ _ k w), !wadd_sum2. unfold Sigma0, Sigma1. to_nats. reflexivity.
  - unfold words_in, round, eight_of. cbn [va vb vc vd ve vf vg vh listed].
    repeat (apply Forall_cons; split); try apply wadd_range; first [assumption|constructor].
Qed.

(** *** The schedule *)

Lemma upto_length M n : length (schedule_upto M n) = n.
Proof. induction n as [|n IH]; cbn [schedule_upto length]; [done|]. by rewrite IH. Qed.

Lemma reverse_back (l : list Z) k : (0 < k <= length l)%nat → reverse l !!! (length l - k)%nat = l !!! (k - 1)%nat.
Proof.
  intros Hk. rewrite !list_lookup_total_alt, reverse_lookup by lia. f_equal. f_equal. lia.
Qed.

Lemma upto_words M n : Forall (λ x, word x) M → length M = 16%nat → Forall (λ x, word x) (schedule_upto M n).
Proof.
  intros HM Hl. induction n as [|n IH]; cbn [schedule_upto]; [done|]. constructor; [|done]. case_decide; [|apply sum_range].
  rewrite Forall_forall in HM. apply HM. apply list_elem_of_lookup_total_2. lia.
Qed.

Lemma upto_at M n k : Forall (λ x, word x) M → length M = 16%nat → (k < n)%nat → word (schedule_upto M n !!! k).
Proof.
  intros HM Hl Hk. pose proof (upto_words M n HM Hl) as H. rewrite Forall_forall in H. apply H, list_elem_of_lookup_total_2.
  by rewrite upto_length.
Qed.

(** The code appends to its schedule what the standard puts in front. *)
Lemma schedule_std M n t : Forall (λ x, word x) M → length M = 16%nat → (16 <= t)%nat →
  schedule n (reverse (schedule_upto M t)) = reverse (schedule_upto M (n + t)).
Proof.
  intros HM Hl. revert t. induction n as [|n IH]; intros t Ht; [done|]. cbn [schedule].
  replace (S n + t)%nat with (n + S t)%nat by lia. rewrite <- IH by lia. f_equal. cbn [schedule_upto]. rewrite decide_False by lia.
  rewrite reverse_cons. do 2 f_equal. rewrite length_reverse.
  rewrite !reverse_back by (rewrite upto_length; lia).
  pose proof (upto_at M t 14 HM Hl ltac:(lia)). pose proof (upto_at M t 1 HM Hl ltac:(lia)).
  change (16 - 1)%nat with 15%nat. change (15 - 1)%nat with 14%nat. change (7 - 1)%nat with 6%nat. change (2 - 1)%nat with 1%nat.
  rewrite !rotate_ROTR, !shiftr_SHR by (done || lia). rewrite !lxor_xor3 by apply word_of_range. rewrite wadd_sum4.
  unfold sigma0, sigma1. to_nats. reflexivity.
Qed.

Lemma upto_16 M : length M = 16%nat → reverse (schedule_upto M 16) = M.
Proof. intros Hl. do 16 (destruct M as [|? M]; [done|]). destruct M; [|done]. reflexivity. Qed.

Lemma upto_lookup M n t : (t < n)%nat → reverse (schedule_upto M n) !! t = Some (W M t).
Proof.
  intros Ht. induction n as [|n IH]; [lia|]. cbn [schedule_upto]. rewrite reverse_cons.
  destruct (decide (t = n)) as [->|].
  - rewrite lookup_app_r by (rewrite length_reverse, upto_length; lia). rewrite length_reverse, upto_length, Nat.sub_diag. reflexivity.
  - rewrite lookup_app_l by (rewrite length_reverse, upto_length; lia). apply IH. lia.
Qed.

(** *** The words of a block *)

Lemma bits_of_app a b : bits_of (a ++ b) = bits_of a ++ bits_of b.
Proof. unfold bits_of. by rewrite fmap_app, concat_app. Qed.

Lemma bits_of_length l : length (bits_of l) = (8 * length l)%nat.
Proof.
  induction l as [|b l IH]; [done|]. change (b :: l) with ([b] ++ l). rewrite bits_of_app, !length_app, IH. cbn [length].
  unfold bits_of. cbn [fmap list_fmap concat]. rewrite app_nil_r, bits_length. lia.
Qed.

Lemma take_bits n l : take (8 * n) (bits_of l) = bits_of (take n l).
Proof.
  rewrite <- (take_drop n l) at 1. rewrite bits_of_app. destruct (decide (n <= length l)%nat).
  - apply take_app_length'. rewrite bits_of_length, length_take. lia.
  - rewrite (drop_ge l n) by lia. cbn. rewrite app_nil_r. apply take_ge. rewrite bits_of_length, length_take. lia.
Qed.

Lemma drop_bits n l : drop (8 * n) (bits_of l) = bits_of (drop n l).
Proof.
  rewrite <- (take_drop n l) at 1. rewrite bits_of_app. destruct (decide (n <= length l)%nat).
  - apply drop_app_length'. rewrite bits_of_length, length_take. lia.
  - rewrite (drop_ge l n) by lia. cbn. rewrite app_nil_r. apply drop_ge. rewrite bits_of_length, length_take. lia.
Qed.

Lemma be_val_bits l : Forall is_byte l → be_val l = num (bits_of l).
Proof.
  unfold be_val. induction l as [|b l IH] using rev_ind; [done|]. intros [Hl Hb]%Forall_app. apply Forall_cons in Hb as [Hb _].
  rewrite reverse_app, bits_of_app, num_app, <- IH by done. cbn [reverse rev_append app le_val].
  change (bits_of [b]) with (bits 8 b ++ []). rewrite app_nil_r, num_bits, bits_length. unfold is_byte in Hb.
  rewrite Z.mod_small by (cbn; lia). change (2 ^ Z.of_nat 8) with 256. change (reverse [b] ++ reverse l) with (b :: reverse l). cbn [le_val]. lia.
Qed.

Lemma block_words_std block : Forall is_byte block → block_words block = words (bits_of block).
Proof.
  intros Hb. unfold block_words, words. apply list_fmap_ext. intros k i _. replace (i * 32)%nat with (8 * (i * 4))%nat by lia.
  rewrite drop_bits. change 32%nat with (8 * 4)%nat. rewrite take_bits. apply be_val_bits. by apply Forall_take, Forall_drop.
Qed.

Lemma words_range block : length block = 512%nat → Forall (λ x, word x) (words block) ∧ length (words block) = 16%nat.
Proof.
  intros Hl. unfold words. split; [|by rewrite length_fmap, length_seq]. apply Forall_fmap, Forall_forall. intros i [_ Hi]%elem_of_seq. cbn in Hi |- *.
  pose proof (num_range (take 32 (drop (i * 32) block))) as H. rewrite length_take, length_drop in H. by replace (32 `min` (length block - i * 32))%nat with 32%nat in H by lia.
Qed.

(** *** A block *)

#[local] Opaque constants.

Lemma rounds_std M w v t : (∀ i, (i < 64)%nat → w !! i = Some (W M i)) → (t <= 64)%nat → words_in v →
  eight_of (foldl round v (take t (zip K w))) = rounds M t (eight_of v) ∧ words_in (foldl round v (take t (zip K w))).
Proof.
  intros Hw Ht Hv. induction t as [|t IH]; [by rewrite take_0|]. destruct (IH ltac:(lia)) as [IH1 IH2].
  assert (Hz : zip K w !! t = Some (constants !!! t, W M t)).
  { apply lookup_zip_with_Some. exists (constants !!! t), (W M t). split; [done|]. split; [|apply Hw; lia].
    rewrite <- std_K. apply list_lookup_lookup_total_lt. rewrite K_length. lia. }
  rewrite (take_S_r _ _ _ Hz), foldl_snoc. cbn [rounds]. rewrite <- IH1. by apply round_std.
Qed.

Lemma schedule_words M : Forall (λ x, word x) M → length M = 16%nat →
  length (schedule 48 M) = 64%nat ∧ ∀ i, (i < 64)%nat → schedule 48 M !! i = Some (W M i).
Proof.
  intros HM Hl. assert (E : schedule 48 M = reverse (schedule_upto M (48 + 16))).
  { rewrite <- schedule_std by (done || lia). by rewrite upto_16. }
  rewrite E, length_reverse, upto_length. split; [done|]. intros i Hi. by apply upto_lookup.
Qed.

Lemma compress_std h block : length h = 8%nat → Forall (λ x, word x) h → length block = 64%nat → Forall is_byte block →
  compress h block = listed (hash_block (first_eight h) (bits_of block)).
Proof.
  intros Hl Hh Hb Hy. unfold compress, hash_block. rewrite block_words_std by done.
  destruct (words_range (bits_of block)) as [HM HlM]; [by rewrite bits_of_length, Hb|]. set (M := words (bits_of block)) in *.
  destruct (schedule_words M HM HlM) as [Hw Ha]. generalize dependent (schedule 48 M). intros w Hw Ha.
  do 8 (destruct h as [|? h]; [done|]). destruct h; [|done]. cbn [lookup_total list_lookup_total]. set (v := {| va := _ |}).
  destruct (rounds_std M w v 64 Ha ltac:(lia)) as [E _]; [exact Hh|]. rewrite take_ge in E by (rewrite length_zip_with, K_length, Hw; done).
  change (first_eight _) with (eight_of v). rewrite <- E. set (v' := foldl round v _).
  unfold eight_of, v. cbn [va vb vc vd ve vf vg vh listed zip_with].
  assert (Hc : ∀ a b, wadd a b = sum [b; a]) by (intros; unfold wadd, sum; cbn [foldr]; f_equal; lia). by rewrite !Hc.
Qed.

Lemma compress_words h block : Forall (λ x, word x) (compress h block).
Proof.
  unfold compress. apply Forall_forall. intros x (i&Hi)%list_elem_of_lookup. apply lookup_zip_with_Some in Hi as (a&b&->&_). apply wadd_range.
Qed.

Lemma compress_length h block : length h = 8%nat → length (compress h block) = 8%nat.
Proof. intros Hh. unfold compress. rewrite length_zip_with. simpl. lia. Qed.

Opaque compress.

Lemma sha256_length msg : length (sha256 msg) = 32%nat.
Proof.
  assert (Hn : ∀ n h m, length h = 8%nat → length (hash_blocks n h m) = 8%nat).
  { induction n as [|n IH]; intros h m Hh; cbn [hash_blocks]; [done|]. by apply IH, compress_length. }
  unfold sha256. specialize (Hn (length (pad msg) / 64)%nat H0 (pad msg) eq_refl).
  destruct (hash_blocks _ _ _) as [|a [|b [|c [|d [|e [|f [|g [|h []]]]]]]]]; done.
Qed.

(** What [feed] has made of [msg]: the whole blocks are hashed, the rest is
    at the start of the block. *)
Definition fed (s : State) (msg : list Z) : Prop :=
  ∃ a full, length full = (64 * a)%nat ∧ msg = full ++ take (st_fill s) (st_block s) ∧
    (st_fill s < 64)%nat ∧ length (st_block s) = 64%nat ∧ st_h s = hash_blocks a H0 full.

Lemma feed_fed s msg b : fed s msg → fed (feed s b) (msg ++ [b]).
Proof.
  intros (a&full&Hl&->&Hf&Hb&Hh). unfold feed.
  assert (E : take (S (st_fill s)) (<[st_fill s:=b]> (st_block s)) = take (st_fill s) (st_block s) ++ [b]).
  { rewrite (take_S_r _ _ b) by (apply list_lookup_insert_eq; lia). by rewrite take_insert_ge. }
  case_decide as Hc; cbn [st_h st_block st_fill].
  - exists (a + 1)%nat, (full ++ <[st_fill s:=b]> (st_block s)). cbn [st_fill st_block st_h].
    rewrite Hc in E. rewrite take_ge in E by (rewrite length_insert; lia).
    rewrite length_app, length_insert. split_and!; [lia| |lia|done|].
    + rewrite E, <-app_assoc. cbn [take]. by rewrite app_nil_r, app_assoc.
    + rewrite hash_blocks_app, <-Hh by done. cbn [hash_blocks].
      by rewrite take_ge by (rewrite length_insert; lia).
  - exists a, full. cbn [st_fill st_block st_h]. rewrite length_insert.
    split_and!; [done|by rewrite E, app_assoc|lia|done|done].
Qed.

Lemma feed_all s msg l : fed s msg → fed (foldl feed s l) (msg ++ l).
Proof.
  revert s msg. induction l as [|b l IH]; intros s msg Hs; cbn [foldl]; [by rewrite app_nil_r|].
  replace (msg ++ b :: l) with ((msg ++ [b]) ++ l) by (by rewrite <-app_assoc).
  by apply IH, feed_fed.
Qed.

Lemma feed_parts s msg parts : fed s msg → fed (foldl (foldl feed) s parts) (msg ++ concat parts).
Proof.
  revert s msg. induction parts as [|p parts IH]; intros s msg Hs; cbn [foldl concat].
  - by rewrite app_nil_r.
  - rewrite app_assoc. by apply IH, feed_all.
Qed.

Lemma total_parts parts t :
  foldl (λ t (part : list Z), t + zlen part) t parts = t + zlen (concat parts).
Proof.
  revert t. induction parts as [|p parts IH]; intros t; cbn [foldl concat]; [simpl; lia|].
  rewrite IH, length_app. lia.
Qed.

Lemma pad_zeros_fits a f :
  (f < 64)%nat →
  pad_zeros (64 * a + f) = (if decide (56 < S f) then 119 - f else 55 - f)%nat.
Proof.
  intros Hf. unfold pad_zeros.
  replace ((64 * a + f) mod 64)%nat with f.
  2:{ rewrite Nat.add_comm, Nat.mul_comm, Nat.Div0.mod_add. by rewrite Nat.mod_small. }
  case_decide.
  - apply Nat.mod_small. lia.
  - replace (119 - f)%nat with (55 - f + 1 * 64)%nat by lia.
    rewrite Nat.Div0.mod_add. apply Nat.mod_small. lia.
Qed.

Lemma length_be_bytes n v : length (be_bytes n v) = n.
Proof. unfold be_bytes. by rewrite length_reverse, le_bytes_length. Qed.

(** The block [finish] compresses last, when the length fits after [l]. *)
Lemma last_block (l block : list Z) bits :
  (length l ≤ 56)%nat → length block = 64%nat → take (length l) block = l →
  take 56 (fill_zero block (length l) 56) ++ be_bytes 8 bits =
  l ++ replicate (56 - length l) 0 ++ be_bytes 8 bits.
Proof.
  intros Hl Hb E. unfold fill_zero. rewrite E, app_assoc, take_app_le, take_ge, <-app_assoc; [done|..];
    rewrite ?length_app, ?length_replicate; lia.
Qed.

Lemma marked_block (s : State) :
  (st_fill s < 64)%nat → length (st_block s) = 64%nat →
  take (S (st_fill s)) (<[st_fill s:=0x80]> (st_block s)) = take (st_fill s) (st_block s) ++ [0x80].
Proof.
  intros Hf Hb. rewrite (take_S_r _ _ 0x80) by (apply list_lookup_insert_eq; lia).
  by rewrite take_insert_ge.
Qed.

Lemma finish_pads s msg :
  fed s msg →
  finish s (8 * zlen msg) = hash_blocks (length (pad msg) / 64) H0 (pad msg).
Proof.
  intros (a&full&Hl&Hm&Hf&Hb&Hh). unfold pad, finish.
  generalize (8 * zlen msg). intros bits.
  assert (Hlm : length msg = (64 * a + st_fill s)%nat)
    by (rewrite Hm, length_app, length_take; lia).
  pose proof (marked_block s Hf Hb) as Hk.
  assert (Hlk : length (take (st_fill s) (st_block s) ++ [0x80]) = S (st_fill s))
    by (rewrite length_app, length_take; simpl; lia).
  rewrite Hlm, pad_zeros_fits, !length_app, length_replicate, length_be_bytes, Hlm by done.
  rewrite Hm, <-app_assoc.
  set (rest := take (st_fill s) (st_block s)) in *.
  set (block := <[_:=0x80]> (st_block s)) in *.
  assert (Hlb : length block = 64%nat) by (subst block; by rewrite length_insert).
  case_decide as Hc; cbn [length].
  - replace ((64 * a + st_fill s + (1 + (119 - st_fill s + 8))) / 64)%nat with (a + 2)%nat.
    2:{ replace (64 * a + st_fill s + (1 + (119 - st_fill s + 8)))%nat with ((a + 2) * 64)%nat by lia.
        by rewrite Nat.div_mul. }
    rewrite hash_blocks_app, <-Hh by done.
    assert (Hfull : fill_zero block (S (st_fill s)) 64 =
      rest ++ [0x80] ++ replicate (64 - S (st_fill s)) 0).
    { unfold fill_zero. rewrite Hk, (drop_ge block) by lia. by rewrite app_nil_r, <-app_assoc. }
    pose proof (last_block [] (fill_zero block (S (st_fill s)) 64) bits) as Hz. cbn [length app] in Hz.
    rewrite Hz; [|lia| |done].
    2:{ rewrite Hfull, app_assoc, length_app, Hlk, length_replicate. lia. }
    rewrite Hfull.
    replace (119 - st_fill s)%nat with (64 - S (st_fill s) + 56)%nat by lia.
    rewrite replicate_add, <-app_assoc, !app_assoc, <-(app_assoc _ (replicate 56 0)).
    cbn [hash_blocks].
    assert (H64 : length ((rest ++ [0x80]) ++ replicate (64 - S (st_fill s)) 0) = 64%nat)
      by (rewrite length_app, Hlk, length_replicate; lia).
    rewrite take_app_length', drop_app_length' by done. f_equal.
  - replace ((64 * a + st_fill s + (1 + (55 - st_fill s + 8))) / 64)%nat with (a + 1)%nat.
    2:{ replace (64 * a + st_fill s + (1 + (55 - st_fill s + 8)))%nat with ((a + 1) * 64)%nat by lia.
        by rewrite Nat.div_mul. }
    rewrite hash_blocks_app, <-Hh by done.
    pose proof (last_block (rest ++ [0x80]) block bits) as Hz. rewrite Hlk in Hz.
    rewrite Hz; [|lia|done|done]. cbn [hash_blocks].
    replace (56 - S (st_fill s))%nat with (55 - st_fill s)%nat by lia.
    rewrite take_ge, <-app_assoc; [done|].
    rewrite !length_app, length_replicate, length_be_bytes. subst rest. rewrite length_take. simpl. lia.
Qed.

Lemma digest_spec (parts : list (list Z)) :
  8 * zlen (concat parts) < 2 ^ 64 → digest parts = Some (sha256 (concat parts)).
Proof.
  intros Hlen. unfold digest, sha256. rewrite total_parts.
  rewrite fits_in by lia. cbn [mbind option_bind].
  replace ((0 + zlen (concat parts)) * 8) with (8 * zlen (concat parts)) by lia.
  erewrite finish_pads; [done|].
  change (concat parts) with ([] ++ concat parts). apply feed_parts.
  exists 0%nat, []. cbn [st_fill st_block st_h]. by split_and!; try lia.
Qed.

(** ** The whole message is the standard's *)

Lemma hash_blocks_std n h msg : length h = 8%nat → Forall (λ x, word x) h → Forall is_byte msg → (64 * n <= length msg)%nat →
  hash_blocks n h msg = listed (Fips180.hash_blocks n (first_eight h) (bits_of msg)).
Proof.
  revert h msg. induction n as [|n IH]; intros h msg Hl Hh Hb Hn.
  - do 8 (destruct h as [|? h]; [done|]). by destruct h.
  - cbn [hash_blocks Fips180.hash_blocks]. rewrite IH; [|by apply compress_length|apply compress_words|by apply Forall_drop|rewrite length_drop; lia].
    change 512%nat with (8 * 64)%nat. rewrite drop_bits, take_bits. do 2 f_equal.
    rewrite compress_std; [|done|done|rewrite length_take; lia|by apply Forall_take]. by destruct (hash_block _ _) as [[[[[[[? ?] ?] ?] ?] ?] ?] ?].
Qed.

Lemma be_bytes_S n v : be_bytes (S n) v = be_bytes n (v / 256) ++ [v mod 256].
Proof. unfold be_bytes. cbn [le_bytes]. by rewrite reverse_cons. Qed.

Lemma be_bytes_bits n v : bits_of (be_bytes n v) = bits (8 * n) v.
Proof.
  revert v. induction n as [|n IH]; intros v; [done|]. rewrite be_bytes_S, bits_of_app, IH.
  replace (8 * S n)%nat with (8 * n + 8)%nat by lia. rewrite bits_app, Z.shiftr_div_pow2 by lia. f_equal.
  change (bits_of [v mod 256]) with (bits 8 (v mod 2 ^ Z.of_nat 8) ++ []). by rewrite app_nil_r, bits_mod.
Qed.

Lemma be_bytes_are n v : Forall is_byte (be_bytes n v).
Proof.
  revert v. induction n as [|n IH]; intros v; [constructor|]. rewrite be_bytes_S. apply Forall_app. split; [apply IH|].
  constructor; [|constructor]. unfold is_byte. pose proof (Z.mod_pos_bound v 256). lia.
Qed.

Lemma zeros_bits n : bits_of (replicate n 0) = replicate (8 * n) false.
Proof.
  induction n as [|n IH]; [done|]. cbn [replicate]. change (0 :: replicate n 0) with ([0] ++ replicate n 0). rewrite bits_of_app, IH.
  replace (8 * S n)%nat with (8 + 8 * n)%nat by lia. by rewrite replicate_add.
Qed.

Lemma pad_std msg : bits_of (pad msg) = padded (bits_of msg).
Proof.
  unfold pad, padded. rewrite !bits_of_app, be_bytes_bits, zeros_bits, bits_of_length.
  change (bits_of [0x80]) with ([true] ++ replicate 7 false). rewrite <- !app_assoc. do 2 f_equal.
  rewrite app_assoc, <- replicate_add. replace (Z.of_nat (8 * length msg)) with (8 * zlen msg) by lia. f_equal. f_equal.
  pose proof (Nat.div_mod_eq (length msg) 64) as Hd. pose proof (Nat.mod_upper_bound (length msg) 64 ltac:(lia)) as Hm.
  set (a := (length msg / 64)%nat) in *. set (r := (length msg mod 64)%nat) in *. rewrite Hd, pad_zeros_fits by done.
  case_decide.
  - rewrite <- (Z.mod_unique (448 - (8 * Z.of_nat (64 * a + r) + 1)) 512 (- Z.of_nat a - 1) (959 - 8 * Z.of_nat r)) by lia. lia.
  - rewrite <- (Z.mod_unique (448 - (8 * Z.of_nat (64 * a + r) + 1)) 512 (- Z.of_nat a) (447 - 8 * Z.of_nat r)) by lia. lia.
Qed.

Lemma pad_length msg : (length (pad msg) / 64 = length (padded (bits_of msg)) / 512)%nat ∧ (64 * (length (pad msg) / 64) <= length (pad msg))%nat.
Proof.
  rewrite <- pad_std, bits_of_length. change 512%nat with (8 * 64)%nat. rewrite Nat.Div0.div_mul_cancel_l by lia.
  split; [done|]. apply Nat.Div0.mul_div_le.
Qed.

Lemma sha256_std msg : Forall is_byte msg → bits_of (sha256 msg) = Fips180.sha256 (bits_of msg).
Proof.
  intros Hb. unfold sha256, Fips180.sha256. rewrite <- pad_std, <- std_H0. destruct (pad_length msg) as [Hn Hle]. rewrite <- pad_std in Hn.
  rewrite <- Hn. rewrite hash_blocks_std; [|done|exact H0_words| |done].
  2:{ unfold pad. repeat (apply Forall_app; split); [done|repeat constructor; done|apply Forall_replicate; done|apply be_bytes_are]. }
  induction (listed _) as [|x l IH]; [done|]. cbn [fmap list_fmap concat]. by rewrite bits_of_app, IH, be_bytes_bits.
Qed.

Lemma sha256_bytes msg : Forall is_byte (sha256 msg).
Proof. unfold sha256. apply Forall_concat, Forall_fmap, Forall_true. intros x. apply be_bytes_are. Qed.

(** C38: [digest] of a message given in parts, however it is cut, is 32
    bytes whose bits are the SHA-256 of the bits of the whole, as FIPS 180-4
    describes it (its functions bit by bit, its constants from the roots of
    primes, its padding and chaining), for a message shorter than 2^64
    bits. *)
Theorem digest_is_sha256 (parts : list (list Z)) : Forall is_byte (concat parts) → 8 * zlen (concat parts) < 2 ^ 64 →
  ∃ out, digest parts = Some out ∧ length out = 32%nat ∧ Forall is_byte out ∧
    bits_of out = Fips180.sha256 (bits_of (concat parts)).
Proof.
  intros Hb Hl. exists (sha256 (concat parts)). split_and!; [by apply digest_spec|apply sha256_length|apply sha256_bytes|by apply sha256_std].
Qed.

(** The test vector ["abc"] of FIPS 180-4, given in two parts. *)
Lemma digest_is_sha256_witness :
  digest [[97]; [98; 99]] = Some
    [0xba; 0x78; 0x16; 0xbf; 0x8f; 0x01; 0xcf; 0xea; 0x41; 0x41; 0x40; 0xde; 0x5d; 0xae; 0x22; 0x23;
     0xb0; 0x03; 0x61; 0xa3; 0x96; 0x17; 0x7a; 0x9c; 0xb4; 0x10; 0xff; 0x61; 0xf2; 0x00; 0x15; 0xad] ∧
  ∃ out, digest [[97]; [98; 99]] = Some out ∧ bits_of out = Fips180.sha256 (bits_of [97; 98; 99]).
Proof.
  split; [vm_compute; reflexivity|].
  destruct (digest_is_sha256 [[97]; [98; 99]]) as (out&E&_&_&H); [by apply bytesb_bytes|done|].
  exists out. split; [exact E|exact H].
Defined.
