(* ===== verification/Policy.v ===== *)
(** * The policy language ([kernel/src/sec/policy.rs])

    Rights, path patterns, the tables of a policy, what they answer, and the
    parser that builds them.  An error carries the line and a constructor
    where the source formats a message; a panic is [None]. *)

From S2P Require Import Prelude Text.

(** ** Rights (a [u16] bit set) *)

Abbreviation Rights := Z (only parsing).

Definition NONE : Rights := 0.
Definition READ : Rights := 1.
Definition WRITE : Rights := 2.
Definition APPEND : Rights := 4.
Definition CREATE : Rights := 8.
Definition REMOVE : Rights := 16.
Definition EXEC : Rights := 32.
Definition SETATTR : Rights := 64.
Definition MOUNT : Rights := 128.
Definition SIGNAL : Rights := 256.
Definition ALL : Rights := 511.

Definition NAMES : list (text * Rights) :=
  [(str "read", READ); (str "write", WRITE); (str "append", APPEND); (str "create", CREATE);
   (str "remove", REMOVE); (str "exec", EXEC); (str "setattr", SETATTR); (str "mount", MOUNT);
   (str "signal", SIGNAL); (str "all", ALL)].

(** [names.iter().find(|(n, _)| n == name).map(|(_, v)| v)] *)
Fixpoint assoc {A} (name : text) (l : list (text * A)) : option A :=
  match l with
  | [] => None
  | (n, v) :: l' => if bool_decide (n = name) then Some v else assoc name l'
  end.

Definition from_name (name : text) : option Rights := assoc name NAMES.

Definition rights_sep (c : Z) : bool := (c =? 44) || is_ascii_whitespace c.

Fixpoint parse_words (r : Rights) (ws : list text) : option Rights :=
  match ws with
  | [] => Some r
  | w :: ws' => x ← from_name w; parse_words (Z.lor r x) ws'
  end.

Definition parse_list (s : text) : option Rights := parse_words NONE (words_on rights_sep s).

Definition contains (self other : Rights) : bool := Z.land self other =? other.
Definition is_empty (self : Rights) : bool := self =? 0.
Definition widened (self : Rights) : Rights :=
  if contains self WRITE then Z.lor self APPEND else self.

Definition names (self : Rights) : text :=
  let out := foldl (λ out '(name, r),
    if contains self r then (if nonempty out then out ++ [44] else out) ++ name else out)
    [] (take 9 NAMES) in
  if nonempty out then out else str "none".

(** ** Patterns *)

Inductive Seg := Lit (l : text) | Star | Rest | Var (v : text).

Abbreviation Pattern := (list Seg).

(** Where the source formats a message: what the message is about. *)
Inductive Msg :=
| NotAbsolute (t : text) | RestNotLast (t : text)
| BadMode (t : text) | LabelSyntax | NotInPattern (v : text) | BadDomain (t : text)
| ExecSyntax | NoDomain (t : text) | LoginSyntax | BootSyntax | UnknownLine (t : text)
| NoBoot | NoUser (t : text)
| MissingParen (t : text) | BadParam (t : text)
| UserSyntax | UserTwice (t : text) | UserKey (name w : text)
| PasswordSyntax | PasswordLength | PasswordHex
| ExpectedRights (t : text) | MissingBrace (t : text) | UnknownRight (t : text) | OneLabel (t : text).

Definition seg_parse (s : text) (last : bool) (c : text) : result Msg Seg :=
  if bool_decide (c = str "**") then if last then Ok Rest else Err (RestNotLast s)
  else if bool_decide (c = str "*") then Ok Star
  else match c with
       | 36 :: ((_ :: _) as v) => Ok (Var v)
       | _ => Ok (Lit c)
       end.

Fixpoint segs_parse (s : text) (comps : list text) : result Msg Pattern :=
  match comps with
  | [] => Ok []
  | c :: comps' =>
      match seg_parse s (match comps' with [] => true | _ => false end) c with
      | Err e => Err e
      | Ok seg =>
          match segs_parse s comps' with Ok segs => Ok (seg :: segs) | Err e => Err e end
      end
  end.

Definition is_slash (c : Z) : bool := c =? 47.

Definition pattern_parse (s : text) : result Msg Pattern :=
  match strip_prefix (str "/") s with
  | None => Err (NotAbsolute s)
  | Some rest => segs_parse s (words_on is_slash rest)
  end.

Abbreviation Caps := (list (text * text)).

(** The loop over the segments, the captures made so far in [caps]. *)
Fixpoint seg_match (segs : Pattern) (comps : list text) (caps : Caps) : option Caps :=
  match segs with
  | [] => match comps with [] => Some caps | _ => None end
  | Rest :: _ => Some caps
  | Star :: segs' => match comps with _ :: comps' => seg_match segs' comps' caps | [] => None end
  | Lit l :: segs' =>
      match comps with
      | c :: comps' => if bool_decide (c = l) then seg_match segs' comps' caps else None
      | [] => None
      end
  | Var v :: segs' =>
      match comps with c :: comps' => seg_match segs' comps' (caps ++ [(v, c)]) | [] => None end
  end.

Definition matches (self : Pattern) (path : text) : option Caps :=
  seg_match self (words_on is_slash path) [].

(** ** The tables *)

Inductive LabelParam := LPNone | LPVar (v : text) | LPLit (l : text).

Record LabelRule := { lr_pattern : Pattern; lr_kind : Z; lr_param : LabelParam }.

Record Label := { lb_kind : Z; lb_param : option text }.

Definition UNLABELED : text := str "unlabeled".

Inductive KindSel := KAny | Kind (k : Z).
Inductive ParamSel := PNone | PSelfUser | PGroup | PAny | PName (n : text).

Record Rule := { r_kind : KindSel; r_param : ParamSel; r_rights : Rights }.

Record Domain := { d_name : text; d_rules : list Rule }.

Record User := {
  u_name : text; u_groups : list Z; u_domains : list Z; u_login : option Z;
  u_nologin : bool; u_home : text; u_password : option (text * list Z) }.

Record ExecRule := { e_pattern : Pattern; e_domain : Z }.

Record Policy := {
  p_enforcing : bool; p_users : list User; p_groups : list text; p_domains : list Domain;
  p_kinds : list text; p_labels : list LabelRule; p_execs : list ExecRule;
  p_login : option Z; p_boot : Z * Z }.

(** [names.iter().position(|n| n == name).map(|i| i as u16)] *)
Definition as_u16 (i : nat) : Z := Z.of_nat i mod 2 ^ 16.

Fixpoint position (name : text) (l : list text) : option nat :=
  match l with
  | [] => None
  | n :: l' => if bool_decide (n = name) then Some 0%nat else S <$> position name l'
  end.

Definition user_id (self : Policy) (name : text) : option Z :=
  as_u16 <$> position name (u_name <$> p_users self).
Definition domain_id (self : Policy) (name : text) : option Z :=
  as_u16 <$> position name (d_name <$> p_domains self).
Definition kind_id (self : Policy) (name : text) : option Z :=
  as_u16 <$> position name (p_kinds self).
Definition kind_name (self : Policy) (id : Z) : text :=
  match zget (p_kinds self) id with Some s => s | None => UNLABELED end.

Definition param_of (p : LabelParam) (caps : Caps) : option text :=
  match p with LPNone => None | LPLit l => Some l | LPVar v => assoc v caps end.

Fixpoint first_label (rules : list LabelRule) (path : text) : option Label :=
  match rules with
  | [] => None
  | rule :: rules' =>
      match matches (lr_pattern rule) path with
      | Some caps => Some {| lb_kind := lr_kind rule; lb_param := param_of (lr_param rule) caps |}
      | None => first_label rules' path
      end
  end.

Definition label_of (self : Policy) (path : text) : Label :=
  match first_label (reverse (p_labels self)) path with
  | Some l => l
  | None => {| lb_kind := default U16_MAX (kind_id self UNLABELED); lb_param := None |}
  end.

Definition object_label (self : Policy) (kind : text) (param : option text) : Label :=
  {| lb_kind := default U16_MAX (kind_id self kind); lb_param := param |}.

Definition kind_ok (rule : Rule) (label : Label) : bool :=
  match r_kind rule with KAny => true | Kind k => k =? lb_kind label end.

Definition param_ok (self : Policy) (u : option User) (rule : Rule) (label : Label) : bool :=
  match r_param rule, lb_param label with
  | PAny, _ => true
  | PNone, None => true
  | PSelfUser, Some p => match u with Some u => bool_decide (u_name u = p) | None => false end
  | PGroup, Some p =>
      match u with
      | Some u => existsb (λ g, bool_decide (zget (p_groups self) g = Some p)) (u_groups u)
      | None => false
      end
  | PName n, Some p => bool_decide (n = p)
  | _, _ => false
  end.

Definition rights (self : Policy) (user domain : Z) (label : Label) : Rights :=
  match zget (p_domains self) domain with
  | None => NONE
  | Some d =>
      let u := zget (p_users self) user in
      let r := foldl (λ r rule,
        if negb (kind_ok rule label) then r
        else if param_ok self u rule label then Z.lor r (r_rights rule) else r) NONE (d_rules d) in
      widened r
  end.

Fixpoint find_exec (rules : list ExecRule) (path : text) : option ExecRule :=
  match rules with
  | [] => None
  | e :: rules' =>
      match matches (e_pattern e) path with Some _ => Some e | None => find_exec rules' path end
  end.

Definition exec_domain (self : Policy) (user : Z) (path : text) : option Z :=
  rule ← find_exec (reverse (p_execs self)) path;
  u ← zget (p_users self) user;
  if bool_decide (e_domain rule ∈ u_domains u) then Some (e_domain rule) else None.

Definition login_domain (self : Policy) (user : Z) : option Z :=
  u ← zget (p_users self) user;
  if u_nologin u then None
  else match u_login u with Some l => Some l | None => p_login self end.

(** ** The parser *)

Definition ok_or {S E A} (o : option A) (e : E) : prog S E A :=
  match o with Some a => mret a | None => throw e end.

Definition of_result {S E A} (r : result E A) : prog S E A :=
  match r with Ok a => mret a | Err e => throw e end.

(** [.map_err(|e| format!("line {no}: {e}"))] *)
Definition at_line {S A} (no : nat) (m : prog S Msg A) : prog S (option nat * Msg) A := λ s,
  match m s with
  | Some (Ok a, s') => Some (Ok a, s')
  | Some (Err e, s') => Some (Err (Some no, e), s')
  | None => None
  end.

Definition set_enforcing (b : bool) (p : Policy) : Policy :=
  {| p_enforcing := b; p_users := p_users p; p_groups := p_groups p; p_domains := p_domains p;
     p_kinds := p_kinds p; p_labels := p_labels p; p_execs := p_execs p;
     p_login := p_login p; p_boot := p_boot p |}.
Definition set_users (l : list User) (p : Policy) : Policy :=
  {| p_enforcing := p_enforcing p; p_users := l; p_groups := p_groups p; p_domains := p_domains p;
     p_kinds := p_kinds p; p_labels := p_labels p; p_execs := p_execs p;
     p_login := p_login p; p_boot := p_boot p |}.
Definition set_groups (l : list text) (p : Policy) : Policy :=
  {| p_enforcing := p_enforcing p; p_users := p_users p; p_groups := l; p_domains := p_domains p;
     p_kinds := p_kinds p; p_labels := p_labels p; p_execs := p_execs p;
     p_login := p_login p; p_boot := p_boot p |}.
Definition set_domains (l : list Domain) (p : Policy) : Policy :=
  {| p_enforcing := p_enforcing p; p_users := p_users p; p_groups := p_groups p; p_domains := l;
     p_kinds := p_kinds p; p_labels := p_labels p; p_execs := p_execs p;
     p_login := p_login p; p_boot := p_boot p |}.
Definition set_kinds (l : list text) (p : Policy) : Policy :=
  {| p_enforcing := p_enforcing p; p_users := p_users p; p_groups := p_groups p;
     p_domains := p_domains p; p_kinds := l; p_labels := p_labels p; p_execs := p_execs p;
     p_login := p_login p; p_boot := p_boot p |}.
Definition set_labels (l : list LabelRule) (p : Policy) : Policy :=
  {| p_enforcing := p_enforcing p; p_users := p_users p; p_groups := p_groups p;
     p_domains := p_domains p; p_kinds := p_kinds p; p_labels := l; p_execs := p_execs p;
     p_login := p_login p; p_boot := p_boot p |}.
Definition set_execs (l : list ExecRule) (p : Policy) : Policy :=
  {| p_enforcing := p_enforcing p; p_users := p_users p; p_groups := p_groups p;
     p_domains := p_domains p; p_kinds := p_kinds p; p_labels := p_labels p; p_execs := l;
     p_login := p_login p; p_boot := p_boot p |}.
Definition set_login (l : option Z) (p : Policy) : Policy :=
  {| p_enforcing := p_enforcing p; p_users := p_users p; p_groups := p_groups p;
     p_domains := p_domains p; p_kinds := p_kinds p; p_labels := p_labels p; p_execs := p_execs p;
     p_login := l; p_boot := p_boot p |}.
Definition set_boot (b : Z * Z) (p : Policy) : Policy :=
  {| p_enforcing := p_enforcing p; p_users := p_users p; p_groups := p_groups p;
     p_domains := p_domains p; p_kinds := p_kinds p; p_labels := p_labels p; p_execs := p_execs p;
     p_login := p_login p; p_boot := b |}.

Definition modify {E} (f : Policy → Policy) : prog Policy E () := p ← get_state; set_state (f p).

Definition intern (l : list text) (name : text) : list text * Z :=
  match position name l with
  | Some i => (l, as_u16 i)
  | None => (l ++ [name], as_u16 (length (l ++ [name]) - 1))
  end.

(** [intern(&mut p.groups, name)], [intern(&mut p.kinds, name)] *)
Definition intern_group {E} (name : text) : prog Policy E Z :=
  p ← get_state; let '(l, i) := intern (p_groups p) name in
  _ ← set_state (set_groups l p); mret i.
Definition intern_kind {E} (name : text) : prog Policy E Z :=
  p ← get_state; let '(l, i) := intern (p_kinds p) name in
  _ ← set_state (set_kinds l p); mret i.

Definition split_param (s : text) : result Msg (text * option text) :=
  match split_once (λ c, c =? 40) s with
  | None => Ok (s, None)
  | Some (k, rest) =>
      match strip_suffix (str ")") rest with
      | None => Err (MissingParen s)
      | Some p => if negb (nonempty k) || negb (nonempty p) then Err (BadParam s) else Ok (k, Some p)
      end
  end.

(** The loop over the 32 bytes of the digest, from byte [i] on. *)
Fixpoint hex_bytes (n : nat) (i : Z) (hex : text) : option (result Msg (list Z)) :=
  match n with
  | O => Some (Ok [])
  | S n' =>
      two ← str_slice hex (i * 2) (i * 2 + 2);
      match u8_from_hex two with
      | None => Some (Err PasswordHex)
      | Some b =>
          r ← hex_bytes n' (i + 1) hex;
          Some (match r with Ok l => Ok (b :: l) | Err e => Err e end)
      end
  end.

Definition parse_password (s : text) : option (result Msg (text * list Z)) :=
  match split_on (λ c, c =? 58) s with
  | [tag; salt; hex] =>
      if negb (bool_decide (tag = str "sha256")) then Some (Err PasswordSyntax)
      else if negb (str_len hex =? 64) then Some (Err PasswordLength)
      else
        r ← hex_bytes 32 0 hex;
        Some (match r with Ok d => Ok (salt, d) | Err e => Err e end)
  | _ => Some (Err PasswordSyntax)
  end.

Definition user_domain (p : Policy) (w : text) : prog Policy Msg Z :=
  ok_or (domain_id p w) (NoDomain w).

(** One word of a [user] line: the key in force and the user so far. *)
Definition user_word (name : text) (acc : text * User) (w : text) : prog Policy Msg (text * User) :=
  let '(key, u) := acc in
  match strip_suffix (str ":") w with
  | Some k => mret (k, u)
  | None =>
      p ← get_state;
      if bool_decide (key = str "groups") then
        g ← intern_group w;
        mret (key, {| u_name := u_name u; u_groups := u_groups u ++ [g]; u_domains := u_domains u;
          u_login := u_login u; u_nologin := u_nologin u; u_home := u_home u; u_password := u_password u |})
      else if bool_decide (key = str "domains") then
        d ← user_domain p w;
        mret (key, {| u_name := u_name u; u_groups := u_groups u; u_domains := u_domains u ++ [d];
          u_login := u_login u; u_nologin := u_nologin u; u_home := u_home u; u_password := u_password u |})
      else if bool_decide (key = str "login") && bool_decide (w = str "none") then
        mret (key, {| u_name := u_name u; u_groups := u_groups u; u_domains := u_domains u;
          u_login := u_login u; u_nologin := true; u_home := u_home u; u_password := u_password u |})
      else if bool_decide (key = str "login") then
        d ← user_domain p w;
        mret (key, {| u_name := u_name u; u_groups := u_groups u; u_domains := u_domains u;
          u_login := Some d; u_nologin := u_nologin u; u_home := u_home u; u_password := u_password u |})
      else if bool_decide (key = str "home") then
        mret (key, {| u_name := u_name u; u_groups := u_groups u; u_domains := u_domains u;
          u_login := u_login u; u_nologin := u_nologin u; u_home := w; u_password := u_password u |})
      else if bool_decide (key = str "password") then
        pw ← lift_result (parse_password w);
        mret (key, {| u_name := u_name u; u_groups := u_groups u; u_domains := u_domains u;
          u_login := u_login u; u_nologin := u_nologin u; u_home := u_home u; u_password := Some pw |})
      else throw (UserKey name w)
  end.

(** The login domain can always be entered. *)
Definition enter_login (u : User) : User :=
  match u_login u with
  | Some l =>
      if bool_decide (l ∈ u_domains u) then u
      else {| u_name := u_name u; u_groups := u_groups u; u_domains := u_domains u ++ [l];
              u_login := u_login u; u_nologin := u_nologin u; u_home := u_home u;
              u_password := u_password u |}
  | None => u
  end.

Definition parse_user (rest : text) : prog Policy Msg () :=
  match split_whitespace rest with
  | [] => throw UserSyntax
  | name :: words =>
      p ← get_state;
      match user_id p name with
      | Some _ => throw (UserTwice name)
      | None =>
          '(_, u) ← fold_m (user_word name) words ([],
            {| u_name := name; u_groups := []; u_domains := []; u_login := None; u_nologin := false;
               u_home := str "/"; u_password := None |});
          p ← get_state;
          set_state (set_users (p_users p ++ [enter_login u]) p)
      end
  end.

Definition param_sel (param : option text) : ParamSel :=
  match param with
  | None => PNone
  | Some n =>
      if bool_decide (n = str "self") then PSelfUser
      else if bool_decide (n = str "group") then PGroup
      else if bool_decide (n = str "*") then PAny
      else PName n
  end.

(** The [while] loop: every turn takes at least a brace pair off [rest]. *)
Fixpoint parse_rules_loop (fuel : nat) (rest : text) (rules : list Rule) : prog Policy Msg (list Rule) :=
  match fuel with
  | O => checked None
  | S fuel' =>
      if negb (nonempty rest) then mret rules
      else
        '(before, after) ← ok_or (split_once (λ c, c =? 123) rest) (ExpectedRights rest);
        '(inside, after) ← ok_or (split_once (λ c, c =? 125) after) (MissingBrace rest);
        let target := trim before in
        rights ← ok_or (parse_list inside) (UnknownRight inside);
        '(kind, param) ← if bool_decide (target = str "*") then mret (str "*", Some (str "*"))
                         else of_result (split_param target);
        if negb (nonempty kind) || existsb is_whitespace kind then throw (OneLabel target)
        else
          kind ← if bool_decide (kind = str "*") then mret KAny
                 else k ← intern_kind kind; mret (Kind k);
          parse_rules_loop fuel' (trim after)
            (rules ++ [{| r_kind := kind; r_param := param_sel param; r_rights := rights |}])
  end.

Definition parse_rules (s : text) : prog Policy Msg (list Rule) :=
  parse_rules_loop (S (length (trim s))) (trim s) [].

(** [logical_lines]: the lines from number [i] on, those already joined in
    [out], the last one first. *)
Definition logical_line (out : list (nat * text)) (iraw : nat * text) : list (nat * text) :=
  let '(i, raw) := iraw in
  let line := default [] (head (split_on (λ c, c =? 35) raw)) in
  if negb (nonempty (trim line)) then out
  else
    let indented := match line with c :: _ => (c =? 32) || (c =? 9) | [] => false end in
    match out with
    | (n, prev) :: out' =>
        if indented then (n, prev ++ [32] ++ trim line) :: out'
        else ((i + 1)%nat, trim line) :: out
    | [] => ((i + 1)%nat, trim line) :: out
    end.

Definition logical_lines (s : text) : list (nat * text) :=
  reverse (foldl logical_line [] (imap pair (lines s))).

(** The first pass: the names of the domains and groups. *)
Definition collect (line : text) (p : Policy) : Policy :=
  match split_whitespace line with
  | w :: words =>
      if bool_decide (w = str "domain") then
        let name := trim_end (λ c, c =? 58) (default [] (head words)) in
        if nonempty name && bool_decide (domain_id p name = None)
        then set_domains (p_domains p ++ [{| d_name := name; d_rules := [] |}]) p
        else p
      else if bool_decide (w = str "group") then
        match words with g :: _ => set_groups (intern (p_groups p) g).1 p | [] => p end
      else p
  | [] => p
  end.

Definition label_param (pattern : Pattern) (param : option text) : result Msg LabelParam :=
  match param with
  | None => Ok LPNone
  | Some (36 :: v) =>
      if existsb (λ s, match s with Var n => bool_decide (n = v) | _ => false end) pattern
      then Ok (LPVar v) else Err (NotInPattern v)
  | Some l => Ok (LPLit l)
  end.

Definition label_line (rest : text) : prog Policy Msg () :=
  match split_whitespace rest with
  | [pat; lab] =>
      pattern ← of_result (pattern_parse pat);
      '(kind, param) ← of_result (split_param lab);
      param ← of_result (label_param pattern param);
      kind ← intern_kind kind;
      modify (λ p, set_labels (p_labels p ++ [{| lr_pattern := pattern; lr_kind := kind; lr_param := param |}]) p)
  | _ => throw LabelSyntax
  end.

Definition domain_line (rest : text) : prog Policy Msg () :=
  let '(name, rules) := default (rest, []) (split_once (λ c, c =? 58) rest) in
  p ← get_state;
  d ← ok_or (domain_id p (trim name)) (BadDomain name);
  rules ← parse_rules rules;
  p ← get_state;
  dom ← checked (zget (p_domains p) d);
  domains ← checked (zset (p_domains p) d {| d_name := d_name dom; d_rules := d_rules dom ++ rules |});
  set_state (set_domains domains p).

Definition exec_line (rest : text) : prog Policy Msg () :=
  '(pat, dom) ← ok_or (split_once_str (str "->") rest) ExecSyntax;
  pattern ← of_result (pattern_parse (trim pat));
  p ← get_state;
  domain ← ok_or (domain_id p (trim dom)) (NoDomain (trim dom));
  modify (λ p, set_execs (p_execs p ++ [{| e_pattern := pattern; e_domain := domain |}]) p).

Definition login_line (rest : text) : prog Policy Msg () :=
  dom ← ok_or (trim <$> strip_prefix (str "->") rest) LoginSyntax;
  p ← get_state;
  d ← ok_or (domain_id p dom) (NoDomain dom);
  modify (set_login (Some d)).

Abbreviation Boot := (option (text * text * nat)).

(** One line of the second pass; the [boot] line seen last. *)
Definition parse_line (no : nat) (boot : Boot) (line : text) : prog Policy Msg Boot :=
  let '(head, rest) := default (line, []) (split_once is_whitespace line) in
  let rest := trim rest in
  if bool_decide (head = str "mode") then
    _ ← (if bool_decide (rest = str "enforcing") then modify (set_enforcing true)
         else if bool_decide (rest = str "permissive") then modify (set_enforcing false)
         else throw (BadMode rest));
    mret boot
  else if bool_decide (head = str "group") then mret boot
  else if bool_decide (head = str "user") then _ ← parse_user rest; mret boot
  else if bool_decide (head = str "label") then _ ← label_line rest; mret boot
  else if bool_decide (head = str "domain") then _ ← domain_line rest; mret boot
  else if bool_decide (head = str "exec") then _ ← exec_line rest; mret boot
  else if bool_decide (head = str "login") then _ ← login_line rest; mret boot
  else if bool_decide (head = str "boot") then
    match split_whitespace rest with
    | [u; d] => mret (Some (u, d, no))
    | _ => throw BootSyntax
    end
  else throw (UnknownLine head).

Definition empty_policy : Policy :=
  {| p_enforcing := true; p_users := []; p_groups := []; p_domains := []; p_kinds := [UNLABELED];
     p_labels := []; p_execs := []; p_login := None; p_boot := (U16_MAX, U16_MAX) |}.

Definition parse_lines (ls : list (nat * text)) : prog Policy (option nat * Msg) () :=
  boot ← fold_m (λ boot '(no, line), at_line no (parse_line no boot line)) ls None;
  match boot with
  | None => throw (None, NoBoot)
  | Some (u, d, no) =>
      p ← get_state;
      user ← ok_or (user_id p u) (Some no, NoUser u);
      domain ← ok_or (domain_id p d) (Some no, NoDomain d);
      set_state (set_boot (user, domain) p)
  end.

(** The result of [parse]; [None] is a panic. *)
Definition parse (s : text) : option (result (option nat * Msg) Policy) :=
  let ls := logical_lines s in
  let p := foldl (λ p '(_, line), collect line p) empty_policy ls in
  '(r, p) ← parse_lines ls p;
  Some (match r with Ok _ => Ok p | Err e => Err e end).
