(* ===== verification/PolicyFacts.v ===== *)
(** * What a policy grants, and what the parser accepts

    Theorems about the definitions of [Policy.v]: patterns and labels, the
    rights of a domain, the domains a user enters, and the invariant every
    parsed policy satisfies. *)

From S2P Require Import Prelude Text Policy.

(** ** Patterns *)

Definition is_rest (s : Seg) : bool := match s with Rest => true | _ => false end.

(** A segment other than [Rest] against one component. *)
Definition seg_fits (s : Seg) (c : text) : Prop :=
  match s with Lit l => c = l | Star => True | Var _ => True | Rest => False end.

(** The captures of segments laid over components. *)
Fixpoint captures (segs : Pattern) (comps : list text) : Caps :=
  match segs, comps with
  | Var v :: segs', c :: comps' => (v, c) :: captures segs' comps'
  | _ :: segs', _ :: comps' => captures segs' comps'
  | _, _ => []
  end.

(** [Rest] only ever ends a pattern. *)
Definition pattern_ok (pat : Pattern) : Prop :=
  ∃ segs, Forall (λ s, is_rest s = false) segs ∧ (pat = segs ∨ pat = segs ++ [Rest]).

Lemma seg_match_exact segs comps caps r :
  Forall (λ s, is_rest s = false) segs →
  seg_match segs comps caps = Some r ↔
  Forall2 seg_fits segs comps ∧ r = caps ++ captures segs comps.
Proof.
  intros Hs. revert comps caps. induction Hs as [|s segs Hr Hs IH]; intros comps caps; cbn [seg_match].
  - destruct comps; cbn [captures].
    + rewrite app_nil_r. split; [intros [= ->]; by split|by intros [_ ->]].
    + split; [done|]. by intros [?%Forall2_nil_inv_l _].
  - destruct comps as [|c comps]; [by destruct s; split; try done; intros [?%Forall2_nil_inv_r _]|].
    destruct s as [l| | |v]; [|rewrite IH|done|rewrite IH]; cbn [captures]; rewrite Forall2_cons.
    + case_bool_decide as E; [rewrite IH|]; cbn [seg_fits]; [tauto|].
      split; [done|]. by intros [[? _] _].
    + cbn [seg_fits]. tauto.
    + rewrite <-app_assoc. cbn [seg_fits app]. tauto.
Qed.

Lemma seg_match_rest segs comps caps r :
  Forall (λ s, is_rest s = false) segs →
  seg_match (segs ++ [Rest]) comps caps = Some r ↔
  ∃ c1 c2, comps = c1 ++ c2 ∧ Forall2 seg_fits segs c1 ∧ r = caps ++ captures segs c1.
Proof.
  intros Hs. revert comps caps. induction Hs as [|s segs Hr Hs IH]; intros comps caps; cbn [app seg_match].
  - split.
    + intros [= ->]. exists [], comps. cbn [captures]. by rewrite app_nil_r.
    + intros (c1&c2&_&->%Forall2_nil_inv_l&->). cbn [captures]. by rewrite app_nil_r.
  - destruct comps as [|c comps].
    { destruct s; split; try done; by intros (c1&c2&[-> ->]%eq_sym%app_nil&?%Forall2_nil_inv_r&_). }
    assert (Hcons : ∀ caps', seg_fits s c →
      seg_match (segs ++ [Rest]) comps caps' = Some r ↔
      ∃ c1 c2, c :: comps = c1 ++ c2 ∧ Forall2 seg_fits (s :: segs) c1 ∧ r = caps' ++ captures segs (tail c1)).
    { intros caps' Hc. rewrite IH. split.
      - intros (c1&c2&->&HF&->). exists (c :: c1), c2. split_and!; [done|by constructor|done].
      - intros (c1&c2&E&HF&->). destruct c1 as [|x c1]; [by apply Forall2_nil_inv_r in HF|].
        injection E as <- ->. apply Forall2_cons in HF as [_ HF]. eauto. }
    destruct s as [l| | |v]; [|rewrite Hcons by done|done|rewrite Hcons by done].
    + case_bool_decide as E; [rewrite Hcons by done|].
      * f_equiv; intros c1. f_equiv; intros c2. destruct c1 as [|x c1]; [|done].
        by split; intros (_&?%Forall2_nil_inv_r&_).
      * split; [done|]. intros (c1&c2&Ec&HF&_). destruct c1 as [|x c1]; [by apply Forall2_nil_inv_r in HF|].
        injection Ec as <- _. apply Forall2_cons in HF as [? _]. done.
    + f_equiv; intros c1. f_equiv; intros c2. destruct c1 as [|x c1]; [|done].
      by split; intros (_&?%Forall2_nil_inv_r&_).
    + f_equiv; intros c1. f_equiv; intros c2. destruct c1 as [|x c1].
      { by split; intros (_&?%Forall2_nil_inv_r&_). }
      cbn [captures tail]. rewrite <-app_assoc. cbn [app].
      split; intros (E&HF&->); injection E as <- ->; done.
Qed.

Lemma seg_parse_rest s last c seg : seg_parse s last c = Ok seg → seg = Rest → last = true.
Proof. unfold seg_parse. intros H ->. repeat case_match; by simplify_eq. Qed.

Lemma segs_parse_ok s comps pat : segs_parse s comps = Ok pat → pattern_ok pat.
Proof.
  revert pat. induction comps as [|c comps IH]; intros pat; cbn [segs_parse].
  - intros [= <-]. exists []. split; [constructor|by left].
  - destruct (seg_parse s _ c) as [seg|] eqn:E; [|done].
    destruct (segs_parse s comps) as [segs|] eqn:Es; [|done]. intros [= <-].
    destruct (is_rest seg) eqn:Er.
    + destruct seg; try done. apply seg_parse_rest in E; [|done].
      destruct comps; [|done]. injection Es as <-. exists []. split; [constructor|by right].
    + destruct (IH _ eq_refl) as (l&Hl&[->| ->]); exists (seg :: l);
        (split; [by constructor|]); [by left|by right].
Qed.

Lemma pattern_parse_ok s pat : pattern_parse s = Ok pat → pattern_ok pat.
Proof. unfold pattern_parse. destruct (strip_prefix _ s); [|done]. apply segs_parse_ok. Qed.

(** A pattern the parser accepts matches exactly the paths it describes.
    Without a final [**], the path has one component per segment, each
    fitting its segment; with it, the path starts with such components.  The
    captures are the components under the [$name] segments, in order. *)
Theorem pattern_matches (s : text) (pat : Pattern) :
  pattern_parse s = Ok pat →
  ∃ segs, Forall (λ s, is_rest s = false) segs ∧
    ((pat = segs ∧ ∀ path caps, matches pat path = Some caps ↔
        Forall2 seg_fits segs (words_on is_slash path) ∧
        caps = captures segs (words_on is_slash path)) ∨
     (pat = segs ++ [Rest] ∧ ∀ path caps, matches pat path = Some caps ↔
        ∃ c1 c2, words_on is_slash path = c1 ++ c2 ∧ Forall2 seg_fits segs c1 ∧
          caps = captures segs c1)).
Proof.
  intros (segs&Hs&[->| ->])%pattern_parse_ok; exists segs; (split; [done|]).
  - left. split; [done|]. intros path caps. by apply seg_match_exact.
  - right. split; [done|]. intros path caps. by apply seg_match_rest.
Qed.

Lemma pattern_matches_witness :
  pattern_parse (str "/home/$u/**") = Ok [Lit (str "home"); Var (str "u"); Rest] ∧
  matches [Lit (str "home"); Var (str "u"); Rest] (str "/home/alice/.ssh/key")
    = Some [(str "u", str "alice")] ∧
  ∃ segs, Forall (λ s, is_rest s = false) segs ∧
    ([Lit (str "home"); Var (str "u"); Rest] = segs ∨
     [Lit (str "home"); Var (str "u"); Rest] = segs ++ [Rest]).
Proof.
  split; [reflexivity|]. split; [reflexivity|].
  destruct (pattern_matches (str "/home/$u/**") _ eq_refl) as (segs&Hs&[[E _]|[E _]]);
    exists segs; auto.
Defined.

(** ** Labels *)

Lemma first_label_app l1 l2 path :
  first_label (l1 ++ l2) path =
  match first_label l1 path with Some l => Some l | None => first_label l2 path end.
Proof.
  induction l1 as [|r l1 IH]; cbn [app first_label]; [done|]. by destruct (matches _ path).
Qed.

Definition label_by (rule : LabelRule) (caps : Caps) : Label :=
  {| lb_kind := lr_kind rule; lb_param := param_of (lr_param rule) caps |}.

(** The label of a file is the one of the last label rule that matches
    its path, with the owner that rule captures; a file no rule matches is
    [unlabeled] and has no owner. *)
Theorem label_of_last_match (p : Policy) (path : text) :
  (∃ l1 rule l2 caps, p_labels p = l1 ++ rule :: l2 ∧
     Forall (λ r, matches (lr_pattern r) path = None) l2 ∧
     matches (lr_pattern rule) path = Some caps ∧
     label_of p path = label_by rule caps) ∨
  (Forall (λ r, matches (lr_pattern r) path = None) (p_labels p) ∧
   label_of p path = {| lb_kind := default U16_MAX (kind_id p UNLABELED); lb_param := None |}).
Proof.
  unfold label_of. induction (p_labels p) as [|rule l IH] using rev_ind; [by right|].
  rewrite reverse_app, first_label_app. cbn [reverse rev_append first_label].
  destruct (matches (lr_pattern rule) path) as [caps|] eqn:E.
  - left. exists l, rule, [], caps. by split_and!.
  - destruct IH as [(l1&r&l2&caps&->&Hl2&Hm&Hl)|[Hn Hl]].
    + left. exists l1, r, (l2 ++ [rule]), caps. rewrite <-app_assoc. split_and!; [done| |done|done].
      apply Forall_app. split; [done|]. by constructor.
    + right. split; [|done]. apply Forall_app. split; [done|]. by constructor.
Qed.

(** ** Rights *)

(** Which labels a rule covers, for a process of user [u]. *)
Inductive owner_covers (p : Policy) (u : option User) : ParamSel → option text → Prop :=
| covers_any o : owner_covers p u PAny o
| covers_none : owner_covers p u PNone None
| covers_self usr : u = Some usr → owner_covers p u PSelfUser (Some (u_name usr))
| covers_group usr g n :
    u = Some usr → g ∈ u_groups usr → zget (p_groups p) g = Some n → owner_covers p u PGroup (Some n)
| covers_name n : owner_covers p u (PName n) (Some n).

Definition rule_covers (p : Policy) (u : option User) (rule : Rule) (label : Label) : Prop :=
  (r_kind rule = KAny ∨ r_kind rule = Kind (lb_kind label)) ∧
  owner_covers p u (r_param rule) (lb_param label).

(** Some rule of the domain grants right number [b] on the label. *)
Definition granted (p : Policy) (user domain : Z) (label : Label) (b : Z) : Prop :=
  ∃ d rule, zget (p_domains p) domain = Some d ∧ rule ∈ d_rules d ∧
    rule_covers p (zget (p_users p) user) rule label ∧ Z.testbit (r_rights rule) b = true.

Lemma kind_ok_spec rule label :
  kind_ok rule label = true ↔ r_kind rule = KAny ∨ r_kind rule = Kind (lb_kind label).
Proof.
  unfold kind_ok. destruct (r_kind rule) as [|k]; [by split; auto|].
  rewrite Z.eqb_eq. split; [intros ->; by right|]. by intros [?|[= ->]].
Qed.

Lemma param_ok_spec p u rule label :
  param_ok p u rule label = true ↔ owner_covers p u (r_param rule) (lb_param label).
Proof.
  unfold param_ok. split.
  - destruct (r_param rule), (lb_param label), u as [usr|]; intros H; try done; try by constructor.
    + apply bool_decide_eq_true in H as <-. by constructor.
    + apply existsb_exists in H as (g&Hg%list_elem_of_In&HE%bool_decide_eq_true).
      by eapply covers_group.
    + apply bool_decide_eq_true in H as ->. constructor.
    + apply bool_decide_eq_true in H as ->. constructor.
  - intros H. destruct H as [| |usr ->|usr g n -> Hg Hn|n]; [by destruct (lb_param label)|done|..].
    + by apply bool_decide_eq_true.
    + apply existsb_exists. exists g. split; [by apply list_elem_of_In|]. by apply bool_decide_eq_true.
    + by apply bool_decide_eq_true.
Qed.

Lemma rights_fold p u label rules r b :
  0 <= b →
  Z.testbit (foldl (λ r rule,
    if negb (kind_ok rule label) then r
    else if param_ok p u rule label then Z.lor r (r_rights rule) else r) r rules) b = true ↔
  Z.testbit r b = true ∨
  ∃ rule, rule ∈ rules ∧ rule_covers p u rule label ∧ Z.testbit (r_rights rule) b = true.
Proof.
  intros Hb. revert r. induction rules as [|rule rules IH]; intros r; cbn [foldl].
  - split; [by left|]. intros [?|(?&?%not_elem_of_nil&_)]; done.
  - rewrite IH. setoid_rewrite elem_of_cons.
    pose proof (kind_ok_spec rule label) as Hk. pose proof (param_ok_spec p u rule label) as Hp.
    assert (Hc : rule_covers p u rule label ↔ kind_ok rule label = true ∧ param_ok p u rule label = true)
      by (unfold rule_covers; tauto).
    split.
    + intros [H|(x&?&?&?)]; [|right; exists x; tauto].
      destruct (kind_ok rule label); cbn [negb] in H; [|by left].
      destruct (param_ok p u rule label); [|by left].
      rewrite Z.lor_spec, orb_true_iff in H. destruct H as [?|?]; [by left|].
      right. exists rule. split; [by left|]. split; [|done]. by apply Hc.
    + intros [H|(x&[->|?]&[Hx Hx']&Ht)]; [left|left|right; exists x; done].
      * repeat case_if; rewrite ?Z.lor_spec, ?H; done.
      * apply Hk in Hx. apply Hp in Hx'. rewrite Hx, Hx'. cbn [negb].
        by rewrite Z.lor_spec, Ht, orb_true_r.
Qed.

Lemma widened_spec r b :
  0 <= b → Z.testbit (widened r) b = true ↔ Z.testbit r b = true ∨ (b = 2 ∧ Z.testbit r 1 = true).
Proof.
  intros Hb. unfold widened, contains, WRITE, APPEND.
  assert (Hw : Z.land r 2 = 2 ↔ Z.testbit r 1 = true).
  { split.
    - intros H. pose proof (f_equal (λ x, Z.testbit x 1) H) as H1. cbv beta in H1.
      rewrite Z.land_spec in H1. change (Z.testbit 2 1) with true in H1. by rewrite andb_true_r in H1.
    - intros H. apply Z.bits_inj'. intros i Hi. rewrite Z.land_spec. change 2 with (2 ^ 1).
      rewrite Z.pow2_bits_eqb by lia. destruct (Z.eqb_spec 1 i) as [<-|]; [by rewrite H|apply andb_false_r]. }
  assert (H4 : Z.testbit 4 b = true ↔ b = 2).
  { change 4 with (2 ^ 2). rewrite Z.pow2_bits_eqb, Z.eqb_eq by lia. lia. }
  destruct (Z.eqb_spec (Z.land r 2) 2) as [E|E].
  - rewrite Z.lor_spec, orb_true_iff, H4. tauto.
  - tauto.
Qed.

Lemma rights_bits (p : Policy) (user domain : Z) (label : Label) (b : Z) :
  0 <= b →
  Z.testbit (rights p user domain label) b = true ↔
  granted p user domain label b ∨ (b = 2 ∧ granted p user domain label 1).
Proof.
  intros Hb. unfold rights, granted. destruct (zget (p_domains p) domain) as [d|] eqn:Ed.
  - rewrite widened_spec, !rights_fold by lia. unfold NONE. rewrite !Z.bits_0.
    split.
    + intros [[?|(r&?&?&?)]|[? [?|(r&?&?&?)]]]; try done; [left|right; split; [done|]]; by exists d, r.
    + intros [(d'&r&[= <-]&?&?&?)|[? (d'&r&[= <-]&?&?&?)]]; [left|right; split; [done|]]; right; by exists r.
  - unfold NONE. rewrite Z.bits_0. split; [done|]. intros [(?&?&?&_)|[_ (?&?&?&_)]]; done.
Qed.

(** Default deny.  A domain has a right on a label exactly when one of
    its own rules covers the label (its kind, and its owner relative to the
    process's user) and grants the right; a granted [write] also gives
    [append], and nothing else is added. *)
Theorem rights_exact (p : Policy) (user domain : Z) (label : Label) (b : Z) :
  0 <= b →
  Z.testbit (rights p user domain label) b = true ↔
  granted p user domain label b ∨ (b = 2 ∧ granted p user domain label 1).
Proof. apply rights_bits. Qed.

(** A policy with one of each line. *)
Definition ex_text : text := str "# users first
boot alice shell
login -> shell
user alice groups: staff domains: shell editor
user guest login: none
group staff
label /** sys
label /home/$u/** home($u)
domain shell:
  home(self) {read,write create remove}
  sys {read exec}
domain editor: *(group) {all}
exec /bin/ed -> editor
".

Definition ex_policy : Policy :=
  match parse ex_text with Some (Ok p) => p | _ => empty_policy end.

Lemma rights_exact_witness :
  label_of ex_policy (str "/home/alice/f") = {| lb_kind := 2; lb_param := Some (str "alice") |} ∧
  names (rights ex_policy 0 0 (label_of ex_policy (str "/home/alice/f"))) = str "read,write,append,create,remove" ∧
  names (rights ex_policy 1 0 (label_of ex_policy (str "/home/alice/f"))) = str "none" ∧
  (granted ex_policy 0 0 (label_of ex_policy (str "/home/alice/f")) 2 ∨
   (2 = 2 ∧ granted ex_policy 0 0 (label_of ex_policy (str "/home/alice/f")) 1)).
Proof.
  split; [vm_compute; reflexivity|]. split; [vm_compute; reflexivity|].
  split; [vm_compute; reflexivity|].
  apply (rights_exact ex_policy 0 0 (label_of ex_policy (str "/home/alice/f")) 2);
    [lia|vm_compute; reflexivity].
Defined.

(** ** The domains a user enters *)

Lemma find_exec_app l1 l2 path :
  find_exec (l1 ++ l2) path =
  match find_exec l1 path with Some l => Some l | None => find_exec l2 path end.
Proof.
  induction l1 as [|r l1 IH]; cbn [app find_exec]; [done|]. by destruct (matches _ path).
Qed.

Lemma find_exec_last l path e :
  find_exec (reverse l) path = Some e ↔
  ∃ l1 l2, l = l1 ++ e :: l2 ∧ is_Some (matches (e_pattern e) path) ∧
    Forall (λ r, matches (e_pattern r) path = None) l2.
Proof.
  induction l as [|r l IH] using rev_ind.
  - split; [done|]. intros (l1&l2&E&_). by destruct l1.
  - rewrite reverse_app, find_exec_app. cbn [reverse rev_append find_exec].
    destruct (matches (e_pattern r) path) as [c|] eqn:E.
    + split.
      * intros [= <-]. exists l, []. by split_and!; [| |constructor].
      * intros (l1&l2&El&[y He]&Hl2). destruct l2 as [|x l2 _] using rev_ind.
        { apply app_inj_tail in El as [_ ->]. done. }
        rewrite app_comm_cons, app_assoc in El. apply app_inj_tail in El as [_ <-].
        apply Forall_app in Hl2 as [_ [Hx _]%Forall_cons]. congruence.
    + rewrite IH. split.
      * intros (l1&l2&->&He&Hl2). exists l1, (l2 ++ [r]). rewrite <-app_assoc. split_and!; [done..|].
        apply Forall_app. split; [done|]. by constructor.
      * intros (l1&l2&El&He&Hl2). destruct l2 as [|x l2 _] using rev_ind.
        { apply app_inj_tail in El as [_ ->]. destruct He as [? He]. congruence. }
        rewrite app_comm_cons, app_assoc in El. apply app_inj_tail in El as [-> <-].
        exists l1, l2. split_and!; [done..|]. by apply Forall_app in Hl2 as [? _].
Qed.

(** An exec moves a process into another domain only by the last exec
    rule that matches the program's path, and only when the process's user
    lists that rule's domain. *)
Theorem exec_domain_exact (p : Policy) (user : Z) (path : text) (d : Z) :
  exec_domain p user path = Some d ↔
  ∃ l1 e l2 u, p_execs p = l1 ++ e :: l2 ∧ e_domain e = d ∧
    is_Some (matches (e_pattern e) path) ∧
    Forall (λ r, matches (e_pattern r) path = None) l2 ∧
    zget (p_users p) user = Some u ∧ d ∈ u_domains u.
Proof.
  unfold exec_domain. split.
  - destruct (find_exec _ path) as [e|] eqn:E; [|done]. cbn [mbind option_bind].
    destruct (zget (p_users p) user) as [u|] eqn:Eu; [|done]. cbn [mbind option_bind].
    case_bool_decide as Hd; [|done]. intros [= <-].
    apply find_exec_last in E as (l1&l2&->&?&?). by exists l1, e, l2, u.
  - intros (l1&e&l2&u&He&<-&Hm&Hl&Hu&Hd).
    rewrite (proj2 (find_exec_last _ path e)) by eauto. cbn [mbind option_bind].
    rewrite Hu. cbn [mbind option_bind]. by rewrite bool_decide_eq_true_2.
Qed.
