(* ===== verification/PolicyParse.v ===== *)
(** * The policies the parser builds

    Every identifier of a parsed policy is in range, names are unique, and
    the parser does not panic on ASCII text (nor loop: the fuel of
    [parse_rules] is never used up). *)

From S2P Require Import Prelude Text Policy PolicyFacts.

(** ** The invariant *)

Definition below (n i : Z) : Prop := 0 <= i < n.

Definition rule_ok (nk : Z) (r : Rule) : Prop :=
  match r_kind r with KAny => True | Kind k => below nk k end ∧ 0 <= r_rights r <= ALL.

Definition label_ok (nk : Z) (l : LabelRule) : Prop :=
  pattern_ok (lr_pattern l) ∧ below nk (lr_kind l) ∧
  match lr_param l with LPVar v => Var v ∈ lr_pattern l | _ => True end.

Definition exec_ok (nd : Z) (e : ExecRule) : Prop :=
  pattern_ok (e_pattern e) ∧ below nd (e_domain e).

(** A user whose line is being read. *)
Definition user_fields_ok (ng nd : Z) (u : User) : Prop :=
  Forall (below ng) (u_groups u) ∧ Forall (below nd) (u_domains u) ∧
  (∀ l, u_login u = Some l → below nd l) ∧
  (∀ salt d, u_password u = Some (salt, d) → length d = 32%nat ∧ Forall is_byte d).

Definition user_ok (ng nd : Z) (u : User) : Prop :=
  user_fields_ok ng nd u ∧ ∀ l, u_login u = Some l → l ∈ u_domains u.

Record wf_tables (p : Policy) : Prop := {
  wf_user_names : NoDup (u_name <$> p_users p);
  wf_group_names : NoDup (p_groups p);
  wf_domain_names : NoDup (d_name <$> p_domains p);
  wf_kind_names : NoDup (p_kinds p);
  wf_unlabeled : head (p_kinds p) = Some UNLABELED;
  wf_users : Forall (user_ok (zlen (p_groups p)) (zlen (p_domains p))) (p_users p);
  wf_rules : Forall (λ d, Forall (rule_ok (zlen (p_kinds p))) (d_rules d)) (p_domains p);
  wf_labels : Forall (label_ok (zlen (p_kinds p))) (p_labels p);
  wf_execs : Forall (exec_ok (zlen (p_domains p))) (p_execs p);
  wf_login : ∀ l, p_login p = Some l → below (zlen (p_domains p)) l }.

Definition wf_policy (p : Policy) : Prop :=
  wf_tables p ∧ below (zlen (p_users p)) (p_boot p).1 ∧ below (zlen (p_domains p)) (p_boot p).2.

(** The tables only grow while a line is read. *)
Lemma below_mono n m i : below n i → n <= m → below m i.
Proof. unfold below. lia. Qed.
Lemma rule_ok_mono n m r : rule_ok n r → n <= m → rule_ok m r.
Proof. intros [H ?] ?. split; [|done]. destruct (r_kind r); [done|]. by eapply below_mono. Qed.
Lemma label_ok_mono n m r : label_ok n r → n <= m → label_ok m r.
Proof. intros (?&?&?) ?. split_and!; [done| |done]. by eapply below_mono. Qed.
Lemma user_fields_ok_mono n m nd u : user_fields_ok n nd u → n <= m → user_fields_ok m nd u.
Proof.
  intros (Hg&?&?&?) ?. split; [|done]. eapply Forall_impl; [exact Hg|].
  intros x Hx. by eapply below_mono.
Qed.

(** ** Identifiers *)

Lemma position_lookup name l i : position name l = Some i → l !! i = Some name.
Proof.
  revert i. induction l as [|n l IH]; intros i; cbn [position]; [done|].
  case_bool_decide; [intros [= <-]; by subst|].
  destruct (position name l) as [j|]; [|done]. intros [= <-]. by apply IH.
Qed.

Lemma position_none name l : position name l = None ↔ name ∉ l.
Proof.
  induction l as [|n l IH]; cbn [position]; [split; [by intros _ ?%not_elem_of_nil|done]|].
  rewrite not_elem_of_cons. case_bool_decide.
  - split; [done|]. by intros [? _].
  - destruct (position name l); cbn [fmap option_fmap option_map].
    + split; [done|]. intros [_ ?%IH]. done.
    + split; [|done]. intros _. split; [congruence|]. by apply IH.
Qed.

Lemma as_u16_below i n : (i < n)%nat → below (Z.of_nat n) (as_u16 i).
Proof.
  intros. unfold as_u16, below. pose proof (Z.mod_pos_bound (Z.of_nat i) (2 ^ 16)).
  pose proof (Z.mod_le (Z.of_nat i) (2 ^ 16)). lia.
Qed.

Lemma id_below name l i : as_u16 <$> position name l = Some i → below (zlen l) i.
Proof.
  destruct (position name l) as [j|] eqn:E; [|done]. intros [= <-].
  apply as_u16_below. by eapply lookup_lt_Some, position_lookup.
Qed.

Lemma domain_id_below p name d : domain_id p name = Some d → below (zlen (p_domains p)) d.
Proof. intros H%id_below. by rewrite length_fmap in H. Qed.
Lemma user_id_below p name d : user_id p name = Some d → below (zlen (p_users p)) d.
Proof. intros H%id_below. by rewrite length_fmap in H. Qed.

Lemma intern_ok l name l' i :
  intern l name = (l', i) → NoDup l →
  NoDup l' ∧ below (zlen l') i ∧ zlen l <= zlen l' ∧ ∀ x, head l = Some x → head l' = Some x.
Proof.
  unfold intern. destruct (position name l) as [j|] eqn:E; intros [= <- <-] Hl.
  - split_and!; [done| |lia|done]. apply as_u16_below. by eapply lookup_lt_Some, position_lookup.
  - apply position_none in E. split_and!.
    + apply NoDup_app. split_and!; [done| |apply NoDup_singleton]. intros x Hx ->%list_elem_of_singleton. done.
    + apply as_u16_below. rewrite length_app. simpl. lia.
    + rewrite length_app. lia.
    + by destruct l.
Qed.

Lemma parse_list_range s r : parse_list s = Some r → 0 <= r <= ALL.
Proof.
  assert (Hn : ∀ w x, from_name w = Some x → 0 <= x < 2 ^ 9).
  { intros w x. assert (Hall : Forall (λ nr, 0 <= nr.2 < 2 ^ 9) NAMES) by (by repeat constructor).
    unfold from_name. induction Hall as [|[n r'] l Hr _ IH]; cbn [assoc]; [done|].
    case_bool_decide; [by intros [= <-]|done]. }
  assert (Hw : ∀ ws acc, 0 <= acc < 2 ^ 9 → parse_words acc ws = Some r → 0 <= r < 2 ^ 9).
  { induction ws as [|w ws IH]; intros acc Ha; cbn [parse_words]; [intros [= <-]; done|].
    destruct (from_name w) as [x|] eqn:E; [|done]. cbn [mbind option_bind]. apply IH.
    apply Hn in E. split; [apply Z.lor_nonneg; lia|].
    assert (H : Z.lor acc x = Z.lor acc x mod 2 ^ 9); [|rewrite H; by apply Z.mod_pos_bound].
    rewrite <-!Z.land_ones, Z.land_lor_distr_l, !Z.land_ones, !Z.mod_small by lia. done. }
  intros H. apply Hw in H; [|unfold NONE; lia]. unfold ALL. lia.
Qed.

(** ** Reasoning about the parser

    [runs P m Q s]: if [m] ends with [Ok], its value and state satisfy [Q];
    if it panics, [P] holds.  Nothing is asked of an error: the policy read
    so far is dropped. *)

Definition runs {S E A} (P : Prop) (m : prog S E A) (Q : A → S → Prop) (s : S) : Prop :=
  match m s with
  | Some (Ok a, s') => Q a s'
  | Some (Err _, _) => True
  | None => P
  end.

Section runs.
Context {S : Type} (P : Prop).
Implicit Types (s : S).

Lemma runs_ok_or {E A} (o : option A) (e : E) (Q : A → S → Prop) s :
  (∀ a, o = Some a → Q a s) → runs P (ok_or o e) Q s.
Proof. destruct o; cbn; auto. Qed.

Lemma runs_of_result {E A} (r : result E A) (Q : A → S → Prop) s :
  (∀ a, r = Ok a → Q a s) → runs P (of_result r) Q s.
Proof. destruct r; cbn; auto. Qed.

Lemma runs_lift {E A} (o : option (result E A)) (Q : A → S → Prop) s :
  (o = None → P) → (∀ a, o = Some (Ok a) → Q a s) → runs P (lift_result o) Q s.
Proof. intros HP HQ. unfold runs, lift_result. destruct o as [[]|]; cbn; auto. Qed.

Lemma runs_checked {E A} (o : option A) (Q : A → S → Prop) s a :
  o = Some a → Q a s → runs P (checked o : prog S E A) Q s.
Proof. by intros ->. Qed.

Lemma runs_bind {E A B} (m : prog S E A) (k : A → prog S E B) Q s :
  runs P m (λ a s', runs P (k a) Q s') s → runs P (x ← m; k x) Q s.
Proof. unfold runs, mbind, prog_bind. by destruct (m s) as [[[]]|]. Qed.

Lemma runs_mono {E A} (m : prog S E A) (Q Q' : A → S → Prop) s :
  runs P m Q s → (∀ a s', Q a s' → Q' a s') → runs P m Q' s.
Proof. unfold runs. destruct (m s) as [[[] ?]|]; auto. Qed.

Lemma runs_at_line {A} no (m : prog S Msg A) Q s : runs P m Q s → runs P (at_line no m) Q s.
Proof. unfold runs, at_line. by destruct (m s) as [[[]]|]. Qed.

Lemma runs_fold {E A B} (f : B → A → prog S E B) (I : B → S → Prop) l acc s :
  I acc s → (∀ x acc s, x ∈ l → I acc s → runs P (f acc x) I s) → runs P (fold_m f l acc) I s.
Proof.
  intros HI Hf. revert acc s HI. induction l as [|x l IH]; intros acc s HI; cbn [fold_m]; [done|].
  apply runs_bind. eapply runs_mono; [apply Hf; [by left|done]|].
  intros a s' HI'. apply IH; [|done]. intros y acc' s'' ?. apply Hf. by right.
Qed.
End runs.

Lemma runs_modify {E} P f (Q : () → Policy → Prop) s : Q tt (f s) → runs P (modify f : prog Policy E ()) Q s.
Proof. done. Qed.

(** One step of the parser. *)
Ltac parse_step :=
  match goal with
  | |- runs _ (mbind _ _) _ _ => apply runs_bind
  | |- runs _ (mret _) _ _ => unfold runs, mret, prog_ret
  | |- runs _ (throw _) _ _ => exact I
  | |- runs _ get_state _ _ => unfold runs at 1, get_state at 1
  | |- runs _ (set_state _) _ _ => unfold runs, set_state
  | |- runs _ (modify _) _ _ => apply runs_modify
  | |- runs _ (ok_or _ _) _ _ => apply runs_ok_or; intros ? ?
  | |- runs _ (of_result _) _ _ => apply runs_of_result; intros ? ?
  end; cbv beta iota.
Ltac parse_steps := repeat parse_step.

(** ** Interning *)

Lemma wf_set_groups l p :
  NoDup l → zlen (p_groups p) <= zlen l → wf_tables p → wf_tables (set_groups l p).
Proof.
  intros Hl Hle [????? Hu ????]. constructor; try done. cbn [p_groups p_domains p_users set_groups].
  eapply Forall_impl; [exact Hu|]. intros u [Hf ?]. split; [|done]. by eapply user_fields_ok_mono.
Qed.

Lemma wf_set_kinds l p :
  NoDup l → head l = Some UNLABELED → zlen (p_kinds p) <= zlen l → wf_tables p → wf_tables (set_kinds l p).
Proof.
  intros Hl Hh Hle [?????? Hr Hlb ??]. constructor; try done; cbn [p_kinds p_domains p_labels set_kinds].
  - eapply Forall_impl; [exact Hr|]. intros d Hd. eapply Forall_impl; [exact Hd|].
    intros r ?. by eapply rule_ok_mono.
  - eapply Forall_impl; [exact Hlb|]. intros r ?. by eapply label_ok_mono.
Qed.

(** What interning a group or a kind may change. *)
Definition kept (p p' : Policy) : Prop :=
  p_users p' = p_users p ∧ p_domains p' = p_domains p ∧
  zlen (p_groups p) <= zlen (p_groups p') ∧ zlen (p_kinds p) <= zlen (p_kinds p').

Lemma kept_refl p : kept p p.
Proof. by unfold kept. Qed.

Lemma kept_trans p q r : kept p q → kept q r → kept p r.
Proof. unfold kept. intros (?&?&?&?) (?&?&?&?). split_and!; [congruence|congruence|lia|lia]. Qed.
#[export] Hint Resolve kept_refl : core.

Lemma intern_group_ok {E} P name p :
  wf_tables p →
  runs P (intern_group name : prog Policy E Z)
    (λ i p', wf_tables p' ∧ kept p p' ∧ below (zlen (p_groups p')) i) p.
Proof.
  intros Hp. unfold intern_group. parse_steps.
  destruct (intern (p_groups p) name) as [l i] eqn:Ei. parse_steps.
  apply intern_ok in Ei as (?&?&?&_); [|apply Hp].
  split_and!; [by apply wf_set_groups| |done]. by unfold kept.
Qed.

Lemma intern_kind_ok {E} P name p :
  wf_tables p →
  runs P (intern_kind name : prog Policy E Z)
    (λ i p', wf_tables p' ∧ kept p p' ∧ below (zlen (p_kinds p')) i) p.
Proof.
  intros Hp. unfold intern_kind. parse_steps.
  destruct (intern (p_kinds p) name) as [l i] eqn:Ei. parse_steps.
  apply intern_ok in Ei as (?&?&?&Hh); [|apply Hp].
  split_and!; [apply wf_set_kinds; [done|apply Hh, Hp|done..]| |done]. by unfold kept.
Qed.

(** ** Passwords *)

Lemma u8_from_hex_byte s b : u8_from_hex s = Some b → is_byte b.
Proof.
  assert (Hd : ∀ t acc v, is_byte acc → hex_digits acc t = Some v → is_byte v).
  { induction t as [|c t IH]; intros acc v Ha; cbn [hex_digits]; [by intros [= <-]|].
    destruct (hex_digit c) as [d|]; [|done]. cbn [mbind option_bind]. unfold fits.
    case_if; [|done]. cbn [mbind option_bind]. apply IH. unfold is_byte. lia. }
  unfold u8_from_hex. destruct s as [|c [|]]; [done|..]; case_if; try done; by apply Hd.
Qed.

Lemma hex_bytes_ok n i hex l :
  hex_bytes n i hex = Some (Ok l) → length l = n ∧ Forall is_byte l.
Proof.
  revert i l. induction n as [|n IH]; intros i l; cbn [hex_bytes]; [by intros [= <-]|].
  destruct (str_slice hex _ _) as [two|]; [|done]. cbn [mbind option_bind].
  destruct (u8_from_hex two) as [b|] eqn:Eb; [|done].
  destruct (hex_bytes n (i + 1) hex) as [[l'|]|] eqn:El; [|done..]. intros [= <-].
  destruct (IH _ _ El) as [<- ?]. split; [done|]. constructor; [by eapply u8_from_hex_byte|done].
Qed.

Lemma hex_bytes_ascii n i hex :
  Forall ascii hex → 0 <= i → (i + Z.of_nat n) * 2 <= zlen hex → is_Some (hex_bytes n i hex).
Proof.
  intros Ha. revert i. induction n as [|n IH]; intros i Hi Hn; cbn [hex_bytes]; [done|].
  rewrite ascii_str_slice, slice_ok by (done || lia). cbn [mbind option_bind].
  destruct (u8_from_hex _); [|done].
  destruct (IH (i + 1)) as [r ->]; [lia..|]. done.
Qed.

Lemma parse_password_ok s salt d :
  parse_password s = Some (Ok (salt, d)) → length d = 32%nat ∧ Forall is_byte d.
Proof.
  unfold parse_password. destruct (split_on _ s) as [|tag [|sa [|hex [|]]]]; try done.
  repeat case_if; try done. destruct (hex_bytes 32 0 hex) as [[l|]|] eqn:E; try done.
  intros [= <- <-]. by eapply hex_bytes_ok.
Qed.

Lemma parse_password_ascii s : Forall ascii s → is_Some (parse_password s).
Proof.
  intros Ha. pose proof (Forall_split_on ascii (λ c, c =? 58) s Ha) as Hs.
  unfold parse_password. destruct (split_on _ s) as [|tag [|sa [|hex [|]]]]; try done.
  rewrite !Forall_cons in Hs. destruct Hs as (_&_&Hh&_).
  repeat case_if; try done. rewrite ascii_str_len in * by done.
  destruct (hex_bytes_ascii 32 0 hex Hh) as [r ->]; [lia|lia|done].
Qed.

(** ** The lines *)

(** The fields of the user built by a word. *)
Ltac user_fields :=
  split; [|split; [|split; [done|]]]; unfold user_fields_ok;
  cbn [snd u_groups u_domains u_login u_password].

Section lines.
(** [P] follows from a word that is not ASCII. *)
Context (P : Prop).
Definition fine (s : text) : Prop := Forall ascii s ∨ P.

Lemma fine_password w : fine w → parse_password w = None → P.
Proof. intros [Ha|HP] E; [|done]. destruct (parse_password_ascii w Ha). congruence. Qed.

Lemma user_word_ok name key u w p :
  fine w → wf_tables p → user_fields_ok (zlen (p_groups p)) (zlen (p_domains p)) u →
  runs P (user_word name (key, u) w) (λ acc p',
    wf_tables p' ∧ kept p p' ∧ u_name acc.2 = u_name u ∧
    user_fields_ok (zlen (p_groups p')) (zlen (p_domains p')) acc.2) p.
Proof.
  intros Hw Hp Hu. unfold user_word. destruct (strip_suffix _ w); [by parse_steps|].
  parse_step. parse_step. unfold user_domain.
  repeat case_if; parse_step; try done.
  - eapply runs_mono; [by apply intern_group_ok|]. intros g p' (?&Hk&?). parse_steps.
    destruct Hu as (Hg&Hd&?&?), Hk as (Hk1&Hk2&Hk3&Hk4). user_fields; [done|by unfold kept|].
    rewrite Hk2. split_and!; [|done..]. apply Forall_app. split; [|by constructor].
    eapply Forall_impl; [exact Hg|]. intros x ?. by eapply below_mono.
  - parse_steps. destruct Hu as (Hg&Hd&?&?). user_fields; [done..|]. split_and!; try done.
    apply Forall_app. split; [done|]. constructor; [by eapply domain_id_below|done].
  - parse_steps. destruct Hu as (Hg&Hd&?&?). user_fields; [done..|]. split_and!; try done.
    intros l [= <-]. by eapply domain_id_below.
  - apply runs_lift; [by apply fine_password|]. intros [salt d] Epw. parse_steps.
    destruct Hu as (Hg&Hd&?&?). user_fields; [done..|]. split_and!; try done.
    intros salt' d' [= <- <-]. by eapply parse_password_ok.
Qed.

Lemma enter_login_ok ng nd u : user_fields_ok ng nd u → user_ok ng nd (enter_login u).
Proof.
  intros Hu. unfold enter_login. destruct (u_login u) as [l|] eqn:E; [|by split; [done|rewrite E]].
  case_bool_decide as Hin; [by split; [done|]; rewrite E; intros ? [= <-]|].
  destruct Hu as (Hg&Hd&Hl&Hp). split; unfold user_fields_ok; cbn [u_groups u_domains u_login u_password].
  - split; [done|]. split; [|split; [by intros ? [= <-]; apply Hl|done]]. apply Forall_app. split; [done|].
    constructor; [by apply Hl|done].
  - intros ? [= <-]. apply elem_of_app. right. by left.
Qed.

Lemma enter_login_name u : u_name (enter_login u) = u_name u.
Proof. unfold enter_login. by repeat case_match. Qed.

Lemma parse_user_ok rest p :
  fine rest → wf_tables p → runs P (parse_user rest) (λ _ p', wf_tables p' ∧ zlen (p_domains p') = zlen (p_domains p)) p.
Proof.
  intros Hr Hp. unfold parse_user.
  assert (Hws : Forall fine (split_whitespace rest)).
  { destruct Hr as [Ha|HP]; [|apply Forall_true; intros; by right].
    eapply Forall_impl; [by apply Forall_words_on|]. intros. by left. }
  destruct (split_whitespace rest) as [|name words]; [done|]. apply Forall_cons in Hws as [_ Hws].
  parse_step. parse_step. destruct (user_id p name) as [|] eqn:Eid; [done|].
  parse_step.
  eapply runs_mono; [apply (runs_fold _ _ (λ acc p', wf_tables p' ∧ kept p p' ∧ u_name acc.2 = name ∧
    user_fields_ok (zlen (p_groups p')) (zlen (p_domains p')) acc.2))|].
  - split_and!; try done.
  - intros w [key u] q Hin (Hq&Hk&Hn&Hu). rewrite Forall_forall in Hws.
    eapply runs_mono; [apply user_word_ok; [by apply Hws|done|done]|].
    intros acc q' (?&?&En&?). split; [done|]. split; [by eapply kept_trans|]. by rewrite En.
  - intros [key u] q (Hq&Hk&Hn&Hu). parse_steps. cbn [snd] in *.
    destruct Hk as (Hk1&Hk2&_&_). split; [|cbn [set_users p_domains]; by rewrite Hk2].
    destruct Hq. constructor; try done; cbn [p_users set_users p_groups p_domains].
    + rewrite fmap_app. apply NoDup_app. split_and!; [done| |apply NoDup_singleton].
      intros x Hx ->%list_elem_of_singleton. rewrite enter_login_name, Hn, Hk1 in Hx.
      unfold user_id in Eid. apply fmap_None, position_none in Eid. done.
    + apply Forall_app. split; [done|]. constructor; [|done]. by apply enter_login_ok.
Qed.

(** The rules of a domain: the loop ends within the length of the text. *)
Lemma parse_rules_loop_ok fuel rest rules p :
  (length rest < fuel)%nat → wf_tables p → Forall (rule_ok (zlen (p_kinds p))) rules →
  runs P (parse_rules_loop fuel rest rules)
    (λ l p', wf_tables p' ∧ kept p p' ∧ Forall (rule_ok (zlen (p_kinds p'))) l) p.
Proof.
  revert rest rules p. induction fuel as [|fuel IH]; intros rest rules p Hf Hp Hrules; [lia|].
  cbn [parse_rules_loop]. case_if; [by parse_steps|].
  parse_step. parse_step. destruct a as [before after].
  parse_step. parse_step. destruct a as [inside after'].
  parse_step. parse_step. rename a into r.
  assert (Hlen : (length (trim after') < fuel)%nat).
  { pose proof (trim_length after'). apply split_once_length in H, H0. lia. }
  apply parse_list_range in H1.
  assert (Hkind : ∀ kind param, runs P (
    if negb (nonempty kind) || existsb is_whitespace kind then throw (OneLabel (trim before))
    else
      kind ← if bool_decide (kind = str "*") then mret KAny else k ← intern_kind kind; mret (Kind k);
      parse_rules_loop fuel (trim after')
        (rules ++ [{| r_kind := kind; r_param := param_sel param; r_rights := r |}]))
    (λ l p', wf_tables p' ∧ kept p p' ∧ Forall (rule_ok (zlen (p_kinds p'))) l) p).
  { intros kind param. case_if; [done|]. parse_step.
    case_bool_decide; parse_step.
    - apply IH; [done..|]. apply Forall_app. split; [done|]. apply Forall_singleton. by split.
    - eapply runs_mono; [by apply intern_kind_ok|]. intros k p' (Hp'&Hk&Hbk). parse_steps.
      eapply runs_mono; [apply IH; [done..|]|].
      + apply Forall_app. split; [|apply Forall_singleton; by split].
        eapply Forall_impl; [exact Hrules|]. intros x ?. eapply rule_ok_mono; [done|]. apply Hk.
      + intros l p'' (?&?&?). split; [done|]. split; [by eapply kept_trans|done]. }
  parse_step. case_bool_decide; parse_step; [|destruct a as [kind param]]; apply Hkind.
Qed.

Lemma parse_rules_ok s p :
  wf_tables p →
  runs P (parse_rules s) (λ l p', wf_tables p' ∧ kept p p' ∧ Forall (rule_ok (zlen (p_kinds p'))) l) p.
Proof. intros. apply parse_rules_loop_ok; [lia|done|done]. Qed.

Lemma label_param_ok pattern param lp :
  label_param pattern param = Ok lp → match lp with LPVar v => Var v ∈ pattern | _ => True end.
Proof.
  unfold label_param. intros H. destruct lp as [|v|l]; [done| |done].
  repeat case_match; simplify_eq.
  match goal with E : existsb _ _ = true |- _ => apply existsb_exists in E as (s&Hs%list_elem_of_In&Hv) end.
  destruct s; try done. by apply bool_decide_eq_true in Hv as ->.
Qed.

Lemma label_line_ok rest p :
  wf_tables p → runs P (label_line rest) (λ _ p', wf_tables p' ∧ zlen (p_domains p') = zlen (p_domains p)) p.
Proof.
  intros Hp. unfold label_line. destruct (split_whitespace rest) as [|pat [|lab []]]; try done.
  parse_step. parse_step. rename a into pattern, H into Hpat.
  parse_step. parse_step. destruct a as [kind param]. parse_step. parse_step. rename a into lp, H0 into Hlp.
  parse_step. eapply runs_mono; [by apply intern_kind_ok|].
  intros k p' (Hp'&(_&Hk&_&_)&Hbk). parse_steps. split; [|cbn [set_labels p_domains]; by rewrite Hk].
  destruct Hp'. constructor; try done; cbn [set_labels p_labels p_kinds].
  apply Forall_app. split; [done|]. constructor; [|done].
  split; [by eapply pattern_parse_ok|]. split; [done|]. by eapply label_param_ok.
Qed.

Lemma domain_line_ok rest p :
  wf_tables p → runs P (domain_line rest) (λ _ p', wf_tables p' ∧ zlen (p_domains p') = zlen (p_domains p)) p.
Proof.
  intros Hp. unfold domain_line. destruct (default _ _) as [name rules].
  parse_step. parse_step. parse_step. parse_step. rename a into d, H into Hd. apply domain_id_below in Hd.
  parse_step. eapply runs_mono; [by apply parse_rules_ok|].
  intros l p' (Hp'&(_&Hk&_&_)&Hl). parse_step. parse_step. rewrite <-Hk in Hd. unfold below in Hd.
  destruct (zget_is_some (p_domains p') d) as [dom Hdom]; [lia|].
  parse_step. eapply runs_checked; [done|]. parse_step. unfold zset. rewrite (proj2 (Z.leb_le 0 d)) by lia.
  rewrite (proj2 (Z.ltb_lt d _)) by lia. cbn [andb]. eapply runs_checked; [done|]. parse_steps.
  split; [|cbn [set_domains p_domains]; by rewrite length_insert, Hk].
  rewrite zget_lookup in Hdom by lia.
  destruct Hp'. constructor; try done; cbn [set_domains p_domains p_groups p_users p_kinds p_execs p_login];
    rewrite ?length_insert; try done.
  - by rewrite list_fmap_insert, list_insert_id; [|by rewrite list_lookup_fmap, Hdom].
  - apply Forall_insert; [done|]. cbn [d_rules]. apply Forall_app. split; [|done].
    by eapply (Forall_lookup_1 _ _ _ _ wf_rules0).
Qed.

Lemma exec_line_ok rest p :
  wf_tables p → runs P (exec_line rest) (λ _ p', wf_tables p' ∧ zlen (p_domains p') = zlen (p_domains p)) p.
Proof.
  intros Hp. unfold exec_line. parse_step. parse_step. destruct a as [pat dom]. parse_steps.
  split; [|done]. destruct Hp. constructor; try done; cbn [set_execs p_execs p_domains].
  apply Forall_app. split; [done|]. constructor; [|done]. split; [by eapply pattern_parse_ok|].
  by eapply domain_id_below.
Qed.

Lemma login_line_ok rest p :
  wf_tables p → runs P (login_line rest) (λ _ p', wf_tables p' ∧ zlen (p_domains p') = zlen (p_domains p)) p.
Proof.
  intros Hp. unfold login_line. parse_steps. split; [|done]. destruct Hp. constructor; try done.
  cbn [set_login p_login p_domains]. intros l [= <-]. by eapply domain_id_below.
Qed.

Lemma set_enforcing_ok b p : wf_tables p → wf_tables (set_enforcing b p).
Proof. intros []. by constructor. Qed.

Lemma parse_line_ok no boot line p :
  fine line → wf_tables p → runs P (parse_line no boot line) (λ _ p', wf_tables p') p.
Proof.
  intros Hl Hp. unfold parse_line. destruct (default _ _) as [head rest] eqn:E.
  assert (Hrest : fine (trim rest)).
  { destruct Hl as [Ha|]; [left|by right]. apply Forall_trim.
    destruct (split_once is_whitespace line) as [[x y]|] eqn:Es; cbn in E; simplify_eq; [|done].
    by apply (Forall_split_once _ _ _ _ _ Es). }
  assert (Hk : ∀ m : prog Policy Msg (),
    runs P m (λ _ p', wf_tables p' ∧ zlen (p_domains p') = zlen (p_domains p)) p →
    runs P (_ ← m; mret boot) (λ _ p', wf_tables p') p).
  { intros m Hm. parse_step. eapply runs_mono; [exact Hm|]. intros ? ? [? _]. done. }
  repeat case_if; try done; try apply Hk.
  - parse_steps. split; [by apply set_enforcing_ok|done].
  - parse_steps. split; [by apply set_enforcing_ok|done].
  - by apply parse_user_ok.
  - by apply label_line_ok.
  - by apply domain_line_ok.
  - by apply exec_line_ok.
  - by apply login_line_ok.
  - destruct (split_whitespace _) as [|u [|d []]]; done.
Qed.

Lemma parse_lines_ok ls p :
  Forall (λ nl, fine nl.2) ls → wf_tables p → runs P (parse_lines ls) (λ _ p', wf_policy p') p.
Proof.
  intros Hls Hp. unfold parse_lines. parse_step.
  eapply runs_mono; [apply (runs_fold _ _ (λ _ p', wf_tables p')); [done|]|].
  - intros [no line] boot q Hin Hq. apply runs_at_line, parse_line_ok; [|done].
    rewrite Forall_forall in Hls. by apply (Hls _ Hin).
  - intros [[[u d] no]|] q Hq; [|done]. parse_steps.
    split; [by destruct Hq; constructor|]. cbn [p_boot set_boot p_users p_domains fst snd].
    split; [by eapply user_id_below|by eapply domain_id_below].
Qed.
End lines.

(** ** The whole text *)

Lemma empty_policy_ok : wf_tables empty_policy.
Proof. constructor; cbn; try done; try apply NoDup_singleton; constructor. Qed.

(** The first pass only adds names; nothing refers to them yet. *)
Definition fresh (p : Policy) : Prop :=
  wf_tables p ∧ p_users p = [] ∧ p_labels p = [] ∧ p_execs p = [] ∧ p_login p = None.

Lemma collect_ok line p : fresh p → fresh (collect line p).
Proof.
  intros (Hp&Hu&Hl&He&Hlo). unfold collect.
  destruct (split_whitespace line) as [|w words]; [done|]. repeat case_if; try done.
  - split; [|done]. apply bool_decide_eq_true in H0. destruct Hp.
    constructor; try done; cbn [set_domains p_domains p_users p_execs p_login p_kinds p_groups];
      rewrite ?Hu, ?He, ?Hlo; try done.
    + rewrite fmap_app. apply NoDup_app. split_and!; [done| |apply NoDup_singleton].
      intros x Hx ->%list_elem_of_singleton. apply fmap_None, position_none in H0. done.
    + apply Forall_app. split; [done|]. by repeat constructor.
  - destruct words as [|g words]; [done|]. split; [|done].
    destruct (intern (p_groups p) g) as [l i] eqn:E. apply intern_ok in E as (?&?&?&_); [|apply Hp].
    by apply wf_set_groups.
Qed.

Lemma collect_all (ls : list (nat * text)) p : fresh p → fresh (foldl (λ p '(_, line), collect line p) p ls).
Proof. revert p. induction ls as [|[n l] ls IH]; intros p Hp; cbn [foldl]; [done|]. by apply IH, collect_ok. Qed.

Lemma logical_lines_ascii s :
  Forall ascii s → Forall (λ nl : nat * text, Forall ascii nl.2) (logical_lines s).
Proof.
  intros Hs. unfold logical_lines. apply Forall_reverse.
  assert (Hraw : Forall (λ nl : nat * text, Forall ascii nl.2) (imap pair (lines s))).
  { apply Forall_lookup. intros i nl Hnl. rewrite list_lookup_imap in Hnl.
    destruct (lines s !! i) as [l|] eqn:Hy; [|done]. injection Hnl as <-.
    by eapply (Forall_lookup_1 _ _ _ _ (Forall_lines ascii s Hs)). }
  assert (Hout : Forall (λ nl : nat * text, Forall ascii nl.2) (@nil (nat * text))) by constructor.
  revert Hout. generalize (@nil (nat * text)). induction Hraw as [|[i raw] ls Hr _ IH]; intros out Hout;
    cbn [foldl]; [done|].
  apply IH. unfold logical_line. cbn [snd] in Hr.
  pose proof (Forall_split_on ascii (λ c, c =? 35) raw Hr) as Hsp.
  destruct (split_on _ raw) as [|line more]; cbn [default head from_option]; [done|].
  apply Forall_cons in Hsp as [Hline _].
  assert (Ht := Forall_trim ascii line Hline).
  case_if; [done|]. destruct Hout as [|[n prev] out Hprev Hout]; [by repeat constructor|].
  case_if; repeat constructor; try done.
  cbn [snd] in *. apply Forall_app. split; [done|]. constructor; [by split|done].
Qed.

Lemma parse_runs s :
  match parse s with
  | Some (Ok p) => wf_policy p
  | Some (Err _) => True
  | None => ~ Forall ascii s
  end.
Proof.
  unfold parse.
  destruct (collect_all (logical_lines s) empty_policy) as [Hp _]; [by split; [apply empty_policy_ok|]|].
  assert (Hf : Forall (λ nl : nat * text, fine (~ Forall ascii s) nl.2) (logical_lines s)).
  { destruct (decide (Forall (λ c, bool_decide (0 <= c < 0x80) = true) s)) as [Ha|Hn].
    - eapply Forall_impl; [apply logical_lines_ascii|intros; by left].
      eapply Forall_impl; [exact Ha|]. intros c Hc. by apply bool_decide_eq_true in Hc.
    - apply Forall_true. intros. right. intros Ha. apply Hn. eapply Forall_impl; [exact Ha|].
      intros c Hc. by apply bool_decide_eq_true. }
  pose proof (parse_lines_ok _ _ _ Hf Hp) as H. unfold runs in H.
  destruct (parse_lines _ _) as [[[u|e] p']|]; exact H.
Qed.

(** C37: every policy the parser accepts is well formed: user, group, domain
    and kind names are unique, kind 0 is [unlabeled], every identifier in
    users, rules, labels, exec rules, [login] and [boot] is in range, [**]
    ends its pattern, a label's [$name] is captured by its pattern, a user
    may enter its own login domain, and password digests are 32 bytes. *)
Theorem policy_parse_wf (s : text) (p : Policy) : parse s = Some (Ok p) → wf_policy p.
Proof. intros E. pose proof (parse_runs s) as H. by rewrite E in H. Qed.

Lemma policy_parse_wf_witness : parse ex_text = Some (Ok ex_policy) ∧ wf_policy ex_policy.
Proof.
  assert (E : parse ex_text = Some (Ok ex_policy)) by (vm_compute; reflexivity).
  split; [exact E|]. exact (policy_parse_wf ex_text ex_policy E).
Defined.

(** C39: on ASCII text the parser returns, with a policy or an error: it
    neither panics nor runs on. *)
Theorem policy_parse_total (s : text) : Forall ascii s → is_Some (parse s).
Proof. intros Ha. pose proof (parse_runs s) as H. destruct (parse s); [done|]. tauto. Qed.

Lemma policy_parse_total_witness : is_Some (parse (str "domain d: x {read")).
Proof. apply policy_parse_total. by apply (bool_decide_unpack _); vm_compute. Defined.

(** A digest of 64 bytes with a two-byte character across a byte pair: the
    slice [&hex[0..2]] panics, and with it the parser. *)
Theorem password_slice_panics :
  parse (str "user a password: sha256:s:a" ++ [0xe9] ++ replicate 61 97) = None.
Proof. vm_compute. reflexivity. Qed.

(** [+f] is taken for the byte 15: the digest need not be 64 hex digits. *)
Theorem password_accepts_sign :
  parse_password (str "sha256:s:" ++ concat (replicate 32 (str "+f"))) =
    Some (Ok (str "s", replicate 32 15)).
Proof. vm_compute. reflexivity. Qed.
