(* ===== verification/Ns.v ===== *)
(** * Namespaces ([kernel/src/task/ns.rs])

    What a process can name: bindings of real paths into its own tree.  The
    resolution of bind mounts belongs to the file system and is a parameter
    of the definitions that use it. *)

From S2P Require Import Prelude Text Policy.

Record Binding := { b_target : text; b_source : text; b_rights : Rights }.

Abbreviation Namespace := (list Binding).

Inductive Mapped := Real (path : text) | Synthetic.

Definition root : text := str "/".

(** [path] relative to [prefix], if it lies at or below it. *)
Definition below (path prefix : text) : option text :=
  if bool_decide (prefix = root) then Some (if bool_decide (path = root) then [] else path)
  else
    rest ← strip_prefix prefix path;
    match rest with
    | [] => Some []
    | c :: _ => if c =? 47 then Some rest else None
    end.

Definition join (base rest : text) : text :=
  if negb (nonempty rest) then base
  else if bool_decide (base = root) then rest
  else base ++ rest.

(** [Iterator::max_by_key]: the last of the elements with the largest key. *)
Definition max_by_key {A} (key : A → Z) (l : list A) : option A :=
  foldl (λ best x,
    match best with
    | None => Some x
    | Some y => if key x <? key y then Some y else Some x
    end) None l.

(** The bindings above [virt], with what is left of the path below each. *)
Definition candidates (self : Namespace) (virt : text) : list (Binding * text) :=
  omap (λ b, rest ← below virt (b_target b); Some (b, rest)) self.

Definition map (self : Namespace) (virt : text) : option Mapped :=
  match max_by_key (λ br, str_len (b_target br.1)) (candidates self virt) with
  | Some (b, rest) => Some (Real (join (b_source b) rest))
  | None =>
      if existsb (λ b, match below (b_target b) virt with Some _ => true | None => false end) self
      then Some Synthetic else None
  end.

Definition ns_rights_of (self : Namespace) (real : text) : Rights :=
  foldl (λ r b, Z.lor r (b_rights b)) NONE
    (filter (λ b, is_Some (below real (b_source b))) self).

Definition child_step (virt : text) (out : list text) (b : Binding) : list text :=
  match below (b_target b) virt with
  | None => out
  | Some rest =>
      match split_on is_slash (trim_start is_slash rest) with
      | name :: _ => if nonempty name && negb (bool_decide (name ∈ out)) then out ++ [name] else out
      | [] => out
      end
  end.

Definition children (self : Namespace) (virt : text) : list text := foldl (child_step virt) [] self.

Section virtual.
(** [vfs::canonical] and [vfs::bound_names] *)
Context (canonical : text → option text) (bound_names : text → list text).

Definition through_bindings (self : Namespace) (real : text) : option text :=
  '(b, _, rest) ← max_by_key (λ blr : Binding * Z * text, blr.1.2)
    (omap (λ b, source ← canonical (b_source b);
                rest ← below real source; Some (b, str_len source, rest)) self);
  Some (join (b_target b) rest).

(** [iter().find_map(f)] *)
Fixpoint find_map {A B} (f : A → option B) (l : list A) : option B :=
  match l with [] => None | x :: l' => match f x with Some y => Some y | None => find_map f l' end end.

Definition to_virtual (self : Namespace) (real : text) : option text :=
  real ← canonical real;
  match through_bindings self real with
  | Some v => Some v
  | None => find_map (through_bindings self) (bound_names real)
  end.
End virtual.

(** ** Paths as lists of names

    What a path says, apart from the code's own test: the names between its
    slashes.  A path is at or below another when it has that one's names
    first. *)

Definition components (p : text) : list text := words_on is_slash p.

Definition at_or_below (p q : text) : Prop := components q `prefix_of` components p.

(** Each name after a slash. *)
Definition slashed (cs : list text) : text := concat ((λ c, 47 :: c) <$> cs).

(** An absolute path, canonical: [/], or names each after one slash. *)
Definition path_of (cs : list text) : text := match cs with [] => root | _ => slashed cs end.
Definition clean (p : text) : Prop := p = path_of (components p).

Definition name (c : text) : Prop := c ≠ [] ∧ Forall (λ x, is_slash x = false) c.

Lemma strip_prefix_app pre s r : strip_prefix pre s = Some r ↔ s = pre ++ r.
Proof.
  revert s. induction pre as [|c pre IH]; intros s; cbn [strip_prefix app].
  - split; [by intros [= ->]|by intros ->].
  - destruct s as [|d s]; [done|]. destruct (Z.eqb_spec c d) as [->|Hne].
    + rewrite IH. split; [by intros ->|by intros [= ->]].
    + split; [done|]. intros [= ->]. done.
Qed.

Lemma split_on_name c s : Forall (λ x, is_slash x = false) c →
  split_on is_slash (c ++ s) = match split_on is_slash s with w :: ws => (c ++ w) :: ws | [] => [c] end.
Proof.
  induction 1 as [|x c Hx _ IH]; cbn [app split_on].
  - destruct s as [|y s]; [done|]. cbn [split_on]. destruct (is_slash y); [done|]. by destruct (split_on is_slash s).
  - rewrite Hx, IH. by destruct (split_on is_slash s).
Qed.

Lemma split_on_names p : Forall (Forall (λ x, is_slash x = false)) (split_on is_slash p).
Proof.
  induction p as [|c p IH]; cbn [split_on]; [by repeat constructor|]. destruct (is_slash c) eqn:E; [by constructor|].
  destruct IH as [|w ws]; repeat constructor; done.
Qed.

Lemma components_names p : Forall name (components p).
Proof.
  apply Forall_forall. intros c [Hne Hc]%list_elem_of_filter. split; [by destruct c|].
  pose proof (split_on_names p) as H. rewrite Forall_forall in H. by apply H.
Qed.

Lemma components_slashed cs : Forall name cs → components (slashed cs) = cs.
Proof.
  unfold components, words_on, slashed. induction 1 as [|c cs [Hne Hc] _ IH]; [done|]. cbn [fmap list_fmap concat app split_on].
  change (is_slash 47) with true. cbn iota. rewrite filter_cons_False by done. rewrite split_on_name by done. revert IH.
  destruct cs as [|d cs]; cbn [fmap list_fmap concat app split_on].
  - intros _. rewrite app_nil_r, filter_cons_True by (by destruct c). done.
  - change (is_slash 47) with true. cbn iota. rewrite filter_cons_False by done. intros IH.
    rewrite app_nil_r, filter_cons_True by (by destruct c). by rewrite IH.
Qed.

Lemma components_path cs : Forall name cs → components (path_of cs) = cs.
Proof. destruct cs; [done|]. apply components_slashed. Qed.

Lemma slashed_head cs : slashed cs = [] ∨ head (slashed cs) = Some 47.
Proof. destruct cs; [by left|by right]. Qed.

(** A name ends where the next slash is. *)
Lemma name_ends c d x y : Forall (λ x, is_slash x = false) c → Forall (λ x, is_slash x = false) d →
  (x = [] ∨ head x = Some 47) → (y = [] ∨ head y = Some 47) → c ++ x = d ++ y → c = d ∧ x = y.
Proof.
  intros Hc. revert d. induction Hc as [|a c Ha _ IH]; intros d Hd Hx Hy E; destruct Hd as [|b d Hb Hd]; cbn [app] in E.
  - done.
  - destruct Hx as [->|Hx]; [done|]. rewrite E in Hx. by injection Hx as ->.
  - destruct Hy as [->|Hy]; [done|]. rewrite <- E in Hy. by injection Hy as ->.
  - injection E as -> E. destruct (IH d Hd Hx Hy E) as [-> ->]. done.
Qed.

Lemma slashed_prefix ps qs r : Forall name ps → Forall name qs → (r = [] ∨ head r = Some 47) →
  slashed ps = slashed qs ++ r → ∃ rs, ps = qs ++ rs ∧ r = slashed rs.
Proof.
  intros Hp Hq Hr. revert ps Hp. induction Hq as [|c qs [_ Hc] _ IH]; intros ps Hp E; [by exists ps|].
  destruct Hp as [|d ps [_ Hd] Hp]; [done|]. unfold slashed in E. cbn [fmap list_fmap concat app] in E. fold (slashed ps) (slashed qs) in E.
  rewrite <- app_assoc in E. injection E as E. destruct (name_ends d c (slashed ps) (slashed qs ++ r)) as [-> E']; try done.
  - apply slashed_head.
  - destruct (slashed_head qs) as [Eq|Eq]; [by rewrite Eq|]. right. by destruct (slashed qs).
  - destruct (IH ps Hp E') as (rs&->&->). by exists rs.
Qed.

Lemma slashed_app ps qs : slashed (ps ++ qs) = slashed ps ++ slashed qs.
Proof. unfold slashed. by rewrite fmap_app, concat_app. Qed.

Lemma path_of_root cs : Forall name cs → path_of cs = root ↔ cs = [].
Proof.
  intros H. split; [|by intros ->]. destruct H as [|c cs [Hne _] _]; [done|]. cbn. destruct c; [done|]. by intros [=].
Qed.

(** The code's test is the one on names. *)
Lemma below_names ps qs r : Forall name ps → Forall name qs →
  below (path_of ps) (path_of qs) = Some r ↔ ∃ rs, ps = qs ++ rs ∧ r = slashed rs.
Proof.
  intros Hp Hq. unfold below. destruct (decide (qs = [])) as [->|Hne].
  { rewrite bool_decide_eq_true_2 by done. transitivity (slashed ps = r); [|split; [by exists ps|by intros (?&->&->)]].
    case_bool_decide as E; [apply path_of_root in E as ->; [|done]|destruct ps; [done|]]; naive_solver. }
  rewrite bool_decide_eq_false_2 by (by rewrite path_of_root). assert (Eq : path_of qs = slashed qs) by (by destruct qs). rewrite Eq.
  split.
  - destruct (strip_prefix _ _) as [r'|] eqn:E; [|done]. cbn [mbind option_bind]. apply strip_prefix_app in E. intros Er.
    assert ((r' = [] ∨ head r' = Some 47) ∧ r = r') as [Hh ->].
    { destruct r' as [|c r']; [by injection Er as <-; auto|]. destruct (Z.eqb_spec c 47) as [->|]; [|done]. injection Er as <-. by auto. }
    apply slashed_prefix; [done..|]. destruct ps; [|done]. destruct Hq as [|c qs [Hc _] _]; [done|].
    cbn in E. destruct c as [|x c]; [done|]. by injection E.
  - intros (rs&->&->). assert (path_of (qs ++ rs) = slashed qs ++ slashed rs) as -> by (rewrite <- slashed_app; by destruct qs).
    rewrite (proj2 (strip_prefix_app _ _ _)) by done. cbn [mbind option_bind]. by destruct rs.
Qed.

Lemma below_clean p q : clean p → clean q → is_Some (below p q) ↔ at_or_below p q.
Proof.
  unfold clean, at_or_below. intros -> ->. rewrite !components_path by apply components_names. split.
  - intros [r (rs&->&_)%below_names]; [by exists rs|apply components_names..].
  - intros [rs E]. exists (slashed rs). apply below_names; [apply components_names..|]. by exists rs.
Qed.

Lemma join_names qs rs : Forall name qs → join (path_of qs) (slashed rs) = path_of (qs ++ rs).
Proof.
  intros Hq. unfold join. destruct rs as [|r rs]; [cbn; by rewrite app_nil_r|]. cbn [slashed fmap list_fmap concat app nonempty negb].
  case_bool_decide as E; [apply path_of_root in E as ->; done|]. destruct qs as [|q qs]; [done|].
  change (slashed (q :: qs) ++ slashed (r :: rs) = slashed ((q :: qs) ++ r :: rs)). by rewrite slashed_app.
Qed.

Lemma str_len_app a b : str_len (a ++ b) = str_len a + str_len b.
Proof. induction a as [|c a IH]; cbn [app str_len]; [done|]. rewrite IH. lia. Qed.

Lemma max_by_key_spec {A} (key : A → Z) l x :
  max_by_key key l = Some x →
  ∃ l1 l2, l = l1 ++ x :: l2 ∧ Forall (λ y, key y <= key x) l1 ∧ Forall (λ y, key y < key x) l2.
Proof.
  unfold max_by_key. revert x. induction l as [|y l IH] using rev_ind; intros x; [done|].
  rewrite foldl_app. cbn [foldl]. destruct (foldl _ None l) as [z|] eqn:E.
  - destruct (IH _ eq_refl) as (l1&l2&->&H1&H2). case_if; intros [= <-].
    + exists l1, (l2 ++ [y]). rewrite <-app_assoc. split_and!; [done..|].
      apply Forall_app. split; [done|]. by constructor.
    + exists (l1 ++ z :: l2), []. split_and!; [done| |constructor].
      apply Forall_app. split; [eapply Forall_impl; [exact H1|]; intros; cbv beta in *; lia|].
      constructor; [lia|]. eapply Forall_impl; [exact H2|]. intros. cbv beta in *. lia.
  - destruct l as [|z l _] using rev_ind; [|rewrite foldl_app in E; cbn [foldl] in E; repeat case_match; done].
    intros [= <-]. by exists [], [].
Qed.

Lemma ns_rights_fold r l b :
  0 <= b → Z.testbit (foldl (λ r x, Z.lor r (b_rights x)) r l) b = true ↔
    Z.testbit r b = true ∨ ∃ x, x ∈ l ∧ Z.testbit (b_rights x) b = true.
Proof.
  intros Hb. revert r. induction l as [|x l IH]; intros r; cbn [foldl].
  - split; [by left|]. intros [?|(?&?%not_elem_of_nil&_)]; done.
  - rewrite IH, Z.lor_spec, orb_true_iff. setoid_rewrite elem_of_cons. split.
    + intros [[?|?]|(y&?&?)]; [by left|right; exists x; auto|right; exists y; auto].
    + intros [?|(y&[->|?]&?)]; [auto|auto|right; exists y; auto].
Qed.

Lemma ns_rights_spec ns real b :
  0 <= b → Z.testbit (ns_rights_of ns real) b = true ↔
    ∃ x, x ∈ ns ∧ is_Some (below real (b_source x)) ∧ Z.testbit (b_rights x) b = true.
Proof.
  intros Hb. unfold ns_rights_of. rewrite ns_rights_fold by done. unfold NONE. rewrite Z.bits_0. split.
  - intros [?|(x&[? ?]%list_elem_of_filter&?)]; [done|]. by exists x.
  - intros (x&?&?&?). right. exists x. split; [|done]. by apply list_elem_of_filter.
Qed.

Lemma elem_candidates ns virt b rest :
  (b, rest) ∈ candidates ns virt ↔ b ∈ ns ∧ below virt (b_target b) = Some rest.
Proof.
  unfold candidates. rewrite list_elem_of_omap. split.
  - intros (x&Hx&E). destruct (below virt (b_target x)) as [r|] eqn:Eb; [|done]. cbn in E. by simplify_eq.
  - intros [Hb E]. exists b. by rewrite E.
Qed.

Lemma utf8_len_pos c : 0 < utf8_len c.
Proof. unfold utf8_len. repeat case_if; lia. Qed.

Lemma str_len_nonneg s : 0 <= str_len s.
Proof. induction s as [|c s IH]; cbn [str_len]; [done|]. pose proof (utf8_len_pos c). lia. Qed.

(** Of two paths above a third the one with more names is the longer. *)
Lemma more_names_longer qs rs : Forall name (qs ++ rs) → rs ≠ [] → str_len (path_of qs) < str_len (path_of (qs ++ rs)).
Proof.
  intros Hn Hne. apply Forall_app in Hn as [_ Hn]. destruct Hn as [|r rs [Hr _] _]; [done|]. clear Hne.
  assert (Hpos : 1 < str_len (slashed (r :: rs))).
  { cbn. destruct r as [|x r]; [done|]. cbn [app str_len]. pose proof (utf8_len_pos x). pose proof (str_len_nonneg (r ++ slashed rs)).
    change (utf8_len 47) with 1. unfold slashed in *. lia. }
  destruct qs as [|q qs]; [exact Hpos|]. change (path_of ((q :: qs) ++ r :: rs)) with (slashed ((q :: qs) ++ r :: rs)).
  rewrite slashed_app, str_len_app. change (path_of (q :: qs)) with (slashed (q :: qs)). lia.
Qed.

Definition depth (p : text) : nat := length (components p).

Lemma longest_deepest virt t t' : clean t → clean t' → at_or_below virt t → at_or_below virt t' →
  (str_len t' <= str_len t → (depth t' <= depth t)%nat) ∧ (str_len t' < str_len t → (depth t' < depth t)%nat).
Proof.
  unfold clean, depth, at_or_below. intros Ht Ht' [rs Er] [rs' Er'].
  assert (Hc : components t `prefix_of` components t' ∨ components t' `prefix_of` components t).
  { apply (prefix_weak_total _ _ (components virt)); by eexists. }
  pose proof (components_names t) as Hn. pose proof (components_names t') as Hn'.
  destruct Hc as [[xs E]|[xs E]]; (destruct (decide (xs = [])) as [->|Hx]; [rewrite app_nil_r in E; rewrite Ht, Ht', E; lia|]).
  - pose proof (more_names_longer (components t) xs ltac:(by rewrite <- E) Hx) as Hl. rewrite <- E, <- Ht, <- Ht' in Hl. lia.
  - rewrite E, length_app. destruct xs; [done|]. cbn [length]. lia.
Qed.

Lemma none_above ns virt : candidates ns virt = [] ↔ ∀ b, b ∈ ns → below virt (b_target b) = None.
Proof.
  split.
  - intros E b Hb. destruct (below virt (b_target b)) as [r|] eqn:Eb; [|done]. exfalso.
    assert (Hin : (b, r) ∈ candidates ns virt) by (by apply elem_candidates). rewrite E in Hin. by apply elem_of_nil in Hin.
  - intros H. destruct (candidates ns virt) as [|[b r] l] eqn:E; [done|]. exfalso.
    assert (Hin : (b, r) ∈ candidates ns virt) by (rewrite E; by left). apply elem_candidates in Hin as [Hb Hr]. by rewrite H in Hr.
Qed.

Lemma max_by_key_none {A} (key : A → Z) l : max_by_key key l = None ↔ l = [].
Proof.
  split; [|by intros ->]. destruct l as [|x l _] using rev_ind; [done|]. unfold max_by_key. rewrite foldl_app. cbn [foldl].
  by repeat case_match.
Qed.

Lemma candidates_cons x ns virt : candidates (x :: ns) virt =
  match below virt (b_target x) with Some r => (x, r) :: candidates ns virt | None => candidates ns virt end.
Proof. unfold candidates. cbn [omap list_omap]. by destruct (below virt (b_target x)). Qed.

(** The bindings before and after one that a path may lead through. *)
Lemma candidates_split ns virt b rest l1 l2 : candidates ns virt = l1 ++ (b, rest) :: l2 →
  ∃ n1 n2, ns = n1 ++ b :: n2 ∧ l1 = candidates n1 virt ∧ l2 = candidates n2 virt ∧ below virt (b_target b) = Some rest.
Proof.
  revert l1. induction ns as [|x ns IH]; intros l1; [by destruct l1|]. rewrite candidates_cons.
  destruct (below virt (b_target x)) as [r|] eqn:Ex.
  - destruct l1 as [|y l1]; cbn [app].
    + intros [= -> -> <-]. by exists [], ns.
    + intros [= <- E]. destruct (IH l1 E) as (n1&n2&->&->&->&Hb). exists (x :: n1), n2. rewrite candidates_cons, Ex. by split_and!.
  - intros E. destruct (IH l1 E) as (n1&n2&->&->&->&Hb). exists (x :: n1), n2. rewrite candidates_cons, Ex. by split_and!.
Qed.

Definition clean_binding (b : Binding) : Prop := clean (b_target b) ∧ clean (b_source b).

Lemma map_real ns virt b rest l1 l2 : clean virt → Forall clean_binding ns →
  candidates ns virt = l1 ++ (b, rest) :: l2 →
  Forall (λ y, str_len (b_target y.1) <= str_len (b_target b)) l1 → Forall (λ y, str_len (b_target y.1) < str_len (b_target b)) l2 →
  ∃ n1 n2 names, ns = n1 ++ b :: n2 ∧
    components virt = components (b_target b) ++ names ∧
    clean (join (b_source b) rest) ∧ components (join (b_source b) rest) = components (b_source b) ++ names ∧
    (∀ b', b' ∈ n1 → at_or_below virt (b_target b') → (depth (b_target b') <= depth (b_target b))%nat) ∧
    (∀ b', b' ∈ n2 → at_or_below virt (b_target b') → (depth (b_target b') < depth (b_target b))%nat).
Proof.
  intros Hv Hc Hs H1 H2. destruct (candidates_split _ _ _ _ _ _ Hs) as (n1&n2&->&->&->&Hr).
  apply Forall_app in Hc as [C1 [[Ct Cs] C2]%Forall_cons]. rewrite Forall_forall in C1, C2. rewrite Forall_forall in H1, H2.
  rewrite Hv, Ct in Hr. apply below_names in Hr as (rs&Er&->); [|apply components_names..].
  assert (Hab : at_or_below virt (b_target b)) by (exists rs; exact Er).
  assert (Hrn : Forall name rs) by (pose proof (components_names virt) as H; rewrite Er in H; by apply Forall_app in H as [_ ?]).
  assert (Ej : join (b_source b) (slashed rs) = path_of (components (b_source b) ++ rs)).
  { unfold clean in Cs. rewrite Cs at 1. apply join_names, components_names. }
  assert (Ec : components (path_of (components (b_source b) ++ rs)) = components (b_source b) ++ rs).
  { apply components_path, Forall_app. split; [apply components_names|done]. }
  exists n1, n2, rs. rewrite Ej. split_and!; [done|done|unfold clean; by rewrite Ec|done| |].
  - intros b' Hb' Hab'. destruct (proj2 (below_clean virt (b_target b') Hv (proj1 (C1 _ Hb'))) Hab') as [r' Hr'].
    apply (longest_deepest virt); [done|apply (C1 _ Hb')|done..|]. apply (H1 (b', r')). by apply elem_candidates.
  - intros b' Hb' Hab'. destruct (proj2 (below_clean virt (b_target b') Hv (proj1 (C2 _ Hb'))) Hab') as [r' Hr'].
    apply (longest_deepest virt); [done|apply (C2 _ Hb')|done..|]. apply (H2 (b', r')). by apply elem_candidates.
Qed.

Lemma rights_at ns real i : clean real → Forall clean_binding ns → 0 <= i →
  Z.testbit (ns_rights_of ns real) i = true ↔ ∃ b, b ∈ ns ∧ at_or_below real (b_source b) ∧ Z.testbit (b_rights b) i = true.
Proof.
  intros Hr Hc Hi. rewrite ns_rights_spec by done. rewrite Forall_forall in Hc.
  split; intros (b&Hb&Hx&Ht); exists b; (split; [done|split; [|done]]); by apply (below_clean real (b_source b) Hr (proj2 (Hc _ Hb))).
Qed.

(** C23: confinement.  For canonical absolute paths, a path that leads
    anywhere real leads through the binding with the deepest target at or
    above it, the last of several: the file has the names of that binding's
    source and then those the path has below the target.  The rights on the
    file are exactly those of the bindings whose source is at or above it.
    A path with no target at or above it leads to a made-up directory when a
    target is below it, and nowhere otherwise.  At or above means that the
    names between the slashes of one path are the first of the other's. *)
Theorem map_confined (ns : Namespace) (virt : text) : clean virt → Forall clean_binding ns →
  match map ns virt with
  | Some (Real real) =>
      (∃ n1 b n2 names, ns = n1 ++ b :: n2 ∧
        components virt = components (b_target b) ++ names ∧
        clean real ∧ components real = components (b_source b) ++ names ∧
        (∀ b', b' ∈ n1 → at_or_below virt (b_target b') → (depth (b_target b') <= depth (b_target b))%nat) ∧
        (∀ b', b' ∈ n2 → at_or_below virt (b_target b') → (depth (b_target b') < depth (b_target b))%nat)) ∧
      (∀ i, 0 <= i → Z.testbit (ns_rights_of ns real) i = true ↔
        ∃ b, b ∈ ns ∧ at_or_below real (b_source b) ∧ Z.testbit (b_rights b) i = true)
  | Some Synthetic => (∀ b, b ∈ ns → ¬ at_or_below virt (b_target b)) ∧ ∃ b, b ∈ ns ∧ at_or_below (b_target b) virt
  | None => ∀ b, b ∈ ns → ¬ at_or_below virt (b_target b) ∧ ¬ at_or_below (b_target b) virt
  end.
Proof.
  intros Hv Hc. unfold map. destruct (max_by_key _ _) as [[b rest]|] eqn:E.
  - apply max_by_key_spec in E as (l1&l2&Ec&H1&H2). destruct (map_real ns virt b rest l1 l2 Hv Hc Ec H1 H2) as (n1&n2&names&H).
    split; [by exists n1, b, n2, names|]. intros i Hi. apply rights_at; [by destruct H as (_&_&?&_)|done..].
  - apply max_by_key_none in E. pose proof (proj1 (none_above ns virt) E) as Hn. clear E. rename Hn into E. pose proof Hc as Hf. rewrite Forall_forall in Hf.
    assert (Hno : ∀ b, b ∈ ns → ¬ at_or_below virt (b_target b)).
    { intros b Hb. rewrite <- (below_clean virt _ Hv (proj1 (Hf b Hb))), (E b Hb). by intros [? ?]. }
    destruct (existsb _ ns) eqn:Ex.
    + split; [done|]. apply existsb_exists in Ex as (b&Hb%list_elem_of_In&Hx). exists b. split; [done|].
      apply below_clean; [apply (Hf b Hb)|done|]. by destruct (below (b_target b) virt).
    + intros b Hb. split; [by apply Hno|]. intros Hx. apply below_clean in Hx as [r Hr]; [|apply (Hf b Hb)|done].
      assert (Ht : existsb (λ b, match below (b_target b) virt with Some _ => true | None => false end) ns = true).
      { apply existsb_exists. exists b. split; [by apply list_elem_of_In|]. by rewrite Hr. }
      congruence.
Qed.

Definition ex_ns : Namespace :=
  [{| b_target := str "/"; b_source := str "/jail"; b_rights := Z.lor READ EXEC |};
   {| b_target := str "/tmp"; b_source := str "/tmp/jail"; b_rights := Z.lor READ WRITE |}].

(** A file under the second binding, and a name that only begins like it. *)
Lemma map_confined_witness :
  map ex_ns (str "/tmp/f") = Some (Real (str "/tmp/jail/f")) ∧
  map ex_ns (str "/tmpf") = Some (Real (str "/jail/tmpf")) ∧
  (∀ i, 0 <= i → Z.testbit (ns_rights_of ex_ns (str "/tmp/jail/f")) i = true ↔
    ∃ b, b ∈ ex_ns ∧ at_or_below (str "/tmp/jail/f") (b_source b) ∧ Z.testbit (b_rights b) i = true).
Proof.
  assert (E : map ex_ns (str "/tmp/f") = Some (Real (str "/tmp/jail/f"))) by reflexivity.
  split; [exact E|]. split; [reflexivity|]. pose proof (map_confined ex_ns (str "/tmp/f")) as H. rewrite E in H.
  apply H; [reflexivity|]. repeat constructor.
Defined.
