(* ===== verification/Builtin.v ===== *)
(** * The policy the kernel is built with ([etc/policy])

    [BUILTIN] of [kernel/src/sec/mod.rs] is the text of [etc/policy]; the
    theorems are about what that policy grants. *)

From S2P Require Import Prelude Text Policy PolicyFacts PolicyParse.

Definition BUILTIN : text := str "# The myos security policy (docs/security.md). The kernel reads it at boot
# (its own copy of this file when /etc/policy does not parse); `sec load
# FILE` makes another one the system's until the next boot. What it does
# not grant is refused, for every user: there is no superuser.
mode enforcing
boot system init
login -> shell

# Users. The uid is the position (root is 0). A user without a password
# can only be entered by a domain with `write` on kernel.users (login);
# one with `login: none` by nobody: system only runs what init starts.
user root    domains: admin shell untrusted   login: admin   home: /home/root
user system  domains: init netd sndd login smoke mount rc   login: none

# Labels: the last rule that matches a file's path names its label;
# `$u` captures a path component as the label's owner.
label /**                    sys.file
label /bin/**                sys.bin
label /lib/**                sys.lib
label /usr/**                sys.lib
label /etc/**                sys.etc
label /etc/policy            sys.policy
label /etc/rc                sys.bin
label /var/run/**            sys.run
label /tmp/**                tmp
label /tmp/apps/**           sys.pkg
label /tmp/dropbear/**       secret(root)
label /data/apps/**          sys.pkg
label /data/alpine/**        sys.pkg
label /data/dropbear/**      secret(root)
label /home/$u/**            home($u)
label /home/$u/.ssh/**       secret($u)
# Where /etc/rc keeps /home: a file has the label of where it is stored.
label /data/home/$u/**       home($u)
label /data/home/$u/.ssh/**  secret($u)
label /tmp/home/$u/**        home($u)
label /tmp/home/$u/.ssh/**   secret($u)
label /mnt/**                mnt
label /dev/**                dev
# The terminals. A pty's or a tty's label is its user's, dev.tty(alice):
# the user of the session that claimed it (a login's, once it enters
# alice), else the user who opened /dev/pts/clone for it; the kernel's
# ttys are nobody's until a getty claims them, as is the console.
# /dev/tty is the caller's own when its session has a terminal.
label /dev/console/**        dev.tty
label /dev/console/kbd       dev
label /dev/console/mouse     dev
# The sound cards' streams: the sound server's (a user plays through it,
# docs/sound.md).
label /dev/sound/**          dev.sound
label /dev/pts/**            dev.tty
label /dev/pts/clone         dev.common
label /dev/ttyS0/**          dev.tty
label /dev/tty1/**           dev.tty
label /dev/tty2/**           dev.tty
label /dev/tty3/**           dev.tty
label /dev/tty4/**           dev.tty
label /dev/tty5/**           dev.tty
label /dev/tty6/**           dev.tty
label /dev/tty7/**           dev.tty
label /dev/tty8/**           dev.tty
label /dev/tty9/**           dev.tty
label /dev/tty               dev.tty
label /dev/null              dev.common
label /dev/zero              dev.common
label /dev/random            dev.common
label /dev/urandom           dev.common
label /dev/event/**          dev.common
label /dev/timer/**          dev.common
label /dev/wait/**           dev.common
label /dev/sig/**            dev.common
label /proc/**               proc
label /net/**                net

# Domains: what a program running for user `self` may do. Kernel objects:
# kernel.modules (insmod, rmmod), kernel.clock (settimeofday),
# kernel.policy (sec load), kernel.users (setuser without a password),
# kernel.power (poweroff, reboot, halt), kernel.mounts (mount, umount: the
# tree changes for every process), proc(user) (signals to that user's
# processes).
domain init:
    sys.file {read} sys.bin {read exec} sys.lib {read} sys.etc {read}
    dev.tty(*) {read write} dev.common {read write} proc {read}
    proc(*) {signal}
domain netd:
    sys.file {read} sys.lib {read} sys.etc {read}
    dev {read write} dev.common {read write} dev.tty {write} proc {read} net {all}
# The sound server (docs/sound.md): /dev/sound's streams, its socket.
domain sndd:
    sys.file {read} sys.lib {read} sys.etc {read}
    dev.sound {read write} dev.common {read write} dev.tty {write} proc {read} net {all}
domain login:
    sys.file {read} sys.bin {read exec} sys.lib {read} sys.etc {read}
    dev.tty(*) {read write setattr} dev.common {read write} proc {read}
    sys.run {read write} kernel.users {write}
# The boot smoke (/bin/custom/ok): mounts and uses the test disks.
domain smoke:
    sys.file {read} sys.bin {read exec} sys.lib {read} sys.etc {read}
    tmp {all} dev {read write} dev.tty(*) {read write} dev.common {read write}
    proc {read} proc(self) {signal} kernel.mounts {write}
# `mount -a` at boot (docs/install.md): the boot disk's ESP at /boot, what
# its fstab (/boot/fstab) lists at /data and under /mnt (/tmp/mnt, bound over it).
domain mount:
    sys.file {read mount} sys.etc {read} tmp {read create mount} mnt {read mount}
    dev {read write} dev.tty {write} dev.common {read write} proc {read}
    kernel.mounts {write}
# The boot script (/etc/rc, docs/install.md): it only becomes root
# (`sec as root`), which runs the rest of it as the administrator.
domain rc:
    sys.file {read} sys.bin {read exec} sys.lib {read} sys.etc {read}
    dev.tty(*) {read write} dev.common {read write} proc {read}
    kernel.users {write}
# The administrator: the whole system, but not other users' secrets.
domain admin:
    sys.file {all} sys.bin {all} sys.lib {all} sys.etc {all} sys.policy {all} sys.run {all}
    sys.pkg {all} tmp {all} mnt {all} dev {all} dev.sound {all} dev.tty(*) {all} dev.common {all}
    proc {all} net {all} unlabeled {all}
    home(*) {all} secret(self) {all}
    kernel.modules {write} kernel.clock {write} kernel.policy {write}
    kernel.users {write} kernel.power {write} kernel.mounts {write}
    proc(*) {signal}
# A user's shell: the system to read and run, their own files and
# terminals, /tmp.
domain shell:
    sys.file {read} sys.bin {read exec} sys.lib {read exec} sys.etc {read}
    sys.pkg {read exec} tmp {all} mnt {read}
    home(self) {all} secret(self) {read write create remove}
    dev.tty(self) {read write setattr} dev.common {read write} proc {read}
    net {read write} proc(self) {signal}
# Programs a user does not trust: read the system and their files, no more.
domain untrusted:
    sys.file {read} sys.bin {read exec} sys.lib {read exec} sys.pkg {read exec}
    home(self) {read} dev.tty(self) {read write} dev.common {read write} proc {read}

# Transitions: exec of these programs enters the domain, for a user whose
# `domains:` list it.
exec /bin/custom/netd    -> netd
exec /bin/custom/sndd    -> sndd
exec /bin/custom/ok      -> smoke
exec /bin/custom/mount   -> mount
exec /etc/rc             -> rc
exec /bin/ubase/getty    -> login
".

Definition builtin : Policy :=
  match parse BUILTIN with Some (Ok p) => p | _ => empty_policy end.

Lemma builtin_parses : parse BUILTIN = Some (Ok builtin).
Proof. vm_compute. reflexivity. Qed.

(** Every rule of the domains numbered from [i] on passes a test. *)
Fixpoint rules_pass (f : Z → Rule → bool) (i : Z) (l : list Domain) : bool :=
  match l with
  | [] => true
  | d :: l' => forallb (f i) (d_rules d) && rules_pass f (i + 1) l'
  end.

Lemma rules_pass_sound f i l d dom r :
  rules_pass f i l = true → 0 <= d → l !! Z.to_nat d = Some dom → r ∈ d_rules dom → f (i + d) r = true.
Proof.
  revert i d. induction l as [|x l IH]; intros i d; cbn [rules_pass]; [done|].
  intros [H1 H2]%andb_true_iff Hd Hl Hr. destruct (decide (d = 0)) as [->|].
  - injection Hl as ->. rewrite forallb_forall in H1. rewrite Z.add_0_r. by apply H1, list_elem_of_In.
  - replace (Z.to_nat d) with (S (Z.to_nat (d - 1))) in Hl by lia.
    replace (i + d) with (i + 1 + (d - 1)) by lia. apply IH; [done|lia|done|done].
Qed.

(** What a test of every rule says of a right on a label. *)
Lemma granted_passes p f user domain label b :
  rules_pass f 0 (p_domains p) = true → granted p user domain label b →
  ∃ r, f domain r = true ∧ rule_covers p (zget (p_users p) user) r label ∧ Z.testbit (r_rights r) b = true.
Proof.
  intros Hf (dom&r&Hd&Hr&Hc&Hb). exists r. split_and!; [|done..].
  assert (H0 := zget_some _ _ _ Hd). rewrite zget_lookup in Hd by lia.
  rewrite <-(Z.add_0_l domain). eapply rules_pass_sound; eauto. lia.
Qed.

(** ** Checks of the whole rule table, for any policy *)

Section checks.
Context (p : Policy).

(** A rule that covers kind [k] covers the process's own user's only. *)
Definition own_rule (k _ : Z) (r : Rule) : bool :=
  match r_kind r with
  | Kind x => negb (x =? k) || match r_param r with PSelfUser => true | _ => false end
  | KAny => false
  end.

Lemma own_only k user domain o b :
  rules_pass (own_rule k) 0 (p_domains p) = true → 0 <= b →
  Z.testbit (rights p user domain {| lb_kind := k; lb_param := Some o |}) b = true →
  ∃ u, zget (p_users p) user = Some u ∧ u_name u = o.
Proof.
  intros Hf Hb H. apply rights_bits in H; [|done].
  assert (∃ r, own_rule k domain r = true ∧
    rule_covers p (zget (p_users p) user) r {| lb_kind := k; lb_param := Some o |}) as (r&Hr&Hk&Ho).
  { destruct H as [H|[_ H]]; apply (granted_passes _ _ _ _ _ _ Hf) in H as (r&?&?&_); by exists r. }
  unfold own_rule in Hr. cbn [lb_kind lb_param] in *. destruct Hk as [Hk|Hk]; rewrite Hk in Hr; [done|].
  rewrite Z.eqb_refl in Hr. cbn [negb orb] in Hr. destruct (r_param r); try done.
  inversion Ho as [| |u E| |]; subst. by exists u.
Qed.

(** Rules that change what has kind [k] and no owner are domain [a]'s. *)
Definition changed_by (a k d : Z) (r : Rule) : bool :=
  (d =? a) || negb (match r_kind r with KAny => true | Kind x => x =? k end) ||
  (Z.land (r_rights r) 30 =? 0).

Lemma changed_only a k user domain b :
  rules_pass (changed_by a k) 0 (p_domains p) = true →
  b = 1 ∨ b = 2 ∨ b = 3 ∨ b = 4 →
  Z.testbit (rights p user domain {| lb_kind := k; lb_param := None |}) b = true → domain = a.
Proof.
  intros Hf Hb H. apply rights_bits in H; [|lia].
  assert (∃ b, (b = 1 ∨ b = 2 ∨ b = 3 ∨ b = 4) ∧
    granted p user domain {| lb_kind := k; lb_param := None |} b) as (b'&Hb'&Hg)
    by (destruct H as [H|[_ H]]; eauto).
  apply (granted_passes _ _ _ _ _ _ Hf) in Hg as (r&Hr&[Hk _]&Ht). unfold changed_by in Hr.
  apply orb_true_iff in Hr as [Hr|Hr]; [apply orb_true_iff in Hr as [Hr|Hr]|].
  - by apply Z.eqb_eq.
  - destruct Hk as [Hk|Hk]; rewrite Hk in Hr; cbn [lb_kind] in Hr; by rewrite ?Z.eqb_refl in Hr.
  - apply Z.eqb_eq in Hr. apply (f_equal (λ x, Z.testbit x b')) in Hr.
    rewrite Z.land_spec, Ht, Z.bits_0 in Hr. by destruct Hb' as [->|[->|[->| ->]]].
Qed.

Lemma no_exec_to a user path :
  forallb (λ e, negb (e_domain e =? a)) (p_execs p) = true → exec_domain p user path ≠ Some a.
Proof.
  intros Hall. unfold exec_domain. destruct (find_exec _ path) as [e|] eqn:E; [|done].
  cbn [mbind option_bind]. destruct (zget _ user); [|done]. cbn [mbind option_bind].
  case_bool_decide; [|done]. intros [= He].
  apply find_exec_last in E as (l1&l2&El&_). rewrite El, forallb_app in Hall. cbn [forallb] in Hall.
  rewrite He, Z.eqb_refl in Hall. by rewrite andb_false_r in Hall.
Qed.

Definition login_of (u : User) : option Z :=
  if u_nologin u then None else match u_login u with Some l => Some l | None => p_login p end.

Lemma login_only a name user :
  forallb (λ u, bool_decide (u_name u = name) || negb (bool_decide (login_of u = Some a))) (p_users p) = true →
  login_domain p user = Some a → ∃ u, zget (p_users p) user = Some u ∧ u_name u = name.
Proof.
  intros Hall. unfold login_domain. destruct (zget (p_users p) user) as [u|] eqn:Eu; [|done].
  cbn [mbind option_bind]. intros Hl. exists u. split; [done|].
  assert (H0 := zget_some _ _ _ Eu). rewrite zget_lookup in Eu by lia.
  apply list_elem_of_lookup_2, list_elem_of_In in Eu. rewrite forallb_forall in Hall.
  apply Hall, orb_true_iff in Eu as [Hu|Hu]; [by apply bool_decide_eq_true in Hu|].
  by rewrite (bool_decide_eq_true_2 _ Hl) in Hu.
Qed.
End checks.

(** ** The kernel's policy *)

Definition secret_kind : Z := default U16_MAX (kind_id builtin (str "secret")).
Definition admin : Z := default U16_MAX (domain_id builtin (str "admin")).

(** C22: under the kernel's own policy no domain, the administrator's
    included, gives a user any right on another user's secrets: a right on
    [secret(o)] is held only by processes of the user named [o]. *)
Theorem builtin_secrets_private (user domain : Z) (o : text) (b : Z) :
  0 <= b →
  Z.testbit (rights builtin user domain {| lb_kind := secret_kind; lb_param := Some o |}) b = true →
  ∃ u, zget (p_users builtin) user = Some u ∧ u_name u = o.
Proof. apply (own_only builtin secret_kind). vm_compute. reflexivity. Qed.

Lemma builtin_secrets_private_witness :
  label_of builtin (str "/home/root/.ssh/id") =
    {| lb_kind := secret_kind; lb_param := Some (str "root") |} ∧
  ∃ u, zget (p_users builtin) 0 = Some u ∧ u_name u = str "root".
Proof.
  split; [vm_compute; reflexivity|].
  apply (builtin_secrets_private 0 7 (str "root") 0); [lia|vm_compute; reflexivity].
Defined.

Lemma kernel_policy_label :
  object_label builtin (str "kernel.policy") None = {| lb_kind := 22; lb_param := None |}.
Proof. vm_compute. reflexivity. Qed.

Lemma policy_file_label :
  label_of builtin (str "/etc/policy") = {| lb_kind := 5; lb_param := None |}.
Proof. vm_compute. reflexivity. Qed.

(** Under the kernel's own policy only the [admin] domain can load a
    policy or change [/etc/policy]; no exec enters that domain, and a login
    enters it only as [root]. *)
Theorem builtin_policy_guarded :
  (∀ user domain,
     contains (rights builtin user domain (object_label builtin (str "kernel.policy") None)) WRITE = true →
     domain = admin) ∧
  (∀ user domain b, b = 1 ∨ b = 2 ∨ b = 3 ∨ b = 4 →
     Z.testbit (rights builtin user domain (label_of builtin (str "/etc/policy"))) b = true →
     domain = admin) ∧
  (∀ user path, exec_domain builtin user path ≠ Some admin) ∧
  (∀ user, login_domain builtin user = Some admin →
     ∃ u, zget (p_users builtin) user = Some u ∧ u_name u = str "root").
Proof.
  rewrite kernel_policy_label, policy_file_label. split; [|split; [|split]].
  - intros user domain Hc. apply (changed_only builtin admin 22 user domain 1);
      [vm_compute; reflexivity|by left|].
    unfold contains, WRITE in Hc. apply Z.eqb_eq, (f_equal (λ x, Z.testbit x 1)) in Hc.
    rewrite Z.land_spec in Hc. by apply andb_true_iff in Hc as [Hc _].
  - intros user domain b. apply (changed_only builtin admin 5). vm_compute. reflexivity.
  - intros user path. apply (no_exec_to builtin admin). vm_compute. reflexivity.
  - intros user. apply (login_only builtin admin (str "root")). vm_compute. reflexivity.
Qed.
