(* ===== verification/Sec.v ===== *)
(** * Access checks ([kernel/src/sec/mod.rs])

    The security context of processes, the checks the system calls make, the
    change of user, and the replacement of the policy.  The state has the
    policy, the processes' contexts and namespaces ([kernel/src/task]) and
    the log of refusals; what the file system and the terminals answer is an
    interface. *)

From stdpp Require Import gmap pretty.
From S2P Require Import Prelude Text Policy Sha256 Ns Builtin.

Open Scope Z_scope.

(** ** State *)

Record Ctx := { c_user : Z; c_domain : Z }.

#[export] Instance Ctx_eq_dec : EqDecision Ctx.
Proof. solve_decision. Defined.

Definition BOOT : Ctx := {| c_user := U16_MAX; c_domain := U16_MAX |}.
Definition GONE : Ctx := {| c_user := U16_MAX - 1; c_domain := U16_MAX - 1 |}.

Record Proc := { pr_ctx : Ctx; pr_ns : option Namespace }.

(** [s_pid] is the current task's process number: a kernel thread's has no
    process. *)
Record Sys := {
  s_policy : option Policy;
  s_procs : gmap nat Proc;
  s_pid : nat;
  s_now : Z;
  s_log_second : Z;
  s_log_count : Z;
  s_console : list text }.

Definition with_policy (s : Sys) (p : option Policy) : Sys :=
  {| s_policy := p; s_procs := s_procs s; s_pid := s_pid s; s_now := s_now s;
     s_log_second := s_log_second s; s_log_count := s_log_count s; s_console := s_console s |}.
Definition with_procs (s : Sys) (m : gmap nat Proc) : Sys :=
  {| s_policy := s_policy s; s_procs := m; s_pid := s_pid s; s_now := s_now s;
     s_log_second := s_log_second s; s_log_count := s_log_count s; s_console := s_console s |}.
Definition with_log (s : Sys) (second count : Z) (console : list text) : Sys :=
  {| s_policy := s_policy s; s_procs := s_procs s; s_pid := s_pid s; s_now := s_now s;
     s_log_second := second; s_log_count := count; s_console := console |}.

(** What the checks ask of the file system ([vfs::canonical], [fs::stat],
    [fs::listdir]) and of the terminals ([pty]). *)
Class Services := {
  sv_canonical : text → option text;
  sv_mode : text → option Z;
  sv_listdir : text → Z → list Z;
  sv_for_session : nat → option Z;
  sv_id_at : text → option Z;
  sv_session_of : Z → option nat;
  sv_opener : Z → option Z }.

(** ** Contexts ([kernel/src/task/mod.rs]) *)

Definition sec_ctx (s : Sys) : option Ctx := pr_ctx <$> s_procs s !! s_pid s.
Definition sec_ctx_of (s : Sys) (pid : nat) : option Ctx := pr_ctx <$> s_procs s !! pid.

Definition set_sec_ctx (ctx : Ctx) (s : Sys) : Sys :=
  match s_procs s !! s_pid s with
  | Some p => with_procs s (<[s_pid s := {| pr_ctx := ctx; pr_ns := pr_ns p |}]> (s_procs s))
  | None => s
  end.

Definition remap_sec_ctx (f : Ctx → Ctx) (s : Sys) : Sys :=
  with_procs s ((λ p, {| pr_ctx := f (pr_ctx p); pr_ns := pr_ns p |}) <$> s_procs s).

Definition ns_rights (s : Sys) (real : text) : Rights :=
  match p ← s_procs s !! s_pid s; pr_ns p with
  | Some n => ns_rights_of n real
  | None => ALL
  end.

(** The ids behind a context: [BOOT] stands for the policy's boot pair. *)
Definition ids (p : Policy) (ctx : Ctx) : Z * Z :=
  if bool_decide (ctx = BOOT) then p_boot p else (c_user ctx, c_domain ctx).

Definition current (s : Sys) : option (Policy * Z * Z) :=
  ctx ← sec_ctx s;
  p ← s_policy s;
  let '(u, d) := ids p ctx in
  Some (p, u, d).

Definition current_uid (s : Sys) : Z :=
  match current s with Some (_, u, _) => u | None => U32_MAX end.

Definition uid_of (s : Sys) (pid : nat) : option Z :=
  ctx ← sec_ctx_of s pid;
  p ← s_policy s;
  Some (ids p ctx).1.

(** ** Labels and rights *)

Section checks.
Context `{SV : Services}.

Definition canonical (real : text) : text := default real (sv_canonical real).

(** [pty::user_of] *)
Definition user_of (s : Sys) (id : Z) : option Z :=
  match sv_session_of id with
  | Some sess => uid_of s sess
  | None =>
      opener ← sv_opener id;
      if opener =? U32_MAX then None else Some opener
  end.

Definition label_at (s : Sys) (p : Policy) (real : text) : Label :=
  let path := canonical real in
  let label := label_of p path in
  match lb_param label with
  | Some _ => label
  | None =>
      let uid :=
        if bool_decide (path = str "/dev/tty")
        then (λ _, current_uid s) <$> sv_for_session (s_pid s)
        else id ← sv_id_at path; user_of s id in
      {| lb_kind := lb_kind label;
         lb_param := u ← uid; u_name <$> zget (p_users p) u |}
  end.

Definition synthetic (real : text) : bool := match real with c :: _ => c =? 64 | [] => false end.

Definition rights_in (s : Sys) (real : text) (ns : Rights) : Rights :=
  if synthetic real then READ
  else match current s with
       | None => ns
       | Some (p, u, d) => Z.land (rights p u d (label_at s p real)) ns
       end.

Definition rights_on (s : Sys) (real : text) : Rights := rights_in s real (ns_rights s real).

Definition LOG_PER_SECOND : Z := 8.

Definition name_or (dash : text) (o : option text) : text := default dash o.

(** The line [refused] logs. *)
Definition refusal (p : Policy) (u d : Z) (what : text) (label : Label) (need : Rights) : text :=
  let kind := kind_name p (lb_kind label) in
  let label := match lb_param label with Some o => kind ++ str "(" ++ o ++ str ")" | None => kind end in
  str "sec: " ++ (if p_enforcing p then str "denied" else str "would deny") ++ str " " ++
  name_or (str "?") (u_name <$> zget (p_users p) u) ++ str "/" ++
  name_or (str "?") (d_name <$> zget (p_domains p) d) ++ str " " ++
  names need ++ str " on " ++ what ++ str " [" ++ label ++ str "]" ++ [10].

Definition refused (p : Policy) (u d : Z) (what : text) (label : Label) (need : Rights) (s : Sys) :
    bool * Sys :=
  let second := s_now s / 1000000000 in
  let count := if negb (s_log_second s =? second) then 0 else s_log_count s in
  let console := if count <? LOG_PER_SECOND then s_console s ++ [refusal p u d what label need]
                 else s_console s in
  (negb (p_enforcing p), with_log s second ((count + 1) mod 2 ^ 32) console).

Definition allowed_in (real : text) (need ns : Rights) (s : Sys) : bool * Sys :=
  if synthetic real then (contains READ need, s)
  else if negb (contains ns need) then (false, s)
  else match current s with
       | None => (true, s)
       | Some (p, u, d) =>
           let label := label_at s p real in
           if contains (rights p u d label) need then (true, s)
           else refused p u d real label need s
       end.

Definition allowed (real : text) (need : Rights) (s : Sys) : bool * Sys :=
  allowed_in real need (ns_rights s real) s.

Definition allowed_object (kind : text) (param : option text) (need : Rights) (s : Sys) : bool * Sys :=
  match current s with
  | None => (true, s)
  | Some (p, u, d) =>
      let label := object_label p kind param in
      if contains (rights p u d label) need then (true, s)
      else refused p u d kind label need s
  end.

Definition may_signal (target : Ctx) (s : Sys) : bool * Sys :=
  match s_policy s with
  | None => (true, s)
  | Some p =>
      let user := (ids p target).1 in
      allowed_object (str "proc") (u_name <$> zget (p_users p) user) SIGNAL s
  end.

(** ** Renames *)

Definition RENAME_LIST_MAX : Z := 256 * 1024.
Definition S_IFMT : Z := 61440.
Definition S_IFDIR : Z := 16384.

Definition is_dir (real : text) : bool :=
  match sv_mode real with Some m => Z.land m S_IFMT =? S_IFDIR | None => false end.

(** [fixed.unwrap_or_else(|| ns_rights(real))] *)
Definition ns_at (s : Sys) (real : text) (fixed : option Rights) : Rights :=
  match fixed with Some r => r | None => ns_rights s real end.

(** The names of one listing: each must be removable where it is and
    creatable where it goes; the directories among them are pushed on the
    stack [todo] (its top first).  [None] is [return false]. *)
Fixpoint check_names (old : text) (old_ns : option Rights) (new : text) (new_ns : option Rights)
    (rel : text) (names : list (list Z)) (todo : list text) (s : Sys) : option (list text) * Sys :=
  match names with
  | [] => (Some todo, s)
  | bytes :: names' =>
      match from_utf8 bytes with
      | None => (None, s)
      | Some name =>
          let sub := rel ++ str "/" ++ name in
          let from := old ++ sub in
          let to := new ++ sub in
          let '(ok, s) := allowed_in from REMOVE (ns_at s from old_ns) s in
          if negb ok then (None, s)
          else
            let '(ok, s) := allowed_in to CREATE (ns_at s to new_ns) s in
            if negb ok then (None, s)
            else check_names old old_ns new new_ns rel names'
                   (if is_dir from then sub :: todo else todo) s
      end
  end.

(** A listing the buffer could not hold is cut short. *)
Definition listing_whole (names : list Z) : bool :=
  negb ((zlen names =? RENAME_LIST_MAX) ||
        ((0 <? zlen names) && negb (bool_decide (last names = Some 10)))).

Definition listing_names (names : list Z) : list (list Z) := words_on (λ b, b =? 10) names.

(** The walk over the names beneath [old]; [None]: out of fuel. *)
Fixpoint rename_walk (fuel : nat) (old : text) (old_ns : option Rights) (new : text)
    (new_ns : option Rights) (todo : list text) (s : Sys) : option (bool * Sys) :=
  match fuel with
  | O => None
  | S fuel' =>
      match todo with
      | [] => Some (true, s)
      | rel :: todo' =>
          let names := sv_listdir (old ++ rel) RENAME_LIST_MAX in
          if negb (listing_whole names) then Some (false, s)
          else
            let '(r, s) := check_names old old_ns new new_ns rel (listing_names names) todo' s in
            match r with
            | None => Some (false, s)
            | Some todo'' => rename_walk fuel' old old_ns new new_ns todo'' s
            end
      end
  end.

Definition may_rename (fuel : nat) (old : text) (old_ns : option Rights) (new : text)
    (new_ns : option Rights) (replaced : bool) (s : Sys) : option (bool * Sys) :=
  let need_new := if replaced then Z.lor CREATE REMOVE else CREATE in
  let '(ok, s) := allowed_in old REMOVE (ns_at s old old_ns) s in
  if negb ok then Some (false, s)
  else
    let '(ok, s) := allowed_in new need_new (ns_at s new new_ns) s in
    if negb ok then Some (false, s)
    else if negb (is_dir old) then Some (true, s)
    else rename_walk fuel old old_ns new new_ns [[]] s.

(** ** Changing the user, and the policy *)

(** [got.iter().zip(want).fold(0u8, |acc, (a, b)| acc | (a ^ b)) == 0] *)
Definition same_bytes (got want : list Z) : bool :=
  foldl (λ acc '(a, b), Z.lor acc (Z.lxor a b)) 0 (zip got want) =? 0.

Definition setuser (name : text) (password : list Z) (s : Sys) : option (bool * Sys) :=
  match s_policy s with
  | None => Some (false, s)
  | Some p =>
      match user_id p name with
      | None => Some (false, s)
      | Some uid =>
          user ← zget (p_users p) uid;
          '(ok, s) ← match u_password user with
            | Some (salt, want) =>
                got ← digest [as_bytes salt; password];
                Some (same_bytes got want, s)
            | None => Some (allowed_object (str "kernel.users") None WRITE s)
            end;
          match (if ok : bool then login_domain p uid else None) with
          | None => Some (false, s)
          | Some domain => Some (true, set_sec_ctx {| c_user := uid; c_domain := domain |} s)
          end
      end
  end.

Definition exec_ctx (s : Sys) (real : text) : option Ctx :=
  ctx ← sec_ctx s;
  p ← s_policy s;
  let user := (ids p ctx).1 in
  domain ← exec_domain p user (canonical real);
  Some {| c_user := user; c_domain := domain |}.

(** The closure [load] remaps the contexts with. *)
Definition remap (old : option Policy) (new : Policy) (c : Ctx) : Ctx :=
  match old with
  | None => c
  | Some old =>
      if bool_decide (c = BOOT) then c
      else
        let user := u ← zget (p_users old) (c_user c); user_id new (u_name u) in
        let domain := d ← zget (p_domains old) (c_domain c); domain_id new (d_name d) in
        match user, domain with
        | Some user, Some domain => {| c_user := user; c_domain := domain |}
        | _, _ => GONE
        end
  end.

Inductive LoadError := NotAllowed | BadPolicy (line : option nat) (m : Msg).

(** The two writes of [load]: the processes' contexts, then the policy. *)
Definition load_contexts (new : Policy) (s : Sys) : Sys := remap_sec_ctx (remap (s_policy s) new) s.
Definition load_policy (new : Policy) (s : Sys) : Sys := with_policy s (Some new).

Definition load (source : text) (s : Sys) : option (result LoadError () * Sys) :=
  let '(ok, s) := allowed_object (str "kernel.policy") None WRITE s in
  if negb ok then Some (Err NotAllowed, s)
  else
    r ← parse source;
    match r with
    | Err (no, m) => Some (Err (BadPolicy no m), s)
    | Ok new => Some (Ok tt, load_policy new (load_contexts new s))
    end.

(** [init], given what [fs::lookup(POLICY_PATH)] finds; the status lines it
    prints are left out. *)
Definition init (image : option (list Z)) (s : Sys) : option Sys :=
  p ← match image ≫= from_utf8 with
      | Some source =>
          r ← parse source;
          match r with Ok p => Some (Some p) | Err _ => Some None end
      | None => Some None
      end;
  match p with
  | Some p => Some (with_policy s (Some p))
  | None =>
      r ← parse BUILTIN;
      match r with Ok p => Some (with_policy s (Some p)) | Err _ => None end
  end.

(** ** What [stat] and [/proc] show *)

Definition mode_bits_in (s : Sys) (real : text) (is_dir : bool) (ns : Rights) : Z :=
  let r := rights_in s real ns in
  let m := 0 in
  let m := if contains r READ then Z.lor m 256 else m in
  let m := if contains r WRITE || (is_dir && contains r CREATE) then Z.lor m 128 else m in
  if contains r EXEC || (is_dir && contains r READ) then Z.lor m 64 else m.

Definition mode_bits (s : Sys) (real : text) (is_dir : bool) : Z :=
  mode_bits_in s real is_dir (ns_rights s real).

Definition owner_uid (s : Sys) (real : text) : Z :=
  if synthetic real then 0
  else match s_policy s with
       | None => 0
       | Some p => default 0 (o ← lb_param (label_at s p real); user_id p o)
       end.
End checks.

Definition decimal (z : Z) : text := str (pretty (Z.to_N z)).

Definition ctx_text (s : Sys) : text :=
  match current s with
  | Some (p, u, d) =>
      decimal u ++ str " " ++ name_or (str "-") (u_name <$> zget (p_users p) u) ++ str " " ++
      name_or (str "-") (d_name <$> zget (p_domains p) d) ++ [10]
  | None => str "- kernel kernel" ++ [10]
  end.

(** [groups.join(",")] *)
Fixpoint join_comma (l : list text) : text :=
  match l with [] => [] | [w] => w | w :: l' => w ++ str "," ++ join_comma l' end.

Definition user_line (p : Policy) (i : nat) (u : User) : text :=
  decimal (Z.of_nat i) ++ str " " ++ u_name u ++ str " " ++ u_home u ++ str " " ++
  join_comma (omap (zget (p_groups p)) (u_groups u)) ++ [10].

Definition users_text (s : Sys) : text :=
  match s_policy s with
  | Some p => concat (imap (user_line p) (p_users p))
  | None => []
  end.
