(* ===== verification/SecFacts.v ===== *)
(** * What the access checks guarantee

    Theorems about [Sec.v]: the checks against the policy's rules, renames
    of whole trees, the change of user, and the replacement of the policy. *)

From stdpp Require Import gmap.
From S2P Require Import Prelude Text Policy PolicyFacts PolicyParse Sha256 Ns Builtin Sec.

Open Scope Z_scope.

(** ** Rights as sets of bits *)

Lemma contains_spec a b :
  contains a b = true ↔ ∀ i, 0 <= i → Z.testbit b i = true → Z.testbit a i = true.
Proof.
  unfold contains. rewrite Z.eqb_eq. split.
  - intros E i Hi Hb. rewrite <-E, Z.land_spec in Hb. by apply andb_true_iff in Hb as [? _].
  - intros H. apply Z.bits_inj'. intros i Hi. rewrite Z.land_spec.
    destruct (Z.testbit b i) eqn:Eb; [by rewrite H|apply andb_false_r].
Qed.

Lemma contains_land a ns need :
  contains (Z.land a ns) need = contains a need && contains ns need.
Proof.
  apply eq_true_iff_eq. rewrite andb_true_iff, !contains_spec. setoid_rewrite Z.land_spec.
  setoid_rewrite andb_true_iff. split.
  - intros H. split; intros i Hi Hb; by apply H.
  - intros [H1 H2] i Hi Hb. auto.
Qed.

(** ** The checks leave all but the log alone *)

(** States that differ in the log of refusals only. *)
Definition sec_eq (s s' : Sys) : Prop :=
  s_policy s = s_policy s' ∧ s_procs s = s_procs s' ∧ s_pid s = s_pid s' ∧ s_now s = s_now s'.

#[export] Instance sec_eq_equiv : Equivalence sec_eq.
Proof.
  split; unfold sec_eq.
  - intros s. done.
  - intros s t (?&?&?&?). done.
  - intros s t u (?&?&?&?) (?&?&?&?). split_and!; by etrans.
Qed.

#[export] Instance current_proper : Proper (sec_eq ==> eq) current.
Proof. intros s t (Hp&Hm&Hi&_). unfold current, sec_ctx. by rewrite Hp, Hm, Hi. Qed.
#[export] Instance ns_rights_proper : Proper (sec_eq ==> eq ==> eq) ns_rights.
Proof. intros s t (_&Hm&Hi&_) ? ? ->. unfold ns_rights. by rewrite Hm, Hi. Qed.
#[export] Instance ns_at_proper : Proper (sec_eq ==> eq ==> eq ==> eq) ns_at.
Proof. intros s t E ? real -> ? [r|] ->; [done|]. by apply ns_rights_proper. Qed.

Section checks.
Context `{SV : Services}.

#[export] Instance label_at_proper : Proper (sec_eq ==> eq ==> eq ==> eq) label_at.
Proof.
  intros s t E ? p -> ? real ->. unfold label_at, current_uid, user_of, uid_of, sec_ctx_of.
  rewrite (current_proper _ _ E). by destruct E as (-> & -> & -> & _).
Qed.

(** The answer of a check, without its log. *)
Definition permits (s : Sys) (real : text) (need ns : Rights) : bool :=
  if synthetic real then contains READ need
  else contains ns need &&
    match current s with
    | None => true
    | Some (p, u, d) => contains (rights p u d (label_at s p real)) need || negb (p_enforcing p)
    end.

Definition permits_object (s : Sys) (kind : text) (param : option text) (need : Rights) : bool :=
  match current s with
  | None => true
  | Some (p, u, d) => contains (rights p u d (object_label p kind param)) need || negb (p_enforcing p)
  end.

#[export] Instance permits_proper : Proper (sec_eq ==> eq ==> eq ==> eq ==> eq) permits.
Proof.
  intros s t E ? real -> ? need -> ? ns ->. unfold permits. rewrite (current_proper _ _ E).
  destruct (current t) as [[[p u] d]|]; [|done]. by rewrite (label_at_proper _ _ E p p eq_refl real real eq_refl).
Qed.

Lemma refused_spec p u d what label need s :
  (refused p u d what label need s).1 = negb (p_enforcing p) ∧
  sec_eq s (refused p u d what label need s).2.
Proof. done. Qed.

Lemma allowed_in_spec real need ns s :
  (allowed_in real need ns s).1 = permits s real need ns ∧ sec_eq s (allowed_in real need ns s).2.
Proof.
  unfold allowed_in, permits. destruct (synthetic real); [done|].
  destruct (contains ns need); [|done]. cbn [negb andb].
  destruct (current s) as [[[p u] d]|]; [|done].
  destruct (contains (rights p u d _) need); [done|]. apply refused_spec.
Qed.

Lemma allowed_object_spec kind param need s :
  (allowed_object kind param need s).1 = permits_object s kind param need ∧
  sec_eq s (allowed_object kind param need s).2.
Proof.
  unfold allowed_object, permits_object. destruct (current s) as [[[p u] d]|]; [|done].
  destruct (contains (rights p u d _) need); [done|]. apply refused_spec.
Qed.

(** C21: complete mediation.  For a process under an enforcing policy,
    [allowed] says yes for a set of rights on a real file exactly when the
    process's namespace has every one of them on that path and some rule of
    its domain grants each on the file's label (a granted [write] standing
    for [append] too); a check changes nothing but the log. *)
Theorem allowed_enforced (s : Sys) (p : Policy) (u d : Z) (real : text) (need : Rights) :
  current s = Some (p, u, d) → p_enforcing p = true → synthetic real = false →
  ((allowed real need s).1 = true ↔
   ∀ b, 0 <= b → Z.testbit need b = true →
     Z.testbit (ns_rights s real) b = true ∧
     (granted p u d (label_at s p real) b ∨ (b = 2 ∧ granted p u d (label_at s p real) 1))) ∧
  sec_eq s (allowed real need s).2.
Proof.
  intros Hc He Hs. unfold allowed. destruct (allowed_in_spec real need (ns_rights s real) s) as [-> Hq].
  split; [|done]. unfold permits. rewrite Hs, Hc, He, orb_false_r, andb_true_iff, !contains_spec. split.
  - intros [H1 H2] b Hb Hn. split; [by apply H1|]. by apply rights_bits, H2.
  - intros H1. split; intros b Hb Hn; [by apply H1|]. by apply rights_bits, H1.
Qed.
End checks.

(** A system with nothing but files: no bind mounts, no terminals. *)
Definition ex_services : Services := {|
  sv_canonical := Some;
  sv_mode := λ path,
    if bool_decide (path = str "/home/alice/d") then Some 16877 else Some 33188;
  sv_listdir := λ path _, if bool_decide (path = str "/home/alice/d") then str "a" ++ [10] else [];
  sv_for_session := λ _, None;
  sv_id_at := λ _, None;
  sv_session_of := λ _, None;
  sv_opener := λ _, None |}.

Definition ex_sys : Sys := {|
  s_policy := Some ex_policy;
  s_procs := {[ 1%nat := {| pr_ctx := BOOT; pr_ns := None |} ]};
  s_pid := 1; s_now := 0; s_log_second := 0; s_log_count := 0; s_console := [] |}.

Lemma allowed_enforced_witness :
  (allowed (SV := ex_services) (str "/home/alice/f") (Z.lor READ APPEND) ex_sys).1 = true ∧
  (allowed (SV := ex_services) (str "/home/bob/f") READ ex_sys).1 = false ∧
  ((allowed (SV := ex_services) (str "/home/bob/f") READ ex_sys).1 = true ↔
   ∀ b, 0 <= b → Z.testbit READ b = true →
     Z.testbit (ns_rights ex_sys (str "/home/bob/f")) b = true ∧
     (granted ex_policy 0 0 (label_at (SV := ex_services) ex_sys ex_policy (str "/home/bob/f")) b ∨
      (b = 2 ∧ granted ex_policy 0 0 (label_at (SV := ex_services) ex_sys ex_policy (str "/home/bob/f")) 1))).
Proof.
  split; [vm_compute; reflexivity|]. split; [vm_compute; reflexivity|].
  apply (allowed_enforced (SV := ex_services) ex_sys ex_policy 0 0); vm_compute; reflexivity.
Defined.

(** ** Renames of whole trees *)

Section renames.
Context `{SV : Services}.
Context (old : text) (old_ns : option Rights) (new : text) (new_ns : option Rights).

Definition listed (rel : text) : list (list Z) :=
  listing_names (sv_listdir (old ++ rel) RENAME_LIST_MAX).

Definition sub_of (rel name : text) : text := rel ++ str "/" ++ name.

(** [c] is a name the directory [rel] lists. *)
Definition child (rel c : text) : Prop :=
  ∃ bytes name, bytes ∈ listed rel ∧ from_utf8 bytes = Some name ∧ c = sub_of rel name.

(** What lies at or beneath [rel]. *)
Inductive under : text → text → Prop :=
| under_self rel : under rel rel
| under_child rel c x : is_dir (old ++ rel) = true → child rel c → under c x → under rel x.

Lemma under_length rel x : under rel x → x = rel ∨ (length rel < length x)%nat.
Proof.
  induction 1 as [|rel c x _ (b&n&_&_&->) _ IH]; [by left|right].
  unfold sub_of in IH. rewrite !length_app in IH. simpl in IH.
  destruct IH as [->|?]; rewrite ?length_app; simpl; lia.
Qed.

(** The name may be removed under [old] and created under [new]. *)
Definition movable (s : Sys) (sub : text) : Prop :=
  permits s (old ++ sub) REMOVE (ns_at s (old ++ sub) old_ns) = true ∧
  permits s (new ++ sub) CREATE (ns_at s (new ++ sub) new_ns) = true.

(** Every name of the directory was seen. *)
Definition seen (rel : text) : Prop :=
  listing_whole (sv_listdir (old ++ rel) RENAME_LIST_MAX) = true ∧
  Forall (λ bytes, is_Some (from_utf8 bytes)) (listed rel).

Lemma movable_eq s s' sub : sec_eq s s' → movable s' sub → movable s sub.
Proof. unfold movable. intros E. by rewrite !E. Qed.

Definition dirs_of (rel : text) (names : list text) : list text :=
  filter (λ c, is_dir (old ++ c) = true) (sub_of rel <$> names).

Lemma check_names_spec rel names todo s r s' :
  check_names old old_ns new new_ns rel names todo s = (r, s') →
  sec_eq s s' ∧ ∀ todo', r = Some todo' →
    Forall (λ bytes, is_Some (from_utf8 bytes)) names ∧
    Forall (λ name, movable s (sub_of rel name)) (omap from_utf8 names) ∧
    todo' = reverse (dirs_of rel (omap from_utf8 names)) ++ todo.
Proof.
  revert todo s. induction names as [|bytes names IH]; intros todo s; cbn [check_names omap list_omap].
  - intros [= <- <-]. split; [done|]. intros ? [= <-]. by split_and!.
  - destruct (from_utf8 bytes) as [name|] eqn:Eu; [|by intros [= <- <-]].
    fold (sub_of rel name). set (sub := sub_of rel name).
    destruct (allowed_in_spec (old ++ sub) REMOVE (ns_at s (old ++ sub) old_ns) s) as [E1 Q1].
    destruct (allowed_in _ REMOVE _ s) as [ok1 s1]. cbn [fst snd] in E1, Q1. subst ok1.
    destruct (permits s (old ++ sub) REMOVE _) eqn:P1; [|by intros [= <- <-]]. cbn [negb].
    destruct (allowed_in_spec (new ++ sub) CREATE (ns_at s1 (new ++ sub) new_ns) s1) as [E2 Q2].
    destruct (allowed_in _ CREATE _ s1) as [ok2 s2]. cbn [fst snd] in E2, Q2. subst ok2.
    rewrite <-!Q1. destruct (permits s (new ++ sub) CREATE _) eqn:P2; cbn [negb].
    2:{ intros [= <- <-]. split; [by etrans|done]. }
    assert (Q : sec_eq s s2) by (by etrans).
    intros Hc. apply IH in Hc as [Q3 Hc]. split; [by etrans|]. intros todo' ->.
    destruct (Hc _ eq_refl) as (?&Hm&->). split; [by constructor|]. split.
    + constructor; [done|]. eapply Forall_impl; [exact Hm|]. intros n. by apply movable_eq.
    + unfold dirs_of. cbn [fmap list_fmap]. fold sub. rewrite list.filter_cons.
      case_decide as Hd; [rewrite Hd, reverse_cons, <-app_assoc; done|].
      by destruct (is_dir (old ++ sub)).
Qed.

Lemma check_names_dirs rel c names :
  child rel c → names = omap from_utf8 (listed rel) → is_dir (old ++ c) = true →
  c ∈ reverse (dirs_of rel names).
Proof.
  intros (bytes&name&Hin&Hu&->) -> Hd. apply elem_of_reverse, list_elem_of_filter. split; [done|].
  apply list_elem_of_fmap_2, list_elem_of_omap. by exists bytes.
Qed.

Lemma dirs_of_dirs rel names : Forall (λ c, is_dir (old ++ c) = true) (reverse (dirs_of rel names)).
Proof. apply Forall_forall. intros c Hc%elem_of_reverse%list_elem_of_filter. apply Hc. Qed.

Lemma rename_walk_sound fuel todo s s' :
  rename_walk fuel old old_ns new new_ns todo s = Some (true, s') →
  Forall (λ c, is_dir (old ++ c) = true) todo →
  sec_eq s s' ∧ ∀ rel x, rel ∈ todo → under rel x →
    (x = rel ∨ movable s x) ∧ (is_dir (old ++ x) = true → seen x).
Proof.
  revert todo s. induction fuel as [|fuel IH]; intros todo s; cbn [rename_walk]; [done|].
  destruct todo as [|rel todo]; [intros [= ->] _; split; [done|by intros ?? ?%not_elem_of_nil]|].
  destruct (listing_whole _) eqn:Ew; [|done]. cbn [negb].
  destruct (check_names _ _ _ _ _ _ _ s) as [[todo'|] s1] eqn:Ec; [|done].
  apply check_names_spec in Ec as [Q1 Hc]. destruct (Hc _ eq_refl) as (Hu&Hm&->).
  intros Hw [Hd Hds]%Forall_cons. apply IH in Hw as [Q2 Hw].
  2:{ apply Forall_app. split; [apply dirs_of_dirs|done]. }
  split; [by etrans|].
  assert (Hw' : ∀ r x, r ∈ reverse (dirs_of rel (omap from_utf8 (listed rel))) ++ todo → under r x →
    (x = r ∨ movable s x) ∧ (is_dir (old ++ x) = true → seen x)).
  { intros r x Hr Hx. destruct (Hw r x Hr Hx) as [[->|Hmx] Hs]; split; auto.
    right. by eapply movable_eq. }
  intros r x [->|Hr]%elem_of_cons Hx; [|apply Hw'; [apply elem_of_app; by right|done]].
  inversion Hx as [|? c ? Hdir Hch Hcx]; subst; [split; [by left|done]|].
  assert (Hmc : movable s c).
  { destruct Hch as (bytes&name&Hin&Hb&->). rewrite Forall_forall in Hm.
    apply Hm, list_elem_of_omap. by exists bytes. }
  destruct (is_dir (old ++ c)) eqn:Edc.
  - destruct (Hw' c x) as [Hx1 Hx2]; [apply elem_of_app; left; by eapply check_names_dirs|done|].
    split; [right; by destruct Hx1 as [->|?]|done].
  - inversion Hcx as [|? c' ? Hdir']; subst; [|congruence]. split; [by right|congruence].
Qed.

(** ** The walk ends *)

Lemma last_sep_inj (x : Z) l l' n n' :
  x ∉ n → x ∉ n' → l ++ x :: n = l' ++ x :: n' → l = l' ∧ n = n'.
Proof.
  intros Hn Hn'. revert l'. induction l as [|y l IH]; intros [|y' l']; cbn [app].
  - by intros [= ->].
  - intros [= -> ->]. destruct Hn. apply elem_of_app. right. by left.
  - intros [= -> <-]. destruct Hn'. apply elem_of_app. right. by left.
  - intros [= -> E]. by destruct (IH _ E) as [-> ->].
Qed.

(** A finite tree: the directories beneath [old] are in [dirs], and a
    directory lists each name once, without a slash in it. *)
Definition finite_tree (dirs : list text) : Prop :=
  [] ∈ dirs ∧
  (∀ rel c, rel ∈ dirs → child rel c → is_dir (old ++ c) = true → c ∈ dirs) ∧
  (∀ rel, rel ∈ dirs → NoDup (omap from_utf8 (listed rel)) ∧
     Forall (λ name : text, 47 ∉ name) (omap from_utf8 (listed rel))).

(** The walk so far: what is done or to do is in the tree, once, and each
    directory but the first was found in one that is done. *)
Definition walking (dirs visited todo : list text) : Prop :=
  NoDup (visited ++ todo) ∧ Forall (λ c, c ∈ dirs) (visited ++ todo) ∧
  ∀ c, c ∈ visited ++ todo →
    c = [] ∨ ∃ rel name, rel ∈ visited ∧ (47 ∉ name) ∧ c = sub_of rel name.

Lemma dirs_of_child rel c :
  c ∈ dirs_of rel (omap from_utf8 (listed rel)) →
  child rel c ∧ is_dir (old ++ c) = true ∧ ∃ name, name ∈ omap from_utf8 (listed rel) ∧ c = sub_of rel name.
Proof.
  intros [Hd (name&->&Hn)%list_elem_of_fmap]%list_elem_of_filter. split_and!; [|done|by exists name].
  apply list_elem_of_omap in Hn as (bytes&?&?). by exists bytes, name.
Qed.

Lemma walking_step dirs visited rel todo :
  finite_tree dirs → walking dirs visited (rel :: todo) →
  walking dirs (rel :: visited) (reverse (dirs_of rel (omap from_utf8 (listed rel))) ++ todo).
Proof.
  intros (_&Hcl&Hnames) (Hnd&Hin&Hpar).
  assert (Hperm : visited ++ (rel :: todo) ≡ₚ rel :: visited ++ todo) by (symmetry; apply Permutation_middle).
  assert (Hrel : rel ∈ dirs). { rewrite Forall_forall in Hin. apply Hin, elem_of_app. right. by left. }
  destruct (Hnames _ Hrel) as [Hnn Hns]. rewrite Forall_forall in Hns.
  rewrite Hperm in Hnd. apply NoDup_cons in Hnd as [Hr Hnd].
  set (new_dirs := reverse (dirs_of rel (omap from_utf8 (listed rel)))).
  assert (Hnew : ∀ c, c ∈ new_dirs → c ∈ dirs ∧ ∃ name, (47 ∉ name) ∧ c = sub_of rel name).
  { intros c (Hc&Hd&name&Hn&->)%elem_of_reverse%dirs_of_child. split; [by eapply Hcl|]. exists name. auto. }
  assert (Hfresh : ∀ c, c ∈ new_dirs → c ∉ rel :: visited ++ todo).
  { intros c Hc Hc'. destruct (Hnew c Hc) as (_&name&Hn&->).
    assert (Hc2 : sub_of rel name ∈ visited ++ (rel :: todo)) by (by rewrite Hperm).
    destruct (Hpar _ Hc2) as [E|(rel'&name'&Hv&Hn'&E)]; [by destruct rel|].
    apply last_sep_inj in E as [-> _]; [|done..]. apply Hr, elem_of_app. by left. }
  assert (Hp2 : (rel :: visited) ++ new_dirs ++ todo ≡ₚ new_dirs ++ (rel :: visited ++ todo)).
  { cbn [app]. rewrite (Permutation_app_swap_app visited new_dirs todo). apply Permutation_middle. }
  split; [|split].
  - rewrite Hp2. apply NoDup_app. split; [|split; [done|by apply NoDup_cons]].
    unfold new_dirs. rewrite reverse_Permutation. apply NoDup_filter, NoDup_fmap_2_strong; [|done].
    intros n n' H1 H2 E. apply last_sep_inj in E as [_ ->]; auto.
  - rewrite Hp2. apply Forall_app. split; [apply Forall_forall; intros c Hc; by apply Hnew|].
    by rewrite <-Hperm.
  - intros c. rewrite Hp2. intros [Hc|Hc]%elem_of_app.
    + destruct (Hnew c Hc) as (_&name&?&->). right. exists rel, name. split; [by left|done].
    + rewrite <-Hperm in Hc. destruct (Hpar _ Hc) as [->|(r&n&?&?&->)]; [by left|].
      right. exists r, n. split; [by right|done].
Qed.

Lemma rename_walk_ends dirs fuel visited todo s :
  finite_tree dirs → walking dirs visited todo → (length dirs < fuel + length visited)%nat →
  is_Some (rename_walk fuel old old_ns new new_ns todo s).
Proof.
  intros Ht. revert visited todo s. induction fuel as [|fuel IH]; intros visited todo s Hw Hf.
  - destruct Hw as (Hnd&Hin&_). apply NoDup_app in Hnd as [Hnd _]. apply Forall_app in Hin as [Hin _].
    rewrite Forall_forall in Hin.
    assert (length visited ≤ length dirs)%nat; [|lia].
    by apply submseteq_length, NoDup_submseteq.
  - cbn [rename_walk]. destruct todo as [|rel todo]; [done|]. case_if; [done|].
    destruct (check_names _ _ _ _ _ _ _ s) as [[todo'|] s1] eqn:Ec; [|done].
    apply check_names_spec in Ec as [_ Hc]. destruct (Hc _ eq_refl) as (_&_&->).
    apply (IH (rel :: visited)); [by apply walking_step|cbn [length]; lia].
Qed.

Lemma rename_walk_eq fuel todo s b s' :
  rename_walk fuel old old_ns new new_ns todo s = Some (b, s') → sec_eq s s'.
Proof.
  revert todo s. induction fuel as [|fuel IH]; intros todo s; cbn [rename_walk]; [done|].
  destruct todo as [|rel todo]; [by intros [= _ <-]|]. case_if; [by intros [= _ <-]|].
  destruct (check_names _ _ _ _ _ _ _ s) as [r s1] eqn:Ec. apply check_names_spec in Ec as [Q _].
  destruct r as [todo'|]; [|by intros [= _ <-]]. intros Hw. etrans; [exact Q|]. by eapply IH.
Qed.

(** ** A refusal has its reason *)

Lemma check_names_refuses rel names todo s s' :
  check_names old old_ns new new_ns rel names todo s = (None, s') →
  ~ (Forall (λ bytes, is_Some (from_utf8 bytes)) names ∧
     Forall (λ name, movable s (sub_of rel name)) (omap from_utf8 names)).
Proof.
  revert todo s. induction names as [|bytes names IH]; intros todo s; cbn [check_names omap list_omap]; [done|].
  destruct (from_utf8 bytes) as [name|] eqn:Eu; [|intros _ [[[? ?] _]%Forall_cons _]; congruence].
  fold (sub_of rel name). set (sub := sub_of rel name).
  destruct (allowed_in_spec (old ++ sub) REMOVE (ns_at s (old ++ sub) old_ns) s) as [E1 Q1].
  destruct (allowed_in _ REMOVE _ s) as [ok1 s1]. cbn [fst snd] in E1, Q1. subst ok1.
  destruct (permits s (old ++ sub) REMOVE _) eqn:P1; cbn [negb].
  2:{ intros _ [_ [[Hm _] _]%Forall_cons]. subst sub. congruence. }
  destruct (allowed_in_spec (new ++ sub) CREATE (ns_at s1 (new ++ sub) new_ns) s1) as [E2 Q2].
  destruct (allowed_in _ CREATE _ s1) as [ok2 s2]. cbn [fst snd] in E2, Q2. subst ok2.
  rewrite <-!Q1. destruct (permits s (new ++ sub) CREATE _) eqn:P2; cbn [negb].
  2:{ intros _ [_ [[_ Hm] _]%Forall_cons]. subst sub. congruence. }
  assert (Q : sec_eq s s2) by (by etrans).
  intros Hc [[_ Hu]%Forall_cons [_ Hm]%Forall_cons]. apply (IH _ _ Hc). split; [done|].
  eapply Forall_impl; [exact Hm|]. intros n. apply movable_eq. by symmetry.
Qed.

Lemma rename_walk_refuses fuel todo s s' :
  rename_walk fuel old old_ns new new_ns todo s = Some (false, s') →
  Forall (λ c, is_dir (old ++ c) = true) todo →
  ~ ∀ rel x, rel ∈ todo → under rel x → (x = rel ∨ movable s x) ∧ (is_dir (old ++ x) = true → seen x).
Proof.
  revert todo s. induction fuel as [|fuel IH]; intros todo s; cbn [rename_walk]; [done|].
  destruct todo as [|rel todo]; [done|]. intros Hw [Hd Hds]%Forall_cons Hall.
  assert (Hself : seen rel) by (apply (Hall rel rel); [by left|constructor|done]).
  destruct Hself as [Hwhole Hutf]. rewrite Hwhole in Hw. cbn [negb] in Hw.
  assert (Hmov : Forall (λ name, movable s (sub_of rel name)) (omap from_utf8 (listed rel))).
  { apply Forall_forall. intros name Hn. apply list_elem_of_omap in Hn as (bytes&Hb&Hu).
    destruct (Hall rel (sub_of rel name)) as [[E|?] _]; [by left| | |done].
    - eapply under_child; [done|by exists bytes, name|constructor].
    - exfalso. unfold sub_of in E. apply (f_equal length) in E. rewrite !length_app in E. simpl in E. lia. }
  destruct (check_names _ _ _ _ _ _ _ s) as [[todo'|] s1] eqn:Ec.
  - apply check_names_spec in Ec as [Q Hc]. destruct (Hc _ eq_refl) as (_&_&->).
    apply (IH _ _ Hw); [apply Forall_app; split; [apply dirs_of_dirs|done]|].
    intros r x [Hr|Hr]%elem_of_app Hx.
    + apply elem_of_reverse, dirs_of_child in Hr as (Hch&Hdc&_).
      destruct (Hall rel x) as [Hm Hs]; [by left|by eapply under_child|]. split; [|done].
      destruct (under_length _ _ Hx) as [->|?]; [by left|].
      right. apply (movable_eq _ s); [by symmetry|]. destruct Hm as [->|?]; [|done].
      destruct Hch as (?&?&_&_&->). unfold sub_of in *. rewrite !length_app in *. simpl in *. lia.
    + destruct (Hall r x) as [Hm Hs]; [by right|done|]. split; [|done].
      destruct Hm as [->|?]; [by left|]. right. by apply (movable_eq _ s); [symmetry|].
  - apply check_names_refuses in Ec. by apply Ec.
Qed.
End renames.

(** A rename of a directory tree grants nothing that creating and
    removing the names one by one would not.  On a finite tree [may_rename]
    returns, and says yes exactly when the old name may be removed and the
    new one created (a replaced file removed), every name beneath the old
    one may be removed where it is and created where it goes, and every
    directory's listing was whole and readable; nothing but the log changes. *)
Theorem may_rename_exact `{SV : Services} (old : text) (old_ns : option Rights) (new : text)
    (new_ns : option Rights) (replaced : bool) (s : Sys) (dirs : list text) (fuel : nat) :
  finite_tree old dirs → (length dirs < fuel)%nat →
  ∃ b s', may_rename fuel old old_ns new new_ns replaced s = Some (b, s') ∧ sec_eq s s' ∧
    (b = true ↔
     permits s old REMOVE (ns_at s old old_ns) = true ∧
     permits s new (if replaced then Z.lor CREATE REMOVE else CREATE) (ns_at s new new_ns) = true ∧
     (is_dir old = true → ∀ x, under old [] x →
        (x = [] ∨ movable old old_ns new new_ns s x) ∧ (is_dir (old ++ x) = true → seen old x))).
Proof.
  intros Ht Hf. unfold may_rename.
  destruct (allowed_in_spec old REMOVE (ns_at s old old_ns) s) as [E1 Q1].
  destruct (allowed_in old _ _ s) as [ok1 s1]. cbn [fst snd] in E1, Q1. subst ok1.
  destruct (permits s old REMOVE _) eqn:P1; cbn [negb].
  2:{ exists false, s1. split; [done|]. split; [done|]. split; [done|]. by intros [? _]. }
  set (need := if replaced then _ else _).
  destruct (allowed_in_spec new need (ns_at s1 new new_ns) s1) as [E2 Q2].
  destruct (allowed_in new _ _ s1) as [ok2 s2]. cbn [fst snd] in E2, Q2. subst ok2.
  assert (E2 : permits s1 new need (ns_at s1 new new_ns) = permits s new need (ns_at s new new_ns))
    by (by rewrite <-!Q1).
  rewrite E2. assert (Q : sec_eq s s2) by (by etrans).
  destruct (permits s new need _) eqn:P2; cbn [negb].
  2:{ exists false, s2. split; [done|]. split; [done|]. split; [done|]. by intros (_&?&_). }
  destruct (is_dir old) eqn:Ed; cbn [negb]; [|by exists true, s2].
  assert (Hd : Forall (λ c, is_dir (old ++ c) = true) [[]])
    by (apply Forall_singleton; by rewrite app_nil_r).
  destruct (rename_walk_ends old old_ns new new_ns dirs fuel [] [[]] s2) as [[b s3] Hw]; [done| |simpl; lia|].
  { split; [apply NoDup_singleton|]. split; [apply Forall_singleton; apply Ht|].
    intros c Hc%list_elem_of_singleton. by left. }
  exists b, s3. split; [done|]. destruct b.
  - apply rename_walk_sound in Hw as [Q3 Hw]; [|done]. split; [by etrans|]. split; [|done].
    intros _. split_and!; [done..|]. intros _ x Hx. destruct (Hw [] x) as [Hm Hs]; [by left|done|].
    split; [|done]. destruct Hm as [->|Hm]; [by left|]. right. by eapply movable_eq.
  - split; [etrans; [exact Q|]; by eapply rename_walk_eq|]. split; [done|]. intros (_&_&Hall).
    apply rename_walk_refuses in Hw; [|done]. exfalso. apply Hw. intros rel x ->%list_elem_of_singleton Hx.
    destruct (Hall eq_refl x Hx) as [Hm Hs]. split; [|done]. destruct Hm as [->|Hm]; [by left|].
    right. apply (movable_eq _ _ _ _ _ s); [by symmetry|done].
Qed.

Lemma may_rename_exact_witness :
  ∃ b s', may_rename (SV := ex_services) 3 (str "/home/alice/d") None (str "/home/alice/e") None false ex_sys
    = Some (b, s') ∧ sec_eq ex_sys s' ∧ b = true.
Proof.
  destruct (may_rename_exact (SV := ex_services) (str "/home/alice/d") None (str "/home/alice/e") None false
    ex_sys [[]] 3) as (b&s'&E&Hq&_).
  - split; [by left|]. split.
    + intros rel c ->%list_elem_of_singleton (bytes&name&Hin&Hu&->) Hd.
      change (listed (SV := ex_services) (str "/home/alice/d") []) with [[97]] in Hin.
      apply list_elem_of_singleton in Hin as ->. injection Hu as <-. by vm_compute in Hd.
    + intros rel ->%list_elem_of_singleton.
      change (listed (SV := ex_services) (str "/home/alice/d") []) with [[97]].
      split; [apply NoDup_singleton|]. apply Forall_singleton. by intros ?%list_elem_of_singleton.
  - simpl. lia.
  - exists b, s'. split; [done|]. split; [done|].
    vm_compute in E. by injection E.
Defined.

(** ** Replacing the policy *)

Lemma as_u16_exact i : Z.of_nat i < 2 ^ 16 → as_u16 i = Z.of_nat i.
Proof. intros. unfold as_u16. apply Z.mod_small. lia. Qed.

(** An identifier of a table that fits [u16] names its entry. *)
Lemma id_exact {A} (f : A → text) (l : list A) name i :
  zlen l <= 2 ^ 16 → as_u16 <$> position name (f <$> l) = Some i →
  ∃ x, zget l i = Some x ∧ f x = name.
Proof.
  intros Hl. destruct (position name (f <$> l)) as [j|] eqn:E; [|done]. intros [= <-].
  apply position_lookup in E. rewrite list_lookup_fmap in E.
  destruct (l !! j) as [x|] eqn:Ex; [|done]. injection E as <-. exists x. split; [|done].
  assert (Hj := lookup_lt_Some _ _ _ Ex). rewrite as_u16_exact by lia.
  rewrite zget_lookup by lia. by rewrite Nat2Z.id.
Qed.

(** The names behind a pair of identifiers. *)
Definition names_of (p : Policy) (ud : Z * Z) : option text * option text :=
  (u_name <$> zget (p_users p) ud.1, d_name <$> zget (p_domains p) ud.2).

(** A table size every identifier of which is distinct from [GONE]'s. *)
Definition small (p : Policy) : Prop := zlen (p_users p) < U16_MAX ∧ zlen (p_domains p) < U16_MAX.

Lemma gone_no_rights p label : small p → rights p (c_user GONE) (c_domain GONE) label = NONE.
Proof.
  intros [_ Hd]. unfold rights. destruct (zget (p_domains p) _) as [d|] eqn:E; [|done].
  apply zget_some in E. unfold GONE in E. cbn [c_domain] in E. unfold U16_MAX in *. lia.
Qed.

Lemma remap_spec old new c :
  small new → c ≠ BOOT →
  (names_of new (ids new (remap (Some old) new c)) = names_of old (ids old c) ∧
   is_Some (names_of old (ids old c)).1 ∧ is_Some (names_of old (ids old c)).2) ∨
  (remap (Some old) new c = GONE ∧
   ((u ← zget (p_users old) (c_user c); user_id new (u_name u)) = None ∨
    (d ← zget (p_domains old) (c_domain c); domain_id new (d_name d)) = None)).
Proof.
  intros [Hsu Hsd] Hb. unfold remap. rewrite bool_decide_eq_false_2 by done.
  destruct (zget (p_users old) (c_user c)) as [u|] eqn:Eu; cbn [mbind option_bind]; [|by auto].
  destruct (user_id new (u_name u)) as [u'|] eqn:Eu'; [|by auto].
  destruct (zget (p_domains old) (c_domain c)) as [d|] eqn:Ed; cbn [mbind option_bind]; [|by auto].
  destruct (domain_id new (d_name d)) as [d'|] eqn:Ed'; [|by auto].
  left. assert (Hu16 : zlen (p_users new) <= 2 ^ 16) by (unfold U16_MAX in *; lia).
  assert (Hd16 : zlen (p_domains new) <= 2 ^ 16) by (unfold U16_MAX in *; lia).
  destruct (id_exact u_name _ _ _ Hu16 Eu') as (x&Hx&Ex).
  destruct (id_exact d_name _ _ _ Hd16 Ed') as (y&Hy&Ey).
  unfold ids. rewrite !bool_decide_eq_false_2; [|done|].
  2:{ intros [= -> _]. apply zget_some in Hx. unfold U16_MAX in *. lia. }
  unfold names_of. cbn [fst snd c_user c_domain]. rewrite Hx, Hy, Eu, Ed. cbn [fmap option_fmap option_map].
  rewrite Ex, Ey. by split.
Qed.

(** A process keeps its user and domain by name when the policy is
    replaced.  After a successful [load], every process other than one still
    at the boot context runs under the new policy for the user and in the
    domain of the same names, or, when the new policy lacks one of them, has
    no right on anything; namespaces and the set of processes are unchanged. *)
Theorem load_keeps_names (source : text) (old new : Policy) (s s' : Sys) :
  s_policy s = Some old → parse source = Some (Ok new) → small new →
  load source s = Some (Ok tt, s') →
  s_policy s' = Some new ∧
  ∀ pid proc, s_procs s !! pid = Some proc →
    ∃ proc', s_procs s' !! pid = Some proc' ∧ pr_ns proc' = pr_ns proc ∧
      (pr_ctx proc = BOOT ∧ pr_ctx proc' = BOOT ∨
       names_of new (ids new (pr_ctx proc')) = names_of old (ids old (pr_ctx proc)) ∨
       ∀ label, rights new (ids new (pr_ctx proc')).1 (ids new (pr_ctx proc')).2 label = NONE).
Proof.
  intros Hp Hparse Hsm. unfold load.
  destruct (allowed_object_spec (str "kernel.policy") None WRITE s) as [_ Q].
  destruct (allowed_object _ _ _ s) as [ok s1]. cbn [fst snd] in Q. destruct ok; [|done]. cbn [negb].
  rewrite Hparse. cbn [mbind option_bind]. intros [= <-]. split; [done|]. intros pid proc Hpid.
  destruct Q as (Qp&Qm&_). unfold load_policy, load_contexts, remap_sec_ctx, with_policy, with_procs.
  cbn [s_procs]. rewrite lookup_fmap, <-Qm, Hpid, <-Qp, Hp. cbn [fmap option_fmap option_map].
  eexists. split; [done|]. split; [done|]. cbn [pr_ctx].
  destruct (decide (pr_ctx proc = BOOT)) as [Hb|Hb].
  - left. split; [done|]. unfold remap. by rewrite bool_decide_eq_true_2.
  - right. destruct (remap_spec old new _ Hsm Hb) as [[? _]|[-> _]]; [by left|right].
    intros label. unfold ids. rewrite bool_decide_eq_false_2 by done. by apply gone_no_rights.
Qed.

(** The example policy with its domains in the other order. *)
Definition ex_text2 : text := str "boot alice shell
user alice groups: staff domains: shell editor
domain editor: *(group) {all}
domain shell: home(self) {read}
".

Definition ex_policy2 : Policy :=
  match parse ex_text2 with Some (Ok p) => p | _ => empty_policy end.

(** Process 5 is alice's shell; the kernel itself replaces the policy. *)
Definition ex_sys5 : Sys := {|
  s_policy := Some ex_policy;
  s_procs := {[ 5%nat := {| pr_ctx := {| c_user := 0; c_domain := 0 |}; pr_ns := None |} ]};
  s_pid := 0; s_now := 0; s_log_second := 0; s_log_count := 0; s_console := [] |}.

Definition ex_loaded : Sys := load_policy ex_policy2 (load_contexts ex_policy2 ex_sys5).

Lemma load_keeps_names_witness :
  ∃ proc', s_procs ex_loaded !! 5%nat = Some proc' ∧
    pr_ctx proc' = {| c_user := 0; c_domain := 1 |} ∧
    names_of ex_policy2 (ids ex_policy2 (pr_ctx proc')) = (Some (str "alice"), Some (str "shell")).
Proof.
  destruct (load_keeps_names ex_text2 ex_policy ex_policy2 ex_sys5 ex_loaded)
    as [_ H]; [vm_compute; reflexivity|vm_compute; reflexivity|by split|vm_compute; reflexivity|].
  destruct (H 5%nat {| pr_ctx := {| c_user := 0; c_domain := 0 |}; pr_ns := None |})
    as (proc'&E&_&_); [vm_compute; reflexivity|].
  exists proc'. split; [exact E|]. vm_compute in E. injection E as <-. by split; vm_compute.
Defined.

Definition rights_of (s : Sys) (pid : nat) (label : Label) : Rights :=
  match s_procs s !! pid, s_policy s with
  | Some proc, Some p => let '(u, d) := ids p (pr_ctx proc) in rights p u d label
  | _, _ => NONE
  end.

(** Between the two writes of [load] the new identifiers are read in the old
    tables: a process whose domain has no right on a label, under the old
    policy and under the new one, has every right on it there. *)
Theorem load_window_mixes_policies :
  ∃ label,
    rights_of ex_sys5 5 label = NONE ∧
    rights_of (load_contexts ex_policy2 ex_sys5) 5 label = ALL ∧
    rights_of (load_policy ex_policy2 (load_contexts ex_policy2 ex_sys5)) 5 label = NONE.
Proof. exists {| lb_kind := 9; lb_param := Some (str "staff") |}. vm_compute. by split_and!. Qed.

(** ** Changing the user *)

Lemma same_bytes_spec got want :
  length got = length want → same_bytes got want = true ↔ got = want.
Proof.
  intros Hl. unfold same_bytes. rewrite Z.eqb_eq.
  assert (H : ∀ acc, foldl (λ acc '(a, b), Z.lor acc (Z.lxor a b)) acc (zip got want) = 0 ↔
    acc = 0 ∧ got = want); [|rewrite H; tauto].
  revert want Hl. induction got as [|a got IH]; intros [|b want] Hl acc; try done; cbn [zip_with foldl].
  - tauto.
  - rewrite IH by (simpl in Hl; lia). rewrite Z.lor_eq_0_iff, Z.lxor_eq_0_iff. split.
    + by intros [[-> ->] ->].
    + by intros [-> [= -> ->]].
Qed.

(** What lets a process become user [u]. *)
Definition may_become (s : Sys) (u : User) (password : list Z) : Prop :=
  match u_password u with
  | Some (salt, want) => sha256 (as_bytes salt ++ password) = want
  | None => permits_object s (str "kernel.users") None WRITE = true
  end.

(** [setuser] succeeds exactly when the user exists, has a login domain
    (its own or the policy's, and is not marked [login: none]), and either
    the SHA-256 of its salt and the password is its digest or, having no
    password, the caller may write [kernel.users].  On success the calling
    process runs as that user in that domain, every other process as before;
    a failure changes no process. *)
Theorem setuser_exact (name : text) (password : list Z) (s : Sys) (p : Policy) :
  s_policy s = Some p → wf_policy p → zlen (p_users p) <= 2 ^ 16 →
  Forall (λ u, ∀ salt d, u_password u = Some (salt, d) →
    8 * (zlen (as_bytes salt) + zlen password) < 2 ^ 64) (p_users p) →
  ∃ ok s', setuser name password s = Some (ok, s') ∧
    (ok = true ↔ ∃ uid u d, user_id p name = Some uid ∧ zget (p_users p) uid = Some u ∧
       u_name u = name ∧ login_domain p uid = Some d ∧ may_become s u password) ∧
    (ok = false → sec_eq s s') ∧
    (ok = true → ∀ uid d, user_id p name = Some uid → login_domain p uid = Some d →
       ∀ pid, pr_ctx <$> s_procs s' !! pid =
         (if decide (pid = s_pid s) then (λ _, {| c_user := uid; c_domain := d |}) <$> s_procs s !! pid
          else pr_ctx <$> s_procs s !! pid)).
Proof.
  intros Hp Hwf Hn Hpw. unfold setuser. rewrite Hp.
  destruct (user_id p name) as [uid|] eqn:Eid.
  2:{ exists false, s. split_and!; try done. split; [done|]. by intros (?&?&?&?&_). }
  destruct (id_exact u_name (p_users p) name uid Hn Eid) as (u&Hu&Hname).
  rewrite Hu. cbn [mbind option_bind].
  assert (Hin : u ∈ p_users p).
  { assert (H0 := zget_some _ _ _ Hu). rewrite zget_lookup in Hu by lia. by eapply list_elem_of_lookup_2. }
  assert (∃ ok s1, match u_password u with
      | Some (salt, want) => got ← digest [as_bytes salt; password]; Some (same_bytes got want, s)
      | None => Some (allowed_object (str "kernel.users") None WRITE s) end = Some (ok, s1) ∧
    sec_eq s s1 ∧ (ok = true ↔ may_become s u password)) as (ok&s1&->&Q&Hok).
  { unfold may_become. destruct (u_password u) as [[salt want]|] eqn:Ep.
    - rewrite Forall_forall in Hpw. specialize (Hpw _ Hin _ _ Ep).
      assert (Hw := wf_users p (proj1 Hwf)). rewrite Forall_forall in Hw.
      destruct (Hw _ Hin) as [(_&_&_&Hd) _]. destruct (Hd _ _ Ep) as [Hlen _].
      rewrite digest_spec by (cbn [concat]; rewrite app_nil_r, length_app; lia).
      cbn [mbind option_bind concat]. rewrite app_nil_r. eexists _, s. split; [done|]. split; [done|].
      apply same_bytes_spec. by rewrite sha256_length.
    - destruct (allowed_object_spec (str "kernel.users") None WRITE s) as [<- Q].
      destruct (allowed_object _ _ _ s) as [b s1]. by exists b, s1. }
  cbn [mbind option_bind]. destruct ok; [destruct (login_domain p uid) as [d|] eqn:El|].
  - eexists true, _. split; [done|]. split; [|split; [done|]].
    + split; [|done]. intros _. exists uid, u, d. split_and!; try done. by apply Hok.
    + intros _ uid' d' [= <-] Hd' pid. rewrite El in Hd'. injection Hd' as <-. destruct Q as (_&Qm&Qi&_). unfold set_sec_ctx. rewrite <-Qm, <-Qi.
      destruct (s_procs s !! s_pid s) as [q|] eqn:Eq; cbn [s_procs with_procs]; case_decide.
      * subst pid. by rewrite lookup_insert_eq, Eq.
      * by rewrite lookup_insert_ne.
      * subst pid. by rewrite <-Qm, Eq.
      * by rewrite <-Qm.
  - exists false, s1. split; [done|]. split; [|by split].
    split; [done|]. intros (?&?&?&[= <-]&_&_&?&_). congruence.
  - exists false, s1. split; [done|]. split; [|by split].
    split; [done|]. intros (uid'&u'&?&[= <-]&Hu'&_&_&Hb). rewrite Hu in Hu'. injection Hu' as <-. by apply Hok in Hb.
Qed.

Definition ex_text3 : text := str "boot guest lobby
domain lobby: sys {read}
domain shell: sys {all}
user guest domains: lobby
user alice login: shell password: sha256:salt:e2a09fdfe1fc084834f98b4e7e83008a137d7c1b1b48e55b81f22d72172923ea
".

Definition ex_policy3 : Policy :=
  match parse ex_text3 with Some (Ok p) => p | _ => empty_policy end.

Definition ex_sys3 : Sys := {|
  s_policy := Some ex_policy3;
  s_procs := {[ 1%nat := {| pr_ctx := BOOT; pr_ns := None |} ]};
  s_pid := 1; s_now := 0; s_log_second := 0; s_log_count := 0; s_console := [] |}.

Lemma setuser_exact_witness :
  ∃ s', setuser (str "alice") (str "open") ex_sys3 = Some (true, s') ∧
    pr_ctx <$> s_procs s' !! 1%nat = Some {| c_user := 1; c_domain := 1 |}.
Proof.
  assert (Hwf : wf_policy ex_policy3).
  { pose proof (parse_runs ex_text3) as H.
    assert (E : parse ex_text3 = Some (Ok ex_policy3)) by (vm_compute; reflexivity).
    by rewrite E in H. }
  destruct (setuser_exact (str "alice") (str "open") ex_sys3 ex_policy3)
    as (ok&s'&E&Hok&_&Hctx); [vm_compute; reflexivity|exact Hwf|by vm_compute| |].
  { assert (Hb : forallb (λ u, match u_password u with
      | Some (salt, _) => 8 * (zlen (as_bytes salt) + zlen (str "open")) <? 2 ^ 64
      | None => true end) (p_users ex_policy3) = true) by (vm_compute; reflexivity).
    apply Forall_forall. intros u Hu%list_elem_of_In salt d Hs.
    rewrite forallb_forall in Hb. specialize (Hb u Hu). rewrite Hs in Hb. by apply Z.ltb_lt. }
  assert (Etrue : fst <$> setuser (str "alice") (str "open") ex_sys3 = Some true) by (vm_compute; reflexivity).
  rewrite E in Etrue. injection Etrue as ->. exists s'. split; [exact E|].
  rewrite (Hctx eq_refl 1 1); vm_compute; reflexivity.
Defined.

(** ** What [stat] shows *)

(** The mode bits [stat] shows promise nothing the checks refuse: an
    owner bit that is set stands for rights the process is allowed to use on
    the file (for a directory, [w] may stand for [create] and [x] for
    [read]). *)
Theorem mode_bits_sound `{SV : Services} (s : Sys) (real : text) (dir : bool) (ns : Rights) :
  let m := mode_bits_in s real dir ns in
  (Z.testbit m 8 = true → (allowed_in real READ ns s).1 = true) ∧
  (Z.testbit m 7 = true →
     (allowed_in real WRITE ns s).1 = true ∨ (dir = true ∧ (allowed_in real CREATE ns s).1 = true)) ∧
  (Z.testbit m 6 = true →
     (allowed_in real EXEC ns s).1 = true ∨ (dir = true ∧ (allowed_in real READ ns s).1 = true)) ∧
  0 <= m < 512 ∧ Z.land m 63 = 0.
Proof.
  assert (Hr : ∀ need, contains (rights_in s real ns) need = true → (allowed_in real need ns s).1 = true).
  { intros need. destruct (allowed_in_spec real need ns s) as [-> _]. unfold rights_in, permits.
    destruct (synthetic real); [done|]. destruct (current s) as [[[p u] d]|]; [|by rewrite andb_true_r].
    rewrite contains_land. intros [-> ->]%andb_true_iff. done. }
  cbv zeta. unfold mode_bits_in.
  pose proof (Hr READ) as H1. pose proof (Hr WRITE) as H2. pose proof (Hr EXEC) as H3. pose proof (Hr CREATE) as H4.
  destruct (contains (rights_in s real ns) READ), (contains (rights_in s real ns) WRITE),
    (contains (rights_in s real ns) EXEC), (contains (rights_in s real ns) CREATE), dir;
    cbn [orb andb]; (split; [|split; [|split; [|by split]]]); intros Hb; try done; auto.
Qed.

(** ** Boot *)

(** The kernel comes up with a policy.  Whatever the image holds at
    [/etc/policy], nothing or any bytes that are not UTF-8 or are ASCII,
    [init] returns with a well-formed policy in force: the image's if it
    parses, else the kernel's own. *)
Theorem init_installs_policy (image : option (list Z)) (s : Sys) :
  (∀ t, image ≫= from_utf8 = Some t → Forall ascii t) →
  ∃ s' p, init image s = Some s' ∧ s_policy s' = Some p ∧ wf_policy p ∧ s_procs s' = s_procs s ∧
    (p = builtin ∨ ∃ t, image ≫= from_utf8 = Some t ∧ parse t = Some (Ok p)).
Proof.
  intros Ha. unfold init. pose proof (parse_runs BUILTIN) as Hb. rewrite builtin_parses in Hb |- *.
  revert Hb. generalize builtin as q. intros q Hq. cbn [mbind option_bind].
  destruct (image ≫= from_utf8) as [t|].
  - specialize (Ha t eq_refl). pose proof (parse_runs t) as Ht.
    destruct (parse t) as [[p|e]|] eqn:Ep; cbn [mbind option_bind]; [| |done].
    2:{ exists (with_policy s (Some q)), q. split; [reflexivity|]. split; [reflexivity|]. split; [exact Hq|]. split; [reflexivity|]. by left. }
    exists (with_policy s (Some p)), p. split; [reflexivity|]. split; [reflexivity|]. split; [exact Ht|]. split; [reflexivity|]. right. by exists t.
  - exists (with_policy s (Some q)), q. split; [reflexivity|]. split; [reflexivity|]. split; [exact Hq|]. split; [reflexivity|]. by left.
Qed.

Lemma init_installs_policy_witness :
  ∃ s' p, init (Some (str "mode off")) ex_sys = Some s' ∧ s_policy s' = Some p ∧ wf_policy p.
Proof.
  destruct (init_installs_policy (Some (str "mode off")) ex_sys) as (s'&p&H1&H2&H3&_).
  - intros t [= <-]. by apply (bool_decide_unpack _); vm_compute.
  - exists s', p. exact (conj H1 (conj H2 H3)).
Defined.
