(* ===== verification/Cpio.v ===== *)
(** * The boot archive: its writer ([src/initramfs.rs]) and its reader
      ([kernel/src/fs/cpio.rs])

    The build writes the image's files as a newc archive; the kernel reads
    it at boot and registers the files.  The compression between them is
    left out.  Names are byte strings here; the reader decodes them. *)

From S2P Require Import Prelude Text.

(** ** The writer *)

Record Entry := { e_name : list Z; e_data : list Z; e_ino : Z; e_nlink : Z; e_mode : Z }.

Definition set_data (e : Entry) (d : list Z) : Entry :=
  {| e_name := e_name e; e_data := d; e_ino := e_ino e; e_nlink := e_nlink e; e_mode := e_mode e |}.

(** [add], [add_mode], [add_hardlink_group]: the entries the build collects. *)
Definition next_ino (entries : list Entry) : Z := zlen entries + 1.

Definition add_mode (entries : list Entry) (rel data : list Z) (mode : Z) : list Entry :=
  entries ++ [{| e_name := rel; e_data := data; e_ino := next_ino entries; e_nlink := 1; e_mode := mode |}].

Definition add (entries : list Entry) (rel : list Z) (data : option (list Z)) : list Entry :=
  match data with Some d => add_mode entries rel d 33261 | None => entries end.

Definition link_entry (data : list Z) (ino nlink : Z) (i : nat) (name : list Z) : Entry :=
  {| e_name := name; e_data := if bool_decide (i = 0%nat) then data else []; e_ino := ino;
     e_nlink := nlink; e_mode := 33261 |}.

Definition add_hardlink_group (entries : list Entry) (names : list (list Z)) (data : option (list Z)) :
    list Entry :=
  match data with
  | None => entries
  | Some data =>
      entries ++ imap (link_entry data (next_ino entries) (Z.max (zlen names) 1)) names
  end.

(** [String]'s order: its bytes', lexicographically. *)
Fixpoint bytes_le (a b : list Z) : bool :=
  match a, b with
  | [], _ => true
  | _ :: _, [] => false
  | x :: a', y :: b' => (x <? y) || ((x =? y) && bytes_le a' b')
  end.

(** [sort_by] (stable): [e] goes before the first entry with a larger name. *)
Fixpoint insert_entry (e : Entry) (l : list Entry) : list Entry :=
  match l with
  | [] => [e]
  | x :: l' => if bytes_le (e_name e) (e_name x) then e :: l else x :: insert_entry e l'
  end.
Definition sort_entries (l : list Entry) : list Entry := foldr insert_entry [] l.

(** [dedup_by]: an entry is dropped when the one kept before it has its name. *)
Fixpoint dedup_from (prev : Entry) (l : list Entry) : list Entry :=
  match l with
  | [] => []
  | x :: l' => if bool_decide (e_name x = e_name prev) then dedup_from prev l' else x :: dedup_from x l'
  end.
Definition dedup_entries (l : list Entry) : list Entry :=
  match l with [] => [] | x :: l' => x :: dedup_from x l' end.

(** The first entry of a link group seen so far ([first.get(&ino)]). *)
Definition first_of (first : list (Z * nat)) (ino : Z) : option nat :=
  snd <$> find (λ p, p.1 =? ino) first.

(** One turn of the loop: entry [i], the [first] map so far. *)
Definition carry_step (st : list Entry * list (Z * nat)) (i : nat) : list Entry * list (Z * nat) :=
  let '(entries, first) := st in
  match entries !! i with
  | None => st
  | Some e =>
      if e_nlink e <=? 1 then st
      else match first_of first (e_ino e) with
           | None => (entries, (e_ino e, i) :: first)
           | Some f =>
               if nonempty (e_data e) then
                 match entries !! f with
                 | Some ef => (<[f := set_data ef (e_data e)]> (<[i := set_data e []]> entries), first)
                 | None => st
                 end
               else st
           end
  end.

Definition first_link_carries_data (entries : list Entry) : list Entry :=
  (foldl carry_step (entries, []) (seq 0 (length entries))).1.

(** [format!("{field:08x}")]: at least eight digits. *)
Definition hex_char (d : Z) : Z := if d <? 10 then 48 + d else 87 + d.

Fixpoint hex_fixed (n : nat) (v : Z) : list Z :=
  match n with O => [] | S n' => hex_fixed n' (v / 16) ++ [hex_char (v mod 16)] end.

Definition hex08 (v : Z) : list Z :=
  trim_start (λ c, c =? 48) (hex_fixed 8 (v / 2 ^ 32)) ++ hex_fixed 8 v.

Definition pad4_out (out : list Z) : list Z := out ++ replicate (Z.to_nat (- zlen out mod 4)) 0.

Definition header_fields (e : Entry) : list Z :=
  [e_ino e; e_mode e; 0; 0; e_nlink e; 0; zlen (e_data e); 0; 0; 0; 0; zlen (e_name e) + 1; 0].

Definition write_entry (out : list Z) (e : Entry) : list Z :=
  let hdr := str "070701" ++ concat (hex08 <$> header_fields e) in
  let out := pad4_out (out ++ hdr ++ e_name e ++ [0]) in
  pad4_out (out ++ e_data e).

Definition trailer : Entry :=
  {| e_name := str "TRAILER!!!"; e_data := []; e_ino := 0; e_nlink := 1; e_mode := 33188 |}.

Definition write_newc (entries : list Entry) : list Z :=
  write_entry (foldl write_entry [] entries) trailer.

(** What is compressed. *)
Definition archive (entries : list Entry) : list Z :=
  write_newc (first_link_carries_data (dedup_entries (sort_entries entries))).

(** ** The reader *)

Definition hex_value (b : Z) : option Z :=
  if (48 <=? b) && (b <=? 57) then Some (b - 48)
  else if (97 <=? b) && (b <=? 102) then Some (b - 97 + 10)
  else None.

Fixpoint hex_loop (v : Z) (s : list Z) : Z :=
  match s with
  | [] => v
  | b :: s' =>
      match hex_value b with
      | Some d => hex_loop (Z.lor (Z.shiftl v 4 mod 2 ^ 64) d) s'
      | None => 0
      end
  end.
Definition hex (s : list Z) : Z := hex_loop 0 s.

Definition pad4 (n : Z) : option Z := v ← add64 n 3; Some (Z.ldiff v 3).

(** [raw[..raw.iter().position(|&b| b == 0)]], or all of it *)
Fixpoint until_nul (raw : list Z) : list Z :=
  match raw with
  | [] => []
  | b :: raw' => if b =? 0 then [] else b :: until_nul raw'
  end.

(** What the loop carries: the links seen and the files registered, in
    order ([route]). *)
Record Found := { f_links : list (Z * list Z); f_files : list (text * list Z) }.

Definition link_bytes (links : list (Z * list Z)) (ino : Z) : option (list Z) :=
  snd <$> find (λ l, l.1 =? ino) links.

Definition take_entry (name : text) (bytes : list Z) (ino nlink : Z) (found : Found) : Found :=
  if 0 <? zlen bytes then
    {| f_links := if 1 <? nlink then f_links found ++ [(ino, bytes)] else f_links found;
       f_files := f_files found ++ [(name, bytes)] |}
  else if 1 <? nlink then
    match link_bytes (f_links found) ino with
    | Some b => {| f_links := f_links found; f_files := f_files found ++ [(name, b)] |}
    | None => found
    end
  else found.

(** [None]: a panic, or out of fuel. *)
Fixpoint parse_loop (fuel : nat) (data : list Z) (off : Z) (found : Found) : option Found :=
  match fuel with
  | O => None
  | S fuel' =>
      off_hdr ← add64 off 110;
      if negb (off_hdr <=? zlen data) then Some found
      else
        hdr ← slice data off off_hdr;
        magic ← slice hdr 0 6;
        if negb (bool_decide (magic = str "070701")) then Some found
        else
          ino ← hex <$> slice hdr 6 14;
          nlink ← hex <$> slice hdr 38 46;
          filesize ← hex <$> slice hdr 54 62;
          namesize ← hex <$> slice hdr 94 102;
          let name_off := off_hdr in
          name_end ← add64 name_off namesize;
          if zlen data <? name_end then Some found
          else
            raw ← slice data name_off name_end;
            let name := default [] (from_utf8 (until_nul raw)) in
            data_off ← pad4 name_end;
            data_end ← add64 data_off filesize;
            if zlen data <? data_end then Some found
            else if bool_decide (name = str "TRAILER!!!") || negb (nonempty name) then Some found
            else
              bytes ← (if 0 <? filesize then slice data data_off data_end else Some []);
              off ← pad4 data_end;
              parse_loop fuel' data off (take_entry name bytes ino nlink found)
  end.

(** The files registered, in order; their number is what [parse] returns. *)
Definition parse (data : list Z) : option (list (text * list Z)) :=
  f_files <$> parse_loop (S (length data / 110)) data 0 {| f_links := []; f_files := [] |}.
