(* ===== verification/CpioFacts.v ===== *)
(** * What the build archives, the kernel registers

    The reader of [Cpio.v] ends without a panic on any bytes, and gives back
    the files of an archive the writer made, hard links included. *)

From S2P Require Import Prelude Text Cpio.
From Stdlib Require Import Sorted.
From stdpp Require Import list.

Open Scope Z_scope.

(** ** Slices of concatenations *)

Lemma slice_mid {A} (pre mid post : list A) a b :
  a = zlen pre → b = zlen pre + zlen mid → slice (pre ++ mid ++ post) a b = Some mid.
Proof.
  intros -> ->. rewrite slice_ok by (rewrite ?length_app; lia). f_equal.
  rewrite Nat2Z.id, drop_app_length. replace (Z.to_nat _) with (length mid) by lia. apply take_app_length.
Qed.

Lemma concat_blocks (l : list (list Z)) :
  Forall (λ x, length x = 8%nat) l → length (concat l) = (8 * length l)%nat.
Proof. induction 1 as [|x l Hx _ IH]; [done|]. cbn [concat length]. rewrite length_app. lia. Qed.

(** Block [i] of a header made of blocks of eight. *)
Lemma slice_block (h : list Z) (bl : list (list Z)) (i : nat) b :
  Forall (λ x, length x = 8%nat) bl → bl !! i = Some b →
  slice (h ++ concat bl) (zlen h + 8 * Z.of_nat i) (zlen h + 8 * Z.of_nat i + 8) = Some b.
Proof.
  intros Hall Hi. rewrite <-(take_drop_middle _ _ _ Hi), concat_app. cbn [concat].
  assert (Hl : length (concat (take i bl)) = (8 * i)%nat).
  { rewrite concat_blocks by (by apply Forall_take). rewrite length_take. apply lookup_lt_Some in Hi. lia. }
  rewrite app_assoc. apply slice_mid; rewrite length_app, Hl; [lia|].
  rewrite Forall_lookup in Hall. rewrite (Hall _ _ Hi). lia.
Qed.

(** ** Hex digits *)

Definition hexdigit (c : Z) : Prop := is_Some (hex_value c).

Lemma hex_char_value d : 0 <= d < 16 → hex_value (hex_char d) = Some d.
Proof.
  intros Hd. unfold hex_char, hex_value.
  destruct (Z.ltb_spec d 10);
    repeat match goal with |- context [(?a <=? ?b)] => destruct (Z.leb_spec a b) end;
    cbn [andb]; try lia; f_equal; lia.
Qed.

Lemma hex_value_range c d : hex_value c = Some d → 0 <= d < 16.
Proof. unfold hex_value. repeat case_if; intros [= <-]; lia. Qed.

Lemma lor_digit x d : 0 <= x → 0 <= d < 16 → Z.lor (Z.shiftl x 4) d = x * 16 + d.
Proof.
  intros Hx Hd. rewrite <-Z.add_nocarry_lor; [by rewrite Z.shiftl_mul_pow2 by lia|].
  apply Z.bits_inj'. intros i Hi. rewrite Z.land_spec, Z.bits_0.
  destruct (Z.lt_ge_cases i 4).
  - by rewrite Z.shiftl_spec_low.
  - rewrite <-(Z.mod_small d (2 ^ 4)) by lia. rewrite Z.mod_pow2_bits_high by lia. apply andb_false_r.
Qed.

Lemma hex_loop_app v s t : Forall hexdigit s → hex_loop v (s ++ t) = hex_loop (hex_loop v s) t.
Proof.
  intros Hs. revert v. induction Hs as [|c s [d Hd] Hs IH]; intros v; [done|].
  cbn [app hex_loop]. by rewrite Hd.
Qed.

Lemma hex_fixed_digits n v : Forall hexdigit (hex_fixed n v).
Proof.
  revert v. induction n as [|n IH]; intros v; cbn [hex_fixed]; [done|]. apply Forall_app. split; [done|].
  apply Forall_singleton. unfold hexdigit. rewrite hex_char_value; [done|]. apply Z.mod_pos_bound. lia.
Qed.

Lemma hex_fixed_length n v : length (hex_fixed n v) = n.
Proof. revert v. induction n as [|n IH]; intros v; cbn [hex_fixed]; [done|]. rewrite length_app, IH. simpl. lia. Qed.

Lemma hex_fixed_value n v :
  (n <= 8)%nat → 0 <= v < 16 ^ Z.of_nat n → hex (hex_fixed n v) = v.
Proof.
  unfold hex. revert v. induction n as [|n IH]; intros v Hn Hv; cbn [hex_fixed hex_loop].
  - change (16 ^ Z.of_nat 0) with 1 in Hv. lia.
  - rewrite Nat2Z.inj_succ, Z.pow_succ_r in Hv by lia.
    rewrite hex_loop_app by apply hex_fixed_digits. rewrite IH; [|lia|zdiv].
    cbn [hex_loop]. rewrite hex_char_value by (apply Z.mod_pos_bound; lia).
    assert (16 ^ Z.of_nat n <= 16 ^ 7) by (apply Z.pow_le_mono_r; lia).
    assert (0 <= v / 16 < 16 ^ 7) by zdiv. change (16 ^ 7) with 268435456 in *.
    rewrite Z.mod_small by (rewrite Z.shiftl_mul_pow2 by lia; lia).
    rewrite lor_digit by (lia || (apply Z.mod_pos_bound; lia)). zdiv.
Qed.

Lemma hex08_small v : 0 <= v < 2 ^ 32 → hex08 v = hex_fixed 8 v.
Proof. intros Hv. unfold hex08. by rewrite Z.div_small. Qed.

Lemma hex08_value v : 0 <= v < 2 ^ 32 → hex (hex08 v) = v.
Proof. intros Hv. rewrite hex08_small by done. apply hex_fixed_value; [lia|done]. Qed.

Lemma hex_range s : (length s <= 8)%nat → 0 <= hex s < 2 ^ 32.
Proof.
  intros Hs. unfold hex.
  assert (H : ∀ s v (k : nat), 0 <= v < 16 ^ Z.of_nat k → (k + length s <= 8)%nat →
    0 <= hex_loop v s < 16 ^ Z.of_nat (k + length s) ∨ hex_loop v s = 0).
  { clear s Hs. induction s as [|c s IH]; intros v k Hv Hk; cbn [hex_loop length] in *.
    - left. by rewrite Nat.add_0_r.
    - destruct (hex_value c) as [d|] eqn:Ed; [|by right]. apply hex_value_range in Ed.
      assert (Hp : 16 ^ Z.of_nat k <= 16 ^ 7) by (apply Z.pow_le_mono_r; lia).
      change (16 ^ 7) with 268435456 in Hp.
      rewrite Z.mod_small by (rewrite Z.shiftl_mul_pow2 by lia; lia). rewrite lor_digit by lia.
      replace (k + S (length s))%nat with (S k + length s)%nat by lia. apply IH; [|lia].
      rewrite Nat2Z.inj_succ, Z.pow_succ_r by lia. lia. }
  destruct (H s 0 0%nat) as [Hr|Hr]; [lia|lia| |rewrite Hr; lia].
  assert (16 ^ Z.of_nat (0 + length s) <= 16 ^ 8) by (apply Z.pow_le_mono_r; lia).
  change (16 ^ 8) with (2 ^ 32) in *. lia.
Qed.

(** ** Padding *)

Lemma pad4_spec n : 0 <= n < 2 ^ 63 → ∃ m, pad4 n = Some m ∧ n <= m < n + 4 ∧ m mod 4 = 0.
Proof.
  intros Hn. unfold pad4. rewrite add64_in by lia. cbn [mbind option_bind].
  eexists. split; [done|]. change 3 with (Z.ones 2) at 2 4 6.
  rewrite Z.ldiff_ones_r, Z.shiftr_div_pow2, Z.shiftl_mul_pow2 by lia. change (2 ^ 2) with 4. split; zdiv.
Qed.

Lemma pad4_out_spec out : ∃ k, pad4_out out = out ++ replicate k 0 ∧
  0 <= Z.of_nat k < 4 ∧ (zlen out + Z.of_nat k) mod 4 = 0.
Proof.
  exists (Z.to_nat (- zlen out mod 4)). split; [done|].
  rewrite Z2Nat.id by (apply Z.mod_pos_bound; lia). split; [apply Z.mod_pos_bound; lia|zdiv].
Qed.

Lemma pad4_exact n (k : nat) :
  0 <= n < 2 ^ 63 → 0 <= Z.of_nat k < 4 → (n + Z.of_nat k) mod 4 = 0 → pad4 n = Some (n + Z.of_nat k).
Proof.
  intros Hn Hk Hm. destruct (pad4_spec n Hn) as (m&->&Hr&Ha). f_equal. zdiv.
Qed.

(** ** The reader on any bytes *)

Lemma slice_some_len {A} (l : list A) a b :
  0 <= a → a <= b → b <= zlen l → ∃ s, slice l a b = Some s ∧ zlen s = b - a.
Proof.
  intros. rewrite slice_ok by done. eexists. split; [done|]. rewrite length_take, length_drop. lia.
Qed.

(** A field of the header, with its value below 2^32. *)
Lemma header_field hdr a b : zlen hdr = 110 → 0 <= a → b = a + 8 → b <= 110 →
  ∃ v, hex <$> slice hdr a b = Some v ∧ 0 <= v < 2 ^ 32.
Proof.
  intros Hh Ha -> Hb. destruct (slice_some_len hdr a (a + 8)) as (s&->&Hs); [lia..|].
  eexists. split; [done|]. apply hex_range. lia.
Qed.

Lemma parse_loop_total fuel data off found :
  zlen data < 2 ^ 62 → 0 <= off < 2 ^ 62 + 4 → (0 < fuel)%nat → zlen data < off + 110 * Z.of_nat fuel →
  is_Some (parse_loop fuel data off found).
Proof.
  intros Hd. revert off found. induction fuel as [|fuel IH]; intros off found Ho Hf Hlen; [lia|].
  cbn [parse_loop]. rewrite add64_in by lia. cbn [mbind option_bind].
  destruct (Z.leb_spec (off + 110) (zlen data)) as [Hle|]; [|done]. cbn [negb].
  destruct (slice_some_len data off (off + 110)) as (hdr&->&Hh); [lia..|]. cbn [mbind option_bind].
  destruct (slice_some_len hdr 0 6) as (magic&->&_); [lia..|]. cbn [mbind option_bind].
  case_bool_decide; [|done]. cbn [negb].
  destruct (header_field hdr 6 14) as (ino&->&_); [lia..|]. cbn [mbind option_bind].
  destruct (header_field hdr 38 46) as (nlink&->&_); [lia..|]. cbn [mbind option_bind].
  destruct (header_field hdr 54 62) as (filesize&->&Hfs); [lia..|]. cbn [mbind option_bind].
  destruct (header_field hdr 94 102) as (namesize&->&Hns); [lia..|]. cbn [mbind option_bind].
  rewrite add64_in by lia. cbn [mbind option_bind].
  destruct (Z.ltb_spec (zlen data) (off + 110 + namesize)); [done|].
  destruct (slice_some_len data (off + 110) (off + 110 + namesize)) as (raw&->&_); [lia..|]. cbn [mbind option_bind].
  destruct (pad4_spec (off + 110 + namesize)) as (data_off&->&Hdo&_); [lia|]. cbn [mbind option_bind].
  rewrite add64_in by lia. cbn [mbind option_bind].
  destruct (Z.ltb_spec (zlen data) (data_off + filesize)); [done|].
  case_if; [done|].
  assert (∃ bytes, (if 0 <? filesize then slice data data_off (data_off + filesize) else Some []) = Some bytes)
    as (bytes&->).
  { case_if; [|by eexists]. destruct (slice_some_len data data_off (data_off + filesize)) as (s&->&_); [lia..|]. by eexists. }
  cbn [mbind option_bind].
  destruct (pad4_spec (data_off + filesize)) as (off'&->&Hoff&_); [lia|]. cbn [mbind option_bind].
  apply IH; lia.
Qed.

(** ** Reading what was written *)

Definition text_of (e : Entry) : text := default [] (from_utf8 (e_name e)).

Definition entry_ok (e : Entry) : Prop :=
  0 <= e_ino e < 2 ^ 32 ∧ 0 <= e_nlink e < 2 ^ 32 ∧ 0 <= e_mode e < 2 ^ 32 ∧
  zlen (e_data e) < 2 ^ 32 ∧ zlen (e_name e) + 1 < 2 ^ 32 ∧ (0 ∉ e_name e) ∧ nonempty (text_of e) = true.

Lemma until_nul_stops name rest : 0 ∉ name → until_nul (name ++ 0 :: rest) = name.
Proof.
  induction name as [|c name IH]; intros Hn; cbn [app until_nul]; [done|].
  apply not_elem_of_cons in Hn as [Hc Hn]. rewrite (proj2 (Z.eqb_neq c 0)), IH by done. done.
Qed.

(** The bytes of an entry after [pre]. *)
Lemma write_entry_layout pre e :
  ∃ hdr k1 k2, write_entry pre e = pre ++ hdr ++ (e_name e ++ [0]) ++ replicate k1 0 ++ e_data e ++ replicate k2 0 ∧
    hdr = str "070701" ++ concat (hex08 <$> header_fields e) ∧
    0 <= Z.of_nat k1 < 4 ∧ (zlen pre + zlen hdr + zlen (e_name e) + 1 + Z.of_nat k1) mod 4 = 0 ∧
    0 <= Z.of_nat k2 < 4 ∧
    (zlen pre + zlen hdr + zlen (e_name e) + 1 + Z.of_nat k1 + zlen (e_data e) + Z.of_nat k2) mod 4 = 0.
Proof.
  unfold write_entry. set (hdr := str "070701" ++ _).
  destruct (pad4_out_spec (pre ++ hdr ++ e_name e ++ [0])) as (k1&->&Hk1&Hm1).
  destruct (pad4_out_spec ((pre ++ hdr ++ e_name e ++ [0]) ++ replicate k1 0 ++ e_data e)) as (k2&E2&Hk2&Hm2).
  exists hdr, k1, k2. rewrite <-(app_assoc _ (replicate k1 0)), E2.
  split; [by rewrite <-!app_assoc|]. rewrite !length_app, length_replicate in *. cbn [length] in *.
  split; [done|]. split_and!; [lia|lia| |lia|lia|].
  - replace (zlen pre + zlen hdr + zlen (e_name e) + 1 + Z.of_nat k1) with
      (Z.of_nat (length pre + (length hdr + (length (e_name e) + 1))) + Z.of_nat k1) by lia. done.
  - rewrite <-Hm2. f_equal. lia.
Qed.

Lemma header_blocks e :
  entry_ok e → Forall (λ x, length x = 8%nat) (hex08 <$> header_fields e).
Proof.
  intros (?&?&?&?&?&_). unfold header_fields. cbn [fmap list_fmap].
  repeat (apply Forall_cons; split; [rewrite hex08_small by lia; apply hex_fixed_length|]). done.
Qed.

Lemma header_value e (i : nat) a b v :
  a = 6 + 8 * Z.of_nat i → b = a + 8 → entry_ok e → header_fields e !! i = Some v → 0 <= v < 2 ^ 32 →
  hex <$> slice (str "070701" ++ concat (hex08 <$> header_fields e)) a b = Some v.
Proof.
  intros -> -> He Hi Hv. rewrite (slice_block (str "070701") _ i (hex08 v)).
  - cbn [fmap option_fmap option_map]. by rewrite hex08_value.
  - by apply header_blocks.
  - by rewrite list_lookup_fmap, Hi.
Qed.

Lemma parse_loop_entry fuel pre e rest found :
  zlen pre mod 4 = 0 → entry_ok e → zlen (write_entry pre e ++ rest) < 2 ^ 62 →
  parse_loop (S fuel) (write_entry pre e ++ rest) (zlen pre) found =
  if bool_decide (text_of e = str "TRAILER!!!") then Some found
  else parse_loop fuel (write_entry pre e ++ rest) (zlen (write_entry pre e))
         (take_entry (text_of e) (e_data e) (e_ino e) (e_nlink e) found).
Proof.
  intros Hpre He Hlen. assert (He' := He). destruct He' as (Hino&Hnl&Hmode&Hdata&Hname&Hnul&Hne).
  destruct (write_entry_layout pre e) as (hdr&k1&k2&E&Ehdr&Hk1&Hm1&Hk2&Hm2).
  assert (Hh : length hdr = 110%nat).
  { subst hdr. rewrite length_app, concat_blocks by (by apply header_blocks). done. }
  set (full := write_entry pre e ++ rest) in *.
  assert (Ef : full = pre ++ hdr ++ (e_name e ++ [0]) ++ replicate k1 0 ++ e_data e ++ replicate k2 0 ++ rest).
  { subst full. rewrite E, <-!app_assoc. done. }
  assert (Ew : zlen (write_entry pre e) =
    zlen pre + 110 + zlen (e_name e) + 1 + Z.of_nat k1 + zlen (e_data e) + Z.of_nat k2).
  { rewrite E, !length_app, !length_replicate, Hh. cbn [length]. lia. }
  assert (Hfl : zlen full = zlen (write_entry pre e) + zlen rest) by (subst full; rewrite length_app; lia).
  rewrite Hh in Hm1, Hm2.
  cbn [parse_loop]. rewrite add64_in by lia. cbn [mbind option_bind].
  destruct (Z.leb_spec (zlen pre + 110) (zlen full)); [|lia]. cbn [negb].
  rewrite Ef at 1. rewrite (slice_mid pre hdr) by lia. cbn [mbind option_bind].
  assert (Hmagic : slice hdr 0 6 = Some (str "070701")) by (rewrite Ehdr; by apply (slice_mid [] (str "070701"))).
  rewrite Hmagic. cbn [mbind option_bind].
  rewrite bool_decide_eq_true_2 by done. cbn [negb]. rewrite Ehdr.
  rewrite (header_value e 0 6 14 (e_ino e)) by done. cbn [mbind option_bind].
  rewrite (header_value e 4 38 46 (e_nlink e)) by done. cbn [mbind option_bind].
  rewrite (header_value e 6 54 62 (zlen (e_data e))) by (done || lia). cbn [mbind option_bind].
  rewrite (header_value e 11 94 102 (zlen (e_name e) + 1)) by (done || lia). cbn [mbind option_bind].
  rewrite add64_in by lia. cbn [mbind option_bind].
  destruct (Z.ltb_spec (zlen full) (zlen pre + 110 + (zlen (e_name e) + 1))); [lia|].
  assert (Hraw : slice full (zlen pre + 110) (zlen pre + 110 + (zlen (e_name e) + 1)) = Some (e_name e ++ [0])).
  { rewrite Ef, (app_assoc pre hdr). apply slice_mid; rewrite !length_app, Hh; cbn [length]; lia. }
  rewrite Hraw. cbn [mbind option_bind]. rewrite until_nul_stops by done. fold (text_of e).
  rewrite (pad4_exact _ k1) by lia || (rewrite <-Hm1; f_equal; lia). cbn [mbind option_bind].
  rewrite add64_in by lia. cbn [mbind option_bind].
  destruct (Z.ltb_spec (zlen full) (zlen pre + 110 + (zlen (e_name e) + 1) + Z.of_nat k1 + zlen (e_data e))); [lia|].
  rewrite Hne, orb_false_r. case_bool_decide; [done|].
  assert (Hb : (if 0 <? zlen (e_data e)
    then slice full (zlen pre + 110 + (zlen (e_name e) + 1) + Z.of_nat k1)
      (zlen pre + 110 + (zlen (e_name e) + 1) + Z.of_nat k1 + zlen (e_data e)) else Some []) = Some (e_data e)).
  { case_if; [|by destruct (e_data e); [|simpl in *; lia]].
    rewrite Ef, (app_assoc (e_name e ++ [0])), (app_assoc hdr), (app_assoc pre).
    apply slice_mid; rewrite !length_app, length_replicate, Hh; cbn [length]; lia. }
  rewrite Hb. cbn [mbind option_bind].
  rewrite (pad4_exact _ k2) by lia || (rewrite <-Hm2; f_equal; lia). cbn [mbind option_bind].
  f_equal. lia.
Qed.

Definition found0 : Found := {| f_links := []; f_files := [] |}.

Definition read_step (found : Found) (e : Entry) : Found :=
  take_entry (text_of e) (e_data e) (e_ino e) (e_nlink e) found.

Definition named_ok (e : Entry) : Prop := entry_ok e ∧ text_of e ≠ str "TRAILER!!!".

Lemma write_entry_grows pre e :
  zlen (write_entry pre e) mod 4 = 0 ∧ ∃ tail, write_entry pre e = pre ++ tail.
Proof.
  destruct (write_entry_layout pre e) as (hdr&k1&k2&E&_&_&_&_&Hm). rewrite E. split; [|by eexists].
  rewrite <-Hm. f_equal. rewrite !length_app, !length_replicate. cbn [length]. lia.
Qed.

Lemma write_entries_grow es pre : zlen pre mod 4 = 0 →
  zlen (foldl write_entry pre es) mod 4 = 0 ∧ ∃ tail, foldl write_entry pre es = pre ++ tail.
Proof.
  revert pre. induction es as [|e es IH]; intros pre Hpre; cbn [foldl].
  - split; [done|]. exists []. by rewrite app_nil_r.
  - destruct (write_entry_grows pre e) as (Hm&tail&E). destruct (IH _ Hm) as (Hm'&tail'&E').
    split; [done|]. rewrite E', E. exists (tail ++ tail'). by rewrite app_assoc.
Qed.

Lemma parse_loop_entries es fuel pre rest found :
  zlen pre mod 4 = 0 → Forall named_ok es → zlen (foldl write_entry pre es ++ rest) < 2 ^ 62 →
  parse_loop (length es + fuel) (foldl write_entry pre es ++ rest) (zlen pre) found =
  parse_loop fuel (foldl write_entry pre es ++ rest) (zlen (foldl write_entry pre es)) (foldl read_step found es).
Proof.
  intros Hpre Hes. revert pre found Hpre. induction Hes as [|e es [He Ht] Hes IH]; intros pre found Hpre Hlen; [done|].
  cbn [foldl length Nat.add] in *. destruct (write_entry_grows pre e) as (Hm&_).
  destruct (write_entries_grow es _ Hm) as (_&tail&E).
  rewrite <-IH by done. rewrite E, <-app_assoc in *.
  rewrite parse_loop_entry by done. by rewrite bool_decide_eq_false_2.
Qed.

Lemma write_entry_length pre e : entry_ok e → zlen pre + 110 <= zlen (write_entry pre e).
Proof.
  intros He. destruct (write_entry_layout pre e) as (hdr&k1&k2&E&->&_).
  rewrite E, !length_app, concat_blocks by (by apply header_blocks). cbn [length fmap list_fmap header_fields str].
  rewrite ?length_app. change (length (str "070701")) with 6%nat. lia.
Qed.

Lemma write_entries_length es pre :
  Forall named_ok es → zlen pre + 110 * zlen es <= zlen (foldl write_entry pre es).
Proof.
  intros Hes. revert pre. induction Hes as [|e es [He _] _ IH]; intros pre; cbn [foldl length]; [lia|].
  pose proof (write_entry_length pre e He). specialize (IH (write_entry pre e)). lia.
Qed.

Lemma trailer_ok : entry_ok trailer.
Proof. unfold entry_ok. vm_compute. repeat split; try discriminate. intros H. by repeat (apply elem_of_cons in H as [H|H]; [discriminate|]); apply elem_of_nil in H. Qed.

Lemma parse_write_newc es :
  Forall named_ok es → zlen (write_newc es) < 2 ^ 62 →
  parse (write_newc es) = Some (f_files (foldl read_step found0 es)).
Proof.
  intros Hes Hlen. unfold parse. fold found0.
  assert (Hl : 110 * (zlen es + 1) <= zlen (write_newc es)).
  { unfold write_newc. pose proof (write_entry_length (foldl write_entry [] es) trailer trailer_ok).
    pose proof (write_entries_length es [] Hes). cbn [length] in *. lia. }
  assert (Hf : ∃ f, S (length (write_newc es) / 110) = (length es + S f)%nat).
  { exists (length (write_newc es) / 110 - length es)%nat.
    assert (length es + 1 <= length (write_newc es) / 110)%nat by (apply Nat.div_le_lower_bound; lia). lia. }
  destruct Hf as (f&->). unfold write_newc in *.
  destruct (write_entry_grows (foldl write_entry [] es) trailer) as (_&tail&E).
  assert (Hm : zlen (foldl write_entry [] es) mod 4 = 0) by (by apply (write_entries_grow es [])).
  pose proof (parse_loop_entries es (S f) [] tail found0) as Hp.
  rewrite <-E in Hp. change (zlen []) with 0 in Hp. rewrite Hp by done. clear Hp.
  pose proof (parse_loop_entry f (foldl write_entry [] es) trailer [] (foldl read_step found0 es) Hm trailer_ok) as Hp.
  rewrite app_nil_r in Hp. rewrite Hp by done. rewrite bool_decide_eq_true_2 by (vm_compute; reflexivity). done.
Qed.

(** ** Hard links *)

Definition linked (e : Entry) : bool := 1 <? e_nlink e.

Definition in_group (ino : Z) (e : Entry) : bool := linked e && (e_ino e =? ino).

(** The bytes of link group [ino]: those of its entry that has some. *)
Definition group_data (l : list Entry) (ino : Z) : list Z :=
  match find (λ e, in_group ino e && nonempty (e_data e)) l with Some e => e_data e | None => [] end.

(** What the archive says the file of entry [e] holds. *)
Definition content (l : list Entry) (e : Entry) : list Z :=
  if linked e then group_data l (e_ino e) else e_data e.

(** The entries of [l] with each group's bytes, as [G] gives them, at its
    first entry; [seen] are the groups that have had theirs. *)
Fixpoint spread (G : Z → list Z) (seen : list Z) (l : list Entry) : list Entry :=
  match l with
  | [] => []
  | e :: l' =>
      if linked e then
        if bool_decide (e_ino e ∈ seen) then set_data e [] :: spread G seen l'
        else set_data e (G (e_ino e)) :: spread G (e_ino e :: seen) l'
      else e :: spread G seen l'
  end.

Fixpoint groups (seen : list Z) (l : list Entry) : list Z :=
  match l with
  | [] => seen
  | e :: l' => groups (if linked e && negb (bool_decide (e_ino e ∈ seen)) then e_ino e :: seen else seen) l'
  end.

Lemma set_data_id e : set_data e (e_data e) = e.
Proof. by destruct e. Qed.

Lemma spread_length G seen l : length (spread G seen l) = length l.
Proof. revert seen. induction l as [|e l IH]; intros seen; [done|]. cbn [spread]. repeat case_match; cbn [length]; by rewrite IH. Qed.

Lemma spread_app G seen l l' : spread G seen (l ++ l') = spread G seen l ++ spread G (groups seen l) l'.
Proof.
  revert seen. induction l as [|e l IH]; intros seen; [done|]. cbn [app spread groups].
  destruct (linked e); [|cbn [andb]; by rewrite IH].
  case_bool_decide; cbn [andb negb]; by rewrite IH.
Qed.

Lemma spread_ext G G' seen l :
  (∀ e, e ∈ l → linked e = true → e_ino e ∉ seen → G (e_ino e) = G' (e_ino e)) → spread G seen l = spread G' seen l.
Proof.
  revert seen. induction l as [|e l IH]; intros seen H; [done|]. cbn [spread].
  destruct (linked e) eqn:El; [case_bool_decide|].
  - f_equal. apply IH. intros x Hx. apply H. by right.
  - rewrite (H e) by (done || left). f_equal. apply IH. intros x Hx Hl Hs. apply H; [by right|done|].
    intros Hin. apply Hs. by right.
  - f_equal. apply IH. intros x Hx. apply H. by right.
Qed.

Lemma elem_of_groups seen l ino :
  ino ∈ groups seen l ↔ ino ∈ seen ∨ ∃ e, e ∈ l ∧ in_group ino e = true.
Proof.
  revert seen. induction l as [|e l IH]; intros seen; cbn [groups].
  - split; [by left|]. intros [?|(?&Hx&_)]; [done|by apply elem_of_nil in Hx].
  - rewrite IH. setoid_rewrite elem_of_cons. unfold in_group at 2.
    split.
    + intros [H|(x&Hx&Hg)]; [|right; exists x; tauto].
      destruct (linked e) eqn:El; [case_bool_decide|]; cbn [andb negb] in H; try (by left).
      apply elem_of_cons in H as [->|H]; [|by left]. right. exists e. rewrite El, Z.eqb_refl. auto.
    + intros [H|(x&[->|Hx]&Hg)].
      * left. destruct (_ && _); [by right|done].
      * left. apply andb_true_iff in Hg as [-> <-%Z.eqb_eq]. cbn [andb]. case_bool_decide; [done|by left].
      * right. by exists x.
Qed.

Lemma linked_in_group e ino : in_group ino e = true ↔ linked e = true ∧ e_ino e = ino.
Proof. unfold in_group. by rewrite andb_true_iff, Z.eqb_eq. Qed.

(** Giving group [ino] its bytes at its first entry [f]. *)
Lemma spread_insert G seen l f y d :
  l !! f = Some y → linked y = true → e_ino y ∉ seen →
  (∀ j z, (j < f)%nat → l !! j = Some z → in_group (e_ino y) z = false) →
  <[f := set_data y d]> (spread G seen l) = spread (λ i, if i =? e_ino y then d else G i) seen l.
Proof.
  revert f seen. induction l as [|e l IH]; intros f seen Hf Hl Hs Hfirst; [done|]. destruct f as [|f].
  - injection Hf as ->. cbn [spread]. rewrite Hl, bool_decide_eq_false_2, Z.eqb_refl by done.
    cbn [insert list_insert]. f_equal. apply spread_ext. intros x _ _ Hx.
    destruct (Z.eqb_spec (e_ino x) (e_ino y)) as [E|]; [|done]. destruct Hx. rewrite E. by left.
  - cbn [lookup list_lookup] in Hf.
    assert (He : in_group (e_ino y) e = false) by (by apply (Hfirst 0%nat); [lia|]).
    assert (Hfirst' : ∀ j z, (j < f)%nat → l !! j = Some z → in_group (e_ino y) z = false)
      by (intros j z ??; apply (Hfirst (S j)); [lia|done]).
    cbn [spread]. unfold in_group in He. destruct (linked e); cbn [andb] in He.
    + case_bool_decide; cbn [insert list_insert]; [f_equal; by apply IH|]. rewrite He. f_equal. apply IH; try done.
      intros [E|Hin]%elem_of_cons; [|done]. by rewrite E, Z.eqb_refl in He.
    + cbn [insert list_insert]. f_equal. by apply IH.
Qed.

(** At most one entry of each link group has bytes. *)
Definition one_carrier (l : list Entry) : Prop :=
  ∀ i j x y, l !! i = Some x → l !! j = Some y → linked x = true → linked y = true → e_ino x = e_ino y →
    nonempty (e_data x) = true → nonempty (e_data y) = true → i = j.

Lemma find_app {A} (P : A → bool) l l' :
  find P (l ++ l') = match find P l with Some x => Some x | None => find P l' end.
Proof. induction l as [|x l IH]; [done|]. cbn [app find]. by destruct (P x). Qed.

Lemma find_none_elem {A} (P : A → bool) l : (∀ x, x ∈ l → P x = false) → find P l = None.
Proof. induction l as [|x l IH]; intros H; [done|]. cbn [find]. rewrite H by left. apply IH. intros. apply H. by right. Qed.

Lemma group_data_snoc_out l x ino : in_group ino x = false → group_data (l ++ [x]) ino = group_data l ino.
Proof. intros H. unfold group_data. rewrite find_app. cbn [find]. rewrite H. by destruct (find _ l). Qed.

Lemma group_data_snoc_empty l x ino : nonempty (e_data x) = false → group_data (l ++ [x]) ino = group_data l ino.
Proof. intros H. unfold group_data. rewrite find_app. cbn [find]. rewrite H, andb_false_r. by destruct (find _ l). Qed.

Lemma group_data_snoc_in l x ino :
  in_group ino x = true → (∀ e, e ∈ l → in_group ino e = true → nonempty (e_data e) = false) →
  group_data (l ++ [x]) ino = e_data x.
Proof.
  intros Hx Hl. unfold group_data. rewrite find_app, find_none_elem.
  - cbn [find]. rewrite Hx. cbn [andb]. destruct (e_data x) eqn:E; cbn [nonempty]; by rewrite ?E.
  - intros e He. destruct (in_group ino e) eqn:E; [|done]. by rewrite (Hl e).
Qed.

(** What the [first] map says of the entries passed. *)
Definition first_at (l : list Entry) (first : list (Z * nat)) (ino : Z) : Prop :=
  match first_of first ino with
  | Some f => ∃ y, l !! f = Some y ∧ in_group ino y = true ∧
                   ∀ j z, (j < f)%nat → l !! j = Some z → in_group ino z = false
  | None => ∀ z, z ∈ l → in_group ino z = false
  end.

Lemma first_at_snoc l first x ino :
  first_at l first ino → (first_of first ino = None → in_group ino x = false) → first_at (l ++ [x]) first ino.
Proof.
  unfold first_at. intros Hinv Hx. destruct (first_of first ino) as [f|].
  - destruct Hinv as (y&Hy&Hg&Hfirst). exists y. assert (f < length l)%nat by (by eapply lookup_lt_Some).
    split; [by apply lookup_app_l_Some|]. split; [done|].
    intros j z Hj Hz. apply (Hfirst j); [done|]. rewrite lookup_app_l in Hz by lia. done.
  - intros z [Hz| ->%list_elem_of_singleton]%elem_of_app; [by apply Hinv|by apply Hx].
Qed.

Lemma first_at_new l first x ino :
  first_at l first ino → first_of first (e_ino x) = None → linked x = true →
  first_at (l ++ [x]) ((e_ino x, length l) :: first) ino.
Proof.
  intros Hinv Hnone Hl. destruct (Z.eqb_spec (e_ino x) ino) as [<-|Hne].
  - unfold first_at in *. rewrite Hnone in Hinv. unfold first_of. cbn [find fst]. rewrite Z.eqb_refl.
    exists x. split; [by rewrite lookup_app_r, Nat.sub_diag|]. split; [by apply linked_in_group|].
    intros j z Hj Hz. apply Hinv. rewrite lookup_app_l in Hz by done. by eapply list_elem_of_lookup_2.
  - replace (first_at (l ++ [x]) ((e_ino x, length l) :: first) ino) with (first_at (l ++ [x]) first ino).
    + apply first_at_snoc; [done|]. intros _. apply not_true_iff_false. by rewrite linked_in_group; intros [_ ?].
    + unfold first_at, first_of. cbn [find fst]. by rewrite (proj2 (Z.eqb_neq _ _) Hne).
Qed.

Lemma spread_lookup G seen l f y :
  l !! f = Some y → ∃ d, spread G seen l !! f = Some (set_data y d).
Proof.
  revert f seen. induction l as [|e l IH]; intros f seen Hf; [done|]. destruct f as [|f].
  - injection Hf as ->. cbn [spread]. repeat case_match; eexists; try done. cbn. by rewrite set_data_id.
  - cbn [spread]. repeat case_match; by apply IH.
Qed.

(** One more entry: [P] are those passed, [x] the next. *)
Lemma spread_snoc_new P x :
  (∀ z, z ∈ P → in_group (e_ino x) z = false) →
  spread (group_data (P ++ [x])) [] (P ++ [x]) = spread (group_data P) [] P ++ [x].
Proof.
  intros Hz. rewrite spread_app. f_equal.
  - apply spread_ext. intros e He Hl _. apply group_data_snoc_out. apply not_true_iff_false.
    rewrite linked_in_group. intros [_ E].
    specialize (Hz e He). unfold in_group in Hz. by rewrite Hl, E, Z.eqb_refl in Hz.
  - cbn [spread]. destruct (linked x) eqn:Hl; [|done].
    rewrite bool_decide_eq_false_2.
    + f_equal. rewrite group_data_snoc_in; [apply set_data_id|by apply linked_in_group|].
      intros e He. by rewrite Hz.
    + rewrite elem_of_groups. intros [H|(e&He&Hg)]; [by apply elem_of_nil in H|]. by rewrite Hz in Hg.
Qed.

Lemma spread_snoc_plain P x :
  linked x = false → spread (group_data (P ++ [x])) [] (P ++ [x]) = spread (group_data P) [] P ++ [x].
Proof.
  intros Hl. rewrite spread_app. f_equal; [|cbn [spread]; by rewrite Hl].
  apply spread_ext. intros e _ _ _. apply group_data_snoc_out. unfold in_group. by rewrite Hl.
Qed.

Lemma spread_snoc_empty P x y :
  linked x = true → y ∈ P → in_group (e_ino x) y = true → nonempty (e_data x) = false →
  spread (group_data (P ++ [x])) [] (P ++ [x]) = spread (group_data P) [] P ++ [x].
Proof.
  intros Hl Hy Hg Hd. rewrite spread_app. f_equal.
  - apply spread_ext. intros e _ _ _. by apply group_data_snoc_empty.
  - cbn [spread]. rewrite Hl, bool_decide_eq_true_2 by (apply elem_of_groups; eauto).
    f_equal. destruct x as [nm [|]]; done.
Qed.

Lemma spread_snoc_moved P x f y :
  linked x = true → P !! f = Some y → in_group (e_ino x) y = true →
  (∀ j z, (j < f)%nat → P !! j = Some z → in_group (e_ino x) z = false) →
  (∀ e, e ∈ P → in_group (e_ino x) e = true → nonempty (e_data e) = false) →
  spread (group_data (P ++ [x])) [] (P ++ [x]) =
  <[f := set_data y (e_data x)]> (spread (group_data P) [] P) ++ [set_data x []].
Proof.
  intros Hl Hy Hg Hfirst Hd. assert (Hyl := Hg). apply linked_in_group in Hyl as [Hyl Hino].
  rewrite spread_app. f_equal.
  - rewrite spread_insert; [|done..|by intros ?%elem_of_nil|by rewrite Hino].
    apply spread_ext. intros e _ _ _. rewrite Hino. destruct (Z.eqb_spec (e_ino e) (e_ino x)) as [E|E].
    + rewrite E. apply group_data_snoc_in; [by apply linked_in_group|done].
    + apply group_data_snoc_out. apply not_true_iff_false. rewrite linked_in_group. intros [_ ?]. congruence.
  - cbn [spread]. rewrite Hl, bool_decide_eq_true_2; [done|].
    apply elem_of_groups. right. exists y. split; [by eapply list_elem_of_lookup_2|done].
Qed.

Lemma carry_step_spread L n first x :
  one_carrier L → L !! n = Some x → (∀ ino, first_at (take n L) first ino) →
  ∃ first', carry_step (spread (group_data (take n L)) [] (take n L) ++ drop n L, first) n =
    (spread (group_data (take (S n) L)) [] (take (S n) L) ++ drop (S n) L, first') ∧
    ∀ ino, first_at (take (S n) L) first' ino.
Proof.
  intros Hone Hx Hinv. assert (Hn := lookup_lt_Some _ _ _ Hx).
  rewrite (take_S_r _ _ _ Hx), (drop_S _ _ _ Hx). set (D := drop (S n) L).
  assert (Hsub : ∀ j z, take n L !! j = Some z → L !! j = Some z ∧ (j < n)%nat)
    by (intros j z; by rewrite lookup_take_Some).
  assert (HP : length (take n L) = n) by (rewrite length_take; lia).
  revert Hinv Hsub HP. generalize (take n L) as P. intros P Hinv Hsub HP.
  assert (Hlen : length (spread (group_data P) [] P) = n) by (by rewrite spread_length).
  unfold carry_step. rewrite lookup_app_r, Hlen, Nat.sub_diag by lia. cbn [lookup list_lookup].
  assert (Hkeep : spread (group_data (P ++ [x])) [] (P ++ [x]) = spread (group_data P) [] P ++ [x] →
    spread (group_data P) [] P ++ x :: D = spread (group_data (P ++ [x])) [] (P ++ [x]) ++ D)
    by (intros ->; by rewrite <-app_assoc).
  destruct (Z.leb_spec (e_nlink x) 1) as [Hnl|Hnl].
  - assert (Hl : linked x = false) by (unfold linked; lia). exists first.
    split; [f_equal; by apply Hkeep, spread_snoc_plain|].
    intros ino. apply first_at_snoc; [done|]. intros _. unfold in_group. by rewrite Hl.
  - assert (Hl : linked x = true) by (unfold linked; lia). assert (Hat := Hinv (e_ino x)). unfold first_at in Hat.
    destruct (first_of first (e_ino x)) as [f|] eqn:Ef.
    + destruct Hat as (y&Hy&Hg&Hfirst). assert (HyP : y ∈ P) by (by eapply list_elem_of_lookup_2).
      assert (Hat' : ∀ ino, first_at (P ++ [x]) first ino).
      { intros ino. apply first_at_snoc; [done|]. intros Hnone. apply not_true_iff_false.
        rewrite linked_in_group. intros [_ E]. rewrite <-E in Hnone. congruence. }
      destruct (nonempty (e_data x)) eqn:Ed.
      * destruct (spread_lookup (group_data P) [] P f y Hy) as (d&Hfd).
        rewrite (lookup_app_l_Some _ _ _ _ Hfd). exists first. split; [|done]. f_equal.
        assert (f < n)%nat by (rewrite <-HP; by eapply lookup_lt_Some).
        rewrite (spread_snoc_moved P x f y); try done.
        2:{ intros e [j Hj]%list_elem_of_lookup He. apply not_true_iff_false. intros Hne.
            apply linked_in_group in He as [Hel Hei]. destruct (Hsub _ _ Hj) as [HjL Hjn].
            specialize (Hone j n e x HjL Hx Hel Hl Hei Hne Ed). lia. }
        rewrite insert_app_r_alt by lia. rewrite Hlen, Nat.sub_diag. cbn [insert list_insert].
        rewrite insert_app_l by lia. by rewrite <-app_assoc.
      * exists first. split; [|done]. f_equal. apply Hkeep. by eapply spread_snoc_empty.
    + exists ((e_ino x, n) :: first). split; [f_equal; by apply Hkeep, spread_snoc_new|].
      intros ino. rewrite <-HP. by apply first_at_new.
Qed.

Lemma first_link_spread L : one_carrier L → first_link_carries_data L = spread (group_data L) [] L.
Proof.
  intros Hone.
  assert (H : ∀ n, (n <= length L)%nat → ∃ first,
    foldl carry_step (L, []) (seq 0 n) = (spread (group_data (take n L)) [] (take n L) ++ drop n L, first) ∧
    ∀ ino, first_at (take n L) first ino).
  { induction n as [|n IH]; intros Hn.
    - exists []. split; [done|]. intros ino. unfold first_at. cbn. by intros z ?%elem_of_nil.
    - destruct IH as (first&E&Hinv); [lia|]. rewrite seq_S, foldl_app, E. cbn [foldl Nat.add].
      destruct (lookup_lt_is_Some_2 L n) as [x Hx]; [lia|]. by apply carry_step_spread with x. }
  destruct (H (length L)) as (first&E&_); [lia|]. unfold first_link_carries_data. rewrite E. cbn [fst].
  rewrite drop_all, app_nil_r, firstn_all. done.
Qed.

(** The file registered for [e], when its bytes are [d]. *)
Definition file_of (e : Entry) (d : list Z) : option (text * list Z) :=
  if nonempty d then Some (text_of e, d) else None.

Lemma nonempty_len (d : list Z) : (0 <? zlen d) = nonempty d.
Proof. by destruct d. Qed.

Lemma read_spread G l : ∀ seen found,
  (∀ ino, link_bytes (f_links found) ino =
    if bool_decide (ino ∈ seen) then (if nonempty (G ino) then Some (G ino) else None) else None) →
  f_files (foldl read_step found (spread G seen l)) =
  f_files found ++ omap (λ e, file_of e (if linked e then G (e_ino e) else e_data e)) l.
Proof.
  induction l as [|e l IH]; intros seen found Hl; [cbn; by rewrite app_nil_r|].
  cbn [spread omap list_omap]. destruct (linked e) eqn:El; [case_bool_decide as Hs|].
  - cbn [foldl]. unfold read_step at 2, take_entry. cbn [e_data e_ino e_nlink set_data].
    change (text_of (set_data e [])) with (text_of e). rewrite nonempty_len. cbn [nonempty].
    unfold linked in El. rewrite El, Hl, bool_decide_eq_true_2 by done.
    unfold file_of. destruct (nonempty (G (e_ino e))); (rewrite IH; [|done]); [|done].
    cbn [f_files]. by rewrite <-app_assoc.
  - cbn [foldl]. unfold read_step at 2, take_entry. cbn [e_data e_ino e_nlink set_data].
    change (text_of (set_data e (G (e_ino e)))) with (text_of e). rewrite nonempty_len. unfold linked in El. rewrite El.
    unfold file_of. destruct (nonempty (G (e_ino e))) eqn:Eg.
    + rewrite IH; [cbn [f_files]; by rewrite <-app_assoc|]. intros ino. cbn [f_links].
      unfold link_bytes. rewrite find_app. unfold link_bytes in Hl. specialize (Hl ino).
      destruct (find _ (f_links found)) as [p|]; cbn [fmap option_fmap option_map] in *.
      * rewrite Hl. case_bool_decide; [|done]. by rewrite bool_decide_eq_true_2 by (by right).
      * cbn [find fst]. destruct (Z.eqb_spec (e_ino e) ino) as [<-|Hne].
        -- rewrite bool_decide_eq_true_2 by left. by rewrite Eg.
        -- revert Hl. case_bool_decide; [rewrite bool_decide_eq_true_2 by (by right)|rewrite bool_decide_eq_false_2].
           ++ by destruct (nonempty _).
           ++ done.
           ++ intros [?|?]%elem_of_cons; congruence.
    + assert (Hnone : link_bytes (f_links found) (e_ino e) = None) by (rewrite Hl; by case_bool_decide).
      rewrite Hnone, IH; [done|]. intros ino. rewrite Hl. destruct (decide (ino = e_ino e)) as [->|Hne].
      * rewrite Eg. by repeat case_bool_decide.
      * by rewrite (bool_decide_ext (ino ∈ (e_ino e :: seen)) (ino ∈ seen)) by (rewrite elem_of_cons; tauto).
  - cbn [foldl]. unfold read_step at 2, take_entry. unfold linked in El. rewrite El, nonempty_len. unfold file_of.
    destruct (nonempty (e_data e)); (rewrite IH; [|done]); [|done]. cbn [f_files]. by rewrite <-app_assoc.
Qed.

(** ** Sorting and duplicates *)

Definition has_name (name : list Z) (e : Entry) : bool := bool_decide (e_name e = name).

Lemma bytes_le_refl a : bytes_le a a = true.
Proof. induction a as [|x a IH]; [done|]. cbn [bytes_le]. by rewrite Z.eqb_refl, IH, orb_true_r. Qed.

Lemma bytes_le_total a b : bytes_le a b = false → bytes_le b a = true.
Proof.
  revert b. induction a as [|x a IH]; intros [|y b]; cbn [bytes_le]; try done.
  rewrite orb_false_iff, andb_false_iff. intros [Hlt [Hne|Hle]].
  - assert ((y <? x) = true) as -> by lia. done.
  - rewrite (IH _ Hle). destruct (Z.ltb_spec y x); [done|]. assert ((y =? x) = true) as -> by lia. done.
Qed.

Lemma bytes_le_trans a b c : bytes_le a b = true → bytes_le b c = true → bytes_le a c = true.
Proof.
  revert b c. induction a as [|x a IH]; intros [|y b] [|z c]; cbn [bytes_le]; try done.
  rewrite !orb_true_iff, !andb_true_iff, !Z.ltb_lt, !Z.eqb_eq.
  intros [?|[-> H]] [?|[-> H']]; [left; lia..|right]. split; [done|by eapply IH].
Qed.

Lemma bytes_le_antisym a b : bytes_le a b = true → bytes_le b a = true → a = b.
Proof.
  revert b. induction a as [|x a IH]; intros [|y b]; cbn [bytes_le]; try done.
  rewrite !orb_true_iff, !andb_true_iff, !Z.ltb_lt, !Z.eqb_eq.
  intros [?|[-> H]] [?|[? H']]; try lia. f_equal. by apply IH.
Qed.

Definition name_le (a b : Entry) : Prop := bytes_le (e_name a) (e_name b) = true.

Lemma elem_of_insert_entry e l x : x ∈ insert_entry e l ↔ x = e ∨ x ∈ l.
Proof.
  induction l as [|y l IH]; cbn [insert_entry]; [by rewrite elem_of_cons|].
  case_match; rewrite !elem_of_cons; [done|]. rewrite IH. tauto.
Qed.

Lemma sort_entries_sorted l : StronglySorted name_le (sort_entries l).
Proof.
  induction l as [|e l IH]; [constructor|]. cbn [sort_entries foldr]. fold (sort_entries l).
  revert IH. generalize (sort_entries l) as s. induction 1 as [|x s Hs IH Hx]; cbn [insert_entry].
  - repeat constructor.
  - destruct (bytes_le (e_name e) (e_name x)) eqn:E; constructor.
    + by constructor.
    + constructor; [done|]. eapply Forall_impl; [exact Hx|]. intros y Hy. by eapply bytes_le_trans.
    + done.
    + apply Forall_forall. intros y [->|Hy]%elem_of_insert_entry; [by apply bytes_le_total|].
      rewrite Forall_forall in Hx. by apply Hx.
Qed.

Lemma dedup_from_spec prev l :
  StronglySorted name_le (prev :: l) →
  NoDup (e_name <$> dedup_from prev l) ∧
  Forall (λ x, name_le prev x ∧ e_name x ≠ e_name prev) (dedup_from prev l).
Proof.
  revert prev. induction l as [|x l IH]; intros prev Hs; cbn [dedup_from]; [by repeat constructor|].
  apply StronglySorted_inv in Hs as [Hs Hall]. apply Forall_cons in Hall as [Hpx Hall].
  case_bool_decide as E.
  - apply IH. apply StronglySorted_inv in Hs as [Hs _]. by constructor.
  - destruct (IH x Hs) as [Hnd Hgt]. split.
    + cbn [fmap list_fmap]. apply NoDup_cons. split; [|done].
      intros (y&Ey&Hy)%list_elem_of_fmap. rewrite Forall_forall in Hgt. destruct (Hgt y Hy) as [_ Hne]. congruence.
    + constructor; [done|]. eapply Forall_impl; [exact Hgt|]. intros y [Hxy Hne]. split; [by eapply bytes_le_trans|].
      intros Ey. apply E. unfold name_le in *. rewrite Ey in Hxy. by apply bytes_le_antisym.
Qed.

Lemma dedup_names l : NoDup (e_name <$> dedup_entries (sort_entries l)).
Proof.
  pose proof (sort_entries_sorted l) as Hs. destruct (sort_entries l) as [|x s]; [constructor|].
  destruct (dedup_from_spec x s Hs) as [Hnd Hgt]. cbn [dedup_entries fmap list_fmap]. apply NoDup_cons.
  split; [|done]. intros (y&Ey&Hy)%list_elem_of_fmap. rewrite Forall_forall in Hgt. destruct (Hgt y Hy). congruence.
Qed.

Lemma find_sort name l : find (has_name name) (sort_entries l) = find (has_name name) l.
Proof.
  induction l as [|e l IH]; [done|]. cbn [sort_entries foldr find]. fold (sort_entries l). rewrite <-IH.
  generalize (sort_entries l) as s. induction s as [|x s IHs]; [done|]. cbn [insert_entry].
  destruct (bytes_le (e_name e) (e_name x)) eqn:E; [done|]. cbn [find]. rewrite IHs.
  unfold has_name. repeat case_bool_decide; try done. subst. rewrite H0, bytes_le_refl in E. done.
Qed.

Lemma find_dedup name l : find (has_name name) (dedup_entries l) = find (has_name name) l.
Proof.
  destruct l as [|x l]; [done|]. cbn [dedup_entries find]. destruct (has_name name x) eqn:Ex; [done|].
  revert x Ex. induction l as [|y l IH]; intros x Ex; [done|]. cbn [dedup_from find].
  case_bool_decide as E; cbn [find].
  - rewrite IH by done. unfold has_name in *. by rewrite E, Ex.
  - destruct (has_name name y) eqn:Ey; [done|by apply IH].
Qed.

(** ** The entries the build collects *)

Inductive Collect : Type :=
  | Add (rel : list Z) (data : option (list Z))
  | AddMode (rel data : list Z) (mode : Z)
  | AddGroup (names : list (list Z)) (data : option (list Z)).

Definition collect_one (entries : list Entry) (c : Collect) : list Entry :=
  match c with
  | Add rel data => add entries rel data
  | AddMode rel data mode => add_mode entries rel data mode
  | AddGroup names data => add_hardlink_group entries names data
  end.
Definition collect (cs : list Collect) : list Entry := foldl collect_one [] cs.

Lemma filter_none {A} (P : A → Prop) `{∀ x, Decision (P x)} l : (∀ x, x ∈ l → ¬ P x) → filter P l = [].
Proof.
  induction l as [|x l IH]; intros Hn; [done|]. rewrite filter_cons_False by (apply Hn; left).
  apply IH. intros y Hy. apply Hn. by right.
Qed.

Definition carriers (ino : Z) (l : list Entry) : list Entry :=
  filter (λ e, in_group ino e && nonempty (e_data e) = true) l.

Definition collected (l : list Entry) : Prop :=
  Forall (λ e, e_ino e <= zlen l) l ∧ ∀ ino, (length (carriers ino l) <= 1)%nat.

Lemma carriers_fresh ino l : Forall (λ e, e_ino e <= zlen l) l → zlen l < ino → carriers ino l = [].
Proof.
  intros Hl Hi. unfold carriers. apply filter_none. intros e He. rewrite Forall_forall in Hl. specialize (Hl e He).
  rewrite andb_true_iff, linked_in_group. lia.
Qed.

Lemma collected_snoc l new :
  collected l → Forall (λ e, e_ino e = zlen l + 1) new → (length (carriers (zlen l + 1) new) <= 1)%nat →
  collected (l ++ new).
Proof.
  intros [Hino Hc] Hnew Hone. destruct new as [|n0 new0]; [by rewrite app_nil_r|]. assert (Hpos : (0 < length (n0 :: new0))%nat) by (cbn; lia). revert Hpos Hnew Hone.
  generalize (n0 :: new0) as new. clear n0 new0. intros new Hpos Hnew Hone. split.
  - rewrite length_app. apply Forall_app. split; (eapply Forall_impl; [eassumption|]); intros e He; simpl in He; lia.
  - intros ino. unfold carriers in *. rewrite filter_app, length_app. destruct (decide (ino = zlen l + 1)) as [->|Hne].
    + fold (carriers (zlen l + 1) l). rewrite carriers_fresh by (done || lia). done.
    + assert (E : filter (λ e, in_group ino e && nonempty (e_data e) = true) new = []).
      { apply filter_none. intros e He. rewrite Forall_forall in Hnew. specialize (Hnew e He).
        rewrite andb_true_iff, linked_in_group. lia. }
      rewrite E. specialize (Hc ino). cbn [length]. lia.
Qed.

Lemma carriers_unlinked ino e : linked e = false → carriers ino [e] = [].
Proof. intros H. apply filter_none. intros x ->%list_elem_of_singleton. unfold in_group. by rewrite H. Qed.

Lemma collected_collect cs : collected (collect cs).
Proof.
  unfold collect. assert (H0 : collected []) by (split; [constructor|intros ino; cbn; lia]).
  revert H0. generalize (@nil Entry) as l. induction cs as [|c cs IH]; intros l Hl; [done|]. cbn [foldl]. apply IH.
  destruct c as [rel [data|]|rel data mode|names [data|]]; cbn [collect_one add add_hardlink_group]; try done.
  1,2: apply collected_snoc; [done|by apply Forall_singleton|by rewrite carriers_unlinked; [cbn; lia|]].
  apply collected_snoc; [done| |].
  - apply Forall_forall. intros e He. apply elem_of_lookup_imap in He as (i&name&->&_). done.
  - destruct names as [|n0 names]; [cbn; lia|]. cbn [imap]. unfold carriers. rewrite filter_cons.
    assert (E : filter (λ e, in_group (zlen l + 1) e && nonempty (e_data e) = true)
      (imap (link_entry data (next_ino l) (Z.max (zlen (n0 :: names)) 1) ∘ S) names) = []).
    { apply filter_none. intros e He. apply elem_of_lookup_imap in He as (i&name&->&_).
      cbn. by rewrite andb_false_r. }
    rewrite E. case_decide; cbn; lia.
Qed.

Lemma carriers_one l : (∀ ino, (length (carriers ino l) <= 1)%nat) → one_carrier l.
Proof.
  intros H i j x y Hx Hy Hlx Hly Hino Hdx Hdy. specialize (H (e_ino x)).
  destruct (lt_eq_lt_dec i j) as [[Hlt|E]|Hlt]; [|done|]; exfalso.
  1: rewrite <-(take_drop_middle l i x Hx) in H; assert (Hd : drop (S i) l !! (j - S i)%nat = Some y)
       by (rewrite lookup_drop; rewrite <-Hy; f_equal; lia).
  2: rewrite <-(take_drop_middle l j y Hy) in H; assert (Hd : drop (S j) l !! (i - S j)%nat = Some x)
       by (rewrite lookup_drop; rewrite <-Hx; f_equal; lia).
  all: apply list_elem_of_lookup_2, list_elem_of_split in Hd as (l1&l2&E); rewrite E in H; unfold carriers in H.
  all: rewrite filter_app, filter_cons_True, filter_app, filter_cons_True, length_app in H;
    [cbn [length] in H; rewrite length_app in H; cbn [length] in H; lia|..].
  all: by rewrite (proj2 (linked_in_group _ _)), ?Hdx, ?Hdy.
Qed.

Lemma insert_entry_perm e l : insert_entry e l ≡ₚ (e :: l).
Proof.
  induction l as [|x l IH]; [done|]. cbn [insert_entry]. case_match; [done|]. rewrite IH. apply Permutation_swap.
Qed.

Lemma sort_entries_perm l : sort_entries l ≡ₚ l.
Proof. induction l as [|e l IH]; [done|]. cbn [sort_entries foldr]. rewrite insert_entry_perm. by constructor. Qed.

Lemma dedup_from_sub prev l : sublist (dedup_from prev l) l.
Proof.
  revert prev. induction l as [|x l IH]; intros prev; cbn [dedup_from]; [constructor|].
  case_bool_decide; [by apply sublist_cons|by apply sublist_skip].
Qed.

Lemma dedup_sub l : sublist (dedup_entries l) l.
Proof. destruct l as [|x l]; [constructor|]. apply sublist_skip, dedup_from_sub. Qed.

Lemma carriers_sub ino l k : sublist l k → (length (carriers ino l) <= length (carriers ino k))%nat.
Proof.
  unfold carriers. induction 1 as [|x l k _ IH|x l k _ IH]; [done| |]; rewrite ?filter_cons; repeat case_decide;
    cbn [length]; lia.
Qed.

(** The entries written for [es]. *)
Definition kept (es : list Entry) : list Entry := dedup_entries (sort_entries es).

Lemma kept_elem es e : e ∈ kept es → e ∈ es.
Proof. intros He. rewrite <-(sort_entries_perm es). by eapply elem_of_submseteq, sublist_submseteq, dedup_sub. Qed.

Lemma kept_one_carrier cs es : sublist es (collect cs) → one_carrier (kept es).
Proof.
  intros Hsub. apply carriers_one. intros ino.
  etrans; [apply carriers_sub, dedup_sub|]. unfold carriers. rewrite sort_entries_perm.
  etrans; [apply (carriers_sub ino), Hsub|]. apply collected_collect.
Qed.

Lemma group_data_from l ino : group_data l ino = [] ∨ ∃ e, e ∈ l ∧ group_data l ino = e_data e.
Proof.
  unfold group_data. destruct (find _ l) as [e|] eqn:E; [|by left]. right. exists e. split; [|done].
  apply find_some in E as [H _]. by apply list_elem_of_In.
Qed.

Lemma spread_ok L seen l :
  Forall named_ok L → Forall named_ok l → Forall named_ok (spread (group_data L) seen l).
Proof.
  intros HL Hl. revert seen. induction Hl as [|e l He Hl IH]; intros seen; cbn [spread]; [constructor|].
  assert (Hset : ∀ d, zlen d < 2 ^ 32 → named_ok (set_data e d)).
  { destruct He as [(?&?&?&_&He) Ht]. intros d Hd. split; [|exact Ht]. unfold entry_ok.
    change (text_of (set_data e d)) with (text_of e). cbn [e_ino e_nlink e_mode e_name e_data set_data]. tauto. }
  repeat case_match; (constructor; [|apply IH]); [apply Hset; cbn; lia| |done]. apply Hset.
  destruct (group_data_from L (e_ino e)) as [->|(x&Hx&->)]; [cbn; lia|].
  rewrite Forall_forall in HL. apply (HL x Hx).
Qed.

(** The kernel's reader ends, without a panic, on any bytes: on no
    archive, a truncated one or a forged one does it index past the data
    or run on. *)
Theorem cpio_parse_total data : zlen data < 2 ^ 62 → is_Some (parse data).
Proof.
  intros Hd. unfold parse. apply fmap_is_Some. apply parse_loop_total; [done|lia|lia|].
  rewrite Nat2Z.inj_succ, Nat2Z.inj_div. pose proof (Z.mod_pos_bound (zlen data) 110).
  pose proof (Z.div_mod (zlen data) 110). lia.
Qed.

Lemma cpio_parse_total_witness :
  is_Some (parse (str "070701" ++ concat (replicate 13 (str "ffffffff")) ++ [1; 2; 3])).
Proof. apply cpio_parse_total. vm_compute. reflexivity. Defined.

(** C33: what the build archives is what the kernel registers.  For
    entries collected by [add], [add_mode] and [add_hardlink_group] (all of
    them or a part, as the image and the tests are split), the archive reads
    back as the entries kept, in the order of their names, each with its
    own bytes or, in a hard-link group, with the group's bytes, wherever
    the sort put the entry that had them; entries with no bytes are not
    registered.  Of entries with one name the first added is kept. *)
Theorem archive_roundtrip cs es :
  sublist es (collect cs) → Forall named_ok es → zlen (archive es) < 2 ^ 62 →
  parse (archive es) = Some (omap (λ e, file_of e (content (kept es) e)) (kept es)) ∧
  NoDup (e_name <$> kept es) ∧
  ∀ name, find (has_name name) (kept es) = find (has_name name) es.
Proof.
  intros Hsub Hok Hlen. split; [|split; [apply dedup_names|]].
  - unfold archive in *. fold (kept es) in *. pose proof (kept_one_carrier cs es Hsub) as Hone.
    rewrite first_link_spread in * by done.
    assert (Hk : Forall named_ok (kept es)).
    { apply Forall_forall. intros e He%kept_elem. rewrite Forall_forall in Hok. by apply Hok. }
    rewrite parse_write_newc by (done || by apply spread_ok). f_equal. by apply read_spread.
  - intros name. unfold kept. by rewrite find_dedup, find_sort.
Qed.

Definition ex_collect : list Collect :=
  [AddGroup [str "bin/poweroff"; str "bin/halt"] (Some (str "ELF")); Add (str "etc/motd") (Some (str "hello"));
   AddMode (str "etc/empty") [] 33188; Add (str "etc/motd") (Some (str "later"))].

Lemma archive_roundtrip_witness :
  parse (archive (collect ex_collect)) =
  Some [(str "bin/halt", str "ELF"); (str "bin/poweroff", str "ELF"); (str "etc/motd", str "hello")].
Proof.
  destruct (archive_roundtrip ex_collect (collect ex_collect)) as [H _].
  - reflexivity.
  - unfold named_ok, entry_ok. repeat (apply Forall_cons; split; [|]); [..|constructor].
    all: vm_compute; repeat split; try discriminate.
    all: intros H; repeat (apply elem_of_cons in H as [H|H]; [discriminate|]); by apply elem_of_nil in H.
  - vm_compute. reflexivity.
  - rewrite H. vm_compute. reflexivity.
Defined.
