(* ===== verification/TaskSet.v ===== *)
(** * Sets of task slots ([kernel/src/task/bits.rs])

    A bit per slot in 64-bit words.  [SlotSet] is what the scheduler relies
    on; [TaskBits] implements it. *)

From S2P Require Import Prelude.
From stdpp Require Import list sorting.

Open Scope Z_scope.

Definition MAX_TASKS : nat := 512.
Definition WORDS : nat := 8.

(** ** The interface *)

(** The turns from slot [cur] to [s] in a round of all slots. *)
Definition turns (cur s : nat) : nat := if decide (cur < s)%nat then s - cur else s + MAX_TASKS - cur.

Class SlotSet (T : Type) := {
  s_empty : T;
  s_insert : nat → T → T;
  s_remove : nat → T → T;
  s_contains : T → nat → bool;
  s_is_empty : T → bool;
  s_union : T → T → T;
  s_iter : T → list nat;
  s_next_after : T → nat → option nat;
  set_ok : T → Prop }.

Class SlotSetLaws (T : Type) `{SlotSet T} := {
  s_empty_ok : set_ok s_empty;
  insert_ok s q : set_ok q → (s < MAX_TASKS)%nat → set_ok (s_insert s q);
  remove_ok s q : set_ok q → (s < MAX_TASKS)%nat → set_ok (s_remove s q);
  union_ok q q' : set_ok q → set_ok q' → set_ok (s_union q q');
  contains_bound q s : s_contains q s = true → (s < MAX_TASKS)%nat;
  contains_empty s : s_contains s_empty s = false;
  contains_insert q s t : set_ok q → (s < MAX_TASKS)%nat →
    s_contains (s_insert s q) t = bool_decide (t = s) || s_contains q t;
  contains_remove q s t : set_ok q → (s < MAX_TASKS)%nat →
    s_contains (s_remove s q) t = negb (bool_decide (t = s)) && s_contains q t;
  contains_union q q' s : set_ok q → set_ok q' → s_contains (s_union q q') s = s_contains q s || s_contains q' s;
  is_empty_spec q : set_ok q → s_is_empty q = true ↔ ∀ s, s_contains q s = false;
  iter_spec q s : set_ok q → s ∈ s_iter q ↔ s_contains q s = true;
  iter_sorted q : set_ok q → StronglySorted lt (s_iter q);
  next_after_none q cur : set_ok q → s_next_after q cur = None ↔ ∀ s, s_contains q s = false;
  next_after_some q cur n : set_ok q → s_next_after q cur = Some n →
    s_contains q n = true ∧ ∀ m, s_contains q m = true → (turns cur n <= turns cur m)%nat }.

(** ** The bit sets *)

Abbreviation TaskBits := (list Z) (only parsing).

Definition bits_EMPTY : TaskBits := replicate WORDS 0.

(** [1 << (slot % 64)] of word [slot / 64] *)
Definition word (self : TaskBits) (slot : nat) : Z := default 0 (self !! (slot / 64)%nat).
Definition bit (slot : nat) : Z := Z.shiftl 1 (Z.of_nat (slot mod 64)).

(** [insert] and, with [fetch_or], [AtomicTaskSet::insert] *)
Definition bits_insert (slot : nat) (self : TaskBits) : TaskBits :=
  <[(slot / 64)%nat := Z.lor (word self slot) (bit slot)]> self.

(** [fetch_and(!bit)] *)
Definition bits_remove (slot : nat) (self : TaskBits) : TaskBits :=
  <[(slot / 64)%nat := Z.ldiff (word self slot) (bit slot)]> self.

Definition bits_contains (self : TaskBits) (slot : nat) : bool :=
  bool_decide (slot < MAX_TASKS)%nat && negb (Z.land (word self slot) (bit slot) =? 0).

Definition bits_is_empty (self : TaskBits) : bool := forallb (λ w, w =? 0) self.

Definition bits_union (self other : TaskBits) : TaskBits := zip_with Z.lor self other.

(** [w.trailing_zeros()] of a word that is not 0 *)
Fixpoint trailing_zeros_pos (p : positive) : nat :=
  match p with xO p' => S (trailing_zeros_pos p') | _ => 0%nat end.
Definition trailing_zeros (w : Z) : nat :=
  match w with Zpos p => trailing_zeros_pos p | _ => 64%nat end.

(** The bits of one word, lowest first: each turn clears one. *)
Fixpoint drain (fuel : nat) (w : Z) : list nat :=
  match fuel with
  | O => []
  | S fuel' => if w =? 0 then [] else trailing_zeros w :: drain fuel' (Z.land w (w - 1))
  end.

Definition bits_iter (self : TaskBits) : list nat :=
  concat (imap (λ i w, (λ b, (i * 64 + b)%nat) <$> drain 64 w) self).

Definition bits_next_after (self : TaskBits) (current : nat) : option nat :=
  match find (λ s, bool_decide (current < s)%nat) (bits_iter self) with
  | Some s => Some s
  | None => head (bits_iter self)
  end.

Definition bits_ok (self : TaskBits) : Prop :=
  length self = WORDS ∧ Forall (λ w, 0 <= w < 2 ^ 64) self.

#[export] Instance TaskBits_set : SlotSet TaskBits := {
  s_empty := bits_EMPTY; s_insert := bits_insert; s_remove := bits_remove; s_contains := bits_contains;
  s_is_empty := bits_is_empty; s_union := bits_union; s_iter := bits_iter; s_next_after := bits_next_after;
  set_ok := bits_ok }.

(** ** One word *)

Lemma trailing_zeros_spec p :
  Z.testbit (Zpos p) (Z.of_nat (trailing_zeros_pos p)) = true ∧
  (∀ i, 0 <= i < Z.of_nat (trailing_zeros_pos p) → Z.testbit (Zpos p) i = false).
Proof.
  induction p as [p _|p [IH1 IH2]|]; cbn [trailing_zeros_pos].
  - split; [done|lia].
  - rewrite Nat2Z.inj_succ. change (Z.pos p~0) with (2 * Z.pos p). split.
    + rewrite Z.testbit_even_succ by lia. done.
    + intros i Hi. destruct (decide (i = 0)) as [->|]; [by rewrite Z.testbit_even_0|].
      replace i with (Z.succ (i - 1)) by lia. rewrite Z.testbit_even_succ by lia. apply IH2. lia.
  - split; [done|lia].
Qed.

Lemma land_pred p i : 0 <= i →
  Z.testbit (Z.land (Zpos p) (Zpos p - 1)) i =
  Z.testbit (Zpos p) i && negb (i =? Z.of_nat (trailing_zeros_pos p)).
Proof.
  revert i. induction p as [p _|p IH|]; intros i Hi; rewrite Z.land_spec; cbn [trailing_zeros_pos].
  - replace (Z.pos p~1 - 1) with (2 * Z.pos p) by lia. change (Z.pos p~1) with (2 * Z.pos p + 1).
    destruct (decide (i = 0)) as [->|]; [by rewrite Z.testbit_even_0, Z.testbit_odd_0|].
    replace i with (Z.succ (i - 1)) by lia. rewrite Z.testbit_even_succ, Z.testbit_odd_succ by lia.
    rewrite (proj2 (Z.eqb_neq _ _)) by lia. cbn [negb]. by rewrite andb_diag, andb_true_r.
  - rewrite Nat2Z.inj_succ. replace (Z.pos p~0 - 1) with (2 * (Z.pos p - 1) + 1) by lia.
    change (Z.pos p~0) with (2 * Z.pos p).
    destruct (decide (i = 0)) as [->|]; [by rewrite Z.testbit_even_0|].
    replace i with (Z.succ (i - 1)) by lia. rewrite Z.testbit_even_succ, Z.testbit_odd_succ by lia.
    rewrite <-Z.land_spec, IH by lia. f_equal. f_equal.
    destruct (Z.eqb_spec (i - 1) (Z.of_nat (trailing_zeros_pos p))); symmetry; [apply Z.eqb_eq|apply Z.eqb_neq]; lia.
  - change (Z.pos 1 - 1) with 0. rewrite Z.bits_0, andb_false_r. symmetry.
    destruct (Z.eqb_spec i (Z.of_nat 0)); [by rewrite andb_false_r|].
    replace i with (Z.succ (i - 1)) by lia. by rewrite (Z.testbit_odd_succ 0), Z.bits_0 by lia.
Qed.

Lemma testbit_high w i : 0 <= w < 2 ^ 64 → 64 <= i → Z.testbit w i = false.
Proof. intros Hw Hi. rewrite <-(Z.mod_small w (2 ^ 64)) by done. by apply Z.mod_pow2_bits_high. Qed.

Lemma drain_spec fuel w k :
  0 <= w < 2 ^ 64 → (∀ i, 0 <= i < Z.of_nat k → Z.testbit w i = false) → (64 <= fuel + k)%nat →
  (∀ b : nat, b ∈ drain fuel w ↔ Z.testbit w (Z.of_nat b) = true) ∧
  StronglySorted lt (drain fuel w) ∧ Forall (λ b, k <= b < 64)%nat (drain fuel w).
Proof.
  revert w k. induction fuel as [|fuel IH]; intros w k Hw Hk Hf; cbn [drain].
  - split; [|split; constructor]. intros b. split; [by intros ?%elem_of_nil|]. intros Hb. exfalso.
    destruct (decide (b < 64)%nat); [rewrite Hk in Hb by lia|rewrite testbit_high in Hb by lia]; done.
  - destruct (Z.eqb_spec w 0) as [->|Hne].
    { split; [|split; constructor]. intros b. rewrite Z.bits_0. split; [by intros ?%elem_of_nil|done]. }
    destruct w as [|p|p]; [done| |lia]. cbn [trailing_zeros].
    destruct (trailing_zeros_spec p) as [Hset Hlow]. set (b0 := trailing_zeros_pos p) in *.
    assert (Hkb : (k <= b0)%nat) by (apply Nat.nlt_ge; intros ?; rewrite Hk in Hset by lia; done).
    assert (Hb64 : (b0 < 64)%nat) by (apply Nat.nle_gt; intros ?; rewrite testbit_high in Hset by lia; done).
    set (w' := Z.land (Z.pos p) (Z.pos p - 1)).
    assert (Hbits : ∀ i, 0 <= i → Z.testbit w' i = Z.testbit (Z.pos p) i && negb (i =? Z.of_nat b0))
      by (intros; by apply land_pred).
    destruct (IH w' (S b0)) as (Hel&Hs&Hf').
    + assert (0 <= w') by (apply Z.land_nonneg; lia). split; [done|].
      destruct (decide (w' = 0)) as [->|]; [lia|]. apply Z.log2_lt_pow2; [lia|].
      apply Z.nle_gt. intros Hlog. assert (Ht := Z.bit_log2 w' ltac:(lia)).
      rewrite Hbits, testbit_high in Ht by (done || lia). done.
    + intros i Hi. rewrite Hbits by lia. destruct (Z.eqb_spec i (Z.of_nat b0)); [by rewrite andb_false_r|].
      rewrite Hlow by lia. done.
    + lia.
    + split; [|split].
      * intros b. rewrite elem_of_cons, Hel, Hbits by lia.
        destruct (Z.eqb_spec (Z.of_nat b) (Z.of_nat b0)) as [E|E].
        -- apply Nat2Z.inj in E as ->. rewrite Hset. tauto.
        -- rewrite andb_true_r. split; [intros [->|]; done|by right].
      * constructor; [done|]. eapply Forall_impl; [exact Hf'|]. intros b ?. simpl in *. lia.
      * constructor; [lia|]. eapply Forall_impl; [exact Hf'|]. intros b ?. simpl in *. lia.
Qed.

(** ** The sets *)

Lemma word_lt slot : (slot < MAX_TASKS)%nat → (slot / 64 < WORDS)%nat.
Proof. intros H. apply Nat.Div0.div_lt_upper_bound. unfold MAX_TASKS, WORDS in *. lia. Qed.

Lemma bit_spec slot i : 0 <= i → Z.testbit (bit slot) i = (i =? Z.of_nat (slot mod 64)).
Proof.
  intros Hi. unfold bit. rewrite Z.shiftl_1_l, Z.pow2_bits_eqb by lia. apply Z.eqb_sym.
Qed.

Lemma land_slot_bit w slot :
  negb (Z.land w (bit slot) =? 0) = Z.testbit w (Z.of_nat (slot mod 64)).
Proof.
  destruct (Z.testbit w (Z.of_nat (slot mod 64))) eqn:E.
  - apply negb_true_iff, Z.eqb_neq. intros H0.
    assert (H : Z.testbit (Z.land w (bit slot)) (Z.of_nat (slot mod 64)) = false) by (by rewrite H0, Z.bits_0).
    by rewrite Z.land_spec, E, bit_spec, Z.eqb_refl in H by lia.
  - apply negb_false_iff, Z.eqb_eq. apply Z.bits_inj'. intros i Hi. rewrite Z.land_spec, bit_spec, Z.bits_0 by done.
    destruct (Z.eqb_spec i (Z.of_nat (slot mod 64))) as [->|]; [by rewrite E|apply andb_false_r].
Qed.

Lemma bits_contains_spec q slot :
  bits_contains q slot = bool_decide (slot < MAX_TASKS)%nat && Z.testbit (word q slot) (Z.of_nat (slot mod 64)).
Proof. unfold bits_contains. by rewrite land_slot_bit. Qed.

Lemma word_ok q i w : bits_ok q → q !! i = Some w → 0 <= w < 2 ^ 64.
Proof. intros [_ Hq] Hw. by apply (Forall_lookup_1 _ _ _ _ Hq Hw). Qed.

(** A word in range, from its bits. *)
Lemma bits_range w : 0 <= w → (∀ i, 64 <= i → Z.testbit w i = false) → 0 <= w < 2 ^ 64.
Proof.
  intros H0 Hb. split; [done|]. destruct (decide (w = 0)) as [->|]; [lia|].
  apply Z.log2_lt_pow2; [lia|]. apply Z.nle_gt. intros Hlog.
  assert (Ht := Z.bit_log2 w ltac:(lia)). rewrite Hb in Ht by done. done.
Qed.

Lemma word_range q slot : bits_ok q → 0 <= word q slot < 2 ^ 64.
Proof. intros Hq. unfold word. destruct (q !! _) eqn:E; [by eapply word_ok|simpl; lia]. Qed.

Lemma bits_update_ok q slot w : bits_ok q → 0 <= w < 2 ^ 64 → bits_ok (<[(slot / 64)%nat := w]> q).
Proof. intros [Hl Hf] Hw. split; [by rewrite length_insert|]. by apply Forall_insert. Qed.

Lemma bits_insert_ok slot q : bits_ok q → bits_ok (bits_insert slot q).
Proof.
  intros Hq. apply bits_update_ok; [done|]. assert (Hw := word_range q slot Hq).
  apply bits_range; [apply Z.lor_nonneg; split; [lia|]; unfold bit; apply Z.shiftl_nonneg; lia|].
  intros i Hi. rewrite Z.lor_spec, bit_spec, testbit_high by (done || lia). apply Z.eqb_neq.
  pose proof (Nat.mod_upper_bound slot 64 ltac:(lia)). lia.
Qed.

Lemma bits_remove_ok slot q : bits_ok q → bits_ok (bits_remove slot q).
Proof.
  intros Hq. apply bits_update_ok; [done|]. assert (Hw := word_range q slot Hq).
  apply bits_range; [apply Z.ldiff_nonneg; left; lia|].
  intros i Hi. by rewrite Z.ldiff_spec, testbit_high.
Qed.

(** Changing slot [s]'s word changes slot [s]'s bit only. *)
Lemma contains_update q s t w b :
  bits_ok q → (s < MAX_TASKS)%nat →
  (∀ i, 0 <= i → Z.testbit w i = if i =? Z.of_nat (s mod 64) then b else Z.testbit (word q s) i) →
  bits_contains (<[(s / 64)%nat := w]> q) t = if bool_decide (t = s) then b else bits_contains q t.
Proof.
  intros [Hl _] Hs Hw. rewrite !bits_contains_spec. unfold word.
  destruct (decide (t / 64 = s / 64)%nat) as [E|E].
  - rewrite E, list_lookup_insert_eq by (rewrite Hl; by apply word_lt). cbn [default]. rewrite Hw by lia.
    case_bool_decide as Ht; [|case_bool_decide as Hts; [by subst|done]]. cbn [andb].
    destruct (Z.eqb_spec (Z.of_nat (t mod 64)) (Z.of_nat (s mod 64))) as [Em|Em].
    + rewrite (bool_decide_eq_true_2 (t = s)); [done|].
      rewrite (Nat.div_mod t 64), (Nat.div_mod s 64) by lia. lia.
    + rewrite (bool_decide_eq_false_2 (t = s)) by (intros ->; done). done.
  - rewrite list_lookup_insert_ne by done. rewrite (bool_decide_eq_false_2 (t = s)) by (intros ->; done). done.
Qed.

Lemma bits_contains_insert q s t : bits_ok q → (s < MAX_TASKS)%nat →
  bits_contains (bits_insert s q) t = bool_decide (t = s) || bits_contains q t.
Proof.
  intros Hq Hs. unfold bits_insert. rewrite (contains_update q s t _ true); [by case_bool_decide|done|done|].
  intros i Hi. rewrite Z.lor_spec, bit_spec by done. case_match; [apply orb_true_r|apply orb_false_r].
Qed.

Lemma bits_contains_remove q s t : bits_ok q → (s < MAX_TASKS)%nat →
  bits_contains (bits_remove s q) t = negb (bool_decide (t = s)) && bits_contains q t.
Proof.
  intros Hq Hs. unfold bits_remove. rewrite (contains_update q s t _ false); [by case_bool_decide|done|done|].
  intros i Hi. rewrite Z.ldiff_spec, bit_spec by done. case_match; [apply andb_false_r|apply andb_true_r].
Qed.

Lemma word_union q q' s : bits_ok q → bits_ok q' → word (bits_union q q') s = Z.lor (word q s) (word q' s).
Proof.
  intros [Hl _] [Hl' _]. unfold word, bits_union. rewrite lookup_zip_with.
  destruct (q !! (s / 64)%nat) eqn:E, (q' !! (s / 64)%nat) eqn:E'; cbn; try done.
  - apply lookup_lt_Some in E. apply lookup_ge_None in E'. lia.
  - apply lookup_lt_Some in E'. apply lookup_ge_None in E. lia.
Qed.

Lemma bits_union_ok q q' : bits_ok q → bits_ok q' → bits_ok (bits_union q q').
Proof.
  intros Hq Hq'. split; [unfold bits_union; rewrite length_zip_with; destruct Hq, Hq'; lia|].
  apply Forall_lookup. intros i w Hw. unfold bits_union in Hw. apply lookup_zip_with_Some in Hw as (x&y&->&Hx&Hy).
  pose proof (word_ok _ _ _ Hq Hx). pose proof (word_ok _ _ _ Hq' Hy).
  apply bits_range; [apply Z.lor_nonneg; lia|]. intros j Hj. by rewrite Z.lor_spec, !testbit_high.
Qed.

Lemma bits_contains_union q q' s : bits_ok q → bits_ok q' →
  bits_contains (bits_union q q') s = bits_contains q s || bits_contains q' s.
Proof.
  intros Hq Hq'. rewrite !bits_contains_spec, word_union, Z.lor_spec by done. by case_bool_decide.
Qed.

(** The slots of the words from [j] on. *)
Definition iter_from (j : nat) (q : TaskBits) : list nat :=
  concat (imap (λ i w, (λ b, ((j + i) * 64 + b)%nat) <$> drain 64 w) q).

Lemma iter_from_spec q : Forall (λ w, 0 <= w < 2 ^ 64) q → ∀ j,
  (∀ s, s ∈ iter_from j q ↔
    (j <= s / 64)%nat ∧ ∃ w, q !! (s / 64 - j)%nat = Some w ∧ Z.testbit w (Z.of_nat (s mod 64)) = true) ∧
  StronglySorted lt (iter_from j q).
Proof.
  induction 1 as [|w q Hw Hq IH]; intros j.
  { split; [|constructor]. intros s. split; [by intros ?%elem_of_nil|]. intros (_&w&Hw&_). done. }
  destruct (IH (S j)) as [Hel Hs]. destruct (drain_spec 64 w 0 Hw) as (Hd&Hds&Hdf); [lia|lia|].
  assert (E : iter_from j (w :: q) = ((λ b, (j * 64 + b)%nat) <$> drain 64 w) ++ iter_from (S j) q).
  { unfold iter_from. cbn [imap concat]. f_equal; [|f_equal].
    - apply list_fmap_ext. intros _ b _. lia.
    - apply imap_ext. intros i x _. apply list_fmap_ext. intros _ b _. lia. }
  rewrite E. clear E. rewrite Forall_forall in Hdf.
  assert (Hblk : ∀ s, s ∈ ((λ b, (j * 64 + b)%nat) <$> drain 64 w) ↔
    (s / 64 = j)%nat ∧ Z.testbit w (Z.of_nat (s mod 64)) = true).
  { intros s. rewrite list_elem_of_fmap. split.
    - intros (b&->&Hb). specialize (Hdf b Hb). rewrite (Nat.add_comm (j * 64) b).
      rewrite Nat.div_add, Nat.div_small, Nat.Div0.mod_add, Nat.mod_small by lia. split; [lia|by apply Hd].
    - intros [<- Hb]. exists (s mod 64)%nat. split; [|by apply Hd]. pose proof (Nat.div_mod s 64). lia. }
  split.
  - intros s. rewrite elem_of_app, Hblk, Hel. split.
    + intros [[<- Hb]|(Hj&x&Hx&Hb)].
      * split; [done|]. exists w. by rewrite Nat.sub_diag.
      * split; [lia|]. exists x. split; [|done]. replace (s / 64 - j)%nat with (S (s / 64 - S j)) by lia. done.
    + intros (Hj&x&Hx&Hb). destruct (decide (s / 64 = j)%nat) as [E|E].
      * left. rewrite E, Nat.sub_diag in Hx. injection Hx as ->. done.
      * right. split; [lia|]. exists x. split; [|done].
        replace (s / 64 - j)%nat with (S (s / 64 - S j)) in Hx by lia. done.
  - apply StronglySorted_app. split; [|split; [|done]].
    + intros s t Hst Ht. apply Hblk in Hst as [Hst _]. apply Hel in Ht as [Ht _].
      apply Nat.nle_gt. intros Hle. apply (Nat.Div0.div_le_mono _ _ 64) in Hle. lia.
    + clear -Hds. induction Hds as [|b l _ IH Hb]; [constructor|]. cbn. constructor; [done|].
      apply Forall_fmap. eapply Forall_impl; [exact Hb|]. intros c ?. cbn. lia.
Qed.

Lemma bits_iter_spec q s : bits_ok q → s ∈ bits_iter q ↔ bits_contains q s = true.
Proof.
  intros [Hl Hf]. destruct (iter_from_spec q Hf 0) as [Hel _]. change (bits_iter q) with (iter_from 0 q).
  rewrite Hel, bits_contains_spec, andb_true_iff, bool_decide_eq_true, Nat.sub_0_r. unfold word. split.
  - intros (_&w&Hw&Hb). rewrite Hw. split; [|done]. apply lookup_lt_Some in Hw.
    pose proof (Nat.div_mod s 64). pose proof (Nat.mod_upper_bound s 64). unfold MAX_TASKS, WORDS in *. lia.
  - intros [Hs Hb]. split; [lia|]. destruct (q !! (s / 64)%nat) as [w|] eqn:E; [by exists w|].
    apply lookup_ge_None in E. pose proof (word_lt s Hs). lia.
Qed.

Lemma bits_iter_sorted q : bits_ok q → StronglySorted lt (bits_iter q).
Proof. intros [Hl Hf]. apply (iter_from_spec q Hf 0). Qed.

Lemma find_sorted (l : list nat) cur n :
  StronglySorted lt l → find (λ s, bool_decide (cur < s)%nat) l = Some n →
  n ∈ l ∧ (cur < n)%nat ∧ ∀ m, m ∈ l → (cur < m)%nat → (n <= m)%nat.
Proof.
  induction 1 as [|x l Hs IH Hx]; [done|]. cbn [find]. case_bool_decide as E.
  - intros [= <-]. split; [left|]. split; [done|]. intros m [->|Hm]%elem_of_cons _; [done|].
    rewrite Forall_forall in Hx. specialize (Hx m Hm). lia.
  - intros Hf. destruct (IH Hf) as (Hn&Hlt&Hmin). split; [by right|]. split; [done|].
    intros m [->|Hm]%elem_of_cons; [done|by apply Hmin].
Qed.

Lemma bits_next_after_none q cur : bits_ok q →
  bits_next_after q cur = None ↔ ∀ s, bits_contains q s = false.
Proof.
  intros Hq. unfold bits_next_after. split.
  - intros H s. apply not_true_iff_false. rewrite <-bits_iter_spec by done.
    destruct (find _ _); [done|]. destruct (bits_iter q); [|done]. by intros ?%elem_of_nil.
  - intros H. destruct (bits_iter q) as [|x l] eqn:E; [done|].
    assert (Hx : x ∈ bits_iter q) by (rewrite E; left). apply bits_iter_spec in Hx; [|done]. by rewrite H in Hx.
Qed.

Lemma bits_next_after_some q cur n : bits_ok q → bits_next_after q cur = Some n →
  bits_contains q n = true ∧ ∀ m, bits_contains q m = true → (turns cur n <= turns cur m)%nat.
Proof.
  intros Hq. unfold bits_next_after. pose proof (bits_iter_sorted q Hq) as Hs.
  setoid_rewrite <-(bits_iter_spec q _ Hq).
  assert (Hmax : ∀ m, m ∈ bits_iter q → (m < MAX_TASKS)%nat).
  { intros m Hm%bits_iter_spec; [|done]. rewrite bits_contains_spec in Hm. by case_bool_decide. }
  revert Hs Hmax. generalize (bits_iter q) as l. intros l Hs Hmax.
  destruct (find _ l) as [s|] eqn:Ef.
  - intros [= ->]. apply find_sorted in Ef as (Hn&Hlt&Hmin); [|done]. split; [done|].
    intros m Hm. specialize (Hmin m Hm). specialize (Hmax n Hn). unfold turns. repeat case_decide; lia.
  - destruct l as [|x l]; [done|]. intros [= <-]. split; [left|]. intros m Hm.
    assert (Hle : ∀ y, y ∈ (x :: l) → (y <= cur)%nat).
    { intros y Hy. apply Nat.nlt_ge. intros Hlt. apply list_elem_of_In in Hy.
      pose proof (find_none _ _ Ef y Hy) as Hn. cbv beta in Hn. by rewrite bool_decide_eq_true_2 in Hn. }
    assert (x <= m)%nat.
    { apply StronglySorted_cons in Hs as [Hx _]. apply elem_of_cons in Hm as [->|Hm]; [done|].
      rewrite Forall_forall in Hx. specialize (Hx m Hm). lia. }
    pose proof (Hle x ltac:(left)). pose proof (Hle m Hm). unfold turns. repeat case_decide; lia.
Qed.

Lemma bits_is_empty_spec q : bits_ok q → bits_is_empty q = true ↔ ∀ s, bits_contains q s = false.
Proof.
  intros Hq. unfold bits_is_empty. rewrite forallb_forall. split.
  - intros H s. rewrite bits_contains_spec. unfold word. destruct (q !! _) as [w|] eqn:E; cbn.
    + rewrite (proj1 (Z.eqb_eq w 0)); [by rewrite Z.bits_0, andb_false_r|]. apply H.
      apply list_elem_of_In. by eapply list_elem_of_lookup_2.
    + by rewrite Z.bits_0, andb_false_r.
  - intros H w Hw. apply list_elem_of_In, list_elem_of_lookup in Hw as [i Hi].
    apply Z.eqb_eq. apply Z.bits_inj'. intros b Hb. rewrite Z.bits_0.
    destruct (decide (b < 64)) as [Hb'|]; [|apply testbit_high; [by eapply word_ok|lia]].
    specialize (H (i * 64 + Z.to_nat b)%nat). rewrite bits_contains_spec in H.
    rewrite bool_decide_eq_true_2 in H.
    + unfold word in H. rewrite (Nat.add_comm (i * 64)) in H.
      rewrite Nat.div_add, Nat.div_small, Nat.Div0.mod_add, Nat.mod_small in H by lia.
      rewrite Nat.add_0_l, Hi in H. cbn in H. by rewrite Z2Nat.id in H by lia.
    + apply lookup_lt_Some in Hi. destruct Hq as [Hl _]. unfold MAX_TASKS, WORDS in *. lia.
Qed.

Lemma bits_contains_empty s : bits_contains bits_EMPTY s = false.
Proof.
  rewrite bits_contains_spec. assert (E : word bits_EMPTY s = 0); [|by rewrite E, Z.bits_0, andb_false_r].
  unfold word, bits_EMPTY. destruct (_ !! _) as [w|] eqn:E; [|done].
  by apply lookup_replicate in E as [-> _].
Qed.

#[export] Instance TaskBits_laws : SlotSetLaws TaskBits.
Proof.
  split; cbn.
  - split; [done|]. by repeat constructor.
  - intros s q Hq _. by apply bits_insert_ok.
  - intros s q Hq _. by apply bits_remove_ok.
  - apply bits_union_ok.
  - intros q s Hs. rewrite bits_contains_spec in Hs. by case_bool_decide.
  - apply bits_contains_empty.
  - apply bits_contains_insert.
  - apply bits_contains_remove.
  - apply bits_contains_union.
  - apply bits_is_empty_spec.
  - apply bits_iter_spec.
  - apply bits_iter_sorted.
  - apply bits_next_after_none.
  - apply bits_next_after_some.
Qed.
