(* ===== verification/Sched.v ===== *)
(** * The scheduler ([kernel/src/task/sched.rs])

    Every processor runs the same code over the task table, the run queues
    and a few per-processor cells.  A step of the system is one processor
    doing one thing: a whole section under the [TASKS] lock, or one access
    made without it.  What a processor does between two calls of the
    scheduler (user code, the rest of the kernel, interrupts) is any sequence
    of calls, so every interleaving the kernel can show is a run here.  The
    context switch itself is three steps: the pick under the lock, the moment
    the outgoing task's stack pointer is saved, and [finish_switch] on the
    incoming task's stack. *)

From S2P Require Import Prelude TaskSet.

Definition MAX_CPUS : nat := 8.

(** Slots and keys: [usize::MAX] for "none" is [None] here, except as a key. *)
Definition WAIT_ANY : Z := 2 ^ 64 - 1.
Definition key_pipe (id : Z) : Z := 0x10000 + id.
Definition key_pty (id : Z) : Z := 0x20000 + id.
Definition key_child (parent : Z) : Z := 0x30000 + parent.
Definition KEY_CONSOLE : Z := 0x40000.
Definition KEY_SIGNAL : Z := 0x50000.
Definition key_threads (pid : Z) : Z := 0x60000 + pid.
Definition key_event (id : Z) : Z := 0x70000 + id.
Definition key_timer (id : Z) : Z := 0x80000 + id.
Definition key_lock (node : Z) : Z := 0x100000 + node.
Definition key_addr (pid addr : Z) : Z :=
  Z.lor (Z.lor (Z.shiftl 1 63) (Z.shiftl pid 48)) (Z.land addr 0xffffffffffff).

(** ** Tasks *)

Inductive TaskState : Set := Unused | Ready | Running | Blocked | Dead | Claimed.

#[export] Instance TaskState_eq_dec : EqDecision TaskState.
Proof. solve_decision. Defined.

(** The fields the scheduler reads or writes; [start_regs] is whether there
    are registers a new task still has to start with. *)
(** The fields of a task the scheduler reads or writes; [start_regs] is
    whether it has registers to start with. *)
Record Task := {
  state : TaskState; sp : Z; aspace : Z; tgid : nat; start_regs : bool; affinity : option nat;
  wait_key : Z; wake_at : Z; wake_pending : bool; key_woken : bool;
  sig_pending : Z; alarm_at : Z; alarm_every : Z }.

Definition EMPTY : Task := {|
  state := Unused; sp := 0; aspace := 0; tgid := 0; start_regs := false; affinity := None;
  wait_key := 0; wake_at := 0; wake_pending := false; key_woken := false;
  sig_pending := 0; alarm_at := 0; alarm_every := 0 |}.

Definition set_state (v : TaskState) (t : Task) : Task := {|
  state := v; sp := sp t; aspace := aspace t; tgid := tgid t; start_regs := start_regs t;
  affinity := affinity t; wait_key := wait_key t; wake_at := wake_at t;
  wake_pending := wake_pending t; key_woken := key_woken t;
  sig_pending := sig_pending t; alarm_at := alarm_at t; alarm_every := alarm_every t |}.
Definition set_sp (v : Z) (t : Task) : Task := {|
  state := state t; sp := v; aspace := aspace t; tgid := tgid t; start_regs := start_regs t;
  affinity := affinity t; wait_key := wait_key t; wake_at := wake_at t;
  wake_pending := wake_pending t; key_woken := key_woken t;
  sig_pending := sig_pending t; alarm_at := alarm_at t; alarm_every := alarm_every t |}.
Definition set_start_regs (v : bool) (t : Task) : Task := {|
  state := state t; sp := sp t; aspace := aspace t; tgid := tgid t; start_regs := v;
  affinity := affinity t; wait_key := wait_key t; wake_at := wake_at t;
  wake_pending := wake_pending t; key_woken := key_woken t;
  sig_pending := sig_pending t; alarm_at := alarm_at t; alarm_every := alarm_every t |}.
Definition set_affinity (v : option nat) (t : Task) : Task := {|
  state := state t; sp := sp t; aspace := aspace t; tgid := tgid t; start_regs := start_regs t;
  affinity := v; wait_key := wait_key t; wake_at := wake_at t;
  wake_pending := wake_pending t; key_woken := key_woken t;
  sig_pending := sig_pending t; alarm_at := alarm_at t; alarm_every := alarm_every t |}.
Definition set_wait (key at_ : Z) (pending : bool) (t : Task) : Task := {|
  state := state t; sp := sp t; aspace := aspace t; tgid := tgid t; start_regs := start_regs t;
  affinity := affinity t; wait_key := key; wake_at := at_;
  wake_pending := pending; key_woken := key_woken t;
  sig_pending := sig_pending t; alarm_at := alarm_at t; alarm_every := alarm_every t |}.
Definition set_key_woken (v : bool) (t : Task) : Task := {|
  state := state t; sp := sp t; aspace := aspace t; tgid := tgid t; start_regs := start_regs t;
  affinity := affinity t; wait_key := wait_key t; wake_at := wake_at t;
  wake_pending := wake_pending t; key_woken := v;
  sig_pending := sig_pending t; alarm_at := alarm_at t; alarm_every := alarm_every t |}.
Definition set_aspace (v : Z) (t : Task) : Task := {|
  state := state t; sp := sp t; aspace := v; tgid := tgid t; start_regs := start_regs t;
  affinity := affinity t; wait_key := wait_key t; wake_at := wake_at t;
  wake_pending := wake_pending t; key_woken := key_woken t;
  sig_pending := sig_pending t; alarm_at := alarm_at t; alarm_every := alarm_every t |}.
Definition set_sig_pending (v : Z) (t : Task) : Task := {|
  state := state t; sp := sp t; aspace := aspace t; tgid := tgid t; start_regs := start_regs t;
  affinity := affinity t; wait_key := wait_key t; wake_at := wake_at t;
  wake_pending := wake_pending t; key_woken := key_woken t;
  sig_pending := v; alarm_at := alarm_at t; alarm_every := alarm_every t |}.
Definition set_alarm (at_ every : Z) (t : Task) : Task := {|
  state := state t; sp := sp t; aspace := aspace t; tgid := tgid t; start_regs := start_regs t;
  affinity := affinity t; wait_key := wait_key t; wake_at := wake_at t;
  wake_pending := wake_pending t; key_woken := key_woken t;
  sig_pending := sig_pending t; alarm_at := at_; alarm_every := every |}.

(** ** Signals, as far as they wake ([kernel/src/task/signals.rs]) *)

Definition SIGALRM : Z := 14.

(** What the rest of a task says of a signal for it: it is a user task, the
    signal is one it blocks, one it ignores; the handler tables are taken. *)
Record SigView := { sv_user : bool; sv_blocked : bool; sv_ignored : bool; sv_busy : bool }.

Definition signal_live (v : SigView) (t : Task) : bool :=
  sv_user v && bool_decide (state t = Ready ∨ state t = Running ∨ state t = Blocked).

(** [at + every * ((now - at) / every + 1)], or 0 for an alarm of one
    expiry; [None] on overflow. *)
Definition alarm_next (at_ every now : Z) : option Z :=
  if every =? 0 then Some 0 else n ← add64 ((now - at_) / every) 1; m ← fits 64 (every * n); add64 at_ m.

(** ** Timers ([kernel/src/evfd.rs]) *)

Record TimerState := { next_ns : Z; interval_ns : Z; expirations : Z; timer_changes : Z }.

Definition sat_add64 (a b : Z) : Z := Z.min (a + b) U64_MAX.

Definition fire (now : Z) (t : TimerState) : bool * TimerState :=
  if (next_ns t =? 0) || (now <? next_ns t) then (false, t)
  else
    let changes := (timer_changes t + 1) mod 2 ^ 64 in
    if interval_ns t =? 0 then
      (true, {| next_ns := 0; interval_ns := interval_ns t;
                expirations := sat_add64 (expirations t) 1; timer_changes := changes |})
    else
      let missed := (now - next_ns t) / interval_ns t + 1 in
      (true, {| next_ns := sat_add64 (next_ns t) (Z.min (missed * interval_ns t) U64_MAX);
                interval_ns := interval_ns t;
                expirations := sat_add64 (expirations t) missed; timer_changes := changes |}).

(** [tick] of the timers, [id] on: the ids that fired, the earliest expiry
    ahead, the timers after it.  [busy] are those whose lock is taken. *)
Fixpoint timers_tick (now : Z) (busy : list nat) (id : nat) (ts : list (option TimerState)) :
    list nat * Z * list (option TimerState) :=
  match ts with
  | [] => ([], U64_MAX, [])
  | None :: ts' =>
      let '(ids, next, ts') := timers_tick now busy (S id) ts' in (ids, next, None :: ts')
  | Some t :: ts' =>
      let '(ids, next, ts') := timers_tick now busy (S id) ts' in
      if bool_decide (id ∈ busy) then (ids, Z.min next now, Some t :: ts')
      else
        let '(fired, t) := fire now t in
        (if fired then id :: ids else ids,
         if next_ns t =? 0 then next else Z.min next (next_ns t), Some t :: ts')
  end.

(** ** The state *)

(** Where a processor is in the scheduler: anywhere else ([Exec]); in
    [block_until] holding the lock, counted as a waiter; between saying it
    is idle and its pick ([idle_step] or [block_until]); between the pick and
    the last look before halting; halted; on the outgoing task's stack after
    the pick; on the incoming task's; in [timer_tick], holding the lock,
    before it stores the next deadline. *)
Inductive Phase : Set :=
  | Exec
  | Blocking (key seq deadline : Z)
  | Idling (idle_step : bool)
  | Checking
  | Halted
  | Leaving
  | Arrived
  | Ticking (next : Z) (woke : bool).

(** [wake_any] between its accesses. *)
Inductive AnyPhase : Set := NoAny | Bumped | SawWaiters.

#[export] Instance Phase_eq_dec : EqDecision Phase.
Proof. solve_decision. Defined.
#[export] Instance AnyPhase_eq_dec : EqDecision AnyPhase.
Proof. solve_decision. Defined.

(** The per-processor cells; [phase], [any_phase] and [kicks] (noted under
    the lock, to be sent after it) are the processor's local state, [ipi] an
    interrupt sent to it and not taken yet. *)
Record Cpu (T : Type) := {
  current : option nat; switched_from : option nat; idle_slot : option nat; runq : T;
  pulls : Z; need_resched : bool; cpu_idle : bool; signal_kick : bool;
  phase : Phase; any_phase : AnyPhase; kicks : Z; ipi : bool }.
Arguments current {T} _.
Arguments switched_from {T} _.
Arguments idle_slot {T} _.
Arguments runq {T} _.
Arguments pulls {T} _.
Arguments need_resched {T} _.
Arguments cpu_idle {T} _.
Arguments signal_kick {T} _.
Arguments phase {T} _.
Arguments any_phase {T} _.
Arguments kicks {T} _.
Arguments ipi {T} _.

(** [bumps] counts the wakes without bound; [wait_seq] is the 64-bit cell.
    [online] is the number of processors up, [tasks_lock] the holder of
    [TASKS] between two steps. *)
Record Sys (T : Type) := {
  tasks : nat → Task; cpus : nat → Cpu T; float : T; timers : list (option TimerState);
  wait_seq : Z; bumps : Z; next_deadline : Z; any_waiters : Z; preempt_on : bool;
  online : Z; tasks_lock : option nat }.
Arguments tasks {T} _.
Arguments cpus {T} _.
Arguments float {T} _.
Arguments timers {T} _.
Arguments wait_seq {T} _.
Arguments bumps {T} _.
Arguments next_deadline {T} _.
Arguments any_waiters {T} _.
Arguments preempt_on {T} _.
Arguments online {T} _.
Arguments tasks_lock {T} _.

Section sched.
Context {T : Type} `{SlotSet T} (USER_TASKS_ON_BSP : bool).

Abbreviation cpu_t := (Cpu T).
Abbreviation sys := (Sys T).

Definition cpu_set_current (v : option nat) (k : cpu_t) : cpu_t := {|
  current := v; switched_from := switched_from k; idle_slot := idle_slot k; runq := runq k; pulls := pulls k; need_resched := need_resched k;
  cpu_idle := cpu_idle k; signal_kick := signal_kick k; phase := phase k; any_phase := any_phase k; kicks := kicks k; ipi := ipi k |}.
Definition cpu_set_switched_from (v : option nat) (k : cpu_t) : cpu_t := {|
  current := current k; switched_from := v; idle_slot := idle_slot k; runq := runq k; pulls := pulls k; need_resched := need_resched k;
  cpu_idle := cpu_idle k; signal_kick := signal_kick k; phase := phase k; any_phase := any_phase k; kicks := kicks k; ipi := ipi k |}.
Definition cpu_set_idle_slot (v : option nat) (k : cpu_t) : cpu_t := {|
  current := current k; switched_from := switched_from k; idle_slot := v; runq := runq k; pulls := pulls k; need_resched := need_resched k;
  cpu_idle := cpu_idle k; signal_kick := signal_kick k; phase := phase k; any_phase := any_phase k; kicks := kicks k; ipi := ipi k |}.
Definition cpu_set_runq (v : T) (k : cpu_t) : cpu_t := {|
  current := current k; switched_from := switched_from k; idle_slot := idle_slot k; runq := v; pulls := pulls k; need_resched := need_resched k;
  cpu_idle := cpu_idle k; signal_kick := signal_kick k; phase := phase k; any_phase := any_phase k; kicks := kicks k; ipi := ipi k |}.
Definition cpu_set_pulls (v : Z) (k : cpu_t) : cpu_t := {|
  current := current k; switched_from := switched_from k; idle_slot := idle_slot k; runq := runq k; pulls := v; need_resched := need_resched k;
  cpu_idle := cpu_idle k; signal_kick := signal_kick k; phase := phase k; any_phase := any_phase k; kicks := kicks k; ipi := ipi k |}.
Definition cpu_set_need_resched (v : bool) (k : cpu_t) : cpu_t := {|
  current := current k; switched_from := switched_from k; idle_slot := idle_slot k; runq := runq k; pulls := pulls k; need_resched := v;
  cpu_idle := cpu_idle k; signal_kick := signal_kick k; phase := phase k; any_phase := any_phase k; kicks := kicks k; ipi := ipi k |}.
Definition cpu_set_cpu_idle (v : bool) (k : cpu_t) : cpu_t := {|
  current := current k; switched_from := switched_from k; idle_slot := idle_slot k; runq := runq k; pulls := pulls k; need_resched := need_resched k;
  cpu_idle := v; signal_kick := signal_kick k; phase := phase k; any_phase := any_phase k; kicks := kicks k; ipi := ipi k |}.
Definition cpu_set_signal_kick (v : bool) (k : cpu_t) : cpu_t := {|
  current := current k; switched_from := switched_from k; idle_slot := idle_slot k; runq := runq k; pulls := pulls k; need_resched := need_resched k;
  cpu_idle := cpu_idle k; signal_kick := v; phase := phase k; any_phase := any_phase k; kicks := kicks k; ipi := ipi k |}.
Definition cpu_set_phase (v : Phase) (k : cpu_t) : cpu_t := {|
  current := current k; switched_from := switched_from k; idle_slot := idle_slot k; runq := runq k; pulls := pulls k; need_resched := need_resched k;
  cpu_idle := cpu_idle k; signal_kick := signal_kick k; phase := v; any_phase := any_phase k; kicks := kicks k; ipi := ipi k |}.
Definition cpu_set_any_phase (v : AnyPhase) (k : cpu_t) : cpu_t := {|
  current := current k; switched_from := switched_from k; idle_slot := idle_slot k; runq := runq k; pulls := pulls k; need_resched := need_resched k;
  cpu_idle := cpu_idle k; signal_kick := signal_kick k; phase := phase k; any_phase := v; kicks := kicks k; ipi := ipi k |}.
Definition cpu_set_kicks (v : Z) (k : cpu_t) : cpu_t := {|
  current := current k; switched_from := switched_from k; idle_slot := idle_slot k; runq := runq k; pulls := pulls k; need_resched := need_resched k;
  cpu_idle := cpu_idle k; signal_kick := signal_kick k; phase := phase k; any_phase := any_phase k; kicks := v; ipi := ipi k |}.
Definition cpu_set_ipi (v : bool) (k : cpu_t) : cpu_t := {|
  current := current k; switched_from := switched_from k; idle_slot := idle_slot k; runq := runq k; pulls := pulls k; need_resched := need_resched k;
  cpu_idle := cpu_idle k; signal_kick := signal_kick k; phase := phase k; any_phase := any_phase k; kicks := kicks k; ipi := v |}.

Definition sys_set_tasks (v : nat → Task) (s : sys) : sys := {|
  tasks := v; cpus := cpus s; float := float s; timers := timers s; wait_seq := wait_seq s;
  bumps := bumps s; next_deadline := next_deadline s; any_waiters := any_waiters s; preempt_on := preempt_on s; online := online s; tasks_lock := tasks_lock s |}.
Definition sys_set_cpus (v : nat → Cpu T) (s : sys) : sys := {|
  tasks := tasks s; cpus := v; float := float s; timers := timers s; wait_seq := wait_seq s;
  bumps := bumps s; next_deadline := next_deadline s; any_waiters := any_waiters s; preempt_on := preempt_on s; online := online s; tasks_lock := tasks_lock s |}.
Definition sys_set_float (v : T) (s : sys) : sys := {|
  tasks := tasks s; cpus := cpus s; float := v; timers := timers s; wait_seq := wait_seq s;
  bumps := bumps s; next_deadline := next_deadline s; any_waiters := any_waiters s; preempt_on := preempt_on s; online := online s; tasks_lock := tasks_lock s |}.
Definition sys_set_timers (v : list (option TimerState)) (s : sys) : sys := {|
  tasks := tasks s; cpus := cpus s; float := float s; timers := v; wait_seq := wait_seq s;
  bumps := bumps s; next_deadline := next_deadline s; any_waiters := any_waiters s; preempt_on := preempt_on s; online := online s; tasks_lock := tasks_lock s |}.
Definition sys_set_wait_seq (v : Z) (s : sys) : sys := {|
  tasks := tasks s; cpus := cpus s; float := float s; timers := timers s; wait_seq := v;
  bumps := bumps s; next_deadline := next_deadline s; any_waiters := any_waiters s; preempt_on := preempt_on s; online := online s; tasks_lock := tasks_lock s |}.
Definition sys_set_bumps (v : Z) (s : sys) : sys := {|
  tasks := tasks s; cpus := cpus s; float := float s; timers := timers s; wait_seq := wait_seq s;
  bumps := v; next_deadline := next_deadline s; any_waiters := any_waiters s; preempt_on := preempt_on s; online := online s; tasks_lock := tasks_lock s |}.
Definition sys_set_next_deadline (v : Z) (s : sys) : sys := {|
  tasks := tasks s; cpus := cpus s; float := float s; timers := timers s; wait_seq := wait_seq s;
  bumps := bumps s; next_deadline := v; any_waiters := any_waiters s; preempt_on := preempt_on s; online := online s; tasks_lock := tasks_lock s |}.
Definition sys_set_any_waiters (v : Z) (s : sys) : sys := {|
  tasks := tasks s; cpus := cpus s; float := float s; timers := timers s; wait_seq := wait_seq s;
  bumps := bumps s; next_deadline := next_deadline s; any_waiters := v; preempt_on := preempt_on s; online := online s; tasks_lock := tasks_lock s |}.
Definition sys_set_preempt_on (v : bool) (s : sys) : sys := {|
  tasks := tasks s; cpus := cpus s; float := float s; timers := timers s; wait_seq := wait_seq s;
  bumps := bumps s; next_deadline := next_deadline s; any_waiters := any_waiters s; preempt_on := v; online := online s; tasks_lock := tasks_lock s |}.
Definition sys_set_tasks_lock (v : option nat) (s : sys) : sys := {|
  tasks := tasks s; cpus := cpus s; float := float s; timers := timers s; wait_seq := wait_seq s;
  bumps := bumps s; next_deadline := next_deadline s; any_waiters := any_waiters s; preempt_on := preempt_on s; online := online s; tasks_lock := v |}.

Definition on_task (i : nat) (f : Task → Task) (s : sys) : sys :=
  sys_set_tasks (λ j, if decide (j = i) then f (tasks s j) else tasks s j) s.
Definition on_cpu (c : nat) (f : cpu_t → cpu_t) (s : sys) : sys :=
  sys_set_cpus (λ d, if decide (d = c) then f (cpus s d) else cpus s d) s.

Definition all_cpus : list nat := seq 0 MAX_CPUS.

(** [tasks.slots()]: the slots past the highest used hold nothing. *)
Definition slots : list nat := seq 0 MAX_TASKS.

(** ** Run queues *)

Definition home (affinity : option nat) : option nat := (λ c, Nat.min c (MAX_CPUS - 1)) <$> affinity.

Definition queue (q : option nat) (s : sys) : T :=
  match q with Some c => runq (cpus s c) | None => float s end.
Definition set_queue (q : option nat) (v : T) (s : sys) : sys :=
  match q with Some c => on_cpu c (cpu_set_runq v) s | None => sys_set_float v s end.

Definition enqueue (slot : nat) (affinity : option nat) (s : sys) : sys :=
  set_queue (home affinity) (s_insert slot (queue (home affinity) s)) s.
Definition dequeue (slot : nat) (affinity : option nat) (s : sys) : sys :=
  set_queue (home affinity) (s_remove slot (queue (home affinity) s)) s.

Definition unqueue (slot : nat) (s : sys) : sys :=
  foldl (λ s q, set_queue q (s_remove slot (queue q s)) s) s ((Some <$> all_cpus) ++ [None]).

Definition queued (cpu : nat) (s : sys) : T := s_union (runq (cpus s cpu)) (float s).
Definition queued_for (cpu : nat) (s : sys) : bool := negb (s_is_empty (queued cpu s)).

Definition hosts_user (cpu : nat) : bool := negb (Nat.eqb cpu 0) || USER_TASKS_ON_BSP.

Definition pullable (slot : nat) (t : Task) : bool :=
  negb (aspace t =? 0) && (Nat.eqb (tgid t) slot || negb (start_regs t)).

(** The first slot [pull] finds: the processor it waits on, and the slot. *)
Definition pull_from (cpu : nat) (s : sys) (c : nat) : option (nat * nat) :=
  if Nat.eqb c cpu || cpu_idle (cpus s c) then None
  else (λ slot, (c, slot)) <$> find (λ slot, pullable slot (tasks s slot)) (s_iter (runq (cpus s c))).

Fixpoint first_some {A B} (f : A → option B) (l : list A) : option B :=
  match l with [] => None | x :: l' => match f x with Some y => Some y | None => first_some f l' end end.

Definition pull (cpu : nat) (s : sys) : option nat * sys :=
  if negb (hosts_user cpu) then (None, s)
  else match first_some (pull_from cpu s) all_cpus with
       | None => (None, s)
       | Some (c, slot) =>
           let s := dequeue slot (Some c) s in
           let s := on_task slot (set_affinity (Some cpu)) s in
           (Some slot, on_cpu cpu (λ k, cpu_set_pulls ((pulls k + 1) mod 2 ^ 64) k) s)
       end.

(** ** Kicks *)

Definition kick_bit (c : nat) : Z := Z.shiftl 1 (Z.of_nat c).

(** The state with its resched flags set, and the kicks. *)
Definition flag (c : nat) (sk : sys * Z) : sys * Z :=
  (on_cpu c (cpu_set_need_resched true) sk.1, Z.lor sk.2 (kick_bit c)).

Definition kick_for (slot : nat) (affinity : option nat) (from_switch : bool) (sk : sys * Z) : sys * Z :=
  let h := home affinity in
  let sk := match h with Some c => if from_switch then sk else flag c sk | None => sk end in
  let s := sk.1 in
  if match h with
     | Some c => negb (pullable slot (tasks s slot)) || cpu_idle (cpus s c)
     | None => false
     end then sk
  else
    match find (λ c, negb (bool_decide (Some c = h)) && cpu_idle (cpus s c)
                     && (bool_decide (h = None) || hosts_user c)) all_cpus with
    | Some c => flag c sk
    | None => sk
    end.

Definition ready_locked (slot : nat) (sk : sys * Z) : sys * Z :=
  let aff := affinity (tasks sk.1 slot) in
  kick_for slot aff false (enqueue slot aff sk.1, sk.2).

Definition rehome_locked (slot : nat) (aff : option nat) (sk : sys * Z) : sys * Z :=
  let s := dequeue slot (affinity (tasks sk.1 slot)) sk.1 in
  ready_locked slot (on_task slot (set_affinity aff) s, sk.2).

Definition mid_switch (slot : nat) (s : sys) : bool :=
  existsb (λ c, bool_decide (switched_from (cpus s c) = Some slot)) all_cpus.
Definition slot_on_cpu (slot : nat) (s : sys) : bool :=
  existsb (λ c, bool_decide (current (cpus s c) = Some slot)) all_cpus.

(** ** The pick *)

Inductive Pick : Set := Switched | Stayed (blocked : bool).

Definition is_running (t : Task) : bool := bool_decide (state t = Running ∨ state t = Ready).

(** The task to run next and the state with it off its queue. *)
Definition choose (cpu cur : nat) (s : sys) : nat * sys :=
  let idle := idle_slot (cpus s cpu) in
  let current_runs := negb (bool_decide (idle = Some cur)) && is_running (tasks s cur) in
  match s_next_after (queued cpu s) cur with
  | Some n => (n, dequeue n (affinity (tasks s n)) s)
  | None =>
      let '(next, s) := if current_runs then (None, s) else pull cpu s in
      match next with
      | Some n => (n, s)
      | None => (match idle with
                 | Some i => if negb current_runs && negb (Nat.eqb i cur) then i else cur
                 | None => cur
                 end, s)
      end
  end.

(** [Ready] becomes [Running]. *)
Definition make_running (t : Task) : Task :=
  if bool_decide (state t = Ready) then set_state Running t else t.

Definition pick (cpu cur : nat) (s : sys) : Pick * sys :=
  if negb (preempt_on s) then (Stayed false, s)
  else
    let idle := idle_slot (cpus s cpu) in
    let '(next, s) := choose cpu cur s in
    if Nat.eqb next cur then
      let s := on_task cur make_running s in
      (Stayed (bool_decide (state (tasks s cur) = Blocked)), s)
    else
      let s := if bool_decide (Some next = idle) then s else on_cpu cpu (cpu_set_cpu_idle false) s in
      let s := on_task next (set_state Running) s in
      let s := on_task cur make_running s in
      let s := on_cpu cpu (cpu_set_current (Some next)) s in
      (Switched, on_cpu cpu (cpu_set_switched_from (Some cur)) s).

(** After the switch: the outgoing task may run elsewhere from here on. *)
Definition finish_switch (cpu : nat) (s : sys) : sys * Z :=
  match switched_from (cpus s cpu) with
  | None => (s, 0)
  | Some prev =>
      let s := on_cpu cpu (cpu_set_switched_from None) s in
      let t := tasks s prev in
      let pending := bool_decide (state t = Blocked) && wake_pending t in
      let s := if pending then on_task prev (set_wait (wait_key t) (wake_at t) false) s else s in
      if bool_decide (state t = Running) || pending then
        let s := on_task prev (set_state Ready) s in
        if bool_decide (Some prev = idle_slot (cpus s cpu)) then (s, 0)
        else
          let aff := affinity (tasks s prev) in
          kick_for prev aff true (enqueue prev aff s, 0)
      else (s, 0)
  end.

(** ** Waits and wakes *)

(** [WAIT_SEQ.fetch_add(1)] *)
Definition bump (s : sys) : sys :=
  sys_set_bumps (bumps s + 1) (sys_set_wait_seq ((wait_seq s + 1) mod 2 ^ 64) s).

(** [ANY_WAITERS.fetch_add(n)], [fetch_sub] *)
Definition count_any (n : Z) (s : sys) : sys :=
  sys_set_any_waiters ((any_waiters s + n) mod 2 ^ 64) s.

(** The processor whose current task is [slot]. *)
Definition running_on (slot : nat) (s : sys) : option nat :=
  find (λ c, bool_decide (current (cpus s c) = Some slot)) all_cpus.

Definition wake_locked (slot : nat) (sk : sys * Z) : sys * Z :=
  let '(s, ks) := sk in
  let t := tasks s slot in
  if negb (bool_decide (state t = Blocked)) then (s, ks)
  else
    let s := if wait_key t =? WAIT_ANY then count_any (-1) s else s in
    let s := on_task slot (set_wait 0 0 (wake_pending t)) s in
    if mid_switch slot s then (on_task slot (set_wait 0 0 true) s, ks)
    else
      let s := on_task slot (set_state Ready) s in
      match running_on slot s with
      | Some c => flag c (s, ks)
      | None => kick_for slot (affinity t) false (enqueue slot (affinity t) s, ks)
      end.

Definition waits_on (key : Z) (any : bool) (t : Task) : bool :=
  bool_decide (state t = Blocked) && ((wait_key t =? key) || any && (wait_key t =? WAIT_ANY)).

Definition wake_one (slot : nat) (sk : sys * Z) : sys * Z :=
  wake_locked slot (on_task slot (set_key_woken true) sk.1, sk.2).

(** Whether any was woken, with the rest. *)
Definition wake_key_locked (key : Z) (sk : sys * Z) : bool * (sys * Z) :=
  let any := negb (any_waiters sk.1 =? 0) in
  foldl (λ '(woke, sk) i,
    if waits_on key any (tasks (T := T) sk.1 i) then (true, wake_one i sk) else (woke, sk)) (false, sk) slots.

Definition wake (key : Z) (s : sys) : sys * Z := (wake_key_locked key (bump s, 0)).2.

Definition wake_n (key : Z) (max : nat) (s : sys) : nat * (sys * Z) :=
  foldl (λ '(n, sk) i,
    if Nat.eqb n max then (n, sk)
    else if waits_on key false (tasks (T := T) sk.1 i) then (S n, wake_one i sk) else (n, sk)) (0%nat, (bump s, 0)) slots.

Definition kick_running_locked (me slot : nat) (sk : sys * Z) : sys * Z :=
  if negb (bool_decide (state (tasks sk.1 slot) = Running)) then sk
  else match running_on slot sk.1 with
       | None => sk
       | Some c => if Nat.eqb c me then sk
                   else (on_cpu c (cpu_set_signal_kick true) sk.1, Z.lor sk.2 (kick_bit c))
       end.

Definition wake_task_locked (me slot : nat) (sk : sys * Z) : sys * Z :=
  if bool_decide (slot < MAX_TASKS)%nat then
    kick_running_locked me slot (wake_locked slot (bump sk.1, sk.2))
  else sk.

(** ** Signals *)

Definition send_locked (me slot : nat) (sig : Z) (v : SigView) (sk : sys * Z) : sys * Z :=
  let t := tasks sk.1 slot in
  if negb (signal_live v t) then sk
  else if negb (sv_blocked v) && sv_ignored v then sk
  else
    let s := on_task slot (set_sig_pending (Z.lor (sig_pending t) (Z.shiftl 1 sig))) sk.1 in
    if negb (sv_blocked v) then wake_task_locked me slot (s, sk.2)
    else
      let '(woke, sk) := wake_key_locked KEY_SIGNAL (s, sk.2) in
      (if woke then bump sk.1 else sk.1, sk.2).

(** [signal_take_from]: the lowest pending signal of [set], taken. *)
Definition take_signal (set : Z) (t : Task) : Task :=
  let hit := Z.ldiff (Z.land (sig_pending t) set) 1 in
  if hit =? 0 then t
  else set_sig_pending (Z.ldiff (sig_pending t) (Z.shiftl 1 (Z.of_nat (trailing_zeros hit)))) t.

(** ** The tick *)

(** When slot [i]'s alarm is next due, and the state with it sent. *)
Definition alarm_tick (me i : nat) (now : Z) (v : SigView) (sk : sys * Z) : option (Z * (sys * Z)) :=
  let t := tasks sk.1 i in
  if negb (signal_live v t) then Some (U64_MAX, (on_task i (set_alarm 0 (alarm_every t)) sk.1, sk.2))
  else if now <? alarm_at t then Some (alarm_at t, sk)
  else if sv_busy v then Some (alarm_at t, sk)
  else
    let sk := send_locked me i SIGALRM v sk in
    next ← alarm_next (alarm_at t) (alarm_every t) now;
    Some (if next =? 0 then U64_MAX else next, (on_task i (set_alarm next (alarm_every t)) sk.1, sk.2)).

(** One slot's turn: the earliest deadline so far, whether a sleeper was
    woken, the state and its kicks; [None] is a panic. *)
Definition tick_slot (me : nat) (now : Z) (sv : nat → SigView) (st : option (Z * bool * (sys * Z))) (i : nat) :
    option (Z * bool * (sys * Z)) :=
  '(next, woke, sk) ← st;
  '(next, sk) ← (if alarm_at (tasks (T := T) sk.1 i) =? 0 then Some (next, sk)
                 else '(at_, sk) ← alarm_tick me i now (sv i) sk; Some (Z.min next at_, sk));
  let t := tasks sk.1 i in
  if negb (bool_decide (state t = Blocked)) || (wake_at t =? 0) then Some (next, woke, sk)
  else if wake_at t <=? now then Some (next, true, wake_locked i sk)
  else Some (Z.min next (wake_at t), woke, sk).

(** Up to the store of the next deadline: it, whether anything was woken. *)
Definition timer_scan (me : nat) (now : Z) (sv : nat → SigView) (busy : list nat) (table_busy : bool) (s : sys) :
    option (Z * bool * (sys * Z)) :=
  '(next, woke, sk) ← foldl (tick_slot me now sv) (Some (U64_MAX, false, (s, 0))) slots;
  let '(ids, tnext, ts) := if table_busy then ([], now, timers sk.1) else timers_tick now busy 0 (timers sk.1) in
  let sk := (sys_set_timers ts sk.1, sk.2) in
  let '(woke, sk) := foldl (λ '(woke, sk) id,
    let '(w, sk) := wake_key_locked (key_timer (Z.of_nat id)) sk in (woke || w, sk)) (woke, sk) ids in
  Some (Z.min next tnext, woke, sk).

(** ** Slots ([kernel/src/task/lifecycle.rs], [process.rs]) *)

Definition reapable (slot : nat) (s : sys) : bool :=
  bool_decide (state (tasks s slot) = Dead) && negb (slot_on_cpu slot s) && negb (mid_switch slot s)
  && negb (sp (tasks s slot) =? 0).

Definition recycle (slot : nat) (s : sys) : sys := unqueue slot (on_task slot (λ _, EMPTY) s).

(** [claim_slot], for the free slot it settles on. *)
Definition claim_slot (slot : nat) (s : sys) : option sys :=
  if bool_decide (state (tasks s slot) = Unused) || reapable slot s
  then Some (on_task slot (λ t, {| state := Claimed; sp := sp t; aspace := aspace t; tgid := slot;
               start_regs := start_regs t; affinity := affinity t; wait_key := wait_key t;
               wake_at := wake_at t; wake_pending := wake_pending t; key_woken := key_woken t;
               sig_pending := sig_pending t; alarm_at := alarm_at t; alarm_every := alarm_every t |})
               (recycle slot s))
  else None.

(** A new task in its slot ([spawn], [fork_current], [spawn_thread]). *)
Definition install (slot : nat) (sp0 aspace0 : Z) (tgid0 : nat) (regs : bool) (aff : option nat)
    (sk : sys * Z) : sys * Z :=
  ready_locked slot (on_task slot (λ _, {| state := Ready; sp := sp0; aspace := aspace0; tgid := tgid0;
    start_regs := regs; affinity := aff; wait_key := 0; wake_at := 0; wake_pending := false;
    key_woken := false; sig_pending := 0; alarm_at := 0; alarm_every := 0 |}) sk.1, sk.2).

(** [retire]'s locked part. *)
Definition retire (slot : nat) (s : sys) : sys := on_task slot (λ t, set_sp 0 (set_state Dead t)) s.

(** ** One step *)

Inductive Op : Type :=
  | OPick                                    (* [schedule], or the idle loops' pick *)
  | OSwitch (saved : Z)                      (* [task_switch] *)
  | OFinish                                  (* [finish_switch] *)
  | OIdleOn (idle_step : bool)               (* [CPU_IDLE = true], before a pick *)
  | OIdleOff                                 (* [CPU_IDLE = false], after it *)
  | OCheck                                   (* the last look before halting *)
  | OInterrupt                               (* an interrupt ends the halt *)
  | OBlock (key seq deadline : Z)            (* [block_until] takes the lock *)
  | ODecide (now : Z)                        (* and blocks, or returns *)
  | OWake (key : Z)
  | OWakeN (key : Z) (max : nat)
  | OWakeTask (slot : nat)
  | OSignal (slot : nat) (sig : Z) (v : SigView)   (* [signal_send] *)
  | OSigTake (set : Z)                       (* [sigwait]'s look *)
  | OAnyBump                                 (* [wake_any]: the bump, *)
  | OAnyRead                                 (* the look at the waiters, *)
  | OAnyWake                                 (* the wake *)
  | OKick (target : nat)                     (* a kick noted earlier is sent *)
  | OTick (now seen : Z) (sv : nat → SigView) (busy : list nat) (table_busy : bool)
  | OTickStore                               (* the end of [timer_tick] *)
  | OArm (id : nat) (next interval : Z)      (* [timer_ctl_write] sets the timer, *)
  | ODeadlineSoon (deadline : Z)             (* then says so *)
  | OItimer (pid : nat) (value interval now : Z)   (* [itimer_swap] *)
  | OTake                                    (* a new task takes its registers *)
  | ORetire
  | OSpace (root : Z)                        (* exec, or [die], changes the address space *)
  | OReap (slot : nat)                       (* a dead slot is freed *)
  | OClaim (slot : nat)
  | OUnclaim (slot : nat)                    (* [claim_slot] finds no stack *)
  | OInstall (slot : nat) (sp0 aspace0 : Z) (tgid0 : nat) (regs : bool) (aff : option nat)
  | OPlace (slot : nat) (aff : option nat)   (* [place_thread] *)
  | OBringUp (slot : nat) (sp0 : Z)          (* [ap_idle_bringup] *)
  | OBecomeIdle
  | OEnablePreempt.

Definition in_exec (c : nat) (s : sys) : bool := bool_decide (phase (cpus s c) = Exec).
Definition unlocked (s : sys) : bool := bool_decide (tasks_lock s = None).

Definition note_kicks (c : nat) (sk : sys * Z) : sys :=
  on_cpu c (λ k, cpu_set_kicks (Z.lor (kicks k) sk.2) k) sk.1.

Definition guard_some {A} (b : bool) (x : option A) : option A := if b then x else None.

Definition step_pick (c cur : nat) (s : sys) : option sys :=
  match phase (cpus s c) with
  | Exec =>
      let '(p, s) := pick c cur s in
      Some (match p with Switched => on_cpu c (cpu_set_phase Leaving) s | Stayed _ => s end)
  | Idling idle_step =>
      let '(p, s) := pick c cur s in
      Some (on_cpu c (cpu_set_phase (match p with
        | Switched => Leaving
        | Stayed blocked => if idle_step || blocked then Checking else Exec
        end)) s)
  | _ => None
  end.

Definition step_check (c : nat) (s : sys) : sys :=
  let flagged := need_resched (cpus s c) in
  let s := on_cpu c (cpu_set_need_resched false) s in
  on_cpu c (cpu_set_phase (if negb flagged && negb (queued_for c s) then Halted else Exec)) s.

Definition step_block (c cur : nat) (key seq deadline : Z) (s : sys) : sys :=
  let s := if key =? WAIT_ANY then count_any 1 s else s in
  sys_set_tasks_lock (Some c) (on_cpu c (cpu_set_phase (Blocking key seq deadline)) s).

Definition step_decide (c cur : nat) (key seq deadline now : Z) (s : sys) : sys :=
  let s := on_task cur (set_key_woken false) s in
  let early := negb (wait_seq s =? seq) || negb (bool_decide (state (tasks s cur) = Running))
               || negb (deadline =? 0) && (deadline <=? now) in
  let s := if early then (if key =? WAIT_ANY then count_any (-1) s else s)
           else
             let s := on_task cur (λ t, set_wait key deadline false (set_state Blocked t)) s in
             if deadline =? 0 then s else sys_set_next_deadline (Z.min (next_deadline s) deadline) s in
  sys_set_tasks_lock None (on_cpu c (cpu_set_phase Exec) s).

(** [kick], for one target. *)
Definition step_kick (c target : nat) (s : sys) : sys :=
  let ks := kicks (cpus s c) in
  let s := on_cpu c (cpu_set_kicks (Z.ldiff ks (kick_bit target))) s in
  if (ks =? 0) || (online s <=? 1) || negb (Z.testbit ks (Z.of_nat target)) || Nat.eqb target c then s
  else
    let signal := signal_kick (cpus s target) in
    let s := on_cpu target (cpu_set_signal_kick false) s in
    if cpu_idle (cpus s target) || signal then on_cpu target (cpu_set_ipi true) s else s.

(** [timer_tick] up to its store.  [seen] is what its load of [NEXT_DEADLINE]
    gave, now or earlier: the load takes no lock.  When the lock is taken it
    returns and leaves the work to another tick. *)
Definition step_tick (c : nat) (now seen : Z) (sv : nat → SigView) (busy : list nat) (table_busy : bool) (s : sys) :
    option sys :=
  if now <? seen then Some s
  else if negb (unlocked s) then Some s
  else
    '(next, woke, sk) ← timer_scan c now sv busy table_busy s;
    Some (sys_set_tasks_lock (Some c) (on_cpu c (cpu_set_phase (Ticking next woke)) (note_kicks c sk))).

(** [itimer_swap] *)
Definition step_itimer (pid : nat) (value interval now : Z) (s : sys) : sys :=
  let at_ := if value =? 0 then 0 else sat_add64 now value in
  let s := on_task pid (set_alarm at_ (if value =? 0 then 0 else interval)) s in
  if at_ =? 0 then s else sys_set_next_deadline (Z.min (next_deadline s) at_) s.

Definition step_tick_store (c : nat) (next : Z) (woke : bool) (s : sys) : sys :=
  let s := sys_set_next_deadline next s in
  let s := if woke then bump s else s in
  sys_set_tasks_lock None (on_cpu c (cpu_set_phase Exec) s).

(** [timer_ctl_write], the command parsed. *)
Definition arm_timer (id : nat) (next interval : Z) (s : sys) : sys :=
  sys_set_timers (alter (fmap (λ t, {| next_ns := next; interval_ns := interval; expirations := 0;
    timer_changes := (timer_changes t + 1) mod 2 ^ 64 |})) id (timers s)) s.

Definition deadline_soon (deadline : Z) (s : sys) : sys :=
  sys_set_next_deadline (Z.min (next_deadline s) deadline) s.

(** [aff] is what [user_affinity] gives. *)
Definition place_thread (c tid : nat) (aff : option nat) (s : sys) : sys :=
  if bool_decide (tid < MAX_TASKS)%nat && bool_decide (state (tasks s tid) = Ready) && start_regs (tasks s tid)
  then note_kicks c (rehome_locked tid aff (s, 0)) else s.

(** The step of processor [c], when it can make it; [cur] is its task.  The
    tests of [guard_some] that are not the code's say where in the code the
    processor is: the lock is free, no switch or halt is under way, a new
    task has taken its registers before it does anything, an idle task
    neither blocks nor ends, a slot is installed where one was found. *)
Definition exec_on (c cur : nat) (o : Op) (s : sys) : option sys :=
  let k := cpus s c in
  let t := tasks s cur in
  match o with
  | OPick => guard_some (unlocked s) (step_pick c cur s)
  | OSwitch saved =>
      match phase k, switched_from k with
      | Leaving, Some old =>
          guard_some (negb (saved =? 0)) (Some (on_cpu c (cpu_set_phase Arrived) (on_task old (set_sp saved) s)))
      | _, _ => None
      end
  | OFinish =>
      guard_some (unlocked s && bool_decide (phase k = Arrived))
        (Some (on_cpu c (cpu_set_phase Exec) (note_kicks c (finish_switch c s))))
  | OIdleOn b =>
      guard_some (in_exec c s) (Some (on_cpu c (λ k, cpu_set_phase (Idling b) (cpu_set_cpu_idle true k)) s))
  | OIdleOff => guard_some (in_exec c s) (Some (on_cpu c (cpu_set_cpu_idle false) s))
  | OCheck => guard_some (bool_decide (phase k = Checking)) (Some (step_check c s))
  | OInterrupt =>
      guard_some (bool_decide (phase k = Halted) || in_exec c s)
        (Some (on_cpu c (λ k, cpu_set_phase Exec (cpu_set_ipi false k)) s))
  | OBlock key seq deadline =>
      guard_some (in_exec c s && unlocked s && preempt_on s && negb (start_regs t)
                  && negb (bool_decide (idle_slot k = Some cur)))
        (Some (step_block c cur key seq deadline s))
  | ODecide now =>
      match phase k with
      | Blocking key seq deadline => Some (step_decide c cur key seq deadline now s)
      | _ => None
      end
  | OWake key => guard_some (in_exec c s && unlocked s) (Some (note_kicks c (wake key s)))
  | OWakeN key max => guard_some (in_exec c s && unlocked s) (Some (note_kicks c (wake_n key max s).2))
  | OWakeTask slot =>
      guard_some (in_exec c s && unlocked s) (Some (note_kicks c (wake_task_locked c slot (s, 0))))
  | OSignal slot sig v =>
      guard_some (in_exec c s && unlocked s && bool_decide (slot < MAX_TASKS)%nat)
        (Some (note_kicks c (send_locked c slot sig v (s, 0))))
  | OSigTake set => guard_some (in_exec c s && unlocked s) (Some (on_task cur (take_signal set) s))
  | OAnyBump =>
      guard_some (in_exec c s && bool_decide (any_phase k = NoAny))
        (Some (on_cpu c (cpu_set_any_phase Bumped) (bump s)))
  | OAnyRead =>
      guard_some (in_exec c s && bool_decide (any_phase k = Bumped))
        (Some (on_cpu c (cpu_set_any_phase (if any_waiters s =? 0 then NoAny else SawWaiters)) s))
  | OAnyWake =>
      guard_some (in_exec c s && unlocked s && bool_decide (any_phase k = SawWaiters))
        (Some (on_cpu c (cpu_set_any_phase NoAny) (note_kicks c (wake WAIT_ANY s))))
  | OKick target =>
      guard_some (in_exec c s && bool_decide (target < MAX_CPUS)%nat) (Some (step_kick c target s))
  | OTick now seen sv busy table_busy =>
      guard_some (in_exec c s) (step_tick c now seen sv busy table_busy s)
  | OTickStore =>
      match phase k with Ticking next woke => Some (step_tick_store c next woke s) | _ => None end
  | OArm id next interval =>
      guard_some (in_exec c s) (Some (arm_timer id next interval s))
  | ODeadlineSoon d =>
      guard_some (in_exec c s) (Some (deadline_soon d s))
  | OItimer pid value interval now =>
      guard_some (in_exec c s && unlocked s && bool_decide (pid < MAX_TASKS)%nat)
        (Some (step_itimer pid value interval now s))
  | OTake => guard_some (in_exec c s && unlocked s) (Some (on_task cur (set_start_regs false) s))
  | ORetire =>
      guard_some (in_exec c s && unlocked s && negb (start_regs t) && bool_decide (state t = Running)
                  && negb (bool_decide (idle_slot k = Some cur)))
        (Some (retire cur s))
  | OSpace root => guard_some (in_exec c s && unlocked s) (Some (on_task cur (set_aspace root) s))
  | OReap slot =>
      guard_some (in_exec c s && unlocked s && bool_decide (slot < MAX_TASKS)%nat && reapable slot s)
        (Some (recycle slot s))
  | OUnclaim slot =>
      guard_some (in_exec c s && unlocked s && bool_decide (state (tasks s slot) = Claimed))
        (Some (on_task slot (set_state Unused) s))
  | OClaim slot => guard_some (in_exec c s && unlocked s && bool_decide (slot < MAX_TASKS)%nat) (claim_slot slot s)
  | OInstall slot sp0 aspace0 tgid0 regs aff =>
      guard_some (in_exec c s && unlocked s && bool_decide (slot < MAX_TASKS)%nat
                  && bool_decide (state (tasks s slot) = Unused ∨ state (tasks s slot) = Claimed))
        (Some (note_kicks c (install slot sp0 aspace0 tgid0 regs aff (s, 0))))
  | OPlace slot aff =>
      guard_some (in_exec c s && unlocked s) (Some (place_thread c slot aff s))
  | OBringUp _ _ => None
  | OBecomeIdle =>
      guard_some (in_exec c s && unlocked s && bool_decide (idle_slot k = None) && bool_decide (state t = Running)
                  && negb (start_regs t) && bool_decide (home (affinity t) = Some c))
        (Some (on_cpu c (cpu_set_idle_slot (Some cur)) s))
  | OEnablePreempt => guard_some (in_exec c s) (Some (sys_set_preempt_on true s))
  end.

(** A processor's first step is its bring-up, on the idle task it installs. *)
Definition bring_up (c slot : nat) (sp0 : Z) (s : sys) : sys :=
  let s := on_task slot (λ _, {| state := Running; sp := sp0; aspace := 0; tgid := 0; start_regs := false;
    affinity := Some c; wait_key := 0; wake_at := 0; wake_pending := false; key_woken := false;
    sig_pending := 0; alarm_at := 0; alarm_every := 0 |}) s in
  sys_set_preempt_on true
    (on_cpu c (λ k, cpu_set_idle_slot (Some slot) (cpu_set_current (Some slot) k)) s).

Definition exec (c : nat) (o : Op) (s : sys) : option sys :=
  guard_some (bool_decide (c < MAX_CPUS)%nat)
    (match current (cpus s c), o with
     | None, OBringUp slot sp0 =>
         guard_some (unlocked s && bool_decide (slot < MAX_TASKS)%nat
                     && bool_decide (state (tasks s slot) = Unused))
           (Some (bring_up c slot sp0 s))
     | Some cur, o => exec_on c cur o s
     | None, _ => None
     end).

Fixpoint run (ops : list (nat * Op)) (s : sys) : option sys :=
  match ops with
  | [] => Some s
  | (c, o) :: ops' => s ← exec c o s; run ops' s
  end.

(** After [task::init]: the boot processor runs task 0. *)
Definition boot (n : Z) (ts : list (option TimerState)) : sys := {|
  tasks := λ i, if decide (i = 0)%nat then set_affinity (Some 0%nat) (set_state Running EMPTY) else EMPTY;
  cpus := λ c, {| current := if decide (c = 0)%nat then Some 0%nat else None; switched_from := None;
    idle_slot := None; runq := s_empty; pulls := 0; need_resched := false; cpu_idle := false;
    signal_kick := false; phase := Exec; any_phase := NoAny; kicks := 0; ipi := false |};
  float := s_empty; timers := ts; wait_seq := 0; bumps := 0; next_deadline := U64_MAX; any_waiters := 0;
  preempt_on := false; online := n; tasks_lock := None |}.

End sched.
