(* ===== verification/Ring.v ===== *)
(** * Rings

    A queue kept in an array of [cap] elements, from [start] on and around
    the end: what the terminals of [Tty.v] and [Pty.v] hold bytes in. *)

From S2P Require Import Prelude.
From stdpp Require Import list numbers.

Open Scope Z_scope.

Section ring.
Context (cap : Z) (Hcap : 0 < cap).

(** The [n] elements from [start] on. *)
Definition ring (buf : list Z) (start n : Z) : list Z := (λ i, buf !!! Z.to_nat ((start + i) mod cap)) <$> seqZ 0 n.

Lemma ring_length buf start n : 0 <= n → zlen (ring buf start n) = n.
Proof using. intros. unfold ring. rewrite length_fmap, length_seqZ. lia. Qed.

Lemma ring_nil buf start : ring buf start 0 = [].
Proof using. done. Qed.

Lemma ring_one buf start : ring buf start 1 = [buf !!! Z.to_nat (start mod cap)].
Proof using. unfold ring. change (seqZ 0 1) with [0]. cbn [fmap list_fmap]. by rewrite Z.add_0_r. Qed.

Lemma ring_app buf start n m : 0 <= n → 0 <= m → ring buf start (n + m) = ring buf start n ++ ring buf ((start + n) mod cap) m.
Proof using Hcap.
  intros Hn Hm. unfold ring. rewrite seqZ_app, fmap_app by lia. f_equal. rewrite Z.add_0_l.
  replace (seqZ n m) with (Z.add n <$> seqZ 0 m) by (rewrite fmap_add_seqZ; f_equal; lia). rewrite <- list_fmap_compose. apply list_fmap_ext. intros i x _. cbn. f_equal. f_equal. rewrite Zplus_mod_idemp_l. f_equal. lia.
Qed.

Lemma ring_cons buf start n : 0 < n → 0 <= start < cap → zlen buf = cap → ∃ b, zget buf start = Some b ∧ ring buf start n = b :: ring buf ((start + 1) mod cap) (n - 1).
Proof using Hcap.
  intros Hn Hs Hl. destruct (zget_is_some buf start) as [b Hb]; [lia|]. exists b. split; [done|]. replace n with (1 + (n - 1)) at 1 by lia.
  rewrite ring_app, ring_one, Z.mod_small by lia. cbn [app]. f_equal. rewrite zget_lookup in Hb by lia. by apply list_lookup_total_correct.
Qed.

Lemma ring_other buf i x start n : 0 <= i < cap → zlen buf = cap → (∀ j, 0 <= j < n → (start + j) mod cap ≠ i) →
  ring (<[Z.to_nat i := x]> buf) start n = ring buf start n.
Proof using Hcap.
  intros Hi Hl Hne. unfold ring. apply list_fmap_ext. intros k j Hj. apply list_elem_of_lookup_2, elem_of_seqZ in Hj. cbn.
  apply list_lookup_total_insert_ne. pose proof (Hne j ltac:(lia)). pose proof (Z.mod_pos_bound (start + j) cap Hcap). lia.
Qed.

(** One more at the end. *)
Lemma ring_push buf start n x : 0 <= start < cap → 0 <= n < cap → zlen buf = cap → ∃ buf',
  zset buf ((start + n) mod cap) x = Some buf' ∧ zlen buf' = cap ∧ ring buf' start (n + 1) = ring buf start n ++ [x].
Proof using Hcap.
  intros Hs Hn Hl. pose proof (Z.mod_pos_bound (start + n) cap Hcap) as Hm. exists (<[Z.to_nat ((start + n) mod cap) := x]> buf). split_and!.
  - unfold zset. rewrite (proj2 (Z.leb_le _ _)), (proj2 (Z.ltb_lt _ _)) by lia. done.
  - rewrite length_insert. done.
  - rewrite ring_app by lia. f_equal.
    + apply ring_other; [done..|]. intros j Hj E. assert (Hd : (start + n) mod cap = (start + j) mod cap) by lia.
      assert (Hz : (n - j) mod cap = 0).
      { replace (n - j) with ((start + n) - (start + j)) by lia. rewrite Zminus_mod, Hd, Z.sub_diag. apply Z.mod_0_l. lia. }
      rewrite Z.mod_small in Hz by lia. lia.
    + rewrite ring_one, Z.mod_mod by lia. f_equal. apply list_lookup_total_insert_eq. lia.
Qed.

End ring.
