(* ===== verification/Tty.v ===== *)
(** * Terminals

    [kernel/src/tty.rs]: the state of a terminal's input (its settings, the
    ring of bytes that can be read, the line being edited), the line
    discipline that every byte typed goes through, and the text of its
    control file, which is read and written back.  The bytes a function
    echoes are part of its result, in order.  An outer [None] is a panic. *)

From S2P Require Import Prelude.
From stdpp Require Import list.
From S2P Require Import Text.

Open Scope string_scope.
Open Scope list_scope.
Open Scope Z_scope.

Definition VINTR : Z := 0.
Definition VERASE : Z := 2.
Definition VEOF : Z := 4.
Definition VTIME : Z := 5.
Definition VMIN : Z := 6.

Definition ICRNL : Z := 0x100.
Definition OPOST : Z := 1.
Definition ONLCR : Z := 4.
Definition ISIG : Z := 1.
Definition ICANON : Z := 2.
Definition ECHO : Z := 8.
Definition ECHOE : Z := 16.
Definition ECHOK : Z := 32.
Definition IEXTEN : Z := 0x200.
Definition CS8 : Z := 0x30.
Definition CREAD : Z := 0x80.

Record Termios : Set := {
  c_iflag : Z; c_oflag : Z; c_cflag : Z; c_lflag : Z; c_cc : list Z; c_ispeed : Z; c_ospeed : Z }.

(** [flags & bit != 0] *)
Definition has (flags bit : Z) : bool := negb (Z.land flags bit =? 0).

(** [Termios::cooked] *)
Definition cooked : Termios :=
  {| c_iflag := ICRNL; c_oflag := Z.lor OPOST ONLCR; c_cflag := Z.lor CS8 CREAD;
     c_lflag := Z.lor (Z.lor (Z.lor (Z.lor (Z.lor ISIG ICANON) ECHO) ECHOE) ECHOK) IEXTEN;
     c_cc := [3; 0; 0x7f; 0; 4; 0; 1] ++ replicate 25 0; c_ispeed := 0; c_ospeed := 0 |}.

Definition RING : Z := 256.
Definition EDIT : Z := 128.

(** ** The input of a terminal *)

Record TtyIn : Set := {
  termios : Termios; buf : list Z; head : Z; tail : Z; edit : list Z; edit_len : Z; eof : bool }.

Definition tty_new : TtyIn :=
  {| termios := cooked; buf := replicate (Z.to_nat RING) 0; head := 0; tail := 0; edit := replicate (Z.to_nat EDIT) 0; edit_len := 0; eof := false |}.

Definition set_edit_len (t : TtyIn) (n : Z) : TtyIn :=
  {| termios := termios t; buf := buf t; head := head t; tail := tail t; edit := edit t; edit_len := n; eof := eof t |}.

Definition set_eof (t : TtyIn) (b : bool) : TtyIn :=
  {| termios := termios t; buf := buf t; head := head t; tail := tail t; edit := edit t; edit_len := edit_len t; eof := b |}.

Definition set_tail (t : TtyIn) (n : Z) : TtyIn :=
  {| termios := termios t; buf := buf t; head := head t; tail := n; edit := edit t; edit_len := edit_len t; eof := eof t |}.

Definition set_termios (t : TtyIn) (next : Termios) : TtyIn :=
  let was_canon := has (c_lflag (termios t)) ICANON in
  let now_canon := has (c_lflag next) ICANON in
  {| termios := next; buf := buf t; head := head t; tail := tail t; edit := edit t;
     edit_len := if was_canon && negb now_canon then 0 else edit_len t; eof := eof t |}.

Definition push_committed (t : TtyIn) (byte : Z) : option TtyIn :=
  let next := (head t + 1) mod RING in
  if next =? tail t then Some t
  else
    b ← zset (buf t) (head t) byte;
    Some {| termios := termios t; buf := b; head := next; tail := tail t; edit := edit t; edit_len := edit_len t; eof := eof t |}.

(** [for i in 0..len { self.push_committed(self.edit[i]) }], from [i] on *)
Fixpoint commit_from (n : nat) (i : Z) (t : TtyIn) : option TtyIn :=
  match n with
  | O => Some t
  | S n => b ← zget (edit t) i; t ← push_committed t b; commit_from n (i + 1) t
  end.

(** The line goes to the ring. *)
Definition commit_edit (t : TtyIn) : option TtyIn := t ← commit_from (Z.to_nat (edit_len t)) 0 t; Some (set_edit_len t 0).

Definition printable (byte : Z) : bool := (0x20 <=? byte) && (byte <=? 0x7e).

(** The bytes [push_raw] takes in canonical mode, past [^D] and [^C]. *)
Definition push_cooked (byte : Z) (t : TtyIn) : option (list Z * TtyIn) :=
  let echo (l : list Z) := if has (c_lflag (termios t)) ECHO then l else [] in
  if negb ((byte =? 10) || (byte =? 9) || (byte =? 8) || (byte =? 127) || printable byte) then Some ([], t)
  else if (byte =? 127) || (byte =? 8) then
    if edit_len t =? 0 then Some ([], t) else Some (echo [8; 32; 8], set_edit_len t (edit_len t - 1))
  else if byte =? 10 then
    t' ← commit_edit t; t' ← push_committed t' 10; Some (echo [10], t')
  else if EDIT <=? edit_len t then Some ([], t)
  else
    e ← zset (edit t) (edit_len t) byte;
    Some (echo [byte],
          {| termios := termios t; buf := buf t; head := head t; tail := tail t; edit := e; edit_len := edit_len t + 1; eof := eof t |}).

(** Whether it was the interrupt character, and what is echoed. *)
Definition push_raw (raw : Z) (t : TtyIn) : option (bool * list Z * TtyIn) :=
  let lflag := c_lflag (termios t) in
  let byte := if (raw =? 13) && has (c_iflag (termios t)) ICRNL then 10 else raw in
  veof ← zget (c_cc (termios t)) VEOF;
  if has lflag ICANON && (byte =? veof) && negb (byte =? 0) then
    if edit_len t =? 0 then Some (false, [], set_eof t true)
    else t ← commit_edit t; Some (false, [], t)
  else if has lflag ISIG && (byte =? 3) then Some (true, [], set_edit_len t 0)
  else if negb (has lflag ICANON) then
    t ← push_committed t byte;
    Some (false, if has lflag ECHO && negb (byte =? 0x1b) && ((byte =? 10) || (byte =? 9) || printable byte) then [byte] else [], t)
  else '(e, t) ← push_cooked byte t; Some (false, e, t).

Definition pop (t : TtyIn) : option (option Z * TtyIn) :=
  if tail t =? head t then Some (None, t)
  else b ← zget (buf t) (tail t); Some (Some b, set_tail t ((tail t + 1) mod RING)).

Definition take_eof (t : TtyIn) : bool * TtyIn := (eof t, set_eof t false).

Definition available (t : TtyIn) : Z := (head t + RING - tail t) mod RING.

Definition flush_input (t : TtyIn) : TtyIn :=
  {| termios := termios t; buf := buf t; head := head t; tail := head t; edit := edit t; edit_len := 0; eof := false |}.

(** ** The control file *)

Inductive CtlAction : Set :=
  | ATermios (t : Termios) | AWinsize (rows cols : Z) | ACtty | AFlush (input output : bool) | AKeymap (path : text) | AScreen (n : Z).

(** [{:x}] and [{:02x}] *)
Definition hex_char (d : Z) : Z := if d <? 10 then 48 + d else 87 + d.

Fixpoint hex_from (fuel : nat) (v : Z) : text :=
  match fuel with
  | O => []
  | S fuel => if v <? 16 then [hex_char v] else hex_from fuel (v / 16) ++ [hex_char (v mod 16)]
  end.

Definition hex (v : Z) : text := hex_from 8 v.
Definition hex2 (b : Z) : text := [hex_char (b / 16); hex_char (b mod 16)].

Definition ctl_text (t : Termios) (rows cols : Z) : text :=
  str "iflag 0x" ++ hex (c_iflag t) ++ [10] ++ str "oflag 0x" ++ hex (c_oflag t) ++ [10] ++ str "cflag 0x" ++ hex (c_cflag t) ++ [10] ++
  str "lflag 0x" ++ hex (c_lflag t) ++ [10] ++ str "cc" ++ concat ((λ b, 32 :: hex2 b) <$> c_cc t) ++ [10] ++
  str "speed " ++ dec (c_ispeed t) ++ str " " ++ dec (c_ospeed t) ++ [10] ++ str "winsize " ++ dec rows ++ str " " ++ dec cols ++ [10].

(** [devfs::console_ctl_text]: the console's file has its keyboard map and
    the text screen shown as well. *)
Definition console_ctl_text (t : Termios) (rows cols : Z) (keymap : option text) (screen : Z) : list Z :=
  ctl_text t rows cols ++ str "keymap " ++ match keymap with Some path => as_bytes path | None => str "none" end ++
  [10] ++ str "screen " ++ dec screen ++ [10].

(** [u32::from_str_radix(s, 16).ok()] *)
Fixpoint hex32_digits (acc : Z) (s : text) : option Z :=
  match s with
  | [] => Some acc
  | c :: s => d ← hex_digit c; v ← fits 32 (acc * 16 + d); hex32_digits v s
  end.

Definition u32_from_hex (s : text) : option Z :=
  let digits := match s with 43 :: s' => s' | _ => s end in
  if nonempty digits then hex32_digits 0 digits else None.

Definition ctl_number (word : text) : option Z :=
  match strip_prefix (str "0x") word with
  | Some h => u32_from_hex h
  | None => parse_u32 word
  end.

Definition CONSOLE_SCREENS : Z := 10.

(** The settings so far, whether a line changed them, and the actions. *)
Record Parsed := { p_termios : Termios; p_changed : bool; p_actions : list CtlAction }.

Definition with_flag (key : text) (v : Z) (t : Termios) : Termios :=
  {| c_iflag := if bool_decide (key = str "iflag") then v else c_iflag t;
     c_oflag := if bool_decide (key = str "oflag") then v else c_oflag t;
     c_cflag := if bool_decide (key = str "cflag") then v else c_cflag t;
     c_lflag := if bool_decide (key = str "lflag") then v else c_lflag t;
     c_cc := c_cc t; c_ispeed := c_ispeed t; c_ospeed := c_ospeed t |}.

Definition with_cc (cc : list Z) (t : Termios) : Termios :=
  {| c_iflag := c_iflag t; c_oflag := c_oflag t; c_cflag := c_cflag t; c_lflag := c_lflag t; c_cc := cc; c_ispeed := c_ispeed t;
     c_ospeed := c_ospeed t |}.

Definition with_speed (i o : Z) (t : Termios) : Termios :=
  {| c_iflag := c_iflag t; c_oflag := c_oflag t; c_cflag := c_cflag t; c_lflag := c_lflag t; c_cc := c_cc t; c_ispeed := i; c_ospeed := o |}.

Definition settings (t : Termios) (p : Parsed) : Parsed := {| p_termios := t; p_changed := true; p_actions := p_actions p |}.
Definition action (a : CtlAction) (p : Parsed) : Parsed :=
  {| p_termios := p_termios p; p_changed := p_changed p; p_actions := p_actions p ++ [a] |}.

(** The words of a [cc] line, into the characters from [i] on. *)
Fixpoint parse_cc (ws : list text) (i : Z) (cc : list Z) : option (Z * list Z) :=
  match ws with
  | [] => Some (i, cc)
  | w :: ws =>
      if zlen cc <=? i then None
      else v ← u8_from_hex w; cc ← zset cc i v; parse_cc ws (i + 1) cc
  end.

(** What [words.next()] and [number] give next. *)
Definition next_number (ws : list text) : option (Z * list text) :=
  match ws with [] => None | w :: ws => v ← ctl_number w; Some (v, ws) end.

Definition is_flag (key : text) : bool :=
  bool_decide (key = str "iflag") || bool_decide (key = str "oflag") || bool_decide (key = str "cflag") || bool_decide (key = str "lflag").

(** One line: its first word, and the others; too many words fail. *)
Definition parse_words (key : text) (ws : list text) (p : Parsed) : option Parsed :=
  '(p, rest) ←
    (if is_flag key then '(v, ws) ← next_number ws; Some (settings (with_flag key v (p_termios p)) p, ws)
     else if bool_decide (key = str "cc") then
       '(i, cc) ← parse_cc ws 0 (c_cc (p_termios p));
       if i =? 0 then None else Some (settings (with_cc cc (p_termios p)) p, [])
     else if bool_decide (key = str "speed") then
       '(i, ws) ← next_number ws; '(o, ws) ← next_number ws; Some (settings (with_speed i o (p_termios p)) p, ws)
     else if bool_decide (key = str "winsize") then
       '(rows, ws) ← next_number ws; rows ← fits 16 rows; '(cols, ws) ← next_number ws; cols ← fits 16 cols;
       Some (action (AWinsize rows cols) p, ws)
     else if bool_decide (key = str "ctty") then Some (action ACtty p, ws)
     else if bool_decide (key = str "flush") then
       match ws with
       | [] => Some (action (AFlush true true) p, [])
       | w :: ws =>
           if bool_decide (w = str "both") then Some (action (AFlush true true) p, ws)
           else if bool_decide (w = str "in") then Some (action (AFlush true false) p, ws)
           else if bool_decide (w = str "out") then Some (action (AFlush false true) p, ws)
           else None
       end
     else if bool_decide (key = str "keymap") then match ws with [] => None | w :: ws => Some (action (AKeymap w) p, ws) end
     else if bool_decide (key = str "screen") then
       '(n, ws) ← next_number ws; if CONSOLE_SCREENS <=? n then None else Some (action (AScreen n) p, ws)
     else None);
  match rest with [] => Some p | _ => None end.

Fixpoint parse_lines (ls : list text) (p : Parsed) : option Parsed :=
  match ls with
  | [] => Some p
  | l :: ls =>
      match words_on is_ascii_whitespace l with
      | [] => parse_lines ls p
      | key :: ws => p ← parse_words key ws p; parse_lines ls p
      end
  end.

Definition ctl_parse (current : Termios) (bytes : list Z) : option (list CtlAction) :=
  s ← from_utf8 bytes;
  p ← parse_lines (lines s) {| p_termios := current; p_changed := false; p_actions := [] |};
  Some (if p_changed p then ATermios (p_termios p) :: p_actions p else p_actions p).
