(* ===== verification/TtyFacts.v ===== *)
(** * The line discipline

    The input of a terminal as a queue and a line, and that [Tty.v] keeps to
    it. *)

From S2P Require Import Prelude.
From stdpp Require Import list.
From S2P Require Import Text Ring Tty.

Open Scope Z_scope.

(** What can be read, and what is being typed. *)
Record Disc : Set := { d_termios : Termios; d_queue : list Z; d_line : list Z; d_eof : bool }.

(** The ring takes one byte less than it has. *)
Definition CAPACITY : nat := 255.

(** Bytes that can be read from now on; those that do not fit are lost. *)
Definition enqueue (l : list Z) (d : Disc) : Disc :=
  {| d_termios := d_termios d; d_queue := take CAPACITY (d_queue d ++ l); d_line := d_line d; d_eof := d_eof d |}.

Definition with_line (l : list Z) (d : Disc) : Disc :=
  {| d_termios := d_termios d; d_queue := d_queue d; d_line := l; d_eof := d_eof d |}.

Definition with_eof (b : bool) (d : Disc) : Disc :=
  {| d_termios := d_termios d; d_queue := d_queue d; d_line := d_line d; d_eof := b |}.

Definition canonical (d : Disc) : bool := has (c_lflag (d_termios d)) ICANON.

(** A byte in a line: erased, ended or added to. *)
Definition s_cooked (byte : Z) (d : Disc) : list Z * Disc :=
  let echo (l : list Z) := if has (c_lflag (d_termios d)) ECHO then l else [] in
  if (byte =? 127) || (byte =? 8) then
    match d_line d with [] => ([], d) | _ => (echo [8; 32; 8], with_line (removelast (d_line d)) d) end
  else if byte =? 10 then (echo [10], with_line [] (enqueue (d_line d ++ [10]) d))
  else if ((byte =? 9) || printable byte) && (zlen (d_line d) <? EDIT) then (echo [byte], with_line (d_line d ++ [byte]) d)
  else ([], d).

Definition s_push (raw : Z) (d : Disc) : bool * list Z * Disc :=
  let lflag := c_lflag (d_termios d) in
  let byte := if (raw =? 13) && has (c_iflag (d_termios d)) ICRNL then 10 else raw in
  if canonical d && bool_decide (c_cc (d_termios d) !! Z.to_nat VEOF = Some byte) && negb (byte =? 0) then
    (false, [], match d_line d with [] => with_eof true d | l => with_line [] (enqueue l d) end)
  else if has lflag ISIG && (byte =? 3) then (true, [], with_line [] d)
  else if canonical d then let '(e, d) := s_cooked byte d in (false, e, d)
  else (false, if has lflag ECHO && ((byte =? 10) || (byte =? 9) || printable byte) then [byte] else [], enqueue [byte] d).

Definition s_pop (d : Disc) : option Z * Disc :=
  match d_queue d with
  | [] => (None, d)
  | b :: q => (Some b, {| d_termios := d_termios d; d_queue := q; d_line := d_line d; d_eof := d_eof d |})
  end.

Definition s_set_termios (next : Termios) (d : Disc) : Disc :=
  {| d_termios := next; d_queue := d_queue d; d_line := if canonical d && negb (has (c_lflag next) ICANON) then [] else d_line d; d_eof := d_eof d |}.

Definition s_flush (d : Disc) : Disc := {| d_termios := d_termios d; d_queue := []; d_line := []; d_eof := false |}.

(** ** The arrays stand for it *)

Definition abs (t : TtyIn) : Disc :=
  {| d_termios := termios t; d_queue := ring RING (buf t) (tail t) (available t); d_line := take (Z.to_nat (edit_len t)) (edit t); d_eof := eof t |}.

Record tty_ok (t : TtyIn) : Prop := {
  ok_cc : zlen (c_cc (termios t)) = 32;
  ok_buf : zlen (buf t) = RING;
  ok_head : 0 <= head t < RING;
  ok_tail : 0 <= tail t < RING;
  ok_edit : zlen (edit t) = EDIT;
  ok_len : 0 <= edit_len t <= EDIT }.

Lemma tty_new_ok : tty_ok tty_new ∧ abs tty_new = {| d_termios := cooked; d_queue := []; d_line := []; d_eof := false |}.
Proof. split; [by split|done]. Qed.

Lemma available_range t : tty_ok t → 0 <= available t < RING ∧ (tail t + available t) mod RING = head t ∧ (available t = 0 ↔ tail t = head t) ∧
  (available t = RING - 1 ↔ (head t + 1) mod RING = tail t).
Proof.
  intros [_ _ Hh Ht _ _]. unfold available, RING in *. split; [by apply Z.mod_pos_bound|]. split; [zdiv; lia|]. split; zdiv; lia.
Qed.

Lemma queue_length t : tty_ok t → zlen (d_queue (abs t)) = available t.
Proof. intros H. destruct (available_range t H) as [Ha _]. cbn. apply ring_length. lia. Qed.

Lemma take_app_take (x y : list Z) n : take n (take n x ++ y) = take n (x ++ y).
Proof. rewrite !take_app, take_take, Nat.min_id, length_take. destruct (decide (n <= length x)%nat); [|f_equal; f_equal; lia]. by replace (n - n `min` length x)%nat with (n - length x)%nat by lia. Qed.

Lemma enqueue_app x y d : enqueue y (enqueue x d) = enqueue (x ++ y) d.
Proof. unfold enqueue. cbn. f_equal. by rewrite take_app_take, app_assoc. Qed.

Lemma enqueue_nil t : tty_ok t → enqueue [] (abs t) = abs t.
Proof.
  intros H. unfold enqueue. rewrite app_nil_r, take_ge; [done|]. pose proof (queue_length t H) as Hq. destruct (available_range t H) as [Ha _].
  unfold CAPACITY, RING in *. cbn in *. lia.
Qed.

Lemma push_committed_ok b t : tty_ok t → ∃ t', push_committed t b = Some t' ∧ tty_ok t' ∧ abs t' = enqueue [b] (abs t) ∧
  edit t' = edit t ∧ edit_len t' = edit_len t.
Proof.
  intros H. destruct (available_range t H) as (Ha&Hh&_&Hfull). pose proof (queue_length t H) as Hq. unfold push_committed.
  destruct (Z.eqb_spec ((head t + 1) mod RING) (tail t)) as [E|E].
  - exists t. split; [done|]. split; [done|]. split; [|done]. apply Hfull in E. unfold enqueue. rewrite take_app_le, take_ge; [done|..];
      unfold CAPACITY, RING in *; cbn in *; lia.
  - assert (Hlt : available t < RING - 1) by (destruct (decide (available t = RING - 1)) as [X|X]; [by apply Hfull in X|lia]).
    destruct H as [H1 H2 H3 H4 H5 H6]. destruct (ring_push RING ltac:(done) (buf t) (tail t) (available t) b) as (buf'&Hz&Hl'&Hring); [done|lia|done|].
    rewrite Hh in Hz. rewrite Hz. cbn [mbind option_bind]. eexists. split; [done|]. split.
    { split; cbn; try done. by apply Z.mod_pos_bound. }
    split; [|done]. assert (Hav : ((head t + 1) mod RING + RING - tail t) mod RING = available t + 1).
    { rewrite <- Hh. unfold RING in *. zdiv. }
    unfold abs, enqueue. cbn. f_equal. unfold available at 1. cbn. rewrite Hav, Hring. rewrite take_ge; [done|]. rewrite length_app. cbn in *. unfold CAPACITY, RING in *. lia.
Qed.

Lemma commit_from_ok n i t : tty_ok t → 0 <= i → i + Z.of_nat n <= EDIT → ∃ t', commit_from n i t = Some t' ∧ tty_ok t' ∧
  abs t' = enqueue (take n (drop (Z.to_nat i) (edit t))) (abs t) ∧ edit t' = edit t ∧ edit_len t' = edit_len t.
Proof.
  revert i t. induction n as [|n IH]; intros i t H Hi Hn; cbn [commit_from].
  - exists t. split; [done|]. split; [done|]. split; [|done]. by rewrite take_0, enqueue_nil.
  - destruct (zget_is_some (edit t) i) as [b Hb]; [rewrite (ok_edit t H); lia|]. rewrite Hb. cbn [mbind option_bind].
    destruct (push_committed_ok b t H) as (t1&->&H1&Ha1&He1&Hl1). cbn [mbind option_bind].
    destruct (IH (i + 1) t1 H1) as (t2&->&H2&Ha2&He2&Hl2); [lia..|]. exists t2. split; [done|]. split; [done|]. split; [|split; congruence].
    rewrite Ha2, Ha1, He1, enqueue_app. f_equal. rewrite zget_lookup in Hb by lia. rewrite (drop_S _ b (Z.to_nat i)) by done. cbn [take app].
    do 3 f_equal. lia.
Qed.

Lemma commit_edit_ok t : tty_ok t → ∃ t', commit_edit t = Some t' ∧ tty_ok t' ∧ abs t' = with_line [] (enqueue (d_line (abs t)) (abs t)).
Proof.
  intros H. pose proof (ok_len t H) as Hl. destruct (commit_from_ok (Z.to_nat (edit_len t)) 0 t H) as (t1&E&H1&Ha1&He1&Hl1); [lia..|].
  unfold commit_edit. rewrite E. cbn [mbind option_bind]. eexists. split; [done|]. split.
  - destruct H1. by split.
  - rewrite drop_0 in Ha1. change (abs (set_edit_len t1 0)) with (with_line [] (abs t1)). by rewrite Ha1.
Qed.

Lemma line_nil t : tty_ok t → edit_len t = 0 ↔ d_line (abs t) = [].
Proof.
  intros [_ _ _ _ He Hl]. cbn. split; [by intros ->|]. intros E%(f_equal length). rewrite length_take in E. cbn in E. lia.
Qed.

(** What a backspace does. *)
Lemma erase_ok t : tty_ok t → let echo (l : list Z) := if has (c_lflag (termios t)) ECHO then l else [] in
  let r := match d_line (abs t) with [] => ([], abs t) | _ => (echo [8; 32; 8], with_line (removelast (d_line (abs t))) (abs t)) end in
  ∃ t', (if edit_len t =? 0 then Some ([], t) else Some (echo [8; 32; 8], set_edit_len t (edit_len t - 1))) = Some (r.1, t') ∧ tty_ok t' ∧ abs t' = r.2.
Proof.
  intros H echo r. pose proof (line_nil t H) as Hnil. pose proof (ok_len t H) as Hl. pose proof (ok_edit t H) as He. subst r.
  destruct (Z.eqb_spec (edit_len t) 0) as [E|E]; [exists t; by rewrite (proj1 Hnil E)|].
  destruct (d_line (abs t)) as [|c l] eqn:El; [by destruct E; apply Hnil|]. eexists. split; [done|]. split; [destruct H; split; try done; cbn; lia|].
  cbn [snd]. unfold abs, with_line. cbn -[removelast]. f_equal. rewrite <- El. cbn [d_line abs].
  replace (Z.to_nat (edit_len t)) with (S (Z.to_nat (edit_len t - 1))) by lia. by rewrite removelast_firstn by lia.
Qed.

Lemma push_cooked_ok byte t : tty_ok t → ∃ t', push_cooked byte t = Some ((s_cooked byte (abs t)).1, t') ∧ tty_ok t' ∧ abs t' = (s_cooked byte (abs t)).2.
Proof.
  intros H. unfold push_cooked, s_cooked. cbn [d_termios abs]. pose proof (line_nil t H) as Hnil. cbn [d_line abs] in Hnil.
  pose proof (ok_len t H) as Hl. pose proof (ok_edit t H) as He.
  destruct (Z.eqb_spec byte 127) as [->|H127]; [|destruct (Z.eqb_spec byte 8) as [->|H8]]; cbn [orb negb andb].
  1,2: by apply erase_ok.
  destruct (Z.eqb_spec byte 10) as [->|H10]; cbn [orb negb andb].
  - destruct (commit_edit_ok t H) as (t1&->&H1&Ha1). cbn [mbind option_bind]. destruct (push_committed_ok 10 t1 H1) as (t2&->&H2&Ha2&_).
    cbn [mbind option_bind]. exists t2. split; [done|]. split; [done|]. rewrite Ha2, Ha1. cbn [fst snd]. unfold enqueue, with_line. cbn. f_equal.
    by rewrite take_app_take, app_assoc.
  - rewrite ?orb_false_r. destruct ((byte =? 9) || printable byte) eqn:Ep; cbn [orb negb andb]; [|by exists t].
    assert (Hlen : zlen (d_line (abs t)) = edit_len t) by (cbn; rewrite length_take; lia). cbn [d_line abs] in Hlen. cbn [d_line abs]. rewrite Hlen, Z.ltb_antisym.
    destruct (Z.leb_spec EDIT (edit_len t)) as [Hful|Hfree]; cbn [negb]; [by exists t|].
    unfold zset. rewrite (proj2 (Z.leb_le 0 _)), (proj2 (Z.ltb_lt _ _)) by lia. cbn [andb mbind option_bind]. eexists. split; [done|]. split.
    { destruct H. split; cbn; try done; [by rewrite length_insert|lia]. }
    unfold abs, with_line. cbn. f_equal. replace (Z.to_nat (edit_len t + 1)) with (S (Z.to_nat (edit_len t))) by lia.
    rewrite (take_S_r _ _ byte) by (apply list_lookup_insert_eq; lia). f_equal. by rewrite take_insert_ge by lia.
Qed.

Lemma push_raw_ok raw t : tty_ok t → let '(i, e, d) := s_push raw (abs t) in ∃ t', push_raw raw t = Some (i, e, t') ∧ tty_ok t' ∧ abs t' = d.
Proof.
  intros H. unfold push_raw, s_push, canonical. cbn [d_termios abs]. set (byte := if (raw =? 13) && _ then 10 else raw).
  destruct (zget_is_some (c_cc (termios t)) VEOF) as [v Hv]; [rewrite (ok_cc t H); unfold VEOF; lia|]. rewrite Hv. cbn [mbind option_bind].
  rewrite zget_lookup in Hv by (unfold VEOF; lia). rewrite Hv. replace (bool_decide (Some v = Some byte)) with (byte =? v)
    by (destruct (Z.eqb_spec byte v) as [->|]; [by rewrite bool_decide_eq_true_2|rewrite bool_decide_eq_false_2; [done|congruence]]).
  pose proof (line_nil t H) as Hnil. cbn [d_line abs] in Hnil. destruct (has (c_lflag (termios t)) ICANON) eqn:Ec; cbn [andb negb].
  - destruct ((byte =? v) && negb (byte =? 0)).
    + destruct (Z.eqb_spec (edit_len t) 0) as [E|E].
      * cbn [d_line abs]. rewrite (proj1 Hnil E). eexists. split; [done|]. split; [by destruct H|]. unfold abs, with_eof. cbn. by rewrite (proj1 Hnil E).
      * destruct (commit_edit_ok t H) as (t1&->&H1&Ha1). cbn [mbind option_bind]. exists t1. cbn [d_line abs] in Ha1 |- *.
        destruct (take (Z.to_nat (edit_len t)) (edit t)) eqn:El; [by destruct E; apply Hnil|]. done.
    + destruct (has (c_lflag (termios t)) ISIG && (byte =? 3)); [|destruct (push_cooked_ok byte t H) as (t1&->&H1&Ha1)].
      * eexists. split; [done|]. split; [destruct H; by split|done].
      * cbn [mbind option_bind]. destruct (s_cooked byte (abs t)). by exists t1.
  - destruct (has (c_lflag (termios t)) ISIG && (byte =? 3)).
    { eexists. split; [done|]. split; [destruct H; by split|done]. }
    destruct (push_committed_ok byte t H) as (t1&->&H1&Ha1&_). cbn [mbind option_bind]. exists t1. split; [|done]. f_equal. f_equal. f_equal.
    destruct (Z.eqb_spec byte 0x1b) as [->|]; cbn [negb]; [by rewrite !andb_false_r|by rewrite andb_true_r].
Qed.

Lemma pop_ok t : tty_ok t → let '(b, d) := s_pop (abs t) in ∃ t', pop t = Some (b, t') ∧ tty_ok t' ∧ abs t' = d.
Proof.
  intros H. destruct (available_range t H) as (Ha&Hh&H0&_). unfold pop, s_pop. cbn [d_queue abs]. destruct (Z.eqb_spec (tail t) (head t)) as [E|E].
  - rewrite (proj2 H0 E), ring_nil. by exists t.
  - assert (Hpos : 0 < available t) by (destruct (decide (available t = 0)) as [X|X]; [by apply H0 in X|lia]).
    destruct (ring_cons RING ltac:(done) (buf t) (tail t) (available t)) as (b&Hb&->); [done|apply H|apply H|]. rewrite Hb. cbn [mbind option_bind].
    eexists. split; [done|]. destruct H as [H1 H2 H3 H4 H5 H6]. split; [split; cbn; try done; by apply Z.mod_pos_bound|].
    unfold abs. cbn. f_equal. f_equal. unfold available. cbn. unfold available, RING in *. zdiv.
Qed.
