(* ===== verification/TtyCtl.v ===== *)
(** * The control file's text

    The numbers, words and lines that [Tty.ctl_text] writes are those that
    [Tty.ctl_parse] reads. *)

From S2P Require Import Prelude.
From stdpp Require Import list.
From S2P Require Import Text Tty.

Open Scope string_scope.
Open Scope list_scope.
Open Scope Z_scope.

(** ** Numbers *)

(** Letters and digits: what a number is written in. *)
Definition plain (c : Z) : Prop := 48 <= c <= 57 ∨ 97 <= c <= 122.

Lemma hex_char_plain d : 0 <= d < 16 → plain (hex_char d).
Proof. intros Hd. unfold hex_char, plain. case_if; lia. Qed.

Lemma hex_digit_char d : 0 <= d < 16 → hex_digit (hex_char d) = Some d.
Proof.
  intros Hd. unfold hex_digit, hex_char. destruct (Z.ltb_spec d 10).
  - rewrite (proj2 (Z.leb_le 48 _)), (proj2 (Z.leb_le _ 57)) by lia. cbn. f_equal. lia.
  - rewrite (proj2 (Z.leb_gt _ 57)), andb_false_r by lia. rewrite (proj2 (Z.leb_le 97 _)), (proj2 (Z.leb_le _ 102)) by lia. cbn. f_equal. lia.
Qed.

Lemma hex32_app acc a b : hex32_digits acc (a ++ b) = (v ← hex32_digits acc a; hex32_digits v b).
Proof.
  revert acc. induction a as [|c a IH]; intros acc; [done|]. cbn [app hex32_digits]. destruct (hex_digit c); [|done]. cbn [mbind option_bind].
  destruct (fits 32 _); [|done]. cbn [mbind option_bind]. apply IH.
Qed.

Lemma hex_from_value fuel v : 0 <= v < 16 ^ Z.of_nat fuel → v < 2 ^ 32 → hex32_digits 0 (hex_from fuel v) = Some v.
Proof.
  revert v. induction fuel as [|fuel IH]; intros v Hv Hm; [cbn in *; f_equal; lia|]. cbn [hex_from]. destruct Hv as [Hv Hu]. destruct (Z.ltb_spec v 16).
  - clear Hu IH. cbn [hex32_digits]. rewrite hex_digit_char by lia. cbn [mbind option_bind]. by rewrite fits_in by lia.
  - rewrite Nat2Z.inj_succ, Z.pow_succ_r in Hu by lia. pose proof (Z.div_mod v 16 ltac:(lia)). pose proof (Z.mod_pos_bound v 16 ltac:(lia)).
    rewrite hex32_app, IH; [|split; [apply Z.div_pos; lia|apply Z.div_lt_upper_bound; lia]|apply Z.div_lt_upper_bound; lia].
    cbn [mbind option_bind hex32_digits]. rewrite hex_digit_char by lia. cbn [mbind option_bind]. rewrite fits_in by lia. cbn. f_equal. lia.
Qed.

Lemma hex_from_plain fuel v : 0 <= v → Forall plain (hex_from fuel v).
Proof.
  revert v. induction fuel as [|fuel IH]; intros v Hv; cbn [hex_from]; [constructor|]. destruct (Z.ltb_spec v 16); [constructor; [apply hex_char_plain; lia|constructor]|].
  apply Forall_app. split; [apply IH, Z.div_pos; lia|]. constructor; [apply hex_char_plain, Z.mod_pos_bound; lia|constructor].
Qed.

(** A word made of plain characters has one, and does not start with a sign. *)
Definition word (w : text) : Prop := w ≠ [] ∧ Forall plain w.

Lemma hex_word v : 0 <= v → word (hex v).
Proof.
  intros Hv. split; [|by apply hex_from_plain]. unfold hex. intros E. change (hex_from 8 v) with (if v <? 16 then [hex_char v] else hex_from 7 (v / 16) ++ [hex_char (v mod 16)]) in E.
  destruct (v <? 16); [done|]. by apply app_eq_nil in E as [_ ?].
Qed.

Lemma dec_word v : 0 <= v → word (dec v).
Proof.
  intros Hv. split; [by destruct (dec_nonempty v) as (c&s&->)|]. eapply Forall_impl; [by apply dec_digits|]. intros c Hc. by left.
Qed.

Lemma no_sign w : word w → (match w with 43 :: s' => s' | _ => w end) = w.
Proof.
  intros [Hne Hw]. destruct w as [|c w]; [done|]. apply Forall_cons in Hw as [Hc _]. unfold plain in Hc. destruct c as [|c|c]; try done.
  do 6 (destruct c as [c|c|]; try lia; try done).
Qed.

Lemma word_nonempty w : word w → nonempty w = true.
Proof. intros [Hne _]. by destruct w. Qed.

Lemma number_hex v : 0 <= v < 2 ^ 32 → ctl_number (str "0x" ++ hex v) = Some v.
Proof.
  intros Hv. change (ctl_number (str "0x" ++ hex v)) with (u32_from_hex (hex v)). unfold u32_from_hex. pose proof (hex_word v ltac:(lia)) as Hw.
  rewrite (no_sign _ Hw), (word_nonempty _ Hw). apply hex_from_value; [|lia]. cbn. lia.
Qed.

Lemma number_dec v : 0 <= v < 2 ^ 32 → ctl_number (dec v) = Some v.
Proof.
  intros Hv. unfold ctl_number. rewrite parse_dec by (unfold U32_MAX; lia). destruct (strip_prefix (str "0x") (dec v)) as [h|] eqn:E; [|done]. exfalso.
  pose proof (dec_digits v ltac:(lia)) as Hd. destruct (dec_nonempty v) as (c&s&Ed). rewrite Ed in *. apply Forall_cons in Hd as [_ Hd].
  cbn [str] in E. change (str "0x") with [48; 120] in E. cbn [strip_prefix] in E. destruct (48 =? c); [|done]. destruct s as [|c' s]; [done|].
  apply Forall_cons in Hd as [Hc' _]. destruct (Z.eqb_spec 120 c'); [lia|done].
Qed.

Lemma hex2_word b : 0 <= b < 256 → word (hex2 b).
Proof.
  intros Hb. split; [done|]. constructor; [|constructor; [|constructor]]; apply hex_char_plain; [|apply Z.mod_pos_bound; lia].
  split; [apply Z.div_pos; lia|apply Z.div_lt_upper_bound; lia].
Qed.

Lemma hex2_value b : 0 <= b < 256 → u8_from_hex (hex2 b) = Some b.
Proof.
  intros Hb. pose proof (Z.div_mod b 16 ltac:(lia)). pose proof (Z.mod_pos_bound b 16 ltac:(lia)).
  assert (0 <= b / 16 < 16) by (split; [apply Z.div_pos; lia|apply Z.div_lt_upper_bound; lia]).
  destruct (hex2_word b Hb) as [_ Hp]. apply Forall_cons in Hp as [Hp _]. unfold u8_from_hex, hex2 in *.
  destruct (Z.eqb_spec (hex_char (b / 16)) 43) as [E|_]; [rewrite E in Hp; unfold plain in Hp; lia|].
  cbn [hex_digits]. rewrite !hex_digit_char by lia. cbn [mbind option_bind]. rewrite fits_in by lia. cbn [mbind option_bind]. rewrite fits_in by lia. cbn. f_equal. lia.
Qed.

(** ** Words and lines *)

(** A word of a line: no white space in it. *)
Definition line_char (c : Z) : Prop := scalar c = true ∧ is_ascii_whitespace c = false.
Definition line_word (w : text) : Prop := w ≠ [] ∧ Forall line_char w.

Lemma plain_line c : plain c → line_char c.
Proof.
  unfold plain, line_char, is_ascii_whitespace, scalar. intros Hc. rewrite !(proj2 (Z.eqb_neq _ _)) by lia. split; [lia|done].
Qed.

Lemma word_line w : word w → line_word w.
Proof. intros [Hne Hw]. split; [done|]. eapply Forall_impl; [exact Hw|]. apply plain_line. Qed.

Lemma split_on_word (p : Z → bool) w rest : Forall (λ c, p c = false) w →
  split_on p (w ++ rest) = match split_on p rest with x :: xs => (w ++ x) :: xs | [] => [w] end.
Proof.
  induction 1 as [|c w Hc _ IH]; cbn [app split_on].
  - destruct rest as [|c r]; cbn; [done|]. destruct (p c); [done|]. by destruct (split_on p r).
  - rewrite Hc, IH. by destruct (split_on p rest).
Qed.

Lemma word_spaces w : line_word w → Forall (λ c, is_ascii_whitespace c = false) w.
Proof. intros [_ Hw]. eapply Forall_impl; [exact Hw|]. by intros c [_ Hc]. Qed.

Lemma line_word_nonempty w : line_word w → nonempty w = true.
Proof. intros [Hne _]. by destruct w. Qed.

(** The words of a line, written with a space between them. *)
Definition spaced (ws : list text) : text := match ws with [] => [] | w :: ws => w ++ concat ((λ w, 32 :: w) <$> ws) end.

Lemma words_spaced ws : Forall line_word ws → ws ≠ [] → words_on is_ascii_whitespace (spaced ws) = ws.
Proof.
  intros Hw Hne. destruct ws as [|w ws]; [done|]. clear Hne. apply Forall_cons in Hw as [Hw Hws]. cbn [spaced]. revert w Hw.
  induction Hws as [|w' ws Hw' _ IH]; intros w Hw; cbn [fmap list_fmap concat].
  - rewrite app_nil_r. unfold words_on. rewrite <- (app_nil_r w) at 1. rewrite split_on_word by (by apply word_spaces). cbn [split_on]. rewrite app_nil_r.
    rewrite filter_cons_True by (by apply line_word_nonempty). done.
  - unfold words_on in *. rewrite split_on_word by (by apply word_spaces). cbn [app split_on]. change (is_ascii_whitespace 32) with true. cbn iota. rewrite app_nil_r.
    rewrite filter_cons_True by (by apply line_word_nonempty). f_equal. by apply IH.
Qed.

Lemma lines_cons l rest : Forall (λ c, line_char c ∨ c = 32) l → lines (l ++ 10 :: rest) = l :: lines rest.
Proof.
  intros Hl. induction Hl as [|c l Hc _ IH]; cbn [app lines]; [done|].
  destruct (Z.eqb_spec c 10) as [->|]; [by destruct Hc as [[_ [=]]|[=]]|]. destruct (Z.eqb_spec c 13) as [->|]; [by destruct Hc as [[_ [=]]|[=]]|]. cbn [andb].
  by rewrite IH.
Qed.

Lemma spaced_chars ws : Forall line_word ws → Forall (λ c, line_char c ∨ c = 32) (spaced ws).
Proof.
  intros Hws. assert (Hw : ∀ w, line_word w → Forall (λ c, line_char c ∨ c = 32) w) by (intros w [_ Hw]; eapply Forall_impl; [exact Hw|]; by left).
  destruct Hws as [|w ws Hw1 Hws]; [constructor|]. cbn [spaced]. apply Forall_app. split; [by apply Hw|].
  induction Hws as [|w' ws Hw' _ IH]; cbn; [constructor|]. constructor; [by right|]. apply Forall_app. split; [by apply Hw|done].
Qed.

Lemma as_bytes_app a b : as_bytes (a ++ b) = as_bytes a ++ as_bytes b.
Proof. unfold as_bytes. by rewrite fmap_app, concat_app. Qed.

Lemma ascii_bytes s : Forall (λ c, 0 <= c < 128) s → as_bytes s = s.
Proof.
  unfold as_bytes. induction 1 as [|c s Hc _ IH]; [done|]. cbn. rewrite IH. unfold encode_char. by rewrite (proj2 (Z.ltb_lt c 0x80)) by lia.
Qed.

(** ** The lines of the control file *)

Lemma parse_line key ws rest p : line_word key → Forall line_word ws →
  parse_lines (lines (spaced (key :: ws) ++ 10 :: rest)) p = (p ← parse_words key ws p; parse_lines (lines rest) p).
Proof.
  intros Hk Hws. rewrite lines_cons by (apply spaced_chars; by constructor). cbn [parse_lines]. by rewrite words_spaced by (done || by constructor).
Qed.

Lemma zset_at {A} (pre old : list A) o x : zset (pre ++ o :: old) (zlen pre) x = Some (pre ++ x :: old).
Proof.
  unfold zset. rewrite (proj2 (Z.leb_le 0 _)), (proj2 (Z.ltb_lt _ _)) by (rewrite ?length_app; cbn [length]; lia). cbn [andb]. f_equal.
  rewrite Nat2Z.id. rewrite insert_app_r_alt by lia. by rewrite Nat.sub_diag.
Qed.

Lemma parse_cc_bytes bs pre old : Forall (λ b, 0 <= b < 256) bs → length old = length bs →
  parse_cc (hex2 <$> bs) (zlen pre) (pre ++ old) = Some (zlen pre + zlen bs, pre ++ bs).
Proof.
  intros Hbs. revert pre old. induction Hbs as [|b bs Hb _ IH]; intros pre old Hlen.
  - destruct old; [|done]. cbn. by rewrite Z.add_0_r.
  - destruct old as [|o old]; [done|]. cbn [fmap list_fmap parse_cc]. rewrite (proj2 (Z.leb_gt _ _)) by (rewrite length_app; cbn [length]; lia).
    rewrite hex2_value by done. cbn [mbind option_bind]. rewrite zset_at. cbn [mbind option_bind].
    change (b :: old) with ([b] ++ old). rewrite (app_assoc pre [b] old).
    replace (zlen pre + 1) with (zlen (pre ++ [b])) by (rewrite length_app; cbn; lia).
    rewrite IH by (cbn in Hlen; lia). rewrite <- app_assoc. f_equal. f_equal. rewrite length_app. cbn [length]. lia.
Qed.
