(* ===== verification/TtyProps.v ===== *)
(** * Terminals: theorems

    The line discipline over any sequence of calls, and the control file's
    text read back. *)

From S2P Require Import Prelude.
From stdpp Require Import list.
From S2P Require Import Text Ring Tty TtyFacts TtyCtl.

Open Scope string_scope.
Open Scope list_scope.
Open Scope Z_scope.

(** ** Any calls *)

Inductive Op : Set := Push (raw : Z) | Pop | TakeEof | Available | Flush | SetTermios (next : Termios).

Inductive Answer : Set := ADone | APushed (intr : bool) (echo : list Z) | APopped (b : option Z) | AEof (b : bool) | ACount (n : Z).

Definition exec (o : Op) (t : TtyIn) : option (Answer * TtyIn) :=
  match o with
  | Push raw => '(i, e, t) ← push_raw raw t; Some (APushed i e, t)
  | Pop => '(b, t) ← pop t; Some (APopped b, t)
  | TakeEof => let '(b, t) := take_eof t in Some (AEof b, t)
  | Available => Some (ACount (available t), t)
  | Flush => Some (ADone, flush_input t)
  | SetTermios next => Some (ADone, set_termios t next)
  end.

Fixpoint exec_all (os : list Op) (t : TtyIn) : option (list Answer * TtyIn) :=
  match os with
  | [] => Some ([], t)
  | o :: os => '(a, t) ← exec o t; '(l, t) ← exec_all os t; Some (a :: l, t)
  end.

Definition spec (o : Op) (d : Disc) : Answer * Disc :=
  match o with
  | Push raw => let '(i, e, d) := s_push raw d in (APushed i e, d)
  | Pop => let '(b, d) := s_pop d in (APopped b, d)
  | TakeEof => (AEof (d_eof d), with_eof false d)
  | Available => (ACount (zlen (d_queue d)), d)
  | Flush => (ADone, s_flush d)
  | SetTermios next => (ADone, s_set_termios next d)
  end.

Fixpoint spec_all (os : list Op) (d : Disc) : list Answer * Disc :=
  match os with
  | [] => ([], d)
  | o :: os => let '(a, d) := spec o d in let '(l, d) := spec_all os d in (a :: l, d)
  end.

(** A terminal has 32 control characters. *)
Definition op_ok (o : Op) : Prop := match o with SetTermios next => zlen (c_cc next) = 32 | _ => True end.

Lemma exec_ok o t : tty_ok t → op_ok o → ∃ a t', exec o t = Some (a, t') ∧ spec o (abs t) = (a, abs t') ∧ tty_ok t'.
Proof.
  intros H Ho. destruct o as [raw| | | | |next]; cbn [exec spec].
  - pose proof (push_raw_ok raw t H) as Hp. destruct (s_push raw (abs t)) as [[i e] d]. destruct Hp as (t'&->&H'&<-). by eexists _, t'.
  - pose proof (pop_ok t H) as Hp. destruct (s_pop (abs t)) as [b d]. destruct Hp as (t'&->&H'&<-). by eexists _, t'.
  - eexists _, _. split; [done|]. split; [done|]. by destruct H.
  - eexists _, t. split; [done|]. by rewrite queue_length.
  - eexists _, _. split; [done|]. destruct H as [H1 H2 H3 H4 H5 H6]. split; [|by split]. unfold s_flush, abs. cbn. f_equal. f_equal. f_equal.
    unfold available. cbn. replace (head t + RING - head t) with RING by lia. done.
  - eexists _, _. split; [done|]. destruct H as [H1 H2 H3 H4 H5 H6]. split; [|split; cbn; try done; by case_if].
    unfold s_set_termios, set_termios, abs, canonical. cbn. by destruct (has (c_lflag (termios t)) ICANON && negb (has (c_lflag next) ICANON)).
Qed.

(** C6: A terminal's input, kept in a ring of 256 bytes and an array of 128, is a queue of bytes that can be read and a line being typed.
    Over any calls on a new terminal, with any settings and any bytes typed, nothing panics and every answer is the queue's and the line's:
    which bytes are read and in what order, what is echoed, which byte interrupts, when the end of input is reported. A full queue keeps
    what it has, a full line ignores what is typed. *)
Theorem discipline_refines_queue os : Forall op_ok os → ∃ l t, exec_all os tty_new = Some (l, t) ∧
  spec_all os {| d_termios := cooked; d_queue := []; d_line := []; d_eof := false |} = (l, abs t).
Proof.
  intros Ho. destruct tty_new_ok as [H0 <-]. generalize dependent tty_new. induction Ho as [|o os Ho _ IH]; intros t Ht; cbn [exec_all spec_all]; [by eexists _, t|].
  destruct (exec_ok o t Ht Ho) as (a&t1&->&->&H1). cbn [mbind option_bind]. destruct (IH t1 H1) as (l&t2&->&->). by eexists _, t2.
Qed.

Lemma discipline_refines_queue_witness : ∃ l t, exec_all (Push 97 :: Push 98 :: Push 127 :: Push 13 :: replicate 3 Pop) tty_new = Some (l, t) ∧
  drop 4 l = [APopped (Some 97); APopped (Some 10); APopped None].
Proof.
  destruct (discipline_refines_queue (Push 97 :: Push 98 :: Push 127 :: Push 13 :: replicate 3 Pop)) as (l&t&E&Hs).
  - repeat constructor.
  - exists l, t. split; [exact E|]. vm_compute in Hs. injection Hs as <- _ _ _ _. reflexivity.
Defined.

(** The end of input typed before a line is reported after it: the reads
    that come next give the line. *)
Lemma eof_reported_late : (λ r, r.1) <$> exec_all [Push 4; Push 97; Push 10; Available; Pop; Pop; Pop; TakeEof] tty_new =
  Some [APushed false []; APushed false [97]; APushed false [10]; ACount 2; APopped (Some 97); APopped (Some 10); APopped None; AEof true].
Proof. vm_compute. reflexivity. Qed.

(** ** The control file *)

(** What fits a [Termios] of the source. *)
Record termios_ok (t : Termios) : Prop := {
  ok_flags : Forall (λ v, 0 <= v < 2 ^ 32) [c_iflag t; c_oflag t; c_cflag t; c_lflag t; c_ispeed t; c_ospeed t];
  ok_cc : zlen (c_cc t) = 32;
  ok_bytes : Forall (λ b, 0 <= b < 256) (c_cc t) }.

(** The lines of the file. *)
Definition ctl_lines (t : Termios) (rows cols : Z) : list (list text) :=
  [[str "iflag"; str "0x" ++ hex (c_iflag t)]; [str "oflag"; str "0x" ++ hex (c_oflag t)]; [str "cflag"; str "0x" ++ hex (c_cflag t)];
   [str "lflag"; str "0x" ++ hex (c_lflag t)]; str "cc" :: (hex2 <$> c_cc t); [str "speed"; dec (c_ispeed t); dec (c_ospeed t)];
   [str "winsize"; dec rows; dec cols]].

Lemma ctl_text_lines t rows cols : ctl_text t rows cols = concat ((λ l, spaced l ++ [10]) <$> ctl_lines t rows cols).
Proof.
  unfold ctl_text, ctl_lines. cbn [fmap list_fmap concat spaced]. rewrite <- !app_assoc. cbn [app]. rewrite <- list_fmap_compose.
  repeat (rewrite <- ?app_assoc; cbn [app]). reflexivity.
Qed.

Lemma key_word w : forallb (λ c, (97 <=? c) && (c <=? 122) || (48 <=? c) && (c <=? 57)) w && nonempty w = true → word w.
Proof.
  intros [Hw Hne]%andb_true_iff. split; [by destruct w|]. apply Forall_forall. intros c Hc. rewrite forallb_forall in Hw.
  specialize (Hw c (proj1 (list_elem_of_In _ _) Hc)). unfold plain. lia.
Qed.

Lemma hex_number_word v : 0 <= v → word (str "0x" ++ hex v).
Proof.
  intros Hv. destruct (key_word (str "0x") eq_refl) as [_ H0], (hex_word v Hv) as [_ H]. split; [done|]. by apply Forall_app.
Qed.

Lemma ctl_lines_words t rows cols : termios_ok t → 0 <= rows → 0 <= cols → Forall (λ l, ∃ k ws, l = k :: ws ∧ line_word k ∧ Forall line_word ws) (ctl_lines t rows cols).
Proof.
  intros [Hf _ Hb] Hr Hc. repeat (apply Forall_cons in Hf as [? Hf]).
  assert (Hcc : Forall line_word (hex2 <$> c_cc t)) by (apply Forall_fmap; eapply Forall_impl; [exact Hb|]; intros b Hb'; by apply word_line, hex2_word).
  unfold ctl_lines. repeat (apply Forall_cons; split); try apply Forall_nil; try done;
    (eexists _, _; split; [reflexivity|]; split; [by apply word_line, key_word|]); try done;
    repeat (apply Forall_cons; split); try apply Forall_nil; try done; apply word_line; (apply hex_number_word || apply dec_word); lia.
Qed.

(** The lines are read one after the other. *)
Fixpoint read_lines (ls : list (list text)) (p : Parsed) : option Parsed :=
  match ls with
  | [] => Some p
  | (k :: ws) :: ls => p ← parse_words k ws p; read_lines ls p
  | [] :: ls => read_lines ls p
  end.

Lemma parse_read_lines ls p : Forall (λ l, ∃ k ws, l = k :: ws ∧ line_word k ∧ Forall line_word ws) ls →
  parse_lines (lines (concat ((λ l, spaced l ++ [10]) <$> ls))) p = read_lines ls p.
Proof.
  intros Hls. revert p. induction Hls as [|l ls (k&ws&->&Hk&Hws) _ IH]; intros p; [done|].
  cbn [fmap list_fmap concat read_lines]. rewrite <- app_assoc. cbn [app]. rewrite parse_line by done.
  destruct (parse_words k ws p); [|done]. apply IH.
Qed.

Lemma text_lines_scalar ls : Forall (λ l, ∃ k ws, l = k :: ws ∧ line_word k ∧ Forall line_word ws) ls →
  Forall (λ c, scalar c = true) (concat ((λ l, spaced l ++ [10]) <$> ls)).
Proof.
  induction 1 as [|l ls (k&ws&->&Hk&Hws) _ IH]; cbn [fmap list_fmap concat]; [constructor|]. apply Forall_app. split; [|done]. apply Forall_app.
  split; [|by repeat constructor]. eapply Forall_impl; [apply spaced_chars; by constructor|]. by intros c [[? _]| ->].
Qed.

(** A file of such lines is read line by line. *)
Lemma ctl_parse_lines current ls : Forall (λ l, ∃ k ws, l = k :: ws ∧ line_word k ∧ Forall line_word ws) ls →
  ctl_parse current (as_bytes (concat ((λ l, spaced l ++ [10]) <$> ls))) =
  (p ← read_lines ls {| p_termios := current; p_changed := false; p_actions := [] |};
   Some (if p_changed p then ATermios (p_termios p) :: p_actions p else p_actions p)).
Proof.
  intros Hls. unfold ctl_parse. rewrite utf8_roundtrip by (by apply text_lines_scalar). cbn [mbind option_bind]. by rewrite parse_read_lines.
Qed.

Lemma flag_line k v p : is_flag k = true → 0 <= v < 2 ^ 32 →
  parse_words k [str "0x" ++ hex v] p = Some (settings (with_flag k v (p_termios p)) p).
Proof. intros Hk Hv. unfold parse_words. rewrite Hk. cbn [next_number]. by rewrite number_hex. Qed.

Lemma cc_line cc p : length (c_cc (p_termios p)) = length cc → 0 < zlen cc → Forall (λ b, 0 <= b < 256) cc →
  parse_words (str "cc") (hex2 <$> cc) p = Some (settings (with_cc cc (p_termios p)) p).
Proof.
  intros Hl Hp Hb. unfold parse_words. change (is_flag (str "cc")) with false. rewrite bool_decide_eq_true_2 by done. cbn iota.
  pose proof (parse_cc_bytes cc [] (c_cc (p_termios p)) Hb Hl) as E. cbn [app length] in E. change (Z.of_nat 0) with 0 in E. rewrite E. cbn [mbind option_bind].
  by rewrite (proj2 (Z.eqb_neq _ _)) by lia.
Qed.

Lemma speed_line i o p : 0 <= i < 2 ^ 32 → 0 <= o < 2 ^ 32 → parse_words (str "speed") [dec i; dec o] p = Some (settings (with_speed i o (p_termios p)) p).
Proof.
  intros Hi Ho. unfold parse_words. change (is_flag (str "speed")) with false. rewrite bool_decide_eq_false_2, bool_decide_eq_true_2 by done. cbn [next_number].
  rewrite number_dec by done. cbn [mbind option_bind next_number]. by rewrite number_dec by done.
Qed.

Lemma winsize_line rows cols p : 0 <= rows < 2 ^ 16 → 0 <= cols < 2 ^ 16 →
  parse_words (str "winsize") [dec rows; dec cols] p = Some (action (AWinsize rows cols) p).
Proof.
  intros Hr Hc. unfold parse_words. change (is_flag (str "winsize")) with false.
  rewrite bool_decide_eq_false_2, bool_decide_eq_false_2, bool_decide_eq_true_2 by done. cbn [next_number].
  rewrite number_dec by lia. cbn [mbind option_bind]. rewrite fits_in by lia. cbn [mbind option_bind next_number]. rewrite number_dec by lia. cbn [mbind option_bind].
  by rewrite fits_in by lia.
Qed.

Lemma keymap_line path p : parse_words (str "keymap") [path] p = Some (action (AKeymap path) p).
Proof. unfold parse_words. change (is_flag (str "keymap")) with false. by rewrite !bool_decide_eq_false_2, bool_decide_eq_true_2 by done. Qed.

Lemma screen_line n p : 0 <= n < CONSOLE_SCREENS → parse_words (str "screen") [dec n] p = Some (action (AScreen n) p).
Proof.
  intros Hn. unfold parse_words, CONSOLE_SCREENS in *. change (is_flag (str "screen")) with false. rewrite !bool_decide_eq_false_2, bool_decide_eq_true_2 by done.
  cbn [next_number]. rewrite number_dec by lia. cbn [mbind option_bind]. by rewrite (proj2 (Z.leb_gt _ _)) by lia.
Qed.

Lemma word_ascii w : word w → Forall (λ c, 0 <= c < 128) w.
Proof. intros [_ Hw]. eapply Forall_impl; [exact Hw|]. cbn. unfold plain. lia. Qed.

Lemma ascii_const s : forallb (λ c, (0 <=? c) && (c <? 128)) s = true → Forall (λ c, 0 <= c < 128) s.
Proof. intros H. apply Forall_forall. intros c Hc. rewrite forallb_forall in H. specialize (H c (proj1 (list_elem_of_In _ _) Hc)). lia. Qed.

Lemma ctl_text_ascii t rows cols : termios_ok t → 0 <= rows → 0 <= cols → Forall (λ c, 0 <= c < 128) (ctl_text t rows cols).
Proof.
  intros [Hf _ Hb] Hr Hc. repeat (apply Forall_cons in Hf as [? Hf]). unfold ctl_text.
  assert (Hcc : Forall (λ c, 0 <= c < 128) (concat ((λ b, 32 :: hex2 b) <$> c_cc t))).
  { apply Forall_concat, Forall_fmap. eapply Forall_impl; [exact Hb|]. intros b Hb'. constructor; [lia|]. by apply word_ascii, hex2_word. }
  repeat (apply Forall_app; split); try done; try (apply word_ascii; (apply hex_word || apply dec_word); lia);
    (apply ascii_const; reflexivity).
Qed.

(** The lines of the console's file. *)
Definition console_lines (t : Termios) (rows cols : Z) (keymap : option text) (screen : Z) : list (list text) :=
  ctl_lines t rows cols ++ [[str "keymap"; default (str "none") keymap]; [str "screen"; dec screen]].

Lemma console_text_lines t rows cols keymap screen : termios_ok t → 0 <= rows → 0 <= cols → 0 <= screen →
  console_ctl_text t rows cols keymap screen = as_bytes (concat ((λ l, spaced l ++ [10]) <$> console_lines t rows cols keymap screen)).
Proof.
  intros Ht Hr Hc Hs. unfold console_lines, console_ctl_text. rewrite fmap_app, concat_app, <- ctl_text_lines, as_bytes_app.
  rewrite ascii_bytes by (by apply ctl_text_ascii). f_equal.
  transitivity (as_bytes (str "keymap " ++ default (str "none") keymap ++ ([10] ++ str "screen ") ++ dec screen ++ [10])).
  - rewrite !as_bytes_app. rewrite (ascii_bytes (dec screen)) by (by apply word_ascii, dec_word). by destruct keymap.
  - f_equal. cbn [fmap list_fmap concat spaced]. rewrite !app_nil_r, <- !app_assoc. reflexivity.
Qed.

(** C35: What a terminal's control file says is read back as it was: for all settings a terminal can have and any window size, the text
    [tty::ctl_text] makes (a pair's whole file) parses to exactly those settings (the four flags, the 32 control characters, the two
    speeds) and that size, whatever the settings before; the text of the console's file parses to these and to its keyboard map and
    screen, a console without a map to a map named none. *)
Theorem ctl_roundtrip current t rows cols : zlen (c_cc current) = 32 → termios_ok t → 0 <= rows < 2 ^ 16 → 0 <= cols < 2 ^ 16 →
  ctl_parse current (ctl_text t rows cols) = Some [ATermios t; AWinsize rows cols] ∧
  ∀ keymap screen, (∀ path, keymap = Some path → line_word path) → 0 <= screen < CONSOLE_SCREENS →
    ctl_parse current (console_ctl_text t rows cols keymap screen) =
    Some [ATermios t; AWinsize rows cols; AKeymap (default (str "none") keymap); AScreen screen].
Proof.
  intros Hcur Ht Hr Hc. pose proof (ctl_lines_words t rows cols Ht ltac:(lia) ltac:(lia)) as Hw.
  assert (Hread : ∀ ls, read_lines (ctl_lines t rows cols ++ ls) {| p_termios := current; p_changed := false; p_actions := [] |} =
    read_lines ls {| p_termios := t; p_changed := true; p_actions := [AWinsize rows cols] |}).
  { intros ls. destruct Ht as [Hf Hlen Hb]. repeat (apply Forall_cons in Hf as [? Hf]). unfold ctl_lines. cbn [read_lines app].
    do 4 (rewrite flag_line by done; cbn [mbind option_bind]). rewrite cc_line by (done || cbn; lia). cbn [mbind option_bind].
    rewrite speed_line by done. cbn [mbind option_bind]. rewrite winsize_line by done. cbn [mbind option_bind]. by destruct t. }
  split.
  - rewrite <- (ascii_bytes (ctl_text t rows cols)) by (apply ctl_text_ascii; (done || lia)). rewrite ctl_text_lines, ctl_parse_lines by done.
    specialize (Hread []). rewrite app_nil_r in Hread. by rewrite Hread.
  - intros keymap screen Hk Hs. rewrite console_text_lines by (done || lia). rewrite ctl_parse_lines.
    + unfold console_lines. rewrite Hread. cbn [read_lines]. rewrite keymap_line. cbn [mbind option_bind]. by rewrite screen_line by done.
    + apply Forall_app. split; [done|]. assert (line_word (default (str "none") keymap)).
      { destruct keymap as [path|]; [by apply Hk|by apply word_line, key_word]. }
      constructor; [|constructor; [|constructor]].
      * exists (str "keymap"), [default (str "none") keymap]. split; [done|]. split; [by apply word_line, key_word|]. by constructor.
      * exists (str "screen"), [dec screen]. split; [done|]. split; [by apply word_line, key_word|]. constructor; [apply word_line, dec_word; lia|done].
Qed.

Lemma ctl_roundtrip_witness : termios_ok cooked ∧ ctl_parse cooked (ctl_text cooked 24 80) = Some [ATermios cooked; AWinsize 24 80] ∧
  ctl_parse cooked (console_ctl_text cooked 24 80 None 1) =
  Some [ATermios cooked; AWinsize 24 80; AKeymap (str "none"); AScreen 1].
Proof.
  assert (Hok : termios_ok cooked) by (split; [repeat constructor; done|done|repeat constructor; done]).
  split; [exact Hok|]. destruct (ctl_roundtrip cooked cooked 24 80) as [H1 H2]; [reflexivity|exact Hok|lia|lia|].
  split; [exact H1|]. apply (H2 None 1); [done|unfold CONSOLE_SCREENS; lia].
Defined.
