(* ===== verification/Pty.v ===== *)
(** * Pairs of terminals

    [kernel/src/pty.rs]: the pairs behind [/dev/pts] and the kernel's own
    terminals.  A pair has the input of [Tty.v] on the slave's side, a ring
    of output that the master reads, counts of the descriptors on each end,
    and the session it belongs to.  A pair is on the heap and the table has
    its address; an address is never used again here, so that a use of a
    freed pair shows.

    Tasks call at once.  A step is one critical section or one access of a
    pair, with the notification after it; [Call] is where a task is between
    two steps, [go] its next one.  Claiming a pair, and an action of a
    control file, are one step.  Opening a slave stores the descriptor, then
    counts it; closing one takes it out of the table, then counts it out; a
    copy of a descriptor is counted and stored with the table locked, which is
    one step.  What the tasks, the console and the policy answer is [Env], any
    at each step; when a task that waits is run again is up to the scheduler.  An outer [None] is a
    panic or an access of a freed pair. *)

From S2P Require Import Prelude.
From stdpp Require Import gmap list.
From S2P Require Import Text Tty.

Open Scope string_scope.
Open Scope list_scope.
Open Scope Z_scope.

Definition OUT_CAP : Z := 4096.
Definition TERMS : nat := 10.
Definition SERIAL : nat := 0.
Definition SIGHUP : Z := 1.
Definition SIGINT : Z := 2.

(** [usize::MAX]: no session. *)
Definition NO_SESSION : Z := U64_MAX.

(** Where a pair's output goes. *)
Inductive Sink : Set := SMaster | SScreen (n : nat) | SSerial.

#[global] Instance sink_eq_dec : EqDecision Sink.
Proof. solve_decision. Defined.

(** ** The ring of output *)

Record OutRing : Set := { o_buf : list Z; o_head : Z; o_len : Z }.

Definition out_new : OutRing := {| o_buf := replicate (Z.to_nat OUT_CAP) 0; o_head := 0; o_len := 0 |}.

Definition out_push (b : Z) (o : OutRing) : option (bool * OutRing) :=
  if OUT_CAP <=? o_len o then Some (false, o)
  else
    buf ← zset (o_buf o) ((o_head o + o_len o) mod OUT_CAP) b;
    Some (true, {| o_buf := buf; o_head := o_head o; o_len := o_len o + 1 |}).

(** The [n] bytes from place [i] on. *)
Fixpoint out_bytes (n : nat) (i : Z) (o : OutRing) : option (list Z) :=
  match n with
  | O => Some []
  | S n => b ← zget (o_buf o) ((o_head o + i) mod OUT_CAP); bs ← out_bytes n (i + 1) o; Some (b :: bs)
  end.

Definition out_take (cap : Z) (o : OutRing) : option (list Z * OutRing) :=
  let n := Z.min cap (o_len o) in
  bs ← out_bytes (Z.to_nat n) 0 o;
  Some (bs, {| o_buf := o_buf o; o_head := (o_head o + n) mod OUT_CAP; o_len := o_len o - n |}).

Definition out_flush (o : OutRing) : OutRing := {| o_buf := o_buf o; o_head := 0; o_len := 0 |}.

(** ** Pairs *)

Record Pty : Set := {
  p_sink : Sink; p_term : TtyIn; p_out : OutRing; p_winsize : Z * Z; p_master_refs : Z; p_slave_refs : Z;
  p_session : Z; p_opener : Z; p_hangups : Z; p_changes : Z }.

Definition pty_with (sink : Sink) (opener : Z) : Pty :=
  {| p_sink := sink; p_term := tty_new; p_out := out_new; p_winsize := if bool_decide (sink = SMaster) then (24, 80) else (0, 0);
     p_master_refs := 1; p_slave_refs := 0; p_session := NO_SESSION; p_opener := opener; p_hangups := 0; p_changes := 0 |}.

Definition new_pty (sink : Sink) : Pty := pty_with sink U32_MAX.

Definition set_term (t : TtyIn) (p : Pty) : Pty :=
  {| p_sink := p_sink p; p_term := t; p_out := p_out p; p_winsize := p_winsize p; p_master_refs := p_master_refs p; p_slave_refs := p_slave_refs p;
     p_session := p_session p; p_opener := p_opener p; p_hangups := p_hangups p; p_changes := p_changes p |}.

Definition set_out (o : OutRing) (p : Pty) : Pty :=
  {| p_sink := p_sink p; p_term := p_term p; p_out := o; p_winsize := p_winsize p; p_master_refs := p_master_refs p; p_slave_refs := p_slave_refs p;
     p_session := p_session p; p_opener := p_opener p; p_hangups := p_hangups p; p_changes := p_changes p |}.

Definition set_winsize (w : Z * Z) (p : Pty) : Pty :=
  {| p_sink := p_sink p; p_term := p_term p; p_out := p_out p; p_winsize := w; p_master_refs := p_master_refs p; p_slave_refs := p_slave_refs p;
     p_session := p_session p; p_opener := p_opener p; p_hangups := p_hangups p; p_changes := p_changes p |}.

Definition set_refs (m sl : Z) (p : Pty) : Pty :=
  {| p_sink := p_sink p; p_term := p_term p; p_out := p_out p; p_winsize := p_winsize p; p_master_refs := m; p_slave_refs := sl;
     p_session := p_session p; p_opener := p_opener p; p_hangups := p_hangups p; p_changes := p_changes p |}.

Definition set_session (sid : Z) (p : Pty) : Pty :=
  {| p_sink := p_sink p; p_term := p_term p; p_out := p_out p; p_winsize := p_winsize p; p_master_refs := p_master_refs p; p_slave_refs := p_slave_refs p;
     p_session := sid; p_opener := p_opener p; p_hangups := p_hangups p; p_changes := p_changes p |}.

Definition set_counts (hangups changes : Z) (p : Pty) : Pty :=
  {| p_sink := p_sink p; p_term := p_term p; p_out := p_out p; p_winsize := p_winsize p; p_master_refs := p_master_refs p; p_slave_refs := p_slave_refs p;
     p_session := p_session p; p_opener := p_opener p; p_hangups := hangups; p_changes := changes |}.

(** A slave descriptor opened at [h] is dead. *)
Definition dead (h : Z) (p : Pty) : bool := negb (p_hangups p =? h).

(** What happens outside the pairs: bytes go to a screen or the serial port,
    a group of processes gets a signal, the tasks that wait for a pair are
    woken.  What goes through the rings is recorded too: bytes put, by a
    slave's write of a task or as echo, taken by a master, thrown away. *)
Inductive Event : Set :=
  | Shown (screen : nat) (bs : list Z) | Sent (bs : list Z) | Killed (pgid sig : Z) | Woken (id : nat)
  | Put (a : nat) (by_task : option nat) (bs : list Z) | Took (a : nat) (bs : list Z) | Dropped (a : nat) (bs : list Z).

(** [Sink::emit] *)
Definition emit (s : Sink) (bs : list Z) : list Event :=
  match s with SMaster => [] | SScreen n => [Shown n bs] | SSerial => [Sent bs] end.

(** [heap] has the pairs by address, [ptys] the table of addresses by id. *)
Record Sys := { heap : gmap nat Pty; next : nat; ptys : list (option nat); serial_taken : bool; log : list Event }.

Definition set_heap (h : gmap nat Pty) (s : Sys) : Sys :=
  {| heap := h; next := next s; ptys := ptys s; serial_taken := serial_taken s; log := log s |}.

Definition set_pty (a : nat) (p : Pty) (s : Sys) : Sys := set_heap (<[a := p]> (heap s)) s.

Definition add_log (es : list Event) (s : Sys) : Sys :=
  {| heap := heap s; next := next s; ptys := ptys s; serial_taken := serial_taken s; log := log s ++ es |}.

Definition pty_at (id : nat) (s : Sys) : option nat := x ← ptys s !! id; x.

Definition slave_exists (id : nat) (s : Sys) : bool := bool_decide (is_Some (pty_at id s)).

(** The pair [id] is. *)
Definition pair_at (id : nat) (s : Sys) : option Pty := a ← pty_at id s; heap s !! a.

Definition init_terms : Sys :=
  {| heap := list_to_map ((λ id, (id, new_pty (if bool_decide (id = SERIAL) then SSerial else SScreen id))) <$> seq 0 TERMS);
     next := TERMS; ptys := Some <$> seq 0 TERMS; serial_taken := false; log := [] |}.

Definition notify (id : nat) (s : Sys) : Sys :=
  let s := match pty_at id s with
           | Some a => set_heap (alter (λ p, set_counts (p_hangups p) ((p_changes p + 1) mod 2 ^ 64) p) a (heap s)) s
           | None => s
           end in
  add_log [Woken id] s.

Definition changes (id : nat) (s : Sys) : Z := from_option p_changes 0 (pair_at id s).

Definition hangups (id : nat) (s : Sys) : Z := from_option p_hangups 0 (pair_at id s).

(** The first free id, or a new one. *)
Fixpoint place (a : nat) (l : list (option nat)) : nat * list (option nat) :=
  match l with
  | [] => (O, [Some a])
  | None :: l => (O, Some a :: l)
  | x :: l => let '(id, l) := place a l in (S id, x :: l)
  end.

(** [room]: the heap has room for the pair, and for the table to grow. *)
Definition alloc (room : bool) (uid : Z) (s : Sys) : option nat * Sys :=
  if room then
    let a := next s in
    let '(id, l) := place a (ptys s) in
    (Some id, {| heap := <[a := pty_with SMaster uid]> (heap s); next := S a; ptys := l; serial_taken := serial_taken s; log := log s |})
  else (None, s).

Definition free_if_dead (id : nat) (s : Sys) : Sys :=
  match pty_at id s with
  | Some a =>
      match heap s !! a with
      | Some p =>
          if (p_master_refs p =? 0) && (p_slave_refs p =? 0)
          then {| heap := delete a (heap s); next := next s; ptys := <[id := None]> (ptys s); serial_taken := serial_taken s; log := log s |}
          else s
      | None => s
      end
  | None => s
  end.

(** The counts of a pair, which wrap. *)
Definition master_ref (id : nat) (s : Sys) : Sys :=
  match pty_at id s with
  | Some a => set_heap (alter (λ p, set_refs ((p_master_refs p + 1) mod 2 ^ 64) (p_slave_refs p) p) a (heap s)) s
  | None => s
  end.

Definition slave_ref (id : nat) (s : Sys) : Sys :=
  match pty_at id s with
  | Some a =>
      {| heap := alter (λ p, set_refs (p_master_refs p) ((p_slave_refs p + 1) mod 2 ^ 64) p) a (heap s); next := next s; ptys := ptys s;
         serial_taken := serial_taken s || from_option (λ p, bool_decide (p_sink p = SSerial)) false (heap s !! a); log := log s |}
  | None => s
  end.

(** [fetch_sub], and whether it was the last. *)
Definition unref_master (a : nat) (s : Sys) : option (bool * Sys) :=
  p ← heap s !! a; Some (p_master_refs p =? 1, set_pty a (set_refs ((p_master_refs p - 1) mod 2 ^ 64) (p_slave_refs p) p) s).

Definition unref_slave (a : nat) (s : Sys) : option (bool * Sys) :=
  p ← heap s !! a; Some (p_slave_refs p =? 1, set_pty a (set_refs (p_master_refs p) ((p_slave_refs p - 1) mod 2 ^ 64) p) s).

(** ** Names *)

Definition dir (id : nat) : text :=
  if bool_decide (id = SERIAL) then str "/dev/ttyS0"
  else if bool_decide (id < TERMS)%nat then str "/dev/tty" ++ dec (Z.of_nat id)
  else str "/dev/pts/" ++ dec (Z.of_nat (id - TERMS)).

Definition pts_id (n : Z) (s : Sys) : option nat :=
  id ← fits 64 (n + Z.of_nat TERMS);
  if slave_exists (Z.to_nat id) s then Some (Z.to_nat id) else None.

Definition id_at (path : text) (s : Sys) : option nat :=
  rest ← strip_prefix (str "/dev/") path;
  let '(d, rest) := default (rest, []) (split_once (λ c, c =? 47) rest) in
  if bool_decide (d = str "pts") then
    n ← hd_error (split_on (λ c, c =? 47) rest);
    if negb (nonempty n) || negb (forallb (λ c, (48 <=? c) && (c <=? 57)) n) then None
    else v ← parse_uint U64_MAX n; pts_id v s
  else if bool_decide (d = str "ttyS0") then Some SERIAL
  else
    n ← strip_prefix (str "tty") d;
    if negb (str_len n =? 1) then None
    else v ← parse_uint U64_MAX n; if (1 <=? v) && (v <? Z.of_nat TERMS) then Some (Z.to_nat v) else None.

(** ** Sessions *)

(** What other parts of the kernel answer: [task::session_alive],
    [task::task_pgid], [task::getsid], [task::current_pid],
    [console::winsize], and whether the policy lets the caller write a path
    ([sec::allowed_in]). *)
Record Env := {
  session_alive : Z → bool; task_pgid : Z → option Z; getsid : Z → option Z; current_pid : Z; console_size : Z * Z; may_write : text → bool }.

Definition session_of (e : Env) (id : nat) (s : Sys) : option Z :=
  p ← pair_at id s;
  if negb (p_session p =? NO_SESSION) && session_alive e (p_session p) then Some (p_session p) else None.

Definition session_pgid (e : Env) (id : nat) (s : Sys) : option Z := sess ← session_of e id s; task_pgid e sess.

(** [if let Some(pgid) = session_pgid(id) { kill_pg(pgid, sig) }] *)
Definition signal_session (e : Env) (id : nat) (sig : Z) (s : Sys) : Sys :=
  match session_pgid e id s with Some pgid => add_log [Killed pgid sig] s | None => s end.

Definition hang_up (id : nat) (s : Sys) : Sys :=
  match pty_at id s with
  | Some a =>
      match heap s !! a with
      | Some p =>
          if bool_decide (p_sink p = SMaster) then s
          else notify id (set_pty a (set_counts ((p_hangups p + 1) mod 2 ^ 32) (p_changes p) p) s)
      | None => s
      end
  | None => s
  end.

Definition claim_session (e : Env) (id : nat) (s : Sys) : Sys :=
  match pty_at id s with
  | Some a =>
      match heap s !! a with
      | Some p =>
          let me := current_pid e in
          if negb (bool_decide (getsid e 0 = Some me)) then s
          else if negb (p_session p =? NO_SESSION) && session_alive e (p_session p) then s
          else hang_up id (set_pty a (set_session me p) s)
      | None => s
      end
  | None => s
  end.

(** The pairs of session [sid] are nobody's; the terminals among them. *)
Definition end_session (sid : Z) (s : Sys) : list nat * Sys :=
  let mine p := p_session p =? sid in
  (filter (λ id, from_option mine false (pair_at id s) = true) (seq 0 TERMS),
   set_heap ((λ p, if mine p then set_session NO_SESSION p else p) <$> heap s) s).

(** The first pair a test holds of. *)
Definition for_session (e : Env) (pid : Z) (s : Sys) : option nat :=
  sid ← getsid e pid;
  '(id, _) ← list_find (λ x, from_option (λ p, p_session p =? sid) false (a ← x; heap s !! a) = true) (ptys s);
  if session_alive e sid then Some id else None.

(** [tty::ctty_dir]; the console is the last resort of a process that has one. *)
Definition ctty_dir (e : Env) (has_ctty : bool) (s : Sys) : option text :=
  match for_session e (current_pid e) s with
  | Some id => Some (dir id)
  | None => if has_ctty then Some (str "/dev/console") else None
  end.

Definition winsize (e : Env) (p : Pty) : Z * Z :=
  match p_sink p, p_winsize p with
  | SScreen _, _ | SSerial, (0, 0) => console_size e
  | _, size => size
  end.

Definition ctl_file (e : Env) (id : nat) (s : Sys) : option text :=
  p ← pair_at id s; let '(rows, cols) := winsize e p in Some (ctl_text (termios (p_term p)) rows cols).

(** ** Bytes *)

(** A pair shows a newline as two bytes. *)
Definition crlf (p : Pty) : bool := has (c_oflag (termios (p_term p))) OPOST && has (c_oflag (termios (p_term p))) ONLCR.

(** The echo of some bytes, into the ring: what went in.  A full ring takes
    no more. *)
Fixpoint echo_ring (nl : bool) (bs : list Z) (o : OutRing) : option (list Z * OutRing) :=
  match bs with
  | [] => Some ([], o)
  | b :: bs =>
      '(l1, o) ← (if nl && (b =? 10) then '(ok, o) ← out_push 13 o; Some (if ok : bool then [13] else [], o) else Some ([], o));
      '(ok, o) ← out_push b o;
      '(l2, o) ← echo_ring nl bs o;
      Some (l1 ++ (if ok : bool then [b] else []) ++ l2, o)
  end.

(** The echo of some bytes on a screen or the serial port. *)
Definition echo_terminal (sink : Sink) (nl : bool) (bs : list Z) : list Event :=
  concat ((λ b, (if nl && (b =? 10) then emit sink [13] else []) ++ emit sink [b]) <$> bs).

(** The bytes of a master's write: whether one was an interrupt, what the
    ring took, what was shown. *)
Fixpoint type_all (sink : Sink) (nl : bool) (data : list Z) (t : TtyIn) (o : OutRing) : option (bool * list Z * list Event * TtyIn * OutRing) :=
  match data with
  | [] => Some (false, [], [], t, o)
  | raw :: data =>
      '(v, e, t) ← push_raw raw t;
      '(l, o) ← (if bool_decide (sink = SMaster) then echo_ring nl e o else Some ([], o));
      '(vs, ls, es, t, o) ← type_all sink nl data t o;
      Some (v || vs, l ++ ls, (if bool_decide (sink = SMaster) then [] else echo_terminal sink nl e) ++ es, t, o)
  end.

(** A byte of a slave's write: where the loop goes, and what the ring took. *)
Inductive Turn : Set := TNext | TAgain | TFull.

Definition push_turn (nl : bool) (b : Z) (o : OutRing) : option (Turn * list Z * OutRing) :=
  if nl && (b =? 10) then
    '(ok, o) ← out_push 13 o;
    if ok : bool then
      '(ok, o) ← out_push 10 o;
      if ok : bool then Some (TNext, [13; 10], o) else Some (TAgain, [13], o)
    else Some (TFull, [], o)
  else
    '(ok, o) ← out_push b o;
    if ok : bool then Some (TNext, [b], o) else Some (TFull, [], o).

Definition terminal_write (sink : Sink) (data : list Z) (nl : bool) : list Event :=
  if negb nl then emit sink data
  else match split_on (λ b, b =? 10) data with
       | [] => []
       | l :: ls => emit sink l ++ concat ((λ l, emit sink [13; 10] ++ emit sink l) <$> ls)
       end.

(** [term.pop()] until [n] bytes are read or none is left. *)
Fixpoint pops (n : nat) (t : TtyIn) : option (list Z * TtyIn) :=
  match n with
  | O => Some ([], t)
  | S n =>
      '(b, t) ← pop t;
      match b with
      | Some b => '(bs, t) ← pops n t; Some (b :: bs, t)
      | None => Some ([], t)
      end
  end.

Definition poll_state (id : nat) (master : bool) (h : Z) (s : Sys) : bool * bool * bool :=
  match pair_at id s with
  | None => (true, false, true)
  | Some p =>
      if master then (0 <? o_len (p_out p), true, p_slave_refs p =? 0)
      else ((0 <? available (p_term p)) || eof (p_term p), negb (bool_decide (p_sink p = SMaster)) || (o_len (p_out p) <? OUT_CAP),
            (p_master_refs p =? 0) || dead h p)
  end.

(** ** Calls *)

(** An open descriptor: a master, or a slave opened after [h] hang-ups. *)
Inductive Fd : Set := FMaster (id : nat) | FSlave (id : nat) (h : Z).

#[global] Instance fd_eq_dec : EqDecision Fd.
Proof. solve_decision. Defined.

Definition fd_id (f : Fd) : nat := match f with FMaster id | FSlave id _ => id end.

(** What a call returns; [RFail] is [usize::MAX], or [None] of [ctl_write]. *)
Inductive Ret : Set := RFail | RNum (n : Z) | RBytes (bs : list Z) | RBool (b : bool) | RUnit | RId (id : option nat).

(** Where a task is.  A read: before it looks whether the pair is alive, and
    before it takes bytes.  A slave's write of [data], of which [n] bytes are
    done, begun when the log had [since] events: at its checks, at the top of
    the loop, before it pushes, after the ring was full, at its end.  A
    master's read; a master's write, done; closing, and freeing; hang-ups to
    do; the rest of a control file's actions.  A pair made, its master not
    yet stored; a slave to be opened whose pair was there, and that is stored
    but not counted; a descriptor out of the table but still counted. *)
Inductive Call : Set :=
  | Idle
  | Done (r : Ret)
  | SReadTop (a id : nat) (h cap : Z)
  | SReadIn (a id : nat) (h cap : Z)
  | ReadOut (id : nat) (r : Ret)
  | SWriteStart (a id : nat) (h : Z) (data : list Z)
  | SWriteMode (a id : nat) (data : list Z)
  | SWriteTop (a id : nat) (nl : bool) (data : list Z) (since : nat) (n : nat)
  | SWritePush (a id : nat) (nl : bool) (data : list Z) (since : nat) (n : nat)
  | SWriteFull (a id : nat) (nl : bool) (data : list Z) (since : nat) (n : nat)
  | SWriteOut (a id : nat) (nl : bool) (data : list Z) (since : nat) (n : nat) (early tell : bool)
  | MReadTop (a id : nat) (cap : Z)
  | MReadRefs (a id : nat) (cap : Z)
  | MWriteIn (a id : nat) (data : list Z)
  | MWrote (id : nat) (vintr : bool) (n : Z)
  | MasterGone (id : nat)
  | Freeing (id : nat) (last : bool)
  | Hangs (ids : list nat)
  | CtlDo (a id : nat) (acts : list CtlAction) (n : Z)
  | MOpened (id : nat)
  | SOpening (id : nat)
  | SOpened (id : nat)
  | Closing (f : Fd).

(** The next byte of a slave's write, or its end. *)
Definition write_next (a id : nat) (nl : bool) (data : list Z) (since n : nat) : Call :=
  if (n <? length data)%nat then SWriteTop a id nl data since n else SWriteOut a id nl data since n false true.

(** A part of [slave_read]. *)
Definition slave_read_go (intr : bool) (c : Call) (s : Sys) : option (Sys * Call) :=
  match c with
  | SReadTop a id h cap =>
      p ← heap s !! a;
      Some (s, if (p_master_refs p =? 0) || dead h p then ReadOut id RFail
               else if intr then ReadOut id (RBytes []) else SReadIn a id h cap)
  | SReadIn a id h cap =>
      p ← heap s !! a;
      if (available (p_term p) =? 0) && eof (p_term p) then Some (set_pty a (set_term (set_eof (p_term p) false) p) s, ReadOut id (RBytes []))
      else
        '(bs, t) ← pops (Z.to_nat cap) (p_term p);
        Some (set_pty a (set_term t p) s, match bs with [] => SReadTop a id h cap | _ => ReadOut id (RBytes bs) end)
  | _ => None
  end.

(** A part of [slave_write], by task [t]. *)
Definition slave_write_go (t : nat) (intr : bool) (c : Call) (s : Sys) : option (Sys * Call) :=
  match c with
  | SWriteStart a id h data =>
      p ← heap s !! a;
      Some (s, if (p_master_refs p =? 0) || dead h p then Done RFail else SWriteMode a id data)
  | SWriteMode a id data =>
      p ← heap s !! a;
      if bool_decide (p_sink p = SMaster) then Some (s, write_next a id (crlf p) data (length (log s)) 0)
      else Some (notify id (add_log (terminal_write (p_sink p) data (crlf p)) s), Done (RNum (zlen data)))
  | SWriteTop a id nl data since n =>
      p ← heap s !! a;
      Some (s, if p_master_refs p =? 0 then SWriteOut a id nl data since n true true else SWritePush a id nl data since n)
  | SWritePush a id nl data since n =>
      p ← heap s !! a;
      b ← data !! n;
      '(turn, bs, o) ← push_turn nl b (p_out p);
      Some (add_log [Put a (Some t) bs] (set_pty a (set_out o p) s),
            match turn with
            | TNext => write_next a id nl data since (S n)
            | TAgain => SWriteTop a id nl data since n
            | TFull => SWriteFull a id nl data since n
            end)
  | SWriteFull a id nl data since n =>
      Some (notify id s, if intr then SWriteOut a id nl data since n true false else SWriteTop a id nl data since n)
  | SWriteOut a id nl data since n early tell =>
      Some (if tell then notify id s else s, Done (if early && (n =? 0)%nat then RFail else RNum (Z.of_nat n)))
  | _ => None
  end.

(** A part of [master_read]. *)
Definition master_read_go (intr : bool) (c : Call) (s : Sys) : option (Sys * Call) :=
  match c with
  | MReadTop a id cap =>
      p ← heap s !! a;
      '(bs, o) ← out_take cap (p_out p);
      Some (add_log [Took a bs] (set_pty a (set_out o p) s), match bs with [] => MReadRefs a id cap | _ => ReadOut id (RBytes bs) end)
  | MReadRefs a id cap =>
      p ← heap s !! a;
      Some (s, if p_slave_refs p =? 0 then ReadOut id RFail else if intr then ReadOut id (RBytes []) else MReadTop a id cap)
  | _ => None
  end.

(** A part of [master_write]. *)
Definition master_write_go (e : Env) (c : Call) (s : Sys) : option (Sys * Call) :=
  match c with
  | MWriteIn a id data =>
      p ← heap s !! a;
      '(v, bs, es, t, o) ← type_all (p_sink p) (crlf p) data (p_term p) (p_out p);
      Some (add_log (Put a None bs :: es) (set_pty a (set_out o (set_term t p)) s), MWrote id v (zlen data))
  | MWrote id vintr n => Some (notify id (if vintr then signal_session e id SIGINT s else s), Done (RNum n))
  | _ => None
  end.

(** An action of a control file.  The console's are refused before. *)
Definition ctl_do (e : Env) (a id : nat) (act : CtlAction) (s : Sys) : option Sys :=
  match act with
  | ATermios t => p ← heap s !! a; Some (set_pty a (set_term (set_termios (p_term p) t) p) s)
  | AWinsize rows cols =>
      p ← heap s !! a;
      Some (match p_sink p with SScreen _ => s | _ => set_pty a (set_winsize (rows, cols) p) s end)
  | ACtty => Some (claim_session e id s)
  | AKeymap _ | AScreen _ => Some s
  | AFlush input output =>
      p ← heap s !! a;
      let p := if input then set_term (flush_input (p_term p)) p else p in
      gone ← (if output then out_bytes (Z.to_nat (o_len (p_out p))) 0 (p_out p) else Some []);
      let p := if output then set_out (out_flush (p_out p)) p else p in
      Some (notify id (add_log [Dropped a gone] (set_pty a p s)))
  end.

(** The start of [drop_master] and [drop_slave]. *)
Definition close_fd (f : Fd) (s : Sys) : option (Sys * Call) :=
  match pty_at (fd_id f) s with
  | None => Some (s, Done (RBool false))
  | Some a =>
      match f with
      | FMaster id => '(last, s) ← unref_master a s; Some (s, if last : bool then MasterGone id else Done (RBool false))
      | FSlave id _ => '(last, s) ← unref_slave a s; Some (s, Freeing id last)
      end
  end.

(** A part of the end of [drop_master], [drop_slave], [session_ended] or
    [ctl_write]; the end of [fd_open_pty_slave]. *)
Definition other_go (e : Env) (c : Call) (s : Sys) : option (Sys * Call) :=
  match c with
  | ReadOut id r => Some (notify id s, Done r)
  | MasterGone id => Some (signal_session e id SIGHUP s, Freeing id true)
  | Freeing id last => Some (free_if_dead id (if last then notify id s else s), Done (RBool last))
  | Hangs [] => Some (s, Done RUnit)
  | Hangs (id :: ids) => Some (hang_up id s, Hangs ids)
  | CtlDo a id [] n => Some (s, Done (RNum n))
  | CtlDo a id (act :: acts) n => s ← ctl_do e a id act s; Some (s, CtlDo a id acts n)
  | SOpened id => Some (slave_ref id s, Done (RBool true))
  | Closing f => close_fd f s
  | _ => None
  end.

Definition go (e : Env) (t : nat) (intr : bool) (c : Call) (s : Sys) : option (Sys * Call) :=
  match c with
  | SReadTop _ _ _ _ | SReadIn _ _ _ _ => slave_read_go intr c s
  | SWriteStart _ _ _ _ | SWriteMode _ _ _ | SWriteTop _ _ _ _ _ _ | SWritePush _ _ _ _ _ _ | SWriteFull _ _ _ _ _ _
  | SWriteOut _ _ _ _ _ _ _ _ => slave_write_go t intr c s
  | MReadTop _ _ _ | MReadRefs _ _ _ => master_read_go intr c s
  | MWriteIn _ _ _ | MWrote _ _ _ => master_write_go e c s
  | _ => other_go e c s
  end.

(** ** The system *)

(** One of the descriptors that are [f] is closed. *)
Fixpoint close_one (f : Fd) (fds : list Fd) : list Fd :=
  match fds with
  | [] => []
  | g :: fds => if decide (g = f) then fds else g :: close_one f fds
  end.

Record World := { sys : Sys; fds : list Fd; calls : list Call }.

Definition boot (tasks : nat) : World := {| sys := init_terms; fds := []; calls := replicate tasks Idle |}.

(** What a task may call: open [clone]; open a slave; duplicate and close a
    descriptor; claim a pair; end a session; read and write a descriptor;
    type at a kernel terminal; write a control file. *)
Inductive Op : Set :=
  | OpenMaster (room : bool) (uid : Z) | OpenSlave (id : nat) | Dup (f : Fd) | Close (f : Fd) | Claim (id : nat) | EndSession (sid : Z)
  | ReadSlave (id : nat) (h cap : Z) | WriteSlave (id : nat) (h : Z) (data : list Z) | ReadMaster (id : nat) (cap : Z)
  | WriteMaster (id : nat) (data : list Z) | Input (id : nat) (data : list Z) | WriteCtl (id : nat) (text : list Z).

(** The call goes to the pair [id] is, or fails. *)
Definition with_pair (id : nat) (s : Sys) (k : nat → Call) : Call := match pty_at id s with Some a => k a | None => Done RFail end.

(** The start of [ctl_write]: nothing is done unless all is accepted. *)
Definition ctl_write (e : Env) (id : nat) (text : list Z) (s : Sys) : Call :=
  match pair_at id s with
  | None => Done RFail
  | Some p =>
      if negb (bool_decide (p_sink p = SMaster)) && negb (may_write e (dir id ++ str "/ctl")) then Done RFail
      else match ctl_parse (termios (p_term p)) text with
           | None => Done RFail
           | Some acts =>
               if existsb (λ x, match x with AKeymap _ | AScreen _ => true | _ => false end) acts then Done RFail
               else with_pair id s (λ a, CtlDo a id acts (zlen text))
           end
  end.

Definition start (e : Env) (o : Op) (s : Sys) (fs : list Fd) : option (Sys * list Fd * Call) :=
  match o with
  | OpenMaster room uid =>
      let '(r, s) := alloc room uid s in
      Some (s, fs, match r with Some id => MOpened id | None => Done (RId None) end)
  | OpenSlave id => Some (s, fs, if slave_exists id s then SOpening id else Done (RBool false))
  | Dup f =>
      if bool_decide (f ∈ fs) then Some (match f with FMaster id => master_ref id s | FSlave id _ => slave_ref id s end, f :: fs, Done RUnit) else None
  | Close f => if bool_decide (f ∈ fs) then Some (s, close_one f fs, Closing f) else None
  | Claim id => Some (claim_session e id s, fs, Done RUnit)
  | EndSession sid => let '(ids, s) := end_session sid s in Some (s, fs, Hangs ids)
  | ReadSlave id h cap =>
      if bool_decide (FSlave id h ∈ fs) then Some (s, fs, if cap <=? 0 then Done (RBytes []) else with_pair id s (λ a, SReadTop a id h cap)) else None
  | WriteSlave id h data => if bool_decide (FSlave id h ∈ fs) then Some (s, fs, with_pair id s (λ a, SWriteStart a id h data)) else None
  | ReadMaster id cap =>
      if bool_decide (FMaster id ∈ fs) then Some (s, fs, if cap <=? 0 then Done (RBytes []) else with_pair id s (λ a, MReadTop a id cap)) else None
  | WriteMaster id data => if bool_decide (FMaster id ∈ fs) then Some (s, fs, with_pair id s (λ a, MWriteIn a id data)) else None
  | Input id data => if bool_decide (id < TERMS)%nat then Some (s, fs, with_pair id s (λ a, MWriteIn a id data)) else None
  | WriteCtl id text => Some (s, fs, ctl_write e id text s)
  end.

(** The descriptor of a call that opens one is stored, in a table of its
    process that is [full] or not: a master without a place is dropped. *)
Definition store (full : bool) (c : Call) (s : Sys) (fs : list Fd) : option (list Fd * Call) :=
  match c with
  | MOpened id => Some (if full then (fs, Closing (FMaster id)) else (FMaster id :: fs, Done (RId (Some id))))
  | SOpening id => Some (if full then (fs, Done (RBool false)) else (FSlave id (hangups id s) :: fs, SOpened id))
  | _ => None
  end.

(** A task that does nothing calls; a task goes on, with a signal waiting for
    it or not; it stores the descriptor it opens; a call returns. *)
Inductive Label := Starts (t : nat) (e : Env) (o : Op) | Goes (t : nat) (e : Env) (intr : bool) | Stores (t : nat) (full : bool) | Returns (t : nat).

Definition set_call (t : nat) (c : Call) (s : Sys) (fs : list Fd) (w : World) : World := {| sys := s; fds := fs; calls := <[t := c]> (calls w) |}.

Definition exec (l : Label) (w : World) : option World :=
  match l with
  | Starts t e o =>
      c ← calls w !! t;
      match c with Idle => '(s, fs, c) ← start e o (sys w) (fds w); Some (set_call t c s fs w) | _ => None end
  | Goes t e intr => c ← calls w !! t; '(s, c) ← go e t intr c (sys w); Some (set_call t c s (fds w) w)
  | Stores t full => c ← calls w !! t; '(fs, c) ← store full c (sys w) (fds w); Some (set_call t c (sys w) fs w)
  | Returns t => c ← calls w !! t; match c with Done _ => Some (set_call t Idle (sys w) (fds w) w) | _ => None end
  end.

Fixpoint run (ls : list Label) (w : World) : option World :=
  match ls with
  | [] => Some w
  | l :: ls => w ← exec l w; run ls w
  end.
