(* ===== verification/PtyFacts.v ===== *)
(** * Pairs: rings and bytes

    The output ring of a pair as a queue, and that every function that puts
    or takes bytes keeps to it and never panics. *)

From S2P Require Import Prelude.
From stdpp Require Import gmap list.
From S2P Require Import Text Ring Tty TtyFacts Pty.

Open Scope Z_scope.

(** ** The ring *)

Definition content (o : OutRing) : list Z := ring OUT_CAP (o_buf o) (o_head o) (o_len o).

Record out_ok (o : OutRing) : Prop := {
  oo_buf : zlen (o_buf o) = OUT_CAP;
  oo_head : 0 <= o_head o < OUT_CAP;
  oo_len : 0 <= o_len o <= OUT_CAP }.

Lemma content_length o : out_ok o → zlen (content o) = o_len o.
Proof. intros H. apply ring_length. destruct H. lia. Qed.

Lemma out_push_ok b o : out_ok o → ∃ o', out_push b o = Some (o_len o <? OUT_CAP, o') ∧ out_ok o' ∧
  content o' = content o ++ (if o_len o <? OUT_CAP then [b] else []).
Proof.
  intros H. destruct H as [Hb Hh Hl] eqn:EH. unfold out_push. destruct (Z.leb_spec OUT_CAP (o_len o)) as [Hf|Hf].
  - rewrite (proj2 (Z.ltb_ge _ _)) by lia. exists o. by rewrite app_nil_r.
  - rewrite (proj2 (Z.ltb_lt _ _)) by lia.
    destruct (ring_push OUT_CAP ltac:(done) (o_buf o) (o_head o) (o_len o) b) as (buf'&->&Hl'&Hr); [done|lia|done|].
    cbn [mbind option_bind]. eexists. split; [done|]. split; [by split; cbn; [done..|lia]|exact Hr].
Qed.

Lemma out_bytes_ok n i o : out_ok o → out_bytes n i o = Some (ring OUT_CAP (o_buf o) ((o_head o + i) mod OUT_CAP) (Z.of_nat n)).
Proof.
  intros H. revert i. induction n as [|n IH]; intros i; [done|]. cbn [out_bytes].
  destruct (ring_cons OUT_CAP ltac:(done) (o_buf o) ((o_head o + i) mod OUT_CAP) (Z.of_nat (S n))) as (b&->&->); [lia|by apply Z.mod_pos_bound|apply H|].
  cbn [mbind option_bind]. rewrite IH. cbn [mbind option_bind]. f_equal. f_equal. rewrite Zplus_mod_idemp_l. f_equal; [f_equal; lia|lia].
Qed.

Lemma out_all o : out_ok o → out_bytes (Z.to_nat (o_len o)) 0 o = Some (content o).
Proof.
  intros H. rewrite out_bytes_ok by done. destruct H as [Hb Hh Hl]. rewrite Z2Nat.id, Z.add_0_r, Z.mod_small by lia. done.
Qed.

Lemma out_take_ok cap o : out_ok o → 0 <= cap → ∃ bs o', out_take cap o = Some (bs, o') ∧ out_ok o' ∧ content o = bs ++ content o' ∧
  zlen bs = Z.min cap (o_len o).
Proof.
  intros H Hc. unfold out_take. rewrite out_bytes_ok by done. cbn [mbind option_bind]. destruct H as [Hb Hh Hl].
  rewrite Z.add_0_r, (Z.mod_small (o_head o)) by lia. rewrite Z2Nat.id by lia. eexists _, _. split; [done|]. split_and!.
  - split; cbn; [done|by apply Z.mod_pos_bound|lia].
  - unfold content. cbn. rewrite <- ring_app by (done || lia). f_equal. lia.
  - apply ring_length. lia.
Qed.

Lemma out_flush_ok o : out_ok o → out_ok (out_flush o) ∧ content (out_flush o) = [].
Proof. intros [Hb Hh Hl]. split; [by split|done]. Qed.

(** ** Bytes *)

Lemma echo_ring_ok nl bs o : out_ok o → ∃ l o', echo_ring nl bs o = Some (l, o') ∧ out_ok o' ∧ content o' = content o ++ l.
Proof.
  revert o. induction bs as [|b bs IH]; intros o H; cbn [echo_ring]; [exists [], o; by rewrite app_nil_r|].
  assert (H1 : ∃ l1 o1, (if nl && (b =? 10) then '(ok, o) ← out_push 13 o; Some (if ok : bool then [13] else [], o) else Some ([], o)) = Some (l1, o1) ∧
    out_ok o1 ∧ content o1 = content o ++ l1).
  { destruct (nl && (b =? 10)); [|exists [], o; by rewrite app_nil_r]. destruct (out_push_ok 13 o H) as (o1&->&H1&E1). by eexists _, o1. }
  destruct H1 as (l1&o1&->&H1&E1). cbn [mbind option_bind]. destruct (out_push_ok b o1 H1) as (o2&->&H2&E2). cbn [mbind option_bind].
  destruct (IH o2 H2) as (l3&o3&->&H3&E3). cbn [mbind option_bind]. eexists _, o3. split; [done|]. split; [done|]. by rewrite E3, E2, E1, <- !app_assoc.
Qed.

Lemma push_raw_total raw t : tty_ok t → ∃ v e t', push_raw raw t = Some (v, e, t') ∧ tty_ok t'.
Proof. intros H. pose proof (push_raw_ok raw t H) as Hp. destruct (s_push raw (abs t)) as [[v e] d]. destruct Hp as (t'&->&H'&_). by eexists _, _, t'. Qed.

Lemma type_all_ok sink nl data t o : tty_ok t → out_ok o → ∃ v l es t' o', type_all sink nl data t o = Some (v, l, es, t', o') ∧
  tty_ok t' ∧ out_ok o' ∧ content o' = content o ++ l ∧ Forall (λ e, ∃ s bs, e ∈ emit s bs) es.
Proof.
  revert t o. induction data as [|raw data IH]; intros t o Ht Ho; cbn [type_all]; [eexists _, [], [], t, o; by rewrite app_nil_r|].
  destruct (push_raw_total raw t Ht) as (v&e&t1&->&Ht1). cbn [mbind option_bind].
  assert (H1 : ∃ l1 o1, (if bool_decide (sink = SMaster) then echo_ring nl e o else Some ([], o)) = Some (l1, o1) ∧ out_ok o1 ∧ content o1 = content o ++ l1).
  { destruct (bool_decide (sink = SMaster)); [by apply echo_ring_ok|exists [], o; by rewrite app_nil_r]. }
  destruct H1 as (l1&o1&->&Ho1&E1). cbn [mbind option_bind]. destruct (IH t1 o1 Ht1 Ho1) as (v2&l2&es&t2&o2&->&Ht2&Ho2&E2&Hes). cbn [mbind option_bind].
  eexists _, _, _, t2, o2. split; [done|]. split; [done|]. split; [done|]. split; [by rewrite E2, E1, app_assoc|]. apply Forall_app. split; [|done].
  destruct (bool_decide (sink = SMaster)); [constructor|]. unfold echo_terminal. apply Forall_forall. intros ev Hev.
  apply list_elem_of_In, in_concat in Hev as (x&Hx&Hev). apply in_map_iff in Hx as (b&<-&_). apply list_elem_of_In in Hev.
  apply elem_of_app in Hev as [Hev|Hev]; [|by eexists _, _]. destruct (nl && (b =? 10)); [by eexists _, _|by apply not_elem_of_nil in Hev].
Qed.

(** What a turn of a slave's write puts in the ring, and how far it gets. *)
Definition turn_ok (nl : bool) (b : Z) (r : Turn) (l : list Z) : Prop :=
  match r with
  | TNext => l = if nl && (b =? 10) then [13; 10] else [b]
  | TAgain => nl = true ∧ b = 10 ∧ l = [13]
  | TFull => l = []
  end.

Lemma push_turn_ok nl b o : out_ok o → ∃ r l o', push_turn nl b o = Some (r, l, o') ∧ out_ok o' ∧ content o' = content o ++ l ∧ turn_ok nl b r l.
Proof.
  intros H. unfold push_turn, turn_ok. destruct (nl && (b =? 10)) eqn:E.
  - destruct (out_push_ok 13 o H) as (o1&->&H1&E1). cbn [mbind option_bind]. destruct (o_len o <? OUT_CAP); [|by eexists _, _, o1].
    destruct (out_push_ok 10 o1 H1) as (o2&->&H2&E2). cbn [mbind option_bind]. apply andb_true_iff in E as [-> ->%Z.eqb_eq].
    destruct (o_len o1 <? OUT_CAP); (eexists _, _, o2; split; [done|]; split; [done|]; split; [by rewrite E2, E1, <- ?app_assoc, ?app_nil_r|done]).
  - destruct (out_push_ok b o H) as (o1&->&H1&E1). cbn [mbind option_bind]. by destruct (o_len o <? OUT_CAP); eexists _, _, o1.
Qed.

Lemma pops_ok n t : tty_ok t → ∃ bs t', pops n t = Some (bs, t') ∧ tty_ok t'.
Proof.
  revert t. induction n as [|n IH]; intros t H; cbn [pops]; [by eexists _, t|].
  pose proof (pop_ok t H) as Hp. destruct (s_pop (abs t)) as [b d]. destruct Hp as (t1&->&H1&_). cbn [mbind option_bind].
  destruct b as [b|]; [|by eexists _, t1]. destruct (IH t1 H1) as (bs&t2&->&H2). by eexists _, t2.
Qed.

Lemma set_eof_ok t b : tty_ok t → tty_ok (set_eof t b).
Proof. intros []. by split. Qed.

Lemma flush_input_ok t : tty_ok t → tty_ok (flush_input t).
Proof. intros []. by split. Qed.

Lemma set_termios_ok t x : tty_ok t → zlen (c_cc x) = 32 → tty_ok (set_termios t x).
Proof. intros [] Hx. split; cbn; try done. by case_if. Qed.
