(* ===== verification/PtyRun.v ===== *)
(** * Pairs: what goes through them

    Over every interleaving of calls, the output ring of every pair holds
    what was put in and not yet taken, in order; a slave's write has put what
    its call has come to. *)

From S2P Require Import Prelude.
From stdpp Require Import gmap list.
From S2P Require Import Text Ring Tty TtyFacts Pty PtyFacts.

Open Scope Z_scope.

(** ** Control files keep the control characters *)

Definition act_ok (x : CtlAction) : Prop := match x with ATermios t => zlen (c_cc t) = 32 | _ => True end.

Lemma parse_cc_length ws i cc j cc' : parse_cc ws i cc = Some (j, cc') → length cc' = length cc.
Proof.
  revert i cc. induction ws as [|w ws IH]; intros i cc; cbn [parse_cc]; [by intros [= _ <-]|]. case_if; [done|].
  destruct (u8_from_hex w); [|done]. cbn [mbind option_bind]. unfold zset. case_if; [|done]. cbn [mbind option_bind]. intros E%IH. by rewrite E, length_insert.
Qed.

Definition plain_act (x : CtlAction) : Prop := match x with ATermios _ => False | _ => True end.

Definition parsed_ok (p : Parsed) : Prop := zlen (c_cc (p_termios p)) = 32 ∧ Forall plain_act (p_actions p).

Lemma action_ok x p : parsed_ok p → plain_act x → parsed_ok (action x p).
Proof. intros [H1 H2] Hx. split; [done|]. cbn. apply Forall_app. split; [done|]. by constructor. Qed.

Lemma settings_ok t p : parsed_ok p → zlen (c_cc t) = 32 → parsed_ok (settings t p).
Proof. intros [H1 H2] Ht. by split. Qed.

(** The kinds of lines, one after the other. *)
Ltac line :=
  repeat match goal with
  | |- context [if bool_decide ?P then _ else _] => destruct (bool_decide P)
  | |- context [next_number ?ws] => destruct (next_number ws) as [[? ?]|]; cbn [mbind option_bind]; [|done]
  | |- context [fits 16 ?v] => destruct (fits 16 v); cbn [mbind option_bind]; [|done]
  end.

Lemma ctl_words_ok key ws p p' : parse_words key ws p = Some p' → parsed_ok p → parsed_ok p'.
Proof.
  intros H Hp. unfold parse_words in H. revert H.
  match goal with |- (x ← ?X; _) = _ → _ => enough (Hx : ∀ q rest, X = Some (q, rest) → parsed_ok q) end.
  { match goal with |- (x ← ?X; _) = _ → _ => destruct X as [[q rest]|]; [|done] end. cbn [mbind option_bind]. destruct rest; [|done]. intros [= <-]. by eapply Hx. }
  intros q rest. destruct (is_flag key); [line; intros [= <- _]; apply settings_ok; [done|apply Hp]|].
  destruct (bool_decide (key = str "cc")).
  { destruct (parse_cc ws 0 (c_cc (p_termios p))) as [[i cc]|] eqn:E; [|done]. cbn [mbind option_bind]. case_if; [done|]. intros [= <- _].
    apply settings_ok; [done|]. apply parse_cc_length in E. cbn. destruct Hp. lia. }
  destruct (bool_decide (key = str "speed")); [line; intros [= <- _]; apply settings_ok; [done|apply Hp]|].
  destruct (bool_decide (key = str "winsize")); [line; intros [= <- _]; by apply action_ok|].
  destruct (bool_decide (key = str "ctty")); [intros [= <- _]; by apply action_ok|].
  destruct (bool_decide (key = str "flush")).
  { destruct ws as [|w ws]; [intros [= <- _]; by apply action_ok|]. line; try done; intros [= <- _]; by apply action_ok. }
  destruct (bool_decide (key = str "keymap")); [destruct ws; [done|]; intros [= <- _]; by apply action_ok|].
  destruct (bool_decide (key = str "screen")); [|done]. line. case_if; [done|]. intros [= <- _]. by apply action_ok.
Qed.

Lemma ctl_lines_ok ls p p' : parse_lines ls p = Some p' → parsed_ok p → parsed_ok p'.
Proof.
  revert p. induction ls as [|l ls IH]; intros p; cbn [parse_lines]; [by intros [= <-]|]. destruct (words_on is_ascii_whitespace l) as [|k ws]; [apply IH|].
  destruct (parse_words k ws p) as [q|] eqn:E; [|done]. cbn [mbind option_bind]. intros H Hp. eapply IH; [exact H|]. by eapply ctl_words_ok.
Qed.

Lemma ctl_parse_ok cur text acts : ctl_parse cur text = Some acts → zlen (c_cc cur) = 32 → Forall act_ok acts.
Proof.
  unfold ctl_parse. destruct (from_utf8 text) as [s|]; [|done]. cbn [mbind option_bind]. destruct (parse_lines _ _) as [p|] eqn:E; [|done].
  cbn [mbind option_bind]. intros [= <-] Hc. destruct (ctl_lines_ok _ _ _ E) as [H1 H2]; [by split; [|constructor]|].
  assert (Forall act_ok (p_actions p)) by (eapply Forall_impl; [exact H2|]; by intros []). destruct (p_changed p); [by constructor|done].
Qed.

(** ** What the log says of a pair *)

Definition put_one (a : nat) (e : Event) : list Z := match e with Put b _ bs => if decide (b = a) then bs else [] | _ => [] end.
Definition got_one (a : nat) (e : Event) : list Z := match e with Took b bs | Dropped b bs => if decide (b = a) then bs else [] | _ => [] end.
Definition sent_one (t a : nat) (e : Event) : list Z := match e with Put b (Some u) bs => if decide (b = a ∧ u = t) then bs else [] | _ => [] end.

(** What was put into the ring of the pair at [a]; what was taken from it or
    thrown away; what task [t] put into it by writing a slave. *)
Definition put_of (a : nat) (es : list Event) : list Z := es ≫= put_one a.
Definition got_of (a : nat) (es : list Event) : list Z := es ≫= got_one a.
Definition sent_by (t a : nat) (es : list Event) : list Z := es ≫= sent_one t a.

(** Events that move no byte through a ring. *)
Definition quiet (e : Event) : Prop := match e with Put _ _ _ | Took _ _ | Dropped _ _ => False | _ => True end.

Lemma quiet_none es : Forall quiet es → ∀ a t, put_of a es = [] ∧ got_of a es = [] ∧ sent_by t a es = [].
Proof.
  intros Hes a t. induction Hes as [|e es He _ (IH1&IH2&IH3)]; [done|]. cbn. unfold put_of, got_of, sent_by in *. cbn. rewrite IH1, IH2, IH3. by destruct e.
Qed.

Lemma emit_quiet s bs e : e ∈ emit s bs → quiet e.
Proof. destruct s; cbn; [by intros ?%not_elem_of_nil|by intros ->%list_elem_of_singleton..]. Qed.

(** ** The invariant of the pairs *)

Definition pair_ok (p : Pty) : Prop := tty_ok (p_term p) ∧ out_ok (p_out p).

Record good (s : Sys) : Prop := {
  g_pair : ∀ a p, heap s !! a = Some p → pair_ok p ∧ put_of a (log s) = got_of a (log s) ++ content (p_out p);
  g_next : ∀ a, (next s <= a)%nat → heap s !! a = None ∧ put_of a (log s) = [] ∧ got_of a (log s) = [] }.

(** A step by task [t]: the invariant stays, and what is logged puts nothing
    in another task's name. *)
Definition keeps (t : nat) (s s' : Sys) : Prop :=
  (good s → good s') ∧ ∃ es, log s' = log s ++ es ∧ ∀ u a, u ≠ t → sent_by u a es = [].

Lemma keeps_refl t s : keeps t s s.
Proof. split; [done|]. exists []. by rewrite app_nil_r. Qed.

Lemma keeps_trans t s1 s2 s3 : keeps t s1 s2 → keeps t s2 s3 → keeps t s1 s3.
Proof.
  intros [H1 (e1&L1&U1)] [H2 (e2&L2&U2)]. split; [by intros ?%H1%H2|]. exists (e1 ++ e2). split; [by rewrite L2, L1, app_assoc|].
  intros u a Hu. unfold sent_by in *. rewrite bind_app, U1, U2 by done. done.
Qed.

(** The pair at [a] changes, as the events say. *)
Lemma keeps_pair t s a p p' es : heap s !! a = Some p → (pair_ok p → pair_ok p') →
  (content (p_out p) ++ put_of a es = got_of a es ++ content (p_out p')) →
  (∀ b, b ≠ a → put_of b es = [] ∧ got_of b es = []) → (∀ u b, u ≠ t → sent_by u b es = []) → keeps t s (add_log es (set_pty a p' s)).
Proof.
  intros Hp Hok Hflow Hother Hsent. split; [|by exists es]. intros [G1 G2]. unfold put_of, got_of in *. split; cbn.
  - intros b q Hq. destruct (decide (b = a)) as [->|Hne].
    + rewrite lookup_insert_eq in Hq. injection Hq as <-. destruct (G1 a p Hp) as [G E]. split; [by apply Hok|]. unfold put_of, got_of in *.
      by rewrite !bind_app, E, <- !app_assoc, Hflow.
    + rewrite lookup_insert_ne in Hq by congruence. destruct (G1 b q Hq) as [G E]. split; [done|]. destruct (Hother b Hne) as [Eb1 Eb2]. unfold put_of, got_of in *.
      by rewrite !bind_app, Eb1, Eb2, E, !app_nil_r.
  - intros b Hb. destruct (G2 b Hb) as (E1&E2&E3). assert (Hne : b ≠ a) by (intros ->; congruence). destruct (Hother b Hne) as [Eb1 Eb2].
    unfold put_of, got_of in *. rewrite lookup_insert_ne by congruence. rewrite !bind_app, Eb1, Eb2, E2, E3. done.
Qed.

(** Pairs change in what is not bytes. *)
Definition same_bytes (p q : Pty) : Prop := p_term q = p_term p ∧ p_out q = p_out p.

Lemma keeps_heap t s (h : gmap nat Pty) es : (∀ a q, h !! a = Some q → ∃ p, heap s !! a = Some p ∧ same_bytes p q) → Forall quiet es →
  ∀ l x, keeps t s {| heap := h; next := next s; ptys := l; serial_taken := x; log := log s ++ es |}.
Proof.
  intros Hh Hq l x. split; [|exists es; split; [done|]; intros u a _; by apply quiet_none]. intros [G1 G2]. split; cbn.
  - intros a q Hq'. destruct (Hh a q Hq') as (p&Hp&E1&E2). destruct (G1 a p Hp) as [[H1 H2] E]. destruct (quiet_none es Hq a 0%nat) as (Q1&Q2&_).
    unfold pair_ok, put_of, got_of in *. by rewrite E1, E2, !bind_app, Q1, Q2, !app_nil_r.
  - intros a Ha. destruct (G2 a Ha) as (E1&E2&E3). destruct (quiet_none es Hq a 0%nat) as (Q1&Q2&_). unfold put_of, got_of in *.
    rewrite !bind_app, Q1, Q2, E2, E3. split; [|done]. destruct (h !! a) as [q|] eqn:E; [|done]. destruct (Hh a q E) as (p&Hp&_). congruence.
Qed.

Lemma keeps_log t s es : Forall quiet es → keeps t s (add_log es s).
Proof. intros Hq. apply keeps_heap; [|done]. intros a q Hq'. exists q. by split. Qed.

Lemma keeps_alter t s (f : Pty → Pty) a l x : (∀ p, same_bytes p (f p)) →
  keeps t s {| heap := alter f a (heap s); next := next s; ptys := l; serial_taken := x; log := log s |}.
Proof.
  intros Hf. rewrite <- (app_nil_r (log s)). apply keeps_heap; [|constructor]. intros b q. destruct (decide (b = a)) as [->|Hne].
  - rewrite lookup_alter_eq. intros (p&Hp&->)%fmap_Some_1. by exists p.
  - rewrite lookup_alter_ne by done. intros Hq. by exists q.
Qed.

Lemma keeps_set t s a p p' : heap s !! a = Some p → same_bytes p p' → keeps t s (set_pty a p' s).
Proof.
  intros Hp Hs. unfold set_pty, set_heap. rewrite <- (app_nil_r (log s)). apply keeps_heap; [|constructor]. intros b q. destruct (decide (b = a)) as [->|Hne].
  - rewrite lookup_insert_eq. intros [= <-]. by exists p.
  - rewrite lookup_insert_ne by done. intros Hq. by exists q.
Qed.

(** ** The operations keep it *)

Lemma keeps_notify t id s : keeps t s (notify id s).
Proof.
  unfold notify. destruct (pty_at id s) as [a|]; [|apply keeps_log; by constructor].
  eapply keeps_trans; [|apply keeps_log; by constructor]. by apply keeps_alter.
Qed.

Lemma keeps_signal t e id sig s : keeps t s (signal_session e id sig s).
Proof. unfold signal_session. destruct (session_pgid e id s); [apply keeps_log; by constructor|apply keeps_refl]. Qed.

Lemma keeps_hang_up t id s : keeps t s (hang_up id s).
Proof.
  unfold hang_up. destruct (pty_at id s) as [a|]; [|apply keeps_refl]. destruct (heap s !! a) as [p|] eqn:E; [|apply keeps_refl]. case_if; [apply keeps_refl|].
  eapply keeps_trans; [|apply keeps_notify]. by eapply keeps_set.
Qed.

Lemma keeps_claim t e id s : keeps t s (claim_session e id s).
Proof.
  unfold claim_session. destruct (pty_at id s) as [a|]; [|apply keeps_refl]. destruct (heap s !! a) as [p|] eqn:E; [|apply keeps_refl].
  do 2 (case_if; [apply keeps_refl|]). eapply keeps_trans; [|apply keeps_hang_up]. by eapply keeps_set.
Qed.

Lemma keeps_end_session t sid s : keeps t s (end_session sid s).2.
Proof.
  cbn. unfold set_heap. rewrite <- (app_nil_r (log s)). apply keeps_heap; [|constructor]. intros a q. rewrite lookup_fmap. intros (p&Hp&->)%fmap_Some_1.
  exists p. split; [done|]. by case_if.
Qed.

Lemma keeps_free t id s : keeps t s (free_if_dead id s).
Proof.
  unfold free_if_dead. destruct (pty_at id s) as [a|]; [|apply keeps_refl]. destruct (heap s !! a) as [p|] eqn:E; [|apply keeps_refl]. case_if; [|apply keeps_refl].
  rewrite <- (app_nil_r (log s)). apply keeps_heap; [|constructor]. intros b q [_ Hq]%lookup_delete_Some. by exists q.
Qed.

Lemma keeps_refs t id s : keeps t s (master_ref id s) ∧ keeps t s (slave_ref id s).
Proof. unfold master_ref, slave_ref. destruct (pty_at id s) as [a|]; split; try apply keeps_refl; by apply keeps_alter. Qed.

Lemma keeps_unref t a s r s' : unref_master a s = Some (r, s') ∨ unref_slave a s = Some (r, s') → keeps t s s'.
Proof.
  unfold unref_master, unref_slave. intros H. destruct (heap s !! a) as [p|] eqn:E; cbn [mbind option_bind] in H; [|by destruct H].
  destruct H as [[= _ <-]|[= _ <-]]; by eapply keeps_set.
Qed.

Lemma keeps_alloc t room uid s : keeps t s (alloc room uid s).2.
Proof.
  unfold alloc. destruct room; [|apply keeps_refl]. destruct (place (next s) (ptys s)) as [id l]. cbn. split; [|exists []; by rewrite app_nil_r].
  intros [G1 G2]. split; cbn [heap next log].
  - intros a p Hp. destruct (decide (a = next s)) as [->|Hne]; [|rewrite lookup_insert_ne in Hp by congruence; by apply G1].
    rewrite lookup_insert_eq in Hp. injection Hp as <-. destruct (G2 (next s)) as (_&->&->); [lia|]. split; [|done].
    split; [apply tty_new_ok|by split].
  - intros a Ha. rewrite lookup_insert_ne by lia. apply G2. lia.
Qed.

(** Bytes put by the task itself, or as echo. *)
Lemma keeps_put t s a p p' w bs es : heap s !! a = Some p → (pair_ok p → pair_ok p' ∧ content (p_out p') = content (p_out p) ++ bs) → pair_ok p →
  match w with Some u => u = t | None => True end → Forall quiet es → keeps t s (add_log (Put a w bs :: es) (set_pty a p' s)).
Proof.
  intros Hp Hok Hpok Hw Hq. destruct (Hok Hpok) as [Hok' Hc]. destruct (quiet_none es Hq a 0%nat) as (Q1&Q2&_). eapply keeps_pair; [exact Hp|done|..].
  - unfold put_of, got_of in *. cbn. rewrite Q1, Q2, decide_True, Hc by done. by rewrite app_nil_r.
  - intros b Hb. destruct (quiet_none es Hq b 0%nat) as (R1&R2&_). unfold put_of, got_of in *. cbn. rewrite R1, R2, decide_False by congruence. done.
  - intros u b Hu. destruct (quiet_none es Hq b u) as (_&_&R). unfold sent_by in *. cbn. rewrite R. destruct w; [|done]. subst. by rewrite decide_False by (intros [_ ?]; congruence).
Qed.

(** Bytes taken or thrown away. *)
Lemma keeps_got t s a p p' bs x : heap s !! a = Some p → pair_ok p' → content (p_out p) = bs ++ content (p_out p') → x = Took a bs ∨ x = Dropped a bs →
  keeps t s (add_log [x] (set_pty a p' s)).
Proof.
  intros Hp Hok Hc Hx. eapply keeps_pair; [exact Hp|done|..].
  - rewrite Hc. destruct Hx as [-> | ->]; unfold put_of, got_of; cbn; rewrite decide_True by done; by rewrite !app_nil_r.
  - intros b Hb. destruct Hx as [-> | ->]; unfold put_of, got_of; cbn; by rewrite decide_False by congruence.
  - intros u b Hu. by destruct Hx as [-> | ->].
Qed.

Lemma keeps_term t s a p t' : heap s !! a = Some p → (tty_ok (p_term p) → tty_ok t') → keeps t s (set_pty a (set_term t' p) s).
Proof.
  intros Hp Ht. change (set_pty a (set_term t' p) s) with (set_heap (heap (set_pty a (set_term t' p) s)) s).
  assert (K : keeps t s (add_log [] (set_pty a (set_term t' p) s))).
  { eapply keeps_pair; [exact Hp|..]; [intros [H1 H2]; split; [by apply Ht|done]|by rewrite app_nil_r|done..]. }
  unfold add_log in K. rewrite app_nil_r in K. exact K.
Qed.

Lemma keeps_ctl_do t e a id act s s' : ctl_do e a id act s = Some s' → act_ok act → good s → keeps t s s'.
Proof.
  intros H Hact G. destruct act as [x|rows cols| |i o|path|n]; cbn [ctl_do] in H.
  - destruct (heap s !! a) as [p|] eqn:E; [|done]. injection H as <-. eapply keeps_term; [done|]. intros. by apply set_termios_ok.
  - destruct (heap s !! a) as [p|] eqn:E; [|done]. injection H as <-. destruct (p_sink p); [|apply keeps_refl|]; (eapply keeps_set; [exact E|by split]).
  - injection H as <-. apply keeps_claim.
  - destruct (heap s !! a) as [p|] eqn:E; [|done]. cbn [mbind option_bind] in H. destruct (g_pair s G a p E) as [[Ht Ho] _].
    set (p1 := if i then set_term (flush_input (p_term p)) p else p) in *.
    assert (Hp1 : tty_ok (p_term p1) ∧ p_out p1 = p_out p) by (unfold p1; destruct i; [split; [by apply flush_input_ok|done]|done]). destruct Hp1 as [Ht1 Ho1].
    rewrite Ho1 in H. destruct o.
    + rewrite out_all in H by done. cbn [mbind option_bind] in H. injection H as <-. eapply keeps_trans; [|apply keeps_notify].
      destruct (out_flush_ok (p_out p) Ho) as [Hf1 Hf2]. eapply keeps_got; [exact E|by split|cbn; by rewrite Hf2, app_nil_r|by right].
    + cbn [mbind option_bind] in H. injection H as <-. eapply keeps_trans; [|apply keeps_notify].
      eapply (keeps_got _ _ _ _ _ []); [exact E|split; [done|by rewrite Ho1]|cbn; by rewrite Ho1|by right].
  - injection H as <-. apply keeps_refl.
  - injection H as <-. apply keeps_refl.
Qed.

(** ** Where a slave's write is *)

(** What a slave's write of some bytes puts out, [nl] when a newline is to
    become two bytes; a ring with one free place can make it put the first
    of them again. *)
Inductive expands (nl : bool) : list Z → list Z → Prop :=
  | ex_nil : expands nl [] []
  | ex_byte bs out b : expands nl bs out → nl && (b =? 10) = false → expands nl (bs ++ [b]) (out ++ [b])
  | ex_line bs out k : expands nl bs out → nl = true → expands nl (bs ++ [10]) (out ++ replicate k 13 ++ [13; 10]).

(** The call has come to byte [n]. *)
Definition written (t a : nat) (nl : bool) (data : list Z) (since n : nat) (l : list Event) : Prop :=
  (since <= length l)%nat ∧ ∃ out k, expands nl (take n data) out ∧ sent_by t a (drop since l) = out ++ replicate k 13 ∧
    ((0 < k)%nat → nl = true ∧ data !! n = Some 10).

Definition call_ok (t : nat) (c : Call) (s : Sys) : Prop :=
  match c with
  | SWriteTop a id nl data since n | SWritePush a id nl data since n | SWriteFull a id nl data since n =>
      written t a nl data since n (log s) ∧ (n < length data)%nat
  | SWriteOut a id nl data since n early _ => written t a nl data since n (log s) ∧ (n <= length data)%nat ∧ (early = false → n = length data)
  | CtlDo a id acts n => Forall act_ok acts
  | MReadTop a id cap | MReadRefs a id cap => 0 < cap
  | _ => True
  end.

Lemma written_ext t a nl data since n l es : written t a nl data since n l → sent_by t a es = [] → written t a nl data since n (l ++ es).
Proof.
  intros (Hs&out&k&He&Hsent&Hk) Hes. split; [rewrite length_app; lia|]. exists out, k. split; [done|]. split; [|done].
  unfold sent_by in *. rewrite drop_app_le, bind_app, Hsent, Hes, app_nil_r by done. done.
Qed.

(** The calls of other tasks go on as they were. *)
Lemma call_ok_keeps t u c s s' : keeps u s s' → t ≠ u → call_ok t c s → call_ok t c s'.
Proof.
  intros [_ (es&E&Hes)] Hne Hc. specialize (Hes t). destruct c; cbn [call_ok] in *; try done; rewrite E.
  all: destruct Hc as [Hw Hc]; split; [|exact Hc]; apply written_ext; [done|by apply Hes].
Qed.

Lemma write_next_ok t a id nl data since n s : written t a nl data since n (log s) → (n <= length data)%nat → call_ok t (write_next a id nl data since n) s.
Proof.
  intros Hw Hn. unfold write_next. destruct (Nat.ltb_spec n (length data)); cbn [call_ok]; [done|]. split; [done|]. split; [done|]. intros _. lia.
Qed.

Lemma written_start t a nl data l : written t a nl data (length l) 0 l.
Proof. split; [done|]. exists [], 0%nat. rewrite drop_all, take_0. split; [constructor|]. split; [done|lia]. Qed.

Lemma sent_put t a bs l since : (since <= length l)%nat → sent_by t a (drop since (l ++ [Put a (Some t) bs])) = sent_by t a (drop since l) ++ bs.
Proof. intros H. unfold sent_by. rewrite drop_app_le, bind_app by done. cbn. rewrite decide_True by done. by rewrite app_nil_r. Qed.

(** A turn of the loop. *)
Lemma written_turn t a nl data since n l b r bs : written t a nl data since n l → data !! n = Some b → turn_ok nl b r bs →
  written t a nl data since (match r with TNext => S n | _ => n end) (l ++ [Put a (Some t) bs]).
Proof.
  intros (Hs&out&k&He&Hsent&Hk) Hb Hr. split; [rewrite length_app; lia|]. destruct r; cbn [turn_ok] in Hr; rewrite sent_put, Hsent by done.
  - rewrite (take_S_r _ _ b) by done. destruct (nl && (b =? 10)) eqn:E; subst bs.
    + apply andb_true_iff in E as [-> ->%Z.eqb_eq]. exists (out ++ replicate k 13 ++ [13; 10]), 0%nat. split; [by constructor|].
      split; [by rewrite <- !app_assoc, app_nil_r|lia].
    + assert (k = 0%nat) as -> by (destruct k; [done|]; destruct Hk as [-> Hn]; [lia|]; rewrite Hb in Hn; injection Hn as ->; done).
      exists (out ++ [b]), 0%nat. split; [by constructor|]. split; [by rewrite <- !app_assoc, app_nil_r|lia].
  - destruct Hr as (->&->&->). exists out, (S k). split; [done|]. split; [|done]. rewrite <- app_assoc. f_equal. by rewrite (replicate_S_end k).
  - subst bs. exists out, k. by rewrite app_nil_r.
Qed.

(** ** Every step keeps it *)

Lemma slave_read_keeps t intr c s s' c' : slave_read_go intr c s = Some (s', c') → good s → keeps t s s' ∧ call_ok t c' s'.
Proof.
  intros H G. destruct c as [| |a id h cap|a id h cap| | | | | | | | | | | | | | | | | | |]; cbn [slave_read_go] in H; try done;
    (destruct (heap s !! a) as [p|] eqn:E; [|done]); cbn [mbind option_bind] in H.
  - injection H as <- <-. split; [apply keeps_refl|]. by repeat case_if.
  - destruct (g_pair s G a p E) as [[Ht _] _]. case_if; [injection H as <- <-; split; [eapply keeps_term; [done|]; intros; by apply set_eof_ok|done]|].
    destruct (pops_ok (Z.to_nat cap) (p_term p) Ht) as (bs&t'&Eq&Ht'). rewrite Eq in H. cbn [mbind option_bind] in H. injection H as <- <-.
    split; [by eapply keeps_term|]. by destruct bs.
Qed.

Lemma terminal_write_quiet sink data nl : Forall quiet (terminal_write sink data nl).
Proof.
  assert (He : ∀ bs, Forall quiet (emit sink bs)) by (intros bs; apply Forall_forall; intros x; apply emit_quiet).
  unfold terminal_write. destruct (negb nl); [done|]. destruct (split_on _ data) as [|l ls]; [constructor|]. apply Forall_app. split; [done|].
  induction ls as [|l' ls IH]; cbn; [constructor|]. apply Forall_app. split; [|done]. apply Forall_app. by split.
Qed.

Lemma call_ok_log t c s s' : log s' = log s → call_ok t c s → call_ok t c s'.
Proof. intros E. destruct c; cbn; rewrite ?E; done. Qed.

Lemma notify_log id s : ∃ es, log (notify id s) = log s ++ es ∧ Forall quiet es.
Proof. exists [Woken id]. unfold notify. split; [|by constructor]. by destruct (pty_at id s). Qed.

Lemma written_quiet t a nl data since n l es : written t a nl data since n l → Forall quiet es → written t a nl data since n (l ++ es).
Proof. intros Hw Hq. apply written_ext; [done|]. by apply quiet_none. Qed.

Lemma slave_write_keeps t intr c s s' c' : slave_write_go t intr c s = Some (s', c') → good s → call_ok t c s → keeps t s s' ∧ call_ok t c' s'.
Proof.
  intros H G Hc. destruct c as [| | | | |a id h data|a id data|a id nl data since n|a id nl data since n|a id nl data since n|a id nl data since n early tell| | | | | | | | | | | |];
    cbn [slave_write_go] in H; try done; cbn [call_ok] in Hc.
  - destruct (heap s !! a) as [p|] eqn:E; [|done]. cbn [mbind option_bind] in H. injection H as <- <-. split; [apply keeps_refl|]. by case_if.
  - destruct (heap s !! a) as [p|] eqn:E; [|done]. cbn [mbind option_bind] in H. case_if; injection H as <- <-.
    + split; [apply keeps_refl|]. apply write_next_ok; [apply written_start|lia].
    + split; [|done]. eapply keeps_trans; [|apply keeps_notify]. apply keeps_log, terminal_write_quiet.
  - destruct (heap s !! a) as [p|] eqn:E; [|done]. cbn [mbind option_bind] in H. injection H as <- <-. split; [apply keeps_refl|]. destruct Hc as [Hw Hn].
    case_if; [|done]. split; [done|]. split; [lia|done].
  - destruct (heap s !! a) as [p|] eqn:E; [|done]. cbn [mbind option_bind] in H. destruct (data !! n) as [b|] eqn:Eb; [|done]. cbn [mbind option_bind] in H.
    destruct (g_pair s G a p E) as [[Ht Ho] _]. destruct (push_turn_ok nl b (p_out p) Ho) as (r&bs&o&Eo&Ho'&Hcont&Hr). rewrite Eo in H. cbn [mbind option_bind] in H.
    injection H as <- <-. destruct Hc as [Hw Hn]. pose proof (written_turn _ _ _ _ _ _ _ _ _ _ Hw Eb Hr) as Hw'. split.
    + eapply keeps_put; [exact E|by intros _|done|done|constructor].
    + destruct r; [apply write_next_ok; [exact Hw'|lia]|by split..].
  - injection H as <- <-. split; [apply keeps_notify|]. destruct Hc as [Hw Hn], (notify_log id s) as (es&El&Hq).
    pose proof (written_quiet _ _ _ _ _ _ _ _ Hw Hq) as Hw'. rewrite <- El in Hw'. destruct intr; [|by split]. split; [done|]. split; [lia|done].
  - injection H as <- <-. split; [destruct tell; [apply keeps_notify|apply keeps_refl]|by case_if].
Qed.

Lemma master_read_keeps t intr c s s' c' : master_read_go intr c s = Some (s', c') → good s → call_ok t c s → keeps t s s' ∧ call_ok t c' s'.
Proof.
  intros H G Hc. destruct c as [| | | | | | | | | | |a id cap|a id cap| | | | | | | | | |]; cbn [master_read_go] in H; try done;
    (destruct (heap s !! a) as [p|] eqn:E; [|done]); cbn [mbind option_bind] in H; cbn [call_ok] in Hc.
  - destruct (g_pair s G a p E) as [[Ht Ho] _]. destruct (out_take_ok cap (p_out p) Ho) as (bs&o&Eo&Ho'&Hcont&_); [lia|]. rewrite Eo in H. cbn [mbind option_bind] in H.
    injection H as <- <-. split; [|by destruct bs]. eapply keeps_got; [exact E|by split|exact Hcont|by left].
  - injection H as <- <-. split; [apply keeps_refl|]. by repeat case_if.
Qed.

Lemma master_write_keeps t e c s s' c' : master_write_go e c s = Some (s', c') → good s → keeps t s s' ∧ call_ok t c' s'.
Proof.
  intros H G. destruct c as [| | | | | | | | | | | | |a id data|id v n| | | | | | | |]; cbn [master_write_go] in H; try done.
  - destruct (heap s !! a) as [p|] eqn:E; [|done]. cbn [mbind option_bind] in H. destruct (g_pair s G a p E) as [[Ht Ho] _].
    destruct (type_all_ok (p_sink p) (crlf p) data _ _ Ht Ho) as (v&bs&es&t'&o&Eq&Ht'&Ho'&Hcont&Hes). rewrite Eq in H. cbn [mbind option_bind] in H. injection H as <- <-.
    split; [|done]. eapply keeps_put; [exact E|by intros _|done|done|]. eapply Forall_impl; [exact Hes|]. cbn. intros x (sk&y&Hx). by eapply emit_quiet.
  - injection H as <- <-. split; [|done]. eapply keeps_trans; [|apply keeps_notify]. destruct v; [apply keeps_signal|apply keeps_refl].
Qed.

Lemma other_keeps t e c s s' c' : other_go e c s = Some (s', c') → good s → call_ok t c s → keeps t s s' ∧ call_ok t c' s'.
Proof.
  intros H G Hc. destruct c as [| | | |id r| | | | | | | | | | |id|id last|ids|a id acts n|id|id|id|f]; cbn [other_go] in H; try done.
  - injection H as <- <-. split; [apply keeps_notify|done].
  - injection H as <- <-. split; [apply keeps_signal|done].
  - injection H as <- <-. split; [|done]. eapply keeps_trans; [|apply keeps_free]. destruct last; [apply keeps_notify|apply keeps_refl].
  - destruct ids as [|id ids]; injection H as <- <-; (split; [|done]); [apply keeps_refl|apply keeps_hang_up].
  - cbn [call_ok] in Hc. destruct acts as [|act acts]; [injection H as <- <-; split; [apply keeps_refl|done]|]. apply Forall_cons in Hc as [Ha Hc].
    destruct (ctl_do e a id act s) as [s1|] eqn:E; [|done]. injection H as <- <-. split; [by eapply keeps_ctl_do|done].
  - injection H as <- <-. split; [apply keeps_refs|done].
  - unfold close_fd in H. destruct (pty_at (fd_id f) s) as [a|]; [|injection H as <- <-; split; [apply keeps_refl|done]].
    destruct f as [id|id h]; [destruct (unref_master a s) as [[last s1]|] eqn:E|destruct (unref_slave a s) as [[last s1]|] eqn:E]; try done;
      injection H as <- <-; (split; [eapply keeps_unref; first [left; exact E|right; exact E]|by try case_if]).
Qed.

Lemma go_keeps e t intr c s s' c' : go e t intr c s = Some (s', c') → good s → call_ok t c s → keeps t s s' ∧ call_ok t c' s'.
Proof.
  destruct c; cbn [go]; intros H G Hc;
    first [exact (slave_read_keeps _ _ _ _ _ _ H G)|exact (slave_write_keeps _ _ _ _ _ _ H G Hc)|exact (master_read_keeps _ _ _ _ _ _ H G Hc)
          |exact (master_write_keeps _ _ _ _ _ _ H G)|exact (other_keeps _ _ _ _ _ _ H G Hc)].
Qed.

Lemma start_keeps t e o s fs s' fs' c : start e o s fs = Some (s', fs', c) → good s → keeps t s s' ∧ call_ok t c s'.
Proof.
  assert (Hwp : ∀ id s k, (∀ a, call_ok t (k a) s) → call_ok t (with_pair id s k) s) by (intros id x k Hk; unfold with_pair; destruct (pty_at id x); [apply Hk|done]).
  intros H G. destruct o as [room uid|id|f|f|id|sid|id h cap|id h data|id cap|id data|id data|id text]; cbn [start] in H.
  - pose proof (keeps_alloc t room uid s) as K. destruct (alloc room uid s) as [r s1]. injection H as <- _ <-. split; [done|]. by destruct r.
  - injection H as <- _ <-. split; [apply keeps_refl|]. by case_if.
  - case_if; [|done]. injection H as <- _ <-. split; [|done]. destruct f; apply keeps_refs.
  - case_if; [|done]. injection H as <- _ <-. split; [apply keeps_refl|done].
  - injection H as <- _ <-. split; [apply keeps_claim|done].
  - injection H as <- _ <-. split; [apply (keeps_end_session t sid s)|done].
  - case_if; [|done]. injection H as <- _ <-. split; [apply keeps_refl|]. case_if; [done|]. by apply Hwp.
  - case_if; [|done]. injection H as <- _ <-. split; [apply keeps_refl|]. by apply Hwp.
  - case_if; [|done]. injection H as <- _ <-. split; [apply keeps_refl|]. destruct (Z.leb_spec cap 0); [done|]. by apply Hwp.
  - case_if; [|done]. injection H as <- _ <-. split; [apply keeps_refl|]. by apply Hwp.
  - case_if; [|done]. injection H as <- _ <-. split; [apply keeps_refl|]. by apply Hwp.
  - injection H as <- _ <-. split; [apply keeps_refl|]. unfold ctl_write. destruct (pair_at id s) as [p|] eqn:E; [|done]. case_if; [done|].
    destruct (ctl_parse (termios (p_term p)) text) as [acts|] eqn:Ep; [|done]. case_if; [done|]. apply Hwp. intros a. cbn [call_ok]. eapply ctl_parse_ok; [exact Ep|].
    unfold pair_at in E. destruct (pty_at id s) as [b|]; [|done]. cbn [mbind option_bind] in E. destruct (g_pair s G b p E) as [[Ht _] _]. by destruct Ht.
Qed.

Record world_ok (w : World) : Prop := {
  w_good : good (sys w);
  w_calls : ∀ t c, calls w !! t = Some c → call_ok t c (sys w) }.

Lemma pty_boot_ok tasks : world_ok (boot tasks).
Proof.
  split; [split|].
  - intros a p Hp. cbn [boot sys init_terms heap] in Hp. apply elem_of_list_to_map_2 in Hp. apply list_elem_of_fmap in Hp as (id&[= -> ->]&_).
    split; [split; [apply tty_new_ok|by split]|done].
  - intros a Ha. split; [|done]. apply not_elem_of_list_to_map_1. rewrite <- list_fmap_compose. intros (id&->&Hid)%list_elem_of_fmap. apply elem_of_seq in Hid. cbn in *. lia.
  - intros t c [-> _]%lookup_replicate. done.
Qed.

Lemma set_call_ok t c s fs w : world_ok w → keeps t (sys w) s → call_ok t c s → world_ok (set_call t c s fs w).
Proof.
  intros [G C] K Hc. split; [by apply K|]. intros u c' Hu. cbn in Hu. apply list_lookup_insert_Some in Hu as [(<-&<-&_)|[Hne Hu]]; [done|].
  eapply call_ok_keeps; [exact K|congruence|by apply C].
Qed.

Lemma pty_exec_ok l w w' : exec l w = Some w' → world_ok w → world_ok w'.
Proof.
  intros H W. pose proof W as [G C]. destruct l as [t e o|t e intr|t full|t]; cbn [exec] in H; (destruct (calls w !! t) as [c|] eqn:E; [|done]); cbn [mbind option_bind] in H.
  - destruct c; try done. destruct (start e o (sys w) (fds w)) as [[[s fs] c]|] eqn:Es; [|done]. injection H as <-.
    destruct (start_keeps t _ _ _ _ _ _ _ Es G). by apply set_call_ok.
  - destruct (go e t intr c (sys w)) as [[s c']|] eqn:Eg; [|done]. injection H as <-. destruct (go_keeps _ _ _ _ _ _ _ Eg G (C t c E)). by apply set_call_ok.
  - destruct (store full c (sys w) (fds w)) as [[fs c']|] eqn:Es; [|done]. injection H as <-. apply set_call_ok; [done|apply keeps_refl|].
    by destruct c; try done; destruct full; injection Es as _ <-.
  - destruct c; try done. injection H as <-. apply set_call_ok; [done|apply keeps_refl|done].
Qed.

Lemma pty_run_ok ls w w' : run ls w = Some w' → world_ok w → world_ok w'.
Proof.
  revert w. induction ls as [|l ls IH]; intros w; cbn [run]; [by intros [= <-]|]. destruct (exec l w) as [w1|] eqn:E; [|done]. intros H W.
  eapply IH; [exact H|]. by eapply pty_exec_ok.
Qed.
