(* ===== verification/PtyLife.v ===== *)
(** * Pairs: how long they live

    A pair is in the table as long as a descriptor is open on it, its counts
    are those of the descriptors, but for calls that are just opening or
    closing one, and it is freed after the last one is closed: over every
    interleaving of calls in which no pair loses its last descriptor while a
    call on it goes on. *)

From S2P Require Import Prelude.
From stdpp Require Import gmap list.
From S2P Require Import Text Ring Tty TtyFacts Pty PtyFacts PtyRun.

Open Scope Z_scope.

(** ** Descriptors *)

Definition is_master (f : Fd) : bool := match f with FMaster _ => true | FSlave _ _ => false end.

(** The descriptors on an end of a pair. *)
Definition refs (m : bool) (id : nat) (fs : list Fd) : Z := zlen (filter (λ f, fd_id f = id ∧ is_master f = m) fs).

Definition one (P : Prop) `{Decision P} : Z := if decide P then 1 else 0.

Lemma one_bounds P `{Decision P} : 0 <= one P <= 1.
Proof. unfold one. case_decide; lia. Qed.

Lemma one_false P `{Decision P} : ¬ P → one P = 0.
Proof. intros. unfold one. by rewrite decide_False. Qed.

Lemma refs_cons m id f fs : refs m id (f :: fs) = refs m id fs + one (fd_id f = id ∧ is_master f = m).
Proof. unfold refs, one. rewrite filter_cons. destruct (decide (fd_id f = id ∧ is_master f = m)); cbn [length]; lia. Qed.

Lemma refs_close m id f fs : f ∈ fs → refs m id (close_one f fs) = refs m id fs - one (fd_id f = id ∧ is_master f = m).
Proof.
  induction fs as [|g fs IH]; intros Hf; [by apply not_elem_of_nil in Hf|]. cbn [close_one]. destruct (decide (g = f)) as [->|Hne]; [rewrite refs_cons; lia|].
  apply elem_of_cons in Hf as [->|Hf]; [done|]. rewrite !refs_cons, IH by done. lia.
Qed.

Lemma refs_bounds m id fs : 0 <= refs m id fs <= zlen fs.
Proof. unfold refs. pose proof (length_filter (λ f, fd_id f = id ∧ is_master f = m) fs). lia. Qed.

Lemma refs_pos m id fs f : f ∈ fs → fd_id f = id → is_master f = m → 0 < refs m id fs.
Proof.
  intros Hf Hid Hm. unfold refs. assert (Hin : f ∈ filter (λ f, fd_id f = id ∧ is_master f = m) fs) by (by apply list_elem_of_filter).
  destruct (filter _ fs); [by apply not_elem_of_nil in Hin|cbn; lia].
Qed.

(** What a call in progress adds to the count of an end: the master of a pair
    just made and the descriptor being closed are counted and not in the
    table; the slave just stored is in the table and not counted. *)
Definition claim (m : bool) (id : nat) (c : Call) : Z :=
  match c with
  | MOpened i => one (i = id ∧ m = true)
  | SOpened i => - one (i = id ∧ m = false)
  | Closing f => one (fd_id f = id ∧ is_master f = m)
  | _ => 0
  end.

Definition claims (m : bool) (id : nat) (cs : list Call) : Z := foldr (λ c n, claim m id c + n) 0 cs.

(** What the count of an end of a pair should be. *)
Definition counted (m : bool) (id : nat) (w : World) : Z := refs m id (fds w) + claims m id (calls w).

(** A pair somebody has: a kernel terminal, or one a descriptor of which is
    counted. *)
Definition had (n : bool → nat → Z) (id : nat) : Prop := (id < TERMS)%nat ∨ 0 < n true id + n false id.

#[global] Instance had_dec n id : Decision (had n id).
Proof. apply _. Defined.

Definition held (w : World) : nat → Prop := had (λ m id, counted m id w).

#[global] Instance held_dec w id : Decision (held w id).
Proof. apply _. Defined.

Lemma had_ext n n' id : (∀ m, n' m id = n m id) → had n' id ↔ had n id.
Proof. intros E. unfold had. by rewrite !E. Qed.

Lemma held_same w w' id : (∀ m i, counted m i w' = counted m i w) → held w id → held w' id.
Proof. intros E. unfold held, had. by rewrite !E. Qed.

Lemma claim_bounds m id c : -1 <= claim m id c <= 1.
Proof. destruct c; cbn; try lia; match goal with |- context [one ?P] => pose proof (one_bounds P) end; lia. Qed.

Lemma claims_cons m id c cs : claims m id (c :: cs) = claim m id c + claims m id cs.
Proof. done. Qed.

Lemma claims_bounds m id cs : - zlen cs <= claims m id cs <= zlen cs.
Proof. induction cs as [|c cs IH]; [done|]. rewrite claims_cons. cbn [length]. pose proof (claim_bounds m id c). lia. Qed.

Lemma claims_insert m id cs t c c' : cs !! t = Some c → claims m id (<[t := c']> cs) = claims m id cs - claim m id c + claim m id c'.
Proof.
  revert t. induction cs as [|x cs IH]; intros [|t] Hc; try done.
  - injection Hc as ->. change (<[0%nat := c']> (c :: cs)) with (c' :: cs). rewrite !claims_cons. lia.
  - change (<[S t := c']> (x :: cs)) with (x :: <[t := c']> cs). rewrite !claims_cons, (IH t Hc). lia.
Qed.

(** Only a slave that is being opened makes a count smaller. *)
Lemma claims_neg m id cs : claims m id cs < 0 → m = false ∧ SOpened id ∈ cs.
Proof.
  induction cs as [|c cs IH]; [done|]. rewrite claims_cons. intros H. destruct (decide (claims m id cs < 0)) as [Hn|Hn].
  - destruct (IH Hn). split; [done|]. by right.
  - assert (Hc : claim m id c < 0) by lia. destruct c; cbn in Hc; try lia; unfold one in Hc; case_decide as Hd; try lia. destruct Hd as [-> ->]. split; [done|]. by left.
Qed.

(** A step of task [t] from [c] to [c'], with the descriptors [fs] after. *)
Lemma counted_step m id t c c' s fs w : calls w !! t = Some c →
  counted m id (set_call t c' s fs w) = counted m id w + (refs m id fs - refs m id (fds w)) + (claim m id c' - claim m id c).
Proof. intros Hc. unfold counted, set_call. cbn [fds calls]. rewrite (claims_insert _ _ _ _ _ _ Hc). lia. Qed.

(** ** Runs that keep a pair while it is used *)

(** The pair a call in progress has the address of. *)
Definition user (c : Call) : option (nat * nat) :=
  match c with
  | SReadTop a id _ _ | SReadIn a id _ _ | SWriteStart a id _ _ | SWriteMode a id _ | SWriteTop a id _ _ _ _ | SWritePush a id _ _ _ _
  | SWriteFull a id _ _ _ _ | SWriteOut a id _ _ _ _ _ _ | MReadTop a id _ | MReadRefs a id _ | MWriteIn a id _ | CtlDo a id _ _ => Some (a, id)
  | _ => None
  end.

(** The pair a call is about to open a slave of. *)
Definition opens (c : Call) : option nat := match c with SOpening id | SOpened id => Some id | _ => None end.

Definition uses (c : Call) : option nat := match user c with Some (_, id) => Some id | None => opens c end.

(** Somebody has the pairs that calls use or open; a slave that is stored and
    not yet counted has not been counted out; the descriptors are fewer than a
    count can tell. *)
Definition polite (w : World) : bool :=
  forallb (λ c, match uses c with Some id => bool_decide (held w id) | None => true end) (calls w) &&
  forallb (λ c, match c with SOpened id => 0 <=? counted false id w | _ => true end) (calls w) &&
  (zlen (fds w) + zlen (calls w) <? 2 ^ 64 - 1).

Fixpoint polite_run (ls : list Label) (w : World) : bool :=
  polite w && match ls with [] => true | l :: ls => match exec l w with Some w => polite_run ls w | None => true end end.

Lemma polite_uses w u c id : polite w = true → calls w !! u = Some c → uses c = Some id → held w id.
Proof.
  unfold polite. rewrite !andb_true_iff, !forallb_forall. intros [[H _] _] Hc Hu. specialize (H c (proj1 (list_elem_of_In _ _) (list_elem_of_lookup_2 _ _ _ Hc))).
  rewrite Hu in H. by apply bool_decide_eq_true in H.
Qed.

Definition ranged (n : bool → nat → Z) : Prop := ∀ m id, 0 <= n m id < 2 ^ 64 - 1.

Lemma polite_ranged w : polite w = true → ranged (λ m id, counted m id w).
Proof.
  unfold polite. rewrite !andb_true_iff, !forallb_forall. intros [[_ H] Hf%Z.ltb_lt] m id. pose proof (refs_bounds m id (fds w)). pose proof (claims_bounds m id (calls w)).
  unfold counted at 2. split; [|lia]. destruct (decide (claims m id (calls w) < 0)) as [Hn|Hn]; [|unfold counted; lia].
  destruct (claims_neg _ _ _ Hn) as [-> Hin]. apply list_elem_of_In, H in Hin. by apply Z.leb_le.
Qed.

(** The task is about to free the pair [id] is, if nobody has it. *)
Definition frees (id : nat) (c : Call) : Prop := c = MasterGone id ∨ ∃ last, c = Freeing id last.

Lemma frees_em id c : frees id c ∨ ¬ frees id c.
Proof.
  destruct c as [| | | | | | | | | | | | | | |i|i last| | | | | |]; try (right; by intros [?|[? ?]]); destruct (decide (i = id)) as [->|Hne];
    [left; by left|right; intros [[= ?]|[? ?]]; done|left; right; by eexists|right; intros [?|[? [= ? _]]]; done].
Qed.

(** The kernel has the master of its terminals. *)
Definition own (id : nat) : Z := one (id < TERMS)%nat.

Lemma own_bounds id : 0 <= own id <= 1.
Proof. apply one_bounds. Qed.

(** The table and the heap are right, [n] the counts. *)
Record live (s : Sys) (n : bool → nat → Z) : Prop := {
  l_pair : ∀ id a, pty_at id s = Some a → ∃ p, heap s !! a = Some p ∧ p_master_refs p = n true id + own id ∧ p_slave_refs p = n false id;
  l_inj : ∀ id1 id2 a, pty_at id1 s = Some a → pty_at id2 s = Some a → id1 = id2;
  l_heap : ∀ a p, heap s !! a = Some p → (a < next s)%nat ∧ ∃ id, pty_at id s = Some a;
  l_held : ∀ id, had n id → is_Some (pty_at id s);
  l_range : ranged n }.

Record life (w : World) : Prop := {
  f_live : live (sys w) (λ m id, counted m id w);
  f_calls : ∀ t c a id, calls w !! t = Some c → user c = Some (a, id) → pty_at id (sys w) = Some a;
  f_opens : ∀ t c id, calls w !! t = Some c → opens c = Some id → is_Some (pty_at id (sys w));
  f_freed : ∀ id, is_Some (pty_at id (sys w)) → held w id ∨ ∃ t c, calls w !! t = Some c ∧ frees id c }.

(** ** Steps that leave the counts *)

Definition refs_of (p : Pty) : Z * Z := (p_master_refs p, p_slave_refs p).

Record same_refs (s s' : Sys) : Prop := {
  sr_ptys : ptys s' = ptys s;
  sr_next : next s' = next s;
  sr_heap : ∀ a, refs_of <$> heap s' !! a = refs_of <$> heap s !! a }.

Lemma same_refs_refl s : same_refs s s.
Proof. done. Qed.

Lemma same_refs_trans s1 s2 s3 : same_refs s1 s2 → same_refs s2 s3 → same_refs s1 s3.
Proof. intros [? ? H1] [? ? H2]. split; [congruence..|]. intros a. by rewrite H2, H1. Qed.

Lemma same_refs_log s es : same_refs s (add_log es s).
Proof. done. Qed.

Lemma same_refs_set s a p p' : heap s !! a = Some p → refs_of p' = refs_of p → same_refs s (set_pty a p' s).
Proof.
  intros Hp E. split; [done..|]. intros b. cbn. destruct (decide (b = a)) as [->|Hne]; [rewrite lookup_insert_eq, Hp; cbn; by f_equal|].
  by rewrite lookup_insert_ne by congruence.
Qed.

Lemma same_refs_alter s f a : (∀ p, refs_of (f p) = refs_of p) → same_refs s (set_heap (alter f a (heap s)) s).
Proof.
  intros E. split; [done..|]. intros b. cbn. destruct (decide (b = a)) as [->|Hne]; [|by rewrite lookup_alter_ne by congruence].
  rewrite lookup_alter_eq. destruct (heap s !! a); [|done]. cbn. by rewrite E.
Qed.

#[local] Hint Resolve same_refs_refl same_refs_log : core.

Lemma same_refs_notify id s : same_refs s (notify id s).
Proof. unfold notify. destruct (pty_at id s); [|done]. eapply same_refs_trans; [|apply same_refs_log]. by apply same_refs_alter. Qed.

Lemma same_refs_signal e id sig s : same_refs s (signal_session e id sig s).
Proof. unfold signal_session. by destruct (session_pgid e id s). Qed.

Lemma same_refs_hang_up id s : same_refs s (hang_up id s).
Proof.
  unfold hang_up. destruct (pty_at id s) as [a|]; [|done]. destruct (heap s !! a) as [p|] eqn:E; [|done]. case_if; [done|].
  eapply same_refs_trans; [|apply same_refs_notify]. by eapply same_refs_set.
Qed.

Lemma same_refs_claim e id s : same_refs s (claim_session e id s).
Proof.
  unfold claim_session. destruct (pty_at id s) as [a|]; [|done]. destruct (heap s !! a) as [p|] eqn:E; [|done]. do 2 (case_if; [done|]).
  eapply same_refs_trans; [|apply same_refs_hang_up]. by eapply same_refs_set.
Qed.

Lemma same_refs_end sid s : same_refs s (end_session sid s).2.
Proof. split; [done..|]. intros a. cbn. rewrite lookup_fmap. destruct (heap s !! a); [|done]. cbn. by case_if. Qed.

Lemma same_refs_ctl_do e a id act s s' : ctl_do e a id act s = Some s' → same_refs s s'.
Proof.
  intros H. destruct act as [x|rows cols| |i o|path|n]; cbn [ctl_do] in H; try (destruct (heap s !! a) as [p|] eqn:E; [|done]); cbn [mbind option_bind] in H.
  - injection H as <-. by eapply same_refs_set.
  - injection H as <-. destruct (p_sink p); [by eapply same_refs_set|done|by eapply same_refs_set].
  - injection H as <-. apply same_refs_claim.
  - destruct i, o; cbn [mbind option_bind] in H; try (destruct (out_bytes _ _ _) as [gone|]; [|done]; cbn [mbind option_bind] in H); injection H as <-;
      (eapply same_refs_trans; [|apply same_refs_notify]); (eapply same_refs_trans; [|apply same_refs_log]); by eapply same_refs_set.
  - by injection H as <-.
  - by injection H as <-.
Qed.

Lemma pty_at_ptys id s s' : ptys s' = ptys s → pty_at id s' = pty_at id s.
Proof. unfold pty_at. by intros ->. Qed.

Lemma live_same s s' n n' : live s n → same_refs s s' → (∀ m id, n' m id = n m id) → live s' n'.
Proof.
  intros [H1 H2 H3 H4 H5] [E1 E2 E3] En. pose proof (λ id, pty_at_ptys id s s' E1) as Ep. split.
  - intros id a. rewrite Ep. intros Ha. destruct (H1 id a Ha) as (p&Hp&Em&Es). specialize (E3 a). rewrite Hp in E3. apply fmap_Some_1 in E3 as (q&Hq&Er).
    exists q. unfold refs_of in Er. injection Er as Er1 Er2. by rewrite <- Er1, <- Er2, !En.
  - intros id1 id2 a. rewrite !Ep. apply H2.
  - intros a q Hq. specialize (E3 a). rewrite Hq in E3. symmetry in E3. apply fmap_Some_1 in E3 as (p&Hp&_). rewrite E2. destruct (H3 a p Hp) as [? (id&?)].
    split; [done|]. exists id. by rewrite Ep.
  - intros id. rewrite Ep, (had_ext n n') by done. apply H4.
  - intros m id. by rewrite En.
Qed.

(** A step of task [t] that takes out of the table only what nobody has. *)
Lemma life_step t c0 c s fs w : life w → polite w = true → calls w !! t = Some c0 → let w' := set_call t c s fs w in
  live s (λ m id, counted m id w') → (∀ id a, pty_at id (sys w) = Some a → held w id → pty_at id s = Some a) →
  (∀ a id, user c = Some (a, id) → pty_at id s = Some a) → (∀ id, opens c = Some id → is_Some (pty_at id s)) →
  (∀ id, is_Some (pty_at id s) → held w' id ∨ frees id c ∨ (is_Some (pty_at id (sys w)) ∧ ¬ held w id ∧ ¬ frees id c0)) → life w'.
Proof.
  intros [F1 F2 F3 F4] P Hc0 w' L Hkeep Hu Ho Hfr. assert (Ht : calls w' !! t = Some c) by (apply list_lookup_insert_eq; by eapply lookup_lt_Some). split; [done|..].
  - intros u c' a id Hc' Huc. apply list_lookup_insert_Some in Hc' as [(<-&<-&_)|[_ Hc']]; [by apply Hu|]. apply Hkeep; [by eapply F2|].
    eapply polite_uses; [done|exact Hc'|]. unfold uses. by rewrite Huc.
  - intros u c' id Hc' Huc. apply list_lookup_insert_Some in Hc' as [(<-&<-&_)|[_ Hc']]; [by apply Ho|]. destruct (F3 u c' id Hc' Huc) as [a Ha].
    exists a. apply Hkeep; [done|]. eapply polite_uses; [done|exact Hc'|]. unfold uses. destruct c'; done.
  - intros id Hid. destruct (Hfr id Hid) as [?|[?|(Hs&Hn&Hf)]]; [by left|right; by exists t, c|]. destruct (F4 id Hs) as [?|(u&c'&Hc'&Hf')]; [done|]. right. exists u, c'.
    split; [|done]. cbn. rewrite list_lookup_insert_ne; [done|]. intros ->. rewrite Hc0 in Hc'. by injection Hc' as <-.
Qed.

(** A step that leaves the counts. *)
Lemma life_same t c0 c s fs w : life w → polite w = true → calls w !! t = Some c0 → same_refs (sys w) s →
  (∀ m id, counted m id (set_call t c s fs w) = counted m id w) → (∀ a id, user c = Some (a, id) → pty_at id (sys w) = Some a) →
  (∀ id, opens c = Some id → is_Some (pty_at id (sys w))) → (∀ id, frees id c0 → frees id c) → life (set_call t c s fs w).
Proof.
  intros F P Hc0 Hs Hn Hu Ho Hf. pose proof (λ id, pty_at_ptys id (sys w) s (sr_ptys _ _ Hs)) as Ep. eapply life_step; [done|done|exact Hc0|..].
  - eapply live_same; [apply F|done|done].
  - intros id a. by rewrite Ep.
  - intros a id. rewrite Ep. apply Hu.
  - intros id. rewrite Ep. apply Ho.
  - intros id. rewrite Ep. intros Hid. destruct (f_freed w F id Hid) as [Hh|(u&c'&Hc'&Hf')].
    + left. by eapply held_same.
    + destruct (decide (held w id)) as [Hh|Hh]; [left; by eapply held_same|]. right. destruct (decide (u = t)) as [->|Hne].
      * left. apply Hf. rewrite Hc0 in Hc'. by injection Hc' as <-.
      * assert (Hd : frees id c0 ∨ ¬ frees id c0) by apply frees_em. destruct Hd; [left; by apply Hf|by right].
Qed.

(** ** A task goes on *)

(** A call that opens and closes no descriptor. *)
Definition plain (c : Call) : bool := match c with MOpened _ | SOpening _ | SOpened _ | Closing _ => false | _ => true end.

Lemma plain_none c : plain c = true → opens c = None ∧ ∀ m id, claim m id c = 0.
Proof. by destruct c. Qed.

(** The step leaves the counts, the task stays with its pair or leaves it. *)
Definition stays (c c' : Call) : Prop :=
  (∀ x, user c' = Some x → user c = Some x) ∧ (∀ id, frees id c → frees id c') ∧ plain c = true ∧ plain c' = true.

Lemma stays_out c c' : user c' = None → plain c = true → plain c' = true → (∀ id, ¬ frees id c) → stays c c'.
Proof. intros E P P' H. split; [by rewrite E|]. split; [|done]. intros id Hf. by destruct (H id). Qed.

Lemma stays_in c c' : user c' = user c → plain c = true → plain c' = true → (∀ id, ¬ frees id c) → stays c c'.
Proof. intros E P P' H. split; [by rewrite E|]. split; [|done]. intros id Hf. by destruct (H id). Qed.

Ltac no_free := let H := fresh in intros ? H; destruct H as [H|[? H]]; discriminate H.
Ltac stay_put := first [apply stays_in; [reflexivity|reflexivity|reflexivity|no_free]|apply stays_out; [reflexivity|reflexivity|reflexivity|no_free]].

Lemma write_next_user a id nl data since n : user (write_next a id nl data since n) = Some (a, id) ∧ plain (write_next a id nl data since n) = true.
Proof. unfold write_next. by case_if. Qed.

Lemma slave_read_stays intr c s s' c' : slave_read_go intr c s = Some (s', c') → same_refs s s' ∧ stays c c'.
Proof.
  intros H. destruct c as [| |a id h cap|a id h cap| | | | | | | | | | | | | | | | | | |]; cbn [slave_read_go] in H; try done;
    (destruct (heap s !! a) as [p|] eqn:E; [|done]); cbn [mbind option_bind] in H.
  - injection H as <- <-. split; [done|]. repeat case_if; stay_put.
  - case_if; [injection H as <- <-; split; [by eapply same_refs_set|stay_put]|]. destruct (pops (Z.to_nat cap) (p_term p)) as [[bs t']|]; [|done].
    injection H as <- <-. split; [by eapply same_refs_set|]. destruct bs; stay_put.
Qed.

Lemma slave_write_stays t intr c s s' c' : slave_write_go t intr c s = Some (s', c') → same_refs s s' ∧ stays c c'.
Proof.
  intros H. destruct c as [| | | | |a id h data|a id data|a id nl data since n|a id nl data since n|a id nl data since n|a id nl data since n early tell| | | | | | | | | | | |];
    cbn [slave_write_go] in H; try done; try (destruct (heap s !! a) as [p|] eqn:E; [|done]); cbn [mbind option_bind] in H.
  - injection H as <- <-. split; [done|]. case_if; stay_put.
  - case_if; injection H as <- <-.
    + split; [done|]. apply stays_in; [apply write_next_user|done|apply write_next_user|no_free].
    + split; [|stay_put]. eapply same_refs_trans; [|apply same_refs_notify]. apply same_refs_log.
  - injection H as <- <-. split; [done|]. case_if; stay_put.
  - destruct (data !! n) as [b|]; [|done]. cbn [mbind option_bind] in H. destruct (push_turn nl b (p_out p)) as [[[r bs] o]|]; [|done]. injection H as <- <-.
    split; [eapply same_refs_trans; [|apply same_refs_log]; by eapply same_refs_set|]. destruct r; [apply stays_in; [apply write_next_user|done|apply write_next_user|no_free]|stay_put..].
  - injection H as <- <-. split; [apply same_refs_notify|]. case_if; stay_put.
  - injection H as <- <-. split; [destruct tell; [apply same_refs_notify|done]|stay_put].
Qed.

Lemma master_stays e intr c s s' c' : master_read_go intr c s = Some (s', c') ∨ master_write_go e c s = Some (s', c') → same_refs s s' ∧ stays c c'.
Proof.
  intros H. destruct c as [| | | | | | | | | | |a id cap|a id cap|a id data|id v n| | | | | | | |]; cbn [master_read_go master_write_go] in H; destruct H as [H|H]; try done;
    try (destruct (heap s !! a) as [p|] eqn:E; [|done]); cbn [mbind option_bind] in H.
  - destruct (out_take cap (p_out p)) as [[bs o]|]; [|done]. injection H as <- <-.
    split; [eapply same_refs_trans; [|apply same_refs_log]; by eapply same_refs_set|]. destruct bs; stay_put.
  - injection H as <- <-. split; [done|]. repeat case_if; stay_put.
  - destruct (type_all _ _ _ _ _) as [[[[[v bs] es] t'] o]|]; [|done]. injection H as <- <-.
    split; [eapply same_refs_trans; [|apply same_refs_log]; by eapply same_refs_set|stay_put].
  - injection H as <- <-. split; [|stay_put]. eapply same_refs_trans; [|apply same_refs_notify]. destruct v; [apply same_refs_signal|done].
Qed.

(** The steps that change no count and free no pair. *)
Definition calm (c : Call) : bool := match c with Freeing _ _ | SOpened _ | Closing _ => false | _ => true end.

Lemma other_stays e c s s' c' : other_go e c s = Some (s', c') → calm c = true → same_refs s s' ∧ stays c c'.
Proof.
  intros H Hc. destruct c as [| | | |id r| | | | | | | | | | |id|id last|ids|a id acts n| | | |]; cbn [other_go] in H; try done.
  - injection H as <- <-. split; [apply same_refs_notify|stay_put].
  - injection H as <- <-. split; [apply same_refs_signal|]. split; [done|]. split; [|done]. intros id' [[= <-]|[? [=]]]. right. by eexists.
  - destruct ids as [|id ids]; injection H as <- <-; (split; [|stay_put]); [done|apply same_refs_hang_up].
  - destruct acts as [|act acts]; [injection H as <- <-; split; [done|stay_put]|]. destruct (ctl_do e a id act s) as [s1|] eqn:E; [|done]. injection H as <- <-.
    split; [by eapply same_refs_ctl_do|stay_put].
Qed.

Lemma go_stays e t intr c s s' c' : go e t intr c s = Some (s', c') → calm c = true → same_refs s s' ∧ stays c c'.
Proof.
  intros H Hc. destruct c; cbn [go] in H;
    first [exact (slave_read_stays _ _ _ _ _ H)|exact (slave_write_stays _ _ _ _ _ _ H)|exact (master_stays e intr _ _ _ _ (or_introl H))
          |exact (master_stays e intr _ _ _ _ (or_intror H))|exact (other_stays _ _ _ _ _ H Hc)].
Qed.

(** ** A pair is freed *)

Lemma pty_at_insert id x s id' : (id < length (ptys s))%nat → (y ← <[id := x]> (ptys s) !! id'; y) = if decide (id' = id) then x else pty_at id' s.
Proof.
  intros Hl. unfold pty_at. destruct (decide (id' = id)) as [->|Hne]; [by rewrite list_lookup_insert_eq|]. by rewrite list_lookup_insert_ne by congruence.
Qed.

Lemma pty_at_lt id s a : pty_at id s = Some a → (id < length (ptys s))%nat.
Proof. unfold pty_at. destruct (ptys s !! id) eqn:E; [|done]. intros _. by eapply lookup_lt_Some. Qed.

(** What [free_if_dead] does to a table that is right. *)
Lemma free_live id s n : live s n → live (free_if_dead id s) n ∧
  (∀ id', pty_at id' (free_if_dead id s) = if decide (id' = id ∧ ¬ had n id) then None else pty_at id' s).
Proof.
  intros L. pose proof L as [H1 H2 H3 H4 H5]. unfold free_if_dead. destruct (pty_at id s) as [a|] eqn:Ea.
  - destruct (H1 id a Ea) as (p&Hp&Em&Es). rewrite Hp. pose proof (H5 true id). pose proof (H5 false id).
    destruct ((p_master_refs p =? 0) && (p_slave_refs p =? 0)) eqn:Ez.
    + bool_hyps. assert (Hh : ¬ had n id).
      { intros [Ht|Ht]; [unfold own, one in *; rewrite decide_True in * by done; lia|pose proof (own_bounds id); lia]. }
      assert (Hat : ∀ id', pty_at id' {| heap := delete a (heap s); next := next s; ptys := <[id := None]> (ptys s); serial_taken := serial_taken s; log := log s |} =
        if decide (id' = id ∧ ¬ had n id) then None else pty_at id' s).
      { intros id'. unfold pty_at at 1. cbn [ptys]. rewrite pty_at_insert by (by eapply pty_at_lt). destruct (decide (id' = id)) as [->|Hne].
        - by rewrite decide_True by done. - by rewrite decide_False by (by intros [? _]). }
      split; [|exact Hat]. split; [..|done].
      * intros id' a'. rewrite Hat. case_decide as Hd; [done|]. intros Ha'. destruct (H1 id' a' Ha') as (q&Hq&?&?). exists q. split; [|done]. cbn.
        rewrite lookup_delete_ne; [done|]. intros <-. apply Hd. split; [by eapply H2|done].
      * intros id1 id2 a'. rewrite !Hat. do 2 (case_decide; [done|]). apply H2.
      * cbn. intros a' q [Hne Hq]%lookup_delete_Some. destruct (H3 a' q Hq) as [? (id'&Hid')]. split; [done|]. exists id'. rewrite Hat.
        rewrite decide_False; [done|]. intros [-> _]. congruence.
      * intros id' Hid'. rewrite Hat. rewrite decide_False by (by intros [-> ?]). by apply H4.
    + split; [done|]. intros id'. rewrite decide_False; [done|]. intros [_ Hh]. unfold had in Hh.
      unfold own, one in Em. rewrite decide_False in Em by (intros ?; apply Hh; by left).
      assert (¬ 0 < n true id + n false id) by (intros ?; apply Hh; by right). rewrite Em, Es in Ez. apply andb_false_iff in Ez as [?%Z.eqb_neq|?%Z.eqb_neq]; lia.
  - split; [done|]. intros id'. case_decide as Hd; [|done]. by destruct Hd as [-> _].
Qed.

Lemma life_freeing t id last w s : life w → polite w = true → calls w !! t = Some (Freeing id last) → same_refs (sys w) s →
  life (set_call t (Done (RBool last)) (free_if_dead id s) (fds w) w).
Proof.
  intros F P Hc Hs. assert (Hn : ∀ m i, counted m i (set_call t (Done (RBool last)) (free_if_dead id s) (fds w) w) = counted m i w).
  { intros m i. rewrite (counted_step _ _ _ _ _ _ _ _ Hc). cbn. lia. }
  pose proof (λ id, pty_at_ptys id (sys w) s (sr_ptys _ _ Hs)) as Ep.
  destruct (free_live id s (λ m i, counted m i w)) as [L Hat]; [by eapply live_same; [apply F|..]|]. eapply life_step; [done|done|exact Hc|..].
  - eapply live_same; [exact L|apply same_refs_refl|exact Hn].
  - intros id' a Ha Hh. rewrite Hat, decide_False by (intros [-> ?]; done). by rewrite Ep.
  - done.
  - done.
  - intros id'. rewrite Hat, Ep. case_decide as Hd; [by intros [? [=]]|]. intros Hid'. destruct (decide (held w id')) as [Hh|Hh]; [left; by eapply held_same|].
    right. right. split; [done|]. split; [done|]. intros [[=]|[? [= <- _]]]. by apply Hd.
Qed.

(** ** Descriptors are opened and closed *)

Lemma pty_place_ok a l id l' : place a l = (id, l') → (x ← l !! id; x) = None ∧ ∀ id', (x ← l' !! id'; x) = if decide (id' = id) then Some a else (x ← l !! id'; x).
Proof.
  revert id l'. induction l as [|x l IH]; intros id l'; cbn [place].
  - intros [= <- <-]. split; [done|]. intros [|id']; [done|]. by rewrite decide_False by done.
  - destruct x as [b|]; [|intros [= <- <-]; split; [done|]; intros [|id']; [done|]; by rewrite decide_False by done].
    destruct (place a l) as [i l1]. intros [= <- <-]. destruct (IH i l1 eq_refl) as [E1 E2]. split; [done|]. intros [|id']; [by rewrite decide_False by done|].
    cbn. rewrite E2. destruct (decide (id' = i)) as [->|Hne]; [by rewrite decide_True|by rewrite decide_False by congruence].
Qed.

(** A pair is made: its master is counted. *)
Lemma alloc_live uid s n : live s n → ∃ id s', alloc true uid s = (Some id, s') ∧ pty_at id s = None ∧ is_Some (pty_at id s') ∧
  (∀ id', id' ≠ id → pty_at id' s' = pty_at id' s) ∧
  ∀ n', (∀ m i, n' m i = n m i + one (i = id ∧ m = true)) → ranged n' → live s' n'.
Proof.
  intros L. pose proof L as [H1 H2 H3 H4 H5]. unfold alloc. destruct (place (next s) (ptys s)) as [id l] eqn:E. destruct (pty_place_ok _ _ _ _ E) as [E1 E2].
  exists id. eexists. split; [done|]. assert (Hfree : heap s !! next s = None).
  { destruct (heap s !! next s) as [p|] eqn:Ep; [|done]. destruct (H3 _ _ Ep). lia. }
  assert (Hnew : ∀ id', pty_at id' s ≠ Some (next s)) by (intros id' Ha; destruct (H1 id' _ Ha) as (p&Hp&_); congruence).
  assert (Hnh : ¬ had n id) by (intros Hh; destruct (H4 id Hh) as [? X]; unfold pty_at in X; congruence).
  set (s' := {| heap := _ |}). assert (Hat : ∀ id', pty_at id' s' = if decide (id' = id) then Some (next s) else pty_at id' s) by (intros id'; apply E2).
  split; [done|]. split; [by rewrite Hat, decide_True|]. split; [intros id' Hne; by rewrite Hat, decide_False|]. intros n' Hn Hr. split; [..|done].
  - intros id' a. rewrite Hat. case_decide as Hd.
    + intros [= <-]. subst id'. exists (pty_with SMaster uid). split; [apply lookup_insert_eq|]. rewrite !Hn. unfold own, one. cbn.
      rewrite (decide_True_pi (P := id = id ∧ true = true) (conj eq_refl eq_refl)). rewrite !decide_False; [|by intros [_ ?]|intros ?; apply Hnh; by left].
      pose proof (H5 true id). pose proof (H5 false id). assert (¬ 0 < n true id + n false id) by (intros ?; apply Hnh; by right). lia.
    + intros Ha. destruct (H1 id' a Ha) as (p&Hp&Em&Es). exists p. split; [cbn; rewrite lookup_insert_ne; [done|]; intros <-; by eapply Hnew|].
      rewrite !Hn. rewrite !one_false by (intros [? _]; congruence). lia.
  - intros id1 id2 a. rewrite !Hat. do 2 case_decide; intros E3 E4; [congruence|..|by eapply H2]; exfalso; [apply (Hnew id2)|apply (Hnew id1)]; congruence.
  - cbn. intros a p Hp. destruct (decide (a = next s)) as [->|Hne].
    + split; [lia|]. exists id. by rewrite Hat, decide_True.
    + rewrite lookup_insert_ne in Hp by congruence. destruct (H3 a p Hp) as [? (id'&Hid')]. split; [lia|]. exists id'. rewrite Hat, decide_False; [done|].
      intros ->. unfold pty_at in Hid'. congruence.
  - intros id' Hh. rewrite Hat. case_decide as Hd; [done|]. apply H4, (had_ext n n'); [|done]. intros m. rewrite Hn, one_false by (intros [? _]; congruence). lia.
Qed.

(** One end of a pair has one more or one less. *)
Lemma live_count s s' n n' id a p : live s n → pty_at id s = Some a → ptys s' = ptys s → next s' = next s → heap s' = <[a := p]> (heap s) →
  p_master_refs p = n' true id + own id → p_slave_refs p = n' false id → (∀ m id', id' ≠ id → n' m id' = n m id') → ranged n' → live s' n'.
Proof.
  intros [H1 H2 H3 H4 H5] Ha Ep En Eh Em Es Hother Hr. pose proof (λ id, pty_at_ptys id s s' Ep) as Hat. split; [..|done].
  - intros id' a'. rewrite Hat, Eh. intros Ha'. destruct (decide (id' = id)) as [->|Hne].
    + rewrite Ha in Ha'. injection Ha' as <-. exists p. by rewrite lookup_insert_eq.
    + destruct (H1 id' a' Ha') as (q&Hq&?&?). exists q. rewrite lookup_insert_ne by (intros <-; apply Hne; by eapply H2). by rewrite !Hother.
  - intros id1 id2 a'. rewrite !Hat. apply H2.
  - intros a' q. rewrite Eh, En. intros [[<- _]|[_ Hq]]%lookup_insert_Some; [|destruct (H3 a' q Hq) as [? (id'&?)]; split; [done|]; exists id'; by rewrite Hat].
    destruct (H1 id a Ha) as (q'&Hq'&_). destruct (H3 a q' Hq'). split; [done|]. exists id. by rewrite Hat.
  - intros id' Hh. rewrite Hat. destruct (decide (id' = id)) as [->|Hne]; [by eexists|]. apply H4, (had_ext n n'); [|done]. intros m. by apply Hother.
Qed.

Lemma alter_insert (h : gmap nat Pty) f a p : h !! a = Some p → alter f a h = <[a := f p]> h.
Proof. intros Hp. apply map_eq. intros b. destruct (decide (b = a)) as [->|Hne]; [by rewrite lookup_alter_eq, Hp, lookup_insert_eq|].
  by rewrite lookup_alter_ne, lookup_insert_ne by congruence.
Qed.

(** A descriptor more on an end: [master_ref], [slave_ref]. *)
Lemma ref_live f s n n' : live s n → is_Some (pty_at (fd_id f) s) → (∀ m i, n' m i = n m i + one (fd_id f = i ∧ is_master f = m)) → ranged n' →
  let s' := match f with FMaster id => master_ref id s | FSlave id _ => slave_ref id s end in live s' n' ∧ ptys s' = ptys s.
Proof.
  intros L [a Ha] Hn Hr. destruct (l_pair s n L _ _ Ha) as (p&Hp&Em&Es). pose proof (l_range s n L true (fd_id f)). pose proof (l_range s n L false (fd_id f)).
  pose proof (own_bounds (fd_id f)). assert (Hother : ∀ m id', id' ≠ fd_id f → n' m id' = n m id').
  { intros m id' Hne. rewrite Hn, one_false by (intros [? _]; congruence). lia. }
  destruct f as [id|id h]; cbn [fd_id is_master] in *; unfold master_ref, slave_ref; rewrite Ha; (split; [|done]);
    (eapply (live_count s _ n n' id a); [done|done|done|done|cbn; by apply alter_insert|..|done|done]); cbn;
    pose proof (Hr true id) as R1; pose proof (Hr false id) as R2; rewrite Hn in R1, R2 |- *; unfold one in R1, R2 |- *.
  - rewrite decide_True in R1 |- * by done. rewrite Z.mod_small by lia. lia.
  - rewrite decide_False by (by intros [_ ?]). lia.
  - rewrite decide_False by (by intros [_ ?]). lia.
  - rewrite decide_True in R2 |- * by done. rewrite Z.mod_small by lia. lia.
Qed.

(** A descriptor less: what is left is right, and the call that counted the
    last one out goes on to free the pair. *)
Lemma close_live f s n n' : live s n → (∀ m i, n' m i = n m i - one (fd_id f = i ∧ is_master f = m)) → ranged n' →
  ∃ s' c, close_fd f s = Some (s', c) ∧ live s' n' ∧ ptys s' = ptys s ∧ user c = None ∧ plain c = true ∧
  ((fd_id f < TERMS)%nat ∨ 0 < n' true (fd_id f) + n' false (fd_id f) ∨ frees (fd_id f) c).
Proof.
  intros L Hn Hr. pose proof (l_range s n L true (fd_id f)). pose proof (l_range s n L false (fd_id f)). pose proof (own_bounds (fd_id f)).
  pose proof (Hr true (fd_id f)) as R1. pose proof (Hr false (fd_id f)) as R2. rewrite Hn in R1, R2.
  assert (Hother : ∀ m id', id' ≠ fd_id f → n' m id' = n m id').
  { intros m id' Hne. rewrite Hn, one_false by (intros [? _]; congruence). lia. }
  assert (Hpos : 0 < n true (fd_id f) + n false (fd_id f)).
  { unfold one in R1, R2. destruct f; cbn [fd_id is_master] in *; [rewrite decide_True in R1 by done|rewrite decide_True in R2 by done]; lia. }
  destruct (l_held s n L (fd_id f)) as [a Ha]; [by right|]. destruct (l_pair s n L _ _ Ha) as (p&Hp&Em&Es).
  unfold close_fd. rewrite Ha. destruct f as [id|id h]; cbn [fd_id is_master] in *; unfold unref_master, unref_slave; rewrite Hp; cbn [mbind option_bind].
  all: pose proof (Hn true id) as N1; pose proof (Hn false id) as N2; unfold one in N1, N2, R1, R2.
  1: rewrite decide_True in N1, R1 by done; rewrite decide_False in N2, R2 by (by intros [_ ?]).
  2: rewrite decide_False in N1, R1 by (by intros [_ ?]); rewrite decide_True in N2, R2 by done.
  all: eexists _, _; split; [done|]; split; [|split; [done|]].
  - eapply (live_count s _ n n' id a); [done..|cbn; rewrite Z.mod_small by lia; lia|cbn; lia|done|done].
  - split; [by case_if|]. split; [by case_if|]. destruct (decide (id < TERMS)%nat) as [?|Ht]; [by left|]. right.
    assert (own id = 0) by (unfold own; by rewrite one_false). destruct (Z.eqb_spec (p_master_refs p) 1); [right; by left|left; lia].
  - eapply (live_count s _ n n' id a); [done..|cbn; lia|cbn; rewrite Z.mod_small by lia; lia|done|done].
  - split; [done|]. split; [done|]. right. right. right. by eexists.
Qed.

(** ** Every step of a polite run *)

Lemma held_ranged w id : ranged (λ m i, counted m i w) → ¬ held w id → counted true id w = 0 ∧ counted false id w = 0.
Proof. intros R Hn. pose proof (R true id). pose proof (R false id). assert (¬ 0 < counted true id w + counted false id w) by (intros ?; apply Hn; by right). cbn in *. lia. Qed.

(** The pair of a descriptor in the table is there. *)
Lemma fd_present f w : life w → polite w = true → f ∈ fds w → is_Some (pty_at (fd_id f) (sys w)).
Proof.
  intros F P Hf. pose proof (refs_pos (is_master f) _ _ f Hf eq_refl eq_refl) as Hp. destruct (decide (held w (fd_id f))) as [Hh|Hh]; [by apply (l_held _ _ (f_live w F))|].
  destruct (held_ranged w (fd_id f) (polite_ranged w P) Hh) as [E1 E2]. assert (Hc : claims (is_master f) (fd_id f) (calls w) < 0).
  { unfold counted in E1, E2. destruct (is_master f); lia. }
  destruct (claims_neg _ _ _ Hc) as [_ (t&Ht)%list_elem_of_lookup]. by eapply (f_opens w F).
Qed.

(** A call that begins on a pair. *)
Lemma life_begin t c w : life w → polite w = true → calls w !! t = Some Idle → plain c = true → (∀ a id, user c = Some (a, id) → pty_at id (sys w) = Some a) →
  life (set_call t c (sys w) (fds w) w).
Proof.
  intros F P E Hp Hu. destruct (plain_none c Hp) as [Ho Hc]. eapply life_same; [done|done|exact E|done|..|done| |].
  - intros m id. rewrite (counted_step _ _ _ _ _ _ _ _ E), Hc. cbn. lia.
  - by rewrite Ho.
  - intros id [[=]|[? [=]]].
Qed.

Lemma begin_pair id w k : (∀ a, user (k a) = Some (a, id) ∧ plain (k a) = true) →
  plain (with_pair id (sys w) k) = true ∧ ∀ a id', user (with_pair id (sys w) k) = Some (a, id') → pty_at id' (sys w) = Some a.
Proof.
  intros Hk. unfold with_pair. destruct (pty_at id (sys w)) as [b|] eqn:E; [|done]. destruct (Hk b) as [Hu Hp]. split; [done|]. rewrite Hu. by intros a id' [= <- <-].
Qed.

Lemma life_ctl t e id text w : life w → polite w = true → calls w !! t = Some Idle → life (set_call t (ctl_write e id text (sys w)) (sys w) (fds w) w).
Proof.
  intros F P E. assert (H : plain (ctl_write e id text (sys w)) = true ∧ ∀ a id', user (ctl_write e id text (sys w)) = Some (a, id') → pty_at id' (sys w) = Some a).
  { unfold ctl_write. destruct (pair_at id (sys w)) as [p|] eqn:Ep; [|done]. case_if; [done|]. destruct (ctl_parse _ text); [|done]. case_if; [done|]. by apply begin_pair. }
  apply life_begin; [done..|apply H|apply H].
Qed.

(** The counts of some ends change, and the table does not. *)
Lemma life_counts t c0 c s fs w : life w → polite w = true → calls w !! t = Some c0 → plain c = true → user c = None → ptys s = ptys (sys w) →
  live s (λ m id, counted m id (set_call t c s fs w)) → (∀ id, held w id → held (set_call t c s fs w) id ∨ frees id c) → (∀ id, ¬ frees id c0) →
  life (set_call t c s fs w).
Proof.
  intros F P E Hp Hu Ep L Hh Hf. pose proof (λ id, pty_at_ptys id _ _ Ep) as Hat. destruct (plain_none c Hp) as [Ho _]. eapply life_step; [done|done|exact E|done|..].
  - intros id a. by rewrite Hat.
  - by rewrite Hu.
  - by rewrite Ho.
  - intros id. rewrite Hat. intros Hid. destruct (decide (held w id)) as [Hd|Hd]; [destruct (Hh id Hd); auto|]. auto.
Qed.

Lemma held_more w w' id : (∀ m, counted m id w <= counted m id w') → held w id → held w' id.
Proof. intros H [?|?]; [by left|]. right. pose proof (H true). pose proof (H false). lia. Qed.

(** A copy of a descriptor, or a slave just stored, is counted. *)
Lemma life_ref t c0 c f fs w : life w → polite w = true → calls w !! t = Some c0 → plain c = true → user c = None → (∀ id, ¬ frees id c0) →
  is_Some (pty_at (fd_id f) (sys w)) → let s := match f with FMaster id => master_ref id (sys w) | FSlave id _ => slave_ref id (sys w) end in
  (∀ m i, counted m i (set_call t c s fs w) = counted m i w + one (fd_id f = i ∧ is_master f = m)) → polite (set_call t c s fs w) = true →
  life (set_call t c s fs w).
Proof.
  intros F P E Hp Hu Hf Hs s Hn P'. destruct (ref_live f _ _ _ (f_live w F) Hs Hn (polite_ranged _ P')) as [L Ep]. eapply life_counts; [done|done|exact E|done..| |done].
  intros id Hh. left. eapply held_more; [|exact Hh]. intros m. rewrite Hn. pose proof (one_bounds (fd_id f = id ∧ is_master f = m)). lia.
Qed.

Lemma life_closing t f s c w : life w → polite w = true → calls w !! t = Some (Closing f) → close_fd f (sys w) = Some (s, c) →
  polite (set_call t c s (fds w) w) = true → life (set_call t c s (fds w) w).
Proof.
  intros F P E Hc P'. assert (Hp : plain c = true).
  { unfold close_fd in Hc. destruct (pty_at _ _) as [a|]; [|by injection Hc as _ <-]. destruct f; [destruct (unref_master _ _) as [[last s1]|]|destruct (unref_slave _ _) as [[last s1]|]];
      try done; injection Hc as _ <-; by try case_if. }
  assert (Hn : ∀ m i, counted m i (set_call t c s (fds w) w) = counted m i w - one (fd_id f = i ∧ is_master f = m)).
  { intros m i. rewrite (counted_step _ _ _ _ _ _ _ _ E). rewrite (proj2 (plain_none c Hp)). cbn [claim]. lia. }
  destruct (close_live f _ _ _ (f_live w F) Hn (polite_ranged _ P')) as (s'&c'&E'&L&Ep&Hu&_&Hfr). rewrite E' in Hc. injection Hc as <- <-.
  eapply life_counts; [done|done|exact E|done..| |no_free]. intros id Hh. destruct (decide (id = fd_id f)) as [->|Hne].
  - destruct Hfr as [?|[?|?]]; [left; by left|left; by right|by right].
  - left. eapply held_more; [|exact Hh]. intros m. rewrite Hn, one_false by (intros [? _]; congruence). lia.
Qed.

Lemma life_open t uid id s w : life w → polite w = true → calls w !! t = Some Idle → alloc true uid (sys w) = (Some id, s) →
  polite (set_call t (MOpened id) s (fds w) w) = true → life (set_call t (MOpened id) s (fds w) w).
Proof.
  intros F P E Ha P'. destruct (alloc_live uid _ _ (f_live w F)) as (id'&s'&Ea&Hnone&_&Hat&L). rewrite Ea in Ha. injection Ha as -> ->.
  assert (Hn : ∀ m i, counted m i (set_call t (MOpened id) s (fds w) w) = counted m i w + one (i = id ∧ m = true)).
  { intros m i. rewrite (counted_step _ _ _ _ _ _ _ _ E). cbn [claim]. unfold one. destruct (decide (id = i ∧ m = true)), (decide (i = id ∧ m = true)); naive_solver lia. }
  eapply life_step; [done|done|exact E|..]; [by apply L, polite_ranged| |done|done|].
  - intros i a Hi _. rewrite Hat; [done|]. intros ->. congruence.
  - intros i Hi. destruct (decide (i = id)) as [->|Hne].
    + left. right. pose proof (polite_ranged w P true id). pose proof (polite_ranged w P false id). cbn in *. rewrite !Hn. unfold one. rewrite decide_True, decide_False by naive_solver. lia.
    + rewrite Hat in Hi by done. destruct (decide (held w i)) as [Hh|Hh]; [left|right; right; split; [done|]; split; [done|]; by intros [[=]|[? [=]]]].
      eapply held_more; [|exact Hh]. intros m. rewrite Hn, one_false by naive_solver. lia.
Qed.

Lemma life_start t e o w w' : life w → polite w = true → polite w' = true → exec (Starts t e o) w = Some w' → life w'.
Proof.
  intros F P P' H. cbn [exec] in H. destruct (calls w !! t) as [c0|] eqn:E; [|done]. cbn [mbind option_bind] in H. destruct c0; try done.
  destruct o as [room uid|id|f|f|id|sid|id h cap|id h data|id cap|id data|id data|id text]; cbn [start] in H.
  - destruct room; [|injection H as <-; by apply life_begin]. destruct (alloc_live uid _ _ (f_live w F)) as (id&s'&Ea&_). rewrite Ea in H. injection H as <-. by eapply life_open.
  - injection H as <-. unfold slave_exists in *. case_bool_decide as Hs; [|by apply life_begin].
    eapply life_same; [done|done|exact E|done|..|done| |no_free]; [intros m i; rewrite (counted_step _ _ _ _ _ _ _ _ E); cbn; lia|by intros i [= <-]].
  - case_bool_decide as Hf; [|done]. injection H as <-. eapply (life_ref t Idle _ f); [done|done|exact E|done|done|no_free|by apply fd_present| |done].
    intros m i. rewrite (counted_step _ _ _ _ _ _ _ _ E), refs_cons. cbn. lia.
  - case_bool_decide as Hf; [|done]. injection H as <-. eapply life_same; [done|done|exact E|done|..|done|done|no_free].
    intros m i. rewrite (counted_step _ _ _ _ _ _ _ _ E), refs_close by done. cbn. lia.
  - injection H as <-. eapply life_same; [done|done|exact E|apply same_refs_claim|..|done|done|no_free]. intros m i. rewrite (counted_step _ _ _ _ _ _ _ _ E). cbn. lia.
  - injection H as <-. eapply life_same; [done|done|exact E|apply (same_refs_end sid)|..|done|done|no_free]. intros m i. rewrite (counted_step _ _ _ _ _ _ _ _ E). cbn. lia.
  - case_bool_decide as Hf; [|done]. injection H as <-. case_if; [by apply life_begin|]. apply life_begin; [done..|by apply begin_pair|by apply begin_pair].
  - case_bool_decide as Hf; [|done]. injection H as <-. apply life_begin; [done..|by apply begin_pair|by apply begin_pair].
  - case_bool_decide as Hf; [|done]. injection H as <-. case_if; [by apply life_begin|]. apply life_begin; [done..|by apply begin_pair|by apply begin_pair].
  - case_bool_decide as Hf; [|done]. injection H as <-. apply life_begin; [done..|by apply begin_pair|by apply begin_pair].
  - case_bool_decide as Hf; [|done]. injection H as <-. apply life_begin; [done..|by apply begin_pair|by apply begin_pair].
  - injection H as <-. by apply life_ctl.
Qed.

Lemma life_go t e intr w w' : life w → polite w = true → polite w' = true → exec (Goes t e intr) w = Some w' → life w'.
Proof.
  intros F P P' H. cbn [exec] in H. destruct (calls w !! t) as [c|] eqn:E; [|done]. cbn [mbind option_bind] in H.
  destruct (go e t intr c (sys w)) as [[s c']|] eqn:Eg; [|done]. injection H as <-. destruct (calm c) eqn:Ec.
  - destruct (go_stays _ _ _ _ _ _ _ Eg Ec) as (Hs&Hu&Hf&Hp&Hp'). destruct (plain_none c Hp) as [_ Hc]. destruct (plain_none c' Hp') as [Ho' Hc'].
    eapply life_same; [done|done|exact E|done|..|by rewrite Ho'|exact Hf].
    + intros m i. rewrite (counted_step _ _ _ _ _ _ _ _ E), Hc, Hc'. lia.
    + intros a id Huc. eapply (f_calls w F); [exact E|]. by apply Hu.
  - destruct c; try done; cbn [go other_go] in Eg.
    + injection Eg as <- <-. apply life_freeing; [done..|]. case_if; [apply same_refs_notify|done].
    + injection Eg as <- <-. eapply (life_ref t _ _ (FSlave id 0)); [done|done|exact E|done|done|no_free|by eapply (f_opens w F)| |done].
      intros m i. rewrite (counted_step _ _ _ _ _ _ _ _ E). cbn [claim fd_id is_master]. unfold one. destruct (decide (id = i ∧ m = false)), (decide (id = i ∧ false = m)); naive_solver lia.
    + by eapply life_closing.
Qed.

Lemma life_store t full w w' : life w → polite w = true → exec (Stores t full) w = Some w' → life w'.
Proof.
  intros F P H. cbn [exec] in H. destruct (calls w !! t) as [c|] eqn:E; [|done]. cbn [mbind option_bind] in H. destruct c; try done; destruct full; injection H as <-.
  all: eapply life_same; [done|done|exact E|done| |done| |no_free]; try done.
  all: try (intros m i; rewrite (counted_step _ _ _ _ _ _ _ _ E), ?refs_cons; cbn [claim fd_id is_master]; unfold one; repeat case_decide; naive_solver lia).
  intros i [= <-]. by eapply (f_opens w F).
Qed.

Lemma life_exec l w w' : life w → polite w = true → polite w' = true → exec l w = Some w' → life w'.
Proof.
  intros F P P' H. destruct l as [t e o|t e intr|t full|t]; [by eapply life_start|by eapply life_go|by eapply life_store|].
  cbn [exec] in H. destruct (calls w !! t) as [c|] eqn:E; [|done]. cbn [mbind option_bind] in H. destruct c; try done. injection H as <-.
  eapply life_same; [done|done|exact E|done|..|done|done|no_free]. intros m i. rewrite (counted_step _ _ _ _ _ _ _ _ E). cbn. lia.
Qed.

Lemma boot_counts tasks m id : counted m id (boot tasks) = 0.
Proof. unfold counted, boot. cbn [fds calls]. induction tasks as [|k IH]; [done|exact IH]. Qed.

Lemma life_boot tasks : life (boot tasks).
Proof.
  assert (Hat : ∀ id, pty_at id init_terms = if decide (id < TERMS)%nat then Some id else None).
  { intros id. unfold pty_at, init_terms. cbn [ptys]. rewrite list_lookup_fmap. case_decide as Hd.
    - by rewrite lookup_seq_lt. - rewrite lookup_seq_ge by lia. done. }
  assert (Hheap : ∀ a p, heap init_terms !! a = Some p → (a < TERMS)%nat).
  { intros a p Hp. apply elem_of_list_to_map_2, list_elem_of_fmap in Hp as (id&[= -> ->]&Hid%elem_of_seq). lia. }
  split; [split| | |]; cbn [boot sys].
  - intros id a. rewrite Hat. case_decide as Hd; [|done]. intros [= <-]. exists (new_pty (if bool_decide (id = SERIAL) then SSerial else SScreen id)). split.
    + apply elem_of_list_to_map_1; [rewrite <- list_fmap_compose; apply (NoDup_fmap_2 _), NoDup_seq|]. apply list_elem_of_fmap. exists id. split; [done|]. apply elem_of_seq. lia.
    + rewrite !boot_counts. unfold own, one. by rewrite decide_True.
  - intros id1 id2 a. rewrite !Hat. do 2 (case_decide; [|done]). congruence.
  - intros a p Hp. pose proof (Hheap a p Hp). split; [done|]. exists a. by rewrite Hat, decide_True.
  - intros id [Hid|Hid]; [by rewrite Hat, decide_True|]. by rewrite !boot_counts in Hid.
  - intros m id. by rewrite boot_counts.
  - intros t c a id [-> _]%lookup_replicate. done.
  - intros t c id [-> _]%lookup_replicate. done.
  - intros id. rewrite Hat. case_decide; [|by intros [? [=]]]. intros _. left. by left.
Qed.

Lemma life_run ls w w' : life w → polite_run ls w = true → run ls w = Some w' → life w' ∧ polite w' = true.
Proof.
  revert w. induction ls as [|l ls IH]; intros w F; cbn [run polite_run]; intros [P Pr]%andb_true_iff; [by intros [= <-]|]. destruct (exec l w) as [w1|] eqn:E; [|done].
  apply IH; [|done]. eapply life_exec; [done..| |exact E]. destruct ls; cbn [polite_run] in Pr; by apply andb_true_iff in Pr as [? _].
Qed.
