(* ===== verification/PtyProps.v ===== *)
(** * Pairs of terminals: theorems

    What goes through a pair, how long a pair lives, the names of pairs; and
    runs in which calls that interleave do what they should not. *)

From S2P Require Import Prelude.
From stdpp Require Import gmap list.
From S2P Require Import Text Ring Tty TtyFacts TtyCtl Pty PtyFacts PtyRun PtyLife.

Open Scope string_scope.
Open Scope list_scope.
Open Scope Z_scope.

(** ** Output *)

(** C9: Whatever calls go on at once, on any pairs, the output of a pair is a queue: what its masters have read, or a flush has thrown away,
    followed by what the ring holds is exactly what was put in, in order, nothing lost, doubled or out of place. And a write to a slave that
    comes back having taken some bytes of its data has put in those bytes in order, a newline as CR LF where the settings ask for it
    (after extra CRs if the ring was all but full), all the data unless the master was closed or a signal came. *)
Theorem pty_output_exact tasks ls w : run ls (boot tasks) = Some w →
  (∀ a p, heap (sys w) !! a = Some p → put_of a (log (sys w)) = got_of a (log (sys w)) ++ content (p_out p)) ∧
  (∀ t a id nl data since n early tell, calls w !! t = Some (SWriteOut a id nl data since n early tell) →
    (n <= length data)%nat ∧ (early = false → n = length data) ∧
    ∃ out k, expands nl (take n data) out ∧ sent_by t a (drop since (log (sys w))) = out ++ replicate k 13 ∧ ((0 < k)%nat → nl = true ∧ data !! n = Some 10)).
Proof.
  intros H. destruct (pty_run_ok _ _ _ H (pty_boot_ok tasks)) as [G C]. split.
  - intros a p Hp. by destruct (g_pair _ G a p Hp).
  - intros t a id nl data since n early tell Hc. destruct (C t _ Hc) as (Hw&Hn&He). destruct Hw as (_&out&k&?&?&?). split; [done|]. split; [done|]. by exists out, k.
Qed.

(** Nobody has a session; every write is allowed. *)
Definition no_env : Env :=
  {| session_alive := λ _, false; task_pgid := λ _, None; getsid := λ _, None; current_pid := 0; console_size := (25, 80); may_write := λ _, true |}.

(** [n] steps of task [t]. *)
Definition goes (n t : nat) : list Label := replicate n (Goes t no_env false).

(** A task calls and its call returns after [n] steps. *)
Definition does (t : nat) (o : Op) (n : nat) : list Label := Starts t no_env o :: goes n t ++ [Returns t].

(** A task opens a master; a slave. *)
Definition opens_master (t : nat) : list Label := [Starts t no_env (OpenMaster true 0); Stores t false; Returns t].
Definition opens_slave (t id : nat) : list Label := [Starts t no_env (OpenSlave id); Stores t false; Goes t no_env false; Returns t].

Definition open_pair : list Label := opens_master 0 ++ opens_slave 1 10.

Definition demo : list Label := open_pair ++ Starts 1 no_env (WriteSlave 10 0 [104; 10]) :: goes 2 1 ++ does 0 (WriteMaster 10 [120]) 2 ++ goes 4 1.

Lemma pty_output_exact_witness : ∃ w p, run demo (boot 2) = Some w ∧ heap (sys w) !! 10%nat = Some p ∧ content (p_out p) = [120; 104; 13; 10] ∧
  put_of 10 (log (sys w)) = got_of 10 (log (sys w)) ++ content (p_out p) ∧ sent_by 1 10 (log (sys w)) = [104; 13; 10].
Proof.
  assert (Hv : (λ w, (content ∘ p_out <$> heap (sys w) !! 10%nat, sent_by 1 10 (log (sys w)))) <$> run demo (boot 2) = Some (Some [120; 104; 13; 10], [104; 13; 10]))
    by (vm_compute; reflexivity).
  destruct (run demo (boot 2)) as [w|] eqn:E; [|discriminate Hv]. destruct (pty_output_exact 2 demo w E) as [Hq _]. cbn [fmap option_fmap option_map] in Hv. injection Hv as Hp Hs.
  destruct (heap (sys w) !! 10%nat) as [p|] eqn:Ep; [|discriminate Hp]. injection Hp as Hp. exists w, p. split; [reflexivity|]. split; [exact Ep|]. split; [exact Hp|].
  split; [exact (Hq 10%nat p Ep)|exact Hs].
Defined.

(** ** Life *)

Definition busy (c : Call) : bool := match c with Idle | Done _ => false | _ => true end.

Lemma ctl_do_total e a id act s p : heap s !! a = Some p → out_ok (p_out p) → is_Some (ctl_do e a id act s).
Proof.
  intros Hp Ho. destruct act as [x|rows cols| |i o|path|n]; cbn [ctl_do]; rewrite ?Hp; try by eexists. cbn [mbind option_bind].
  assert (E : p_out (if i then set_term (flush_input (p_term p)) p else p) = p_out p) by (by destruct i). rewrite E. destruct o; [rewrite out_all by done|]; by eexists.
Qed.

(** A call whose pair is there can go on. *)
Lemma go_total e t intr c s : good s → call_ok t c s → busy c = true → (∀ id, c ≠ MOpened id ∧ c ≠ SOpening id) → (∀ a id, user c = Some (a, id) → is_Some (heap s !! a)) →
  (∀ f a, c = Closing f → pty_at (fd_id f) s = Some a → is_Some (heap s !! a)) → is_Some (go e t intr c s).
Proof.
  intros G Hc Hb Hop Hu Hf.
  destruct c as [| |a id h cap|a id h cap|id r|a id h data|a id data|a id nl data since n|a id nl data since n|a id nl data since n
                |a id nl data since n early tell|a id cap|a id cap|a id data|id v n|id|id last|ids|a id acts n|id|id|id|f]; try done;
    cbn [go slave_read_go slave_write_go master_read_go master_write_go other_go]; try by eexists.
  all: try (destruct (Hu a id eq_refl) as [p Hp]; destruct (g_pair s G a p Hp) as [[Ht Ho] _]; rewrite ?Hp; cbn [mbind option_bind]).
  all: try by eexists.
  - case_if; [by eexists|]. destruct (pops_ok (Z.to_nat cap) _ Ht) as (bs&t'&->&_). by eexists.
  - case_if; by eexists.
  - destruct Hc as [_ Hn]. apply lookup_lt_is_Some in Hn as [b ->]. cbn [mbind option_bind]. destruct (push_turn_ok nl b _ Ho) as (r&bs&o&->&_). by eexists.
  - cbn [call_ok] in Hc. destruct (out_take_ok cap _ Ho) as (bs&o&->&_); [lia|]. by eexists.
  - destruct (type_all_ok (p_sink p) (crlf p) data _ _ Ht Ho) as (v&bs&es&t'&o&->&_). by eexists.
  - destruct ids; by eexists.
  - destruct acts as [|act acts]; [by eexists|]. destruct (ctl_do_total e a id act s p Hp Ho) as [s' ->]. by eexists.
  - by destruct (Hop id).
  - by destruct (Hop id).
  - unfold close_fd. destruct (pty_at (fd_id f) s) as [a|] eqn:Ea; [|by eexists]. destruct (Hf f a eq_refl Ea) as [p Hp]. unfold unref_master, unref_slave. rewrite Hp.
    destruct f; by eexists.
Qed.

(** C10: In any run in which no pair loses its last counted descriptor while a call on it, or one that opens a slave of it, goes on, and no
    slave is counted out before it was counted in, a pair lives exactly as long as it is used. The counts of a pair are those of the
    descriptors open on its two ends, and of the calls just then opening or closing one ([counted]); every open descriptor's pair is in the
    table; a call that has begun can always go on, never touching a pair that was freed and never panicking; and every pair on the heap is in
    the table, a kernel terminal, counted, or about to be freed by the task that counted its last descriptor out, so none is leaked. *)
Theorem pairs_live_while_used tasks ls w : run ls (boot tasks) = Some w → polite_run ls (boot tasks) = true →
  (∀ id a, pty_at id (sys w) = Some a → ∃ p, heap (sys w) !! a = Some p ∧
    p_master_refs p = counted true id w + own id ∧ p_slave_refs p = counted false id w) ∧
  (∀ f, f ∈ fds w → is_Some (pty_at (fd_id f) (sys w))) ∧
  (∀ t c e intr full, calls w !! t = Some c → busy c = true → is_Some (exec (Goes t e intr) w) ∨ is_Some (exec (Stores t full) w)) ∧
  (∀ a p, heap (sys w) !! a = Some p → ∃ id, pty_at id (sys w) = Some a ∧ (held w id ∨ ∃ t c, calls w !! t = Some c ∧ frees id c)).
Proof.
  intros H P. destruct (pty_run_ok _ _ _ H (pty_boot_ok tasks)) as [G C]. destruct (life_run _ _ _ (life_boot tasks) P H) as [F Pw]. pose proof F as [L F2 F3 F4]. split_and!.
  - apply L.
  - intros f Hf. by apply fd_present.
  - intros t c e intr full Hc Hb. assert (Hpair : ∀ id a, pty_at id (sys w) = Some a → is_Some (heap (sys w) !! a)) by (intros id a (p&?&_)%(l_pair _ _ L); by exists p).
    destruct (decide (is_Some (exec (Stores t full) w))) as [?|Hn]; [by right|left]. cbn [exec] in *. rewrite Hc in Hn |- *. cbn [mbind option_bind] in *.
    destruct (go_total e t intr c (sys w) G (C t c Hc) Hb) as [[s c'] Eg].
    + intros id. split; intros ->; apply Hn; destruct full; by eexists.
    + intros a id Hu. by eapply Hpair, F2.
    + intros f a _. apply Hpair.
    + rewrite Eg. by eexists.
  - intros a p Hp. destruct (l_heap _ _ L a p Hp) as [_ [id Hid]]. exists id. split; [done|]. apply F4. by eexists.
Qed.

Definition close_pair : list Label := open_pair ++ does 0 (Close (FMaster 10)) 3 ++ [Starts 1 no_env (Close (FSlave 10 0)); Goes 1 no_env false].

Lemma pairs_live_while_used_witness : ∃ w, run close_pair (boot 2) = Some w ∧ polite_run close_pair (boot 2) = true ∧ fds w = [] ∧
  calls w !! 1%nat = Some (Freeing 10 true) ∧ is_Some (exec (Goes 1 no_env false) w).
Proof.
  assert (Hv : (λ w, (fds w, calls w !! 1%nat)) <$> run close_pair (boot 2) = Some ([], Some (Freeing 10 true))) by (vm_compute; reflexivity).
  assert (P : polite_run close_pair (boot 2) = true) by (vm_compute; reflexivity).
  destruct (run close_pair (boot 2)) as [w|] eqn:E; [|discriminate Hv]. destruct (pairs_live_while_used 2 close_pair w E P) as (_&_&Hg&_). injection Hv as Hf Hc.
  exists w. split; [reflexivity|]. split; [exact P|]. split; [exact Hf|]. split; [exact Hc|]. destruct (Hg 1%nat _ no_env false false Hc eq_refl) as [?|[? Hs]]; [assumption|].
  cbn [exec] in Hs. rewrite Hc in Hs. discriminate Hs.
Defined.

(** ** Names *)

Lemma digits_plain n : 0 <= n → forallb (λ c, (48 <=? c) && (c <=? 57)) (dec n) = true.
Proof.
  intros Hn. apply forallb_forall. intros c Hc%list_elem_of_In. pose proof (proj1 (Forall_forall _ _) (dec_digits n Hn) c Hc). cbn in *. lia.
Qed.

Lemma pts_roundtrip n rest s : 0 <= n → n + Z.of_nat TERMS < 2 ^ 64 → slave_exists (Z.to_nat (n + Z.of_nat TERMS)) s = true → (rest = [] ∨ ∃ r, rest = 47 :: r) →
  id_at (str "/dev/pts/" ++ dec n ++ rest) s = Some (Z.to_nat (n + Z.of_nat TERMS)).
Proof.
  intros Hn Hm Hs Hr. unfold id_at.
  change (strip_prefix (str "/dev/") (str "/dev/pts/" ++ dec n ++ rest)) with (Some (str "pts/" ++ dec n ++ rest)). cbn [mbind option_bind].
  change (split_once (λ c, c =? 47) (str "pts/" ++ dec n ++ rest)) with (Some (str "pts", dec n ++ rest)). cbn [default from_option id]. rewrite bool_decide_eq_true_2 by done.
  assert (Hw : hd_error (split_on (λ c, c =? 47) (dec n ++ rest)) = Some (dec n)).
  { rewrite split_on_word; [destruct Hr as [->|[r ->]]; cbn; by rewrite app_nil_r|]. eapply Forall_impl; [by apply dec_digits|]. cbn. lia. }
  rewrite Hw. cbn [mbind option_bind]. rewrite digits_plain by done. destruct (dec_nonempty n) as (c&d&Ed).
  assert (Hne : nonempty (dec n) = true) by (by rewrite Ed). rewrite Hne. cbn [negb orb].
  rewrite parse_uint_dec by (unfold U64_MAX, TERMS in *; lia). cbn [mbind option_bind]. unfold pts_id. rewrite fits_in by (unfold TERMS in *; lia). cbn [mbind option_bind]. by rewrite Hs.
Qed.

(** A path in the directory of a pair leads to the pair. *)
Lemma dir_roundtrip id rest s : slave_exists id s = true → Z.of_nat id < 2 ^ 64 → (rest = [] ∨ ∃ r, rest = 47 :: r) → id_at (dir id ++ rest) s = Some id.
Proof.
  intros Hs Hid Hr. destruct (decide (id < TERMS)%nat) as [Ht|Ht].
  - unfold TERMS in Ht. do 10 (destruct id as [|id]; [by destruct Hr as [->|[r ->]]|]). lia.
  - unfold dir. rewrite !bool_decide_eq_false_2 by (unfold SERIAL, TERMS in *; lia). rewrite <- app_assoc.
    assert (E : Z.to_nat (Z.of_nat (id - TERMS) + Z.of_nat TERMS) = id) by lia. rewrite pts_roundtrip; [by rewrite E|lia|lia|by rewrite E|done].
Qed.

(** ** Defects *)

(** A ring with one free place takes the CR of a newline and not its LF, and
    the loop begins the newline again: with a master that reads one byte at a
    time from a full ring, every read lets another CR in and never the LF. *)
Lemma newline_put_off o : out_ok o → o_len o = OUT_CAP → ∃ b o1 o2,
  out_take 1 o = Some ([b], o1) ∧ push_turn true 10 o1 = Some (TAgain, [13], o2) ∧ out_ok o2 ∧ o_len o2 = OUT_CAP.
Proof.
  intros H Hf. destruct (out_take_ok 1 o H ltac:(done)) as (bs&o1&E1&H1&Hc&Hl). rewrite Hf in Hl. change (Z.min 1 OUT_CAP) with 1 in Hl. destruct bs as [|b [|? ?]]; cbn [length] in Hl; [lia| |lia].
  pose proof (content_length _ H) as L0. pose proof (content_length _ H1) as L1. rewrite Hc in L0. cbn [length app] in L0.
  unfold push_turn. cbn [andb Z.eqb Pos.eqb]. destruct (out_push_ok 13 o1 H1) as (o2&E2&H2&Hc2). rewrite (proj2 (Z.ltb_lt (o_len o1) OUT_CAP)) in E2, Hc2 by lia. cbn iota in Hc2.
  pose proof (content_length _ H2) as L2. rewrite Hc2, length_app in L2. cbn [length] in L2.
  destruct (out_push_ok 10 o2 H2) as (o3&E3&H3&Hc3). rewrite (proj2 (Z.ltb_ge _ _)) in E3, Hc3 by lia. cbn iota in Hc3. pose proof (content_length _ H3) as L3. rewrite Hc3, app_nil_r, Hc2, length_app in L3. cbn [length] in L3.
  exists b, o1, o3. split; [done|]. rewrite E2. cbn [mbind option_bind]. rewrite E3. split; [done|]. split; [done|lia].
Qed.

(** The echo of 4096 bytes: 40 lines of 100 bytes and CR LF, and 16 bytes. *)
Definition fill : list Z := concat (replicate 40 (replicate 100 97 ++ [10])) ++ replicate 16 97.

(** Three reads of a byte by the master, while a slave writes a newline. *)
Definition slow_master : list Label := open_pair ++ does 0 (WriteMaster 10 fill) 2 ++ Starts 1 no_env (WriteSlave 10 0 [10]) :: goes 4 1 ++
  concat (replicate 3 (does 0 (ReadMaster 10 1) 2 ++ goes 5 1)).

Lemma newline_in_crs : (λ w, (calls w !! 1%nat, sent_by 1 10 (log (sys w)))) <$> run slow_master (boot 2) = Some (Some (SWriteFull 10 10 true [10] 2 0), [13; 13; 13]).
Proof. vm_compute. reflexivity. Qed.

(** A master waits for output; another thread closes the master, and the
    slave is closed: the pair is freed, and the read goes on with it. *)
Lemma pair_freed_under_read : (λ w, (calls w !! 0%nat, heap (sys w) !! 10%nat, go no_env 0 false (MReadTop 10 10 5) (sys w))) <$>
  run (open_pair ++ Starts 0 no_env (ReadMaster 10 5) :: goes 2 0 ++ does 1 (Close (FMaster 10)) 3 ++ does 1 (Close (FSlave 10 0)) 2) (boot 2) =
  Some (Some (MReadTop 10 10 5), None, None).
Proof. vm_compute. reflexivity. Qed.

(** A master finds the ring empty; then the slave writes and is closed; the
    read fails with the bytes still in the ring. *)
Lemma read_fails_before_drained : (λ w, (calls w !! 0%nat, (λ p, content (p_out p)) <$> heap (sys w) !! 10%nat)) <$>
  run (open_pair ++ Starts 0 no_env (ReadMaster 10 5) :: goes 1 0 ++ does 1 (WriteSlave 10 0 [98; 121; 101]) 9 ++ does 1 (Close (FSlave 10 0)) 2 ++ goes 1 0) (boot 2) =
  Some (Some (ReadOut 10 RFail), Some [98; 121; 101]).
Proof. vm_compute. reflexivity. Qed.

(** A session led by process 7. *)
Definition env7 : Env :=
  {| session_alive := λ _, true; task_pgid := Some; getsid := λ _, Some 7; current_pid := 7; console_size := (25, 80); may_write := λ _, true |}.

(** A master is closed; before its task signals the session, the pair is
    freed, its id is another pair's, and a session claims that: the new
    session is hung up. *)
Lemma next_session_hung_up : Killed 7 SIGHUP ∈ default [] ((λ w, log (sys w)) <$>
  run (open_pair ++ Starts 0 no_env (Close (FMaster 10)) :: goes 1 0 ++ does 1 (Close (FSlave 10 0)) 2 ++ opens_master 1 ++ Starts 1 env7 (Claim 10) :: [Goes 0 env7 false]) (boot 2)).
Proof. vm_compute. by repeat constructor. Qed.

(** A read of a terminal has looked whether it is hung up, and not yet taken
    bytes; a new session claims the terminal, and what is typed for it goes
    to the old reader. *)
Lemma dead_reader_gets_input : (λ w, (calls w !! 0%nat, hangups 1 (sys w))) <$>
  run (opens_slave 0 1 ++ Starts 0 no_env (ReadSlave 1 0 16) :: goes 1 0 ++ Starts 1 env7 (Claim 1) :: Returns 1 :: does 1 (Input 1 [112; 119; 10]) 2 ++ goes 1 0) (boot 2) =
  Some (Some (ReadOut 1 (RBytes [112; 119; 10])), 1).
Proof. vm_compute. reflexivity. Qed.

(** A slave is opened in parts: the pair is looked for, the descriptor is
    stored, its count goes up.  In between the pair can be freed and its id
    given to another, whose slave it is then. *)
Lemma open_gets_other_pair : (λ w, (fds w, (λ p, (p_opener p, p_slave_refs p)) <$> pair_at 10 (sys w))) <$>
  run (opens_master 0 ++ Starts 1 no_env (OpenSlave 10) :: does 0 (Close (FMaster 10)) 3 ++
       [Starts 0 no_env (OpenMaster true 7); Stores 0 false; Returns 0; Stores 1 false] ++ goes 1 1) (boot 2) = Some ([FSlave 10 0; FMaster 10], Some (7, 1)).
Proof. vm_compute. reflexivity. Qed.

(** A descriptor is stored before it is counted.  Another thread closes it in
    between: the pair's last master gone, the count goes below 0 and back,
    and the pair is never freed. *)
Lemma early_close_leaks : (λ w, (fds w, (λ c, match c with Idle => true | _ => false end) <$> calls w, refs_of <$> pair_at 10 (sys w))) <$>
  run (opens_master 0 ++ [Starts 1 no_env (OpenSlave 10); Stores 1 false] ++ does 0 (Close (FSlave 10 0)) 2 ++ does 0 (Close (FMaster 10)) 3 ++ goes 1 1 ++ [Returns 1]) (boot 2) =
  Some ([], [true; true], Some (0, 0)).
Proof. vm_compute. reflexivity. Qed.
