(* ===== verification/Input.v ===== *)
(** * Console input

    [kernel/src/input.rs]: the bytes of the serial port, staged by interrupts
    in a ring without a lock and folded into a terminal's input by whoever
    polls; and the console's own terminal, an input of [Tty.v].

    One task at a time drains the port ([UART_RX_LOCK]) and one at a time
    folds ([POLL_LOCK]), on any processors: a step is one access of the
    ring's head, tail or bytes.  An outer [None] is a panic. *)

From S2P Require Import Prelude.
From stdpp Require Import list.
From S2P Require Import Tty Pty.

Open Scope Z_scope.

Definition IRQ_RING : Z := 256.

(** ** The staging ring *)

(** Where [drain_uart_irq] is: before it reads the port; with a byte; with
    the head; having found the ring full; with the tail to move on; about to
    store the byte; about to move the head. *)
Inductive Drain : Set :=
  | DIdle | DGot (b : Z) | DHead (b h : Z) | DFull (b h : Z) | DTail (b h t : Z) | DStore (b h : Z) | DNext (h : Z).

(** Where [fold_irq_rx] is: before it loads the tail; with the tail; the ring
    being not empty; with a byte, its place not yet free; with a byte to hand
    on. *)
Inductive Fold : Set := FIdle | FTail (t : Z) | FLoad (t : Z) | FFree (t b : Z) | FHand (b : Z).

(** [received] is what the port gave, [handed] what went on to a terminal;
    [overrun]: the ring has been found full. *)
Record Stage : Set := {
  s_head : Z; s_tail : Z; s_buf : list Z; s_drain : Drain; s_fold : Fold; received : list Z; handed : list Z; overrun : bool }.

Definition stage_boot : Stage :=
  {| s_head := 0; s_tail := 0; s_buf := replicate (Z.to_nat IRQ_RING) 0; s_drain := DIdle; s_fold := FIdle; received := []; handed := []; overrun := false |}.

Definition drain_at (d : Drain) (s : Stage) : Stage :=
  {| s_head := s_head s; s_tail := s_tail s; s_buf := s_buf s; s_drain := d; s_fold := s_fold s; received := received s; handed := handed s; overrun := overrun s |}.

(** A part of [drain_uart_irq]; the port has [b] next when it is read. *)
Definition drain_go (b : Z) (s : Stage) : option Stage :=
  match s_drain s with
  | DIdle =>
      Some {| s_head := s_head s; s_tail := s_tail s; s_buf := s_buf s; s_drain := DGot b; s_fold := s_fold s; received := received s ++ [b];
              handed := handed s; overrun := overrun s |}
  | DGot b => Some (drain_at (DHead b (s_head s)) s)
  | DHead b h =>
      let full := (h + 1) mod IRQ_RING =? s_tail s in
      Some {| s_head := s_head s; s_tail := s_tail s; s_buf := s_buf s; s_drain := if full then DFull b h else DStore b h; s_fold := s_fold s;
              received := received s; handed := handed s; overrun := overrun s || full |}
  | DFull b h => Some (drain_at (DTail b h (s_tail s)) s)
  | DTail b h t =>
      Some {| s_head := s_head s; s_tail := (t + 1) mod IRQ_RING; s_buf := s_buf s; s_drain := DStore b h; s_fold := s_fold s;
              received := received s; handed := handed s; overrun := overrun s |}
  | DStore b h =>
      buf ← zset (s_buf s) h b;
      Some {| s_head := s_head s; s_tail := s_tail s; s_buf := buf; s_drain := DNext h; s_fold := s_fold s;
              received := received s; handed := handed s; overrun := overrun s |}
  | DNext h =>
      Some {| s_head := (h + 1) mod IRQ_RING; s_tail := s_tail s; s_buf := s_buf s; s_drain := DIdle; s_fold := s_fold s;
              received := received s; handed := handed s; overrun := overrun s |}
  end.

Definition fold_at (f : Fold) (s : Stage) : Stage :=
  {| s_head := s_head s; s_tail := s_tail s; s_buf := s_buf s; s_drain := s_drain s; s_fold := f; received := received s; handed := handed s; overrun := overrun s |}.

(** A part of [fold_irq_rx]. *)
Definition fold_go (s : Stage) : option Stage :=
  match s_fold s with
  | FIdle => Some (fold_at (FTail (s_tail s)) s)
  | FTail t => Some (fold_at (if t =? s_head s then FIdle else FLoad t) s)
  | FLoad t => b ← zget (s_buf s) t; Some (fold_at (FFree t b) s)
  | FFree t b =>
      Some {| s_head := s_head s; s_tail := (t + 1) mod IRQ_RING; s_buf := s_buf s; s_drain := s_drain s; s_fold := FHand b;
              received := received s; handed := handed s; overrun := overrun s |}
  | FHand b =>
      Some {| s_head := s_head s; s_tail := s_tail s; s_buf := s_buf s; s_drain := s_drain s; s_fold := FIdle;
              received := received s; handed := handed s ++ [b]; overrun := overrun s |}
  end.

(** What happens next. *)
Inductive Next : Set := Drains (b : Z) | Folds.

Definition stage_exec (l : Next) (s : Stage) : option Stage := match l with Drains b => drain_go b s | Folds => fold_go s end.

Fixpoint stage_run (ls : list Next) (s : Stage) : option Stage :=
  match ls with
  | [] => Some s
  | l :: ls => s ← stage_exec l s; stage_run ls s
  end.

(** ** The console's terminal *)

(** What the console shows, that its readers are woken, and that its
    foreground group is interrupted ([signal::handle_ctrl_c]). *)
Inductive Seen : Set := Echoed (b : Z) | Notified | Interrupted.

Record Console : Set := { c_tty : TtyIn; c_changes : Z; c_seen : list Seen }.

Definition push_byte (raw : Z) (c : Console) : option Console :=
  '(vintr, e, t) ← push_raw raw (c_tty c);
  Some {| c_tty := t; c_changes := (c_changes c + 1) mod 2 ^ 64;
          c_seen := c_seen c ++ (Echoed <$> e) ++ [Notified] ++ (if vintr : bool then [Interrupted] else []) |}.

(** A byte of the serial port: to the console, until [ttyS0] has the port. *)
Inductive Where : Set := ToConsole | ToTerminal (id : nat).

Definition serial_to (s : Sys) : Where := if serial_taken s then ToTerminal SERIAL else ToConsole.

(** A key, with screen [active] shown. *)
Definition key_to (active : nat) : Where := match active with O => ToConsole | _ => ToTerminal active end.

(** One turn of [read], for [n] bytes: what it takes; it waits when that is
    nothing. *)
Definition read_turn (n : nat) (c : Console) : option (list Z * Console) :=
  '(bs, t) ← pops n (c_tty c);
  Some (bs, {| c_tty := t; c_changes := c_changes c; c_seen := c_seen c |}).

Definition readable (c : Console) : bool := (0 <? available (c_tty c)) || eof (c_tty c).
