(* ===== verification/InputProps.v ===== *)
(** * Console input: theorems

    The staging ring hands on what the port gave, in order, as long as it has
    not been found full; and what happens when it has. *)

From S2P Require Import Prelude.
From stdpp Require Import list.
From S2P Require Import Ring Tty TtyFacts Pty PtyFacts Input.

Open Scope Z_scope.

(** ** No step panics *)

Definition place_in (i : Z) : Prop := 0 <= i < IRQ_RING.

Record stage_ok (s : Stage) : Prop := {
  so_head : place_in (s_head s);
  so_tail : place_in (s_tail s);
  so_buf : zlen (s_buf s) = IRQ_RING;
  so_drain : match s_drain s with DHead _ h | DFull _ h | DStore _ h | DNext h => place_in h | DTail _ h t => place_in h ∧ place_in t | _ => True end;
  so_fold : match s_fold s with FTail t | FLoad t | FFree t _ => place_in t | _ => True end }.

Lemma place_mod i : place_in (i mod IRQ_RING).
Proof. by apply Z.mod_pos_bound. Qed.

Lemma stage_exec_ok l s : stage_ok s → ∃ s', stage_exec l s = Some s' ∧ stage_ok s'.
Proof.
  intros [Hh Ht Hb Hd Hf]. destruct l as [b|]; cbn [stage_exec].
  - unfold drain_go. destruct (s_drain s) as [|x|x h|x h|x h t|x h|h] eqn:E.
    6: { unfold zset. rewrite (proj2 (Z.leb_le 0 h)), (proj2 (Z.ltb_lt h _)) by (unfold place_in in Hd; lia). eexists. split; [done|]. split; cbn; try done. by rewrite length_insert. }
    all: eexists; split; [done|]; split; cbn; try done; try apply place_mod.
    + by case_if.
    + by destruct Hd.
  - unfold fold_go. destruct (s_fold s) as [|t|t|t x|x] eqn:E; try (eexists; split; [done|]; split; cbn; try done; try apply place_mod; by try case_if).
    destruct (zget_is_some (s_buf s) t) as [x ->]; [unfold place_in in Hf; lia|]. eexists. split; [done|]. by split.
Qed.

(** ** The queue *)

(** The bytes in the ring. *)
Definition count (s : Stage) : Z := (s_head s - s_tail s) mod IRQ_RING.
Definition staged (s : Stage) : list Z := ring IRQ_RING (s_buf s) (s_tail s) (count s).

(** A byte on its way into the ring, and one on its way out. *)
Definition coming (s : Stage) : list Z :=
  match s_drain s with DIdle => [] | DGot b | DHead b _ | DFull b _ | DTail b _ _ | DStore b _ => [b] | DNext h => [s_buf s !!! Z.to_nat h] end.
Definition going (s : Stage) : list Z := match s_fold s with FHand b => [b] | _ => [] end.

Record fifo (s : Stage) : Prop := {
  q_all : received s = handed s ++ going s ++ staged s ++ coming s;
  q_drain : match s_drain s with
            | DHead _ h => h = s_head s
            | DStore _ h | DNext h => h = s_head s ∧ count s < IRQ_RING - 1
            | DFull _ _ | DTail _ _ _ => False
            | _ => True
            end;
  q_fold : match s_fold s with
           | FTail t => t = s_tail s
           | FLoad t => t = s_tail s ∧ 0 < count s
           | FFree t b => t = s_tail s ∧ 0 < count s ∧ s_buf s !! Z.to_nat t = Some b
           | _ => True
           end }.

Lemma staged_range s : 0 <= count s < IRQ_RING.
Proof. by apply Z.mod_pos_bound. Qed.

Lemma count_empty s : stage_ok s → count s = 0 ↔ s_tail s = s_head s.
Proof. intros [Hh Ht _ _ _]. unfold count, place_in, IRQ_RING in *. zdiv; lia. Qed.

Lemma count_full s : stage_ok s → (s_head s + 1) mod IRQ_RING ≠ s_tail s → count s < IRQ_RING - 1.
Proof. intros [Hh Ht _ _ _]. unfold count, place_in, IRQ_RING in *. zdiv; lia. Qed.

Lemma head_at s : stage_ok s → (s_tail s + count s) mod IRQ_RING = s_head s.
Proof. intros [Hh Ht _ _ _]. unfold count, place_in, IRQ_RING in *. zdiv; lia. Qed.

(** The head is past the bytes in the ring. *)
Lemma head_free s j : stage_ok s → 0 <= j < count s → (s_tail s + j) mod IRQ_RING ≠ s_head s.
Proof. intros [Hh Ht _ _ _]. unfold count, place_in, IRQ_RING in *. zdiv; lia. Qed.

Lemma drain_fifo b s s' : stage_ok s → fifo s → drain_go b s = Some s' → overrun s' = false → fifo s'.
Proof.
  intros Hok [Q1 Q2 Q3] H Ho. unfold drain_go in H. unfold coming in Q1. destruct (s_drain s) as [|x|x h|x h|x h t|x h|h] eqn:E; try done.
  - injection H as <-. split; cbn; [|done..]. rewrite Q1, app_nil_r, <- !app_assoc. done.
  - injection H as <-. by split.
  - injection H as <-. cbn in Ho. apply orb_false_iff in Ho as [_ Ho]. rewrite Ho. split; cbn; [done| |done]. split; [done|]. subst h. apply (count_full s); [done|]. by apply Z.eqb_neq.
  - destruct Q2 as [-> Hc]. unfold zset in H. destruct Hok as [Hh Ht Hb Hd Hf] eqn:EH. clear EH. case_if; [|done]. cbn [mbind option_bind] in H. injection H as <-.
    assert (Hs : staged (drain_at (DNext (s_head s)) s) = ring IRQ_RING (<[Z.to_nat (s_head s) := x]> (s_buf s)) (s_tail s) (count s)).
    { symmetry. apply ring_other; [done|done|done|]. intros j Hj. by apply head_free. }
    split; cbn; [|done|].
    + unfold staged, coming, count. cbn. fold (count s). rewrite <- Hs, Q1. do 4 f_equal. symmetry. apply list_lookup_total_insert_eq. unfold place_in in *. lia.
    + destruct (s_fold s) as [|t|t|t y|y]; try done. destruct Q3 as (->&Hn&Hy). split; [done|]. split; [done|].
      rewrite list_lookup_insert_ne; [done|]. assert (s_tail s ≠ s_head s) by (intros X; apply count_empty in X; [unfold count in *; cbn in *; lia|done]).
      unfold place_in in *. lia.
  - destruct Q2 as [-> Hc]. injection H as <-. pose proof (staged_range s) as Hr.
    assert (Hcount : ((s_head s + 1) mod IRQ_RING - s_tail s) mod IRQ_RING = count s + 1).
    { destruct Hok as [Hh Ht _ _ _]. unfold count, place_in, IRQ_RING in *. zdiv; lia. }
    split; cbn; [|done|].
    + assert (Hst : ring IRQ_RING (s_buf s) (s_tail s) (count s + 1) = staged s ++ [s_buf s !!! Z.to_nat (s_head s)])
        by (rewrite ring_app, ring_one, Z.mod_mod, head_at by (done || lia); done).
      unfold staged at 1, coming, count at 1. cbn. by rewrite Hcount, Hst, app_nil_r.
    + unfold count at 1 2. cbn. rewrite Hcount. destruct (s_fold s) as [|t|t|t y|y]; try done; destruct Q3; split; try done; try lia. split; [lia|by destruct_and!].
Qed.

Lemma fold_fifo s s' : stage_ok s → fifo s → fold_go s = Some s' → fifo s'.
Proof.
  intros Hok [Q1 Q2 Q3] H. unfold fold_go in H. unfold going in Q1. destruct (s_fold s) as [|t|t|t b|b] eqn:E.
  - injection H as <-. by split.
  - injection H as <-. subst t. destruct (Z.eqb_spec (s_tail s) (s_head s)) as [X|X]; (split; cbn; [done|done|]); [done|]. split; [done|]. pose proof (staged_range s).
    destruct (decide (count s = 0)) as [Hz|]; [by apply count_empty in Hz|unfold count in *; cbn; lia].
  - destruct Q3 as [-> Hn]. destruct (zget (s_buf s) (s_tail s)) as [b|] eqn:Eb; [|done]. cbn [mbind option_bind] in H. injection H as <-. split; cbn; try done.
    split; [done|]. split; [done|]. rewrite zget_lookup in Eb by (destruct Hok as [? [? ?] ? ? ?]; lia). done.
  - destruct Q3 as (->&Hn&Hb). injection H as <-. pose proof (staged_range s) as Hr. destruct Hok as [Hh Ht Hl Hd Hf].
    assert (Hcount : (s_head s - (s_tail s + 1) mod IRQ_RING) mod IRQ_RING = count s - 1).
    { unfold count, place_in, IRQ_RING in *. zdiv; lia. }
    split; cbn; [|unfold count; cbn; rewrite Hcount; destruct (s_drain s); try done; destruct Q2; (split; [done|lia])|done].
    unfold staged, coming, count at 1. cbn. rewrite Hcount, Q1. unfold staged. destruct (ring_cons IRQ_RING ltac:(done) (s_buf s) (s_tail s) (count s)) as (x&Hx&->); [done|done|done|].
    rewrite zget_lookup in Hx by (unfold place_in in *; lia). rewrite Hb in Hx. injection Hx as ->. done.
  - injection H as <-. split; cbn; [|done..]. by rewrite Q1, <- !app_assoc.
Qed.

Lemma overrun_stays l s s' : stage_exec l s = Some s' → overrun s' = false → overrun s = false.
Proof.
  destruct l as [b|]; cbn [stage_exec]; unfold drain_go, fold_go.
  - destruct (s_drain s) as [|x|x h|x h|x h t|x h|h]; try by intros [= <-]; cbn.
    + intros [= <-]. cbn. by intros [? _]%orb_false_iff.
    + destruct (zset (s_buf s) h x); [|done]. by intros [= <-].
  - destruct (s_fold s) as [|t|t|t x|x]; try by intros [= <-]. destruct (zget (s_buf s) t); [|done]. by intros [= <-].
Qed.

Lemma stage_run_ok ls s : stage_ok s → (overrun s = false → fifo s) → ∃ s', stage_run ls s = Some s' ∧ stage_ok s' ∧ (overrun s' = false → fifo s').
Proof.
  revert s. induction ls as [|l ls IH]; intros s Hok Hq; cbn [stage_run]; [by exists s|]. destruct (stage_exec_ok l s Hok) as (s1&E&Hok1). rewrite E. cbn [mbind option_bind].
  apply IH; [done|]. intros Ho. pose proof (Hq (overrun_stays l s s1 E Ho)) as Q. destruct l as [b|]; [exact (drain_fifo b s s1 Hok Q E Ho)|exact (fold_fifo s s1 Hok Q E)].
Qed.

(** C25: However the task that drains the serial port and the task that folds its bytes into a terminal interleave, access by access and with no lock
    between them, nothing panics, and as long as the ring has never been found full what is handed on is what the port gave, in order and
    without a gap: the bytes still on their way, 257 at most, are the rest, and there is none when both are done and the ring is empty. *)
Theorem staging_fifo ls : ∃ s, stage_run ls stage_boot = Some s ∧ (overrun s = false → ∃ rest, received s = handed s ++ rest ∧ (length rest <= 257)%nat ∧
  (s_drain s = DIdle → s_fold s = FIdle → s_head s = s_tail s → rest = [])).
Proof.
  destruct (stage_run_ok ls stage_boot) as (s&E&Hok&Hq); [by split|by split|]. exists s. split; [done|]. intros Ho. destruct (Hq Ho) as [Q _ _].
  exists (going s ++ staged s ++ coming s). split; [done|]. pose proof (staged_range s) as Hr. pose proof (ring_length IRQ_RING (s_buf s) (s_tail s) (count s) ltac:(lia)) as Hl. split.
  - rewrite !length_app. unfold staged. unfold IRQ_RING in *. assert (length (going s) <= 1)%nat by (unfold going; by destruct (s_fold s); cbn; lia).
    assert (length (coming s) <= 1)%nat by (unfold coming; by destruct (s_drain s); cbn; lia). lia.
  - intros Ed Ef Eh. unfold going, coming. rewrite Ed, Ef. cbn. rewrite app_nil_r. unfold staged. assert (count s = 0) as -> by (by apply count_empty). apply ring_nil.
Qed.

(** ** Defects *)

(** The bytes go through the port, [k] steps for each. *)
Definition drains (k : nat) (bs : list Z) : list Next := concat ((λ b, replicate k (Drains b)) <$> bs).

(** The ring is full; a fold has loaded the tail and its byte; five more
    bytes come in and move the tail on; the fold stores the tail it knows.
    Of 260 bytes 4 are handed on: not the oldest are lost but nearly all. *)
Lemma overrun_loses_ring : (λ s, (zlen (received s), handed s, s_head s =? s_tail s)) <$>
  stage_run (drains 5 (seqZ 0 255) ++ replicate 3 Folds ++ drains 7 [65; 66; 67; 68; 69] ++ replicate 17 Folds) stage_boot =
  Some (260, [0; 67; 68; 69], true).
Proof. vm_compute. reflexivity. Qed.

(** An end of input typed at the console makes it readable, and a read takes
    nothing and waits: [read] does not look at it. *)
Lemma console_eof_ignored n c : available (c_tty c) = 0 → tty_ok (c_tty c) → eof (c_tty c) = true → readable c = true ∧ read_turn n c = Some ([], c).
Proof.
  intros Ha Ht He. unfold readable. rewrite He, orb_true_r. split; [done|]. unfold read_turn. destruct c as [t ch seen]. cbn in *.
  assert (Hp : pops n t = Some ([], t)).
  { destruct n; [done|]. cbn [pops]. unfold pop. destruct (available_range t Ht) as (_&_&Hz&_). rewrite (proj1 Hz Ha), Z.eqb_refl. done. }
  by rewrite Hp.
Qed.
