(* ===== verification/Tmpfs.v ===== *)
(** * The in-memory file system

    [kernel/src/fs/tmpfs.rs]: files, directories, symbolic links and FIFOs in
    slots, found by two ordered maps, from a path and from an id to a slot.
    A path is its bytes, relative to the mount.  Every function takes the
    lock of the table once, so it is one step ([readlink] reads the count of
    links just before); the clock ([now], read before
    the lock) and the heap's answers to reservations are its arguments.  The
    named pipes are those of [Pipe.v].  An outer [None] is a panic. *)

From S2P Require Import Prelude Pipe Text.
From stdpp Require Import gmap sorting list.

Open Scope Z_scope.

Definition MAX_ENTRIES : Z := 16384.
Definition COMP_CAP : Z := 255.
Definition PATH_CAP : Z := 255.
Definition FILE_CAP : Z := 128 * 1024 * 1024.
Definition LINK_CAP : Z := 255.

Definition S_IFDIR : Z := 0x4000.
Definition S_IFREG : Z := 0x8000.
Definition S_IFLNK : Z := 0xA000.
Definition S_IFIFO : Z := 0x1000.

(** [b'/'] *)
Definition SLASH : Z := 47.

Inductive Kind : Set := Dir | File (data : list Z) | Symlink (target : list Z) | Fifo (pipe : nat).

Record Entry : Set := { e_id : Z; e_kind : Kind; e_atime : Z; e_mtime : Z }.

(** [free_slots] has the slot freed last first. *)
Record Tree := {
  slots : list (option Entry); free_slots : list nat; by_path : gmap (list Z) nat; by_id : gmap Z nat }.

(** The statics of the module. *)
Record Tmpfs := {
  tree : Tree; next_id : Z; root_atime : Z; root_mtime : Z; symlinks : Z; pipes : Pipe.State }.

Definition boot (pipes : Pipe.State) : Tmpfs :=
  {| tree := {| slots := []; free_slots := []; by_path := ∅; by_id := ∅ |}; next_id := 2; root_atime := 0; root_mtime := 0;
     symlinks := 0; pipes := pipes |}.

Definition set_tree (s : Tmpfs) (t : Tree) : Tmpfs :=
  {| tree := t; next_id := next_id s; root_atime := root_atime s; root_mtime := root_mtime s; symlinks := symlinks s; pipes := pipes s |}.

Definition set_root_times (s : Tmpfs) (a m : Z) : Tmpfs :=
  {| tree := tree s; next_id := next_id s; root_atime := a; root_mtime := m; symlinks := symlinks s; pipes := pipes s |}.

Definition set_symlinks (s : Tmpfs) (n : Z) : Tmpfs :=
  {| tree := tree s; next_id := next_id s; root_atime := root_atime s; root_mtime := root_mtime s; symlinks := n; pipes := pipes s |}.

Definition set_pipes (s : Tmpfs) (st : Pipe.State) : Tmpfs :=
  {| tree := tree s; next_id := next_id s; root_atime := root_atime s; root_mtime := root_mtime s; symlinks := symlinks s; pipes := st |}.

(** ** The table *)

Definition tree_len (t : Tree) : Z := Z.of_nat (size (by_path t)).

Definition slot (t : Tree) (i : nat) : option Entry := mjoin (slots t !! i).

Definition get (t : Tree) (path : list Z) : option Entry := i ← by_path t !! path; slot t i.

(** The entry in slot [i], changed by [f]: what is done through [slot_mut]
    and [get_mut]. *)
Definition modify (f : Entry → Entry) (i : nat) (t : Tree) : Tree :=
  match slot t i with
  | Some e => {| slots := <[i := Some (f e)]> (slots t); free_slots := free_slots t; by_path := by_path t; by_id := by_id t |}
  | None => t
  end.

Definition insert (path : list Z) (e : Entry) (t : Tree) : option Tree :=
  '(i, sl, fr) ← match free_slots t with
                 | i :: fr => if bool_decide (i < length (slots t))%nat then Some (i, <[i := Some e]> (slots t), fr) else None
                 | [] => Some (length (slots t), slots t ++ [Some e], [])
                 end;
  Some {| slots := sl; free_slots := fr; by_path := <[path := i]> (by_path t); by_id := <[e_id e := i]> (by_id t) |}.

Definition remove (path : list Z) (t : Tree) : option (option Entry * Tree) :=
  match by_path t !! path with
  | None => Some (None, t)
  | Some i =>
      x ← slots t !! i;
      match x with
      | None => Some (None, {| slots := slots t; free_slots := free_slots t; by_path := delete path (by_path t); by_id := by_id t |})
      | Some e =>
          Some (Some e, {| slots := <[i := None]> (slots t); free_slots := i :: free_slots t; by_path := delete path (by_path t);
                           by_id := delete (e_id e) (by_id t) |})
      end
  end.

Definition move_to (old new : list Z) (t : Tree) : Tree :=
  match by_path t !! old with
  | Some i => {| slots := slots t; free_slots := free_slots t; by_path := <[new := i]> (delete old (by_path t)); by_id := by_id t |}
  | None => t
  end.

(** The order of [String]: by bytes. *)
Fixpoint path_le (a b : list Z) : bool :=
  match a, b with
  | [], _ => true
  | _, [] => false
  | x :: a, y :: b => if x <? y then true else if y <? x then false else path_le a b
  end.

Definition path_order (a b : list Z) : Prop := path_le a b = true.
#[export] Instance path_order_dec a b : Decision (path_order a b) := decide (path_le a b = true).

Definition path_lt (a b : list Z) : bool := negb (path_le b a).

(** The keys of the ordered map. *)
Definition sorted_paths (t : Tree) : list (list Z) := merge_sort path_order (map_to_list (by_path t)).*1.

Fixpoint skip_while {A} (f : A → bool) (l : list A) : list A :=
  match l with [] => [] | x :: l' => if f x then skip_while f l' else l end.

Fixpoint take_while {A} (f : A → bool) (l : list A) : list A :=
  match l with [] => [] | x :: l' => if f x then x :: take_while f l' else [] end.

Definition starts_with (path pre : list Z) : bool := bool_decide (take (length pre) path = pre).

(** [path.as_bytes()[n]] of a longer path *)
Definition byte_at (path : list Z) (n : nat) : Z := default 0 (path !! n).

(** The paths below [dir]: the keys after it, without those that go on with
    a byte below a slash, as long as they go on with a slash. *)
Definition below (t : Tree) (dir : list Z) : list (list Z) :=
  let next path := starts_with path dir && (zlen dir <? zlen path) in
  take_while (λ p, next p && (byte_at p (length dir) =? SLASH))
    (skip_while (λ p, next p && (byte_at p (length dir) <? SLASH))
       (filter (λ p, path_lt dir p = true) (sorted_paths t))).

(** ** Paths *)

Definition valid_component (name : list Z) : bool :=
  nonempty name && negb (bool_decide (name = [46])) && negb (bool_decide (name = [46; 46])) && forallb (λ c, negb (c =? SLASH)) name &&
  (zlen name <=? COMP_CAP).

(** [path.contains("//")] *)
Fixpoint double_slash (path : list Z) : bool :=
  match path with
  | a :: ((b :: _) as rest) => ((a =? SLASH) && (b =? SLASH)) || double_slash rest
  | _ => false
  end.

Definition valid_rel_path (path : list Z) : bool :=
  if negb (nonempty path) || (PATH_CAP <? zlen path) || bool_decide (head path = Some SLASH) || bool_decide (last path = Some SLASH) then false
  else if double_slash path then false
  else forallb valid_component (split_on (λ c, c =? SLASH) path).

(** A path before and after its last slash. *)
Fixpoint rsplit (path : list Z) : option (list Z * list Z) :=
  match path with
  | [] => None
  | c :: p =>
      match rsplit p with
      | Some (a, b) => Some (c :: a, b)
      | None => if c =? SLASH then Some ([], p) else None
      end
  end.

Definition parent_of (path : list Z) : list Z := match rsplit path with Some (a, _) => a | None => [] end.

Definition is_dir (e : Entry) : bool := match e_kind e with Dir => true | _ => false end.
Definition is_file (e : Entry) : bool := match e_kind e with File _ => true | _ => false end.

Definition is_dir_path (t : Tree) (path : list Z) : bool :=
  negb (nonempty path) || match get t path with Some e => is_dir e | None => false end.

Definition has_children (t : Tree) (dir : list Z) : bool :=
  if negb (nonempty dir) then negb (tree_len t =? 0) else match below t dir with [] => false | _ => true end.

Definition parent_ok (t : Tree) (path : list Z) : bool := is_dir_path t (parent_of path).

(** The name of a file that is kept but unlinked: a NUL and its id. *)
Definition kept_name (id : Z) : list Z := 0 :: dec id.

Inductive At := AtPath (path : list Z) | AtId (id : Z).

Definition slot_at (t : Tree) (at_ : At) : option nat :=
  match at_ with
  | AtPath name => if valid_rel_path name then by_path t !! name else None
  | AtId id => by_id t !! id
  end.

Definition entry_at (t : Tree) (at_ : At) : option Entry := i ← slot_at t at_; slot t i.

(** ** The operations *)

(** [Entry::new] *)
Definition new_entry (k : Kind) (now : Z) (s : Tmpfs) : Entry * Tmpfs :=
  ({| e_id := next_id s; e_kind := k; e_atime := now; e_mtime := now |},
   {| tree := tree s; next_id := (next_id s + 1) mod 2 ^ 64; root_atime := root_atime s; root_mtime := root_mtime s;
      symlinks := symlinks s; pipes := pipes s |}).

Definition set_mtime (now : Z) (e : Entry) : Entry := {| e_id := e_id e; e_kind := e_kind e; e_atime := e_atime e; e_mtime := now |}.

(** A file's bytes changed at [now]. *)
Definition set_data (data : list Z) (now : Z) (e : Entry) : Entry :=
  {| e_id := e_id e; e_kind := File data; e_atime := e_atime e; e_mtime := now |}.

Definition touch_dir (dir : list Z) (now : Z) (s : Tmpfs) : Tmpfs :=
  if negb (nonempty dir) then set_root_times s (root_atime s) now
  else match by_path (tree s) !! dir with
       | Some i => set_tree s (modify (set_mtime now) i (tree s))
       | None => s
       end.

Definition file_id (name : list Z) (s : Tmpfs) : option Z := e_id <$> entry_at (tree s) (AtPath name).

Definition unlink_keep (name : list Z) (now : Z) (s : Tmpfs) : bool * Tmpfs :=
  match entry_at (tree s) (AtPath name) with
  | None => (false, s)
  | Some e =>
      if negb (is_file e) then (false, s)
      else (true, touch_dir (parent_of name) now (set_tree s (move_to name (kept_name (e_id e)) (tree s))))
  end.

Definition create_kept (now : Z) (s : Tmpfs) : option (option Z * Tmpfs) :=
  if MAX_ENTRIES <=? tree_len (tree s) then Some (None, s)
  else
    let '(e, s) := new_entry (File []) now s in
    t ← insert (kept_name (e_id e)) e (tree s);
    Some (Some (e_id e), set_tree s t).

Definition forget (id : Z) (s : Tmpfs) : option Tmpfs :=
  if bool_decide (is_Some (by_path (tree s) !! kept_name id))
  then '(_, t) ← remove (kept_name id) (tree s); Some (set_tree s t)
  else Some s.

(** The end of the calls that make an entry. *)
Definition add (name : list Z) (k : Kind) (now : Z) (s : Tmpfs) : option (bool * Tmpfs) :=
  let '(e, s) := new_entry k now s in
  t ← insert name e (tree s);
  Some (true, touch_dir (parent_of name) now (set_tree s t)).

Definition create (name : list Z) (now : Z) (s : Tmpfs) : option (bool * Tmpfs) :=
  if negb (valid_rel_path name) then Some (false, s)
  else match get (tree s) name with
       | Some e => Some (is_file e, s)
       | None =>
           if negb (parent_ok (tree s) name) then Some (false, s)
           else if MAX_ENTRIES <=? tree_len (tree s) then Some (false, s)
           else add name (File []) now s
       end.

Definition truncate (name : list Z) (now : Z) (s : Tmpfs) : bool * Tmpfs :=
  if negb (valid_rel_path name) then (false, s)
  else match by_path (tree s) !! name with
       | None => (false, s)
       | Some i =>
           match slot (tree s) i with
           | Some e => if is_file e then (true, set_tree s (modify (set_data [] now) i (tree s))) else (false, s)
           | None => (false, s)
           end
       end.

Inductive WriteError : Set := TooBig | NoSpace | Failed.

(** Whether the heap has room for [n] more bytes of a file: [try_reserve] and
    [try_reserve_exact]. *)
Record Heap := { try_reserve : Z → bool; try_reserve_exact : Z → bool }.

Definition set_size_at (heap : Heap) (at_ : At) (len : Z) (now : Z) (s : Tmpfs) : result WriteError () * Tmpfs :=
  if FILE_CAP <? len then (Err TooBig, s)
  else match slot_at (tree s) at_ with
       | None => (Err Failed, s)
       | Some i =>
           match slot (tree s) i with
           | Some {| e_kind := File data |} =>
               if (zlen data <? len) && negb (try_reserve_exact heap (len - zlen data)) then (Err NoSpace, s)
               else (Ok tt, set_tree s (modify (set_data (resize (Z.to_nat len) 0 data) now) i (tree s)))
           | _ => (Err Failed, s)
           end
       end.

Definition read_at (at_ : At) (pos : Z) (out : list Z) (s : Tmpfs) : option (Z * list Z) :=
  match entry_at (tree s) at_ with
  | Some {| e_kind := File data |} =>
      let n := Z.min (zlen out) (Z.max (zlen data - pos) 0) in
      if n =? 0 then Some (0, out)
      else src ← slice data pos (pos + n); out ← copy_slice out 0 n src; Some (n, out)
  | _ => Some (0, out)
  end.

Definition write_at (heap : Heap) (at_ : At) (pos : Z) (buf : list Z) (now : Z) (s : Tmpfs) : option (result WriteError Z * Tmpfs) :=
  match slot_at (tree s) at_ with
  | None => Some (Err Failed, s)
  | Some i =>
      match slot (tree s) i with
      | Some {| e_kind := File data |} =>
          match add64 pos (zlen buf) with
          | None => Some (Err TooBig, s)
          | Some end_ =>
              if FILE_CAP <? end_ then Some (Err TooBig, s)
              else
                let extra := end_ - zlen data in
                let ahead := Z.max (Z.min (zlen data) (2 ^ 20)) extra in
                ok ← (if zlen data <? end_
                      then room ← usub FILE_CAP (zlen data); Some (try_reserve heap (Z.min ahead room) || try_reserve_exact heap extra)
                      else Some true);
                if negb ok then Some (Err NoSpace, s)
                else
                  let data := if zlen data <? end_ then resize (Z.to_nat end_) 0 data else data in
                  data ← copy_slice data pos end_ buf;
                  Some (Ok (zlen buf), set_tree s (modify (set_data data now) i (tree s)))
          end
      | _ => Some (Err Failed, s)
      end
  end.

Definition mkfifo (name : list Z) (now : Z) (s : Tmpfs) : option (bool * Tmpfs) :=
  if negb (valid_rel_path name) then Some (false, s)
  else if bool_decide (is_Some (get (tree s) name)) || negb (parent_ok (tree s) name) || (MAX_ENTRIES <=? tree_len (tree s))
  then Some (false, s)
  else
    let '(id, st) := Pipe.alloc_named (pipes s) in
    let s := set_pipes s st in
    match id with None => Some (false, s) | Some id => add name (Fifo id) now s end.

Definition fifo_id (name : list Z) (s : Tmpfs) : option nat :=
  if negb (valid_rel_path name) then None
  else match get (tree s) name with Some {| e_kind := Fifo id |} => Some id | _ => None end.

Definition mkdir (name : list Z) (now : Z) (s : Tmpfs) : option (bool * Tmpfs) :=
  if negb (valid_rel_path name) then Some (false, s)
  else if bool_decide (is_Some (get (tree s) name)) then Some (false, s)
  else if negb (parent_ok (tree s) name) then Some (false, s)
  else if MAX_ENTRIES <=? tree_len (tree s) then Some (false, s)
  else add name Dir now s.

(** The end of the calls that take an entry away. *)
Definition drop_entry (name : list Z) (now : Z) (s : Tmpfs) : option (bool * Tmpfs) :=
  '(_, t) ← remove name (tree s);
  Some (true, touch_dir (parent_of name) now (set_tree s t)).

Definition rmdir (name : list Z) (now : Z) (s : Tmpfs) : option (bool * Tmpfs) :=
  if negb (valid_rel_path name) then Some (false, s)
  else match get (tree s) name with
       | None => Some (false, s)
       | Some e =>
           if negb (is_dir e) then Some (false, s)
           else if has_children (tree s) name then Some (false, s)
           else drop_entry name now s
       end.

Definition unlink (name : list Z) (now : Z) (s : Tmpfs) : option (bool * Tmpfs) :=
  if negb (valid_rel_path name) then Some (false, s)
  else match get (tree s) name with
       | None => Some (false, s)
       | Some e =>
           match e_kind e with
           | File _ => drop_entry name now s
           | Symlink _ => drop_entry name now (set_symlinks s ((symlinks s - 1) mod 2 ^ 64))
           | Fifo id => drop_entry name now (set_pipes s (Pipe.fifo_unlink (pipes s) id))
           | Dir => Some (false, s)
           end
       end.

(** The loop of [rename_locked] over the paths below a directory. *)
Fixpoint move_below (old new : list Z) (paths : list (list Z)) (t : Tree) : Tree :=
  match paths with
  | [] => t
  | p :: paths => move_below old new paths (move_to p (new ++ drop (length old) p) t)
  end.

Definition rename_locked (old new : list Z) (s : Tmpfs) : option (bool * Tmpfs) :=
  if starts_with new old && bool_decide (new !! length old = Some SLASH) then Some (false, s)
  else match get (tree s) old with
       | None => Some (false, s)
       | Some e =>
           match get (tree s) new with
           | Some dest =>
               if is_dir e || is_dir dest then Some (false, s)
               else
                 let s := match e_kind dest with Fifo id => set_pipes s (Pipe.fifo_unlink (pipes s) id) | _ => s end in
                 '(_, t) ← remove new (tree s);
                 Some (true, set_tree s (move_to old new t))
           | None =>
               if negb (parent_ok (tree s) new) then Some (false, s)
               else
                 let paths := if is_dir e then below (tree s) old else [] in
                 if existsb (λ p, PATH_CAP <? zlen new + zlen p - zlen old) paths then Some (false, s)
                 else Some (true, set_tree s (move_to old new (move_below old new paths (tree s))))
           end
       end.

Definition rename (old new : list Z) (now : Z) (s : Tmpfs) : option (bool * Tmpfs) :=
  if negb (valid_rel_path old) || negb (valid_rel_path new) then Some (false, s)
  else if bool_decide (old = new) then Some (true, s)
  else
    '(ok, s) ← rename_locked old new s;
    if negb ok then Some (false, s)
    else Some (true, touch_dir (parent_of new) now (touch_dir (parent_of old) now s)).

Definition symlink (target linkpath : list Z) (now : Z) (s : Tmpfs) : option (bool * Tmpfs) :=
  if negb (valid_rel_path linkpath) then Some (false, s)
  else if negb (nonempty target) || (LINK_CAP <? zlen target) then Some (false, s)
  else if bool_decide (is_Some (get (tree s) linkpath)) then Some (false, s)
  else if negb (parent_ok (tree s) linkpath) then Some (false, s)
  else if MAX_ENTRIES <=? tree_len (tree s) then Some (false, s)
  else
    '(ok, s) ← add linkpath (Symlink target) now s;
    Some (ok, set_symlinks s ((symlinks s + 1) mod 2 ^ 64)).

Definition has_symlinks (s : Tmpfs) : bool := negb (symlinks s =? 0).

Definition readlink (path buf : list Z) (s : Tmpfs) : option (option Z * list Z) :=
  if negb (has_symlinks s) || negb (valid_rel_path path) then Some (None, buf)
  else match get (tree s) path with
       | Some {| e_kind := Symlink target |} =>
           let n := Z.min (zlen target) (zlen buf) in
           src ← slice target 0 n; buf ← copy_slice buf 0 n src; Some (Some n, buf)
       | _ => Some (None, buf)
       end.

(** The names of a directory's entries, in order. *)
Definition child_names (t : Tree) (dir : list Z) : list (list Z) :=
  let no_slash (p : list Z) := forallb (λ c, negb (c =? SLASH)) p = true in
  if negb (nonempty dir) then filter (λ p, no_slash p ∧ head p ≠ Some 0) (sorted_paths t)
  else filter no_slash (drop (length dir + 1) <$> below t dir).

(** The loop that fills the buffer, a name and a newline a turn. *)
Fixpoint list_names (names : list (list Z)) (n : Z) (buf : list Z) : option (Z * list Z) :=
  match names with
  | [] => Some (n, buf)
  | name :: names =>
      if zlen buf <? n + (zlen name + 1) then Some (n, buf)
      else
        buf ← copy_slice buf n (n + zlen name) name;
        buf ← zset buf (n + zlen name) 10;
        list_names names (n + zlen name + 1) buf
  end.

Definition listdir_at (rel buf : list Z) (s : Tmpfs) : option (Z * list Z) :=
  let list_of (dir : list Z) :=
    if nonempty dir && negb (is_dir_path (tree s) dir) then Some (0, buf) else list_names (child_names (tree s) dir) 0 buf in
  if negb (nonempty rel) || bool_decide (rel = [46]) then list_of []
  else if valid_rel_path rel then list_of rel
  else Some (0, buf).

(** Without [dev], always 0 here. *)
Record StatInfo : Set := { mode : Z; st_size : Z; ino : Z; nlink : Z; st_mtime : Z; st_atime : Z }.

Definition stat_at (at_ : At) (s : Tmpfs) : option StatInfo :=
  e ← entry_at (tree s) at_;
  let '(mode_, len, links) := match e_kind e with
    | Dir => (Z.lor S_IFDIR 0x1ed, 0, 2)
    | File data => (Z.lor S_IFREG 0x1ed, zlen data, 1)
    | Symlink target => (Z.lor S_IFLNK 0x1ff, zlen target, 1)
    | Fifo _ => (Z.lor S_IFIFO 0x1a4, 0, 1)
    end in
  Some {| mode := mode_; st_size := len; ino := e_id e mod 2 ^ 32; nlink := links; st_mtime := e_mtime e; st_atime := e_atime e |}.

Definition stat (name : list Z) (s : Tmpfs) : option StatInfo :=
  if negb (nonempty name) || bool_decide (name = [46]) || bool_decide (name = [46; 46])
  then Some {| mode := Z.lor S_IFDIR 0x1ed; st_size := 0; ino := 1; nlink := 2; st_mtime := root_mtime s; st_atime := root_atime s |}
  else stat_at (AtPath name) s.

Definition set_times_at (at_ : At) (atime mtime : option Z) (s : Tmpfs) : bool * Tmpfs :=
  match slot_at (tree s) at_ with
  | None => (false, s)
  | Some i =>
      match slot (tree s) i with
      | None => (false, s)
      | Some _ =>
          (true, set_tree s (modify (λ e, {| e_id := e_id e; e_kind := e_kind e; e_atime := default (e_atime e) atime;
                                             e_mtime := default (e_mtime e) mtime |}) i (tree s)))
      end
  end.

Definition set_times (name : list Z) (atime mtime : option Z) (s : Tmpfs) : bool * Tmpfs :=
  if negb (nonempty name) || bool_decide (name = [46])
  then (true, set_root_times s (default (root_atime s) atime) (default (root_mtime s) mtime))
  else set_times_at (AtPath name) atime mtime s.

(** ** The calls, and what the rest of the kernel does with pipes *)

Inductive Op :=
  | FileId (name : list Z) | UnlinkKeep (name : list Z) (now : Z) | CreateKept (now : Z) | Forget (id : Z)
  | Create (name : list Z) (now : Z) | Truncate (name : list Z) (now : Z)
  | SetSize (heap : Heap) (at_ : At) (len now : Z) | Read (at_ : At) (pos : Z) (out : list Z)
  | Write (heap : Heap) (at_ : At) (pos : Z) (buf : list Z) (now : Z)
  | Mkfifo (name : list Z) (now : Z) | FifoId (name : list Z) | Mkdir (name : list Z) (now : Z) | Rmdir (name : list Z) (now : Z)
  | Unlink (name : list Z) (now : Z) | Rename (old new : list Z) (now : Z) | Link (target linkpath : list Z) (now : Z)
  | Readlink (path buf : list Z) | Listdir (rel buf : list Z) | Stat (name : list Z) | StatAt (at_ : At)
  | SetTimes (name : list Z) (atime mtime : option Z) | SetTimesAt (at_ : At) (atime mtime : option Z)
  | PipeOp (o : Pipe.op).

Inductive Answer :=
  | ADone | ABool (b : bool) | AId (id : option Z) | ASize (r : result WriteError ()) | AWritten (r : result WriteError Z)
  | ARead (n : Z) (out : list Z) | ALink (n : option Z) (buf : list Z) | APipe (p : option nat) | AStat (st : option StatInfo)
  | AReply (r : Pipe.reply).

Definition exec (o : Op) (s : Tmpfs) : option (Answer * Tmpfs) :=
  match o with
  | FileId name => Some (AId (file_id name s), s)
  | UnlinkKeep name now => let '(b, s) := unlink_keep name now s in Some (ABool b, s)
  | CreateKept now => '(i, s) ← create_kept now s; Some (AId i, s)
  | Forget id => s ← forget id s; Some (ADone, s)
  | Create name now => '(b, s) ← create name now s; Some (ABool b, s)
  | Truncate name now => let '(b, s) := truncate name now s in Some (ABool b, s)
  | SetSize heap at_ len now => let '(r, s) := set_size_at heap at_ len now s in Some (ASize r, s)
  | Read at_ pos out => '(n, out) ← read_at at_ pos out s; Some (ARead n out, s)
  | Write heap at_ pos buf now => '(r, s) ← write_at heap at_ pos buf now s; Some (AWritten r, s)
  | Mkfifo name now => '(b, s) ← mkfifo name now s; Some (ABool b, s)
  | FifoId name => Some (APipe (fifo_id name s), s)
  | Mkdir name now => '(b, s) ← mkdir name now s; Some (ABool b, s)
  | Rmdir name now => '(b, s) ← rmdir name now s; Some (ABool b, s)
  | Unlink name now => '(b, s) ← unlink name now s; Some (ABool b, s)
  | Rename old new now => '(b, s) ← rename old new now s; Some (ABool b, s)
  | Link target linkpath now => '(b, s) ← symlink target linkpath now s; Some (ABool b, s)
  | Readlink path buf => '(n, buf) ← readlink path buf s; Some (ALink n buf, s)
  | Listdir rel buf => '(n, buf) ← listdir_at rel buf s; Some (ARead n buf, s)
  | Stat name => Some (AStat (stat name s), s)
  | StatAt at_ => Some (AStat (stat_at at_ s), s)
  | SetTimes name atime mtime => let '(b, s) := set_times name atime mtime s in Some (ABool b, s)
  | SetTimesAt at_ atime mtime => let '(b, s) := set_times_at at_ atime mtime s in Some (ABool b, s)
  | PipeOp o => '(r, st) ← Pipe.exec o (pipes s); Some (AReply r, set_pipes s st)
  end.

Fixpoint exec_all (os : list Op) (s : Tmpfs) : option (list Answer * Tmpfs) :=
  match os with
  | [] => Some ([], s)
  | o :: os => '(a, s) ← exec o s; '(l, s) ← exec_all os s; Some (a :: l, s)
  end.
