(* ===== verification/TmpfsRep.v ===== *)
(** * The in-memory file system: its table as two maps

    The slots, the free list and the two indices of [Tmpfs.v] stand for two
    finite maps: from a path to an id, and from an id to an entry.  This file
    has the invariant that ties them, what each operation on the table does
    to the two maps, and that the range walk [below] finds exactly the paths
    under a directory. *)

From S2P Require Import Prelude Pipe Text.
From stdpp Require Import gmap sorting list.
From S2P Require Import Tmpfs.

Open Scope Z_scope.

(** ** The order of paths *)

Lemma path_le_refl a : path_le a a = true.
Proof. induction a as [|x a IH]; [done|]. cbn. by rewrite Z.ltb_irrefl. Qed.

Lemma path_le_total a b : path_le a b = true ∨ path_le b a = true.
Proof.
  revert b. induction a as [|x a IH]; intros [|y b]; cbn; auto. destruct (Z.ltb_spec x y); [by left|].
  destruct (Z.ltb_spec y x); [by right|]. apply IH.
Qed.

Lemma path_le_trans a b c : path_le a b = true → path_le b c = true → path_le a c = true.
Proof.
  revert b c. induction a as [|x a IH]; intros [|y b] [|z c]; cbn; try done.
  destruct (Z.ltb_spec x y), (Z.ltb_spec y z), (Z.ltb_spec x z); try done; try lia;
    destruct (Z.ltb_spec y x), (Z.ltb_spec z y), (Z.ltb_spec z x); try done; try lia. apply IH.
Qed.

Lemma path_le_antisym a b : path_le a b = true → path_le b a = true → a = b.
Proof.
  revert b. induction a as [|x a IH]; intros [|y b]; cbn; try done.
  destruct (Z.ltb_spec x y), (Z.ltb_spec y x); try done; try lia. intros H1 H2. f_equal; [lia|by apply IH].
Qed.

#[export] Instance path_order_total : Total path_order.
Proof. intros a b. apply path_le_total. Qed.
#[export] Instance path_order_trans : Transitive path_order.
Proof. intros a b c. apply path_le_trans. Qed.
#[export] Instance path_order_antisym : AntiSymm (=) path_order.
Proof. intros a b. apply path_le_antisym. Qed.

Lemma path_lt_ne a b : path_lt a b = true ↔ path_le a b = true ∧ a ≠ b.
Proof.
  unfold path_lt. rewrite negb_true_iff. split.
  - intros H. destruct (path_le_total a b) as [Hl|Hl]; [|congruence]. split; [done|]. intros ->. by rewrite path_le_refl in H.
  - intros [H Hn]. apply not_true_is_false. intros H'. by apply Hn, path_le_antisym.
Qed.

(** ** The paths under a directory *)

Definition under (dir p : list Z) : Prop := ∃ rest, p = dir ++ SLASH :: rest.

Lemma under_drop dir p : under dir p ↔ take (length dir + 1) p = dir ++ [SLASH].
Proof.
  split.
  - intros [rest ->]. rewrite take_app_ge by lia. by replace (length dir + 1 - length dir)%nat with 1%nat by lia.
  - intros E. exists (drop (length dir + 1) p). rewrite <- (take_drop (length dir + 1) p) at 1. by rewrite E, <- app_assoc.
Qed.

#[export] Instance under_dec dir p : Decision (under dir p).
Proof. refine (cast_if (decide (take (length dir + 1) p = dir ++ [SLASH]))); by rewrite under_drop. Defined.

Lemma under_ne dir p : under dir p → p ≠ dir.
Proof. intros [rest ->] E. apply (f_equal length) in E. rewrite length_app in E. cbn in E. lia. Qed.

Lemma starts_with_app path pre : starts_with path pre = true ↔ ∃ rest, path = pre ++ rest.
Proof.
  unfold starts_with. rewrite bool_decide_eq_true. split.
  - intros E. exists (drop (length pre) path). rewrite <- E at 1. by rewrite take_drop.
  - intros [rest ->]. by rewrite take_app_length.
Qed.

Lemma path_le_app a b c : path_le (a ++ b) (a ++ c) = path_le b c.
Proof. induction a as [|x a IH]; [done|]. cbn. by rewrite Z.ltb_irrefl. Qed.

(** The paths that go on from [dir] come together. *)
Lemma path_le_between dir p q rest : path_le dir p = true → path_le p q = true → q = dir ++ rest → ∃ r, p = dir ++ r.
Proof.
  intros H1 H2 ->. revert p H1 H2. induction dir as [|x dir IH]; intros p H1 H2; [by exists p|]. destruct p as [|y p]; [done|].
  cbn in H1, H2. destruct (Z.ltb_spec x y), (Z.ltb_spec y x); try done; try lia.
  destruct (IH p) as [r ->]; [done..|]. exists r. cbn. f_equal. lia.
Qed.

(** Where a path past [dir] goes on: before, at or after a slash. *)
Definition rank (dir p : list Z) : Z :=
  if starts_with p dir && (zlen dir <? zlen p)
  then if byte_at p (length dir) <? SLASH then 0 else if byte_at p (length dir) =? SLASH then 1 else 2
  else 2.

Lemma rank_cases dir p : path_lt dir p = true →
  (∃ c r, p = dir ++ c :: r ∧ rank dir p = if c <? SLASH then 0 else if c =? SLASH then 1 else 2) ∨
  ((∀ r, p ≠ dir ++ r) ∧ rank dir p = 2).
Proof.
  intros Hlt. unfold rank. destruct (starts_with p dir) eqn:E.
  - left. apply starts_with_app in E as [[|c r] ->]; [apply path_lt_ne in Hlt as [_ Hn]; by rewrite app_nil_r in Hn|].
    exists c, r. split; [done|]. rewrite length_app. cbn [length]. rewrite (proj2 (Z.ltb_lt _ _)) by lia. cbn [andb].
    unfold byte_at. rewrite lookup_app_r, Nat.sub_diag by lia. done.
  - right. split; [|done]. intros r ->. apply not_true_iff_false in E. apply E, starts_with_app. by exists r.
Qed.

Lemma rank_under dir p : path_lt dir p = true → rank dir p = 1 ↔ under dir p.
Proof.
  intros Hlt. destruct (rank_cases dir p Hlt) as [(c&r&->&->)|[Hn ->]].
  - unfold SLASH. destruct (Z.ltb_spec c 47); [|destruct (Z.eqb_spec c 47) as [->|]]; (split; [try done|try done]).
    + intros [rest E%app_inv_head]. injection E. unfold SLASH. lia.
    + intros _. by exists r.
    + intros [rest E%app_inv_head]. injection E. unfold SLASH. lia.
  - split; [done|]. intros [rest ->]. by destruct (Hn (SLASH :: rest)).
Qed.

Lemma rank_mono dir p q : path_lt dir p = true → path_lt dir q = true → path_le p q = true → rank dir p <= rank dir q.
Proof.
  intros Hp Hq Hle. destruct (rank_cases dir q Hq) as [(c&r&->&->)|[_ ->]].
  - apply path_lt_ne in Hp as [Hp Hne]. destruct (path_le_between dir p _ _ Hp Hle eq_refl) as [[|c' r'] ->]; [by rewrite app_nil_r in Hne|].
    rewrite path_le_app in Hle. cbn in Hle.
    assert (c' <= c) by (destruct (Z.ltb_spec c' c), (Z.ltb_spec c c'); (done || lia)).
    destruct (rank_cases dir (dir ++ c' :: r')) as [(c2&r2&E%app_inv_head&->)|[Hn _]].
    + apply path_lt_ne. split; [done|]. intros E. rewrite <- (app_nil_r dir) in E at 1. by apply app_inv_head in E.
    + injection E as <- <-. unfold SLASH. repeat case_if; bool_hyps; lia.
    + by destruct (Hn (c' :: r')).
  - destruct (rank_cases dir p Hp) as [(c&r&_&->)|[_ ->]]; [|lia]. repeat case_if; lia.
Qed.

Lemma filter_nothing {A} (P : A → Prop) `{∀ x, Decision (P x)} l : Forall (λ x, ~ P x) l → filter P l = [].
Proof. induction 1 as [|x l Hx _ IH]; [done|]. by rewrite filter_cons_False. Qed.

(** A walk over a list sorted by rank. *)
Lemma take_filter {A} (r : A → Z) l : Forall (λ x, 1 <= r x) l → StronglySorted (λ a b, r a <= r b) l →
  take_while (λ x, r x =? 1) l = filter (λ x, r x = 1) l.
Proof.
  intros Hr. induction 1 as [|x l Hs IH Hx]; [done|]. apply Forall_cons in Hr as [H1 Hr]. cbn [take_while].
  destruct (Z.eqb_spec (r x) 1) as [E|E]; [rewrite filter_cons_True by done; f_equal; by apply IH|].
  rewrite filter_cons_False by done. symmetry. apply filter_nothing. eapply Forall_impl; [exact Hx|]. cbn. lia.
Qed.

Lemma walk_filter {A} (r : A → Z) l : Forall (λ x, 0 <= r x) l → StronglySorted (λ a b, r a <= r b) l →
  take_while (λ x, r x =? 1) (skip_while (λ x, r x =? 0) l) = filter (λ x, r x = 1) l.
Proof.
  intros Hr. induction 1 as [|x l Hs IH Hx]; [done|]. apply Forall_cons in Hr as [H1 Hr]. cbn [skip_while].
  destruct (Z.eqb_spec (r x) 0) as [E|E]; [rewrite filter_cons_False by lia; by apply IH|].
  apply take_filter; [|by constructor]. constructor; [lia|]. eapply Forall_impl; [exact Hx|]. cbn. lia.
Qed.

Lemma sorted_paths_elem t p : p ∈ sorted_paths t ↔ is_Some (by_path t !! p).
Proof.
  unfold sorted_paths. rewrite merge_sort_Permutation, list_elem_of_fmap. split.
  - intros ([q i]&->&Hi%elem_of_map_to_list). by exists i.
  - intros [i Hi]. exists (p, i). by rewrite elem_of_map_to_list.
Qed.

Lemma sorted_paths_nodup t : NoDup (sorted_paths t).
Proof. unfold sorted_paths. rewrite merge_sort_Permutation. apply NoDup_fst_map_to_list. Qed.

Lemma sorted_paths_sorted t : StronglySorted path_order (sorted_paths t).
Proof. apply StronglySorted_merge_sort; apply _. Qed.

Lemma StronglySorted_filter {A} (R : A → A → Prop) (P : A → Prop) `{∀ x, Decision (P x)} l :
  StronglySorted R l → StronglySorted R (filter P l).
Proof.
  induction 1 as [|x l Hs IH Hx]; [constructor|]. rewrite filter_cons. destruct (decide (P x)); [|done]. constructor; [done|].
  apply Forall_forall. intros y [_ Hy]%list_elem_of_filter. by eapply Forall_forall in Hx.
Qed.

Lemma take_while_ext {A} (f g : A → bool) l : (∀ x, x ∈ l → f x = g x) → take_while f l = take_while g l.
Proof.
  induction l as [|x l IH]; intros H; [done|]. cbn. rewrite (H x) by constructor. destruct (g x); [|done]. f_equal. apply IH.
  intros y Hy. apply H. by constructor.
Qed.

Lemma skip_while_ext {A} (f g : A → bool) l : (∀ x, x ∈ l → f x = g x) → skip_while f l = skip_while g l.
Proof.
  induction l as [|x l IH]; intros H; [done|]. cbn. rewrite (H x) by constructor. destruct (g x); [|done]. apply IH.
  intros y Hy. apply H. by constructor.
Qed.

(** The range walk finds the paths under the directory. *)
Lemma below_filter t dir : below t dir = filter (under dir) (sorted_paths t).
Proof.
  unfold below. set (l := filter (λ p, path_lt dir p = true) (sorted_paths t)).
  assert (Hl : Forall (λ p, path_lt dir p = true) l) by (apply Forall_forall; intros p [Hp _]%list_elem_of_filter; done).
  assert (Hs : StronglySorted path_order l) by apply StronglySorted_filter, sorted_paths_sorted.
  transitivity (take_while (λ p, rank dir p =? 1) (skip_while (λ p, rank dir p =? 0) l)).
  { rewrite (skip_while_ext _ (λ p, rank dir p =? 0)). { apply take_while_ext. intros p _. unfold rank. by repeat case_if; bool_hyps; try lia. }
    intros p _. unfold rank. by repeat case_if; bool_hyps; try lia. }
  rewrite walk_filter.
  - subst l. rewrite list_filter_filter. apply list_filter_iff. intros p. split.
    + intros [H1 H2]. by apply rank_under in H1.
    + intros Hu. assert (Hlt : path_lt dir p = true); [|by rewrite rank_under].
      apply path_lt_ne. split; [|by apply not_eq_sym, under_ne]. destruct Hu as [rest ->]. rewrite <- (app_nil_r dir) at 1. by rewrite path_le_app.
  - apply Forall_forall. intros p _. unfold rank. repeat case_if; lia.
  - clear -Hl Hs. induction Hs as [|p l Hs IH Hp]; [constructor|]. apply Forall_cons in Hl as [H1 Hl]. constructor; [by apply IH|].
    apply Forall_forall. intros q Hq. apply rank_mono; [done|by eapply Forall_forall in Hl|by eapply Forall_forall in Hp].
Qed.

(** ** The table and its two maps *)

Record rep_ok (t : Tree) : Prop := {
  rep_path : ∀ p i, by_path t !! p = Some i → is_Some (slot t i);
  rep_inj : ∀ p q i, by_path t !! p = Some i → by_path t !! q = Some i → p = q;
  rep_named : ∀ i e, slot t i = Some e → ∃ p, by_path t !! p = Some i;
  rep_id : ∀ k i, by_id t !! k = Some i ↔ e_id <$> slot t i = Some k;
  rep_free : NoDup (free_slots t);
  rep_empty : ∀ i, i ∈ free_slots t → slots t !! i = Some None }.

(** From a path to an id, and from an id to an entry. *)
Definition names (t : Tree) : gmap (list Z) Z := omap (λ i, e_id <$> slot t i) (by_path t).
Definition nodes (t : Tree) : gmap Z Entry := omap (slot t) (by_id t).

Lemma names_lookup t p : names t !! p = (i ← by_path t !! p; e_id <$> slot t i).
Proof. unfold names. by rewrite lookup_omap. Qed.

Lemma nodes_lookup t k : nodes t !! k = (i ← by_id t !! k; slot t i).
Proof. unfold nodes. by rewrite lookup_omap. Qed.

Lemma nodes_slot t k e : rep_ok t → nodes t !! k = Some e ↔ e_id e = k ∧ ∃ i, slot t i = Some e.
Proof.
  intros Hr. rewrite nodes_lookup. split.
  - destruct (by_id t !! k) as [i|] eqn:E; [|done]. cbn. intros Hs. apply (rep_id t Hr) in E. rewrite Hs in E. injection E as E. eauto.
  - intros (<-&i&Hs). assert (E : by_id t !! e_id e = Some i) by (apply (rep_id t Hr); by rewrite Hs). by rewrite E.
Qed.

Lemma names_slot t p k : rep_ok t → names t !! p = Some k ↔ ∃ i e, by_path t !! p = Some i ∧ slot t i = Some e ∧ e_id e = k.
Proof.
  intros Hr. rewrite names_lookup. split.
  - destruct (by_path t !! p) as [i|] eqn:E; [|done]. cbn. destruct (slot t i) as [e|] eqn:Es; [|done]. intros [= <-]. eauto.
  - intros (i&e&->&E&<-). cbn. by rewrite E.
Qed.

Lemma names_some t p : rep_ok t → is_Some (names t !! p) ↔ is_Some (by_path t !! p).
Proof.
  intros Hr. rewrite names_lookup. destruct (by_path t !! p) as [i|] eqn:E; [|by split; intros []]. cbn.
  destruct (rep_path t Hr _ _ E) as [e ->]. cbn. split; by eexists.
Qed.

Lemma get_nodes t p : rep_ok t → get t p = (k ← names t !! p; nodes t !! k).
Proof.
  intros Hr. rewrite names_lookup. unfold get. destruct (by_path t !! p) as [i|] eqn:E; [|done]. cbn.
  destruct (rep_path t Hr _ _ E) as [e Es]. rewrite Es. cbn. symmetry. apply nodes_slot; [done|]. eauto.
Qed.

Lemma tree_len_names t : rep_ok t → tree_len t = Z.of_nat (size (names t)).
Proof.
  intros Hr. unfold tree_len. f_equal. rewrite <- !(size_dom (D := gset (list Z))). f_equal. apply leibniz_equiv. intros p.
  rewrite !elem_of_dom. by rewrite names_some.
Qed.

(** A map and its two views change together. *)
Lemma views_eq t m n : (∀ p, names t !! p = m !! p) → (∀ k, nodes t !! k = n !! k) → names t = m ∧ nodes t = n.
Proof. intros H1 H2. split; by apply map_eq. Qed.

Lemma slot_lookup t i e : slot t i = Some e ↔ slots t !! i = Some (Some e).
Proof. unfold slot. destruct (slots t !! i) as [[x|]|]; cbn; split; congruence. Qed.

Lemma slot_insert (sl : list (option Entry)) i x j : (i < length sl)%nat → mjoin (<[i := x]> sl !! j) = if decide (j = i) then x else mjoin (sl !! j).
Proof.
  intros Hi. destruct (decide (j = i)) as [->|Hn]; [by rewrite list_lookup_insert_eq|by rewrite list_lookup_insert_ne].
Qed.

Lemma slot_bound t i e : slot t i = Some e → (i < length (slots t))%nat.
Proof. rewrite slot_lookup. apply lookup_lt_Some. Qed.

Lemma modify_rep f i e t : rep_ok t → slot t i = Some e → e_id (f e) = e_id e →
  rep_ok (modify f i t) ∧ names (modify f i t) = names t ∧ nodes (modify f i t) = <[e_id e := f e]> (nodes t).
Proof.
  intros Hr Hs Hid. pose proof (slot_bound _ _ _ Hs) as Hb. unfold modify. rewrite Hs. set (t' := {| slots := _ |}).
  assert (Sl : ∀ j, slot t' j = if decide (j = i) then Some (f e) else slot t j) by (intros j; by apply slot_insert).
  assert (Hid' : ∀ j, e_id <$> slot t' j = e_id <$> slot t j).
  { intros j. rewrite Sl. destruct (decide (j = i)) as [->|]; [|done]. rewrite Hs. cbn. by rewrite Hid. }
  assert (Hr' : rep_ok t').
  { split; cbn [by_path by_id free_slots].
    - intros p j Hj. apply (rep_path t Hr) in Hj. rewrite Sl. by destruct (decide (j = i)).
    - apply Hr.
    - intros j e' Hj. rewrite Sl in Hj. destruct (decide (j = i)) as [->|]; by eapply (rep_named t Hr).
    - intros k j. rewrite Hid'. apply Hr.
    - apply Hr.
    - intros j Hj. apply (rep_empty t Hr) in Hj. cbn. rewrite list_lookup_insert_ne; [done|]. intros <-. apply slot_lookup in Hs. congruence. }
  split; [done|]. apply views_eq.
  - intros p. rewrite !names_lookup. cbn [by_path t']. destruct (by_path t !! p); [|done]. cbn. apply Hid'.
  - intros k. rewrite nodes_lookup. cbn [by_id t']. destruct (by_id t !! k) as [j|] eqn:E; cbn.
    + rewrite Sl. apply (rep_id t Hr) in E. destruct (decide (j = i)) as [->|Hn].
      * rewrite Hs in E. injection E as <-. by rewrite lookup_insert_eq.
      * destruct (decide (k = e_id e)) as [->|Hk]; [|rewrite lookup_insert_ne by done; rewrite nodes_lookup; by rewrite (proj2 (rep_id t Hr _ _) E)].
        destruct Hn. assert (E2 : by_id t !! e_id e = Some i) by (apply (rep_id t Hr); by rewrite Hs). apply (rep_id t Hr) in E. congruence.
    + rewrite lookup_insert_ne; [by rewrite nodes_lookup, E|]. intros <-.
      assert (E2 : by_id t !! e_id e = Some i) by (apply (rep_id t Hr); by rewrite Hs). congruence.
Qed.

Lemma by_id_nodes t k : rep_ok t → by_id t !! k = None ↔ nodes t !! k = None.
Proof.
  intros Hr. rewrite nodes_lookup. destruct (by_id t !! k) as [i|] eqn:E; [|done]. cbn. apply (rep_id t Hr) in E. by destruct (slot t i).
Qed.

Lemma by_path_names t p : rep_ok t → by_path t !! p = None ↔ names t !! p = None.
Proof. intros Hr. rewrite !eq_None_not_Some. by rewrite names_some. Qed.

(** The slot a new entry takes. *)
Lemma insert_slot t p e : rep_ok t → ∃ i t', insert p e t = Some t' ∧ by_path t' = <[p := i]> (by_path t) ∧ by_id t' = <[e_id e := i]> (by_id t) ∧
  slot t i = None ∧ (∀ j, slot t' j = if decide (j = i) then Some e else slot t j) ∧ NoDup (free_slots t') ∧
  ∀ j, j ∈ free_slots t' → slots t' !! j = Some None.
Proof.
  intros Hr. unfold insert. pose proof (rep_free t Hr) as Hn. pose proof (rep_empty t Hr) as He. destruct (free_slots t) as [|i fr] eqn:Ef.
  - eexists (length (slots t)), _. cbn [mbind option_bind]. split; [done|]. cbn [by_path by_id free_slots]. split_and!; [done..| | |constructor|].
    + unfold slot. by rewrite lookup_ge_None_2.
    + intros j. unfold slot. cbn [slots]. destruct (decide (j = length (slots t))) as [->|Hj].
      * rewrite lookup_app_r, Nat.sub_diag by lia. done.
      * destruct (decide (j < length (slots t))%nat); [by rewrite lookup_app_l by lia|]. rewrite !lookup_ge_None_2; [done|lia|]. rewrite length_app. cbn. lia.
    + intros j Hj. by apply elem_of_nil in Hj.
  - pose proof (He i ltac:(constructor)) as Hi. pose proof (lookup_lt_Some _ _ _ Hi) as Hb. rewrite bool_decide_eq_true_2 by done.
    eexists i, _. cbn [mbind option_bind]. split; [done|]. cbn [by_path by_id free_slots]. apply NoDup_cons in Hn as [Hni Hn].
    split_and!; [done..| | |done|].
    + unfold slot. by rewrite Hi.
    + intros j. unfold slot. cbn [slots]. by apply slot_insert.
    + intros j Hj. cbn [slots]. rewrite list_lookup_insert_ne; [apply He; by constructor|]. by intros <-.
Qed.

Lemma insert_rep p e t : rep_ok t → names t !! p = None → nodes t !! e_id e = None →
  ∃ t', insert p e t = Some t' ∧ rep_ok t' ∧ names t' = <[p := e_id e]> (names t) ∧ nodes t' = <[e_id e := e]> (nodes t).
Proof.
  intros Hr Hp Hk. destruct (insert_slot t p e Hr) as (i&t'&->&Ep&Ei&Hs&Sl&Hf&He). exists t'. split; [done|].
  apply by_path_names in Hp; [|done]. apply by_id_nodes in Hk; [|done].
  assert (Hno : ∀ q, by_path t !! q ≠ Some i) by (intros q Hq; apply (rep_path t Hr) in Hq as [? ?]; congruence).
  assert (Hno' : ∀ k, by_id t !! k ≠ Some i) by (intros k E; apply (rep_id t Hr) in E; by rewrite Hs in E).
  assert (Hr' : rep_ok t').
  { split.
    - intros q j. rewrite Ep, lookup_insert_Some, Sl. intros [[-> ->]|[Hq Hj]]; [by rewrite decide_True|]. destruct (decide (j = i)); [done|].
      by apply (rep_path t Hr) in Hj.
    - intros q1 q2 j. rewrite Ep, !lookup_insert_Some. intros [[<- <-]|[_ H1]] [[<- H]|[_ H2]]; try done; try (by destruct (Hno q2)); subst.
      + by destruct (Hno q1).
      + by eapply (rep_inj t Hr).
    - intros j e'. rewrite Sl. destruct (decide (j = i)) as [->|Hj]; intros H; [exists p; by rewrite Ep, lookup_insert_eq|].
      destruct (rep_named t Hr _ _ H) as [q Hq]. exists q. rewrite Ep, lookup_insert_ne; [done|]. intros <-. congruence.
    - intros k j. rewrite Ei, lookup_insert_Some, Sl. destruct (decide (j = i)) as [->|Hj]; cbn.
      + split; [intros [[-> _]|[_ H]]; [done|by destruct (Hno' k)]|]. intros [= ->]. by left.
      + rewrite <- (rep_id t Hr k j). split; [intros [[_ ->]|[_ H]]; done|]. intros H. right. split; [|done]. intros <-. congruence.
    - done.
    - done. }
  split; [done|]. apply views_eq.
  - intros q. rewrite names_lookup, Ep. destruct (decide (q = p)) as [->|Hq].
    + rewrite !lookup_insert_eq. cbn. by rewrite Sl, decide_True.
    + rewrite !lookup_insert_ne by done. rewrite names_lookup. destruct (by_path t !! q) as [j|] eqn:E; [|done]. cbn. rewrite Sl, decide_False; [done|].
      intros ->. by destruct (Hno q).
  - intros k. rewrite nodes_lookup, Ei. destruct (decide (k = e_id e)) as [->|Hn].
    + rewrite !lookup_insert_eq. cbn. by rewrite Sl, decide_True.
    + rewrite !lookup_insert_ne by done. rewrite nodes_lookup. destruct (by_id t !! k) as [j|] eqn:E; [|done]. cbn. rewrite Sl, decide_False; [done|].
      intros ->. by destruct (Hno' k).
Qed.

Lemma remove_rep p k e t : rep_ok t → names t !! p = Some k → nodes t !! k = Some e →
  ∃ t', remove p t = Some (Some e, t') ∧ rep_ok t' ∧ names t' = delete p (names t) ∧ nodes t' = delete k (nodes t).
Proof.
  intros Hr Hp Hk. apply names_slot in Hp as (i&e'&Hp&Hs&Hid); [|done]. apply nodes_slot in Hk as (Hek&j&Hj); [|done].
  assert (j = i) as ->.
  { assert (E1 : by_id t !! k = Some j) by (apply (rep_id t Hr); rewrite Hj; by f_equal/=).
    assert (E2 : by_id t !! k = Some i) by (apply (rep_id t Hr); rewrite Hs; by f_equal/=). congruence. }
  rewrite Hs in Hj. injection Hj as ->. unfold remove. rewrite Hp. pose proof Hs as Hs'. apply slot_lookup in Hs'. rewrite Hs'. cbn [mbind option_bind].
  eexists. split; [done|]. set (t' := {| slots := _ |}). pose proof (slot_bound _ _ _ Hs) as Hb.
  assert (Sl : ∀ j, slot t' j = if decide (j = i) then None else slot t j) by (intros j; by apply slot_insert).
  assert (Hi : by_id t !! k = Some i) by (apply (rep_id t Hr); rewrite Hs; by f_equal/=).
  assert (Hr' : rep_ok t').
  { split; cbn [by_path by_id free_slots t'].
    - intros q j [Hq Hj]%lookup_delete_Some. rewrite Sl. destruct (decide (j = i)) as [->|]; [|by eapply (rep_path t Hr)].
      destruct Hq. by eapply (rep_inj t Hr).
    - intros q1 q2 j [_ H1]%lookup_delete_Some [_ H2]%lookup_delete_Some. by eapply (rep_inj t Hr).
    - intros j e'. rewrite Sl. destruct (decide (j = i)) as [->|Hn]; [done|]. intros [q Hq]%(rep_named t Hr). exists q. rewrite lookup_delete_ne; [done|]. congruence.
    - intros k' j. rewrite Sl, lookup_delete_Some, Hek. destruct (decide (j = i)) as [->|Hn]; cbn.
      + split; [|done]. intros [H1 H2]. apply (rep_id t Hr) in H2. rewrite Hs in H2. cbn in H2. congruence.
      + rewrite (rep_id t Hr k' j). split; [by intros [_ ?]|]. intros H. split; [|done]. intros <-. apply (rep_id t Hr) in H. congruence.
    - constructor; [|apply Hr]. intros H. apply (rep_empty t Hr) in H. congruence.
    - intros j [->|Hj]%elem_of_cons; cbn [slots t']; [by rewrite list_lookup_insert_eq|]. apply (rep_empty t Hr) in Hj. rewrite list_lookup_insert_ne; [done|]. congruence. }
  split; [done|]. apply views_eq.
  - intros q. rewrite names_lookup. cbn [by_path t']. destruct (decide (q = p)) as [->|Hq]; [by rewrite !lookup_delete_eq|].
    rewrite !lookup_delete_ne by done. rewrite names_lookup. destruct (by_path t !! q) as [j|] eqn:E; [|done]. cbn. rewrite Sl, decide_False; [done|].
    intros ->. destruct Hq. by eapply (rep_inj t Hr).
  - intros k'. rewrite nodes_lookup. cbn [by_id t']. rewrite Hek. destruct (decide (k' = k)) as [->|Hq]; [by rewrite !lookup_delete_eq|].
    rewrite !lookup_delete_ne by done. rewrite nodes_lookup. destruct (by_id t !! k') as [j|] eqn:E; [|done]. cbn. rewrite Sl, decide_False; [done|].
    intros ->. apply (rep_id t Hr) in E. rewrite Hs in E. cbn in E. congruence.
Qed.

(** ** Moving names *)

Lemma move_to_rep old new k t : rep_ok t → names t !! old = Some k → names t !! new = None →
  rep_ok (move_to old new t) ∧ names (move_to old new t) = <[new := k]> (delete old (names t)) ∧ nodes (move_to old new t) = nodes t.
Proof.
  intros Hr Ho Hn. pose proof Ho as Ho'. apply names_slot in Ho' as (i&e&Hi&Hs&Hid); [|done]. apply by_path_names in Hn; [|done].
  assert (Hne : old ≠ new) by congruence. unfold move_to. rewrite Hi. set (t' := {| slots := _ |}).
  assert (Hr' : rep_ok t').
  { split; cbn [by_path by_id free_slots t'].
    - intros q j. rewrite lookup_insert_Some, lookup_delete_Some. intros [[_ <-]|(_&_&Hj)]; [by exists e|by apply (rep_path t Hr) in Hj].
    - intros q1 q2 j. rewrite !lookup_insert_Some, !lookup_delete_Some. intros [[<- <-]|(_&H1&H2)] [[<- H3]|(_&H3&H4)]; try done.
      + destruct H3. by eapply (rep_inj t Hr).
      + subst j. destruct H1. by eapply (rep_inj t Hr).
      + by eapply (rep_inj t Hr).
    - intros j e' H. destruct (rep_named t Hr j e' H) as [q Hq]. destruct (decide (q = old)) as [->|].
      + exists new. rewrite lookup_insert_eq. congruence.
      + exists q. rewrite lookup_insert_ne, lookup_delete_ne; [done..|]. congruence.
    - apply Hr.
    - apply Hr.
    - apply Hr. }
  split; [done|]. apply views_eq; [|done]. intros q. rewrite names_lookup. cbn [by_path t'].
  destruct (decide (q = new)) as [->|Hq]; [rewrite !lookup_insert_eq; cbn; change (slot t' i) with (slot t i); by rewrite Hs, <- Hid|].
  rewrite !lookup_insert_ne by done. destruct (decide (q = old)) as [->|Hq']; [by rewrite !lookup_delete_eq|].
  rewrite !lookup_delete_ne by done. by rewrite names_lookup.
Qed.

(** The names of [m] through [f]. *)
Definition through (f : list Z → list Z) (m m' : gmap (list Z) Z) : Prop := ∀ q k, m' !! q = Some k ↔ ∃ p, f p = q ∧ m !! p = Some k.

Lemma through_move old new k m : m !! old = Some k → m !! new = None →
  through (λ p, if decide (p = old) then new else p) m (<[new := k]> (delete old m)).
Proof.
  intros Ho Hn q v. rewrite lookup_insert_Some, lookup_delete_Some. split.
  - intros [[<- <-]|(Hq&Hq'&H)]; [exists old; by rewrite decide_True|]. exists q. by rewrite decide_False.
  - intros (p&<-&H). destruct (decide (p = old)) as [->|Hp]; [left; split; [done|congruence]|]. right. split_and!; [congruence|congruence|done].
Qed.

Lemma through_trans f g m1 m2 m3 : through f m1 m2 → through g m2 m3 → through (λ p, g (f p)) m1 m3.
Proof.
  intros H1 H2 q k. rewrite (H2 q k). split.
  - intros (p2&<-&(p1&<-&H)%H1). by exists p1.
  - intros (p&<-&H). exists (f p). split; [done|]. apply H1. by exists p.
Qed.

Lemma through_ext f g m m' : through f m m' → (∀ p, is_Some (m !! p) → f p = g p) → through g m m'.
Proof.
  intros H1 H2 q k. rewrite (H1 q k). split; intros (p&<-&H); exists p; (split; [|done]); [symmetry|]; apply H2; by eexists.
Qed.

Lemma through_eq f m m1 m2 : through f m m1 → through f m m2 → m1 = m2.
Proof. intros H1 H2. apply map_eq. intros q. apply option_eq. intros k. by rewrite (H1 q k), (H2 q k). Qed.

(** Where a path goes when [old] is renamed to [new]. *)
Definition relabel (old new p : list Z) : list Z :=
  if decide (p = old ∨ under old p) then new ++ drop (length old) p else p.

Lemma move_below_rep old new l t : rep_ok t → NoDup l → (∀ p, p ∈ l → is_Some (names t !! p) ∧ under old p) →
  (∀ p, p ∈ l → names t !! (new ++ drop (length old) p) = None) →
  rep_ok (move_below old new l t) ∧ nodes (move_below old new l t) = nodes t ∧
  through (λ p, if decide (p ∈ l) then new ++ drop (length old) p else p) (names t) (names (move_below old new l t)).
Proof.
  revert t. induction l as [|p l IH]; intros t Hr Hnd Hl Hf; cbn [move_below].
  { split_and!; [done..|]. intros q k. split; [intros H; exists q; by rewrite decide_False by apply not_elem_of_nil|].
    intros (p&<-&H). by rewrite decide_False by apply not_elem_of_nil. }
  apply NoDup_cons in Hnd as [Hp Hnd]. destruct (Hl p) as [[k Hk] Hu]; [by constructor|].
  set (g := λ p, new ++ drop (length old) p) in *. assert (Hg : names t !! g p = None) by (apply Hf; by constructor).
  destruct (move_to_rep p (g p) k t Hr Hk Hg) as (Hr1&Hn1&Hd1). pose proof (through_move p (g p) k (names t) Hk Hg) as T1. rewrite <- Hn1 in T1.
  assert (Hinj : ∀ q, q ∈ l → g q ≠ g p).
  { intros q Hq E%app_inv_head. destruct (Hl q) as [_ [r1 ->]]; [by constructor|]. destruct Hu as [r2 ->].
    rewrite !drop_app_length in E. congruence. }
  destruct (IH (move_to p (g p) t)) as (Hr2&Hd2&T2); [done|done| | |].
  { intros q Hq. destruct (Hl q) as [Hs Hu']; [by constructor|]. split; [|done]. rewrite Hn1, lookup_insert_ne, lookup_delete_ne; [done| |].
    - by intros ->.
    - intros E. rewrite <- E, Hg in Hs. by destruct Hs. }
  { intros q Hq. rewrite Hn1, lookup_insert_ne by (apply not_eq_sym; by apply Hinj). apply lookup_delete_None. right. apply Hf. by constructor. }
  split; [done|]. split; [exact (eq_trans Hd2 Hd1)|]. eapply through_ext; [exact (through_trans _ _ _ _ _ T1 T2)|]. intros q Hq. cbn beta.
  destruct (decide (q = p)) as [->|Hqp].
  - rewrite (decide_True (P := p ∈ p :: l)) by constructor. rewrite decide_False; [done|]. intros H. destruct (Hl (g p)) as [[? Hs] _]; [by constructor|]. congruence.
  - destruct (decide (q ∈ l)) as [H|H]; [by rewrite decide_True by (by constructor)|]. rewrite decide_False; [done|]. by intros [?|?]%elem_of_cons.
Qed.

(** A rename: [l] are the paths under [old], and nothing is at or under
    [new]. *)
Lemma rename_rep old new k l t : rep_ok t → names t !! old = Some k → (∀ p, p = new ∨ under new p → names t !! p = None) → NoDup l →
  (∀ p, p ∈ l ↔ is_Some (names t !! p) ∧ under old p) →
  let t' := move_to old new (move_below old new l t) in
  rep_ok t' ∧ nodes t' = nodes t ∧ through (relabel old new) (names t) (names t').
Proof.
  intros Hr Hk Hf Hnd Hl. cbn zeta.
  assert (Hto : ∀ p, under old p → under new (new ++ drop (length old) p)) by (intros p [r ->]; rewrite drop_app_length; by exists r).
  destruct (move_below_rep old new l t Hr Hnd) as (Hr1&Hd1&T1).
  { intros p Hp. by apply Hl. }
  { intros p Hp. apply Hf. right. apply Hto. by apply Hl. }
  set (t1 := move_below old new l t) in *. set (f := λ p, if decide (p ∈ l) then new ++ drop (length old) p else p) in *.
  assert (Hold : old ∉ l) by (intros [_ H]%Hl; by apply under_ne in H).
  assert (H1 : names t1 !! old = Some k) by (apply T1; exists old; unfold f; by rewrite decide_False).
  assert (H2 : names t1 !! new = None).
  { apply eq_None_not_Some. intros [v (p&E&Hp)%T1]. unfold f in E. destruct (decide (p ∈ l)) as [H|H].
    - apply Hl in H as [_ H]. apply Hto, under_ne in H. done.
    - subst p. rewrite Hf in Hp by (by left). done. }
  destruct (move_to_rep old new k t1 Hr1 H1 H2) as (Hr2&Hn2&Hd2). split; [done|]. split; [congruence|].
  eapply through_ext; [rewrite Hn2; exact (through_trans _ _ _ _ _ T1 (through_move old new k _ H1 H2))|]. intros p Hp. cbn beta. unfold f, relabel.
  destruct (decide (p ∈ l)) as [H|H].
  - apply Hl in H as [_ H]. rewrite (decide_True (P := p = old ∨ _)) by (by right). rewrite decide_False; [done|]. intros E.
    rewrite <- E, Hf in Hk by (right; by apply Hto). done.
  - destruct (decide (p = old)) as [->|Hne]; [rewrite decide_True by (by left); by rewrite drop_ge, app_nil_r by lia|].
    rewrite decide_False; [done|]. intros [?|Hu]; [done|]. apply H, Hl. done.
Qed.

Lemma below_elem t dir p : rep_ok t → p ∈ below t dir ↔ is_Some (names t !! p) ∧ under dir p.
Proof. intros Hr. rewrite below_filter, list_elem_of_filter, sorted_paths_elem, names_some by done. tauto. Qed.

Lemma below_nodup t dir : NoDup (below t dir).
Proof. rewrite below_filter. apply NoDup_filter, sorted_paths_nodup. Qed.

(** Each id has one name, and each entry has one. *)
Lemma names_inj t p q k : rep_ok t → names t !! p = Some k → names t !! q = Some k → p = q.
Proof.
  intros Hr (i&e&Hp&Hs&He)%names_slot (j&e'&Hq&Hs'&He')%names_slot; [|done..].
  assert (j = i) as ->; [|by eapply (rep_inj t Hr)].
  assert (E1 : by_id t !! k = Some i) by (apply (rep_id t Hr); rewrite Hs; by f_equal/=).
  assert (E2 : by_id t !! k = Some j) by (apply (rep_id t Hr); rewrite Hs'; by f_equal/=). congruence.
Qed.

Lemma nodes_named t k e : rep_ok t → nodes t !! k = Some e → ∃ p, names t !! p = Some k.
Proof.
  intros Hr (He&i&Hs)%nodes_slot; [|done]. destruct (rep_named t Hr i e Hs) as [p Hp]. exists p. apply names_slot; [done|]. eauto.
Qed.
