(* ===== verification/TmpfsSpec.v ===== *)
(** * The in-memory file system: what it promises

    A file system as two finite maps, from a path to an id and from an id to
    an entry, with each call on them; and the invariant of such a file
    system, a tree: what has a name is in a directory, all the way up. *)

From S2P Require Import Prelude Pipe Text.
From stdpp Require Import gmap sorting list.
From S2P Require Import Tmpfs TmpfsRep.

Open Scope Z_scope.

Record Fs := {
  f_names : gmap (list Z) Z; f_nodes : gmap Z Entry; f_next : Z; f_atime : Z; f_mtime : Z; f_symlinks : Z; f_pipes : Pipe.State }.

Definition abs (s : Tmpfs) : Fs :=
  {| f_names := names (tree s); f_nodes := nodes (tree s); f_next := next_id s; f_atime := root_atime s; f_mtime := root_mtime s;
     f_symlinks := symlinks s; f_pipes := pipes s |}.

Definition with_maps (fs : Fs) (m : gmap (list Z) Z) (n : gmap Z Entry) : Fs :=
  {| f_names := m; f_nodes := n; f_next := f_next fs; f_atime := f_atime fs; f_mtime := f_mtime fs; f_symlinks := f_symlinks fs;
     f_pipes := f_pipes fs |}.

Definition with_root (fs : Fs) (a m : Z) : Fs :=
  {| f_names := f_names fs; f_nodes := f_nodes fs; f_next := f_next fs; f_atime := a; f_mtime := m; f_symlinks := f_symlinks fs;
     f_pipes := f_pipes fs |}.

Definition with_links (fs : Fs) (n : Z) : Fs :=
  {| f_names := f_names fs; f_nodes := f_nodes fs; f_next := f_next fs; f_atime := f_atime fs; f_mtime := f_mtime fs; f_symlinks := n;
     f_pipes := f_pipes fs |}.

Definition with_pipes (fs : Fs) (st : Pipe.State) : Fs :=
  {| f_names := f_names fs; f_nodes := f_nodes fs; f_next := f_next fs; f_atime := f_atime fs; f_mtime := f_mtime fs;
     f_symlinks := f_symlinks fs; f_pipes := st |}.

(** ** The calls on the maps *)

Definition look (fs : Fs) (p : list Z) : option Entry := k ← f_names fs !! p; f_nodes fs !! k.

Definition look_at (fs : Fs) (at_ : At) : option Entry :=
  match at_ with
  | AtPath p => if valid_rel_path p then look fs p else None
  | AtId k => f_nodes fs !! k
  end.

Definition put_node (fs : Fs) (e : Entry) : Fs := with_maps fs (f_names fs) (<[e_id e := e]> (f_nodes fs)).

Definition dir_at (fs : Fs) (p : list Z) : bool := negb (nonempty p) || match look fs p with Some e => is_dir e | None => false end.

Definition full (fs : Fs) : bool := MAX_ENTRIES <=? Z.of_nat (size (f_names fs)).

Definition s_touch (dir : list Z) (now : Z) (fs : Fs) : Fs :=
  if negb (nonempty dir) then with_root fs (f_atime fs) now
  else match look fs dir with Some e => put_node fs (set_mtime now e) | None => fs end.

(** A new entry at [p]. *)
Definition s_new (p : list Z) (k : Kind) (now : Z) (fs : Fs) : Fs :=
  let i := f_next fs in
  {| f_names := <[p := i]> (f_names fs); f_nodes := <[i := {| e_id := i; e_kind := k; e_atime := now; e_mtime := now |}]> (f_nodes fs);
     f_next := (i + 1) mod 2 ^ 64; f_atime := f_atime fs; f_mtime := f_mtime fs; f_symlinks := f_symlinks fs; f_pipes := f_pipes fs |}.

(** Whether something may be made at [p]. *)
Definition may_make (p : list Z) (fs : Fs) : bool :=
  valid_rel_path p && bool_decide (f_names fs !! p = None) && dir_at fs (parent_of p) && negb (full fs).

Definition s_make (p : list Z) (k : Kind) (now : Z) (fs : Fs) : Fs := s_touch (parent_of p) now (s_new p k now fs).

Definition s_drop (p : list Z) (now : Z) (fs : Fs) : Fs :=
  match f_names fs !! p with
  | Some k => s_touch (parent_of p) now (with_maps fs (delete p (f_names fs)) (delete k (f_nodes fs)))
  | None => fs
  end.

Definition empty_dir (p : list Z) (fs : Fs) : Prop := ∀ q k, f_names fs !! q = Some k → ~ under p q.

#[export] Instance empty_dir_dec p fs : Decision (empty_dir p fs).
Proof.
  refine (cast_if (decide (map_Forall (λ q (_ : Z), ~ under p q) (f_names fs)))); unfold empty_dir, map_Forall in *; naive_solver.
Defined.

(** The names with [old] moved to [new], and what is under it along. *)
Definition relabelled (old new : list Z) (m : gmap (list Z) Z) : gmap (list Z) Z :=
  list_to_map ((λ x : list Z * Z, (relabel old new x.1, x.2)) <$> map_to_list m).

Definition s_unpipe (e : Entry) (fs : Fs) : Fs :=
  match e_kind e with Fifo id => with_pipes fs (Pipe.fifo_unlink (f_pipes fs) id) | _ => fs end.

(** Every path under [old] still fits once moved. *)
Definition fits_under (old new : list Z) (fs : Fs) : Prop :=
  ∀ q k, f_names fs !! q = Some k → under old q → zlen (relabel old new q) <= PATH_CAP.

#[export] Instance fits_under_dec old new fs : Decision (fits_under old new fs).
Proof.
  refine (cast_if (decide (map_Forall (λ q (_ : Z), under old q → zlen (relabel old new q) <= PATH_CAP) (f_names fs))));
    unfold fits_under, map_Forall in *; naive_solver.
Defined.

Definition s_rename (old new : list Z) (now : Z) (fs : Fs) : bool * Fs :=
  if negb (valid_rel_path old && valid_rel_path new) then (false, fs)
  else if bool_decide (old = new) then (true, fs)
  else match look fs old, look fs new with
       | None, _ => (false, fs)
       | Some e, Some d =>
           if bool_decide (under old new) || is_dir e || is_dir d then (false, fs)
           else
             let fs1 := s_unpipe d fs in
             let m := delete new (f_names fs) in
             (true, s_touch (parent_of new) now (s_touch (parent_of old) now
                      (with_maps fs1 (relabelled old new m) (delete (e_id d) (f_nodes fs)))))
       | Some e, None =>
           if bool_decide (under old new) || negb (dir_at fs (parent_of new)) || negb (bool_decide (fits_under old new fs)) then (false, fs)
           else (true, s_touch (parent_of new) now (s_touch (parent_of old) now
                         (with_maps fs (relabelled old new (f_names fs)) (f_nodes fs))))
       end.

(** The entries of a directory, in order. *)
Definition child_of (dir p : list Z) : option (list Z) :=
  let no_slash (l : list Z) := forallb (λ c, negb (c =? SLASH)) l in
  if nonempty dir
  then if bool_decide (under dir p) && no_slash (drop (length dir + 1) p) then Some (drop (length dir + 1) p) else None
  else if no_slash p && negb (bool_decide (head p = Some 0)) then Some p else None.

Definition children (fs : Fs) (dir : list Z) : list (list Z) := merge_sort path_order (omap (child_of dir) (map_to_list (f_names fs)).*1).

(** A listing: the names that fit, each with a newline. *)
Fixpoint fitting (room : Z) (ns : list (list Z)) : list Z :=
  match ns with
  | [] => []
  | x :: ns => if room <? zlen x + 1 then [] else (x ++ [10]) ++ fitting (room - (zlen x + 1)) ns
  end.

(** [l] at the start of [buf]. *)
Definition over (l buf : list Z) : list Z := l ++ drop (length l) buf.

Definition s_list (fs : Fs) (rel buf : list Z) : Z * list Z :=
  let dir := if bool_decide (rel = [46]) then [] else rel in
  if nonempty dir && negb (valid_rel_path dir && dir_at fs dir) then (0, buf)
  else let l := fitting (zlen buf) (children fs dir) in (zlen l, over l buf).

Definition s_read (fs : Fs) (at_ : At) (pos : Z) (out : list Z) : Z * list Z :=
  match look_at fs at_ with
  | Some {| e_kind := File data |} => let l := take (length out) (drop (Z.to_nat pos) data) in (zlen l, over l out)
  | _ => (0, out)
  end.

(** [buf] written at [pos], zeros in a gap. *)
Definition written (data : list Z) (pos : Z) (buf : list Z) : list Z :=
  take (Z.to_nat pos) (data ++ replicate (Z.to_nat pos - length data) 0) ++ buf ++ drop (Z.to_nat pos + length buf) data.

Definition has_room (heap : Heap) (data : list Z) (end_ : Z) : bool :=
  (end_ <=? zlen data) ||
  try_reserve heap (Z.min (Z.max (Z.min (zlen data) (2 ^ 20)) (end_ - zlen data)) (FILE_CAP - zlen data)) ||
  try_reserve_exact heap (end_ - zlen data).

Definition s_write (heap : Heap) (at_ : At) (pos : Z) (buf : list Z) (now : Z) (fs : Fs) : result WriteError Z * Fs :=
  match look_at fs at_ with
  | Some ({| e_kind := File data |} as e) =>
      if FILE_CAP <? pos + zlen buf then (Err TooBig, fs)
      else if negb (has_room heap data (pos + zlen buf)) then (Err NoSpace, fs)
      else (Ok (zlen buf), put_node fs (set_data (written data pos buf) now e))
  | _ => (Err Failed, fs)
  end.

Definition s_set_size (heap : Heap) (at_ : At) (len now : Z) (fs : Fs) : result WriteError () * Fs :=
  if FILE_CAP <? len then (Err TooBig, fs)
  else match look_at fs at_ with
       | Some ({| e_kind := File data |} as e) =>
           if (zlen data <? len) && negb (try_reserve_exact heap (len - zlen data)) then (Err NoSpace, fs)
           else (Ok tt, put_node fs (set_data (take (Z.to_nat len) data ++ replicate (Z.to_nat len - length data) 0) now e))
       | _ => (Err Failed, fs)
       end.

Definition stat_of (e : Entry) : StatInfo :=
  let st m len links := {| mode := m; st_size := len; ino := e_id e mod 2 ^ 32; nlink := links; st_mtime := e_mtime e; st_atime := e_atime e |} in
  match e_kind e with
  | Dir => st 0x41ed 0 2
  | File data => st 0x81ed (zlen data) 1
  | Symlink target => st 0xa1ff (zlen target) 1
  | Fifo _ => st 0x11a4 0 1
  end.

Definition is_root (p : list Z) : bool := negb (nonempty p) || bool_decide (p = [46]).

Definition s_set_times (at_ : At) (a m : option Z) (fs : Fs) : bool * Fs :=
  match look_at fs at_ with
  | Some e => (true, put_node fs {| e_id := e_id e; e_kind := e_kind e; e_atime := default (e_atime e) a; e_mtime := default (e_mtime e) m |})
  | None => (false, fs)
  end.

Definition spec (o : Op) (fs : Fs) : Answer * Fs :=
  match o with
  | FileId p => (AId (e_id <$> look_at fs (AtPath p)), fs)
  | UnlinkKeep p now =>
      match look_at fs (AtPath p) with
      | Some e =>
          if is_file e
          then (ABool true, s_touch (parent_of p) now (with_maps fs (<[kept_name (e_id e) := e_id e]> (delete p (f_names fs))) (f_nodes fs)))
          else (ABool false, fs)
      | None => (ABool false, fs)
      end
  | CreateKept now => if full fs then (AId None, fs) else (AId (Some (f_next fs)), s_new (kept_name (f_next fs)) (File []) now fs)
  | Forget i =>
      (ADone, match f_names fs !! kept_name i with
              | Some k => with_maps fs (delete (kept_name i) (f_names fs)) (delete k (f_nodes fs))
              | None => fs
              end)
  | Create p now =>
      match look_at fs (AtPath p) with
      | Some e => (ABool (is_file e), fs)
      | None => if may_make p fs then (ABool true, s_make p (File []) now fs) else (ABool false, fs)
      end
  | Truncate p now =>
      match look_at fs (AtPath p) with
      | Some e => if is_file e then (ABool true, put_node fs (set_data [] now e)) else (ABool false, fs)
      | None => (ABool false, fs)
      end
  | SetSize heap at_ len now => let '(r, fs) := s_set_size heap at_ len now fs in (ASize r, fs)
  | Read at_ pos out => let '(n, l) := s_read fs at_ pos out in (ARead n l, fs)
  | Write heap at_ pos buf now => let '(r, fs) := s_write heap at_ pos buf now fs in (AWritten r, fs)
  | Mkfifo p now =>
      if may_make p fs
      then let '(i, st) := Pipe.alloc_named (f_pipes fs) in
           match i with
           | Some i => (ABool true, s_make p (Fifo i) now (with_pipes fs st))
           | None => (ABool false, with_pipes fs st)
           end
      else (ABool false, fs)
  | FifoId p => (APipe (match look_at fs (AtPath p) with Some {| e_kind := Fifo i |} => Some i | _ => None end), fs)
  | Mkdir p now => if may_make p fs then (ABool true, s_make p Dir now fs) else (ABool false, fs)
  | Rmdir p now =>
      match look_at fs (AtPath p) with
      | Some e => if is_dir e && bool_decide (empty_dir p fs) then (ABool true, s_drop p now fs) else (ABool false, fs)
      | None => (ABool false, fs)
      end
  | Unlink p now =>
      match look_at fs (AtPath p) with
      | Some e =>
          match e_kind e with
          | Dir => (ABool false, fs)
          | Symlink _ => (ABool true, s_drop p now (with_links fs ((f_symlinks fs - 1) mod 2 ^ 64)))
          | _ => (ABool true, s_drop p now (s_unpipe e fs))
          end
      | None => (ABool false, fs)
      end
  | Rename old new now => let '(b, fs) := s_rename old new now fs in (ABool b, fs)
  | Link target p now =>
      if nonempty target && (zlen target <=? LINK_CAP) && may_make p fs
      then (ABool true, with_links (s_make p (Symlink target) now fs) ((f_symlinks fs + 1) mod 2 ^ 64))
      else (ABool false, fs)
  | Readlink p buf =>
      (match look_at fs (AtPath p) with
       | Some {| e_kind := Symlink target |} => let l := take (length buf) target in ALink (Some (zlen l)) (over l buf)
       | _ => ALink None buf
       end, fs)
  | Listdir rel buf => let '(n, l) := s_list fs rel buf in (ARead n l, fs)
  | Stat p =>
      (AStat (if is_root p || bool_decide (p = [46; 46])
              then Some {| mode := 0x41ed; st_size := 0; ino := 1; nlink := 2; st_mtime := f_mtime fs; st_atime := f_atime fs |}
              else stat_of <$> look_at fs (AtPath p)), fs)
  | StatAt at_ => (AStat (stat_of <$> look_at fs at_), fs)
  | SetTimes p a m =>
      if is_root p then (ABool true, with_root fs (default (f_atime fs) a) (default (f_mtime fs) m))
      else let '(b, fs) := s_set_times (AtPath p) a m fs in (ABool b, fs)
  | SetTimesAt at_ a m => let '(b, fs) := s_set_times at_ a m fs in (ABool b, fs)
  | PipeOp o => match Pipe.exec o (f_pipes fs) with Some (r, st) => (AReply r, with_pipes fs st) | None => (ADone, fs) end
  end.

Fixpoint spec_all (os : list Op) (fs : Fs) : list Answer * Fs :=
  match os with
  | [] => ([], fs)
  | o :: os => let '(a, fs) := spec o fs in let '(l, fs) := spec_all os fs in (a :: l, fs)
  end.

(** ** The invariant *)

Definition is_symlink (e : Entry) : bool := match e_kind e with Symlink _ => true | _ => false end.

(** An entry's own bounds. *)
Definition content_ok (e : Entry) : Prop :=
  match e_kind e with
  | File data => zlen data <= FILE_CAP
  | Symlink target => target ≠ [] ∧ zlen target <= LINK_CAP
  | _ => True
  end.

(** A place an entry may have: the name of a kept file, or a path in a
    directory. *)
Definition placed (fs : Fs) (p : list Z) (e : Entry) : Prop :=
  (p = kept_name (e_id e) ∧ is_file e = true) ∨
  (valid_rel_path p = true ∧ 0 ∉ p ∧ dir_at fs (parent_of p) = true).

Definition links (n : gmap Z Entry) : Z := Z.of_nat (size (filter (λ x : Z * Entry, is_symlink x.2 = true) n)).

(** A named pipe is in slot [i]. *)
Definition has_pipe (st : Pipe.State) (i : nat) : Prop := ∃ p, Pipe.pipe_at st i = Some p ∧ named p = true.

Record fs_ok (fs : Fs) : Prop := {
  ok_placed : ∀ p k, f_names fs !! p = Some k → ∃ e, f_nodes fs !! k = Some e ∧ placed fs p e;
  ok_node : ∀ k e, f_nodes fs !! k = Some e → e_id e = k ∧ 2 <= k < f_next fs ∧ content_ok e;
  ok_size : Z.of_nat (size (f_names fs)) <= MAX_ENTRIES;
  ok_links : links (f_nodes fs) <= f_symlinks fs ∧ f_symlinks fs + 2 <= f_next fs;
  ok_fifo : ∀ k e i, f_nodes fs !! k = Some e → e_kind e = Fifo i → has_pipe (f_pipes fs) i;
  ok_fifos : ∀ k k' e e' i, f_nodes fs !! k = Some e → f_nodes fs !! k' = Some e' → e_kind e = Fifo i → e_kind e' = Fifo i → k = k';
  ok_pipes : Pipe.wf (f_pipes fs) }.

(** What is asked of a call: paths without a NUL, places in files and ids
    that are of their types, and that the pipes of FIFOs are made and given back by the
    file system alone. *)
Definition at_ok (at_ : At) : Prop := match at_ with AtPath p => 0 ∉ p | AtId _ => True end.

Definition op_ok (o : Op) : Prop :=
  match o with
  | FileId p | UnlinkKeep p _ | Create p _ | Truncate p _ | Mkfifo p _ | FifoId p | Mkdir p _ | Rmdir p _ | Unlink p _
  | Link _ p _ | Readlink p _ | Listdir p _ | Stat p | SetTimes p _ _ => 0 ∉ p
  | Rename old new _ => 0 ∉ old ∧ 0 ∉ new
  | SetSize _ at_ len _ => at_ok at_ ∧ 0 <= len
  | Read at_ pos _ | Write _ at_ pos _ _ => at_ok at_ ∧ 0 <= pos
  | StatAt at_ | SetTimesAt at_ _ _ => at_ok at_
  | PipeOp o =>
      match o with
      | Pipe.AllocNamed | Pipe.FifoUnlink _ => False
      | Pipe.Free i => (i < Pipe.ANON_PIPES)%nat
      | _ => True
      end
  | Forget id => 0 <= id <= U64_MAX
  | CreateKept _ => True
  end.
