(* ===== verification/TmpfsTree.v ===== *)
(** * The in-memory file system: its tree

    Paths and their parents, and that the invariant [fs_ok] of the two maps
    is kept by what the calls do to them. *)

From S2P Require Import Prelude Pipe Text.
From stdpp Require Import gmap sorting list.
From S2P Require Import Tmpfs TmpfsRep TmpfsSpec.

Open Scope Z_scope.

(** ** Paths *)

Abbreviation comps := (split_on (λ c, c =? SLASH)).

Lemma comps_cons c p : c ≠ SLASH → ∃ w ws, comps p = w :: ws ∧ comps (c :: p) = (c :: w) :: ws.
Proof.
  intros Hc. cbn [split_on]. rewrite (proj2 (Z.eqb_neq c SLASH)) by done. destruct (comps p) as [|w ws] eqn:E; [|by exists w, ws].
  destruct p as [|c' p]; [done|]. cbn [split_on] in E. destruct (c' =? SLASH); [done|]. by destruct (comps p).
Qed.

Lemma comps_app a b : comps (a ++ SLASH :: b) = comps a ++ comps b.
Proof.
  induction a as [|c a IH]; [done|]. cbn [app]. destruct (decide (c = SLASH)) as [->|Hc]; [cbn [split_on]; by rewrite Z.eqb_refl, IH|].
  destruct (comps_cons c (a ++ SLASH :: b) Hc) as (w&ws&E1&->). destruct (comps_cons c a Hc) as (w'&ws'&E2&->).
  rewrite IH, E2 in E1. injection E1 as <- <-. done.
Qed.

Lemma comps_slash b : comps (SLASH :: b) = [] :: comps b.
Proof. apply (comps_app []). Qed.

Lemma forallb_Forall {A} (f : A → bool) l : forallb f l = true ↔ Forall (λ x, f x = true) l.
Proof. rewrite forallb_forall, Forall_forall. by setoid_rewrite list_elem_of_In. Qed.

Lemma double_slash_split p : double_slash p = true → ∃ a b, p = a ++ SLASH :: SLASH :: b.
Proof.
  induction p as [|x p IH]; [done|]. destruct p as [|y p]; [done|]. change (double_slash (x :: y :: p)) with (((x =? SLASH) && (y =? SLASH)) || double_slash (y :: p)).
  destruct ((x =? SLASH) && (y =? SLASH)) eqn:E; intros H.
  - bool_hyps. subst. by exists [], p.
  - destruct (IH H) as (a&b&->). by exists (x :: a), b.
Qed.

(** No empty component: no slash at an end, no two in a row. *)
Lemma comps_nonempty p : [] ∉ comps p → p ≠ [] ∧ head p ≠ Some SLASH ∧ last p ≠ Some SLASH ∧ double_slash p = false.
Proof.
  intros H. split_and!.
  - intros ->. apply H. by constructor.
  - destruct p as [|c p]; [done|]. cbn [head]. intros [= ->]. apply H. rewrite comps_slash. by constructor.
  - intros [a ->]%last_Some. apply H. rewrite comps_app. apply elem_of_app. right. by constructor.
  - apply not_true_is_false. intros (a&b&->)%double_slash_split. apply H. rewrite comps_app, comps_slash.
    apply elem_of_app. right. by constructor.
Qed.

Lemma valid_alt p : valid_rel_path p = true ↔ zlen p <= PATH_CAP ∧ Forall (λ c, valid_component c = true) (comps p).
Proof.
  unfold valid_rel_path. split.
  - destruct (_ || _) eqn:E; [done|]. destruct (double_slash p); [done|]. intros H. split; [by bool_hyps|]. by apply forallb_Forall.
  - intros [Hl Hc]. destruct (comps_nonempty p) as (H1&H2&H3&H4).
    { intros H. eapply Forall_forall in Hc; [|exact H]. done. }
    rewrite H4. rewrite !bool_decide_eq_false_2 by done. rewrite (proj2 (Z.ltb_ge _ _)) by done. destruct p; [done|]. cbn [nonempty negb orb].
    by apply forallb_Forall.
Qed.

Lemma rsplit_none p : rsplit p = None ↔ SLASH ∉ p.
Proof.
  induction p as [|c p IH]; cbn [rsplit]; [split; [intros _ H; by apply elem_of_nil in H|done]|]. rewrite not_elem_of_cons.
  destruct (rsplit p) as [[a b]|]; [split; [done|intros [_ H]; by apply IH in H]|]. destruct (Z.eqb_spec c SLASH); naive_solver.
Qed.

Lemma rsplit_app a b : SLASH ∉ b → rsplit (a ++ SLASH :: b) = Some (a, b).
Proof.
  intros Hb. induction a as [|c a IH]; cbn [app rsplit]; [|by rewrite IH]. by rewrite (proj2 (rsplit_none b)), Z.eqb_refl.
Qed.

Lemma rsplit_some p a b : rsplit p = Some (a, b) → p = a ++ SLASH :: b ∧ SLASH ∉ b.
Proof.
  revert a. induction p as [|c p IH]; intros a; cbn [rsplit]; [done|]. destruct (rsplit p) as [[a' b']|] eqn:E.
  - intros [= <- ->]. destruct (IH a') as [-> H]; done.
  - apply rsplit_none in E. destruct (Z.eqb_spec c SLASH) as [->|]; [|done]. by intros [= <- <-].
Qed.

(** A path with a slash is its parent, a slash and a name. *)
Lemma parent_split p : SLASH ∈ p → ∃ b, p = parent_of p ++ SLASH :: b ∧ SLASH ∉ b.
Proof.
  intros H. unfold parent_of. destruct (rsplit p) as [[a b]|] eqn:E; [|by apply rsplit_none in E]. apply rsplit_some in E. eauto.
Qed.

Lemma parent_app a b : SLASH ∉ b → parent_of (a ++ SLASH :: b) = a.
Proof. intros H. unfold parent_of. by rewrite rsplit_app. Qed.

Lemma parent_none p : SLASH ∉ p → parent_of p = [].
Proof. intros H. unfold parent_of. by rewrite (proj2 (rsplit_none p)). Qed.

Lemma parent_under a b : SLASH ∈ b → parent_of (a ++ SLASH :: b) = a ++ SLASH :: parent_of b.
Proof.
  intros H. destruct (parent_split b H) as (c&E&Hc). rewrite E at 1. change (a ++ SLASH :: parent_of b ++ SLASH :: c) with (a ++ (SLASH :: parent_of b) ++ SLASH :: c).
  rewrite app_assoc. by rewrite parent_app.
Qed.

Lemma under_parent d p : under d p → parent_of p = d ∨ under d (parent_of p).
Proof.
  intros [r ->]. destruct (decide (SLASH ∈ r)) as [H|H]; [right; rewrite parent_under by done; by eexists|left; by apply parent_app].
Qed.

Lemma parent_shorter p : SLASH ∈ p → (length (parent_of p) < length p)%nat.
Proof. intros (b&E&_)%parent_split. rewrite E at 2. rewrite length_app. cbn. lia. Qed.

Lemma under_slash d p : under d p → SLASH ∈ p.
Proof. intros [r ->]. apply elem_of_app. right. by constructor. Qed.

Lemma kept_no_slash k : 0 <= k → SLASH ∉ kept_name k.
Proof.
  intros Hk H. unfold kept_name in H. apply elem_of_cons in H as [H|H]; [done|]. eapply Forall_forall in H; [|by apply dec_digits].
  cbn in H. unfold SLASH in H. lia.
Qed.

Lemma kept_inj a b : 0 <= a <= U64_MAX → 0 <= b <= U64_MAX → kept_name a = kept_name b → a = b.
Proof. intros Ha Hb [= E]. by apply dec_inj. Qed.

Lemma kept_nul k : 0 ∈ kept_name k.
Proof. by constructor. Qed.

Lemma valid_nonempty p : valid_rel_path p = true → p ≠ [].
Proof. by intros H ->. Qed.

(** Where paths go in a rename. *)

Lemma relabel_old old new : relabel old new old = new.
Proof. unfold relabel. rewrite decide_True by (by left). by rewrite drop_ge, app_nil_r. Qed.

Lemma relabel_under old new r : relabel old new (old ++ SLASH :: r) = new ++ SLASH :: r.
Proof. unfold relabel. rewrite decide_True by (right; by eexists). by rewrite drop_app_length. Qed.

Lemma relabel_other old new p : p ≠ old → ~ under old p → relabel old new p = p.
Proof. intros H1 H2. unfold relabel. rewrite decide_False; [done|]. tauto. Qed.

Lemma relabel_parent old new p : under old p → parent_of (relabel old new p) = relabel old new (parent_of p).
Proof.
  intros [r ->]. rewrite relabel_under. destruct (decide (SLASH ∈ r)) as [H|H].
  - rewrite !parent_under by done. by rewrite relabel_under.
  - rewrite !parent_app by done. by rewrite relabel_old.
Qed.

Lemma relabel_valid old new p : valid_rel_path new = true → valid_rel_path p = true → under old p → zlen (relabel old new p) <= PATH_CAP →
  valid_rel_path (relabel old new p) = true.
Proof.
  intros Hn Hp [r ->]. rewrite relabel_under. rewrite valid_alt in *. rewrite !comps_app, !Forall_app in *. tauto.
Qed.

Lemma valid_parent p : valid_rel_path p = true → SLASH ∈ p → valid_rel_path (parent_of p) = true.
Proof.
  intros Hp (b&E&_)%parent_split. rewrite E in Hp. rewrite valid_alt in *. rewrite comps_app, Forall_app, length_app in Hp.
  split; [lia|tauto].
Qed.

(** ** The pipes of FIFOs *)

Definition pipe_ok (o : Pipe.op) : Prop := op_ok (PipeOp o).

(** The other operations on pipes leave a named pipe in its slot. *)
Lemma has_pipe_exec o st r st' i : Pipe.wf st → pipe_ok o → Pipe.exec o st = Some (r, st') → has_pipe st i → has_pipe st' i.
Proof.
  intros Hwf Ho He (p&Hp&Hn). destruct (decide (Pipe.target o = Some i)) as [Ht|Ht].
  2:{ exists p. split; [|done]. by eapply Pipe.exec_elsewhere. }
  pose proof (Pipe.pipe_at_bound _ _ _ Hp) as Hb. unfold has_pipe.
  assert (Hput : ∀ q, named q = true → ∃ p', Pipe.pipe_at (Pipe.put st i (Some q)) i = Some p' ∧ named p' = true).
  { intros q Hq. exists q. rewrite Pipe.pipe_at_put by done. by rewrite decide_True. }
  assert (Hrel : ∀ q, named q = true → ∃ p', Pipe.pipe_at (Pipe.release_if_idle (Pipe.put st i (Some q)) i) i = Some p' ∧ named p' = true).
  { intros q Hq. unfold Pipe.release_if_idle. rewrite Pipe.pipe_at_put by done. rewrite decide_True by done. case_if; [by apply Hput|]. rewrite Hq.
    eexists. rewrite Pipe.pipe_at_put by (cbn; by rewrite length_insert). by rewrite decide_True. }
  destruct o; cbn in Ht; try done; injection Ht as ->; cbn in He.
  - apply (Pipe.wf_at _ Hwf) in Hp as [_ Hp]. specialize (Hp Hn). cbn in Ho. lia.
  - unfold Pipe.add_reader in He. rewrite Hp in He. injection He as <- <-. by apply Hput.
  - unfold Pipe.add_writer in He. rewrite Hp in He. injection He as <- <-. by apply Hput.
  - unfold Pipe.drop_reader in He. rewrite Hp in He. injection He as <- <-. rewrite Pipe.pipe_at_notify. by apply Hrel.
  - unfold Pipe.drop_writer in He. rewrite Hp in He. injection He as <- <-. rewrite Pipe.pipe_at_notify. by apply Hrel.
  - unfold Pipe.fifo_attach in He. rewrite Hp in He. injection He as <- <-. rewrite Pipe.pipe_at_notify. by apply Hput.
  - unfold Pipe.read in He. rewrite Hp in He. repeat case_if; repeat case_match; simplify_option_eq; rewrite ?Pipe.pipe_at_notify; eauto.
  - unfold Pipe.write in He. rewrite Hp in He.
    repeat case_if; repeat case_match; simplify_option_eq; rewrite ?Pipe.pipe_at_notify, ?Pipe.pipe_at_emit, ?Pipe.pipe_at_changed; eauto.
Qed.

Lemma has_pipe_unlink st i j : i ≠ j → has_pipe st j → has_pipe (Pipe.fifo_unlink st i) j.
Proof.
  intros Hn (p&Hp&H). exists p. split; [|done].
  by eapply (Pipe.exec_elsewhere (Pipe.FifoUnlink i)); [done|cbn; congruence|].
Qed.

Lemma wf_unlink st i : Pipe.wf st → Pipe.wf (Pipe.fifo_unlink st i).
Proof. intros H. by eapply (Pipe.wf_exec (Pipe.FifoUnlink i)). Qed.

(** A new FIFO's pipe was in no one's use. *)
Lemma alloc_named_ok st : Pipe.wf st → let '(i, st') := Pipe.alloc_named st in
  Pipe.wf st' ∧ (∀ j, has_pipe st j → has_pipe st' j) ∧ ∀ i', i = Some i' → has_pipe st' i' ∧ ~ has_pipe st i'.
Proof.
  intros Hwf. pose proof (Pipe.alloc_in_result st Pipe.ANON_PIPES Pipe.MAX_PIPES true) as Hr.
  pose proof (Pipe.wf_exec Pipe.AllocNamed st) as Hw. cbn in Hw. unfold Pipe.alloc_named in *.
  pose proof (λ j p, Pipe.alloc_in_at st Pipe.ANON_PIPES Pipe.MAX_PIPES true j p) as Hat.
  destruct (Pipe.alloc_in st Pipe.ANON_PIPES Pipe.MAX_PIPES true) as [i st'] eqn:E. cbn [fst snd] in *.
  split; [by eapply Hw|]. split.
  - intros j (p&Hp&H). exists p. split; [by apply Hat|done].
  - intros i' ->. destruct Hr as (_&Hn&_&Hf); [by rewrite (Pipe.wf_slots _ Hwf)|]. split; [by eexists|]. intros (p&Hp&_). congruence.
Qed.

(** ** Keeping the invariant *)

Lemma look_some fs p e : look fs p = Some e ↔ ∃ k, f_names fs !! p = Some k ∧ f_nodes fs !! k = Some e.
Proof. unfold look. destruct (f_names fs !! p) as [k|]; cbn; naive_solver. Qed.

Lemma dir_at_some fs p : dir_at fs p = true ↔ p = [] ∨ ∃ e, look fs p = Some e ∧ is_dir e = true.
Proof.
  unfold dir_at. destruct p as [|c p]; cbn [nonempty negb orb]; [naive_solver|]. destruct (look fs (c :: p)); naive_solver.
Qed.

(** Directories stay where they are. *)
Lemma dir_at_mono fs fs' p : (∀ q e, look fs q = Some e → is_dir e = true → ∃ e', look fs' q = Some e' ∧ is_dir e' = true) →
  dir_at fs p = true → dir_at fs' p = true.
Proof. rewrite !dir_at_some. naive_solver. Qed.

(** What is above a name is a directory. *)
Lemma above_is_dir fs p k d : fs_ok fs → f_names fs !! p = Some k → under d p → ∃ e, look fs d = Some e ∧ is_dir e = true.
Proof.
  intros Hok. remember (length p) as n eqn:En. revert p k En. induction n as [n IH] using lt_wf_ind. intros p k -> Hp Hu.
  pose proof (under_slash _ _ Hu) as Hs. destruct (ok_placed fs Hok p k Hp) as (e&He&[[-> _]|(Hv&_&Hd)]).
  { exfalso. apply (ok_node fs Hok) in He as (<-&?&_). eapply kept_no_slash; [|exact Hs]. lia. }
  assert (Hne : parent_of p ≠ []).
  { intros E. destruct (parent_split p Hs) as (b&Ep&_). rewrite E in Ep. cbn in Ep. apply valid_alt in Hv as [_ Hv].
    rewrite Ep, comps_slash in Hv. by apply Forall_cons in Hv as [? _]. }
  apply dir_at_some in Hd as [?|(e'&Hl&Hd)]; [done|]. destruct (under_parent d p Hu) as [<-|Hu']; [by exists e'|].
  apply look_some in Hl as (k'&Hk'&_). eapply (IH (length (parent_of p))); [by apply parent_shorter|done|done|done].
Qed.

(** The links of a changed map. *)
Lemma links_insert n k e : n !! k = None → links (<[k := e]> n) = links n + (if is_symlink e then 1 else 0).
Proof.
  intros Hk. unfold links. rewrite map_filter_insert. cbn [snd]. destruct (is_symlink e).
  - rewrite decide_True by done. rewrite map_size_insert_None; [lia|]. apply map_lookup_filter_None. by left.
  - rewrite decide_False by done. rewrite delete_id by done. lia.
Qed.

Lemma links_delete n k e : n !! k = Some e → links (delete k n) = links n - (if is_symlink e then 1 else 0).
Proof.
  intros Hk. pose proof (links_insert (delete k n) k e ltac:(by rewrite lookup_delete_eq)) as H. rewrite insert_delete_eq, insert_id in H by done. lia.
Qed.

Lemma links_update n k e e' : n !! k = Some e → is_symlink e' = is_symlink e → links (<[k := e']> n) = links n.
Proof.
  intros Hk He. rewrite <- insert_delete_eq. rewrite links_insert by (by rewrite lookup_delete_eq). rewrite (links_delete n k e Hk), He. lia.
Qed.

(** Entries that may stand for one another: of the same kind, up to a file's
    bytes. *)
Definition alike (e e' : Entry) : Prop := e_id e' = e_id e ∧ (e_kind e' = e_kind e ∨ is_file e = true ∧ is_file e' = true).

Lemma alike_is e e' : alike e e' → is_dir e' = is_dir e ∧ is_file e' = is_file e ∧ is_symlink e' = is_symlink e ∧
  ∀ i, e_kind e' = Fifo i → e_kind e = Fifo i.
Proof.
  intros [_ [E|[E E']]]; unfold is_dir, is_file, is_symlink in *; [rewrite E; naive_solver|].
  destruct (e_kind e), (e_kind e'); naive_solver.
Qed.

Lemma put_node_ok fs k e e' : fs_ok fs → f_nodes fs !! k = Some e → alike e e' → content_ok e' → fs_ok (put_node fs e').
Proof.
  intros Hok Hk Ha Hc. pose proof (alike_is _ _ Ha) as (Hd&Hf&Hs&Hi). destruct Ha as [Hid _].
  destruct (ok_node fs Hok k e Hk) as (Hek&Hb&_). assert (Hid' : e_id e' = k) by congruence. clear Hid.
  assert (Hl : ∀ q x, look fs q = Some x → is_dir x = true → ∃ x', look (put_node fs e') q = Some x' ∧ is_dir x' = true).
  { intros q x (j&Hj&Hx)%look_some Hdir. unfold look. cbn. rewrite Hj. cbn. rewrite Hid'. destruct (decide (j = k)) as [->|].
    - exists e'. rewrite lookup_insert_eq. split; [done|]. congruence.
    - exists x. by rewrite lookup_insert_ne. }
  assert (Hat : ∀ j x, <[k := e']> (f_nodes fs) !! j = Some x → (j = k ∧ x = e') ∨ f_nodes fs !! j = Some x).
  { intros j x [[-> ->]|[_ H]]%lookup_insert_Some; auto. }
  split; cbn [put_node with_maps f_names f_nodes f_next f_symlinks f_pipes]; rewrite ?Hid'.
  - intros p j Hj. destruct (ok_placed fs Hok p j Hj) as (x&Hx&Hp). destruct (decide (j = k)) as [->|Hn].
    + exists e'. rewrite lookup_insert_eq. split; [done|]. assert (x = e) as -> by congruence.
      destruct Hp as [[-> H]|(H1&H2&H3)]; [left; split; congruence|right]. split_and!; [done..|]. by eapply dir_at_mono.
    + exists x. rewrite lookup_insert_ne by done. split; [done|]. destruct Hp as [H|(H1&H2&H3)]; [by left|right]. split_and!; [done..|]. by eapply dir_at_mono.
  - intros j x [[-> ->]|Hx]%Hat; [|by apply (ok_node fs Hok)]. done.
  - apply Hok.
  - rewrite (links_update _ _ e) by done. apply Hok.
  - intros j x i [[-> ->]|Hx]%Hat Hk'; [|by eapply (ok_fifo fs Hok)]. eapply (ok_fifo fs Hok); [exact Hk|]. by apply Hi.
  - intros j1 j2 x1 x2 i [[-> ->]|H1]%Hat [[-> ->]|H2]%Hat E1 E2; [done|..].
    + eapply (ok_fifos fs Hok _ _ e x2); try done. by apply Hi.
    + eapply (ok_fifos fs Hok _ _ x1 e); try done. by apply Hi.
    + by eapply (ok_fifos fs Hok).
  - apply Hok.
Qed.

Lemma touch_ok dir now fs : fs_ok fs → fs_ok (s_touch dir now fs).
Proof.
  intros Hok. unfold s_touch. case_if; [by destruct Hok|]. destruct (look fs dir) as [e|] eqn:E; [|done]. apply look_some in E as (k&_&Hk).
  eapply put_node_ok; [done|exact Hk|by split; [|left]|]. by apply (ok_node fs Hok) in Hk as (_&_&?).
Qed.

(** A new entry, with [n] for the count of links. *)
Lemma new_ok p kd now n fs : fs_ok fs → f_next fs < U64_MAX → f_names fs !! p = None → Z.of_nat (size (f_names fs)) < MAX_ENTRIES →
  (p = kept_name (f_next fs) ∧ (∃ d, kd = File d)) ∨ (valid_rel_path p = true ∧ 0 ∉ p ∧ dir_at fs (parent_of p) = true) →
  let e := {| e_id := f_next fs; e_kind := kd; e_atime := now; e_mtime := now |} in content_ok e →
  f_symlinks fs + (if is_symlink e then 1 else 0) <= n <= f_symlinks fs + 1 →
  (∀ i, kd = Fifo i → has_pipe (f_pipes fs) i ∧ ∀ k x, f_nodes fs !! k = Some x → e_kind x ≠ Fifo i) →
  fs_ok (with_links (s_new p kd now fs) n).
Proof.
  intros Hok Hb Hp Hsz Hpl e Hc Hn Hfi. assert (Hk : f_nodes fs !! f_next fs = None).
  { apply eq_None_not_Some. intros [x Hx]. apply (ok_node fs Hok) in Hx. lia. }
  pose proof (ok_links fs Hok) as Hl. assert (Hnx : (f_next fs + 1) mod 2 ^ 64 = f_next fs + 1).
  { apply Z.mod_small. unfold U64_MAX in Hb. unfold links in Hl. lia. }
  set (fs' := with_links _ n). assert (Hmono : ∀ q x, look fs q = Some x → is_dir x = true → ∃ x', look fs' q = Some x' ∧ is_dir x' = true).
  { intros q x (j&Hj&Hx)%look_some Hd. exists x. split; [|done]. apply look_some. exists j. cbn. split.
    - rewrite lookup_insert_ne; [done|]. intros ->. congruence.
    - rewrite lookup_insert_ne; [done|]. intros <-. congruence. }
  split; cbn [fs' with_links s_new f_names f_nodes f_next f_symlinks f_pipes]; rewrite ?Hnx.
  - intros q j [[<- <-]|[Hq Hj]]%lookup_insert_Some.
    + exists e. rewrite lookup_insert_eq. split; [done|]. destruct Hpl as [[-> [d ->]]|(H1&H2&H3)]; [by left|right]. split_and!; [done..|]. by eapply dir_at_mono.
    + destruct (ok_placed fs Hok q j Hj) as (x&Hx&Hpx). exists x. rewrite lookup_insert_ne by congruence. split; [done|].
      destruct Hpx as [H|(H1&H2&H3)]; [by left|right]. split_and!; [done..|]. by eapply dir_at_mono.
  - intros j x [[<- <-]|[Hj Hx]]%lookup_insert_Some; [split_and!; [done|unfold links in Hl; cbn; lia|cbn; lia|done]|].
    apply (ok_node fs Hok) in Hx as (?&?&?). split_and!; (done || lia).
  - rewrite map_size_insert_None by done. lia.
  - fold e. rewrite links_insert by done. lia.
  - intros j x i [[<- <-]|[Hj Hx]]%lookup_insert_Some E; [by apply Hfi|by eapply (ok_fifo fs Hok)].
  - intros j1 j2 x1 x2 i [[<- <-]|[Hj1 H1]]%lookup_insert_Some [[<- <-]|[Hj2 H2]]%lookup_insert_Some E1 E2; [done|..].
    + destruct (Hfi i E1) as [_ Hno]. by destruct (Hno j2 x2 H2).
    + destruct (Hfi i E2) as [_ Hno]. by destruct (Hno j1 x1 H1).
    + by eapply (ok_fifos fs Hok).
  - apply Hok.
Qed.

(** An entry goes, with what it had: a count of links and a state of pipes. *)
Lemma del_ok p k e n st fs : fs_ok fs → (∀ q, f_names fs !! q = Some k → q = p) → f_names fs !! p = Some k → f_nodes fs !! k = Some e →
  (is_dir e = true → empty_dir p fs) → f_symlinks fs - (if is_symlink e then 1 else 0) <= n <= f_symlinks fs → Pipe.wf st →
  (∀ i, has_pipe (f_pipes fs) i → e_kind e ≠ Fifo i → has_pipe st i) →
  fs_ok (with_pipes (with_links (with_maps fs (delete p (f_names fs)) (delete k (f_nodes fs))) n) st).
Proof.
  intros Hok Hinj Hp Hk Hd Hn Hst Hpi. set (fs' := with_pipes _ st).
  assert (Hpar : ∀ q j, q ≠ p → f_names fs !! q = Some j → valid_rel_path q = true → dir_at fs (parent_of q) = true → dir_at fs' (parent_of q) = true).
  { intros q j Hq Hj Hv. rewrite !dir_at_some. intros [?|(x&(k'&Hk'&Hx)%look_some&Hdx)]; [by left|right]. exists x. split; [|done].
    apply look_some. exists k'. cbn. assert (Hne : p ≠ parent_of q).
    { intros ->. assert (x = e) as -> by congruence. apply (Hd Hdx q j Hj). destruct (decide (SLASH ∈ q)) as [H|H].
      - destruct (parent_split q H) as (b&E&_). by exists b.
      - rewrite parent_none in Hp by done. destruct (ok_placed fs Hok [] k Hp) as (y&_&[[? _]|(?&_)]); done. }
    split; [by rewrite lookup_delete_ne|]. rewrite lookup_delete_ne; [done|]. intros <-. apply Hne. symmetry. by apply Hinj. }
  split; cbn [fs' with_pipes with_links with_maps f_names f_nodes f_next f_symlinks f_pipes].
  - intros q j [Hq Hj]%lookup_delete_Some. destruct (ok_placed fs Hok q j Hj) as (x&Hx&Hpx). exists x.
    rewrite lookup_delete_ne by (intros <-; by apply Hq; rewrite (Hinj q)). split; [done|].
    destruct Hpx as [H|(H1&H2&H3)]; [by left|right]. split_and!; [done..|]. by eapply Hpar.
  - intros j x [_ Hx]%lookup_delete_Some. by apply (ok_node fs Hok).
  - rewrite map_size_delete, Hp. pose proof (ok_size fs Hok). lia.
  - rewrite (links_delete _ _ e) by done. pose proof (ok_links fs Hok). lia.
  - intros j x i [Hj Hx]%lookup_delete_Some E. apply Hpi; [by eapply (ok_fifo fs Hok)|]. intros E'. apply Hj. by eapply (ok_fifos fs Hok).
  - intros j1 j2 x1 x2 i [_ H1]%lookup_delete_Some [_ H2]%lookup_delete_Some. by eapply (ok_fifos fs Hok).
  - done.
Qed.

(** Names that move: the entries stay, and where they go is a place. *)
Lemma moved_ok m fs : fs_ok fs → Z.of_nat (size m) <= MAX_ENTRIES →
  (∀ q k, m !! q = Some k → ∃ e, f_nodes fs !! k = Some e ∧ placed (with_maps fs m (f_nodes fs)) q e) →
  fs_ok (with_maps fs m (f_nodes fs)).
Proof. intros Hok Hs Hp. split; cbn [with_maps f_names f_nodes f_next f_symlinks f_pipes]; [done|apply Hok|done|apply Hok..]. Qed.

Lemma keep_ok p k e fs : fs_ok fs → f_next fs <= U64_MAX → (∀ q, f_names fs !! q = Some k → q = p) → f_names fs !! p = Some k →
  f_nodes fs !! k = Some e → is_file e = true → 0 ∉ p →
  fs_ok (with_maps fs (<[kept_name k := k]> (delete p (f_names fs))) (f_nodes fs)) ∧ f_names fs !! kept_name k = None.
Proof.
  intros Hok Hu Hinj Hp Hk Hf H0. destruct (ok_node fs Hok k e Hk) as (Hid&Hb&_).
  assert (Hfree : f_names fs !! kept_name k = None).
  { apply eq_None_not_Some. intros [j Hj]. destruct (ok_placed fs Hok _ _ Hj) as (x&Hx&[[E _]|(_&Hn&_)]); [|by apply Hn, kept_nul].
    apply (ok_node fs Hok) in Hx as (Hx&Hbx&_). apply kept_inj in E; [|lia..].
    assert (j = k) as -> by congruence. apply Hinj in Hj. rewrite <- Hj in H0. apply H0, kept_nul. }
  split; [|done]. apply moved_ok; [done|..].
  - rewrite map_size_insert_None by (apply lookup_delete_None; by right). rewrite map_size_delete, Hp. pose proof (ok_size fs Hok).
    assert (size (f_names fs) ≠ 0%nat) by (apply map_size_ne_0_lookup; by exists p, k). lia.
  - intros q j [[<- <-]|[Hq [Hqp Hj]%lookup_delete_Some]]%lookup_insert_Some; [exists e; split; [done|left; by rewrite Hid]|].
    destruct (ok_placed fs Hok q j Hj) as (x&Hx&Hpx). exists x. split; [done|]. destruct Hpx as [H|(H1&H2&H3)]; [by left|right]. split_and!; [done..|].
    revert H3. apply dir_at_mono. intros q' x' (j'&Hj'&Hx')%look_some Hd. exists x'. split; [|done]. apply look_some. exists j'. cbn. split; [|done].
    rewrite lookup_insert_ne by congruence. rewrite lookup_delete_ne; [done|]. intros <-. assert (x' = e) as -> by congruence.
    unfold is_file in Hf. unfold is_dir in Hd. by destruct (e_kind e).
Qed.

(** ** Renames *)

Lemma relabel_inj (old new : list Z) (m : gmap (list Z) Z) p q : (∀ r, r = new ∨ under new r → m !! r = None) → is_Some (m !! p) → is_Some (m !! q) →
  relabel old new p = relabel old new q → p = q.
Proof.
  intros Hf Hp Hq. assert (Hgo : ∀ r, r = old ∨ under old r → relabel old new r = new ∨ under new (relabel old new r)).
  { intros r [->|[x ->]]; [left; apply relabel_old|right; rewrite relabel_under; by eexists]. }
  destruct (decide (p = old ∨ under old p)) as [Op|Op], (decide (q = old ∨ under old q)) as [Oq|Oq].
  - destruct Op as [->|[x ->]], Oq as [->|[y ->]]; rewrite ?relabel_old, ?relabel_under; [done|..].
    + intros E. rewrite <- (app_nil_r new) in E at 1. by apply app_inv_head in E.
    + intros E. rewrite <- (app_nil_r new) in E at 2. by apply app_inv_head in E.
    + by intros ->%app_inv_head.
  - rewrite (relabel_other old new q) by tauto. intros E. destruct Hq as [v Hv]. rewrite <- E, Hf in Hv; [done|]. by apply Hgo.
  - rewrite (relabel_other old new p) by tauto. intros E. destruct Hp as [v Hv]. rewrite E, Hf in Hv; [done|]. by apply Hgo.
  - by rewrite !relabel_other by tauto.
Qed.

Lemma relabelled_ok (old new : list Z) m : (∀ r, r = new ∨ under new r → m !! r = None) →
  through (relabel old new) m (relabelled old new m) ∧ size (relabelled old new m) = size m.
Proof.
  intros Hf. set (l := (λ x : list Z * Z, (relabel old new x.1, x.2)) <$> map_to_list m).
  assert (Hnd : NoDup l.*1).
  { subst l. rewrite <- list_fmap_compose. apply NoDup_fmap_2_strong; [|apply NoDup_map_to_list].
    intros [p v] [q w] Hp%elem_of_map_to_list Hq%elem_of_map_to_list E. cbn in E. assert (p = q) as -> by (eapply relabel_inj; [done|by eexists..|done]). congruence. }
  split.
  - intros q k. unfold relabelled. fold l. rewrite <- elem_of_list_to_map by done. subst l. rewrite list_elem_of_fmap. split.
    + intros ([p v]&[= -> ->]&H%elem_of_map_to_list). by exists p.
    + intros (p&<-&H). exists (p, k). by rewrite elem_of_map_to_list.
  - unfold relabelled. fold l. rewrite map_size_list_to_map by done. subst l. rewrite length_fmap. apply length_map_to_list.
Qed.

Lemma rename_ok (old new : list Z) e fs : fs_ok fs → look fs old = Some e → valid_rel_path new = true → 0 ∉ old → 0 ∉ new → ~ under old new →
  (∀ r, r = new ∨ under new r → f_names fs !! r = None) → dir_at fs (parent_of new) = true → fits_under old new fs →
  fs_ok (with_maps fs (relabelled old new (f_names fs)) (f_nodes fs)).
Proof.
  intros Hok Ho Hv H0o H0n Hu Hf Hd Hfit. destruct (relabelled_ok old new (f_names fs) Hf) as [Ht Hs]. set (m := relabelled _ _ _) in *.
  assert (Hdir : ∀ p, dir_at fs p = true → p ≠ [] → dir_at (with_maps fs m (f_nodes fs)) (relabel old new p) = true).
  { intros p [?|(x&(j&Hj&Hx)%look_some&Hdx)]%dir_at_some Hp; [done|]. apply dir_at_some. right. exists x. split; [|done]. apply look_some. exists j.
    split; [|done]. apply Ht. by exists p. }
  assert (Hpar : ∀ p, p = old ∨ under old p ∨ parent_of p = [] ∨ relabel old new (parent_of p) = parent_of p).
  { intros p. destruct (decide (SLASH ∈ p)) as [H|H]; [|right; right; left; by apply parent_none].
    destruct (parent_split p H) as (b&E&_). destruct (decide (parent_of p = old)) as [<-|H1]; [right; left; by exists b|].
    destruct (decide (under old (parent_of p))) as [[r Er]|H2]; [|do 3 right; by apply relabel_other].
    right. left. rewrite E, Er, <- app_assoc. by eexists. }
  apply moved_ok; [done|rewrite Hs; apply Hok|]. intros q k (p&<-&Hp)%Ht. destruct (ok_placed fs Hok p k Hp) as (x&Hx&Hpx). exists x. split; [done|].
  destruct Hpx as [[-> Hfx]|(P1&P2&P3)].
  { left. split; [|done]. apply relabel_other; [intros <-; by apply H0o, kept_nul|]. intros H%under_slash. apply (ok_node fs Hok) in Hx as (?&?&_).
    eapply kept_no_slash; [|exact H]. lia. }
  right. destruct (decide (p = old)) as [->|Hne]; [|destruct (decide (under old p)) as [Hup|Hup]].
  - rewrite relabel_old. split_and!; [done..|]. destruct (Hpar new) as [->|[?|[->|<-]]]; [|done|by apply dir_at_some; left|].
    { by rewrite Hf in Hp by (by left). }
    destruct (decide (parent_of new = [])) as [->|]; [|by apply Hdir]. rewrite relabel_other; [by apply dir_at_some; left|..].
    + intros <-. by apply valid_nonempty in P1.
    + intros [r E]. by destruct old.
  - split_and!; [by eapply relabel_valid; [..|eapply Hfit]|..].
    + destruct Hup as [r ->]. rewrite relabel_under. rewrite elem_of_app in *. tauto.
    + rewrite relabel_parent by done. apply Hdir; [done|]. intros E. destruct (under_parent old p Hup) as [<-|[r Er]].
      * apply look_some in Ho as (ko&Hko&_). rewrite E in Hko. destruct (ok_placed fs Hok [] ko Hko) as (y&_&[[? _]|(?&_)]); done.
      * rewrite E in Er. by destruct old.
  - rewrite relabel_other by done. split_and!; [done..|]. destruct (Hpar p) as [?|[?|[->|<-]]]; [done..|by apply dir_at_some; left|].
    destruct (decide (parent_of p = [])) as [E|]; [|by apply Hdir]. rewrite E. rewrite relabel_other; [by apply dir_at_some; left|..].
    + intros <-. apply look_some in Ho as (ko&Hko&_). destruct (ok_placed fs Hok [] ko Hko) as (y&_&[[? _]|(?&_)]); done.
    + intros [r Er]. by destruct old.
Qed.
