(* ===== verification/TmpfsRefine.v ===== *)
(** * The in-memory file system keeps its promise

    Each call on the table of [Tmpfs.v] does to its two maps what
    [TmpfsSpec.v] says, answers the same, and does not panic. *)

From S2P Require Import Prelude Pipe Text.
From stdpp Require Import gmap sorting list.
From S2P Require Import Tmpfs TmpfsRep TmpfsSpec TmpfsTree.

Open Scope Z_scope.

Record wf (s : Tmpfs) : Prop := { wf_rep : rep_ok (tree s); wf_fs : fs_ok (abs s) }.

(** ** Lookups *)

Section lookups.
Context (s : Tmpfs) (Hr : rep_ok (tree s)).

Lemma get_look p : get (tree s) p = look (abs s) p.
Proof using Hr. by apply get_nodes. Qed.

Lemma slot_at_look at_ : match slot_at (tree s) at_ with
  | Some i => ∃ e, slot (tree s) i = Some e ∧ look_at (abs s) at_ = Some e
  | None => look_at (abs s) at_ = None
  end.
Proof using Hr.
  destruct at_ as [p|k]; cbn [slot_at look_at].
  - destruct (valid_rel_path p); [|done]. rewrite <- get_look. unfold get. destruct (by_path (tree s) !! p) as [i|] eqn:E; [|done]. cbn.
    destruct (rep_path _ Hr _ _ E) as [e He]. by exists e.
  - cbn. rewrite nodes_lookup. destruct (by_id (tree s) !! k) as [i|] eqn:E; [|done]. cbn. apply (rep_id _ Hr) in E.
    destruct (slot (tree s) i) as [e|]; [|done]. by exists e.
Qed.

Lemma entry_at_look at_ : entry_at (tree s) at_ = look_at (abs s) at_.
Proof using Hr. unfold entry_at. pose proof (slot_at_look at_) as H. destruct (slot_at (tree s) at_); [|done]. cbn. by destruct H as (e&->&->). Qed.

Lemma by_path_look p : match by_path (tree s) !! p with
  | Some i => ∃ e, slot (tree s) i = Some e ∧ look (abs s) p = Some e
  | None => look (abs s) p = None
  end.
Proof using Hr.
  rewrite <- get_look. unfold get. destruct (by_path (tree s) !! p) as [i|] eqn:E; [|done]. cbn.
  destruct (rep_path _ Hr _ _ E) as [e He]. by exists e.
Qed.

Lemma look_none p : look (abs s) p = None ↔ f_names (abs s) !! p = None.
Proof using Hr.
  rewrite <- get_look. cbn. rewrite <- by_path_names by done. unfold get. destruct (by_path (tree s) !! p) as [i|] eqn:E; [|done]. cbn.
  destruct (rep_path _ Hr _ _ E) as [e ->]. done.
Qed.

Lemma is_dir_path_look p : is_dir_path (tree s) p = dir_at (abs s) p.
Proof using Hr. unfold is_dir_path, dir_at. by rewrite get_look. Qed.

Lemma parent_ok_look p : parent_ok (tree s) p = dir_at (abs s) (parent_of p).
Proof using Hr. apply is_dir_path_look. Qed.

Lemma tree_len_full : (MAX_ENTRIES <=? tree_len (tree s)) = full (abs s).
Proof using Hr. unfold full. by rewrite tree_len_names. Qed.

Lemma has_children_look p : p ≠ [] → has_children (tree s) p = negb (bool_decide (empty_dir p (abs s))).
Proof using Hr.
  intros Hp. unfold has_children. destruct p as [|c p]; [done|]. cbn [nonempty negb]. set (d := c :: p) in *.
  destruct (below (tree s) d) as [|q l] eqn:E.
  - rewrite bool_decide_eq_true_2; [done|]. intros q k Hq Hu. assert (H : q ∈ below (tree s) d) by (apply below_elem; [done|]; split; [by eexists|done]).
    rewrite E in H. by apply elem_of_nil in H.
  - rewrite bool_decide_eq_false_2; [done|]. intros He. assert (H : q ∈ below (tree s) d) by (rewrite E; by constructor).
    apply below_elem in H as [[k Hk] Hu]; [|done]. by apply (He q k Hk).
Qed.

End lookups.

(** ** What the calls are made of *)

Lemma modify_abs f i e s : rep_ok (tree s) → slot (tree s) i = Some e → e_id (f e) = e_id e →
  let s' := set_tree s (modify f i (tree s)) in rep_ok (tree s') ∧ abs s' = put_node (abs s) (f e).
Proof.
  intros Hr Hs Hid. destruct (modify_rep f i e _ Hr Hs Hid) as (H1&H2&H3). cbn zeta. split; [done|].
  unfold abs, put_node, with_maps. cbn. by rewrite H2, H3, Hid.
Qed.

Lemma touch_abs dir now s : rep_ok (tree s) → rep_ok (tree (touch_dir dir now s)) ∧ abs (touch_dir dir now s) = s_touch dir now (abs s).
Proof.
  intros Hr. unfold touch_dir, s_touch. case_if; [done|]. pose proof (by_path_look s Hr dir) as H.
  destruct (by_path (tree s) !! dir) as [i|]; [|by rewrite H]. destruct H as (e&Hs&->). by apply modify_abs.
Qed.

Lemma touch_wf dir now s fs : rep_ok (tree s) → abs s = fs → fs_ok fs →
  wf (touch_dir dir now s) ∧ abs (touch_dir dir now s) = s_touch dir now fs.
Proof.
  intros Hr <- Hok. destruct (touch_abs dir now s Hr) as [H1 H2]. split; [|done]. split; [done|]. rewrite H2. by apply touch_ok.
Qed.

Lemma with_links_touch dir now fs n : with_links (s_touch dir now fs) n = s_touch dir now (with_links fs n).
Proof. unfold s_touch. case_if; [done|]. change (look (with_links fs n) dir) with (look fs dir). by destruct (look fs dir). Qed.

Lemma with_links_same fs : with_links fs (f_symlinks fs) = fs.
Proof. by destruct fs. Qed.

Lemma new_abs p kd now s : rep_ok (tree s) → fs_ok (abs s) → f_names (abs s) !! p = None →
  ∃ t, insert p {| e_id := next_id s; e_kind := kd; e_atime := now; e_mtime := now |} (tree s) = Some t ∧ rep_ok t ∧
    abs (set_tree (new_entry kd now s).2 t) = s_new p kd now (abs s).
Proof.
  intros Hr Hok Hp. destruct (insert_rep p {| e_id := next_id s; e_kind := kd; e_atime := now; e_mtime := now |} (tree s)) as (t&E&H1&H2&H3); [done|done|..].
  { apply eq_None_not_Some. intros [x Hx]. apply (ok_node _ Hok) in Hx. cbn in Hx. lia. }
  exists t. split; [done|]. split; [done|]. unfold abs, s_new. cbn. by rewrite H2, H3.
Qed.

(** A call that makes an entry. *)
Lemma add_wf p kd now n s : wf s → next_id s < U64_MAX → may_make p (abs s) = true → 0 ∉ p →
  (match kd with File d => d = [] | Symlink t => t ≠ [] ∧ zlen t <= LINK_CAP | _ => True end) →
  symlinks s + (match kd with Symlink _ => 1 | _ => 0 end) <= n <= symlinks s + 1 →
  (∀ i, kd = Fifo i → has_pipe (pipes s) i ∧ ∀ k x, f_nodes (abs s) !! k = Some x → e_kind x ≠ Fifo i) →
  ∃ s', add p kd now s = Some (true, s') ∧ abs s' = s_make p kd now (abs s) ∧ symlinks s' = symlinks s ∧ wf (set_symlinks s' n).
Proof.
  intros [Hr Hok] Hb Hm H0 Hc Hn Hfi. unfold may_make in Hm. apply andb_true_iff in Hm as [Hm Hfull]. apply andb_true_iff in Hm as [Hm Hd].
  apply andb_true_iff in Hm as [Hv Hp]. apply bool_decide_eq_true in Hp. apply negb_true_iff in Hfull. unfold full in Hfull. bool_hyps.
  destruct (new_abs p kd now s Hr Hok Hp) as (t&E&Hrt&Ha). unfold add. cbn [new_entry e_id]. cbn [new_entry] in Ha. cbn [tree].
  change (tree {| tree := tree s; next_id := _; root_atime := _; root_mtime := _; symlinks := _; pipes := _ |}) with (tree s).
  rewrite E. cbn [mbind option_bind]. eexists. split; [done|]. set (s1 := set_tree _ t) in *.
  destruct (touch_abs (parent_of p) now s1 Hrt) as [H1 H2]. split; [rewrite H2, Ha; done|].
  assert (Hl : symlinks (touch_dir (parent_of p) now s1) = symlinks s).
  { change (f_symlinks (abs (touch_dir (parent_of p) now s1)) = symlinks s). rewrite H2, Ha. unfold s_touch. case_if; [done|]. by destruct (look _ _). }
  split; [done|]. split; [done|]. change (abs (set_symlinks (touch_dir (parent_of p) now s1) n)) with (with_links (abs (touch_dir (parent_of p) now s1)) n).
  rewrite H2, Ha, with_links_touch. apply touch_ok.
  apply new_ok; try done; [by right| |]; destruct kd; cbn; try done. by rewrite Hc.
Qed.

Lemma symlinks_same s n : symlinks s = n → set_symlinks s n = s.
Proof. intros <-. by destruct s. Qed.

(** What follows from [look_at] on a path. *)
Lemma look_at_path s p e : rep_ok (tree s) → look_at (abs s) (AtPath p) = Some e → fs_ok (abs s) →
  valid_rel_path p = true ∧ f_names (abs s) !! p = Some (e_id e) ∧ f_nodes (abs s) !! e_id e = Some e ∧
  ∀ q, f_names (abs s) !! q = Some (e_id e) → q = p.
Proof.
  intros Hr Hl Hok. cbn [look_at] in Hl. destruct (valid_rel_path p); [|done]. apply look_some in Hl as (k&Hp&He).
  destruct (ok_node _ Hok _ _ He) as [-> _]. split_and!; [done..|]. intros q Hq. by eapply (names_inj (tree s)).
Qed.

(** A call that takes an entry away, from a state that differs in the count
    of links and in the pipes. *)
Lemma drop_wf p e now s s0 : wf s → look_at (abs s) (AtPath p) = Some e →
  tree s0 = tree s → abs s0 = with_pipes (with_links (abs s) (symlinks s0)) (pipes s0) → (is_dir e = true → empty_dir p (abs s)) →
  symlinks s - (if is_symlink e then 1 else 0) <= symlinks s0 <= symlinks s → Pipe.wf (pipes s0) →
  (∀ i, has_pipe (pipes s) i → e_kind e ≠ Fifo i → has_pipe (pipes s0) i) →
  ∃ s', drop_entry p now s0 = Some (true, s') ∧ abs s' = s_drop p now (abs s0) ∧ wf s'.
Proof.
  intros [Hr Hok] Hl Ht Ha Hd Hn Hw Hp. destruct (look_at_path s p e Hr Hl Hok) as (Hv&Hpk&Hk&Hinj).
  destruct (remove_rep p _ _ (tree s) Hr Hpk Hk) as (t&E&Hrt&H1&H2). unfold drop_entry. rewrite Ht, E. cbn [mbind option_bind].
  eexists. split; [done|]. pose proof (del_ok p _ e (symlinks s0) (pipes s0) (abs s) Hok Hinj Hpk Hk Hd Hn Hw Hp) as Hok'.
  edestruct (touch_wf (parent_of p) now (set_tree s0 t)) as [H3 H4]; [done| |exact Hok'|].
  { assert (En : next_id s0 = next_id s ∧ root_atime s0 = root_atime s ∧ root_mtime s0 = root_mtime s) by (injection Ha; auto).
    destruct En as (E1&E2&E3). unfold abs. cbn. by rewrite H1, H2, E1, E2, E3. }
  split; [|done]. rewrite H4. unfold s_drop. rewrite Ha. cbn [f_names with_pipes with_links]. by rewrite Hpk.
Qed.

Lemma pipes_ok st fs : fs_ok fs → Pipe.wf st → (∀ i, has_pipe (f_pipes fs) i → has_pipe st i) → fs_ok (with_pipes fs st).
Proof. intros [H1 H2 H3 H4 H5 H6 H7] Hw Hp. split; try done. cbn. intros k e i Hk He. by eapply Hp, H5. Qed.

Lemma links_pos n k e : n !! k = Some e → is_symlink e = true → 1 <= links n.
Proof.
  intros Hk He. unfold links. enough (size (filter (λ x : Z * Entry, is_symlink x.2 = true) n) ≠ 0%nat) by lia.
  apply map_size_ne_0_lookup. exists k, e. by apply map_lookup_filter_Some.
Qed.

(** ** Bytes *)

Lemma copy_over (l buf : list Z) n : zlen l = n → n <= zlen buf → copy_slice buf 0 n l = Some (over l buf).
Proof. intros <- Hn. by rewrite copy_slice_ok by lia. Qed.

Lemma written_splice (data buf : list Z) pos : 0 <= pos → let end_ := pos + zlen buf in
  let d := if zlen data <? end_ then resize (Z.to_nat end_) 0 data else data in copy_slice d pos end_ buf = Some (written data pos buf).
Proof.
  intros Hp end_ d. rewrite copy_slice_ok; [|lia|lia| |lia].
  2:{ subst d. case_if; [rewrite length_resize|]; lia. }
  f_equal. unfold splice, written. subst d. case_if.
  - rewrite resize_spec, (take_ge data) by lia. rewrite !take_app, !take_replicate. f_equal; [f_equal; f_equal; lia|]. f_equal.
    rewrite drop_ge by (rewrite length_app, length_replicate; lia). by rewrite drop_ge by lia.
  - replace (Z.to_nat pos - length data)%nat with 0%nat by lia. cbn [replicate]. by rewrite app_nil_r.
Qed.

Lemma written_length (data buf : list Z) pos : 0 <= pos → zlen (written data pos buf) = Z.max (zlen data) (pos + zlen buf).
Proof. intros Hp. unfold written. rewrite !length_app, length_take, length_app, length_replicate, length_drop. lia. Qed.

Lemma take_length_take (l : list Z) n : take (length (take n l)) l = take n l.
Proof. rewrite length_take. destruct (decide (n <= length l)%nat); [f_equal; lia|]. by rewrite !take_ge by lia. Qed.

(** ** The calls one by one *)

Definition simulated (o : Op) (s : Tmpfs) : Prop := ∃ a s', exec o s = Some (a, s') ∧ spec o (abs s) = (a, abs s') ∧ wf s'.

(** A call that changes nothing. *)
Ltac stay := match goal with s : Tmpfs |- _ => by eexists _, s end.

Section calls.
Context (s : Tmpfs) (Hwf : wf s) (Hnext : next_id s < U64_MAX).

Let Hr : rep_ok (tree s) := wf_rep s Hwf.
Let Hok : fs_ok (abs s) := wf_fs s Hwf.

Lemma file_id_sim p : simulated (FileId p) s.
Proof using Hwf. unfold simulated. cbn [exec spec]. unfold file_id. rewrite entry_at_look by done. stay. Qed.

Lemma kept_free k : f_nodes (abs s) !! k = None → 0 <= k <= U64_MAX → f_names (abs s) !! kept_name k = None.
Proof using Hwf Hnext.
  intros Hk Hb. apply eq_None_not_Some. intros [j Hj]. destruct (ok_placed _ Hok _ _ Hj) as (e&He&[[E _]|(_&H&_)]); [|by apply H, kept_nul].
  destruct (ok_node _ Hok _ _ He) as (<-&?&_). apply kept_inj in E; [congruence|done|]. change (f_next (abs s)) with (next_id s) in *. lia.
Qed.

Lemma unlink_keep_sim p now : 0 ∉ p → simulated (UnlinkKeep p now) s.
Proof using Hwf Hnext.
  intros H0. unfold simulated. cbn [exec spec]. unfold unlink_keep. rewrite entry_at_look by done.
  destruct (look_at (abs s) (AtPath p)) as [e|] eqn:El; [|stay]. destruct (is_file e) eqn:Ef; [|stay]. cbn [negb].
  destruct (look_at_path s p e Hr El Hok) as (Hv&Hp&Hk&Hinj).
  destruct (keep_ok p (e_id e) e (abs s) Hok) as [Hok' Hfree]; try done; [change (f_next (abs s)) with (next_id s); lia|].
  destruct (move_to_rep p (kept_name (e_id e)) (e_id e) (tree s) Hr Hp Hfree) as (H1&H2&H3).
  edestruct (touch_wf (parent_of p) now (set_tree s (move_to p (kept_name (e_id e)) (tree s)))) as [H4 H5]; [done| |exact Hok'|].
  { unfold abs. cbn. by rewrite H2, H3. }
  eexists _, _. split; [done|]. by rewrite H5.
Qed.

Lemma create_kept_sim now : simulated (CreateKept now) s.
Proof using Hwf Hnext.
  unfold simulated. cbn [exec spec]. unfold create_kept. rewrite tree_len_full by done. destruct (full (abs s)) eqn:Ef; [stay|].
  pose proof (ok_links _ Hok) as Hl. assert (Hn : 0 <= next_id s) by (unfold links in Hl; cbn in Hl; lia).
  assert (Hfree : f_names (abs s) !! kept_name (next_id s) = None).
  { apply kept_free; [|lia]. apply eq_None_not_Some. intros [x Hx]. apply (ok_node _ Hok) in Hx. cbn in Hx. lia. }
  destruct (new_abs (kept_name (next_id s)) (File []) now s Hr Hok Hfree) as (t&E&Hrt&Ha). cbn [new_entry e_id] in *. cbn [tree]. rewrite E. cbn [mbind option_bind].
  exists (AId (Some (next_id s))), (set_tree (new_entry (File []) now s).2 t). split; [done|]. rewrite Ha. split; [done|]. split; [done|]. rewrite Ha.
  change (fs_ok (with_links (s_new (kept_name (next_id s)) (File []) now (abs s)) (symlinks s))). unfold full in Ef. bool_hyps.
  apply new_ok; try done; [left; eauto|cbn; lia].
Qed.

Lemma forget_sim k : simulated (Forget k) s.
Proof using Hwf.
  unfold simulated. cbn [exec spec]. unfold forget. pose proof (by_path_names (tree s) (kept_name k) Hr) as Hb. cbn [f_names abs].
  destruct (names (tree s) !! kept_name k) as [j|] eqn:E.
  2:{ rewrite bool_decide_eq_false_2 by (rewrite (proj2 Hb) by done; by intros []). stay. }
  rewrite bool_decide_eq_true_2 by (destruct (by_path (tree s) !! kept_name k); [by eexists|]; by discriminate (proj1 Hb eq_refl)).
  destruct (ok_placed _ Hok _ _ E) as (e&He&[[_ Hf]|(_&H&_)]); [|by destruct H; apply kept_nul].
  destruct (remove_rep _ _ _ (tree s) Hr E He) as (t&Et&Hrt&H1&H2). rewrite Et. cbn [mbind option_bind].
  eexists _, _. split; [done|]. assert (Ha : abs (set_tree s t) = with_maps (abs s) (delete (kept_name k) (f_names (abs s))) (delete j (f_nodes (abs s)))).
  { unfold abs. cbn. by rewrite H1, H2. }
  rewrite Ha. split; [done|]. split; [done|]. rewrite Ha.
  refine (del_ok _ j e (symlinks s) (pipes s) (abs s) Hok _ E He _ _ (ok_pipes _ Hok) _).
  - intros q Hq. by eapply (names_inj (tree s)).
  - unfold is_dir, is_file in *. by destruct (e_kind e).
  - unfold is_symlink, is_file in *. destruct (e_kind e); try done. cbn. lia.
  - done.
Qed.

(** What the guards of the calls that make an entry come to. *)
Lemma may_make_alt p : may_make p (abs s) =
  valid_rel_path p && bool_decide (look (abs s) p = None) && parent_ok (tree s) p && negb (MAX_ENTRIES <=? tree_len (tree s)).
Proof using Hwf. unfold may_make. rewrite parent_ok_look, tree_len_full by done. by rewrite (bool_decide_ext _ _ (look_none s Hr p)). Qed.

Lemma create_sim p now : 0 ∉ p → simulated (Create p now) s.
Proof using Hwf Hnext.
  intros H0. unfold simulated. cbn [exec spec look_at]. unfold create. rewrite get_look by done.
  pose proof (may_make_alt p) as Hm. destruct (valid_rel_path p); cbn [negb]; [|rewrite Hm; stay].
  destruct (look (abs s) p) eqn:El; [stay|]. rewrite bool_decide_eq_true_2 in Hm by done. cbn [andb] in Hm.
  destruct (parent_ok (tree s) p); cbn [negb]; [|rewrite Hm; stay].
  destruct (MAX_ENTRIES <=? tree_len (tree s)); [rewrite Hm; stay|].
  destruct (add_wf p (File []) now (symlinks s) s Hwf Hnext Hm H0) as (s'&E&Ha&Hl&Hw); [done|lia|done|].
  rewrite E, Hm. cbn [mbind option_bind]. rewrite symlinks_same in Hw by done. eexists _, s'. by rewrite Ha.
Qed.

Lemma mkdir_sim p now : 0 ∉ p → simulated (Mkdir p now) s.
Proof using Hwf Hnext.
  intros H0. unfold simulated. cbn [exec spec look_at]. unfold mkdir. rewrite get_look by done.
  pose proof (may_make_alt p) as Hm. destruct (valid_rel_path p); cbn [negb]; [|rewrite Hm; stay].
  destruct (look (abs s) p) eqn:El; [rewrite Hm; stay|]. rewrite bool_decide_eq_true_2 in Hm by done. cbn [andb] in Hm.
  rewrite bool_decide_eq_false_2 by (by intros []).
  destruct (parent_ok (tree s) p); cbn [negb]; [|rewrite Hm; stay].
  destruct (MAX_ENTRIES <=? tree_len (tree s)); [rewrite Hm; stay|].
  destruct (add_wf p Dir now (symlinks s) s Hwf Hnext Hm H0) as (s'&E&Ha&Hl&Hw); [done|lia|done|].
  rewrite E, Hm. cbn [mbind option_bind]. rewrite symlinks_same in Hw by done. eexists _, s'. by rewrite Ha.
Qed.

Lemma mkfifo_sim p now : 0 ∉ p → simulated (Mkfifo p now) s.
Proof using Hwf Hnext.
  intros H0. unfold simulated. cbn [exec spec look_at]. unfold mkfifo. rewrite get_look by done.
  pose proof (may_make_alt p) as Hm. destruct (valid_rel_path p); cbn [negb]; [|rewrite Hm; stay].
  destruct (look (abs s) p) eqn:El; [rewrite Hm; stay|]. rewrite bool_decide_eq_true_2 in Hm by done. cbn [andb] in Hm.
  rewrite bool_decide_eq_false_2 by (by intros []). cbn [orb].
  destruct (parent_ok (tree s) p); cbn [negb orb]; [|rewrite Hm; stay].
  destruct (MAX_ENTRIES <=? tree_len (tree s)); [rewrite Hm; stay|]. cbn in Hm. rewrite Hm. cbn [f_pipes abs].
  pose proof (alloc_named_ok (pipes s) (ok_pipes _ Hok)) as Hal. destruct (Pipe.alloc_named (pipes s)) as [i st]. destruct Hal as (Hw&Hkeep&Hi).
  assert (Hwf' : wf (set_pipes s st)) by (split; [done|]; by apply (pipes_ok st (abs s))).
  destruct i as [i|]; [|by eexists _, (set_pipes s st)]. destruct (Hi i eq_refl) as [Hin Hnew].
  destruct (add_wf p (Fifo i) now (symlinks s) (set_pipes s st) Hwf' Hnext Hm H0) as (s'&E&Ha&Hl&Hw'); [done|cbn; lia| |].
  { intros j [= <-]. split; [done|]. intros k x Hx Hf. apply Hnew. by eapply (ok_fifo _ Hok). }
  rewrite E. cbn [mbind option_bind]. rewrite symlinks_same in Hw' by done. eexists _, s'. split; [done|]. by rewrite Ha.
Qed.

Lemma symlink_sim target p now : 0 ∉ p → simulated (Link target p now) s.
Proof using Hwf Hnext.
  intros H0. unfold simulated. cbn [exec spec look_at]. unfold symlink. rewrite get_look by done.
  pose proof (may_make_alt p) as Hm. destruct (valid_rel_path p); cbn [negb]; [|rewrite Hm, andb_false_r; stay].
  rewrite Z.ltb_antisym, <- negb_andb. destruct (nonempty target && (zlen target <=? LINK_CAP)) eqn:Et; [|stay]. cbn [andb negb].
  destruct (look (abs s) p) eqn:El; [rewrite Hm; stay|]. rewrite bool_decide_eq_true_2 in Hm by done. cbn [andb] in Hm.
  rewrite bool_decide_eq_false_2 by (by intros []).
  destruct (parent_ok (tree s) p); cbn [negb]; [|rewrite Hm; stay].
  destruct (MAX_ENTRIES <=? tree_len (tree s)); [rewrite Hm; stay|].
  pose proof (ok_links _ Hok) as Hl. unfold links in Hl. cbn [f_symlinks f_next abs] in Hl.
  assert (Hmod : (symlinks s + 1) mod 2 ^ 64 = symlinks s + 1) by (apply Z.mod_small; unfold U64_MAX in Hnext; lia).
  destruct (add_wf p (Symlink target) now (symlinks s + 1) s Hwf Hnext Hm H0) as (s'&E&Ha&Hls&Hw); [|lia|done|].
  { apply andb_true_iff in Et as [Et ?]. bool_hyps. split; [|done]. by destruct target. }
  rewrite E, Hm. cbn [mbind option_bind]. eexists _, (set_symlinks s' (symlinks s + 1)). rewrite Hls, Hmod. split; [done|].
  cbn [f_symlinks abs]. rewrite Hmod. split; [|done]. by rewrite <- Ha.
Qed.

Lemma rmdir_sim p now : 0 ∉ p → simulated (Rmdir p now) s.
Proof using Hwf.
  intros H0. unfold simulated. cbn [exec spec]. unfold rmdir. rewrite get_look by done. pose proof (drop_wf p) as Hdrop. cbn [look_at] in *.
  destruct (valid_rel_path p) eqn:Ev; cbn [negb]; [|stay].
  destruct (look (abs s) p) as [e|] eqn:El; [|stay]. destruct (is_dir e) eqn:Ed; cbn [negb andb]; [|stay].
  rewrite has_children_look by (by try apply valid_nonempty). destruct (bool_decide (empty_dir p (abs s))) eqn:Ee; cbn [negb]; [|stay].
  apply bool_decide_eq_true in Ee. destruct (Hdrop e now s s) as (s'&E&Ha&Hw); try done.
  - by case_if; lia.
  - apply (ok_pipes _ Hok).
  - rewrite E. cbn [mbind option_bind]. eexists _, s'. by rewrite Ha.
Qed.

Lemma unlink_sim p now : 0 ∉ p → simulated (Unlink p now) s.
Proof using Hwf Hnext.
  intros H0. unfold simulated. cbn [exec spec]. unfold unlink. rewrite get_look by done. pose proof (drop_wf p) as Hdrop. cbn [look_at] in *.
  destruct (valid_rel_path p) eqn:Ev; cbn [negb]; [|stay].
  destruct (look (abs s) p) as [e|] eqn:El; [|stay]. assert (Hdir : e_kind e ≠ Dir → is_dir e = true → empty_dir p (abs s)).
  { unfold is_dir. by destruct (e_kind e). }
  assert (Hgo : e_kind e ≠ Dir → ∀ s0, tree s0 = tree s → abs s0 = with_pipes (with_links (abs s) (symlinks s0)) (pipes s0) →
    symlinks s - (if is_symlink e then 1 else 0) <= symlinks s0 <= symlinks s → Pipe.wf (pipes s0) →
    (∀ i, has_pipe (pipes s) i → e_kind e ≠ Fifo i → has_pipe (pipes s0) i) →
    ∃ a s', ('(b, s) ← drop_entry p now s0; Some (ABool b, s)) = Some (a, s') ∧ (ABool true, s_drop p now (abs s0)) = (a, abs s') ∧ wf s').
  { intros Hk s0 H1 H2 H3 H4 H5. destruct (Hdrop e now s s0) as (s'&E&Ha&Hw); try done; [by apply Hdir|]. rewrite E. eexists _, s'. by rewrite Ha. }
  pose proof (ok_pipes _ Hok) as Hpw. pose proof (ok_links _ Hok) as Hl. unfold s_unpipe, is_symlink in *. destruct (e_kind e) as [|d|t|i] eqn:Ek.
  - stay.
  - apply (Hgo ltac:(done) s); try done. lia.
  - assert (Hlow : 1 <= symlinks s).
    { apply look_some in El as (k&_&Hk). apply links_pos in Hk; [|unfold is_symlink; by rewrite Ek]. cbn [f_symlinks abs] in Hl. lia. }
    assert (Hm : (symlinks s - 1) mod 2 ^ 64 = symlinks s - 1).
    { cbn in Hl. unfold U64_MAX in *. apply Z.mod_small. lia. }
    cbn [f_symlinks abs]. rewrite Hm. apply (Hgo ltac:(done) (set_symlinks s (symlinks s - 1))); try done. cbn. lia.
  - apply (Hgo ltac:(done) (set_pipes s (Pipe.fifo_unlink (pipes s) i))); try done; [cbn; lia|by apply wf_unlink|].
    intros j Hj Hne. cbn. apply has_pipe_unlink; congruence.
Qed.

(** The calls that change an entry in place. *)
Lemma put_sim at_ i e e' f : slot_at (tree s) at_ = Some i → slot (tree s) i = Some e → f e = e' → alike e e' → content_ok e' →
  let s' := set_tree s (modify f i (tree s)) in abs s' = put_node (abs s) e' ∧ wf s'.
Proof using Hwf.
  intros Hi He <- Ha Hc. pose proof (slot_at_look s Hr at_) as Hl. rewrite Hi in Hl. destruct Hl as (x&Hx&Hlx). assert (x = e) as -> by congruence.
  destruct (modify_abs f i e s Hr He (proj1 Ha)) as [H1 H2]. cbn zeta. split; [done|]. split; [done|]. rewrite H2.
  assert (Hk : ∃ k, f_nodes (abs s) !! k = Some e).
  { destruct at_; cbn [look_at] in Hlx; [|by eexists]. destruct (valid_rel_path path); [|done]. apply look_some in Hlx as (k&_&?). by exists k. }
  destruct Hk as [k Hk]. by eapply put_node_ok.
Qed.

Lemma node_ok at_ e : look_at (abs s) at_ = Some e → content_ok e.
Proof using Hwf.
  intros Hl. destruct at_; cbn [look_at] in Hl; [|by apply (ok_node _ Hok) in Hl as (_&_&?)].
  destruct (valid_rel_path path); [|done]. apply look_some in Hl as (k&_&Hk). by apply (ok_node _ Hok) in Hk as (_&_&?).
Qed.

Lemma set_times_sim at_ a m : simulated (SetTimesAt at_ a m) s.
Proof using Hwf.
  unfold simulated. cbn [exec spec]. unfold set_times_at, s_set_times. pose proof (slot_at_look s Hr at_) as Hl.
  destruct (slot_at (tree s) at_) as [i|] eqn:Ei; [|rewrite Hl; stay]. destruct Hl as (e&He&Hl). rewrite He, Hl.
  destruct (put_sim at_ i e _ (λ e, {| e_id := e_id e; e_kind := e_kind e; e_atime := default (e_atime e) a; e_mtime := default (e_mtime e) m |})
    Ei He eq_refl) as [H1 H2].
  - split; [done|by left].
  - by apply node_ok in Hl.
  - eexists _, _. split; [done|]. by rewrite H1.
Qed.

Lemma set_times_path_sim p a m : simulated (SetTimes p a m) s.
Proof using Hwf.
  pose proof (set_times_sim (AtPath p) a m) as H. unfold simulated in *. cbn [exec spec] in *. unfold set_times, is_root. destruct (_ || _); [|done].
  eexists _, _. split; [done|]. split; [done|]. split; [done|]. destruct Hok as [H1 H2 H3 H4 H5 H6 H7]. by split.
Qed.

Lemma truncate_sim p now : simulated (Truncate p now) s.
Proof using Hwf.
  unfold simulated. cbn [exec spec]. unfold truncate. pose proof (slot_at_look s Hr (AtPath p)) as Hl. pose proof (put_sim (AtPath p)) as Hput.
  cbn [slot_at look_at] in *. destruct (valid_rel_path p); cbn [negb]; [|stay].
  destruct (by_path (tree s) !! p) as [i|]; [|rewrite Hl; stay]. destruct Hl as (e&He&Hl). rewrite He, Hl. destruct (is_file e) eqn:Ef; [|stay].
  destruct (Hput i e (set_data [] now e) (set_data [] now) eq_refl He eq_refl) as [H1 H2]; [split; [done|by right]|done|].
  eexists _, _. split; [done|]. by rewrite H1.
Qed.

Lemma set_size_sim heap at_ len now : 0 <= len → simulated (SetSize heap at_ len now) s.
Proof using Hwf.
  intros H0. unfold simulated. cbn [exec spec]. unfold set_size_at, s_set_size. destruct (Z.ltb_spec FILE_CAP len); [stay|].
  pose proof (slot_at_look s Hr at_) as Hl. destruct (slot_at (tree s) at_) as [i|] eqn:Ei; [|rewrite Hl; stay].
  destruct Hl as (e&He&Hl). rewrite He, Hl. destruct e as [k [|data|t|j] ea em]; try stay.
  destruct ((zlen data <? len) && negb (try_reserve_exact heap (len - zlen data))); [stay|].
  destruct (put_sim at_ i _ _ (set_data (resize (Z.to_nat len) 0 data) now) Ei He eq_refl) as [H1 H2]; [split; [done|by right]| |].
  { unfold content_ok. cbn. rewrite length_resize. lia. }
  eexists _, _. split; [done|]. split; [|done]. by rewrite H1, resize_spec.
Qed.

Lemma read_sim at_ pos out : 0 <= pos → simulated (Read at_ pos out) s.
Proof using Hwf.
  intros H0. unfold simulated. cbn [exec spec]. unfold read_at, s_read. rewrite entry_at_look by done.
  destruct (look_at (abs s) at_) as [[k [|data|t|j] ea em]|]; try stay. set (l := take (length out) (drop (Z.to_nat pos) data)).
  assert (Hn : Z.min (zlen out) (Z.max (zlen data - pos) 0) = zlen l) by (subst l; rewrite length_take, length_drop; lia). rewrite Hn.
  destruct (Z.eqb_spec (zlen l) 0) as [E|E].
  { rewrite E. assert (l = []) as -> by (apply nil_length_inv; lia). stay. }
  rewrite slice_ok by lia. cbn [mbind option_bind]. replace (pos + zlen l - pos) with (zlen l) by lia. rewrite Nat2Z.id.
  replace (take (length l) (drop (Z.to_nat pos) data)) with l by (symmetry; apply take_length_take). rewrite copy_over by lia. stay.
Qed.

Lemma write_sim heap at_ pos buf now : 0 <= pos → simulated (Write heap at_ pos buf now) s.
Proof using Hwf.
  intros H0. unfold simulated. cbn [exec spec]. unfold write_at, s_write. pose proof (slot_at_look s Hr at_) as Hl.
  destruct (slot_at (tree s) at_) as [i|] eqn:Ei; [|rewrite Hl; stay].
  destruct Hl as (e&He&Hl). rewrite He, Hl. pose proof (node_ok at_ e Hl) as Hc. destruct e as [k [|data|t|j] ea em]; try stay.
  cbn in Hc. destruct (Z.ltb_spec FILE_CAP (pos + zlen buf)) as [Hf|Hf].
  { destruct (add64 pos (zlen buf)) as [x|] eqn:Ea; [|stay]. unfold add64, fits in Ea. destruct (_ && _) in Ea; [|done]. injection Ea as <-.
    rewrite (proj2 (Z.ltb_lt _ _) Hf). stay. }
  unfold add64. rewrite fits_in by (unfold FILE_CAP in *; lia).
  rewrite (proj2 (Z.ltb_ge _ _) Hf). unfold has_room. rewrite Z.leb_antisym. pose proof (written_splice data buf pos H0) as Hw. cbn zeta in Hw.
  destruct (put_sim at_ i _ _ (set_data (written data pos buf) now) Ei He eq_refl) as [H1 H2]; [split; [done|by right]| |].
  { unfold content_ok. cbn. rewrite written_length by done. lia. }
  set (end_ := pos + zlen buf) in *. destruct (zlen data <? end_); cbn [negb orb].
  - unfold usub. rewrite (proj2 (Z.leb_le _ _) Hc). cbn [mbind option_bind]. destruct (_ || _); [|stay].
    cbn [negb]. rewrite Hw. eexists _, _. split; [done|]. by rewrite H1.
  - cbn [mbind option_bind negb]. rewrite Hw. eexists _, _. split; [done|]. by rewrite H1.
Qed.

Lemma fifo_id_sim p : simulated (FifoId p) s.
Proof using Hwf.
  unfold simulated. cbn [exec spec look_at]. unfold fifo_id. rewrite get_look by done. destruct (valid_rel_path p); stay.
Qed.

Lemma readlink_sim p buf : simulated (Readlink p buf) s.
Proof using Hwf.
  unfold simulated. cbn [exec spec look_at]. unfold readlink, has_symlinks. rewrite get_look by done.
  destruct (valid_rel_path p); [|rewrite orb_true_r; stay]. rewrite orb_false_r, negb_involutive.
  destruct (look (abs s) p) as [[k [|data|t|j] ea em]|] eqn:El; try (destruct (symlinks s =? 0); stay).
  apply look_some in El as (k'&_&Hk). apply links_pos in Hk; [|done]. pose proof (ok_links _ Hok) as Hl. cbn [f_symlinks abs] in Hl.
  destruct (Z.eqb_spec (symlinks s) 0); [lia|]. rewrite slice_ok by lia. cbn [mbind option_bind]. rewrite drop_0, Z.sub_0_r.
  set (l := take (length buf) t). assert (Hn : Z.min (zlen t) (zlen buf) = zlen l) by (subst l; rewrite length_take; lia).
  rewrite Hn, Nat2Z.id. replace (take (length l) t) with l by (symmetry; apply take_length_take). rewrite copy_over by lia. stay.
Qed.

Lemma stat_at_sim at_ : stat_at at_ s = stat_of <$> look_at (abs s) at_.
Proof using Hwf. unfold stat_at. rewrite entry_at_look by done. destruct (look_at (abs s) at_) as [[k [|data|t|j] ea em]|]; done. Qed.

Lemma stat_sim p : simulated (Stat p) s.
Proof using Hwf.
  unfold simulated. cbn [exec spec]. unfold stat, is_root. rewrite stat_at_sim. destruct (_ || _); stay.
Qed.

Lemma pipe_sim o : pipe_ok o → simulated (PipeOp o) s.
Proof using Hwf.
  intros Ho. unfold simulated. cbn [exec spec]. pose proof (ok_pipes _ Hok) as Hp. cbn [f_pipes abs] in *.
  destruct (Pipe.exec_simulates o (pipes s) Hp) as (r&st&E&Hw&_). rewrite E. cbn [mbind option_bind]. eexists _, _. split; [done|]. split; [done|].
  split; [done|]. apply (pipes_ok st (abs s)); [done..|]. intros i. by eapply has_pipe_exec.
Qed.

End calls.
