(* ===== verification/TmpfsMove.v ===== *)
(** * The in-memory file system: renames and listings

    The two calls of [Tmpfs.v] that walk the table: a rename, that takes along
    what is below a directory, and the listing of a directory. *)

From S2P Require Import Prelude Pipe Text.
From stdpp Require Import gmap sorting list.
From S2P Require Import Tmpfs TmpfsRep TmpfsSpec TmpfsTree TmpfsRefine.

Open Scope Z_scope.

(** ** Renames *)

Lemma under_code (old new : list Z) : starts_with new old && bool_decide (new !! length old = Some SLASH) = bool_decide (under old new).
Proof.
  symmetry. destruct (starts_with new old) eqn:E; cbn [andb].
  - apply starts_with_app in E as [rest ->]. rewrite lookup_app_r, Nat.sub_diag by done. apply bool_decide_ext. split.
    + intros [r H%app_inv_head]. by rewrite H.
    + destruct rest as [|c r]; [done|]. intros [= ->]. by exists r.
  - apply bool_decide_eq_false_2. intros [r ->]. assert (H : starts_with (old ++ SLASH :: r) old = true) by (apply starts_with_app; by eexists). congruence.
Qed.

Lemma relabel_length old new p : under old p → zlen (relabel old new p) = zlen new + zlen p - zlen old.
Proof. intros [r ->]. rewrite relabel_under, !length_app. lia. Qed.

Section rename.
Context (s : Tmpfs) (Hwf : wf s).

Let Hr : rep_ok (tree s) := wf_rep s Hwf.
Let Hok : fs_ok (abs s) := wf_fs s Hwf.

(** Nothing is below what is not a directory. *)
Lemma none_below d : (∀ e, look (abs s) d = Some e → is_dir e = false) → empty_dir d (abs s).
Proof using Hwf. intros H q k Hq Hu. destruct (above_is_dir _ _ _ _ Hok Hq Hu) as (e&He&Hd). by rewrite (H e He) in Hd. Qed.

(** The paths that go along. *)
Lemma paths_below old e p : look (abs s) old = Some e →
  p ∈ (if is_dir e then below (tree s) old else []) ↔ is_Some (f_names (abs s) !! p) ∧ under old p.
Proof using Hwf.
  intros He. destruct (is_dir e) eqn:Ed; [by apply below_elem|]. split; [by intros ?%elem_of_nil|]. intros [[k Hk] Hu]. exfalso.
  apply (none_below old) in Hk; [done|]. intros x Hx. congruence.
Qed.

Lemma paths_fit old new e : look (abs s) old = Some e →
  existsb (λ p, PATH_CAP <? zlen new + zlen p - zlen old) (if is_dir e then below (tree s) old else []) = negb (bool_decide (fits_under old new (abs s))).
Proof using Hwf.
  intros He. pose proof (λ p, paths_below old e p He) as Hin. set (l := if is_dir e then _ else _) in *.
  destruct (existsb _ l) eqn:E.
  - apply existsb_exists in E as (p&Hp%list_elem_of_In&Hlt). apply Hin in Hp as [[k Hk] Hu]. rewrite bool_decide_eq_false_2; [done|].
    intros Hf. apply (Hf p k Hk) in Hu as Hl. rewrite relabel_length in Hl by done. bool_hyps. lia.
  - rewrite bool_decide_eq_true_2; [done|]. intros q k Hq Hu. rewrite relabel_length by done.
    destruct (Z.leb_spec (zlen new + zlen q - zlen old) PATH_CAP) as [|Hlt]; [done|]. exfalso.
    assert (H : existsb (λ p, PATH_CAP <? zlen new + zlen p - zlen old) l = true); [|congruence].
    apply existsb_exists. exists q. split; [apply list_elem_of_In, Hin; split; [by eexists|done]|]. by apply Z.ltb_lt.
Qed.

(** The tree after [rename_locked], where nothing is at [new]. *)
Lemma rename_free old new e : look (abs s) old = Some e → look (abs s) new = None → 0 ∉ old → 0 ∉ new → valid_rel_path new = true →
  ~ under old new → dir_at (abs s) (parent_of new) = true → fits_under old new (abs s) →
  let s' := set_tree s (move_to old new (move_below old new (if is_dir e then below (tree s) old else []) (tree s))) in
  rep_ok (tree s') ∧ abs s' = with_maps (abs s) (relabelled old new (f_names (abs s))) (f_nodes (abs s)) ∧ fs_ok (abs s').
Proof using Hwf.
  intros He Hnew Ho Hn Hv Hu Hd Hf s'. apply look_some in He as Hk. destruct Hk as (k&Hk&_).
  assert (Hfree : ∀ r, r = new ∨ under new r → f_names (abs s) !! r = None).
  { intros r Hr'. apply eq_None_not_Some. intros [j Hj]. destruct Hr' as [->|Hb]; [by rewrite (proj1 (look_none s Hr new)) in Hj|].
    eapply (none_below new); [|exact Hj|done]. congruence. }
  destruct (rename_rep old new k (if is_dir e then below (tree s) old else []) (tree s) Hr Hk Hfree) as (H1&H2&H3).
  - destruct (is_dir e); [apply below_nodup|constructor].
  - intros p. by apply paths_below.
  - assert (Ha : abs s' = with_maps (abs s) (relabelled old new (f_names (abs s))) (f_nodes (abs s))).
    { unfold abs, with_maps. cbn. f_equal; [|done]. eapply through_eq; [exact H3|]. by apply relabelled_ok. }
    split; [done|]. split; [done|]. rewrite Ha. by eapply rename_ok.
Qed.

(** And where an entry is replaced. *)
Definition unpiped (d : Entry) : Tmpfs := match e_kind d with Fifo id => set_pipes s (Pipe.fifo_unlink (pipes s) id) | _ => s end.

Lemma unpiped_abs d : abs (unpiped d) = s_unpipe d (abs s) ∧ tree (unpiped d) = tree s ∧ symlinks (unpiped d) = symlinks s ∧
  Pipe.wf (pipes (unpiped d)) ∧ ∀ i, has_pipe (pipes s) i → e_kind d ≠ Fifo i → has_pipe (pipes (unpiped d)) i.
Proof using Hwf.
  unfold unpiped, s_unpipe. pose proof (ok_pipes _ Hok) as Hp. destruct (e_kind d); split_and!; try done; [by apply wf_unlink|].
  intros i Hi Hne. apply has_pipe_unlink; congruence.
Qed.

Lemma rename_over old new e d : look (abs s) old = Some e → look (abs s) new = Some d → 0 ∉ old → 0 ∉ new → old ≠ new →
  ~ under old new → valid_rel_path new = true → is_dir e = false → is_dir d = false →
  ∃ t, remove new (tree (unpiped d)) = Some (Some d, t) ∧ let s' := set_tree (unpiped d) (move_to old new t) in
  rep_ok (tree s') ∧
  abs s' = with_maps (s_unpipe d (abs s)) (relabelled old new (delete new (f_names (abs s)))) (delete (e_id d) (f_nodes (abs s))) ∧ fs_ok (abs s').
Proof using Hwf.
  intros He Hd Ho Hn Hne Hu Hv Hed Hdd. destruct (unpiped_abs d) as (Hua&Hut&Hul&Huw&Hup).
  destruct (look_at_path s new d Hr) as (_&Hnk&Hdk&Hinj); [cbn; by rewrite Hv|done|]. apply look_some in He as Hk. destruct Hk as (k&Hk&Hke).
  destruct (remove_rep new _ _ (tree s) Hr Hnk Hdk) as (t&Et&Hrt&H1&H2). exists t. rewrite Hut. split; [done|]. intros s'.
  destruct (move_to_rep old new k t Hrt) as (H3&H4&H5).
  { rewrite H1. cbn in Hk. by rewrite lookup_delete_ne. }
  { rewrite H1. by rewrite lookup_delete_eq. }
  pose proof (none_below old ltac:(intros; congruence)) as Hno. pose proof (none_below new ltac:(intros; congruence)) as Hnn.
  set (m := delete new (f_names (abs s))). assert (Hfree : ∀ r, r = new ∨ under new r → m !! r = None).
  { intros r [->|Hb]; [apply lookup_delete_eq|]. apply eq_None_not_Some. intros [j [_ Hj]%lookup_delete_Some]. by eapply Hnn. }
  assert (Hm : <[new := k]> (delete old m) = relabelled old new m).
  { eapply through_eq; [|by apply relabelled_ok]. eapply through_ext; [apply through_move|].
    - unfold m. by rewrite lookup_delete_ne.
    - by apply Hfree; left.
    - intros p [j [_ Hj]%lookup_delete_Some]. case_decide as E; [subst; by rewrite relabel_old|]. rewrite relabel_other; [done..|]. by eapply Hno. }
  assert (Ha : abs s' = with_maps (s_unpipe d (abs s)) (relabelled old new m) (delete (e_id d) (f_nodes (abs s)))).
  { rewrite <- Hm, <- Hua. unfold abs, with_maps. cbn. by rewrite H4, H5, H1, H2. }
  split; [done|]. split; [done|]. rewrite Ha.
  set (fs2 := with_pipes (with_links (with_maps (abs s) m (delete (e_id d) (f_nodes (abs s)))) (symlinks s)) (pipes (unpiped d))).
  assert (Hok2 : fs_ok fs2).
  { apply (del_ok new (e_id d) d); try done. cbn. case_if; lia. }
  replace (with_maps _ _ _) with (with_maps fs2 (relabelled old new (f_names fs2)) (f_nodes fs2)).
  2:{ rewrite <- Hua. unfold fs2, with_maps. cbn. unfold unpiped. by destruct (e_kind d). }
  eapply (rename_ok old new e); try done.
  - apply look_some. exists k. cbn. unfold m. rewrite lookup_delete_ne by done. split; [done|]. rewrite lookup_delete_ne; [done|].
    intros E. apply Hne. symmetry. cbn in Hnk. rewrite E in Hnk. by eapply (names_inj (tree s)).
  - destruct (ok_placed _ Hok _ _ Hnk) as (x&Hx&[[E _]|(_&_&Hp)]); [by destruct Hn; rewrite E; apply kept_nul|].
    eapply dir_at_mono; [|exact Hp]. intros q y (j&Hj&Hy)%look_some Hyd. exists y. split; [|done]. apply look_some. exists j. cbn. unfold m.
    split; [rewrite lookup_delete_ne; [done|]|rewrite lookup_delete_ne; [done|]]; congruence.
  - intros q j Hj Hb. cbn in Hj. apply lookup_delete_Some in Hj as [_ Hj]. exfalso. by eapply Hno.
Qed.

Lemma touch_twice p q now s1 fs : rep_ok (tree s1) → abs s1 = fs → fs_ok fs →
  wf (touch_dir p now (touch_dir q now s1)) ∧ abs (touch_dir p now (touch_dir q now s1)) = s_touch p now (s_touch q now fs).
Proof. intros H1 H2 H3. destruct (touch_wf q now s1 fs H1 H2 H3) as [[H4 H5] H6]. apply touch_wf; [done..|]. by rewrite <- H6. Qed.

Lemma rename_sim old new now : 0 ∉ old → 0 ∉ new → simulated (Rename old new now) s.
Proof using Hwf.
  intros Ho Hn. unfold simulated. cbn [exec spec]. unfold rename, s_rename. rewrite <- negb_andb.
  destruct (valid_rel_path old && valid_rel_path new) eqn:Ev; cbn [negb]; [|stay]. apply andb_true_iff in Ev as [Hvo Hvn].
  destruct (bool_decide (old = new)) eqn:Een; [stay|]. apply bool_decide_eq_false in Een.
  unfold rename_locked. rewrite under_code, !get_look, parent_ok_look by done.
  destruct (look (abs s) old) as [e|] eqn:Eo; [|case_if; stay].
  destruct (bool_decide (under old new)) eqn:Eu; cbn [orb]; [destruct (look (abs s) new); stay|]. apply bool_decide_eq_false in Eu.
  destruct (look (abs s) new) as [d|] eqn:En.
  - destruct (is_dir e || is_dir d) eqn:Ed; [stay|]. apply orb_false_iff in Ed as [Hed Hdd].
    destruct (rename_over old new e d) as (t&Et&H1&H2&H3); try done. fold (unpiped d). rewrite Et. cbn [mbind option_bind negb].
    destruct (touch_twice (parent_of new) (parent_of old) now _ _ H1 H2) as [H4 H5]; [by rewrite <- H2|]. eexists _, _. split; [done|]. by rewrite H5.
  - destruct (dir_at (abs s) (parent_of new)) eqn:Ed; cbn [negb orb]; [|stay]. rewrite (paths_fit old new e) by done.
    destruct (bool_decide (fits_under old new (abs s))) eqn:Ef; cbn [negb]; [|stay]. apply bool_decide_eq_true in Ef.
    destruct (rename_free old new e) as (H1&H2&H3); try done. cbn [mbind option_bind].
    destruct (touch_twice (parent_of new) (parent_of old) now _ _ H1 H2) as [H4 H5]; [by rewrite <- H2|]. eexists _, _. split; [done|]. by rewrite H5.
Qed.

End rename.

(** ** Listings *)

Definition no_slash (p : list Z) : bool := forallb (λ c, negb (c =? SLASH)) p.

(** The path of an entry of a directory. *)
Definition within (dir x : list Z) : list Z := if nonempty dir then dir ++ SLASH :: x else x.

Lemma child_of_spec dir p x : child_of dir p = Some x ↔ p = within dir x ∧ no_slash x = true ∧ (dir = [] → head x ≠ Some 0).
Proof.
  unfold child_of, within. fold (no_slash p) (no_slash (drop (length dir + 1) p)). destruct dir as [|c dir]; cbn [nonempty].
  - destruct (no_slash p) eqn:E; cbn [andb].
    + destruct (bool_decide (head p = Some 0)) eqn:Eh; cbn [negb].
      * apply bool_decide_eq_true in Eh. split; [done|]. intros (<-&_&H). by destruct H.
      * apply bool_decide_eq_false in Eh. split; [by intros [= ->]|]. by intros (->&_&_).
    + split; [done|]. intros (->&H&_). congruence.
  - set (d := c :: dir). assert (Hdrop : ∀ r, drop (length d + 1) (d ++ SLASH :: r) = r).
    { intros r. rewrite drop_app_ge by lia. by replace (length d + 1 - length d)%nat with 1%nat by lia. }
    destruct (bool_decide (under d p)) eqn:E; cbn [andb].
    + apply bool_decide_eq_true in E as [r ->]. rewrite Hdrop. destruct (no_slash r) eqn:Er.
      * split; [by intros [= ->]|]. intros (H&_&_). apply app_inv_head in H. injection H as ->. done.
      * split; [done|]. intros (H&Hx&_). apply app_inv_head in H. injection H as ->. congruence.
    + apply bool_decide_eq_false in E. split; [done|]. intros (->&_&_). destruct E. by exists x.
Qed.

Lemma NoDup_omap {A B} (f : A → option B) l : (∀ a b x, f a = Some x → f b = Some x → a = b) → NoDup l → NoDup (omap f l).
Proof.
  intros Hinj. induction 1 as [|a l Hn _ IH]; [constructor|]. cbn. destruct (f a) as [x|] eqn:E; [|done]. constructor; [|done].
  intros (b&Hb&Hx)%list_elem_of_omap. by rewrite (Hinj a b x E Hx) in Hn.
Qed.

Lemma StronglySorted_fmap {A B} (R : A → A → Prop) (S : B → B → Prop) (f : A → B) l :
  (∀ a b, a ∈ l → b ∈ l → R a b → S (f a) (f b)) → StronglySorted R l → StronglySorted S (f <$> l).
Proof.
  intros Hf Hs. induction Hs as [|a l Hs IH Ha]; [constructor|]. cbn. constructor.
  - apply IH. intros x y Hx Hy. apply Hf; by constructor.
  - apply Forall_fmap, Forall_forall. intros x Hx. cbn. apply Hf; [by constructor..|]. eapply Forall_forall in Ha; [exact Ha|done].
Qed.

Lemma child_names_elem t dir x : rep_ok t →
  x ∈ child_names t dir ↔ is_Some (names t !! within dir x) ∧ no_slash x = true ∧ (dir = [] → head x ≠ Some 0).
Proof.
  intros Hr. unfold child_names, within. destruct dir as [|c dir]; cbn [nonempty negb].
  - rewrite list_elem_of_filter, sorted_paths_elem, <- names_some by done. unfold no_slash. naive_solver.
  - set (d := c :: dir). rewrite list_elem_of_filter, list_elem_of_fmap. unfold no_slash. split.
    + intros (Hx&q&->&(Hq&[r ->])%below_elem); [|done]. rewrite drop_app_ge in * by lia.
      replace (length d + 1 - length d)%nat with 1%nat in * by lia. done.
    + intros (Hs&Hx&_). split; [done|]. exists (d ++ SLASH :: x). rewrite drop_app_ge by lia.
      replace (length d + 1 - length d)%nat with 1%nat by lia. split; [done|]. apply below_elem; [done|]. split; [done|by exists x].
Qed.

Lemma below_drop t dir x : x ∈ below t dir → x = (dir ++ [SLASH]) ++ drop (length dir + 1) x.
Proof.
  rewrite below_filter. intros [[r ->] _]%list_elem_of_filter. rewrite drop_app_ge by lia.
  replace (length dir + 1 - length dir)%nat with 1%nat by lia. by rewrite <- app_assoc.
Qed.

Lemma child_names_sorted t dir : StronglySorted path_order (child_names t dir) ∧ NoDup (child_names t dir).
Proof.
  unfold child_names. destruct (negb (nonempty dir)).
  - split; [apply StronglySorted_filter, sorted_paths_sorted|apply NoDup_filter, sorted_paths_nodup].
  - split; [apply StronglySorted_filter|apply NoDup_filter].
    + eapply StronglySorted_fmap; [|rewrite below_filter; apply StronglySorted_filter, sorted_paths_sorted].
      intros a b Ha%below_drop Hb%below_drop H. rewrite Ha, Hb in H. unfold path_order in *. by rewrite path_le_app in H.
    + apply NoDup_fmap_2_strong; [|apply below_nodup]. intros a b Ha%below_drop Hb%below_drop E. rewrite Ha, Hb. by rewrite E.
Qed.

Lemma child_names_children s dir : rep_ok (tree s) → child_names (tree s) dir = children (abs s) dir.
Proof.
  intros Hr. destruct (child_names_sorted (tree s) dir) as [H1 H2]. unfold children.
  apply (StronglySorted_unique path_order); [done|apply StronglySorted_merge_sort; apply _|]. rewrite merge_sort_Permutation.
  apply NoDup_Permutation; [done| |].
  - apply NoDup_omap; [|apply NoDup_fst_map_to_list]. intros a b x [-> _]%child_of_spec [-> _]%child_of_spec. done.
  - intros x. rewrite child_names_elem, list_elem_of_omap by done. setoid_rewrite child_of_spec. setoid_rewrite list_elem_of_fmap. split.
    + intros ([k Hk]&?&?). exists (within dir x). split; [|done]. exists (within dir x, k). split; [done|]. by apply elem_of_map_to_list.
    + intros (p&([q k]&->&Hk%elem_of_map_to_list)&(E&?&?)). cbn in E. subst q. split; [by exists k|done].
Qed.

Lemma list_names_fitting ns pre rest : list_names ns (zlen pre) (pre ++ rest) =
  let l := fitting (zlen rest) ns in Some (zlen pre + zlen l, pre ++ over l rest).
Proof.
  revert pre rest. induction ns as [|x ns IH]; intros pre rest; cbn [list_names fitting].
  - cbn. by rewrite Z.add_0_r.
  - rewrite length_app. replace (Z.of_nat (length pre + length rest) <? zlen pre + (zlen x + 1)) with (zlen rest <? zlen x + 1)
      by (destruct (Z.ltb_spec (zlen rest) (zlen x + 1)), (Z.ltb_spec (Z.of_nat (length pre + length rest)) (zlen pre + (zlen x + 1))); lia).
    destruct (Z.ltb_spec (zlen rest) (zlen x + 1)) as [|Hfit]; [cbn; by rewrite Z.add_0_r|].
    assert (Hrest : rest = take (length x) rest ++ drop (length x) rest) by (by rewrite take_drop).
    destruct (drop (length x) rest) as [|c rest'] eqn:Ed; [apply (f_equal length) in Ed; rewrite length_drop in Ed; cbn in Ed; lia|].
    rewrite copy_slice_ok by (rewrite ?length_app; lia). cbn [mbind option_bind]. unfold splice.
    rewrite Nat2Z.id, take_app_length, drop_app_add, Ed.
    unfold zset. rewrite (proj2 (Z.leb_le 0 _)), (proj2 (Z.ltb_lt _ _)) by (rewrite ?length_app; cbn [length]; lia). cbn [andb mbind option_bind].
    replace (Z.to_nat (zlen pre + zlen x)) with (length (pre ++ x) + 0)%nat by (rewrite length_app; lia).
    rewrite app_assoc, insert_app_r. cbn [list_insert base.insert].
    replace ((pre ++ x) ++ 10 :: rest') with ((pre ++ x ++ [10]) ++ rest') by (by rewrite <- !app_assoc).
    replace (zlen pre + zlen x + 1) with (zlen (pre ++ x ++ [10])) by (rewrite !length_app; cbn; lia). rewrite IH. cbn zeta.
    assert (Hl : zlen rest' = zlen rest - (zlen x + 1)) by (rewrite Hrest, length_app, length_take; cbn [length]; lia). rewrite <- Hl.
    f_equal. f_equal; [rewrite !length_app; cbn [length]; lia|]. unfold over. rewrite <- !app_assoc. do 3 f_equal.
    rewrite !length_app. cbn [length]. replace (length x + (1 + length (fitting (zlen rest') ns)))%nat with (length x + S (length (fitting (zlen rest') ns)))%nat by lia.
    by rewrite <- drop_drop, Ed.
Qed.

Lemma listdir_sim rel buf s : wf s → simulated (Listdir rel buf) s.
Proof.
  intros [Hr Hok]. unfold simulated. cbn [exec spec]. unfold listdir_at, s_list. cbv beta zeta. rewrite !is_dir_path_look, !child_names_children by done.
  pose proof (λ ns, list_names_fitting ns [] buf) as Hln. cbn [app length Z.of_nat] in Hln. cbn zeta in Hln.
  assert (Hgo : ∀ dir, (if nonempty dir && negb (dir_at (abs s) dir) then Some (0, buf) else list_names (children (abs s) dir) 0 buf) =
    Some (if nonempty dir && negb (dir_at (abs s) dir) then (0, buf) else
      (zlen (fitting (zlen buf) (children (abs s) dir)), over (fitting (zlen buf) (children (abs s) dir)) buf))).
  { intros dir. case_if; [done|]. by rewrite Hln. }
  destruct (bool_decide (rel = [46])) eqn:Ed.
  { rewrite orb_true_r. cbn [nonempty andb]. rewrite Hln. stay. }
  rewrite orb_false_r. destruct (nonempty rel) eqn:En; cbn [negb andb].
  - destruct (valid_rel_path rel); cbn [negb andb]; [|stay]. pose proof (Hgo rel) as H. rewrite En in H. cbn [andb] in H. rewrite H. case_if; stay.
  - destruct rel; [|done]. rewrite Hln. stay.
Qed.
