(* ===== verification/TmpfsProps.v ===== *)
(** * The in-memory file system: theorems

    Any calls, in any order, on the file system of [Tmpfs.v] from boot: they
    never panic, they answer as the two maps of [TmpfsSpec.v] say, and what
    they leave is a tree. *)

From S2P Require Import Prelude Pipe Text.
From stdpp Require Import gmap sorting list.
From S2P Require Import Tmpfs TmpfsRep TmpfsSpec TmpfsTree TmpfsRefine TmpfsMove.

Open Scope string_scope.
Open Scope list_scope.
Open Scope Z_scope.

(** The file system with nothing in it. *)
Definition nothing (st : Pipe.State) : Fs :=
  {| f_names := ∅; f_nodes := ∅; f_next := 2; f_atime := 0; f_mtime := 0; f_symlinks := 0; f_pipes := st |}.

Lemma exec_sim o s : wf s → op_ok o → next_id s < U64_MAX → simulated o s.
Proof.
  intros Hw Ho Hn. destruct o; cbn [op_ok] in Ho.
  - by apply file_id_sim.
  - by apply unlink_keep_sim.
  - by apply create_kept_sim.
  - by apply forget_sim.
  - by apply create_sim.
  - by apply truncate_sim.
  - destruct Ho. by apply set_size_sim.
  - destruct Ho. by apply read_sim.
  - destruct Ho. by apply write_sim.
  - by apply mkfifo_sim.
  - by apply fifo_id_sim.
  - by apply mkdir_sim.
  - by apply rmdir_sim.
  - by apply unlink_sim.
  - destruct Ho. by apply rename_sim.
  - by apply symlink_sim.
  - by apply readlink_sim.
  - by apply listdir_sim.
  - by apply stat_sim.
  - unfold simulated. cbn [exec spec]. rewrite stat_at_sim by done. stay.
  - by apply set_times_path_sim.
  - by apply set_times_sim.
  - by apply pipe_sim.
Qed.

(** ** The next id *)

Lemma touch_next dir now fs : f_next (s_touch dir now fs) = f_next fs.
Proof. unfold s_touch. case_if; [done|]. by destruct (look fs dir). Qed.

Lemma touch_names dir now fs : f_names (s_touch dir now fs) = f_names fs.
Proof. unfold s_touch. case_if; [done|]. by destruct (look fs dir). Qed.

Lemma drop_next p now fs : f_next (s_drop p now fs) = f_next fs.
Proof. unfold s_drop. destruct (f_names fs !! p); [|done]. by rewrite touch_next. Qed.

Lemma unpipe_next e fs : f_next (s_unpipe e fs) = f_next fs.
Proof. unfold s_unpipe. by destruct (e_kind e). Qed.

Lemma make_next p k now fs : f_next (s_make p k now fs) = (f_next fs + 1) mod 2 ^ 64.
Proof. unfold s_make. by rewrite touch_next. Qed.

Create HintDb tmp_next.
#[export] Hint Rewrite touch_next drop_next unpipe_next make_next : tmp_next.

(** A call takes one id at most. *)
Lemma spec_next o fs : 0 <= f_next fs → f_next (spec o fs).2 <= f_next fs + 1.
Proof.
  intros H0. assert (Hm : (f_next fs + 1) mod 2 ^ 64 <= f_next fs + 1) by (apply Z.mod_le; lia).
  destruct o; cbn [spec]; unfold s_set_size, s_read, s_write, s_rename, s_list, s_set_times;
    repeat match goal with
    | |- context [let '(_, _) := ?x in _] => destruct x eqn:?
    | |- context [if ?b then _ else _] => destruct b
    | |- context [match ?x with _ => _ end] => destruct x
    | H : context [if ?b then _ else _] |- _ => destruct b
    | H : context [match ?x with _ => _ end] |- _ => destruct x
    | H : (_, _) = (_, _) |- _ => injection H as <- <-
    | H : (?a, ?b) = (?c, ?d) |- _ => injection H; clear H; intros; subst
    end; cbn [snd]; autorewrite with tmp_next; cbn [f_next with_maps with_links with_pipes with_root s_new put_node];
    autorewrite with tmp_next; try lia; try done.
Qed.

(** ** Runs *)

Lemma run_sim os s : wf s → Forall op_ok os → next_id s + zlen os <= U64_MAX →
  ∃ l s', exec_all os s = Some (l, s') ∧ spec_all os (abs s) = (l, abs s') ∧ wf s' ∧ next_id s' <= next_id s + zlen os.
Proof.
  intros Hw Ho. revert s Hw. induction Ho as [|o os Ho _ IH]; intros s Hw Hn; cbn [exec_all spec_all length] in *.
  - eexists _, s. split_and!; [done..|lia].
  - destruct (exec_sim o s Hw Ho ltac:(lia)) as (a&s1&E&Hs&Hw1). pose proof (ok_links _ (wf_fs _ Hw)) as Hl.
    pose proof (spec_next o (abs s)) as Hx. rewrite Hs in Hx. unfold links in Hl. cbn in Hl, Hx. specialize (Hx ltac:(lia)).
    destruct (IH s1 Hw1 ltac:(lia)) as (l&s'&E'&Hs'&Hw'&Hn'). rewrite E, Hs. cbn [mbind option_bind]. rewrite E', Hs'.
    eexists _, s'. split_and!; [done..|lia].
Qed.

Lemma wf_boot st : Pipe.wf st → wf (boot st) ∧ abs (boot st) = nothing st.
Proof.
  intros Hp. assert (Ha : abs (boot st) = nothing st).
  { unfold abs, nothing. cbn. f_equal; apply map_eq; intros k; rewrite ?names_lookup, ?nodes_lookup; cbn; by rewrite !lookup_empty. }
  split; [|done]. split; [|rewrite Ha]; split; cbn; try done.
  - constructor.
  - intros j Hj. by apply elem_of_nil in Hj.
Qed.

Lemma boot_run os st l s : Pipe.wf st → Forall op_ok os → zlen os + 2 <= U64_MAX → exec_all os (boot st) = Some (l, s) →
  wf s ∧ next_id s <= zlen os + 2.
Proof.
  intros Hp Ho Hn E. destruct (wf_boot st Hp) as [Hw _]. destruct (run_sim os (boot st) Hw Ho) as (l'&s'&E'&_&Hw'&Hn'); [cbn; lia|].
  rewrite E in E'. injection E' as <- <-. split; [done|]. cbn in Hn'. lia.
Qed.

(** ** A file kept after its last name *)

(** The calls that may change a kept file are those made on its id. *)
Definition spares (k : Z) (o : Op) : Prop :=
  match o with
  | SetSize _ (AtId i) _ _ | Write _ (AtId i) _ _ _ | SetTimesAt (AtId i) _ _ | Forget i => i ≠ k
  | _ => True
  end.

(** [k] is a kept file, with the entry [e]. *)
Record kept (k : Z) (e : Entry) (fs : Fs) : Prop := {
  kept_named : f_names fs !! kept_name k = Some k;
  kept_node : f_nodes fs !! k = Some e;
  kept_once : ∀ q, f_names fs !! q = Some k → q = kept_name k;
  kept_ids : ∀ j x, f_nodes fs !! j = Some x → e_id x = j }.

Section kept.
Context (k : Z) (e : Entry).

Lemma kept_put fs x : kept k e fs → e_id x ≠ k → kept k e (put_node fs x).
Proof using.
  intros [H1 H2 H3 H4] Hx. split; [done| |done|]; cbn; [by rewrite lookup_insert_ne|].
  intros j y [[<- <-]|[_ Hy]]%lookup_insert_Some; [done|by apply H4].
Qed.

Lemma kept_other fs p x : kept k e fs → 0 ∉ p → look fs p = Some x → e_id x ≠ k.
Proof using.
  intros H H0 (j&Hj&Hx)%look_some E. apply (kept_ids _ _ _ H) in Hx. apply H0. rewrite (kept_once _ _ _ H p) by congruence. apply kept_nul.
Qed.

Lemma parent_nul p : 0 ∉ p → 0 ∉ parent_of p.
Proof using.
  intros H0 H. destruct (decide (SLASH ∈ p)) as [Hs|Hs]; [|rewrite parent_none in H by done; by apply elem_of_nil in H].
  destruct (parent_split p Hs) as (b&E&_). apply H0. rewrite E. apply elem_of_app. by left.
Qed.

Lemma kept_touch fs p now : kept k e fs → 0 ∉ p → kept k e (s_touch (parent_of p) now fs).
Proof using.
  intros H H0. unfold s_touch. case_if; [by destruct H; split|]. destruct (look fs (parent_of p)) as [x|] eqn:E; [|done]. apply kept_put; [done|].
  change (e_id x ≠ k). eapply (kept_other fs (parent_of p)); [done|by apply parent_nul|done].
Qed.

Lemma kept_new fs p kd now : kept k e fs → p ≠ kept_name k → f_next fs ≠ k → kept k e (s_new p kd now fs).
Proof using.
  intros [H1 H2 H3 H4] Hp Hn. split; cbn.
  - by rewrite lookup_insert_ne.
  - by rewrite lookup_insert_ne.
  - intros q [[<- ?]|[_ Hq]]%lookup_insert_Some; [done|by apply H3].
  - intros j y [[<- <-]|[_ Hy]]%lookup_insert_Some; [done|by apply H4].
Qed.

Lemma kept_del fs p j : kept k e fs → p ≠ kept_name k → j ≠ k → kept k e (with_maps fs (delete p (f_names fs)) (delete j (f_nodes fs))).
Proof using.
  intros [H1 H2 H3 H4] Hp Hn. split; cbn.
  - by rewrite lookup_delete_ne.
  - by rewrite lookup_delete_ne.
  - intros q [_ Hq]%lookup_delete_Some. by apply H3.
  - intros i y [_ Hy]%lookup_delete_Some. by apply H4.
Qed.

Lemma nul_ne p : 0 ∉ p → p ≠ kept_name k.
Proof using. intros H ->. apply H, kept_nul. Qed.

Lemma kept_drop fs p now : kept k e fs → 0 ∉ p → kept k e (s_drop p now fs).
Proof using.
  intros H H0. unfold s_drop. destruct (f_names fs !! p) as [j|] eqn:E; [|done]. apply kept_touch; [|done]. apply kept_del; [done|by apply nul_ne|].
  intros ->. apply (kept_once _ _ _ H) in E. by apply nul_ne in E.
Qed.

(** A kept name goes nowhere in a rename. *)
Lemma kept_relabel fs (old new : list Z) n : kept k e fs → 0 <= k → 0 ∉ old → (∀ r, r = new ∨ under new r → f_names fs !! r = None) →
  n !! k = Some e → (∀ j x, n !! j = Some x → e_id x = j) → kept k e (with_maps fs (relabelled old new (f_names fs)) n).
Proof using.
  intros [H1 H2 H3 H4] Hk H0 Hf Hn Hi. destruct (relabelled_ok old new (f_names fs) Hf) as [Ht _].
  assert (Hstay : relabel old new (kept_name k) = kept_name k).
  { apply relabel_other; [by apply not_eq_sym, nul_ne|]. intros Hu%under_slash. by apply kept_no_slash in Hu. }
  split; cbn; [|done| |done].
  - apply Ht. by exists (kept_name k).
  - intros q (p&<-&Hp)%Ht. by rewrite (H3 p Hp).
Qed.

Lemma kept_pipes fs st : kept k e fs → kept k e (with_pipes fs st).
Proof using. intros []. by split. Qed.

Lemma kept_links fs n : kept k e fs → kept k e (with_links fs n).
Proof using. intros []. by split. Qed.

Lemma kept_unpipe fs x : kept k e fs → kept k e (s_unpipe x fs).
Proof using. unfold s_unpipe. destruct (e_kind x); try done. apply kept_pipes. Qed.

Context (fs : Fs) (Hok : fs_ok fs) (Hkept : kept k e fs) (Hnext : f_next fs <= U64_MAX).

Lemma kept_at at_ x : at_ok at_ → match at_ with AtId i => i ≠ k | AtPath _ => True end → look_at fs at_ = Some x → e_id x ≠ k.
Proof using Hkept Hok.
  destruct at_ as [p|i]; cbn; intros Ha Hi.
  - destruct (valid_rel_path p); [|done]. by apply kept_other.
  - intros Hx. by destruct (ok_node _ Hok _ _ Hx) as [-> _].
Qed.

Lemma kept_bounds : 0 <= k < f_next fs.
Proof using Hkept Hok. destruct (ok_node _ Hok _ _ (kept_node _ _ _ Hkept)) as (_&H&_). lia. Qed.

Lemma kept_make p kd now fs' : kept k e fs' → f_next fs' = f_next fs → 0 ∉ p → kept k e (s_make p kd now fs').
Proof using Hkept Hok.
  intros H Hn H0. pose proof kept_bounds. apply kept_touch; [|done]. apply kept_new; [done|by apply nul_ne|lia].
Qed.

Lemma below_none new : (∀ x, look fs new = Some x → is_dir x = false) → empty_dir new fs.
Proof using Hok. intros H q j Hq Hu. destruct (above_is_dir _ _ _ _ Hok Hq Hu) as (x&Hx&Hd). by rewrite (H x Hx) in Hd. Qed.

Lemma kept_rename old new now : 0 ∉ old → 0 ∉ new → kept k e (s_rename old new now fs).2.
Proof using Hkept Hok.
  intros Ho Hn. unfold s_rename. pose proof kept_bounds. destruct (negb _); [done|]. destruct (bool_decide (old = new)); [done|].
  destruct (look fs old) as [x|]; [|done]. destruct (look fs new) as [d|] eqn:En.
  - destruct (bool_decide (under old new) || is_dir x || is_dir d) eqn:Ed; [done|]. apply orb_false_iff in Ed as [_ Hd]. cbn [snd].
    do 2 (apply kept_touch; [|done]). pose proof (kept_other fs new d Hkept Hn En) as Hdk.
    assert (Hk1 : kept k e (with_maps (s_unpipe d fs) (delete new (f_names fs)) (delete (e_id d) (f_nodes fs)))).
    { pose proof (kept_del (s_unpipe d fs) new (e_id d) (kept_unpipe _ d Hkept) (nul_ne _ Hn) Hdk) as H1.
      unfold s_unpipe in *. by destruct (e_kind d). }
    eapply (kept_relabel _ old new) in Hk1 as Hk2; [exact Hk2|lia|done| |apply (kept_node _ _ _ Hk1)|apply (kept_ids _ _ _ Hk1)].
    intros r Hr. cbn. apply eq_None_not_Some. intros [j [Hne Hj]%lookup_delete_Some]. destruct Hr as [->|Hu]; [done|].
    eapply (below_none new); [|exact Hj|done]. congruence.
  - destruct (_ || _); [done|]. cbn [snd]. do 2 (apply kept_touch; [|done]).
    apply kept_relabel; [done|lia|done| |apply (kept_node _ _ _ Hkept)|apply (kept_ids _ _ _ Hkept)].
    intros r Hr. apply eq_None_not_Some. intros [j Hj]. destruct Hr as [->|Hu].
    + destruct (ok_placed _ Hok _ _ Hj) as (y&Hy&_). assert (look fs new = Some y) by (apply look_some; by exists j). congruence.
    + eapply (below_none new); [|exact Hj|done]. congruence.
Qed.

Lemma kept_keep p x : 0 ∉ p → look_at fs (AtPath p) = Some x →
  kept k e (with_maps fs (<[kept_name (e_id x) := e_id x]> (delete p (f_names fs))) (f_nodes fs)).
Proof using Hkept Hok Hnext.
  intros H0 E. pose proof kept_bounds as Hb. pose proof (kept_at (AtPath p) x H0 I E) as Hx.
  assert (Hxb : 0 <= e_id x < f_next fs).
  { cbn in E. destruct (valid_rel_path p); [|done]. apply look_some in E as (j&_&Hj). apply (ok_node _ Hok) in Hj as (->&?&_). lia. }
  destruct Hkept as [H1 H2 H3 H4]. split; cbn; [|done| |done].
  - rewrite lookup_insert_ne, lookup_delete_ne; [done|by apply nul_ne|]. intros Eq. by apply kept_inj in Eq; [|lia..].
  - intros q [[_ ?]|[_ [_ Hq]%lookup_delete_Some]]%lookup_insert_Some; [done|by apply H3].
Qed.

(** No other call changes a kept file. *)
Lemma spec_kept o : op_ok o → spares k o → kept k e (spec o fs).2.
Proof using Hkept Hok Hnext.
  intros Ho Hs. pose proof kept_bounds as Hb. pose proof kept_at as Hat. destruct o; cbn [spec op_ok spares] in *; try done.
  - destruct (look_at fs (AtPath name)) as [x|] eqn:E; [|done]. destruct (is_file x); [|done]. apply kept_touch; [|done]. by apply kept_keep.
  - case_if; [done|]. apply kept_new; [done| |cbn; lia]. intros Eq. apply kept_inj in Eq; lia.
  - cbn [snd]. destruct (f_names fs !! kept_name id) as [j|] eqn:E; [|done]. assert (Hj : j = id).
    { destruct (ok_placed _ Hok _ _ E) as (x&Hx&[[Eq _]|(_&H&_)]); [|by destruct H; apply kept_nul].
      destruct (ok_node _ Hok _ _ Hx) as (<-&?&_). apply kept_inj in Eq; lia. }
    subst j. apply kept_del; [done| |done]. intros Eq. rewrite Eq in E. pose proof (kept_named _ _ _ Hkept). congruence.
  - destruct (look_at fs (AtPath name)); [done|]. case_if; [|done]. by apply kept_make.
  - destruct (look_at fs (AtPath name)) as [x|] eqn:E; [|done]. case_if; [|done]. apply kept_put; [done|]. by apply (Hat (AtPath name) x).
  - unfold s_set_size. case_if; [done|]. destruct (look_at fs at_) as [[i [|data|t|j] ea em]|] eqn:E; try done. case_if; [done|].
    apply kept_put; [done|]. destruct Ho. by apply (Hat at_ _) in E; [|done|destruct at_].
  - by destruct (s_read fs at_ pos out).
  - unfold s_write. destruct (look_at fs at_) as [[i [|data|t|j] ea em]|] eqn:E; try done. do 2 (case_if; [done|]).
    apply kept_put; [done|]. destruct Ho. by apply (Hat at_ _) in E; [|done|destruct at_].
  - case_if; [|done]. destruct (Pipe.alloc_named (f_pipes fs)) as [[i|] st]; [|by apply kept_pipes]. apply kept_make; [by apply kept_pipes|done..].
  - case_if; [|done]. by apply kept_make.
  - destruct (look_at fs (AtPath name)) as [x|]; [|done]. case_if; [|done]. by apply kept_drop.
  - destruct (look_at fs (AtPath name)) as [x|]; [|done]. destruct (e_kind x); try done; (apply kept_drop; [|done]);
      by first [apply kept_links|apply kept_unpipe].
  - destruct Ho. pose proof (kept_rename old new now) as Hk. destruct (s_rename old new now fs). by apply Hk.
  - case_if; [|done]. apply kept_links. by apply kept_make.
  - by destruct (s_list fs rel buf).
  - case_if; [by destruct Hkept; split|]. unfold s_set_times. destruct (look_at fs (AtPath name)) as [x|] eqn:E; [|done]. apply kept_put; [done|].
    by apply (Hat (AtPath name) x).
  - unfold s_set_times. destruct (look_at fs at_) as [x|] eqn:E; [|done]. apply kept_put; [done|]. by apply (Hat at_ x); [|destruct at_|].
  - destruct (Pipe.exec o (f_pipes fs)) as [[r st]|]; [|done]. by apply kept_pipes.
Qed.

End kept.

Lemma run_kept k e os s l s' : wf s → Forall op_ok os → Forall (spares k) os → next_id s + zlen os <= U64_MAX → kept k e (abs s) →
  exec_all os s = Some (l, s') → kept k e (abs s').
Proof.
  intros Hw Ho. revert s l Hw. induction Ho as [|o os Ho _ IH]; intros s l Hw Hs Hn Hk; cbn [exec_all length] in *; [by intros [= <- <-]|].
  apply Forall_cons in Hs as [Hso Hs]. destruct (exec_sim o s Hw Ho ltac:(lia)) as (a&s1&E&Hsp&Hw1). rewrite E. cbn [mbind option_bind].
  pose proof (ok_links _ (wf_fs _ Hw)) as Hl. unfold links in Hl. cbn in Hl.
  pose proof (spec_next o (abs s)) as Hx. rewrite Hsp in Hx. cbn in Hx. specialize (Hx ltac:(lia)).
  pose proof (spec_kept k e (abs s) (wf_fs _ Hw) Hk ltac:(cbn; lia) o Ho Hso) as Hk1. rewrite Hsp in Hk1.
  destruct (exec_all os s1) as [[l1 s2]|] eqn:E1; [|done]. intros [= <- <-]. eapply (IH s1); try done. lia.
Qed.

(** After [unlink_keep], the file is kept. *)
Lemma unlink_kept p k now s s1 : wf s → next_id s < U64_MAX → 0 ∉ p → file_id p s = Some k → unlink_keep p now s = (true, s1) →
  wf s1 ∧ next_id s1 = next_id s ∧ look (abs s1) p = None ∧ ∃ e, entry_at (tree s) (AtPath p) = Some e ∧ kept k e (abs s1).
Proof.
  intros Hw Hn H0 Hf Hu. pose proof (unlink_keep_sim s Hw Hn p now H0) as (a&s'&E&Hs&Hw'). cbn [exec spec] in E, Hs. rewrite Hu in E. injection E as <- <-.
  destruct Hw as [Hr Hok]. unfold file_id in Hf. rewrite entry_at_look in * by done. destruct (look_at (abs s) (AtPath p)) as [e|] eqn:El; [|done].
  injection Hf as <-. destruct (is_file e); [|done]. injection Hs as Ha. split; [done|]. split.
  { change (f_next (abs s1) = f_next (abs s)). rewrite <- Ha. by rewrite touch_next. }
  split.
  { unfold look. rewrite <- Ha, touch_names. cbn. rewrite lookup_insert_ne by (by apply not_eq_sym, nul_ne). by rewrite lookup_delete_eq. }
  exists e. split; [done|]. rewrite <- Ha. apply kept_touch; [|done]. destruct (look_at_path s p e Hr El Hok) as (Hv&Hp&Hk&Hinj). split; cbn.
  - apply lookup_insert_eq.
  - done.
  - intros q [[<- _]|[_ [Hne Hq]%lookup_delete_Some]]%lookup_insert_Some; [done|]. by destruct Hne; rewrite (Hinj q Hq).
  - intros j x Hx. by destruct (ok_node _ Hok j x Hx).
Qed.

(** C5: Any calls on the in-memory file system, one after the other from boot, never panic, and they answer what a file system of two
    maps answers, one from paths to ids and one from ids to entries: the table of slots with its free list and two indices, the
    range scans that find what is below a directory, the count of links that cuts a lookup short and the buffers that are
    filled in place make no difference. The calls are all of them, refused ones too, with the heap refusing memory at will. *)
Theorem tmpfs_refines_names os st : Pipe.wf st → Forall op_ok os → zlen os + 2 <= U64_MAX →
  ∃ l s, exec_all os (boot st) = Some (l, s) ∧ spec_all os (nothing st) = (l, abs s).
Proof.
  intros Hp Ho Hn. destruct (wf_boot st Hp) as [Hw <-]. destruct (run_sim os (boot st) Hw Ho) as (l&s&E&Hs&_); [cbn; lia|]. by exists l, s.
Qed.

(** C30: What any calls from boot leave is a tree. A path that leads to an entry and is not a kept file's has directories all the way
    up; two paths never lead to one entry, and each entry is found by its id; there are no more entries, and none longer, than the
    limits say; a link is never missed because the count of links is zero; and each FIFO has a named pipe, of its own. *)
Theorem tmpfs_is_a_tree os st l s : Pipe.wf st → Forall op_ok os → zlen os + 2 <= U64_MAX → exec_all os (boot st) = Some (l, s) →
  tree_len (tree s) <= MAX_ENTRIES ∧
  ∀ p e, get (tree s) p = Some e →
    (p = kept_name (e_id e) ∧ is_file e = true ∨
     valid_rel_path p = true ∧ is_dir_path (tree s) (parent_of p) = true ∧
     ∀ d, under d p → ∃ x, get (tree s) d = Some x ∧ is_dir x = true) ∧
    entry_at (tree s) (AtId (e_id e)) = Some e ∧ content_ok e ∧ (is_symlink e = true → has_symlinks s = true) ∧
    (∀ i, e_kind e = Fifo i → has_pipe (pipes s) i) ∧
    ∀ q e', get (tree s) q = Some e' → e_id e' = e_id e ∨ (∃ i, e_kind e = Fifo i ∧ e_kind e' = Fifo i) → q = p.
Proof.
  intros Hp Ho Hn E. destruct (boot_run os st l s Hp Ho Hn E) as [[Hr Hok] Hb]. split.
  { rewrite tree_len_names by done. apply (ok_size _ Hok). }
  intros p e He. rewrite get_look in He by done. pose proof He as Hl. apply look_some in Hl as (k&Hpk&Hke).
  destruct (ok_node _ Hok _ _ Hke) as (<-&Hkb&Hc). split_and!.
  - destruct (ok_placed _ Hok _ _ Hpk) as (x&Hx&Hpl). assert (x = e) as -> by congruence. destruct Hpl as [Hpl|(Hv&_&Hd)]; [by left|right].
    rewrite is_dir_path_look by done. split; [done|]. split; [done|]. intros d Hu. destruct (above_is_dir _ _ _ _ Hok Hpk Hu) as (x&Hx'&Hdx).
    exists x. by rewrite get_look.
  - by rewrite entry_at_look.
  - done.
  - intros Hsl. apply links_pos in Hke; [|done]. pose proof (ok_links _ Hok) as Hlk. unfold has_symlinks. cbn in Hlk.
    destruct (Z.eqb_spec (symlinks s) 0); [cbn in *; lia|done].
  - intros i Hi. by eapply (ok_fifo _ Hok).
  - intros q e' Hq Hsame. rewrite get_look in Hq by done. apply look_some in Hq as (j&Hqj&Hj). destruct (ok_node _ Hok _ _ Hj) as (<-&_&_).
    assert (Hid : e_id e' = e_id e) by (destruct Hsame as [?|(i&?&?)]; [done|by eapply (ok_fifos _ Hok)]). rewrite Hid in Hqj.
    by eapply (names_inj (tree s)).
Qed.

(** A file that is unlinked while it is open lives on. After [unlink_keep] its path leads nowhere, and whatever calls come then,
    by path or on other ids, a read of the file's id gives what a read of its path gave before, until a call on the id itself
    changes or forgets it. *)
Theorem unlinked_file_lives_on os os' st p k now l s s1 l' s2 : Pipe.wf st → Forall op_ok os → Forall op_ok os' →
  zlen os + zlen os' + 3 <= U64_MAX → exec_all os (boot st) = Some (l, s) → 0 ∉ p → file_id p s = Some k → unlink_keep p now s = (true, s1) →
  Forall (spares k) os' → exec_all os' s1 = Some (l', s2) →
  file_id p s1 = None ∧ ∀ pos out, read_at (AtId k) pos out s2 = read_at (AtPath p) pos out s.
Proof.
  intros Hp Ho Ho' Hn E H0 Hf Hu Hs E'. destruct (boot_run os st l s Hp Ho ltac:(lia) E) as [Hw Hb].
  destruct (unlink_kept p k now s s1 Hw ltac:(lia) H0 Hf Hu) as (Hw1&Hn1&Hgone&e&He&Hk). split.
  - unfold file_id. rewrite entry_at_look by apply Hw1. destruct (look_at (abs s1) (AtPath p)) as [x|] eqn:Ex; [|done]. exfalso.
    cbn in Ex. destruct (valid_rel_path p); congruence.
  - intros pos out. pose proof (run_kept k e os' s1 l' s2 Hw1 Ho' Hs ltac:(lia) Hk E') as Hk2.
    destruct (run_sim os' s1 Hw1 Ho' ltac:(lia)) as (?&?&E2&_&[Hr2 _]&_). rewrite E' in E2. injection E2 as <- <-.
    unfold read_at. rewrite He, entry_at_look by done. cbn [look_at]. by rewrite (kept_node _ _ _ Hk2).
Qed.

(** ** The theorems at work *)

#[export] Instance op_ok_dec o : Decision (op_ok o).
Proof.
  destruct o; cbn [op_ok]; unfold at_ok; repeat match goal with |- context [match ?x with _ => _ end] => is_var x; destruct x end; apply _.
Defined.

#[export] Instance spares_dec k o : Decision (spares k o).
Proof. destruct o; cbn [spares]; repeat match goal with |- context [match ?x with _ => _ end] => destruct x end; apply _. Defined.

Definition roomy : Heap := {| try_reserve := λ _, true; try_reserve_exact := λ _, true |}.

(** A directory with a file, a FIFO and a directory with a link in it; the
    first is renamed and listed, and the file takes the FIFO's place. *)
Definition some_calls : list Op :=
  [Mkdir (str "d") 1; Create (str "d/f") 2; Write roomy (AtPath (str "d/f")) 2 [7; 8; 9] 3; Mkfifo (str "d/p") 4; Mkdir (str "d/d") 5;
   Link (str "xy") (str "d/d/l") 6; Rename (str "d") (str "e") 7; Rmdir (str "e") 8; Listdir (str "e") (replicate 8 0);
   Readlink (str "e/d/l") [1]; Rename (str "e/f") (str "e/p") 9; Stat (str "e/p"); Read (AtPath (str "e/p")) 1 (replicate 3 5);
   Rename (str "e") (str "e/d/x") 10].

Lemma some_calls_ok : Forall op_ok some_calls.
Proof. apply (bool_decide_unpack _). vm_compute. exact I. Qed.

Definition some_answers : list Answer :=
  [ABool true; ABool true; AWritten (Ok 3); ABool true; ABool true; ABool true; ABool true; ABool false;
   ARead 6 (str "d" ++ [10] ++ str "f" ++ [10] ++ str "p" ++ [10; 0; 0]); ALink (Some 1) (str "x"); ABool true;
   AStat (Some {| mode := 0x81ed; st_size := 5; ino := 3; nlink := 1; st_mtime := 3; st_atime := 2 |}); ARead 3 [0; 7; 8]; ABool false].

Lemma tmpfs_refines_names_witness : ∃ l s, exec_all some_calls (boot Pipe.initial) = Some (l, s) ∧
  spec_all some_calls (nothing Pipe.initial) = (l, abs s) ∧ l = some_answers.
Proof.
  destruct (tmpfs_refines_names some_calls Pipe.initial Pipe.wf_initial some_calls_ok) as (l&s&E&Hs); [vm_compute; discriminate|].
  exists l, s. split; [exact E|]. split; [exact Hs|].
  assert (H : fst <$> exec_all some_calls (boot Pipe.initial) = Some some_answers) by (vm_compute; reflexivity).
  rewrite E in H. cbn in H. congruence.
Defined.

Lemma tmpfs_is_a_tree_witness : ∃ l s e x, exec_all some_calls (boot Pipe.initial) = Some (l, s) ∧
  get (tree s) (str "e/d/l") = Some e ∧ get (tree s) (str "e/d") = Some x ∧ is_dir x = true.
Proof.
  assert (Hl : (r ← exec_all some_calls (boot Pipe.initial); is_file <$> get (tree r.2) (str "e/d/l")) = Some false) by (vm_compute; reflexivity).
  destruct (exec_all some_calls (boot Pipe.initial)) as [[l s]|] eqn:E; [|discriminate Hl]. cbn [mbind option_bind snd] in Hl.
  destruct (tmpfs_is_a_tree some_calls Pipe.initial l s Pipe.wf_initial some_calls_ok) as [_ H]; [vm_compute; discriminate|exact E|].
  destruct (get (tree s) (str "e/d/l")) as [e|] eqn:He; [|discriminate Hl]. cbn in Hl. injection Hl as Hl.
  destruct (H (str "e/d/l") e He) as [[[_ Hk]|(_&_&Hd)] _]; [congruence|]. destruct (Hd (str "e/d")) as (x&Hx&Hdx); [exists (str "l"); reflexivity|].
  exists l, s, e, x. split; [reflexivity|]. split; [exact He|]. split; [exact Hx|exact Hdx].
Defined.

(** A file is made, written and unlinked; another takes its name. *)
Definition before : list Op := [Create (str "f") 1; Write roomy (AtPath (str "f")) 0 [7; 8; 9] 2].
Definition after : list Op := [Create (str "f") 4; Write roomy (AtPath (str "f")) 0 [1] 5; Unlink (str "f") 6; Forget 3; Read (AtId 2) 1 [0; 0]].

Definition then_state (os : list Op) (s : Tmpfs) : Tmpfs := match exec_all os s with Some (_, s) => s | None => s end.

Lemma unlinked_file_lives_on_witness :
  let s := then_state before (boot Pipe.initial) in let s1 := (unlink_keep (str "f") 3 s).2 in
  file_id (str "f") s1 = None ∧ read_at (AtId 2) 0 (replicate 4 0) (then_state after s1) = read_at (AtPath (str "f")) 0 (replicate 4 0) s.
Proof.
  intros s s1. destruct (unlinked_file_lives_on before after Pipe.initial (str "f") 2 3 [ABool true; AWritten (Ok 3)] s s1
    [ABool true; AWritten (Ok 1); ABool true; ADone; ARead 2 [8; 9]] (then_state after s1)) as [H1 H2].
  - exact Pipe.wf_initial.
  - apply (bool_decide_unpack _). vm_compute. exact I.
  - apply (bool_decide_unpack _). vm_compute. exact I.
  - vm_compute. discriminate.
  - vm_compute. reflexivity.
  - apply (bool_decide_unpack _). vm_compute. exact I.
  - vm_compute. reflexivity.
  - vm_compute. reflexivity.
  - apply (bool_decide_unpack _). vm_compute. exact I.
  - vm_compute. reflexivity.
  - split; [exact H1|apply H2].
Defined.
