(* ===== verification/BlkCache.v ===== *)
(** * The block cache

    [kernel/src/blk/cache.rs] and the two calls of [blk.rs] that go through
    it: chunks of 4 KiB of the disks kept in page frames, found by an index,
    replaced by a clock. Several tasks read and write at once: a call takes
    the cache's lock several times and talks to the device in between, so
    the model is a system of calls that interleave, a step per critical
    section of the lock and a step per sector the device moves.

    Memory is a function from a frame to its bytes, a disk a function from
    its id and a byte's place to the byte. The frame allocator is the
    environment: it may hand out any frame that the cache does not hold. *)

From S2P Require Import Prelude.
From stdpp Require Import gmap fin_maps functions list.

Open Scope Z_scope.

Definition SECTOR : Z := 512.
Definition CHUNK : Z := 4096.
Definition CHUNK_SECTORS : Z := CHUNK / SECTOR.
(** [MAX_REQUEST / CHUNK] *)
Definition MAX_RUN : Z := 64 * 1024 / CHUNK.

Record Entry : Set := { key : Z * Z; frame : Z; used : bool }.

Record Cache := { index : gmap (Z * Z) nat; entries : list Entry; hand : nat; writes : Z }.

(** The bytes of chunk [chunk] that a request covers: the range in the chunk
    and the range in the caller's buffer. [None]: a place past 64 bits, or
    a request that ends before the chunk. *)
Definition overlap (chunk lba len : Z) : option ((Z * Z) * (Z * Z)) :=
  c ← fits 64 (chunk * CHUNK); l ← fits 64 (lba * SECTOR);
  c_end ← fits 64 ((chunk + 1) * CHUNK); l_end ← add64 l len;
  let start := Z.max c l in
  let end_ := Z.min c_end l_end in
  c_to ← usub end_ c; l_to ← usub end_ l;
  Some ((start - c, c_to), (start - l, l_to)).

(** [dst[to].copy_from_slice(&src[from])] *)
Definition copy_range (dst : list Z) (to : Z * Z) (src : list Z) (from : Z * Z) : option (list Z) :=
  s ← slice src from.1 from.2; copy_slice dst to.1 to.2 s.

(** [a.div_ceil(b)] of a divisor that is not 0 *)
Definition ceil (a b : Z) : Z := if a mod b =? 0 then a / b else a / b + 1.

Definition first_chunk (lba : Z) : Z := lba / CHUNK_SECTORS.
Definition end_chunk (lba len : Z) : Z := ceil (lba + len / SECTOR) CHUNK_SECTORS.

(** The closures that run with the lock held. An outer [None] is a panic. *)

(** A chunk's bytes into the buffer, if it is kept. *)
Definition hit (mem : Z → list Z) (dev chunk lba : Z) (buf : list Z) (c : Cache) : option (option (list Z) * Cache) :=
  match index c !! (dev, chunk) with
  | None => Some (None, c)
  | Some i =>
      e ← entries c !! i;
      '(from, to) ← overlap chunk lba (zlen buf);
      buf' ← copy_range buf to (mem (frame e)) from;
      Some (Some buf', {| index := index c; entries := <[i := {| key := key e; frame := frame e; used := true |}]> (entries c);
                          hand := hand c; writes := writes c |})
  end.

(** The end of the run of missing chunks. *)
Fixpoint run_end (fuel : nat) (dev chunk whole_end e : Z) (c : Cache) : Z :=
  match fuel with
  | O => e
  | S fuel =>
      if (e <? whole_end) && (e - chunk <? MAX_RUN) && negb (bool_decide (is_Some (index c !! (dev, e))))
      then run_end fuel dev chunk whole_end (e + 1) c else e
  end.

(** The chunks of a run, copied to the buffer. *)
Fixpoint copy_run (n : nat) (k lba : Z) (data buf : list Z) : option (list Z) :=
  match n with
  | O => Some buf
  | S n =>
      '(from, to) ← overlap k lba (zlen buf);
      buf' ← copy_range buf to (take (Z.to_nat CHUNK) data) from;
      copy_run n (k + 1) lba (drop (Z.to_nat CHUNK) data) buf'
  end.

(** The clock: at most [fuel] more entries are looked at. *)
Fixpoint evict_from (fuel : nat) (c : Cache) : option (option nat * Cache) :=
  match fuel with
  | O => Some (None, c)
  | S fuel =>
      let i := (hand c mod length (entries c))%nat in
      e ← entries c !! i;
      if used e
      then evict_from fuel {| index := index c;
                              entries := <[i := {| key := key e; frame := frame e; used := false |}]> (entries c);
                              hand := S i; writes := writes c |}
      else Some (Some i, {| index := delete (key e) (index c); entries := entries c; hand := S i; writes := writes c |})
  end.

Definition evict (c : Cache) : option (option nat * Cache) := evict_from (2 * length (entries c)) c.

(** The entry the clock finds, taken for a new chunk. *)
Definition reuse (dev k : Z) (c : Cache) : option (option nat * Cache) :=
  '(i, c) ← evict c;
  match i with
  | None => Some (None, c)
  | Some i =>
      e ← entries c !! i;
      Some (Some i, {| index := index c; entries := <[i := {| key := (dev, k); frame := frame e; used := used e |}]> (entries c);
                       hand := hand c; writes := writes c |})
  end.

(** The entry a new chunk goes to: a new one while the cache grows. *)
Definition entry_for (cap dev k : Z) (spare : option Z) (c : Cache) : option (option nat * Cache) :=
  match spare with
  | Some f =>
      if zlen (entries c) <? cap
      then Some (Some (length (entries c)),
                 {| index := index c; entries := entries c ++ [{| key := (dev, k); frame := f; used := false |}];
                    hand := hand c; writes := writes c |})
      else reuse dev k c
  | None => reuse dev k c
  end.

(** Keep one chunk read while the count of writes was [w]: the frame that is
    left over, the cache and the memory. *)
Definition put (cap dev k w : Z) (bytes : list Z) (spare : option Z) (mem : Z → list Z) (c : Cache) :
    option (option Z * Cache * (Z → list Z)) :=
  if negb (writes c =? w) || bool_decide (is_Some (index c !! (dev, k))) then Some (spare, c, mem)
  else
    '(i, c) ← entry_for cap dev k spare c;
    match i with
    | None => Some (spare, c, mem)
    | Some i =>
        e ← entries c !! i;
        if negb (zlen bytes =? CHUNK) then None
        else Some (if frame e =? default 0 spare then None else spare,
                   {| index := <[(dev, k) := i]> (index c); entries := entries c; hand := hand c; writes := writes c |},
                   <[frame e := bytes]> mem)
    end.

(** The kept chunks from [chunk] on, [n] of them, that a write covers. *)
Fixpoint wrote_from (n : nat) (dev chunk lba : Z) (buf : list Z) (c : Cache) (mem : Z → list Z) : option (Z → list Z) :=
  match n with
  | O => Some mem
  | S n =>
      mem' ← match index c !! (dev, chunk) with
             | None => Some mem
             | Some i =>
                 e ← entries c !! i;
                 '(to, from) ← overlap chunk lba (zlen buf);
                 b ← copy_range (mem (frame e)) to buf from;
                 Some (<[frame e := b]> mem)
             end;
      wrote_from n dev (chunk + 1) lba buf c mem'
  end.

Definition count_write (c : Cache) : option Cache :=
  w ← add64 (writes c) 1;
  Some {| index := index c; entries := entries c; hand := hand c; writes := w |}.

Definition wrote (dev lba : Z) (buf : list Z) (mem : Z → list Z) (c : Cache) : option (Cache * (Z → list Z)) :=
  let first := first_chunk lba in
  let end_ := end_chunk lba (zlen buf) in
  _ ← add64 lba (zlen buf / SECTOR);
  c ← count_write c;
  mem ← wrote_from (Z.to_nat (end_ - first)) dev first lba buf c mem;
  Some (c, mem).

(** [entries.iter().enumerate().map(|(i, e)| (e.key, i)).collect()] *)
Definition index_of (es : list Entry) : gmap (Z * Z) nat := list_to_map (reverse (imap (λ i e, (key e, i)) es)).

(** Forget a device, and give every frame back: the frames freed. *)
Definition forget (dev : Z) (c : Cache) : option (list Z * Cache) :=
  c ← count_write c;
  let gone := filter (λ e, (key e).1 = dev) (entries c) in
  let kept := filter (λ e, (key e).1 ≠ dev) (entries c) in
  Some (frame <$> gone, {| index := index_of kept; entries := kept; hand := 0; writes := writes c |}).

Definition release (c : Cache) : option (list Z * Cache) :=
  c ← count_write c;
  Some (frame <$> entries c, {| index := ∅; entries := []; hand := 0; writes := writes c |}).

(** ** Calls in progress *)

(** A read of a disk of [sectors] sectors. *)
Record Req : Set := { dev : Z; lba : Z; sectors : Z }.

Definition whole_end (q : Req) (buf : list Z) : Z := Z.min (end_chunk (lba q) (zlen buf)) (sectors q / CHUNK_SECTORS).

(** Where a call stands, by its next step. [got] are the sectors of the
    device request that the device has moved. *)
Inductive Thread :=
  | Idle
  | Look (q : Req) (chunk : Z) (buf : list Z)
  | Tail (q : Req) (chunk : Z) (buf : list Z) (got : list Z)
  | Run (q : Req) (chunk : Z) (buf : list Z)
  | Count (q : Req) (chunk end_ : Z) (buf : list Z)
  | Device (q : Req) (chunk end_ w : Z) (buf data : list Z) (got : list Z)
  | Keep (q : Req) (end_ w : Z) (buf : list Z) (k : Z) (data : list Z)
  | Spare (q : Req) (end_ w : Z) (buf : list Z) (k : Z) (data : list Z)
  | Put (q : Req) (end_ w : Z) (buf : list Z) (k : Z) (data : list Z) (spare : option Z)
  | ReadDone (q : Req) (res : option (list Z))
  | Writing (d at_ : Z) (buf : list Z) (got : list Z)
  | Written (d at_ : Z) (buf : list Z) (ok : bool)
  | WriteDone (ok : bool)
  | Panicked.

Record Sys := { cache : Cache; mem : Z → list Z; taken : gset Z; disk : Z → Z → Z; threads : list Thread }.

(** [blk::read] and [blk::write] of a disk whose capacity is known. *)
Inductive Op := Read (q : Req) (buf : list Z) | Write (d at_ : Z) (buf : list Z).

Inductive Label :=
  | Start (i : nat) (o : Op)
  | Locked (i : nat)
  | Alloc (i : nat) (f : Z)
  | Sector (i : nat) (j : Z)
  | Complete (i : nat)
  | Fault (i : nat)
  | Forget (d : Z)
  | Release.

(** ** Steps *)

(** The bytes of sector [n], and a disk with sector [n] taken from [buf],
    a request that starts at sector [at_]. *)
Definition sector_bytes (disk : Z → Z → Z) (d n : Z) : list Z := (λ o, disk d (n * SECTOR + o)) <$> seqZ 0 SECTOR.

Definition set_sector (disk : Z → Z → Z) (d at_ n : Z) (buf : list Z) : Z → Z → Z := λ d' p,
  if (d' =? d) && (n * SECTOR <=? p) && (p <? (n + 1) * SECTOR) then default 0 (zget buf (p - at_ * SECTOR)) else disk d' p.

(** Every sector of a request of [len] bytes was moved. *)
Definition all_moved (len : Z) (got : list Z) : bool := forallb (λ j, bool_decide (j ∈ got)) (seqZ 0 (len / SECTOR)).

Definition in_request (len j : Z) : bool := (0 <=? j) && (j <? len / SECTOR).

(** [free_frame]: [None] if the cache does not hold the frame. *)
Definition free_frame (f : Z) (taken : gset Z) : option (gset Z) :=
  if bool_decide (f ∈ taken) then Some (taken ∖ {[f]}) else None.

Fixpoint free_frames (fs : list Z) (taken : gset Z) : option (gset Z) :=
  match fs with [] => Some taken | f :: fs => taken ← free_frame f taken; free_frames fs taken end.

Definition free_unused (f : option Z) (taken : gset Z) : option (gset Z) :=
  match f with Some f => free_frame f taken | None => Some taken end.

(** A call's first step: the checks of [blk::read] and [blk::write], and the
    end of the request, whose sum may overflow. *)
Definition start (o : Op) : Thread :=
  match o with
  | Read q buf =>
      if negb (zlen buf mod SECTOR =? 0) then ReadDone q None
      else if zlen buf =? 0 then ReadDone q (Some buf)
      else match add64 (lba q) (zlen buf / SECTOR) with Some _ => Look q (first_chunk (lba q)) buf | None => Panicked end
  | Write d at_ buf =>
      if negb (zlen buf mod SECTOR =? 0) then WriteDone false
      else if zlen buf =? 0 then WriteDone true
      else Writing d at_ buf []
  end.

Definition with_cache (s : Sys) (c : Cache) : Sys :=
  {| cache := c; mem := mem s; taken := taken s; disk := disk s; threads := threads s |}.

Definition set_thread (s : Sys) (i : nat) (t : Thread) : Sys :=
  {| cache := cache s; mem := mem s; taken := taken s; disk := disk s; threads := <[i := t]> (threads s) |}.

(** The tail's range in the buffer, found before the device is asked. *)
Definition tail_to (q : Req) (chunk : Z) (buf : list Z) : Z * Z := (default ((0, 0), (0, 0)) (overlap chunk (lba q) (zlen buf))).2.

Section steps.
Variable cap : Z.

(** A critical section of call [i]; [None] if it panics. *)
Definition locked (s : Sys) (t : Thread) : option (Sys * Thread) :=
  let c := cache s in
  match t with
  | Look q chunk buf =>
      if chunk <? end_chunk (lba q) (zlen buf) then
        '(h, c) ← hit (mem s) (dev q) chunk (lba q) buf c;
        match h with
        | Some buf => Some (with_cache s c, Look q (chunk + 1) buf)
        | None =>
            if whole_end q buf <=? chunk then _ ← overlap chunk (lba q) (zlen buf); Some (with_cache s c, Tail q chunk buf [])
            else Some (with_cache s c, Run q chunk buf)
        end
      else Some (s, ReadDone q (Some buf))
  | Run q chunk buf =>
      Some (s, Count q chunk (run_end (Z.to_nat MAX_RUN) (dev q) chunk (whole_end q buf) (chunk + 1) c) buf)
  | Count q chunk end_ buf =>
      Some (s, Device q chunk end_ (writes c) buf (replicate (Z.to_nat ((end_ - chunk) * CHUNK)) 0) [])
  | Keep q end_ w buf k data =>
      Some (s, match data with
        | [] => Look q end_ buf
        | _ => if zlen (entries c) <? cap then Spare q end_ w buf k data else Put q end_ w buf k data None
        end)
  | Put q end_ w buf k data spare =>
      '(unused, c, m) ← put cap (dev q) k w (take (Z.to_nat CHUNK) data) spare (mem s) c;
      taken ← free_unused unused (taken s);
      Some ({| cache := c; mem := m; taken := taken; disk := disk s; threads := threads s |},
            Keep q end_ w buf (k + 1) (drop (Z.to_nat CHUNK) data))
  | Written d at_ buf ok =>
      '(c, m) ← wrote d at_ buf (mem s) c;
      Some ({| cache := c; mem := m; taken := taken s; disk := disk s; threads := threads s |}, WriteDone ok)
  | _ => None
  end.

Definition is_locked (t : Thread) : bool :=
  match t with Look _ _ _ | Run _ _ _ | Count _ _ _ _ | Keep _ _ _ _ _ _ | Put _ _ _ _ _ _ _ | Written _ _ _ _ => true | _ => false end.

(** The device moves sector [j] of call [i]'s request. *)
Definition move (s : Sys) (t : Thread) (j : Z) : option (Sys * Thread) :=
  match t with
  | Tail q chunk buf got =>
      let to := tail_to q chunk buf in
      if in_request (to.2 - to.1) j
      then Some (s, Tail q chunk (splice buf (to.1 + j * SECTOR) (sector_bytes (disk s) (dev q) (lba q + to.1 / SECTOR + j))) (j :: got))
      else None
  | Device q chunk end_ w buf data got =>
      if in_request (zlen data) j
      then Some (s, Device q chunk end_ w buf (splice data (j * SECTOR) (sector_bytes (disk s) (dev q) (chunk * CHUNK_SECTORS + j))) (j :: got))
      else None
  | Writing d at_ buf got =>
      if in_request (zlen buf) j
      then Some ({| cache := cache s; mem := mem s; taken := taken s; disk := set_sector (disk s) d at_ (at_ + j) buf; threads := threads s |},
                 Writing d at_ buf (j :: got))
      else None
  | _ => None
  end.

(** The device request of a call is done. A run's chunks go to the buffer
    before they are kept. The outer [None]: it is not done; the inner: a
    panic. *)
Definition complete (t : Thread) : option (option Thread) :=
  match t with
  | Tail q chunk buf got =>
      let to := tail_to q chunk buf in
      if all_moved (to.2 - to.1) got then Some (Some (Look q (chunk + 1) buf)) else None
  | Device q chunk end_ w buf data got =>
      if all_moved (zlen data) got
      then Some (buf ← copy_run (Z.to_nat (end_ - chunk)) chunk (lba q) data buf; Some (Keep q end_ w buf chunk data))
      else None
  | Writing d at_ buf got => if all_moved (zlen buf) got then Some (Some (Written d at_ buf true)) else None
  | _ => None
  end.

(** The device request fails. *)
Definition fault (t : Thread) : option Thread :=
  match t with
  | Tail q _ _ _ | Device q _ _ _ _ _ _ => Some (ReadDone q None)
  | Writing d at_ buf _ => Some (Written d at_ buf false)
  | _ => None
  end.

(** [None]: the label is not a step of this state. *)
Definition step (s : Sys) (l : Label) : option Sys :=
  match l with
  | Start i o => match threads s !! i with Some Idle => Some (set_thread s i (start o)) | _ => None end
  | Locked i =>
      t ← threads s !! i;
      if is_locked t
      then Some (match locked s t with Some (s', t') => set_thread s' i t' | None => set_thread s i Panicked end)
      else None
  | Alloc i f =>
      match threads s !! i with
      | Some (Spare q end_ w buf k data) =>
          if bool_decide (f ∈ taken s) || (f =? 0) then None
          else Some {| cache := cache s; mem := mem s; taken := {[f]} ∪ taken s; disk := disk s;
                       threads := <[i := Put q end_ w buf k data (Some f)]> (threads s) |}
      | _ => None
      end
  | Sector i j => t ← threads s !! i; '(s', t') ← move s t j; Some (set_thread s' i t')
  | Complete i => t ← threads s !! i; o ← complete t; Some (set_thread s i (default Panicked o))
  | Fault i => t ← threads s !! i; t' ← fault t; Some (set_thread s i t')
  | Forget d =>
      '(freed, c) ← forget d (cache s); taken ← free_frames freed (taken s);
      Some {| cache := c; mem := mem s; taken := taken; disk := disk s; threads := threads s |}
  | Release =>
      '(freed, c) ← release (cache s); taken ← free_frames freed (taken s);
      Some {| cache := c; mem := mem s; taken := taken; disk := disk s; threads := threads s |}
  end.

Fixpoint run (s : Sys) (ls : list Label) : option Sys :=
  match ls with [] => Some s | l :: ls => s ← step s l; run s ls end.
End steps.
