(* ===== verification/BlkCacheFacts.v ===== *)
(** * What the block cache's critical sections do

    Each closure that runs with the cache's lock held, by what it does to
    the chunks an observer sees: which frame a chunk has ([frame_at]) and
    which byte the cache has for a place on a disk ([cached]). *)

From S2P Require Import Prelude BlkCache.
From stdpp Require Import gmap fin_maps functions list.

Open Scope Z_scope.

(** An entry without its mark. *)
Definition slots (c : Cache) : list ((Z * Z) * Z) := (λ e, (key e, frame e)) <$> entries c.
Definition frames (c : Cache) : list Z := (slots c).*2.

Definition frame_at (c : Cache) (d k : Z) : option Z := i ← index c !! (d, k); snd <$> slots c !! i.

(** The byte the cache has for place [p] of disk [d]. *)
Definition cached (c : Cache) (m : Z → list Z) (d p : Z) : option Z :=
  f ← frame_at c d (p / CHUNK); zget (m f) (p mod CHUNK).

(** The index finds exactly the entries. *)
Definition c_ok (c : Cache) : Prop := ∀ k i, index c !! k = Some i ↔ fst <$> slots c !! i = Some k.

Definition mem_ok (m : Z → list Z) : Prop := ∀ f, zlen (m f) = CHUNK.

Lemma slots_entry c i e : entries c !! i = Some e → slots c !! i = Some (key e, frame e).
Proof. intros H. unfold slots. by rewrite list_lookup_fmap, H. Qed.

Lemma slot_entry c i x : slots c !! i = Some x → ∃ e, entries c !! i = Some e ∧ x = (key e, frame e).
Proof. unfold slots. rewrite list_lookup_fmap. destruct (entries c !! i) as [e|]; [|done]. intros [= <-]. by exists e. Qed.

Lemma slots_mark (es : list Entry) i e u : es !! i = Some e →
  (λ e, (key e, frame e)) <$> <[i := {| key := key e; frame := frame e; used := u |}]> es = (λ e, (key e, frame e)) <$> es.
Proof.
  intros H. rewrite list_fmap_insert. cbn [key frame]. apply list_insert_id. by rewrite list_lookup_fmap, H.
Qed.

Lemma frame_at_same c c' d k : index c' = index c → slots c' = slots c → frame_at c' d k = frame_at c d k.
Proof. unfold frame_at. by intros -> ->. Qed.

Lemma cached_same c c' m d p : index c' = index c → slots c' = slots c → cached c' m d p = cached c m d p.
Proof. intros. unfold cached. by rewrite (frame_at_same c c'). Qed.

Lemma c_ok_same c c' : index c' = index c → slots c' = slots c → c_ok c → c_ok c'.
Proof. unfold c_ok. by intros -> ->. Qed.

Lemma frame_at_slot c d k f : c_ok c → frame_at c d k = Some f ↔ ∃ i, slots c !! i = Some ((d, k), f).
Proof.
  intros Hc. unfold frame_at. split.
  - destruct (index c !! (d, k)) as [i|] eqn:E; [|done]. cbn. intros H. exists i. apply Hc in E.
    destruct (slots c !! i) as [[? ?]|]; [|done]. cbn in *. congruence.
  - intros [i Hi]. assert (index c !! (d, k) = Some i) as -> by (apply Hc; by rewrite Hi). cbn. by rewrite Hi.
Qed.

Lemma frame_at_in c d k f : c_ok c → frame_at c d k = Some f → f ∈ frames c.
Proof.
  intros Hc (i&Hi)%frame_at_slot; [|done]. unfold frames. apply list_elem_of_fmap. exists ((d, k), f). split; [done|].
  by eapply list_elem_of_lookup_2.
Qed.

(** With no frame held twice, a frame has one chunk. *)
Lemma frame_at_inj c d k d' k' f : c_ok c → NoDup (frames c) → frame_at c d k = Some f → frame_at c d' k' = Some f → d = d' ∧ k = k'.
Proof.
  intros Hc Hn (i&Hi)%frame_at_slot (j&Hj)%frame_at_slot; [|done..].
  assert (i = j) as ->; [|rewrite Hi in Hj; by injection Hj].
  eapply (NoDup_lookup (frames c)); [done|unfold frames; by rewrite list_lookup_fmap, Hi|unfold frames; by rewrite list_lookup_fmap, Hj].
Qed.

(** ** Ranges *)

(** A request that [blk::read] and [blk::write] let through, whose last chunk
    ends within 64 bits. *)
Definition request_ok (lba len : Z) : Prop := (0 <= lba ∧ end_chunk lba len * CHUNK <= U64_MAX) ∧ 0 < len ∧ len mod SECTOR = 0.

Lemma chunk_bounds lba len : request_ok lba len →
  first_chunk lba * CHUNK <= lba * SECTOR < (first_chunk lba + 1) * CHUNK ∧
  (end_chunk lba len - 1) * CHUNK < lba * SECTOR + len <= end_chunk lba len * CHUNK ∧ first_chunk lba < end_chunk lba len.
Proof.
  intros ((H0&_)&H1&H2). unfold first_chunk, end_chunk, ceil, CHUNK_SECTORS, CHUNK, SECTOR in *.
  change (4096 / 512) with 8. pose proof (Z.div_mod len 512 ltac:(lia)). pose proof (Z.div_mod lba 8 ltac:(lia)).
  pose proof (Z.mod_pos_bound lba 8 ltac:(lia)). set (n := len / 512) in *.
  pose proof (Z.div_mod (lba + n) 8 ltac:(lia)). pose proof (Z.mod_pos_bound (lba + n) 8 ltac:(lia)).
  destruct (Z.eqb_spec ((lba + n) mod 8) 0); lia.
Qed.

(** The ranges of [overlap] where nothing overflows. *)
Definition ranges (chunk lba len : Z) : (Z * Z) * (Z * Z) :=
  let start := Z.max (chunk * CHUNK) (lba * SECTOR) in
  let end_ := Z.min ((chunk + 1) * CHUNK) (lba * SECTOR + len) in
  ((start - chunk * CHUNK, end_ - chunk * CHUNK), (start - lba * SECTOR, end_ - lba * SECTOR)).

Lemma overlap_fits chunk lba len : request_ok lba len → first_chunk lba <= chunk < end_chunk lba len →
  overlap chunk lba len = Some (ranges chunk lba len).
Proof.
  intros Hr Hc. destruct (chunk_bounds lba len Hr) as (H1&H2&H3). destruct Hr as ((H4&H5)&H6&_).
  assert (HS : SECTOR = 512) by done. assert (HK : CHUNK = 4096) by done. unfold U64_MAX in H5.
  assert (0 <= first_chunk lba) by (apply Z.div_pos; [lia|done]).
  assert (first_chunk lba * CHUNK <= chunk * CHUNK) by nia. assert ((chunk + 1) * CHUNK <= end_chunk lba len * CHUNK) by nia.
  unfold overlap. rewrite !fits_in by lia. cbn [mbind option_bind]. rewrite add64_in by lia. cbn [mbind option_bind].
  unfold usub. rewrite !(proj2 (Z.leb_le _ _)) by lia. done.
Qed.

Lemma ranges_ok chunk lba len from to : request_ok lba len → first_chunk lba <= chunk < end_chunk lba len →
  ranges chunk lba len = (from, to) →
  0 <= from.1 < from.2 ∧ from.2 <= CHUNK ∧ 0 <= to.1 < to.2 ∧ to.2 <= len ∧ from.2 - from.1 = to.2 - to.1 ∧
  lba * SECTOR + to.1 = chunk * CHUNK + from.1 ∧
  ∀ o, 0 <= o < len → (to.1 <= o < to.2 ↔ (lba * SECTOR + o) / CHUNK = chunk).
Proof.
  intros Hr Hc [= <- <-]. destruct (chunk_bounds lba len Hr) as (H1&H2&H3). cbn [fst snd].
  destruct Hr as ((H4&_)&H5&_). assert (HS : SECTOR = 512) by done. assert (HK : CHUNK = 4096) by done.
  assert (first_chunk lba * CHUNK <= chunk * CHUNK) by nia. assert ((chunk + 1) * CHUNK <= end_chunk lba len * CHUNK) by nia.
  split_and!; try lia. intros o Ho. split.
  - intros Hto. symmetry. apply (Z.div_unique_pos _ _ _ (lba * SECTOR + o - chunk * CHUNK)); lia.
  - intros <-. pose proof (Z.div_mod (lba * SECTOR + o) CHUNK ltac:(lia)). pose proof (Z.mod_pos_bound (lba * SECTOR + o) CHUNK ltac:(lia)). lia.
Qed.

Lemma copy_range_ok dst to src from : 0 <= to.1 < to.2 → to.2 <= zlen dst → 0 <= from.1 → from.2 <= zlen src →
  from.2 - from.1 = to.2 - to.1 →
  ∃ r, copy_range dst to src from = Some r ∧ length r = length dst ∧
    ∀ o, zget r o = (if (to.1 <=? o) && (o <? to.2) then zget src (o - to.1 + from.1) else zget dst o).
Proof.
  intros H1 H2 H3 H4 H5. unfold copy_range. destruct (slice src from.1 from.2) as [s|] eqn:Es.
  2:{ rewrite slice_ok in Es by lia. done. }
  pose proof (slice_length _ _ _ _ Es) as Hl. cbn [mbind option_bind]. rewrite copy_slice_ok by lia. eexists. split; [done|].
  split; [apply splice_length; lia|]. intros o. rewrite zget_splice by lia. replace (to.1 + zlen s) with to.2 by lia.
  case_if; [|done]. rewrite (zget_slice _ _ _ _ _ Es). rewrite (proj2 (Z.leb_le _ _)), (proj2 (Z.ltb_lt _ _)) by lia. cbn. f_equal. lia.
Qed.

(** ** The closures *)

(** The bytes of a request that lie in one chunk, taken from the chunk. *)
Definition filled (buf buf' : list Z) (lba chunk : Z) (bytes : list Z) : Prop :=
  length buf' = length buf ∧ ∀ o, 0 <= o < zlen buf → zget buf' o =
    if (lba * SECTOR + o) / CHUNK =? chunk then zget bytes ((lba * SECTOR + o) mod CHUNK) else zget buf o.

Lemma fill_ok buf lba chunk bytes : request_ok lba (zlen buf) → first_chunk lba <= chunk < end_chunk lba (zlen buf) → zlen bytes = CHUNK →
  ∃ buf', ('(from, to) ← overlap chunk lba (zlen buf); copy_range buf to bytes from) = Some buf' ∧ filled buf buf' lba chunk bytes.
Proof.
  intros Hr Hc Hb. rewrite (overlap_fits _ _ _ Hr Hc). cbn [mbind option_bind]. destruct (ranges chunk lba (zlen buf)) as [from to] eqn:E.
  destruct (ranges_ok _ _ _ _ _ Hr Hc E) as (H1&H2&H3&H4&H5&H6&H7).
  destruct (copy_range_ok buf to bytes from) as (buf'&->&Hl&Hz); [lia..|]. exists buf'. split; [done|]. split; [done|].
  intros o Ho. rewrite Hz. specialize (H7 o Ho). destruct (Z.eqb_spec ((lba * SECTOR + o) / CHUNK) chunk) as [He|Hn].
  - apply H7 in He as Ho'. rewrite (proj2 (Z.leb_le _ _)), (proj2 (Z.ltb_lt _ _)) by lia. cbn. f_equal.
    assert (HK : CHUNK = 4096) by done. pose proof (Z.div_mod (lba * SECTOR + o) CHUNK ltac:(lia)). lia.
  - destruct ((to.1 <=? o) && (o <? to.2)) eqn:Ec; [|done]. bool_hyps. destruct Hn. apply H7. lia.
Qed.

Lemma hit_ok m d chunk lba buf c : c_ok c → mem_ok m → request_ok lba (zlen buf) → first_chunk lba <= chunk < end_chunk lba (zlen buf) →
  ∃ h c', hit m d chunk lba buf c = Some (h, c') ∧ index c' = index c ∧ slots c' = slots c ∧ writes c' = writes c ∧
    match h with
    | Some buf' => ∃ f, frame_at c d chunk = Some f ∧ filled buf buf' lba chunk (m f)
    | None => True
    end.
Proof.
  intros Hc Hm Hr Hk. unfold hit, frame_at. destruct (index c !! (d, chunk)) as [i|] eqn:Ei; [|by exists None, c].
  pose proof (proj1 (Hc _ _) Ei) as Hi. destruct (slots c !! i) as [x|] eqn:Es; [|done].
  destruct (slot_entry _ _ _ Es) as (e&He&->). rewrite He. cbn [mbind option_bind].
  destruct (fill_ok buf lba chunk (m (frame e)) Hr Hk (Hm _)) as (buf'&E&Hf).
  destruct (overlap chunk lba (zlen buf)) as [[from to]|]; [|done]. cbn [mbind option_bind] in *. rewrite E. cbn [mbind option_bind]. eexists _, _. split; [done|].
  cbn [index writes]. split; [done|]. split; [unfold slots; cbn [entries]; by apply slots_mark|]. split; [done|].
  exists (frame e). by rewrite Es.
Qed.

Lemma run_end_bounds fuel d chunk we e c : e <= we → e <= run_end fuel d chunk we e c <= we.
Proof.
  revert e. induction fuel as [|fuel IH]; intros e He; cbn [run_end]; [lia|]. case_if; [|lia]. specialize (IH (e + 1)). lia.
Qed.

(** A run's chunks fill the buffer up to the run's end. *)
Lemma copy_run_ok n k lba data buf : request_ok lba (zlen buf) → first_chunk lba <= k → k + Z.of_nat n <= end_chunk lba (zlen buf) →
  zlen data = Z.of_nat n * CHUNK →
  ∃ buf', copy_run n k lba data buf = Some buf' ∧ length buf' = length buf ∧
    ∀ o, 0 <= o < zlen buf → zget buf' o =
      if (k * CHUNK <=? lba * SECTOR + o) && (lba * SECTOR + o <? (k + Z.of_nat n) * CHUNK)
      then zget data (lba * SECTOR + o - k * CHUNK) else zget buf o.
Proof.
  assert (HK : CHUNK = 4096) by done.
  revert k data buf. induction n as [|n IH]; intros k data buf Hr Hk He Hd; cbn [copy_run].
  { exists buf. split; [done|]. split; [done|]. intros o Ho. case_if; [lia|done]. }
  destruct (fill_ok buf lba k (take (Z.to_nat CHUNK) data) Hr) as (b1&E&Hl&Hf); [lia|lens; lia|].
  destruct (overlap k lba (zlen buf)) as [[from to]|]; [|done]. cbn [mbind option_bind] in *. rewrite E. cbn [mbind option_bind].
  destruct (IH (k + 1) (drop (Z.to_nat CHUNK) data) b1) as (b2&->&Hl2&Hf2); [by rewrite Hl|lia|rewrite Hl; lia|lens; lia|].
  exists b2. split; [done|]. split; [congruence|]. intros o Ho. rewrite Hf2 by lia. rewrite Hf by lia.
  set (p := lba * SECTOR + o) in *. pose proof (Z.div_mod p CHUNK ltac:(lia)). pose proof (Z.mod_pos_bound p CHUNK ltac:(lia)).
  destruct (Z.eqb_spec (p / CHUNK) k) as [He2|Hn].
  - rewrite (proj2 (Z.leb_gt _ _)) by lia. cbn [andb]. rewrite (proj2 (Z.leb_le (k * CHUNK) p)), (proj2 (Z.ltb_lt _ _)) by lia. cbn [andb].
    rewrite !zget_lookup by lia. rewrite lookup_take_lt by lia. f_equal. lia.
  - destruct (((k + 1) * CHUNK <=? p) && (p <? (k + 1 + Z.of_nat n) * CHUNK)) eqn:Ec; bool_hyps.
    + rewrite (proj2 (Z.leb_le _ _)), (proj2 (Z.ltb_lt _ _)) by lia. cbn [andb]. rewrite !zget_lookup by lia. rewrite lookup_drop. f_equal. lia.
    + destruct ((k * CHUNK <=? p) && (p <? (k + Z.of_nat (S n)) * CHUNK)) eqn:Ec2; [|done]. bool_hyps.
      destruct Hn. assert (p < (k + 1) * CHUNK); [|lia]. apply andb_false_iff in Ec as [Ec|Ec]; bool_hyps; lia.
Qed.

Lemma evict_from_ok fuel c : (fuel ≠ 0%nat → entries c ≠ []) →
  ∃ r c', evict_from fuel c = Some (r, c') ∧ slots c' = slots c ∧ writes c' = writes c ∧
    match r with None => index c' = index c | Some i => ∃ k f, slots c !! i = Some (k, f) ∧ index c' = delete k (index c) end.
Proof.
  revert c. induction fuel as [|fuel IH]; intros c Hn; cbn [evict_from]; [by exists None, c|].
  specialize (Hn ltac:(done)). destruct (lookup_lt_is_Some_2 (entries c) (hand c mod length (entries c))%nat) as [e He].
  { apply Nat.mod_upper_bound. by destruct (entries c). }
  set (i := (hand c mod length (entries c))%nat) in *. rewrite He. cbn [mbind option_bind]. destruct (used e).
  - set (c1 := {| index := index c; entries := _; hand := _; writes := _ |}).
    assert (Hs : slots c1 = slots c) by (by apply slots_mark). destruct (IH c1) as (r&c'&->&H1&H2&H3).
    { intros _. subst c1. cbn [entries]. intros H. apply (f_equal length) in H. rewrite length_insert in H. by destruct (entries c). }
    exists r, c'. rewrite Hs in *. by split_and!.
  - eexists (Some i), _. split; [done|]. split_and!; [done..|]. exists (key e), (frame e). by rewrite (slots_entry _ _ _ He).
Qed.

Lemma evict_ok c : ∃ r c', evict c = Some (r, c') ∧ slots c' = slots c ∧ writes c' = writes c ∧
  match r with None => index c' = index c | Some i => ∃ k f, slots c !! i = Some (k, f) ∧ index c' = delete k (index c) end.
Proof. apply evict_from_ok. intros H E. by rewrite E in H. Qed.

(** A chunk put in place of what slot [i] held, or in a new slot. *)
Lemma replace_slot_ok c c' d k i k0 f : c_ok c → index c !! (d, k) = None → slots c !! i = Some (k0, f) →
  index c' = <[(d, k) := i]> (delete k0 (index c)) → slots c' = <[i := ((d, k), f)]> (slots c) → c_ok c'.
Proof.
  intros Hc Hno Hi Ei Es kk j. rewrite Ei, Es. pose proof (lookup_lt_Some _ _ _ Hi) as Hlt.
  destruct (decide (j = i)) as [->|Hj].
  - rewrite list_lookup_insert_eq by done. cbn. destruct (decide (kk = (d, k))) as [->|Hk]; [by rewrite lookup_insert_eq|].
    rewrite lookup_insert_ne by done. split; [|congruence]. intros [Hk0 H]%lookup_delete_Some. apply Hc in H. rewrite Hi in H.
    by injection H as ->.
  - rewrite list_lookup_insert_ne by done. destruct (decide (kk = (d, k))) as [->|Hk].
    + rewrite lookup_insert_eq. split; [congruence|]. intros H%Hc. congruence.
    + rewrite lookup_insert_ne by done. rewrite <- (Hc kk j), lookup_delete_Some. split; [by intros [_ ?]|]. intros H. split; [|done].
      intros ->. apply Hc in H as H'. assert (index c !! kk = Some i) by (apply Hc; by rewrite Hi). congruence.
Qed.

Lemma new_slot_ok c c' d k f : c_ok c → index c !! (d, k) = None →
  index c' = <[(d, k) := length (slots c)]> (index c) → slots c' = slots c ++ [((d, k), f)] → c_ok c'.
Proof.
  intros Hc Hno Ei Es kk j. rewrite Ei, Es, lookup_app. destruct (slots c !! j) as [x|] eqn:Ex.
  - rewrite <- Ex, <- (Hc kk j). apply lookup_lt_Some in Ex. destruct (decide (kk = (d, k))) as [->|Hk].
    + rewrite lookup_insert_eq, Hno. split; [|done]. intros [= <-]. lia.
    + by rewrite lookup_insert_ne.
  - apply lookup_ge_None_1 in Ex as Hj. destruct (j - length (slots c))%nat as [|n] eqn:En; cbn.
    + replace j with (length (slots c)) in * by lia. destruct (decide (kk = (d, k))) as [->|Hk]; [by rewrite lookup_insert_eq|].
      rewrite lookup_insert_ne by done. rewrite (Hc kk), Ex. split; [done|congruence].
    + destruct (decide (kk = (d, k))) as [->|Hk].
      * rewrite lookup_insert_eq. split; [|done]. intros [= <-]. lia.
      * rewrite lookup_insert_ne by done. by rewrite (Hc kk), Ex.
Qed.

Lemma cached_put c c' m bytes d k i f d' p v : c_ok c → c_ok c' → NoDup (frames c') → slots c' !! i = Some ((d, k), f) →
  (∀ j x, j ≠ i → slots c' !! j = Some x → slots c !! j = Some x) →
  cached c' (<[f := bytes]> m) d' p = Some v → cached c m d' p = Some v ∨ (d' = d ∧ p / CHUNK = k ∧ zget bytes (p mod CHUNK) = Some v).
Proof.
  intros Hc Hc' Hn Hi Hold. unfold cached. destruct (frame_at c' d' (p / CHUNK)) as [f'|] eqn:Ef; [|done]. cbn [mbind option_bind].
  apply frame_at_slot in Ef as Ej; [|done]. destruct Ej as [j Hj]. destruct (decide (j = i)) as [->|Hne].
  - rewrite Hi in Hj. injection Hj as <- <- <-. rewrite fn_lookup_insert. by right.
  - intros Hv. left. assert (f' ≠ f).
    { intros ->. destruct (frame_at_inj c' d' (p / CHUNK) d k f Hc' Hn Ef) as [-> <-]; [apply frame_at_slot; [done|by exists i]|].
      destruct Hne. apply (NoDup_lookup (frames c') _ _ f Hn); unfold frames; rewrite list_lookup_fmap; [by rewrite Hj|by rewrite Hi]. }
    rewrite fn_lookup_insert_ne in Hv by done. assert (frame_at c d' (p / CHUNK) = Some f') as ->; [|done].
    apply frame_at_slot; [done|]. exists j. by apply Hold.
Qed.

Lemma mem_ok_insert m f bytes : mem_ok m → zlen bytes = CHUNK → mem_ok (<[f := bytes]> m).
Proof. intros Hm Hb g. destruct (decide (f = g)) as [->|Hn]; [by rewrite fn_lookup_insert|by rewrite fn_lookup_insert_ne]. Qed.

(** What [put] promises. *)
Definition put_spec (d k w : Z) (bytes : list Z) (spare : option Z) (m : Z → list Z) (c : Cache) (u : option Z) (c' : Cache) (m' : Z → list Z) : Prop :=
  c_ok c' ∧ mem_ok m' ∧ writes c' = writes c ∧ frames c' ++ option_list u ≡ₚ frames c ++ option_list spare ∧
  ∀ d' p v, cached c' m' d' p = Some v →
    cached c m d' p = Some v ∨ (writes c = w ∧ d' = d ∧ p / CHUNK = k ∧ zget bytes (p mod CHUNK) = Some v).

Lemma reuse_put d k w bytes spare m c : c_ok c → mem_ok m → zlen bytes = CHUNK → NoDup (frames c ++ option_list spare) →
  index c !! (d, k) = None → writes c = w →
  ∃ r c', reuse d k c = Some (r, c') ∧
    match r with
    | None => put_spec d k w bytes spare m c spare c' m
    | Some i => ∃ e, entries c' !! i = Some e ∧
        put_spec d k w bytes spare m c (if frame e =? default 0 spare then None else spare)
          {| index := <[(d, k) := i]> (index c'); entries := entries c'; hand := hand c'; writes := writes c' |} (<[frame e := bytes]> m)
    end.
Proof.
  intros Hc Hm Hb Hn Hno Hw. unfold reuse. destruct (evict_ok c) as (r&c1&->&Hs&Hw1&Hr). cbn [mbind option_bind].
  destruct r as [i|].
  2:{ eexists None, c1. split; [done|]. split_and!; [by apply (c_ok_same c)|done|done|unfold frames; by rewrite Hs|].
      intros d' p v. rewrite (cached_same c c1) by done. by left. }
  destruct Hr as (k0&f&Hi&Ei). pose proof Hi as Hi1. rewrite <- Hs in Hi1. destruct (slot_entry _ _ _ Hi1) as (e&He&Ex). rewrite He.
  injection Ex as -> ->. cbn [mbind option_bind]. eexists (Some i), _. split; [done|]. cbn [entries index hand writes].
  exists {| key := (d, k); frame := frame e; used := used e |}. cbn [frame]. pose proof (lookup_lt_Some _ _ _ He).
  split; [by apply list_lookup_insert_eq|]. set (c' := {| index := _; entries := _; hand := _; writes := _ |}).
  assert (Es : slots c' = <[i := ((d, k), frame e)]> (slots c)).
  { rewrite <- Hs. unfold slots, c'. cbn [entries]. by rewrite list_fmap_insert. }
  assert (Hf : frames c' = frames c).
  { unfold frames. rewrite Es, list_fmap_insert. apply list_insert_id. by rewrite list_lookup_fmap, Hi. }
  assert (Hc' : c_ok c') by (apply (replace_slot_ok c c' d k i (key e) (frame e)); try done; subst c'; cbn [index]; by rewrite Ei).
  apply NoDup_app in Hn as (Hn1&Hn2&_). split_and!; [done|by apply mem_ok_insert|done| |].
  - rewrite Hf. f_equiv. destruct spare as [s|]; [|by destruct (_ =? _)]. change (default 0 (Some s)) with s. destruct (Z.eqb_spec (frame e) s) as [<-|]; [|done].
    destruct (Hn2 (frame e)); [|by constructor]. unfold frames. apply list_elem_of_fmap. exists (key e, frame e). split; [done|].
    by eapply list_elem_of_lookup_2.
  - intros d' p v Hv. apply (cached_put c c' m bytes d k i (frame e)) in Hv; [tauto|done|done|by rewrite Hf| |].
    + rewrite Es. apply list_lookup_insert_eq. by apply lookup_lt_Some in Hi.
    + intros j x Hj. by rewrite Es, list_lookup_insert_ne.
Qed.

Lemma put_ok cap d k w bytes spare m c : c_ok c → mem_ok m → zlen bytes = CHUNK → NoDup (frames c ++ option_list spare) →
  ∃ u c' m', put cap d k w bytes spare m c = Some (u, c', m') ∧ put_spec d k w bytes spare m c u c' m'.
Proof.
  intros Hc Hm Hb Hn. unfold put. destruct (Z.eqb_spec (writes c) w) as [Hw|Hw]; cbn [negb orb].
  2:{ exists spare, c, m. split; [done|]. split_and!; [done..|]. by left. }
  case_bool_decide as Hin; [exists spare, c, m; split; [done|]; split_and!; [done..|]; by left|].
  apply eq_None_not_Some in Hin. rewrite Hb, Z.eqb_refl. cbn [negb].
  destruct (reuse_put d k w bytes spare m c Hc Hm Hb Hn Hin Hw) as (r&c1&Er&Hr). unfold entry_for.
  assert (Hreuse : ∃ u c' m', ('(i, c0) ← reuse d k c;
    match i with
    | Some i => e ← entries c0 !! i; Some (if frame e =? default 0 spare then None else spare,
        {| index := <[(d, k):=i]> (index c0); entries := entries c0; hand := hand c0; writes := writes c0 |}, <[frame e:=bytes]> m)
    | None => Some (spare, c0, m) end) = Some (u, c', m') ∧ put_spec d k w bytes spare m c u c' m').
  { rewrite Er. cbn [mbind option_bind]. destruct r as [i|]; [|by exists spare, c1, m]. destruct Hr as (e&->&Hr). by eexists _, _, _. }
  destruct spare as [s|]; [|done]. destruct (_ <? cap); [|done]. clear Er Hr Hreuse.
  cbn [mbind option_bind entries index hand writes].
  rewrite lookup_app_r, Nat.sub_diag by lia. cbn [lookup list_lookup mbind option_bind frame]. change (default 0 (Some s)) with s. rewrite Z.eqb_refl.
  eexists _, _, _. split; [done|]. set (c' := {| index := _; entries := _; hand := _; writes := _ |}).
  assert (Es : slots c' = slots c ++ [((d, k), s)]) by (unfold slots, c'; cbn [entries]; by rewrite fmap_app).
  assert (Hl : length (entries c) = length (slots c)) by (unfold slots; by rewrite length_fmap).
  assert (Hf : frames c' = frames c ++ [s]) by (unfold frames; rewrite Es; by rewrite fmap_app).
  assert (Hc' : c_ok c') by (apply (new_slot_ok c c' d k s); try done; subst c'; cbn [index]; by rewrite Hl).
  split_and!; [done|by apply mem_ok_insert|done|rewrite Hf; by rewrite app_nil_r|].
  intros d' p v Hv. apply (cached_put c c' m bytes d k (length (slots c)) s) in Hv; [tauto|done|done|by rewrite Hf| |].
  - rewrite Es, lookup_app_r, Nat.sub_diag by lia. done.
  - intros j x Hj. rewrite Es, lookup_app. destruct (slots c !! j) eqn:E; [done|]. apply lookup_ge_None_1 in E.
    destruct (j - length (slots c))%nat eqn:En; [lia|done].
Qed.

(** Place [p] is in the range of a request. *)
Definition in_range (lba len p : Z) : Prop := lba * SECTOR <= p < lba * SECTOR + len.

(** A write's bytes into a chunk. *)
Lemma overlay_ok buf lba chunk bytes : request_ok lba (zlen buf) → first_chunk lba <= chunk < end_chunk lba (zlen buf) → zlen bytes = CHUNK →
  ∃ b, ('(to, from) ← overlap chunk lba (zlen buf); copy_range bytes to buf from) = Some b ∧ zlen b = CHUNK ∧
    ∀ p v, p / CHUNK = chunk → zget b (p mod CHUNK) = Some v →
      (in_range lba (zlen buf) p ∧ zget buf (p - lba * SECTOR) = Some v) ∨ (~ in_range lba (zlen buf) p ∧ zget bytes (p mod CHUNK) = Some v).
Proof.
  intros Hr Hc Hb. rewrite (overlap_fits _ _ _ Hr Hc). cbn [mbind option_bind]. destruct (ranges chunk lba (zlen buf)) as [to from] eqn:E.
  destruct (ranges_ok _ _ _ _ _ Hr Hc E) as (H1&H2&H3&H4&H5&H6&H7).
  destruct (copy_range_ok bytes to buf from) as (b&->&Hl&Hz); [lia..|]. exists b. split; [done|]. split; [lia|].
  intros p v Hp. rewrite Hz. assert (HK : CHUNK = 4096) by done. pose proof (Z.div_mod p CHUNK ltac:(lia)) as Hdm. rewrite Hp in Hdm.
  unfold ranges in E. injection E as E1 E2. unfold in_range. subst to from. cbn [fst snd] in *.
  destruct ((_ <=? _) && (_ <? _)) eqn:Ec; intros Hv; bool_hyps.
  - left. split; [lia|]. rewrite <- Hv. f_equal. lia.
  - right. split; [|done]. pose proof (Z.mod_pos_bound p CHUNK ltac:(lia)). apply andb_false_iff in Ec as [Ec|Ec]; bool_hyps; lia.
Qed.

Lemma wrote_from_ok n d chunk lba buf c m : c_ok c → mem_ok m → NoDup (frames c) → request_ok lba (zlen buf) →
  first_chunk lba <= chunk → chunk + Z.of_nat n <= end_chunk lba (zlen buf) →
  ∃ m', wrote_from n d chunk lba buf c m = Some m' ∧ mem_ok m' ∧ ∀ d' p v, cached c m' d' p = Some v →
    (d' = d ∧ in_range lba (zlen buf) p ∧ zget buf (p - lba * SECTOR) = Some v) ∨
    (~ (d' = d ∧ chunk <= p / CHUNK < chunk + Z.of_nat n ∧ in_range lba (zlen buf) p) ∧ cached c m d' p = Some v).
Proof.
  intros Hc Hm Hn Hr. revert chunk m Hm. induction n as [|n IH]; intros chunk m Hm H1 H2; cbn [wrote_from].
  { exists m. split; [done|]. split; [done|]. intros d' p v Hv. right. split; [lia|done]. }
  unfold frame_at in *. destruct (index c !! (d, chunk)) as [i|] eqn:Ei; cbn [mbind option_bind].
  2:{ destruct (IH (chunk + 1) m Hm) as (m'&->&Hm'&Hc'); [lia..|]. exists m'. split; [done|]. split; [done|]. intros d' p v Hv.
      destruct (Hc' d' p v Hv) as [?|[Hno Hv']]; [by left|right]. split; [|done]. intros (->&Hk&Hin). apply Hno. split_and!; [done| |lia|done].
      destruct (decide (p / CHUNK = chunk)) as [Heq|]; [|lia]. unfold cached, frame_at in Hv'. rewrite Heq, Ei in Hv'. done. }
  apply Hc in Ei as Hi. destruct (slots c !! i) as [x|] eqn:Es; [|done]. destruct (slot_entry _ _ _ Es) as (e&He&->). rewrite He.
  cbn [mbind option_bind]. cbn in Hi. injection Hi as Hi.
  assert (Hf : frame_at c d chunk = Some (frame e)) by (apply frame_at_slot; [done|]; exists i; by rewrite Es, Hi).
  destruct (overlay_ok buf lba chunk (m (frame e)) Hr ltac:(lia) (Hm _)) as (b&E&Hbl&Hb).
  destruct (overlap chunk lba (zlen buf)) as [[to from]|]; [|done]. cbn [mbind option_bind] in *. rewrite E. cbn [mbind option_bind].
  destruct (IH (chunk + 1) (<[frame e := b]> m)) as (m'&->&Hm'&Hc'); [by apply mem_ok_insert|lia..|].
  exists m'. split; [done|]. split; [done|]. intros d' p v Hv. destruct (Hc' d' p v Hv) as [?|[Hno Hv']]; [by left|].
  unfold cached in *. destruct (frame_at c d' (p / CHUNK)) as [f'|] eqn:Ef; [|done]. cbn [mbind option_bind] in *.
  destruct (decide (f' = frame e)) as [->|Hne].
  - destruct (frame_at_inj _ _ _ _ _ _ Hc Hn Ef Hf) as [-> Hk]. rewrite fn_lookup_insert in Hv'.
    destruct (Hb p v Hk Hv') as [[Hin Hv'']|[Hin Hv'']]; [by left|right]. split; [tauto|done].
  - rewrite fn_lookup_insert_ne in Hv' by done. right. split; [|done]. intros (->&Hk&Hin). apply Hno. split_and!; [done| |lia|done].
    destruct (decide (p / CHUNK = chunk)) as [Heq|]; [|lia]. rewrite Heq in Ef. congruence.
Qed.

Lemma in_range_chunk lba len p : request_ok lba len → in_range lba len p → first_chunk lba <= p / CHUNK < end_chunk lba len.
Proof.
  intros Hr Hp. unfold in_range in Hp. destruct (chunk_bounds lba len Hr) as (H1&H2&H3). assert (HK : CHUNK = 4096) by done.
  split; [apply Z.div_le_lower_bound; lia|apply Z.div_lt_upper_bound; lia].
Qed.

Lemma request_end lba len : request_ok lba len → add64 lba (len / SECTOR) = Some (lba + len / SECTOR).
Proof.
  intros Hr. apply add64_in. destruct (chunk_bounds _ _ Hr) as (_&H&_). destruct Hr as ((H0&H1)&H2&H3). unfold U64_MAX, SECTOR in *. zdiv.
Qed.

Lemma wrote_ok d lba buf m c : c_ok c → mem_ok m → NoDup (frames c) → request_ok lba (zlen buf) → 0 <= writes c < U64_MAX →
  ∃ c' m', wrote d lba buf m c = Some (c', m') ∧ index c' = index c ∧ slots c' = slots c ∧ writes c' = writes c + 1 ∧ mem_ok m' ∧
    ∀ d' p v, cached c' m' d' p = Some v →
      (d' = d ∧ in_range lba (zlen buf) p ∧ zget buf (p - lba * SECTOR) = Some v) ∨
      (~ (d' = d ∧ in_range lba (zlen buf) p) ∧ cached c m d' p = Some v).
Proof.
  intros Hc Hm Hn Hr Hw. unfold wrote, count_write. rewrite (request_end _ _ Hr). rewrite add64_in by (unfold U64_MAX in *; lia). cbn [mbind option_bind].
  set (c1 := {| index := index c; entries := entries c; hand := hand c; writes := writes c + 1 |}).
  destruct (chunk_bounds lba (zlen buf) Hr) as (_&_&Hlt).
  destruct (wrote_from_ok (Z.to_nat (end_chunk lba (zlen buf) - first_chunk lba)) d (first_chunk lba) lba buf c1 m)
    as (m'&->&Hm'&Hc'); [done..|lia|lia|]. eexists c1, m'. split; [done|]. split_and!; [done..|].
  intros d' p v Hv. destruct (Hc' d' p v Hv) as [?|[Hno Hv']]; [by left|right]. split; [|done].
  intros [-> Hin]. apply Hno. pose proof (in_range_chunk _ _ _ Hr Hin). split_and!; [done|lia|lia|done].
Qed.

Lemma keys_nodup c : c_ok c → NoDup (slots c).*1.
Proof.
  intros Hc. apply NoDup_alt. intros i j k Hi Hj. rewrite list_lookup_fmap in Hi, Hj. apply Hc in Hi, Hj. congruence.
Qed.

Lemma index_of_ok es k i : NoDup (key <$> es) → index_of es !! k = Some i ↔ key <$> es !! i = Some k.
Proof.
  intros Hn. unfold index_of. rewrite <- elem_of_list_to_map.
  - rewrite elem_of_reverse, elem_of_lookup_imap. split.
    + intros (j&e&[= -> ->]&->). done.
    + intros H. destruct (es !! i) as [e|] eqn:E; [|done]. injection H as <-. by exists i, e.
  - rewrite fmap_reverse, reverse_Permutation, fmap_imap. cbn. assert (imap (λ n, fst ∘ (λ e : Entry, (key e, n))) es = key <$> es) as ->; [|done].
    apply list_eq. intros j. rewrite list_lookup_imap, list_lookup_fmap. by destruct (es !! j).
Qed.

(** Entries taken out of the cache, the rest in a new index. *)
Lemma kept_cached c c' m d p v : c_ok c → c_ok c' → (∀ x, x ∈ slots c' → x ∈ slots c) → cached c' m d p = Some v → cached c m d p = Some v.
Proof.
  intros Hc Hc' Hs. unfold cached. destruct (frame_at c' d (p / CHUNK)) as [f|] eqn:E; [|done].
  apply frame_at_slot in E as [i Hi%list_elem_of_lookup_2%Hs]; [|done]. apply list_elem_of_lookup in Hi.
  apply frame_at_slot in Hi; [|done]. by rewrite Hi.
Qed.

Lemma forget_ok d m c : c_ok c → 0 <= writes c < U64_MAX →
  ∃ freed c', forget d c = Some (freed, c') ∧ c_ok c' ∧ writes c' = writes c + 1 ∧ freed ++ frames c' ≡ₚ frames c ∧
    ∀ d' p v, cached c' m d' p = Some v → cached c m d' p = Some v.
Proof.
  intros Hc Hw. unfold forget, count_write. rewrite add64_in by (unfold U64_MAX in *; lia). cbn [mbind option_bind entries index writes].
  set (kept := filter (λ e, (key e).1 ≠ d) (entries c)). eexists _, _. split; [done|].
  set (c' := {| index := _; entries := _; hand := _; writes := _ |}).
  assert (Hkeys : (slots c).*1 = key <$> entries c) by (unfold slots; by rewrite <- list_fmap_compose).
  assert (Hc' : c_ok c').
  { intros k i. unfold c_ok, c', slots. cbn [index entries]. rewrite list_lookup_fmap, <- option_fmap_compose.
    apply index_of_ok. apply (sublist_NoDup _ (key <$> entries c)); [rewrite <- Hkeys; by apply keys_nodup|].
    apply fmap_sublist, sublist_filter. }
  split_and!; [done|done| |].
  - unfold frames, slots, c'. cbn [entries]. rewrite <- !list_fmap_compose. cbn. rewrite <- fmap_app. apply fmap_Permutation. subst kept.
    apply (filter_app_complement (λ e : Entry, (key e).1 = d)).
  - intros d' p v. apply kept_cached; [done..|]. intros x. unfold slots, c'. cbn [entries]. rewrite !list_elem_of_fmap.
    intros (e&->&[_ He]%list_elem_of_filter). by exists e.
Qed.

Lemma release_ok m c : 0 <= writes c < U64_MAX →
  ∃ freed c', release c = Some (freed, c') ∧ c_ok c' ∧ writes c' = writes c + 1 ∧ freed ++ frames c' ≡ₚ frames c ∧
    ∀ d' p v, cached c' m d' p = Some v → cached c m d' p = Some v.
Proof.
  intros Hw. unfold release, count_write. rewrite add64_in by (unfold U64_MAX in *; lia). cbn [mbind option_bind entries index writes].
  eexists _, _. split; [done|]. split_and!; [|done| |].
  - intros k i. cbn [index slots entries fmap list_fmap]. by rewrite lookup_empty.
  - unfold frames, slots. cbn [entries fmap list_fmap]. rewrite app_nil_r, <- list_fmap_compose. done.
  - intros d' p v. unfold cached, frame_at. cbn [index]. by rewrite lookup_empty.
Qed.

Lemma free_frames_ok fs (T : gset Z) : NoDup fs → (∀ f, f ∈ fs → f ∈ T) → free_frames fs T = Some (T ∖ list_to_set fs).
Proof.
  intros Hn. revert T. induction Hn as [|f fs Hf Hn IH]; intros T HT; cbn [free_frames]; [f_equal; set_solver|].
  unfold free_frame. rewrite bool_decide_eq_true_2 by (apply HT; by constructor). cbn [mbind option_bind]. rewrite IH.
  - f_equal. cbn [list_to_set]. set_solver.
  - intros g Hg. apply elem_of_difference. split; [apply HT; by constructor|]. rewrite elem_of_singleton. by intros ->.
Qed.
