(* ===== verification/BlkCacheRun.v ===== *)
(** * The block cache under concurrent calls

    The invariant of the system of calls: whatever the cache has for a place
    that no call in progress writes is what the disk has there; the frames
    it took are the ones in its entries and in the hands of its calls, each
    once; no call panics. It is kept by every step as long as no two writes
    in progress overlap and no device write fails; both conditions are
    needed, as the runs at the end show. *)

From S2P Require Import Prelude BlkCache BlkCacheFacts.
From stdpp Require Import gmap fin_maps functions list.

Open Scope Z_scope.

(** A write in progress covers place [p] of disk [d]. *)
Definition covers (t : Thread) (d p : Z) : Prop :=
  match t with
  | Writing d' at_ buf _ | Written d' at_ buf _ => d = d' ∧ in_range at_ (zlen buf) p
  | _ => False
  end.

Definition writing (s : Sys) (d p : Z) : Prop := ∃ i t, threads s !! i = Some t ∧ covers t d p.

(** [v] is the byte of place [p], unless that is being written. *)
Definition good (s : Sys) (d p v : Z) : Prop := disk s d p = v ∨ writing s d p.

(** A byte a call read while the count of writes was [w]. *)
Definition read_byte (s : Sys) (w d p v : Z) : Prop := w < writes (cache s) ∨ good s d p v.

Definition spare_of (t : Thread) : option Z := match t with Put _ _ _ _ _ _ (Some f) => Some f | _ => None end.

(** The frames the cache holds, by holder. *)
Definition owned (s : Sys) : list Z := frames (cache s) ++ omap spare_of (threads s).

(** The chunks [k..e] read for a call. *)
Definition run_ok (s : Sys) (q : Req) (e w : Z) (buf : list Z) (k : Z) (data : list Z) : Prop :=
  request_ok (lba q) (zlen buf) ∧ first_chunk (lba q) <= k <= e ∧ e <= end_chunk (lba q) (zlen buf) ∧ zlen data = (e - k) * CHUNK ∧
  w <= writes (cache s) ∧ ∀ o v, zget data o = Some v → read_byte s w (dev q) (k * CHUNK + o) v.

Definition thread_ok (s : Sys) (t : Thread) : Prop :=
  match t with
  | Idle | ReadDone _ _ | WriteDone _ => True
  | Look q chunk buf => request_ok (lba q) (zlen buf) ∧ first_chunk (lba q) <= chunk <= end_chunk (lba q) (zlen buf)
  | Tail q chunk buf got => request_ok (lba q) (zlen buf) ∧ first_chunk (lba q) <= chunk < end_chunk (lba q) (zlen buf)
  | Run q chunk buf => request_ok (lba q) (zlen buf) ∧ first_chunk (lba q) <= chunk < whole_end q buf
  | Count q chunk e buf => request_ok (lba q) (zlen buf) ∧ first_chunk (lba q) <= chunk < e ∧ e <= whole_end q buf
  | Device q chunk e w buf data got =>
      request_ok (lba q) (zlen buf) ∧ first_chunk (lba q) <= chunk < e ∧ e <= end_chunk (lba q) (zlen buf) ∧
      zlen data = (e - chunk) * CHUNK ∧ w <= writes (cache s) ∧
      ∀ j o v, j ∈ got → 0 <= o < SECTOR → zget data (j * SECTOR + o) = Some v → read_byte s w (dev q) (chunk * CHUNK + j * SECTOR + o) v
  | Keep q e w buf k data => run_ok s q e w buf k data
  | Spare q e w buf k data | Put q e w buf k data _ => run_ok s q e w buf k data ∧ k < e
  | Writing d at_ buf got =>
      request_ok at_ (zlen buf) ∧ ∀ j o, j ∈ got → 0 <= o < SECTOR → zget buf (j * SECTOR + o) = Some (disk s d (at_ * SECTOR + j * SECTOR + o))
  | Written d at_ buf _ => request_ok at_ (zlen buf) ∧ ∀ o, 0 <= o < zlen buf → zget buf o = Some (disk s d (at_ * SECTOR + o))
  | Panicked => False
  end.

(** No two writes in progress overlap. *)
Definition exclusive (s : Sys) : Prop :=
  ∀ i j t t' d p, i ≠ j → threads s !! i = Some t → threads s !! j = Some t' → covers t d p → covers t' d p → False.

Record Inv (s : Sys) : Prop := {
  inv_cache : c_ok (cache s);
  inv_mem : mem_ok (mem s);
  inv_taken : taken s = list_to_set (owned s);
  inv_owned : NoDup (owned s);
  inv_writes : 0 <= writes (cache s);
  inv_coherent : ∀ d p v, cached (cache s) (mem s) d p = Some v → good s d p v;
  inv_threads : ∀ i t, threads s !! i = Some t → thread_ok s t;
  inv_exclusive : exclusive s }.

(** What a run must respect: a request's last chunk ends within 64 bits, a
    write starts where no other is in progress, and the device's writes
    succeed. *)
Definition overlaps (t : Thread) (d at_ len : Z) : bool :=
  match t with
  | Writing d' at' buf _ | Written d' at' buf _ => (d =? d') && (at_ * SECTOR <? at' * SECTOR + zlen buf) && (at' * SECTOR <? at_ * SECTOR + len)
  | _ => false
  end.

Definition addressable (lba len : Z) : bool := (0 <=? lba) && (end_chunk lba len * CHUNK <=? U64_MAX).

Definition allowed (s : Sys) (l : Label) : bool :=
  match l with
  | Start _ (Write d at_ buf) => addressable at_ (zlen buf) && forallb (λ t, negb (overlaps t d at_ (zlen buf))) (threads s)
  | Start _ (Read q buf) => addressable (lba q) (zlen buf)
  | Fault i => match threads s !! i with Some (Writing _ _ _ _) => false | _ => true end
  | _ => true
  end.

Fixpoint allowed_run (cap : Z) (s : Sys) (ls : list Label) : bool :=
  match ls with
  | [] => true
  | l :: ls => allowed s l && match step cap s l with Some s' => allowed_run cap s' ls | None => true end
  end.

(** An empty cache over disks, and calls not yet started. *)
Definition boot (disk : Z → Z → Z) (n : nat) : Sys :=
  {| cache := {| index := ∅; entries := []; hand := 0; writes := 0 |}; mem := λ _, replicate (Z.to_nat CHUNK) 0; taken := ∅;
     disk := disk; threads := replicate n Idle |}.

(** ** Preservation *)

(** State [s'] is [s] with call [i] gone from [t] to [t']. *)
Definition moved (s s' : Sys) (i : nat) (t t' : Thread) : Prop :=
  threads s !! i = Some t ∧ threads s' = <[i := t']> (threads s).

Lemma moved_eq s s' i t t' : moved s s' i t t' → threads s' !! i = Some t'.
Proof. intros [H ->]. apply list_lookup_insert_eq. by apply lookup_lt_Some in H. Qed.

Lemma moved_ne s s' i t t' j : moved s s' i t t' → j ≠ i → threads s' !! j = threads s !! j.
Proof. intros [_ ->] H. by apply list_lookup_insert_ne. Qed.

Lemma writing_moved s s' i t t' d p : moved s s' i t t' → (covers t d p → covers t' d p) → writing s d p → writing s' d p.
Proof.
  intros Hm Hc (j&u&Hj&Hu). destruct (decide (j = i)) as [->|Hn].
  - exists i, t'. rewrite (moved_eq _ _ _ _ _ Hm). destruct Hm as [Hm _]. rewrite Hj in Hm. injection Hm as ->. auto.
  - exists j, u. by rewrite (moved_ne _ _ _ _ _ _ Hm).
Qed.

Lemma owned_moved s s' i t t' : moved s s' i t t' → ∃ rest,
  owned s ≡ₚ frames (cache s) ++ option_list (spare_of t) ++ rest ∧ owned s' ≡ₚ frames (cache s') ++ option_list (spare_of t') ++ rest.
Proof.
  intros [Ht Hs]. exists (omap spare_of (take i (threads s) ++ drop (S i) (threads s))). unfold owned. rewrite Hs.
  assert (Hi : (i < length (threads s))%nat) by (by apply lookup_lt_Some in Ht).
  rewrite insert_take_drop by done. rewrite <- (take_drop_middle (threads s) i t Ht) at 1. rewrite !omap_app. cbn [omap list_omap].
  split; f_equiv; [destruct (spare_of t)|destruct (spare_of t')]; cbn [option_list]; solve_Permutation.
Qed.

Lemma read_byte_mono s s' w d p v : writes (cache s) <= writes (cache s') → w <= writes (cache s) →
  (∀ d p v, good s d p v → good s' d p v ∨ writes (cache s) < writes (cache s')) → read_byte s w d p v → read_byte s' w d p v.
Proof. intros H1 H2 H3 [H|H]; [left; lia|]. apply H3 in H as [H|H]; [by right|left; lia]. Qed.

Lemma thread_ok_mono s s' t : writes (cache s) <= writes (cache s') →
  (∀ d p v, good s d p v → good s' d p v ∨ writes (cache s) < writes (cache s')) →
  (∀ d p, covers t d p → disk s' d p = disk s d p) → thread_ok s t → thread_ok s' t.
Proof.
  intros H1 H2 H3. assert (Hrun : ∀ q e w buf k data, run_ok s q e w buf k data → run_ok s' q e w buf k data).
  { intros q e w buf k data (R1&R2&R3&R4&R5&R6). split_and!; try (done || lia). intros o v Ho. by eapply read_byte_mono, R6. }
  destruct t; cbn [thread_ok]; try done.
  - intros (R1&R2&R3&R4&R5&R6). split_and!; try (done || lia). intros j o v Hj Ho Hv. eapply read_byte_mono; [done..|]. by apply R6.
  - apply Hrun.
  - intros [Hr ?]. split; [by apply Hrun|done].
  - intros [Hr ?]. split; [by apply Hrun|done].
  - intros [Hr Hj]. split; [done|]. intros j o Hg Ho. rewrite (Hj j o Hg Ho). f_equal. symmetry. apply H3. split; [done|].
    pose proof (Hj j o Hg Ho) as Hz. apply zget_some in Hz. unfold in_range. lia.
  - intros [Hr Ho']. split; [done|]. intros o Ho. rewrite Ho' by done. f_equal. symmetry. apply H3. split; [done|]. unfold in_range. lia.
Qed.

(** The parts of the invariant that a step of call [i] has to show. *)
Lemma inv_intro s s' i t t' : Inv s → moved s s' i t t' →
  c_ok (cache s') → mem_ok (mem s') → taken s' = list_to_set (owned s') → NoDup (owned s') →
  writes (cache s) <= writes (cache s') →
  (∀ d p v, good s d p v → good s' d p v ∨ writes (cache s) < writes (cache s')) →
  (∀ d p v, cached (cache s') (mem s') d p = Some v → good s' d p v) →
  (∀ j u d p, j ≠ i → threads s !! j = Some u → covers u d p → disk s' d p = disk s d p) →
  (∀ j u d p, j ≠ i → threads s !! j = Some u → covers t' d p → covers u d p → False) →
  thread_ok s' t' → Inv s'.
Proof.
  intros HI Hm H1 H2 H3 H4 H5 H6 H7 H8 H9 H10. split; try done.
  - pose proof (inv_writes _ HI). lia.
  - intros j u Hj. destruct (decide (j = i)) as [->|Hn]; [rewrite (moved_eq _ _ _ _ _ Hm) in Hj; by injection Hj as <-|].
    rewrite (moved_ne _ _ _ _ _ _ Hm Hn) in Hj. eapply thread_ok_mono; [done..| |by apply (inv_threads _ HI j)]. intros d p. by apply (H8 j).
  - intros j k u u' d p Hjk Hj Hk Hu Hu'. destruct (decide (j = i)) as [->|Hji].
    + rewrite (moved_eq _ _ _ _ _ Hm) in Hj. injection Hj as <-. rewrite (moved_ne _ _ _ _ _ _ Hm) in Hk by done. by apply (H9 k u' d p).
    + rewrite (moved_ne _ _ _ _ _ _ Hm Hji) in Hj. destruct (decide (k = i)) as [->|Hki].
      * rewrite (moved_eq _ _ _ _ _ Hm) in Hk. injection Hk as <-. by apply (H9 j u d p).
      * rewrite (moved_ne _ _ _ _ _ _ Hm Hki) in Hk. by apply (inv_exclusive _ HI j k u u' d p).
Qed.

Lemma moved_set s i t t' : threads s !! i = Some t → moved s (set_thread s i t') i t t'.
Proof. done. Qed.

(** The cache with other marks and another hand. *)
Lemma inv_same s c : index c = index (cache s) → slots c = slots (cache s) → writes c = writes (cache s) → Inv s → Inv (with_cache s c).
Proof.
  intros Hi Hs Hw HI. destruct HI as [I1 I2 I3 I4 I5 I6 I7 I8]. assert (Hf : frames c = frames (cache s)) by (unfold frames; by rewrite Hs).
  split; cbn [with_cache cache mem taken disk threads]; try done.
  - by apply (c_ok_same (cache s)).
  - unfold owned in *. cbn [with_cache cache threads]. by rewrite Hf.
  - unfold owned in *. cbn [with_cache cache threads]. by rewrite Hf.
  - by rewrite Hw.
  - intros d p v. rewrite (cached_same (cache s)) by done. apply I6.
  - intros i t Ht. apply (thread_ok_mono s); [cbn; lia|by left|done|by apply (I7 i)].
Qed.

(** A step of a call that changes nothing but where it stands. *)
Lemma inv_local s i t t' : Inv s → threads s !! i = Some t → spare_of t' = spare_of t → (∀ d p, covers t' d p ↔ covers t d p) → thread_ok s t' →
  Inv (set_thread s i t').
Proof.
  intros HI Ht Hsp Hq Hok. pose proof (moved_set s i t t' Ht) as Hm.
  destruct (owned_moved _ _ _ _ _ Hm) as (rest&P1&P2). rewrite Hsp in P2.
  assert (P : owned (set_thread s i t') ≡ₚ owned s) by (by rewrite P1, P2).
  assert (Hg : ∀ d p v, good s d p v → good (set_thread s i t') d p v).
  { intros d p v [H|H]; [by left|right]. eapply writing_moved; [done|apply Hq|done]. }
  eapply inv_intro; [done|done|apply HI|apply HI| | |done|intros; left; by apply Hg| | | |].
  - rewrite P. apply HI.
  - rewrite P. apply HI.
  - intros d p v Hv. by apply Hg, HI.
  - done.
  - intros j u d p Hj Hu Hc%Hq Hc'. by apply (inv_exclusive _ HI i j t u d p).
  - apply (thread_ok_mono s); [done|intros; left; by apply Hg|done|done].
Qed.

Ltac step_local := eapply inv_local; [done|done|done|done|].

Lemma inv_look cap s i q chunk buf : Inv s → threads s !! i = Some (Look q chunk buf) →
  ∃ s' t', locked cap s (Look q chunk buf) = Some (s', t') ∧ Inv (set_thread s' i t').
Proof.
  intros HI Ht. pose proof (inv_threads _ HI _ _ Ht) as [Hr Hk]. cbn [locked].
  destruct (Z.ltb_spec chunk (end_chunk (lba q) (zlen buf))) as [Hlt|]; [|eexists _, _; split; [done|]; by step_local].
  destruct (hit_ok (mem s) (dev q) chunk (lba q) buf (cache s)) as (h&c'&->&H1&H2&H3&H4); [apply HI|apply HI|done|lia|].
  cbn [mbind option_bind]. pose proof (inv_same s c' H1 H2 H3 HI) as HI'. destruct h as [buf'|].
  - eexists _, _. split; [done|]. destruct H4 as (f&_&Hl&_). step_local. cbn [thread_ok]. rewrite Hl. split; [done|lia].
  - rewrite (overlap_fits _ _ _ Hr) by lia. destruct (Z.leb_spec (whole_end q buf) chunk); (eexists _, _; split; [done|]); step_local;
      cbn [thread_ok]; (split; [done|lia]).
Qed.

Lemma whole_end_le q buf : whole_end q buf <= end_chunk (lba q) (zlen buf).
Proof. unfold whole_end. lia. Qed.

Lemma zget_replicate n (x v : Z) o : zget (replicate n x) o = Some v → v = x.
Proof. unfold zget. destruct (0 <=? o); [|done]. intros H. by apply lookup_replicate in H as [-> _]. Qed.

Lemma inv_run cap s i q chunk buf : Inv s → threads s !! i = Some (Run q chunk buf) →
  ∃ s' t', locked cap s (Run q chunk buf) = Some (s', t') ∧ Inv (set_thread s' i t').
Proof.
  intros HI Ht. pose proof (inv_threads _ HI _ _ Ht) as [Hr Hk]. cbn [locked]. eexists _, _. split; [done|].
  step_local. cbn [thread_ok].
  pose proof (run_end_bounds (Z.to_nat MAX_RUN) (dev q) chunk (whole_end q buf) (chunk + 1) (cache s)). split; [done|lia].
Qed.

Lemma inv_count cap s i q chunk e buf : Inv s → threads s !! i = Some (Count q chunk e buf) →
  ∃ s' t', locked cap s (Count q chunk e buf) = Some (s', t') ∧ Inv (set_thread s' i t').
Proof.
  intros HI Ht. pose proof (inv_threads _ HI _ _ Ht) as (Hr&Hk&He). pose proof (whole_end_le q buf). cbn [locked]. eexists _, _. split; [done|].
  step_local. cbn [thread_ok]. rewrite length_replicate. unfold CHUNK. split_and!; try (done || lia).
  by intros ? ? ? ?%elem_of_nil.
Qed.

Lemma inv_keep cap s i q e w buf k data : Inv s → threads s !! i = Some (Keep q e w buf k data) →
  ∃ s' t', locked cap s (Keep q e w buf k data) = Some (s', t') ∧ Inv (set_thread s' i t').
Proof.
  intros HI Ht. pose proof (inv_threads _ HI _ _ Ht) as Hr. cbn [thread_ok] in Hr. cbn [locked]. eexists _, _. split; [done|].
  pose proof Hr as (R1&R2&R3&R4&_). assert (HK : CHUNK = 4096) by done. destruct data as [|b data].
  - step_local. cbn [thread_ok length] in *. split; [done|lia].
  - assert (k < e) by (cbn [length] in R4; nia). destruct (_ <? cap); step_local; by split.
Qed.

Lemma free_unused_ok u l (T : gset Z) : T = list_to_set (option_list u ++ l) → NoDup (option_list u ++ l) →
  free_unused u T = Some (list_to_set l).
Proof.
  intros -> Hn. destruct u as [f|]; cbn [option_list app free_unused] in *; [|done]. apply NoDup_cons in Hn as [Hf _].
  unfold free_frame. rewrite bool_decide_eq_true_2 by set_solver. f_equal. cbn [list_to_set]. set_solver.
Qed.

Lemma zget_take {A} (l : list A) n o v : zget (take n l) o = Some v → zget l o = Some v.
Proof.
  unfold zget. destruct (0 <=? o); [|done]. intros H. apply lookup_take_Some in H. tauto.
Qed.

Lemma read_good s w d p v : w = writes (cache s) → read_byte s w d p v → good s d p v.
Proof. intros -> [H|H]; [lia|done]. Qed.

Lemma chunk_place p k : p / CHUNK = k → k * CHUNK + p mod CHUNK = p.
Proof. intros <-. pose proof (Z.div_mod p CHUNK ltac:(done)). lia. Qed.

Lemma inv_put cap s i q e w buf k data spare : Inv s → threads s !! i = Some (Put q e w buf k data spare) →
  ∃ s' t', locked cap s (Put q e w buf k data spare) = Some (s', t') ∧ Inv (set_thread s' i t').
Proof.
  intros HI Ht. pose proof (inv_threads _ HI _ _ Ht) as [(R1&R2&R3&R4&R5&R6) Hke]. cbn [locked]. assert (HK : CHUNK = 4096) by done.
  set (t := Put q e w buf k data spare) in *. set (t' := Keep q e w buf (k + 1) (drop (Z.to_nat CHUNK) data)).
  assert (Hsp : spare_of t = spare) by (subst t; by destruct spare).
  destruct (owned_moved s (set_thread s i t') i t t' (moved_set _ _ _ _ Ht)) as (rest&P1&P2). rewrite Hsp in P1. cbn in P2.
  pose proof (inv_owned _ HI) as Hn. rewrite P1, app_assoc in Hn. pose proof Hn as (Hn1&_)%NoDup_app.
  destruct (put_ok cap (dev q) k w (take (Z.to_nat CHUNK) data) spare (mem s) (cache s)) as (u&c'&m'&->&C1&C2&C3&C4&C5);
    [apply HI|apply HI|lens; lia|done|]. cbn [mbind option_bind].
  assert (P : owned s ≡ₚ option_list u ++ frames c' ++ rest).
  { rewrite P1, app_assoc, <- C4. solve_Permutation. }
  rewrite (free_unused_ok u (frames c' ++ rest)); [|by rewrite <- P, (inv_taken _ HI)|rewrite <- P; apply HI].
  cbn [mbind option_bind]. eexists _, t'. split; [done|].
  set (s' := set_thread _ i t'). assert (Hm : moved s s' i t t') by done.
  assert (P' : owned s' ≡ₚ frames c' ++ rest).
  { apply (Permutation_app_inv_l (frames (cache s))). unfold owned in *. cbn [s' set_thread cache threads] in *.
    apply Permutation_app_inv_l in P2. rewrite P2. done. }
  assert (Hg : ∀ d p v, good s d p v → good s' d p v).
  { intros d p v [H|H]; [by left|right]. by eapply writing_moved. }
  eapply inv_intro; [done|done|done|done|by rewrite P'| |cbn; lia|intros; left; by apply Hg| |done| |].
  - rewrite P'. pose proof (inv_owned _ HI) as Hn'. rewrite P in Hn'. by apply NoDup_app in Hn' as (_&_&?).
  - intros d p v Hv. apply Hg. destruct (C5 d p v Hv) as [H|(Hw&->&Hk&Hv')]; [by apply HI|].
    apply (read_good s w); [done|]. rewrite <- (chunk_place p k Hk). apply R6. by eapply zget_take.
  - by intros.
  - cbn [thread_ok]. split_and!; [done|lia|lia|lia|lens; lia|cbn; lia|]. intros o v Hv.
    apply (read_byte_mono s); [cbn; lia|done|intros; left; by apply Hg|]. replace ((k + 1) * CHUNK + o) with (k * CHUNK + (CHUNK + o)) by lia.
    apply R6. pose proof (zget_some _ _ _ Hv). rewrite zget_lookup in * by lia. rewrite lookup_drop in Hv. rewrite <- Hv. f_equal. lia.
Qed.

Lemma inv_written cap s i d at_ buf ok : Inv s → writes (cache s) < U64_MAX → threads s !! i = Some (Written d at_ buf ok) →
  ∃ s' t', locked cap s (Written d at_ buf ok) = Some (s', t') ∧ Inv (set_thread s' i t').
Proof.
  intros HI Hw Ht. pose proof (inv_threads _ HI _ _ Ht) as [R1 R2]. cbn [locked]. pose proof (inv_writes _ HI) as Hw0.
  destruct (wrote_ok d at_ buf (mem s) (cache s)) as (c'&m'&->&C1&C2&C3&C4&C5); [apply HI|apply HI| |done|lia|].
  { pose proof (inv_owned _ HI) as Hn. unfold owned in Hn. by apply NoDup_app in Hn as (?&_). }
  cbn [mbind option_bind]. eexists _, (WriteDone ok). split; [done|]. set (s' := set_thread _ i _).
  assert (Hm : moved s s' i (Written d at_ buf ok) (WriteDone ok)) by done.
  destruct (owned_moved _ _ _ _ _ Hm) as (rest&P1&P2). assert (Hf : frames (cache s') = frames (cache s)) by (unfold frames; cbn; by rewrite C2).
  assert (P : owned s' ≡ₚ owned s) by (rewrite P1, P2, Hf; done).
  eapply inv_intro; [done|done|by apply (c_ok_same (cache s)); [..|apply HI]|done|rewrite P; apply HI|rewrite P; apply HI|cbn; lia|right; cbn; lia| |done| |done].
  - intros d' p v Hv. destruct (C5 d' p v Hv) as [(->&Hin&Hb)|[Hno Hc]].
    + left. rewrite R2 in Hb by (unfold in_range in Hin; lia). injection Hb as <-. cbn. f_equal. lia.
    + apply (inv_coherent _ HI) in Hc as [H|(j&u&Hj&Hu)]; [by left|right]. exists j, u. split; [|done].
      rewrite (moved_ne _ _ _ _ _ _ Hm); [done|]. intros ->. rewrite Ht in Hj. injection Hj as <-. by apply Hno.
  - by intros.
Qed.

Lemma sector_bytes_length dk d n : zlen (sector_bytes dk d n) = SECTOR.
Proof. unfold sector_bytes. rewrite length_fmap, length_seqZ. done. Qed.

Lemma sector_bytes_get dk d n o : 0 <= o < SECTOR → zget (sector_bytes dk d n) o = Some (dk d (n * SECTOR + o)).
Proof.
  intros Ho. rewrite zget_lookup by lia. unfold sector_bytes. rewrite list_lookup_fmap, lookup_seqZ_lt by lia. cbn.
  do 2 f_equal. lia.
Qed.

Lemma in_request_bound len j : in_request len j = true → 0 <= j ∧ j * SECTOR + SECTOR <= len.
Proof.
  unfold in_request. intros H. bool_hyps. assert (SECTOR = 512) by done. pose proof (Z.mul_div_le len SECTOR ltac:(lia)). nia.
Qed.

(** A sector moved into a buffer at [a]: sector [j] has the disk's bytes,
    the others what they had. *)
Lemma splice_sector buf a j dk d n : 0 <= a → 0 <= j → a + j * SECTOR + SECTOR <= zlen buf →
  length (splice buf (a + j * SECTOR) (sector_bytes dk d n)) = length buf ∧
  ∀ j' o, 0 <= o < SECTOR → zget (splice buf (a + j * SECTOR) (sector_bytes dk d n)) (a + j' * SECTOR + o) =
    if j' =? j then Some (dk d (n * SECTOR + o)) else zget buf (a + j' * SECTOR + o).
Proof.
  intros Ha Hj Hl. pose proof (sector_bytes_length dk d n) as Hs. assert (HS : SECTOR = 512) by done.
  split; [apply splice_length; lia|]. intros j' o Ho. rewrite zget_splice, Hs by lia. destruct (Z.eqb_spec j' j) as [->|Hne].
  - rewrite (proj2 (Z.leb_le _ _)), (proj2 (Z.ltb_lt _ _)) by lia. cbn [andb]. rewrite <- (sector_bytes_get dk d n o Ho). f_equal. lia.
  - destruct ((_ <=? _) && (_ <? _)) eqn:E; [|done]. bool_hyps. nia.
Qed.

Lemma splice_sector_out buf a j dk d n o : 0 <= a → 0 <= j → a + j * SECTOR + SECTOR <= zlen buf → o < a →
  zget (splice buf (a + j * SECTOR) (sector_bytes dk d n)) o = zget buf o.
Proof.
  intros Ha Hj Hl Ho. pose proof (sector_bytes_length dk d n) as Hs. assert (HS : SECTOR = 512) by done.
  rewrite zget_splice, Hs by lia. destruct ((_ <=? _) && (_ <? _)) eqn:E; [|done]. bool_hyps. nia.
Qed.

(** The tail's range of a request. *)
Lemma tail_bounds q chunk buf : request_ok (lba q) (zlen buf) → first_chunk (lba q) <= chunk < end_chunk (lba q) (zlen buf) →
  0 <= (tail_to q chunk buf).1 < (tail_to q chunk buf).2 ∧ (tail_to q chunk buf).2 <= zlen buf ∧
  (tail_to q chunk buf).1 mod SECTOR = 0 ∧ (tail_to q chunk buf).2 mod SECTOR = 0 ∧ chunk * CHUNK <= lba q * SECTOR + (tail_to q chunk buf).1 ∧
  ∀ o, 0 <= o < zlen buf → ((tail_to q chunk buf).1 <= o < (tail_to q chunk buf).2 ↔ (lba q * SECTOR + o) / CHUNK = chunk).
Proof.
  intros Hr Hc. unfold tail_to. rewrite (overlap_fits _ _ _ Hr Hc). cbn [from_option id]. destruct (ranges chunk (lba q) (zlen buf)) as [from to] eqn:E. cbn [snd].
  destruct (ranges_ok _ _ _ _ _ Hr Hc E) as (H1&H2&H3&H4&H5&H6&H7). unfold ranges in E. injection E as _ <-. cbn [fst snd] in *.
  destruct Hr as (_&_&Hm). assert (HS : SECTOR = 512) by done. assert (HK : CHUNK = 4096) by done. rewrite HS, HK in *.
  split_and!; try (done || lia). all: clear -Hm; zdiv.
Qed.

Lemma inv_move_read s i t j s' t' : Inv s → threads s !! i = Some t → move s t j = Some (s', t') →
  match t with Tail _ _ _ _ | Device _ _ _ _ _ _ _ => True | _ => False end → Inv (set_thread s' i t').
Proof.
  intros HI Ht. pose proof (inv_threads _ HI _ _ Ht) as Hok. assert (HS : SECTOR = 512) by done. destruct t; try done; cbn [move].
  - destruct Hok as [R1 R2]. destruct (tail_bounds _ _ _ R1 R2) as (T1&T2&_).
    generalize dependent (tail_to q chunk buf). intros to T1 T2. destruct (in_request _ j) eqn:Ej; [|done]. apply in_request_bound in Ej as [Hj Hl]. intros [= <- <-] _. step_local. cbn [thread_ok].
    destruct (splice_sector buf to.1 j (disk s) (dev q) (lba q + to.1 / SECTOR + j)) as [-> _]; [lia..|]. done.
  - destruct Hok as (R1&R2&R3&R4&R5&R6). destruct (in_request _ j) eqn:Ej; [|done]. apply in_request_bound in Ej as [Hj Hl].
    intros [= <- <-] _. step_local. cbn [thread_ok].
    destruct (splice_sector data 0 j (disk s) (dev q) (chunk * CHUNK_SECTORS + j)) as [L G]; [lia..|]. rewrite Z.add_0_l in L, G. rewrite L.
    split_and!; try (done || lia). intros j' o v Hin Ho. specialize (G j' o Ho). rewrite Z.add_0_l in G. rewrite G.
    destruct (Z.eqb_spec j' j) as [->|Hne].
    + intros [= <-]. right. left. f_equal. unfold CHUNK_SECTORS, CHUNK. rewrite HS. change (4096 / 512) with 8. lia.
    + apply R6; [|done]. by apply elem_of_cons in Hin as [->|].
Qed.

(** The sector a write moves, and the rest of the disks. *)
Lemma set_sector_in dk d at_ j buf o : 0 <= j → j * SECTOR + SECTOR <= zlen buf → 0 <= o < SECTOR →
  zget buf (j * SECTOR + o) = Some (set_sector dk d at_ (at_ + j) buf d (at_ * SECTOR + j * SECTOR + o)).
Proof.
  intros Hj Hl Ho. assert (HS : SECTOR = 512) by done. unfold set_sector. rewrite Z.eqb_refl, (proj2 (Z.leb_le _ _)), (proj2 (Z.ltb_lt _ _)) by lia.
  cbn [andb]. replace (at_ * SECTOR + j * SECTOR + o - at_ * SECTOR) with (j * SECTOR + o) by lia.
  destruct (zget_is_some buf (j * SECTOR + o)) as [v Hv]; [lia|]. by rewrite Hv.
Qed.

Lemma set_sector_out dk d at_ n buf d' p : ~ (d' = d ∧ n * SECTOR <= p < (n + 1) * SECTOR) → set_sector dk d at_ n buf d' p = dk d' p.
Proof. intros H. unfold set_sector. destruct (_ && _ && _) eqn:E; [|done]. bool_hyps. destruct H. lia. Qed.

Lemma inv_move_write s i d at_ buf got j s' t' : Inv s → threads s !! i = Some (Writing d at_ buf got) →
  move s (Writing d at_ buf got) j = Some (s', t') → Inv (set_thread s' i t').
Proof.
  intros HI Ht. pose proof (inv_threads _ HI _ _ Ht) as [R1 R2]. assert (HS : SECTOR = 512) by done. cbn [move].
  destruct (in_request _ j) eqn:Ej; [|done]. apply in_request_bound in Ej as [Hj Hl]. intros [= <- <-].
  set (t' := Writing d at_ buf (j :: got)). set (s1 := set_thread _ i t'). assert (Hm : moved s s1 i (Writing d at_ buf got) t') by done.
  destruct (owned_moved _ _ _ _ _ Hm) as (rest&P1&P2). assert (P : owned s1 ≡ₚ owned s) by (rewrite P1, P2; done).
  assert (Hsec : ∀ d' p, d' = d ∧ (at_ + j) * SECTOR <= p < (at_ + j + 1) * SECTOR → covers t' d' p).
  { intros d' p [-> Hp]. split; [done|]. unfold in_range. lia. }
  assert (Hout : ∀ d' p, ~ covers t' d' p → disk s1 d' p = disk s d' p).
  { intros d' p Hno. cbn. apply set_sector_out. intros Hx. by apply Hno, Hsec. }
  assert (Hg : ∀ d' p v, good s d' p v → good s1 d' p v).
  { intros d' p v Hgo. destruct (decide (d' = d ∧ (at_ + j) * SECTOR <= p < (at_ + j + 1) * SECTOR)) as [Hin|Hno].
    - right. exists i, t'. rewrite (moved_eq _ _ _ _ _ Hm). auto.
    - destruct Hgo as [H|H]; [left; rewrite <- H; cbn; by apply set_sector_out|right]. by eapply writing_moved. }
  eapply inv_intro; [done|done|apply HI|apply HI|rewrite P; apply HI|rewrite P; apply HI|done|intros; left; by apply Hg| | | |].
  - intros d' p v Hv. by apply Hg, HI.
  - intros k u d' p Hk Hu Hc. apply Hout. intros Hc'. by apply (inv_exclusive _ HI i k (Writing d at_ buf got) u d' p).
  - intros k u d' p Hk Hu Hc Hc'. by apply (inv_exclusive _ HI i k (Writing d at_ buf got) u d' p).
  - split; [done|]. intros j' o Hin Ho. destruct (decide (j' = j)) as [->|Hne]; [by apply set_sector_in|].
    apply elem_of_cons in Hin as [->|Hin]; [done|]. rewrite (R2 j' o Hin Ho). f_equal. symmetry. cbn. apply set_sector_out. intros [_ Hx]. nia.
Qed.

Lemma all_moved_in len got o : all_moved len got = true → 0 <= o < len → len mod SECTOR = 0 → o / SECTOR ∈ got.
Proof.
  unfold all_moved. rewrite forallb_forall. intros H Ho Hm. assert (HS : SECTOR = 512) by done. rewrite HS in *.
  eapply bool_decide_eq_true_1, H. apply list_elem_of_In, elem_of_seqZ. split; [apply Z.div_pos; lia|]. cbn. apply Z.div_lt_upper_bound; [lia|].
  pose proof (Z.div_mod len 512 ltac:(lia)). lia.
Qed.

(** A place in a request by its sector. *)
Lemma sector_place o : 0 <= o → o / SECTOR * SECTOR + o mod SECTOR = o ∧ 0 <= o mod SECTOR < SECTOR.
Proof. intros Ho. pose proof (Z.div_mod o SECTOR ltac:(done)). pose proof (Z.mod_pos_bound o SECTOR ltac:(done)). lia. Qed.

Lemma inv_complete s i t o : Inv s → threads s !! i = Some t → complete t = Some o → Inv (set_thread s i (default Panicked o)).
Proof.
  intros HI Ht. pose proof (inv_threads _ HI _ _ Ht) as Hok. assert (HS : SECTOR = 512) by done. assert (HK : CHUNK = 4096) by done.
  destruct t; try done; cbn [complete].
  - destruct (all_moved _ got) eqn:E; [|done]. intros [= <-]. step_local. cbn [from_option thread_ok id] in *. split; [tauto|lia].
  - destruct (all_moved (zlen data) got) eqn:E; [|done]. destruct Hok as (R1&R2&R3&R4&R5&R6).
    destruct (copy_run_ok (Z.to_nat (end_ - chunk)) chunk (lba q) data buf) as (buf'&->&L&_); [done|lia..|]. cbn [mbind option_bind].
    intros [= <-]. step_local. cbn [from_option thread_ok id]. unfold run_ok. rewrite L. split_and!; try (done || lia). intros o' v Hv.
    pose proof (zget_some _ _ _ Hv) as Hr. destruct (sector_place o' ltac:(lia)) as [Ep Hp].
    replace (chunk * CHUNK + o') with (chunk * CHUNK + o' / SECTOR * SECTOR + o' mod SECTOR) by lia.
    apply R6; [|done|by rewrite Ep]. eapply all_moved_in; [done|lia|]. rewrite R4, HK, HS. clear. zdiv.
  - destruct (all_moved (zlen buf) got) eqn:E; [|done]. destruct Hok as [R1 R2]. intros [= <-]. step_local. cbn [from_option thread_ok id].
    split; [done|]. intros o' Ho. destruct (sector_place o' ltac:(lia)) as [Ep Hp].
    rewrite <- Ep. rewrite R2; [do 2 f_equal; lia| |done]. eapply all_moved_in; [done|lia|]. apply R1.
Qed.

Lemma inv_fault s i t t' : Inv s → threads s !! i = Some t → fault t = Some t' →
  match t with Writing _ _ _ _ => False | _ => True end → Inv (set_thread s i t').
Proof. intros HI Ht. destruct t; try done; intros [= <-] _; by step_local. Qed.

Lemma start_request (buf : list Z) : (zlen buf mod SECTOR =? 0) = true → (zlen buf =? 0) = false → ∀ at_, addressable at_ (zlen buf) = true → request_ok at_ (zlen buf).
Proof. unfold addressable. intros H1 H2 at_ Ha. bool_hyps. split_and!; [done|lia|lia|done]. Qed.

Lemma inv_start s i o : Inv s → threads s !! i = Some Idle → allowed s (Start i o) = true → Inv (set_thread s i (start o)).
Proof.
  intros HI Ht. destruct o as [q buf|d at_ buf]; cbn [allowed start]; intros Ha; bool_hyps.
  - destruct (zlen buf mod SECTOR =? 0) eqn:E1; cbn [negb]; [|by step_local]. destruct (zlen buf =? 0) eqn:E2; [by step_local|].
    pose proof (start_request buf E1 E2 (lba q) Ha) as Hr. rewrite (request_end _ _ Hr). step_local. split; [done|]. destruct (chunk_bounds _ _ Hr) as (_&_&?). lia.
  - destruct (zlen buf mod SECTOR =? 0) eqn:E1; cbn [negb]; [|by step_local]. destruct (zlen buf =? 0) eqn:E2; [by step_local|].
    pose proof (start_request buf E1 E2 at_ ltac:(done)) as Hr. pose proof (moved_set s i Idle (Writing d at_ buf []) Ht) as Hm.
    destruct (owned_moved _ _ _ _ _ Hm) as (rest&P1&P2). set (s1 := set_thread _ i _) in *.
    assert (P : owned s1 ≡ₚ owned s) by (rewrite P1, P2; done).
    assert (Hg : ∀ d' p v, good s d' p v → good s1 d' p v) by (intros d' p v [H1|H1]; [by left|right]; by eapply writing_moved).
    eapply inv_intro; [done|done|apply HI|apply HI|rewrite P; apply HI|rewrite P; apply HI|done|intros; left; by apply Hg| |done| |].
    + intros d' p v Hv. by apply Hg, HI.
    + intros j u d' p Hj Hu [-> Hc] Hc'. rewrite forallb_forall in H0. apply list_elem_of_lookup_2, list_elem_of_In, H0 in Hu.
      apply negb_true_iff in Hu. unfold in_range in *. destruct u; try done; destruct Hc' as [<- Hc']; unfold in_range in Hc'; cbn [overlaps] in Hu;
        rewrite Z.eqb_refl, !(proj2 (Z.ltb_lt _ _)) in Hu by lia; done.
    + split; [done|]. by intros ? ? ?%elem_of_nil.
Qed.

Lemma inv_alloc s i f q e w buf k data : Inv s → threads s !! i = Some (Spare q e w buf k data) → f ∉ taken s →
  Inv {| cache := cache s; mem := mem s; taken := {[f]} ∪ taken s; disk := disk s; threads := <[i := Put q e w buf k data (Some f)]> (threads s) |}.
Proof.
  intros HI Ht Hf. set (s' := {| cache := _; mem := _; taken := _; disk := _; threads := _ |}).
  set (t' := Put q e w buf k data (Some f)). assert (Hm : moved s s' i (Spare q e w buf k data) t') by done.
  destruct (owned_moved _ _ _ _ _ Hm) as (rest&P1&P2). cbn [spare_of option_list app t'] in P1, P2.
  assert (P : owned s' ≡ₚ f :: owned s) by (rewrite P1, P2; cbn; solve_Permutation).
  assert (Hg : ∀ d p v, good s d p v → good s' d p v) by (intros d p v [H1|H1]; [by left|right]; by eapply writing_moved).
  rewrite (inv_taken _ HI), elem_of_list_to_set in Hf.
  eapply inv_intro; [done|done|apply HI|apply HI| | |done|intros; left; by apply Hg| |done|by intros|].
  - rewrite P. cbn. by rewrite (inv_taken _ HI).
  - rewrite P. constructor; [done|apply HI].
  - intros d p v Hv. by apply Hg, HI.
  - apply (thread_ok_mono s); [done|intros; left; by apply Hg|done|]. exact (inv_threads _ HI _ _ Ht).
Qed.

(** Entries given up and their frames freed, the calls where they were. *)
Lemma inv_drop s c freed : Inv s → c_ok c → writes c = writes (cache s) + 1 → freed ++ frames c ≡ₚ frames (cache s) →
  (∀ d p v, cached c (mem s) d p = Some v → cached (cache s) (mem s) d p = Some v) →
  ∃ T, free_frames freed (taken s) = Some T ∧
    Inv {| cache := c; mem := mem s; taken := T; disk := disk s; threads := threads s |}.
Proof.
  intros HI Hc Hw HP Hd. set (sp := omap spare_of (threads s)).
  assert (P : owned s ≡ₚ freed ++ frames c ++ sp) by (unfold owned; rewrite <- HP; subst sp; by rewrite app_assoc).
  pose proof (inv_owned _ HI) as Hn. rewrite P in Hn. apply NoDup_app in Hn as (Hn1&Hn2&Hn3). eexists. split.
  { apply free_frames_ok; [done|]. intros f Hf. rewrite (inv_taken _ HI), elem_of_list_to_set, P, elem_of_app. by left. }
  set (s' := {| cache := _; mem := _; taken := _; disk := _; threads := _ |}). pose proof (inv_writes _ HI).
  split; try apply HI; try done.
  - cbn. rewrite (inv_taken _ HI). unfold owned at 2. cbn. fold sp. rewrite P, list_to_set_app_L.
    apply set_eq. intros f. rewrite elem_of_difference, elem_of_union, !elem_of_list_to_set. specialize (Hn2 f). tauto.
  - cbn. lia.
  - intros d p v Hv%Hd. by apply HI.
  - intros i t Ht. apply (thread_ok_mono s); [cbn; lia|right; cbn; lia|done|by apply (inv_threads _ HI i)].
Qed.

Lemma step_forget cap s d : Inv s → writes (cache s) < U64_MAX → ∃ s', step cap s (Forget d) = Some s' ∧ Inv s' ∧ threads s' = threads s.
Proof.
  intros HI Hw. pose proof (inv_writes _ HI). cbn [step].
  destruct (forget_ok d (mem s) (cache s)) as (freed&c&->&H1&H2&H3&H4); [apply HI|lia|]. cbn [mbind option_bind].
  destruct (inv_drop s c freed HI H1 H2 H3 H4) as (T&->&HI'). by eexists.
Qed.

Lemma step_release cap s : Inv s → writes (cache s) < U64_MAX → ∃ s', step cap s Release = Some s' ∧ Inv s' ∧ threads s' = threads s.
Proof.
  intros HI Hw. pose proof (inv_writes _ HI). cbn [step].
  destruct (release_ok (mem s) (cache s)) as (freed&c&->&H1&H2&H3&H4); [lia|]. cbn [mbind option_bind].
  destruct (inv_drop s c freed HI H1 H2 H3 H4) as (T&->&HI'). by eexists.
Qed.

Lemma inv_locked cap s i t : Inv s → writes (cache s) < U64_MAX → threads s !! i = Some t → is_locked t = true →
  ∃ s' t', locked cap s t = Some (s', t') ∧ Inv (set_thread s' i t').
Proof.
  intros HI Hw Ht. destruct t; try done; intros _;
    [by apply inv_look|by apply inv_run|by apply inv_count|by apply inv_keep|by apply inv_put|by apply inv_written].
Qed.

(** Every step allowed keeps the invariant. *)
Lemma step_inv cap s l s' : Inv s → writes (cache s) < U64_MAX → allowed s l = true → step cap s l = Some s' → Inv s'.
Proof.
  intros HI Hw Ha. destruct l as [i o|i|i f|i j|i|i|d|].
  - cbn [step]. destruct (threads s !! i) as [[]|] eqn:Et; try done. intros [= <-]. by apply inv_start.
  - cbn [step]. destruct (threads s !! i) as [t|] eqn:Et; [|done]. cbn [mbind option_bind]. destruct (is_locked t) eqn:El; [|done].
    destruct (inv_locked cap s i t HI Hw Et El) as (s1&t1&->&HI'). by intros [= <-].
  - cbn [step]. destruct (threads s !! i) as [[]|] eqn:Et; try done. destruct (bool_decide _ || _) eqn:Ef; [done|]. bool_hyps.
    intros [= <-]. apply inv_alloc; [done..|]. by apply bool_decide_eq_false in H.
  - cbn [step]. destruct (threads s !! i) as [t|] eqn:Et; [|done]. cbn [mbind option_bind]. destruct (move s t j) as [[s1 t1]|] eqn:Em; [|done].
    cbn [mbind option_bind]. intros [= <-]. destruct t; try done; [by eapply inv_move_read|by eapply inv_move_read|by eapply inv_move_write].
  - cbn [step]. destruct (threads s !! i) as [t|] eqn:Et; [|done]. cbn [mbind option_bind]. destruct (complete t) as [o|] eqn:Ec; [|done].
    cbn [mbind option_bind]. intros [= <-]. by eapply inv_complete.
  - cbn [step]. cbn [allowed] in Ha. destruct (threads s !! i) as [t|] eqn:Et; [|done]. cbn [mbind option_bind].
    destruct (fault t) as [t1|] eqn:Ef; [|done]. cbn [mbind option_bind]. intros [= <-]. eapply inv_fault; [done..|]. by destruct t.
  - destruct (step_forget cap s d HI Hw) as (s1&->&HI'&_). by intros [= <-].
  - destruct (step_release cap s HI Hw) as (s1&->&HI'&_). by intros [= <-].
Qed.

(** ** Runs *)

Lemma evict_from_writes fuel c r c' : evict_from fuel c = Some (r, c') → writes c' = writes c.
Proof.
  revert c. induction fuel as [|fuel IH]; intros c; cbn [evict_from]; [by intros [= <- <-]|].
  destruct (entries c !! _) as [e|]; [|done]. cbn [mbind option_bind]. destruct (used e); [|by intros [= <- <-]]. by intros ->%IH.
Qed.

Lemma reuse_writes d k c r c' : reuse d k c = Some (r, c') → writes c' = writes c.
Proof.
  unfold reuse. destruct (evict c) as [[i c1]|] eqn:E; [|done]. apply evict_from_writes in E. cbn [mbind option_bind].
  destruct i as [i|]; [|by intros [= <- <-]]. destruct (entries c1 !! i); [|done]. by intros [= <- <-].
Qed.

Lemma put_writes cap d k w bytes spare m c u c' m' : put cap d k w bytes spare m c = Some (u, c', m') → writes c' = writes c.
Proof.
  unfold put. destruct (_ || _); [by intros [= <- <- <-]|]. destruct (entry_for cap d k spare c) as [[i c1]|] eqn:E; [|done].
  assert (Hw : writes c1 = writes c).
  { unfold entry_for in E. destruct spare; [destruct (_ <? _); [by injection E as <- <-|]|]; by apply reuse_writes in E. }
  cbn [mbind option_bind]. destruct i as [i|]; [|by intros [= <- <- <-]]. destruct (entries c1 !! i); [|done]. cbn [mbind option_bind].
  destruct (negb _); [done|]. by intros [= <- <- <-].
Qed.

Lemma count_write_writes c c' : count_write c = Some c' → writes c' = writes c + 1.
Proof. unfold count_write, add64, fits. destruct (_ && _); [|done]. by intros [= <-]. Qed.

Lemma locked_writes cap s t s' t' : locked cap s t = Some (s', t') → writes (cache s') <= writes (cache s) + 1.
Proof.
  destruct t; cbn [locked]; try done.
  - destruct (_ <? _); [|intros [= <- <-]; lia]. unfold hit. destruct (index (cache s) !! _).
    2:{ cbn [mbind option_bind]. destruct (_ <=? _); [destruct (overlap _ _ _); [|done]|]; intros [= <- <-]; cbn; lia. }
    destruct (entries (cache s) !! _); [|done]. cbn [mbind option_bind]. destruct (overlap _ _ _) as [[from to]|]; [|done]. cbn [mbind option_bind].
    destruct (copy_range _ _ _ _); [|done]. cbn [mbind option_bind]. intros [= <- <-]. cbn. lia.
  - generalize (run_end (Z.to_nat MAX_RUN) (dev q) chunk (whole_end q buf) (chunk + 1) (cache s)). intros e [= <- <-]. lia.
  - intros [= <- <-]. lia.
  - intros [= <- <-]. lia.
  - destruct (put _ _ _ _ _ _ _ _) as [[[u c] m]|] eqn:E; [|done]. cbn [mbind option_bind]. apply put_writes in E.
    destruct (free_unused _ _); [|done]. intros [= <- <-]. cbn. lia.
  - destruct (wrote _ _ _ _ _) as [[c m]|] eqn:E; [|done]. unfold wrote in E. destruct (add64 _ _); [|done]. cbn [mbind option_bind] in E.
    destruct (count_write (cache s)) as [c1|] eqn:Ec; [|done].
    apply count_write_writes in Ec. cbn [mbind option_bind] in E. destruct (wrote_from _ _ _ _ _ _ _); [|done]. injection E as <- <-.
    cbn [mbind option_bind]. intros [= <- <-]. cbn. lia.
Qed.

Lemma step_writes cap s l s' : step cap s l = Some s' → writes (cache s') <= writes (cache s) + 1.
Proof.
  destruct l as [i o|i|i f|i j|i|i|d|]; cbn [step].
  - destruct (threads s !! i) as [[]|]; try done. intros [= <-]. cbn. lia.
  - destruct (threads s !! i) as [t|]; [|done]. cbn [mbind option_bind]. destruct (is_locked t); [|done].
    destruct (locked cap s t) as [[s1 t1]|] eqn:E; intros [= <-]; cbn; [by apply locked_writes in E|lia].
  - destruct (threads s !! i) as [[]|]; try done. destruct (_ || _); [done|]. intros [= <-]. cbn. lia.
  - destruct (threads s !! i) as [t|]; [|done]. cbn [mbind option_bind].
    destruct t; try done; cbn [move]; destruct (in_request _ _); try done; intros [= <-]; cbn; lia.
  - destruct (threads s !! i) as [t|]; [|done]. cbn [mbind option_bind]. destruct (complete t); [|done]. intros [= <-]. cbn. lia.
  - destruct (threads s !! i) as [t|]; [|done]. cbn [mbind option_bind]. destruct (fault t); [|done]. intros [= <-]. cbn. lia.
  - destruct (forget d (cache s)) as [[fr c]|] eqn:E; [|done]. cbn [mbind option_bind]. destruct (free_frames _ _); [|done]. intros [= <-].
    unfold forget in E. destruct (count_write (cache s)) as [c1|] eqn:Ec; [|done]. apply count_write_writes in Ec. injection E as _ <-. cbn. lia.
  - destruct (release (cache s)) as [[fr c]|] eqn:E; [|done]. cbn [mbind option_bind]. destruct (free_frames _ _); [|done]. intros [= <-].
    unfold release in E. destruct (count_write (cache s)) as [c1|] eqn:Ec; [|done]. apply count_write_writes in Ec. injection E as _ <-. cbn. lia.
Qed.

Lemma cache_run_inv cap s ls s' : Inv s → writes (cache s) + zlen ls <= U64_MAX → allowed_run cap s ls = true → run cap s ls = Some s' → Inv s'.
Proof.
  revert s. induction ls as [|l ls IH]; intros s HI Hw; cbn [allowed_run run]; [by intros _ [= <-]|]. intros [Ha Hr]%andb_true_iff.
  destruct (step cap s l) as [s1|] eqn:E; [|done]. cbn [mbind option_bind]. cbn [length] in Hw. pose proof (step_writes _ _ _ _ E).
  apply IH; [eapply step_inv; [done| |done..]; lia|lia|done].
Qed.

Lemma cache_boot_inv dk n : Inv (boot dk n).
Proof.
  assert (Hth : ∀ i t, replicate n Idle !! i = Some t → t = Idle) by (intros i t Ht; by apply lookup_replicate in Ht as [-> _]).
  assert (Hsp : omap spare_of (replicate n Idle) = []) by (clear; induction n; [done|]; by cbn).
  split; cbn [boot cache mem taken threads].
  - intros k i. cbn. by rewrite lookup_empty.
  - intros f. by rewrite length_replicate.
  - unfold owned, frames. cbn. rewrite Hsp. done.
  - unfold owned, frames. cbn. rewrite Hsp. constructor.
  - cbn. lia.
  - intros d p v. unfold cached, frame_at. cbn. by rewrite lookup_empty.
  - intros i t ->%Hth. done.
  - intros i j t t' d p _ ->%Hth. done.
Qed.
