(* ===== verification/BlkCacheProps.v ===== *)
(** * What the block cache's callers get

    The cache is the disk's, under concurrent calls; a read that no write in
    progress touches returns the disk's bytes; and the two ways the cache
    parts from the disk: a failed write, and two writes of one place at
    once. *)

From S2P Require Import Prelude BlkCache BlkCacheFacts BlkCacheRun.
From stdpp Require Import gmap fin_maps functions list.

Open Scope Z_scope.

(** ** What a read has so far *)

(** The buffer has the disk's bytes up to chunk [upto]. *)
Definition read_upto (s : Sys) (q : Req) (buf : list Z) (upto : Z) : Prop :=
  ∀ o, 0 <= o < zlen buf → lba q * SECTOR + o < upto * CHUNK → zget buf o = Some (disk s (dev q) (lba q * SECTOR + o)).

(** A call that reads [len] bytes for [q]. *)
Definition reader_ok (q : Req) (len : Z) (s : Sys) (t : Thread) : Prop :=
  match t with
  | Look q' chunk buf | Run q' chunk buf | Count q' chunk _ buf => q' = q ∧ zlen buf = len ∧ read_upto s q buf chunk
  | Tail q' chunk buf got => q' = q ∧ zlen buf = len ∧ read_upto s q buf chunk ∧
      ∀ j o, j ∈ got → 0 <= o < SECTOR → zget buf ((tail_to q chunk buf).1 + j * SECTOR + o) =
        Some (disk s (dev q) (lba q * SECTOR + (tail_to q chunk buf).1 + j * SECTOR + o))
  | Device q' chunk e w buf data got => q' = q ∧ zlen buf = len ∧ read_upto s q buf chunk ∧
      ∀ j o, j ∈ got → 0 <= o < SECTOR → in_range (lba q) len (chunk * CHUNK + j * SECTOR + o) →
        zget data (j * SECTOR + o) = Some (disk s (dev q) (chunk * CHUNK + j * SECTOR + o))
  | Keep q' e _ buf _ _ | Spare q' e _ buf _ _ | Put q' e _ buf _ _ _ => q' = q ∧ zlen buf = len ∧ read_upto s q buf e
  | ReadDone q' (Some buf) => q' = q ∧ zlen buf = len ∧ ∀ o, 0 <= o < len → zget buf o = Some (disk s (dev q) (lba q * SECTOR + o))
  | ReadDone q' None => q' = q
  | _ => False
  end.

(** No write in progress touches the request. *)
Definition quiet (q : Req) (len : Z) (s : Sys) : Prop := ∀ p, in_range (lba q) len p → ~ writing s (dev q) p.

(** A critical section does not touch the disks, nor the other calls. *)
Lemma locked_frame cap s t s' t' : locked cap s t = Some (s', t') → disk s' = disk s ∧ threads s' = threads s.
Proof.
  destruct t; cbn [locked]; try done.
  - destruct (_ <? _); [|by intros [= <- <-]]. destruct (hit _ _ _ _ _ _) as [[h c]|]; [|done]. cbn [mbind option_bind].
    destruct h; [|destruct (_ <=? _); [destruct (overlap _ _ _); [|done]|]]; by intros [= <- <-].
  - generalize (run_end (Z.to_nat MAX_RUN) (dev q) chunk (whole_end q buf) (chunk + 1) (cache s)). by intros e [= <- <-].
  - by intros [= <- <-].
  - by intros [= <- <-].
  - destruct (put _ _ _ _ _ _ _ _) as [[[u c] m]|]; [|done]. cbn [mbind option_bind]. destruct (free_unused _ _); [|done]. by intros [= <- <-].
  - destruct (wrote _ _ _ _ _) as [[c m]|]; [|done]. by intros [= <- <-].
Qed.

(** Steps change only what is being written. *)
Lemma step_disk cap s l s' d p : step cap s l = Some s' → disk s' d p = disk s d p ∨ writing s d p.
Proof.
  destruct l as [i o|i|i f|i j|i|i|d'|]; cbn [step].
  - destruct (threads s !! i) as [[]|]; try done. intros [= <-]. by left.
  - destruct (threads s !! i) as [t|]; [|done]. cbn [mbind option_bind]. destruct (is_locked t); [|done].
    destruct (locked cap s t) as [[s1 t1]|] eqn:E; intros [= <-]; left; [|done].
    apply locked_frame in E as [E _]. cbn. by rewrite E.
  - destruct (threads s !! i) as [[]|]; try done. destruct (_ || _); [done|]. intros [= <-]. by left.
  - destruct (threads s !! i) as [t|] eqn:Et; [|done]. cbn [mbind option_bind].
    destruct t; try done; cbn [move]; (destruct (in_request _ _) eqn:Ej; [|done]); intros [= <-]; cbn; [by left..|].
    destruct (decide (d = d0 ∧ (at_ + j) * SECTOR <= p < (at_ + j + 1) * SECTOR)) as [[-> Hin]|Hno]; [right|left; by apply set_sector_out].
    eexists i, _. split; [done|]. split; [done|]. apply in_request_bound in Ej. unfold in_range. assert (SECTOR = 512) by done. lia.
  - destruct (threads s !! i) as [t|]; [|done]. cbn [mbind option_bind]. destruct (complete t); [|done]. intros [= <-]. by left.
  - destruct (threads s !! i) as [t|]; [|done]. cbn [mbind option_bind]. destruct (fault t); [|done]. intros [= <-]. by left.
  - destruct (forget d' (cache s)) as [[fr c]|]; [|done]. cbn [mbind option_bind]. destruct (free_frames _ _); [|done]. intros [= <-]. by left.
  - destruct (release (cache s)) as [[fr c]|]; [|done]. cbn [mbind option_bind]. destruct (free_frames _ _); [|done]. intros [= <-]. by left.
Qed.

(** A read stays right while the disk keeps its range. *)
Lemma reader_ok_mono q len s s' t : (∀ p, in_range (lba q) len p → disk s' (dev q) p = disk s (dev q) p) →
  reader_ok q len s t → reader_ok q len s' t.
Proof.
  intros Hd. assert (Hu : ∀ buf upto, zlen buf = len → read_upto s q buf upto → read_upto s' q buf upto).
  { intros buf upto Hl Hr o Ho Hp. rewrite Hr by done. f_equal. symmetry. apply Hd. unfold in_range. lia. }
  destruct t; cbn [reader_ok]; try done; try (by intros (->&Hl&Hr); eauto).
  - intros (->&Hl&Hr&Hg). split_and!; eauto. intros j o Hj Ho. rewrite (Hg j o Hj Ho). f_equal. symmetry. apply Hd.
    pose proof (Hg j o Hj Ho) as Hz. apply zget_some in Hz. unfold in_range. lia.
  - intros (->&Hl&Hr&Hg). split_and!; eauto. intros j o Hj Ho Hin. rewrite (Hg j o Hj Ho Hin). f_equal. symmetry. by apply Hd.
  - destruct res as [buf|]; [|done]. intros (->&Hl&Hr). split_and!; [done..|]. intros o Ho. rewrite Hr by done. f_equal. symmetry. apply Hd.
    unfold in_range. lia.
Qed.

(** A call that did not take the step is where it was. *)
Definition subject (l : Label) : option nat :=
  match l with Start i _ | Locked i | Alloc i _ | Sector i _ | Complete i | Fault i => Some i | _ => None end.

Lemma step_other cap s l s' i : step cap s l = Some s' → subject l ≠ Some i → threads s' !! i = threads s !! i.
Proof.
  destruct l as [j o|j|j f|j k|j|j|d'|]; cbn [step subject]; intros H Hne;
    try (assert (j ≠ i) by congruence; rename H0 into Hj).
  - destruct (threads s !! j) as [[]|]; try done. injection H as <-. by apply list_lookup_insert_ne.
  - destruct (threads s !! j) as [t|]; [|done]. cbn [mbind option_bind] in H. destruct (is_locked t); [|done].
    destruct (locked cap s t) as [[s1 t1]|] eqn:E; injection H as <-; cbn; [|by apply list_lookup_insert_ne].
    rewrite list_lookup_insert_ne by done. apply locked_frame in E as [_ E]. by rewrite E.
  - destruct (threads s !! j) as [[]|]; try done. destruct (_ || _); [done|]. injection H as <-. by apply list_lookup_insert_ne.
  - destruct (threads s !! j) as [t|]; [|done]. cbn [mbind option_bind] in H.
    destruct t; try done; cbn [move] in H; destruct (in_request _ _); try done; injection H as <-; by apply list_lookup_insert_ne.
  - destruct (threads s !! j) as [t|]; [|done]. cbn [mbind option_bind] in H. destruct (complete t); [|done]. injection H as <-. by apply list_lookup_insert_ne.
  - destruct (threads s !! j) as [t|]; [|done]. cbn [mbind option_bind] in H. destruct (fault t); [|done]. injection H as <-. by apply list_lookup_insert_ne.
  - destruct (forget d' (cache s)) as [[fr c]|]; [|done]. cbn [mbind option_bind] in H. destruct (free_frames _ _); [|done]. by injection H as <-.
  - destruct (release (cache s)) as [[fr c]|]; [|done]. cbn [mbind option_bind] in H. destruct (free_frames _ _); [|done]. by injection H as <-.
Qed.

(** ** The steps of a read *)

Section reader.
Context (q : Req) (len : Z) (s : Sys) (HI : Inv s) (Hq : quiet q len s).

(** What the cache has for a place of the request is the disk's. *)
Lemma quiet_cached p v : in_range (lba q) len p → cached (cache s) (mem s) (dev q) p = Some v → disk s (dev q) p = v.
Proof using HI Hq. intros Hin Hc. apply (inv_coherent _ HI) in Hc as [H|H]; [done|]. by destruct (Hq p Hin). Qed.

Lemma reader_look cap chunk buf s' t' : thread_ok s (Look q chunk buf) → zlen buf = len → read_upto s q buf chunk →
  locked cap s (Look q chunk buf) = Some (s', t') → reader_ok q len s t'.
Proof using HI Hq.
  intros [Hr Hk] Hl Hu. cbn [locked]. destruct (Z.ltb_spec chunk (end_chunk (lba q) (zlen buf))) as [Hlt|Hge].
  2:{ intros [= _ <-]. split; [done|]. split; [done|]. intros o Ho. destruct (chunk_bounds _ _ Hr) as (_&H2&_). apply Hu; [lia|].
      assert (HK : CHUNK = 4096) by done. nia. }
  destruct (hit_ok (mem s) (dev q) chunk (lba q) buf (cache s)) as (h&c'&->&H1&H2&H3&H4); [apply HI|apply HI|done|lia|].
  cbn [mbind option_bind]. destruct h as [buf'|].
  - intros [= _ <-]. destruct H4 as (f&Hf&Hlen&Hz). split; [done|]. split; [lia|]. intros o Ho Hp. rewrite Hz by lia.
    set (p := lba q * SECTOR + o) in *. assert (HK : CHUNK = 4096) by done.
    pose proof (Z.div_mod p CHUNK ltac:(lia)). pose proof (Z.mod_pos_bound p CHUNK ltac:(lia)).
    destruct (Z.eqb_spec (p / CHUNK) chunk) as [He|Hne]; [|apply Hu; lia].
    destruct (zget_is_some (mem s f) (p mod CHUNK)) as [v Hv]; [rewrite (inv_mem _ HI); lia|]. rewrite Hv. f_equal. symmetry.
    apply quiet_cached; [unfold in_range; lia|]. unfold cached. rewrite He, Hf. done.
  - rewrite (overlap_fits _ _ _ Hr) by lia. destruct (_ <=? chunk); intros [= _ <-]; [|by split_and!]. split_and!; [done..|]. by intros ? ? ?%elem_of_nil.
Qed.

Lemma reader_locked cap t s' t' : thread_ok s t → reader_ok q len s t → locked cap s t = Some (s', t') → reader_ok q len s t'.
Proof using HI Hq.
  intros Hok Hr. destruct t; try done; destruct Hr as (->&Hl&Hu).
  - by apply reader_look.
  - cbn [locked]. generalize (run_end (Z.to_nat MAX_RUN) (dev q) chunk (whole_end q buf) (chunk + 1) (cache s)). by intros e [= _ <-].
  - cbn [locked]. generalize (replicate (Z.to_nat ((end_ - chunk) * CHUNK)) 0). intros data [= _ <-]. split_and!; [done..|].
    by intros ? ? ?%elem_of_nil.
  - cbn [locked]. intros [= _ <-]. destruct data; [done|]. by destruct (_ <? cap).
  - cbn [locked]. destruct (put _ _ _ _ _ _ _ _) as [[[u c] m]|]; [|done]. cbn [mbind option_bind]. destruct (free_unused _ _); [|done].
    by intros [= _ <-].
Qed.

Lemma reader_move t j s' t' : thread_ok s t → reader_ok q len s t → move s t j = Some (s', t') → reader_ok q len s t'.
Proof.
  intros Hok Hr. assert (HS : SECTOR = 512) by done. destruct t; try done; cbn [move].
  - destruct Hr as (->&Hl&Hu&Hg). destruct Hok as [R1 R2]. destruct (tail_bounds _ _ _ R1 R2) as (T1&T2&T3&_&T5&_).
    destruct (in_request _ j) eqn:Ej; [|done]. apply in_request_bound in Ej as [Hj Hb]. intros E.
    assert (t' = Tail q chunk (splice buf ((tail_to q chunk buf).1 + j * SECTOR)
      (sector_bytes (disk s) (dev q) (lba q + (tail_to q chunk buf).1 / SECTOR + j))) (j :: got)) as -> by congruence. clear E.
    destruct (splice_sector buf (tail_to q chunk buf).1 j (disk s) (dev q) (lba q + (tail_to q chunk buf).1 / SECTOR + j)) as [L G]; [lia..|].
    cbn [reader_ok]. assert (Et : ∀ b, length b = length buf → tail_to q chunk b = tail_to q chunk buf) by (intros b Hb'; unfold tail_to; by rewrite Hb').
    rewrite L, (Et _ L). split_and!; [done|done| |].
    + intros o Ho Hp. rewrite splice_sector_out by lia. apply Hu; lia.
    + intros j' o Hin Ho. rewrite G by done. destruct (Z.eqb_spec j' j) as [->|Hne].
      * do 2 f_equal. pose proof (Z.div_mod (tail_to q chunk buf).1 SECTOR ltac:(done)). lia.
      * apply Hg; [|done]. by apply elem_of_cons in Hin as [->|].
  - destruct Hr as (->&Hl&Hu&Hg). destruct (in_request _ j) eqn:Ej; [|done]. apply in_request_bound in Ej as [Hj Hb]. intros [= _ <-].
    destruct (splice_sector data 0 j (disk s) (dev q) (chunk * CHUNK_SECTORS + j)) as [L G]; [lia..|]. rewrite Z.add_0_l in L, G.
    split_and!; [done..|]. intros j' o Hin Ho Hp. specialize (G j' o Ho). rewrite Z.add_0_l in G. rewrite G. destruct (Z.eqb_spec j' j) as [->|Hne].
    + do 2 f_equal. unfold CHUNK_SECTORS, CHUNK. rewrite HS. change (4096 / 512) with 8. lia.
    + apply Hg; [|done..]. by apply elem_of_cons in Hin as [->|].
Qed.

Lemma reader_complete t o : thread_ok s t → reader_ok q len s t → complete t = Some o → reader_ok q len s (default Panicked o).
Proof.
  intros Hok Hr. assert (HS : SECTOR = 512) by done. assert (HK : CHUNK = 4096) by done. destruct t; try done; cbn [complete].
  - destruct Hr as (->&Hl&Hu&Hg). destruct Hok as [R1 R2]. destruct (tail_bounds _ _ _ R1 R2) as (T1&T2&T3&T4&T5&T6).
    destruct (all_moved _ got) eqn:Em; [|done]. intros [= <-]. cbn [from_option id reader_ok]. split_and!; [done..|]. intros o Ho Hp.
    destruct (Z.ltb_spec (lba q * SECTOR + o) (chunk * CHUNK)); [apply Hu; lia|].
    assert (Hin : (lba q * SECTOR + o) / CHUNK = chunk) by (symmetry; apply (Z.div_unique_pos _ _ _ (lba q * SECTOR + o - chunk * CHUNK)); lia).
    apply T6 in Hin; [|lia]. set (to := tail_to q chunk buf) in *. destruct (sector_place (o - to.1) ltac:(lia)) as [Ep Hs].
    assert (Hm : (to.2 - to.1) mod SECTOR = 0) by (rewrite Zminus_mod, T3, T4; done).
    pose proof (Hg _ _ (all_moved_in _ _ (o - to.1) Em ltac:(lia) Hm) Hs) as Hv.
    replace (to.1 + (o - to.1) / SECTOR * SECTOR + (o - to.1) mod SECTOR) with o in Hv by lia. rewrite Hv. do 2 f_equal. lia.
  - destruct Hr as (->&Hl&Hu&Hg). destruct Hok as (R1&R2&R3&R4&_). destruct (all_moved _ got) eqn:Em; [|done].
    destruct (copy_run_ok (Z.to_nat (end_ - chunk)) chunk (lba q) data buf) as (buf'&->&L&Hz); [done|lia..|]. cbn [mbind option_bind].
    intros [= <-]. cbn [from_option id reader_ok]. split_and!; [done|lia|]. intros o Ho Hp. rewrite Hz by lia.
    replace (chunk + Z.of_nat (Z.to_nat (end_ - chunk))) with end_ by lia. rewrite (proj2 (Z.ltb_lt _ _)) by lia. rewrite andb_true_r.
    destruct (Z.leb_spec (chunk * CHUNK) (lba q * SECTOR + o)); [|apply Hu; lia]. set (p := lba q * SECTOR + o) in *.
    destruct (sector_place (p - chunk * CHUNK) ltac:(lia)) as [Ep Hs].
    assert (Hm : zlen data mod SECTOR = 0) by (rewrite R4, HK, HS; clear; zdiv).
    pose proof (Hg _ _ (all_moved_in _ _ (p - chunk * CHUNK) Em ltac:(lia) Hm) Hs) as Hv. rewrite Ep in Hv. rewrite Hv; [do 2 f_equal; lia|].
    unfold in_range. lia.
Qed.
End reader.

Lemma move_threads s t j s' t' : move s t j = Some (s', t') → threads s' = threads s.
Proof. destruct t; try done; cbn [move]; (destruct (in_request _ _); [|done]); by intros [= <- _]. Qed.

(** Every step keeps a read right, as long as no write touches it. *)
Lemma reader_step cap q len s l s' i t : Inv s → writes (cache s) < U64_MAX → quiet q len s → threads s !! i = Some t →
  reader_ok q len s t → step cap s l = Some s' → ∃ t', threads s' !! i = Some t' ∧ reader_ok q len s' t'.
Proof.
  intros HI Hw Hq Ht Hr E. assert (Hd : ∀ p, in_range (lba q) len p → disk s' (dev q) p = disk s (dev q) p).
  { intros p Hin. destruct (step_disk cap s l s' (dev q) p E) as [H|H]; [done|]. by destruct (Hq p Hin). }
  cut (∃ t', threads s' !! i = Some t' ∧ reader_ok q len s t').
  { intros (t'&Ht'&Hr'). exists t'. split; [done|]. by apply (reader_ok_mono q len s). }
  pose proof (inv_threads _ HI _ _ Ht) as Hok. destruct (decide (subject l = Some i)) as [Hs|Hs].
  2:{ exists t. by rewrite (step_other cap s l s' i E Hs). }
  assert (Hset : ∀ s1 t1, threads s1 = threads s → reader_ok q len s t1 → ∃ t', threads (set_thread s1 i t1) !! i = Some t' ∧ reader_ok q len s t').
  { intros s1 t1 E1 Hr1. exists t1. cbn. by rewrite E1, list_lookup_insert_eq by (by apply lookup_lt_Some in Ht). }
  destruct l as [j o|j|j f|j k|j|j|d|]; try done; injection Hs as ->; cbn [step] in E; rewrite Ht in E; cbn [mbind option_bind] in E.
  - by destruct t.
  - destruct (is_locked t) eqn:El; [|done]. destruct (inv_locked cap s i t HI Hw Ht El) as (s1&t1&E1&_). rewrite E1 in E. injection E as <-.
    apply Hset; [by apply locked_frame in E1 as [_ ?]|]. by apply (reader_locked q len s HI Hq cap t s1 t1).
  - destruct t; try done. destruct (_ || _); [done|]. injection E as <-. by apply (Hset s (Put q0 end_ w buf k data (Some f))).
  - destruct (move s t k) as [[s1 t1]|] eqn:Em; [|done]. injection E as <-. apply Hset; [by apply move_threads in Em|].
    by apply (reader_move q len s t k s1 t1).
  - destruct (complete t) as [o|] eqn:Ec; [|done]. injection E as <-. apply Hset; [done|]. by apply (reader_complete q len s t).
  - destruct (fault t) as [t1|] eqn:Ef; [|done]. injection E as <-. apply Hset; [done|].
    destruct t; try done; injection Ef as <-; by destruct Hr as (->&_).
Qed.

(** ** Runs *)

(** Through a run, no write in progress overlaps the request. *)
Fixpoint quiet_run (cap : Z) (q : Req) (len : Z) (s : Sys) (ls : list Label) : bool :=
  forallb (λ t, negb (overlaps t (dev q) (lba q) len)) (threads s) &&
  match ls with
  | [] => true
  | l :: ls => match step cap s l with Some s' => quiet_run cap q len s' ls | None => true end
  end.

Lemma quiet_run_quiet cap q len s ls : quiet_run cap q len s ls = true → quiet q len s.
Proof.
  intros H p Hp (i&t&Ht&Hc). assert (Hall : forallb (λ t, negb (overlaps t (dev q) (lba q) len)) (threads s) = true).
  { destruct ls; cbn [quiet_run] in H; by apply andb_true_iff in H as [? _]. }
  rewrite forallb_forall in Hall. apply list_elem_of_lookup_2, list_elem_of_In, Hall, negb_true_iff in Ht. unfold in_range in Hp.
  destruct t; try done; destruct Hc as [<- Hc]; unfold in_range in Hc; cbn [overlaps] in Ht;
    rewrite Z.eqb_refl, !(proj2 (Z.ltb_lt _ _)) in Ht by lia; done.
Qed.

Lemma run_reader cap q len s ls s' i t : Inv s → writes (cache s) + zlen ls <= U64_MAX → allowed_run cap s ls = true →
  quiet_run cap q len s ls = true → threads s !! i = Some t → reader_ok q len s t → run cap s ls = Some s' →
  ∃ t', threads s' !! i = Some t' ∧ reader_ok q len s' t'.
Proof.
  revert s t. induction ls as [|l ls IH]; intros s t HI Hw Ha Hq Ht Hr E; cbn [run] in E.
  { injection E as <-. by exists t. }
  apply quiet_run_quiet in Hq as Hq0. cbn [allowed_run quiet_run length] in *. apply andb_true_iff in Ha as [Ha1 Ha2], Hq as [_ Hq2].
  destruct (step cap s l) as [s1|] eqn:E1; [|done]. cbn [mbind option_bind] in E. pose proof (step_writes _ _ _ _ E1).
  destruct (reader_step cap q len s l s1 i t) as (t1&Ht1&Hr1); [done|lia|done..|].
  apply (IH s1 t1); try done; [|lia]. eapply step_inv; [done| |done..]. lia.
Qed.

Lemma allowed_run_app cap s ls ls' s' : run cap s ls = Some s' → allowed_run cap s (ls ++ ls') = true →
  allowed_run cap s ls = true ∧ allowed_run cap s' ls' = true.
Proof.
  revert s. induction ls as [|l ls IH]; intros s; cbn [run app allowed_run]; [intros [= <-]; done|].
  destruct (step cap s l) as [s1|]; [|done]. cbn [mbind option_bind]. intros E [Ha Hr]%andb_true_iff. rewrite Ha. by apply IH.
Qed.

Lemma run_writes cap s ls s' : run cap s ls = Some s' → writes (cache s') <= writes (cache s) + zlen ls.
Proof.
  revert s. induction ls as [|l ls IH]; intros s E; cbn [run] in E; [injection E as <-; lia|].
  destruct (step cap s l) as [s1|] eqn:E1; [|done]. cbn [mbind option_bind] in E. apply step_writes in E1. apply IH in E. cbn [length]. lia.
Qed.

Lemma boot_run_inv cap dk n ls s : allowed_run cap (boot dk n) ls = true → zlen ls <= U64_MAX → run cap (boot dk n) ls = Some s → Inv s.
Proof.
  intros Ha Hl. apply cache_run_inv; [apply cache_boot_inv| |done]. change (writes (cache (boot dk n))) with 0. lia.
Qed.

Lemma start_reader q buf s : addressable (lba q) (zlen buf) = true → reader_ok q (zlen buf) s (start (Read q buf)).
Proof.
  intros Hq. cbn [start]. destruct (zlen buf mod SECTOR =? 0) eqn:E1; cbn [negb]; [|done].
  destruct (zlen buf =? 0) eqn:E2; [|pose proof (start_request buf E1 E2 _ Hq) as Hr; rewrite (request_end _ _ Hr)];
    cbn [reader_ok]; (split; [done|split; [done|]]); intros o Ho.
  - bool_hyps. lia.
  - destruct (chunk_bounds _ _ Hr) as (H1&_&_). lia.
Qed.

(** C7: whatever calls read and write disks through the cache at once, in
    any order their critical sections and the device's sectors come, with
    frames taken back from the cache at any moment: no call panics, every
    byte the cache has is the disk's unless it is being written, and the
    frames the cache took are those of its entries and its calls, none held
    twice. Requests must end within 64 bits; the writes in progress must not
    overlap and must succeed. *)
Theorem cache_coherent cap dk n ls s : allowed_run cap (boot dk n) ls = true → zlen ls <= U64_MAX → run cap (boot dk n) ls = Some s →
  (∀ i, threads s !! i ≠ Some Panicked) ∧
  (∀ d p v, cached (cache s) (mem s) d p = Some v → (∃ i t, threads s !! i = Some t ∧ covers t d p) ∨ disk s d p = v) ∧
  taken s = list_to_set (owned s) ∧ NoDup (owned s).
Proof.
  intros Ha Hl Hr. assert (HI : Inv s) by (by eapply boot_run_inv). split_and!.
  - intros i Hi. by apply (inv_threads _ HI) in Hi.
  - intros d p v Hc. apply (inv_coherent _ HI) in Hc as [H|H]; [by right|by left].
  - apply HI.
  - apply HI.
Qed.

(** C8: in any run from boot in which no device write fails and no two writes
    overlap, a read that no write in progress overlaps while it runs returns
    the bytes of the disk, whichever chunks the cache has, gains and loses
    meanwhile, and whatever else is read and written, in the same chunks
    too. *)
Theorem reads_see_disk cap dk n ls1 s1 i q buf0 ls2 s2 buf : run cap (boot dk n) ls1 = Some s1 →
  run cap s1 (Start i (Read q buf0) :: ls2) = Some s2 →
  allowed_run cap (boot dk n) (ls1 ++ Start i (Read q buf0) :: ls2) = true → zlen (ls1 ++ Start i (Read q buf0) :: ls2) <= U64_MAX →
  quiet_run cap q (zlen buf0) s1 (Start i (Read q buf0) :: ls2) = true → threads s2 !! i = Some (ReadDone q (Some buf)) →
  buf = (λ o, disk s2 (dev q) (lba q * SECTOR + o)) <$> seqZ 0 (zlen buf0).
Proof.
  intros E1 E2 Ha Hl Hq Ht. destruct (allowed_run_app _ _ _ _ _ E1 Ha) as [Ha1 Ha2]. rewrite length_app in Hl. cbn [length] in Hl.
  assert (HI1 : Inv s1) by (eapply boot_run_inv; [done|lia|done]).
  pose proof (run_writes _ _ _ _ E1) as Hw1. change (writes (cache (boot dk n))) with 0 in Hw1. cbn [run] in E2.
  cbn [quiet_run] in Hq. apply andb_true_iff in Hq as [_ Hq]. cbn [allowed_run] in Ha2. apply andb_true_iff in Ha2 as [Ha2 Ha3].
  destruct (step cap s1 (Start i (Read q buf0))) as [s|] eqn:E; [|done]. cbn [mbind option_bind] in E2. pose proof (step_writes _ _ _ _ E) as Hw.
  assert (HI : Inv s) by (eapply step_inv; [done| |done..]; lia). cbn [step] in E.
  destruct (threads s1 !! i) as [[]|] eqn:Ei; try done. injection E as <-.
  destruct (run_reader cap q (zlen buf0) (set_thread s1 i (start (Read q buf0))) ls2 s2 i (start (Read q buf0))) as (t'&Ht'&Hr); [done|change (writes (cache s1) + zlen ls2 <= U64_MAX); lia|done|done| | |done|].
  - cbn. apply list_lookup_insert_eq. by apply lookup_lt_Some in Ei.
  - by apply start_reader.
  - rewrite Ht in Ht'. injection Ht' as <-. destruct Hr as (_&Hlen&Hz). apply list_eq. intros k. rewrite list_lookup_fmap.
    destruct (decide (Z.of_nat k < zlen buf0)) as [Hk|Hk].
    + specialize (Hz (Z.of_nat k) ltac:(lia)). rewrite zget_lookup, Nat2Z.id in Hz by lia. rewrite Hz. by rewrite lookup_seqZ_lt by lia.
    + rewrite lookup_seqZ_ge by lia. apply lookup_ge_None_2. lia.
Qed.

(** ** Runs of a few calls *)

(** Reads and writes of a sector of a disk of two chunks. *)
Definition ex_req (n : Z) : Req := {| dev := 0; lba := n; sectors := 16 |}.
Definition ex_read (i : nat) (n : Z) : Label := Start i (Read (ex_req n) (replicate 512 0)).
Definition ex_write (i : nat) (n v : Z) : Label := Start i (Write 0 n (replicate 512 v)).

(** A read that misses, from its lookup to the device's last sector, and
    from there to its end. *)
Definition ex_miss (i : nat) : list Label := [Locked i; Locked i; Locked i] ++ (Sector i <$> seqZ 0 8).
Definition ex_keep (i : nat) (f : Z) : list Label := [Complete i; Locked i; Alloc i f; Locked i; Locked i; Locked i].

(** Sector 1 is written while sector 0, of the same chunk, is read. *)
Definition ex_run : list Label :=
  ex_write 1 1 7 :: ex_read 0 0 :: ex_miss 0 ++ [Sector 1 0; Complete 1] ++ ex_keep 0 100 ++ [Locked 1; ex_read 2 1; Locked 2; Locked 2].

Definition ex_disk : Z → Z → Z := λ _ p, if p <? 512 then 5 else 6.

Lemma cache_coherent_witness : ∃ s, run 4 (boot ex_disk 3) ex_run = Some s ∧
  threads s !! 2%nat = Some (ReadDone (ex_req 1) (Some (replicate 512 7))) ∧ taken s = list_to_set (owned s).
Proof.
  destruct (run 4 (boot ex_disk 3) ex_run) as [s|] eqn:E; [|by vm_compute in E]. exists s. split; [done|].
  assert (Hx : (λ s, threads s !! 2%nat) <$> run 4 (boot ex_disk 3) ex_run = Some (Some (ReadDone (ex_req 1) (Some (replicate 512 7)))))
    by (vm_compute; reflexivity).
  rewrite E in Hx. injection Hx as Hx. split; [done|].
  refine (proj1 (proj2 (proj2 (cache_coherent 4 ex_disk 3 ex_run s _ _ E)))); vm_compute; [reflexivity|congruence].
Defined.

Lemma reads_see_disk_witness : ∃ s buf, run 4 (boot ex_disk 3) ex_run = Some s ∧ threads s !! 0%nat = Some (ReadDone (ex_req 0) (Some buf)) ∧
  buf = (λ o, disk s 0 (0 * SECTOR + o)) <$> seqZ 0 512.
Proof.
  destruct (run 4 (boot ex_disk 3) [ex_write 1 1 7]) as [s1|] eqn:E1; [|by vm_compute in E1].
  destruct (run 4 s1 (tail ex_run)) as [s2|] eqn:E2.
  2:{ assert (Hx : (s ← run 4 (boot ex_disk 3) [ex_write 1 1 7]; run 4 s (tail ex_run)) ≠ None) by (by vm_compute). by rewrite E1 in Hx. }
  assert (E : run 4 (boot ex_disk 3) ex_run = Some s2).
  { rewrite <- E2. change (run 4 (boot ex_disk 3) ex_run) with (s ← run 4 (boot ex_disk 3) [ex_write 1 1 7]; run 4 s (tail ex_run)). by rewrite E1. }
  assert (Hx : (λ s, threads s !! 0%nat) <$> run 4 (boot ex_disk 3) ex_run = Some (Some (ReadDone (ex_req 0) (Some (replicate 512 5)))))
    by (vm_compute; reflexivity).
  rewrite E in Hx. injection Hx as Hx. exists s2, (replicate 512 5). split; [done|]. split; [done|].
  refine (reads_see_disk 4 ex_disk 3 [ex_write 1 1 7] s1 0%nat (ex_req 0) (replicate 512 0) (drop 2 ex_run) s2 (replicate 512 5) E1 E2 _ _ _ Hx).
  - vm_compute. reflexivity.
  - vm_compute. congruence.
  - assert (Hq : (λ s, quiet_run 4 (ex_req 0) (zlen (replicate 512 0)) s (ex_read 0 0 :: drop 2 ex_run)) <$> run 4 (boot ex_disk 3) [ex_write 1 1 7] =
      Some true) by (vm_compute; reflexivity). rewrite E1 in Hq. by injection Hq.
Defined.

(** Sector 0 is kept, then a write of it fails, then it is read. *)
Definition failed_run : list Label :=
  ex_read 0 0 :: ex_miss 0 ++ ex_keep 0 100 ++ [ex_write 1 0 7; Fault 1; Locked 1; ex_read 2 0; Locked 2; Locked 2].

(** A write the device refused stays in the cache: the caller is told it
    failed, the disk has the old bytes, and the next read, which does not
    ask the device, returns the new ones. *)
Theorem failed_write_stays_cached :
  ∃ s, run 4 (boot (λ _ _, 5) 3) failed_run = Some s ∧ threads s !! 1%nat = Some (WriteDone false) ∧
    threads s !! 2%nat = Some (ReadDone (ex_req 0) (Some (replicate 512 7))) ∧ disk s 0 0 = 5.
Proof. eexists. split; [vm_compute; reflexivity|]. vm_compute. done. Qed.

(** Sector 0 is kept, then written by two calls: the second's bytes are last
    on the disk, the first's last in the cache. *)
Definition overlapping_run : list Label :=
  ex_read 0 0 :: ex_miss 0 ++ ex_keep 0 100 ++
  [ex_write 1 0 7; ex_write 2 0 8; Sector 1 0; Complete 1; Sector 2 0; Complete 2; Locked 2; Locked 1; ex_read 3 0; Locked 3; Locked 3].

(** Two writes of one sector at once may reach the cache in another
    order than the disk: both succeed, the disk has the second's bytes, and
    reads return the first's from then on. *)
Theorem overlapping_writes_diverge :
  ∃ s, run 4 (boot (λ _ _, 5) 4) overlapping_run = Some s ∧ threads s !! 1%nat = Some (WriteDone true) ∧ threads s !! 2%nat = Some (WriteDone true) ∧
    threads s !! 3%nat = Some (ReadDone (ex_req 0) (Some (replicate 512 7))) ∧ disk s 0 0 = 8.
Proof. eexists. split; [vm_compute; reflexivity|]. vm_compute. done. Qed.
