(* ===== verification/Gpt.v ===== *)
(** * The partition table: what the image builder writes and the kernel reads

    [kernel/src/blk/gpt.rs] reads the GUID partition table of a disk;
    [src/limine_gpt.rs] and [write_gpt] of [src/limine_disk.rs] write the one
    of the boot disk. The kernel's reads go through [blk::read], here a
    function [rd] from a sector and a length to the bytes, or a failure. *)

From S2P Require Import Prelude.
From stdpp Require Import list.

Open Scope Z_scope.

Definition SECTOR : Z := 512.
Definition LABEL_MAX : Z := 36.
Definition MAX_ARRAY : Z := 256 * 1024.

(** ** CRC32, as the kernel and as the builder compute it *)

Definition POLY : Z := 0xEDB88320.

(** [(crc >> 1) ^ (POLY & (crc & 1).wrapping_neg())] *)
Definition crc_bit (crc : Z) : Z := Z.lxor (Z.shiftr crc 1) (Z.land POLY ((- Z.land crc 1) mod 2 ^ 32)).

Definition crc_byte (crc b : Z) : Z := Nat.iter 8 crc_bit (Z.lxor crc b).

Definition crc32 (data : list Z) : Z := Z.lxor U32_MAX (foldl crc_byte U32_MAX data).

Definition host_bit (crc : Z) : Z :=
  if negb (Z.land crc 1 =? 0) then Z.lxor (Z.shiftr crc 1) POLY else Z.shiftr crc 1.

Definition host_byte (crc b : Z) : Z := Nat.iter 8 host_bit (Z.lxor crc b).

Definition host_crc32 (data : list Z) : Z := Z.lxor U32_MAX (foldl host_byte U32_MAX data).

(** ** The kernel's reader. An outer [None] is a panic. *)

Record Entry : Set := { number : Z; first : Z; last : Z; type_guid : list Z; uuid : list Z; label : list Z }.

Record Header : Set := { first_usable : Z; last_usable : Z; entries_lba : Z; h_entries : Z; entry_size : Z; entries_crc : Z }.

Definition u32_at (b : list Z) (at_ : Z) : option Z := s ← slice b at_ (at_ + 4); Some (le_val s).
Definition u64_at (b : list Z) (at_ : Z) : option Z := s ← slice b at_ (at_ + 8); Some (le_val s).

(** [(0..4).any(|i| mbr[446 + 16 * i + 4] == 0xEE)] *)
Fixpoint any_protective (n : nat) (i : Z) (mbr : list Z) : option bool :=
  match n with
  | O => Some false
  | S n => b ← zget mbr (446 + 16 * i + 4); if b =? 0xEE then Some true else any_protective n (i + 1) mbr
  end.

Definition protective (mbr : list Z) : option bool :=
  s ← slice mbr 510 512;
  if bool_decide (s = [0x55; 0xAA]) then any_protective 4 0 mbr else Some false.

(** [b"EFI PART"] *)
Definition SIGNATURE : list Z := [69; 70; 73; 32; 80; 65; 82; 84].

Section read.
Variable rd : Z → Z → option (list Z).

Definition header (lba sectors : Z) : option (option Header) :=
  match rd lba SECTOR with
  | None => Some None
  | Some sec =>
      size ← u32_at sec 12;
      sig ← slice sec 0 8;
      if negb (bool_decide (sig = SIGNATURE)) || negb ((92 <=? size) && (size <=? SECTOR)) then Some None
      else
        crc ← u32_at sec 16;
        sec ← copy_slice sec 16 20 (replicate 4 0);
        h ← slice sec 0 size;
        own ← u64_at sec 24;
        if negb (crc32 h =? crc) || negb (own =? lba) then Some None
        else
          fu ← u64_at sec 40; lu ← u64_at sec 48; el ← u64_at sec 72;
          en ← u32_at sec 80; es ← u32_at sec 84; ec ← u32_at sec 88;
          bytes ← fits 64 (en * es);
          n ← div_ceil bytes SECTOR;
          match add64 el n with
          | None => Some None
          | Some array_end =>
              let ok := (fu <=? lu) && (lu <? sectors) && (128 <=? es) && (es mod 8 =? 0) && (bytes <=? MAX_ARRAY) &&
                        (2 <=? el) && (array_end <=? sectors) in
              Some (if ok then Some {| first_usable := fu; last_usable := lu; entries_lba := el; h_entries := en; entry_size := es;
                                       entries_crc := ec |} else None)
          end
  end.

(** [u16::from_le_bytes([e[56 + 2 * k], e[57 + 2 * k]])] for [n] units from [k] *)
Fixpoint label_from (n : nat) (k : Z) (e : list Z) : option (list Z) :=
  match n with
  | O => Some []
  | S n => a ← zget e (56 + 2 * k); b ← zget e (57 + 2 * k); l ← label_from n (k + 1) e; Some (le_val [a; b] :: l)
  end.

(** Entry [i] of the array; the inner [None] is one that is skipped. *)
Definition entry_at (h : Header) (i : Z) (e : list Z) : option (option Entry) :=
  ty ← slice e 0 16;
  if bool_decide (ty = replicate 16 0) then Some None
  else
    f ← u64_at e 32; l ← u64_at e 40;
    if (l <? f) || (f <? first_usable h) || (last_usable h <? l) then Some None
    else
      lab ← label_from (Z.to_nat LABEL_MAX) 0 e;
      num ← add32 i 1;
      id ← slice e 16 32;
      Some (Some {| number := num; first := f; last := l; type_guid := ty; uuid := id; label := lab |}).

(** [array[..bytes].chunks(entry_size).enumerate()], [n] of them from [i] *)
Fixpoint entries_from (n : nat) (h : Header) (i : Z) (array : list Z) : option (list Entry) :=
  match n with
  | O => Some []
  | S n =>
      e ← slice array 0 (entry_size h);
      x ← entry_at h i e;
      rest ← entries_from n h (i + 1) (drop (Z.to_nat (entry_size h)) array);
      Some (match x with Some x => x :: rest | None => rest end)
  end.

Definition entries (h : Header) : option (option (list Entry)) :=
  bytes ← fits 64 (h_entries h * entry_size h);
  n ← div_ceil bytes SECTOR;
  match rd (entries_lba h) (n * SECTOR) with
  | None => Some None
  | Some array =>
      a ← slice array 0 bytes;
      if negb (crc32 a =? entries_crc h) then Some None
      else out ← entries_from (Z.to_nat (h_entries h)) h 0 a; Some (Some out)
  end.

(** The table of the header at [lba]. *)
Definition table_at (lba sectors : Z) : option (option (list Entry)) :=
  h ← header lba sectors;
  match h with None => Some None | Some h => entries h end.

Definition read (sectors : Z) : option (list Entry) :=
  if sectors <? 3 then Some []
  else match rd 0 SECTOR with
  | None => Some []
  | Some mbr =>
      p ← protective mbr;
      if negb p then Some []
      else
        t ← table_at 1 sectors;
        match t with
        | Some es => Some es
        | None => t ← table_at (sectors - 1) sectors; Some (default [] t)
        end
  end.
End read.

(** A disk whose bytes are at hand, through [blk::read]. *)
Definition disk_read (disk : list Z) (lba len : Z) : option (list Z) := slice disk (lba * SECTOR) (lba * SECTOR + len).

(** ** The builder *)

Definition put (dst : list Z) (at_ : Z) (src : list Z) : option (list Z) := copy_slice dst at_ (at_ + zlen src) src.

Definition write_protective_mbr (disk : list Z) (total_lba : Z) : option (list Z) :=
  d ← put disk 510 [0x55; 0xAA];
  d ← put d 446 [0; 0; 2; 0; 0xEE; 0xFF; 0xFF; 0xFF];
  d ← put d 454 (le_bytes 4 1);
  s ← usub total_lba 1;
  put d 458 (le_bytes 4 (Z.min s U32_MAX)).

(** [char::encode_utf16] *)
Definition utf16 (c : Z) : list Z :=
  if c <? 0x10000 then [c] else [0xD800 + Z.shiftr (c - 0x10000) 10; 0xDC00 + Z.land (c - 0x10000) 0x3FF].

(** The units of a name from unit [i] on. *)
Fixpoint write_units (units : list Z) (i : Z) (e : list Z) : option (list Z) :=
  match units with [] => Some e | c :: us => e ← put e (56 + i * 2) (le_bytes 2 c); write_units us (i + 1) e end.

Record GptPart : Set := {
  p_entry : Z; p_type : list Z; p_uuid : list Z; p_first : Z; p_last : Z; p_attrs : Z; p_name : list Z }.

Definition write_gpt_entry (e : list Z) (p : GptPart) : option (list Z) :=
  e ← put e 0 (p_type p); e ← put e 16 (p_uuid p); e ← put e 32 (le_bytes 8 (p_first p)); e ← put e 40 (le_bytes 8 (p_last p));
  e ← put e 48 (le_bytes 8 (p_attrs p));
  write_units (take (Z.to_nat LABEL_MAX) (p_name p ≫= utf16)) 0 e.

Definition DISK_GUID : list Z := [0x73; 0x6F; 0x79; 0x6D; 0; 0; 0; 0x40; 0x80; 0; 0; 0; 0; 0; 0; 1].

Definition gpt_header (this_lba alt_lba entries_lba_ entries_crc_ total_lba : Z) : option (list Z) :=
  h ← put (replicate 92 0) 0 SIGNATURE; h ← put h 8 (le_bytes 4 0x10000); h ← put h 12 (le_bytes 4 92);
  h ← put h 24 (le_bytes 8 this_lba); h ← put h 32 (le_bytes 8 alt_lba); h ← put h 40 (le_bytes 8 34);
  lu ← usub total_lba 34;
  h ← put h 48 (le_bytes 8 lu); h ← put h 56 DISK_GUID; h ← put h 72 (le_bytes 8 entries_lba_);
  h ← put h 80 (le_bytes 4 128); h ← put h 84 (le_bytes 4 128); h ← put h 88 (le_bytes 4 entries_crc_);
  put h 16 (le_bytes 4 (host_crc32 h)).

(** The array of entries, part by part. *)
Fixpoint write_entries (parts : list GptPart) (array : list Z) : option (list Z) :=
  match parts with
  | [] => Some array
  | p :: parts =>
      e ← slice array (p_entry p * 128) ((p_entry p + 1) * 128);
      e ← write_gpt_entry e p;
      array ← put array (p_entry p * 128) e;
      write_entries parts array
  end.

(** The first 34 sectors and the last 33, written to the file, which has
    [total_lba] sectors. *)
Definition write_gpt (disk : list Z) (total_lba : Z) (parts : list GptPart) : option (list Z) :=
  es ← write_entries parts (replicate (128 * 128) 0);
  let crc := host_crc32 es in
  backup_lba ← usub total_lba 1;
  head ← write_protective_mbr (replicate (34 * 512) 0) total_lba;
  backup_entries ← usub backup_lba 32;
  h ← gpt_header 1 backup_lba 2 crc total_lba;
  head ← put head SECTOR h;
  head ← put head (2 * SECTOR) es;
  tail ← put (replicate (33 * 512) 0) 0 es;
  h ← gpt_header backup_lba 1 backup_entries crc total_lba;
  tail ← put tail (32 * SECTOR) h;
  d ← put disk 0 head;
  put d (backup_entries * SECTOR) tail.
