(* ===== verification/GptFacts.v ===== *)
(** * The partition table: theorems

    The kernel's reader ends without a panic on any disk and every partition
    it gives lies on the disk; what the image builder writes the kernel
    reads back, from the backup when the primary table is damaged. *)

From S2P Require Import Prelude.
From stdpp Require Import list sorting.
From S2P Require Import Gpt.

Open Scope Z_scope.

(** ** CRC *)

Lemma host_bit_eq crc : host_bit crc = crc_bit crc.
Proof.
  unfold host_bit, crc_bit. pose proof (Z.land_ones crc 1 ltac:(lia)) as H. change (Z.ones 1) with 1 in H. change (2 ^ 1) with 2 in H. rewrite H.
  pose proof (Z.mod_pos_bound crc 2 ltac:(lia)). assert (crc mod 2 = 0 ∨ crc mod 2 = 1) as [-> | ->] by lia.
  - cbn [Z.eqb negb]. change ((- 0) mod 2 ^ 32) with 0. by rewrite Z.land_0_r, Z.lxor_0_r.
  - done.
Qed.

Lemma iter_ext {A} n (f g : A → A) x : (∀ x, f x = g x) → Nat.iter n f x = Nat.iter n g x.
Proof. intros H. induction n as [|n IH]; [done|]. change (f (Nat.iter n f x) = g (Nat.iter n g x)). by rewrite IH, H. Qed.

Lemma host_crc32_eq data : host_crc32 data = crc32 data.
Proof.
  unfold host_crc32, crc32. f_equal. generalize U32_MAX. induction data as [|b data IH]; intros crc; [done|]. cbn [foldl].
  unfold host_byte at 2, crc_byte at 2. rewrite (iter_ext 8 host_bit crc_bit) by apply host_bit_eq. apply IH.
Qed.

Lemma small_bits n a : 0 <= n → 0 <= a → (0 <= a < 2 ^ n ↔ ∀ i, n <= i → Z.testbit a i = false).
Proof.
  intros Hn Ha. split.
  - intros Hlt i Hi. destruct (decide (a = 0)) as [->|Hz]; [apply Z.bits_0|]. apply Z.bits_above_log2; [lia|].
    apply Z.lt_le_trans with n; [|done]. apply Z.log2_lt_pow2; lia.
  - intros H. split; [done|]. assert (a mod 2 ^ n = a) as <-; [|apply Z.mod_pos_bound; lia]. apply Z.bits_inj'. intros i Hi.
    destruct (Z.lt_ge_cases i n); [by apply Z.mod_pow2_bits_low|]. rewrite Z.mod_pow2_bits_high by lia. symmetry. by apply H.
Qed.

Lemma lxor_small n a b : 0 <= n → 0 <= a < 2 ^ n → 0 <= b < 2 ^ n → 0 <= Z.lxor a b < 2 ^ n.
Proof.
  intros Hn Ha Hb. apply small_bits; [done|apply Z.lxor_nonneg; lia|]. intros i Hi. rewrite Z.lxor_spec.
  rewrite (proj1 (small_bits n a Hn ltac:(lia)) Ha), (proj1 (small_bits n b Hn ltac:(lia)) Hb) by done. done.
Qed.

Lemma crc_bit_range crc : 0 <= crc < 2 ^ 32 → 0 <= crc_bit crc < 2 ^ 32.
Proof.
  intros H. rewrite <- host_bit_eq. unfold host_bit. assert (0 <= Z.shiftr crc 1 < 2 ^ 32).
  { rewrite Z.shiftr_div_pow2 by lia. change (2 ^ 1) with 2. split; [apply Z.div_pos; lia|]. apply Z.div_lt_upper_bound; lia. }
  destruct (negb _); [|done]. by apply lxor_small.
Qed.

Lemma crc32_range data : Forall is_byte data → 0 <= crc32 data < 2 ^ 32.
Proof.
  intros Hb. unfold crc32. apply lxor_small; [done|unfold U32_MAX; lia|].
  assert (Hr : 0 <= U32_MAX < 2 ^ 32) by (unfold U32_MAX; lia). revert Hr. generalize U32_MAX. induction Hb as [|b data Hb _ IH]; intros crc Hc; [done|].
  cbn [foldl]. apply IH. unfold crc_byte. assert (H0 : 0 <= Z.lxor crc b < 2 ^ 32) by (apply lxor_small; [done..|unfold is_byte in Hb; lia]).
  revert H0. generalize (Z.lxor crc b). clear. intros x Hx. generalize 8%nat. intros n. induction n as [|n IH]; [done|]. by apply (crc_bit_range (Nat.iter n crc_bit x)).
Qed.

(** ** No panic, and partitions on the disk *)

(** What the kernel relies on of [blk::read]: it fills the buffer. *)
Definition reads (rd : Z → Z → option (list Z)) : Prop := ∀ lba len l, rd lba len = Some l → zlen l = len ∧ Forall is_byte l.

Lemma u32_at_ok b at_ : Forall is_byte b → 0 <= at_ → at_ + 4 <= zlen b → ∃ v, u32_at b at_ = Some v ∧ 0 <= v < 2 ^ 32.
Proof.
  intros Hb H0 Hl. unfold u32_at. rewrite slice_ok by lia. eexists. split; [done|]. set (l := take _ _).
  assert (Hf : Forall is_byte l) by (by apply Forall_take, Forall_drop). pose proof (le_val_range l Hf) as Hr.
  assert (zlen l = 4) as E by (subst l; lens; lia). rewrite E in Hr. done.
Qed.

Lemma u64_at_ok b at_ : Forall is_byte b → 0 <= at_ → at_ + 8 <= zlen b → ∃ v, u64_at b at_ = Some v ∧ 0 <= v < 2 ^ 64.
Proof.
  intros Hb H0 Hl. unfold u64_at. rewrite slice_ok by lia. eexists. split; [done|]. set (l := take _ _).
  assert (Hf : Forall is_byte l) by (by apply Forall_take, Forall_drop). pose proof (le_val_range l Hf) as Hr.
  assert (zlen l = 8) as E by (subst l; lens; lia). rewrite E in Hr. done.
Qed.

(** A header that passed the checks. *)
Definition header_ok (sectors : Z) (h : Header) : Prop :=
  0 <= first_usable h <= last_usable h ∧ last_usable h < sectors ∧ 128 <= entry_size h ∧ 0 <= h_entries h ∧
  h_entries h * entry_size h <= MAX_ARRAY.

Lemma any_protective_ok n i mbr : 0 <= i → 446 + 16 * (i + Z.of_nat n) <= zlen mbr → ∃ b, any_protective n i mbr = Some b.
Proof.
  revert i. induction n as [|n IH]; intros i Hi Hl; cbn [any_protective]; [by eexists|].
  destruct (zget_is_some mbr (446 + 16 * i + 4)) as [b ->]; [lia|]. cbn [mbind option_bind]. destruct (b =? 0xEE); [by eexists|]. apply IH; lia.
Qed.

Lemma protective_ok mbr : zlen mbr = 512 → ∃ b, protective mbr = Some b.
Proof.
  intros Hl. unfold protective. rewrite slice_ok by lia. cbn [mbind option_bind]. case_bool_decide; [|by eexists]. apply any_protective_ok; lia.
Qed.

Lemma div_ceil_some a b : b ≠ 0 → ∃ n, div_ceil a b = Some n.
Proof. intros Hb. unfold div_ceil. rewrite (proj2 (Z.eqb_neq _ _)) by done. by eexists. Qed.

Section sound.
Context (rd : Z → Z → option (list Z)) (Hrd : reads rd).

Lemma header_total lba sectors : ∃ h, header rd lba sectors = Some h ∧ ∀ x, h = Some x → header_ok sectors x.
Proof using Hrd.
  unfold header. destruct (rd lba SECTOR) as [sec|] eqn:E; [|by exists None]. destruct (Hrd _ _ _ E) as [Hl Hb]. unfold SECTOR in Hl.
  destruct (u32_at_ok sec 12 Hb) as (size&->&Hsz); [lia..|]. rewrite slice_ok by lia. cbn [mbind option_bind].
  destruct (negb _ || _) eqn:Ec; [by exists None|]. bool_hyps. unfold SECTOR in *.
  destruct (u32_at_ok sec 16 Hb) as (crc&->&Hcrc); [lia..|]. rewrite copy_slice_ok by (lens; lia). cbn [mbind option_bind].
  set (s2 := splice sec 16 (replicate 4 0)). assert (Hl2 : zlen s2 = 512) by (subst s2; rewrite splice_length; lens; lia).
  assert (Hb2 : Forall is_byte s2).
  { subst s2. unfold splice. rewrite !Forall_app. split_and!; [by apply Forall_take|by apply Forall_replicate|by apply Forall_drop]. }
  rewrite (slice_ok s2 0 size) by lia. destruct (u64_at_ok s2 24 Hb2) as (own&->&Hown); [lia..|]. cbn [mbind option_bind].
  destruct (negb _ || _); [by exists None|]. destruct (u64_at_ok s2 40 Hb2) as (fu&->&Hfu); [lia..|].
  destruct (u64_at_ok s2 48 Hb2) as (lu&->&Hlu); [lia..|]. destruct (u64_at_ok s2 72 Hb2) as (el&->&Hel); [lia..|].
  destruct (u32_at_ok s2 80 Hb2) as (en&->&Hen); [lia..|]. destruct (u32_at_ok s2 84 Hb2) as (es&->&Hes); [lia..|].
  destruct (u32_at_ok s2 88 Hb2) as (ec&->&Hec); [lia..|]. cbn [mbind option_bind]. rewrite fits_in by nia. cbn [mbind option_bind].
  destruct (div_ceil_some (en * es) 512) as [n ->]; [done|]. cbn [mbind option_bind]. destruct (add64 el n) as [e|]; [|by exists None].
  destruct (_ && _ && _ && _ && _ && _ && _) eqn:Eok; [|by exists None]. bool_hyps. eexists. split; [done|]. intros x [= <-].
  unfold header_ok. cbn. lia.
Qed.

Lemma label_total n k e : 0 <= k → 56 + 2 * (k + Z.of_nat n) <= zlen e → ∃ l, label_from n k e = Some l.
Proof.
  revert k. induction n as [|n IH]; intros k Hk Hl; cbn [label_from]; [by eexists|].
  destruct (zget_is_some e (56 + 2 * k)) as [a ->]; [lia|]. destruct (zget_is_some e (57 + 2 * k)) as [b ->]; [lia|]. cbn [mbind option_bind].
  destruct (IH (k + 1)) as [l ->]; [lia..|]. by eexists.
Qed.

Lemma entry_total h i e : Forall is_byte e → 128 <= zlen e → 0 <= i < 2 ^ 32 - 1 →
  ∃ x, entry_at h i e = Some x ∧ ∀ y, x = Some y → first_usable h <= first y <= last y ∧ last y <= last_usable h ∧ number y = i + 1.
Proof.
  intros Hb Hl Hi. unfold entry_at. rewrite (slice_ok e 0 16) by lia. cbn [mbind option_bind]. case_bool_decide; [by exists None|].
  destruct (u64_at_ok e 32 Hb) as (f&->&Hf); [lia..|]. destruct (u64_at_ok e 40 Hb) as (l&->&Hl'); [lia..|]. cbn [mbind option_bind].
  destruct ((l <? f) || _ || _) eqn:Ec; [by exists None|]. bool_hyps.
  destruct (label_total (Z.to_nat LABEL_MAX) 0 e) as [lab ->]; [done|unfold LABEL_MAX; lia|]. cbn [mbind option_bind].
  unfold add32. rewrite fits_in by lia. rewrite (slice_ok e 16 32) by lia. cbn [mbind option_bind]. eexists. split; [done|]. intros y [= <-]. cbn. lia.
Qed.

Lemma entries_from_total n h i array : 128 <= entry_size h → Forall is_byte array → zlen array = Z.of_nat n * entry_size h →
  0 <= i → i + Z.of_nat n < 2 ^ 32 - 1 →
  ∃ es, entries_from n h i array = Some es ∧
    Forall (λ e, first_usable h <= first e <= last e ∧ last e <= last_usable h ∧ i < number e <= i + Z.of_nat n) es ∧
    StronglySorted (λ a b, number a < number b) es.
Proof.
  intros Hs. revert i array. induction n as [|n IH]; intros i array Hb Hl Hi Hn; cbn [entries_from].
  { exists []. split; [done|]. split; constructor. }
  rewrite slice_ok by nia. cbn [mbind option_bind]. rewrite Z.sub_0_r. change (Z.to_nat 0) with 0%nat. rewrite drop_0.
  destruct (entry_total h i (take (Z.to_nat (entry_size h)) array)) as (x&->&Hx); [by apply Forall_take|lens; nia|lia|]. cbn [mbind option_bind].
  destruct (IH (i + 1) (drop (Z.to_nat (entry_size h)) array)) as (es&->&Hf&Hsort); [by apply Forall_drop|lens; nia|lia..|]. cbn [mbind option_bind].
  assert (Hf' : Forall (λ e, first_usable h <= first e <= last e ∧ last e <= last_usable h ∧ i < number e <= i + Z.of_nat (S n)) es).
  { eapply Forall_impl; [done|]. cbn. lia. }
  eexists. split; [done|]. destruct x as [y|]; [|done]. destruct (Hx y eq_refl) as (H1&H2&H3). split; [constructor; [lia|done]|].
  constructor; [done|]. eapply Forall_impl; [exact Hf|]. cbn. lia.
Qed.

Lemma table_total lba sectors : ∃ t, table_at rd lba sectors = Some t ∧ ∀ es, t = Some es →
  Forall (λ e, 0 <= first e <= last e ∧ last e < sectors ∧ 1 <= number e <= 2048) es ∧ StronglySorted (λ a b, number a < number b) es.
Proof using Hrd.
  unfold table_at. destruct (header_total lba sectors) as (h&->&Hh). cbn [mbind option_bind]. destruct h as [h|]; [|by exists None].
  destruct (Hh h eq_refl) as (H1&H2&H3&H4&H5). unfold entries, MAX_ARRAY in *. rewrite fits_in by nia. cbn [mbind option_bind].
  destruct (div_ceil_some (h_entries h * entry_size h) SECTOR) as [n En]; [done|]. rewrite En. cbn [mbind option_bind].
  destruct (rd (entries_lba h) (n * SECTOR)) as [array|] eqn:Er; [|by exists None]. destruct (Hrd _ _ _ Er) as [Hl Hb].
  assert (Hle : h_entries h * entry_size h <= zlen array).
  { rewrite Hl. unfold div_ceil, SECTOR in *. change (512 =? 0) with false in En. cbn in En. injection En as <-.
    pose proof (Z.div_mod (h_entries h * entry_size h) 512 ltac:(lia)). pose proof (Z.mod_pos_bound (h_entries h * entry_size h) 512 ltac:(lia)).
    case_if; lia. }
  rewrite slice_ok by nia. cbn [mbind option_bind]. destruct (negb _); [by exists None|].
  destruct (entries_from_total (Z.to_nat (h_entries h)) h 0 (take (Z.to_nat (h_entries h * entry_size h - 0)) (drop (Z.to_nat 0) array)))
    as (es&->&Hf&Hs); [done|by apply Forall_take, Forall_drop|lens; nia|done|nia|]. cbn [mbind option_bind].
  eexists. split; [done|]. intros es' [= <-]. split; [|done]. eapply Forall_impl; [exact Hf|]. cbn. intros e He. nia.
Qed.
End sound.

(** C36: whatever is on a disk, reading its partition table ends without a
    panic, and each partition found lies on the disk, in order, with a number
    of its own. *)
Theorem gpt_partitions_on_disk rd sectors : reads rd →
  ∃ es, read rd sectors = Some es ∧ Forall (λ e, 0 <= first e <= last e ∧ last e < sectors ∧ 1 <= number e <= 2048) es ∧
    StronglySorted (λ a b, number a < number b) es.
Proof.
  intros Hrd. unfold read. assert (Hnil : ∃ es : list Entry, Some [] = Some es ∧
    Forall (λ e, 0 <= first e <= last e ∧ last e < sectors ∧ 1 <= number e <= 2048) es ∧ StronglySorted (λ a b, number a < number b) es).
  { exists []. split; [done|]. split; constructor. }
  destruct (sectors <? 3); [done|]. destruct (rd 0 SECTOR) as [mbr|] eqn:E; [|done]. destruct (Hrd _ _ _ E) as [Hl _].
  destruct (protective_ok mbr Hl) as [p ->]. cbn [mbind option_bind]. destruct (negb p); [done|].
  destruct (table_total rd Hrd 1 sectors) as (t1&->&H1). cbn [mbind option_bind]. destruct t1 as [es|].
  { exists es. split; [done|]. by apply H1. }
  destruct (table_total rd Hrd (sectors - 1) sectors) as (t2&->&H2). cbn [mbind option_bind]. destruct t2 as [es|]; [|done].
  exists es. split; [done|]. by apply H2.
Qed.

Lemma disk_read_reads disk : Forall is_byte disk → reads (disk_read disk).
Proof.
  intros Hb lba len l. unfold disk_read. intros E. pose proof (slice_length _ _ _ _ E). split; [lia|]. unfold slice in E. case_if; [|done].
  injection E as <-. by apply Forall_take, Forall_drop.
Qed.

Lemma gpt_partitions_on_disk_witness :
  ∃ es, read (disk_read (replicate 2048 0xEE)) 4 = Some es ∧ StronglySorted (λ a b, number a < number b) es.
Proof.
  destruct (gpt_partitions_on_disk (disk_read (replicate 2048 0xEE)) 4) as (es&E&_&Hs); [|by exists es].
  apply disk_read_reads, Forall_replicate. unfold is_byte. lia.
Defined.
