(* ===== verification/GptRound.v ===== *)
(** * The partition table: what is written is read

    The bytes the image builder writes, put together again from what the
    kernel's reader takes out of them. *)

From S2P Require Import Prelude.
From stdpp Require Import list sorting.
From S2P Require Import Gpt GptFacts.

Open Scope Z_scope.

(** ** The header *)

(** A header's bytes, [crc] in its checksum field. *)
Definition header_bytes (this_lba alt_lba el ecrc total crc : Z) : list Z :=
  SIGNATURE ++ le_bytes 4 0x10000 ++ le_bytes 4 92 ++ le_bytes 4 crc ++ replicate 4 0 ++ le_bytes 8 this_lba ++ le_bytes 8 alt_lba ++
  le_bytes 8 34 ++ le_bytes 8 (total - 34) ++ DISK_GUID ++ le_bytes 8 el ++ le_bytes 4 128 ++ le_bytes 4 128 ++ le_bytes 4 ecrc.

Lemma gpt_header_bytes this alt el ecrc total : 34 <= total →
  gpt_header this alt el ecrc total = Some (header_bytes this alt el ecrc total (crc32 (header_bytes this alt el ecrc total 0))).
Proof.
  intros Ht. unfold gpt_header, usub. rewrite (proj2 (Z.leb_le _ _)) by done. rewrite <- host_crc32_eq.
  cbv -[host_crc32 Z.modulo Z.div Z.sub]. reflexivity.
Qed.

Lemma header_bytes_length this alt el ecrc total crc : length (header_bytes this alt el ecrc total crc) = 92%nat.
Proof. reflexivity. Qed.

Lemma header_bytes_bytes this alt el ecrc total crc : Forall is_byte (header_bytes this alt el ecrc total crc).
Proof.
  unfold header_bytes. repeat (rewrite Forall_app; split); try apply le_bytes_are_bytes; by apply bytesb_bytes.
Qed.

(** The fields of a sector that starts with a header. *)
Lemma header_fields this alt el ecrc total crc pad : length pad = 420%nat →
  let sec := header_bytes this alt el ecrc total crc ++ pad in
  u32_at sec 12 = Some (le_val (le_bytes 4 92)) ∧ slice sec 0 8 = Some SIGNATURE ∧ u32_at sec 16 = Some (le_val (le_bytes 4 crc)) ∧
  copy_slice sec 16 20 (replicate 4 0) = Some (header_bytes this alt el ecrc total 0 ++ pad) ∧
  slice sec 0 92 = Some (header_bytes this alt el ecrc total crc) ∧ u64_at sec 24 = Some (le_val (le_bytes 8 this)) ∧
  u64_at sec 40 = Some (le_val (le_bytes 8 34)) ∧ u64_at sec 48 = Some (le_val (le_bytes 8 (total - 34))) ∧
  u64_at sec 72 = Some (le_val (le_bytes 8 el)) ∧ u32_at sec 80 = Some (le_val (le_bytes 4 128)) ∧ u32_at sec 84 = Some (le_val (le_bytes 4 128)) ∧
  u32_at sec 88 = Some (le_val (le_bytes 4 ecrc)).
Proof.
  intros Hp sec. assert (Hl : zlen sec = 512) by (subst sec; rewrite length_app, header_bytes_length, Hp; done).
  unfold u32_at, u64_at. split_and!; first [rewrite copy_slice_ok by (lens; lia)|rewrite slice_ok by lia]; reflexivity.
Qed.

(** A good header is read for what it says. *)
Lemma header_read rd this alt el ecrc total crc pad : length pad = 420%nat →
  rd this SECTOR = Some (header_bytes this alt el ecrc total crc ++ pad) → crc = crc32 (header_bytes this alt el ecrc total 0) →
  0 <= this < 2 ^ 64 → 68 <= total < 2 ^ 64 → 2 <= el → el + 32 <= total → 0 <= ecrc < 2 ^ 32 →
  header rd this total = Some (Some {| first_usable := 34; last_usable := total - 34; entries_lba := el; h_entries := 128; entry_size := 128;
                                       entries_crc := ecrc |}).
Proof.
  intros Hp Hrd Hcrc Hthis Ht Hel Hel2 Hec. unfold header. rewrite Hrd.
  destruct (header_fields this alt el ecrc total crc pad Hp) as (F1&F2&F3&F4&_).
  destruct (header_fields this alt el ecrc total 0 pad Hp) as (_&_&_&_&G1&G2&G3&G4&G5&G6&G7&G8).
  pose proof (crc32_range _ (header_bytes_bytes this alt el ecrc total 0)) as Hcr. rewrite <- Hcrc in Hcr.
  rewrite le_val_bytes in F1, F3, G2, G3, G4, G5, G6, G7, G8
    by (change (256 ^ Z.of_nat 4) with (2 ^ 32); change (256 ^ Z.of_nat 8) with (2 ^ 64); lia).
  rewrite F1, F2. cbn [mbind option_bind]. rewrite bool_decide_eq_true_2 by done. change ((92 <=? 92) && (92 <=? SECTOR)) with true. cbn [negb orb].
  rewrite F3, F4. cbn [mbind option_bind]. rewrite G1, G2. cbn [mbind option_bind]. rewrite <- Hcrc, !Z.eqb_refl. cbn [negb orb].
  rewrite G3, G4, G5, G6, G7, G8. cbn [mbind option_bind].
  change (fits 64 (128 * 128)) with (Some 16384). cbn [mbind option_bind]. change (div_ceil 16384 SECTOR) with (Some 32). cbn [mbind option_bind].
  rewrite add64_in by lia. rewrite (proj2 (Z.leb_le 34 _)), (proj2 (Z.ltb_lt _ total)), (proj2 (Z.leb_le 2 el)), (proj2 (Z.leb_le (el + 32) total)) by lia.
  done.
Qed.

(** ** An entry *)

Lemma put_at A X B src at_ : zlen A = at_ → length X = length src → put (A ++ X ++ B) at_ src = Some (A ++ src ++ B).
Proof.
  intros Ha Hx. unfold put. rewrite copy_slice_ok by (lens; lia). f_equal. unfold splice. subst at_. rewrite Nat2Z.id.
  rewrite take_app_length. f_equal. f_equal. rewrite app_assoc, drop_app_length'; [done|]. lens. lia.
Qed.

Definition units_bytes (us : list Z) : list Z := us ≫= le_bytes 2.

Lemma units_bytes_length us : length (units_bytes us) = (2 * length us)%nat.
Proof.
  induction us as [|u us IH]; [done|]. change (units_bytes (u :: us)) with (le_bytes 2 u ++ units_bytes us).
  rewrite length_app, le_bytes_length, IH. cbn [length]. lia.
Qed.

Lemma units_zero n : units_bytes (replicate n 0) = replicate (2 * n) 0.
Proof.
  induction n as [|n IH]; [done|]. cbn [replicate units_bytes mbind list_bind]. fold (units_bytes (replicate n 0)). rewrite IH.
  replace (2 * S n)%nat with (S (S (2 * n))) by lia. done.
Qed.

Lemma write_units_ok us n i A : zlen A = 56 + i * 2 → 0 <= i →
  write_units us i (A ++ replicate (2 * (length us + n)) 0) = Some (A ++ units_bytes us ++ replicate (2 * n) 0).
Proof.
  revert i A. induction us as [|u us IH]; intros i A Ha Hi; cbn [write_units length]; [done|].
  replace (2 * (S (length us) + n))%nat with (2 + 2 * (length us + n))%nat by lia. rewrite replicate_add.
  rewrite put_at by done. cbn [mbind option_bind]. rewrite app_assoc, IH by (rewrite ?length_app; cbn [le_bytes length] in *; lia).
  cbn [units_bytes mbind list_bind]. by rewrite <- !app_assoc.
Qed.

(** The label of a name: its first 36 units, zeros after. *)
Definition name_label (name : list Z) : list Z :=
  let us := take (Z.to_nat LABEL_MAX) (name ≫= utf16) in us ++ replicate (36 - length us) 0.

Definition entry_bytes (p : GptPart) : list Z :=
  p_type p ++ p_uuid p ++ le_bytes 8 (p_first p) ++ le_bytes 8 (p_last p) ++ le_bytes 8 (p_attrs p) ++ units_bytes (name_label (p_name p)).

Record part_ok (total : Z) (p : GptPart) : Prop := {
  po_entry : 0 <= p_entry p < 128;
  po_type : length (p_type p) = 16%nat ∧ Forall is_byte (p_type p) ∧ p_type p ≠ replicate 16 0;
  po_uuid : length (p_uuid p) = 16%nat ∧ Forall is_byte (p_uuid p);
  po_range : 34 <= p_first p <= p_last p ∧ p_last p <= total - 34;
  po_name : Forall (λ c, 0 <= c < 0x110000) (p_name p) }.

Lemma name_label_length name : length (name_label name) = 36%nat.
Proof. unfold name_label. rewrite length_app, length_replicate. pose proof (length_take (name ≫= utf16) (Z.to_nat LABEL_MAX)). unfold LABEL_MAX in *. lia. Qed.

Lemma entry_bytes_length total p : part_ok total p → length (entry_bytes p) = 128%nat.
Proof.
  intros [_ (H1&_) (H2&_) _ _]. unfold entry_bytes. rewrite !length_app, !le_bytes_length, units_bytes_length, name_label_length. lia.
Qed.

Lemma write_entry_ok total p : part_ok total p → write_gpt_entry (replicate 128 0) p = Some (entry_bytes p).
Proof.
  intros [_ (H1&_) (H2&_) _ _]. unfold write_gpt_entry. set (us := take _ (p_name p ≫= utf16)).
  assert (Hus : (length us <= 36)%nat) by (subst us; rewrite length_take; unfold LABEL_MAX; lia).
  change (replicate 128 0) with (@nil Z ++ replicate 16 0 ++ replicate 112 0). rewrite put_at by done. cbn [mbind option_bind app].
  change (replicate 112 0) with (replicate 16 0 ++ replicate 96 0). rewrite put_at by (done || lia). cbn [mbind option_bind].
  rewrite app_assoc. change (replicate 96 0) with (replicate 8 0 ++ replicate 88 0). rewrite put_at by (done || (rewrite length_app; lia)).
  cbn [mbind option_bind]. rewrite app_assoc. change (replicate 88 0) with (replicate 8 0 ++ replicate 80 0).
  rewrite put_at by (done || (rewrite !length_app, le_bytes_length; lia)). cbn [mbind option_bind]. rewrite app_assoc.
  change (replicate 80 0) with (replicate 8 0 ++ replicate 72 0).
  rewrite put_at by (done || (rewrite !length_app, !le_bytes_length; lia)). cbn [mbind option_bind]. rewrite app_assoc.
  replace 72%nat with (2 * (length us + (36 - length us)))%nat by lia.
  rewrite write_units_ok by (done || (rewrite !length_app, !le_bytes_length; lia)). f_equal. unfold entry_bytes, name_label. fold us.
  rewrite <- !app_assoc. do 5 f_equal. unfold units_bytes at 2. rewrite bind_app. fold (units_bytes us) (units_bytes (replicate (36 - length us) 0)).
  by rewrite units_zero.
Qed.

Lemma utf16_units name : Forall (λ c, 0 <= c < 0x110000) name → Forall (λ u, 0 <= u < 2 ^ 16) (name ≫= utf16).
Proof.
  intros H. induction H as [|c name Hc _ IH]; cbn [mbind list_bind]; [constructor|]. apply Forall_app. split; [|done]. unfold utf16.
  destruct (Z.ltb_spec c 0x10000); [repeat constructor; lia|]. rewrite Z.shiftr_div_pow2 by lia.
  pose proof (Z.land_ones (c - 0x10000) 10 ltac:(lia)) as E. change (Z.ones 10) with 0x3FF in E. rewrite E. change (2 ^ 10) with 1024.
  pose proof (Z.mod_pos_bound (c - 0x10000) 1024 ltac:(lia)). pose proof (Z.div_lt_upper_bound (c - 0x10000) 1024 1024 ltac:(lia) ltac:(lia)).
  pose proof (Z.div_pos (c - 0x10000) 1024 ltac:(lia) ltac:(lia)). repeat constructor; lia.
Qed.

Lemma name_label_units name : Forall (λ c, 0 <= c < 0x110000) name → Forall (λ u, 0 <= u < 2 ^ 16) (name_label name).
Proof.
  intros H. unfold name_label. apply Forall_app. split; [by apply Forall_take, utf16_units|]. apply Forall_replicate. lia.
Qed.

Lemma label_read us k A : zlen A = 56 + 2 * k → 0 <= k → Forall (λ u, 0 <= u < 2 ^ 16) us →
  label_from (length us) k (A ++ units_bytes us) = Some us.
Proof.
  intros Ha Hk Hu. revert k A Ha Hk. induction Hu as [|u us Hu _ IH]; intros k A Ha Hk; cbn [length label_from]; [done|].
  cbn [units_bytes mbind list_bind]. fold (units_bytes us). rewrite !zget_lookup by lia.
  assert (L : ∀ j : nat, (j < 2)%nat → (A ++ le_bytes 2 u ++ units_bytes us) !! Z.to_nat (56 + 2 * k + Z.of_nat j) = le_bytes 2 u !! j).
  { intros j Hj. rewrite lookup_app_r by lia. rewrite lookup_app_l by (rewrite le_bytes_length; lia). f_equal. lia. }
  pose proof (L 0%nat ltac:(lia)) as L0. pose proof (L 1%nat ltac:(lia)) as L1. rewrite Z.add_0_r in L0.
  replace (56 + 2 * k + Z.of_nat 1) with (57 + 2 * k) in L1 by lia. rewrite L0, L1. cbn [lookup list_lookup le_bytes mbind option_bind].
  rewrite app_assoc, IH by (rewrite ?length_app; cbn [length]; lia). cbn [mbind option_bind].
  pose proof (le_val_bytes 2 u ltac:(change (256 ^ Z.of_nat 2) with (2 ^ 16); lia)) as E. cbn [le_bytes] in E. by rewrite E.
Qed.

(** What the kernel makes of a partition. *)
Definition entry_of (p : GptPart) : Entry :=
  {| number := p_entry p + 1; first := p_first p; last := p_last p; type_guid := p_type p; uuid := p_uuid p; label := name_label (p_name p) |}.

Lemma slice_app {A} (l1 l2 l3 : list A) a b : zlen l1 = a → a + zlen l2 = b → slice (l1 ++ l2 ++ l3) a b = Some l2.
Proof.
  intros Ha Hb. rewrite slice_ok by (lens; lia). f_equal. rewrite drop_app_length' by lia. apply take_app_length'. lia.
Qed.

Lemma slice_front {A} (l1 l2 : list A) a b : a = 0 → zlen l1 = b → slice (l1 ++ l2) a b = Some l1.
Proof. intros -> <-. by apply (slice_app []). Qed.

Lemma slice_drop {A} (l : list A) n a b : 0 <= a → (n <= length l)%nat → slice (drop n l) a b = slice l (Z.of_nat n + a) (Z.of_nat n + b).
Proof.
  intros Ha Hn. unfold slice. rewrite length_drop.
  assert ((0 <=? a) && (a <=? b) && (b <=? Z.of_nat (length l - n)) =
    (0 <=? Z.of_nat n + a) && (Z.of_nat n + a <=? Z.of_nat n + b) && (Z.of_nat n + b <=? zlen l)) as ->.
  { apply eq_true_iff_eq. rewrite !andb_true_iff, !Z.leb_le. lia. }
  case_if; [|done]. f_equal. rewrite drop_drop. f_equal; [lia|]. f_equal. lia.
Qed.

Lemma entry_read total h p : part_ok total p → total < 2 ^ 64 → first_usable h = 34 → last_usable h = total - 34 →
  entry_at h (p_entry p) (entry_bytes p) = Some (Some (entry_of p)).
Proof.
  intros Hp Ht Hfu Hlu. pose proof (entry_bytes_length total p Hp) as Hl. destruct Hp as [P1 (P2&P3&P4) (P5&P6) (P7&P8) P9]. unfold entry_at.
  assert (S1 : slice (entry_bytes p) 0 16 = Some (p_type p)) by (apply slice_front; [done|lia]).
  assert (S2 : slice (entry_bytes p) 16 32 = Some (p_uuid p)) by (apply slice_app; lia).
  assert (S3 : u64_at (entry_bytes p) 32 = Some (p_first p)).
  { unfold u64_at, entry_bytes. rewrite (slice_skip (p_type p)), (slice_skip (p_uuid p)) by lia. rewrite slice_front by (rewrite ?le_bytes_length; cbn; lia).
    cbn [mbind option_bind]. rewrite le_val_bytes; [done|]. change (256 ^ Z.of_nat 8) with (2 ^ 64). lia. }
  assert (S4 : u64_at (entry_bytes p) 40 = Some (p_last p)).
  { unfold u64_at, entry_bytes. rewrite (slice_skip (p_type p)), (slice_skip (p_uuid p)), (slice_skip (le_bytes 8 (p_first p))) by (rewrite ?le_bytes_length; lia).
    rewrite slice_front by (rewrite ?le_bytes_length; cbn; lia).
    cbn [mbind option_bind]. rewrite le_val_bytes; [done|]. change (256 ^ Z.of_nat 8) with (2 ^ 64). lia. }
  assert (S5 : label_from (Z.to_nat LABEL_MAX) 0 (entry_bytes p) = Some (name_label (p_name p))).
  { unfold entry_bytes. rewrite !app_assoc. change (Z.to_nat LABEL_MAX) with 36%nat. rewrite <- (name_label_length (p_name p)) at 1.
    apply label_read; [rewrite !length_app, !le_bytes_length; lia|done|by apply name_label_units]. }
  rewrite S1. cbn [mbind option_bind]. rewrite bool_decide_eq_false_2 by done. rewrite S3, S4. cbn [mbind option_bind]. rewrite Hfu, Hlu.
  rewrite !(proj2 (Z.ltb_ge _ _)) by lia. cbn [orb]. rewrite S5. cbn [mbind option_bind]. unfold add32. rewrite fits_in by lia.
  rewrite S2. done.
Qed.

Lemma entry_unused h i : entry_at h i (replicate 128 0) = Some None.
Proof. unfold entry_at. rewrite (slice_ok _ 0 16) by done. cbn [mbind option_bind]. by rewrite bool_decide_eq_true_2. Qed.

(** ** The array *)

Definition part_at (parts : list GptPart) (i : Z) : option GptPart := find (λ p, p_entry p =? i) parts.

Definition block (parts : list GptPart) (i : Z) : list Z := match part_at parts i with Some p => entry_bytes p | None => replicate 128 0 end.

Lemma part_at_some parts i p : part_at parts i = Some p → p ∈ parts ∧ p_entry p = i.
Proof. unfold part_at. intros [H1 H2%Z.eqb_eq]%find_some. by rewrite list_elem_of_In. Qed.

Lemma entries_read parts total h n i arr : Forall (part_ok total) parts → total < 2 ^ 64 → entry_size h = 128 → first_usable h = 34 →
  last_usable h = total - 34 → zlen arr = Z.of_nat n * 128 →
  (∀ j, 0 <= j < Z.of_nat n → slice arr (j * 128) ((j + 1) * 128) = Some (block parts (i + j))) →
  entries_from n h i arr = Some (omap (λ k, entry_of <$> part_at parts k) (seqZ i (Z.of_nat n))).
Proof.
  intros Hp Ht Hes Hfu Hlu. revert i arr. induction n as [|n IH]; intros i arr Hl Hb; cbn [entries_from]; [done|]. rewrite Hes.
  pose proof (Hb 0 ltac:(lia)) as H0. change (0 * 128) with 0 in H0. change ((0 + 1) * 128) with 128 in H0. rewrite Z.add_0_r in H0. rewrite H0.
  cbn [mbind option_bind]. rewrite (IH (i + 1)).
  - rewrite (seqZ_cons i) by lia. replace (Z.pred (Z.of_nat (S n))) with (Z.of_nat n) by lia. replace (Z.succ i) with (i + 1) by lia. cbn [omap list_omap].
    unfold block. destruct (part_at parts i) as [p|] eqn:E; cbn [fmap option_fmap option_map].
    + destruct (part_at_some _ _ _ E) as [Hin <-]. rewrite Forall_forall in Hp. rewrite (entry_read total) by auto. done.
    + by rewrite entry_unused.
  - lens. lia.
  - intros j Hj. rewrite slice_drop by lia. replace (i + 1 + j) with (i + (j + 1)) by lia. rewrite <- (Hb (j + 1)) by lia. f_equal; lia.
Qed.

Lemma entry_bytes_bytes total p : part_ok total p → Forall is_byte (entry_bytes p).
Proof.
  intros [_ (_&H1&_) (_&H2) _ _]. unfold entry_bytes. repeat (apply Forall_app; split); try done; try apply le_bytes_are_bytes.
  generalize (name_label (p_name p)). intros us. induction us as [|u us IH]; [constructor|]. apply Forall_app. split; [apply le_bytes_are_bytes|done].
Qed.

Lemma write_entries_ok parts total array : Forall (part_ok total) parts → NoDup (p_entry <$> parts) → zlen array = 16384 → Forall is_byte array →
  (∀ p, p ∈ parts → slice array (p_entry p * 128) ((p_entry p + 1) * 128) = Some (replicate 128 0)) →
  ∃ a, write_entries parts array = Some a ∧ zlen a = 16384 ∧ Forall is_byte a ∧ ∀ i, 0 <= i < 128 → slice a (i * 128) ((i + 1) * 128) =
    match part_at parts i with Some p => Some (entry_bytes p) | None => slice array (i * 128) ((i + 1) * 128) end.
Proof.
  intros Hp. revert array. induction Hp as [|p parts Hp _ IH]; intros array Hn Hl Hb Hz; cbn [write_entries]; [by exists array|].
  apply NoDup_cons in Hn as [Hn1 Hn2]. rewrite Hz by (by constructor). cbn [mbind option_bind].
  rewrite (write_entry_ok total) by done. cbn [mbind option_bind]. pose proof (entry_bytes_length total p Hp) as Hel. pose proof (po_entry _ _ Hp) as Hpe.
  unfold put. rewrite copy_slice_ok by lia. cbn [mbind option_bind]. set (arr := splice array (p_entry p * 128) (entry_bytes p)).
  assert (Hout : ∀ i, 0 <= i → i ≠ p_entry p → slice arr (i * 128) ((i + 1) * 128) = slice array (i * 128) ((i + 1) * 128)).
  { intros i Hi Hne. apply slice_splice_out; [lia|lia|]. destruct (Z.lt_ge_cases i (p_entry p)); [left|right]; lia. }
  destruct (IH arr) as (a&->&Ha&Hab&Hs); [done|subst arr; rewrite splice_length; lia| | |].
  - subst arr. unfold splice. rewrite !Forall_app. split_and!; [by apply Forall_take|by eapply entry_bytes_bytes|by apply Forall_drop].
  - intros q Hq. rewrite Hout, Hz; [done|by constructor| |].
    + pose proof (Hz q ltac:(by constructor)) as Hs. unfold slice in Hs. case_if; [lia|done].
    + intros E. apply Hn1. rewrite <- E. by apply list_elem_of_fmap_2.
  - exists a. split_and!; [done..|]. intros i Hi. rewrite Hs by done. unfold part_at. cbn [find]. fold (part_at parts i).
    destruct (Z.eqb_spec (p_entry p) i) as [<-|Hne].
    + destruct (part_at parts (p_entry p)) as [q|] eqn:E.
      * destruct (part_at_some _ _ _ E) as [Hq Hqe]. destruct Hn1. rewrite <- Hqe. by apply list_elem_of_fmap_2.
      * subst arr. replace ((p_entry p + 1) * 128) with (p_entry p * 128 + zlen (entry_bytes p)) by lia. apply slice_splice; lia.
    + destruct (part_at parts i); [done|]. apply Hout; [lia|done].
Qed.

(** ** The disk *)

Lemma slice_split {A} (l : list A) a b c x y : slice l a b = Some x → slice l b c = Some y → slice l a c = Some (x ++ y).
Proof.
  unfold slice. case_if; [|done]. intros [= <-]. case_if; [|done]. intros [= <-]. rewrite (proj2 (Z.leb_le _ _)), !(proj2 (Z.leb_le _ _)) by lia. cbn [andb].
  f_equal. replace (Z.to_nat (c - a)) with (Z.to_nat (b - a) + Z.to_nat (c - b))%nat by lia. rewrite <- take_take_drop, drop_drop.
  do 2 f_equal. f_equal. lia.
Qed.

(** A part of a part. *)
Lemma slice_slice {A} (l s : list A) a b x y : slice l a b = Some s → a <= x → y <= b → slice l x y = slice s (x - a) (y - a).
Proof.
  unfold slice at 1. case_if; [|done]. intros [= <-] Hx Hy. unfold slice. lens.
  assert ((0 <=? x) && (x <=? y) && (y <=? zlen l) =
    (0 <=? x - a) && (x - a <=? y - a) && (y - a <=? Z.of_nat (Z.to_nat (b - a) `min` (length l - Z.to_nat a)))) as ->.
  { apply eq_true_iff_eq. rewrite !andb_true_iff, !Z.leb_le. lia. }
  case_if; [|done]. f_equal. rewrite skipn_firstn_comm, take_take, drop_drop. f_equal; [lia|]. f_equal. lia.
Qed.

Lemma slice_agree {A} (l l' : list A) a b x y : slice l a b = slice l' a b → is_Some (slice l a b) → a <= x → y <= b → slice l x y = slice l' x y.
Proof.
  intros E [s Hs] Hx Hy. rewrite (slice_slice l s a b) by done. rewrite E in Hs. by rewrite (slice_slice l' s a b).
Qed.

Lemma slice_replicate {A} n (v : A) a b : 0 <= a <= b → b <= Z.of_nat n → slice (replicate n v) a b = Some (replicate (Z.to_nat (b - a)) v).
Proof.
  intros Ha Hb. rewrite slice_ok by (rewrite ?length_replicate; lia). f_equal. rewrite drop_replicate, take_replicate. f_equal. lia.
Qed.

Lemma usub_ok a b : b <= a → usub a b = Some (a - b).
Proof. intros. unfold usub. by rewrite (proj2 (Z.leb_le _ _)). Qed.

Lemma put_splice dst at_ src : 0 <= at_ → at_ + zlen src <= zlen dst → put dst at_ src = Some (splice dst at_ src).
Proof. intros. unfold put. apply copy_slice_ok; lia. Qed.

(** The protective record: its signature, its entry, and what it leaves. *)
Lemma mbr_ok n total : 512 <= Z.of_nat n → 1 <= total → ∃ m, write_protective_mbr (replicate n 0) total = Some m ∧ length m = n ∧
  slice m 510 512 = Some [0x55; 0xAA] ∧ zget m 450 = Some 0xEE ∧ ∀ x y, 512 <= x → slice m x y = slice (replicate n 0) x y.
Proof.
  intros Hn Ht. unfold write_protective_mbr. rewrite put_splice by (rewrite ?length_replicate; cbn [length]; lia). cbn [mbind option_bind].
  set (d1 := splice (replicate n 0) 510 [0x55; 0xAA]). assert (L1 : length d1 = n) by (subst d1; rewrite splice_length; rewrite ?length_replicate; cbn [length]; lia).
  rewrite put_splice by (rewrite ?L1; cbn [length]; lia). cbn [mbind option_bind]. set (d2 := splice d1 446 [0; 0; 2; 0; 0xEE; 0xFF; 0xFF; 0xFF]).
  assert (L2 : length d2 = n) by (subst d2; rewrite splice_length; rewrite ?L1; cbn [length]; lia).
  rewrite put_splice by (rewrite ?L2, ?le_bytes_length; lia). cbn [mbind option_bind]. set (d3 := splice d2 454 (le_bytes 4 1)).
  assert (L3 : length d3 = n) by (subst d3; rewrite splice_length; rewrite ?L2, ?le_bytes_length; lia).
  unfold usub. rewrite (proj2 (Z.leb_le _ _)) by done. cbn [mbind option_bind]. set (v := Z.min (total - 1) U32_MAX).
  rewrite put_splice by (rewrite ?L3, ?le_bytes_length; lia). eexists. split; [done|].
  split_and!; [rewrite splice_length; rewrite ?L3, ?le_bytes_length; lia| | |].
  - rewrite slice_splice_out by (rewrite ?L3, ?le_bytes_length; lia). subst d3. rewrite slice_splice_out by (rewrite ?L2, ?le_bytes_length; lia).
    subst d2. rewrite slice_splice_out by (rewrite ?L1; cbn [length]; lia). subst d1. rewrite slice_splice_in by (rewrite ?length_replicate; cbn [length]; lia). done.
  - rewrite zget_splice by (rewrite ?L3, ?le_bytes_length; lia). rewrite le_bytes_length. change ((458 <=? 450) && _) with false. cbn [andb].
    subst d3. rewrite zget_splice by (rewrite ?L2, ?le_bytes_length; lia). rewrite le_bytes_length. change ((454 <=? 450) && _) with false.
    subst d2. rewrite zget_splice by (rewrite ?L1; cbn [length]; lia). done.
  - intros x y Hx. rewrite slice_splice_out by (rewrite ?L3, ?le_bytes_length; lia). subst d3. rewrite slice_splice_out by (rewrite ?L2, ?le_bytes_length; lia).
    subst d2. rewrite slice_splice_out by (rewrite ?L1; cbn [length]; lia). subst d1. by rewrite slice_splice_out by (rewrite ?length_replicate; cbn [length]; lia).
Qed.

(** What a table's place on the disk holds. *)
Record layout (total : Z) (parts : list GptPart) (d es : list Z) : Prop := {
  lo_len : zlen d = total * 512;
  lo_es : zlen es = 16384 ∧ Forall is_byte es ∧ ∀ i, 0 <= i < 128 → slice es (i * 128) ((i + 1) * 128) = Some (block parts i);
  lo_mbr : slice d 510 512 = Some [0x55; 0xAA] ∧ zget d 450 = Some 0xEE;
  lo_primary : slice d 512 1024 = Some (header_bytes 1 (total - 1) 2 (crc32 es) total (crc32 (header_bytes 1 (total - 1) 2 (crc32 es) total 0)) ++ replicate 420 0) ∧
    slice d 1024 17408 = Some es;
  lo_backup : slice d ((total - 1) * 512) (total * 512) =
      Some (header_bytes (total - 1) 1 (total - 33) (crc32 es) total (crc32 (header_bytes (total - 1) 1 (total - 33) (crc32 es) total 0)) ++ replicate 420 0) ∧
    slice d ((total - 33) * 512) ((total - 1) * 512) = Some es }.

(** The sector of a header, in a table that is zero after it. *)
Lemma header_sector l a h : length h = 92%nat → 0 <= a → a + 512 <= zlen l → slice l (a + 92) (a + 512) = Some (replicate 420 0) →
  slice (splice l a h) a (a + 512) = Some (h ++ replicate 420 0).
Proof.
  intros Hh Ha Hl Hz. apply (slice_split _ a (a + 92)).
  - replace (a + 92) with (a + zlen h) by lia. apply slice_splice; lia.
  - rewrite slice_splice_out by lia. done.
Qed.

(** The disk with its first 34 sectors and its last 33 replaced. *)
Lemma place_tables (disk : list Z) total head tail : 68 <= total → zlen disk = total * 512 → zlen head = 34 * 512 → zlen tail = 33 * 512 →
  let d := splice (splice disk 0 head) ((total - 33) * 512) tail in
  zlen d = total * 512 ∧
  (∀ x y, 0 <= x → y <= 34 * 512 → slice d x y = slice head x y) ∧
  (∀ x y, 0 <= x → y <= 33 * 512 → slice d ((total - 33) * 512 + x) ((total - 33) * 512 + y) = slice tail x y) ∧
  (∀ x y, 34 * 512 <= x → y <= (total - 33) * 512 → slice d x y = slice disk x y) ∧
  zget d 450 = zget head 450.
Proof.
  intros Ht Hd Hh Htl. set (d1 := splice disk 0 head). assert (Ld1 : zlen d1 = total * 512) by (subst d1; rewrite splice_length; lia).
  intros d. split_and!.
  - subst d. rewrite splice_length; lia.
  - intros x y Hx Hy. subst d. rewrite slice_splice_out by lia. subst d1. rewrite slice_splice_in by lia. f_equal; lia.
  - intros x y Hx Hy. subst d. rewrite slice_splice_in by lia. f_equal; lia.
  - intros x y Hx Hy. subst d. rewrite slice_splice_out by lia. subst d1. by rewrite slice_splice_out by lia.
  - subst d. rewrite zget_splice by lia. destruct ((_ <=? _) && (_ <? _)) eqn:E; [bool_hyps; lia|].
    subst d1. rewrite zget_splice by lia. change (0 <=? 450) with true. by rewrite (proj2 (Z.ltb_lt _ _)) by lia.
Qed.

Lemma write_gpt_ok disk total parts : Forall (part_ok total) parts → NoDup (p_entry <$> parts) → 68 <= total → zlen disk = total * 512 →
  ∃ d es, write_gpt disk total parts = Some d ∧ layout total parts d es ∧
    ∀ x y, 34 * 512 <= x → y <= (total - 33) * 512 → slice d x y = slice disk x y.
Proof.
  intros Hp Hn Ht Hd. unfold write_gpt.
  set (n1 := (128 * 128)%nat). assert (N1 : Z.of_nat n1 = 16384) by (subst n1; by rewrite Nat2Z.inj_mul). clearbody n1.
  set (n2 := (34 * 512)%nat). assert (N2 : Z.of_nat n2 = 34 * 512) by (subst n2; by rewrite Nat2Z.inj_mul). clearbody n2.
  set (n3 := (33 * 512)%nat). assert (N3 : Z.of_nat n3 = 33 * 512) by (subst n3; by rewrite Nat2Z.inj_mul). clearbody n3.
  destruct (write_entries_ok parts total (replicate n1 0)) as (es&->&Hl&Hb&Hs); [done|done|rewrite length_replicate; lia| | |].
  { apply Forall_replicate. unfold is_byte. lia. }
  { intros p Hin. rewrite Forall_forall in Hp. pose proof (po_entry _ _ (Hp p Hin)). rewrite slice_replicate by lia. f_equal. f_equal. lia. }
  cbn [mbind option_bind]. assert (Hblk : ∀ i, 0 <= i < 128 → slice es (i * 128) ((i + 1) * 128) = Some (block parts i)).
  { intros i Hi. rewrite Hs by done. unfold block. destruct (part_at parts i); [done|]. rewrite slice_replicate by lia. f_equal. f_equal. lia. }
  rewrite usub_ok by lia. cbn [mbind option_bind].
  destruct (mbr_ok n2 total) as (m&->&Lm&M1&M2&M3); [lia..|]. cbn [mbind option_bind].
  rewrite usub_ok by lia. cbn [mbind option_bind]. rewrite host_crc32_eq.
  replace (total - 1 - 32) with (total - 33) by lia. set (crc := crc32 es). rewrite (gpt_header_bytes 1) by lia. cbn [mbind option_bind].
  set (h1 := header_bytes 1 (total - 1) 2 crc total _). assert (L1 : length h1 = 92%nat) by apply header_bytes_length.
  unfold SECTOR. rewrite (put_splice m) by lia. cbn [mbind option_bind]. set (e1 := splice m 512 h1). assert (Le1 : length e1 = n2) by (subst e1; rewrite splice_length; lia).
  rewrite (put_splice e1) by lia. cbn [mbind option_bind]. set (head := splice e1 (2 * 512) es). assert (Lh : length head = n2) by (subst head; rewrite splice_length; lia).
  rewrite (put_splice (replicate n3 0)) by (rewrite ?length_replicate; lia). cbn [mbind option_bind]. set (t1 := splice (replicate n3 0) 0 es).
  assert (Lt1 : length t1 = n3) by (subst t1; rewrite splice_length; rewrite ?length_replicate; lia).
  rewrite gpt_header_bytes by lia. cbn [mbind option_bind]. set (h2 := header_bytes (total - 1) 1 (total - 33) crc total _).
  assert (L2 : length h2 = 92%nat) by apply header_bytes_length. rewrite (put_splice t1) by lia. cbn [mbind option_bind]. set (tail := splice t1 (32 * 512) h2).
  assert (Lt : length tail = n3) by (subst tail; rewrite splice_length; lia).
  rewrite (put_splice disk) by lia. cbn [mbind option_bind]. rewrite put_splice by (rewrite ?splice_length; lia). eexists _, es. split; [done|].
  destruct (place_tables disk total head tail) as (D1&Hhead&Htail&D4&D5); [lia..|].
  set (d := splice (splice disk 0 head) _ tail) in *. clearbody d. split; [split|done].
  - done.
  - by split_and!.
  - split.
    + rewrite Hhead by lia. subst head. rewrite slice_splice_out by lia. subst e1. by rewrite slice_splice_out by lia.
    + rewrite D5. subst head. rewrite zget_splice by lia. change (2 * 512 <=? 450) with false. cbn [andb]. subst e1. rewrite zget_splice by lia. done.
  - split.
    + rewrite Hhead by lia. subst head. rewrite slice_splice_out by lia. subst e1. change 1024 with (512 + 512). apply header_sector; [done|lia|lia|].
      rewrite M3 by lia. by rewrite slice_replicate by lia.
    + rewrite Hhead by lia. subst head. rewrite slice_splice_in by lia. rewrite slice_ok by lia. f_equal. rewrite take_ge; [done|]. lens. lia.
  - split.
    + replace ((total - 1) * 512) with ((total - 33) * 512 + 32 * 512) by lia. replace (total * 512) with ((total - 33) * 512 + (32 * 512 + 512)) by lia.
      rewrite Htail by lia. subst tail. apply header_sector; [done|lia|lia|]. subst t1. rewrite slice_splice_out by (rewrite ?length_replicate; lia).
      by rewrite slice_replicate by lia.
    + replace ((total - 1) * 512) with ((total - 33) * 512 + 32 * 512) by lia. replace ((total - 33) * 512) with ((total - 33) * 512 + 0) at 1 by lia.
      rewrite Htail by lia. subst tail. rewrite slice_splice_out by lia. subst t1. replace (32 * 512) with (0 + zlen es) by lia.
      apply slice_splice; rewrite ?length_replicate; lia.
Qed.

(** The partitions the kernel finds, by entry. *)
Definition found (parts : list GptPart) : list Entry := omap (λ k, entry_of <$> part_at parts k) (seqZ 0 128).

Lemma table_read total parts es rd this alt el : Forall (part_ok total) parts → 68 <= total < 2 ^ 64 →
  zlen es = 16384 → Forall is_byte es → (∀ i, 0 <= i < 128 → slice es (i * 128) ((i + 1) * 128) = Some (block parts i)) →
  rd this 512 = Some (header_bytes this alt el (crc32 es) total (crc32 (header_bytes this alt el (crc32 es) total 0)) ++ replicate 420 0) →
  rd el 16384 = Some es → 0 <= this < 2 ^ 64 → 2 <= el → el + 32 <= total → table_at rd this total = Some (Some (found parts)).
Proof.
  intros Hp Ht Hl Hb Hs Hh He Hthis Hel1 Hel2. unfold table_at.
  rewrite (header_read rd this alt el (crc32 es) total _ (replicate 420 0)) by (done || by apply crc32_range). cbn [mbind option_bind].
  unfold entries. cbn [h_entries entry_size entries_lba entries_crc]. change (fits 64 (128 * 128)) with (Some 16384). cbn [mbind option_bind].
  change (div_ceil 16384 SECTOR) with (Some 32). cbn [mbind option_bind]. change (32 * SECTOR) with 16384. rewrite He.
  rewrite slice_ok by lia. cbn [mbind option_bind]. rewrite Z.sub_0_r. change (Z.to_nat 0) with 0%nat. rewrite drop_0, take_ge by lia.
  rewrite Z.eqb_refl. cbn [negb]. change (Z.to_nat 128) with 128%nat. rewrite (entries_read parts total _ 128 0 es); [|done|lia|done|done|done|lia|].
  - cbn [mbind option_bind]. unfold found. change (Z.of_nat 128) with 128. reflexivity.
  - intros j Hj. rewrite Z.add_0_l. apply Hs. lia.
Qed.

(** A disk with a protective record, read by its first table or, that
    failing, by its last. *)
Lemma read_tables rd total m t : 3 <= total → rd 0 SECTOR = Some m → protective m = Some true → table_at rd 1 total = Some t →
  read rd total = match t with Some es => Some es | None => t ← table_at rd (total - 1) total; Some (default [] t) end.
Proof.
  intros Ht Hm Hp Hx. unfold read. rewrite (proj2 (Z.ltb_ge _ _)) by done. rewrite Hm, Hp. cbn [mbind option_bind negb]. by rewrite Hx.
Qed.

Lemma protective_read m : slice m 510 512 = Some [0x55; 0xAA] → zget m 450 = Some 0xEE → protective m = Some true.
Proof.
  intros H1 H2. unfold protective. rewrite H1. cbn [mbind option_bind]. rewrite bool_decide_eq_true_2 by done.
  cbn [any_protective]. change (446 + 16 * 0 + 4) with 450. by rewrite H2.
Qed.

(** C34: the table the image builder writes is the one the kernel reads:
    each partition with its place, type, identity and name, by its entry, and
    the rest of the disk as it was. And a disk whose first table is damaged,
    so that a checksum or a range of it fails, is read by the second. *)
Theorem gpt_roundtrip disk total parts : Forall (part_ok total) parts → NoDup (p_entry <$> parts) → 68 <= total < 2 ^ 64 → zlen disk = total * SECTOR →
  ∃ d, write_gpt disk total parts = Some d ∧ read (disk_read d) total = Some (found parts) ∧
    (∀ x y, 34 * SECTOR <= x → y <= (total - 33) * SECTOR → slice d x y = slice disk x y) ∧
    ∀ d', zlen d' = zlen d → slice d' 0 SECTOR = slice d 0 SECTOR →
      slice d' ((total - 33) * SECTOR) (total * SECTOR) = slice d ((total - 33) * SECTOR) (total * SECTOR) →
      table_at (disk_read d') 1 total = Some None → read (disk_read d') total = Some (found parts).
Proof.
  unfold SECTOR. intros Hp Hn Ht Hd. destruct (write_gpt_ok disk total parts) as (d&es&Ed&[L1 (L2&L3&L4) (L5&L6) (L7&L8) (L9&L10)]&Hrest); [done|done|lia|done|].
  exists d. split; [done|].
  assert (Hmbr : ∃ m, slice d 0 512 = Some m ∧ protective m = Some true).
  { destruct (slice d 0 512) as [m|] eqn:Em; [|rewrite slice_ok in Em by lia; done]. exists m. split; [done|]. apply protective_read.
    - by rewrite (slice_slice d m 0 512) in L5 by (done || lia).
    - by rewrite (zget_slice _ _ _ _ _ Em). }
  destruct Hmbr as (m&Em&Hm). split; [|split; [done|]].
  - rewrite (read_tables _ _ m (Some (found parts))); [done|lia|done|done|].
    by eapply (table_read total parts es _ 1 (total - 1) 2); try done; lia.
  - intros d' Hl' E0 E1 Hbad. rewrite (read_tables _ _ m None); [|lia|by rewrite <- Em|done|done].
    assert (Hsome : is_Some (slice d ((total - 33) * 512) (total * 512))) by (rewrite slice_ok by lia; by eexists).
    assert (Hsub : ∀ x y, (total - 33) * 512 <= x → y <= total * 512 → slice d' x y = slice d x y).
    { intros x y Hx Hy. symmetry. by apply (slice_agree _ _ ((total - 33) * 512) (total * 512)). }
    rewrite (table_read total parts es _ (total - 1) 1 (total - 33)); try done; try lia.
    + unfold disk_read, SECTOR. rewrite Hsub by lia. replace ((total - 1) * 512 + 512) with (total * 512) by lia. done.
    + unfold disk_read, SECTOR. rewrite Hsub by lia. replace ((total - 33) * 512 + 16384) with ((total - 1) * 512) by lia. done.
Qed.

(** A small disk with two partitions. *)
Definition ex_parts : list GptPart :=
  [ {| p_entry := 0; p_type := replicate 16 0x48; p_uuid := replicate 16 3; p_first := 34; p_last := 35; p_attrs := 4; p_name := [66; 73; 79; 83] |};
    {| p_entry := 2; p_type := replicate 16 0xAF; p_uuid := replicate 16 4; p_first := 36; p_last := 36; p_attrs := 0; p_name := [0x1F4BE] |} ].

Lemma ex_parts_ok : Forall (part_ok 70) ex_parts.
Proof. repeat constructor; cbn; try lia; try done; by apply bytesb_bytes. Qed.

Lemma gpt_roundtrip_witness :
  ∃ d, write_gpt (replicate (Z.to_nat (70 * 512)) 0) 70 ex_parts = Some d ∧ read (disk_read d) 70 = Some (found ex_parts) ∧
    number <$> found ex_parts = [1; 3].
Proof.
  destruct (gpt_roundtrip (replicate (Z.to_nat (70 * 512)) 0) 70 ex_parts ex_parts_ok) as (d&E1&E2&_).
  - vm_compute. repeat constructor; by (intros H; apply list_elem_of_singleton in H) || by intros ?%elem_of_nil.
  - lia.
  - rewrite length_replicate. unfold SECTOR. lia.
  - exists d. split; [exact E1|]. split; [exact E2|]. vm_compute. reflexivity.
Defined.
