(* ===== verification/Blk.v ===== *)
(** * Disks and partitions

    [kernel/src/blk.rs]: the table of block devices, filled by driver modules
    and by what the kernel finds in the disks' partition tables, and reads
    and writes of bytes over it.  A driver (the table of its functions and
    its context) is opaque here.  The calls that register, unregister, scan
    and rescan take the table's lock several times, with other calls in
    between: [Sys] has every task's place in such a call, and [step] is one
    critical section, or one look at something outside the table. *)

From S2P Require Import Prelude.
From stdpp Require Import gmap sorting list.
From S2P Require Import Text Gpt.

Open Scope string_scope.
Open Scope list_scope.
Open Scope Z_scope.

Definition MAX_DEVS : nat := 64.
Definition NAME_MAX : Z := 15.
Definition DISK_INFO_MAX : nat := 160.

Inductive Scan : Set := Pending | Running | Done.

#[export] Instance scan_eq_dec : EqDecision Scan.
Proof. solve_decision. Defined.

Record Part : Set := {
  p_disk : nat; p_number : Z; p_first : Z; p_sectors : Z; p_type : list Z; p_uuid : list Z; p_label : list Z }.

(** [Info::new]: one line of printable ASCII. *)
Definition info_new (bytes : list Z) : text :=
  take DISK_INFO_MAX ((λ b, if (0x20 <=? b) && (b <? 0x7f) then b else 63) <$> bytes).

Section registry.
Context {Driver : Type}.

Inductive Kind := KDisk (drv : Driver) (scan : Scan) (serial : Z) (info : text) | KPart (p : Part).

Record BlkDev := { name : text; kind : Kind }.

(** The statics of the module. *)
Record Reg := { devs : list (option BlkDev); pending : bool; running : Z; serial_next : Z }.

Definition boot : Reg := {| devs := replicate MAX_DEVS None; pending := false; running := 0; serial_next := 0 |}.

Definition set_devs (r : Reg) (l : list (option BlkDev)) : Reg :=
  {| devs := l; pending := pending r; running := running r; serial_next := serial_next r |}.

Definition set_pending (r : Reg) (b : bool) : Reg :=
  {| devs := devs r; pending := b; running := running r; serial_next := serial_next r |}.

Definition set_running (r : Reg) (n : Z) : Reg :=
  {| devs := devs r; pending := pending r; running := n; serial_next := serial_next r |}.

Definition is_disk (d : BlkDev) : bool := match kind d with KDisk _ _ _ _ => true | KPart _ => false end.

Definition path (d : BlkDev) : text :=
  match kind d with
  | KDisk _ _ _ _ => name d ++ str "/data"
  | KPart p => name d ++ str "/p" ++ dec (p_number p)
  end.

Definition part_of (disk : nat) (d : BlkDev) : bool :=
  match kind d with KPart p => bool_decide (p_disk p = disk) | KDisk _ _ _ _ => false end.

(** [devs.get(dev)], as far as there is a device. *)
Definition get (r : Reg) (dev : nat) : option BlkDev := mjoin (devs r !! dev).

(** [devs.iter().position(f)] *)
Definition position {A} (f : A → bool) (l : list A) : option nat := fst <$> list_find (λ x, f x = true) l.

Definition free_slot (l : list (option BlkDev)) : option nat := position (λ d, match d with None => true | Some _ => false end) l.

(** ** Registering a disk *)

Definition taken (l : list (option BlkDev)) (n : text) : bool :=
  existsb (λ d, match d with Some d => is_disk d && bool_decide (name d = n) | None => false end) l.

(** The name a disk gets: a family's first letter that is free, or the name
    asked for. *)
Definition settle (l : list (option BlkDev)) (nm : text) : option text :=
  match strip_suffix (str "?") nm with
  | Some family => List.find (λ n, negb (taken l n)) ((λ c, family ++ [c]) <$> seqZ 97 26)
  | None => Some nm
  end.

Definition is_alphanumeric (c : Z) : bool :=
  ((48 <=? c) && (c <=? 57)) || ((65 <=? c) && (c <=? 90)) || ((97 <=? c) && (c <=? 122)).

Definition valid_name (n : text) : bool := nonempty n && (str_len n <=? NAME_MAX) && forallb is_alphanumeric n.

Definition register (nm : text) (drv : Driver) (info : list Z) (r : Reg) : option nat * Reg :=
  match settle (devs r) nm with
  | None => (None, r)
  | Some n =>
      if negb (valid_name n) then (None, r)
      else if taken (devs r) n then (None, r)
      else match free_slot (devs r) with
           | None => (None, r)
           | Some i =>
               let d := {| name := n; kind := KDisk drv Pending (serial_next r) (info_new info) |} in
               (Some i, {| devs := <[i := Some d]> (devs r); pending := true; running := running r;
                           serial_next := (serial_next r + 1) mod 2 ^ 64 |})
           end
  end.

(** ** Looking at the table *)

Definition disk_name (r : Reg) (dev : nat) : option text := d ← get r dev; if is_disk d then Some (name d) else None.

Definition paths_of (r : Reg) (dev : nat) : list text :=
  omap (λ x : nat * option BlkDev, d ← x.2; if bool_decide (x.1 = dev) || part_of dev d then Some (path d) else None)
    (imap pair (devs r)).

(** [0..count()] are the ids in use, with holes. *)
Definition count (r : Reg) : nat :=
  match position (λ d, match d with Some _ => true | None => false end) (reverse (devs r)) with
  | Some i => length (devs r) - i
  | None => 0
  end.

Definition disks (r : Reg) : list text := name <$> filter (λ d, is_disk d = true) (omap (λ d, d) (devs r)).

Definition disk_by_name (r : Reg) (n : text) : option nat :=
  position (λ d, match d with Some d => is_disk d && bool_decide (name d = n) | None => false end) (devs r).

Definition number_order (a b : Part) : Prop := p_number a <= p_number b.
#[local] Instance number_order_dec a b : Decision (number_order a b) := decide (p_number a <= p_number b).

Definition parts (r : Reg) (disk : nat) : list Part :=
  merge_sort number_order
    (omap (λ d : option BlkDev, d ← d; match kind d with KPart p => if bool_decide (p_disk p = disk) then Some p else None | _ => None end) (devs r)).

(** A lookup takes the table's lock twice: [r] is the table when the disk's
    name is looked up, [r'] the table when the partition is. *)
Definition by_path (r r' : Reg) (p : text) : option nat :=
  '(disk, member) ← split_once (λ c, c =? 47) p;
  disk ← disk_by_name r disk;
  if bool_decide (member = str "data") then Some disk
  else
    rest ← strip_prefix (str "p") member;
    number ← parse_u32 rest;
    if negb (bool_decide (member = str "p" ++ dec number)) then None
    else position (λ d, match d with
                        | Some {| kind := KPart p |} => bool_decide (p_disk p = disk) && (p_number p =? number)
                        | _ => false
                        end) (devs r').

(** The slot that the disk of a path is looked up to have. *)
Definition disk_of (r : Reg) (p : text) : option nat :=
  '(disk, _) ← split_once (λ c, c =? 47) p; disk_by_name r disk.

(** ** Unregistering a disk, and its partitions *)

(** [for slot in devs.iter_mut() { if part_of(dev) { *slot = None } }] *)
Definition drop_parts (dev : nat) (l : list (option BlkDev)) : list (option BlkDev) :=
  (λ d : option BlkDev, match d with Some d' => if part_of dev d' then None else d | None => d end) <$> l.

(** The last critical section of [unregister]: whether [dev] was there. *)
Definition remove (dev : nat) (r : Reg) : bool * Reg :=
  let l := drop_parts dev (devs r) in
  match l !! dev with
  | Some (Some _) => (true, set_devs r (<[dev := None]> l))
  | _ => (false, set_devs r l)
  end.

(** ** Reading partition tables *)

Definition set_scan (sc : Scan) (d : BlkDev) : BlkDev :=
  match kind d with KDisk drv _ serial info => {| name := name d; kind := KDisk drv sc serial info |} | KPart _ => d end.

Definition scan_is (sc : Scan) (d : option BlkDev) : bool :=
  match d with Some {| kind := KDisk _ sc' _ _ |} => bool_decide (sc' = sc) | _ => false end.

Definition serial_of (d : BlkDev) : Z := match kind d with KDisk _ _ serial _ => serial | KPart _ => 0 end.

(** The first disk that is pending is claimed. *)
Definition claim (r : Reg) : option (nat * Z) * Reg :=
  match position (scan_is Pending) (devs r) with
  | None => (None, r)
  | Some i =>
      match get r i with
      | Some d =>
          (Some (i, serial_of d),
           {| devs := <[i := Some (set_scan Running d)]> (devs r); pending := pending r; running := (running r + 1) mod 2 ^ 32;
              serial_next := serial_next r |})
      | None => (None, r)
      end
  end.

Definition part_at (disk : nat) (e : Gpt.Entry) : option Part :=
  n ← usub (last e) (first e); n ← add64 n 1;
  Some {| p_disk := disk; p_number := number e; p_first := first e; p_sectors := n; p_type := type_guid e; p_uuid := uuid e;
          p_label := label e |}.

(** The loop of [add_parts]: until the table is full. *)
Fixpoint put_parts (disk : nat) (nm : text) (es : list Gpt.Entry) (l : list (option BlkDev)) : option (list (option BlkDev)) :=
  match es with
  | [] => Some l
  | e :: es =>
      match free_slot l with
      | None => Some l
      | Some i => p ← part_at disk e; put_parts disk nm es (<[i := Some {| name := nm; kind := KPart p |}]> l)
      end
  end.

Definition add_parts (disk : nat) (serial : Z) (es : list Gpt.Entry) (r : Reg) : option Reg :=
  match get r disk with
  | Some d =>
      if scan_is Running (Some d) && (serial_of d =? serial)
      then l ← put_parts disk (name d) es (<[disk := Some (set_scan Done d)]> (devs r)); Some (set_devs r l)
      else Some r
  | None => Some r
  end.

(** The disks [rescan] looks at, and its last critical section for one. *)
Definition scanned (r : Reg) : list nat := filter (λ i, scan_is Done (mjoin (devs r !! i)) = true) (seq 0 MAX_DEVS).

Definition forget_parts (disk : nat) (r : Reg) : Reg :=
  let l := drop_parts disk (devs r) in
  match l !! disk with
  | Some (Some d) =>
      if is_disk d
      then {| devs := <[disk := Some (set_scan Pending d)]> l; pending := true; running := running r; serial_next := serial_next r |}
      else set_devs r l
  | _ => set_devs r l
  end.

(** ** The calls, interleaved *)

(** Where a task is in one of the calls.  [InScan] is before the swap of the
    flag, [InClaim] in the inner loop, [InRead] reading the table of a
    claimed disk, [InAdded] before the count goes down, [InWait] waiting for
    the count.  [UnCheck], [UnPaths], [UnUse] and [UnRemove] are the parts
    of [unregister], [ReNext], [ReUse] and [ReDrop] those of [rescan], with
    the disks it has left. *)
Inductive Call :=
  | Idle | InScan | InClaim | InRead (disk : nat) (serial : Z) | InAdded | InWait
  | UnCheck (dev : nat) | UnPaths (dev : nat) | UnUse (dev : nat) (ps : list text) | UnRemove (dev : nat) | UnForget (dev : nat)
  | ReList | ReNext (ds : list nat) | ReUse (disk : nat) (ps : list text) (ds : list nat) | ReDrop (disk : nat) (ds : list nat).

(** [in_use] is which paths are mounted or open. *)
Record Sys := { reg : Reg; calls : list Call; in_use : text → bool }.

Definition boot_sys (tasks : nat) : Sys := {| reg := boot; calls := replicate tasks Idle; in_use := λ _, false |}.

Definition with_reg (r : Reg) (s : Sys) : Sys := {| reg := r; calls := calls s; in_use := in_use s |}.

Definition with_call (t : nat) (c : Call) (s : Sys) : Sys := {| reg := reg s; calls := <[t := c]> (calls s); in_use := in_use s |}.

(** What happens next: a driver registers a disk; a task calls; a task goes
    on in its call; a task has read the partition table of the disk it
    claimed; files are opened, closed, mounted and unmounted. *)
Inductive Label :=
  | Registers (nm : text) (drv : Driver) (info : list Z)
  | Calls (t : nat) (c : Call)
  | Goes (t : nat)
  | Reads (t : nat) (es : list Gpt.Entry)
  | Uses (u : text → bool).

(** A call begins. *)
Definition is_start (c : Call) : bool := match c with InScan | UnCheck _ | ReList => true | _ => false end.

(** A part of [scan]: the table after it, and where the task is then.  The
    table is read in a step of its own, [Reads] below. *)
Definition scan_go (c : Call) (r : Reg) : option (Reg * Call) :=
  match c with
  | InScan => Some (set_pending r false, if pending r then InClaim else InWait)
  | InClaim => let '(x, r) := claim r in Some (r, match x with Some (i, serial) => InRead i serial | None => InScan end)
  | InAdded => Some (set_running r ((running r - 1) mod 2 ^ 32), InClaim)
  | InWait => Some (r, if running r =? 0 then Idle else InWait)
  | _ => None
  end.

(** A part of [unregister]; in [UnForget] the cache forgets the disk. *)
Definition unregister_go (c : Call) (use : text → bool) (r : Reg) : option (Reg * Call) :=
  match c with
  | UnCheck dev => Some (r, match get r dev with Some d => if is_disk d then UnPaths dev else Idle | None => Idle end)
  | UnPaths dev => Some (r, UnUse dev (paths_of r dev))
  | UnUse dev ps => Some (r, if existsb use ps then Idle else UnRemove dev)
  | UnRemove dev => let '(ok, r) := remove dev r in Some (r, if ok then UnForget dev else Idle)
  | UnForget dev => Some (r, Idle)
  | _ => None
  end.

(** A part of [rescan]. *)
Definition rescan_go (c : Call) (use : text → bool) (r : Reg) : option (Reg * Call) :=
  match c with
  | ReList => Some (r, ReNext (scanned r))
  | ReNext [] => Some (r, Idle)
  | ReNext (disk :: ds) => Some (r, ReUse disk (filter (λ p, bool_decide (strip_suffix (str "/data") p = None) = true) (paths_of r disk)) ds)
  | ReUse disk ps ds => Some (r, if existsb use ps then ReNext ds else ReDrop disk ds)
  | ReDrop disk ds => Some (forget_parts disk r, ReNext ds)
  | _ => None
  end.

Definition go (c : Call) (use : text → bool) (r : Reg) : option (Reg * Call) :=
  match c with
  | Idle | InRead _ _ => None
  | InScan | InClaim | InAdded | InWait => scan_go c r
  | UnCheck _ | UnPaths _ | UnUse _ _ | UnRemove _ | UnForget _ => unregister_go c use r
  | ReList | ReNext _ | ReUse _ _ _ | ReDrop _ _ => rescan_go c use r
  end.

(** What a driver says its disk's size is, in sectors. *)
Context (cap : Driver → Z).

(** The entries of a partition table on a disk of [n] sectors. *)
Definition table_ok (n : Z) (es : list Gpt.Entry) : Prop :=
  Forall (λ e, 0 <= first e <= last e ∧ last e < n ∧ 1 <= number e <= 2048) es ∧ StronglySorted (λ a b, number a < number b) es.

(** What [capacity_sectors] and [gpt::read] give for the disk that has the
    slot and the serial of a claim; of another disk they may give anything. *)
Definition may_read (disk : nat) (serial : Z) (es : list Gpt.Entry) (r : Reg) : Prop :=
  match get r disk with
  | Some {| kind := KDisk drv _ serial' _ |} => serial' = serial → table_ok (cap drv) es
  | _ => True
  end.

Inductive step : Label → Sys → Sys → Prop :=
  | step_register nm drv info s : step (Registers nm drv info) s (with_reg (register nm drv info (reg s)).2 s)
  | step_call t c s : calls s !! t = Some Idle → is_start c = true → step (Calls t c) s (with_call t c s)
  | step_go t c r c' s : calls s !! t = Some c → go c (in_use s) (reg s) = Some (r, c') → step (Goes t) s (with_call t c' (with_reg r s))
  | step_read t disk serial es r s : calls s !! t = Some (InRead disk serial) → may_read disk serial es (reg s) →
      add_parts disk serial es (reg s) = Some r → step (Reads t es) s (with_call t InAdded (with_reg r s))
  | step_use u s : step (Uses u) s {| reg := reg s; calls := calls s; in_use := u |}.

Inductive reached (tasks : nat) : Sys → Prop :=
  | reached_boot : reached tasks (boot_sys tasks)
  | reached_step l s s' : reached tasks s → step l s s' → reached tasks s'.

End registry.
