(* ===== verification/BlkFacts.v ===== *)
(** * The table of disks and partitions

    The invariant of the table of [Blk.v] over every interleaving of calls,
    and the paths devices are found by. *)

From S2P Require Import Prelude.
From stdpp Require Import gmap sorting list.
From S2P Require Import Text Gpt Blk.

Open Scope string_scope.
Open Scope list_scope.
Open Scope Z_scope.

Section facts.
Context {Driver : Type} (cap : Driver → Z).

Notation Kind := (@Kind Driver).
Notation BlkDev := (@BlkDev Driver).
Notation Reg := (@Reg Driver).
Notation Table := (list (option BlkDev)).

Implicit Types (l : Table) (d : BlkDev).

(** ** Slots *)

Definition dev_at (l : Table) (i : nat) : option BlkDev := mjoin (l !! i).

Lemma dev_at_some l i d : dev_at l i = Some d ↔ l !! i = Some (Some d).
Proof. unfold dev_at. destruct (l !! i) as [[x|]|]; naive_solver. Qed.

Lemma dev_at_insert l i x j : (i < length l)%nat → dev_at (<[i := x]> l) j = if decide (j = i) then x else dev_at l j.
Proof.
  intros Hi. unfold dev_at. case_decide as E; [subst; by rewrite list_lookup_insert_eq|]. by rewrite list_lookup_insert_ne by done.
Qed.

Lemma dev_at_drop k l j : dev_at (drop_parts k l) j = (d ← dev_at l j; if part_of k d then None else Some d).
Proof.
  unfold dev_at, drop_parts. rewrite list_lookup_fmap. destruct (l !! j) as [[d|]|]; cbn; [|done..]. by destruct (part_of k d).
Qed.

Lemma position_first {A} (f : A → bool) (l : list A) i :
  position f l = Some i ↔ ∃ x, l !! i = Some x ∧ f x = true ∧ ∀ j y, l !! j = Some y → (j < i)%nat → f y = false.
Proof.
  unfold position. rewrite fmap_Some. split.
  - intros ([j x]&(H1&H2&H3)%list_find_Some&->). exists x. split_and!; [done..|]. intros j' y Hy Hj. apply not_true_is_false. by eapply H3.
  - intros (x&H1&H2&H3). exists (i, x). split; [|done]. apply list_find_Some. split_and!; [done..|]. intros j y Hy Hj Hf. by rewrite (H3 j y) in Hf.
Qed.

Lemma position_absent {A} (f : A → bool) (l : list A) : position f l = None ↔ ∀ i x, l !! i = Some x → f x = false.
Proof.
  unfold position. rewrite fmap_None, list_find_None, Forall_lookup. split; intros H i x Hx; [apply not_true_is_false; by eapply H|].
  by rewrite (H i x Hx).
Qed.

Lemma free_slot_some l i : free_slot l = Some i → l !! i = Some None ∧ (i < length l)%nat.
Proof. intros (x&Hx&H&_)%position_first. destruct x; [done|]. split; [done|]. by eapply lookup_lt_Some. Qed.

Lemma taken_false l n : taken l n = false → ∀ i d, dev_at l i = Some d → is_disk d = true → name d ≠ n.
Proof.
  intros H i d Hd%dev_at_some Hk <-. apply not_true_iff_false in H. apply H, existsb_exists. exists (Some d). split.
  - by eapply list_elem_of_In, list_elem_of_lookup_2.
  - rewrite Hk. cbn. by rewrite bool_decide_eq_true_2.
Qed.

(** ** The invariant *)

(** A partition's place: on a disk that is there and has been read, under
    its name, within its sectors. *)
Definition part_ok (l : Table) (n : text) (p : Part) : Prop := ∃ drv serial info,
  dev_at l (p_disk p) = Some {| name := n; kind := KDisk drv Done serial info |} ∧
  1 <= p_number p <= 2048 ∧ 0 <= p_first p ∧ 1 <= p_sectors p ∧ p_first p + p_sectors p <= cap drv.

Record tab_ok (l : Table) : Prop := {
  tab_len : length l = MAX_DEVS;
  tab_name : ∀ i d, dev_at l i = Some d → is_disk d = true → valid_name (name d) = true;
  tab_names : ∀ i j d d', dev_at l i = Some d → dev_at l j = Some d' → is_disk d = true → is_disk d' = true → name d = name d' → i = j;
  tab_part : ∀ i n p, dev_at l i = Some {| name := n; kind := KPart p |} → part_ok l n p;
  tab_parts : ∀ i j n n' p p', dev_at l i = Some {| name := n; kind := KPart p |} → dev_at l j = Some {| name := n'; kind := KPart p' |} →
    p_disk p = p_disk p' → p_number p = p_number p' → i = j }.

Lemma tab_boot : tab_ok (devs boot).
Proof.
  assert (H : ∀ i, dev_at (devs boot) i = None).
  { intros i. unfold dev_at. cbn -[MAX_DEVS replicate]. destruct (replicate MAX_DEVS None !! i) as [x|] eqn:E; [|done]. by apply lookup_replicate in E as [-> _]. }
  split; [done|..]; intros *; rewrite !H; done.
Qed.

(** A disk goes into a free slot. *)
Lemma tab_new_disk l i n drv serial info : tab_ok l → free_slot l = Some i → valid_name n = true → taken l n = false →
  tab_ok (<[i := Some {| name := n; kind := KDisk drv Pending serial info |}]> l).
Proof.
  intros [H1 H2 H3 H4 H5] (Hi&Hlt)%free_slot_some Hv Ht. pose proof (taken_false l n Ht) as Htk.
  assert (Hfree : dev_at l i = None) by (unfold dev_at; by rewrite Hi).
  split; [by rewrite length_insert|..]; (repeat setoid_rewrite dev_at_insert; [|done..]).
  - intros j d. case_decide; [by intros [= <-]|]. apply H2.
  - intros j k d d'. do 2 case_decide; subst; try done.
    + intros [= <-] Hd' _ Hk E. cbn in E. by destruct (Htk k d' Hd' Hk).
    + intros Hd [= <-] Hk _ E. cbn in E. by destruct (Htk j d Hd Hk).
    + by apply H3.
  - intros j n' p. case_decide; [done|]. intros Hp. destruct (H4 j n' p Hp) as (drv'&se&inf&Hd&Hb). exists drv', se, inf. split; [|done].
    rewrite dev_at_insert, decide_False by (done || congruence). done.
  - intros j k m m' p p'. do 2 (case_decide; [done|]). apply H5.
Qed.

Lemma register_ok nm drv info (r : Reg) : tab_ok (devs r) → tab_ok (devs (register nm drv info r).2).
Proof.
  intros H. unfold register. destruct (settle (devs r) nm) as [n|]; [|done]. destruct (valid_name n) eqn:Ev; cbn [negb]; [|done].
  destruct (taken (devs r) n) eqn:Et; [done|]. destruct (free_slot (devs r)) eqn:Ef; [|done]. by apply tab_new_disk.
Qed.

(** A device goes, with what is on it. *)
Lemma tab_drop l k : tab_ok l → tab_ok (drop_parts k l) ∧ ∀ i n p, dev_at (drop_parts k l) i = Some {| name := n; kind := KPart p |} → p_disk p ≠ k.
Proof.
  intros [H1 H2 H3 H4 H5].
  assert (Hin : ∀ i d, dev_at (drop_parts k l) i = Some d → dev_at l i = Some d ∧ part_of k d = false).
  { intros i d. rewrite dev_at_drop. destruct (dev_at l i) as [x|]; [|done]. cbn. destruct (part_of k x) eqn:E; [done|]. by intros [= <-]. }
  split.
  - split; [unfold drop_parts; by rewrite length_fmap|..].
    + intros i d [Hd _]%Hin. by eapply H2.
    + intros i j d d' [Hd _]%Hin [Hd' _]%Hin. by apply H3.
    + intros i n p [Hp _]%Hin. destruct (H4 i n p Hp) as (drv&se&inf&Hd&Hb). exists drv, se, inf. split; [|done]. by rewrite dev_at_drop, Hd.
    + intros i j n n' p p' [Hd _]%Hin [Hd' _]%Hin. by eapply H5.
  - intros i n p [_ Hp]%Hin. cbn in Hp. by apply bool_decide_eq_false in Hp.
Qed.

Lemma tab_remove l k : tab_ok l → (∀ i n p, dev_at l i = Some {| name := n; kind := KPart p |} → p_disk p ≠ k) → (k < length l)%nat →
  tab_ok (<[k := None]> l).
Proof.
  intros [H1 H2 H3 H4 H5] Hk Hlt. split; [by rewrite length_insert|..]; (repeat setoid_rewrite dev_at_insert; [|done..]).
  - intros i d. case_decide; [done|]. apply H2.
  - intros i j d d'. do 2 (case_decide; [done|]). apply H3.
  - intros i n p. case_decide; [done|]. intros Hp. destruct (H4 i n p Hp) as (drv&se&inf&Hd&Hb). exists drv, se, inf. split; [|done].
    rewrite dev_at_insert by done. by rewrite decide_False by (by eapply Hk).
  - intros i j n n' p p'. do 2 (case_decide; [done|]). apply H5.
Qed.

Lemma reg_remove_ok k (r : Reg) : tab_ok (devs r) → tab_ok (devs (remove k r).2).
Proof.
  intros H. destruct (tab_drop _ k H) as [Hd Hk]. unfold remove. destruct (drop_parts k (devs r) !! k) as [[d|]|] eqn:E; [|done..].
  apply tab_remove; [done..|]. by eapply lookup_lt_Some.
Qed.

(** A disk whose partitions are not in the table changes its state. *)
Definition bare (l : Table) (k : nat) : Prop := ∀ i n p, dev_at l i = Some {| name := n; kind := KPart p |} → p_disk p ≠ k.

Lemma bare_unread l k d : tab_ok l → dev_at l k = Some d → scan_is Done (Some d) = false → bare l k.
Proof.
  intros H Hd Hs i n p Hp E. destruct (tab_part l H i n p Hp) as (drv&se&inf&Hk&_). rewrite E, Hd in Hk. injection Hk as ->. done.
Qed.

Lemma set_scan_disk sc d : is_disk (set_scan sc d) = is_disk d ∧ name (set_scan sc d) = name d.
Proof. unfold is_disk, set_scan. by destruct d as [n [drv x se inf|p]]. Qed.

Lemma tab_scan l k d sc : tab_ok l → dev_at l k = Some d → is_disk d = true → bare l k → tab_ok (<[k := Some (set_scan sc d)]> l).
Proof.
  intros [H1 H2 H3 H4 H5] Hd Hk Hb. destruct (set_scan_disk sc d) as [E1 E2].
  assert (Hlt : (k < length l)%nat) by (by eapply lookup_lt_Some, dev_at_some).
  assert (Hnp : ∀ n p, set_scan sc d ≠ {| name := n; kind := KPart p |}) by (intros n p E; rewrite E in E1; cbn in E1; congruence).
  split; [by rewrite length_insert|..]; (repeat setoid_rewrite dev_at_insert; [|done..]).
  - intros i x. case_decide; [|apply H2]. intros [= <-] _. rewrite E2. by eapply H2.
  - intros i j x y. do 2 case_decide; subst; try done.
    + intros [= <-] Hy Hx' Hy' E. rewrite E2 in E. by eapply (H3 k j d y).
    + intros Hx [= <-] Hx' Hy' E. rewrite E2 in E. by eapply (H3 i k x d).
    + apply H3.
  - intros i n p. case_decide; [intros E%(inj Some); by destruct (Hnp n p)|]. intros Hp. destruct (H4 i n p Hp) as (drv&se&inf&Hx&Hr).
    exists drv, se, inf. split; [|done]. rewrite dev_at_insert by done. by rewrite decide_False by (by eapply Hb).
  - intros i j n n' p p'. case_decide; [intros E%(inj Some); by destruct (Hnp _ _ E)|]. case_decide; [intros _ E%(inj Some); by destruct (Hnp _ _ E)|]. apply H5.
Qed.

Lemma claim_ok (r : Reg) : tab_ok (devs r) → tab_ok (devs (claim r).2).
Proof.
  intros H. unfold claim. destruct (position (scan_is Pending) (devs r)) as [i|] eqn:E; [|done]. apply position_first in E as (x&Hx&Hs&_).
  unfold get. rewrite Hx. destruct x as [d|]; [|done]. cbn. apply dev_at_some in Hx as Hd. apply tab_scan; [done..| |].
  - unfold is_disk. destruct d as [n [drv sc se inf|p]]; [done|]. done.
  - eapply bare_unread; [done..|]. cbn in Hs |- *. destruct d as [n [drv sc se inf|p]]; [|done]. apply bool_decide_eq_true in Hs. by subst.
Qed.

Lemma forget_parts_ok k (r : Reg) : tab_ok (devs r) → tab_ok (devs (forget_parts k r)).
Proof.
  intros H. destruct (tab_drop _ k H) as [Hd Hk]. unfold forget_parts. destruct (drop_parts k (devs r) !! k) as [[d|]|] eqn:E; [|done..].
  destruct (is_disk d) eqn:Ed; [|done]. apply tab_scan; [done| |done|done]. by apply dev_at_some.
Qed.

(** A partition goes into a free slot. *)
Lemma tab_new_part l i n p : tab_ok l → free_slot l = Some i → part_ok l n p →
  (∀ j n' p', dev_at l j = Some {| name := n'; kind := KPart p' |} → p_disk p' = p_disk p → p_number p' ≠ p_number p) →
  tab_ok (<[i := Some {| name := n; kind := KPart p |}]> l).
Proof.
  intros [H1 H2 H3 H4 H5] (Hi&Hlt)%free_slot_some Hp Hnew.
  assert (Hfree : dev_at l i = None) by (unfold dev_at; by rewrite Hi).
  assert (Hkeep : ∀ n' p', part_ok l n' p' → part_ok (<[i := Some {| name := n; kind := KPart p |}]> l) n' p').
  { intros n' p' (drv&se&inf&Hd&Hb). exists drv, se, inf. split; [|done]. rewrite dev_at_insert, decide_False by (done || congruence). done. }
  split; [by rewrite length_insert|..]; (repeat setoid_rewrite dev_at_insert; [|done..]).
  - intros j d. case_decide; [by intros [= <-]|]. apply H2.
  - intros j k d d'. case_decide; [by intros [= <-]|]. case_decide; [by intros ? [= <-]|]. apply H3.
  - intros j n' p'. case_decide; [intros [= <- <-]; by apply Hkeep|]. intros Hp'. apply Hkeep. by eapply H4.
  - intros j k m m' p1 p2. do 2 case_decide; subst; try done.
    + intros [= <- <-] Hp2 E1 E2. by destruct (Hnew k m' p2 Hp2).
    + intros Hp1 [= <- <-] E1 E2. by destruct (Hnew j m p1 Hp1).
    + apply H5.
Qed.

Context (Hcap : ∀ drv, cap drv < 2 ^ 64).

Lemma part_at_ok disk drv e : 0 <= first e <= last e → last e < cap drv →
  part_at disk e = Some {| p_disk := disk; p_number := number e; p_first := first e; p_sectors := last e - first e + 1; p_type := type_guid e;
                           p_uuid := uuid e; p_label := label e |}.
Proof using Hcap.
  intros Hf Hl. pose proof (Hcap drv). unfold part_at, usub. rewrite (proj2 (Z.leb_le _ _)) by lia. cbn [mbind option_bind].
  unfold add64. by rewrite fits_in by lia.
Qed.

Lemma put_parts_ok disk n drv se inf es l : tab_ok l → dev_at l disk = Some {| name := n; kind := KDisk drv Done se inf |} → table_ok (cap drv) es →
  (∀ j n' p', dev_at l j = Some {| name := n'; kind := KPart p' |} → p_disk p' = disk → Forall (λ e, p_number p' < number e) es) →
  ∃ l', put_parts disk n es l = Some l' ∧ tab_ok l' ∧ ∀ i d, dev_at l i = Some d → dev_at l' i = Some d.
Proof using Hcap.
  intros Hl Hd [He Hs] Hnew. revert l Hl Hd Hnew. induction es as [|e es IH]; intros l Hl Hd Hnew; cbn [put_parts]; [by exists l|].
  destruct (free_slot l) as [i|] eqn:Ef; [|by exists l]. apply Forall_cons in He as [(H1&H2&H3) He]. apply StronglySorted_inv in Hs as [Hs Hlt].
  rewrite (part_at_ok disk drv) by done. cbn [mbind option_bind]. set (p := {| p_disk := disk |}).
  destruct (free_slot_some l i Ef) as [Hi Hil]. assert (Hdi : disk ≠ i) by (intros ->; unfold dev_at in Hd; by rewrite Hi in Hd).
  destruct (IH He Hs (<[i := Some {| name := n; kind := KPart p |}]> l)) as (l'&E&H'&Hk).
  - apply tab_new_part; [done..| |].
    + exists drv, se, inf. subst p. cbn. split; [done|]. lia.
    + intros j n' p' Hp' Hdisk. apply Hnew in Hp'; [|done]. apply Forall_cons in Hp' as [Hp' _]. subst p. cbn. lia.
  - rewrite dev_at_insert by done. by rewrite decide_False.
  - intros j n' p'. rewrite dev_at_insert by done. case_decide.
    + intros [= <- <-] _. subst p. cbn. done.
    + intros Hp' Hdisk. apply Hnew in Hp'; [|done]. by apply Forall_cons in Hp' as [_ Hp'].
  - exists l'. split; [done|]. split; [done|]. intros j d Hj. apply Hk. rewrite dev_at_insert by done. rewrite decide_False; [done|].
    intros ->. unfold dev_at in Hj. by rewrite Hi in Hj.
Qed.

(** A finished scan never panics. *)
Lemma add_parts_ok disk serial es (r : Reg) : tab_ok (devs r) → may_read cap disk serial es r → ∃ r', add_parts disk serial es r = Some r' ∧ tab_ok (devs r').
Proof using Hcap.
  intros H Hm. unfold add_parts, may_read in *. destruct (get r disk) as [[n k]|] eqn:E; [|by exists r]. cbn [name] in *.
  destruct k as [drv sc se inf|p]; [|by exists r]. cbn [scan_is]. destruct (bool_decide (sc = Running)) eqn:Es; [|by exists r].
  apply bool_decide_eq_true in Es as ->. unfold serial_of, set_scan. cbn [andb kind name]. destruct (Z.eqb_spec se serial) as [Hse|]; [|by exists r]. specialize (Hm Hse).
  assert (Hd : dev_at (devs r) disk = Some {| name := n; kind := KDisk drv Running se inf |}) by done.
  pose proof (bare_unread _ _ _ H Hd eq_refl) as Hb. pose proof (tab_scan _ _ _ Done H Hd eq_refl Hb) as H'. cbn in H'.
  assert (Hlt : (disk < length (devs r))%nat) by (by eapply lookup_lt_Some, dev_at_some).
  destruct (put_parts_ok disk n drv se inf es _ H') as (l'&->&Hl'&_); [by rewrite dev_at_insert, decide_True|done| |by eexists].
  intros j n' p'. rewrite dev_at_insert by done. case_decide; [done|]. intros Hp' E'. by destruct (Hb j n' p' Hp').
Qed.

Lemma go_ok c use (r : Reg) r' c' : tab_ok (devs r) → go c use r = Some (r', c') → tab_ok (devs r').
Proof.
  intros H. destruct c; cbn [go scan_go unregister_go rescan_go]; try (by intros [= <- <-]); try done.
  - pose proof (claim_ok r H) as Hc. destruct (claim r). by intros [= <- <-].
  - pose proof (reg_remove_ok dev r H) as Hc. destruct (remove dev r). by intros [= <- <-].
  - destruct ds; by intros [= <- <-].
  - intros [= <- <-]. by apply forget_parts_ok.
Qed.

Lemma reached_tab tasks s : reached cap tasks s → tab_ok (devs (reg s)).
Proof using Hcap.
  induction 1 as [|lab s s' _ IH Hstep]; [apply tab_boot|]. destruct Hstep as [nm drv info s|t c s _ _|t c r c' s _ E|t disk serial es r s _ Hm E|u s]; try done.
  - by apply register_ok.
  - by eapply go_ok.
  - destruct (add_parts_ok disk serial es _ IH Hm) as (r'&E'&Hok). rewrite E in E'. by injection E' as <-.
Qed.

(** ** Paths *)

Lemma split_once_name n m : forallb is_alphanumeric n = true → split_once (λ c, c =? 47) (n ++ 47 :: m) = Some (n, m).
Proof.
  induction n as [|c n IH]; cbn [forallb app split_once]; [done|]. intros [Hc Hn]%andb_true_iff. destruct (Z.eqb_spec c 47) as [->|]; [done|].
  by rewrite (IH Hn).
Qed.

Lemma split_once_inv f p a b : split_once f p = Some (a, b) → ∃ c, f c = true ∧ p = a ++ c :: b.
Proof.
  revert a. induction p as [|c p IH]; intros a; cbn [split_once]; [done|]. destruct (f c) eqn:E; [intros [= <- <-]; by exists c|].
  destruct (split_once f p) as [[a' b']|]; [|done]. cbn. intros [= <- <-]. destruct (IH a' eq_refl) as (c'&Hc&->). by exists c'.
Qed.

Section paths.
Context (r : Reg) (H : tab_ok (devs r)).

Lemma disk_by_name_spec n i : disk_by_name r n = Some i ↔ ∃ d, get r i = Some d ∧ is_disk d = true ∧ name d = n.
Proof using H.
  unfold disk_by_name. rewrite position_first. split.
  - intros (x&Hx&Hf&_). destruct x as [d|]; [|done]. apply andb_true_iff in Hf as [Hk Hn%bool_decide_eq_true]. exists d. split; [|done]. by apply dev_at_some.
  - intros (d&Hd&Hk&Hn). exists (Some d). split; [by apply dev_at_some|]. rewrite Hk, bool_decide_eq_true_2 by done. split; [done|].
    intros j y Hy Hj. destruct y as [d'|]; [|done]. apply not_true_is_false. intros [Hk' Hn'%bool_decide_eq_true]%andb_true_iff.
    apply dev_at_some in Hy. assert (i = j) by (eapply (tab_names _ H); [exact Hd|exact Hy|done..|congruence]). lia.
Qed.

Definition has_number (disk : nat) (v : Z) (d : option BlkDev) : bool :=
  match d with Some {| kind := KPart p |} => bool_decide (p_disk p = disk) && (p_number p =? v) | _ => false end.

Lemma part_position disk v i : position (has_number disk v) (devs r) = Some i ↔
  ∃ n p, get r i = Some {| name := n; kind := KPart p |} ∧ p_disk p = disk ∧ p_number p = v.
Proof using H.
  rewrite position_first. split.
  - intros (x&Hx&Hf&_). destruct x as [[n [drv sc se inf|p]]|]; [done| |done]. cbn in Hf. apply andb_true_iff in Hf as [Hk%bool_decide_eq_true Hn%Z.eqb_eq].
    exists n, p. split; [|done]. by apply dev_at_some.
  - intros (n&p&Hd&Hk&Hn). eexists. split; [by apply dev_at_some|]. cbn. rewrite bool_decide_eq_true_2, (proj2 (Z.eqb_eq _ _)) by done. split; [done|].
    intros j y Hy Hj. destruct y as [[n' [drv sc se inf|p']]|]; [done| |done]. apply not_true_is_false. cbn.
    intros [Hk'%bool_decide_eq_true Hn'%Z.eqb_eq]%andb_true_iff. apply dev_at_some in Hy.
    assert (i = j) by (eapply (tab_parts _ H); [exact Hd|exact Hy|congruence..]). lia.
Qed.

Lemma by_path_of i d : get r i = Some d → by_path r r (path d) = Some i.
Proof using H.
  intros Hd. destruct d as [n [drv sc se inf|p]]; unfold path, by_path; cbn [kind name].
  - pose proof (tab_name _ H _ _ Hd eq_refl) as Hv. unfold valid_name in Hv. apply andb_true_iff in Hv as [_ Hv]. cbn in Hv.
    change (str "/data") with (47 :: str "data"). rewrite split_once_name by done. cbn [mbind option_bind].
    rewrite (proj2 (disk_by_name_spec n i)) by (eexists; split_and!; [exact Hd|done..]). done.
  - destruct (tab_part _ H _ _ _ Hd) as (drv&se&inf&Hk&Hn&_). pose proof (tab_name _ H _ _ Hk eq_refl) as Hv. unfold valid_name in Hv.
    apply andb_true_iff in Hv as [_ Hv]. cbn in Hv. change (str "/p" ++ dec (p_number p)) with (47 :: str "p" ++ dec (p_number p)).
    rewrite split_once_name by done. cbn [mbind option_bind]. rewrite (proj2 (disk_by_name_spec n (p_disk p))) by (eexists; split_and!; [exact Hk|done..]).
    cbn [mbind option_bind]. rewrite bool_decide_eq_false_2 by done. change (strip_prefix (str "p") (str "p" ++ dec (p_number p))) with (Some (dec (p_number p))).
    cbn [mbind option_bind]. rewrite parse_dec by (unfold U32_MAX; lia). cbn [mbind option_bind]. rewrite bool_decide_eq_true_2 by done. cbn [negb].
    apply (part_position (p_disk p) (p_number p) i). by exists n, p.
Qed.

Lemma by_path_inv q i : by_path r r q = Some i → ∃ d, get r i = Some d ∧ path d = q.
Proof using H.
  unfold by_path. destruct (split_once _ q) as [[a b]|] eqn:Es; [|done]. apply split_once_inv in Es as (c&->%Z.eqb_eq&->). cbn [mbind option_bind].
  destruct (disk_by_name r a) as [k|] eqn:Ek; [|done]. cbn [mbind option_bind]. apply disk_by_name_spec in Ek as (dk&Hk&Hdk&<-).
  destruct (bool_decide (b = str "data")) eqn:Eb.
  - apply bool_decide_eq_true in Eb as ->. intros [= <-]. exists dk. split; [done|]. unfold path, is_disk in *. by destruct (kind dk).
  - destruct (strip_prefix (str "p") b) as [rest|]; [|done]. cbn [mbind option_bind]. destruct (parse_u32 rest) as [v|]; [|done]. cbn [mbind option_bind].
    destruct (bool_decide (b = str "p" ++ dec v)) eqn:Eq; [|done]. apply bool_decide_eq_true in Eq as ->. cbn [negb].
    intros Hp. apply (part_position k v i) in Hp as (n&p&Hp&<-&<-). exists {| name := n; kind := KPart p |}. split; [done|].
    destruct (tab_part _ H _ _ _ Hp) as (drv&se&inf&Hk'&_). change (get r (p_disk p)) with (dev_at (devs r) (p_disk p)) in Hk. rewrite Hk in Hk'. by injection Hk' as ->.
Qed.

End paths.

(** Only the disk's slot is carried from the first look to the second. *)
Lemma by_path_steady (r r' : Reg) q : disk_of r q = disk_of r' q → by_path r r' q = by_path r' r' q.
Proof. unfold by_path, disk_of. destruct (split_once _ q) as [[a b]|]; [|done]. cbn [mbind option_bind]. by intros ->. Qed.

End facts.
