(* ===== verification/BlkScan.v ===== *)
(** * Scans of partition tables

    What a scan waits for, over every interleaving of calls on the table of
    [Blk.v]. *)

From S2P Require Import Prelude.
From stdpp Require Import gmap sorting list.
From S2P Require Import Text Gpt Blk BlkFacts.

Open Scope string_scope.
Open Scope list_scope.
Open Scope Z_scope.

Section scans.
Context {Driver : Type} (cap : Driver → Z) (Hcap : ∀ drv, cap drv < 2 ^ 64).

Notation BlkDev := (@BlkDev Driver).
Notation Reg := (@Reg Driver).
Notation Sys := (@Sys Driver).
Notation Table := (list (option BlkDev)).

(** ** How far a disk is read *)

Definition dev_state (d : BlkDev) : option (Scan * Z) := match kind d with KDisk _ sc serial _ => Some (sc, serial) | KPart _ => None end.

Definition state_at (l : Table) (i : nat) : option (Scan * Z) := d ← dev_at l i; dev_state d.

Lemma state_insert (l : Table) i x j : (i < length l)%nat → state_at (<[i := x]> l) j = if decide (j = i) then d ← x; dev_state d else state_at l j.
Proof. intros Hi. unfold state_at. rewrite dev_at_insert by done. by case_decide. Qed.

Lemma state_drop k (l : Table) j : state_at (drop_parts k l) j = state_at l j.
Proof. unfold state_at. rewrite dev_at_drop. destruct (dev_at l j) as [[n [drv sc se inf|p]]|]; [done| |done]. cbn. by case_bool_decide. Qed.

Lemma dev_state_scan sc (d : BlkDev) : dev_state (set_scan sc d) = (λ x : Scan * Z, (sc, x.2)) <$> dev_state d.
Proof. unfold dev_state, set_scan. by destruct d as [n [drv sc' se inf|p]]. Qed.

Lemma register_state nm drv info (r : Reg) j : let r' := (register nm drv info r).2 in running r' = running r ∧
  (state_at (devs r') j = state_at (devs r) j ∧ (pending r' = pending r ∨ pending r' = true) ∨
   pending r' = true ∧ ∃ se, state_at (devs r') j = Some (Pending, se)).
Proof.
  unfold register. destruct (settle (devs r) nm) as [n|]; [|auto]. destruct (negb (valid_name n)); [auto|]. destruct (taken (devs r) n); [auto|].
  destruct (free_slot (devs r)) as [i|] eqn:E; [|auto]. apply free_slot_some in E as [_ Hlt]. cbn. split; [done|]. rewrite state_insert by done.
  case_decide; [right; split; [done|by eexists]|by left; auto].
Qed.

Lemma claim_state (r : Reg) x r' : claim r = (x, r') → pending r' = pending r ∧
  match x with
  | None => r' = r ∧ ∀ i se, state_at (devs r) i ≠ Some (Pending, se)
  | Some (i, se) => running r' = (running r + 1) mod 2 ^ 32 ∧ state_at (devs r) i = Some (Pending, se) ∧
      ∀ j, state_at (devs r') j = if decide (j = i) then Some (Running, se) else state_at (devs r) j
  end.
Proof.
  unfold claim. destruct (position (scan_is Pending) (devs r)) as [i|] eqn:E.
  - apply position_first in E as (y&Hy&Hs&_). unfold get. rewrite Hy. destruct y as [d|]; [|done]. cbn [mjoin option_join]. intros [= <- <-]. cbn [devs running pending].
    assert (Hlt : (i < length (devs r))%nat) by (by eapply lookup_lt_Some). apply dev_at_some in Hy.
    destruct d as [n [drv sc se inf|p]]; [|done]. cbn in Hs. apply bool_decide_eq_true in Hs as ->. split; [done|]. split; [done|].
    split; [unfold state_at; by rewrite Hy|]. intros j. rewrite state_insert by done. by case_decide.
  - intros [= <- <-]. split; [done|]. split; [done|]. rewrite position_absent in E. intros i se. unfold state_at.
    destruct (dev_at (devs r) i) as [d|] eqn:Ed; [|done]. apply dev_at_some in Ed. apply E in Ed. destruct d as [n [drv sc se' inf|p]]; [|done]. cbn.
    intros [= -> ->]. done.
Qed.

Lemma remove_state k (r : Reg) j : let r' := (remove k r).2 in pending r' = pending r ∧ running r' = running r ∧
  (state_at (devs r') j = state_at (devs r) j ∨ state_at (devs r') j = None).
Proof.
  unfold remove. destruct (drop_parts k (devs r) !! k) as [[d|]|] eqn:E; cbn; (split; [done|]); (split; [done|]); [|left; apply state_drop..].
  rewrite state_insert by (by eapply lookup_lt_Some). case_decide; [by right|left; apply state_drop].
Qed.

Lemma forget_state k (r : Reg) j : let r' := forget_parts k r in running r' = running r ∧ (pending r' = pending r ∨ pending r' = true) ∧
  (state_at (devs r') j = state_at (devs r) j ∨ pending r' = true ∧ ∃ se, state_at (devs r') j = Some (Pending, se)).
Proof.
  unfold forget_parts. destruct (drop_parts k (devs r) !! k) as [[d|]|] eqn:E; [|cbn; rewrite state_drop; auto..].
  destruct (is_disk d) eqn:Ed; [|cbn; rewrite state_drop; auto]. cbn. split; [done|]. split; [by right|].
  rewrite state_insert by (by eapply lookup_lt_Some). case_decide; [right|left; apply state_drop]. split; [done|]. cbn. rewrite dev_state_scan.
  unfold is_disk in Ed. unfold dev_state. destruct (kind d) as [drv sc se inf|]; [|done]. by exists se.
Qed.

Lemma put_parts_state disk n es (l l' : Table) j : put_parts disk n es l = Some l' → state_at l' j = state_at l j.
Proof.
  revert l. induction es as [|e es IH]; intros l; cbn [put_parts]; [by intros [= ->]|]. destruct (free_slot l) as [i|] eqn:E; [|by intros [= ->]].
  destruct (part_at disk e) as [p|]; [|done]. cbn [mbind option_bind]. intros H. rewrite (IH _ H). apply free_slot_some in E as [Hi Hlt].
  rewrite state_insert by done. case_decide as Ej; [|done]. subst. unfold state_at, dev_at. by rewrite Hi.
Qed.

Lemma add_parts_state disk serial es (r r' : Reg) : add_parts disk serial es r = Some r' → pending r' = pending r ∧ running r' = running r ∧
  ∀ j, state_at (devs r') j = if decide (j = disk ∧ state_at (devs r) j = Some (Running, serial)) then Some (Done, serial) else state_at (devs r) j.
Proof.
  unfold add_parts. destruct (get r disk) as [d|] eqn:E; change (get r disk) with (dev_at (devs r) disk) in E.
  2:{ intros [= <-]. split_and!; [done..|]. intros j. case_decide as Ej; [|done]. destruct Ej as [-> Ej]. unfold state_at in Ej. by rewrite E in Ej. }
  destruct (scan_is Running (Some d) && (serial_of d =? serial)) eqn:Ec.
  - destruct (put_parts _ _ _ _) as [l|] eqn:Ep; [|done]. cbn. intros [= <-]. cbn. split_and!; [done..|]. intros j. rewrite (put_parts_state _ _ _ _ _ j Ep).
    rewrite state_insert by (by eapply lookup_lt_Some, dev_at_some). apply andb_true_iff in Ec as [Hs Hse%Z.eqb_eq].
    destruct d as [n [drv sc se inf|p]]; [|done]. cbn in Hs, Hse. apply bool_decide_eq_true in Hs. subst sc se.
    assert (Hst : state_at (devs r) disk = Some (Running, serial)) by (unfold state_at; by rewrite E).
    destruct (decide (j = disk)) as [->|Hj]; [by rewrite decide_True|]. by rewrite decide_False by naive_solver.
  - intros [= <-]. split_and!; [done..|]. intros j. case_decide as Ej; [|done]. destruct Ej as [-> Ej]. exfalso. unfold state_at in Ej. rewrite E in Ej.
    destruct d as [n [drv sc se inf|p]]; [|done]. cbn in Ej. injection Ej as -> ->. cbn in Ec. by rewrite Z.eqb_refl in Ec.
Qed.

(** ** Who is reading *)

(** A task between the count going up and it going down again. *)
Definition counted (c : Call) : bool := match c with InRead _ _ | InAdded => true | _ => false end.

(** A task in the loop over the disks. *)
Definition looping (c : Call) : bool := match c with InClaim => true | _ => counted c end.

Definition readers (cs : list Call) : Z := zlen (filter (λ c, counted c = true) cs).

Lemma readers_insert cs t c c' : cs !! t = Some c →
  readers (<[t := c']> cs) = readers cs - (if counted c then 1 else 0) + (if counted c' then 1 else 0).
Proof.
  intros Ht. unfold readers. rewrite insert_take_drop by (by eapply lookup_lt_Some). rewrite <- (take_drop_middle cs t c Ht) at 3.
  rewrite !filter_app, !filter_cons, !length_app. destruct (counted c), (counted c');
    rewrite ?(decide_True (P := true = true)), ?(decide_False (P := false = true)) by done; cbn [length]; lia.
Qed.

Lemma readers_le cs : 0 <= readers cs <= zlen cs.
Proof. unfold readers. pose proof (length_filter (λ c, counted c = true) cs). lia. Qed.

Lemma no_readers cs t c : readers cs = 0 → cs !! t = Some c → counted c = false.
Proof.
  intros H Ht. apply not_true_is_false. intros Hc. unfold readers in H. assert (Hin : c ∈ filter (λ c, counted c = true) cs).
  { apply list_elem_of_filter. split; [done|]. by eapply list_elem_of_lookup_2. }
  destruct (filter _ cs); [by apply elem_of_nil in Hin|]. cbn in H. lia.
Qed.

Record scans_ok (tasks : nat) (s : Sys) : Prop := {
  so_len : length (calls s) = tasks;
  so_count : running (reg s) = readers (calls s);
  so_running : ∀ i se, state_at (devs (reg s)) i = Some (Running, se) → ∃ t, calls s !! t = Some (InRead i se);
  so_pending : ∀ i se, state_at (devs (reg s)) i = Some (Pending, se) →
    pending (reg s) = true ∨ ∃ t c, calls s !! t = Some c ∧ looping c = true }.

Context (tasks : nat) (Htasks : Z.of_nat tasks < 2 ^ 32).

(** A task goes on, and neither reads nor has read. *)
Lemma scans_call s r t c c' : scans_ok tasks s → calls s !! t = Some c → counted c = false → counted c' = false → running r = running (reg s) →
  (∀ i se, state_at (devs r) i = Some (Running, se) → state_at (devs (reg s)) i = Some (Running, se)) →
  (∀ i se, state_at (devs r) i = Some (Pending, se) → pending r = true ∨ looping c' = true ∨
    ∃ t' x, t' ≠ t ∧ calls s !! t' = Some x ∧ looping x = true) →
  scans_ok tasks (with_call t c' (with_reg r s)).
Proof.
  intros [H1 H2 H3 H4] Ht Hc Hc' Hr Hrun Hpend. assert (Hlt : (t < length (calls s))%nat) by (by eapply lookup_lt_Some). split; cbn.
  - by rewrite length_insert.
  - rewrite (readers_insert _ _ _ _ Ht), Hc, Hc', Hr, H2. lia.
  - intros i se (t'&Ht')%Hrun%H3. exists t'. rewrite list_lookup_insert_ne; [done|]. intros ->. rewrite Ht in Ht'. injection Ht' as ->. done.
  - intros i se [?|[Hl|(t'&x&Hne&Hx&Hl)]]%Hpend; [by left|right; exists t, c'; by rewrite list_lookup_insert_eq|].
    right. exists t', x. by rewrite list_lookup_insert_ne.
Qed.

(** Other tasks that loop, or none is needed. *)
Lemma others_loop s t c i se : scans_ok tasks s → calls s !! t = Some c → looping c = false → state_at (devs (reg s)) i = Some (Pending, se) →
  pending (reg s) = true ∨ ∃ t' x, t' ≠ t ∧ calls s !! t' = Some x ∧ looping x = true.
Proof.
  intros Hs Ht Hl Hp. destruct (so_pending _ _ Hs i se Hp) as [?|(t'&x&Hx&Hlx)]; [by left|right]. exists t', x. split; [|done]. intros ->. congruence.
Qed.

(** A task claims a disk, or finds none. *)
Lemma scans_claim s t x r : scans_ok tasks s → calls s !! t = Some InClaim → claim (reg s) = (x, r) →
  scans_ok tasks (with_call t (match x with Some (i, serial) => InRead i serial | None => InScan end) (with_reg r s)).
Proof using Htasks.
  intros Hs Ht E. apply claim_state in E as [Ep E]. destruct x as [[i se]|].
  2:{ destruct E as [-> Hno]. apply (scans_call s _ t InClaim); try done. intros i se Hp. by destruct (Hno i se). }
  destruct E as (Er&Hi&Hst). assert (Hlt : (t < length (calls s))%nat) by (by eapply lookup_lt_Some). split; cbn.
  - rewrite length_insert. apply (so_len _ _ Hs).
  - rewrite Er, (readers_insert _ _ _ _ Ht), (so_count _ _ Hs). cbn.
    pose proof (readers_insert (calls s) t InClaim (InRead i se) Ht) as Hri. pose proof (readers_le (<[t := InRead i se]> (calls s))) as Hb.
    rewrite length_insert, (so_len _ _ Hs) in Hb. pose proof (readers_le (calls s)). cbn in Hri. rewrite Z.mod_small; lia.
  - intros j se' Hj. rewrite Hst in Hj. case_decide as Ej; [injection Hj as <-; subst j; exists t; by rewrite list_lookup_insert_eq|].
    destruct (so_running _ _ Hs j se' Hj) as [t' Ht']. exists t'. rewrite list_lookup_insert_ne; [done|]. intros ->. congruence.
  - intros j se' _. right. exists t, (InRead i se). by rewrite list_lookup_insert_eq.
Qed.

Lemma scans_go s t c r c' : scans_ok tasks s → calls s !! t = Some c → go c (in_use s) (reg s) = Some (r, c') → scans_ok tasks (with_call t c' (with_reg r s)).
Proof using Htasks.
  intros Hs Ht. pose proof (readers_le (calls s)) as Hb. rewrite (so_len _ _ Hs) in Hb.
  assert (Hsame : ∀ c', looping c = false → looping c' = false → scans_ok tasks (with_call t c' (with_reg (reg s) s))).
  { intros x Hx Hx'. apply (scans_call s (reg s) t c x); try done; [by destruct c|by destruct x|]. intros i se Hp.
    destruct (others_loop s t c i se Hs Ht Hx Hp); auto. }
  destruct c; cbn [go scan_go unregister_go rescan_go]; try done; try (intros [= <- <-]; apply Hsame; try done; repeat case_match; done).
  - intros [= <- <-]. destruct (pending (reg s)) eqn:Ep.
    + apply (scans_call s _ t InScan); try done. intros i se Hp. right. by left.
    + apply (scans_call s _ t InScan); try done. intros i se Hp. destruct (others_loop s t InScan i se Hs Ht eq_refl Hp); [congruence|auto].
  - destruct (claim (reg s)) as [x r0] eqn:E. intros [= <- <-]. by apply scans_claim.
  - intros [= <- <-]. split; cbn.
    + rewrite length_insert. apply (so_len _ _ Hs).
    + rewrite (readers_insert _ _ _ _ Ht), (so_count _ _ Hs). cbn. pose proof (readers_insert (calls s) t InAdded Idle Ht) as Hri. cbn in Hri.
      pose proof (readers_le (<[t := Idle]> (calls s))). rewrite Z.mod_small; lia.
    + intros i se (t'&Ht')%(so_running _ _ Hs). exists t'. rewrite list_lookup_insert_ne; [done|]. intros ->. congruence.
    + intros i se _. right. exists t, InClaim. by rewrite list_lookup_insert_eq by (by eapply lookup_lt_Some).
  - destruct (remove dev (reg s)) as [ok r0] eqn:E. intros [= <- <-]. pose proof (λ j, remove_state dev (reg s) j) as Hst. rewrite E in Hst. cbn in Hst.
    apply (scans_call s _ t (UnRemove dev)); try done; [by destruct ok|by destruct (Hst 0%nat) as (_&?&_)|..].
    + intros i se Hi. destruct (Hst i) as (_&_&[<-|Hn]); [done|congruence].
    + intros i se Hi. destruct (Hst i) as (Hp&_&[Hj|Hn]); [|congruence]. rewrite Hj in Hi.
      destruct (others_loop s t _ i se Hs Ht eq_refl Hi); [left; congruence|auto].
  - destruct ds; intros [= <- <-]; by apply Hsame.
  - intros [= <- <-]. pose proof (λ j, forget_state disk (reg s) j) as Hst. cbn in Hst.
    apply (scans_call s _ t (ReDrop disk ds)); try done; [by destruct (Hst 0%nat)|..].
    + intros i se Hi. destruct (Hst i) as (_&_&[<-|(_&se'&Hj)]); [done|congruence].
    + intros i se Hi. destruct (Hst i) as (_&Hp&[Hj|(Hp'&_)]); [|by left]. rewrite Hj in Hi.
      destruct (others_loop s t _ i se Hs Ht eq_refl Hi); [|auto]. left. destruct Hp; congruence.
Qed.

Lemma scans_read s t disk serial es r : scans_ok tasks s → calls s !! t = Some (InRead disk serial) → add_parts disk serial es (reg s) = Some r →
  scans_ok tasks (with_call t InAdded (with_reg r s)).
Proof.
  intros Hs Ht (Hp&Hr&Hst)%add_parts_state. assert (Hlt : (t < length (calls s))%nat) by (by eapply lookup_lt_Some). split; cbn.
  - rewrite length_insert. apply (so_len _ _ Hs).
  - rewrite Hr, (readers_insert _ _ _ _ Ht), (so_count _ _ Hs). cbn. lia.
  - intros i se Hi. rewrite Hst in Hi. case_decide as Ei; [done|]. destruct (so_running _ _ Hs i se Hi) as [t' Ht']. exists t'.
    rewrite list_lookup_insert_ne; [done|]. intros ->. rewrite Ht in Ht'. injection Ht' as -> ->. by destruct Ei.
  - intros i se _. right. exists t, InAdded. by rewrite list_lookup_insert_eq.
Qed.

Lemma reached_scans s : reached cap tasks s → scans_ok tasks s.
Proof using Htasks.
  induction 1 as [|lab s s' _ IH Hstep].
  { split; cbn -[MAX_DEVS replicate]; [by rewrite length_replicate|..].
    - unfold readers. induction tasks as [|n IHn]; [done|]. cbn [replicate]. rewrite filter_cons_False by done. apply IHn. lia.
    - intros i se. unfold state_at, dev_at. destruct (replicate MAX_DEVS None !! i) as [x|] eqn:E; [|done]. by apply lookup_replicate in E as [-> _].
    - intros i se. unfold state_at, dev_at. destruct (replicate MAX_DEVS None !! i) as [x|] eqn:E; [|done]. by apply lookup_replicate in E as [-> _]. }
  destruct Hstep as [nm drv info s|t c s Ht Hc|t c r c' s Ht E|t disk serial es r s Ht Hm E|u s].
  - destruct IH as [H1 H2 H3 H4]. pose proof (λ j, register_state nm drv info (reg s) j) as Hst. cbn in Hst. split; cbn; [done| |..].
    + by destruct (Hst 0%nat) as [-> _].
    + intros i se Hi. destruct (Hst i) as (_&[[Hj _]|(_&se'&Hj)]); [|congruence]. rewrite Hj in Hi. by apply H3.
    + intros i se Hi. destruct (Hst i) as (_&[[Hj Hp]|(Hp&_)]); [|by left]. rewrite Hj in Hi. destruct (H4 i se Hi); [|by right]. left. destruct Hp; congruence.
  - change (scans_ok tasks (with_call t c (with_reg (reg s) s))). apply (scans_call s _ t Idle); try done; [by destruct c|].
    intros i se Hp. destruct (others_loop s t Idle i se IH Ht eq_refl Hp); auto.
  - by eapply scans_go.
  - by eapply scans_read.
  - by destruct IH.
Qed.

End scans.
