(* ===== verification/BlkIo.v ===== *)
(** * Reads and writes of block devices

    The calls of [kernel/src/blk.rs] that move sectors and bytes of a disk or
    a partition, one at a time, through the cache of [kernel/src/blk/cache.rs]
    ([BlkCache.v] has its parts, and what happens when calls interleave).  The
    registry is that of [Blk.v].  The drivers, the other kernel modules' tables
    of functions, are the class [Disks]; so are the frame allocator and the
    share of memory the cache may take. *)

From S2P Require Import Prelude.
From stdpp Require Import gmap fin_maps functions sorting list.
From S2P Require Import Text BlkCache Blk.

Open Scope Z_scope.

Definition MAX_REQUEST : Z := 64 * 1024.

(** What [blk.rs] uses: what a driver says its disk's size is (0: not known),
    sectors read and written by it; the frame [mm::alloc_frame] gives, if one
    is free apart from those the cache has; [cache::capacity]. *)
Class Disks (Driver W : Type) := {
  disk_cap : Driver → Z;
  disk_read : Driver → Z → Z → W → result () (list Z) * W;
  disk_write : Driver → Z → list Z → W → result () () * W;
  free_frame_of : W → gset Z → option Z;
  cache_capacity : Z }.

(** The machine under [blk.rs]: the disks, the cache, the memory it keeps
    chunks in and the frames it holds. *)
Record Io (W : Type) := { world : W; io_cache : Cache; io_mem : Z → list Z; io_taken : gset Z }.
Arguments world {W} _. Arguments io_cache {W} _. Arguments io_mem {W} _. Arguments io_taken {W} _.

Section io.
Context `{Disks Driver W}.

Implicit Types (r : @Reg Driver) (s : Io W).

Definition with_world (w : W) s : Io W := {| world := w; io_cache := io_cache s; io_mem := io_mem s; io_taken := io_taken s |}.
Definition set_cache (c : Cache) s : Io W := {| world := world s; io_cache := c; io_mem := io_mem s; io_taken := io_taken s |}.

(** ** The cache *)

(** [mm::alloc_frame], which has the cache give its frames back when none is
    left; [None]: it panics, out of memory. *)
Definition alloc_frame s : option (Z * Io W) :=
  match free_frame_of (world s) (io_taken s) with
  | Some f => Some (f, {| world := world s; io_cache := io_cache s; io_mem := io_mem s; io_taken := {[f]} ∪ io_taken s |})
  | None =>
      '(freed, c) ← release (io_cache s);
      t ← free_frames freed (io_taken s);
      f ← free_frame_of (world s) t;
      Some (f, {| world := world s; io_cache := c; io_mem := io_mem s; io_taken := {[f]} ∪ t |})
  end.

(** One chunk of [keep]. *)
Definition keep_one (id k w : Z) (bytes : list Z) s : option (Io W) :=
  '(spare, s) ← (if zlen (entries (io_cache s)) <? cache_capacity then '(f, s) ← alloc_frame s; Some (Some f, s) else Some (None, s));
  '(unused, c, m) ← put cache_capacity id k w bytes spare (io_mem s) (io_cache s);
  t ← free_unused unused (io_taken s);
  Some {| world := world s; io_cache := c; io_mem := m; io_taken := t |}.

Fixpoint keep (n : nat) (id k w : Z) (data : list Z) s : option (Io W) :=
  match n with
  | O => Some s
  | S n => s ← keep_one id k w (take (Z.to_nat CHUNK) data) s; keep n id (k + 1) w (drop (Z.to_nat CHUNK) data) s
  end.

(** The closure [device] of [blk::read]. *)
Definition device (drv : Driver) (lba n : Z) s : result () (list Z) * Io W :=
  let '(x, w) := disk_read drv lba n (world s) in (x, with_world w s).

(** The loop of [cache::read]; it moves to a later chunk every turn.  On an
    error the buffer's bytes are no one's to use. *)
Fixpoint cache_loop (fuel : nat) (id : Z) (drv : Driver) (sectors lba chunk : Z) (buf : list Z) s : option (result () (list Z) * Io W) :=
  match fuel with
  | O => None
  | S fuel =>
      if negb (chunk <? end_chunk lba (zlen buf)) then Some (Ok buf, s)
      else
        '(h, c) ← hit (io_mem s) id chunk lba buf (io_cache s);
        let s := set_cache c s in
        match h with
        | Some buf => cache_loop fuel id drv sectors lba (chunk + 1) buf s
        | None =>
            let whole := Z.min (end_chunk lba (zlen buf)) (sectors / CHUNK_SECTORS) in
            if whole <=? chunk then
              '(_, to) ← overlap chunk lba (zlen buf);
              at_ ← add64 lba (to.1 / SECTOR);
              b ← slice buf to.1 to.2;
              let '(x, s) := device drv at_ (zlen b) s in
              match x with
              | Err e => Some (Err e, s)
              | Ok l => buf ← copy_slice buf to.1 to.2 l; cache_loop fuel id drv sectors lba (chunk + 1) buf s
              end
            else
              let e := run_end (Z.to_nat MAX_RUN) id chunk whole (chunk + 1) c in
              let w := writes c in
              at_ ← fits 64 (chunk * CHUNK_SECTORS);
              let '(x, s) := device drv at_ ((e - chunk) * CHUNK) s in
              match x with
              | Err e => Some (Err e, s)
              | Ok data =>
                  buf ← copy_run (Z.to_nat (e - chunk)) chunk lba data buf;
                  s ← keep (Z.to_nat (e - chunk)) id chunk w data s;
                  cache_loop fuel id drv sectors lba e buf s
              end
        end
  end.

Definition cache_read (id : Z) (drv : Driver) (sectors lba : Z) (buf : list Z) s : option (result () (list Z) * Io W) :=
  _ ← add64 lba (zlen buf / SECTOR);
  let n := end_chunk lba (zlen buf) - first_chunk lba in
  cache_loop (S (Z.to_nat n)) id drv sectors lba (first_chunk lba) buf s.

(** ** Devices *)

(** The disk under a device, and where its sectors are. *)
Definition on_disk r (dev : nat) (lba n : Z) : option (option (nat * Driver * Z)) :=
  match get r dev with
  | None => Some None
  | Some {| kind := KDisk drv _ _ _ |} => Some (Some (dev, drv, lba))
  | Some {| kind := KPart p |} =>
      match add64 lba n with
      | None => Some None
      | Some end_ =>
          if p_sectors p <? end_ then Some None
          else match get r (p_disk p) with
               | Some {| kind := KDisk drv _ _ _ |} => at_ ← add64 (p_first p) lba; Some (Some (p_disk p, drv, at_))
               | _ => Some None
               end
      end
  end.

Definition capacity_sectors r (dev : nat) : option Z :=
  d ← get r dev;
  let n := match kind d with KDisk drv _ _ _ => disk_cap drv | KPart p => p_sectors p end in
  if n =? 0 then None else Some n.

Definition capacity_bytes r (dev : nat) : option Z := s ← capacity_sectors r dev; Some (Z.min (s * SECTOR) U64_MAX).

Definition read r (dev : nat) (lba : Z) (buf : list Z) s : option (result () (list Z) * Io W) :=
  if negb (zlen buf mod SECTOR =? 0) then Some (Err tt, s)
  else if negb (Text.nonempty buf) then Some (Ok buf, s)
  else
    x ← on_disk r dev lba (zlen buf / SECTOR);
    match x with
    | None => Some (Err tt, s)
    | Some (disk, drv, lba) =>
        match capacity_sectors r disk with
        | Some sectors => cache_read (Z.of_nat disk) drv sectors lba buf s
        | None => Some (device drv lba (zlen buf) s)
        end
    end.

(** The cache is told of the write whether or not the driver failed. *)
Definition write r (dev : nat) (lba : Z) (buf : list Z) s : option (result () () * Io W) :=
  if negb (zlen buf mod SECTOR =? 0) then Some (Err tt, s)
  else if negb (Text.nonempty buf) then Some (Ok tt, s)
  else
    x ← on_disk r dev lba (zlen buf / SECTOR);
    match x with
    | None => Some (Err tt, s)
    | Some (disk, drv, lba) =>
        let '(x, w) := disk_write drv lba buf (world s) in
        '(c, m) ← wrote (Z.of_nat disk) lba buf (io_mem s) (io_cache s);
        Some (x, {| world := w; io_cache := c; io_mem := m; io_taken := io_taken s |})
    end.

Definition whole_sectors (off left : Z) : Z :=
  if negb (off =? 0) then 0 else Z.min (left / SECTOR * SECTOR) MAX_REQUEST.

(** The loops, [done] bytes on: a turn moves a byte at least. *)
Fixpoint read_loop (fuel : nat) r (dev : nat) (offset want done : Z) (buf : list Z) s : option (result () Z * list Z * Io W) :=
  match fuel with
  | O => None
  | S fuel =>
      if negb (done <? want) then Some (Ok done, buf, s)
      else
        abs ← add64 offset done;
        let lba := abs / SECTOR in
        let off := abs mod SECTOR in
        left ← usub want done;
        let whole := whole_sectors off left in
        if 0 <? whole then
          b ← slice buf done (done + whole);
          '(x, s) ← read r dev lba b s;
          match x with
          | Err e => Some (Err e, buf, s)
          | Ok l => buf ← copy_slice buf done (done + whole) l; read_loop fuel r dev offset want (done + whole) buf s
          end
        else
          '(x, s) ← read r dev lba (replicate (Z.to_nat SECTOR) 0) s;
          match x with
          | Err e => Some (Err e, buf, s)
          | Ok sec =>
              let take_ := Z.min (SECTOR - off) left in
              src ← slice sec off (off + take_);
              buf ← copy_slice buf done (done + take_) src;
              read_loop fuel r dev offset want (done + take_) buf s
          end
  end.

Definition read_bytes r (dev : nat) (offset : Z) (buf : list Z) s : option (result () Z * list Z * Io W) :=
  if negb (Text.nonempty buf) then Some (Ok 0, buf, s)
  else
    let cap := capacity_bytes r dev in
    match cap with
    | Some cap =>
        if cap <=? offset then Some (Ok 0, buf, s)
        else let want := Z.min (zlen buf) (cap - offset) in read_loop (S (Z.to_nat want)) r dev offset want 0 buf s
    | None => read_loop (S (length buf)) r dev offset (zlen buf) 0 buf s
    end.

Fixpoint write_loop (fuel : nat) r (dev : nat) (offset want done : Z) (buf : list Z) s : option (result () Z * Io W) :=
  match fuel with
  | O => None
  | S fuel =>
      if negb (done <? want) then Some (Ok done, s)
      else
        abs ← add64 offset done;
        let lba := abs / SECTOR in
        let off := abs mod SECTOR in
        left ← usub want done;
        let whole := whole_sectors off left in
        if 0 <? whole then
          b ← slice buf done (done + whole);
          '(x, s) ← write r dev lba b s;
          match x with
          | Err e => Some (Err e, s)
          | Ok _ => write_loop fuel r dev offset want (done + whole) buf s
          end
        else
          let take_ := Z.min (SECTOR - off) left in
          '(x, s) ← read r dev lba (replicate (Z.to_nat SECTOR) 0) s;
          match x with
          | Err e => Some (Err e, s)
          | Ok sec =>
              src ← slice buf done (done + take_);
              sec ← copy_slice sec off (off + take_) src;
              '(x, s) ← write r dev lba sec s;
              match x with
              | Err e => Some (Err e, s)
              | Ok _ => write_loop fuel r dev offset want (done + take_) buf s
              end
          end
  end.

Definition write_bytes r (dev : nat) (offset : Z) (buf : list Z) s : option (result () Z * Io W) :=
  if negb (Text.nonempty buf) then Some (Ok 0, s)
  else
    let cap := capacity_bytes r dev in
    match cap with
    | Some cap =>
        if cap <=? offset then Some (Err tt, s)
        else let want := Z.min (zlen buf) (cap - offset) in write_loop (S (Z.to_nat want)) r dev offset want 0 buf s
    | None => write_loop (S (length buf)) r dev offset (zlen buf) 0 buf s
    end.

End io.
