(* ===== verification/BlkIoFacts.v ===== *)
(** * Reads and writes through the cache

    What the drivers promise ([DisksLaws]), and what [BlkIo.v] makes of it: as
    long as no write failed, the cache has only bytes of the disks ([io_ok]),
    so that a read gives the disk's bytes, whether from the cache or from the
    driver, and a write changes exactly the sectors it names. *)

From S2P Require Import Prelude.
From stdpp Require Import gmap fin_maps functions sorting list.
From S2P Require Import Text BlkCache BlkCacheFacts Blk BlkFacts BlkIo.

Open Scope Z_scope.

(** What drivers promise: [bytes] is what a disk of known size has.  A read
    gives it, a write changes the sectors it names, a failed write may have
    changed those.  A frame that is free is not one the cache has, and when
    the cache has none there is a free one. *)
Class DisksLaws (Driver W : Type) `{Disks Driver W} := {
  bytes : Driver → W → list Z;
  cap_range : ∀ drv, 0 <= disk_cap drv ∧ disk_cap drv * SECTOR + CHUNK <= U64_MAX;
  bytes_length : ∀ drv w, zlen (bytes drv w) = disk_cap drv * SECTOR;
  read_sees : ∀ drv lba n w x w', disk_read drv lba n w = (x, w') →
    (∀ d, bytes d w' = bytes d w) ∧ ∀ l, x = Ok l → slice (bytes drv w) (lba * SECTOR) (lba * SECTOR + n) = Some l;
  write_does : ∀ drv lba buf w x w', disk_write drv lba buf w = (x, w') →
    (∀ d, d ≠ drv → bytes d w' = bytes d w) ∧
    (x = Ok tt → 0 <= lba * SECTOR ∧ lba * SECTOR + zlen buf <= zlen (bytes drv w) ∧ bytes drv w' = splice (bytes drv w) (lba * SECTOR) buf) ∧
    (x = Err tt → ∀ a, a < lba * SECTOR ∨ lba * SECTOR + zlen buf <= a → zget (bytes drv w') a = zget (bytes drv w) a);
  frame_fresh : ∀ w T f, free_frame_of w T = Some f → f ∉ T;
  frame_left : ∀ w, is_Some (free_frame_of w ∅) }.

(** ** Parts of lists *)

Section lists.
Context {A : Type}.
Implicit Types l x y s : list A.

Lemma splice_nil l a : splice l a [] = l.
Proof. unfold splice. cbn [app length]. by rewrite Nat.add_0_r, take_drop. Qed.

Lemma slice_join l a b c x y : slice l a b = Some x → slice l b c = Some y → slice l a c = Some (x ++ y).
Proof.
  unfold slice. destruct ((0 <=? a) && (a <=? b) && (b <=? zlen l)) eqn:E1; [|done]. destruct ((0 <=? b) && (b <=? c) && (c <=? zlen l)) eqn:E2; [|done].
  intros [= <-] [= <-]. bool_hyps. rewrite (proj2 (Z.leb_le 0 a)), (proj2 (Z.leb_le a c)), (proj2 (Z.leb_le c (zlen l))) by lia. cbn [andb]. f_equal.
  replace (Z.to_nat (c - a)) with (Z.to_nat (b - a) + Z.to_nat (c - b))%nat by lia. rewrite <- take_take_drop, drop_drop. do 4 f_equal. lia.
Qed.

Lemma splice_app l a x y : 0 <= a → a + zlen x + zlen y <= zlen l → splice (splice l a x) (a + zlen x) y = splice l a (x ++ y).
Proof.
  intros Ha Hl. unfold splice. replace (Z.to_nat (a + zlen x)) with (Z.to_nat a + length x)%nat by lia.
  assert (Ht : length (take (Z.to_nat a) l) = Z.to_nat a) by (rewrite length_take; lia).
  rewrite take_app_ge, Ht by lia. replace (Z.to_nat a + length x - Z.to_nat a)%nat with (length x) by lia. rewrite take_app_length.
  rewrite drop_app_ge, Ht by lia. rewrite drop_app_ge by lia. rewrite drop_drop, length_app, <- !app_assoc. do 4 f_equal. lia.
Qed.

Lemma slice_within l a b s c d : slice l a b = Some s → 0 <= c → d <= b - a → slice s c d = slice l (a + c) (a + d).
Proof.
  intros Hs Hc Hd. pose proof (slice_length _ _ _ _ Hs) as Hlen. unfold slice in Hs. case_if; [|done]. injection Hs as <-. unfold slice. rewrite Hlen.
  destruct (decide (c <= d)) as [Hcd|Hcd].
  2:{ rewrite (proj2 (Z.leb_gt c d)), (proj2 (Z.leb_gt (a + c) (a + d))) by lia. by rewrite !andb_false_r. }
  rewrite (proj2 (Z.leb_le 0 c)), (proj2 (Z.leb_le c d)), (proj2 (Z.leb_le d (b - a))), (proj2 (Z.leb_le 0 (a + c))), (proj2 (Z.leb_le (a + c) (a + d))),
    (proj2 (Z.leb_le (a + d) (zlen l))) by lia. cbn [andb]. f_equal. rewrite skipn_firstn_comm, drop_drop, take_take. f_equal; [lia|]. f_equal. lia.
Qed.

Lemma splice_inner l a k s off y : slice l a (a + k) = Some s → 0 <= off → off + zlen y <= k → splice l a (splice s off y) = splice l (a + off) y.
Proof.
  intros Hs Ho Hk. pose proof (slice_length _ _ _ _ Hs) as Hlen. unfold slice in Hs. case_if; [|done]. injection Hs as <-.
  replace (a + k - a) with k in * by lia. assert (Hsp : length (splice (take (Z.to_nat k) (drop (Z.to_nat a) l)) off y) = Z.to_nat k) by (rewrite splice_length; lia).
  unfold splice at 1. rewrite Hsp. unfold splice. replace (Z.to_nat (a + off)) with (Z.to_nat a + Z.to_nat off)%nat by lia.
  rewrite <- (take_take_drop l), <- !app_assoc. f_equal. rewrite take_take. rewrite Nat.min_l by lia. f_equal. f_equal.
  rewrite skipn_firstn_comm, drop_drop. rewrite <- (take_drop (Z.to_nat k - (Z.to_nat off + length y)) (drop (Z.to_nat a + Z.to_nat off + length y) l)).
  rewrite drop_drop. f_equal; [do 2 f_equal; lia|f_equal; lia].
Qed.

Lemma zget_splice_out l a y i : 0 <= a → a + zlen y <= zlen l → i < a ∨ a + zlen y <= i → zget (splice l a y) i = zget l i.
Proof. intros Ha Hl Hi. unfold zget. destruct (Z.leb_spec 0 i); [|done]. apply splice_lookup_out; lia. Qed.

End lists.

(** ** The cache *)

Section cache.
Context `{L : DisksLaws Driver W}.
Context (r : @Reg Driver).

Implicit Types (s : Io W).

Definition is_disk_at (id : nat) (drv : Driver) : Prop := ∃ nm sc se inf, get r id = Some {| name := nm; kind := KDisk drv sc se inf |}.

(** No driver has two disks: what is written to one is not another's. *)
Definition disks_apart : Prop := ∀ i j drv, is_disk_at i drv → is_disk_at j drv → i = j.

(** The cache's own state is in order, and a byte it has is the disk's. *)
Record io_ok s : Prop := {
  io_index : c_ok (io_cache s);
  io_pages : mem_ok (io_mem s);
  io_frames : NoDup (frames (io_cache s));
  io_owned : io_taken s = list_to_set (frames (io_cache s));
  io_coherent : ∀ id drv p v, is_disk_at id drv → cached (io_cache s) (io_mem s) (Z.of_nat id) p = Some v → zget (bytes drv (world s)) p = Some v }.

Definition count s : Z := writes (io_cache s).

Lemma is_disk_det id drv drv' : is_disk_at id drv → is_disk_at id drv' → drv = drv'.
Proof. intros (?&?&?&?&E) (?&?&?&?&E'). rewrite E in E'. by injection E'. Qed.

Lemma alloc_frame_ok s : io_ok s → 0 <= count s < U64_MAX → ∃ f s', alloc_frame s = Some (f, s') ∧ world s' = world s ∧ io_mem s' = io_mem s ∧
  c_ok (io_cache s') ∧ NoDup (f :: frames (io_cache s')) ∧ io_taken s' = list_to_set (f :: frames (io_cache s')) ∧
  count s <= count s' <= count s + 1 ∧
  ∀ d p v, cached (io_cache s') (io_mem s) d p = Some v → cached (io_cache s) (io_mem s) d p = Some v.
Proof using L.
  intros [Hc Hm Hn Ho _] Hw. unfold alloc_frame. destruct (free_frame_of (world s) (io_taken s)) as [f|] eqn:Ef.
  - apply frame_fresh in Ef. rewrite Ho in Ef. eexists f, _. split; [done|]. cbn [world io_cache io_mem io_taken list_to_set].
    split_and!; [done..|constructor; [set_solver|done]|by rewrite Ho|unfold count; cbn; lia|unfold count; cbn; lia|done].
  - destruct (release_ok (io_mem s) (io_cache s)) as (freed&c&Er&C1&C2&C3&C4); [unfold count in Hw; lia|]. rewrite Er. cbn [mbind option_bind].
    assert (Hnil : frames c = []) by (unfold release in Er; destruct (count_write _); [|done]; by injection Er as <- <-).
    rewrite Hnil, app_nil_r in C3. rewrite free_frames_ok; [|by rewrite C3|intros g Hg; rewrite Ho; rewrite C3 in Hg; set_solver].
    cbn [mbind option_bind]. assert (io_taken s ∖ list_to_set freed = ∅) as -> by (rewrite Ho, C3; set_solver).
    destruct (frame_left (world s)) as [f Ef']. rewrite Ef'. cbn [mbind option_bind]. eexists f, _. split; [done|]. cbn [world io_cache io_mem io_taken].
    rewrite Hnil. split_and!; [done..|by apply NoDup_singleton|set_solver|unfold count; cbn; lia|unfold count; cbn; lia|done].
Qed.

Lemma set_without (l : list Z) f : f ∉ l → (list_to_set (l ++ [f]) : gset Z) ∖ {[f]} = list_to_set l.
Proof. clear. set_solver. Qed.

Lemma set_snoc (l : list Z) f : (list_to_set (f :: l) : gset Z) = list_to_set (l ++ [f]).
Proof. clear. set_solver. Qed.

Lemma set_has (l : list Z) f : f ∈ (list_to_set (l ++ [f]) : gset Z).
Proof. clear. set_solver. Qed.

(** The bytes of a chunk of a disk. *)
Definition chunk_of (drv : Driver) s (k : Z) (data : list Z) : Prop := ∀ o v, zget data o = Some v → zget (bytes drv (world s)) (k * CHUNK + o) = Some v.

Lemma keep_one_ok s id drv k w data : io_ok s → is_disk_at id drv → zlen data = CHUNK → chunk_of drv s k data → 0 <= count s < U64_MAX →
  ∃ s', keep_one (Z.of_nat id) k w data s = Some s' ∧ io_ok s' ∧ world s' = world s ∧ count s <= count s' <= count s + 1.
Proof using L.
  intros Hs Hid Hl Hd Hw. unfold keep_one.
  assert (∃ spare s1, (if zlen (entries (io_cache s)) <? cache_capacity then '(f, s) ← alloc_frame s; Some (Some f, s) else Some (None, s)) = Some (spare, s1) ∧
    world s1 = world s ∧ io_mem s1 = io_mem s ∧ c_ok (io_cache s1) ∧ NoDup (frames (io_cache s1) ++ option_list spare) ∧
    io_taken s1 = list_to_set (frames (io_cache s1) ++ option_list spare) ∧ count s <= count s1 <= count s + 1 ∧
    ∀ d p v, cached (io_cache s1) (io_mem s) d p = Some v → cached (io_cache s) (io_mem s) d p = Some v) as (spare&s1&->&A1&A2&A3&A4&A5&A6&A7).
  { case_if.
    - destruct (alloc_frame_ok s Hs Hw) as (f&s1&->&B1&B2&B3&B4&B5&B6&B7). cbn [mbind option_bind]. exists (Some f), s1. cbn [option_list].
      split_and!; try done; [by rewrite Permutation_app_comm|rewrite B5; apply set_snoc|lia..].
    - exists None, s. destruct Hs. cbn [option_list]. rewrite app_nil_r. split_and!; try done; lia. }
  cbn [mbind option_bind]. pose proof (io_pages _ Hs) as Hm. rewrite <- A2 in Hm.
  destruct (put_ok cache_capacity (Z.of_nat id) k w data spare (io_mem s1) (io_cache s1) A3 Hm Hl A4) as (u&c'&m'&->&P1&P2&P3&P4&P5). cbn [mbind option_bind].
  assert (Hf : free_unused u (io_taken s1) = Some (list_to_set (frames c'))).
  { assert (Hn : NoDup (frames c' ++ option_list u)) by (by rewrite P4). rewrite A5, <- P4. destruct u as [f|]; cbn [free_unused option_list] in *.
    - unfold free_frame. rewrite bool_decide_eq_true_2 by apply set_has. f_equal. apply set_without.
      intros Hin. apply NoDup_app in Hn as (_&Hn&_). apply (Hn f Hin). by constructor.
    - by rewrite app_nil_r. }
  rewrite Hf. cbn [mbind option_bind]. eexists. split; [done|]. cbn [world]. split; [|split; [done|]; unfold count in *; cbn [io_cache]; lia].
  split; cbn [io_cache io_mem io_taken world]; try done.
  - rewrite <- P4 in A4. by apply NoDup_app in A4 as (?&_).
  - intros id' drv' p v Hid' Hv. rewrite A1. destruct (P5 _ _ _ Hv) as [Hold|(_&Hi&Hk&Hb)].
    + apply (io_coherent _ Hs id'); [done|]. apply A7. by rewrite A2 in Hold.
    + assert (id' = id) as -> by lia. rewrite (is_disk_det _ _ _ Hid' Hid). apply Hd in Hb. rewrite <- Hb. f_equal. pose proof (Z.div_mod p CHUNK ltac:(done)). lia.
Qed.

Lemma keep_chunks_ok n s id drv k w data : io_ok s → is_disk_at id drv → zlen data = Z.of_nat n * CHUNK → chunk_of drv s k data →
  0 <= count s → count s + Z.of_nat n <= U64_MAX →
  ∃ s', keep n (Z.of_nat id) k w data s = Some s' ∧ io_ok s' ∧ world s' = world s ∧ count s <= count s' <= count s + Z.of_nat n.
Proof using L.
  assert (HK : CHUNK = 4096) by done.
  revert s k data. induction n as [|n IH]; intros s k data Hs Hid Hl Hd Hw Hb; cbn [keep]; [exists s; split_and!; [done..|lia|lia]|].
  destruct (keep_one_ok s id drv k w (take (Z.to_nat CHUNK) data)) as (s1&->&H1&H2&H3); [done|done|lens; lia| |lia|].
  { intros o v Ho. apply Hd. unfold zget in *. case_if; [|done]. by apply lookup_take_Some in Ho as [? _]. }
  cbn [mbind option_bind]. destruct (IH s1 (k + 1) (drop (Z.to_nat CHUNK) data)) as (s'&->&H4&H5&H6); [done|done|lens; lia| |lia|lia|].
  { intros o v Ho. rewrite H2. pose proof (zget_some _ _ _ Ho). rewrite zget_lookup, lookup_drop in Ho by lia.
    replace ((k + 1) * CHUNK + o) with (k * CHUNK + (CHUNK + o)) by lia. apply Hd. rewrite zget_lookup by lia. rewrite <- Ho. f_equal. lia. }
  exists s'. split; [done|]. split; [done|]. split; [congruence|lia].
Qed.

(** A driver that never fails within its disk. *)
Definition reads_work (drv : Driver) : Prop := ∀ lba k (w : W), 0 <= lba → 0 <= k → lba * SECTOR + k <= disk_cap drv * SECTOR →
  ∃ l w', disk_read drv lba k w = (Ok l, w').

Definition writes_work (drv : Driver) : Prop := ∀ lba buf (w : W), 0 <= lba → lba * SECTOR + zlen buf <= disk_cap drv * SECTOR →
  ∃ w', disk_write drv lba buf w = (Ok tt, w').

Definition same_disks s s' : Prop := ∀ d, bytes d (world s') = bytes d (world s).

Lemma io_ok_world s w : io_ok s → (∀ d, bytes d w = bytes d (world s)) → io_ok (with_world w s).
Proof. intros [? ? ? ? Hc] Hb. split; cbn [io_cache io_mem io_taken world with_world]; try done. intros id drv p v Hid Hv. rewrite Hb. by eapply Hc. Qed.

Lemma io_ok_marked s c : io_ok s → index c = index (io_cache s) → slots c = slots (io_cache s) → io_ok (set_cache c s).
Proof.
  intros [? ? ? ? Hc] Ei Es. assert (Ef : frames c = frames (io_cache s)) by (unfold frames; by rewrite Es).
  split; cbn [io_cache io_mem io_taken world set_cache]; try done; [by apply (c_ok_same (io_cache s))|by rewrite Ef..|].
  intros id drv p v Hid. rewrite (cached_same (io_cache s) c) by done. by apply Hc.
Qed.

Lemma device_ok s drv lba n : 0 <= lba → 0 <= n → lba * SECTOR + n <= disk_cap drv * SECTOR → io_ok s →
  ∃ x s', device drv lba n s = (x, s') ∧ io_ok s' ∧ same_disks s s' ∧ count s' = count s ∧
    ((x = Err tt ∧ ~ reads_work drv) ∨ ∃ l, x = Ok l ∧ slice (bytes drv (world s)) (lba * SECTOR) (lba * SECTOR + n) = Some l).
Proof using L.
  intros H1 H2 H3 Hs. unfold device. destruct (disk_read drv lba n (world s)) as [x w] eqn:E. destruct (read_sees _ _ _ _ _ _ E) as [Hb Hl].
  exists x, (with_world w s). split; [done|]. split; [by apply io_ok_world|]. split; [done|]. split; [done|]. destruct x as [l|[]].
  - right. exists l. split; [done|]. by apply Hl.
  - left. split; [done|]. intros Hw. destruct (Hw lba n (world s) H1 H2 H3) as (?&?&E'). congruence.
Qed.

Section request.
Context (id : nat) (drv : Driver) (Hid : is_disk_at id drv).
Context (lba len : Z) (Hreq : request_ok lba len) (Hin : lba * SECTOR + len <= disk_cap drv * SECTOR).

(** The part of the buffer before a chunk is read. *)
Definition read_upto (w : W) (buf : list Z) (chunk : Z) : Prop := zlen buf = len ∧
  ∀ o, 0 <= o < len → lba * SECTOR + o < chunk * CHUNK → zget buf o = zget (bytes drv w) (lba * SECTOR + o).

Lemma next_chunk p chunk : p < (chunk + 1) * CHUNK → p / CHUNK = chunk ∨ p < chunk * CHUNK.
Proof.
  intros Hp. assert (HK : CHUNK = 4096) by done. destruct (decide (p < chunk * CHUNK)); [by right|left]. symmetry.
  apply (Z.div_unique_pos _ _ _ (p - chunk * CHUNK)); lia.
Qed.

Lemma turn_hit s chunk buf : io_ok s → first_chunk lba <= chunk < end_chunk lba len → read_upto (world s) buf chunk →
  ∃ h c, hit (io_mem s) (Z.of_nat id) chunk lba buf (io_cache s) = Some (h, c) ∧ io_ok (set_cache c s) ∧ writes c = count s ∧
    match h with Some buf' => read_upto (world s) buf' (chunk + 1) | None => True end.
Proof using Hid Hreq.
  intros Hs Hc [Hl Hr]. pose proof Hreq as Hq. rewrite <- Hl in Hq, Hc.
  destruct (hit_ok (io_mem s) (Z.of_nat id) chunk lba buf (io_cache s)) as (h&c&->&E1&E2&E3&Hh); [apply Hs..|done|done|].
  exists h, c. split; [done|]. split; [by apply io_ok_marked|]. split; [done|]. destruct h as [buf'|]; [|done].
  destruct Hh as (f&Hf&Hlen&Hz). split; [lia|]. intros o Ho Hlt. rewrite Hz by lia. destruct (next_chunk _ _ Hlt) as [He|Hb].
  - rewrite He, Z.eqb_refl. assert (HK : CHUNK = 4096) by done. pose proof (Z.mod_pos_bound (lba * SECTOR + o) CHUNK ltac:(lia)).
    destruct (zget_is_some (io_mem s f) ((lba * SECTOR + o) mod CHUNK)) as [v Hv]; [rewrite (io_pages _ Hs f); lia|]. rewrite Hv. symmetry.
    apply (io_coherent _ Hs id); [done|]. unfold cached. rewrite He, Hf. done.
  - destruct (Z.eqb_spec ((lba * SECTOR + o) / CHUNK) chunk) as [<-|]; [|by apply Hr; lia].
    pose proof (Z.div_mod (lba * SECTOR + o) CHUNK ltac:(done)). pose proof (Z.mod_pos_bound (lba * SECTOR + o) CHUNK ltac:(done)). lia.
Qed.
(** What a turn that asks the driver leaves: an error, or the buffer read
    further, up to chunk [e]. *)
Definition turned s (e : Z) (x : result () (list Z)) s' : Prop := io_ok s' ∧ same_disks s s' ∧
  ((x = Err tt ∧ ~ reads_work drv) ∨ ∃ buf', x = Ok buf' ∧ read_upto (world s) buf' e).

Lemma tail_place chunk : first_chunk lba <= chunk < end_chunk lba len →
  ∃ from to, overlap chunk lba len = Some (from, to) ∧ 0 <= to.1 < to.2 ∧ to.2 <= len ∧
    (lba + to.1 / SECTOR) * SECTOR = lba * SECTOR + to.1 ∧ 0 <= to.1 / SECTOR ∧ add64 lba (to.1 / SECTOR) = Some (lba + to.1 / SECTOR) ∧
    ∀ o, 0 <= o < len → (to.1 <= o < to.2 ↔ (lba * SECTOR + o) / CHUNK = chunk).
Proof using L Hreq Hin.
  intros Hc. rewrite (overlap_fits chunk lba len Hreq Hc). destruct (ranges chunk lba len) as [from to] eqn:E. exists from, to. split; [done|].
  destruct (ranges_ok _ _ _ _ _ Hreq Hc E) as (H1&H2&H3&H4&H5&H6&H7). pose proof (cap_range drv) as [_ Hmax]. destruct Hreq as ((H8&_)&_).
  assert (Hto : to.1 = to.1 / SECTOR * SECTOR).
  { unfold ranges in E. injection E as _ <-. cbn [fst]. unfold CHUNK, SECTOR. assert (Hm : (Z.max (chunk * 4096) (lba * 512) - lba * 512) mod 512 = 0).
    { destruct (Z.max_spec (chunk * 4096) (lba * 512)) as [[_ ->]|[_ ->]]; [by rewrite Z.sub_diag|].
      replace (chunk * 4096 - lba * 512) with ((chunk * 8 - lba) * 512) by lia. by apply Z.mod_mul. }
    pose proof (Z.div_mod (Z.max (chunk * 4096) (lba * 512) - lba * 512) 512 ltac:(done)). lia. }
  assert (0 <= to.1 / SECTOR) by (apply Z.div_pos; [lia|done]). unfold CHUNK, SECTOR, U64_MAX in *.
  split_and!; [lia..|apply add64_in; lia|done].
Qed.

Lemma turn_tail s chunk buf from to : io_ok s → first_chunk lba <= chunk < end_chunk lba len → read_upto (world s) buf chunk →
  overlap chunk lba len = Some (from, to) →
  ∃ b x s', slice buf to.1 to.2 = Some b ∧ device drv (lba + to.1 / SECTOR) (zlen b) s = (x, s') ∧ io_ok s' ∧ same_disks s s' ∧ count s' = count s ∧
    ((x = Err tt ∧ ~ reads_work drv) ∨
     ∃ l buf', x = Ok l ∧ copy_slice buf to.1 to.2 l = Some buf' ∧ read_upto (world s) buf' (chunk + 1)).
Proof using L Hreq Hin.
  intros Hs Hc [Hl Hr] Ho. destruct (tail_place chunk Hc) as (from'&to'&Ho'&T1&T2&T3&T4&_&T5). rewrite Ho in Ho'. injection Ho' as <- <-.
  destruct (slice_some buf to.1 to.2) as [b Hb]; [lia..|]. pose proof (slice_length _ _ _ _ Hb) as Hbl.
  destruct (device_ok s drv (lba + to.1 / SECTOR) (zlen b)) as (x&s'&E&D1&D2&D3&D4); [destruct Hreq as ((?&_)&_); lia|lia|lia|done|].
  exists b, x, s'. split; [done|]. split; [done|]. split; [done|]. split; [done|]. split; [done|].
  destruct D4 as [?|(l&->&Hsl)]; [by left|right]. pose proof (slice_length _ _ _ _ Hsl) as Hll. exists l. rewrite copy_slice_ok by lia.
  eexists. split; [done|]. split; [done|]. split; [rewrite splice_length; lia|]. intros o Ho1 Hlt. rewrite zget_splice by lia.
  replace (to.1 + zlen l) with to.2 by lia. specialize (T5 o Ho1). destruct ((to.1 <=? o) && (o <? to.2)) eqn:Eb; bool_hyps.
  - rewrite (zget_slice _ _ _ _ _ Hsl), T3. rewrite (proj2 (Z.leb_le _ _)), (proj2 (Z.ltb_lt _ _)) by lia. cbn [andb]. f_equal. lia.
  - destruct (next_chunk _ _ Hlt) as [He|Hbf]; [apply T5 in He; lia|]. by apply Hr.
Qed.

Lemma turn_run s chunk buf e w : io_ok s → first_chunk lba <= chunk → chunk < e → e <= end_chunk lba len → e <= disk_cap drv / CHUNK_SECTORS →
  read_upto (world s) buf chunk → 0 <= count s → count s + (e - chunk) <= U64_MAX →
  ∃ x s1, device drv (chunk * CHUNK_SECTORS) ((e - chunk) * CHUNK) s = (x, s1) ∧ io_ok s1 ∧ same_disks s s1 ∧ count s1 = count s ∧
    ((x = Err tt ∧ ~ reads_work drv) ∨
     ∃ data buf' s2, x = Ok data ∧ copy_run (Z.to_nat (e - chunk)) chunk lba data buf = Some buf' ∧
       keep (Z.to_nat (e - chunk)) (Z.of_nat id) chunk w data s1 = Some s2 ∧ io_ok s2 ∧ same_disks s s2 ∧
       count s <= count s2 <= count s + (e - chunk) ∧ read_upto (world s) buf' e).
Proof using L Hid Hreq.
  intros Hs Hc He1 He2 He3 [Hl Hr] Hw1 Hw2. assert (HK : CHUNK = 4096) by done. assert (HS : SECTOR = 512) by done. assert (HC : CHUNK_SECTORS = 8) by done.
  assert (0 <= first_chunk lba) by (destruct Hreq as ((?&_)&_); apply Z.div_pos; [lia|done]).
  pose proof (Z.mul_div_le (disk_cap drv) CHUNK_SECTORS ltac:(lia)) as Hdc.
  destruct (device_ok s drv (chunk * CHUNK_SECTORS) ((e - chunk) * CHUNK)) as (x&s1&E&D1&D2&D3&D4); [lia|lia|lia|done|].
  exists x, s1. split; [done|]. split; [done|]. split; [done|]. split; [done|]. destruct D4 as [?|(data&->&Hsl)]; [by left|right].
  pose proof (slice_length _ _ _ _ Hsl) as Hdl. replace (chunk * CHUNK_SECTORS * SECTOR) with (chunk * CHUNK) in * by lia.
  pose proof Hreq as Hq. rewrite <- Hl in Hq, He2.
  destruct (copy_run_ok (Z.to_nat (e - chunk)) chunk lba data buf Hq) as (buf'&Hb&Hbl&Hz); [lia|lia|lia|].
  destruct (keep_chunks_ok (Z.to_nat (e - chunk)) s1 id drv chunk w data) as (s2&Hk&K1&K2&K3); [done|done|lia| |lia|lia|].
  { intros o v Ho. rewrite D2. rewrite (zget_slice _ _ _ _ _ Hsl) in Ho. by case_if. }
  exists data, buf', s2. split; [done|]. split; [done|]. split; [done|]. split; [done|]. split; [intros d; by rewrite K2|]. split; [lia|].
  split; [lia|]. intros o Ho Hlt. rewrite Hz by lia. replace (chunk + Z.of_nat (Z.to_nat (e - chunk))) with e by lia.
  destruct ((chunk * CHUNK <=? lba * SECTOR + o) && (lba * SECTOR + o <? e * CHUNK)) eqn:Eb; bool_hyps.
  - rewrite (zget_slice _ _ _ _ _ Hsl). rewrite (proj2 (Z.leb_le _ _)), (proj2 (Z.ltb_lt _ _)) by lia. cbn [andb]. f_equal. lia.
  - apply Hr; [done|]. lia.
Qed.

Lemma cache_loop_ok fuel s chunk buf : io_ok s → first_chunk lba <= chunk <= end_chunk lba len → read_upto (world s) buf chunk →
  (Z.to_nat (end_chunk lba len - chunk) < fuel)%nat → 0 <= count s → count s + (end_chunk lba len - chunk) <= U64_MAX →
  ∃ x s', cache_loop fuel (Z.of_nat id) drv (disk_cap drv) lba chunk buf s = Some (x, s') ∧
    turned s (end_chunk lba len) x s' ∧ count s <= count s' <= count s + (end_chunk lba len - chunk).
Proof using L Hid Hreq Hin.
  revert s chunk buf. induction fuel as [|fuel IH]; intros s chunk buf Hs Hc Hr Hf Hw1 Hw2; [lia|]. cbn [cache_loop].
  pose proof (proj1 Hr) as Hl. rewrite Hl. destruct (Z.ltb_spec chunk (end_chunk lba len)) as [Hlt|Hge]; cbn [negb].
  2:{ assert (chunk = end_chunk lba len) as -> by lia. exists (Ok buf), s. split; [done|]. split; [|lia]. split; [done|]. split; [done|]. right. by exists buf. }
  (* the rest of the loop, after a turn *)
  assert (Hnext : ∀ s1 c1 b1, io_ok s1 → same_disks s s1 → read_upto (world s) b1 c1 → chunk < c1 <= end_chunk lba len →
    count s <= count s1 <= count s + (c1 - chunk) →
    ∃ x s', cache_loop fuel (Z.of_nat id) drv (disk_cap drv) lba c1 b1 s1 = Some (x, s') ∧
      turned s (end_chunk lba len) x s' ∧ count s <= count s' <= count s + (end_chunk lba len - chunk)).
  { intros s1 c1 b1 H1 H2 [Hbl Hbr] H4 H5. assert (Hb1 : read_upto (world s1) b1 c1) by (split; [done|]; intros o ? ?; rewrite H2; by apply Hbr).
    destruct (IH s1 c1 b1 H1) as (x&s'&E&(T1&T2&T3)&T4); [lia|done|lia|lia|lia|]. exists x, s'. split; [done|]. split; [|lia].
    split; [done|]. split; [intros d; by rewrite T2|]. destruct T3 as [?|(b&->&Hb2&Hb3)]; [by left|right]. exists b. split; [done|].
    split; [done|]. intros o ? ?. rewrite <- H2. by apply Hb3. }
  destruct (turn_hit s chunk buf Hs ltac:(lia) Hr) as (h&c&->&Hs1&Hcw&Hh). cbn [mbind option_bind].
  destruct h as [buf'|]; [apply Hnext; try done; [lia|unfold count in *; cbn; lia]|]. set (s1 := set_cache c s) in *.
  assert (Hc1 : count s1 = count s) by (unfold count in *; cbn; lia).
  destruct (Z.leb_spec (Z.min (end_chunk lba len) (disk_cap drv / CHUNK_SECTORS)) chunk) as [Hw|Hw].
  - destruct (tail_place chunk ltac:(lia)) as (from&to&Ho&_&_&_&_&Ha&_). rewrite Ho. cbn [mbind option_bind]. rewrite Ha. cbn [mbind option_bind].
    destruct (turn_tail s1 chunk buf from to Hs1 ltac:(lia) Hr Ho) as (b&x&s2&Hb&E&D1&D2&D3&D4). rewrite Hb. cbn [mbind option_bind]. rewrite E.
    destruct D4 as [[-> Hx]|(l&buf'&->&Hcp&Hr')].
    + exists (Err tt), s2. split; [done|]. split; [|lia]. split; [done|]. split; [done|]. by left.
    + rewrite Hcp. cbn [mbind option_bind]. apply Hnext; try done; lia.
  - assert (Hm : chunk + 1 <= Z.min (end_chunk lba len) (disk_cap drv / CHUNK_SECTORS)) by (clear - Hw; lia).
    pose proof (run_end_bounds (Z.to_nat MAX_RUN) (Z.of_nat id) chunk (Z.min (end_chunk lba len) (disk_cap drv / CHUNK_SECTORS)) (chunk + 1) c Hm) as He. apply Z.min_glb_lt_iff in Hw as [_ Hw].
    set (e := run_end _ _ _ _ _ _) in *. destruct He as [He1 [He2 He3]%Z.min_glb_iff]. assert (0 <= first_chunk lba) by (destruct Hreq as ((?&_)&_); apply Z.div_pos; [lia|done]).
    rewrite fits_in; [|destruct Hreq as ((_&Hq)&_); unfold CHUNK_SECTORS, CHUNK, SECTOR, U64_MAX in *; change (4096 / 512) with 8 in *; lia].
    cbn [mbind option_bind].
    destruct (turn_run s1 chunk buf e (writes c) Hs1) as (x&s2&E&D1&D2&D3&D4); [lia|lia|lia|lia|done|lia|lia|]. rewrite E.
    destruct D4 as [[-> Hx]|(data&buf'&s3&->&Hcp&Hk&K1&K2&K3&K4)].
    + exists (Err tt), s2. split; [done|]. split; [|lia]. split; [done|]. split; [done|]. by left.
    + rewrite Hcp. cbn [mbind option_bind]. rewrite Hk. cbn [mbind option_bind]. apply Hnext; try done; lia.
Qed.

Lemma cache_read_ok s buf : io_ok s → zlen buf = len → 0 <= count s → count s + len / SECTOR <= U64_MAX →
  ∃ x s', cache_read (Z.of_nat id) drv (disk_cap drv) lba buf s = Some (x, s') ∧ io_ok s' ∧ same_disks s s' ∧ count s <= count s' <= count s + len / SECTOR ∧
    ((x = Err tt ∧ ~ reads_work drv) ∨ ∃ l, x = Ok l ∧ slice (bytes drv (world s)) (lba * SECTOR) (lba * SECTOR + len) = Some l).
Proof using L Hid Hreq Hin.
  intros Hs Hl Hw1 Hw2. destruct (chunk_bounds lba len Hreq) as (B1&B2&B3). pose proof Hreq as ((R1&R2)&R3&R4).
  assert (HK : CHUNK = 4096) by done. assert (HS : SECTOR = 512) by done. pose proof (Z.div_mod len SECTOR ltac:(lia)) as Hdm.
  assert (Hn : end_chunk lba len - first_chunk lba <= len / SECTOR) by lia.
  unfold cache_read. rewrite Hl. rewrite (request_end lba len Hreq). cbn [mbind option_bind].
  destruct (cache_loop_ok (S (Z.to_nat (end_chunk lba len - first_chunk lba))) s (first_chunk lba) buf) as (x&s'&E&(T1&T2&T3)&T4);
    [done|lia|split; [done|]; intros; lia|lia|lia|lia|].
  exists x, s'. split; [done|]. split; [done|]. split; [done|]. split; [lia|]. destruct T3 as [?|(l&->&Hll&Hz)]; [by left|right]. exists l. split; [done|].
  pose proof (bytes_length drv (world s)) as Hbl. rewrite slice_ok by lia. f_equal. apply list_eq. intros i. destruct (decide (Z.of_nat i < len)) as [Hi|Hi].
  - specialize (Hz (Z.of_nat i) ltac:(lia) ltac:(lia)). rewrite !zget_lookup in Hz by lia. rewrite Nat2Z.id in Hz. rewrite Hz, lookup_take_lt, lookup_drop by lia.
    f_equal. lia.
  - rewrite !lookup_ge_None_2; [done|lia|rewrite length_take, length_drop; lia].
Qed.
End request.

End cache.
