(* ===== verification/BlkIoExact.v ===== *)
(** * Reads and writes of bytes of a device

    Where the bytes of a disk or a partition are on its disk ([place]), and
    that the loops of [BlkIo.read_bytes] and [BlkIo.write_bytes] read and
    write those. *)

From S2P Require Import Prelude.
From stdpp Require Import gmap fin_maps functions sorting list.
From S2P Require Import Text BlkCache BlkCacheFacts Blk BlkFacts BlkIo BlkIoFacts.

Open Scope Z_scope.

Section exact.
Context `{L : DisksLaws Driver W}.

Implicit Types (s : Io W).

(** The disk, the first sector and the sectors of a device whose size is
    known. *)
Definition place (r : @Reg Driver) (dev : nat) : option (nat * Driver * Z * Z) :=
  d ← get r dev;
  match kind d with
  | KDisk drv _ _ _ => if disk_cap drv =? 0 then None else Some (dev, drv, 0, disk_cap drv)
  | KPart p =>
      d' ← get r (p_disk p);
      match kind d' with KDisk drv _ _ _ => Some (p_disk p, drv, p_first p, p_sectors p) | KPart _ => None end
  end.

Context (r : @Reg Driver) (Hr : tab_ok disk_cap (devs r)) (Hapart : disks_apart r).
Context (dev disk : nat) (drv : Driver) (base n : Z) (Hplace : place r dev = Some (disk, drv, base, n)).

Lemma place_range : 0 <= base ∧ 1 <= n ∧ base + n <= disk_cap drv.
Proof using L Hr Hplace.
  unfold place in Hplace. destruct (get r dev) as [[nm [drv' sc se inf|p]]|] eqn:E; [| |done]; cbn in Hplace.
  - destruct (Z.eqb_spec (disk_cap drv') 0); [done|]. injection Hplace as <- <- <- <-. pose proof (cap_range drv'). lia.
  - destruct (tab_part _ _ Hr _ _ _ E) as (drv'&se&inf&Hd&Hb). change (dev_at (devs r) (p_disk p)) with (get r (p_disk p)) in Hd. rewrite Hd in Hplace.
    cbn in Hplace. injection Hplace as <- <- <- <-. lia.
Qed.

Lemma place_disk : is_disk_at r disk drv.
Proof using L Hplace.
  unfold place in Hplace. destruct (get r dev) as [[nm [drv' sc se inf|p]]|] eqn:E; [| |done]; cbn in Hplace.
  - destruct (disk_cap drv' =? 0); [done|]. injection Hplace as <- <- <- <-. by exists nm, sc, se, inf.
  - destruct (get r (p_disk p)) as [[nm' [drv' sc se inf|p']]|] eqn:E'; [|done..]. cbn in Hplace. injection Hplace as <- <- <- <-. by exists nm', sc, se, inf.
Qed.

Lemma disk_capacity : capacity_sectors r disk = Some (disk_cap drv).
Proof using L Hr Hplace.
  destruct place_range as (?&?&?). destruct place_disk as (nm&sc&se&inf&E). unfold capacity_sectors. rewrite E. cbn.
  by destruct (Z.eqb_spec (disk_cap drv) 0); [lia|].
Qed.

Lemma capacity_place : capacity_bytes r dev = Some (n * SECTOR).
Proof using L Hr Hplace.
  destruct place_range as (Hb&Hn&Hc). pose proof (cap_range drv) as [_ Hmax]. unfold capacity_bytes, capacity_sectors. unfold place in Hplace.
  destruct (get r dev) as [[nm [drv' sc se inf|p]]|] eqn:E; [| |done]; cbn in Hplace |- *.
  - destruct (disk_cap drv' =? 0); [done|]. injection Hplace as <- <- <- <-. cbn. f_equal. unfold CHUNK, SECTOR in *. lia.
  - destruct (get r (p_disk p)) as [[nm' [drv' sc se inf|p']]|]; [|done..]. cbn in Hplace. injection Hplace as <- <- <- <-.
    destruct (Z.eqb_spec (p_sectors p) 0); [lia|]. cbn. f_equal. unfold CHUNK, SECTOR in *. nia.
Qed.

Lemma on_disk_place lba k : 0 <= lba → 0 <= k → lba + k <= n → on_disk r dev lba k = Some (Some (disk, drv, base + lba)).
Proof using L Hr Hplace.
  intros Hl Hk Hn. destruct place_range as (Hb&_&Hc). pose proof (cap_range drv) as [_ Hmax]. unfold CHUNK, SECTOR, U64_MAX in Hmax. unfold on_disk. unfold place in Hplace.
  destruct (get r dev) as [[nm [drv' sc se inf|p]]|] eqn:E; [| |done]; cbn in Hplace.
  - destruct (disk_cap drv' =? 0); [done|]. by injection Hplace as <- <- <- <-.
  - destruct (get r (p_disk p)) as [[nm' [drv' sc se inf|p']]|]; [|done..]. cbn in Hplace. injection Hplace as <- <- <- <-.
    unfold add64. rewrite fits_in by lia. rewrite (proj2 (Z.ltb_ge _ _)) by lia. by rewrite fits_in by lia.
Qed.

(** ** Sectors of the device *)

Lemma sectors_of (buf : list Z) k : zlen buf = k * SECTOR → 1 <= k →
  zlen buf mod SECTOR = 0 ∧ Text.nonempty buf = true ∧ zlen buf / SECTOR = k.
Proof.
  intros E Hk. rewrite E. split; [by apply Z.mod_mul|]. split; [|by apply Z.div_mul]. destruct buf; [|done]. cbn in E. unfold SECTOR in E. lia.
Qed.

Lemma request_place lba k : 0 <= lba → 1 <= k → lba + k <= n →
  request_ok (base + lba) (k * SECTOR) ∧ (base + lba) * SECTOR + k * SECTOR <= disk_cap drv * SECTOR.
Proof using L Hr Hplace.
  intros Hl Hk Hn. destruct place_range as (Hb&_&Hc). pose proof (cap_range drv) as [_ Hmax]. unfold request_ok, end_chunk, ceil, CHUNK_SECTORS, CHUNK, SECTOR in *.
  change (4096 / 512) with 8. rewrite Z.div_mul by done. set (e := base + lba + k) in *.
  pose proof (Z.div_mod e 8 ltac:(done)). pose proof (Z.mod_pos_bound e 8 ltac:(done)).
  split_and!; try lia; [destruct (Z.eqb_spec (e mod 8) 0); lia|by apply Z.mod_mul].
Qed.

Lemma read_sectors lba k buf s : io_ok r s → 0 <= lba → zlen buf = k * SECTOR → 1 <= k → lba + k <= n → 0 <= count s → count s + k <= U64_MAX →
  ∃ x s', read r dev lba buf s = Some (x, s') ∧ io_ok r s' ∧ same_disks s s' ∧ count s <= count s' <= count s + k ∧
  ((x = Err tt ∧ ~ reads_work drv) ∨
   ∃ l, x = Ok l ∧ slice (bytes drv (world s)) (base * SECTOR + lba * SECTOR) (base * SECTOR + lba * SECTOR + k * SECTOR) = Some l).
Proof using L Hr Hplace.
  intros Hs Hl Hb Hk Hn Hw1 Hw2. destruct (sectors_of buf k Hb Hk) as (E1&E2&E3). destruct (request_place lba k Hl Hk Hn) as [Hq Hin].
  unfold read. rewrite E1, E2, E3. cbn [Z.eqb negb]. rewrite on_disk_place by lia. cbn [mbind option_bind]. rewrite disk_capacity.
  destruct (cache_read_ok r disk drv place_disk (base + lba) (k * SECTOR) Hq Hin s buf) as (x&s'&E&R1&R2&R3&R4); [done|done|done|by rewrite Z.div_mul|].
  rewrite Z.div_mul in R3 by done. exists x, s'. split; [done|]. split; [done|]. split; [done|]. split; [done|]. by rewrite <- Z.mul_add_distr_r.
Qed.

Lemma offset_fits offset done want : 0 <= offset → 0 <= done <= want → offset + want <= n * SECTOR → add64 offset done = Some (offset + done).
Proof using L Hr Hplace.
  intros Ho Hd Hn. destruct place_range as (Hb&_&Hc). pose proof (cap_range drv) as [_ Hm]. unfold add64. rewrite fits_in; [done|].
  unfold U64_MAX, CHUNK, SECTOR in *. lia.
Qed.

(** Other disks, and what is outside the device on its own. *)
Definition spared s s' : Prop := (∀ d, d ≠ drv → bytes d (world s') = bytes d (world s)) ∧
  ∀ a, a < base * SECTOR ∨ (base + n) * SECTOR <= a → zget (bytes drv (world s')) a = zget (bytes drv (world s)) a.

Lemma spared_refl s s' : same_disks s s' → spared s s'.
Proof. intros Hs. split; intros; by rewrite Hs. Qed.

Lemma spared_trans s1 s2 s3 : spared s1 s2 → spared s2 s3 → spared s1 s3.
Proof. intros [H1 H2] [H3 H4]. split; intros; [rewrite H3, H1|rewrite H4, H2]; done. Qed.

Lemma write_sectors lba k buf s : io_ok r s → 0 <= lba → zlen buf = k * SECTOR → 1 <= k → lba + k <= n → 0 <= count s < U64_MAX →
  ∃ x s', write r dev lba buf s = Some (x, s') ∧ spared s s' ∧ count s' = count s + 1 ∧
  ((x = Err tt ∧ ~ writes_work drv) ∨
   (x = Ok tt ∧ io_ok r s' ∧ bytes drv (world s') = splice (bytes drv (world s)) (base * SECTOR + lba * SECTOR) buf)).
Proof using L Hr Hapart Hplace.
  intros Hs Hl Hb Hk Hn Hw. destruct (sectors_of buf k Hb Hk) as (E1&E2&E3). destruct (request_place lba k Hl Hk Hn) as [Hq Hin]. rewrite <- Hb in Hq, Hin.
  unfold write. rewrite E1, E2, E3. cbn [Z.eqb negb]. rewrite on_disk_place by lia. cbn [mbind option_bind].
  destruct (disk_write drv (base + lba) buf (world s)) as [x w'] eqn:E. destruct (write_does _ _ _ _ _ _ E) as (H1&H2&H3).
  pose proof Hs as [Hc Hm Hf Ho Hco].
  destruct (wrote_ok (Z.of_nat disk) (base + lba) buf (io_mem s) (io_cache s)) as (c'&m'&->&W1&W2&W3&W4&W5); [done..|].
  cbn [mbind option_bind]. set (s' := {| world := w'; io_cache := c'; io_mem := m'; io_taken := io_taken s |}).
  exists x, s'. split; [done|]. destruct place_range as (Hb'&_&Hcp). pose proof (bytes_length drv (world s)) as Hbl. rewrite Z.mul_add_distr_r in *.
  split; [|split; [done|]].
  - split; [done|]. intros a Ha. cbn [s' world]. destruct x as [[]|[]].
    + destruct (H2 eq_refl) as (_&Hin2&->). apply zget_splice_out; unfold SECTOR in *; lia.
    + apply H3; [done|]. unfold SECTOR in *. lia.
  - destruct x as [[]|[]].
    + right. split; [done|]. destruct (H2 eq_refl) as (_&_&Hsp). split; [|done]. assert (Ef : frames c' = frames (io_cache s)) by (unfold frames; by rewrite W2).
      split; cbn [s' io_cache io_mem io_taken world]; [by apply (c_ok_same (io_cache s))|done|by rewrite Ef|by rewrite Ef|].
      intros id drv' p v Hid Hv. unfold in_range in W5. rewrite Z.mul_add_distr_r in W5. destruct (W5 _ _ _ Hv) as [(Hi&Hp&Hbv)|(Hno&Hold)].
      * assert (id = disk) as -> by lia. rewrite (is_disk_det _ _ _ _ Hid place_disk). rewrite Hsp, zget_splice by (unfold SECTOR in *; lia).
        rewrite (proj2 (Z.leb_le _ _)), (proj2 (Z.ltb_lt _ _)) by lia. done.
      * apply (Hco id drv' p v Hid) in Hold. destruct (decide (id = disk)) as [->|Hne].
        -- rewrite (is_disk_det _ _ _ _ Hid place_disk) in *. rewrite Hsp, zget_splice by (unfold SECTOR in *; lia).
           destruct ((base * SECTOR + lba * SECTOR <=? p) && (p <? base * SECTOR + lba * SECTOR + zlen buf)) eqn:Eb; [|done]. bool_hyps. destruct Hno. split; [done|lia].
        -- rewrite H1; [done|]. intros ->. destruct Hne. by apply (Hapart _ _ _ Hid place_disk).
    + left. split; [done|]. intros Hww. destruct (Hww (base + lba) buf (world s)) as (w''&E'); [lia| |congruence]. rewrite Z.mul_add_distr_r. lia.
Qed.
(** ** The loops *)

Lemma turn_whole abs left : 0 <= abs → 0 < left → abs + left <= n * SECTOR → 0 < whole_sectors (abs mod SECTOR) left →
  let whole := whole_sectors (abs mod SECTOR) left in
  abs = abs / SECTOR * SECTOR ∧ whole = whole / SECTOR * SECTOR ∧ 1 <= whole / SECTOR ∧ whole <= left ∧ abs / SECTOR + whole / SECTOR <= n.
Proof.
  intros Ha Hl Hn Hw. unfold whole_sectors in *. destruct (Z.eqb_spec (abs mod SECTOR) 0) as [E|]; [|cbn in Hw; lia]. cbn [negb] in *.
  assert (Hab : abs = abs / SECTOR * SECTOR) by (pose proof (Z.div_mod abs SECTOR ltac:(done)); lia).
  set (q := left / SECTOR). assert (Hq : q * SECTOR <= left) by (pose proof (Z.div_mod left SECTOR ltac:(done)); pose proof (Z.mod_pos_bound left SECTOR ltac:(done)); subst q; lia).
  fold q in Hw. assert (Hwq : Z.min (q * SECTOR) MAX_REQUEST = Z.min q 128 * SECTOR) by (unfold MAX_REQUEST, SECTOR; lia). rewrite Hwq in *.
  cbn zeta. rewrite Z.div_mul by done. unfold SECTOR in *. split; [done|]. split; [done|]. lia.
Qed.

Lemma turn_part abs left : 0 <= abs → 0 < left → abs + left <= n * SECTOR →
  let off := abs mod SECTOR in let take_ := Z.min (SECTOR - off) left in
  abs = abs / SECTOR * SECTOR + off ∧ 0 <= off ∧ 1 <= take_ ∧ off + take_ <= SECTOR ∧ 0 <= abs / SECTOR ∧ abs / SECTOR + 1 <= n.
Proof.
  intros Ha Hl Hn. cbn zeta. pose proof (Z.div_mod abs SECTOR ltac:(done)). pose proof (Z.mod_pos_bound abs SECTOR ltac:(done)).
  assert (0 <= abs / SECTOR) by (apply Z.div_pos; done). unfold SECTOR in *. lia.
Qed.

(** What is left of a read, done but for [m] bytes of it at [done]. *)
Definition read_rest (offset want done : Z) (buf : list Z) s (out : option (result () Z * list Z * Io W)) : Prop :=
  ∃ x buf' s', out = Some (x, buf', s') ∧ io_ok r s' ∧ same_disks s s' ∧ count s <= count s' <= count s + (want - done) ∧
  ((x = Err tt ∧ ~ reads_work drv) ∨
   (x = Ok want ∧ ∃ l, slice (bytes drv (world s)) (base * SECTOR + offset + done) (base * SECTOR + offset + want) = Some l ∧ buf' = splice buf done l)).

Lemma read_rest_more offset want done buf s m l s1 out : 0 <= done → 1 <= m <= want - done → want <= zlen buf →
  same_disks s s1 → count s <= count s1 <= count s + m →
  slice (bytes drv (world s)) (base * SECTOR + offset + done) (base * SECTOR + offset + done + m) = Some l →
  read_rest offset want (done + m) (splice buf done l) s1 out → read_rest offset want done buf s out.
Proof.
  intros Hd Hm Hw Hs1 Hc1 Hl (x&buf'&s'&->&Hok&Hs&Hc&Hx). pose proof (slice_length _ _ _ _ Hl) as Hll.
  exists x, buf', s'. split; [done|]. split; [done|]. split; [intros d; by rewrite Hs|]. split; [lia|]. destruct Hx as [Hx|(->&l2&Hl2&->)]; [by left|right]. split; [done|].
  rewrite Hs1 in Hl2. replace (base * SECTOR + offset + (done + m)) with (base * SECTOR + offset + done + m) in Hl2 by lia.
  pose proof (slice_length _ _ _ _ Hl2) as Hll2. exists (l ++ l2). split; [by eapply slice_join|]. replace (done + m) with (done + zlen l) by lia. apply splice_app; lia.
Qed.

Lemma read_rest_fails offset want done buf s s1 : io_ok r s1 → same_disks s s1 → count s <= count s1 <= count s + (want - done) → ~ reads_work drv →
  read_rest offset want done buf s (Some (Err tt, buf, s1)).
Proof. intros. eexists _, _, _. split; [done|]. split_and!; try done; [lia..|]. by left. Qed.

Lemma read_loop_exact fuel offset want done buf s : io_ok r s → 0 <= offset → 0 <= done <= want → want <= zlen buf → offset + want <= n * SECTOR →
  0 <= count s → count s + (want - done) <= U64_MAX →
  (Z.to_nat (want - done) < fuel)%nat → read_rest offset want done buf s (read_loop fuel r dev offset want done buf s).
Proof using L Hr Hplace.
  intros Hok Ho Hd Hw Hn. revert done buf s Hok Hd Hw. induction fuel as [|fuel IH]; intros done buf s Hok Hd Hw Hc0 Hc1 Hf; [lia|]. cbn [read_loop].
  destruct place_range as (Hb&Hn1&Hc). pose proof (bytes_length drv (world s)) as Hlen.
  destruct (Z.ltb_spec done want) as [Hlt|Hge]; cbn [negb].
  2:{ assert (done = want) as -> by lia. eexists _, _, s. split; [done|]. split_and!; try done; [lia..|]. right. split; [done|]. exists []. split.
      - rewrite slice_ok by (unfold SECTOR in *; lia). by rewrite Z.sub_diag.
      - by rewrite splice_nil. }
  rewrite (offset_fits offset done want) by done. cbn [mbind option_bind]. unfold usub. rewrite (proj2 (Z.leb_le done want)) by lia. cbn [mbind option_bind].
  destruct (Z.ltb_spec 0 (whole_sectors ((offset + done) mod SECTOR) (want - done))) as [Hwh|Hwh].
  - destruct (turn_whole (offset + done) (want - done)) as (Ea&Ew&Hk&Hle&Hfit); [lia..|].
    set (whole := whole_sectors _ _) in *. assert (Hks : whole / SECTOR <= whole) by (clear - Ew Hk; unfold SECTOR in *; lia). rewrite slice_ok by lia. cbn [mbind option_bind].
    destruct (read_sectors ((offset + done) / SECTOR) (whole / SECTOR) (take (Z.to_nat (done + whole - done)) (drop (Z.to_nat done) buf)) s)
      as (x&s1&E&Hok1&Hs&Hc2&Hx); [done|apply Z.div_pos; unfold SECTOR; lia|rewrite length_take, length_drop; lia|lia..|].
    rewrite E. cbn [mbind option_bind]. destruct Hx as [[-> Hx]|(l&->&Hl)]; [by apply read_rest_fails; [..|lia|]|].
    rewrite <- Ew, <- Ea in Hl. rewrite Z.add_assoc in Hl. pose proof (slice_length _ _ _ _ Hl). rewrite copy_slice_ok by lia. cbn [mbind option_bind].
    eapply (read_rest_more _ _ _ _ _ whole); [lia..|done|lia|done|]. apply IH; [done|lia|rewrite splice_length; lia|lia..].
  - destruct (turn_part (offset + done) (want - done)) as (Ea&Ho'&Ht&Hot&Hq&Hfit); [lia..|]. set (off := (offset + done) mod SECTOR) in *.
    set (take_ := Z.min (SECTOR - off) (want - done)) in *.
    destruct (read_sectors ((offset + done) / SECTOR) 1 (replicate (Z.to_nat SECTOR) 0) s) as (x&s1&E&Hok1&Hs&Hc2&Hx); [done|done|by rewrite length_replicate|lia..|].
    rewrite E. cbn [mbind option_bind]. destruct Hx as [[-> Hx]|(sec&->&Hsec)]; [by apply read_rest_fails; [..|lia|]|].
    pose proof (slice_within _ _ _ _ off (off + take_) Hsec Ho' ltac:(lia)) as Hsl. pose proof (slice_length _ _ _ _ Hsec) as Hsecl.
    rewrite slice_ok in Hsl |- * by lia. cbn [mbind option_bind]. set (src := take _ (drop _ sec)) in *.
    replace (base * SECTOR + (offset + done) / SECTOR * SECTOR + off) with (base * SECTOR + offset + done) in Hsl by lia.
    replace (base * SECTOR + (offset + done) / SECTOR * SECTOR + (off + take_)) with (base * SECTOR + offset + done + take_) in Hsl by lia.
    symmetry in Hsl. pose proof (slice_length _ _ _ _ Hsl). rewrite copy_slice_ok by lia. cbn [mbind option_bind].
    eapply (read_rest_more _ _ _ _ _ take_); [lia..|done|lia|done|]. apply IH; [done|lia|rewrite splice_length; lia|lia..].
Qed.

(** What is left of a write. *)
Definition write_rest (offset want done : Z) (buf : list Z) s (out : option (result () Z * Io W)) : Prop :=
  ∃ x s', out = Some (x, s') ∧ spared s s' ∧ count s <= count s' <= count s + 2 * (want - done) ∧
  ((x = Err tt ∧ ~ (reads_work drv ∧ writes_work drv)) ∨
   (x = Ok want ∧ io_ok r s' ∧
    ∃ l, slice buf done want = Some l ∧ bytes drv (world s') = splice (bytes drv (world s)) (base * SECTOR + offset + done) l)).

Lemma write_rest_more offset want done buf s m l s1 out : 0 <= offset → 0 <= done → 1 <= m <= want - done → offset + want <= n * SECTOR →
  spared s s1 → count s <= count s1 <= count s + 2 * m → slice buf done (done + m) = Some l →
  bytes drv (world s1) = splice (bytes drv (world s)) (base * SECTOR + offset + done) l →
  write_rest offset want (done + m) buf s1 out → write_rest offset want done buf s out.
Proof using L Hr Hplace.
  intros Ho Hd Hm Hn Hs1 Hc1 Hl Hw1 (x&s'&->&Hs&Hc&Hx). pose proof (slice_length _ _ _ _ Hl) as Hll. destruct place_range as (Hb&_&Hcp). pose proof (bytes_length drv (world s)).
  exists x, s'. split; [done|]. split; [by eapply spared_trans|]. split; [lia|]. destruct Hx as [Hx|(->&Hok&l2&Hl2&Hw2)]; [by left|right]. split; [done|]. split; [done|].
  pose proof (slice_length _ _ _ _ Hl2). exists (l ++ l2). split; [by eapply slice_join|]. rewrite Hw2, Hw1.
  replace (base * SECTOR + offset + (done + m)) with (base * SECTOR + offset + done + zlen l) by lia. apply splice_app; unfold SECTOR in *; lia.
Qed.

Lemma write_rest_fails offset want done buf s s1 : spared s s1 → count s <= count s1 <= count s + 2 * (want - done) → ~ (reads_work drv ∧ writes_work drv) →
  write_rest offset want done buf s (Some (Err tt, s1)).
Proof. intros. eexists _, _. split; [done|]. split_and!; try done; [lia..|]. by left. Qed.

Lemma write_loop_exact fuel offset want done buf s : io_ok r s → 0 <= offset → 0 <= done <= want → want <= zlen buf → offset + want <= n * SECTOR →
  0 <= count s → count s + 2 * (want - done) <= U64_MAX →
  (Z.to_nat (want - done) < fuel)%nat → write_rest offset want done buf s (write_loop fuel r dev offset want done buf s).
Proof using L Hr Hapart Hplace.
  intros Hok Ho Hd Hw Hn. revert done s Hok Hd. induction fuel as [|fuel IH]; intros done s Hok Hd Hc0 Hc1 Hf; [lia|]. cbn [write_loop].
  destruct place_range as (Hb&Hn1&Hc). pose proof (bytes_length drv (world s)) as Hlen.
  destruct (Z.ltb_spec done want) as [Hlt|Hge]; cbn [negb].
  2:{ assert (done = want) as -> by lia. eexists _, s. split; [done|]. split; [by apply spared_refl|]. split; [lia|]. right. split; [done|]. split; [done|]. exists []. split.
      - rewrite slice_ok by lia. by rewrite Z.sub_diag.
      - by rewrite splice_nil. }
  rewrite (offset_fits offset done want) by done. cbn [mbind option_bind]. unfold usub. rewrite (proj2 (Z.leb_le done want)) by lia. cbn [mbind option_bind].
  destruct (Z.ltb_spec 0 (whole_sectors ((offset + done) mod SECTOR) (want - done))) as [Hwh|Hwh].
  - destruct (turn_whole (offset + done) (want - done)) as (Ea&Ew&Hk&Hle&Hfit); [lia..|]. set (whole := whole_sectors _ _) in *.
    destruct (slice_some buf done (done + whole)) as [b Hbuf]; [lia..|]. pose proof (slice_length _ _ _ _ Hbuf). rewrite Hbuf. cbn [mbind option_bind].
    destruct (write_sectors ((offset + done) / SECTOR) (whole / SECTOR) b s) as (x&s1&E&Hs&Hc2&Hx); [done|apply Z.div_pos; unfold SECTOR; lia|lia..|].
    rewrite E. cbn [mbind option_bind]. destruct Hx as [[-> Hx]|(->&Hok1&Hsp)]; [by apply write_rest_fails; [..|lia|naive_solver]|].
    rewrite <- Ea, Z.add_assoc in Hsp. eapply (write_rest_more _ _ _ _ _ whole); [lia..|done|lia|done|done|]. apply IH; [done|lia..].
  - destruct (turn_part (offset + done) (want - done)) as (Ea&Ho'&Ht&Hot&Hq&Hfit); [lia..|]. set (off := (offset + done) mod SECTOR) in *.
    set (take_ := Z.min (SECTOR - off) (want - done)) in *.
    destruct (read_sectors ((offset + done) / SECTOR) 1 (replicate (Z.to_nat SECTOR) 0) s) as (x&s1&E&Hok1&Hs&Hc2&Hx); [done|done|by rewrite length_replicate|lia..|].
    rewrite E. cbn [mbind option_bind]. destruct Hx as [[-> Hx]|(sec&->&Hsec)]; [apply write_rest_fails; [by apply spared_refl|lia|naive_solver]|].
    destruct (slice_some buf done (done + take_)) as [src Hsrc]; [lia..|]. pose proof (slice_length _ _ _ _ Hsrc). rewrite Hsrc. cbn [mbind option_bind].
    pose proof (slice_length _ _ _ _ Hsec). rewrite copy_slice_ok by lia. cbn [mbind option_bind].
    destruct (write_sectors ((offset + done) / SECTOR) 1 (splice sec off src) s1) as (x&s2&E2&Hs2&Hc3&Hx); [done|done|rewrite splice_length; lia|lia..|].
    rewrite E2. cbn [mbind option_bind]. pose proof (spared_trans _ _ _ (spared_refl _ _ Hs) Hs2) as Hs3.
    destruct Hx as [[-> Hx]|(->&Hok2&Hsp)]; [by apply write_rest_fails; [..|lia|naive_solver]|].
    rewrite Hs in Hsp. rewrite (splice_inner _ _ _ _ _ _ Hsec) in Hsp by lia.
    replace (base * SECTOR + (offset + done) / SECTOR * SECTOR + off) with (base * SECTOR + offset + done) in Hsp by lia.
    eapply (write_rest_more _ _ _ _ _ take_); [lia..|done|lia|done|done|]. apply IH; [done|lia..].
Qed.

End exact.
