(* ===== verification/BlkProps.v ===== *)
(** * Disks and partitions: theorems

    What holds of the registry of [Blk.v] however its calls interleave, of
    the bytes read and written through it, and two defects. *)

From S2P Require Import Prelude.
From stdpp Require Import gmap sorting list.
From S2P Require Import Text Gpt BlkCache BlkCacheFacts Blk BlkFacts BlkScan BlkIo BlkIoFacts BlkIoExact.

Open Scope string_scope.
Open Scope list_scope.
Open Scope Z_scope.

(** C32: However calls that register, unregister, scan and rescan disks interleave, a lookup of a path under [/dev] whose disk has the same
    slot of the table at the lookup's two looks (at [s] and at [s']) is exact: every device in the table at the second look is found by its
    path, and a path that leads to a device is that device's, so that no two devices have one path and none is out of reach.  A disk that is
    replaced between the looks leads the lookup astray ([path_leads_astray]). *)
Theorem device_paths_roundtrip {Driver} (cap : Driver → Z) tasks s s' : (∀ drv, cap drv < 2 ^ 64) → reached cap tasks s' →
  (∀ i d, get (reg s') i = Some d → disk_of (reg s) (path d) = disk_of (reg s') (path d) → by_path (reg s) (reg s') (path d) = Some i) ∧
  ∀ q i, disk_of (reg s) q = disk_of (reg s') q → by_path (reg s) (reg s') q = Some i → ∃ d, get (reg s') i = Some d ∧ path d = q.
Proof.
  intros Hcap H%(reached_tab cap Hcap). split.
  - intros i d Hd Hq. rewrite by_path_steady by done. by eapply by_path_of.
  - intros q i Hq. rewrite by_path_steady by done. by eapply by_path_inv.
Qed.

(** When a scan returns, whatever other calls are in progress, no disk is being read: each has been read, or is to be read again, which the
    flag says or another task, that has taken the flag back and not yet claimed the disk, is about to do. *)
Theorem scan_returns_when_read {Driver} (cap : Driver → Z) tasks s t s' : Z.of_nat tasks < 2 ^ 32 → reached cap tasks s →
  calls s !! t = Some InWait → step cap (Goes t) s s' → calls s' !! t = Some Idle →
  ∀ i d drv sc serial info, get (reg s) i = Some d → kind d = KDisk drv sc serial info →
    sc = Done ∨ sc = Pending ∧ (pending (reg s) = true ∨ ∃ t', t' ≠ t ∧ calls s !! t' = Some InClaim).
Proof.
  intros Ht Hreach Hc Hstep Hidle i d drv sc serial info Hd Hk. pose proof (reached_scans cap tasks Ht s Hreach) as Hs.
  assert (Hrun : running (reg s) = 0).
  { inversion Hstep as [| |t0 c r c' s0 Hc0 Hgo| |]; subst. rewrite Hc in Hc0. injection Hc0 as <-. cbn in Hgo. injection Hgo as <- <-.
    cbn in Hidle. rewrite list_lookup_insert_eq in Hidle by (by eapply lookup_lt_Some). by destruct (Z.eqb_spec (running (reg s)) 0). }
  rewrite (so_count _ _ Hs) in Hrun. assert (Hst : state_at (devs (reg s)) i = Some (sc, serial)).
  { unfold state_at. change (dev_at (devs (reg s)) i) with (get (reg s) i). rewrite Hd. cbn. unfold dev_state. by rewrite Hk. }
  destruct sc; [|destruct (so_running _ _ Hs _ _ Hst) as [t' Ht']; by apply (no_readers _ _ _ Hrun) in Ht'|by left].
  right. split; [done|]. destruct (so_pending _ _ Hs _ _ Hst) as [?|(t'&c&Hc'&Hl)]; [by left|right]. exists t'.
  pose proof (no_readers _ _ _ Hrun Hc') as Hn. destruct c; try done. split; [|done]. intros ->. congruence.
Qed.

Lemma reached_table `{DisksLaws Driver W} tasks s : reached disk_cap tasks s → tab_ok disk_cap (devs (reg s)).
Proof. intros Hs. eapply reached_tab; [|exact Hs]. intros d. pose proof (cap_range d). unfold CHUNK, SECTOR, U64_MAX in *. lia. Qed.


(** A read, through the cache, gives the bytes of the device's range, up to
    its end, and changes none; it fails only if the disk does. *)
Theorem device_reads_exact `{DisksLaws Driver W} tasks s dev disk drv base n offset buf io : reached disk_cap tasks s →
  place (reg s) dev = Some (disk, drv, base, n) → io_ok (reg s) io → 0 <= count io → count io + zlen buf <= U64_MAX → 0 <= offset < n * SECTOR →
  let m := Z.min (zlen buf) (n * SECTOR - offset) in
  ∃ x buf' io', read_bytes (reg s) dev offset buf io = Some (x, buf', io') ∧ io_ok (reg s) io' ∧ same_disks io io' ∧
    ((x = Err tt ∧ ~ reads_work drv) ∨
     (x = Ok m ∧ ∃ l, slice (bytes drv (world io)) (base * SECTOR + offset) (base * SECTOR + offset + m) = Some l ∧ buf' = splice buf 0 l)).
Proof.
  intros Hreach Hp Hok Hc0 Hc1 Ho m. pose proof (reached_table tasks s Hreach) as Hr.
  destruct (place_range _ Hr _ _ _ _ _ Hp) as (Hb&_&Hc). pose proof (bytes_length drv (world io)) as Hlen. unfold read_bytes.
  destruct (nonempty buf) eqn:En; cbn [negb].
  2:{ destruct buf; [|done]. eexists _, _, io. split; [done|]. split; [done|]. split; [done|]. right. subst m. cbn [length] in *.
      replace (Z.min (Z.of_nat 0) (n * SECTOR - offset)) with 0 by lia. split; [done|]. exists []. split; [|done].
      rewrite slice_ok by (unfold SECTOR in *; lia). by rewrite Z.add_0_r, Z.sub_diag. }
  rewrite (capacity_place _ Hr _ _ _ _ _ Hp). rewrite (proj2 (Z.leb_gt _ _)) by lia. fold m.
  destruct (read_loop_exact _ Hr _ _ _ _ _ Hp (S (Z.to_nat m)) offset m 0 buf io) as (x&buf'&io'&E&Hok'&Hs&_&Hx); [done|lia..|]. rewrite E.
  exists x, buf', io'. split; [done|]. split; [done|]. split; [done|]. by rewrite Z.add_0_r in Hx.
Qed.

(** ** A machine to try them on *)

(** Two disks of eight sectors in memory; a driver says which.  The cache may
    have a chunk, and a frame's number is the first that is not taken. *)
Definition ram (l : list Z) : list Z := resize (Z.to_nat 4096) 0 l.
Definition ram_of (drv : bool) (w : list Z * list Z) : list Z := ram (if drv then w.2 else w.1).

#[export] Instance ram_disks : Disks bool (list Z * list Z) := {|
  disk_cap _ := 8;
  disk_read drv lba n w := (match slice (ram_of drv w) (lba * SECTOR) (lba * SECTOR + n) with Some l => Ok l | None => Err tt end, w);
  disk_write drv lba buf w :=
    match copy_slice (ram_of drv w) (lba * SECTOR) (lba * SECTOR + zlen buf) buf with
    | Some l => (Ok tt, if drv then (w.1, l) else (l, w.2))
    | None => (Err tt, w)
    end;
  free_frame_of _ t := Some (fresh t);
  cache_capacity := 1 |}.

Lemma ram_length l : zlen (ram l) = 4096.
Proof. unfold ram. rewrite length_resize. lia. Qed.

Lemma ram_id l : zlen l = 4096 → ram l = l.
Proof. intros Hl. unfold ram. apply resize_all_alt. lia. Qed.

#[export] Program Instance ram_laws : DisksLaws bool (list Z * list Z) := {| bytes := ram_of |}.
Next Obligation. intros. cbn. unfold CHUNK, SECTOR, U64_MAX. lia. Qed.
Next Obligation. intros. unfold ram_of. by rewrite ram_length. Qed.
Next Obligation. intros *. cbn -[ram_of]. destruct (slice (ram_of _ _) _ _) eqn:E; intros [= <- <-]; (split; [done|]); [by intros ? [= <-]|done]. Qed.
Next Obligation.
  intros *. unfold disk_write, ram_disks. assert (Hl : zlen (ram_of drv w) = 4096) by apply ram_length. unfold copy_slice. case_if; intros [= <- <-]; [|done].
  split; [intros d Hd; destruct drv, d; [destruct (Hd eq_refl)|reflexivity|reflexivity|destruct (Hd eq_refl)]|]. split; [|discriminate]. intros _. split; [lia|]. split; [lia|]. set (l := splice _ _ _).
  trans (ram l); [destruct drv; reflexivity|]. apply ram_id. subst l. rewrite splice_length; lia.
Qed.
Next Obligation. intros * [= <-]. apply is_fresh. Qed.
Next Obligation. intros. by eexists. Qed.

(** A disk with a partition of sectors 2 to 4, as entry 1 of its table. *)
Definition entry : Gpt.Entry := {| number := 1; first := 2; last := 4; type_guid := []; uuid := []; label := [] |}.

#[export] Instance entry_eq_dec : EqDecision Gpt.Entry.
Proof. solve_decision. Defined.

(** The steps of [step], executed. *)
Definition next (l : @Label bool) (s : @Sys bool) : option Sys :=
  match l with
  | Registers nm drv info => Some (with_reg (register nm drv info (reg s)).2 s)
  | Calls t c => if bool_decide (is_Some (calls s !! t)) then Some (with_call t c s) else None
  | Goes t => c ← calls s !! t; '(r, c') ← go c (in_use s) (reg s); Some (with_call t c' (with_reg r s))
  | Reads t es => c ← calls s !! t; match c with InRead i se => r ← add_parts i se es (reg s); Some (with_call t InAdded (with_reg r s)) | _ => None end
  | Uses u => Some {| reg := reg s; calls := calls s; in_use := u |}
  end.

Definition after (ls : list (@Label bool)) (s : @Sys bool) : option Sys := foldl (λ s l, s ← s; next l s) (Some s) ls.

(** Whether a step may be taken. *)
Definition idle_call (c : Call) : bool := match c with Idle => true | _ => false end.

Definition may_step (l : @Label bool) (s : @Sys bool) : bool :=
  match l with
  | Calls t c => match calls s !! t with Some x => idle_call x && is_start c | None => false end
  | Reads _ es => bool_decide (es = [entry])
  | _ => true
  end.

Fixpoint may_run (ls : list (@Label bool)) (s : @Sys bool) : bool :=
  match ls with [] => true | l :: ls => may_step l s && match next l s with Some s => may_run ls s | None => false end end.

Lemma next_step l s s' : may_step l s = true → next l s = Some s' → step (λ _, 8) l s s'.
Proof.
  destruct l as [nm drv info|t c|t|t es|u]; cbn [may_step next].
  - intros _ [= <-]. constructor.
  - destruct (calls s !! t) as [x|] eqn:E; [|done]. intros [Hx Hc]%andb_true_iff. rewrite bool_decide_eq_true_2 by eauto. intros [= <-].
    destruct x; try done. by constructor.
  - intros _. destruct (calls s !! t) as [c|] eqn:E; [|done]. cbn. destruct (go c (in_use s) (reg s)) as [[r c']|] eqn:Eg; [|done]. intros [= <-].
    by eapply step_go.
  - intros ->%bool_decide_eq_true. destruct (calls s !! t) as [c|] eqn:E; [|done]. cbn [mbind option_bind]. destruct c; try done.
    destruct (add_parts disk serial [entry] (reg s)) as [r|] eqn:Ea; [|done]. intros [= <-]. eapply step_read; [done| |done].
    unfold may_read. destruct (get (reg s) disk) as [[n [drv sc se inf|p]]|]; [|done..]. intros _. split; [constructor; [cbn; lia|constructor]|repeat constructor].
  - intros _ [= <-]. constructor.
Qed.

Lemma run_reached ls tasks s s' : reached (λ _, 8) tasks s → may_run ls s = true → after ls s = Some s' → reached (λ _ : bool, 8) tasks s'.
Proof.
  revert s. induction ls as [|l ls IH]; intros s Hs; cbn [may_run]; [by intros _ [= <-]|]. intros [H1 H2]%andb_true_iff.
  unfold after. cbn [foldl mbind option_bind]. destruct (next l s) as [s1|] eqn:E; [|done]. apply IH; [|done]. eapply reached_step; [done|]. by apply next_step.
Qed.

Definition some_run : list (@Label bool) :=
  [Registers (str "sd?") false []; Registers (str "sd?") true []; Calls 0 InScan; Goes 0; Goes 0; Reads 0 [entry]; Goes 0; Goes 0; Reads 0 [entry];
   Goes 0; Goes 0; Goes 0].

Lemma device_paths_roundtrip_witness : ∃ s : @Sys bool, reached (λ _, 8) 2 s ∧ by_path (reg s) (reg s) (str "sdb/p1") = Some 3%nat ∧
  ∃ d, get (reg s) 3%nat = Some d ∧ path d = str "sdb/p1".
Proof.
  destruct (after some_run (boot_sys 2)) as [s|] eqn:E; [|vm_compute in E; discriminate].
  assert (Hr : reached (λ _ : bool, 8) 2 s) by (apply (run_reached some_run 2 (boot_sys 2)); [apply reached_boot|vm_compute; reflexivity|exact E]).
  destruct (device_paths_roundtrip (λ _ : bool, 8) 2 s s) as [_ H]; [reflexivity|exact Hr|].
  assert (Hp : (s ← after some_run (boot_sys 2); by_path (reg s) (reg s) (str "sdb/p1")) = Some 3%nat) by (vm_compute; reflexivity). rewrite E in Hp. cbn in Hp.
  exists s. split; [exact Hr|]. split; [exact Hp|]. apply H; [reflexivity|exact Hp].
Defined.

(** After the scan both disks have been read. *)
Lemma scan_returns_when_read_witness : ∃ (s : @Sys bool) d, reached (λ _, 8) 2 s ∧ get (reg s) 1%nat = Some d ∧ scan_is Done (Some d) = true.
Proof.
  destruct (after some_run (boot_sys 2)) as [s|] eqn:E; [|vm_compute in E; discriminate].
  assert (Hr : reached (λ _ : bool, 8) 2 s) by (apply (run_reached some_run 2 (boot_sys 2)); [apply reached_boot|vm_compute; reflexivity|exact E]).
  assert (Hv : (s ← after some_run (boot_sys 2); Some (calls s !! 0%nat, calls s !! 1%nat, pending (reg s), dev_state <$> get (reg s) 1%nat)) =
    Some (Some InWait, Some Idle, false, Some (Some (Done, 1)))) by (vm_compute; reflexivity).
  rewrite E in Hv. cbn [mbind option_bind] in Hv. injection Hv as Hc0 Hc1 Hpend Hd.
  destruct (get (reg s) 1%nat) as [d|] eqn:Eg; [|discriminate Hd]. cbn in Hd. injection Hd as Hd. unfold dev_state in Hd.
  destruct (kind d) as [drv sc se inf|p] eqn:Ek; [|discriminate Hd]. exists s, d. split; [exact Hr|]. split; [exact Eg|].
  destruct (next (Goes 0) s) as [s'|] eqn:En.
  2:{ exfalso. cbn in En. rewrite Hc0 in En. cbn in En. discriminate En. }
  destruct (scan_returns_when_read (λ _ : bool, 8) 2 s 0%nat s') with (i := 1%nat) (d := d) (drv := drv) (sc := sc) (serial := se) (info := inf)
    as [Hdone|[Hpe [Hf|(t'&Hne&Ht')]]]; [reflexivity|exact Hr|exact Hc0|apply next_step; [reflexivity|exact En]| |exact Eg|exact Ek|..].
  - assert (Hi : (s ← after some_run (boot_sys 2); s' ← next (Goes 0) s; calls s' !! 0%nat) = Some Idle) by (vm_compute; reflexivity).
    rewrite E in Hi. cbn [mbind option_bind] in Hi. rewrite En in Hi. exact Hi.
  - clear - Ek Hdone. destruct d as [nm k]. cbn in Ek. subst k sc. reflexivity.
  - congruence.
  - exfalso. destruct t' as [|[|t']]; [congruence|congruence|].
    assert (Hlen : (s ← after some_run (boot_sys 2); Some (length (calls s))) = Some 2%nat) by (vm_compute; reflexivity).
    rewrite E in Hlen. cbn in Hlen. injection Hlen as Hlen. apply lookup_lt_Some in Ht'. lia.
Defined.






(** ** Defects *)

(** A disk that comes into use between [unregister]'s check and its last
    critical section is taken out of the table all the same. *)
Definition race : list (@Label bool) := [Registers (str "sda") false []; Calls 0 (UnCheck 0); Goes 0; Goes 0; Goes 0; Uses (λ _, true)].

Lemma unregister_takes_disk_in_use : ∃ s s' d, reached (λ _ : bool, 8) 2 s ∧ step (λ _, 8) (Goes 0) s s' ∧
  get (reg s) 0%nat = Some d ∧ in_use s (path d) = true ∧ get (reg s') 0%nat = None.
Proof.
  destruct (after race (boot_sys 2)) as [s|] eqn:E; [|vm_compute in E; discriminate].
  assert (Hr : reached (λ _ : bool, 8) 2 s) by (apply (run_reached race 2 (boot_sys 2)); [apply reached_boot|vm_compute; reflexivity|exact E]).
  assert (Hv : (s ← after race (boot_sys 2); d ← get (reg s) 0%nat; s' ← next (Goes 0) s;
    Some (in_use s (path d), get (reg s') 0%nat)) = Some (true, None)) by (vm_compute; reflexivity).
  rewrite E in Hv. cbn [mbind option_bind] in Hv. destruct (get (reg s) 0%nat) as [d|] eqn:Ed; [|discriminate Hv].
  destruct (next (Goes 0) s) as [s'|] eqn:En; [|discriminate Hv]. injection Hv as H1 H2. exists s, s', d.
  split; [exact Hr|]. split; [apply next_step; [reflexivity|exact En]|]. split; [exact Ed|]. split; [exact H1|exact H2].
Qed.

(** A disk is given the id of one that is going, before the cache is told to
    forget that one's sectors. *)
Definition reuse : list (@Label bool) :=
  [Registers (str "sda") false []; Calls 0 (UnCheck 0); Goes 0; Goes 0; Goes 0; Goes 0; Registers (str "sdb") true []].

Lemma id_reused_before_forget : ∃ s, reached (λ _ : bool, 8) 2 s ∧ calls s !! 0%nat = Some (UnForget 0) ∧ disk_name (reg s) 0 = Some (str "sdb").
Proof.
  destruct (after reuse (boot_sys 2)) as [s|] eqn:E; [|vm_compute in E; discriminate]. exists s.
  split; [apply (run_reached reuse 2 (boot_sys 2)); [apply reached_boot|vm_compute; reflexivity|exact E]|].
  assert (Hv : (s ← after reuse (boot_sys 2); Some (calls s !! 0%nat, disk_name (reg s) 0)) = Some (Some (UnForget 0), Some (str "sdb")))
    by (vm_compute; reflexivity).
  rewrite E in Hv. cbn [mbind option_bind] in Hv. injection Hv as H1 H2. by rewrite H1, H2.
Qed.

(** A lookup of a partition of [sda] has found the disk's slot; the disk is
    taken out, another is registered in its slot and its table read. *)
Definition astray_before : list (@Label bool) := [Registers (str "sda") false []; Calls 0 InScan; Goes 0; Goes 0; Reads 0 [entry]; Goes 0; Goes 0; Goes 0; Goes 0].
Definition astray_between : list (@Label bool) :=
  [Calls 1 (UnCheck 0); Goes 1; Goes 1; Goes 1; Goes 1; Goes 1; Registers (str "sdb") true [];
   Calls 1 InScan; Goes 1; Goes 1; Reads 1 [entry]].

Lemma path_leads_astray : ∃ s s' i d, reached (λ _ : bool, 8) 2 s ∧ after astray_between s = Some s' ∧ reached (λ _ : bool, 8) 2 s' ∧
  by_path (reg s) (reg s') (str "sda/p1") = Some i ∧ get (reg s') i = Some d ∧ path d = str "sdb/p1".
Proof.
  destruct (after astray_before (boot_sys 2)) as [s|] eqn:E; [|vm_compute in E; discriminate].
  assert (Hr : reached (λ _ : bool, 8) 2 s) by (apply (run_reached astray_before 2 (boot_sys 2)); [apply reached_boot|vm_compute; reflexivity|exact E]).
  assert (Hv : (s ← after astray_before (boot_sys 2); s' ← after astray_between s; i ← by_path (reg s) (reg s') (str "sda/p1");
    d ← get (reg s') i; Some (may_run astray_between s, path d)) = Some (true, str "sdb/p1")) by (vm_compute; reflexivity).
  rewrite E in Hv. cbn [mbind option_bind] in Hv. destruct (after astray_between s) as [s'|] eqn:E'; [|discriminate Hv]. cbn [mbind option_bind] in Hv.
  destruct (by_path (reg s) (reg s') (str "sda/p1")) as [i|] eqn:Ei; [|discriminate Hv]. cbn [mbind option_bind] in Hv.
  destruct (get (reg s') i) as [d|] eqn:Ed; [|discriminate Hv]. injection Hv as Hm Hp.
  exists s, s', i, d. split; [exact Hr|]. split; [exact E'|]. split; [by apply (run_reached astray_between 2 s)|]. done.
Qed.

(** A scan returns with a disk not read, because another task has taken the
    flag and not yet claimed the disk. *)
Definition early : list (@Label bool) := [Registers (str "sda") false []; Calls 0 InScan; Goes 0; Calls 1 InScan; Goes 1; Goes 1].

Lemma scan_returns_early : ∃ s d, reached (λ _ : bool, 8) 2 s ∧ calls s !! 1%nat = Some Idle ∧ calls s !! 0%nat = Some InClaim ∧
  get (reg s) 0%nat = Some d ∧ scan_is Pending (Some d) = true.
Proof.
  destruct (after early (boot_sys 2)) as [s|] eqn:E; [|vm_compute in E; discriminate]. exists s.
  assert (Hv : (s ← after early (boot_sys 2); Some (calls s !! 1%nat, calls s !! 0%nat, get (reg s) 0%nat)) =
    Some (Some Idle, Some InClaim, Some {| name := str "sda"; kind := KDisk false Pending 0 [] |})) by (vm_compute; reflexivity).
  rewrite E in Hv. cbn [mbind option_bind] in Hv. injection Hv as H1 H2 H3. eexists.
  split; [apply (run_reached early 2 (boot_sys 2)); [apply reached_boot|vm_compute; reflexivity|exact E]|]. rewrite H1, H2, H3. done.
Qed.
