(* ===== verification/Locks.v ===== *)
(** * File locks ([kernel/src/fs/lock.rs])

    The table of held locks, under its mutex, and what it promises: byte by
    byte, who holds what.  A turn of [set]'s loop is one step; what it wakes
    and what it sleeps on are keys of the scheduler ([Sched.key_lock]). *)

From S2P Require Import Prelude TaskSet Sched.
From stdpp Require Import list sorting.

Open Scope Z_scope.

Inductive Owner : Set := Flock (desc : Z) | Ofd (desc : Z) | Process (pid : Z).
Inductive Kind : Set := Shared | Exclusive.

#[export] Instance Owner_eq_dec : EqDecision Owner.
Proof. solve_decision. Defined.
#[export] Instance Kind_eq_dec : EqDecision Kind.
Proof. solve_decision. Defined.

Definition family (o : Owner) : Z := match o with Flock _ => 0 | Ofd _ | Process _ => 1 end.

(** Bytes [l_start .. l_end] of file [l_node], the end excluded. *)
Record Lock := { l_node : Z; l_owner : Owner; l_kind : Kind; l_start : Z; l_end : Z }.

Definition TO_END : Z := U64_MAX.

(** [LOCKS], and the keys woken so far. *)
Record LockState := { locks : list Lock; woken_keys : list Z }.

Definition conflicts (node : Z) (owner : Owner) (kind : Kind) (start end_ : Z) (l : Lock) : bool :=
  (l_node l =? node) && negb (bool_decide (l_owner l = owner)) && (family (l_owner l) =? family owner)
  && (l_start l <? end_) && (start <? l_end l)
  && (bool_decide (l_kind l = Exclusive) || bool_decide (kind = Exclusive)).

Definition conflicting (ls : list Lock) (node : Z) (owner : Owner) (kind : Kind) (start end_ : Z) : option Lock :=
  find (conflicts node owner kind start end_) ls.

(** What is left of [l] outside the range. *)
Definition cut (node : Z) (owner : Owner) (start end_ : Z) (l : Lock) : list Lock :=
  if negb (l_node l =? node) || negb (bool_decide (l_owner l = owner)) || (l_end l <=? start) || (end_ <=? l_start l)
  then [l]
  else
    (if l_start l <? start
     then [{| l_node := l_node l; l_owner := l_owner l; l_kind := l_kind l; l_start := l_start l; l_end := start |}]
     else []) ++
    (if end_ <? l_end l
     then [{| l_node := l_node l; l_owner := l_owner l; l_kind := l_kind l; l_start := end_; l_end := l_end l |}]
     else []).

Definition replace (node : Z) (owner : Owner) (kind : option Kind) (start end_ : Z) (ls : list Lock) : list Lock :=
  concat (cut node owner start end_ <$> ls) ++
  match kind with
  | Some k => [{| l_node := node; l_owner := owner; l_kind := k; l_start := start; l_end := end_ |}]
  | None => []
  end.

(** How a turn of [set] ends: granted, refused, or asleep on a key. *)
Inductive Verdict : Set := Granted | Busy | Interrupted | Asleep (key : Z).

#[export] Instance Verdict_eq_dec : EqDecision Verdict.
Proof. solve_decision. Defined.

Definition set (node : Z) (owner : Owner) (kind : option Kind) (start end_ : Z) (wait signalled : bool)
    (st : LockState) : Verdict * LockState :=
  let busy := match kind with
    | Some k => bool_decide (is_Some (conflicting (locks st) node owner k start end_))
    | None => false
    end in
  if negb busy then
    (Granted, {| locks := replace node owner kind start end_ (locks st); woken_keys := woken_keys st ++ [key_lock node] |})
  else if negb wait then (Busy, st)
  else if signalled then (Interrupted, st)
  else (Asleep (key_lock node), st).

(** [dedup] of a sorted vector *)
Fixpoint dedup (l : list Z) : list Z :=
  match l with
  | x :: (y :: _) as l' => if x =? y then dedup l' else x :: dedup l'
  | _ => l
  end.

Definition release_where (gone : Lock → bool) (st : LockState) : LockState :=
  let nodes := dedup (merge_sort Z.le (l_node <$> filter (λ l, gone l = true) (locks st))) in
  {| locks := filter (λ l, gone l = false) (locks st); woken_keys := woken_keys st ++ (key_lock <$> nodes) |}.

Definition release (owner : Owner) : LockState → LockState := release_where (λ l, bool_decide (l_owner l = owner)).

Definition closed (node pid : Z) : LockState → LockState :=
  release_where (λ l, (l_node l =? node) && bool_decide (l_owner l = Process pid)).

Inductive LockOp : Set :=
  | Set_ (node : Z) (owner : Owner) (kind : option Kind) (start end_ : Z) (wait signalled : bool)
  | Release (owner : Owner)
  | Closed (node pid : Z).

Definition lock_step (st : LockState) (o : LockOp) : LockState :=
  match o with
  | Set_ node owner kind start end_ wait signalled => (set node owner kind start end_ wait signalled st).2
  | Release owner => release owner st
  | Closed node pid => closed node pid st
  end.

Definition lock_run (ops : list LockOp) : LockState := foldl lock_step {| locks := []; woken_keys := [] |} ops.

(** ** The system calls

    [task::fd_lock_target] gives the node and the open file description of
    the descriptor; the calling process is [pid]. *)

Definition SYSERR : Z := U64_MAX.
Definition SYSERR_EAGAIN : Z := U64_MAX - 8.
Definition SYSERR_EINTR : Z := U64_MAX - 3.
Definition LOCK_SH : Z := 1.
Definition LOCK_EX : Z := 2.
Definition LOCK_NB : Z := 4.
Definition LOCK_UN : Z := 8.
Definition LOCKCTL_GET : Z := 0.
Definition LOCKCTL_SET : Z := 1.
Definition LOCKCTL_WAIT : Z := 2.
Definition LOCKCTL_OFD : Z := 0x10.

(** What a call returns; [None] while it is asleep. *)
Definition lock_result (v : Verdict) : option Z :=
  match v with Granted => Some 0 | Busy => Some SYSERR_EAGAIN | Interrupted => Some SYSERR_EINTR | Asleep _ => None end.

(** The lock of a description, waited for when that is asked: [e1] and [e2]
    are what other tasks do to the table between the calls of [set]; the last
    call is the first turn of its loop. *)
Definition flock_lock (node : Z) (owner : Owner) (kind : Kind) (op : Z) (signalled : bool) (e1 e2 : list LockOp)
    (st : LockState) : option Z * LockState :=
  let '(v, st1) := set node owner (Some kind) 0 TO_END false signalled st in
  match v with
  | Busy =>
      if Z.land op LOCK_NB =? 0 then
        let '(_, st2) := set node owner None 0 TO_END false signalled (foldl lock_step st1 e1) in
        let '(v, st3) := set node owner (Some kind) 0 TO_END true signalled (foldl lock_step st2 e2) in
        (lock_result v, st3)
      else (lock_result v, st1)
  | _ => (lock_result v, st1)
  end.

Definition sys_flock (target : option (Z * Z)) (op : Z) (signalled : bool) (e1 e2 : list LockOp) (st : LockState) :
    option Z * LockState :=
  match target with
  | None => (Some SYSERR, st)
  | Some (node, desc) =>
      let owner := Flock desc in
      let what := Z.ldiff op LOCK_NB in
      if what =? LOCK_SH then flock_lock node owner Shared op signalled e1 e2 st
      else if what =? LOCK_EX then flock_lock node owner Exclusive op signalled e1 e2 st
      else if what =? LOCK_UN then
        let '(v, st1) := set node owner None 0 TO_END false signalled st in (lock_result v, st1)
      else (Some SYSERR, st)
  end.

Record LockRange := { r_kind : Z; r_start : Z; r_len : Z; r_pid : Z }.

Definition lock_end (start len : Z) : Z := if len =? 0 then TO_END else sat_add64 start len.

(** What a get finds; [None] if the length's subtraction overflows. *)
Definition found (l : Lock) : option LockRange :=
  if l_end l <? l_start l then None
  else Some {| r_kind := if bool_decide (l_kind l = Exclusive) then 1 else 0;
               r_start := l_start l;
               r_len := if l_end l =? TO_END then 0 else l_end l - l_start l;
               r_pid := match l_owner l with Process pid => pid | _ => -1 end |}.

Definition lockctl_cmd (node : Z) (owner : Owner) (kind : option Kind) (cmd : Z) (signalled : bool) (lock : LockRange)
    (st : LockState) : option (option Z * LockRange * LockState) :=
  let end_ := lock_end (r_start lock) (r_len lock) in
  let what := Z.ldiff cmd LOCKCTL_OFD in
  if what =? LOCKCTL_GET then
    match kind with
    | None => Some (Some SYSERR, lock, st)
    | Some k =>
        match conflicting (locks st) node owner k (r_start lock) end_ with
        | Some l => r ← found l; Some (Some 0, r, st)
        | None => Some (Some 0, {| r_kind := 2; r_start := r_start lock; r_len := r_len lock; r_pid := r_pid lock |}, st)
        end
    end
  else if (what =? LOCKCTL_SET) || (what =? LOCKCTL_WAIT) then
    let '(v, st1) := set node owner kind (r_start lock) end_ (what =? LOCKCTL_WAIT) signalled st in
    Some (lock_result v, lock, st1)
  else Some (Some SYSERR, lock, st).

Definition lockctl (target : option (Z * Z)) (pid cmd : Z) (signalled : bool) (lock : LockRange) (st : LockState) :
    option (option Z * LockRange * LockState) :=
  match target with
  | None => Some (Some SYSERR, lock, st)
  | Some (node, desc) =>
      let owner := if negb (Z.land cmd LOCKCTL_OFD =? 0) then Ofd desc else Process pid in
      if r_kind lock =? 0 then lockctl_cmd node owner (Some Shared) cmd signalled lock st
      else if r_kind lock =? 1 then lockctl_cmd node owner (Some Exclusive) cmd signalled lock st
      else if r_kind lock =? 2 then lockctl_cmd node owner None cmd signalled lock st
      else Some (Some SYSERR, lock, st)
  end.

(** ** Who holds what *)

Definition covers (l : Lock) (node : Z) (owner : Owner) (b : Z) (k : Kind) : Prop :=
  l_node l = node ∧ l_owner l = owner ∧ l_start l <= b < l_end l ∧ l_kind l = k.

Definition holds (ls : list Lock) (node : Z) (owner : Owner) (b : Z) (k : Kind) : Prop :=
  ∃ l, l ∈ ls ∧ covers l node owner b k.

(** Two kinds that two owners may hold on one byte. *)
Definition compatible (k k' : Kind) : Prop := k = Shared ∧ k' = Shared.

(** *** The contract: for every byte of every file, who holds it and how *)

Definition Held := Z → Owner → Z → Kind → Prop.

Definition within (node : Z) (owner : Owner) (start end_ n : Z) (o : Owner) (b : Z) : Prop :=
  n = node ∧ o = owner ∧ start <= b < end_.

(** No other owner of the family holds a byte of the range in a way that
    excludes the request. *)
Definition grantable (h : Held) (node : Z) (owner : Owner) (kind : option Kind) (start end_ : Z) : Prop :=
  ∀ k o b k', kind = Some k → start <= b < end_ → h node o b k' → o ≠ owner → family o = family owner → compatible k k'.

Definition spec_step (h : Held) (op : LockOp) : Held := λ n o b k,
  match op with
  | Set_ node owner kind start end_ _ _ =>
      (grantable h node owner kind start end_ ∧ within node owner start end_ n o b ∧ kind = Some k) ∨
      (¬ (grantable h node owner kind start end_ ∧ within node owner start end_ n o b) ∧ h n o b k)
  | Release owner => h n o b k ∧ o ≠ owner
  | Closed node pid => h n o b k ∧ ¬ (n = node ∧ o = Process pid)
  end.

Definition spec_run (ops : list LockOp) : Held := foldl spec_step (λ _ _ _ _, False) ops.

(** Two owners of a family share a byte only by sharing it, and one owner
    holds a byte in one way. *)
Definition exclusive (h : Held) : Prop :=
  (∀ n o o' b k k', h n o b k → h n o' b k' → o ≠ o' → family o = family o' → compatible k k') ∧
  (∀ n o b k k', h n o b k → h n o b k' → k = k').

(** The ranges the system calls ask for: the only empty one is at the last
    offset a [u64] has. *)
Definition range_ok (start end_ : Z) : Prop :=
  0 <= start <= end_ ∧ end_ <= U64_MAX ∧ (start < end_ ∨ start = U64_MAX).

Definition op_ok (op : LockOp) : Prop :=
  match op with Set_ _ _ _ start end_ _ _ => range_ok start end_ | _ => True end.

Definition table_ok (ls : list Lock) : Prop := Forall (λ l, range_ok (l_start l) (l_end l)) ls.

(** Holdings are compared byte by byte. *)
Definition held_eq : relation Held :=
  pointwise_relation Z (pointwise_relation Owner (pointwise_relation Z (pointwise_relation Kind iff))).

#[export] Instance held_eq_equiv : Equivalence held_eq.
Proof. unfold held_eq. apply _. Qed.

#[export] Instance grantable_proper : Proper (held_eq ==> eq ==> eq ==> eq ==> eq ==> eq ==> iff) grantable.
Proof.
  intros h h' Hh ? node -> ? owner -> ? kind -> ? start -> ? end_ ->. unfold grantable.
  split; intros H k o b k' Hk Hb Hx; apply (H k o b k' Hk Hb); by apply (Hh node o b k').
Qed.

#[export] Instance spec_step_proper : Proper (held_eq ==> eq ==> held_eq) spec_step.
Proof.
  intros h h' Hh ? op -> n o b k. pose proof (Hh n o b k) as Hb. destruct op; cbn; [|tauto..].
  rewrite Hh. tauto.
Qed.

#[export] Instance exclusive_proper : Proper (held_eq ==> iff) exclusive.
Proof.
  assert (Hx : ∀ h h', held_eq h h' → exclusive h → exclusive h').
  { intros h h' Hh [H1 H2]. split.
    - intros n o o' b k k' Hk Hk'. apply (H1 n o o' b); by apply Hh.
    - intros n o b k k' Hk Hk'. apply (H2 n o b); by apply Hh. }
  intros h h' Hh. split; [by apply Hx|by apply Hx; symmetry].
Qed.

(** *** The table against it *)

Lemma cut_ok node owner start end_ l : range_ok start end_ → range_ok (l_start l) (l_end l) →
  table_ok (cut node owner start end_ l).
Proof.
  intros (H1&H2&H3) (H4&H5&H6). unfold cut. destruct (_ || _ || _ || _) eqn:E.
  { apply Forall_singleton. done. }
  rewrite !orb_false_iff, !Z.leb_gt in E. destruct E as [[_ E3] E4].
  apply Forall_app. split; destruct (Z.ltb_spec (l_start l) start), (Z.ltb_spec end_ (l_end l));
    rewrite ?Forall_singleton; unfold range_ok; cbn; first [by constructor | lia].
Qed.

Lemma cut_holds node owner start end_ l n o b k : range_ok start end_ → range_ok (l_start l) (l_end l) →
  holds (cut node owner start end_ l) n o b k ↔ covers l n o b k ∧ ¬ within node owner start end_ n o b.
Proof.
  intros (Hs&He&Hr) (Hl&Hm&_). unfold cut, holds, covers, within. destruct (_ || _ || _ || _) eqn:E.
  - rewrite !orb_true_iff, !negb_true_iff, bool_decide_eq_false, Z.eqb_neq, !Z.leb_le in E.
    setoid_rewrite list_elem_of_singleton. split; [intros (l'&->&Hc); split; [done|] | by intros [Hc _]; eauto].
    destruct Hc as (?&?&?&?). intros (->&->&Hb). destruct E as [[[E|E]|E]|E]; [congruence..|lia|lia].
  - rewrite !orb_false_iff, !negb_false_iff, bool_decide_eq_true, Z.eqb_eq, !Z.leb_gt in E.
    destruct E as [[[E1 E2] E3] E4]. setoid_rewrite elem_of_app.
    assert (Hx : ∀ (c : bool) (x l' : Lock), l' ∈ (if c then [x] else []) ↔ c = true ∧ l' = x).
    { intros [] x l'; rewrite ?list_elem_of_singleton, ?elem_of_nil; naive_solver. }
    setoid_rewrite Hx. setoid_rewrite Z.ltb_lt. split.
    + intros (l'&[[Hc ->]|[Hc ->]]&?&?&?&?); cbn in *; (split; [split_and!; try done; lia|intros (_&_&?); lia]).
    + intros [(?&?&?&?) Hout]. assert (b < start ∨ end_ <= b) as [Hb|Hb].
      { destruct (Z.lt_ge_cases b start); [by left|]. destruct (Z.lt_ge_cases b end_); [|by right].
        destruct Hout. split_and!; [congruence..|lia|lia]. }
      * eexists. split; [left; split; [lia|done]|]. cbn. split_and!; try done; lia.
      * eexists. split; [right; split; [lia|done]|]. cbn. split_and!; try done; lia.
Qed.

Lemma holds_app ls ls' n o b k : holds (ls ++ ls') n o b k ↔ holds ls n o b k ∨ holds ls' n o b k.
Proof. unfold holds. setoid_rewrite elem_of_app. naive_solver. Qed.

Lemma holds_cons l ls n o b k : holds (l :: ls) n o b k ↔ covers l n o b k ∨ holds ls n o b k.
Proof. unfold holds. setoid_rewrite elem_of_cons. naive_solver. Qed.

Lemma holds_nil n o b k : holds [] n o b k ↔ False.
Proof. unfold holds. setoid_rewrite elem_of_nil. naive_solver. Qed.

Lemma cuts_holds node owner start end_ ls n o b k : range_ok start end_ → table_ok ls →
  holds (concat (cut node owner start end_ <$> ls)) n o b k ↔ holds ls n o b k ∧ ¬ within node owner start end_ n o b.
Proof.
  intros Hr Hls. induction Hls as [|l ls Hl _ IH]; cbn [fmap list_fmap concat]; [rewrite holds_nil; tauto|].
  rewrite holds_app, holds_cons, cut_holds, IH by done. tauto.
Qed.

Lemma replace_holds node owner kind start end_ ls n o b k : range_ok start end_ → table_ok ls →
  holds (replace node owner kind start end_ ls) n o b k ↔
  within node owner start end_ n o b ∧ kind = Some k ∨ ¬ within node owner start end_ n o b ∧ holds ls n o b k.
Proof.
  intros Hr Hls. unfold replace. rewrite holds_app, cuts_holds by done.
  assert (Hx : holds (match kind with Some k => [{| l_node := node; l_owner := owner; l_kind := k;
      l_start := start; l_end := end_ |}] | None => [] end) n o b k ↔ within node owner start end_ n o b ∧ kind = Some k).
  { destruct kind; rewrite ?holds_cons, holds_nil; unfold covers, within; cbn; naive_solver. }
  rewrite Hx. tauto.
Qed.

Lemma kinds_clash k k' : bool_decide (k' = Exclusive) || bool_decide (k = Exclusive) = true ↔ ¬ compatible k k'.
Proof. unfold compatible. destruct k, k'; cbn; naive_solver. Qed.

Lemma conflicts_true node owner k start end_ l : conflicts node owner k start end_ l = true ↔
  l_node l = node ∧ l_owner l ≠ owner ∧ family (l_owner l) = family owner ∧ l_start l < end_ ∧ start < l_end l ∧
  ¬ compatible k (l_kind l).
Proof.
  unfold conflicts. rewrite !andb_true_iff, kinds_clash, negb_true_iff, bool_decide_eq_false, !Z.ltb_lt, !Z.eqb_eq. tauto.
Qed.

Lemma conflicting_None ls node owner k start end_ : conflicting ls node owner k start end_ = None ↔
  ∀ l, l ∈ ls → conflicts node owner k start end_ l = false.
Proof.
  unfold conflicting. split.
  - intros H l Hl. apply (find_none _ _ H). by apply list_elem_of_In.
  - intros H. destruct (find _ ls) as [l|] eqn:E; [|done]. apply find_some in E as [Hl E].
    apply list_elem_of_In, H in Hl. congruence.
Qed.

Lemma compatible_dec k k' : compatible k k' ∨ ¬ compatible k k'.
Proof. unfold compatible. destruct k, k'; naive_solver. Qed.

(** The table's search finds a lock exactly when a byte is held in the way:
    two ranges that overlap share a byte. *)
Lemma conflicting_grantable ls node owner k start end_ : range_ok start end_ → table_ok ls →
  conflicting ls node owner k start end_ = None ↔ grantable (holds ls) node owner (Some k) start end_.
Proof.
  intros (Hs&He&Hr) Hls. rewrite conflicting_None. unfold grantable. split.
  - intros H k0 o b k' [= <-] Hb (l&Hl&<-&<-&Hc&<-) Ho Hf.
    destruct (compatible_dec k (l_kind l)) as [|Hn]; [done|].
    pose proof (H l Hl) as Hx. apply not_true_iff_false in Hx. destruct Hx. apply conflicts_true. split_and!; try done; lia.
  - intros H l Hl. apply not_true_iff_false. rewrite conflicts_true. intros (Hn&Ho&Hf&H1&H2&Hk).
    assert (Hl' := proj1 (Forall_forall _ _) Hls l Hl). destruct Hl' as (Hl1&Hl2&Hl3).
    apply Hk, (H k (l_owner l) (Z.max start (l_start l)) (l_kind l)); [done|lia| |done|done].
    exists l. split; [done|]. split_and!; try done; lia.
Qed.

Lemma set_granted node owner kind start end_ wait signalled st : range_ok start end_ → table_ok (locks st) →
  (set node owner kind start end_ wait signalled st).1 = Granted ↔ grantable (holds (locks st)) node owner kind start end_.
Proof.
  intros Hr Hls. unfold set. destruct kind as [k|]; cbn.
  - rewrite <- conflicting_grantable by done. destruct (conflicting _ _ _ _ _ _) eqn:E; cbn; [|naive_solver].
    destruct wait, signalled; naive_solver.
  - split; [|done]. by intros _ ? ? ? ? [=].
Qed.

(** A turn either is granted and replaces, or leaves the table alone. *)
Lemma set_locks node owner kind start end_ wait signalled st :
  locks (set node owner kind start end_ wait signalled st).2 =
  if decide ((set node owner kind start end_ wait signalled st).1 = Granted)
  then replace node owner kind start end_ (locks st) else locks st.
Proof. unfold set. destruct (negb _), (negb wait), signalled; done. Qed.

Lemma replace_ok node owner kind start end_ ls : range_ok start end_ → table_ok ls →
  table_ok (replace node owner kind start end_ ls).
Proof.
  intros Hr Hls. unfold replace. apply Forall_app. split.
  - induction Hls as [|l ls Hl _ IH]; cbn; [constructor|]. apply Forall_app. split; [by apply cut_ok|done].
  - destruct kind; [by apply Forall_singleton|constructor].
Qed.

Lemma kept_ok (gone : Lock → bool) ls : table_ok ls → table_ok (filter (λ l, gone l = false) ls).
Proof. unfold table_ok. rewrite !Forall_forall. intros H l Hl. apply H. by apply list_elem_of_filter in Hl as [_ Hl]. Qed.

Lemma lock_step_ok st op : op_ok op → table_ok (locks st) → table_ok (locks (lock_step st op)).
Proof.
  intros Ho Hst. destruct op as [node owner kind start end_ wait signalled|owner|node pid]; cbn in *.
  - rewrite set_locks. destruct (decide _); [by apply replace_ok|done].
  - by apply kept_ok.
  - by apply kept_ok.
Qed.

Lemma kept_holds (gone : Lock → bool) ls n o b k :
  holds (filter (λ l, gone l = false) ls) n o b k ↔ ∃ l, l ∈ ls ∧ gone l = false ∧ covers l n o b k.
Proof. unfold holds. setoid_rewrite list_elem_of_filter. naive_solver. Qed.

(** One step of the table is one step of the contract. *)
Lemma lock_step_refines st op : op_ok op → table_ok (locks st) →
  held_eq (holds (locks (lock_step st op))) (spec_step (holds (locks st)) op).
Proof.
  intros Ho Hst n o b k. destruct op as [node owner kind start end_ wait signalled|owner|node pid]; cbn in *.
  - rewrite set_locks. pose proof (set_granted node owner kind start end_ wait signalled st Ho Hst) as Hg.
    destruct (decide _) as [E|E]; [rewrite replace_holds by done|]; tauto.
  - rewrite kept_holds. setoid_rewrite bool_decide_eq_false. unfold holds, covers. naive_solver.
  - rewrite kept_holds. unfold holds, covers. setoid_rewrite andb_false_iff. setoid_rewrite bool_decide_eq_false.
    setoid_rewrite Z.eqb_neq. split; [naive_solver|].
    intros [(l&Hl&<-&<-&Hb&Hk) Hn]. exists l. split; [done|]. split; [|done].
    destruct (decide (l_node l = node)); [right|by left]. naive_solver.
Qed.

Lemma lock_run_ok ops : Forall op_ok ops → table_ok (locks (lock_run ops)).
Proof.
  unfold lock_run. induction ops as [|op ops IH] using rev_ind; [constructor|].
  rewrite Forall_app, Forall_singleton, foldl_app. intros [H1 H2]. apply lock_step_ok; auto.
Qed.

Lemma lock_run_refines ops : Forall op_ok ops → held_eq (holds (locks (lock_run ops))) (spec_run ops).
Proof.
  unfold spec_run. induction ops as [|op ops IH] using rev_ind; [intros _ n o b k; apply holds_nil|].
  rewrite Forall_app, Forall_singleton, foldl_app. intros [H1 H2]. cbn. rewrite <- IH by done.
  unfold lock_run at 1. rewrite foldl_app. by apply lock_step_refines; [|apply lock_run_ok].
Qed.

(** The contract keeps the holdings exclusive, whatever is asked for. *)
Lemma spec_step_exclusive h op : exclusive h → exclusive (spec_step h op).
Proof.
  intros [H1 H2]. destruct op as [node owner kind start end_ wait signalled|owner|node pid]; cbn.
  - split.
    + intros n o o' b k k' [(Hg&(->&->&Hb)&Hk)|[_ Hk]] [(Hg'&(?&->&Hb')&Hk')|[_ Hk']] Ho Hf; try done.
      * apply (Hg k o' b k' Hk Hb Hk'); congruence.
      * subst n. destruct (Hg' k' o b k Hk' Hb' Hk); [congruence..|done].
      * eauto.
    + intros n o b k k' [(Hg&Hb&Hk)|[Hn Hk]] [(Hg'&Hb'&Hk')|[Hn' Hk']]; [congruence|tauto|tauto|eauto].
  - split; naive_solver.
  - split; naive_solver.
Qed.

Lemma spec_run_exclusive ops : exclusive (spec_run ops).
Proof.
  unfold spec_run. induction ops as [|op ops IH] using rev_ind; [split; naive_solver|].
  rewrite foldl_app. by apply spec_step_exclusive.
Qed.

(** ** What the system calls do *)

Lemma lock_end_ok start len : 0 <= start <= U64_MAX → 0 <= len → range_ok start (lock_end start len).
Proof.
  intros Hs Hl. unfold lock_end, sat_add64, range_ok, TO_END. destruct (Z.eqb_spec len 0); lia.
Qed.

Lemma whole_file_ok : range_ok 0 TO_END.
Proof. unfold range_ok, TO_END, U64_MAX. lia. Qed.

Lemma set_is_step node owner kind start end_ wait signalled st :
  (set node owner kind start end_ wait signalled st).2 = lock_step st (Set_ node owner kind start end_ wait signalled).
Proof. done. Qed.

(** A turn that is not granted changes nothing. *)
Lemma set_refused node owner kind start end_ wait signalled st :
  (set node owner kind start end_ wait signalled st).1 ≠ Granted → (set node owner kind start end_ wait signalled st).2 = st.
Proof. unfold set. destruct (negb _), (negb wait), signalled; done. Qed.

Lemma foldl_steps_ok st ops : Forall op_ok ops → table_ok (locks st) → table_ok (locks (foldl lock_step st ops)).
Proof.
  intros Ho. revert st. induction Ho as [|op ops H _ IH]; intros st Hst; [done|]. apply IH. by apply lock_step_ok.
Qed.

Definition asks_for (owner : Owner) (op : LockOp) : bool :=
  match op with Set_ _ o (Some _) _ _ _ _ => bool_decide (o = owner) | _ => false end.

(** An owner with nothing on a file gets something there only by asking. *)
Lemma step_keeps_nothing st op node owner : op_ok op → table_ok (locks st) → asks_for owner op = false →
  (∀ b k, ¬ holds (locks st) node owner b k) → ∀ b k, ¬ holds (locks (lock_step st op)) node owner b k.
Proof.
  intros Ho Hst Ha Hn b k Hk. apply lock_step_refines in Hk; [|done..].
  destruct op as [n o [kd|] s e w g| |]; cbn in Hk, Ha; [|naive_solver..].
  apply bool_decide_eq_false in Ha. unfold within in Hk. naive_solver.
Qed.

Lemma steps_keep_nothing st ops node owner : Forall op_ok ops → table_ok (locks st) →
  Forall (λ op, asks_for owner op = false) ops →
  (∀ b k, ¬ holds (locks st) node owner b k) → ∀ b k, ¬ holds (locks (foldl lock_step st ops)) node owner b k.
Proof.
  intros Ho. revert st. induction Ho as [|op ops H _ IH]; intros st Hst Ha Hn; [done|].
  apply Forall_cons in Ha as [Ha1 Ha2]. cbn [foldl]. apply IH; [by apply lock_step_ok|done|].
  by apply step_keeps_nothing.
Qed.

(** A granted unlock of the whole file leaves the owner nothing on it below
    the last offset. *)
Lemma unlock_leaves_nothing st node owner signalled : table_ok (locks st) → ∀ b k,
  ¬ holds (locks (set node owner None 0 TO_END false signalled st).2) node owner b k.
Proof.
  intros Hst b k Hk. unfold set in Hk. cbn in Hk. apply replace_holds in Hk; [|apply whole_file_ok|done].
  destruct Hk as [[_ [=]]|[Hn (l&Hl&_&_&Hb&_)]]. apply Hn. split_and!; [done..| |].
  - apply (proj1 (Forall_forall _ _) Hst) in Hl as (?&?&?). lia.
  - apply (proj1 (Forall_forall _ _) Hst) in Hl as (?&?&?). unfold TO_END. lia.
Qed.

Lemma elem_of_dedup (x : Z) l : x ∈ dedup l ↔ x ∈ l.
Proof.
  induction l as [|y [|z l] IH]; [done..|].
  change (dedup (y :: z :: l)) with (if y =? z then dedup (z :: l) else y :: dedup (z :: l)).
  destruct (Z.eqb_spec y z) as [->|]; [|rewrite elem_of_cons]; rewrite IH, !elem_of_cons; tauto.
Qed.

Lemma release_wakes (gone : Lock → bool) st l : l ∈ locks st → gone l = true →
  ∃ ks, woken_keys (release_where gone st) = woken_keys st ++ ks ∧ key_lock (l_node l) ∈ ks.
Proof.
  intros Hl Hg. eexists. split; [done|]. apply list_elem_of_fmap. exists (l_node l). split; [done|].
  apply elem_of_dedup. rewrite merge_sort_Permutation. apply list_elem_of_fmap. exists l. split; [done|].
  by apply list_elem_of_filter.
Qed.

Lemma cut_other node owner start end_ l : l_node l ≠ node → cut node owner start end_ l = [l].
Proof. intros Hn. unfold cut. by rewrite (proj2 (Z.eqb_neq _ _) Hn). Qed.

Lemma replace_other node owner kind start end_ ls l : l ∈ ls → l_node l ≠ node → l ∈ replace node owner kind start end_ ls.
Proof.
  intros Hl Hn. unfold replace. apply elem_of_app. left. induction Hl as [l ls|l y ls Hl IH]; cbn; apply elem_of_app.
  - left. rewrite cut_other by done. by apply list_elem_of_singleton.
  - right. by apply IH.
Qed.

(** Whoever may go on after a step was woken by it: as a lemma on the table. *)
Lemma conflict_gone_wakes st op node owner k start end_ l :
  conflicting (locks st) node owner k start end_ = Some l →
  conflicting (locks (lock_step st op)) node owner k start end_ = None →
  ∃ ks, woken_keys (lock_step st op) = woken_keys st ++ ks ∧ key_lock node ∈ ks.
Proof.
  intros Hl Hn. apply find_some in Hl as [Hl Hc]. apply list_elem_of_In in Hl.
  assert (Hgone : ∀ ls, conflicting ls node owner k start end_ = None → l ∉ ls).
  { intros ls Hls Hin. apply (proj1 (conflicting_None _ _ _ _ _ _) Hls) in Hin. congruence. }
  apply conflicts_true in Hc as (Hln&_). apply Hgone in Hn.
  assert (Hrel : ∀ gone, l ∉ locks (release_where gone st) → ∃ ks, woken_keys (release_where gone st) = woken_keys st ++ ks ∧ key_lock node ∈ ks).
  { intros gone Hx. rewrite <- Hln. apply release_wakes; [done|]. destruct (gone l) eqn:E; [done|].
    destruct Hx. by apply list_elem_of_filter. }
  destruct op as [n o kd s e w g|o|n pid]; cbn in *; [|by apply Hrel..].
  rewrite set_locks in Hn. unfold set in *. destruct (negb _) eqn:E; cbn in *.
  - exists [key_lock n]. split; [done|]. destruct (decide (n = node)) as [->|Hne]; [by apply list_elem_of_singleton|].
    destruct Hn. apply replace_other; [done|congruence].
  - by destruct (negb w), g.
Qed.

(** C4: the table of locks keeps, for every byte of every file, exactly what
    the contract says: over any sequence of lock, unlock and close operations
    the ranges held are those of the byte-by-byte specification, a request is
    granted exactly when no other owner of its family holds a byte of it in a
    way that excludes it, and at no time do two owners of a family hold a
    byte unless both share it. *)
Theorem locks_refine_bytes ops : Forall op_ok ops →
  held_eq (holds (locks (lock_run ops))) (spec_run ops) ∧
  exclusive (holds (locks (lock_run ops))) ∧
  ∀ node owner kind start end_ wait signalled, range_ok start end_ →
    (set node owner kind start end_ wait signalled (lock_run ops)).1 = Granted ↔
    grantable (spec_run ops) node owner kind start end_.
Proof.
  intros Ho. pose proof (lock_run_refines ops Ho) as Hr. split; [done|]. split.
  - rewrite Hr. apply spec_run_exclusive.
  - intros. rewrite set_granted by (done || by apply lock_run_ok). by rewrite Hr.
Qed.

(** A reader of bytes 0..10 whose middle a second request turns exclusive:
    another process may still share byte 2, not byte 5. *)
Definition split_ops : list LockOp :=
  [Set_ 7 (Process 1) (Some Shared) 0 10 false false; Set_ 7 (Process 1) (Some Exclusive) 4 6 false false].

Lemma locks_refine_bytes_witness :
  Forall op_ok split_ops ∧ length (locks (lock_run split_ops)) = 3%nat ∧
  grantable (spec_run split_ops) 7 (Process 2) (Some Shared) 0 4 ∧
  ¬ grantable (spec_run split_ops) 7 (Process 2) (Some Shared) 5 6.
Proof.
  assert (Ho : Forall op_ok split_ops) by (repeat constructor; unfold range_ok, U64_MAX; lia).
  pose proof (locks_refine_bytes split_ops Ho) as (_&_&Hg). split; [done|]. split; [vm_compute; reflexivity|]. split.
  - apply (Hg 7 (Process 2) (Some Shared) 0 4 false false); [unfold range_ok, U64_MAX; lia|]. vm_compute. reflexivity.
  - intros Hx. apply (Hg 7 (Process 2) (Some Shared) 5 6 false false) in Hx; [|unfold range_ok, U64_MAX; lia].
    vm_compute in Hx. discriminate.
Defined.

(** No waiter for a lock is left asleep: when a request asleep on a key
    would be granted after some operation on the table, that operation woke
    the key. *)
Theorem lock_waiters_woken st op node owner kind start end_ key :
  (set node owner kind start end_ true false st).1 = Asleep key →
  (set node owner kind start end_ true false (lock_step st op)).1 = Granted →
  ∃ ks, woken_keys (lock_step st op) = woken_keys st ++ ks ∧ key ∈ ks.
Proof.
  unfold set. destruct kind as [k|]; [|done]. cbn.
  destruct (conflicting (locks st) node owner k start end_) as [l|] eqn:El; [|done].
  destruct (conflicting (locks (lock_step st op)) node owner k start end_) eqn:En; [done|]. cbn.
  intros [= <-] _. by eapply conflict_gone_wakes.
Qed.

Lemma lock_waiters_woken_witness :
  let st := lock_run [Set_ 7 (Flock 1) (Some Exclusive) 0 TO_END false false] in
  key_lock 7 ∈ drop 1 (woken_keys (lock_step st (Release (Flock 1)))).
Proof.
  cbn zeta. set (st := lock_run _).
  assert (H1 : (set 7 (Flock 2) (Some Shared) 0 TO_END true false st).1 = Asleep (key_lock 7)) by (vm_compute; reflexivity).
  assert (H2 : (set 7 (Flock 2) (Some Shared) 0 TO_END true false (lock_step st (Release (Flock 1)))).1 = Granted)
    by (vm_compute; reflexivity).
  destruct (lock_waiters_woken st (Release (Flock 1)) 7 (Flock 2) (Some Shared) 0 TO_END (key_lock 7) H1 H2) as (ks&Hw&Hk).
  rewrite Hw. by rewrite drop_app_length'.
Defined.

Lemma set_never_sleeps node owner kind start end_ signalled st key :
  (set node owner kind start end_ false signalled st).1 ≠ Asleep key.
Proof. unfold set. by destruct (negb _). Qed.

Lemma flock_lock_asleep node owner kind op signalled e1 e2 st st' : table_ok (locks st) →
  Forall op_ok e1 → Forall op_ok e2 → Forall (λ o, asks_for owner o = false) e2 →
  flock_lock node owner kind op signalled e1 e2 st = (None, st') → ∀ b k, ¬ holds (locks st') node owner b k.
Proof.
  intros Hst H1 H2 Ha. unfold flock_lock.
  pose proof (set_never_sleeps node owner (Some kind) 0 TO_END signalled st) as Hs.
  pose proof (lock_step_ok st (Set_ node owner (Some kind) 0 TO_END false signalled) whole_file_ok Hst) as Hst1. cbn in Hst1.
  destruct (set _ _ _ _ _ _ _ st) as [v st1]. cbn in Hs, Hst1. destruct v as [| | |key]; [done| |done|by destruct (Hs key)].
  destruct (_ =? 0); [|done]. apply (foldl_steps_ok _ e1) in Hst1; [|done].
  pose proof (unlock_leaves_nothing (foldl lock_step st1 e1) node owner signalled Hst1) as Hn.
  pose proof (lock_step_ok _ (Set_ node owner None 0 TO_END false signalled) whole_file_ok Hst1) as Hst2. cbn [lock_step] in Hst2.
  destruct (set _ _ None _ _ _ _ _) as [v2 st2]. cbn in Hn, Hst2.
  pose proof (steps_keep_nothing st2 e2 node owner H2 Hst2 Ha Hn) as Hn2.
  pose proof (set_refused node owner (Some kind) 0 TO_END true signalled (foldl lock_step st2 e2)) as Hk.
  destruct (set _ _ _ _ _ _ _ (foldl lock_step st2 e2)) as [v3 st3]. cbn in Hk.
  intros [= Hv <-]. rewrite Hk; [done|]. by intros ->.
Qed.

(** A task that waits in [flock] holds no [flock] lock on the file
    meanwhile, also when it converts one (so two tasks converting cannot
    wait for each other), whatever other descriptions do to the table in
    between. *)
Theorem flock_waits_empty_handed ops node desc op signalled e1 e2 st' :
  Forall op_ok ops → Forall op_ok e1 → Forall op_ok e2 → Forall (λ o, asks_for (Flock desc) o = false) e2 →
  sys_flock (Some (node, desc)) op signalled e1 e2 (lock_run ops) = (None, st') →
  ∀ b k, ¬ holds (locks st') node (Flock desc) b k.
Proof.
  intros H0 H1 H2 Ha Hf. apply lock_run_ok in H0. unfold sys_flock in Hf.
  destruct (_ =? LOCK_SH); [by apply (flock_lock_asleep _ _ _ _ _ _ _ _ _ H0 H1 H2 Ha Hf)|]. destruct (_ =? LOCK_EX); [by apply (flock_lock_asleep _ _ _ _ _ _ _ _ _ H0 H1 H2 Ha Hf)|].
  by destruct (_ =? LOCK_UN).
Qed.

(** Two descriptions share a file; the first asks for it alone. *)
Lemma flock_waits_empty_handed_witness :
  let ops := [Set_ 7 (Flock 1) (Some Shared) 0 TO_END false false; Set_ 7 (Flock 2) (Some Shared) 0 TO_END false false] in
  let r := sys_flock (Some (7, 1)) LOCK_EX false [] [] (lock_run ops) in
  r.1 = None ∧ length (locks r.2) = 1%nat ∧ ¬ holds (locks r.2) 7 (Flock 1) 0 Shared.
Proof.
  cbn zeta. set (ops := [_; _]). split; [vm_compute; reflexivity|]. split; [vm_compute; reflexivity|].
  apply (flock_waits_empty_handed ops 7 1 LOCK_EX false [] []); [|constructor..|vm_compute; reflexivity].
  repeat constructor; unfold range_ok, TO_END, U64_MAX; lia.
Defined.

(** *** Record locks *)

(** A get never overflows: what the table holds has its end past its start. *)
Lemma found_some ls l : table_ok ls → l ∈ ls → is_Some (found l).
Proof.
  intros Hls Hl. apply (proj1 (Forall_forall _ _) Hls) in Hl as (Hr&_). unfold found.
  by rewrite (proj2 (Z.ltb_ge _ _)) by lia.
Qed.

(** A record-lock call ends without a panic, and what it does to the table
    is at most one well-formed request. *)
Lemma lockctl_steps target pid cmd signalled lock st : table_ok (locks st) →
  0 <= r_start lock <= U64_MAX → 0 <= r_len lock →
  ∃ r lock' ops, lockctl target pid cmd signalled lock st = Some (r, lock', foldl lock_step st ops) ∧ Forall op_ok ops.
Proof.
  intros Hst Hs Hl. pose proof (lock_end_ok _ _ Hs Hl) as Hr. unfold lockctl.
  assert (Hsame : ∀ (r : option Z) (lk : LockRange), ∃ r' lk' ops, Some (r, lk, st) = Some (r', lk', foldl lock_step st ops) ∧ Forall op_ok ops).
  { intros r lk. exists r, lk, []. split; [done|constructor]. }
  destruct target as [[node desc]|]; [|apply Hsame].
  assert (Hgo : ∀ kind owner, ∃ r' lk' ops,
    lockctl_cmd node owner kind cmd signalled lock st = Some (r', lk', foldl lock_step st ops) ∧ Forall op_ok ops).
  { intros kind owner. unfold lockctl_cmd. destruct (_ =? LOCKCTL_GET).
    - destruct kind as [k|]; [|apply Hsame]. destruct (conflicting _ _ _ _ _ _) as [l|] eqn:E; [|apply Hsame].
      apply find_some in E as [E _]. apply list_elem_of_In, (found_some _ _ Hst) in E as [r ->]. apply Hsame.
    - destruct (_ || _); [|apply Hsame]. set (w := _ =? LOCKCTL_WAIT).
      destruct (set node owner kind _ _ w signalled st) as [v st1] eqn:E. exists (lock_result v), lock.
      exists [Set_ node owner kind (r_start lock) (lock_end (r_start lock) (r_len lock)) w signalled].
      cbn [foldl lock_step]. rewrite E. split; [done|]. by apply Forall_singleton. }
  destruct (r_kind lock =? 0); [apply Hgo|]. destruct (r_kind lock =? 1); [apply Hgo|].
  destruct (r_kind lock =? 2); [apply Hgo|apply Hsame].
Qed.

(** At the last offset of all a range is empty: every request for it adds an
    entry to the table, and an unlock of the same range takes none away. *)
Definition end_lock : Lock := {| l_node := 7; l_owner := Process 1; l_kind := Shared; l_start := U64_MAX; l_end := U64_MAX |}.
Definition end_request (kind : option Kind) : LockOp :=
  Set_ 7 (Process 1) kind U64_MAX (lock_end U64_MAX 1) false false.

Lemma end_request_step m st kind : kind = Some Shared ∨ kind = None → locks st = replicate m end_lock →
  locks (lock_step st (end_request kind)) = replicate (match kind with Some _ => S m | None => m end) end_lock.
Proof.
  intros Hk Hst. change (lock_end U64_MAX 1) with U64_MAX in *. cbn [end_request lock_step].
  assert (Hc : concat (cut 7 (Process 1) U64_MAX U64_MAX <$> replicate m end_lock) = replicate m end_lock).
  { clear. induction m as [|m IH]; [done|]. cbn [replicate fmap list_fmap concat]. by rewrite IH. }
  assert (Hf : conflicting (replicate m end_lock) 7 (Process 1) Shared U64_MAX U64_MAX = None).
  { clear. induction m as [|m IH]; [done|]. cbn [replicate]. unfold conflicting in *. cbn [find]. by rewrite IH. }
  unfold end_request. cbn [lock_step]. change (lock_end U64_MAX 1) with U64_MAX.
  rewrite set_locks. unfold set, replace. rewrite Hst, Hc. destruct Hk as [-> | ->].
  - rewrite Hf. cbn [fst]. rewrite decide_True by done. by rewrite replicate_S_end.
  - cbn [fst]. rewrite decide_True by done. by rewrite app_nil_r.
Qed.

Lemma end_locks_pile_up n :
  locks (lock_run (replicate n (end_request (Some Shared)))) = replicate n end_lock ∧
  locks (lock_run (replicate n (end_request (Some Shared)) ++ [end_request None])) = replicate n end_lock.
Proof.
  assert (Hn : locks (lock_run (replicate n (end_request (Some Shared)))) = replicate n end_lock).
  { induction n as [|m IH]; [done|]. rewrite replicate_S_end. unfold lock_run. rewrite foldl_app.
    apply (end_request_step m); [by left|done]. }
  split; [done|]. unfold lock_run. rewrite foldl_app. apply (end_request_step n); [by right|done].
Qed.
