(* ===== verification/Vm.v ===== *)
(** * Memory mappings of a process ([kernel/src/task/vm.rs])

    The table of a process's mmap regions, sorted by address, and the files
    it maps.  Each operation is one step under the task table's lock.  A
    panic (an arithmetic overflow, an index out of range) is [None]; an
    answer of the operation itself ([false], no gap) is a value. *)

From S2P Require Import Prelude.

Open Scope Z_scope.

Definition PAGE : Z := 4096.
Definition MAX_MMAP_REGIONS : Z := 4096.
Definition MAX_MAPPED_FILES : Z := 1024.
Definition MMAP_DEVICE : Z := Z.shiftl 1 31.
Definition MMAP_SHARED : Z := Z.shiftl 1 30.
Definition MMAP_UNCACHED : Z := Z.shiftl 1 29.
Definition MMAP_NOCACHE : Z := Z.shiftl 1 28.
Definition MMAP_WRITE_COMBINE : Z := Z.shiftl 1 27.

(** The flags of a mapping that a change of its protection keeps. *)
Definition KIND_FLAGS : Z :=
  Z.lor MMAP_DEVICE (Z.lor MMAP_SHARED (Z.lor MMAP_UNCACHED (Z.lor MMAP_NOCACHE MMAP_WRITE_COMBINE))).

Record MmapRegion := { va : Z; pages : Z; prot : Z; file : Z; fpage : Z }.

(** The two fields of a [Process] this is about; a [Vnode] is its number. *)
Record Process := { mmap : list MmapRegion; mapped_files : list (option Z) }.

Definition region_end (r : MmapRegion) : Z := Z.min (va r + pages r * PAGE) U64_MAX.

(** [slice::partition_point] on a partitioned slice: how many elements come
    before the first that fails the test. *)
Fixpoint partition_point {A} (f : A → bool) (l : list A) : nat :=
  match l with
  | [] => 0
  | x :: l => if f x then S (partition_point f l) else 0
  end.

Definition region_at (l : list MmapRegion) (addr : Z) : option MmapRegion :=
  match l !! partition_point (λ r, region_end r <=? addr) l with
  | Some r => if va r <=? addr then Some r else None
  | None => None
  end.

(** The loop of [mmap_range_in], which moves to a later region every turn. *)
Fixpoint range_in_from (fuel : nat) (l : list MmapRegion) (cur end_ : Z) : option bool :=
  match fuel with
  | O => None
  | S fuel =>
      if cur <? end_ then
        match region_at l cur with
        | Some r => range_in_from fuel l (region_end r) end_
        | None => Some false
        end
      else Some true
  end.

Definition mmap_range_in (l : list MmapRegion) (ptr len : Z) : option bool :=
  if len =? 0 then Some true
  else match add64 ptr len with
       | None => Some false
       | Some end_ => range_in_from (S (length l)) l ptr end_
       end.

Definition piece (r : MmapRegion) (a b : Z) : option MmapRegion :=
  off ← usub a (va r);
  let skip := (off / PAGE) mod 2 ^ 32 in
  n ← usub b a;
  fp ← (if file r =? 0 then Some 0 else add32 (fpage r) skip);
  Some {| va := a; pages := (n / PAGE) mod 2 ^ 32; prot := prot r; file := file r; fpage := fp |}.

(** What a region leaves outside [[lo, hi)]. *)
Definition kept_of (lo hi : Z) (r : MmapRegion) : option (list MmapRegion) :=
  left ← (if va r <? lo then x ← piece r (va r) lo; Some [x] else Some []);
  right ← (if hi <? region_end r then x ← piece r hi (region_end r); Some [x] else Some []);
  Some (left ++ right).

(** The loop of [carve] over the regions the range touches: what is kept and
    what is removed of them. *)
Fixpoint carve_loop (lo hi : Z) (l : list MmapRegion) : option (list MmapRegion * list MmapRegion) :=
  match l with
  | [] => Some ([], [])
  | r :: l =>
      x ← piece r (Z.max (va r) lo) (Z.min (region_end r) hi);
      k ← kept_of lo hi r;
      '(kept, removed) ← carve_loop lo hi l;
      Some (k ++ kept, x :: removed)
  end.

(** The table without [[lo, hi)] and what was removed; [Some None] without
    room for a split. *)
Definition carve (l : list MmapRegion) (lo hi : Z) : option (option (list MmapRegion * list MmapRegion)) :=
  let first := partition_point (λ r, region_end r <=? lo) l in
  let last := (first + partition_point (λ r, (va r <? hi)%Z) (drop first l))%nat in
  '(kept, removed) ← carve_loop lo hi (take (last - first) (drop first l));
  if MAX_MMAP_REGIONS <? zlen l - Z.of_nat (last - first) + zlen kept then Some None
  else Some (Some (take first l ++ kept ++ drop last l, removed)).

(** [named] after the regions are looked at. *)
Definition named_files (l : list MmapRegion) (n : nat) : list bool :=
  foldl (λ named r, if file r <=? 0 then named else <[Z.to_nat (file r - 1) := true]> named) (replicate n false) l.

Fixpoint drop_trailing (l : list (option Z)) : list (option Z) :=
  match l with
  | [] => []
  | x :: l => match x, drop_trailing l with None, [] => [] | _, l' => x :: l' end
  end.

Definition prune_files (t : Process) : Process :=
  let named := named_files (mmap t) (length (mapped_files t)) in
  {| mmap := mmap t;
     mapped_files := drop_trailing (zip_with (λ slot (n : bool), if n then slot else None) (mapped_files t) named) |}.

Definition clear_mmap (t : Process) : Process := prune_files {| mmap := []; mapped_files := mapped_files t |}.

(** The loop of [free_gap]: the candidate after the regions below it. *)
Fixpoint gap_from (len : Z) (cand : Z) (l : list MmapRegion) : option Z :=
  match l with
  | [] => Some cand
  | r :: l =>
      if region_end r <=? cand then gap_from len cand l
      else end_ ← add64 cand len; if end_ <=? va r then Some cand else gap_from len (region_end r) l
  end.

Definition free_gap (l : list MmapRegion) (area_lo area_hi len : Z) : option Z :=
  cand ← gap_from len area_lo l;
  end_ ← add64 cand len;
  if end_ <=? area_hi then Some cand else None.

(** Whether [b] continues [a]; [None] when an addition overflows. *)
Definition joinable (a b : MmapRegion) : option bool :=
  if negb ((prot a =? prot b) && (file a =? file b)) then Some false
  else
    cont ← (if file a =? 0 then Some true else fp ← add32 (fpage a) (pages a); Some (fp =? fpage b));
    if negb cont then Some false else e ← add64 (va a) (pages a * PAGE); Some (e =? va b).

(** [Vec::dedup_by] with a closure that grows the element kept. *)
Fixpoint coalesce_from (a : MmapRegion) (l : list MmapRegion) : option (list MmapRegion) :=
  match l with
  | [] => Some [a]
  | b :: l =>
      j ← joinable a b;
      if (j : bool) then
        n ← add32 (pages a) (pages b);
        coalesce_from {| va := va a; pages := n; prot := prot a; file := file a; fpage := fpage a |} l
      else l' ← coalesce_from b l; Some (a :: l')
  end.

Definition coalesce (l : list MmapRegion) : option (list MmapRegion) :=
  match l with [] => Some [] | a :: l => coalesce_from a l end.

(** [Iterator::position] *)
Fixpoint position {A} (f : A → bool) (l : list A) : option nat :=
  match l with
  | [] => None
  | x :: l => if f x then Some 0%nat else S <$> position f l
  end.

Definition holds_node (node : Z) (f : option Z) : bool := bool_decide (f = Some node).
Definition slot_free (f : option Z) : bool := bool_decide (f = None).

Definition mapped_file_slot (t : Process) (node : Z) : option nat * Process :=
  match position (holds_node node) (mapped_files t) with
  | Some i => (Some i, t)
  | None =>
      let t := if MAX_MAPPED_FILES <=? zlen (mapped_files t) then prune_files t else t in
      match position slot_free (mapped_files t) with
      | Some i => (Some i, {| mmap := mmap t; mapped_files := <[i := Some node]> (mapped_files t) |})
      | None =>
          if zlen (mapped_files t) <? MAX_MAPPED_FILES
          then (Some (length (mapped_files t)), {| mmap := mmap t; mapped_files := mapped_files t ++ [Some node] |})
          else (None, t)
      end
  end.

(** [Vec::remove] *)
Definition remove_at {A} (i : nat) (l : list A) : option (list A) :=
  if bool_decide (i < length l)%nat then Some (take i l ++ drop (S i) l) else None.

(** The region's part of [add_region]. *)
Definition insert_region (r : MmapRegion) (t : Process) : option (bool * Process) :=
  let i := partition_point (λ x, va x <? va r) (mmap t) in
  l ← coalesce (take i (mmap t) ++ r :: drop i (mmap t));
  if MAX_MMAP_REGIONS <? zlen l then
    l ← remove_at i l;
    Some (false, {| mmap := l; mapped_files := mapped_files t |})
  else Some (true, {| mmap := l; mapped_files := mapped_files t |}).

(** [file] is a node and a byte offset in it. *)
Definition add_region (va_ pages_ prot_ : Z) (file_ : option (Z * Z)) (t : Process) : option (bool * Process) :=
  match file_ with
  | None => insert_region {| va := va_; pages := pages_; prot := prot_; file := 0; fpage := 0 |} t
  | Some (node, off) =>
      match mapped_file_slot t node with
      | (Some i, t) =>
          insert_region {| va := va_; pages := pages_; prot := prot_; file := Z.of_nat i + 1;
                           fpage := (off / PAGE) mod 2 ^ 32 |} t
      | (None, t) => Some (false, t)
      end
  end.

Definition mmap_add_free (area_lo area_hi pages_ prot_ : Z) (file_ : option (Z * Z)) (t : Process) :
    option (option Z * Process) :=
  match free_gap (mmap t) area_lo area_hi (pages_ * PAGE) with
  | None => Some (None, t)
  | Some va_ => '(ok, t) ← add_region va_ pages_ prot_ file_ t; Some (if (ok : bool) then Some va_ else None, t)
  end.

(** What backs the page of an address: its protection, the node and the byte
    offset it reads from, and how many pages its region has from there on. *)
Definition mmap_backing (t : Process) (addr : Z) : option (Z * option (Z * Z) * Z) :=
  match region_at (mmap t) addr with
  | None => None
  | Some r =>
      let f := if file r =? 0 then None
               else match mapped_files t !! Z.to_nat (file r - 1) with
                    | Some (Some node) => Some (node, (fpage r + (addr - va r) / PAGE) * PAGE)
                    | _ => None
                    end in
      Some (prot r, f, (region_end r - (addr - addr mod PAGE)) / PAGE)
  end.

Definition mmap_remove (va_ pages_ : Z) (t : Process) : option (bool * Process) :=
  hi ← add64 va_ (pages_ * PAGE);
  c ← carve (mmap t) va_ hi;
  let '(ok, l) := match c with Some (l, _) => (true, l) | None => (false, mmap t) end in
  Some (ok, prune_files {| mmap := l; mapped_files := mapped_files t |}).

Definition reprotect (prot_ : Z) (r : MmapRegion) : MmapRegion :=
  {| va := va r; pages := pages r; prot := Z.lor prot_ (Z.land (prot r) KIND_FLAGS); file := file r; fpage := fpage r |}.

Definition mmap_set_prot (va_ pages_ prot_ : Z) (t : Process) : option (bool * Process) :=
  hi ← add64 va_ (pages_ * PAGE);
  c ← carve (mmap t) va_ hi;
  match c with
  | None => Some (false, t)
  | Some (l, parts) =>
      let at_ := partition_point (λ r, va r <? va_) l in
      l ← coalesce (take at_ l ++ (reprotect prot_ <$> parts) ++ drop at_ l);
      if MAX_MMAP_REGIONS <? zlen l then Some (false, t)
      else Some (true, {| mmap := l; mapped_files := mapped_files t |})
  end.

(** The files of the shared mappings that touch [[lo, hi)], each once. *)
Definition shared_files (t : Process) (lo hi : Z) : list Z :=
  foldl (λ out r,
    if (Z.land (prot r) MMAP_SHARED =? 0) || (hi <=? va r) || (region_end r <=? lo) || (file r =? 0) then out
    else match mapped_files t !! Z.to_nat (file r - 1) with
         | Some (Some node) => if bool_decide (node ∈ out) then out else out ++ [node]
         | _ => out
         end) [] (mmap t).

(** The check of [do_mmap] on a file mapping's offset. *)
Definition offset_ok (offset map_len : Z) : bool :=
  match add64 offset map_len with Some _ => negb (U32_MAX <? offset / PAGE) | None => false end.

(** ** The operations on the table *)

Inductive VmOp : Set :=
  | MmapAdd (va pages prot : Z) (file : option (Z * Z))
  | MmapAddFree (area_lo area_hi pages prot : Z) (file : option (Z * Z))
  | MmapRemove (va pages : Z)
  | MmapSetProt (va pages prot : Z)
  | ClearMmap.

(** What an operation answers: whether it succeeded, and the address of a gap. *)
Inductive VmAnswer : Set := Done (ok : bool) | Placed (va : option Z).

Definition vm_step (op : VmOp) (t : Process) : option (VmAnswer * Process) :=
  match op with
  | MmapAdd va pages prot file => '(ok, t) ← add_region va pages prot file t; Some (Done ok, t)
  | MmapAddFree lo hi pages prot file => '(a, t) ← mmap_add_free lo hi pages prot file t; Some (Placed a, t)
  | MmapRemove va pages => '(ok, t) ← mmap_remove va pages t; Some (Done ok, t)
  | MmapSetProt va pages prot => '(ok, t) ← mmap_set_prot va pages prot t; Some (Done ok, t)
  | ClearMmap => Some (Done true, clear_mmap t)
  end.
