(* ===== verification/VmFacts.v ===== *)
(** * What the mapping table promises

    The specification of [Vm]: a process's mappings as a function from page
    numbers to what backs the page.  The table's operations are shown to be
    the operations on that function. *)

From S2P Require Import Prelude Vm.
From stdpp Require Import list sorting.

Open Scope Z_scope.

(** The end of the user window, on the architecture that has the largest. *)
Definition USER_WINDOW : Z := 2 ^ 39.

(** ** Regions by page number *)

Definition vp (r : MmapRegion) : Z := va r / PAGE.
Definition ve (r : MmapRegion) : Z := vp r + pages r.

Record region_ok (r : MmapRegion) : Prop := {
  ok_aligned : va r = vp r * PAGE;
  ok_start : 0 <= vp r;
  ok_pages : 1 <= pages r;
  ok_window : ve r * PAGE <= USER_WINDOW;
  ok_anon : file r = 0 → fpage r = 0;
  ok_file : file r ≠ 0 → 0 < file r ∧ 0 <= fpage r ∧ fpage r + pages r <= U32_MAX }.

Definition before (a b : MmapRegion) : Prop := ve a <= vp b.

Definition table_ok (l : list MmapRegion) : Prop := Forall region_ok l ∧ StronglySorted before l.

(** [b] continues [a]. *)
Definition joins (a b : MmapRegion) : Prop :=
  prot a = prot b ∧ file a = file b ∧ (file a = 0 ∨ fpage a + pages a = fpage b) ∧ ve a = vp b.

Definition no_joins (l : list MmapRegion) : Prop := ∀ a b, a ∈ l → b ∈ l → ¬ joins a b.

#[export] Instance joins_dec a b : Decision (joins a b).
Proof. unfold joins. apply _. Defined.

(** What a region says of one of its pages: protection, file, page of the
    file. *)
Definition content (r : MmapRegion) (p : Z) : Z * Z * Z :=
  (prot r, file r, if file r =? 0 then 0 else fpage r + (p - vp r)).

Definition maps (l : list MmapRegion) (p : Z) (c : Z * Z * Z) : Prop :=
  ∃ r, r ∈ l ∧ vp r <= p < ve r ∧ content r p = c.

Definition sub (r : MmapRegion) (a b : Z) : MmapRegion :=
  {| va := a * PAGE; pages := b - a; prot := prot r; file := file r;
     fpage := if file r =? 0 then 0 else fpage r + (a - vp r) |}.

Lemma page_div p o : 0 <= o < PAGE → (p * PAGE + o) / PAGE = p.
Proof. intros. unfold PAGE in *. rewrite Z.div_add_l by lia. rewrite Z.div_small by lia. lia. Qed.

Lemma page_div0 p : (p * PAGE) / PAGE = p.
Proof. rewrite <- (Z.add_0_r (p * PAGE)). apply page_div. unfold PAGE. lia. Qed.

Lemma vp_sub r a b : vp (sub r a b) = a.
Proof. apply page_div0. Qed.

Lemma ve_sub r a b : ve (sub r a b) = b.
Proof. unfold ve. rewrite vp_sub. cbn. lia. Qed.

Lemma sub_ok r a b : region_ok r → vp r <= a → a < b → b <= ve r → region_ok (sub r a b).
Proof.
  intros [H1 H2 H3 H4 H5 H6] Ha Hab Hb. unfold ve in *.
  split; rewrite ?ve_sub, ?vp_sub; cbn; try done; try lia.
  - unfold PAGE in *. lia.
  - by intros ->.
  - intros Hf. rewrite (proj2 (Z.eqb_neq _ _) Hf). destruct (H6 Hf) as (?&?&?). lia.
Qed.

Lemma sub_content r a b p : content (sub r a b) p = content r p.
Proof. unfold content. rewrite vp_sub. cbn. destruct (file r =? 0); [done|]. f_equal. lia. Qed.

Lemma region_end_eq r : region_ok r → region_end r = ve r * PAGE.
Proof.
  intros [H1 H2 H3 H4 _ _]. unfold region_end. rewrite H1. unfold ve, USER_WINDOW, U64_MAX, PAGE in *. lia.
Qed.

Lemma piece_eq r a b : region_ok r → vp r <= a → a < b → b <= ve r → piece r (a * PAGE) (b * PAGE) = Some (sub r a b).
Proof.
  intros [H1 H2 H3 H4 H5 H6] Ha Hab Hb. unfold piece, usub.
  assert (Hw : ve r <= 2 ^ 27) by (unfold USER_WINDOW, PAGE in *; lia). unfold ve in *.
  rewrite H1. rewrite (proj2 (Z.leb_le _ _)) by (unfold PAGE; lia). cbn [mbind option_bind].
  rewrite (proj2 (Z.leb_le _ _)) by (unfold PAGE; lia). cbn [mbind option_bind].
  rewrite <- !Z.mul_sub_distr_r, !page_div0, !Z.mod_small by lia. unfold sub.
  destruct (Z.eqb_spec (file r) 0) as [Hf|Hf]; [done|]. destruct (H6 Hf) as (?&?&?).
  unfold add32. rewrite fits_in by (unfold U32_MAX in *; lia). done.
Qed.

Lemma joinable_eq a b : region_ok a → region_ok b → joinable a b = Some (bool_decide (joins a b)).
Proof.
  intros [H1 H2 H3 H4 H5 H6] [G1 G2 G3 G4 G5 G6]. unfold joinable, joins.
  destruct (Z.eqb_spec (prot a) (prot b)) as [Hp|Hp]; cbn; [|by rewrite bool_decide_eq_false_2 by naive_solver].
  destruct (Z.eqb_spec (file a) (file b)) as [Hf|Hf]; cbn; [|by rewrite bool_decide_eq_false_2 by naive_solver].
  assert (He : add64 (va a) (pages a * PAGE) = Some (ve a * PAGE)).
  { rewrite H1, add64_in; unfold ve, USER_WINDOW, PAGE in *; [f_equal|]; lia. }
  assert (Hv : (ve a * PAGE =? va b) = bool_decide (ve a = vp b)).
  { rewrite G1. unfold PAGE. destruct (bool_decide_reflect (ve a = vp b)); [apply Z.eqb_eq|apply Z.eqb_neq]; lia. }
  destruct (Z.eqb_spec (file a) 0) as [Hz|Hz]; cbn.
  - rewrite He. cbn. rewrite Hv. f_equal. apply bool_decide_ext. naive_solver.
  - destruct (H6 Hz) as (?&?&?). unfold add32. rewrite fits_in by (unfold U32_MAX in *; lia). cbn.
    destruct (Z.eqb_spec (fpage a + pages a) (fpage b)) as [Hc|Hc]; cbn.
    + rewrite He. cbn. rewrite Hv. f_equal. apply bool_decide_ext. naive_solver.
    + by rewrite bool_decide_eq_false_2 by naive_solver.
Qed.

(** ** Searching a sorted table *)

Section partition.
Context {A : Type} (R : A → A → Prop) (f : A → bool).
Hypothesis f_down : ∀ x y, R x y → f y = true → f x = true.

Lemma partition_split l : StronglySorted R l → ∃ l1 l2, l = l1 ++ l2 ∧ partition_point f l = length l1 ∧
  Forall (λ x, f x = true) l1 ∧ Forall (λ x, f x = false) l2.
Proof using f_down.
  induction 1 as [|x l Hs IH Hx]; [by exists [], []|]. cbn [partition_point]. destruct (f x) eqn:E.
  - destruct IH as (l1&l2&->&->&?&?). exists (x :: l1), l2. split_and!; [done..| |done]. by constructor.
  - exists [], (x :: l). split_and!; [done..|constructor|]. constructor; [done|]. rewrite Forall_forall in *.
    intros y Hy. destruct (f y) eqn:Ey; [|done]. apply (f_down x y (Hx y Hy)) in Ey. congruence.
Qed.
End partition.

Lemma sorted_with {A} (P : A → Prop) (R : A → A → Prop) l : Forall P l → StronglySorted R l →
  StronglySorted (λ x y, P x ∧ P y ∧ R x y) l.
Proof.
  intros HP. induction 1 as [|x l Hs IH Hx]; [constructor|]. apply Forall_cons in HP as [Hp HP].
  constructor; [by apply IH|]. rewrite Forall_forall in *. auto.
Qed.

Lemma table_app l1 l2 : table_ok (l1 ++ l2) ↔ table_ok l1 ∧ table_ok l2 ∧ ∀ x y, x ∈ l1 → y ∈ l2 → before x y.
Proof. unfold table_ok. rewrite Forall_app, StronglySorted_app. naive_solver. Qed.

Lemma table_nil : table_ok [].
Proof. split; constructor. Qed.

Lemma table_single r : region_ok r → table_ok [r].
Proof. intros. split; [by apply Forall_singleton|by repeat constructor]. Qed.

Lemma table_region l r : table_ok l → r ∈ l → region_ok r.
Proof. intros [H _]. by apply (proj1 (Forall_forall _ _) H). Qed.

(** The regions that end at or below a page come first, and so do those that
    start below one. *)
Lemma split_ends l a : table_ok l → ∃ l1 l2, l = l1 ++ l2 ∧
  partition_point (λ r, region_end r <=? a * PAGE) l = length l1 ∧
  Forall (λ r, ve r <= a) l1 ∧ Forall (λ r, a < ve r) l2.
Proof.
  intros [Hr Hs]. pose proof (sorted_with _ _ _ Hr Hs) as Hs'.
  assert (Hd : ∀ x y, region_ok x ∧ region_ok y ∧ before x y → (λ r, region_end r <=? a * PAGE) y = true → (λ r, region_end r <=? a * PAGE) x = true).
  { cbn. intros x y (Hx&Hy&Hxy). rewrite !region_end_eq, !Z.leb_le by done. pose proof (ok_pages _ Hy).
    unfold before, ve, PAGE in *. lia. }
  destruct (partition_split _ _ Hd _ Hs') as (l1&l2&->&Hp&H1&H2).
  exists l1, l2. split_and!; [done..| |]; rewrite Forall_app in Hr; destruct Hr as [R1 R2]; rewrite Forall_forall in *;
    intros x Hx.
  - specialize (H1 x Hx). cbn in H1. rewrite region_end_eq in H1 by auto. apply Z.leb_le in H1. unfold PAGE in *. lia.
  - specialize (H2 x Hx). cbn in H2. rewrite region_end_eq in H2 by auto. apply Z.leb_gt in H2. unfold PAGE in *. lia.
Qed.

Lemma split_starts l a : table_ok l → ∃ l1 l2, l = l1 ++ l2 ∧
  partition_point (λ r, va r <? a * PAGE) l = length l1 ∧ Forall (λ r, vp r < a) l1 ∧ Forall (λ r, a <= vp r) l2.
Proof.
  intros [Hr Hs]. pose proof (sorted_with _ _ _ Hr Hs) as Hs'.
  assert (Hd : ∀ x y, region_ok x ∧ region_ok y ∧ before x y → (λ r, va r <? a * PAGE) y = true → (λ r, va r <? a * PAGE) x = true).
  { cbn. intros x y (Hx&Hy&Hxy). rewrite !ok_aligned, !Z.ltb_lt by done. pose proof (ok_pages _ Hx).
    unfold before, ve, PAGE in *. lia. }
  destruct (partition_split _ _ Hd _ Hs') as (l1&l2&->&Hp&H1&H2).
  exists l1, l2. split_and!; [done..| |]; rewrite Forall_app in Hr; destruct Hr as [R1 R2]; rewrite Forall_forall in *;
    intros x Hx.
  - specialize (H1 x Hx). cbn in H1. rewrite ok_aligned in H1 by auto. apply Z.ltb_lt in H1. unfold PAGE in *. lia.
  - specialize (H2 x Hx). cbn in H2. rewrite ok_aligned in H2 by auto. apply Z.ltb_ge in H2. unfold PAGE in *. lia.
Qed.

(** ** Carving a range out of the table *)

Definition outside (a b : Z) (r : MmapRegion) : bool := (ve r <=? a) || (b <=? vp r).

Definition cut (a b : Z) (r : MmapRegion) : list MmapRegion :=
  if outside a b r then [r]
  else (if vp r <? a then [sub r (vp r) a] else []) ++ (if b <? ve r then [sub r b (ve r)] else []).

Definition inner (a b : Z) (r : MmapRegion) : list MmapRegion :=
  if outside a b r then [] else [sub r (Z.max (vp r) a) (Z.min (ve r) b)].

Lemma kept_of_eq a b r : region_ok r → a < b → outside a b r = false →
  kept_of (a * PAGE) (b * PAGE) r = Some (cut a b r).
Proof.
  intros Hr Hab Ho. unfold kept_of, cut. rewrite Ho. unfold outside in Ho. apply orb_false_iff in Ho as [H1 H2].
  apply Z.leb_gt in H1, H2. rewrite ok_aligned, region_end_eq by done.
  assert (Hc : ∀ x y, (x * PAGE <? y * PAGE) = (x <? y)).
  { intros x y. unfold PAGE. destruct (Z.ltb_spec x y); [apply Z.ltb_lt|apply Z.ltb_ge]; lia. }
  rewrite !Hc. destruct (Z.ltb_spec (vp r) a), (Z.ltb_spec b (ve r)); rewrite ?piece_eq by (done || lia); done.
Qed.

Lemma carve_loop_eq a b l : a < b → Forall (λ r, region_ok r ∧ outside a b r = false) l →
  carve_loop (a * PAGE) (b * PAGE) l = Some (l ≫= cut a b, l ≫= inner a b).
Proof.
  intros Hab. induction 1 as [|r l [Hr Ho] _ IH]; [done|]. cbn [carve_loop].
  assert (Hp : piece r (Z.max (va r) (a * PAGE)) (Z.min (region_end r) (b * PAGE)) =
    Some (sub r (Z.max (vp r) a) (Z.min (ve r) b))).
  { rewrite ok_aligned, region_end_eq by done. unfold outside in Ho. apply orb_false_iff in Ho as [H1 H2].
    apply Z.leb_gt in H1, H2. pose proof (ok_pages _ Hr). unfold ve in *.
    rewrite <- piece_eq by (done || (unfold ve; lia)). f_equal; unfold PAGE; lia. }
  rewrite Hp, kept_of_eq, IH by done. cbn [mbind option_bind list_bind].
  assert (inner a b r = [sub r (Z.max (vp r) a) (Z.min (ve r) b)]) as -> by (unfold inner; by rewrite Ho). done.
Qed.

Lemma bind_same {A} (f : A → list A) l : Forall (λ x, f x = [x]) l → l ≫= f = l.
Proof. induction 1 as [|x l H _ IH]; [done|]. cbn. by rewrite H, IH. Qed.

Lemma bind_none {A} (f : A → list A) l : Forall (λ x, f x = []) l → l ≫= f = [].
Proof. induction 1 as [|x l H _ IH]; [done|]. cbn. by rewrite H, IH. Qed.

Lemma carve_eq a b l : table_ok l → a < b → carve l (a * PAGE) (b * PAGE) =
  Some (if MAX_MMAP_REGIONS <? zlen (l ≫= cut a b) then None else Some (l ≫= cut a b, l ≫= inner a b)).
Proof.
  intros Hl Hab. unfold carve.
  destruct (split_ends l a Hl) as (l1&l'&->&->&H1&H'). rewrite drop_app_length.
  apply table_app in Hl as (T1&Tl'&_). destruct (split_starts l' b Tl') as (l2&l3&->&->&H2&H3).
  apply table_app in Tl' as (T2&T3&_). apply Forall_app in H' as [H2' H3'].
  replace (length l1 + length l2 - length l1)%nat with (length l2) by lia. rewrite !take_app_length.
  assert (Hin : Forall (λ r, region_ok r ∧ outside a b r = false) l2).
  { rewrite Forall_forall in *. intros r Hr. split; [by apply (table_region l2)|]. unfold outside.
    apply orb_false_iff. rewrite !Z.leb_gt. auto. }
  assert (Hout : ∀ r, r ∈ l1 ∨ r ∈ l3 → outside a b r = true).
  { rewrite Forall_forall in *. intros r Hr. unfold outside. rewrite orb_true_iff, !Z.leb_le. naive_solver. }
  rewrite carve_loop_eq by done. cbn [mbind option_bind].
  rewrite !bind_app. rewrite (bind_same (cut a b) l1), (bind_same (cut a b) l3), (bind_none (inner a b) l1),
    (bind_none (inner a b) l3), app_nil_r;
    try (apply Forall_forall; intros r Hr; unfold cut, inner; by rewrite Hout by auto).
  rewrite !length_app. replace (Z.of_nat (length l1 + (length l2 + length l3)) - Z.of_nat (length l2) + zlen (l2 ≫= cut a b))
    with (Z.of_nat (length l1 + (length (l2 ≫= cut a b) + length l3))) by lia.
  rewrite <- (length_app l1 l2), (app_assoc l1 l2 l3), drop_app_length. by destruct (_ <? _).
Qed.

(** A part of a region. *)
Record part_of (r x : MmapRegion) : Prop := {
  po_ok : region_ok x;
  po_low : vp r <= vp x;
  po_high : ve x <= ve r;
  po_content : ∀ p, content x p = content r p }.

Lemma part_refl r : region_ok r → part_of r r.
Proof. by split. Qed.

Lemma part_sub r a b : region_ok r → vp r <= a → a < b → b <= ve r → part_of r (sub r a b).
Proof.
  intros Hr Ha Hab Hb. split; [by apply sub_ok|by rewrite vp_sub|by rewrite ve_sub|intros; apply sub_content].
Qed.

Lemma region_nonempty r : region_ok r → vp r < ve r.
Proof. intros H. pose proof (ok_pages _ H). unfold ve. lia. Qed.

Lemma outside_false a b r : outside a b r = false ↔ a < ve r ∧ vp r < b.
Proof. unfold outside. rewrite orb_false_iff, !Z.leb_gt. tauto. Qed.

Lemma outside_true a b r : outside a b r = true ↔ ve r <= a ∨ b <= vp r.
Proof. unfold outside. rewrite orb_true_iff, !Z.leb_le. tauto. Qed.

Lemma cut_parts a b r : region_ok r → a < b → table_ok (cut a b r) ∧ Forall (part_of r) (cut a b r).
Proof.
  intros Hr Hab. unfold cut. destruct (outside a b r) eqn:Ho.
  { split; [by apply table_single|]. apply Forall_singleton. by apply part_refl. }
  apply outside_false in Ho as [H1 H2]. split.
  - apply table_app. split_and!.
    + destruct (Z.ltb_spec (vp r) a); [|apply table_nil]. apply table_single, sub_ok; (done || lia).
    + destruct (Z.ltb_spec b (ve r)); [|apply table_nil]. apply table_single, sub_ok; (done || lia).
    + intros x y Hx Hy. destruct (vp r <? a), (b <? ve r); rewrite ?elem_of_nil in *; try done.
      apply list_elem_of_singleton in Hx as ->, Hy as ->. unfold before. rewrite ve_sub, vp_sub. lia.
  - apply Forall_app. split.
    + destruct (Z.ltb_spec (vp r) a); [|constructor]. apply Forall_singleton, part_sub; (done || lia).
    + destruct (Z.ltb_spec b (ve r)); [|constructor]. apply Forall_singleton, part_sub; (done || lia).
Qed.

Lemma inner_parts a b r : region_ok r → a < b → table_ok (inner a b r) ∧ Forall (part_of r) (inner a b r).
Proof.
  intros Hr Hab. unfold inner. destruct (outside a b r) eqn:Ho; [split; [apply table_nil|constructor]|].
  apply outside_false in Ho as [H1 H2]. pose proof (region_nonempty _ Hr).
  split; [apply table_single, sub_ok|apply Forall_singleton, part_sub]; (done || lia).
Qed.

(** Replacing every region by parts of it keeps a table in order. *)
Lemma bind_table (f : MmapRegion → list MmapRegion) l : table_ok l →
  (∀ r, region_ok r → table_ok (f r) ∧ Forall (part_of r) (f r)) → table_ok (l ≫= f).
Proof.
  intros Hl Hf. induction l as [|r l IH]; [apply table_nil|].
  apply (table_app [r]) in Hl as (Hr&Hl&Hb). apply table_region with (r := r) in Hr; [|by constructor].
  cbn. apply table_app. destruct (Hf r Hr) as [H1 H2]. split_and!; [done|by apply IH|]. intros x y Hx Hy.
  apply list_elem_of_bind in Hy as (r'&Hy&Hr'). rewrite Forall_forall in H2. destruct (H2 x Hx) as [_ _ Hx2 _].
  destruct (Hf r' (table_region _ _ Hl Hr')) as [_ H3]. rewrite Forall_forall in H3. destruct (H3 y Hy) as [_ Hy1 _ _].
  specialize (Hb r r' ltac:(by constructor) Hr'). unfold before in *. lia.
Qed.

Lemma maps_bind (f : MmapRegion → list MmapRegion) l p c : maps (l ≫= f) p c ↔ ∃ r, r ∈ l ∧ maps (f r) p c.
Proof. unfold maps. setoid_rewrite list_elem_of_bind. naive_solver. Qed.

Lemma maps_app l1 l2 p c : maps (l1 ++ l2) p c ↔ maps l1 p c ∨ maps l2 p c.
Proof. unfold maps. setoid_rewrite elem_of_app. naive_solver. Qed.

Lemma maps_cons r l p c : maps (r :: l) p c ↔ maps [r] p c ∨ maps l p c.
Proof. apply (maps_app [r] l). Qed.

Lemma maps_single r p c : maps [r] p c ↔ vp r <= p < ve r ∧ content r p = c.
Proof. unfold maps. setoid_rewrite list_elem_of_singleton. naive_solver. Qed.

Lemma maps_nil p c : maps [] p c ↔ False.
Proof. unfold maps. setoid_rewrite elem_of_nil. naive_solver. Qed.

Lemma maps_sub r a b p c : maps [sub r a b] p c ↔ a <= p < b ∧ content r p = c.
Proof. by rewrite maps_single, vp_sub, ve_sub, sub_content. Qed.

Lemma maps_cut a b r p c : region_ok r → a < b → maps (cut a b r) p c ↔ (vp r <= p < ve r ∧ content r p = c) ∧ ¬ (a <= p < b).
Proof.
  intros Hr Hab. unfold cut. destruct (outside a b r) eqn:Ho.
  - apply outside_true in Ho. rewrite maps_single. split; [|tauto]. intros [H1 H2]. split; [done|]. lia.
  - apply outside_false in Ho as [H1 H2]. rewrite maps_app.
    destruct (Z.ltb_spec (vp r) a), (Z.ltb_spec b (ve r)); rewrite ?maps_sub, ?maps_nil;
      (split; [intros Hc; repeat destruct Hc as [Hc|Hc]; try done; destruct Hc; split_and!; try done; lia|]);
      intros [[Hp Hc] Hn]; first [by left; split; [lia|] | by right; split; [lia|] | idtac].
    all: destruct (Z.lt_ge_cases p a); [left|right]; try (split; [lia|done]); exfalso; lia.
Qed.

Lemma maps_inner a b r p c : region_ok r → maps (inner a b r) p c ↔ (vp r <= p < ve r ∧ content r p = c) ∧ a <= p < b.
Proof.
  intros Hr. unfold inner. destruct (outside a b r) eqn:Ho.
  - apply outside_true in Ho. rewrite maps_nil. split; [done|]. lia.
  - rewrite maps_sub. split; intros; split_and!; try tauto; lia.
Qed.

Lemma maps_cuts a b l p c : table_ok l → a < b → maps (l ≫= cut a b) p c ↔ maps l p c ∧ ¬ (a <= p < b).
Proof.
  intros Hl Hab. rewrite maps_bind. split.
  - intros (r&Hr&Hm). apply maps_cut in Hm as [Hm Hn]; [|by eapply table_region|done]. split; [|done]. by exists r.
  - intros [(r&Hr&Hm) Hn]. exists r. split; [done|]. apply maps_cut; [by eapply table_region|done..].
Qed.

Lemma maps_inners a b l p c : table_ok l → maps (l ≫= inner a b) p c ↔ maps l p c ∧ a <= p < b.
Proof.
  intros Hl. rewrite maps_bind. split.
  - intros (r&Hr&Hm). apply maps_inner in Hm as [Hm Hn]; [|by eapply table_region]. split; [|done]. by exists r.
  - intros [(r&Hr&Hm) Hn]. exists r. split; [done|]. apply maps_inner; [by eapply table_region|done].
Qed.

Lemma table_order l x y : table_ok l → x ∈ l → y ∈ l → x = y ∨ before x y ∨ before y x.
Proof.
  intros Hl. induction l as [|r l IH]; [by intros ?%elem_of_nil|].
  apply (table_app [r]) in Hl as (_&Hl&Hb). rewrite !elem_of_cons. intros [-> | Hx] [-> | Hy]; [by left| | |by apply IH].
  - right. left. apply Hb; [by constructor|done].
  - right. right. apply Hb; [by constructor|done].
Qed.

(** A join of two parts that end where their regions do joins the regions. *)
Lemma parts_join r s x y : region_ok r → region_ok s → part_of r x → part_of s y → before r s → joins x y → joins r s.
Proof.
  intros Hr Hs [Hx Hx1 Hx2 Hxc] [Hy Hy1 Hy2 Hyc] Hb (J1&J2&J3&J4). unfold before in Hb.
  assert (ve x = ve r ∧ vp y = vp s ∧ ve r = vp s) as (E1&E2&E3) by lia.
  pose proof (Hxc (vp x)) as Cx. pose proof (Hyc (vp y)) as Cy. unfold content in Cx, Cy.
  injection Cx as P1 F1 O1. injection Cy as P2 F2 O2. unfold joins. split_and!; [congruence..| |done].
  destruct (decide (file r = 0)) as [Hz|Hz]; [by left|right].
  rewrite F1 in O1. rewrite F2 in O2. assert (file s ≠ 0) by congruence.
  rewrite (proj2 (Z.eqb_neq (file r) 0)) in O1 by done. rewrite (proj2 (Z.eqb_neq (file s) 0)) in O2 by done.
  destruct J3 as [J3|J3]; [congruence|]. unfold ve in *. lia.
Qed.

Lemma cut_no_joins a b r x y : region_ok r → a < b → x ∈ cut a b r → y ∈ cut a b r → ¬ joins x y.
Proof.
  intros Hr Hab Hx Hy (_&_&_&J). revert Hx Hy. pose proof (region_nonempty _ Hr). unfold cut.
  destruct (outside a b r) eqn:Ho; [by intros ->%list_elem_of_singleton ->%list_elem_of_singleton; lia|].
  apply outside_false in Ho as [H1 H2]. rewrite !elem_of_app.
  destruct (vp r <? a) eqn:E1, (b <? ve r) eqn:E2; rewrite ?list_elem_of_singleton, ?elem_of_nil; bool_hyps;
    intros [Hx|Hx] [Hy|Hy]; try done; subst; rewrite ?ve_sub, ?vp_sub in J; lia.
Qed.

Lemma cuts_no_joins a b l : table_ok l → no_joins l → a < b → no_joins (l ≫= cut a b).
Proof.
  intros Hl Hn Hab x y Hx Hy HJ.
  apply list_elem_of_bind in Hx as (r&Hx&Hr), Hy as (s&Hy&Hs).
  pose proof (table_region _ _ Hl Hr) as Or. pose proof (table_region _ _ Hl Hs) as Os.
  destruct (cut_parts a b r Or Hab) as [_ Px], (cut_parts a b s Os Hab) as [_ Py]. rewrite Forall_forall in Px, Py.
  destruct (table_order l r s Hl Hr Hs) as [<-|[Hb|Hb]].
  - by apply (cut_no_joins a b r x y).
  - apply (Hn r s Hr Hs). by apply (parts_join r s x y); auto.
  - destruct HJ as (_&_&_&J). destruct (Px x Hx) as [Ox Px1 Px2 _], (Py y Hy) as [Oy Py1 Py2 _].
    pose proof (region_nonempty _ Ox). pose proof (region_nonempty _ Oy). unfold before in Hb. lia.
Qed.

(** A range splits at most one region. *)
Lemma cuts_length a b l : table_ok l → a < b → (length (l ≫= cut a b) <= S (length l))%nat.
Proof.
  intros Hl Hab. induction l as [|r l IH]; [cbn; lia|].
  apply (table_app [r]) in Hl as (Hr&Hl&Hb). apply table_region with (r := r) in Hr; [|by constructor].
  specialize (IH Hl). cbn. rewrite length_app.
  destruct (decide (length (cut a b r) <= 1)%nat); [lia|].
  assert (Hs : Forall (λ s, cut a b s = [s]) l).
  { apply Forall_forall. intros s Hs. unfold cut. rewrite (proj2 (outside_true a b s)); [done|]. right.
    specialize (Hb r s ltac:(by constructor) Hs). unfold before in Hb. unfold cut in *.
    destruct (outside a b r); [cbn in *; lia|]. rewrite length_app in *.
    destruct (vp r <? a), (Z.ltb_spec b (ve r)); cbn in *; lia. }
  rewrite bind_same by done. unfold cut. destruct (outside a b r); [cbn; lia|].
  rewrite length_app. destruct (vp r <? a), (b <? ve r); cbn; lia.
Qed.

(** ** Joining neighbours *)

Definition joined (a b : MmapRegion) : MmapRegion :=
  {| va := va a; pages := pages a + pages b; prot := prot a; file := file a; fpage := fpage a |}.

Lemma joined_ok a b : region_ok a → region_ok b → joins a b →
  region_ok (joined a b) ∧ vp (joined a b) = vp a ∧ ve (joined a b) = ve b ∧
  ∀ p c, maps [joined a b] p c ↔ maps [a; b] p c.
Proof.
  intros [H1 H2 H3 H4 H5 H6] [G1 G2 G3 G4 G5 G6] (J1&J2&J3&J4).
  assert (Hv : vp (joined a b) = vp a) by done.
  assert (He : ve (joined a b) = ve b) by (unfold ve in *; rewrite Hv; cbn; lia).
  split_and!; [|done..|].
  - split; rewrite ?Hv, ?He; cbn; (done || lia).
  - intros p c. rewrite (maps_app [a] [b]), !maps_single, Hv, He.
    assert (Hc : ∀ p, content (joined a b) p = content a p) by done.
    assert (Hc' : ∀ p, content b p = content a p).
    { intros q. unfold content. rewrite <- J1, <- J2. destruct (Z.eqb_spec (file a) 0); [done|].
      destruct J3; [done|]. f_equal. unfold ve in *. lia. }
    rewrite Hc, Hc'. unfold ve in *. split; [|intros [[? ?]|[? ?]]; split; (done || lia)].
    intros [Hp Hq]. destruct (Z.lt_ge_cases p (vp a + pages a)); [left|right]; split; (done || lia).
Qed.

Lemma coalesce_ok l a : table_ok (a :: l) → ∃ b l', coalesce_from a l = Some (b :: l') ∧ table_ok (b :: l') ∧
  no_joins (b :: l') ∧ (∀ p c, maps (b :: l') p c ↔ maps (a :: l) p c) ∧ (length l' <= length l)%nat ∧
  (length l' = length l → b :: l' = a :: l) ∧
  vp b = vp a ∧ prot b = prot a ∧ file b = file a ∧ fpage b = fpage a.
Proof.
  revert a. induction l as [|b l IH]; intros a Hl.
  { exists a, []. pose proof (table_region _ a Hl ltac:(by constructor)) as Ha. split_and!; try done.
    intros x y ->%list_elem_of_singleton ->%list_elem_of_singleton (_&_&_&J). pose proof (region_nonempty _ Ha). lia. }
  pose proof (table_region _ a Hl ltac:(by constructor)) as Ha.
  pose proof (table_region _ b Hl ltac:(by do 2 constructor)) as Hb.
  cbn [coalesce_from]. rewrite joinable_eq by done. cbn [mbind option_bind].
  destruct (bool_decide_reflect (joins a b)) as [J|J].
  - destruct (joined_ok a b Ha Hb J) as (Ho&Hv&He&Hm).
    unfold add32. rewrite fits_in; cycle 1.
    { pose proof (ok_window _ Hb). pose proof (ok_start _ Ha). pose proof (ok_pages _ Ha). pose proof (ok_pages _ Hb).
      destruct J as (_&_&_&J). unfold ve, USER_WINDOW, PAGE in *. lia. }
    cbn [mbind option_bind]. destruct (IH (joined a b)) as (x&l'&E&Ht&Hn&Hms&Hlen&Hid&Hp1&Hp2&Hp3&Hp4).
    { apply (table_app [a; b] l) in Hl as (_&Hl&Hord). apply (table_app [_] l). split_and!; [by apply table_single|done|].
      intros ? y ->%list_elem_of_singleton Hy. unfold before. rewrite He. apply (Hord b y); [by do 2 constructor|done]. }
    exists x, l'. split_and!; try done; [|cbn; lia|cbn; lia]. intros p c.
    rewrite Hms, maps_cons, Hm, (maps_cons a [b]), (maps_cons a (b :: l)), (maps_cons b l). tauto.
  - apply (table_app [a]) in Hl as (_&Hl&Hord). destruct (IH b Hl) as (x&l'&E&Ht&Hn&Hms&Hlen&Hid&Hp1&Hp2&Hp3&Hp4).
    rewrite E. cbn [mbind option_bind]. exists a, (x :: l').
    assert (Hax : ve a <= vp x) by (rewrite Hp1; apply Hord; by constructor).
    assert (Hord' : ∀ y, y ∈ x :: l' → y = x ∨ before x y).
    { intros y Hy. apply elem_of_cons in Hy as [->|Hy]; [by left|right].
      apply (table_app [x]) in Ht as (_&_&Hx). apply Hx; [by constructor|done]. }
    pose proof (table_region _ x Ht ltac:(by constructor)) as Hx. pose proof (region_nonempty _ Hx).
    split_and!; try done.
    + apply (table_app [a]). split_and!; [by apply table_single|done|]. intros ? y ->%list_elem_of_singleton Hy.
      unfold before in *. destruct (Hord' y Hy) as [->|Hxy]; lia.
    + intros y z [->|Hy]%elem_of_cons [->|Hz]%elem_of_cons; [| | |by apply Hn].
      * intros (_&_&_&Jv). pose proof (region_nonempty _ Ha). lia.
      * intros HJ. destruct (Hord' z Hz) as [->|Hxz].
        -- apply J. destruct HJ as (J1&J2&J3&J4). unfold joins. rewrite Hp2 in J1. rewrite Hp3 in J2. rewrite Hp4 in J3.
           rewrite Hp1 in J4. done.
        -- destruct HJ as (_&_&_&J4). unfold before in Hxz. lia.
      * intros (_&_&_&Jv). pose proof (table_region _ y Ht Hy) as Oy. pose proof (region_nonempty _ Oy).
        pose proof (region_nonempty _ Ha). destruct (Hord' y Hy) as [->|Hxy]; unfold before in *; lia.
    + intros p c. by rewrite maps_cons, Hms, <- maps_cons.
    + cbn. lia.
    + cbn. intros Hq. f_equal. apply Hid. lia.
Qed.

Lemma coalesce_table l : table_ok l → ∃ l', coalesce l = Some l' ∧ table_ok l' ∧ no_joins l' ∧
  (∀ p c, maps l' p c ↔ maps l p c) ∧ (length l' <= length l)%nat ∧ (length l' = length l → l' = l).
Proof.
  destruct l as [|a l]; intros Hl.
  - exists []. split_and!; try done. by intros ? ? ?%elem_of_nil.
  - destruct (coalesce_ok l a Hl) as (b&l'&E&Ht&Hn&Hm&Hlen&Hid&_). exists (b :: l'). split_and!; try done; cbn; [lia|].
    intros. apply Hid. lia.
Qed.

Definition region_free (l : list MmapRegion) (a b : Z) : Prop := ∀ x, x ∈ l → ve x <= a ∨ b <= vp x.

(** Putting sorted regions that fill a free range at their place. *)
Lemma insert_table l parts a b : table_ok l → table_ok parts → region_free l a b →
  (∀ x, x ∈ parts → a <= vp x ∧ ve x <= b) →
  let i := partition_point (λ r, va r <? a * PAGE) l in
  table_ok (take i l ++ parts ++ drop i l) ∧
  (∀ p c, maps (take i l ++ parts ++ drop i l) p c ↔ maps l p c ∨ maps parts p c).
Proof.
  intros Hl Hp Hf Hin i. subst i. destruct (split_starts l a Hl) as (l1&l2&->&->&H1&H2).
  rewrite take_app_length, drop_app_length. rewrite Forall_forall in H1, H2.
  apply table_app in Hl as (T1&T2&Hord). split.
  - apply table_app. split_and!; [done| |].
    + apply table_app. split_and!; [done..|]. intros x y Hx Hy. destruct (Hin x Hx) as [_ He]. specialize (H2 y Hy).
      pose proof (table_region _ _ T2 Hy) as Oy. pose proof (region_nonempty _ Oy).
      destruct (Hf y) as [|Hy2]; [apply elem_of_app; by right| |unfold before; lia].
      unfold before. lia.
    + intros x y Hx [Hy|Hy]%elem_of_app; [|by apply Hord]. destruct (Hin y Hy) as [He _]. specialize (H1 x Hx).
      destruct (Hf x) as [Hx2|]; [apply elem_of_app; by left|unfold before; lia|].
      pose proof (table_region _ _ Hp Hy) as Oy. pose proof (region_nonempty _ Oy). destruct (Hin y Hy). lia.
  - intros p c. rewrite !maps_app. tauto.
Qed.

(** The state a process's table is kept in. *)
Record table_inv (l : list MmapRegion) : Prop := {
  ti_table : table_ok l;
  ti_joins : no_joins l;
  ti_length : zlen l <= MAX_MMAP_REGIONS }.

Lemma insert_region_ok r t : table_inv (mmap t) → region_ok r → region_free (mmap t) (vp r) (ve r) →
  ∃ ok l', insert_region r t = Some (ok, {| mmap := l'; mapped_files := mapped_files t |}) ∧ table_inv l' ∧
    if ok : bool then ∀ p c, maps l' p c ↔ maps (mmap t) p c ∨ maps [r] p c
    else l' = mmap t ∧ zlen l' = MAX_MMAP_REGIONS.
Proof.
  intros [Ht Hn Hlen] Hr Hf. unfold insert_region. rewrite (ok_aligned r Hr).
  destruct (insert_table (mmap t) [r] (vp r) (ve r) Ht (table_single r Hr) Hf) as [Ht' Hm'].
  { intros x ->%list_elem_of_singleton. lia. }
  set (i := partition_point _ (mmap t)) in *.
  destruct (coalesce_table _ Ht') as (l'&E&Tl&Nl&Ml&Ll&Il). cbn [app] in E. rewrite E. cbn [mbind option_bind].
  rewrite !length_app in Ll, Il. cbn [length] in Ll, Il.
  assert (Hi : length (take i (mmap t)) = i ∧ (length (take i (mmap t)) + length (drop i (mmap t)))%nat = length (mmap t)).
  { rewrite length_take, length_drop. destruct (split_starts (mmap t) (vp r) Ht) as (l1&l2&E'&Ei&_). subst i.
    rewrite Ei, E', length_app. lia. }
  destruct (Z.ltb_spec MAX_MMAP_REGIONS (zlen l')) as [Hover|Hfit].
  - assert (Hid : l' = take i (mmap t) ++ [r] ++ drop i (mmap t)) by (apply Il; lia).
    unfold remove_at. rewrite bool_decide_eq_true_2 by (rewrite Hid, !length_app; cbn; lia). cbn [mbind option_bind].
    rewrite Hid. destruct Hi as [Hi1 Hi2].
    assert (take i (take i (mmap t) ++ [r] ++ drop i (mmap t)) ++ drop (S i) (take i (mmap t) ++ [r] ++ drop i (mmap t)) = mmap t) as ->.
    { rewrite take_app_length' by done. rewrite (drop_app_ge _ _ (S i)) by lia.
      replace (S i - length (take i (mmap t)))%nat with 1%nat by lia. cbn. rewrite drop_0. apply take_drop. }
    exists false, (mmap t). split_and!; [done|by split|done|]. lia.
  - exists true, l'. split; [done|]. split; [by split|]. intros p c. by rewrite Ml, Hm'.
Qed.

Lemma cuts_free a b l : table_ok l → a < b → region_free (l ≫= cut a b) a b.
Proof.
  intros Hl Hab x Hx. apply list_elem_of_bind in Hx as (r&Hx&Hr). revert Hx. unfold cut.
  destruct (outside a b r) eqn:Ho; [intros ->%list_elem_of_singleton; by apply outside_true|].
  rewrite elem_of_app. destruct (vp r <? a), (b <? ve r); rewrite ?list_elem_of_singleton, ?elem_of_nil;
    intros [Hx|Hx]; try done; subst x; rewrite ?ve_sub, ?vp_sub; lia.
Qed.

Lemma inners_within a b l x : table_ok l → a < b → x ∈ l ≫= inner a b → a <= vp x ∧ ve x <= b.
Proof.
  intros Hl Hab Hx. apply list_elem_of_bind in Hx as (r&Hx&Hr). revert Hx. unfold inner.
  destruct (outside a b r); [by intros ?%elem_of_nil|]. intros ->%list_elem_of_singleton. rewrite vp_sub, ve_sub. lia.
Qed.

Lemma remove_ok a b l : table_inv l → a < b →
  ∃ c, carve l (a * PAGE) (b * PAGE) = Some c ∧
    match c with
    | Some (l', parts) => table_inv l' ∧ region_free l' a b ∧ (length l' <= S (length l))%nat ∧ parts = l ≫= inner a b ∧
        ∀ p x, maps l' p x ↔ maps l p x ∧ ¬ (a <= p < b)
    | None => zlen l = MAX_MMAP_REGIONS
    end.
Proof.
  intros [Ht Hn Hlen] Hab. rewrite carve_eq by done. eexists. split; [done|].
  pose proof (cuts_length a b l Ht Hab). destruct (Z.ltb_spec MAX_MMAP_REGIONS (zlen (l ≫= cut a b))); [lia|].
  split_and!; [|by apply cuts_free|done..|intros; by apply maps_cuts].
  split; [|by apply cuts_no_joins|done]. apply bind_table; [done|]. intros. by apply cut_parts.
Qed.

(** A range cut out and put back in parts adds at most two regions. *)
Lemma parts_length a b l : table_ok l → a < b →
  (length (l ≫= cut a b) + length (l ≫= inner a b) <= length l + 2)%nat ∧
  (Forall (λ r, (a <= vp r)%Z) l → length (l ≫= cut a b) + length (l ≫= inner a b) <= length l + 1)%nat ∧
  (Forall (λ r, (b <= vp r)%Z) l → length (l ≫= cut a b) + length (l ≫= inner a b) = length l)%nat.
Proof.
  intros Hl Hab. induction l as [|r l IH]; [cbn; split_and!; lia|].
  apply (table_app [r]) in Hl as (Hr&Hl&Hb). apply table_region with (r := r) in Hr; [|by constructor].
  destruct (IH Hl) as (I1&I2&I3). clear IH.
  assert (J2 : a <= ve r → Forall (λ r, a <= vp r) l).
  { intros. apply Forall_forall. intros s Hs. specialize (Hb r s ltac:(by constructor) Hs). unfold before in Hb. lia. }
  assert (J3 : b <= ve r → Forall (λ r, b <= vp r) l).
  { intros. apply Forall_forall. intros s Hs. specialize (Hb r s ltac:(by constructor) Hs). unfold before in Hb. lia. }
  cbn [mbind list_bind]. change (list_bind MmapRegion MmapRegion) with (@mbind list _ MmapRegion MmapRegion) in *.
  rewrite !length_app. rewrite !Forall_cons. cbn [length]. pose proof (region_nonempty _ Hr).
  assert (Hc : (length (cut a b r) + length (inner a b r) =
    1 + (if outside a b r then 0 else (if (vp r <? a)%Z then 1 else 0) + (if (b <? ve r)%Z then 1 else 0)))%nat).
  { unfold cut, inner. destruct (outside a b r); [done|]. rewrite length_app. by destruct (vp r <? a), (b <? ve r). }
  destruct (outside a b r) eqn:Ho.
  - split_and!; [lia|intros [_ Hx]; specialize (I2 Hx); lia|intros [_ Hx]; specialize (I3 Hx); lia].
  - apply outside_false in Ho as [O1 O2]. specialize (I2 (J2 ltac:(lia))).
    destruct (Z.ltb_spec (vp r) a), (Z.ltb_spec b (ve r)); try specialize (I3 (J3 ltac:(lia)));
      (split_and!; [lia|intros [? ?]; lia..]).
Qed.

Definition new_prot (prot_ q : Z) : Z := Z.lor prot_ (Z.land q KIND_FLAGS).

Lemma maps_reprotect prot_ l p c : maps (reprotect prot_ <$> l) p c ↔
  ∃ q f x, maps l p (q, f, x) ∧ c = (new_prot prot_ q, f, x).
Proof.
  unfold maps. setoid_rewrite list_elem_of_fmap. split.
  - intros (?&(r&->&Hr)&Hp&<-). exists (prot r), (file r), (content r p).2. split; [by exists r|done].
  - intros (q&f&x&(r&Hr&Hp&Hc)&->). injection Hc as <- <- <-. exists (reprotect prot_ r). split; [by exists r|done].
Qed.

Lemma reprotect_table prot_ l : table_ok l → table_ok (reprotect prot_ <$> l).
Proof.
  intros [H1 H2]. split.
  - apply Forall_fmap. eapply Forall_impl; [done|]. intros r [G1 G2 G3 G4 G5 G6]. by split.
  - apply (StronglySorted_fmap _ before); [done|]. done.
Qed.

Lemma set_prot_ok a b prot_ t : table_inv (mmap t) → 0 <= a → a < b → b * PAGE <= USER_WINDOW →
  ∃ ok l', mmap_set_prot (a * PAGE) (b - a) prot_ t = Some (ok, {| mmap := l'; mapped_files := mapped_files t |}) ∧
    table_inv l' ∧
    if ok : bool then ∀ p c, maps l' p c ↔
      (¬ (a <= p < b) ∧ maps (mmap t) p c) ∨
      (a <= p < b ∧ ∃ q f x, maps (mmap t) p (q, f, x) ∧ c = (new_prot prot_ q, f, x))
    else l' = mmap t ∧ MAX_MMAP_REGIONS < zlen l' + 2.
Proof.
  intros Hi Ha Hab Hw. unfold mmap_set_prot.
  rewrite add64_in by (unfold USER_WINDOW, PAGE in *; lia). cbn [mbind option_bind].
  replace (a * PAGE + (b - a) * PAGE) with (b * PAGE) by lia.
  destruct (remove_ok a b (mmap t) Hi Hab) as (c&E&Hc). pose proof E as E0. rewrite E. cbn [mbind option_bind].
  pose proof Hi as [Ht Hn Hlen]. destruct c as [[l parts]|].
  2:{ exists false, (mmap t).
      split; [by destruct t|]. split; [done|]. split; [done|lia]. }
  destruct Hc as (Hi'&Hf&_&->&Hm).
  assert (Tp : table_ok (reprotect prot_ <$> (mmap t ≫= inner a b))).
  { apply reprotect_table, bind_table; [done|]. intros. by apply inner_parts. }
  destruct (insert_table l (reprotect prot_ <$> (mmap t ≫= inner a b)) a b (ti_table _ Hi') Tp Hf) as [Ti Mi].
  { intros x (r&->&Hr)%list_elem_of_fmap.
    change (a <= vp r ∧ ve r <= b). by apply (inners_within a b (mmap t)). }
  destruct (coalesce_table _ Ti) as (l'&El&Tl&Nl&Ml&Ll&_). rewrite El. cbn [mbind option_bind].
  destruct (Z.ltb_spec MAX_MMAP_REGIONS (zlen l')) as [Hover|Hfit].
  - exists false, (mmap t). split; [by destruct t|]. split; [done|]. split; [done|].
    assert (l = mmap t ≫= cut a b) as ->.
    { rewrite carve_eq in E0 by done. destruct (_ <? _); [done|]. by injection E0 as ->. }
    destruct (parts_length a b (mmap t) Ht Hab) as (Hp&_). rewrite !length_app, length_fmap in Ll.
    rewrite <- (take_drop (partition_point (λ r, va r <? a * PAGE) (mmap t ≫= cut a b)) (mmap t ≫= cut a b)), length_app in Hp. lia.
  - exists true, l'. split; [done|]. split; [by split|]. intros p c. rewrite Ml, Mi, Hm, maps_reprotect.
    setoid_rewrite maps_inners; [|done]. naive_solver.
Qed.
