(* ===== verification/VmRefine.v ===== *)
(** * The mapping table refines a map from pages to what backs them

    A process's mappings as the specification sees them: for every page its
    protection and the page of a file it reads from.  Every operation of
    [Vm] is shown to do on the table what the specification says, or to fail
    without changing a mapping, for lack of room. *)

From S2P Require Import Prelude Vm VmFacts.
From stdpp Require Import list sorting.

Open Scope Z_scope.

(** ** The files of a process *)

(** Every region's file is there. *)
Definition files_ok (l : list MmapRegion) (files : list (option Z)) : Prop :=
  ∀ r, r ∈ l → file r ≠ 0 → ∃ node, files !! Z.to_nat (file r - 1) = Some (Some node).

(** Two file tables that give the regions of [l] the same files. *)
Definition files_agree (l : list MmapRegion) (files files' : list (option Z)) : Prop :=
  ∀ r, r ∈ l → file r ≠ 0 → files' !! Z.to_nat (file r - 1) = files !! Z.to_nat (file r - 1).

Record vm_ok (t : Process) : Prop := {
  vm_table : table_inv (mmap t);
  vm_files : files_ok (mmap t) (mapped_files t);
  vm_count : zlen (mapped_files t) <= MAX_MAPPED_FILES }.

Lemma drop_trailing_lookup l i x : drop_trailing l !! i = Some (Some x) ↔ l !! i = Some (Some x).
Proof.
  revert i. induction l as [|y l IH]; intros i; [done|]. cbn [drop_trailing].
  destruct y as [y|]; [destruct i; [done|apply IH]|].
  destruct (drop_trailing l) as [|z l'] eqn:E.
  - destruct i; [done|]. cbn. rewrite <- IH. done.
  - destruct i; [done|]. cbn. rewrite <- IH. done.
Qed.

Lemma drop_trailing_length l : (length (drop_trailing l) <= length l)%nat.
Proof.
  induction l as [|y l IH]; [done|]. cbn [drop_trailing]. destruct y; [cbn; lia|].
  destruct (drop_trailing l); cbn in *; lia.
Qed.

Lemma named_files_lookup l n i : named_files l n !! i = Some true ↔ (i < n)%nat ∧ ∃ r, r ∈ l ∧ file r = Z.of_nat i + 1.
Proof.
  unfold named_files. induction l as [|r l IH] using rev_ind.
  - cbn. rewrite lookup_replicate. split; [by intros [? _]|intros (_&r&?%elem_of_nil&_); done].
  - rewrite foldl_app. cbn [foldl]. setoid_rewrite elem_of_app. setoid_rewrite list_elem_of_singleton.
    assert (Hlen : length (foldl (λ named r, if file r <=? 0 then named else <[Z.to_nat (file r - 1):=true]> named) (replicate n false) l) = n).
    { clear. induction l as [|r l IH] using rev_ind; [apply length_replicate|]. rewrite foldl_app. cbn.
      destruct (file r <=? 0); [done|]. by rewrite length_insert. }
    destruct (Z.leb_spec (file r) 0) as [Hz|Hz].
    + rewrite IH. split; [naive_solver|]. intros (Hi&r'&[Hr'| ->]&Hf); [naive_solver|lia].
    + destruct (decide (i = Z.to_nat (file r - 1))) as [->|Hne].
      * destruct (decide (Z.to_nat (file r - 1) < n)%nat) as [Hlt|Hge].
        -- rewrite list_lookup_insert_eq by lia. split; [|done]. intros _. split; [done|]. exists r. split; [by right|lia].
        -- rewrite list_insert_ge by lia. rewrite IH. lia.
      * rewrite list_lookup_insert_ne by done. rewrite IH. split; [naive_solver|].
        intros (Hi&r'&[Hr'| ->]&Hf); [naive_solver|lia].
Qed.

(** Pruning lets go only of files no region names. *)
Lemma prune_lookup t i x : mapped_files (prune_files t) !! i = Some (Some x) ↔
  mapped_files t !! i = Some (Some x) ∧ ∃ r, r ∈ mmap t ∧ file r = Z.of_nat i + 1.
Proof.
  unfold prune_files. cbn [mapped_files]. rewrite drop_trailing_lookup, lookup_zip_with.
  pose proof (named_files_lookup (mmap t) (length (mapped_files t)) i) as Hn.
  destruct (mapped_files t !! i) as [y|] eqn:E; cbn [mbind option_bind]; [|naive_solver].
  apply lookup_lt_Some in E. destruct (named_files _ _ !! i) as [b|]; cbn [mbind option_bind].
  - destruct b; [|naive_solver]. destruct Hn as [Hn _]. specialize (Hn eq_refl). naive_solver.
  - split; [done|]. intros [_ Hr]. destruct Hn as [_ Hn]. by discriminate Hn.
Qed.

Lemma prune_length t : (length (mapped_files (prune_files t)) <= length (mapped_files t))%nat.
Proof.
  unfold prune_files. cbn [mapped_files]. etrans; [apply drop_trailing_length|]. rewrite length_zip_with. lia.
Qed.

Lemma prune_agrees t : files_ok (mmap t) (mapped_files t) → Forall region_ok (mmap t) →
  files_agree (mmap t) (mapped_files t) (mapped_files (prune_files t)).
Proof.
  intros Hf Hr r Hin Hz. destruct (Hf r Hin Hz) as [x Hx]. rewrite Hx. apply prune_lookup. split; [done|].
  exists r. split; [done|]. apply (proj1 (Forall_forall _ _) Hr) in Hin as [_ _ _ _ _ Hp]. destruct (Hp Hz). lia.
Qed.

Lemma files_agree_ok l files files' : files_ok l files → files_agree l files files' → files_ok l files'.
Proof. intros Hf Ha r Hr Hz. rewrite (Ha r Hr Hz). by apply Hf. Qed.

Lemma position_some {A} (f : A → bool) l i : position f l = Some i → ∃ x, l !! i = Some x ∧ f x = true.
Proof.
  revert i. induction l as [|y l IH]; intros i; [done|]. cbn [position]. destruct (f y) eqn:E.
  - intros [= <-]. by exists y.
  - destruct (position f l) as [j|]; [|done]. intros [= <-]. by apply IH.
Qed.

Lemma position_none_false {A} (f : A → bool) l : position f l = None → Forall (λ x, f x = false) l.
Proof.
  induction l as [|y l IH]; [constructor|]. cbn [position]. destruct (f y) eqn:E; [done|].
  destruct (position f l); [done|]. intros _. constructor; [done|]. by apply IH.
Qed.

(** No slot is left: every one holds a file that a region names. *)
Definition files_full (t : Process) : Prop :=
  ∀ i, 0 <= i < MAX_MAPPED_FILES → ∃ r, r ∈ mmap t ∧ file r = i + 1.

Lemma mapped_file_slot_ok t node : vm_ok t → ∃ res t', mapped_file_slot t node = (res, t') ∧
  mmap t' = mmap t ∧ files_agree (mmap t) (mapped_files t) (mapped_files t') ∧
  zlen (mapped_files t') <= MAX_MAPPED_FILES ∧
  match res with
  | Some i => mapped_files t' !! i = Some (Some node)
  | None => files_full t
  end.
Proof.
  intros [Hi Hf Hc]. unfold mapped_file_slot.
  destruct (position (holds_node node) (mapped_files t)) as [i|] eqn:Ep.
  { apply position_some in Ep as (x&Hx&E). apply bool_decide_eq_true in E as ->. exists (Some i), t. by split_and!. }
  set (t1 := if MAX_MAPPED_FILES <=? zlen (mapped_files t) then prune_files t else t).
  assert (mmap t1 = mmap t ∧ files_agree (mmap t) (mapped_files t) (mapped_files t1) ∧
    zlen (mapped_files t1) <= MAX_MAPPED_FILES) as (Hm&Ha&Hl).
  { subst t1. destruct (_ <=? _); [|done]. pose proof (prune_length t). split_and!; [done| |lia].
    apply prune_agrees; [done|]. apply Hi. }
  assert (Hkeep : ∀ i, mapped_files t1 !! i = Some None → ∀ files', (∀ j, j ≠ i → files' !! j = mapped_files t1 !! j) →
    files_agree (mmap t) (mapped_files t) files').
  { intros i Hnone files' Hsame r Hr Hz. rewrite <- (Ha r Hr Hz). apply Hsame. intros Heq.
    destruct (Hf r Hr Hz) as [x Hx]. rewrite <- Heq, (Ha r Hr Hz), Hx in Hnone. done. }
  destruct (position slot_free (mapped_files t1)) as [i|] eqn:Ef.
  { apply position_some in Ef as (x&Hx&E). apply bool_decide_eq_true in E as ->. eexists (Some i), _. split; [done|].
    cbn [mmap mapped_files]. pose proof (lookup_lt_Some _ _ _ Hx). split_and!; [done| |by rewrite length_insert|].
    - apply (Hkeep i Hx). intros j Hj. by apply list_lookup_insert_ne.
    - by apply list_lookup_insert_eq. }
  destruct (Z.ltb_spec (zlen (mapped_files t1)) MAX_MAPPED_FILES) as [Hlt|Hge].
  - eexists (Some _), _. split; [done|]. cbn [mmap mapped_files]. split_and!; [done| |rewrite length_app; cbn; lia|].
    + intros r Hr Hz. rewrite <- (Ha r Hr Hz). destruct (Hf r Hr Hz) as [x Hx]. rewrite <- (Ha r Hr Hz) in Hx.
      rewrite Hx. by apply lookup_app_l_Some.
    + by rewrite list_lookup_middle.
  - exists None, t1. split_and!; [done..|]. intros i Hib. apply position_none_false in Ef. rewrite Forall_forall in Ef.
    destruct (lookup_lt_is_Some_2 (mapped_files t1) (Z.to_nat i)) as [x Hx]; [lia|].
    pose proof (list_elem_of_lookup_2 _ _ _ Hx) as Hin. specialize (Ef x Hin). apply bool_decide_eq_false in Ef.
    destruct x as [x|]; [|done]. revert Hx. subst t1. destruct (Z.leb_spec MAX_MAPPED_FILES (zlen (mapped_files t))); [|lia].
    rewrite prune_lookup. intros (_&r&Hr&Hfr). exists r. split; [done|]. lia.
Qed.

(** ** The specification *)

(** What backs a page: protection, and the node and page of a file. *)
Abbreviation Backing := (Z * option (Z * Z))%type.
Abbreviation Mapping := (Z → option Backing).

Definition resolve (files : list (option Z)) (c : Z * Z * Z) : Backing :=
  (c.1.1, if c.1.2 =? 0 then None
          else match files !! Z.to_nat (c.1.2 - 1) with Some (Some node) => Some (node, c.2) | _ => None end).

Definition view (t : Process) : Mapping := λ p,
  match find (λ r, (vp r <=? p) && (p <? ve r)) (mmap t) with
  | Some r => Some (resolve (mapped_files t) (content r p))
  | None => None
  end.

Definition overlay (M : Mapping) (a n prot_ : Z) (file_ : option (Z * Z)) : Mapping := λ p,
  if bool_decide (a <= p < a + n)
  then Some (prot_, (λ f : Z * Z, (f.1, f.2 / PAGE + (p - a))) <$> file_)
  else M p.

Definition unmap (M : Mapping) (a n : Z) : Mapping := λ p, if bool_decide (a <= p < a + n) then None else M p.

Definition protect (M : Mapping) (a n prot_ : Z) : Mapping := λ p,
  if bool_decide (a <= p < a + n) then (λ v : Backing, (new_prot prot_ v.1, v.2)) <$> M p else M p.

Definition unmapped (M : Mapping) (a n : Z) : Prop := ∀ p, a <= p < a + n → M p = None.

(** The lowest free gap of [n] pages in [[lo, hi)]. *)
Definition lowest_gap (M : Mapping) (lo hi n g : Z) : Prop :=
  (lo <= g ∧ g + n <= hi ∧ unmapped M g n) ∧ ∀ g', lo <= g' → g' + n <= hi → unmapped M g' n → g <= g'.

Definition same (M M' : Mapping) : Prop := ∀ p, M p = M' p.

(** ** The conditions of an operation

    [do_mmap] and its siblings check the window, the alignment and the
    number of pages ([range_ok]).  Two conditions are not checked there: that
    the pages of a file mapping end at or below file page [u32::MAX]
    ([file_ok]; [do_mmap] looks at the first page alone, and
    [mmap_offset_panics] is what happens past the bound), and that the range
    of a fixed mapping is free when it is recorded ([do_mmap] has unmapped it
    in an earlier step; [fixed_mapping_race] is what another thread can do in
    between). *)
Definition file_ok (file_ : option (Z * Z)) (n : Z) : Prop :=
  match file_ with Some (_, off) => 0 <= off ∧ off / PAGE + n <= U32_MAX | None => True end.

Definition range_ok (va_ n : Z) : Prop := 0 <= va_ ∧ va_ mod PAGE = 0 ∧ 1 <= n ∧ va_ + n * PAGE <= USER_WINDOW.

Definition op_ok (M : Mapping) (op : VmOp) : Prop :=
  match op with
  | MmapAdd va_ n _ file_ => range_ok va_ n ∧ file_ok file_ n ∧ unmapped M (va_ / PAGE) n
  | MmapAddFree lo hi n _ file_ => 0 <= lo ∧ lo mod PAGE = 0 ∧ hi mod PAGE = 0 ∧ hi <= USER_WINDOW ∧ lo <= USER_WINDOW ∧
      1 <= n <= 2 ^ 24 ∧ file_ok file_ n
  | MmapRemove va_ n => range_ok va_ n
  | MmapSetProt va_ n _ => range_ok va_ n
  | ClearMmap => True
  end.

(** What an operation with its answer does to the mappings. *)
Definition spec_step (M : Mapping) (op : VmOp) (ans : VmAnswer) (M' : Mapping) : Prop :=
  match op, ans with
  | MmapAdd va_ n prot_ file_, Done true => same M' (overlay M (va_ / PAGE) n prot_ file_)
  | MmapAddFree lo hi n prot_ file_, Placed (Some va_) =>
      va_ mod PAGE = 0 ∧ lowest_gap M (lo / PAGE) (hi / PAGE) n (va_ / PAGE) ∧ same M' (overlay M (va_ / PAGE) n prot_ file_)
  | MmapRemove va_ n, Done true => same M' (unmap M (va_ / PAGE) n)
  | MmapSetProt va_ n prot_, Done true => same M' (protect M (va_ / PAGE) n prot_)
  | ClearMmap, Done true => same M' (λ _, None)
  | MmapAdd _ _ _ _, Done false | MmapAddFree _ _ _ _ _, Placed None
  | MmapRemove _ _, Done false | MmapSetProt _ _ _, Done false => same M' M
  | _, _ => False
  end.

(** When an operation may fail: the table of regions is full (a
    reprotection, which may make three regions of one, needs two places in
    it), all the places for files are taken, or there is no gap. *)
Definition may_fail (t : Process) (op : VmOp) : Prop :=
  let full := zlen (mmap t) = MAX_MMAP_REGIONS in
  match op with
  | MmapAdd _ _ _ file_ => full ∨ (file_ ≠ None ∧ files_full t)
  | MmapAddFree lo hi n _ file_ =>
      full ∨ (file_ ≠ None ∧ files_full t) ∨ ∀ g, ¬ lowest_gap (view t) (lo / PAGE) (hi / PAGE) n g
  | MmapRemove _ _ => full
  | MmapSetProt _ _ _ => MAX_MMAP_REGIONS < zlen (mmap t) + 2
  | ClearMmap => False
  end.

Definition failed (ans : VmAnswer) : Prop := ans = Done false ∨ ans = Placed None.

(** ** The table as the specification sees it *)

Lemma maps_unique l p c c' : table_ok l → maps l p c → maps l p c' → c = c'.
Proof.
  intros Hl (r&Hr&Hp&<-) (s&Hs&Hq&<-). destruct (table_order l r s Hl Hr Hs) as [<-|[H|H]]; [done|unfold before in H; lia..].
Qed.

Lemma view_some t p v : table_ok (mmap t) → view t p = Some v ↔ ∃ c, maps (mmap t) p c ∧ resolve (mapped_files t) c = v.
Proof.
  intros Ht. unfold view. destruct (find _ (mmap t)) as [r|] eqn:E.
  - apply find_some in E as [Hr Hp]. apply list_elem_of_In in Hr. bool_hyps.
    assert (Hm : maps (mmap t) p (content r p)) by (exists r; split_and!; (done || lia)).
    split; [intros [= <-]; by eexists|]. intros (c&Hc&<-). by rewrite (maps_unique _ _ _ _ Ht Hm Hc).
  - split; [done|]. intros (c&(r&Hr&Hp&Hc)&_). apply list_elem_of_In in Hr. pose proof (find_none _ _ E r Hr) as Hn.
    cbn in Hn. bool_hyps. lia.
Qed.

Lemma view_none t p : table_ok (mmap t) → view t p = None ↔ ∀ c, ¬ maps (mmap t) p c.
Proof.
  intros Ht. split.
  - intros Hv c Hc. assert (view t p = Some (resolve (mapped_files t) c)) by (apply view_some; [done|by exists c]). congruence.
  - intros Hn. destruct (view t p) as [v|] eqn:E; [|done]. apply view_some in E as (c&Hc&_); [|done]. by destruct (Hn c).
Qed.

Lemma resolve_agree l files files' p c : files_agree l files files' → maps l p c → resolve files' c = resolve files c.
Proof.
  intros Ha (r&Hr&_&<-). unfold resolve, content. cbn. destruct (Z.eqb_spec (file r) 0); [done|]. by rewrite (Ha r Hr).
Qed.

(** Tables that map a page alike, with files that agree, give one view of it. *)
Lemma view_same t t' p : table_ok (mmap t) → table_ok (mmap t') → files_agree (mmap t) (mapped_files t) (mapped_files t') →
  (∀ c, maps (mmap t') p c ↔ maps (mmap t) p c) → view t' p = view t p.
Proof.
  intros Ht Ht' Ha Hm. apply option_eq. intros v. rewrite !view_some by done. setoid_rewrite Hm.
  split; intros (c&Hc&<-); exists c; (split; [done|]); [symmetry|]; by apply (resolve_agree (mmap t) _ _ p).
Qed.

Lemma free_region t a n : table_ok (mmap t) → 1 <= n → unmapped (view t) a n → region_free (mmap t) a (a + n).
Proof.
  intros Ht Hn Hu x Hx. pose proof (region_nonempty _ (table_region _ _ Ht Hx)).
  destruct (decide (ve x <= a)) as [|H1]; [by left|]. destruct (decide (a + n <= vp x)) as [|H2]; [by right|]. exfalso.
  apply (proj1 (view_none t (Z.max a (vp x)) Ht) (Hu (Z.max a (vp x)) ltac:(lia)) (content x (Z.max a (vp x)))).
  exists x. split_and!; (done || lia).
Qed.

Lemma region_free_unmapped t a n : table_ok (mmap t) → region_free (mmap t) a (a + n) → unmapped (view t) a n.
Proof.
  intros Ht Hf p Hp. apply view_none; [done|]. intros c (r&Hr&Hq&_). destruct (Hf r Hr); lia.
Qed.

(** ** The operations *)

Lemma page_eq va_ : va_ mod PAGE = 0 → va_ = va_ / PAGE * PAGE.
Proof. unfold PAGE. intros. zdiv. Qed.

Lemma files_agree_refl l files : files_agree l files files.
Proof. done. Qed.

(** A new region in a free range: the mappings with it laid over. *)
Lemma insert_refines t t1 r file_ : vm_ok t → table_inv (mmap t1) → mmap t1 = mmap t →
  files_agree (mmap t) (mapped_files t) (mapped_files t1) → zlen (mapped_files t1) <= MAX_MAPPED_FILES →
  region_ok r → unmapped (view t) (vp r) (pages r) →
  (∀ p, resolve (mapped_files t1) (content r p) = (prot r, (λ f : Z * Z, (f.1, f.2 / PAGE + (p - vp r))) <$> file_)) →
  (file r ≠ 0 → ∃ node, mapped_files t1 !! Z.to_nat (file r - 1) = Some (Some node)) →
  ∃ ok t', insert_region r t1 = Some (ok, t') ∧ vm_ok t' ∧
    same (view t') (if ok then overlay (view t) (vp r) (pages r) (prot r) file_ else view t) ∧
    (ok = false → zlen (mmap t) = MAX_MMAP_REGIONS).
Proof.
  intros [Hi Hf Hc] Hi1 Hm Ha Hc1 Hr Hu Hres Hfile.
  assert (Hfree : region_free (mmap t1) (vp r) (ve r)).
  { rewrite Hm. apply free_region; [apply Hi|apply Hr|done]. }
  destruct (insert_region_ok r t1 Hi1 Hr Hfree) as (ok&l'&E&Hi'&Hspec). exists ok, {| mmap := l'; mapped_files := mapped_files t1 |}.
  split; [done|]. rewrite Hm in Hspec. destruct ok.
  - split_and!; [|intros p|done].
    + split; cbn; [done| |done]. intros x Hx Hz.
      assert (Hmx : maps l' (vp x) (content x (vp x))).
      { exists x. pose proof (region_nonempty _ (table_region _ _ (ti_table _ Hi') Hx)). split_and!; (done || lia). }
      apply Hspec in Hmx as [(y&Hy&_&Hcy)|(y&->%list_elem_of_singleton&_&Hcy)]; injection Hcy as _ Hfy _; rewrite <- Hfy in *.
      * rewrite (Ha y Hy Hz). by apply Hf.
      * by apply Hfile.
    + unfold overlay. destruct (bool_decide_reflect (vp r <= p < vp r + pages r)) as [Hp|Hp].
      * apply view_some; [apply Hi'|]. exists (content r p). split; [|apply Hres]. apply Hspec. right. by apply maps_single.
      * apply (view_same t); cbn; [apply Hi|apply Hi'|done|]. intros c. rewrite Hspec, maps_single. unfold ve. tauto.
  - destruct Hspec as [-> Hfull]. split_and!; [|intros p|done].
    + split; cbn; [done|by eapply files_agree_ok|done].
    + by apply (view_same t); cbn; [apply Hi|apply Hi|..].
Qed.

Lemma anon_region_ok va_ n prot_ : range_ok va_ n →
  region_ok {| va := va_; pages := n; prot := prot_; file := 0; fpage := 0 |}.
Proof.
  intros (H1&H2&H3&H4). pose proof (page_eq _ H2) as He. split; unfold ve, vp; cbn; try done.
  - unfold PAGE in *. lia.
  - lia.
Qed.

Lemma file_region_ok va_ n prot_ off i : range_ok va_ n → 0 <= off → off / PAGE + n <= U32_MAX → 0 <= i →
  region_ok {| va := va_; pages := n; prot := prot_; file := i + 1; fpage := (off / PAGE) mod 2 ^ 32 |}.
Proof.
  intros (H1&H2&H3&H4) Ho Hu Hi. pose proof (page_eq _ H2) as He.
  assert (Hd : 0 <= off / PAGE) by (apply Z.div_pos; unfold PAGE; lia).
  split; unfold ve, vp; cbn [va pages prot file fpage]; try done; try (unfold PAGE in *; lia).
  intros _. rewrite Z.mod_small by (unfold U32_MAX in *; lia). lia.
Qed.

Lemma add_region_refines t va_ n prot_ file_ : vm_ok t → range_ok va_ n → file_ok file_ n →
  unmapped (view t) (va_ / PAGE) n →
  ∃ ok t', add_region va_ n prot_ file_ t = Some (ok, t') ∧ vm_ok t' ∧
    same (view t') (if ok then overlay (view t) (va_ / PAGE) n prot_ file_ else view t) ∧
    (ok = false → zlen (mmap t) = MAX_MMAP_REGIONS ∨ (file_ ≠ None ∧ files_full t)).
Proof.
  intros Hv Hr Hf Hu. pose proof Hv as [Hi Hfs Hc]. unfold add_region. destruct file_ as [[node off]|].
  - destruct Hf as [Ho Hov]. destruct (mapped_file_slot_ok t node Hv) as (res&t1&->&Hm&Ha&Hc1&Hres). destruct res as [i|].
    + assert (Hd : 0 <= off / PAGE) by (apply Z.div_pos; unfold PAGE; lia).
      destruct (insert_refines t t1 {| va := va_; pages := n; prot := prot_; file := Z.of_nat i + 1; fpage := (off / PAGE) mod 2 ^ 32 |}
        (Some (node, off)) Hv) as (ok&t'&E&Hv'&Hs&Hfail); try done.
      * by rewrite Hm.
      * apply file_region_ok; (done || lia).
      * intros p. unfold resolve, content. cbn [prot file fpage fst snd]. rewrite (proj2 (Z.eqb_neq _ 0)) by lia.
        replace (Z.to_nat (Z.of_nat i + 1 - 1)) with i by lia. rewrite Hres. cbn [fmap option_fmap option_map fst snd].
        destruct Hr as (?&?&?&?). rewrite Z.mod_small by (unfold U32_MAX in *; lia). done.
      * intros _. exists node. cbn [file]. by replace (Z.to_nat (Z.of_nat i + 1 - 1)) with i by lia.
      * exists ok, t'. split_and!; try done. intros. left. auto.
    + exists false, t1. split_and!; [done| | |intros _; by right].
      * split; rewrite ?Hm; [done|by eapply files_agree_ok|done].
      * intros p. apply (view_same t); rewrite ?Hm; [apply Hi|apply Hi|done..].
  - destruct (insert_refines t t {| va := va_; pages := n; prot := prot_; file := 0; fpage := 0 |} None Hv)
      as (ok&t'&E&Hv'&Hs&Hfail); try done.
    + by apply anon_region_ok.
    + exists ok, t'. split_and!; try done. intros. left. auto.
Qed.

Lemma gap_from_ok n l : table_ok l → 1 <= n <= 2 ^ 24 → ∀ c, 0 <= c <= 2 ^ 27 →
  ∃ g, gap_from (n * PAGE) (c * PAGE) l = Some (g * PAGE) ∧ c <= g <= 2 ^ 27 ∧ region_free l g (g + n) ∧
    ∀ g', c <= g' → region_free l g' (g' + n) → g <= g'.
Proof.
  intros Hl Hn. induction l as [|r l IH]; intros c Hc.
  { exists c. split_and!; try done; try lia. by intros ? ?%elem_of_nil. }
  pose proof (table_region _ r Hl ltac:(by constructor)) as Hr. pose proof (region_nonempty _ Hr).
  apply (table_app [r]) in Hl as (_&Hl&Hb). cbn [gap_from]. rewrite (region_end_eq r), (ok_aligned r) by done.
  assert (Hw : ve r <= 2 ^ 27) by (pose proof (ok_window r Hr); unfold USER_WINDOW, PAGE in *; lia).
  pose proof (ok_start r Hr).
  destruct (Z.leb_spec (ve r * PAGE) (c * PAGE)) as [H1|H1].
  - destruct (IH Hl c Hc) as (g&->&Hg&Hf&Hmin). exists g. split_and!; try done; try lia.
    + intros x [->|Hx]%elem_of_cons; [left; unfold PAGE in *; lia|by apply Hf].
    + intros g' Hg' Hf'. apply Hmin; [done|]. intros x Hx. apply Hf'. by constructor.
  - rewrite add64_in by (unfold PAGE; lia). cbn [mbind option_bind].
    rewrite <- Z.mul_add_distr_r. destruct (Z.leb_spec ((c + n) * PAGE) (vp r * PAGE)) as [H2|H2].
    + exists c. split_and!; try done; try lia. intros x [->|Hx]%elem_of_cons; [right; unfold PAGE in *; lia|right].
      specialize (Hb r x ltac:(by constructor) Hx). unfold before, PAGE in *. lia.
    + destruct (IH Hl (ve r)) as (g&->&Hg&Hf&Hmin); [lia|]. exists g. split_and!; try done; try (unfold PAGE in *; lia).
      * intros x [->|Hx]%elem_of_cons; [left; lia|by apply Hf].
      * intros g' Hg' Hf'. apply Hmin; [|intros x Hx; apply Hf'; by constructor].
        destruct (Hf' r ltac:(by constructor)); [done|]. unfold PAGE in *. lia.
Qed.

Lemma free_gap_ok t a b n : table_ok (mmap t) → 1 <= n <= 2 ^ 24 → 0 <= a <= 2 ^ 27 →
  match free_gap (mmap t) (a * PAGE) (b * PAGE) (n * PAGE) with
  | Some va_ => ∃ g, va_ = g * PAGE ∧ g <= 2 ^ 27 ∧ lowest_gap (view t) a b n g
  | None => ∀ g, ¬ lowest_gap (view t) a b n g
  end.
Proof.
  intros Ht Hn Ha. unfold free_gap. destruct (gap_from_ok n (mmap t) Ht Hn a Ha) as (g&->&Hg&Hf&Hmin).
  cbn [mbind option_bind]. rewrite add64_in by (unfold PAGE; lia). cbn [mbind option_bind].
  rewrite <- Z.mul_add_distr_r. assert (Hfree : ∀ g', unmapped (view t) g' n → region_free (mmap t) g' (g' + n)).
  { intros. by apply free_region; [|lia|]. }
  destruct (Z.leb_spec ((g + n) * PAGE) (b * PAGE)) as [Hfit|Hno].
  - exists g. split_and!; [done|lia|]. split.
    + split_and!; [lia|unfold PAGE in *; lia|by apply region_free_unmapped].
    + intros g' Hg' _ Hu. apply Hmin; [done|]. by apply Hfree.
  - intros g' [(H1&H2&H3) _]. specialize (Hmin g' H1 (Hfree g' H3)). unfold PAGE in *. lia.
Qed.

Lemma remove_refines t va_ n : vm_ok t → range_ok va_ n → ∃ ok t', mmap_remove va_ n t = Some (ok, t') ∧ vm_ok t' ∧
  same (view t') (if ok then unmap (view t) (va_ / PAGE) n else view t) ∧
  (ok = false → zlen (mmap t) = MAX_MMAP_REGIONS).
Proof.
  intros [Hi Hf Hc] (H1&H2&H3&H4). unfold mmap_remove.
  rewrite add64_in by (unfold USER_WINDOW, PAGE in *; lia). cbn [mbind option_bind].
  pose proof (page_eq _ H2) as He. set (a := va_ / PAGE) in *. replace (va_ + n * PAGE) with ((a + n) * PAGE) by (unfold PAGE in *; lia).
  rewrite He. destruct (remove_ok a (a + n) (mmap t) Hi ltac:(lia)) as (c&->&Hcase). cbn [mbind option_bind].
  set (l' := match c with Some (l, _) => l | None => mmap t end).
  assert (table_inv l' ∧ ∀ p x, maps l' p x → maps (mmap t) p x) as [Hi' Hsub].
  { subst l'. destruct c as [[l parts]|]; [|done]. destruct Hcase as (?&_&_&_&Hm). split; [done|]. intros p x. rewrite Hm. tauto. }
  assert (Hfl : files_ok l' (mapped_files t)).
  { intros x Hx Hz. assert (maps l' (vp x) (content x (vp x))) as (y&Hy&_&Hcy)%Hsub.
    { exists x. pose proof (region_nonempty _ (table_region _ _ (ti_table _ Hi') Hx)). split_and!; (done || lia). }
    injection Hcy as _ Hfy _. rewrite <- Hfy in *. by apply Hf. }
  set (t1 := {| mmap := l'; mapped_files := mapped_files t |}).
  assert (Ha1 : files_agree l' (mapped_files t) (mapped_files (prune_files t1))).
  { apply (prune_agrees t1); [done|]. apply Hi'. }
  assert (Hv1 : vm_ok (prune_files t1)).
  { split; [done|by eapply files_agree_ok|]. pose proof (prune_length t1). cbn in *. lia. }
  assert (Hview : ∀ p, view (prune_files t1) p = view t1 p).
  { intros p. apply view_same; [apply Hi'..|done|done]. }
  destruct c as [[l parts]|]; cbn.
  - exists true, (prune_files t1). split_and!; [done..| |done]. intros p. rewrite Hview. unfold unmap.
    destruct Hcase as (_&_&_&_&Hm). destruct (bool_decide_reflect (a <= p < a + n)) as [Hp|Hp].
    + apply view_none; [apply Hi'|]. intros x Hx. cbn in Hx. apply Hm in Hx. tauto.
    + apply view_same; [apply Hi|apply Hi'|done|]. intros x. change (maps l p x ↔ maps (mmap t) p x). rewrite Hm. tauto.
  - exists false, (prune_files t1). split_and!; [done..| |done]. intros p. rewrite Hview. subst t1 l'. by destruct t.
Qed.

Lemma set_prot_refines t va_ n prot_ : vm_ok t → range_ok va_ n → ∃ ok t', mmap_set_prot va_ n prot_ t = Some (ok, t') ∧ vm_ok t' ∧
  same (view t') (if ok then protect (view t) (va_ / PAGE) n prot_ else view t) ∧
  (ok = false → MAX_MMAP_REGIONS < zlen (mmap t) + 2).
Proof.
  intros [Hi Hf Hc] (H1&H2&H3&H4). pose proof (page_eq _ H2) as He. set (a := va_ / PAGE) in *.
  destruct (set_prot_ok a (a + n) prot_ t Hi) as (ok&l'&E&Hi'&Hspec); [subst a; apply Z.div_pos; unfold PAGE; lia|lia|unfold PAGE in *; lia|].
  rewrite He. replace (a + n - a) with n in E by lia. exists ok, {| mmap := l'; mapped_files := mapped_files t |}.
  split; [done|]. destruct ok.
  - split_and!; [|intros p|done].
    + split; cbn; [done| |done]. intros x Hx Hz.
      assert (maps l' (vp x) (content x (vp x))) as Hm.
      { exists x. pose proof (region_nonempty _ (table_region _ _ (ti_table _ Hi') Hx)). split_and!; (done || lia). }
      apply Hspec in Hm as [[_ (y&Hy&_&Hcy)]|(_&q&f&o&(y&Hy&_&Hcy)&Hcx)].
      * injection Hcy as _ Hfy _. rewrite <- Hfy in *. by apply Hf.
      * injection Hcy as _ Hfy _. injection Hcx as _ Hfx _. rewrite Hfx, <- Hfy in *. by apply Hf.
    + unfold protect. destruct (bool_decide_reflect (a <= p < a + n)) as [Hp|Hp].
      * apply option_eq. intros v. rewrite view_some by apply Hi'. cbn [mmap mapped_files].
        assert (Hs : ((λ v : Backing, (new_prot prot_ v.1, v.2)) <$> view t p) = Some v ↔
          ∃ c, maps (mmap t) p c ∧ (new_prot prot_ (resolve (mapped_files t) c).1, (resolve (mapped_files t) c).2) = v).
        { rewrite fmap_Some. setoid_rewrite view_some; [|apply Hi]. naive_solver. }
        rewrite Hs. setoid_rewrite Hspec. split.
        -- intros (c&[[? _]|(_&q&f&o&Hm&->)]&<-); [done|]. exists (q, f, o). done.
        -- intros ([[q f] o]&Hm&<-). eexists. split; [right; split; [done|]; by eexists _, _, _|done].
      * apply (view_same t); cbn; [apply Hi|apply Hi'|done|]. intros c. rewrite Hspec. tauto.
  - destruct Hspec as [-> Hfull]. destruct t. by split_and!.
Qed.

Lemma clear_refines t : vm_ok t → vm_ok (clear_mmap t) ∧ same (view (clear_mmap t)) (λ _, None).
Proof.
  intros [Hi Hf Hc]. split; [|done]. pose proof (prune_length {| mmap := []; mapped_files := mapped_files t |}) as Hp.
  split; cbn in *; [|by intros ? ?%elem_of_nil|lia].
  split; [apply table_nil|by intros ? ? ?%elem_of_nil|unfold MAX_MMAP_REGIONS; cbn; lia].
Qed.

(** One operation on the table is one step of the specification. *)
Lemma vm_step_refines t op : vm_ok t → op_ok (view t) op → ∃ ans t', vm_step op t = Some (ans, t') ∧ vm_ok t' ∧
  spec_step (view t) op ans (view t') ∧ (failed ans → may_fail t op).
Proof.
  intros Hv Ho. unfold failed, may_fail. destruct op as [va_ n prot_ file_|lo hi n prot_ file_|va_ n|va_ n prot_|]; cbn [op_ok vm_step] in *.
  - destruct Ho as (Hr&Hf&Hu). destruct (add_region_refines t va_ n prot_ file_ Hv Hr Hf Hu) as (ok&t'&->&Hv'&Hs&Hfail).
    cbn [mbind option_bind]. eexists _, t'. split_and!; [done..|by destruct ok|].
    intros [[= ->]|[=]]. by apply Hfail.
  - destruct Ho as (H1&H2&H3&H4&H5&Hn&Hf). unfold mmap_add_free.
    pose proof (free_gap_ok t (lo / PAGE) (hi / PAGE) n (ti_table _ (vm_table _ Hv)) Hn) as Hg.
    rewrite <- (page_eq lo H2), <- (page_eq hi H3) in Hg.
    specialize (Hg ltac:(split; [apply Z.div_pos; unfold PAGE; lia|]; pose proof (page_eq _ H2); unfold USER_WINDOW, PAGE in *; lia)).
    destruct (free_gap _ _ _ _) as [va_|].
    + destruct Hg as (g&->&Hgw&Hlow). pose proof Hlow as [(G1&G2&G3) _].
      assert (0 <= lo / PAGE) by (apply Z.div_pos; unfold PAGE; lia).
      assert (Hr : range_ok (g * PAGE) n).
      { split_and!; [unfold PAGE; lia|unfold PAGE; apply Z.mod_mul; lia|lia|].
        pose proof (page_eq _ H3). unfold USER_WINDOW, PAGE in *. lia. }
      destruct (add_region_refines t (g * PAGE) n prot_ file_ Hv Hr Hf ltac:(by rewrite page_div0)) as (ok&t'&->&Hv'&Hs&Hfail).
      rewrite page_div0 in Hs. cbn [mbind option_bind]. eexists _, t'. split_and!; [done..| |].
      * destruct ok; cbn; [|done]. rewrite page_div0. split_and!; [|done..]. by destruct Hr as (_&?&_).
      * destruct ok; [by intros [[=]|[=]]|]. intros _. destruct Hfail as [?|?]; [done|by left|]. right. by left.
    + eexists _, t. split_and!; [done..|]. intros _. right. by right.
  - destruct (remove_refines t va_ n Hv Ho) as (ok&t'&->&Hv'&Hs&Hfail). cbn [mbind option_bind]. eexists _, t'.
    split_and!; [done..|by destruct ok|]. intros [[= ->]|[=]]. by apply Hfail.
  - destruct (set_prot_refines t va_ n prot_ Hv Ho) as (ok&t'&->&Hv'&Hs&Hfail). cbn [mbind option_bind]. eexists _, t'.
    split_and!; [done..|by destruct ok|]. intros [[= ->]|[=]]. by apply Hfail.
  - destruct (clear_refines t Hv) as [Hv' Hs]. eexists _, _. split_and!; [done..|]. by intros [[=]|[=]].
Qed.

(** ** Runs *)

Definition empty_process : Process := {| mmap := []; mapped_files := [] |}.

Fixpoint vm_run (ops : list VmOp) (t : Process) : option (list VmAnswer * Process) :=
  match ops with
  | [] => Some ([], t)
  | op :: ops => '(ans, t) ← vm_step op t; '(rest, t) ← vm_run ops t; Some (ans :: rest, t)
  end.

(** Each operation meets its caller's checks when its turn comes. *)
Fixpoint admissible (ops : list VmOp) (t : Process) : Prop :=
  match ops with
  | [] => True
  | op :: ops => op_ok (view t) op ∧ ∀ ans t', vm_step op t = Some (ans, t') → admissible ops t'
  end.

Fixpoint spec_run (M : Mapping) (ops : list VmOp) (answers : list VmAnswer) (M' : Mapping) : Prop :=
  match ops, answers with
  | [], [] => same M' M
  | op :: ops, ans :: answers => ∃ M1, spec_step M op ans M1 ∧ spec_run M1 ops answers M'
  | _, _ => False
  end.

Lemma empty_ok : vm_ok empty_process.
Proof.
  split; cbn; [|by intros ? ?%elem_of_nil|unfold MAX_MAPPED_FILES; lia].
  split; [apply table_nil|by intros ? ? ?%elem_of_nil|unfold MAX_MMAP_REGIONS; cbn; lia].
Qed.

Lemma vm_run_refines ops t : vm_ok t → admissible ops t → ∃ answers t', vm_run ops t = Some (answers, t') ∧ vm_ok t' ∧
  spec_run (view t) ops answers (view t').
Proof.
  revert t. induction ops as [|op ops IH]; intros t Hv Ha; [by exists [], t|]. destruct Ha as [Ho Ha].
  destruct (vm_step_refines t op Hv Ho) as (ans&t1&E&Hv1&Hs&_). destruct (IH t1 Hv1 (Ha _ _ E)) as (answers&t'&E'&Hv'&Hs').
  exists (ans :: answers), t'. cbn. rewrite E. cbn. rewrite E'. split_and!; try done. by exists (view t1).
Qed.

(** ** Looking up *)

Lemma partition_point_ext {A} (f g : A → bool) l : (∀ x, x ∈ l → f x = g x) → partition_point f l = partition_point g l.
Proof.
  induction l as [|x l IH]; intros H; [done|]. cbn. rewrite (H x) by constructor.
  rewrite IH; [done|]. intros y Hy. apply H. by constructor.
Qed.

Lemma page_le p addr : p * PAGE <= addr ↔ p <= addr / PAGE.
Proof. unfold PAGE. split; intros; zdiv. Qed.

Lemma region_at_ok l addr : table_ok l →
  match region_at l addr with
  | Some r => r ∈ l ∧ vp r <= addr / PAGE < ve r
  | None => ∀ r, r ∈ l → ¬ (vp r <= addr / PAGE < ve r)
  end.
Proof.
  intros Hl. unfold region_at.
  rewrite (partition_point_ext _ (λ r, region_end r <=? addr / PAGE * PAGE)); cycle 1.
  { intros r Hr. rewrite region_end_eq by (by eapply table_region). apply eq_iff_eq_true.
    rewrite !Z.leb_le, !page_le, page_div0. done. }
  destruct (split_ends l (addr / PAGE) Hl) as (l1&l2&->&->&H1&H2). rewrite Forall_forall in H1, H2.
  rewrite lookup_app_r, Nat.sub_diag by done.
  apply table_app in Hl as (_&Hl&_). destruct l2 as [|r l2]; cbn.
  - intros r. rewrite app_nil_r. intros Hr. specialize (H1 r Hr). lia.
  - pose proof (table_region _ r Hl ltac:(by constructor)) as Hr. specialize (H2 r ltac:(by constructor)) as Hre.
    rewrite (ok_aligned r Hr). destruct (Z.leb_spec (vp r * PAGE) addr) as [Hp|Hp].
    + split; [apply elem_of_app; right; by constructor|]. apply page_le in Hp. lia.
    + intros x [Hx|[->|Hx]%elem_of_cons]%elem_of_app; [specialize (H1 x Hx); lia| |].
      * intros [Hq _]. apply page_le in Hq. lia.
      * apply (table_app [r]) in Hl as (_&_&Hb). specialize (Hb r x ltac:(by constructor) Hx). unfold before in Hb.
        intros [Hq _]. pose proof (region_nonempty _ Hr). assert (vp r <= addr / PAGE) as ?%page_le by lia. lia.
Qed.

Lemma view_region t r p : table_ok (mmap t) → r ∈ mmap t → vp r <= p < ve r →
  view t p = Some (resolve (mapped_files t) (content r p)).
Proof. intros Ht Hr Hp. apply view_some; [done|]. exists (content r p). split; [|done]. by exists r. Qed.

Definition shift (i : Z) (v : Backing) : Backing := (v.1, (λ f : Z * Z, (f.1, f.2 + i)) <$> v.2).

Lemma resolve_shift files r p i : resolve files (content r (p + i)) = shift i (resolve files (content r p)).
Proof.
  unfold resolve, content, shift. cbn. destruct (file r =? 0); [done|].
  destruct (files !! Z.to_nat (file r - 1)) as [[node|]|]; cbn; [|done..]. do 3 f_equal. lia.
Qed.

Lemma backing_exact t addr : vm_ok t → 0 <= addr →
  match mmap_backing t addr with
  | Some (q, f, n) => ∃ g, view t (addr / PAGE) = Some (q, g) ∧ f = (λ x : Z * Z, (x.1, x.2 * PAGE)) <$> g ∧
      1 <= n ∧ ∀ i, 0 <= i < n → view t (addr / PAGE + i) = Some (shift i (q, g))
  | None => view t (addr / PAGE) = None
  end.
Proof.
  intros [Hi Hf _] Ha. unfold mmap_backing. pose proof (region_at_ok (mmap t) addr (ti_table _ Hi)) as Hr.
  destruct (region_at (mmap t) addr) as [r|].
  - destruct Hr as [Hr Hp]. pose proof (table_region _ _ (ti_table _ Hi) Hr) as Or.
    pose proof (view_region t r (addr / PAGE) (ti_table _ Hi) Hr Hp) as Hv.
    assert (Hleft : (region_end r - (addr - addr mod PAGE)) / PAGE = ve r - addr / PAGE).
    { rewrite region_end_eq by done. replace (addr - addr mod PAGE) with (addr / PAGE * PAGE) by (unfold PAGE; zdiv).
      rewrite <- Z.mul_sub_distr_r. apply page_div0. }
    assert (Hoff : (addr - va r) / PAGE = addr / PAGE - vp r).
    { rewrite (ok_aligned r Or). unfold PAGE. zdiv. }
    rewrite Hleft, Hoff. exists (resolve (mapped_files t) (content r (addr / PAGE))).2. split_and!; [done| |lia|].
    + unfold resolve, content. cbn. destruct (file r =? 0); [done|].
      by destruct (mapped_files t !! Z.to_nat (file r - 1)) as [[node|]|].
    + intros i Hib. rewrite (view_region t r) by (apply Hi || done || lia). by rewrite resolve_shift.
  - apply view_none; [apply Hi|]. intros c (r&Hin&Hp&_). by apply (Hr r Hin).
Qed.

(** How many regions lie past an address: what the walk of a range counts down. *)
Definition past (l : list MmapRegion) (cur : Z) : nat := length (filter (λ r, cur / PAGE < ve r) l).

Lemma past_less l cur r : table_ok l → r ∈ l → vp r <= cur / PAGE < ve r → (past l (region_end r) < past l cur)%nat.
Proof.
  intros Hl Hr Hp. unfold past. rewrite region_end_eq, page_div0 by (by eapply table_region).
  induction l as [|x l IH]; [by apply elem_of_nil in Hr|]. apply (table_app [x]) in Hl as (_&Hl&Hb).
  rewrite !filter_cons. assert (Hmono : ∀ k, (length (filter (λ y : MmapRegion, (ve r < ve y)%Z) k) <=
      length (filter (λ y : MmapRegion, (cur / PAGE < ve y)%Z) k))%nat).
  { clear -Hp. induction k as [|y k IH]; [done|]. rewrite !filter_cons.
    destruct (decide (ve r < ve y)), (decide (cur / PAGE < ve y)); cbn; lia. }
  apply elem_of_cons in Hr as [->|Hr].
  - rewrite (decide_False (P := ve x < ve x)), (decide_True (P := cur / PAGE < ve x)) by lia.
    specialize (Hmono l). cbn. lia.
  - specialize (IH Hl Hr). destruct (decide (ve r < ve x)), (decide (cur / PAGE < ve x)); cbn; lia.
Qed.

Lemma range_in_from_ok t end_ fuel cur : vm_ok t → 0 <= cur → (past (mmap t) cur < fuel)%nat →
  ∃ b, range_in_from fuel (mmap t) cur end_ = Some b ∧ (b = true ↔ ∀ a, cur <= a < end_ → view t (a / PAGE) ≠ None).
Proof.
  intros Hv. revert cur. induction fuel as [|fuel IH]; intros cur Hc Hf; [lia|]. cbn [range_in_from].
  pose proof (ti_table _ (vm_table _ Hv)) as Ht.
  destruct (Z.ltb_spec cur end_) as [Hlt|Hge]; [|exists true; split; [done|]; split; [lia|done]].
  pose proof (region_at_ok (mmap t) cur Ht) as Hr. destruct (region_at (mmap t) cur) as [r|].
  - destruct Hr as [Hr Hp]. pose proof (table_region _ _ Ht Hr) as Or. pose proof (past_less _ _ _ Ht Hr Hp).
    pose proof (region_end_eq r Or) as He. assert (Hle : cur < ve r * PAGE) by (unfold PAGE in *; zdiv).
    destruct (IH (region_end r)) as (b&->&Hb); [lia..|]. exists b. split; [done|]. rewrite Hb. split.
    + intros Hall a Ha. destruct (Z.lt_ge_cases a (region_end r)) as [Hin|]; [|by apply Hall; lia].
      rewrite (view_region t r) by (done || (rewrite He in Hin; unfold PAGE in *; zdiv)). done.
    + intros Hall a Ha. apply Hall. lia.
  - exists false. split; [done|]. split; [done|]. intros Hall. exfalso. apply (Hall cur ltac:(lia)).
    apply view_none; [done|]. intros c (r&Hin&Hp&_). by apply (Hr r Hin).
Qed.

Lemma range_in_exact t ptr len : vm_ok t → 0 <= ptr → 0 <= len →
  ∃ b, mmap_range_in (mmap t) ptr len = Some b ∧
    (ptr + len <= U64_MAX → (b = true ↔ ∀ a, ptr <= a < ptr + len → view t (a / PAGE) ≠ None)).
Proof.
  intros Hv Hp Hl. unfold mmap_range_in. destruct (Z.eqb_spec len 0) as [->|Hz].
  { exists true. split; [done|]. intros _. split; [lia|done]. }
  unfold add64, fits. destruct (_ && _) eqn:E.
  - destruct (range_in_from_ok t (ptr + len) (S (length (mmap t))) ptr Hv Hp) as (b&->&Hb).
    { unfold past. pose proof (length_filter (λ r, ptr / PAGE < ve r) (mmap t)). lia. }
    exists b. by split.
  - exists false. split; [done|]. intros Hu. exfalso. bool_hyps. unfold U64_MAX in *. lia.
Qed.

(** ** The properties *)

(** C3: a process's mapping table refines a map from pages to what backs
    them: over any sequence of operations in the user window, whose file
    mappings end at or below file page [u32::MAX] and whose fixed mappings
    are made over free pages, no operation panics; a mapping added, removed
    or re-protected changes exactly its pages, a mapping placed by the kernel
    goes to the lowest gap that holds it, and an operation that fails changes
    no mapping, and does so only when the table of regions is full (for a
    re-protection: has less than two places left), a file's place is wanted
    and none is left, or no gap is there. *)
Theorem mmap_refines_pages ops : admissible ops empty_process →
  ∃ answers t, vm_run ops empty_process = Some (answers, t) ∧ vm_ok t ∧ spec_run (λ _, None) ops answers (view t) ∧
    ∀ op, op_ok (view t) op → ∃ ans t', vm_step op t = Some (ans, t') ∧ (failed ans → may_fail t op).
Proof.
  intros Ha. destruct (vm_run_refines ops empty_process empty_ok Ha) as (answers&t&E&Hv&Hs). exists answers, t.
  split_and!; try done. intros op Ho. destruct (vm_step_refines t op Hv Ho) as (ans&t'&E'&_&_&Hf). by exists ans, t'.
Qed.

(** Three pages placed at 1 GiB, the middle one made read-only, then
    unmapped. *)
Definition split_run : list VmOp :=
  [MmapAddFree 0x40000000 0x40010000 3 3 None; MmapSetProt 0x40001000 1 1; MmapRemove 0x40001000 1].

Lemma mmap_refines_pages_witness :
  admissible split_run empty_process ∧
  ∃ t, vm_run split_run empty_process = Some ([Placed (Some 0x40000000); Done true; Done true], t) ∧ vm_ok t.
Proof.
  assert (Ha : admissible split_run empty_process).
  { unfold split_run. cbn [admissible]. split.
    - unfold op_ok, file_ok, USER_WINDOW, PAGE. split_and!; (done || lia).
    - intros ? ? _. unfold op_ok, range_ok. split; [unfold USER_WINDOW, PAGE; split_and!; (done || lia)|].
      intros ? ? _. unfold op_ok, range_ok. split; [unfold USER_WINDOW, PAGE; split_and!; (done || lia)|done]. }
  split; [done|]. destruct (mmap_refines_pages split_run Ha) as (answers&t&E&Hv&_). exists t. split; [|done].
  assert (Hx : fst <$> vm_run split_run empty_process = Some [Placed (Some 0x40000000); Done true; Done true])
    by (vm_compute; reflexivity).
  rewrite E in Hx. cbn in Hx. injection Hx as ->. done.
Defined.

(** The fault handler finds what backs an address exactly as the pages'
    map has it, with how far the mapping goes on from there; and a range of
    user memory counts as mapped exactly when every page of it is. *)
Theorem mmap_lookup_exact ops answers t : admissible ops empty_process → vm_run ops empty_process = Some (answers, t) →
  (∀ addr, 0 <= addr →
    match mmap_backing t addr with
    | Some (q, f, n) => ∃ g, view t (addr / PAGE) = Some (q, g) ∧ f = (λ x : Z * Z, (x.1, x.2 * PAGE)) <$> g ∧
        1 <= n ∧ ∀ i, 0 <= i < n → view t (addr / PAGE + i) = Some (shift i (q, g))
    | None => view t (addr / PAGE) = None
    end) ∧
  (∀ ptr len, 0 <= ptr → 0 <= len → ∃ b, mmap_range_in (mmap t) ptr len = Some b ∧
    (ptr + len <= U64_MAX → (b = true ↔ ∀ a, ptr <= a < ptr + len → view t (a / PAGE) ≠ None))).
Proof.
  intros Ha E. destruct (vm_run_refines ops empty_process empty_ok Ha) as (answers'&t'&E'&Hv&_).
  rewrite E in E'. injection E' as <- <-. split; intros; [by apply backing_exact|by apply range_in_exact].
Qed.

Lemma mmap_lookup_exact_witness :
  match vm_run (take 2 split_run) empty_process with
  | Some (_, t) => view t (0x40001fff / PAGE) = Some (1, None)
  | None => False
  end.
Proof.
  assert (Ha : admissible (take 2 split_run) empty_process).
  { unfold split_run. cbn [take admissible]. split.
    - unfold op_ok, file_ok, USER_WINDOW, PAGE. split_and!; (done || lia).
    - intros ? ? _. unfold op_ok, range_ok. split; [unfold USER_WINDOW, PAGE; split_and!; (done || lia)|done]. }
  destruct (vm_run (take 2 split_run) empty_process) as [[answers t]|] eqn:E; [|by vm_compute in E].
  destruct (mmap_lookup_exact (take 2 split_run) answers t Ha E) as [Hb _]. specialize (Hb 0x40001fff ltac:(lia)).
  assert (Hx : mmap_backing t 0x40001fff = Some (1, None, 1)).
  { assert (Hy : (λ a : list VmAnswer * Process, mmap_backing a.2 0x40001fff) <$> vm_run (take 2 split_run) empty_process =
      Some (Some (1, None, 1))) by (vm_compute; reflexivity).
    rewrite E in Hy. by injection Hy. }
  rewrite Hx in Hb. destruct Hb as (g&Hv&Hg&_). destruct g; [done|]. exact Hv.
Defined.

(** A file mapping at the last page offset that [do_mmap] lets through
    makes the next mapping of the file with the same protection panic: the
    join test adds the region's pages to its file page in 32 bits. *)
Theorem mmap_offset_panics node prot_ off : 
  let far := U32_MAX * PAGE in
  offset_ok far PAGE = true ∧
  ∃ t, vm_step (MmapAddFree 0x40000000 0x40010000 1 prot_ (Some (node, far))) empty_process = Some (Placed (Some 0x40000000), t) ∧
    vm_step (MmapAddFree 0x40000000 0x40010000 1 prot_ (Some (node, off))) t = None.
Proof.
  cbn zeta. split; [done|].
  exists {| mmap := [{| va := 0x40000000; pages := 1; prot := prot_; file := 1; fpage := U32_MAX |}]; mapped_files := [Some node] |}.
  split; [reflexivity|]. set (t := {| mmap := _ |}). cbn [vm_step].
  assert (Hslot : mapped_file_slot t node = (Some 0%nat, t)).
  { unfold mapped_file_slot, holds_node. cbn [t mapped_files position]. by rewrite bool_decide_eq_true_2. }
  assert (Hadd : ∀ fp, insert_region {| va := 0x40001000; pages := 1; prot := prot_; file := 1; fpage := fp |} t = None).
  { intros fp. unfold insert_region. change (partition_point _ (mmap t)) with 1%nat.
    cbn [t mmap take drop app coalesce coalesce_from]. unfold joinable at 1. cbn [prot file fpage pages va].
    by rewrite !Z.eqb_refl. }
  unfold mmap_add_free. change (free_gap (mmap t) 0x40000000 0x40010000 (1 * PAGE)) with (Some 0x40001000).
  cbn [mbind option_bind]. unfold add_region. rewrite Hslot. change (Z.of_nat 0 + 1) with 1. by rewrite Hadd.
Qed.

(** [MAP_FIXED] unmaps its range and records its mapping in two steps.
    When another thread maps in between, both are told that they have the
    page, the fixed mapping is what backs it, and one unmapping takes both
    away. *)
Theorem fixed_mapping_race prot_ prot_' : prot_ ≠ prot_' →
  let reserve := MmapAddFree 0x40000000 0x40010000 1 0 None in
  let other := MmapAddFree 0x40000000 0x40010000 1 prot_' None in
  ∃ t0 t1 t2 t3 t4,
    vm_step reserve empty_process = Some (Placed (Some 0x40000000), t0) ∧
    vm_step (MmapRemove 0x40000000 1) t0 = Some (Done true, t1) ∧
    vm_step other t1 = Some (Placed (Some 0x40000000), t2) ∧
    vm_step (MmapAdd 0x40000000 1 prot_ None) t2 = Some (Done true, t3) ∧
    view t3 (0x40000000 / PAGE) = Some (prot_, None) ∧ length (mmap t3) = 2%nat ∧
    vm_step (MmapRemove 0x40000000 1) t3 = Some (Done true, t4) ∧ view t4 (0x40000000 / PAGE) = None.
Proof.
  intros Hne. do 5 eexists. split; [reflexivity|]. split; [reflexivity|]. split; [reflexivity|]. split.
  { cbn [vm_step]. unfold add_region, insert_region. cbn -[joinable]. unfold joinable. cbn [prot file].
    rewrite (proj2 (Z.eqb_neq _ _) Hne). reflexivity. }
  split; [reflexivity|]. split; [reflexivity|]. split; reflexivity.
Qed.

Lemma fixed_mapping_race_witness :
  ∃ t0 t1 t2 t3, vm_step (MmapAddFree 0x40000000 0x40010000 1 0 None) empty_process = Some (Placed (Some 0x40000000), t0) ∧
    vm_step (MmapRemove 0x40000000 1) t0 = Some (Done true, t1) ∧
    vm_step (MmapAddFree 0x40000000 0x40010000 1 3 None) t1 = Some (Placed (Some 0x40000000), t2) ∧
    vm_step (MmapAdd 0x40000000 1 1 None) t2 = Some (Done true, t3) ∧ length (mmap t3) = 2%nat.
Proof.
  destruct (fixed_mapping_race 1 3) as (t0&t1&t2&t3&t4&E0&E1&E2&E3&_&E4&_); [lia|].
  by exists t0, t1, t2, t3.
Defined.
