(* ===== verification/Wpa.v ===== *)
(** * WPA2-PSK of the Wi-Fi daemon ([user/wifi/wpa], [user/wifi/src/rsn.rs])

    The keys a passphrase makes, the station's side of the 4-way and group
    key handshakes, the encryption of data frames and the keys of a link.
    The cryptography itself (HMAC-SHA1, PBKDF2, AES key wrap, AES-CCM) comes
    from third-party crates: it is a parameter, the class [Crypto], with what
    the code relies on in [CryptoLaws].  Bytes are numbers below 256; an
    outer [None] is a panic. *)

From S2P Require Import Prelude.

Open Scope Z_scope.

Class Crypto := {
  hmac : list Z → list Z → list Z;
  pbkdf2 : list Z → list Z → Z → list Z;
  kw_wrap : list Z → list Z → list Z;
  kw_unwrap : list Z → list Z → option (list Z);
  ccm_encrypt : list Z → list Z → list Z → list Z → option (list Z * list Z);
  ccm_decrypt : list Z → list Z → list Z → list Z → list Z → option (list Z) }.

(** A digest has 20 bytes; what was wrapped unwraps; what was encrypted
    decrypts, its ciphertext as long as the text and its tag 8 bytes. *)
Class CryptoLaws `{Crypto} : Prop := {
  hmac_length k m : length (hmac k m) = 20%nat;
  hmac_bytes k m : Forall is_byte (hmac k m);
  kw_roundtrip k d : (16 <= length d)%nat → zlen d mod 8 = 0 → kw_unwrap k (kw_wrap k d) = Some d;
  kw_length k d : length (kw_wrap k d) = (length d + 8)%nat;
  ccm_roundtrip k n a b c t : ccm_encrypt k n a b = Some (c, t) →
    length c = length b ∧ length t = 8%nat ∧ ccm_decrypt k n a c t = Some b }.

(** ** Numbers in frames *)

Definition be_bytes (n : nat) (v : Z) : list Z := rev (le_bytes n v).
Definition be_val (l : list Z) : Z := le_val (rev l).

Definition be16 (f : list Z) (i : Z) : option Z := s ← slice f i (i + 2); Some (be_val s).

(** Arrays compare as [[u8; N]] does, first difference first. *)
Fixpoint bytes_lt (a b : list Z) : bool :=
  match a, b with
  | x :: a, y :: b => if x =? y then bytes_lt a b else x <? y
  | [], _ :: _ => true
  | _, _ => false
  end.

Section wpa.
Context `{Crypto}.

(** ** [lib.rs]: the keys *)

Definition hmac_sha1 (key : list Z) (parts : list (list Z)) : list Z := hmac key (concat parts).

(** [out.chunks_mut(20)] with [n] bytes left, from block [i] on. *)
Fixpoint prf_from (fuel : nat) (key label data : list Z) (i : Z) (n : nat) : list Z :=
  match fuel with
  | O => []
  | S fuel =>
      if bool_decide (n = 0%nat) then []
      else take n (hmac_sha1 key [label; [0]; data; [i mod 256]]) ++ prf_from fuel key label data (i + 1) (n - 20)
  end.

Definition prf (key label data : list Z) (n : nat) : list Z := prf_from n key label data 0 n.

Record Ptk := { kck : list Z; kek : list Z; tk : list Z }.

(** The bytes of "Pairwise key expansion". *)
Definition PAIRWISE_KEY_EXPANSION : list Z :=
  [80; 97; 105; 114; 119; 105; 115; 101; 32; 107; 101; 121; 32; 101; 120; 112; 97; 110; 115; 105; 111; 110].

Definition derive (pmk aa spa anonce snonce : list Z) : Ptk :=
  let addrs := if bytes_lt aa spa then aa ++ spa else spa ++ aa in
  let nonces := if bytes_lt anonce snonce then anonce ++ snonce else snonce ++ anonce in
  let k := prf pmk PAIRWISE_KEY_EXPANSION (addrs ++ nonces) 48 in
  {| kck := take 16 k; kek := take 16 (drop 16 k); tk := drop 32 k |}.

(** [u8::from_str_radix(hex, 16)] of two bytes: two digits, or a sign and one. *)
Definition hex_digit (c : Z) : option Z :=
  if (48 <=? c) && (c <=? 57) then Some (c - 48)
  else if (97 <=? c) && (c <=? 102) then Some (c - 87)
  else if (65 <=? c) && (c <=? 70) then Some (c - 55)
  else None.

Definition hex_byte (a b : Z) : option Z :=
  if a =? 43 then hex_digit b
  else x ← hex_digit a; y ← hex_digit b; Some (16 * x + y).

Fixpoint hex_pairs (l : list Z) : option (list Z) :=
  match l with
  | a :: b :: l => x ← hex_byte a b; r ← hex_pairs l; Some (x :: r)
  | _ => Some []
  end.

Definition psk (passphrase ssid : list Z) : option (list Z) :=
  if zlen passphrase =? 64 then hex_pairs passphrase
  else if negb ((8 <=? zlen passphrase) && (zlen passphrase <=? 63))
          || negb (forallb (λ c, (0x20 <=? c) && (c <? 0x7f)) passphrase) then None
  else Some (pbkdf2 passphrase ssid 4096).

Definition RSN_PSK_CCMP : list Z :=
  [48; 20; 1; 0; 0x00; 0x0f; 0xac; 4; 1; 0; 0x00; 0x0f; 0xac; 4; 1; 0; 0x00; 0x0f; 0xac; 2; 0; 0].

(** ** [eapol.rs]: key frames *)

Definition HDR : Z := 4.
Definition TYPE_KEY : Z := 3.
Definition DESC_RSN : Z := 2.
Definition DESC : Z := 1 + 2 + 2 + 8 + 32 + 16 + 8 + 8 + 16 + 2.
Definition OFF_INFO : Z := HDR + 1.
Definition OFF_REPLAY : Z := HDR + 5.
Definition OFF_NONCE : Z := HDR + 13.
Definition OFF_RSC : Z := HDR + 61.
Definition OFF_MIC : Z := HDR + 77.
Definition OFF_DATALEN : Z := HDR + 93.

Definition INFO_VERSION_AES : Z := 2.
Definition INFO_PAIRWISE : Z := Z.shiftl 1 3.
Definition INFO_INSTALL : Z := Z.shiftl 1 6.
Definition INFO_ACK : Z := Z.shiftl 1 7.
Definition INFO_MIC : Z := Z.shiftl 1 8.
Definition INFO_SECURE : Z := Z.shiftl 1 9.
Definition INFO_ENCRYPTED : Z := Z.shiftl 1 12.

Definition KDE_GTK : list Z := [0x00; 0x0f; 0xac; 1].

Record Key := { k_info : Z; k_replay : Z; k_nonce : list Z; k_rsc : Z; k_data : list Z }.

Definition parse (f : list Z) : option (option Key) :=
  if zlen f <? HDR + DESC then Some None
  else
    ty ← zget f 1; desc ← zget f HDR;
    if negb (ty =? TYPE_KEY) || negb (desc =? DESC_RSN) then Some None
    else
      body ← be16 f 2;
      n ← be16 f OFF_DATALEN;
      if (body <? DESC + n) || (zlen f <? HDR + DESC + n) then Some None
      else
        info ← be16 f OFF_INFO;
        replay ← slice f OFF_REPLAY (OFF_REPLAY + 8);
        nonce ← slice f OFF_NONCE (OFF_NONCE + 32);
        rsc ← slice f OFF_RSC (OFF_RSC + 8);
        data ← slice f (HDR + DESC) (HDR + DESC + n);
        Some (Some {| k_info := info; k_replay := be_val replay; k_nonce := nonce; k_rsc := le_val rsc; k_data := data |}).

Definition mic (kck_ f : list Z) : option (list Z) :=
  a ← slice f 0 OFF_MIC;
  b ← slice f (OFF_MIC + 16) (zlen f);
  Some (take 16 (hmac_sha1 kck_ [a; replicate 16 0; b])).

Definition mic_ok (kck_ f : list Z) : option bool :=
  if OFF_MIC + 16 <=? zlen f then
    m ← mic kck_ f;
    s ← slice f OFF_MIC (OFF_MIC + 16);
    Some (bool_decide (m = s))
  else Some false.

(** The assertion that a frame has a MIC when a key for it is given panics
    in debug builds. *)
Definition build (info key_len replay : Z) (nonce : option (list Z)) (rsc : Z) (data : list Z) (kck_ : option (list Z)) :
    option (list Z) :=
  if negb (Bool.eqb (negb (Z.land info INFO_MIC =? 0)) (bool_decide (is_Some kck_))) then None
  else
    let f := [2; TYPE_KEY] ++ be_bytes 2 (DESC + zlen data) ++ [DESC_RSN] ++ be_bytes 2 info ++ be_bytes 2 key_len
      ++ be_bytes 8 replay ++ default (replicate 32 0) nonce ++ replicate 16 0 ++ le_bytes 8 rsc ++ replicate 8 0
      ++ replicate 16 0 ++ be_bytes 2 (zlen data) ++ data in
    match kck_ with
    | None => Some f
    | Some kck_ => m ← mic kck_ f; copy_slice f OFF_MIC (OFF_MIC + 16) m
    end.

(** The zeros after 0xdd, one a turn. *)
Fixpoint pad_zeros (fuel : nat) (p : list Z) : list Z :=
  match fuel with
  | O => p
  | S fuel => if (zlen p <? 16) || negb (zlen p mod 8 =? 0) then pad_zeros fuel (p ++ [0]) else p
  end.

Definition wrap (kek_ data : list Z) : list Z :=
  kw_wrap kek_ (if (zlen data <? 16) || negb (zlen data mod 8 =? 0) then pad_zeros 16 (data ++ [0xdd]) else data).

Definition unwrap (kek_ data : list Z) : option (list Z) :=
  if (zlen data <? 24) || negb (zlen data mod 8 =? 0) then None else kw_unwrap kek_ data.

(** The group key in key data: a walk over its elements, each at least two
    bytes long. *)
Fixpoint gtk_from (fuel : nat) (d : list Z) : option (Z * list Z) :=
  match fuel, d with
  | S fuel, id :: len :: rest =>
      if id =? 0 then None
      else if zlen rest <? len then None
      else
        let body := take (Z.to_nat len) rest in
        if (id =? 0xdd) && (6 + 16 <=? len) && bool_decide (take 4 body = KDE_GTK) then
          let idx := Z.land (default 0 (body !! 4%nat)) 3 in
          if idx =? 0 then None else Some (idx, take 16 (drop 6 body))
        else gtk_from fuel (drop (Z.to_nat len) rest)
  | _, _ => None
  end.

Definition gtk_of (data : list Z) : option (Z * list Z) := gtk_from (length data) data.

Fixpoint element_from (fuel : nat) (d : list Z) (want : Z) : option (list Z) :=
  match fuel, d with
  | S fuel, id :: len :: rest =>
      if id =? 0 then None
      else if zlen rest <? len then None
      else if id =? want then Some (id :: len :: take (Z.to_nat len) rest)
      else element_from fuel (drop (Z.to_nat len) rest) want
  | _, _ => None
  end.

Definition element (data : list Z) (want : Z) : option (list Z) := element_from (length data) data want.

Inductive Error : Set := EMic | ERsn | EKeyData.
Inductive Step : Set := Ignore | Reply (f : list Z) | Installed (f : list Z).

Record Keys := { keys_tk : list Z; keys_gtk : Z * list Z * Z }.

Record Supplicant := {
  s_pmk : list Z; s_aa : list Z; s_spa : list Z; s_own_rsn : list Z; s_ap_rsn : list Z; s_snonce : list Z;
  s_ptk : option Ptk; s_replay : option Z; s_keys : option Keys; s_kck : list Z }.

Definition new (pmk aa spa own_rsn ap_rsn snonce : list Z) : Supplicant :=
  {| s_pmk := pmk; s_aa := aa; s_spa := spa; s_own_rsn := own_rsn; s_ap_rsn := ap_rsn; s_snonce := snonce;
     s_ptk := None; s_replay := None; s_keys := None; s_kck := replicate 16 0 |}.

(** What a handshake message changes of the state. *)
Definition update (s : Supplicant) (ptk : option Ptk) (replay : Z) (keys : option Keys) (kck_ : list Z) : Supplicant :=
  {| s_pmk := s_pmk s; s_aa := s_aa s; s_spa := s_spa s; s_own_rsn := s_own_rsn s; s_ap_rsn := s_ap_rsn s;
     s_snonce := s_snonce s; s_ptk := ptk; s_replay := Some replay; s_keys := keys; s_kck := kck_ |}.

Definition message1 (s : Supplicant) (k : Key) : option (result Error Step * Supplicant) :=
  let ptk := derive (s_pmk s) (s_aa s) (s_spa s) (k_nonce k) (s_snonce s) in
  let info := Z.lor (Z.lor INFO_VERSION_AES INFO_PAIRWISE) INFO_MIC in
  reply ← build info 0 (k_replay k) (Some (s_snonce s)) 0 (s_own_rsn s) (Some (kck ptk));
  Some (Ok (Reply reply), update s (Some ptk) (k_replay k) (s_keys s) (s_kck s)).

Definition message3 (s : Supplicant) (k : Key) (f : list Z) : option (result Error Step * Supplicant) :=
  match s_ptk s with
  | None => Some (Ok Ignore, s)
  | Some ptk =>
      ok ← mic_ok (kck ptk) f;
      if negb ok then Some (Err EMic, s)
      else if negb (Z.land (k_info k) (Z.lor INFO_INSTALL INFO_ENCRYPTED) =? Z.lor INFO_INSTALL INFO_ENCRYPTED)
      then Some (Err EKeyData, s)
      else match unwrap (kek ptk) (k_data k) with
           | None => Some (Err EKeyData, s)
           | Some data =>
               if negb (bool_decide (element data 48 = Some (s_ap_rsn s))) then Some (Err ERsn, s)
               else match gtk_of data with
                    | None => Some (Err EKeyData, s)
                    | Some (idx, gtk) =>
                        let info := Z.lor (Z.lor (Z.lor INFO_VERSION_AES INFO_PAIRWISE) INFO_MIC) INFO_SECURE in
                        reply ← build info 0 (k_replay k) None 0 [] (Some (kck ptk));
                        Some (Ok (Installed reply),
                              update s (Some ptk) (k_replay k)
                                (Some {| keys_tk := tk ptk; keys_gtk := (idx, gtk, k_rsc k) |}) (kck ptk))
                    end
           end
  end.

Definition group1 (s : Supplicant) (k : Key) (f : list Z) : option (result Error Step * Supplicant) :=
  match s_ptk s, s_keys s with
  | Some ptk, Some keys =>
      ok ← mic_ok (kck ptk) f;
      if negb ok then Some (Err EMic, s)
      else match unwrap (kek ptk) (k_data k) with
           | None => Some (Err EKeyData, s)
           | Some data =>
               match gtk_of data with
               | None => Some (Err EKeyData, s)
               | Some (idx, gtk) =>
                   let info := Z.lor (Z.lor INFO_VERSION_AES INFO_MIC) INFO_SECURE in
                   reply ← build info 0 (k_replay k) None 0 [] (Some (s_kck s));
                   Some (Ok (Installed reply),
                         update s (Some ptk) (k_replay k)
                           (Some {| keys_tk := keys_tk keys; keys_gtk := (idx, gtk, k_rsc k) |}) (s_kck s))
               end
           end
  | _, _ => Some (Ok Ignore, s)
  end.

Definition input (s : Supplicant) (f : list Z) : option (result Error Step * Supplicant) :=
  k ← parse f;
  match k with
  | None => Some (Ok Ignore, s)
  | Some k =>
      if negb (Z.land (k_info k) 7 =? INFO_VERSION_AES) || (Z.land (k_info k) INFO_ACK =? 0)
         || match s_replay s with Some r => k_replay k <=? r | None => false end
      then Some (Ok Ignore, s)
      else match negb (Z.land (k_info k) INFO_PAIRWISE =? 0), negb (Z.land (k_info k) INFO_MIC =? 0) with
           | true, false => message1 s k
           | true, true => message3 s k f
           | false, true => group1 s k f
           | false, false => Some (Ok Ignore, s)
           end
  end.

(** ** [ccmp.rs]: data frames *)

Definition CCMP_HDR : Z := 8.
Definition CCMP_MIC : Z := 8.
Definition PROTECTED : Z := 0x40.
Definition EXT_IV : Z := 0x20.

Definition header_len (f : list Z) : option Z :=
  match f with
  | fc0 :: fc1 :: _ =>
      let n := 24 + (if Z.land fc1 3 =? 3 then 6 else 0) + (if Z.land fc0 0x88 =? 0x88 then 2 else 0) in
      if n <=? zlen f then Some n else None
  | _ => None
  end.

(** [x & !m] of a byte *)
Definition clear_bits (x m : Z) : Z := Z.land x (255 - m).

(** The nonce and additional authenticated data; [None] where an index would
    be out of range. *)
Definition nonce_aad (f : list Z) (hl pn : Z) : option (list Z * list Z) :=
  f0 ← zget f 0; f1 ← zget f 1;
  let qos := Z.land f0 0x88 =? 0x88 in
  q ← (if qos then x ← zget f (hl - 2); Some (Z.land x 0x0f) else Some 0);
  ta ← slice f 10 16;
  addrs ← slice f 4 22;
  seq ← zget f 22;
  a4 ← (if Z.land f1 3 =? 3 then slice f 24 30 else Some []);
  let fc1 := Z.lor (clear_bits f1 0x38) PROTECTED in
  let fc1 := if qos then clear_bits fc1 0x80 else fc1 in
  Some (q :: ta ++ drop 2 (be_bytes 8 pn),
        [Z.land f0 0x8f; fc1] ++ addrs ++ [Z.land seq 0x0f; 0] ++ a4 ++ (if qos then [q; 0] else [])).

(** A frame's byte 1 through [g]. *)
Definition map_fc1 (g : Z → Z) (f : list Z) : list Z :=
  match f with a :: b :: rest => a :: g b :: rest | _ => f end.

(** The CCMP header of packet [pn]. *)
Definition ccmp_header (pn key_id : Z) : list Z :=
  let p := le_bytes 8 pn in
  take 2 p ++ [0; Z.lor EXT_IV (Z.shiftl key_id 6 mod 256)] ++ take 4 (drop 2 p).

Definition encrypt (tk_ : list Z) (pn key_id : Z) (f : list Z) : option (option (list Z)) :=
  match header_len f with
  | None => Some None
  | Some hl =>
      '(nonce, aad) ← nonce_aad f hl pn;
      match ccm_encrypt tk_ nonce aad (drop (Z.to_nat hl) f) with
      | None => Some None
      | Some (body, tag) =>
          Some (Some (map_fc1 (λ b, Z.lor b PROTECTED) (take (Z.to_nat hl) f) ++ ccmp_header pn key_id ++ body ++ tag))
      end
  end.

Definition key_pn (f : list Z) : option (Z * Z) :=
  hl ← header_len f;
  h ← slice f hl (hl + CCMP_HDR);
  match f, h with
  | _ :: f1 :: _, [h0; h1; _; h3; h4; h5; h6; h7] =>
      if (Z.land f1 PROTECTED =? 0) || (Z.land h3 EXT_IV =? 0) then None
      else Some (Z.shiftr h3 6, le_val [h0; h1; h4; h5; h6; h7; 0; 0])
  | _, _ => None
  end.

Definition decrypt (tk_ f : list Z) : option (option (list Z * Z)) :=
  match header_len f, key_pn f with
  | Some hl, Some (_, pn) =>
      if zlen f <? hl + CCMP_HDR + CCMP_MIC then Some None
      else
        '(nonce, aad) ← nonce_aad f hl pn;
        let rest := drop (Z.to_nat (hl + CCMP_HDR)) f in
        let at_ := (length rest - Z.to_nat CCMP_MIC)%nat in
        match ccm_decrypt tk_ nonce aad (take at_ rest) (drop at_ rest) with
        | None => Some None
        | Some body => Some (Some (map_fc1 (λ b, clear_bits b PROTECTED) (take (Z.to_nat hl) f) ++ body, pn))
        end
  | _, _ => Some None
  end.

(** ** [rsn.rs] and [frame.rs]: a link *)

Definition DATA : Z := 0x08.
Definition QOS_DATA : Z := 0x88.
Definition TO_DS : Z := 0x01.
Definition FROM_DS : Z := 0x02.
Definition SNAP : list Z := [0xaa; 0xaa; 0x03; 0; 0; 0].
Definition ETHERTYPE : Z := 0x888e.
Definition FRAME_HDR : Z := 24.

Definition data_to_ds (me bssid eth : list Z) (qos : bool) : option (list Z) :=
  if zlen eth <? 14 then None
  else Some ([if qos then QOS_DATA else DATA; TO_DS; 0; 0] ++ bssid ++ me ++ take 6 eth ++ [0; 0]
             ++ (if qos then [0; 0] else []) ++ SNAP ++ drop 12 eth).

(** Outer [None]: an index out of range. *)
Definition data_from_ds (f me bssid : list Z) : option (option (list Z)) :=
  match f with
  | [] => Some None
  | f0 :: _ =>
      if negb ((f0 =? DATA) || (f0 =? QOS_DATA)) then Some None
      else
        let hdr := if f0 =? DATA then FRAME_HDR else FRAME_HDR + 2 in
        if zlen f <? hdr + zlen SNAP + 2 then Some None
        else
          f1 ← zget f 1;
          from ← slice f 10 16;
          if negb (Z.land f1 (Z.lor TO_DS FROM_DS) =? FROM_DS) || negb (bool_decide (from = bssid)) then Some None
          else
            da ← slice f 4 10; sa ← slice f 16 22;
            da0 ← zget da 0;
            if negb (bool_decide (da = me)) && (Z.land da0 1 =? 0) then Some None
            else
              let body := drop (Z.to_nat hdr) f in
              if negb (bool_decide (take (length SNAP) body = SNAP)) then Some None
              else Some (Some (da ++ sa ++ drop (length SNAP) body))
  end.

Definition eapol_of (f me bssid : list Z) : option (option (list Z)) :=
  eth ← data_from_ds f me bssid;
  match eth with
  | None => Some None
  | Some eth =>
      ty ← slice eth 12 14;
      to ← slice eth 0 6;
      Some (if bool_decide (ty = be_bytes 2 ETHERTYPE) && bool_decide (to = me) then Some (drop 14 eth) else None)
  end.

Record Rsn := {
  supplicant : Supplicant; rsn_tk : list Z; tx_pn : Z; rx_pn : Z;
  groups : list (option (list Z * Z)) }.

(** The link the handshake leaves once its keys are in; [None] is the
    [unwrap] of keys that are not there, or an index past the groups. *)
Definition link_up (s : Supplicant) : option Rsn :=
  k ← s_keys s;
  let '(idx, key, rsc) := keys_gtk k in
  gs ← zset (replicate 4 None) idx (Some (key, rsc));
  Some {| supplicant := s; rsn_tk := keys_tk k; tx_pn := 0; rx_pn := 0; groups := gs |}.

Definition seal (r : Rsn) (f : list Z) : option (option (list Z) * Rsn) :=
  pn ← add64 (tx_pn r) 1;
  out ← encrypt (rsn_tk r) pn 0 f;
  Some (out, {| supplicant := supplicant r; rsn_tk := rsn_tk r; tx_pn := pn; rx_pn := rx_pn r; groups := groups r |}).

(** The key of an index and the last packet number heard with it. *)
Definition key_of (r : Rsn) (idx : Z) : option (option (list Z * Z)) :=
  if idx =? 0 then Some (Some (rsn_tk r, rx_pn r)) else zget (groups r) idx.

Definition heard (r : Rsn) (idx pn : Z) : option Rsn :=
  if idx =? 0
  then Some {| supplicant := supplicant r; rsn_tk := rsn_tk r; tx_pn := tx_pn r; rx_pn := pn; groups := groups r |}
  else
    g ← zget (groups r) idx;
    gs ← zset (groups r) idx ((λ x : list Z * Z, (x.1, pn)) <$> g);
    Some {| supplicant := supplicant r; rsn_tk := rsn_tk r; tx_pn := tx_pn r; rx_pn := rx_pn r; groups := gs |}.

Definition open (r : Rsn) (f : list Z) : option (option (list Z) * Rsn) :=
  match key_pn f with
  | None => Some (None, r)
  | Some (idx, _) =>
      k ← key_of r idx;
      match k with
      | None => Some (None, r)
      | Some (key, last) =>
          d ← decrypt key f;
          match d with
          | None => Some (None, r)
          | Some (clear, pn) => if pn <=? last then Some (None, r) else r' ← heard r idx pn; Some (Some clear, r')
          end
      end
  end.

(** The frame that carries an EAPOL message to the access point. *)
Definition eapol_frame (me bssid pdu : list Z) : option (list Z) :=
  data_to_ds me bssid (bssid ++ me ++ be_bytes 2 ETHERTYPE ++ pdu) false.

(** A handshake message over the link: the answer, sealed, if there is one. *)
Definition eapol (r : Rsn) (me bssid pdu : list Z) : option (option (list Z) * Rsn) :=
  '(res, s) ← input (supplicant r) pdu;
  let r1 := {| supplicant := s; rsn_tk := rsn_tk r; tx_pn := tx_pn r; rx_pn := rx_pn r; groups := groups r |} in
  match res with
  | Ok (Installed m) =>
      r2 ← match s_keys s with
           | Some k =>
               let '(idx, key, rsc) := keys_gtk k in
               gs ← zset (groups r1) idx (Some (key, rsc));
               Some {| supplicant := s; rsn_tk := rsn_tk r; tx_pn := tx_pn r; rx_pn := rx_pn r; groups := gs |}
           | None => Some r1
           end;
      match eapol_frame me bssid m with
      | Some f => seal r2 f
      | None => Some (None, r2)
      end
  | _ => Some (None, r1)
  end.

End wpa.
