(* ===== verification/WpaFacts.v ===== *)
(** * Frames of the handshake and of the link: what is built is what is read

    Key frames, wrapped key data, derived keys and encrypted data frames,
    each with its round trip. *)

From S2P Require Import Prelude Wpa.

Open Scope Z_scope.

(** ** Slices of concatenations *)

Lemma slice_head {A} (x l : list A) b : b = zlen x → slice (x ++ l) 0 b = Some x.
Proof.
  intros ->. unfold slice. rewrite length_app. rewrite (proj2 (Z.leb_le 0 0)), (proj2 (Z.leb_le 0 _)), (proj2 (Z.leb_le (zlen x) _)) by lia.
  cbn. rewrite drop_0. f_equal. rewrite take_app_length' by lia. done.
Qed.

Lemma slice_whole {A} (x : list A) b : b = zlen x → slice x 0 b = Some x.
Proof. intros ->. rewrite <- (app_nil_r x) at 1. by apply slice_head. Qed.

Lemma zget_skip {A} (x l : list A) i : zlen x <= i → zget (x ++ l) i = zget l (i - zlen x).
Proof.
  intros Hi. rewrite !zget_lookup by lia. rewrite lookup_app_r by lia. f_equal. lia.
Qed.

Lemma be_bytes_length n v : length (be_bytes n v) = n.
Proof. unfold be_bytes. by rewrite length_rev, le_bytes_length. Qed.

Lemma be_val_bytes n v : 0 <= v < 256 ^ Z.of_nat n → be_val (be_bytes n v) = v.
Proof. unfold be_val, be_bytes. rewrite rev_involutive. apply le_val_bytes. Qed.

#[export] Hint Rewrite @le_bytes_length @be_bytes_length : lens.

Lemma slice_here {A} (x l : list A) a b : a = 0 → b = zlen x → slice (x ++ l) a b = Some x.
Proof. intros ->. apply slice_head. Qed.

Lemma splice_middle {A} (x y z m : list A) a : zlen x = a → length y = length m → splice (x ++ y ++ z) a m = x ++ m ++ z.
Proof.
  intros <- Hy. unfold splice. rewrite take_app_length' by lia. f_equal. f_equal.
  rewrite app_assoc, drop_app_length'; [done|]. rewrite length_app. lia.
Qed.

(** Find a field of a concatenation by the lengths before it. *)
Ltac field :=
  lazymatch goal with
  | |- slice (?x ++ ?l) ?a ?b = _ =>
      first [rewrite (slice_here x l a b) by (lens; lia); reflexivity | rewrite (slice_skip x l a b) by (lens; lia); field]
  | |- slice ?x ?a ?b = _ => replace a with 0 by (lens; lia); apply slice_whole; lens; lia
  end.

Section facts.
Context `{CL : CryptoLaws}.

(** ** Key frames *)

Definition key_frame (info key_len replay : Z) (nonce : list Z) (rsc : Z) (m data : list Z) : list Z :=
  [2; TYPE_KEY] ++ be_bytes 2 (DESC + zlen data) ++ [DESC_RSN] ++ be_bytes 2 info ++ be_bytes 2 key_len
    ++ be_bytes 8 replay ++ nonce ++ replicate 16 0 ++ le_bytes 8 rsc ++ replicate 8 0 ++ m ++ be_bytes 2 (zlen data) ++ data.

Lemma key_frame_length info key_len replay nonce rsc m data : length nonce = 32%nat → length m = 16%nat →
  zlen (key_frame info key_len replay nonce rsc m data) = HDR + DESC + zlen data.
Proof. intros Hn Hm. unfold key_frame, HDR, DESC. lens. lia. Qed.

Lemma parse_key_frame info key_len replay nonce rsc m data :
  0 <= info < 2 ^ 16 → 0 <= replay < 2 ^ 64 → length nonce = 32%nat → 0 <= rsc < 2 ^ 64 → length m = 16%nat →
  zlen data + DESC < 2 ^ 16 →
  parse (key_frame info key_len replay nonce rsc m data) =
  Some (Some {| k_info := info; k_replay := replay; k_nonce := nonce; k_rsc := rsc; k_data := data |}).
Proof.
  intros Hi Hr Hn Hs Hm Hd. unfold parse. rewrite key_frame_length by done.
  rewrite (proj2 (Z.ltb_ge _ _)) by (unfold HDR, DESC; lia).
  assert (H1 : zget (key_frame info key_len replay nonce rsc m data) 1 = Some TYPE_KEY) by done.
  assert (H4 : zget (key_frame info key_len replay nonce rsc m data) HDR = Some DESC_RSN).
  { unfold key_frame, HDR. rewrite zget_skip by (cbn; lia). rewrite zget_skip by (lens; lia). lens. done. }
  rewrite H1, H4. cbn [mbind option_bind]. rewrite !Z.eqb_refl. cbn [negb orb].
  set (f := key_frame _ _ _ _ _ _ _).
  assert (F2 : slice f 2 (2 + 2) = Some (be_bytes 2 (DESC + zlen data))) by (subst f; unfold key_frame; field).
  assert (F3 : slice f OFF_DATALEN (OFF_DATALEN + 2) = Some (be_bytes 2 (zlen data)))
    by (subst f; unfold key_frame, OFF_DATALEN, HDR; field).
  assert (F4 : slice f OFF_INFO (OFF_INFO + 2) = Some (be_bytes 2 info)) by (subst f; unfold key_frame, OFF_INFO, HDR; field).
  assert (F5 : slice f OFF_REPLAY (OFF_REPLAY + 8) = Some (be_bytes 8 replay))
    by (subst f; unfold key_frame, OFF_REPLAY, HDR; field).
  assert (F6 : slice f OFF_NONCE (OFF_NONCE + 32) = Some nonce) by (subst f; unfold key_frame, OFF_NONCE, HDR; field).
  assert (F7 : slice f OFF_RSC (OFF_RSC + 8) = Some (le_bytes 8 rsc)) by (subst f; unfold key_frame, OFF_RSC, HDR; field).
  assert (F8 : slice f (HDR + DESC) (HDR + DESC + zlen data) = Some data) by (subst f; unfold key_frame, HDR, DESC; field).
  unfold be16. rewrite F2, F3. cbn [mbind option_bind].
  rewrite !be_val_bytes by (unfold DESC in *; change (256 ^ Z.of_nat 2) with (2 ^ 16); lia).
  rewrite (proj2 (Z.ltb_ge _ _)) by lia. rewrite (proj2 (Z.ltb_ge _ _)) by lia. cbn [orb].
  rewrite F4, F5, F6, F7, F8. cbn [mbind option_bind].
  rewrite !be_val_bytes, le_val_bytes by (change (256 ^ Z.of_nat 8) with (2 ^ 64); change (256 ^ Z.of_nat 2) with (2 ^ 16); lia).
  done.
Qed.

(** A key frame around its MIC. *)
Lemma key_frame_split info key_len replay nonce rsc data : length nonce = 32%nat → ∃ pre, zlen pre = OFF_MIC ∧
  ∀ m, key_frame info key_len replay nonce rsc m data = pre ++ m ++ be_bytes 2 (zlen data) ++ data.
Proof.
  intros Hn. exists ([2; TYPE_KEY] ++ be_bytes 2 (DESC + zlen data) ++ [DESC_RSN] ++ be_bytes 2 info ++ be_bytes 2 key_len
    ++ be_bytes 8 replay ++ nonce ++ replicate 16 0 ++ le_bytes 8 rsc ++ replicate 8 0).
  split; [unfold OFF_MIC, HDR; lens; lia|]. intros m. unfold key_frame. by rewrite <- !app_assoc.
Qed.

(** The MIC is over the frame with zeros in its place. *)
Lemma mic_key_frame key info key_len replay nonce rsc m data : length nonce = 32%nat → length m = 16%nat →
  mic key (key_frame info key_len replay nonce rsc m data) =
  Some (take 16 (hmac key (key_frame info key_len replay nonce rsc (replicate 16 0) data))).
Proof.
  intros Hn Hm. unfold mic. rewrite key_frame_length by done.
  destruct (key_frame_split info key_len replay nonce rsc data Hn) as (pre&Hpre&Hf).
  rewrite !Hf. assert (S1 : slice (pre ++ m ++ be_bytes 2 (zlen data) ++ data) 0 OFF_MIC = Some pre) by (apply slice_head; done).
  assert (S2 : slice (pre ++ m ++ be_bytes 2 (zlen data) ++ data) (OFF_MIC + 16) (HDR + DESC + zlen data) =
    Some (be_bytes 2 (zlen data) ++ data)).
  { rewrite slice_skip by lia. rewrite slice_skip by lia. rewrite Hpre, Hm. replace (OFF_MIC + 16 - OFF_MIC - Z.of_nat 16) with 0 by lia.
    apply slice_whole. lens. unfold OFF_MIC, HDR, DESC. lia. }
  rewrite S1, S2. cbn [mbind option_bind]. unfold hmac_sha1. cbn [concat]. by rewrite app_nil_r.
Qed.

Lemma mic_ok_key_frame key info key_len replay nonce rsc m data : length nonce = 32%nat → length m = 16%nat →
  mic_ok key (key_frame info key_len replay nonce rsc m data) =
  Some (bool_decide (take 16 (hmac key (key_frame info key_len replay nonce rsc (replicate 16 0) data)) = m)).
Proof.
  intros Hn Hm. unfold mic_ok. rewrite key_frame_length, mic_key_frame by done.
  rewrite (proj2 (Z.leb_le _ _)) by (unfold OFF_MIC, HDR, DESC; lia). cbn [mbind option_bind].
  assert (F : slice (key_frame info key_len replay nonce rsc m data) OFF_MIC (OFF_MIC + 16) = Some m)
    by (unfold key_frame, OFF_MIC, HDR; field).
  by rewrite F.
Qed.

(** A frame as [build] makes it: the MIC of a given key, or zeros. *)
Lemma build_key_frame info key_len replay nonce rsc data key : length nonce = 32%nat → zlen data + DESC < 2 ^ 16 →
  (Z.land info INFO_MIC =? 0) = negb (bool_decide (is_Some key)) →
  build info key_len replay (Some nonce) rsc data key =
  Some (key_frame info key_len replay nonce rsc
    (match key with
     | Some k => take 16 (hmac k (key_frame info key_len replay nonce rsc (replicate 16 0) data))
     | None => replicate 16 0
     end) data).
Proof.
  intros Hn Hd Hk. unfold build. rewrite Hk, negb_involutive, Bool.eqb_reflx. cbn [negb].
  change (default (replicate 32 0) (Some nonce)) with nonce.
  fold (key_frame info key_len replay nonce rsc (replicate 16 0) data). destruct key as [k|]; [|done].
  rewrite mic_key_frame by done. cbn [mbind option_bind].
  set (m := take 16 _). assert (Hm : length m = 16%nat) by (subst m; rewrite length_take, hmac_length; lia). clearbody m.
  rewrite copy_slice_ok by (rewrite ?key_frame_length by done; unfold OFF_MIC, HDR, DESC; lia). f_equal.
  destruct (key_frame_split info key_len replay nonce rsc data Hn) as (pre&Hpre&Hf). rewrite !Hf.
  by apply splice_middle.
Qed.

(** ** Key data *)

Definition padded (data : list Z) : list Z :=
  if (zlen data <? 16) || negb (zlen data mod 8 =? 0) then pad_zeros 16 (data ++ [0xdd]) else data.

(** Enough turns end on a multiple of 8 bytes, at least 16, with only zeros
    added. *)
Lemma pad_zeros_ok fuel p : 1 <= zlen p →
  Z.max (16 - zlen p) ((- zlen p) mod 8) <= Z.of_nat fuel →
  ∃ n, pad_zeros fuel p = p ++ replicate n 0 ∧ 16 <= zlen (pad_zeros fuel p) ∧ zlen (pad_zeros fuel p) mod 8 = 0.
Proof.
  revert p. induction fuel as [|fuel IH]; intros p Hp Hf; cbn [pad_zeros].
  - exists 0%nat. rewrite app_nil_r. split_and!; [done|lia|]. zdiv.
  - destruct ((zlen p <? 16) || negb (zlen p mod 8 =? 0)) eqn:E.
    + destruct (IH (p ++ [0])) as (n&Hn&H16&H8); [lens; lia|lens; cbn [length]|].
      { apply orb_true_iff in E as [E|E]; [apply Z.ltb_lt in E|apply negb_true_iff, Z.eqb_neq in E]; zdiv. }
      exists (S n). split_and!; [|done..]. rewrite Hn, <- app_assoc. done.
    + exists 0%nat. rewrite app_nil_r. bool_hyps. split_and!; (done || lia).
Qed.

Lemma padded_ok data : ∃ pad, padded data = data ++ pad ∧ (pad = [] ∨ ∃ n, pad = 0xdd :: replicate n 0) ∧
  16 <= zlen (padded data) ∧ zlen (padded data) mod 8 = 0.
Proof.
  unfold padded. destruct ((zlen data <? 16) || _) eqn:E.
  - destruct (pad_zeros_ok 16 (data ++ [0xdd])) as (n&Hn&H16&H8); [lens; lia| |].
    { lens. change (Z.of_nat 16) with 16. zdiv. }
    exists (0xdd :: replicate n 0). split_and!; [|right; by eexists|done..]. by rewrite Hn, <- app_assoc.
  - exists []. rewrite app_nil_r. bool_hyps. split_and!; [done|by left|lia|lia].
Qed.

Lemma unwrap_wrap key data : unwrap key (wrap key data) = Some (padded data).
Proof.
  unfold unwrap, wrap. fold (padded data). destruct (padded_ok data) as (pad&_&_&H16&H8).
  rewrite !kw_length, Nat2Z.inj_add. rewrite (proj2 (Z.ltb_ge _ _)) by lia.
  rewrite (proj2 (Z.eqb_eq _ 0)) by zdiv. cbn. apply kw_roundtrip; [lia|done].
Qed.

(** An element of key data: its id, its length and its body. *)
Record is_element (e : list Z) (id : Z) (body : list Z) : Prop := {
  ie_eq : e = id :: zlen body :: body;
  ie_id : id ≠ 0 }.

Lemma element_first fuel e id body rest : is_element e id body → element_from (S fuel) (e ++ rest) id = Some e.
Proof.
  intros [-> Hid]. cbn [app element_from]. rewrite (proj2 (Z.eqb_neq _ _) Hid).
  rewrite (proj2 (Z.ltb_ge _ _)) by (lens; lia). rewrite Z.eqb_refl, Nat2Z.id, take_app_length. done.
Qed.

Lemma gtk_skip fuel e id body rest : is_element e id body → id ≠ 0xdd → gtk_from (S fuel) (e ++ rest) = gtk_from fuel rest.
Proof.
  intros [-> Hid] Hdd. cbn [app gtk_from]. rewrite (proj2 (Z.eqb_neq _ _) Hid).
  rewrite (proj2 (Z.ltb_ge _ _)) by (lens; lia). rewrite (proj2 (Z.eqb_neq _ _) Hdd). cbn [andb].
  by rewrite Nat2Z.id, drop_app_length.
Qed.

(** The element that carries a group key. *)
Definition gtk_kde (idx : Z) (gtk : list Z) : list Z := [0xdd; 22] ++ KDE_GTK ++ [idx; 0] ++ gtk.

Lemma gtk_found fuel idx gtk rest : 1 <= idx <= 3 → length gtk = 16%nat →
  gtk_from (S fuel) (gtk_kde idx gtk ++ rest) = Some (idx, gtk).
Proof.
  intros Hi Hg. unfold gtk_kde. cbn [app KDE_GTK gtk_from].
  rewrite (proj2 (Z.ltb_ge _ _)) by (cbn [length]; lens; lia). change (Z.to_nat 22) with (6 + 16)%nat.
  cbn [Nat.add take drop]. rewrite take_app_length' by done.
  assert (idx = 1 ∨ idx = 2 ∨ idx = 3) as Hc by lia.
  assert (Hb : take 16 gtk = gtk) by (rewrite <- Hg; apply firstn_all).
  rewrite drop_0, Hb. destruct Hc as [-> | [-> | ->]]; reflexivity.
Qed.

(** ** Derived keys *)

Lemma bytes_lt_total a b : length a = length b → bytes_lt a b = false → bytes_lt b a = false → a = b.
Proof.
  revert b. induction a as [|x a IH]; intros [|y b]; try done. cbn. intros [= Hl].
  rewrite (Z.eqb_sym y x). destruct (Z.eqb_spec x y) as [->|Hn]; [intros; f_equal; by apply IH|].
  rewrite !Z.ltb_ge. lia.
Qed.

Lemma bytes_lt_asym a b : bytes_lt a b = true → bytes_lt b a = false.
Proof.
  revert b. induction a as [|x a IH]; intros [|y b]; try done. cbn.
  rewrite (Z.eqb_sym y x). destruct (Z.eqb_spec x y); [apply IH|]. rewrite Z.ltb_lt, Z.ltb_ge. lia.
Qed.

Lemma ordered_swap a b : length a = length b →
  (if bytes_lt a b then a ++ b else b ++ a) = (if bytes_lt b a then b ++ a else a ++ b).
Proof.
  intros Hl. destruct (bytes_lt a b) eqn:E1; [by rewrite (bytes_lt_asym _ _ E1)|].
  destruct (bytes_lt b a) eqn:E2; [done|]. by rewrite (bytes_lt_total a b Hl E1 E2).
Qed.

(** Both sides of a link derive one key, whichever names itself first. *)
Lemma derive_sym pmk aa spa anonce snonce : length aa = length spa → length anonce = length snonce →
  derive pmk aa spa anonce snonce = derive pmk spa aa snonce anonce.
Proof. intros H1 H2. unfold derive. by rewrite (ordered_swap aa spa H1), (ordered_swap anonce snonce H2). Qed.

Lemma prf_from_length fuel key label data i n : (n <= 20 * fuel)%nat → length (prf_from fuel key label data i n) = n.
Proof.
  revert i n. induction fuel as [|fuel IH]; intros i n Hn; cbn [prf_from]; [cbn; lia|].
  destruct (bool_decide_reflect (n = 0%nat)); [cbn; lia|]. rewrite length_app, length_take, IH by lia.
  unfold hmac_sha1. rewrite hmac_length. lia.
Qed.

Lemma derive_lengths pmk aa spa anonce snonce : let p := derive pmk aa spa anonce snonce in
  length (kck p) = 16%nat ∧ length (kek p) = 16%nat ∧ length (tk p) = 16%nat.
Proof. cbn zeta. unfold derive. cbn [kck kek tk]. unfold prf. rewrite !length_take, !length_drop, prf_from_length by lia. lia. Qed.

(** ** Data frames *)

Lemma zget_prefix {A} (x l : list A) i : i < zlen x → zget (x ++ l) i = zget x i.
Proof.
  intros Hi. unfold zget. destruct (0 <=? i) eqn:E; [|done]. bool_hyps. apply lookup_app_l. lia.
Qed.

(** A fact about every byte, checked on each. *)
Lemma byte_check (P : Z → bool) : forallb P (Z.of_nat <$> seq 0 256) = true → ∀ b, is_byte b → P b = true.
Proof.
  rewrite forallb_forall. intros HP b [Hb1 Hb2]. apply HP. apply list_elem_of_In, list_elem_of_fmap.
  exists (Z.to_nat b). split; [lia|]. apply elem_of_seq. lia.
Qed.

Lemma header_len_some f hl : header_len f = Some hl → ∃ f0 f1 t x, f = [f0; f1] ++ t ++ x ∧ zlen t = hl - 2 ∧ 24 <= hl ∧
  hl = 24 + (if Z.land f1 3 =? 3 then 6 else 0) + (if Z.land f0 0x88 =? 0x88 then 2 else 0).
Proof.
  destruct f as [|f0 [|f1 f]]; [done..|]. unfold header_len. set (n := 24 + _ + _).
  assert (24 <= n) by (subst n; repeat case_match; lia). destruct (Z.leb_spec n (zlen (f0 :: f1 :: f))) as [Hle|]; [|done].
  intros [= <-]. exists f0, f1, (take (Z.to_nat (n - 2)) f), (drop (Z.to_nat (n - 2)) f). cbn [app].
  rewrite take_drop. cbn [length] in Hle. split_and!; [done| |done|done]. rewrite length_take. lia.
Qed.

Lemma header_len_same f0 f1 f1' t x y hl : header_len ([f0; f1] ++ t ++ x) = Some hl → zlen t = hl - 2 →
  Z.land f1 3 = Z.land f1' 3 → header_len ([f0; f1'] ++ t ++ y) = Some hl.
Proof.
  unfold header_len. cbn [app]. intros Hh Ht Hf. rewrite <- Hf. revert Hh. destruct (_ <=? zlen (f0 :: f1 :: _)); [|done].
  intros [= Hh]. rewrite Hh, (proj2 (Z.leb_le _ _)); [done|]. cbn [length]. rewrite length_app. lia.
Qed.

(** The nonce and additional data do not depend on the body, nor on the bits
    of byte 1 they mask. *)
Lemma nonce_aad_same f0 f1 f1' t x y hl pn : zlen t = hl - 2 → 24 <= hl →
  hl = 24 + (if Z.land f1 3 =? 3 then 6 else 0) + (if Z.land f0 0x88 =? 0x88 then 2 else 0) →
  Z.land f1 3 = Z.land f1' 3 → Z.lor (clear_bits f1 0x38) PROTECTED = Z.lor (clear_bits f1' 0x38) PROTECTED →
  nonce_aad ([f0; f1] ++ t ++ x) hl pn = nonce_aad ([f0; f1'] ++ t ++ y) hl pn.
Proof.
  intros Ht H24 Hhl H3 Hp.
  assert (Hs : ∀ g z a b, 2 <= a → b <= hl → slice ([f0; g] ++ t ++ z) a b = slice t (a - 2) (b - 2)).
  { intros g z a b Ha Hb. rewrite slice_skip by (cbn; lia). cbn [length]. change (Z.of_nat 2) with 2. apply slice_prefix. lia. }
  assert (Hg : ∀ g z i, 2 <= i < hl → zget ([f0; g] ++ t ++ z) i = zget t (i - 2)).
  { intros g z i Hi. rewrite zget_skip by (cbn; lia). cbn [length]. change (Z.of_nat 2) with 2. apply zget_prefix. lia. }
  unfold nonce_aad. cbn [mbind option_bind zget app length]. cbn -[slice zget] in *.
  assert (E0 : ∀ g z, zget (f0 :: g :: t ++ z) 0 = Some f0) by done. rewrite !E0.
  assert (E1 : ∀ g z, zget (f0 :: g :: t ++ z) 1 = Some g) by done. rewrite !E1. cbn [mbind option_bind].
  rewrite <- H3, Hp.
  rewrite !(Hs _ _ 10 16), !(Hs _ _ 4 22), !(Hg _ _ 22) by lia.
  assert (Eq : ∀ z g, (if Z.land f0 136 =? 136 then x0 ← zget (f0 :: g :: t ++ z) (hl - 2); Some (Z.land x0 15) else Some 0) =
    (if Z.land f0 136 =? 136 then x0 ← zget t (hl - 2 - 2); Some (Z.land x0 15) else Some 0)).
  { intros z g. destruct (_ =? 136); [|done]. by rewrite Hg by lia. }
  rewrite !Eq. assert (Ea : ∀ z g, (if Z.land f1 3 =? 3 then slice (f0 :: g :: t ++ z) 24 30 else Some []) =
    (if Z.land f1 3 =? 3 then slice t 22 28 else Some [])).
  { intros z g. destruct (Z.land f1 3 =? 3) eqn:E; [|done]. rewrite Hs; [done|lia|]. destruct (_ =? 136); lia. }
  by rewrite !Ea.
Qed.

Lemma ccmp_header_split pn key_id : 0 <= pn < 2 ^ 48 → 0 <= key_id < 4 →
  ∃ p0 p1 h3 p2 p3 p4 p5, ccmp_header pn key_id = [p0; p1; 0; h3; p2; p3; p4; p5] ∧
    le_val [p0; p1; p2; p3; p4; p5; 0; 0] = pn ∧ Z.land h3 EXT_IV ≠ 0 ∧ Z.shiftr h3 6 = key_id.
Proof.
  intros Hp Hk. pose proof (le_val_bytes 6 pn) as Hv. change (256 ^ Z.of_nat 6) with (2 ^ 48) in Hv. specialize (Hv Hp).
  set (h3 := Z.lor EXT_IV (Z.shiftl key_id 6 mod 256)).
  assert (Hh : Z.land h3 EXT_IV ≠ 0 ∧ Z.shiftr h3 6 = key_id).
  { assert (key_id = 0 ∨ key_id = 1 ∨ key_id = 2 ∨ key_id = 3) as Hc by lia. subst h3.
    destruct Hc as [-> | [-> | [-> | ->]]]; done. }
  unfold ccmp_header. fold h3. clearbody h3. cbn [le_bytes take drop app] in *. do 7 eexists. split; [reflexivity|].
  split; [|done]. cbn [le_val] in *. lia.
Qed.

Lemma byte_masks b : is_byte b →
  Z.land b 3 = Z.land (Z.lor b PROTECTED) 3 ∧
  Z.lor (clear_bits b 0x38) PROTECTED = Z.lor (clear_bits (Z.lor b PROTECTED) 0x38) PROTECTED ∧
  Z.land (Z.lor b PROTECTED) PROTECTED ≠ 0 ∧
  (Z.land b PROTECTED = 0 → clear_bits (Z.lor b PROTECTED) PROTECTED = b).
Proof.
  intros Hb. pose proof (byte_check (λ b, (Z.land b 3 =? Z.land (Z.lor b PROTECTED) 3) &&
    (Z.lor (clear_bits b 0x38) PROTECTED =? Z.lor (clear_bits (Z.lor b PROTECTED) 0x38) PROTECTED) &&
    negb (Z.land (Z.lor b PROTECTED) PROTECTED =? 0) &&
    (negb (Z.land b PROTECTED =? 0) || (clear_bits (Z.lor b PROTECTED) PROTECTED =? b))) ltac:(vm_compute; reflexivity) b Hb) as Hc.
  cbn beta in Hc. rewrite !andb_true_iff, !negb_true_iff, orb_true_iff, negb_true_iff, !Z.eqb_eq, !Z.eqb_neq in Hc.
  destruct Hc as [[[H1 H2] H3] H4]. split_and!; try done. intros H0. by destruct H4.
Qed.

(** An encrypted data frame decrypts, under its key, to the frame and the
    packet number it was sent as. *)
Lemma decrypt_encrypt key pn key_id f e : Forall is_byte f → 0 <= pn < 2 ^ 48 → 0 <= key_id < 4 →
  (∀ b, zget f 1 = Some b → Z.land b PROTECTED = 0) → encrypt key pn key_id f = Some (Some e) →
  key_pn e = Some (key_id, pn) ∧ decrypt key e = Some (Some (f, pn)).
Proof.
  intros Hf Hpn Hid Hclear He. unfold encrypt in He. destruct (header_len f) as [hl|] eqn:Ehl; [|done].
  destruct (header_len_some f hl Ehl) as (f0&f1&t&x&->&Ht&H24&Hhl). specialize (Hclear f1 eq_refl).
  assert (Hb : is_byte f1) by (cbn in Hf; by inversion_clear Hf as [|? ? _ Hf1]; inversion_clear Hf1).
  destruct (byte_masks f1 Hb) as (M1&M2&M3&M4).
  destruct (nonce_aad _ _ _) as [[nonce aad]|] eqn:En; [|done]. cbn [mbind option_bind] in He.
  assert (Hd : drop (Z.to_nat hl) ([f0; f1] ++ t ++ x) = x ∧ ∀ g z, take (Z.to_nat hl) ([f0; g] ++ t ++ z) = [f0; g] ++ t).
  { split; [rewrite app_assoc; apply drop_app_length'; rewrite length_app; cbn; lia|].
    intros g z. rewrite app_assoc. apply take_app_length'. rewrite length_app. cbn. lia. }
  destruct Hd as [Hd Htk]. rewrite Hd, Htk in He. destruct (ccm_encrypt key nonce aad x) as [[body tag]|] eqn:Ec; [|done].
  assert (e = [f0; Z.lor f1 PROTECTED] ++ t ++ ccmp_header pn key_id ++ body ++ tag) as -> by (by injection He).
  clear He. destruct (ccm_roundtrip _ _ _ _ _ _ Ec) as (Lb&Lt&Dec).
  destruct (ccmp_header_split pn key_id Hpn Hid) as (p0&p1&h3&p2&p3&p4&p5&Eh&Ev&Eiv&Eid).
  set (g1 := Z.lor f1 PROTECTED) in *.
  assert (Lh : length (ccmp_header pn key_id) = 8%nat) by (by rewrite Eh).
  assert (Ehl' : header_len ([f0; g1] ++ t ++ ccmp_header pn key_id ++ body ++ tag) = Some hl) by (by eapply header_len_same).
  assert (Ek : key_pn ([f0; g1] ++ t ++ ccmp_header pn key_id ++ body ++ tag) = Some (key_id, pn)).
  { unfold key_pn. rewrite Ehl'. cbn [mbind option_bind].
    assert (Es : slice ([f0; g1] ++ t ++ ccmp_header pn key_id ++ body ++ tag) hl (hl + CCMP_HDR) = Some (ccmp_header pn key_id)).
    { unfold CCMP_HDR. rewrite slice_skip by (cbn; lia). rewrite slice_skip by (cbn; lia). apply slice_here; cbn; lia. }
    rewrite Es. cbn [mbind option_bind]. rewrite Eh. cbn [app].
    rewrite (proj2 (Z.eqb_neq _ _) M3), (proj2 (Z.eqb_neq _ _) Eiv). cbn [orb]. by rewrite Eid, Ev. }
  split; [done|]. unfold decrypt. rewrite Ehl', Ek.
  rewrite (proj2 (Z.ltb_ge _ _)) by (rewrite !length_app, Lh, Lt; unfold CCMP_HDR, CCMP_MIC; cbn; lia).
  rewrite <- (nonce_aad_same f0 f1 g1 t x) by done. rewrite En. cbn [mbind option_bind].
  assert (Hr : drop (Z.to_nat (hl + CCMP_HDR)) ([f0; g1] ++ t ++ ccmp_header pn key_id ++ body ++ tag) = body ++ tag).
  { rewrite (app_assoc t), (app_assoc [f0; g1]). apply drop_app_length'. rewrite !length_app, Lh. unfold CCMP_HDR. cbn. lia. }
  rewrite Hr, length_app, Lt. change (Z.to_nat CCMP_MIC) with 8%nat.
  replace (length body + 8 - 8)%nat with (length body) by lia. rewrite take_app_length, drop_app_length, Dec, Htk.
  cbn [map_fc1 app]. by rewrite M4.
Qed.
End facts.
