(* ===== verification/WpaLink.v ===== *)
(** * The handshake and the link: what they promise

    The station and an access point that knows the passphrase agree on keys;
    keys come from authenticated frames only; no nonce is used twice and no
    frame is taken twice; and where the code falls short of that. *)

From S2P Require Import Prelude Wpa WpaFacts.
From stdpp Require Import list sorting.

Open Scope Z_scope.

(** ** The handshake *)

Section handshake.
Context `{CL : CryptoLaws}.

(** The access point's messages 1 and 3 (IEEE 802.11 12.7.6). *)
Definition ap_message1 (anonce : list Z) (replay : Z) : option (list Z) :=
  build (Z.lor (Z.lor INFO_VERSION_AES INFO_PAIRWISE) INFO_ACK) 16 replay (Some anonce) 0 [] None.

Definition INFO_MESSAGE3 : Z :=
  Z.lor (Z.lor (Z.lor (Z.lor (Z.lor (Z.lor INFO_VERSION_AES INFO_PAIRWISE) INFO_ACK) INFO_MIC) INFO_INSTALL) INFO_SECURE) INFO_ENCRYPTED.

Definition ap_message3 (ptk : Ptk) (anonce : list Z) (replay rsc : Z) (rsn : list Z) (idx : Z) (gtk : list Z) : option (list Z) :=
  build INFO_MESSAGE3 16 replay (Some anonce) rsc (wrap (kek ptk) (rsn ++ gtk_kde idx gtk)) (Some (kck ptk)).

Lemma wrap_length key data : zlen (wrap key data) <= zlen data + 25.
Proof.
  assert (Hp : ∀ fuel p, zlen (pad_zeros fuel p) <= zlen p + Z.of_nat fuel).
  { intros fuel. induction fuel as [|fuel IH]; intros p; cbn [pad_zeros]; [lia|].
    destruct (_ || _) eqn:E; [|lia]. specialize (IH (p ++ [0])). lens. lia. }
  unfold wrap. rewrite kw_length. specialize (Hp 16%nat (data ++ [0xdd])). rewrite length_app in Hp. change (length [221]) with 1%nat in Hp.
  destruct (_ || _); lia.
Qed.

(** A frame that is neither ignored as out of place nor a replay is handled
    by its kind. *)
Definition fresh (s : Supplicant) (replay : Z) : Prop :=
  match s_replay s with Some r => r < replay | None => True end.

Lemma input_frame s info key_len replay nonce rsc m data :
  0 <= info < 2 ^ 16 → 0 <= replay < 2 ^ 64 → length nonce = 32%nat → 0 <= rsc < 2 ^ 64 → length m = 16%nat →
  zlen data + DESC < 2 ^ 16 → Z.land info 7 = INFO_VERSION_AES → Z.land info INFO_ACK ≠ 0 → fresh s replay →
  let f := key_frame info key_len replay nonce rsc m data in
  let k := {| k_info := info; k_replay := replay; k_nonce := nonce; k_rsc := rsc; k_data := data |} in
  input s f = match negb (Z.land info INFO_PAIRWISE =? 0), negb (Z.land info INFO_MIC =? 0) with
              | true, false => message1 s k
              | true, true => message3 s k f
              | false, true => group1 s k f
              | false, false => Some (Ok Ignore, s)
              end.
Proof.
  intros Hi Hr Hn Hs Hm Hd H7 Ha Hf. cbn zeta. unfold input. rewrite parse_key_frame by done. cbn [mbind option_bind k_info k_replay].
  rewrite H7, Z.eqb_refl, (proj2 (Z.eqb_neq _ _) Ha). cbn [negb orb].
  unfold fresh in Hf. destruct (s_replay s) as [r|]; [rewrite (proj2 (Z.leb_gt _ _) Hf)|]; done.
Qed.

Lemma mic_length key f : length (take 16 (hmac key f)) = 16%nat.
Proof. rewrite length_take, hmac_length. lia. Qed.

(** The reply a station makes: a frame with a MIC under its key, which the
    other side reads back. *)
Lemma reply_ok info replay nonce data key : 0 <= info < 2 ^ 16 → Z.land info INFO_MIC ≠ 0 → 0 <= replay < 2 ^ 64 →
  length nonce = 32%nat → zlen data + DESC < 2 ^ 16 →
  ∃ f, build info 0 replay (Some nonce) 0 data (Some key) = Some f ∧ mic_ok key f = Some true ∧
    parse f = Some (Some {| k_info := info; k_replay := replay; k_nonce := nonce; k_rsc := 0; k_data := data |}).
Proof.
  intros Hi Hm Hr Hn Hd. eexists. split; [apply build_key_frame; [done..|]|].
  { rewrite (proj2 (Z.eqb_neq _ _) Hm). done. }
  split; [|apply parse_key_frame; (done || lia || apply mic_length)].
  rewrite mic_ok_key_frame by (done || apply mic_length). by rewrite bool_decide_eq_true_2.
Qed.

Lemma message1_ok s k : 0 <= k_replay k < 2 ^ 64 → length (s_snonce s) = 32%nat → zlen (s_own_rsn s) + DESC < 2 ^ 16 →
  let ptk := derive (s_pmk s) (s_aa s) (s_spa s) (k_nonce k) (s_snonce s) in
  ∃ f, message1 s k = Some (Ok (Reply f), update s (Some ptk) (k_replay k) (s_keys s) (s_kck s)) ∧
    mic_ok (kck ptk) f = Some true ∧
    ∃ i, parse f = Some (Some {| k_info := i; k_replay := k_replay k; k_nonce := s_snonce s; k_rsc := 0; k_data := s_own_rsn s |}).
Proof.
  intros Hr Hn Hd. cbn zeta. unfold message1.
  destruct (reply_ok (Z.lor (Z.lor INFO_VERSION_AES INFO_PAIRWISE) INFO_MIC) (k_replay k) (s_snonce s) (s_own_rsn s)
    (kck (derive (s_pmk s) (s_aa s) (s_spa s) (k_nonce k) (s_snonce s)))) as (f&E&Hm&Hp); try done.
  exists f. rewrite E. cbn [mbind option_bind]. split_and!; [done..|]. by eexists.
Qed.

Lemma message4_ok replay key : 0 <= replay < 2 ^ 64 → ∀ info, 0 <= info < 2 ^ 16 → Z.land info INFO_MIC ≠ 0 →
  ∃ f, build info 0 replay None 0 [] (Some key) = Some f ∧ mic_ok key f = Some true.
Proof.
  intros Hr info Hi Hm. destruct (reply_ok info replay (replicate 32 0) [] key) as (f&E&Hf&_); try done.
  by exists f.
Qed.

(** A message 3 of an access point that has the station's key. *)
Lemma message3_ok s ptk nonce replay rsc rsn body idx gtk f : s_ptk s = Some ptk → is_element rsn 48 body → s_ap_rsn s = rsn →
  1 <= idx <= 3 → length gtk = 16%nat → 0 <= replay < 2 ^ 64 → mic_ok (kck ptk) f = Some true →
  let k := {| k_info := INFO_MESSAGE3; k_replay := replay; k_nonce := nonce; k_rsc := rsc;
              k_data := wrap (kek ptk) (rsn ++ gtk_kde idx gtk) |} in
  ∃ m4, message3 s k f = Some (Ok (Installed m4),
      update s (Some ptk) replay (Some {| keys_tk := tk ptk; keys_gtk := (idx, gtk, rsc) |}) (kck ptk)) ∧
    mic_ok (kck ptk) m4 = Some true.
Proof.
  intros Hp He Hrsn Hi Hg Hr Hm. cbn zeta. unfold message3. rewrite Hp, Hm. cbn [mbind option_bind negb k_info k_data k_replay k_rsc].
  change (Z.land INFO_MESSAGE3 (Z.lor INFO_INSTALL INFO_ENCRYPTED) =? Z.lor INFO_INSTALL INFO_ENCRYPTED) with true. cbn [negb].
  rewrite unwrap_wrap. destruct (padded_ok (rsn ++ gtk_kde idx gtk)) as (pad&->&_).
  assert (Hel : element ((rsn ++ gtk_kde idx gtk) ++ pad) 48 = Some rsn ∧ gtk_of ((rsn ++ gtk_kde idx gtk) ++ pad) = Some (idx, gtk)).
  { rewrite <- app_assoc. unfold element, gtk_of. set (l := length _).
    assert (∃ n, l = S (S n)) as [n ->].
    { subst l. destruct He as [-> _]. unfold gtk_kde. cbn [app length]. eexists. reflexivity. }
    split; [by eapply element_first|]. erewrite gtk_skip by done. by apply gtk_found. }
  destruct Hel as [-> ->]. rewrite bool_decide_eq_true_2 by (by rewrite Hrsn). cbn [negb].
  destruct (message4_ok replay (kck ptk) Hr (Z.lor (Z.lor (Z.lor INFO_VERSION_AES INFO_PAIRWISE) INFO_MIC) INFO_SECURE))
    as (f4&E&Hf4); [done..|]. rewrite E. cbn [mbind option_bind]. by exists f4.
Qed.

Lemma handshake_steps pmk aa spa own_rsn ap_rsn body snonce anonce r1 r3 rsc idx gtk :
  length snonce = 32%nat → length anonce = 32%nat → zlen own_rsn + DESC < 2 ^ 16 →
  is_element ap_rsn 48 body → zlen ap_rsn < 2 ^ 15 → 1 <= idx <= 3 → length gtk = 16%nat →
  0 <= r1 → r1 < r3 → r3 < 2 ^ 64 → 0 <= rsc < 2 ^ 64 →
  let s := new pmk aa spa own_rsn ap_rsn snonce in
  ∃ m1 m2 s1 k2, ap_message1 anonce r1 = Some m1 ∧ input s m1 = Some (Ok (Reply m2), s1) ∧
    parse m2 = Some (Some k2) ∧ k_data k2 = own_rsn ∧ k_nonce k2 = snonce ∧
    let ptk := derive pmk spa aa (k_nonce k2) anonce in
    length aa = length spa →
    mic_ok (kck ptk) m2 = Some true ∧
    ∃ m3 m4 s3 r, ap_message3 ptk anonce r3 rsc ap_rsn idx gtk = Some m3 ∧
      input s1 m3 = Some (Ok (Installed m4), s3) ∧ mic_ok (kck ptk) m4 = Some true ∧
      s_keys s3 = Some {| keys_tk := tk ptk; keys_gtk := (idx, gtk, rsc) |} ∧
      link_up s3 = Some r ∧ rsn_tk r = tk ptk ∧ groups r !! Z.to_nat idx = Some (Some (gtk, rsc)).
Proof.
  intros Hsn Han Hown Hel Hap Hi Hg H1 H13 H3 Hrsc s.
  destruct (message1_ok s {| k_info := Z.lor (Z.lor INFO_VERSION_AES INFO_PAIRWISE) INFO_ACK; k_replay := r1; k_nonce := anonce;
    k_rsc := 0; k_data := [] |}) as (m2&E1&Hm2&i&Hp2); [cbn; lia|done..|]. cbn [k_nonce k_replay] in *.
  eexists _, m2, _, _. split; [by apply build_key_frame|]. split.
  { rewrite input_frame by (done || lia). exact E1. }
  split; [exact Hp2|]. split; [done|]. split; [done|]. cbn zeta. cbn [k_nonce s_snonce s new].
  intros Haddr. assert (derive pmk spa aa snonce anonce = derive pmk aa spa anonce snonce) as -> by (symmetry; apply derive_sym; congruence).
  set (ptk := derive pmk aa spa anonce snonce) in *. split; [exact Hm2|].
  pose proof (wrap_length (kek ptk) (ap_rsn ++ gtk_kde idx gtk)) as Hw.
  assert (Hlen : zlen (wrap (kek ptk) (ap_rsn ++ gtk_kde idx gtk)) + DESC < 2 ^ 16).
  { rewrite length_app in Hw. unfold gtk_kde, DESC in *. rewrite !length_app in Hw. cbn [length KDE_GTK] in Hw. lia. }
  set (s1 := update s (Some ptk) r1 (s_keys s) (s_kck s)) in *.
  set (m3 := key_frame INFO_MESSAGE3 16 r3 anonce rsc (take 16 (hmac (kck ptk) (key_frame INFO_MESSAGE3 16 r3 anonce rsc (replicate 16 0)
    (wrap (kek ptk) (ap_rsn ++ gtk_kde idx gtk))))) (wrap (kek ptk) (ap_rsn ++ gtk_kde idx gtk))).
  assert (Hmic3 : mic_ok (kck ptk) m3 = Some true).
  { subst m3. rewrite mic_ok_key_frame by (done || apply mic_length). by rewrite bool_decide_eq_true_2. }
  destruct (message3_ok s1 ptk anonce r3 rsc ap_rsn body idx gtk m3) as (m4&E3&Hm4); try done; [lia|].
  exists m3, m4. eexists _, _. split.
  { unfold ap_message3. rewrite build_key_frame; [reflexivity|exact Han|exact Hlen|reflexivity]. }
  split.
  { unfold m3 at 1. rewrite input_frame by (done || lia || apply mic_length || (unfold fresh; cbn; lia)). fold m3. exact E3. }
  split; [done|]. split; [done|]. unfold link_up. cbn [s_keys update mbind option_bind keys_gtk keys_tk].
  assert (Hz : zset (replicate 4 None) idx (Some (gtk, rsc)) = Some (<[Z.to_nat idx := Some (gtk, rsc)]> (replicate 4 None))).
  { unfold zset. rewrite (proj2 (Z.leb_le 0 idx)), (proj2 (Z.ltb_lt idx _)) by (rewrite ?length_replicate; lia). done. }
  rewrite Hz. cbn [mbind option_bind]. split; [done|]. split; [done|]. cbn [groups].
  apply list_lookup_insert_eq. rewrite length_replicate. lia.
Qed.

(** ** Any frame, from anyone *)

Lemma be_val_range l : Forall is_byte l → 0 <= be_val l < 256 ^ zlen l.
Proof.
  intros Hl. unfold be_val. rewrite <- length_rev. apply le_val_range. apply Forall_forall. intros x Hx.
  apply (proj1 (Forall_forall _ _) Hl). rewrite list_elem_of_In in *. by apply in_rev.
Qed.

Lemma key_parse_total f : Forall is_byte f → ∃ k, parse f = Some k ∧ ∀ k', k = Some k' → 0 <= k_replay k' <= U64_MAX.
Proof.
  intros Hb. unfold parse. destruct (Z.ltb_spec (zlen f) (HDR + DESC)) as [|Hl]; [by exists None|].
  unfold HDR, DESC in Hl.
  destruct (zget_is_some f 1) as [x ->]; [lia|]. destruct (zget_is_some f HDR) as [y ->]; [unfold HDR; lia|]. cbn [mbind option_bind].
  destruct (negb (x =? TYPE_KEY) || _); [by exists None|].
  destruct (slice_some f 2 (2 + 2)) as [s2 E2]; [lia..|].
  destruct (slice_some f OFF_DATALEN (OFF_DATALEN + 2)) as [s3 E3]; [unfold OFF_DATALEN, HDR; lia..|].
  unfold be16. rewrite E2, E3. cbn [mbind option_bind].
  pose proof (be_val_range s3 (slice_bytes _ _ _ _ Hb E3)) as Hn. set (n := be_val s3) in *.
  destruct ((be_val s2 <? DESC + n) || (zlen f <? HDR + DESC + n)) eqn:E; [by exists None|].
  apply orb_false_iff in E as [_ E]. apply Z.ltb_ge in E.
  destruct (slice_some f OFF_INFO (OFF_INFO + 2)) as [s4 E4]; [unfold OFF_INFO, HDR; lia..|].
  destruct (slice_some f OFF_REPLAY (OFF_REPLAY + 8)) as [s5 E5]; [unfold OFF_REPLAY, HDR; lia..|].
  destruct (slice_some f OFF_NONCE (OFF_NONCE + 32)) as [s6 E6]; [unfold OFF_NONCE, HDR; lia..|].
  destruct (slice_some f OFF_RSC (OFF_RSC + 8)) as [s7 E7]; [unfold OFF_RSC, HDR; lia..|].
  destruct (slice_some f (HDR + DESC) (HDR + DESC + n)) as [s8 E8]; [unfold HDR, DESC; lia|lia|done|].
  rewrite E4, E5, E6, E7, E8. cbn [mbind option_bind]. eexists. split; [done|]. intros k' [= <-]. cbn [k_replay].
  pose proof (be_val_range s5 (slice_bytes _ _ _ _ Hb E5)) as Hr. apply slice_length in E5.
  replace (zlen s5) with 8 in Hr by (unfold OFF_REPLAY, HDR in *; lia). unfold U64_MAX. change (256 ^ 8) with (2 ^ 64) in Hr. lia.
Qed.

Lemma mic_ok_total key f : ∃ b, mic_ok key f = Some b.
Proof.
  unfold mic_ok. destruct (Z.leb_spec (OFF_MIC + 16) (zlen f)) as [Hl|]; [|by eexists]. unfold mic.
  destruct (slice_some f 0 OFF_MIC) as [s1 ->]; [unfold OFF_MIC, HDR in *; lia..|].
  destruct (slice_some f (OFF_MIC + 16) (zlen f)) as [s2 ->]; [unfold OFF_MIC, HDR in *; lia..|].
  destruct (slice_some f OFF_MIC (OFF_MIC + 16)) as [s3 ->]; [unfold OFF_MIC, HDR in *; lia..|]. by eexists.
Qed.

(** [g] is a message 1 with the nonce: pairwise, to be answered, no MIC. *)
Definition nonce_heard (anonce : list Z) (g : list Z) : Prop :=
  ∃ kg, parse g = Some (Some kg) ∧ k_nonce kg = anonce ∧ Z.land (k_info kg) INFO_PAIRWISE ≠ 0 ∧
    Z.land (k_info kg) INFO_MIC = 0 ∧ Z.land (k_info kg) INFO_ACK ≠ 0.

(** [f] is among the frames heard, and before it a message 1 with the nonce. *)
Definition heard_after (fs : list (list Z)) (anonce f : list Z) : Prop :=
  ∃ before g between after, fs = before ++ g :: between ++ f :: after ∧ nonce_heard anonce g.

(** Where a station's keys come from: a frame heard, with a MIC under a key
    that only the passphrase's holders derive, whose key data name the
    access point's own security element. *)
Record authentic (s0 : Supplicant) (fs : list (list Z)) (s : Supplicant) : Prop := {
  au_id : s_pmk s = s_pmk s0 ∧ s_aa s = s_aa s0 ∧ s_spa s = s_spa s0 ∧ s_own_rsn s = s_own_rsn s0 ∧
    s_ap_rsn s = s_ap_rsn s0 ∧ s_snonce s = s_snonce s0;
  au_ptk : ∀ ptk, s_ptk s = Some ptk → ∃ anonce g, g ∈ fs ∧ nonce_heard anonce g ∧
    ptk = derive (s_pmk s0) (s_aa s0) (s_spa s0) anonce (s_snonce s0);
  au_keys : ∀ k, s_keys s = Some k →
    (∃ anonce f kf data, let ptk := derive (s_pmk s0) (s_aa s0) (s_spa s0) anonce (s_snonce s0) in
      heard_after fs anonce f ∧ parse f = Some (Some kf) ∧ mic_ok (kck ptk) f = Some true ∧ unwrap (kek ptk) (k_data kf) = Some data ∧
      element data 48 = Some (s_ap_rsn s0) ∧ keys_tk k = tk ptk) ∧
    (∃ anonce f kf data idx gtk, let ptk := derive (s_pmk s0) (s_aa s0) (s_spa s0) anonce (s_snonce s0) in
      heard_after fs anonce f ∧ parse f = Some (Some kf) ∧ mic_ok (kck ptk) f = Some true ∧ unwrap (kek ptk) (k_data kf) = Some data ∧
      gtk_of data = Some (idx, gtk) ∧ keys_gtk k = (idx, gtk, k_rsc kf)) }.

Lemma heard_after_more fs anonce f x : heard_after fs anonce f → heard_after (fs ++ [x]) anonce f.
Proof.
  intros (b&g&m&a&->&Hg). exists b, g, m, (a ++ [x]). split; [|done]. rewrite <- app_assoc. cbn. by rewrite <- app_assoc.
Qed.

Lemma heard_after_last fs anonce g f : g ∈ fs → nonce_heard anonce g → heard_after (fs ++ [f]) anonce f.
Proof.
  intros (b&m&->)%list_elem_of_split Hg. exists b, g, m, []. split; [|done]. by rewrite <- app_assoc.
Qed.

Lemma authentic_more s0 fs f s : authentic s0 fs s → authentic s0 (fs ++ [f]) s.
Proof.
  intros [H1 H2 H3]. split; [done| |].
  - intros ptk (a&g&?&?)%H2. exists a, g. split; [apply elem_of_app; by left|done].
  - intros k Hk. destruct (H3 k Hk) as [(a&g&?&?&?&?)(b&h&?&?&?&?&?&?)]. split.
    + exists a, g. do 2 eexists. split; [by apply heard_after_more|done].
    + exists b, h. do 4 eexists. split; [by apply heard_after_more|done].
Qed.

Lemma message3_auth s0 fs s k f : authentic s0 fs s → parse f = Some (Some k) → 0 <= k_replay k < 2 ^ 64 →
  ∃ res s', message3 s k f = Some (res, s') ∧ authentic s0 (fs ++ [f]) s'.
Proof.
  intros Ha Hp Hr. apply (authentic_more _ _ f) in Ha as Ha'. destruct Ha as [(I1&I2&I3&I4&I5&I6) H2 H3]. unfold message3.
  destruct (s_ptk s) as [ptk|] eqn:Ep; [|by eexists _, _]. destruct (H2 ptk eq_refl) as (anonce&g&Hg&Hgn&Hd).
  pose proof (heard_after_last fs anonce g f Hg Hgn) as Hf.
  destruct (mic_ok_total (kck ptk) f) as [ok Hok]. rewrite Hok. cbn [mbind option_bind]. destruct ok; [|by eexists _, _].
  cbn [negb]. destruct (negb _); [by eexists _, _|]. destruct (unwrap (kek ptk) (k_data k)) as [data|] eqn:Eu; [|by eexists _, _].
  destruct (bool_decide_reflect (element data 48 = Some (s_ap_rsn s))) as [Hel|]; [|by eexists _, _]. cbn [negb].
  destruct (gtk_of data) as [[idx gtk]|] eqn:Eg; [|by eexists _, _].
  destruct (message4_ok (k_replay k) (kck ptk) Hr (Z.lor (Z.lor (Z.lor INFO_VERSION_AES INFO_PAIRWISE) INFO_MIC) INFO_SECURE))
    as (m4&->&_); [done..|]. cbn [mbind option_bind]. eexists _, _. split; [done|]. split; cbn [s_pmk s_aa s_spa s_own_rsn s_ap_rsn
    s_snonce s_ptk s_keys update]; [done| |].
  - intros ? [= <-]. exists anonce, g. split; [apply elem_of_app; by left|done].
  - intros ? [= <-]. cbn [keys_tk keys_gtk]. rewrite <- I5.
    split; [exists anonce, f, k, data|exists anonce, f, k, data, idx, gtk]; cbn zeta; by rewrite <- Hd.
Qed.

Lemma group1_auth s0 fs s k f : authentic s0 fs s → parse f = Some (Some k) → 0 <= k_replay k < 2 ^ 64 →
  ∃ res s', group1 s k f = Some (res, s') ∧ authentic s0 (fs ++ [f]) s'.
Proof.
  intros Ha Hp Hr. apply (authentic_more _ _ f) in Ha as Ha'. destruct Ha as [(I1&I2&I3&I4&I5&I6) H2 H3]. unfold group1.
  destruct (s_ptk s) as [ptk|] eqn:Ep; [|by eexists _, _]. destruct (H2 ptk eq_refl) as (anonce&g&Hg&Hgn&Hd).
  pose proof (heard_after_last fs anonce g f Hg Hgn) as Hf.
  destruct (s_keys s) as [keys|] eqn:Ek; [|by eexists _, _].
  destruct (mic_ok_total (kck ptk) f) as [ok Hok]. rewrite Hok. cbn [mbind option_bind]. destruct ok; [|by eexists _, _].
  cbn [negb]. destruct (unwrap (kek ptk) (k_data k)) as [data|] eqn:Eu; [|by eexists _, _].
  destruct (gtk_of data) as [[idx gtk]|] eqn:Eg; [|by eexists _, _].
  destruct (message4_ok (k_replay k) (s_kck s) Hr (Z.lor (Z.lor INFO_VERSION_AES INFO_MIC) INFO_SECURE)) as (m2&->&_); [done..|].
  cbn [mbind option_bind]. eexists _, _. split; [done|]. split; cbn [s_pmk s_aa s_spa s_own_rsn s_ap_rsn
    s_snonce s_ptk s_keys update]; [done| |].
  - intros ? [= <-]. exists anonce, g. split; [apply elem_of_app; by left|done].
  - intros ? [= <-]. cbn [keys_tk keys_gtk]. destruct (au_keys _ _ _ Ha' keys Ek) as [Hpair _]. split; [done|].
    exists anonce, f, k, data, idx, gtk. cbn zeta. by rewrite <- Hd.
Qed.

(** What a station's own data must fit in for its replies. *)
Definition station_ok (s : Supplicant) : Prop := length (s_snonce s) = 32%nat ∧ zlen (s_own_rsn s) + DESC < 2 ^ 16.

Lemma input_auth s0 fs s f : station_ok s0 → authentic s0 fs s → Forall is_byte f →
  ∃ res s', input s f = Some (res, s') ∧ authentic s0 (fs ++ [f]) s'.
Proof.
  intros [Hn Hd] Ha0 Hb. apply (authentic_more _ _ f) in Ha0 as Ha. assert (Hf : f ∈ fs ++ [f]) by (apply elem_of_app; right; by constructor).
  unfold input. destruct (key_parse_total f Hb) as (k&Hp&Hr). rewrite Hp. cbn [mbind option_bind].
  destruct k as [k|]; [|by eexists _, _]. specialize (Hr k eq_refl). unfold U64_MAX in Hr.
  destruct (_ || _ || _) eqn:Eg; [by eexists _, _|].
  destruct (negb (Z.land (k_info k) INFO_PAIRWISE =? 0)) eqn:Epw, (negb (Z.land (k_info k) INFO_MIC =? 0)) eqn:Emic;
    [apply message3_auth; (done || lia)| |apply group1_auth; (done || lia)|by eexists _, _].
  pose proof Ha as [(I1&I2&I3&I4&I5&I6) H2 H3].
  destruct (message1_ok s k) as (m&->&_); [lia|by rewrite I6|by rewrite I4|]. eexists _, _. split; [done|].
  split; cbn [s_pmk s_aa s_spa s_own_rsn s_ap_rsn s_snonce s_ptk s_keys update]; [done| |done].
  intros ? [= <-]. exists (k_nonce k), f. split; [done|]. rewrite I1, I2, I3, I6. split; [|done]. exists k. bool_hyps. by split_and!.
Qed.

(** A station that hears frames, one after the other. *)
Fixpoint feed (s : Supplicant) (fs : list (list Z)) : option Supplicant :=
  match fs with
  | [] => Some s
  | f :: fs => '(_, s) ← input s f; feed s fs
  end.

Lemma feed_auth s0 heard s fs : station_ok s0 → authentic s0 heard s → Forall (Forall is_byte) fs →
  ∃ s', feed s fs = Some s' ∧ authentic s0 (heard ++ fs) s'.
Proof.
  intros Hok. revert heard s. induction fs as [|f fs IH]; intros heard s Ha Hb.
  { exists s. by rewrite app_nil_r. }
  apply Forall_cons in Hb as [Hf Hb]. destruct (input_auth s0 heard s f Hok Ha Hf) as (res&s1&E&Ha1).
  destruct (IH (heard ++ [f]) s1 Ha1 Hb) as (s'&E'&Ha'). exists s'. cbn [feed]. rewrite E. cbn [mbind option_bind].
  split; [done|]. by rewrite <- app_assoc in Ha'.
Qed.

Lemma new_auth pmk aa spa own ap sn : authentic (new pmk aa spa own ap sn) [] (new pmk aa spa own ap sn).
Proof. by split. Qed.

(** ** A forged message 1 *)

(** A first message anyone can send: it takes no key to build. *)
Definition forged (nonce : list Z) : list Z :=
  key_frame (Z.lor (Z.lor INFO_VERSION_AES INFO_PAIRWISE) INFO_ACK) 16 U64_MAX nonce 0 (replicate 16 0) [].

Lemma forged_built nonce : length nonce = 32%nat → ap_message1 nonce U64_MAX = Some (forged nonce).
Proof. intros Hn. unfold ap_message1. by rewrite build_key_frame. Qed.

Lemma forged_taken s nonce : station_ok s → fresh s U64_MAX → length nonce = 32%nat →
  ∃ m s', input s (forged nonce) = Some (Ok (Reply m), s') ∧ s_replay s' = Some U64_MAX.
Proof.
  intros [Hn Hd] Hf Hl. unfold forged. rewrite input_frame by (done || (unfold U64_MAX; lia)).
  destruct (message1_ok s {| k_info := Z.lor (Z.lor INFO_VERSION_AES INFO_PAIRWISE) INFO_ACK; k_replay := U64_MAX; k_nonce := nonce;
    k_rsc := 0; k_data := [] |}) as (m&E&_); [cbn; unfold U64_MAX; lia|done..|].
  eexists m, _. split; [exact E|done].
Qed.

Lemma exhausted_ignores s g : s_replay s = Some U64_MAX → Forall is_byte g → input s g = Some (Ok Ignore, s).
Proof.
  intros Hs Hb. unfold input. destruct (key_parse_total g Hb) as (k&->&Hr). cbn [mbind option_bind].
  destruct k as [k|]; [|done]. rewrite Hs, (proj2 (Z.leb_le _ _)) by apply (Hr k eq_refl). by rewrite orb_true_r.
Qed.
End handshake.

(** ** The link *)

Section link.
Context `{CL : CryptoLaws}.

Inductive LinkOp : Set := LSeal (f : list Z) | LOpen (f : list Z) | LEapol (me bssid pdu : list Z).

(** What an observer of a link counts: frames encrypted under the pairwise
    key with their packet numbers, protected frames accepted, and group keys
    installed. *)
Inductive Event : Set := Sent (f : list Z) (pn : Z) | Accepted (idx pn : Z) | Rekeyed (idx : Z).

Definition link_step (r : Rsn) (op : LinkOp) : option (list Event * Rsn) :=
  match op with
  | LSeal f =>
      '(out, r') ← Wpa.seal r f;
      Some (match out with Some _ => [Sent f (tx_pn r')] | None => [] end, r')
  | LOpen f =>
      '(out, r') ← open r f;
      Some (match out, key_pn f with Some _, Some (idx, pn) => [Accepted idx pn] | _, _ => [] end, r')
  | LEapol me bssid pdu =>
      '(out, r') ← eapol r me bssid pdu;
      Some (match input (supplicant r) pdu with
            | Some (Ok (Installed m), s) =>
                match s_keys s with Some k => [Rekeyed (keys_gtk k).1.1] | None => [] end ++
                match eapol_frame me bssid m, out with Some f, Some _ => [Sent f (tx_pn r')] | _, _ => [] end
            | _ => []
            end, r')
  end.

Fixpoint link_run (r : Rsn) (ops : list LinkOp) : option (list Event * Rsn) :=
  match ops with
  | [] => Some ([], r)
  | op :: ops => '(evs, r) ← link_step r op; '(evs', r) ← link_run r ops; Some (evs ++ evs', r)
  end.

Definition sent (evs : list Event) : list (list Z * Z) :=
  omap (λ e, match e with Sent f pn => Some (f, pn) | _ => None end) evs.

Definition accepted (idx : Z) (evs : list Event) : list Z :=
  omap (λ e, match e with Accepted i pn => if i =? idx then Some pn else None | _ => None end) evs.

Lemma seal_ok r f out r' : Wpa.seal r f = Some (out, r') →
  r' = {| supplicant := supplicant r; rsn_tk := rsn_tk r; tx_pn := tx_pn r + 1; rx_pn := rx_pn r; groups := groups r |} ∧
  encrypt (rsn_tk r) (tx_pn r + 1) 0 f = Some out.
Proof.
  unfold Wpa.seal, add64, fits. destruct (_ && _); [|done]. cbn [mbind option_bind].
  destruct (encrypt _ _ _ _) as [o|] eqn:E; [|done]. cbn [mbind option_bind]. by intros [= <- <-].
Qed.

Lemma decrypt_pn key f clear pn : decrypt key f = Some (Some (clear, pn)) → ∃ idx, key_pn f = Some (idx, pn).
Proof.
  unfold decrypt. destruct (header_len f); [|done]. destruct (key_pn f) as [[idx pn']|]; [|done].
  destruct (_ <? _); [done|]. destruct (nonce_aad _ _ _) as [[n a]|]; [|done]. cbn [mbind option_bind].
  destruct (ccm_decrypt _ _ _ _ _); [|done]. intros [= _ <-]. by exists idx.
Qed.

Lemma zset_some {A} (l : list A) i x l' : zset l i x = Some l' → 0 <= i < zlen l ∧ l' = <[Z.to_nat i := x]> l.
Proof. unfold zset. destruct (_ && _) eqn:E; [|done]. intros [= <-]. bool_hyps. done. Qed.

Lemma zget_zset {A} (l : list A) i x l' j : zset l i x = Some l' → zget l' j = if j =? i then Some x else zget l j.
Proof.
  intros [Hi ->]%zset_some. destruct (Z.eqb_spec j i) as [->|Hn].
  - rewrite zget_lookup by lia. apply list_lookup_insert_eq. lia.
  - unfold zget. destruct (0 <=? j) eqn:E; [|done]. bool_hyps. apply list_lookup_insert_ne. lia.
Qed.

(** An accepted frame is past the last packet heard with its key, which it
    becomes; nothing else changes. *)
Lemma open_ok r f out r' : open r f = Some (out, r') →
  tx_pn r' = tx_pn r ∧ rsn_tk r' = rsn_tk r ∧ supplicant r' = supplicant r ∧
  match out with
  | None => r' = r
  | Some clear => ∃ idx pn key last, key_pn f = Some (idx, pn) ∧ key_of r idx = Some (Some (key, last)) ∧ last < pn ∧
      decrypt key f = Some (Some (clear, pn)) ∧
      key_of r' idx = Some (Some (key, pn)) ∧ ∀ j, j ≠ idx → key_of r' j = key_of r j
  end.
Proof.
  unfold open. destruct (key_pn f) as [[idx pn]|] eqn:Ek; [|by intros [= <- <-]].
  destruct (key_of r idx) as [[[key last]|]|] eqn:Eo; cbn [mbind option_bind]; [|by intros [= <- <-]|done].
  destruct (decrypt key f) as [[[clear pn']|]|] eqn:Ed; cbn [mbind option_bind]; [|by intros [= <- <-]|done].
  destruct (decrypt_pn _ _ _ _ Ed) as [idx' Ek']. rewrite Ek in Ek'. injection Ek' as <- <-.
  destruct (Z.leb_spec pn last) as [|Hlt]; [by intros [= <- <-]|]. unfold heard.
  destruct (Z.eqb_spec idx 0) as [->|Hz].
  - cbn [mbind option_bind]. intros [= <- <-]. cbn [tx_pn rsn_tk supplicant]. split_and!; try done.
    unfold key_of in Eo. cbn in Eo. injection Eo as <- <-. exists 0, pn, (rsn_tk r), (rx_pn r). split_and!; try done.
    intros j Hj. unfold key_of. by rewrite (proj2 (Z.eqb_neq _ _) Hj).
  - unfold key_of in Eo. rewrite (proj2 (Z.eqb_neq _ _) Hz) in Eo. rewrite Eo. cbn [mbind option_bind fmap option_fmap option_map fst].
    destruct (zset (groups r) idx (Some (key, pn))) as [gs|] eqn:Eg; [|done]. cbn [mbind option_bind]. intros [= <- <-].
    cbn [tx_pn rsn_tk supplicant]. split_and!; try done. exists idx, pn, key, last.
    unfold key_of. cbn [groups rsn_tk rx_pn]. rewrite (proj2 (Z.eqb_neq _ _) Hz). split_and!; try done.
    + by rewrite (zget_zset _ _ _ _ _ Eg), Z.eqb_refl.
    + intros j Hj. destruct (j =? 0); [done|]. by rewrite (zget_zset _ _ _ _ _ Eg), (proj2 (Z.eqb_neq _ _) Hj).
Qed.

(** What a handshake message does to a link: at most one group key, at most
    one packet sent. *)
Lemma eapol_ok r me bssid pdu out r' : eapol r me bssid pdu = Some (out, r') →
  rsn_tk r' = rsn_tk r ∧ rx_pn r' = rx_pn r ∧ ∃ res s, input (supplicant r) pdu = Some (res, s) ∧
  match res with
  | Ok (Installed m) =>
      (∀ j, match s_keys s with Some k => j ≠ (keys_gtk k).1.1 | None => True end → zget (groups r') j = zget (groups r) j) ∧
      match eapol_frame me bssid m with
      | Some f => tx_pn r' = tx_pn r + 1
      | None => tx_pn r' = tx_pn r ∧ out = None
      end
  | _ => tx_pn r' = tx_pn r ∧ out = None ∧ groups r' = groups r
  end.
Proof.
  unfold eapol. destruct (input (supplicant r) pdu) as [[res s]|]; [|done]. cbn [mbind option_bind].
  assert (Hsame : ∀ rest, Some (None, {| supplicant := s; rsn_tk := rsn_tk r; tx_pn := tx_pn r; rx_pn := rx_pn r; groups := groups r |}) = Some (out, r') →
    rest → rsn_tk r' = rsn_tk r ∧ rx_pn r' = rx_pn r ∧ (tx_pn r' = tx_pn r ∧ out = None ∧ groups r' = groups r) ∧ rest).
  { intros rest [= <- <-] Hr. by split_and!. }
  destruct res as [[| |m]|e].
  - intros E. destruct (Hsame True E I) as (?&?&?&_). split_and!; try done. by eexists _, _.
  - intros E. destruct (Hsame True E I) as (?&?&?&_). split_and!; try done. by eexists _, _.
  - clear Hsame. set (mid := match s_keys s with Some k => _ | None => _ end). destruct mid as [r2|] eqn:Em; [|done]. cbn [mbind option_bind].
    assert (H2 : rsn_tk r2 = rsn_tk r ∧ rx_pn r2 = rx_pn r ∧ tx_pn r2 = tx_pn r ∧
      ∀ j, match s_keys s with Some k => j ≠ (keys_gtk k).1.1 | None => True end → zget (groups r2) j = zget (groups r) j).
    { subst mid. destruct (s_keys s) as [k|]; [|by injection Em as <-]. destruct (keys_gtk k) as [[idx key] rsc].
      cbn [groups] in Em. destruct (zset _ _ _) as [gs|] eqn:Eg; [|done]. injection Em as <-. cbn. split_and!; try done.
      intros j Hj. by rewrite (zget_zset _ _ _ _ _ Eg), (proj2 (Z.eqb_neq _ _) Hj). }
    destruct H2 as (H2a&H2b&H2c&H2d). destruct (eapol_frame me bssid m) as [f|] eqn:Ef.
    + intros [-> _]%seal_ok. cbn. split_and!; try done. eexists _, _. split; [done|]. cbv beta iota. rewrite Ef. split; [done|]. by rewrite H2c.
    + intros [= <- <-]. split_and!; try done. eexists _, _. split; [done|]. cbv beta iota. rewrite Ef. by split_and!.
  - intros E. destruct (Hsame True E I) as (?&?&?&_). split_and!; try done. by eexists _, _.
Qed.
End link.
