(* ===== verification/WpaProps.v ===== *)
(** * The properties of the handshake and the link

    Each with an instance of the cryptography (a toy one, which satisfies
    what the code relies on) to show that its hypotheses can be met. *)

From S2P Require Import Prelude Wpa WpaFacts WpaLink.
From stdpp Require Import list sorting.

Open Scope Z_scope.

(** Go on past a bind whose first part must have succeeded. *)
Ltac bind_some := lazymatch goal with |- (?x ≫= _) = _ → _ => destruct x; [cbn [mbind option_bind]|done] end.

Section runs.
Context `{CL : CryptoLaws}.

Lemma step_sent r op evs r' : link_step r op = Some (evs, r') → rsn_tk r' = rsn_tk r ∧
  ((sent evs = [] ∧ tx_pn r <= tx_pn r' <= tx_pn r + 1) ∨ (∃ f, sent evs = [(f, tx_pn r + 1)] ∧ tx_pn r' = tx_pn r + 1)).
Proof.
  destruct op as [f|f|me bssid pdu]; cbn [link_step].
  - destruct (Wpa.seal r f) as [[out r1]|] eqn:E; [|done]. cbn [mbind option_bind]. intros [= <- <-].
    apply seal_ok in E as [-> _]. cbn [tx_pn rsn_tk]. split; [done|]. destruct out; [right; by exists f|left]. split; [done|lia].
  - destruct (open r f) as [[out r1]|] eqn:E; [|done]. cbn [mbind option_bind]. intros [= <- <-].
    apply open_ok in E as (E1&E2&_). split; [done|]. left. rewrite E1. split; [|lia].
    destruct out; [|done]. by destruct (key_pn f) as [[? ?]|].
  - destruct (eapol r me bssid pdu) as [[out r1]|] eqn:E; [|done]. cbn [mbind option_bind]. intros [= <- <-].
    apply eapol_ok in E as (E1&_&res&s&Ei&Hres). split; [done|]. rewrite Ei.
    destruct res as [[| |m]|]; [left; split; [done|lia]..| |left; split; [done|lia]].
    destruct Hres as [_ Hres]. unfold sent. rewrite omap_app.
    assert (Hk : omap (λ e, match e with Sent f pn => Some (f, pn) | _ => None end)
      (match s_keys s with Some k => [Rekeyed (keys_gtk k).1.1] | None => [] end) = []) by (by destruct (s_keys s)).
    rewrite Hk. cbn [app]. destruct (eapol_frame me bssid m) as [f|].
    + destruct out; [right; exists f|left]; rewrite Hres; (split; [done|]); lia.
    + destruct Hres as [-> ->]. left. split; [done|lia].
Qed.

Lemma run_sent r ops evs r' : link_run r ops = Some (evs, r') → rsn_tk r' = rsn_tk r ∧
  tx_pn r <= tx_pn r' <= tx_pn r + zlen ops ∧ StronglySorted Z.lt (sent evs).*2 ∧
  Forall (λ pn, tx_pn r < pn <= tx_pn r') (sent evs).*2.
Proof.
  revert r evs. induction ops as [|op ops IH]; intros r evs; cbn [link_run].
  { intros [= <- <-]. cbn. split_and!; (done || lia || constructor). }
  destruct (link_step r op) as [[e1 r1]|] eqn:E1; [|done]. cbn [mbind option_bind].
  destruct (link_run r1 ops) as [[e2 r2]|] eqn:E2; [|done]. cbn [mbind option_bind]. intros [= <- <-].
  destruct (IH _ _ E2) as (H1&H2&H3&H4). apply step_sent in E1 as [Hk Hs]. unfold sent. rewrite omap_app, fmap_app.
  fold (sent e1) (sent e2). cbn [length]. destruct Hs as [[-> Hx]|(f&->&Hx)]; cbn [fmap list_fmap app snd]; (split_and!; [congruence|lia|lia| |]).
  - done.
  - eapply Forall_impl; [done|]. cbn. lia.
  - constructor; [done|]. eapply Forall_impl; [done|]. cbn. lia.
  - constructor; [lia|]. eapply Forall_impl; [done|]. cbn. lia.
Qed.

(** Packet numbers below 2^48 are in the nonce whole. *)
Lemma nonce_pn f hl pn n a : 0 <= pn < 2 ^ 48 → nonce_aad f hl pn = Some (n, a) → be_val (drop 7 n) = pn.
Proof.
  intros Hp. unfold nonce_aad. do 3 bind_some. destruct (slice f 10 16) as [ta|] eqn:Et; [|done]. cbn [mbind option_bind].
  do 3 bind_some.
  intros [= <- _]. apply slice_length in Et. cbn [drop]. rewrite drop_app_length' by lia.
  transitivity (be_val (be_bytes 6 pn)); [done|]. apply be_val_bytes. change (256 ^ Z.of_nat 6) with (2 ^ 48). done.
Qed.

Lemma le_bytes_wrap n v : le_bytes n (v + 256 ^ Z.of_nat n) = le_bytes n v.
Proof.
  revert v. induction n as [|n IH]; intros v; [done|]. cbn [le_bytes]. rewrite Nat2Z.inj_succ, Z.pow_succ_r by lia.
  rewrite Z.mul_comm, Z.mod_add, Z.div_add by lia. by rewrite IH.
Qed.

(** Past 2^48 packets the nonces begin again: those of a frame 2^48 packets
    later are the same, and [seal] does not stop before that. *)
Lemma nonce_wraps f hl pn : nonce_aad f hl (pn + 2 ^ 48) = nonce_aad f hl pn.
Proof.
  assert (Hd : drop 2 (be_bytes 8 (pn + 2 ^ 48)) = drop 2 (be_bytes 8 pn)).
  { change (be_bytes 6 (pn + 2 ^ 48) = be_bytes 6 pn). unfold be_bytes. f_equal. apply (le_bytes_wrap 6). }
  unfold nonce_aad. by rewrite Hd.
Qed.

Lemma step_accepted r op evs r' idx : link_step r op = Some (evs, r') → idx = 0 ∨ Rekeyed idx ∉ evs →
  (accepted idx evs = [] ∧ key_of r' idx = key_of r idx) ∨
  (∃ pn key last, accepted idx evs = [pn] ∧ key_of r idx = Some (Some (key, last)) ∧ last < pn ∧ key_of r' idx = Some (Some (key, pn))).
Proof.
  destruct op as [f|f|me bssid pdu]; cbn [link_step].
  - destruct (Wpa.seal r f) as [[out r1]|] eqn:E; [|done]. cbn [mbind option_bind]. intros [= <- <-] _.
    apply seal_ok in E as [-> _]. left. split; [by destruct out|done].
  - destruct (open r f) as [[out r1]|] eqn:E; [|done]. cbn [mbind option_bind]. intros [= <- <-] _.
    apply open_ok in E as (_&_&_&Ho). destruct out as [clear|]; [|left; split; [done|by rewrite Ho]].
    destruct Ho as (i&pn&key&last&->&Hk&Hlt&_&Hk'&Hother). unfold accepted. cbn.
    destruct (Z.eqb_spec i idx) as [->|Hn]; [right; by exists pn, key, last|left]. split; [done|]. by apply Hother.
  - destruct (eapol r me bssid pdu) as [[out r1]|] eqn:E; [|done]. cbn [mbind option_bind]. intros [= <- <-] Hno.
    apply eapol_ok in E as (E1&E2&res&s&Ei&Hres). rewrite Ei in *. left.
    destruct res as [[| |m]|]; [destruct Hres as (_&_&Hg)..| |destruct Hres as (_&_&Hg)];
      [by split; [|unfold key_of; rewrite E1, E2, Hg].. | | by split; [|unfold key_of; rewrite E1, E2, Hg]].
    destruct Hres as [Hg _]. split.
    + unfold accepted. rewrite omap_app. destruct (s_keys s), (eapol_frame me bssid m), out; done.
    + unfold key_of. rewrite E1, E2. destruct (Z.eqb_spec idx 0) as [|Hz]; [done|]. apply Hg. destruct (s_keys s) as [k|]; [|done].
      intros ->. destruct Hno as [|Hno]; [done|]. destruct Hno. by constructor.
Qed.

Lemma run_accepted r ops evs r' idx : link_run r ops = Some (evs, r') → idx = 0 ∨ Rekeyed idx ∉ evs →
  StronglySorted Z.lt (accepted idx evs) ∧
  (∀ pn, pn ∈ accepted idx evs → ∃ key last, key_of r idx = Some (Some (key, last)) ∧ last < pn).
Proof.
  revert r evs. induction ops as [|op ops IH]; intros r evs; cbn [link_run].
  { intros [= <- <-] _. split; [constructor|]. by intros ? ?%elem_of_nil. }
  destruct (link_step r op) as [[e1 r1]|] eqn:E1; [|done]. cbn [mbind option_bind].
  destruct (link_run r1 ops) as [[e2 r2]|] eqn:E2; [|done]. cbn [mbind option_bind]. intros [= <- <-] Hno.
  rewrite elem_of_app in Hno. destruct (IH _ _ E2 ltac:(tauto)) as [H1 H2].
  unfold accepted. rewrite omap_app. fold (accepted idx e1) (accepted idx e2).
  destruct (step_accepted _ _ _ _ idx E1 ltac:(tauto)) as [[-> Hk]|(pn&key&last&->&Hk&Hlt&Hk')]; cbn [app].
  - rewrite Hk in H2. done.
  - assert (Hgt : ∀ q, q ∈ accepted idx e2 → pn < q).
    { intros q (key'&l'&Hkl&Hl)%H2. rewrite Hk' in Hkl. injection Hkl as <- <-. done. }
    split; [constructor; [done|]; by apply Forall_forall|].
    intros q [->|Hq]%elem_of_cons; [by exists key, last|]. exists key, last. split; [done|]. specialize (Hgt q Hq). lia.
Qed.

Lemma nonce_aad_total f hl pn : header_len f = Some hl → ∃ n a, nonce_aad f hl pn = Some (n, a).
Proof.
  intros Hh. destruct (header_len_some f hl Hh) as (f0&f1&t&x&->&Ht&H24&Hhl). set (f := [f0; f1] ++ t ++ x).
  assert (Hl : hl <= zlen f) by (subst f; rewrite !length_app; cbn; lia).
  unfold nonce_aad. assert (E0 : zget f 0 = Some f0) by done. assert (E1 : zget f 1 = Some f1) by done. rewrite E0, E1. cbn [mbind option_bind].
  assert (Hq : ∃ q, (if Z.land f0 0x88 =? 0x88 then x ← zget f (hl - 2); Some (Z.land x 15) else Some 0) = Some q).
  { destruct (_ =? 0x88); [|by eexists]. destruct (zget_is_some f (hl - 2)) as [y ->]; [lia|]. by eexists. }
  destruct Hq as [q ->]. cbn [mbind option_bind].
  destruct (slice_some f 10 16) as [ta ->]; [lia..|]. destruct (slice_some f 4 22) as [ad ->]; [lia..|]. cbn [mbind option_bind].
  destruct (zget_is_some f 22) as [sq ->]; [lia|]. cbn [mbind option_bind].
  assert (Ha : ∃ a4, (if Z.land f1 3 =? 3 then slice f 24 30 else Some []) = Some a4).
  { destruct (Z.land f1 3 =? 3) eqn:E3; [|by eexists]. destruct (slice_some f 24 30) as [a4 ->]; [lia..| |by eexists].
    destruct (_ =? 0x88); lia. }
  destruct Ha as [a4 ->]. cbn [mbind option_bind]. by eexists _, _.
Qed.

Lemma seal_total r f : 0 <= tx_pn r < U64_MAX → ∃ out r', Wpa.seal r f = Some (out, r').
Proof.
  intros Hp. unfold Wpa.seal. rewrite add64_in by (unfold U64_MAX in *; lia). cbn [mbind option_bind]. unfold encrypt.
  destruct (header_len f) as [hl|] eqn:E; [|by eexists _, _]. destruct (nonce_aad_total f hl (tx_pn r + 1) E) as (n&a&->).
  cbn [mbind option_bind]. destruct (ccm_encrypt _ _ _ _) as [[? ?]|]; by eexists _, _.
Qed.

Lemma eapol_installs r me bssid pdu m s k idx key rsc : 0 <= tx_pn r < U64_MAX →
  input (supplicant r) pdu = Some (Ok (Installed m), s) → s_keys s = Some k → keys_gtk k = (idx, key, rsc) → 0 <= idx < zlen (groups r) →
  ∃ out r', eapol r me bssid pdu = Some (out, r') ∧ zget (groups r') idx = Some (Some (key, rsc)) ∧ rsn_tk r' = rsn_tk r ∧ rx_pn r' = rx_pn r.
Proof.
  intros Hp Hi Hs Hk Hidx. unfold eapol. rewrite Hi. cbn [mbind option_bind groups]. rewrite Hs, Hk.
  destruct (zset (groups r) idx (Some (key, rsc))) as [gs|] eqn:Eg.
  2:{ unfold zset in Eg. rewrite (proj2 (Z.leb_le _ _)), (proj2 (Z.ltb_lt _ _)) in Eg by lia. done. }
  cbn [mbind option_bind]. pose proof (zget_zset _ _ _ _ idx Eg) as Hg. rewrite Z.eqb_refl in Hg.
  set (r2 := {| supplicant := s; rsn_tk := rsn_tk r; tx_pn := tx_pn r; rx_pn := rx_pn r; groups := gs |}).
  destruct (eapol_frame me bssid m) as [f|]; [|by exists None, r2].
  destruct (seal_total r2 f Hp) as (out&r'&E). exists out, r'. apply seal_ok in E as Hr. destruct Hr as [-> _]. done.
Qed.
End runs.

(** ** A toy instance of the cryptography *)

Definition toy_sum (m : list Z) : Z := foldr (λ b acc, (b + 31 * acc) mod 251) 7 m.

Definition toy : Crypto := {|
  hmac k m := replicate 20 (toy_sum (k ++ m));
  pbkdf2 p s n := replicate 32 (toy_sum (p ++ s));
  kw_wrap k d := replicate 8 0xa6 ++ d;
  kw_unwrap k d := if bool_decide (take 8 d = replicate 8 0xa6) then Some (drop 8 d) else None;
  ccm_encrypt k n a b := Some (b, replicate 8 (toy_sum (k ++ n ++ a ++ b)));
  ccm_decrypt k n a b t := if bool_decide (t = replicate 8 (toy_sum (k ++ n ++ a ++ b))) then Some b else None |}.

Lemma toy_laws : CryptoLaws (H := toy).
Proof.
  split; cbn [hmac kw_wrap kw_unwrap ccm_encrypt ccm_decrypt toy].
  - intros. apply length_replicate.
  - intros. apply Forall_replicate. unfold toy_sum, is_byte. destruct (k ++ m); cbn [foldr]; [lia|].
    match goal with |- context [?x mod 251] => pose proof (Z.mod_pos_bound x 251) end. lia.
  - intros k d _ _. by rewrite bool_decide_eq_true_2.
  - intros. rewrite length_app, length_replicate. lia.
  - intros k n a b c t [= <- <-]. split_and!; [done|done|]. by rewrite bool_decide_eq_true_2.
Qed.

Definition toy_pmk : list Z := replicate 32 5.
Definition toy_aa : list Z := [2; 0; 0x5e; 0; 1; 6].
Definition toy_spa : list Z := [0x52; 0x54; 0; 0x12; 0x34; 0x57].
Definition toy_station : Supplicant := new toy_pmk toy_aa toy_spa RSN_PSK_CCMP RSN_PSK_CCMP (replicate 32 0x22).

Lemma toy_element : is_element RSN_PSK_CCMP 48 (drop 2 RSN_PSK_CCMP).
Proof. by split. Qed.

(** C18: the 4-way handshake with an access point that has the passphrase's
    key ends with both sides having one key: the station answers message 1
    with a message 2 the access point can check under the key it derives,
    takes its message 3, and has that pairwise key and the group key sent. *)
Theorem handshake_agrees `{CL : CryptoLaws} pmk aa spa own_rsn ap_rsn body snonce anonce r1 r3 rsc idx gtk :
  length aa = length spa → length snonce = 32%nat → length anonce = 32%nat → zlen own_rsn + DESC < 2 ^ 16 →
  is_element ap_rsn 48 body → zlen ap_rsn < 2 ^ 15 → 1 <= idx <= 3 → length gtk = 16%nat →
  0 <= r1 → r1 < r3 → r3 < 2 ^ 64 → 0 <= rsc < 2 ^ 64 →
  ∃ m1 m2 s1 k2, ap_message1 anonce r1 = Some m1 ∧
    input (new pmk aa spa own_rsn ap_rsn snonce) m1 = Some (Ok (Reply m2), s1) ∧
    parse m2 = Some (Some k2) ∧ k_data k2 = own_rsn ∧
    let ptk := derive pmk spa aa (k_nonce k2) anonce in
    mic_ok (kck ptk) m2 = Some true ∧
    ∃ m3 m4 s3 r, ap_message3 ptk anonce r3 rsc ap_rsn idx gtk = Some m3 ∧
      input s1 m3 = Some (Ok (Installed m4), s3) ∧ mic_ok (kck ptk) m4 = Some true ∧
      link_up s3 = Some r ∧ rsn_tk r = tk ptk ∧ groups r !! Z.to_nat idx = Some (Some (gtk, rsc)).
Proof.
  intros Haddr Hsn Han Hown Hel Hap Hi Hg H1 H13 H3 Hrsc.
  destruct (handshake_steps pmk aa spa own_rsn ap_rsn body snonce anonce r1 r3 rsc idx gtk)
    as (m1&m2&s1&k2&E1&E2&E3&E4&E5&Hrest); try done.
  destruct (Hrest Haddr) as (Hm2&m3&m4&s3&r&F1&F2&F3&_&F4&F5&F6).
  exists m1, m2, s1, k2. do 4 (split; [done|]). split; [done|]. by exists m3, m4, s3, r.
Qed.

Lemma handshake_agrees_witness :
  ∃ m1 m2 s1, ap_message1 (H := toy) (replicate 32 0x11) 1 = Some m1 ∧ input (H := toy) toy_station m1 = Some (Ok (Reply m2), s1).
Proof.
  destruct (@handshake_agrees toy toy_laws toy_pmk toy_aa toy_spa RSN_PSK_CCMP RSN_PSK_CCMP (drop 2 RSN_PSK_CCMP)
    (replicate 32 0x22) (replicate 32 0x11) 1 2 7 1 (replicate 16 0x33)) as (m1&m2&s1&k2&E1&E2&_);
    first [exact toy_element | reflexivity | (cbn; lia) | idtac].
  exists m1, m2, s1. done.
Defined.

(** C17: whatever frames a station hears, from whomever, it does not panic,
    and the keys it has come from frames that hold the network's key: the
    pairwise key from one with a MIC under the key derived from the
    passphrase's and the nonce of a message 1 heard before it, whose encrypted
    data name the access point's own security element; the group key from one
    with a MIC under such a key. *)
Theorem keys_authentic `{CL : CryptoLaws} pmk aa spa own_rsn ap_rsn snonce fs :
  length snonce = 32%nat → zlen own_rsn + DESC < 2 ^ 16 → Forall (Forall is_byte) fs →
  ∃ s, feed (new pmk aa spa own_rsn ap_rsn snonce) fs = Some s ∧
    ∀ k, s_keys s = Some k →
      (∃ anonce f kf data, let ptk := derive pmk aa spa anonce snonce in
        heard_after fs anonce f ∧ parse f = Some (Some kf) ∧ mic_ok (kck ptk) f = Some true ∧ unwrap (kek ptk) (k_data kf) = Some data ∧
        element data 48 = Some ap_rsn ∧ keys_tk k = tk ptk) ∧
      (∃ anonce f kf data idx gtk, let ptk := derive pmk aa spa anonce snonce in
        heard_after fs anonce f ∧ parse f = Some (Some kf) ∧ mic_ok (kck ptk) f = Some true ∧ unwrap (kek ptk) (k_data kf) = Some data ∧
        gtk_of data = Some (idx, gtk) ∧ keys_gtk k = (idx, gtk, k_rsc kf)).
Proof.
  intros Hn Hd Hb. destruct (feed_auth (new pmk aa spa own_rsn ap_rsn snonce) [] _ fs (conj Hn Hd) (new_auth _ _ _ _ _ _) Hb)
    as (s&E&[_ _ Hk]). exists s. split; [done|]. exact Hk.
Qed.

(** Messages 1 and 3 of an access point with the toy cryptography. *)
Definition toy_m1 : list Z := default [] (ap_message1 (H := toy) (replicate 32 0x11) 1).
Definition toy_ptk : Ptk := derive (H := toy) toy_pmk toy_aa toy_spa (replicate 32 0x11) (replicate 32 0x22).
Definition toy_m3 : list Z :=
  default [] (ap_message3 (H := toy) toy_ptk (replicate 32 0x11) 2 7 RSN_PSK_CCMP 1 (replicate 16 0x33)).

Lemma keys_authentic_witness : ∃ s, feed (H := toy) toy_station [toy_m1; toy_m3] = Some s ∧ is_Some (s_keys s).
Proof.
  assert (Hb : Forall (Forall is_byte) [toy_m1; toy_m3]).
  { constructor; [|constructor; [|constructor]]; apply bytesb_bytes; vm_compute; reflexivity. }
  destruct (@keys_authentic toy toy_laws toy_pmk toy_aa toy_spa RSN_PSK_CCMP RSN_PSK_CCMP (replicate 32 0x22) [toy_m1; toy_m3])
    as (s&E&_); [reflexivity|reflexivity|done|]. exists s. split; [done|].
  assert (Hx : (λ s, bool_decide (is_Some (s_keys s))) <$> feed (H := toy) toy_station [toy_m1; toy_m3] = Some true) by (vm_compute; reflexivity).
  unfold toy_station in Hx. rewrite E in Hx. cbn [fmap option_fmap option_map] in Hx. injection Hx as Hx. by apply bool_decide_eq_true in Hx.
Defined.

(** A frame that takes no key to make, a message 1 with the largest
    replay counter, ends a station's handshake for good: the station answers
    it, and from then on ignores every frame, the access point's too. *)
Theorem forged_message1_locks_out `{CL : CryptoLaws} s nonce :
  station_ok s → WpaLink.fresh s U64_MAX → length nonce = 32%nat →
  ∃ f m s', ap_message1 nonce U64_MAX = Some f ∧ input s f = Some (Ok (Reply m), s') ∧
    ∀ g, Forall is_byte g → input s' g = Some (Ok Ignore, s').
Proof.
  intros Hs Hf Hn. destruct (forged_taken s nonce Hs Hf Hn) as (m&s'&E&Hr). exists (forged nonce), m, s'.
  split_and!; [by apply forged_built|done|]. intros g Hg. by apply exhausted_ignores.
Qed.

Lemma forged_message1_locks_out_witness :
  ∃ f m s', ap_message1 (H := toy) (replicate 32 0) U64_MAX = Some f ∧ input (H := toy) toy_station f = Some (Ok (Reply m), s') ∧
    input (H := toy) s' toy_m1 = Some (Ok Ignore, s').
Proof.
  destruct (@forged_message1_locks_out toy toy_laws toy_station (replicate 32 0)) as (f&m&s'&E1&E2&E3);
    [split; reflexivity|exact I|reflexivity|].
  exists f, m, s'. split; [done|]. split; [done|]. apply E3. apply bytesb_bytes. vm_compute. reflexivity.
Defined.

(** C19: over the first 2^48 - 1 operations of a link, whatever is sent and
    heard on it, the pairwise key stays, and no two frames are encrypted
    under it with the same packet number or the same CCMP nonce (priority,
    address and packet number).  Nothing in the code stops at the bound:
    [nonce_wraps]. *)
Theorem nonces_never_repeat `{CL : CryptoLaws} s r ops evs r' :
  link_up s = Some r → link_run r ops = Some (evs, r') → zlen ops < 2 ^ 48 →
  rsn_tk r' = rsn_tk r ∧
  ∀ i j f f' pn pn' hl hl' n n' a a', i ≠ j → sent evs !! i = Some (f, pn) → sent evs !! j = Some (f', pn') →
    pn ≠ pn' ∧ (nonce_aad f hl pn = Some (n, a) → nonce_aad f' hl' pn' = Some (n', a') → n ≠ n').
Proof.
  intros Hl Hr Hn. assert (Ht : tx_pn r = 0).
  { unfold link_up in Hl. destruct (s_keys s) as [k|]; [|done]. cbn [mbind option_bind] in Hl.
    destruct (keys_gtk k) as [[idx key] rsc]. destruct (zset _ _ _); [|done]. by injection Hl as <-. }
  destruct (run_sent r ops evs r' Hr) as (Hk&Hb&Hs&Hf). split; [done|].
  intros i j f f' pn pn' hl hl' n n' a a' Hij Hi Hj.
  assert (Hi2 : (sent evs).*2 !! i = Some pn) by (by rewrite list_lookup_fmap, Hi).
  assert (Hj2 : (sent evs).*2 !! j = Some pn') by (by rewrite list_lookup_fmap, Hj).
  rewrite Forall_lookup in Hf. pose proof (Hf _ _ Hi2) as Bi. pose proof (Hf _ _ Hj2) as Bj. cbn in Bi, Bj.
  assert (Hlt : ∀ x y p q, (x < y)%nat → (sent evs).*2 !! x = Some p → (sent evs).*2 !! y = Some q → p < q).
  { intros x y p q Hxy Hx Hy. rewrite <- (take_drop y) in Hs. apply (StronglySorted_app_1_elem_of _ _ _ p q Hs).
    - apply list_elem_of_lookup_2 with x. by rewrite lookup_take_lt.
    - apply list_elem_of_lookup_2 with 0%nat. rewrite lookup_drop. by rewrite Nat.add_0_r. }
  assert (Hne : pn ≠ pn').
  { destruct (decide (i < j)%nat); [pose proof (Hlt i j pn pn' ltac:(lia) Hi2 Hj2)|pose proof (Hlt j i pn' pn ltac:(lia) Hj2 Hi2)]; lia. }
  split; [done|]. intros En En' ->. apply nonce_pn in En; [|lia]. apply nonce_pn in En'; [|lia]. congruence.
Qed.

(** The link after the toy handshake. *)
Definition toy_link : Rsn :=
  default {| supplicant := toy_station; rsn_tk := []; tx_pn := 0; rx_pn := 0; groups := [] |}
    (s ← feed (H := toy) toy_station [toy_m1; toy_m3]; link_up s).

Definition toy_frame : list Z := [8; 1; 0; 0] ++ toy_aa ++ toy_spa ++ toy_aa ++ [0; 0] ++ SNAP ++ [8; 0; 104; 105].

Lemma nonces_never_repeat_witness :
  ∃ s r evs r', link_up s = Some r ∧ link_run (H := toy) r [LSeal toy_frame; LSeal toy_frame] = Some (evs, r') ∧
    length (sent evs) = 2%nat ∧ rsn_tk r' = rsn_tk r.
Proof.
  destruct (feed (H := toy) toy_station [toy_m1; toy_m3]) as [s|] eqn:Es; [|by vm_compute in Es].
  assert (Hl : (s ← feed (H := toy) toy_station [toy_m1; toy_m3]; link_up s) = Some toy_link) by (vm_compute; reflexivity).
  rewrite Es in Hl. cbn [mbind option_bind] in Hl.
  destruct (link_run (H := toy) toy_link [LSeal toy_frame; LSeal toy_frame]) as [[evs r']|] eqn:Er; [|by vm_compute in Er].
  exists s, toy_link, evs, r'. split; [done|]. split; [done|].
  assert (Hx : (λ x : list Event * Rsn, length (sent x.1)) <$> link_run (H := toy) toy_link [LSeal toy_frame; LSeal toy_frame] = Some 2%nat)
    by (vm_compute; reflexivity).
  rewrite Er in Hx. cbn [fmap option_fmap option_map fst] in Hx. injection Hx as Hx. split; [done|].
  exact (proj1 (@nonces_never_repeat toy toy_laws s toy_link _ evs r' Hl Er ltac:(cbn; lia))).
Defined.

(** C20: a frame is accepted once: the packet numbers a link accepts with one
    key ascend, whatever is sent and heard on it. The pairwise key's do for
    the link's life; a group key's as long as no group key is put in its
    place. *)
Theorem replays_refused `{CL : CryptoLaws} r ops evs r' idx :
  link_run r ops = Some (evs, r') → idx = 0 ∨ Rekeyed idx ∉ evs →
  StronglySorted Z.lt (accepted idx evs) ∧ NoDup (accepted idx evs).
Proof.
  intros Hr Hno. destruct (run_accepted r ops evs r' idx Hr Hno) as [Hs _]. split; [done|].
  induction Hs as [|x l Hs IH Hx]; constructor; [|done]. intros Hin. rewrite Forall_forall in Hx. specialize (Hx x Hin). lia.
Qed.

(** The access point's end of the toy link. *)
Definition toy_ap : Rsn :=
  {| supplicant := toy_station; rsn_tk := tk toy_ptk; tx_pn := 0; rx_pn := 0; groups := replicate 4 None |}.

(** A frame of the access point in the clear, and as a group frame with
    packet number [pn]. *)
Definition toy_down : list Z := [8; 2; 0; 0] ++ toy_spa ++ toy_aa ++ toy_aa ++ [0; 0] ++ SNAP ++ [8; 0; 104; 105].
Definition toy_group (pn : Z) : list Z := default [] (default None (encrypt (H := toy) (replicate 16 0x33) pn 1 toy_down)).

Lemma replays_refused_witness :
  ∃ evs r', link_run (H := toy) toy_link [LOpen (toy_group 8); LOpen (toy_group 8); LOpen (toy_group 9)] = Some (evs, r') ∧
    accepted 1 evs = [8; 9] ∧ NoDup (accepted 1 evs).
Proof.
  destruct (link_run (H := toy) toy_link [LOpen (toy_group 8); LOpen (toy_group 8); LOpen (toy_group 9)]) as [[evs r']|] eqn:Er;
    [|by vm_compute in Er].
  exists evs, r'. split; [done|].
  assert (Hx : fst <$> link_run (H := toy) toy_link [LOpen (toy_group 8); LOpen (toy_group 8); LOpen (toy_group 9)] =
    Some [Accepted 1 8; Accepted 1 9]) by (vm_compute; reflexivity).
  rewrite Er in Hx. cbn [fmap option_fmap option_map fst] in Hx. injection Hx as Hx. split; [by rewrite Hx|].
  refine (proj2 (@replays_refused toy toy_laws toy_link _ evs r' 1 Er _)). right. rewrite Hx.
  by intros [?|[?|?%elem_of_nil]%elem_of_cons]%elem_of_cons.
Defined.

(** A group message that brings the key already in use makes the link
    accept old frames again: whatever it accepted under that group key past
    the counter the message names is accepted a second time. *)
Theorem group_key_replays `{CL : CryptoLaws} r f clear r1 me bssid pdu m s k idx key rsc pn last :
  0 <= tx_pn r < U64_MAX → idx ≠ 0 → key_pn f = Some (idx, pn) → key_of r idx = Some (Some (key, last)) →
  open r f = Some (Some clear, r1) →
  input (supplicant r) pdu = Some (Ok (Installed m), s) → s_keys s = Some k → keys_gtk k = (idx, key, rsc) → rsc < pn →
  ∃ out r2 r3, eapol r1 me bssid pdu = Some (out, r2) ∧ open r2 f = Some (Some clear, r3).
Proof.
  intros Ht Hidx Hp Hk Ho Hi Hs Hg Hlt. destruct (open_ok _ _ _ _ Ho) as (T1&T2&T3&i&pn'&key'&last'&Ep&Ek&_&Ed&Ek'&_).
  rewrite Hp in Ep. injection Ep as <- <-. rewrite Hk in Ek. injection Ek as <- <-.
  assert (Hz : zget (groups r1) idx = Some (Some (key, pn))).
  { revert Ek'. unfold key_of. by rewrite (proj2 (Z.eqb_neq _ _)). }
  assert (Hr : 0 <= idx < zlen (groups r1)).
  { unfold zget in Hz. destruct (0 <=? idx) eqn:E; [|done]. apply Z.leb_le in E. apply lookup_lt_Some in Hz. lia. }
  destruct (eapol_installs r1 me bssid pdu m s k idx key rsc) as (out&r2&E&Hg2&_&_); [by rewrite T1|by rewrite T3|done..|].
  exists out, r2. unfold open, key_of, heard. rewrite Hp, (proj2 (Z.eqb_neq _ _)) by done.
  rewrite Hg2. cbn [mbind option_bind]. rewrite Ed. cbn [mbind option_bind].
  rewrite (proj2 (Z.leb_gt _ _)) by lia. cbn [fmap option_fmap option_map fst].
  destruct (zset (groups r2) idx (Some (key, pn))) as [gs|] eqn:Eg; [by eexists|].
  unfold zset in Eg. unfold zget in Hg2. destruct (0 <=? idx) eqn:E0; [|done]. apply lookup_lt_Some in Hg2.
  rewrite (proj2 (Z.ltb_lt _ _)) in Eg by lia. done.
Qed.

(** The group message that repeats the key of the handshake. *)
Definition toy_regroup : list Z :=
  default [] (build (H := toy) (Z.lor (Z.lor INFO_VERSION_AES INFO_ACK) (Z.lor INFO_MIC (Z.lor INFO_SECURE INFO_ENCRYPTED))) 16 3 None 7
    (wrap (H := toy) (kek toy_ptk) ([0xdd; 22] ++ KDE_GTK ++ [1; 0] ++ replicate 16 0x33)) (Some (kck toy_ptk))).

Lemma group_key_replays_witness :
  ∃ clear r1 out r2 r3, open (H := toy) toy_link (toy_group 8) = Some (Some clear, r1) ∧
    eapol (H := toy) r1 toy_spa toy_aa toy_regroup = Some (out, r2) ∧ open (H := toy) r2 (toy_group 8) = Some (Some clear, r3).
Proof.
  destruct (open (H := toy) toy_link (toy_group 8)) as [[[clear|] r1]|] eqn:Eo; [|by vm_compute in Eo..].
  destruct (input (H := toy) (supplicant toy_link) toy_regroup) as [[[[| |m]|] s]|] eqn:Ei;
    [by vm_compute in Ei| |..]; [by vm_compute in Ei| |by vm_compute in Ei..].
  assert (Hk : (λ x : result Error Step * Supplicant, keys_gtk <$> s_keys x.2) <$> input (H := toy) (supplicant toy_link) toy_regroup =
    Some (Some (1, replicate 16 0x33, 7))) by (vm_compute; reflexivity).
  rewrite Ei in Hk. cbn [fmap option_fmap option_map snd] in Hk. injection Hk as Hk. destruct (s_keys s) as [k|] eqn:Es; [|done].
  injection Hk as Hk.
  destruct (@group_key_replays toy toy_laws toy_link (toy_group 8) clear r1 toy_spa toy_aa toy_regroup m s k 1 (replicate 16 0x33) 7 8 7)
    as (out&r2&r3&E1&E2);
    [vm_compute; split; congruence|lia|vm_compute; reflexivity|vm_compute; reflexivity|exact Eo|exact Ei|exact Es|exact Hk|lia|].
  exists clear, r1, out, r2, r3. split; [reflexivity|]. split; [exact E1|exact E2].
Defined.

(** What one end of a link seals the other opens: the frame that comes
    out is the frame that went in, and the same sealed frame is refused if it
    comes again. *)
Theorem sealed_frames_open `{CL : CryptoLaws} r p f e r' :
  Forall is_byte f → (∀ b, zget f 1 = Some b → Z.land b PROTECTED = 0) →
  0 <= tx_pn r → tx_pn r + 1 < 2 ^ 48 → rsn_tk p = rsn_tk r → rx_pn p <= tx_pn r →
  Wpa.seal r f = Some (Some e, r') →
  ∃ p', open p e = Some (Some f, p') ∧ open p' e = Some (None, p').
Proof.
  intros Hb Hc H0 H1 Hk Hrx Hs. apply seal_ok in Hs as [_ He].
  destruct (decrypt_encrypt (rsn_tk r) (tx_pn r + 1) 0 f e Hb) as [Hp Hd]; [lia|lia|done..|].
  eexists. unfold open, key_of, heard. rewrite Hp. cbn [Z.eqb mbind option_bind]. rewrite Hk, Hd. cbn [mbind option_bind].
  rewrite (proj2 (Z.leb_gt _ _)) by lia. split; [done|]. cbn [rsn_tk rx_pn]. rewrite Hd. cbn [mbind option_bind]. by rewrite Z.leb_refl.
Qed.

Lemma sealed_frames_open_witness :
  ∃ e r' p', Wpa.seal (H := toy) toy_ap toy_down = Some (Some e, r') ∧ open (H := toy) toy_link e = Some (Some toy_down, p').
Proof.
  destruct (Wpa.seal (H := toy) toy_ap toy_down) as [[[e|] r']|] eqn:E; [|by vm_compute in E..].
  destruct (@sealed_frames_open toy toy_laws toy_ap toy_link toy_down e r') as (p'&E1&_);
    [apply bytesb_bytes; vm_compute; reflexivity|by intros b [= <-]|vm_compute; congruence|vm_compute; reflexivity
    |vm_compute; reflexivity|vm_compute; congruence|exact E|].
  exists e, r', p'. split; [reflexivity|exact E1].
Defined.
