(* ===== verification/SchedFacts.v ===== *)
(** * No task runs twice, no task is lost

    The invariant of [Sched.v] under every interleaving: each slot is, at
    any moment, in exactly one place, one a task of its state can be in (on
    one processor, leaving one, in its home's run queue, off them all). *)

From S2P Require Import Prelude TaskSet Sched.
From stdpp Require Import list.

Open Scope Z_scope.

(** ** Where a task is *)

Inductive Loc : Set := OnCpu (c : nat) | LeavingCpu (c : nat) | InQueue (q : option nat) | Off.

(** Task [t] may run on processor [c]. *)
Definition near (t : Task) (c : nat) : Prop := home (affinity t) = None ∨ home (affinity t) = Some c.

(** An idle task is its processor's own, and not a new one. *)
Definition idle_fits (t : Task) (c : nat) (io : option nat) : Prop :=
  match io with None => True | Some d => d = c ∧ home (affinity t) = Some c ∧ start_regs t = false end.

(** The states a task may have in a place; [io] is the processor it is the
    idle task of. *)
Definition fits_place (t : Task) (l : Loc) (io : option nat) : Prop :=
  match l with
  | OnCpu c => near t c ∧ idle_fits t c io ∧
      match state t with
      | Running => True
      | Ready => start_regs t = false
      | Blocked => start_regs t = false ∧ wake_pending t = false ∧ io = None
      | Dead => io = None
      | Unused | Claimed => False
      end
  | LeavingCpu c => near t c ∧ idle_fits t c io ∧
      match state t with
      | Running => True
      | Blocked => start_regs t = false ∧ io = None
      | Dead => io = None
      | Ready | Unused | Claimed => False
      end
  | InQueue q => q = home (affinity t) ∧ state t = Ready ∧ io = None
  | Off =>
      match state t with
      | Unused | Claimed | Dead => io = None
      | Blocked => start_regs t = false ∧ wake_pending t = false ∧ io = None
      | Ready => ∃ c, io = Some c ∧ home (affinity t) = Some c ∧ start_regs t = false
      | Running => False
      end
  end.

(** The phases that hold the lock. *)
Definition locking (p : Phase) : Prop :=
  (∃ key sq dl, p = Blocking key sq dl) ∨ (∃ n w, p = Ticking n w).

Definition plain (p : Phase) : Prop :=
  match p with Exec | Idling _ | Checking | Halted => True | _ => False end.

Lemma plain_switch p : plain p → ¬ (p = Leaving ∨ p = Arrived).
Proof. by intros Hp [-> | ->]. Qed.

Lemma plain_lock p : plain p → ¬ locking p.
Proof. by intros Hp [(?&?&?&->)|(?&?&->)]. Qed.

Lemma locking_switch p : locking p → ¬ (p = Leaving ∨ p = Arrived).
Proof. by intros [(?&?&?&->)|(?&?&->)] [?|?]. Qed.

Section facts.
Context {T : Type} `{SlotSetLaws T} (bsp : bool).
Implicit Types (s : Sys T) (i c : nat) (q : option nat).

Record placed s i (l : Loc) (io : option nat) : Prop := {
  pl_cur c : current (cpus s c) = Some i ↔ l = OnCpu c;
  pl_mid c : switched_from (cpus s c) = Some i ↔ l = LeavingCpu c;
  pl_q q : s_contains (queue q s) i = true ↔ l = InQueue q;
  pl_idle c : idle_slot (cpus s c) = Some i ↔ io = Some c;
  pl_fits : fits_place (tasks s i) l io }.

(** The scheduler's cells agree about slot [i]. *)
Definition same_cells s s' i : Prop :=
  (∀ c, current (cpus s' c) = Some i ↔ current (cpus s c) = Some i) ∧
  (∀ c, switched_from (cpus s' c) = Some i ↔ switched_from (cpus s c) = Some i) ∧
  (∀ c, idle_slot (cpus s' c) = Some i ↔ idle_slot (cpus s c) = Some i) ∧
  (∀ q, s_contains (queue q s') i = true ↔ s_contains (queue q s) i = true).

Lemma placed_frame s s' i l io :
  same_cells s s' i → tasks s' i = tasks s i → placed s i l io → placed s' i l io.
Proof.
  intros (Hc&Hm&Hi&Hq) Ht [? ? ? ? ?]. split; intros; rewrite ?Hc, ?Hm, ?Hi, ?Hq, ?Ht; auto.
Qed.

(** A task whose cells do not change but whose record does. *)
Lemma placed_task s s' i l io :
  same_cells s s' i → placed s i l io → fits_place (tasks s' i) l io → placed s' i l io.
Proof. intros (Hc&Hm&Hi&Hq) [? ? ? ? _] Hf. split; intros; rewrite ?Hc, ?Hm, ?Hi, ?Hq; auto. Qed.

(** The rest of the structure: sets in form, processors and slots in range,
    a switch in progress where the cell says so, the lock where it is held. *)
Record cpu_ok s c : Prop := {
  ck_set : set_ok (runq (cpus s c));
  ck_switch : (phase (cpus s c) = Leaving ∨ phase (cpus s c) = Arrived) ↔ switched_from (cpus s c) ≠ None;
  ck_lock : tasks_lock s = Some c ↔ locking (phase (cpus s c));
  ck_cur i : current (cpus s c) = Some i → (c < MAX_CPUS)%nat ∧ (i < MAX_TASKS)%nat;
  ck_none : current (cpus s c) = None → phase (cpus s c) = Exec ∧ idle_slot (cpus s c) = None;
  ck_idle i : idle_slot (cpus s c) = Some i → (i < MAX_TASKS)%nat;
  ck_mid i : switched_from (cpus s c) = Some i → (i < MAX_TASKS)%nat }.

Definition cells_inv s : Prop :=
  (∀ i, ∃ l io, placed s i l io) ∧ (∀ c, cpu_ok s c) ∧ set_ok (float s).

Lemma cells_inv_intro s s' :
  cells_inv s → (∀ i, same_cells s s' i ∧ tasks s' i = tasks s i ∨ ∃ l io, placed s' i l io) →
  (∀ c, cpu_ok s' c) → set_ok (float s') → cells_inv s'.
Proof.
  intros (Hp&_&_) Hi Hc Hf. split; [|done]. intros i. destruct (Hi i) as [[Hs Ht]|?]; [|done].
  destruct (Hp i) as (l&io&Hl). exists l, io. by eapply placed_frame.
Qed.

(** ** Steps that leave the cells alone *)

Record core_eq s s' : Prop := {
  ce_task i : tasks s' i = tasks s i;
  ce_cur c : current (cpus s' c) = current (cpus s c);
  ce_mid c : switched_from (cpus s' c) = switched_from (cpus s c);
  ce_idle c : idle_slot (cpus s' c) = idle_slot (cpus s c);
  ce_runq c : runq (cpus s' c) = runq (cpus s c);
  ce_phase c : phase (cpus s' c) = phase (cpus s c);
  ce_float : float s' = float s;
  ce_lock : tasks_lock s' = tasks_lock s }.

#[export] Instance core_eq_refl : Reflexive core_eq.
Proof. by intros s. Qed.
#[export] Instance core_eq_trans : Transitive core_eq.
Proof. intros s1 s2 s3 [] []. split; intros; etrans; eauto. Qed.

Lemma core_eq_queue s s' q : core_eq s s' → queue q s' = queue q s.
Proof. intros []. destruct q; cbn [queue]; auto. Qed.

Lemma core_eq_same s s' i : core_eq s s' → same_cells s s' i.
Proof.
  intros He. split_and!; intros.
  - by rewrite (ce_cur _ _ He).
  - by rewrite (ce_mid _ _ He).
  - by rewrite (ce_idle _ _ He).
  - by rewrite (core_eq_queue _ _ _ He).
Qed.

Lemma core_eq_placed s s' i l io : core_eq s s' → placed s i l io → placed s' i l io.
Proof. intros He. apply placed_frame; [by apply core_eq_same|apply He]. Qed.

Lemma core_eq_cpu_ok s s' c : core_eq s s' → cpu_ok s c → cpu_ok s' c.
Proof.
  intros He []. split; intros; rewrite ?(ce_cur _ _ He), ?(ce_mid _ _ He), ?(ce_idle _ _ He), ?(ce_runq _ _ He),
    ?(ce_phase _ _ He), ?(ce_lock _ _ He) in *; eauto.
Qed.

Lemma core_eq_inv s s' : core_eq s s' → cells_inv s → cells_inv s'.
Proof.
  intros He (Hp&Hc&Hf). split; [|split].
  - intros i. destruct (Hp i) as (l&io&Hl). exists l, io. by eapply core_eq_placed.
  - intros c. by eapply core_eq_cpu_ok.
  - by rewrite (ce_float _ _ He).
Qed.

Lemma core_on_cpu s c f :
  (∀ k, current (f k) = current k ∧ switched_from (f k) = switched_from k ∧ idle_slot (f k) = idle_slot k ∧
        runq (f k) = runq k ∧ phase (f k) = phase k) → core_eq s (on_cpu c f s).
Proof. intros Hk. split; try done; intros d; cbn; case_decide; try done; apply Hk. Qed.

Lemma core_flag c (sk : Sys T * Z) : core_eq sk.1 (flag c sk).1.
Proof. by apply core_on_cpu. Qed.

Lemma core_kick_for slot aff fs (sk : Sys T * Z) : core_eq sk.1 (kick_for bsp slot aff fs sk).1.
Proof.
  unfold kick_for. set (sk1 := match home aff with Some c => if fs then sk else flag c sk | None => sk end).
  assert (H1 : core_eq sk.1 sk1.1).
  { unfold sk1. destruct (home aff); [|done]. destruct fs; [done|apply core_flag]. }
  clearbody sk1. match goal with |- context [if ?b then _ else _] => destruct b end; [exact H1|].
  destruct (find _ _); [|exact H1]. etrans; [exact H1|apply core_flag].
Qed.

Lemma core_note_kicks c (sk : Sys T * Z) : core_eq sk.1 (note_kicks c sk).
Proof. by apply core_on_cpu. Qed.

Lemma core_bump s : core_eq s (bump s).
Proof. by split. Qed.

Lemma core_count_any n s : core_eq s (count_any n s).
Proof. by split. Qed.

(** ** Queue changes *)

Lemma queue_set q v s q' : queue q' (set_queue q v s) = if decide (q' = q) then v else queue q' s.
Proof.
  destruct q as [c|], q' as [d|]; cbn; repeat case_decide; simplify_eq; done.
Qed.

Lemma set_queue_cells q v s c :
  current (cpus (set_queue q v s) c) = current (cpus s c) ∧
  switched_from (cpus (set_queue q v s) c) = switched_from (cpus s c) ∧
  idle_slot (cpus (set_queue q v s) c) = idle_slot (cpus s c) ∧
  phase (cpus (set_queue q v s) c) = phase (cpus s c) ∧
  tasks_lock (set_queue q v s) = tasks_lock s.
Proof. destruct q; cbn; [case_decide|]; done. Qed.

Lemma set_queue_tasks q v s i : tasks (set_queue q v s) i = tasks s i.
Proof. by destruct q. Qed.

Lemma queue_ok s q : cells_inv s → set_ok (queue q s).
Proof. intros (_&Hc&Hf). destruct q; [apply Hc|done]. Qed.

Lemma set_queue_ok s q v : (∀ c, cpu_ok s c) → set_ok v → ∀ c, cpu_ok (set_queue q v s) c.
Proof.
  intros Hc Hv c. destruct (set_queue_cells q v s c) as (E1&E2&E3&E4&E5). destruct (Hc c).
  split; intros; rewrite ?E1, ?E2, ?E3, ?E4, ?E5 in *; eauto.
  change (runq (cpus (set_queue q v s) c)) with (queue (Some c) (set_queue q v s)).
  rewrite queue_set. by case_decide.
Qed.

(** ** Steps that change one task *)

(** The cells agree; the tasks may not. *)
Definition cells_eq s s' : Prop := core_eq s (sys_set_tasks (tasks s) s').

Lemma cells_eq_same s s' i : cells_eq s s' → same_cells s s' i.
Proof. intros He. apply (core_eq_same _ _ i He). Qed.

Lemma cells_eq_cpu_ok s s' c : cells_eq s s' → cpu_ok s c → cpu_ok s' c.
Proof. intros He Hc. destruct (core_eq_cpu_ok _ _ _ He Hc). by split. Qed.

Lemma cells_eq_float s s' : cells_eq s s' → float s' = float s.
Proof. intros He. apply (ce_float _ _ He). Qed.

#[export] Instance cells_eq_refl : Reflexive cells_eq.
Proof. by intros s. Qed.


Lemma cells_eq_task i f s : cells_eq s (on_task i f s).
Proof. by split. Qed.

Lemma cells_eq_trans s s' s'' : cells_eq s s' → cells_eq s' s'' → cells_eq s s''.
Proof.
  intros E1 E2. split; cbn; intros.
  - done.
  - rewrite <-(ce_cur _ _ E1). apply (ce_cur _ _ E2).
  - rewrite <-(ce_mid _ _ E1). apply (ce_mid _ _ E2).
  - rewrite <-(ce_idle _ _ E1). apply (ce_idle _ _ E2).
  - rewrite <-(ce_runq _ _ E1). apply (ce_runq _ _ E2).
  - rewrite <-(ce_phase _ _ E1). apply (ce_phase _ _ E2).
  - rewrite <-(ce_float _ _ E1). apply (ce_float _ _ E2).
  - rewrite <-(ce_lock _ _ E1). apply (ce_lock _ _ E2).
Qed.

Lemma core_cells s s' : core_eq s s' → cells_eq s s'.
Proof. intros []. by split. Qed.

Lemma cells_eq_cpu s s' c : cells_eq s s' →
  current (cpus s' c) = current (cpus s c) ∧ switched_from (cpus s' c) = switched_from (cpus s c) ∧
  idle_slot (cpus s' c) = idle_slot (cpus s c) ∧ phase (cpus s' c) = phase (cpus s c).
Proof. intros He. split_and!; apply He. Qed.

(** Slot [i]'s record changes, its place does not. *)
Lemma inv_task s s' i :
  cells_inv s → cells_eq s s' → (∀ j, j ≠ i → tasks s' j = tasks s j) →
  (∀ l io, placed s i l io → fits_place (tasks s' i) l io) → cells_inv s'.
Proof.
  intros Hinv He Ht Hf. apply (cells_inv_intro s); [done| | |].
  - intros j. destruct (decide (j = i)) as [->|Hj].
    + right. destruct Hinv as (Hp&_&_). destruct (Hp i) as (l&io&Hl). exists l, io.
      eapply placed_task; [by apply cells_eq_same|done|by apply Hf].
    + left. split; [by apply cells_eq_same|by apply Ht].
  - intros c. eapply cells_eq_cpu_ok; [done|]. apply Hinv.
  - rewrite (cells_eq_float _ _ He). apply Hinv.
Qed.

Lemma contains_enqueue i aff s q j :
  set_ok (queue (home aff) s) → (i < MAX_TASKS)%nat →
  s_contains (queue q (enqueue i aff s)) j = true ↔
  (q = home aff ∧ j = i) ∨ s_contains (queue q s) j = true.
Proof.
  intros Hok Hi. unfold enqueue. rewrite queue_set. case_decide as Hq.
  - subst q. rewrite contains_insert, orb_true_iff, bool_decide_eq_true by done. tauto.
  - tauto.
Qed.

Lemma contains_dequeue i aff s q j :
  set_ok (queue (home aff) s) → (i < MAX_TASKS)%nat →
  s_contains (queue q (dequeue i aff s)) j = true ↔
  s_contains (queue q s) j = true ∧ ¬ (q = home aff ∧ j = i).
Proof.
  intros Hok Hi. unfold dequeue. rewrite queue_set. case_decide as Hq.
  - subst q. rewrite contains_remove, andb_true_iff, negb_true_iff, bool_decide_eq_false by done. tauto.
  - tauto.
Qed.

(** The invariant but for slot [i], whose cells are known. *)
Definition inv_but i s : Prop :=
  (∀ j, j ≠ i → ∃ l io, placed s j l io) ∧ (∀ c, cpu_ok s c) ∧ set_ok (float s).

Record cells_at s i (l : Loc) (io : option nat) : Prop := {
  ca_cur c : current (cpus s c) = Some i ↔ l = OnCpu c;
  ca_mid c : switched_from (cpus s c) = Some i ↔ l = LeavingCpu c;
  ca_q q : s_contains (queue q s) i = true ↔ l = InQueue q;
  ca_idle c : idle_slot (cpus s c) = Some i ↔ io = Some c }.

Lemma placed_cells s i l io : placed s i l io → cells_at s i l io.
Proof. intros []. by split. Qed.

Lemma cells_placed s i l io : cells_at s i l io → fits_place (tasks s i) l io → placed s i l io.
Proof. intros []. by split. Qed.

Lemma inv_inv_but i s : cells_inv s → inv_but i s.
Proof. intros (Hp&Hr). split; [|done]. intros j _. apply Hp. Qed.

Lemma inv_settle s s' i l io :
  inv_but i s → cells_at s i l io → cells_eq s s' → (∀ j, j ≠ i → tasks s' j = tasks s j) →
  fits_place (tasks s' i) l io → cells_inv s'.
Proof.
  intros (Hp&Hc&Hf) Hat He Ht Hfit. split; [|split].
  - intros j. destruct (decide (j = i)) as [->|Hj].
    + exists l, io. destruct (cells_eq_same s s' i He) as (E1&E2&E3&E4). destruct Hat.
      split; intros; rewrite ?E1, ?E2, ?E3, ?E4; auto.
    + destruct (Hp j Hj) as (l'&io'&Hl). exists l', io'.
      eapply placed_frame; [by apply cells_eq_same|by apply Ht|done].
  - intros c. eapply cells_eq_cpu_ok; [done|]. apply Hc.
  - by rewrite (cells_eq_float _ _ He).
Qed.

(** Slot [i], off everything, is made [Ready] and queued for its home. *)
Lemma inv_enqueue s s' i :
  inv_but i s → cells_at s i Off None → (i < MAX_TASKS)%nat →
  cells_eq s s' → (∀ j, j ≠ i → tasks s' j = tasks s j) → state (tasks s' i) = Ready →
  cells_inv (enqueue i (affinity (tasks s' i)) s').
Proof.
  intros (Hp&Hcpu&Hfl) Hoff Hi He Ht Hr. set (aff := affinity (tasks s' i)).
  assert (Hq : ∀ q, queue q s' = queue q s) by (intros q; apply (core_eq_queue _ _ q He)).
  assert (Hqok : ∀ q, set_ok (queue q s)) by (intros [c|]; [apply Hcpu|done]).
  assert (Hok : set_ok (queue (home aff) s')) by (by rewrite Hq).
  assert (Hcells : ∀ c, current (cpus (enqueue i aff s') c) = current (cpus s c) ∧
    switched_from (cpus (enqueue i aff s') c) = switched_from (cpus s c) ∧
    idle_slot (cpus (enqueue i aff s') c) = idle_slot (cpus s c)).
  { intros c. unfold enqueue. destruct (set_queue_cells (home aff) (s_insert i (queue (home aff) s')) s' c)
      as (->&->&->&_). by destruct (cells_eq_cpu s s' c He) as (->&->&->&_). }
  assert (Htask : ∀ j, tasks (enqueue i aff s') j = tasks s' j) by (intros; apply set_queue_tasks).
  split; [|split].
  - intros j. destruct (decide (j = i)) as [->|Hj].
    + exists (InQueue (home aff)), None. destruct Hoff as [Hc Hm Hqs Hid].
      split; intros; rewrite ?(proj1 (Hcells _)), ?(proj1 (proj2 (Hcells _))), ?(proj2 (proj2 (Hcells _))).
      * rewrite Hc. naive_solver.
      * rewrite Hm. naive_solver.
      * rewrite contains_enqueue, Hq, Hqs by done. naive_solver.
      * rewrite Hid. naive_solver.
      * rewrite Htask. split; [done|]. done.
    + destruct (Hp j Hj) as (l&io&Hl). exists l, io. eapply placed_frame; [|by rewrite Htask, Ht|done].
      split_and!; intros; rewrite ?(proj1 (Hcells _)), ?(proj1 (proj2 (Hcells _))), ?(proj2 (proj2 (Hcells _))); try done.
      rewrite contains_enqueue, Hq by done. naive_solver.
  - apply set_queue_ok; [|by apply insert_ok]. intros c. by eapply cells_eq_cpu_ok.
  - change (float (enqueue i aff s')) with (queue None (enqueue i aff s')). unfold enqueue. rewrite queue_set.
    case_decide as E; [by apply insert_ok|]. by rewrite Hq.
Qed.

Lemma task_eq i f s : tasks (on_task i f s) i = f (tasks s i).
Proof. cbn. by rewrite decide_True. Qed.

Lemma task_ne i f s j : j ≠ i → tasks (on_task i f s) j = tasks s j.
Proof. intros Hj. cbn. by rewrite decide_False. Qed.

Lemma queue_on_task q i f s : queue q (on_task i f s) = queue q s.
Proof. by destruct q. Qed.

(** ** Wakes *)

Lemma held_cpu s c i :
  cells_inv s → current (cpus s c) = Some i ∨ switched_from (cpus s c) = Some i → (c < MAX_CPUS)%nat.
Proof.
  intros (_&Hc&_) Hi. destruct (Hc c) as [_ Hsw _ Hcur Hnone _ _]. destruct (current (cpus s c)) as [j|] eqn:E.
  - by apply (Hcur j).
  - destruct Hi as [|Hm]; [done|]. destruct (Hnone eq_refl) as [Hp _]. rewrite Hp, Hm in Hsw.
    destruct (proj2 Hsw) as [?|?]; done.
Qed.

Lemma elem_all_cpus c : c ∈ all_cpus ↔ (c < MAX_CPUS)%nat.
Proof. unfold all_cpus. rewrite elem_of_seq. lia. Qed.

Lemma mid_switch_spec s i l io :
  cells_inv s → placed s i l io → mid_switch i s = true ↔ ∃ c, l = LeavingCpu c.
Proof.
  intros Hinv Hp. unfold mid_switch. rewrite existsb_exists. setoid_rewrite bool_decide_eq_true.
  split.
  - intros (c&_&Hc). exists c. by apply (pl_mid _ _ _ _ Hp).
  - intros [c Hc]. apply (pl_mid _ _ _ _ Hp) in Hc. exists c. split; [|done].
    apply list_elem_of_In, elem_all_cpus. eapply held_cpu; [done|by right].
Qed.

Lemma mid_switch_cells i s s' : cells_eq s s' → mid_switch i s' = mid_switch i s.
Proof.
  intros He. unfold mid_switch. generalize all_cpus as l. induction l as [|c l IH]; [done|]. cbn [existsb].
  rewrite IH. by destruct (cells_eq_cpu s s' c He) as (_&->&_).
Qed.

Lemma running_on_cells i s s' : cells_eq s s' → running_on i s' = running_on i s.
Proof.
  intros He. unfold running_on. generalize all_cpus as l. induction l as [|c l IH]; [done|]. cbn [find].
  rewrite IH. by destruct (cells_eq_cpu s s' c He) as (->&_).
Qed.

Lemma running_on_spec s i l io c :
  cells_inv s → placed s i l io → running_on i s = Some c ↔ l = OnCpu c.
Proof.
  intros Hinv Hp. unfold running_on. split.
  - intros Hf. apply find_some in Hf as [_ Hf]. apply (pl_cur _ _ _ _ Hp). by apply bool_decide_eq_true in Hf.
  - intros Hl. destruct (find _ all_cpus) as [d|] eqn:Ef.
    + apply find_some in Ef as [_ Hf]. apply bool_decide_eq_true, (pl_cur _ _ _ _ Hp) in Hf. congruence.
    + apply (pl_cur _ _ _ _ Hp) in Hl. eapply find_none in Ef.
      2:{ apply list_elem_of_In, elem_all_cpus. eapply held_cpu; [done|by left]. }
      cbv beta in Ef. by rewrite bool_decide_eq_true_2 in Ef.
Qed.

(** What [wake_locked] has done to the task before it finds it a place. *)
Definition unwait (t : Task) : Task := set_wait 0 0 (wake_pending t) t.

Lemma wake_locked_inv i (sk : Sys T * Z) :
  cells_inv sk.1 → (i < MAX_TASKS)%nat → cells_inv (wake_locked bsp i sk).1.
Proof.
  destruct sk as [s ks]. cbn [fst]. intros Hinv Hi. unfold wake_locked.
  case_bool_decide as Hb; [|done]. cbn [negb].
  set (s1 := if wait_key (tasks s i) =? WAIT_ANY then count_any (-1) s else s).
  assert (H1 : core_eq s s1) by (unfold s1; case_match; [apply core_count_any|done]).
  assert (Et : tasks s1 i = tasks s i) by apply H1.
  set (s2 := on_task i (set_wait 0 0 (wake_pending (tasks s i))) s1).
  assert (H2 : cells_eq s s2) by (eapply cells_eq_trans; [by apply core_cells|apply cells_eq_task]).
  assert (Ht2 : ∀ j, j ≠ i → tasks s2 j = tasks s j).
  { intros j Hj. unfold s2. rewrite task_ne by done. apply H1. }
  assert (Hti : tasks s2 i = unwait (tasks s i)) by (unfold s2; by rewrite task_eq, Et).
  destruct (proj1 Hinv i) as (l&io&Hp). pose proof (pl_fits _ _ _ _ Hp) as Hfit.
  rewrite (mid_switch_cells i s s2) by done. destruct (mid_switch i s) eqn:Em.
  - apply (mid_switch_spec s i l io) in Em as [c ->]; [|done..]. cbn [fst].
    apply (inv_task s _ i); [done|eapply cells_eq_trans; [done|apply cells_eq_task]| |].
    + intros j Hj. rewrite task_ne by done. by apply Ht2.
    + intros l' io' Hp'. assert (l' = LeavingCpu c) as ->.
      { apply (pl_mid _ _ _ _ Hp'), (pl_mid _ _ _ _ Hp). done. }
      pose proof (pl_fits _ _ _ _ Hp') as (Hn&Hid&Hst). rewrite Hb in Hst.
      rewrite task_eq, Hti. cbn. by rewrite Hb.
  - set (s3 := on_task i (set_state Ready) s2).
    assert (H3 : cells_eq s s3) by (eapply cells_eq_trans; [done|apply cells_eq_task]).
    assert (Ht3 : ∀ j, j ≠ i → tasks s3 j = tasks s j).
    { intros j Hj. unfold s3. rewrite task_ne by done. by apply Ht2. }
    assert (Hti3 : tasks s3 i = set_state Ready (unwait (tasks s i))).
    { unfold s3. by rewrite task_eq, Hti. }
    rewrite (running_on_cells i s s3) by done. destruct (running_on i s) as [c|] eqn:Er.
    + eapply core_eq_inv; [apply core_flag|]. cbn [fst]. apply (inv_task s _ i); [done..|].
      apply (running_on_spec s i l io) in Er as ->; [|done..].
      intros l' io' Hp'. assert (l' = OnCpu c) as ->.
      { apply (pl_cur _ _ _ _ Hp'), (pl_cur _ _ _ _ Hp). done. }
      pose proof (pl_fits _ _ _ _ Hp') as (Hn&Hid&Hst). rewrite Hb in Hst. destruct Hst as (?&?&->).
      rewrite Hti3. cbn. done.
    + eapply core_eq_inv; [apply core_kick_for|]. cbn [fst].
      replace (affinity (tasks s i)) with (affinity (tasks s3 i)) by (by rewrite Hti3).
      apply (inv_enqueue s); [by apply inv_inv_but|apply placed_cells|done|done|done|by rewrite Hti3].
      assert (l = Off ∧ io = None) as [-> ->]; [|done].
      destruct l as [c|c|q|]; cbn in Hfit; rewrite Hb in Hfit.
      * assert (running_on i s = Some c) by (by eapply running_on_spec). congruence.
      * assert (mid_switch i s = true) by (eapply mid_switch_spec; eauto). congruence.
      * naive_solver.
      * naive_solver.
Qed.

Lemma fits_ext t t' l io :
  state t' = state t → affinity t' = affinity t → start_regs t' = start_regs t → wake_pending t' = wake_pending t →
  fits_place t l io → fits_place t' l io.
Proof. intros Es Ea Er Ew. unfold fits_place, idle_fits, near. by rewrite Es, Ea, Er, Ew. Qed.

(** A change to fields no place depends on. *)
Lemma inv_harmless i f s :
  (∀ t, state (f t) = state t ∧ affinity (f t) = affinity t ∧ start_regs (f t) = start_regs t ∧
        wake_pending (f t) = wake_pending t) →
  cells_inv s → cells_inv (on_task i f s).
Proof.
  intros Hf Hinv. apply (inv_task s _ i); [done|apply cells_eq_task|by apply task_ne|].
  intros l io Hp. rewrite task_eq. destruct (Hf (tasks s i)) as (?&?&?&?).
  eapply fits_ext; [done..|]. apply (pl_fits _ _ _ _ Hp).
Qed.

Lemma elem_slots i : i ∈ slots ↔ (i < MAX_TASKS)%nat.
Proof. unfold slots. rewrite elem_of_seq. lia. Qed.

(** A loop over slots keeps what every turn keeps. *)
Lemma foldl_keeps {A B} (P : A → Prop) (f : A → B → A) (l : list B) a :
  P a → (∀ a b, P a → b ∈ l → P (f a b)) → P (foldl f a l).
Proof.
  revert a. induction l as [|b l IH]; intros a Ha Hf; [done|]. cbn [foldl]. apply IH.
  - apply Hf; [done|left].
  - intros a' b' Ha' Hb'. apply Hf; [done|by right].
Qed.

Lemma kick_running_core me i (sk : Sys T * Z) : core_eq sk.1 (kick_running_locked me i sk).1.
Proof. unfold kick_running_locked. repeat case_match; try done. by apply core_on_cpu. Qed.

(** ** What every wake keeps *)

(** A change of a task the scheduler does not go by. *)
Definition harmless (f : Task → Task) : Prop :=
  ∀ t, state (f t) = state t ∧ affinity (f t) = affinity t ∧ start_regs (f t) = start_regs t ∧
       wake_pending (f t) = wake_pending t ∧ wait_key (f t) = wait_key t ∧ wake_at (f t) = wake_at t.

(** What one wake, and the writes around it, keep: then so does every
    operation made of wakes. *)
Record wake_closed (P : Sys T * Z → Prop) : Prop := {
  wc_wake i sk : (i < MAX_TASKS)%nat → P sk → P (wake_locked bsp i sk);
  wc_bump s ks : P (s, ks) → P (bump s, ks);
  wc_task i f s ks : harmless f → P (s, ks) → P (on_task i f s, ks);
  wc_kick c s ks : P (s, ks) → P (on_cpu c (cpu_set_signal_kick true) s, Z.lor ks (kick_bit c));
  wc_timers ts s ks : P (s, ks) → P (sys_set_timers ts s, ks) }.

Section closed.
Context (P : Sys T * Z → Prop) (HP : wake_closed P).

Lemma closed_wake_one i sk : (i < MAX_TASKS)%nat → P sk → P (wake_one bsp i sk).
Proof. destruct sk as [s ks]. intros Hi Hs. apply (wc_wake _ HP); [done|]. by apply (wc_task _ HP). Qed.

Lemma closed_wake_key key sk : P sk → P (wake_key_locked bsp key sk).2.
Proof.
  intros Hs. unfold wake_key_locked. apply (foldl_keeps (λ a : bool * (Sys T * Z), P a.2)); [done|].
  intros [woke sk'] i Hsk Hi%elem_slots. cbn [snd] in *. case_match; [|done]. by apply closed_wake_one.
Qed.

Lemma closed_wake key s : P (s, 0) → P (wake bsp key s).
Proof. intros Hs. by apply closed_wake_key, (wc_bump _ HP). Qed.

Lemma closed_wake_n key max s : P (s, 0) → P (wake_n bsp key max s).2.
Proof.
  intros Hs. unfold wake_n. apply (foldl_keeps (λ a : nat * (Sys T * Z), P a.2)); [by apply (wc_bump _ HP)|].
  intros [n sk'] i Hsk Hi%elem_slots. cbn [snd] in *. repeat case_match; try done. by apply closed_wake_one.
Qed.

Lemma closed_wake_task me i sk : P sk → P (wake_task_locked bsp me i sk).
Proof.
  destruct sk as [s ks]. intros Hs. unfold wake_task_locked. case_bool_decide; [|done]. cbn [fst snd].
  assert (Hw : P (wake_locked bsp i (bump s, ks))) by (apply (wc_wake _ HP); [done|by apply (wc_bump _ HP)]). revert Hw.
  generalize (wake_locked bsp i (bump s, ks)). intros [s1 ks1] Hw. unfold kick_running_locked.
  repeat case_match; try done. by apply (wc_kick _ HP).
Qed.

Lemma closed_send me i sig v sk : P sk → P (send_locked bsp me i sig v sk).
Proof.
  destruct sk as [s ks]. intros Hs. unfold send_locked. case_match; [done|]. case_match; [done|]. cbn [fst snd].
  set (s1 := on_task i _ s). assert (Hs1 : P (s1, ks)) by (by apply (wc_task _ HP)). clearbody s1.
  case_match; [by apply closed_wake_task|]. pose proof (closed_wake_key KEY_SIGNAL _ Hs1) as Hw.
  destruct (wake_key_locked bsp KEY_SIGNAL (s1, ks)) as [woke [s2 ks2]]. cbn [snd fst] in *.
  destruct woke; [by apply (wc_bump _ HP)|done].
Qed.

Lemma closed_alarm me i now v sk r : P sk → alarm_tick bsp me i now v sk = Some r → P r.2.
Proof.
  destruct sk as [s ks]. intros Hs. unfold alarm_tick. cbn [fst snd].
  case_match; [intros [= <-]; by apply (wc_task _ HP)|]. case_match; [by intros [= <-]|]. case_match; [by intros [= <-]|].
  pose proof (closed_send me i SIGALRM v _ Hs) as Hsend. destruct (send_locked _ _ _ _ _ _) as [s1 ks1].
  destruct (alarm_next _ _ _); [|done]. intros [= <-]. by apply (wc_task _ HP).
Qed.

(** A step of the scan, when it does not panic. *)
Lemma tick_slot_some me now sv st i r :
  tick_slot bsp me now sv st i = Some r → ∃ next woke sk next' sk', st = Some (next, woke, sk) ∧
    (next' = next ∧ sk' = sk ∨ ∃ at_, alarm_tick bsp me i now (sv i) sk = Some (at_, sk') ∧ next' = Z.min next at_) ∧
    r = (let t := tasks sk'.1 i in
         if negb (bool_decide (state t = Blocked)) || (wake_at t =? 0) then (next', woke, sk')
         else if wake_at t <=? now then (next', true, wake_locked bsp i sk')
         else (Z.min next' (wake_at t), woke, sk')).
Proof.
  unfold tick_slot. destruct st as [[[next woke] sk]|]; [|done]. cbn [mbind option_bind].
  destruct (alarm_at _ =? 0).
  - intros Hr. exists next, woke, sk, next, sk. split; [done|]. split; [by left|]. cbn in Hr. by repeat case_match; simplify_eq.
  - destruct (alarm_tick _ _ _ _ _ _) as [[at_ sk']|] eqn:Ea; [|done]. intros Hr.
    exists next, woke, sk, (Z.min next at_), sk'. split; [done|]. split; [right; eauto|].
    cbn in Hr. by repeat case_match; simplify_eq.
Qed.

Lemma closed_tick_slot me now sv st i r :
  (i < MAX_TASKS)%nat → tick_slot bsp me now sv st i = Some r → (∀ r0, st = Some r0 → P r0.2) → P r.2.
Proof.
  intros Hi Hr Hst. apply tick_slot_some in Hr as (next&woke&sk&next'&sk'&->&Ha&->).
  specialize (Hst _ eq_refl). cbn [snd] in Hst.
  assert (Hs : P sk') by (destruct Ha as [[_ ->]|(at_&Ha&_)]; [done|by apply (closed_alarm _ _ _ _ _ _ Hst Ha)]).
  cbv zeta. repeat case_match; try done. by apply (wc_wake _ HP).
Qed.

Lemma closed_timer_scan me now sv busy tb s r :
  P (s, 0) → timer_scan bsp me now sv busy tb s = Some r → P r.2.
Proof.
  intros Hs. unfold timer_scan.
  assert (Hf : ∀ st, foldl (tick_slot bsp me now sv) (Some (U64_MAX, false, (s, 0))) slots = Some st → P st.2).
  { apply (foldl_keeps (λ a : option (Z * bool * (Sys T * Z)), ∀ st, a = Some st → P st.2)).
    - by intros st [= <-].
    - intros a i Ha Hi%elem_slots st Hst. by eapply closed_tick_slot. }
  destruct (foldl _ _ slots) as [[[next woke] [s1 ks1]]|]; [|done]. specialize (Hf _ eq_refl). cbn [snd] in Hf.
  cbn [mbind option_bind fst snd].
  destruct (if tb then _ else _) as [[ids tnext] ts].
  set (x := foldl _ _ ids). assert (Hx : P x.2).
  { apply (foldl_keeps (λ a : bool * (Sys T * Z), P a.2)); [by apply (wc_timers _ HP)|].
    intros [w sk'] id Hsk' _. cbn [snd] in Hsk'. pose proof (closed_wake_key (key_timer (Z.of_nat id)) sk' Hsk') as Hw.
    by destruct (wake_key_locked _ _ _). }
  clearbody x. destruct x as [w sk']. by intros [= <-].
Qed.

End closed.

Lemma cells_closed : wake_closed (λ sk, cells_inv sk.1).
Proof.
  split; cbn [fst]; intros.
  - by apply wake_locked_inv.
  - by eapply core_eq_inv; [apply core_bump|].
  - apply inv_harmless; [|done]. intros t. by destruct (H1 t) as (?&?&?&?&?).
  - by eapply core_eq_inv; [by apply core_on_cpu|].
  - by eapply core_eq_inv; [|done].
Qed.

(** ** The pick *)

(** Slot [n], waiting in a queue or processor [c]'s idle task, is out of its
    queue with the home [aff] for [c] to run. *)
Record chosen s s1 c n (l : Loc) (io aff : option nat) : Prop := {
  cn_placed : placed s n l io;
  cn_ready : state (tasks s n) = Ready;
  cn_loc : (∃ q, l = InQueue q) ∨ l = Off;
  cn_near : home aff = None ∨ home aff = Some c;
  cn_idle : io = None ∨ io = Some c ∧ aff = affinity (tasks s n) ∧ start_regs (tasks s n) = false;
  cn_task : tasks s1 n = set_affinity aff (tasks s n);
  cn_others j : j ≠ n → tasks s1 j = tasks s j;
  cn_cells d : current (cpus s1 d) = current (cpus s d) ∧ switched_from (cpus s1 d) = switched_from (cpus s d) ∧
    idle_slot (cpus s1 d) = idle_slot (cpus s d) ∧ phase (cpus s1 d) = phase (cpus s d);
  cn_queue q j : s_contains (queue q s1) j = true ↔ s_contains (queue q s) j = true ∧ j ≠ n;
  cn_ok q : set_ok (queue q s1);
  cn_lock : tasks_lock s1 = tasks_lock s }.

(** Out of queue [q], the only one it is in. *)
Lemma chosen_dequeue s c n q qa io aff :
  cells_inv s → placed s n (InQueue q) io → home qa = q → (n < MAX_TASKS)%nat →
  home aff = None ∨ home aff = Some c →
  chosen s (on_task n (set_affinity aff) (dequeue n qa s)) c n (InQueue q) io aff.
Proof.
  intros Hinv Hp <- Hn Haff. pose proof (pl_fits _ _ _ _ Hp) as (_&Hr&->).
  assert (Hok : set_ok (queue (home qa) s)) by (by apply queue_ok).
  split; try done.
  - left. by eexists.
  - by left.
  - rewrite task_eq. f_equal. apply set_queue_tasks.
  - intros j Hj. rewrite task_ne by done. apply set_queue_tasks.
  - intros d. destruct (set_queue_cells (home qa) (s_remove n (queue (home qa) s)) s d) as (?&?&?&?&_). done.
  - intros q j. rewrite queue_on_task, contains_dequeue by done. split.
    + intros [Hj Hne]. split; [done|]. intros ->. apply (pl_q _ _ _ _ Hp) in Hj. injection Hj as <-. by destruct Hne.
    + intros [Hj Hne]. split; [done|]. by intros [_ ?].
  - intros q. rewrite queue_on_task. unfold dequeue. rewrite queue_set. case_decide; [by apply remove_ok|by apply queue_ok].
  - cbn. by destruct (set_queue_cells (home qa) (s_remove n (queue (home qa) s)) s c) as (_&_&_&_&?).
Qed.

Lemma chosen_core s s1 s2 c n l io aff : core_eq s1 s2 → chosen s s1 c n l io aff → chosen s s2 c n l io aff.
Proof.
  intros He [? ? ? ? ? Ht Ho Hc Hq Hk Hl]. split; try done.
  - by rewrite (ce_task _ _ He).
  - intros j Hj. rewrite (ce_task _ _ He). auto.
  - intros d. rewrite (ce_cur _ _ He), (ce_mid _ _ He), (ce_idle _ _ He), (ce_phase _ _ He). auto.
  - intros q j. rewrite (core_eq_queue _ _ _ He). auto.
  - intros q. rewrite (core_eq_queue _ _ _ He). auto.
  - by rewrite (ce_lock _ _ He).
Qed.

Lemma set_affinity_id t : set_affinity (affinity t) t = t.
Proof. by destruct t. Qed.

Lemma home_small c : (c < MAX_CPUS)%nat → home (Some c) = Some c.
Proof. intros Hc. unfold home. cbn [fmap option_fmap option_map]. f_equal. unfold MAX_CPUS in *. lia. Qed.

Lemma first_some_elem {A B} (f : A → option B) (l : list A) y :
  first_some f l = Some y → ∃ x, x ∈ l ∧ f x = Some y.
Proof.
  induction l as [|x l IH]; cbn [first_some]; [done|]. destruct (f x) eqn:E.
  - intros [= <-]. exists x. split; [left|done].
  - intros Hf. destruct (IH Hf) as (x'&Hx&Hy). exists x'. split; [by right|done].
Qed.

Lemma in_queue_placed s q n :
  cells_inv s → s_contains (queue q s) n = true → ∃ io, placed s n (InQueue q) io.
Proof.
  intros (Hp&_&_) Hq. destruct (Hp n) as (l&io&Hl). exists io. by rewrite (pl_q _ _ _ _ Hl) in Hq; subst.
Qed.

Lemma chosen_queued s c n q :
  cells_inv s → s_contains (queue q s) n = true → q = None ∨ q = Some c →
  ∃ io, chosen s (dequeue n (affinity (tasks s n)) s) c n (InQueue q) io (affinity (tasks s n)).
Proof.
  intros Hinv Hq Hc. destruct (in_queue_placed s q n Hinv Hq) as [io Hp]. exists io.
  pose proof (pl_fits _ _ _ _ Hp) as (Eq&_). eapply chosen_core, chosen_dequeue; try done.
  - split; try done. intros j. destruct (decide (j = n)) as [->|]; [|by rewrite task_ne].
    rewrite task_eq. unfold dequeue. by rewrite set_queue_tasks, set_affinity_id.
  - by eapply contains_bound.
  - by rewrite <-Eq.
Qed.

Lemma pull_spec s c o s1 :
  cells_inv s → (c < MAX_CPUS)%nat → pull bsp c s = (o, s1) →
  match o with
  | None => s1 = s
  | Some n => ∃ q io, chosen s s1 c n (InQueue q) io (Some c)
  end.
Proof.
  intros Hinv Hc. unfold pull. case_match; [by intros [= <- <-]|].
  destruct (first_some _ _) as [[d n]|] eqn:Ef; [|by intros [= <- <-]]. intros [= <- <-].
  apply first_some_elem in Ef as (d'&Hd&Hf). unfold pull_from in Hf. case_match; [done|].
  destruct (find _ _) as [n'|] eqn:En; [|done]. injection Hf as -> ->.
  apply elem_all_cpus in Hd. apply find_some in En as [Hin _].
  apply list_elem_of_In, iter_spec in Hin; [|apply Hinv].
  destruct (in_queue_placed s (Some d) n Hinv Hin) as [io Hp]. exists (Some d), io.
  eapply chosen_core, chosen_dequeue; try done.
  - by apply core_on_cpu.
  - by apply home_small.
  - by eapply contains_bound.
  - right. by apply home_small.
Qed.

Lemma chosen_idle s c cur n :
  cells_inv s → current (cpus s c) = Some cur → switched_from (cpus s c) = None → idle_slot (cpus s c) = Some n →
  n ≠ cur → chosen s s c n Off (Some c) (affinity (tasks s n)).
Proof.
  intros Hinv Hcur Hsw Hid Hne. destruct (proj1 Hinv n) as (l&io&Hp).
  assert (io = Some c) as -> by (by apply (pl_idle _ _ _ _ Hp)).
  pose proof (pl_fits _ _ _ _ Hp) as Hf. assert (l = Off) as ->.
  { destruct l as [d|d|q|]; [| | |done]; cbn in Hf.
    - destruct Hf as (_&(<-&_)&_). assert (current (cpus s c) = Some n) by (by apply (pl_cur _ _ _ _ Hp)). congruence.
    - destruct Hf as (_&(<-&_)&_). assert (switched_from (cpus s c) = Some n) by (by apply (pl_mid _ _ _ _ Hp)). congruence.
    - by destruct Hf as (_&_&?). }
  cbn in Hf. destruct (state (tasks s n)) eqn:Es; try (by naive_solver). destruct Hf as (d&[= <-]&Hh&Hst).
  split; try done.
  - by right.
  - by right.
  - right. done.
  - by rewrite set_affinity_id.
  - intros q j. split; [|by intros []]. intros Hj. split; [done|]. intros ->.
    by rewrite (pl_q _ _ _ _ Hp) in Hj.
  - intros q. by apply queue_ok.
Qed.

Lemma choose_spec s c cur next s1 :
  cells_inv s → current (cpus s c) = Some cur → switched_from (cpus s c) = None →
  choose bsp c cur s = (next, s1) →
  (next = cur ∧ s1 = s) ∨ ∃ l io aff, next ≠ cur ∧ chosen s s1 c next l io aff.
Proof.
  intros Hinv Hcur Hsw. assert (Hc : (c < MAX_CPUS)%nat) by (eapply held_cpu; [done|by left]).
  assert (Hne : ∀ s1 n q io aff, chosen s s1 c n (InQueue q) io aff → n ≠ cur).
  { intros s2 n q io aff Hch ->. pose proof (cn_placed _ _ _ _ _ _ _ Hch) as Hp.
    by apply (pl_cur _ _ _ _ Hp) in Hcur. }
  unfold choose. destruct (s_next_after (queued c s) cur) as [n|] eqn:En.
  - intros [= <- <-]. apply next_after_some in En as [Hn _]; [|apply union_ok; apply Hinv].
    unfold queued in Hn. rewrite contains_union, orb_true_iff in Hn by apply Hinv. right.
    destruct Hn as [Hn|Hn].
    + destruct (chosen_queued s c n (Some c)) as [io Hch]; [done..|by right|]. eauto 10.
    + destruct (chosen_queued s c n None) as [io Hch]; [done..|by left|]. eauto 10.
  - set (runs := negb _ && _). destruct (if runs then (None, s) else pull bsp c s) as [o s2] eqn:Eo.
    assert (Ho : match o with None => s2 = s | Some n => ∃ q io, chosen s s2 c n (InQueue q) io (Some c) end).
    { destruct runs; [by injection Eo as <- <-|]. by apply (pull_spec s c). }
    destruct o as [n|].
    + intros [= <- <-]. right. destruct Ho as (q&io&Hch). eauto 10.
    + subst s2. destruct (idle_slot (cpus s c)) as [n|] eqn:Ei; [|intros [= <- <-]; by left].
      destruct (Nat.eqb_spec n cur) as [->|Hn]; rewrite ?andb_false_r, ?andb_true_r; cbn [negb];
        [intros [= <- <-]; by left|]. destruct (negb runs); intros [= <- <-]; [right|by left].
      exists Off, (Some c), (affinity (tasks s n)). split; [done|]. by apply (chosen_idle s c cur).
Qed.

(** What the picking processor leaves behind when it switches. *)
Record switching s s1 s' c cur n : Prop := {
  sg_cur d : current (cpus s' d) = if decide (d = c) then Some n else current (cpus s d);
  sg_mid d : switched_from (cpus s' d) = if decide (d = c) then Some cur else switched_from (cpus s d);
  sg_idle d : idle_slot (cpus s' d) = idle_slot (cpus s d);
  sg_queue q : queue q s' = queue q s1;
  sg_phase d : phase (cpus s' d) = if decide (d = c) then Leaving else phase (cpus s d);
  sg_lock : tasks_lock s' = tasks_lock s;
  sg_next : tasks s' n = set_state Running (tasks s1 n);
  sg_task : tasks s' cur = make_running (tasks s1 cur);
  sg_others j : j ≠ n → j ≠ cur → tasks s' j = tasks s1 j }.

Lemma placed_next s s1 s' c cur n l io aff :
  chosen s s1 c n l io aff → switching s s1 s' c cur n → n ≠ cur →
  placed s' n (OnCpu c) io.
Proof.
  intros [Hp Hr Hl Hnear Hio Ht _ _ Hq _ _] [Gc Gm Gi Gq _ _ Gn _ _] Hne.
  assert (Hno : ∀ d, l ≠ OnCpu d ∧ l ≠ LeavingCpu d) by (intros d; destruct Hl as [[q ->]| ->]; done).
  split.
  - intros d. rewrite Gc. case_decide as E; [subst; by split|]. rewrite (pl_cur _ _ _ _ Hp).
    split; [by intros ?%Hno|]. intros [= ->]. done.
  - intros d. rewrite Gm. case_decide as E; [split; [by intros [= ->]|done]|].
    rewrite (pl_mid _ _ _ _ Hp). split; [by intros ?%Hno|done].
  - intros q. rewrite Gq, Hq. split; [by intros []|done].
  - intros d. rewrite Gi. apply (pl_idle _ _ _ _ Hp).
  - rewrite Gn, Ht. split; [done|]. split; [|done]. destruct Hio as [->|(->&->&Hst)]; [done|].
    split; [done|]. split; [|done]. pose proof (pl_fits _ _ _ _ Hp) as Hf.
    destruct Hl as [[q ->]| ->]; cbn in Hf; [by destruct Hf as (_&_&?)|]. rewrite Hr in Hf.
    by destruct Hf as (d&[= <-]&?&_).
Qed.

Lemma placed_prev s s1 s' c cur n l io aff io' :
  chosen s s1 c n l io aff → switching s s1 s' c cur n → n ≠ cur → switched_from (cpus s c) = None →
  placed s cur (OnCpu c) io' → placed s' cur (LeavingCpu c) io'.
Proof.
  intros [_ _ _ _ _ _ Ho _ Hq _ _] [Gc Gm Gi Gq _ _ _ Gt _] Hne Hsw Hp. split.
  - intros d. rewrite Gc. case_decide as E; [split; [by intros [= ->]|done]|].
    rewrite (pl_cur _ _ _ _ Hp). split; [by intros [= ->]|done].
  - intros d. rewrite Gm. case_decide as E; [subst; by split|].
    rewrite (pl_mid _ _ _ _ Hp). split; [done|]. by intros [= ->].
  - intros q. rewrite Gq, Hq, (pl_q _ _ _ _ Hp). split; [by intros []|done].
  - intros d. rewrite Gi. apply (pl_idle _ _ _ _ Hp).
  - rewrite Gt, Ho by done. pose proof (pl_fits _ _ _ _ Hp) as (Hn&Hid&Hst). unfold make_running.
    case_bool_decide as Hr; [done|]. cbn. split; [done|]. split; [done|].
    by destruct (state (tasks s cur)); naive_solver.
Qed.

Lemma inv_switch s s1 s' c cur n l io aff :
  cells_inv s → chosen s s1 c n l io aff → switching s s1 s' c cur n → n ≠ cur →
  current (cpus s c) = Some cur → switched_from (cpus s c) = None →
  (phase (cpus s c) = Exec ∨ ∃ b, phase (cpus s c) = Idling b) → cells_inv s'.
Proof.
  intros Hinv Hch Hsg Hne Hcur Hsw Hph. split; [|split].
  - intros j. destruct (decide (j = n)) as [->|Hjn]; [|destruct (decide (j = cur)) as [->|Hjc]].
    + exists (OnCpu c), io. by eapply placed_next.
    + destruct (proj1 Hinv cur) as (l'&io'&Hp). assert (l' = OnCpu c) as -> by (by apply (pl_cur _ _ _ _ Hp)).
      exists (LeavingCpu c), io'. by eapply placed_prev.
    + destruct (proj1 Hinv j) as (l'&io'&Hp). exists l', io'. destruct Hch, Hsg.
      eapply placed_frame; [|by rewrite sg_others0, cn_others0|exact Hp]. split_and!.
      * intros d. rewrite sg_cur0. case_decide; [subst; rewrite Hcur; split; congruence|done].
      * intros d. rewrite sg_mid0. case_decide; [subst; rewrite Hsw; split; congruence|done].
      * intros d. by rewrite sg_idle0.
      * intros q. rewrite sg_queue0, cn_queue0. tauto.
  - intros d. destruct (proj1 (proj2 Hinv) d) as [Hset Hswc Hlk Hc Hnone Hi Hm].
    assert (Hcn := proj1 (proj2 Hinv) c). destruct Hch, Hsg. split.
    + change (runq (cpus s' d)) with (queue (Some d) s'). by rewrite sg_queue0.
    + rewrite sg_phase0, sg_mid0. case_decide; [|done]. split; [done|by left].
    + rewrite sg_lock0, sg_phase0. case_decide; [subst d|done]. rewrite Hlk.
      assert (Hl : ¬ locking (phase (cpus s c))) by (apply plain_lock; by destruct Hph as [->|[b ->]]).
      split; [done|]. by intros [(?&?&?&?)|(?&?&?)].
    + intros i. rewrite sg_cur0. case_decide; [|by apply Hc]. intros [= <-]. subst d.
      split; [by apply (Hc cur)|]. destruct cn_loc0 as [[q ->]| ->].
      * eapply contains_bound. by apply (pl_q _ _ _ _ cn_placed0).
      * destruct cn_idle0 as [->|(->&_)].
        -- pose proof (pl_fits _ _ _ _ cn_placed0) as Hf. cbn in Hf. rewrite cn_ready0 in Hf. naive_solver.
        -- apply Hi. by apply (pl_idle _ _ _ _ cn_placed0).
    + rewrite sg_cur0, sg_phase0, sg_idle0. case_decide; [done|]. by apply Hnone.
    + intros i. rewrite sg_idle0. apply Hi.
    + intros i. rewrite sg_mid0. case_decide; [|by apply Hm]. intros [= <-]. subst d. by apply (Hc cur).
  - destruct Hch, Hsg. change (float s') with (queue None s'). by rewrite sg_queue0.
Qed.

(** ** Phases *)

(** Slots see no phases. *)
Lemma phase_same s c p lk j :
  same_cells s (sys_set_tasks_lock lk (on_cpu c (cpu_set_phase p) s)) j.
Proof.
  split_and!; intros; cbn; try (case_decide; done). by destruct q; cbn; [case_decide|].
Qed.

Lemma inv_phase s c p lk :
  cells_inv s → (∀ d, cpu_ok (sys_set_tasks_lock lk (on_cpu c (cpu_set_phase p) s)) d) →
  cells_inv (sys_set_tasks_lock lk (on_cpu c (cpu_set_phase p) s)).
Proof.
  intros Hinv Hok. apply (cells_inv_intro s); [done| |done|apply Hinv].
  intros i. left. split; [apply phase_same|done].
Qed.

Lemma no_switch s c : cells_inv s → plain (phase (cpus s c)) → switched_from (cpus s c) = None.
Proof.
  intros Hinv Hp. destruct (proj1 (proj2 Hinv) c) as [_ Hsw _ _ _ _ _].
  destruct (switched_from (cpus s c)); [|done]. destruct (proj2 Hsw) as [E|E]; [done|by rewrite E in Hp..].
Qed.

(** [c]'s phase becomes [p] and the lock [lk]; the other processors do not
    hold it. *)
Lemma cpu_ok_phase s c p lk :
  cells_inv s → current (cpus s c) ≠ None → switched_from (cpus s c) = None → ¬ (p = Leaving ∨ p = Arrived) →
  (lk = Some c ↔ locking p) → (∀ d, d ≠ c → lk = Some d ↔ tasks_lock s = Some d) →
  ∀ d, cpu_ok (sys_set_tasks_lock lk (on_cpu c (cpu_set_phase p) s)) d.
Proof.
  intros Hinv Hcur Hnsw Hp Hc Hd d. destruct (proj1 (proj2 Hinv) d) as [Hset Hsw Hlk Hcu Hn Hi Hm].
  destruct (decide (d = c)) as [->|Hne].
  - split; cbn; rewrite decide_True by done; cbn; try done.
  - split; cbn; rewrite decide_False by done; try done. by rewrite Hd.
Qed.

Lemma inv_plain_phase s c p :
  cells_inv s → plain (phase (cpus s c)) → plain p → current (cpus s c) ≠ None →
  cells_inv (on_cpu c (cpu_set_phase p) s).
Proof.
  intros Hinv Hold Hnew Hcur. apply (inv_phase s c p (tasks_lock s)); [done|].
  apply cpu_ok_phase; try done; [by apply no_switch|by apply plain_switch|].
  destruct (proj1 (proj2 Hinv) c) as [_ _ Hlk _ _ _ _]. rewrite Hlk.
  pose proof (plain_lock _ Hold). pose proof (plain_lock _ Hnew). tauto.
Qed.

(** The lock is taken for [c]'s new phase, or let go. *)
Lemma inv_lock_phase s c p :
  cells_inv s → plain (phase (cpus s c)) → tasks_lock s = None → current (cpus s c) ≠ None → locking p →
  cells_inv (sys_set_tasks_lock (Some c) (on_cpu c (cpu_set_phase p) s)).
Proof.
  intros Hinv Hold Hlock Hcur Hp. apply inv_phase; [done|].
  apply cpu_ok_phase; try done; [by apply no_switch|by apply locking_switch|].
  intros d Hd. split; congruence.
Qed.

Lemma inv_unlock s c :
  cells_inv s → tasks_lock s = Some c →
  cells_inv (sys_set_tasks_lock None (on_cpu c (cpu_set_phase Exec) s)).
Proof.
  intros Hinv Hlock. destruct (proj1 (proj2 Hinv) c) as [_ Hsw Hlk _ Hn _ _].
  apply Hlk in Hlock as Hl. apply inv_phase; [done|]. apply cpu_ok_phase; try done.
  - intros E. destruct (Hn E) as [E' _]. rewrite E' in Hl. by apply (plain_lock Exec).
  - destruct (switched_from (cpus s c)); [|done]. destruct (locking_switch _ Hl). by apply Hsw.
  - by intros [?|?].
  - split; [done|]. intros Hx. by apply (plain_lock Exec) in Hx.
  - intros d Hd. split; congruence.
Qed.

(** ** The pick, whole *)

Lemma pick_stays s c cur b s' :
  cells_inv s → current (cpus s c) = Some cur → switched_from (cpus s c) = None →
  pick bsp c cur s = (Stayed b, s') →
  cells_eq s s' ∧ cells_inv s'.
Proof.
  intros Hinv Hcur Hsw. unfold pick. case_match; [by intros [= _ <-]|].
  destruct (choose bsp c cur s) as [n s1] eqn:Ech.
  destruct (Nat.eqb_spec n cur) as [->|Hne]; [|done]. intros [= _ <-].
  apply choose_spec in Ech as [[_ ->]|(?&?&?&?&_)]; [|done..].
  split; [apply cells_eq_task|].
  apply (inv_task s _ cur); [done|apply cells_eq_task|by apply task_ne|].
  intros l io Hp. rewrite task_eq. unfold make_running. case_bool_decide as Hr; [|apply (pl_fits _ _ _ _ Hp)].
  assert (l = OnCpu c) as -> by (by apply (pl_cur _ _ _ _ Hp)).
  pose proof (pl_fits _ _ _ _ Hp) as (?&?&?). done.
Qed.

Lemma pick_switches s c cur s' :
  cells_inv s → current (cpus s c) = Some cur → switched_from (cpus s c) = None →
  pick bsp c cur s = (Switched, s') →
  ∃ n s1 l io aff, chosen s s1 c n l io aff ∧ n ≠ cur ∧
    switching s s1 (on_cpu c (cpu_set_phase Leaving) s') c cur n ∧ choose bsp c cur s = (n, s1).
Proof.
  intros Hinv Hcur Hsw. unfold pick. case_match; [done|].
  destruct (choose bsp c cur s) as [n s1] eqn:Ech.
  destruct (Nat.eqb_spec n cur) as [->|Hne]; [done|]. intros [= <-].
  assert (Ech' := Ech). apply choose_spec in Ech as [[? _]|(l&io&aff&_&Hch)]; [done| |done..].
  exists n, s1, l, io, aff. split; [done|]. split; [done|]. split; [|done].
  pose proof (cn_cells _ _ _ _ _ _ _ Hch) as Hcells. pose proof (cn_lock _ _ _ _ _ _ _ Hch) as Hlk.
  set (s2 := if bool_decide (Some n = idle_slot (cpus s c)) then s1 else on_cpu c (cpu_set_cpu_idle false) s1).
  assert (H2 : core_eq s1 s2) by (unfold s2; case_match; [done|by apply core_on_cpu]). clearbody s2.
  split.
  - intros d. cbn. repeat case_decide; subst; try done. cbn. rewrite (ce_cur _ _ H2). apply Hcells.
  - intros d. cbn. repeat case_decide; subst; try done. cbn. rewrite (ce_mid _ _ H2). apply Hcells.
  - intros d. cbn. repeat case_decide; subst; cbn; rewrite (ce_idle _ _ H2); apply Hcells.
  - intros q. rewrite <-(core_eq_queue _ _ q H2). destruct q; cbn; [|done]. by repeat case_decide.
  - intros d. cbn. repeat case_decide; subst; try done. rewrite (ce_phase _ _ H2). apply Hcells.
  - cbn. by rewrite (ce_lock _ _ H2).
  - cbn. rewrite decide_False, decide_True by done. by rewrite (ce_task _ _ H2).
  - cbn. rewrite decide_True, decide_False by done. by rewrite (ce_task _ _ H2).
  - intros j ??. cbn. rewrite !decide_False by done. apply (ce_task _ _ H2).
Qed.

Lemma step_pick_inv s c cur s' :
  cells_inv s → current (cpus s c) = Some cur → step_pick bsp c cur s = Some s' → cells_inv s'.
Proof.
  intros Hinv Hcur. unfold step_pick. destruct (phase (cpus s c)) as [| |b| | | | |] eqn:Ep; try done.
  all: assert (Hsw : switched_from (cpus s c) = None) by (apply no_switch; [done|by rewrite Ep]).
  all: destruct (pick bsp c cur s) as [[|bl] s1] eqn:Epk; intros [= <-].
  - destruct (pick_switches s c cur s1) as (n&s2&l&io&aff&Hch&Hne&Hsg&_); [done..|].
    eapply inv_switch; [..|by left]; done.
  - by apply (pick_stays s c cur bl).
  - destruct (pick_switches s c cur s1) as (n&s2&l&io&aff&Hch&Hne&Hsg&_); [done..|].
    eapply inv_switch; [..|by right; exists b]; done.
  - destruct (pick_stays s c cur bl s1) as [He Hi]; [done..|].
    destruct (cells_eq_cpu s s1 c He) as (E1&_&_&E4).
    apply inv_plain_phase; [done|by rewrite E4, Ep| |by rewrite E1, Hcur]. by destruct (b || bl).
Qed.

(** ** The end of a switch *)

(** Processor [c] has let go of the task it left. *)
Definition let_go c s : Sys T :=
  on_cpu c (λ k, cpu_set_phase Exec (cpu_set_switched_from None k)) s.

Lemma let_go_but s c prev :
  cells_inv s → tasks_lock s = None → switched_from (cpus s c) = Some prev → inv_but prev (let_go c s).
Proof.
  intros Hinv Hlock Hsw. split; [|split; [|apply Hinv]].
  - intros j Hj. destruct (proj1 Hinv j) as (l&io&Hp). exists l, io. apply (placed_frame s); [|done|done].
    split_and!; intros; cbn; try (case_decide; done).
    + case_decide; [|done]. subst. cbn. rewrite Hsw. split; congruence.
    + by destruct q; cbn; [case_decide|].
  - intros d. destruct (proj1 (proj2 Hinv) d) as [Hset Hswd Hlk Hcu Hn Hi Hm].
    destruct (decide (d = c)) as [->|Hne].
    + split; cbn; rewrite decide_True by done; cbn; try done.
      * split; [by intros [?|?]|done].
      * rewrite Hlock. split; [done|]. intros Hx. by apply (plain_lock Exec) in Hx.
      * intros E. split; [done|]. by apply Hn.
    + split; cbn; rewrite decide_False by done; done.
Qed.

Lemma let_go_queue c s q : queue q (let_go c s) = queue q s.
Proof. by destruct q; cbn; [case_decide|]. Qed.

Lemma let_go_cells s c prev io : placed s prev (LeavingCpu c) io → cells_at (let_go c s) prev Off io.
Proof.
  intros Hp. split; intros.
  - cbn. case_decide; cbn; rewrite (pl_cur _ _ _ _ Hp); by split.
  - cbn. case_decide as E; cbn; [done|]. rewrite (pl_mid _ _ _ _ Hp). split; [|done]. by intros [= ->].
  - rewrite let_go_queue, (pl_q _ _ _ _ Hp). by split.
  - cbn. case_decide; cbn; apply (pl_idle _ _ _ _ Hp).
Qed.

Lemma core_phase s s' c p : core_eq s s' → core_eq (on_cpu c (cpu_set_phase p) s) (on_cpu c (cpu_set_phase p) s').
Proof. intros []. by split; intros; cbn; try case_decide; cbn; auto. Qed.

Lemma core_enqueue_phase i aff c p s :
  core_eq (enqueue i aff (on_cpu c (cpu_set_phase p) s)) (on_cpu c (cpu_set_phase p) (enqueue i aff s)).
Proof.
  unfold enqueue. destruct (home aff) as [d|]; split; intros; cbn; repeat case_decide; subst; try done.
Qed.

Lemma core_enqueue i aff s s' : core_eq s s' → core_eq (enqueue i aff s) (enqueue i aff s').
Proof.
  intros He. unfold enqueue. rewrite (core_eq_queue _ _ _ He).
  destruct He, (home aff) as [d|]; split; intros; cbn; repeat case_decide; subst; cbn; auto.
Qed.

(** The task a switch leaves runnable: [Ready], and queued unless it is the
    idle task. *)
Lemma inv_finish_ready s c prev io g :
  cells_inv s → tasks_lock s = None → switched_from (cpus s c) = Some prev → placed s prev (LeavingCpu c) io →
  state (tasks s prev) ≠ Dead →
  (∀ t, state (g t) = Ready ∧ affinity (g t) = affinity t ∧ start_regs (g t) = start_regs t) →
  let s1 := on_task prev g (let_go c s) in
  cells_inv (if bool_decide (Some prev = idle_slot (cpus s c)) then s1 else enqueue prev (affinity (tasks s1 prev)) s1).
Proof.
  intros Hinv Hlock Hsw Hp Hd Hg s1. pose proof (let_go_but s c prev Hinv Hlock Hsw) as Hbut.
  pose proof (let_go_cells s c prev io Hp) as Hcells. pose proof (pl_fits _ _ _ _ Hp) as (Hn&Hid&Hst).
  assert (Ht : tasks s1 prev = g (tasks s prev)) by (unfold s1; by rewrite task_eq).
  destruct (Hg (tasks s prev)) as (G1&G2&G3). case_bool_decide as Ei.
  - apply (inv_settle (let_go c s) _ prev Off io); [done|done|apply cells_eq_task|by apply task_ne|].
    assert (io = Some c) as -> by (by apply (pl_idle _ _ _ _ Hp)). destruct Hid as (_&Hh&Hs).
    rewrite Ht. cbn. rewrite G1, G2, G3. eauto.
  - assert (io = None) as ->.
    { destruct io as [d|]; [|done]. destruct Hid as (->&_). destruct Ei. symmetry. by apply (pl_idle _ _ _ _ Hp). }
    apply (inv_enqueue (let_go c s)); [done|done| |apply cells_eq_task|by apply task_ne|by rewrite Ht].
    by apply (ck_mid _ _ (proj1 (proj2 Hinv) c)).
Qed.

Lemma finish_inv s c :
  cells_inv s → tasks_lock s = None → phase (cpus s c) = Arrived →
  cells_inv (on_cpu c (cpu_set_phase Exec) (note_kicks c (finish_switch bsp c s))).
Proof.
  intros Hinv Hlock Hph. destruct (switched_from (cpus s c)) as [prev|] eqn:Esw.
  2:{ destruct (proj1 (proj2 Hinv) c) as [_ Hsw _ _ _ _ _]. destruct (proj1 Hsw); [by right|done]. }
  destruct (proj1 Hinv prev) as (l&io&Hp). assert (l = LeavingCpu c) as -> by (by apply (pl_mid _ _ _ _ Hp)).
  assert (Hfin : ∀ x, core_eq (on_cpu c (cpu_set_phase Exec) x.1) (on_cpu c (cpu_set_phase Exec) (note_kicks c x)))
    by (intros x; apply core_phase, core_note_kicks).
  eapply core_eq_inv; [apply Hfin|]. unfold finish_switch. rewrite Esw.
  set (s1 := on_cpu c (cpu_set_switched_from None) s). change (tasks s1) with (tasks s).
  pose proof (pl_fits _ _ _ _ Hp) as (Hn&Hid&Hst).
  destruct (bool_decide (state (tasks s prev) = Running) || _) eqn:Er.
  - set (s2 := if bool_decide (state (tasks s prev) = Blocked) && wake_pending (tasks s prev) then _ else s1).
    set (g := λ t, set_state Ready (if bool_decide (state (tasks s prev) = Blocked) && wake_pending (tasks s prev)
      then set_wait (wait_key (tasks s prev)) (wake_at (tasks s prev)) false t else t)).
    assert (E2 : core_eq (on_task prev g (let_go c s)) (on_cpu c (cpu_set_phase Exec) (on_task prev (set_state Ready) s2))).
    { unfold s2, g. destruct (_ && _); split; intros; cbn; repeat case_decide; subst; done. }
    pose proof (inv_finish_ready s c prev io g Hinv Hlock Esw Hp) as Hready. cbv zeta in Hready.
    assert (Ei : idle_slot (cpus (on_task prev (set_state Ready) s2) c) = idle_slot (cpus s c)).
    { unfold s2. destruct (_ && _); cbn; by rewrite decide_True. }
    rewrite Ei. clear Ei.
    assert (Hd : state (tasks s prev) ≠ Dead).
    { intros E. rewrite E in Er. by repeat (rewrite bool_decide_eq_false_2 in Er by done). }
    specialize (Hready Hd). destruct (bool_decide (Some prev = _)).
    + cbn [fst]. eapply core_eq_inv; [exact E2|]. apply Hready. intros t. unfold g. by destruct (_ && _).
    + eapply core_eq_inv; [apply core_phase, core_kick_for|]. cbn [fst].
      eapply core_eq_inv; [apply core_enqueue_phase|].
      replace (affinity (tasks (on_task prev (set_state Ready) s2) prev)) with
        (affinity (tasks (on_task prev g (let_go c s)) prev)).
      2:{ rewrite <-(ce_task _ _ E2 prev). done. }
      eapply core_eq_inv; [apply core_enqueue; exact E2|]. apply Hready. intros t. unfold g. by destruct (_ && _).
  - apply orb_false_iff in Er as [Er Eb]. rewrite Eb. cbn [fst]. apply bool_decide_eq_false in Er.
    eapply core_eq_inv; [|apply (inv_settle (let_go c s) (let_go c s) prev Off io); try done].
    + split; intros; cbn; repeat case_decide; subst; done.
    + by apply let_go_but.
    + by apply let_go_cells.
    + cbn. destruct (state (tasks s prev)); try done. destruct Hst as [? ->].
      rewrite bool_decide_eq_true_2 in Eb by done. done.
Qed.

(** ** Slots *)

(** A slot that holds no task is off everything. *)
Lemma free_placed s i l io :
  placed s i l io → state (tasks s i) = Unused ∨ state (tasks s i) = Claimed → l = Off ∧ io = None.
Proof.
  intros Hp Hs. pose proof (pl_fits _ _ _ _ Hp) as Hf. destruct l as [c|c|q|]; cbn in Hf.
  - destruct Hf as (_&_&Hf). by destruct Hs as [E|E]; rewrite E in Hf.
  - destruct Hf as (_&_&Hf). by destruct Hs as [E|E]; rewrite E in Hf.
  - destruct Hf as (_&Hf&_). by destruct Hs as [E|E]; rewrite E in Hf.
  - split; [done|]. by destruct Hs as [E|E]; rewrite E in Hf.
Qed.

Lemma ready_locked_inv s s' i (ks : Z) :
  inv_but i s → cells_at s i Off None → (i < MAX_TASKS)%nat →
  cells_eq s s' → (∀ j, j ≠ i → tasks s' j = tasks s j) → state (tasks s' i) = Ready →
  cells_inv (ready_locked bsp i (s', ks)).1.
Proof.
  intros. unfold ready_locked. eapply core_eq_inv; [apply core_kick_for|]. cbn [fst]. by apply (inv_enqueue s).
Qed.

Lemma install_inv i sp0 as0 tg rg aff s (ks : Z) :
  cells_inv s → (i < MAX_TASKS)%nat → state (tasks s i) = Unused ∨ state (tasks s i) = Claimed →
  cells_inv (install bsp i sp0 as0 tg rg aff (s, ks)).1.
Proof.
  intros Hinv Hi Hs. destruct (proj1 Hinv i) as (l&io&Hp). destruct (free_placed s i l io Hp Hs) as [-> ->].
  unfold install. apply (ready_locked_inv s); [by apply inv_inv_but|by apply placed_cells|done|apply cells_eq_task| |].
  - intros j Hj. by apply task_ne.
  - cbn [fst]. by rewrite task_eq.
Qed.

(** Taken out of its queue, a task is off everything. *)
Lemma dequeue_but s i aff :
  cells_inv s → placed s i (InQueue (home aff)) None → (i < MAX_TASKS)%nat →
  inv_but i (dequeue i aff s) ∧ cells_at (dequeue i aff s) i Off None.
Proof.
  intros Hinv Hp Hi. assert (Hok : set_ok (queue (home aff) s)) by (by apply queue_ok).
  assert (Hcells : ∀ c, current (cpus (dequeue i aff s) c) = current (cpus s c) ∧
    switched_from (cpus (dequeue i aff s) c) = switched_from (cpus s c) ∧
    idle_slot (cpus (dequeue i aff s) c) = idle_slot (cpus s c)).
  { intros c. unfold dequeue. by destruct (set_queue_cells (home aff) (s_remove i (queue (home aff) s)) s c)
      as (->&->&->&_). }
  split; [split; [|split]|].
  - intros j Hj. destruct (proj1 Hinv j) as (l&io&Hl). exists l, io. apply (placed_frame s); [|apply set_queue_tasks|done].
    split_and!; intros; rewrite ?(proj1 (Hcells _)), ?(proj1 (proj2 (Hcells _))), ?(proj2 (proj2 (Hcells _))); try done.
    rewrite contains_dequeue by done. tauto.
  - apply set_queue_ok; [apply Hinv|by apply remove_ok].
  - change (float (dequeue i aff s)) with (queue None (dequeue i aff s)). unfold dequeue. rewrite queue_set.
    case_decide; [by apply remove_ok|by apply queue_ok].
  - split; intros; rewrite ?(proj1 (Hcells _)), ?(proj1 (proj2 (Hcells _))), ?(proj2 (proj2 (Hcells _))).
    + rewrite (pl_cur _ _ _ _ Hp). by split.
    + rewrite (pl_mid _ _ _ _ Hp). by split.
    + rewrite contains_dequeue, (pl_q _ _ _ _ Hp) by done. split; [|done]. intros [[= ->] Hn]. by destruct Hn.
    + apply (pl_idle _ _ _ _ Hp).
Qed.

(** A new task that has not run is in its queue. *)
Lemma fresh_placed s i l io :
  placed s i l io → state (tasks s i) = Ready → start_regs (tasks s i) = true →
  l = InQueue (home (affinity (tasks s i))) ∧ io = None.
Proof.
  intros Hp Hr Hs. pose proof (pl_fits _ _ _ _ Hp) as Hf. destruct l as [c|c|q|]; cbn in Hf; rewrite ?Hr in Hf.
  - destruct Hf as (_&_&Hf). congruence.
  - by destruct Hf as (_&_&Hf).
  - by destruct Hf as (->&_&->).
  - destruct Hf as (c&_&_&Hf). congruence.
Qed.

Lemma rehome_inv s i aff (ks : Z) :
  cells_inv s → (i < MAX_TASKS)%nat → state (tasks s i) = Ready → start_regs (tasks s i) = true →
  cells_inv (rehome_locked bsp i aff (s, ks)).1.
Proof.
  intros Hinv Hi Hr Hs. destruct (proj1 Hinv i) as (l&io&Hp). destruct (fresh_placed s i l io Hp Hr Hs) as [-> ->].
  destruct (dequeue_but s i (affinity (tasks s i)) Hinv Hp Hi) as [Hb Hc]. unfold rehome_locked. cbn [fst snd].
  eapply ready_locked_inv; [exact Hb|exact Hc|done|apply cells_eq_task| |].
  - intros j Hj. by apply task_ne.
  - rewrite task_eq. cbn. unfold dequeue. by rewrite set_queue_tasks.
Qed.

(** [unqueue] of a slot in no queue. *)
Lemma unqueue_core s i :
  cells_inv s → (∀ q, s_contains (queue q s) i = false) → (i < MAX_TASKS)%nat → cells_inv (unqueue i s).
Proof.
  intros Hinv Hq Hi. unfold unqueue.
  apply (foldl_keeps (λ s, cells_inv s ∧ ∀ q, s_contains (queue q s) i = false)); [done|].
  intros s' q [Hinv' Hq'] _. assert (Hok : set_ok (queue q s')) by (by apply queue_ok).
  assert (Hsame : ∀ q' j, s_contains (queue q' (set_queue q (s_remove i (queue q s')) s')) j = s_contains (queue q' s') j).
  { intros q' j. rewrite queue_set. case_decide; [subst|done]. rewrite contains_remove by done.
    case_bool_decide; [subst; by rewrite Hq'|done]. }
  split; [|intros q'; rewrite Hsame; apply Hq'].
  apply (cells_inv_intro s'); [done| | |].
  - intros j. left. split; [|apply set_queue_tasks].
    split_and!; intros; rewrite ?Hsame; try done; destruct q; cbn; try case_decide; done.
  - apply set_queue_ok; [apply Hinv'|by apply remove_ok].
  - change (float ?x) with (queue None x). rewrite queue_set. case_decide; [by apply remove_ok|by apply queue_ok].
Qed.

Lemma reapable_placed s i l io :
  cells_inv s → placed s i l io → reapable i s = true → l = Off ∧ io = None.
Proof.
  intros Hinv Hp Hr. unfold reapable in Hr. rewrite !andb_true_iff, !negb_true_iff, bool_decide_eq_true in Hr.
  destruct Hr as [[[Hd Hc] Hm] _]. pose proof (pl_fits _ _ _ _ Hp) as Hf. destruct l as [c|c|q|]; cbn in Hf.
  - assert (Hcur : current (cpus s c) = Some i) by (by apply (pl_cur _ _ _ _ Hp)).
    assert (slot_on_cpu i s = true); [|congruence]. apply existsb_exists. exists c.
    split; [|by apply bool_decide_eq_true]. apply list_elem_of_In, elem_all_cpus. eapply held_cpu; [done|by left].
  - assert (mid_switch i s = true); [|congruence]. eapply mid_switch_spec; eauto.
  - destruct Hf as (_&?&_). congruence.
  - by rewrite Hd in Hf.
Qed.

(** A slot on no processor and in no queue is cleared. *)
Lemma recycle_off_inv s i :
  cells_inv s → (i < MAX_TASKS)%nat → (∀ l io, placed s i l io → l = Off ∧ io = None) → cells_inv (recycle i s).
Proof.
  intros Hinv Hi Hoff. set (s1 := on_task i (λ _, EMPTY) s). change (recycle i s) with (unqueue i s1).
  assert (Hs1 : cells_inv s1).
  { apply (inv_task s _ i); [done|apply cells_eq_task|by apply task_ne|].
    intros l io Hp. destruct (Hoff l io Hp) as [-> ->]. unfold s1. by rewrite task_eq. }
  apply unqueue_core; [done| |done]. intros q. apply not_true_iff_false. intros Hq.
  destruct (in_queue_placed s1 q i Hs1 Hq) as [io Hp]. destruct (free_placed s1 i _ _ Hp) as [? _]; [|done].
  left. unfold s1. by rewrite task_eq.
Qed.

Lemma recycle_task s i : tasks (recycle i s) i = EMPTY.
Proof.
  unfold recycle, unqueue. apply (foldl_keeps (λ s, tasks (T := T) s i = EMPTY)); [by rewrite task_eq|].
  intros s2 q Hs _. by rewrite set_queue_tasks.
Qed.

Lemma claim_inv s i s' :
  cells_inv s → (i < MAX_TASKS)%nat → claim_slot i s = Some s' → cells_inv s'.
Proof.
  intros Hinv Hi. unfold claim_slot. case_match eqn:E; [|done]. intros [= <-].
  assert (Hr : cells_inv (recycle i s)).
  { apply recycle_off_inv; [done..|]. intros l io Hp. apply orb_true_iff in E as [E|E].
    - apply bool_decide_eq_true in E. eapply free_placed; [done|by left].
    - by eapply reapable_placed. }
  pose proof (recycle_task s i) as Et. revert Hr Et. generalize (recycle i s). intros s1 Hr Et.
  apply (inv_task s1 _ i); [done|apply cells_eq_task|by apply task_ne|].
  intros l io Hp. rewrite task_eq, Et. destruct (free_placed _ i l io Hp) as [-> ->]; [rewrite Et; by left|done].
Qed.

Lemma retire_inv s c cur :
  cells_inv s → current (cpus s c) = Some cur → idle_slot (cpus s c) ≠ Some cur → cells_inv (retire cur s).
Proof.
  intros Hinv Hcur Hid. apply (inv_task s _ cur); [done|apply cells_eq_task|by apply task_ne|].
  intros l io Hp. assert (l = OnCpu c) as -> by (by apply (pl_cur _ _ _ _ Hp)).
  unfold retire. rewrite task_eq. pose proof (pl_fits _ _ _ _ Hp) as (Hn&Hi&_). split; [done|]. split; [done|]. cbn.
  destruct io as [d|]; [|done]. destruct Hi as (->&_). destruct Hid. by apply (pl_idle _ _ _ _ Hp).
Qed.

Lemma take_inv s c cur : cells_inv s → current (cpus s c) = Some cur → cells_inv (on_task cur (set_start_regs false) s).
Proof.
  intros Hinv Hcur. apply (inv_task s _ cur); [done|apply cells_eq_task|by apply task_ne|].
  intros l io Hp. assert (l = OnCpu c) as -> by (by apply (pl_cur _ _ _ _ Hp)).
  rewrite task_eq. pose proof (pl_fits _ _ _ _ Hp) as (Hn&Hi&Hs). split; [done|]. split.
  - destruct io; [|done]. cbn in *. tauto.
  - cbn. destruct (state (tasks s cur)); naive_solver.
Qed.

Lemma bring_up_inv s c i sp0 :
  cells_inv s → (c < MAX_CPUS)%nat → (i < MAX_TASKS)%nat → current (cpus s c) = None →
  state (tasks s i) = Unused → cells_inv (bring_up c i sp0 s).
Proof.
  intros Hinv Hc Hi Hcur Hs. destruct (proj1 Hinv i) as (l&io&Hp).
  destruct (free_placed s i l io Hp) as [-> ->]; [by left|].
  destruct (proj1 (proj2 Hinv) c) as [Hset Hsw Hlk _ Hn _ Hm]. destruct (Hn Hcur) as [Hph Hid].
  assert (Hq : ∀ q, queue q (bring_up c i sp0 s) = queue q s) by (intros [d|]; cbn; [case_decide|]; done).
  split; [|split; [|apply Hinv]].
  - intros j. destruct (decide (j = i)) as [->|Hj].
    + exists (OnCpu c), (Some c). split; intros; rewrite ?Hq; cbn.
      * case_decide; cbn; [subst; by split|]. rewrite (pl_cur _ _ _ _ Hp). split; [done|]. intros [= ->]. done.
      * case_decide; cbn; rewrite (pl_mid _ _ _ _ Hp); by split.
      * rewrite (pl_q _ _ _ _ Hp). by split.
      * case_decide; cbn; [subst; by split|]. rewrite (pl_idle _ _ _ _ Hp). split; [done|]. intros [= ->]. done.
      * rewrite decide_True by done. unfold near, idle_fits. cbn [affinity state start_regs]. rewrite home_small by done. auto.
    + destruct (proj1 Hinv j) as (l'&io'&Hl). exists l', io'. apply (placed_frame s); [|cbn; by rewrite decide_False|done].
      split_and!; intros; rewrite ?Hq; cbn; try (case_decide; [subst|done]); cbn; try done.
      * rewrite Hcur. split; congruence.
      * rewrite Hid. split; congruence.
  - intros d. destruct (proj1 (proj2 Hinv) d) as [Hset' Hsw' Hlk' Hcu' Hn' Hi' Hm'].
    destruct (decide (d = c)) as [->|Hne].
    + split; cbn; rewrite decide_True by done; cbn; try done; by intros ? [= <-].
    + split; cbn; rewrite decide_False by done; done.
Qed.

Lemma become_idle_inv s c cur :
  cells_inv s → current (cpus s c) = Some cur → idle_slot (cpus s c) = None → state (tasks s cur) = Running →
  start_regs (tasks s cur) = false → home (affinity (tasks s cur)) = Some c →
  cells_inv (on_cpu c (cpu_set_idle_slot (Some cur)) s).
Proof.
  intros Hinv Hcur Hid Hr Hs Hh. destruct (proj1 Hinv cur) as (l&io&Hp).
  assert (l = OnCpu c) as -> by (by apply (pl_cur _ _ _ _ Hp)).
  assert (io = None) as ->.
  { destruct io as [d|]; [|done]. pose proof (pl_fits _ _ _ _ Hp) as (_&(->&_)&_).
    assert (idle_slot (cpus s c) = Some cur) by (by apply (pl_idle _ _ _ _ Hp)). congruence. }
  assert (Hq : ∀ q, queue q (on_cpu c (cpu_set_idle_slot (Some cur)) s) = queue q s)
    by (intros [d|]; cbn; [case_decide|]; done).
  split; [|split; [|apply Hinv]].
  - intros j. destruct (decide (j = cur)) as [->|Hj].
    + exists (OnCpu c), (Some c). split; intros; rewrite ?Hq; cbn.
      * case_decide; apply (pl_cur _ _ _ _ Hp).
      * case_decide; apply (pl_mid _ _ _ _ Hp).
      * apply (pl_q _ _ _ _ Hp).
      * case_decide; cbn; [subst; by split|]. rewrite (pl_idle _ _ _ _ Hp). split; [done|]. intros [= ->]. done.
      * pose proof (pl_fits _ _ _ _ Hp) as (Hn&_&_). split; [done|]. split; [done|]. by rewrite Hr.
    + destruct (proj1 Hinv j) as (l'&io'&Hl). exists l', io'. apply (placed_frame s); [|done|done].
      split_and!; intros; rewrite ?Hq; cbn; try (case_decide; [subst|done]); cbn; try done.
      rewrite Hid. split; congruence.
  - intros d. destruct (proj1 (proj2 Hinv) d) as [Hset' Hsw' Hlk' Hcu' Hn' Hi' Hm'].
    destruct (decide (d = c)) as [->|Hne].
    + split; cbn; rewrite decide_True by done; cbn; try done.
      * intros E. congruence.
      * intros i [= <-]. by apply (Hcu' cur).
    + split; cbn; rewrite decide_False by done; done.
Qed.

End facts.
