(* ===== verification/SchedRun.v ===== *)
(** * The scheduler's runs

    Every step keeps the invariant of [SchedFacts.v]; from it, over all runs
    from boot: a task runs on one processor at a time and is never lost. *)

From S2P Require Import Prelude TaskSet Sched SchedFacts.
From stdpp Require Import list.

Open Scope Z_scope.

Lemma guard_some_inv {A} b (x : option A) y : guard_some b x = Some y → b = true ∧ x = Some y.
Proof. by destruct b. Qed.

Ltac guards :=
  repeat match goal with
  | H : guard_some _ _ = Some _ |- _ => apply guard_some_inv in H as [? H]
  | H : _ && _ = true |- _ => apply andb_true_iff in H as [? H]
  | H : bool_decide _ = true |- _ => apply bool_decide_eq_true in H
  | H : negb _ = true |- _ => apply negb_true_iff in H
  | H : bool_decide _ = false |- _ => apply bool_decide_eq_false in H
  | H : in_exec _ _ = true |- _ => unfold in_exec in H
  | H : unlocked _ = true |- _ => unfold unlocked in H
  | H : Some _ = Some _ |- _ => injection H as <-
  end.

(** Cases on a test of the goal. *)
Ltac goal_decide := match goal with |- context [decide ?P] => destruct (decide P) end.

Section run.
Context {T : Type} `{SlotSetLaws T} (bsp : bool).
Implicit Types (s : Sys T) (i c cur : nat).

(** ** What a wake does not touch *)

Record quiet s s' : Prop := {
  qu_cur c : current (cpus s' c) = current (cpus s c);
  qu_mid c : switched_from (cpus s' c) = switched_from (cpus s c);
  qu_idle c : idle_slot (cpus s' c) = idle_slot (cpus s c);
  qu_phase c : phase (cpus s' c) = phase (cpus s c);
  qu_kicks c : kicks (cpus s' c) = kicks (cpus s c);
  qu_cpu_idle c : cpu_idle (cpus s' c) = cpu_idle (cpus s c);
  qu_ipi c : ipi (cpus s' c) = ipi (cpus s c);
  qu_any c : any_phase (cpus s' c) = any_phase (cpus s c);
  qu_lock : tasks_lock s' = tasks_lock s;
  qu_online : online s' = online s;
  qu_preempt : preempt_on s' = preempt_on s;
  qu_deadline : next_deadline s' = next_deadline s;
  qu_bumps : bumps s <= bumps s';
  qu_seq : wait_seq s = bumps s mod 2 ^ 64 → wait_seq s' = bumps s' mod 2 ^ 64;
  qu_start i : start_regs (tasks s' i) = start_regs (tasks s i);
  qu_aff i : affinity (tasks s' i) = affinity (tasks s i) }.

#[export] Instance quiet_refl : Reflexive quiet.
Proof. by intros s. Qed.
#[export] Instance quiet_trans : Transitive quiet.
Proof. intros s1 s2 s3 [] []. split; intros; first [by auto|etrans; eauto]. Qed.

Lemma quiet_bump s : quiet s (bump s).
Proof.
  split; try done; cbn; [lia|]. intros ->. by rewrite Zplus_mod_idemp_l.
Qed.

Lemma quiet_task i f s :
  (∀ t, start_regs (f t) = start_regs t ∧ affinity (f t) = affinity t) → quiet s (on_task i f s).
Proof. intros Hf. split; try done; intros j; cbn; case_decide; try done; apply Hf. Qed.

Lemma quiet_flag c (sk : Sys T * Z) : quiet sk.1 (flag c sk).1.
Proof. split; try done; intros d; cbn; case_decide; done. Qed.

Lemma quiet_kick_for slot aff fs (sk : Sys T * Z) : quiet sk.1 (kick_for bsp slot aff fs sk).1.
Proof.
  unfold kick_for. set (sk1 := match home aff with Some c => if fs then sk else flag c sk | None => sk end).
  assert (Hs1 : quiet sk.1 sk1.1).
  { unfold sk1. destruct (home aff); [|done]. destruct fs; [done|apply quiet_flag]. }
  clearbody sk1. match goal with |- context [if ?b then _ else _] => destruct b end; [exact Hs1|].
  destruct (find _ _); [|exact Hs1]. etrans; [exact Hs1|apply quiet_flag].
Qed.

Lemma quiet_set_queue q v s : quiet s (set_queue q v s).
Proof. destruct q; split; try done; intros d; cbn; case_decide; done. Qed.

Lemma quiet_wake_locked i (sk : Sys T * Z) : quiet sk.1 (wake_locked bsp i sk).1.
Proof.
  destruct sk as [s ks]. unfold wake_locked. case_match; [done|].
  set (s1 := if wait_key (tasks s i) =? WAIT_ANY then count_any (-1) s else s).
  assert (Hs1 : quiet s s1) by (unfold s1; by case_match).
  set (s2 := on_task i _ s1). assert (Hs2 : quiet s s2) by (etrans; [exact Hs1|by apply quiet_task]).
  clearbody s1. case_match; [etrans; [exact Hs2|by apply quiet_task]|].
  set (s3 := on_task i (set_state Ready) s2). assert (Hs3 : quiet s s3) by (etrans; [exact Hs2|by apply quiet_task]).
  destruct (running_on i s3); [etrans; [exact Hs3|apply (quiet_flag _ (s3, ks))]|].
  etrans; [exact Hs3|]. etrans; [|apply quiet_kick_for]. apply quiet_set_queue.
Qed.

Lemma quiet_closed s : wake_closed bsp (λ sk, quiet s sk.1).
Proof.
  split; cbn [fst]; intros.
  - etrans; [done|apply quiet_wake_locked].
  - etrans; [done|apply quiet_bump].
  - etrans; [done|]. apply quiet_task. intros t. by destruct (H1 t) as (?&?&?&?).
  - etrans; [done|]. split; try done; intros d; cbn; by goal_decide.
  - etrans; [done|]. by split.
Qed.

Lemma quiet_wake key s : quiet s (wake bsp key s).1.
Proof. by apply (closed_wake bsp _ (quiet_closed s)). Qed.

Lemma quiet_wake_n key max s : quiet s (wake_n bsp key max s).2.1.
Proof. by apply (closed_wake_n bsp _ (quiet_closed s)). Qed.

Lemma quiet_wake_task me i s (ks : Z) : quiet s (wake_task_locked bsp me i (s, ks)).1.
Proof. by apply (closed_wake_task bsp _ (quiet_closed s)). Qed.

Lemma quiet_send me i sig v s (ks : Z) : quiet s (send_locked bsp me i sig v (s, ks)).1.
Proof. by apply (closed_send bsp _ (quiet_closed s)). Qed.

Lemma quiet_timer_scan me now sv busy tb s r : timer_scan bsp me now sv busy tb s = Some r → quiet s r.2.1.
Proof. by apply (closed_timer_scan bsp _ (quiet_closed s)). Qed.

(** ** Every step keeps the invariant *)

Lemma check_inv s c :
  cells_inv s → phase (cpus s c) = Checking → current (cpus s c) ≠ None → cells_inv (step_check c s).
Proof.
  intros Hinv Hp Hc. unfold step_check. set (s1 := on_cpu c (cpu_set_need_resched false) s).
  assert (Hs1 : core_eq s s1) by (by apply core_on_cpu).
  apply inv_plain_phase.
  - by eapply core_eq_inv.
  - by rewrite (ce_phase _ _ Hs1), Hp.
  - by destruct (_ && _).
  - by rewrite (ce_cur _ _ Hs1).
Qed.

Lemma block_inv s c cur key seq dl :
  cells_inv s → phase (cpus s c) = Exec → tasks_lock s = None → current (cpus s c) ≠ None →
  cells_inv (step_block c cur key seq dl s).
Proof.
  intros Hinv Hp Hl Hc. unfold step_block.
  set (s1 := if key =? WAIT_ANY then count_any 1 s else s).
  assert (Hs1 : core_eq s s1) by (unfold s1; case_match; [apply core_count_any|done]).
  apply inv_lock_phase.
  - by eapply core_eq_inv.
  - by rewrite (ce_phase _ _ Hs1), Hp.
  - by rewrite (ce_lock _ _ Hs1).
  - by rewrite (ce_cur _ _ Hs1).
  - left. eauto.
Qed.

(** The task that blocks is the processor's own, and not an idle task. *)
Lemma blocked_inv s c cur key dl :
  cells_inv s → current (cpus s c) = Some cur → idle_slot (cpus s c) ≠ Some cur → start_regs (tasks s cur) = false →
  cells_inv (on_task cur (λ t, set_wait key dl false (set_state Blocked t)) s).
Proof.
  intros Hinv Hc Hid Hs. apply (inv_task s _ cur); [done|apply cells_eq_task|by apply task_ne|].
  intros l io Hp. assert (l = OnCpu c) as -> by (by apply (pl_cur _ _ _ _ Hp)).
  rewrite task_eq. pose proof (pl_fits _ _ _ _ Hp) as (Hn&Hi&_). split; [done|]. split; [done|]. cbn.
  split; [done|]. split; [done|]. destruct io as [d|]; [|done]. destruct Hi as (->&_).
  destruct Hid. by apply (pl_idle _ _ _ _ Hp).
Qed.

(** Between the lock and the decision the caller stays what it was. *)
Definition blocking_inv s : Prop :=
  ∀ c key seq dl cur, phase (cpus s c) = Blocking key seq dl → current (cpus s c) = Some cur →
    idle_slot (cpus s c) ≠ Some cur ∧ start_regs (tasks s cur) = false.

Lemma decide_inv s c cur key seq dl now :
  cells_inv s → blocking_inv s → phase (cpus s c) = Blocking key seq dl → current (cpus s c) = Some cur →
  cells_inv (step_decide c cur key seq dl now s).
Proof.
  intros Hinv Hb Hp Hc. destruct (Hb c key seq dl cur Hp Hc) as [Hid Hs]. unfold step_decide.
  set (s1 := on_task cur (set_key_woken false) s).
  assert (Hs1 : cells_inv s1) by (by apply inv_harmless).
  set (s2 := if _ || _ || _ then _ else _).
  assert (Hs2 : cells_inv s2 ∧ tasks_lock s2 = tasks_lock s).
  { assert (Hblk : cells_inv (on_task cur (λ t, set_wait key dl false (set_state Blocked t)) s1)).
    { apply (blocked_inv s1 c); [done..|]. unfold s1. by rewrite task_eq. }
    unfold s2. repeat case_match; (split; [|done]); try done.
    - eapply core_eq_inv; [apply core_count_any|done].
    - eapply core_eq_inv; [|exact Hblk]. by split. }
  destruct Hs2 as [Hs2 Hl]. apply inv_unlock; [done|]. rewrite Hl.
  apply (ck_lock _ _ (proj1 (proj2 Hinv) c)). left. eauto.
Qed.

Lemma tick_inv s c now sv busy tb next woke sk :
  cells_inv s → phase (cpus s c) = Exec → tasks_lock s = None → current (cpus s c) ≠ None →
  timer_scan bsp c now sv busy tb s = Some (next, woke, sk) →
  cells_inv (sys_set_tasks_lock (Some c) (on_cpu c (cpu_set_phase (Ticking next woke)) (note_kicks c sk))).
Proof.
  intros Hinv Hp Hl Hc Hs. pose proof (quiet_timer_scan _ _ _ _ _ _ _ Hs) as Hq.
  pose proof (closed_timer_scan bsp _ (cells_closed bsp) _ _ _ _ _ _ _ Hinv Hs) as Hscan.
  cbn [snd fst] in *. pose proof (core_note_kicks c sk) as Hk. apply inv_lock_phase.
  - by eapply core_eq_inv.
  - by rewrite (ce_phase _ _ Hk), (qu_phase _ _ Hq), Hp.
  - by rewrite (ce_lock _ _ Hk), (qu_lock _ _ Hq).
  - by rewrite (ce_cur _ _ Hk), (qu_cur _ _ Hq).
  - right. eauto.
Qed.

Lemma blocking_unlocked s : cells_inv s → tasks_lock s = None → blocking_inv s.
Proof.
  intros Hinv Hl c key seq dl cur Hp _. destruct (proj1 (proj2 Hinv) c) as [_ _ Hlk _ _ _ _].
  assert (tasks_lock s = Some c) by (apply Hlk; left; eauto). congruence.
Qed.

Lemma blocking_ticking s c n w :
  cells_inv s → tasks_lock s = Some c → phase (cpus s c) = Ticking n w → blocking_inv s.
Proof.
  intros Hinv Hl Ht d key seq dl cur Hp _. destruct (proj1 (proj2 Hinv) d) as [_ _ Hlk _ _ _ _].
  assert (tasks_lock s = Some d) by (apply Hlk; left; eauto). congruence.
Qed.

(** Steps that change neither tasks (but for their stack pointers) nor the
    processors' tasks nor a phase that holds the lock. *)
Lemma blocking_frame s s' :
  (∀ c, locking (phase (cpus s' c)) → phase (cpus s' c) = phase (cpus s c)) →
  (∀ c, current (cpus s' c) = current (cpus s c)) → (∀ c, idle_slot (cpus s' c) = idle_slot (cpus s c)) →
  (∀ i, start_regs (tasks s' i) = start_regs (tasks s i)) → blocking_inv s → blocking_inv s'.
Proof.
  intros Hp Hc Hi Ht Hb c key seq dl cur Hph Hcur. rewrite Hi, Ht. rewrite Hc in Hcur.
  apply (Hb c key seq dl); [|done]. rewrite <-Hp; [done|]. rewrite Hph. left. eauto.
Qed.

Definition inv s : Prop := cells_inv s ∧ blocking_inv s.

Lemma inv_unlocked s : cells_inv s → tasks_lock s = None → inv s.
Proof. intros. split; [done|by apply blocking_unlocked]. Qed.

(** A wake by [c], its kicks noted. *)
Lemma inv_noted s c (sk : Sys T * Z) :
  tasks_lock s = None → quiet s sk.1 → cells_inv sk.1 → inv (note_kicks c sk).
Proof.
  intros Hl Hq Hc. apply inv_unlocked; [eapply core_eq_inv; [apply core_note_kicks|done]|].
  cbn. by rewrite (qu_lock _ _ Hq).
Qed.

Lemma inv_core s s' : core_eq s s' → inv s → inv s'.
Proof.
  intros He [Hc Hb]. split; [by eapply core_eq_inv|]. apply (blocking_frame s); [..|done]; intros.
  - apply (ce_phase _ _ He).
  - apply (ce_cur _ _ He).
  - apply (ce_idle _ _ He).
  - by rewrite (ce_task _ _ He).
Qed.

Lemma inv_plain s c p :
  inv s → plain (phase (cpus s c)) → plain p → current (cpus s c) ≠ None → inv (on_cpu c (cpu_set_phase p) s).
Proof.
  intros [Hc Hb] Hold Hnew Hcur. split; [by apply inv_plain_phase|].
  apply (blocking_frame s); [| | |done|done]; intros d; cbn; try (case_decide; done).
  case_decide; [|done]. intros Hx. by apply plain_lock in Hx.
Qed.

Lemma step_pick_lock s c cur s' :
  cells_inv s → current (cpus s c) = Some cur → step_pick bsp c cur s = Some s' → tasks_lock s' = tasks_lock s.
Proof.
  intros Hinv Hcur. unfold step_pick. destruct (phase (cpus s c)) as [| |b| | | | |] eqn:Ep; try done.
  all: assert (Hsw : switched_from (cpus s c) = None) by (apply no_switch; [done|by rewrite Ep]).
  all: destruct (pick bsp c cur s) as [[|bl] s1] eqn:Epk; intros [= <-].
  1,3: destruct (pick_switches bsp s c cur s1) as (n&s2&l&io&aff&Hch&Hne&Hsg&_); [done..|]; apply (sg_lock _ _ _ _ _ _ Hsg).
  all: destruct (pick_stays bsp s c cur bl s1) as [He Hi]; [done..|]; apply (ce_lock _ _ He).
Qed.

Lemma lock_finish s c : tasks_lock (finish_switch bsp c s).1 = tasks_lock s.
Proof.
  unfold finish_switch. destruct (switched_from (cpus s c)); [|done].
  repeat case_match; try done; rewrite (qu_lock _ _ (quiet_kick_for _ _ _ _)); cbn [fst];
    unfold enqueue; rewrite (qu_lock _ _ (quiet_set_queue _ _ _)); done.
Qed.

Lemma switch_inv s c old saved :
  inv s → phase (cpus s c) = Leaving → inv (on_cpu c (cpu_set_phase Arrived) (on_task old (set_sp saved) s)).
Proof.
  intros [Hc Hb] Hp. assert (Ht : cells_inv (on_task old (set_sp saved) s)) by (by apply inv_harmless).
  split.
  - apply (inv_phase (on_task old (set_sp saved) s) c Arrived (tasks_lock s)); [done|]. intros d.
    destruct (proj1 (proj2 Hc) d) as [Hset Hsw Hlk Hcu Hn Hi Hm].
    destruct (decide (d = c)) as [->|Hne].
    + split; cbn; rewrite decide_True by done; cbn; try done.
      * rewrite <-Hsw. split; [by left|by right].
      * rewrite Hlk, Hp. split; by intros [(?&?&?&?)|(?&?&?)].
      * intros E. destruct (Hn E) as [E' _]. congruence.
    + split; cbn; rewrite decide_False by done; done.
  - apply (blocking_frame s); [..|done]; intros d; cbn; try (case_decide; done).
    case_decide; [|done]. by intros [(?&?&?&?)|(?&?&?)].
Qed.

Lemma block_step_inv s c cur key seq dl :
  inv s → phase (cpus s c) = Exec → tasks_lock s = None → current (cpus s c) = Some cur →
  idle_slot (cpus s c) ≠ Some cur → start_regs (tasks s cur) = false → inv (step_block c cur key seq dl s).
Proof.
  intros [Hc Hb] Hp Hl Hcur Hid Hs. split; [apply block_inv; [done..|by rewrite Hcur]|].
  intros d key' seq' dl' cur'. unfold step_block.
  set (s1 := if key =? WAIT_ANY then count_any 1 s else s).
  assert (Hs1 : core_eq s s1) by (unfold s1; case_match; [apply core_count_any|done]). clearbody s1.
  cbn. goal_decide; cbn; rewrite ?(ce_cur _ _ Hs1), ?(ce_idle _ _ Hs1), ?(ce_task _ _ Hs1), ?(ce_phase _ _ Hs1).
  - subst d. rewrite Hcur. by intros _ [= <-].
  - intros Hp' Hcur'. by apply (Hb d key' seq' dl').
Qed.

Lemma kick_core s c target : core_eq s (step_kick c target s).
Proof.
  unfold step_kick. set (s1 := on_cpu c _ s). assert (Hs1 : core_eq s s1) by (by apply core_on_cpu). clearbody s1.
  repeat case_match; try exact Hs1.
  - etrans; [exact Hs1|]. etrans; [|by apply core_on_cpu]. by apply core_on_cpu.
  - etrans; [exact Hs1|]. by apply core_on_cpu.
Qed.

Lemma tick_step_inv s c now seen sv busy tb s' :
  inv s → phase (cpus s c) = Exec → current (cpus s c) ≠ None →
  step_tick bsp c now seen sv busy tb s = Some s' → inv s'.
Proof.
  intros Hinv Hp Hcur. unfold step_tick, unlocked. case_match; [by intros [= <-]|].
  case_bool_decide as Hl; cbn [negb]; [|by intros [= <-]].
  destruct (timer_scan bsp c now sv busy tb s) as [[[next woke] sk]|] eqn:Es; [|done]. intros [= <-].
  assert (Ht := tick_inv s c now sv busy tb next woke sk (proj1 Hinv) Hp Hl Hcur Es). split; [done|].
  eapply blocking_ticking; [exact Ht|done|]. cbn. by rewrite decide_True.
Qed.

(** A change no place depends on, while no one is blocking. *)
Lemma inv_quiet_task i f s :
  (∀ t, state (f t) = state t ∧ affinity (f t) = affinity t ∧ start_regs (f t) = start_regs t ∧
        wake_pending (f t) = wake_pending t) →
  inv s → tasks_lock s = None → inv (on_task i f s).
Proof. intros Hf [Hc _] Hl. apply inv_unlocked; [by apply inv_harmless|done]. Qed.

Lemma take_signal_eq set t :
  state (take_signal set t) = state t ∧ affinity (take_signal set t) = affinity t ∧
  start_regs (take_signal set t) = start_regs t ∧ wake_pending (take_signal set t) = wake_pending t ∧
  wait_key (take_signal set t) = wait_key t ∧ wake_at (take_signal set t) = wake_at t.
Proof. unfold take_signal. by case_match. Qed.

Lemma tick_store_inv s c next woke :
  inv s → phase (cpus s c) = Ticking next woke → inv (step_tick_store c next woke s).
Proof.
  intros [Hc Hb] Hp. apply inv_unlocked; [|done]. unfold step_tick_store.
  set (s1 := sys_set_next_deadline next s). assert (Hs1 : core_eq s (if woke then bump s1 else s1)) by (by destruct woke).
  apply inv_unlock; [by eapply core_eq_inv|]. rewrite (ce_lock _ _ Hs1).
  apply (ck_lock _ _ (proj1 (proj2 Hc) c)). right. eauto.
Qed.

Lemma lock_unqueue i s : tasks_lock (unqueue i s) = tasks_lock s.
Proof.
  unfold unqueue. apply (foldl_keeps (λ s', tasks_lock (T := T) s' = tasks_lock s)); [done|].
  intros s' q Hs _. by rewrite (qu_lock _ _ (quiet_set_queue _ _ _)).
Qed.

Lemma lock_claim i s s' : claim_slot i s = Some s' → tasks_lock s' = tasks_lock s.
Proof.
  assert (Ht : ∀ f s0, tasks_lock (on_task i f s0) = tasks_lock (T := T) s0) by done.
  unfold claim_slot, recycle. destruct (_ || _); [|done]. intros [= <-]. by rewrite Ht, lock_unqueue, Ht.
Qed.

Lemma lock_ready i (sk : Sys T * Z) : tasks_lock (ready_locked bsp i sk).1 = tasks_lock sk.1.
Proof.
  unfold ready_locked. rewrite (qu_lock _ _ (quiet_kick_for _ _ _ _)). cbn [fst]. unfold enqueue.
  by rewrite (qu_lock _ _ (quiet_set_queue _ _ _)).
Qed.

Lemma recycle_inv s i : cells_inv s → (i < MAX_TASKS)%nat → reapable i s = true → cells_inv (recycle i s).
Proof.
  intros Hinv Hi Hr. assert (Hoff : ∀ l io, placed s i l io → l = Off ∧ io = None) by (intros; by eapply reapable_placed).
  by apply recycle_off_inv.
Qed.

Lemma lock_recycle i s : tasks_lock (recycle i s) = tasks_lock s.
Proof. unfold recycle. by rewrite lock_unqueue. Qed.

Lemma unclaim_inv s i : cells_inv s → state (tasks s i) = Claimed → cells_inv (on_task i (set_state Unused) s).
Proof.
  intros Hinv Hs. apply (inv_task s _ i); [done|apply cells_eq_task|by apply task_ne|].
  intros l io Hp. destruct (free_placed s i l io Hp) as [-> ->]; [by right|]. by rewrite task_eq.
Qed.

Lemma exec_on_inv s s' c cur o :
  inv s → current (cpus s c) = Some cur → exec_on bsp c cur o s = Some s' → inv s'.
Proof.
  intros Hinv Hcur. assert (Hcn : current (cpus s c) ≠ None) by (by rewrite Hcur). destruct Hinv as [Hc Hb].
  assert (Hnote : ∀ sk, tasks_lock s = None → quiet s sk.1 → cells_inv sk.1 → inv (note_kicks c sk))
    by (intros; by apply (inv_noted s)).
  destruct o; cbn [exec_on]; intros Hx; guards.
  - apply inv_unlocked; [by eapply step_pick_inv|]. by erewrite step_pick_lock.
  - destruct (phase (cpus s c)) eqn:Ep; try done. destruct (switched_from (cpus s c)); [|done]. guards.
    by apply switch_inv.
  - apply inv_unlocked; [by apply finish_inv|]. cbn. by rewrite lock_finish.
  - eapply (inv_core (on_cpu c (cpu_set_phase (Idling idle_step)) s)).
    + split; try done; intros d; cbn; by goal_decide.
    + by apply inv_plain; [|rewrite H1| |].
  - eapply inv_core; [by apply core_on_cpu|done].
  - split; [by apply check_inv|].
    apply (blocking_frame s); [| | |done|done]; intros d; unfold step_check; cbn; repeat (goal_decide; cbn); try done.
    intros Hx. by destruct (_ && _) in Hx; apply plain_lock in Hx.
  - eapply (inv_core (on_cpu c (cpu_set_phase Exec) s)).
    + split; try done; intros d; cbn; by goal_decide.
    + apply inv_plain; try done. apply orb_true_iff in H1 as [E|E]; guards; by rewrite ?E.
  - by apply block_step_inv.
  - destruct (phase (cpus s c)) eqn:Ep; try done. injection Hx as <-. apply inv_unlocked; [|done]. by apply decide_inv.
  - apply Hnote; [done|apply quiet_wake|by apply (closed_wake bsp _ (cells_closed bsp))].
  - apply Hnote; [done|apply quiet_wake_n|by apply (closed_wake_n bsp _ (cells_closed bsp))].
  - apply Hnote; [done|apply quiet_wake_task|by apply (closed_wake_task bsp _ (cells_closed bsp))].
  - apply Hnote; [done|apply quiet_send|by apply (closed_send bsp _ (cells_closed bsp))].
  - apply inv_quiet_task; [|by split|done]. intros t. destruct (take_signal_eq set t) as (?&?&?&?&_). done.
  - eapply inv_core; [|by split]. etrans; [apply core_bump|by apply core_on_cpu].
  - eapply inv_core; [by apply core_on_cpu|done].
  - eapply inv_core; [by apply core_on_cpu|]. apply Hnote; [done|apply quiet_wake|by apply (closed_wake bsp _ (cells_closed bsp))].
  - eapply inv_core; [apply kick_core|done].
  - by eapply tick_step_inv.
  - destruct (phase (cpus s c)) eqn:Ep; try done. injection Hx as <-. by apply tick_store_inv.
  - by eapply inv_core; [|done].
  - by eapply inv_core; [|done].
  - unfold step_itimer. set (s1 := on_task pid _ s). assert (Hs1 : inv s1) by (by apply inv_quiet_task).
    clearbody s1. case_match; [done|]. by eapply inv_core; [|exact Hs1].
  - apply inv_unlocked; [by eapply take_inv|done].
  - apply inv_unlocked; [by eapply retire_inv|done].
  - by apply inv_quiet_task.
  - apply inv_unlocked; [by apply recycle_inv|by rewrite lock_recycle].
  - apply inv_unlocked; [by eapply claim_inv|]. by erewrite lock_claim.
  - apply inv_unlocked; [by apply unclaim_inv|done].
  - apply inv_unlocked; [|cbn; unfold install; by rewrite lock_ready].
    eapply core_eq_inv; [apply core_note_kicks|]. by apply install_inv.
  - unfold place_thread. destruct (_ && _) eqn:E; [|done]. guards. apply inv_unlocked.
    + eapply core_eq_inv; [apply core_note_kicks|]. by apply rehome_inv.
    + cbn. unfold rehome_locked. rewrite lock_ready. cbn. unfold dequeue. by rewrite (qu_lock _ _ (quiet_set_queue _ _ _)).
  - done.
  - apply inv_unlocked; [|done]. by apply become_idle_inv.
  - by eapply inv_core; [|done].
Qed.

Lemma exec_inv s s' c o : inv s → exec bsp c o s = Some s' → inv s'.
Proof.
  intros Hinv Hx. unfold exec in Hx. guards. destruct (current (cpus s c)) as [cur|] eqn:Ec.
  - by eapply exec_on_inv.
  - destruct o; try done. guards. apply inv_unlocked; [|done]. apply bring_up_inv; try done. apply Hinv.
Qed.

Lemma run_inv ops s s' : inv s → run bsp ops s = Some s' → inv s'.
Proof.
  revert s. induction ops as [|[c o] ops IH]; intros s Hinv; cbn [run]; [by intros [= <-]|].
  destruct (exec bsp c o s) as [s1|] eqn:E; [|done]. cbn. apply IH. by eapply exec_inv.
Qed.

Lemma boot_inv n ts : inv (boot (T := T) n ts).
Proof.
  assert (Hq : ∀ q i, s_contains (queue (T := T) q (boot n ts)) i = false) by (intros [c|] i; apply contains_empty).
  apply inv_unlocked; [|done]. split; [|split].
  - intros i. destruct (decide (i = 0)%nat) as [->|Hi].
    + exists (OnCpu 0), None. split; intros; rewrite ?Hq; cbn; try (by split).
      * case_decide; [subst; by split|]. split; [done|congruence].
      * split; [by right|done].
    + exists Off, None. split; intros; rewrite ?Hq; cbn; try (by split).
      * case_decide; [|by split]. split; [congruence|done].
      * by rewrite decide_False.
  - intros c. split; cbn; try done.
    + apply s_empty_ok.
    + split; [by intros [?|?]|done].
    + split; [done|]. intros Hx. by apply (plain_lock Exec) in Hx.
    + intros i. case_decide; [|done]. intros [= <-]. subst. unfold MAX_CPUS, MAX_TASKS. lia.
  - apply s_empty_ok.
Qed.

(** ** One processor at a time, and none forgotten *)

(** Processor [c] runs on task [i]'s stack, has just left it, or is about
    to run on it. *)
Definition uses_stack s c i : Prop := current (cpus s c) = Some i ∨ switched_from (cpus s c) = Some i.

(** C11: a task is on one processor at a time, whatever the processors do
    and however their steps interleave: no two of them run on one stack,
    one of them in the middle of switching away included, and what waits in
    a run queue is [Ready], waits in one queue only, and is on no
    processor's stack. *)
Theorem sched_exclusive ops n ts s :
  run bsp ops (boot n ts) = Some s →
  (∀ c d i, uses_stack s c i → uses_stack s d i → c = d) ∧
  (∀ q i, s_contains (queue q s) i = true →
     state (tasks s i) = Ready ∧ (∀ c, ¬ uses_stack s c i) ∧
     ∀ q', s_contains (queue q' s) i = true → q' = q).
Proof.
  intros Hrun. destruct (run_inv ops _ s (boot_inv n ts) Hrun) as [(Hp&_) _]. split.
  - intros c d i Hc Hd. destruct (Hp i) as (l&io&Hl). unfold uses_stack in *.
    rewrite !(pl_cur _ _ _ _ Hl), !(pl_mid _ _ _ _ Hl) in *. destruct l; naive_solver.
  - intros q i Hq. destruct (Hp i) as (l&io&Hl). apply (pl_q _ _ _ _ Hl) in Hq as ->.
    pose proof (pl_fits _ _ _ _ Hl) as (_&Hr&_). split; [done|]. split.
    + intros c. unfold uses_stack. rewrite (pl_cur _ _ _ _ Hl), (pl_mid _ _ _ _ Hl). by intros [?|?].
    + intros q'. rewrite (pl_q _ _ _ _ Hl). by intros [= ->].
Qed.

(** C12: no runnable task is forgotten.  A [Ready] task is a processor's own
    (woken where it halted), or an idle task, or in the run queue of its
    home, the one its home's processor (any processor, for a task with no
    home) picks from; a [Running] task is on a processor; and a wake that
    came while its task was leaving a processor is still held by that
    processor's unfinished switch. *)
Theorem sched_no_task_lost ops n ts s i :
  run bsp ops (boot n ts) = Some s →
  (state (tasks s i) = Ready →
     (∃ c, current (cpus s c) = Some i) ∨ (∃ c, idle_slot (cpus s c) = Some i) ∨
     s_contains (queue (home (affinity (tasks s i))) s) i = true) ∧
  (state (tasks s i) = Running → ∃ c, uses_stack s c i) ∧
  (state (tasks s i) = Blocked → wake_pending (tasks s i) = true →
     ∃ c, switched_from (cpus s c) = Some i ∧ (phase (cpus s c) = Leaving ∨ phase (cpus s c) = Arrived)).
Proof.
  intros Hrun. destruct (run_inv ops _ s (boot_inv n ts) Hrun) as [(Hp&Hc&_) _].
  destruct (Hp i) as (l&io&Hl). pose proof (pl_fits _ _ _ _ Hl) as Hf. split; [|split].
  - intros Hr. destruct l as [c|c|q|]; cbn in Hf; rewrite ?Hr in Hf.
    + left. exists c. by apply (pl_cur _ _ _ _ Hl).
    + by destruct Hf as (_&_&?).
    + right. right. destruct Hf as (<-&_). by apply (pl_q _ _ _ _ Hl).
    + right. left. destruct Hf as (c&->&_). exists c. by apply (pl_idle _ _ _ _ Hl).
  - intros Hr. destruct l as [c|c|q|]; cbn in Hf; rewrite ?Hr in Hf.
    + exists c. left. by apply (pl_cur _ _ _ _ Hl).
    + exists c. right. by apply (pl_mid _ _ _ _ Hl).
    + by destruct Hf as (_&?&_).
    + done.
  - intros Hb Hw. destruct l as [c|c|q|]; cbn in Hf; rewrite ?Hb in Hf.
    + destruct Hf as (_&_&_&?&_). congruence.
    + exists c. assert (Hm : switched_from (cpus s c) = Some i) by (by apply (pl_mid _ _ _ _ Hl)).
      split; [done|]. apply (ck_switch _ _ (Hc c)). by rewrite Hm.
    + by destruct Hf as (_&?&_).
    + destruct Hf as (_&?&_). congruence.
Qed.

End run.

(** A run: task 1 is made, picked, and blocks on a pipe with a deadline;
    task 0 runs again. *)
Definition sleeper_run : list (nat * Op) := [
  (0%nat, OEnablePreempt); (0%nat, OClaim 1); (0%nat, OInstall 1 4096 0 1 false None);
  (0%nat, OPick); (0%nat, OSwitch 8192); (0%nat, OFinish);
  (0%nat, OBlock (key_pipe 3) 0 50); (0%nat, ODecide 10); (0%nat, OPick); (0%nat, OSwitch 12288); (0%nat, OFinish)].

Lemma sched_exclusive_witness :
  match run (T := TaskBits) false sleeper_run (boot 2 []) with
  | Some s => ∀ c d i, uses_stack s c i → uses_stack s d i → c = d
  | None => False
  end.
Proof.
  assert (Hs : (tasks_lock (T := TaskBits) <$> run false sleeper_run (boot 2 [])) = Some None) by (vm_compute; reflexivity).
  destruct (run false sleeper_run (boot 2 [])) as [s|] eqn:Er; [|done].
  exact (proj1 (sched_exclusive false sleeper_run 2 [] s Er)).
Defined.

Lemma sched_no_task_lost_witness :
  match run (T := TaskBits) false (take 10 sleeper_run) (boot 2 []) with
  | Some s => state (tasks s 0) = Running ∧ ∃ c, uses_stack s c 0
  | None => False
  end.
Proof.
  assert (Hs : ((λ s : Sys TaskBits, state (tasks s 0)) <$> run false (take 10 sleeper_run) (boot 2 [])) = Some Running)
    by (vm_compute; reflexivity).
  destruct (run false (take 10 sleeper_run) (boot 2 [])) as [s|] eqn:Er; [|done]. injection Hs as Hs. split; [exact Hs|].
  exact (proj1 (proj2 (sched_no_task_lost false (take 10 sleeper_run) 2 [] s 0 Er)) Hs).
Defined.
