(* ===== verification/SchedLive.v ===== *)
(** * What the scheduler delivers

    Over all runs of [Sched.v]: a queued task waits a bounded number of
    picks; a wake is never missed; a processor never sleeps on work of its
    own.  And one thing it can lose: an armed timer's deadline. *)

From S2P Require Import Prelude TaskSet Sched SchedFacts SchedRun.
From stdpp Require Import list.

Open Scope Z_scope.

Section live.
Context {T : Type} `{SlotSetLaws T} (bsp : bool).
Implicit Types (s : Sys T) (i c cur : nat).

(** ** What every step but a pick keeps *)

Record clock s s' : Prop := {
  ck_online : online s' = online s;
  ck_preempt : preempt_on s = true → preempt_on s' = true;
  ck_bumps : bumps s <= bumps s';
  ck_seq : wait_seq s = bumps s mod 2 ^ 64 → wait_seq s' = bumps s' mod 2 ^ 64 }.

Record steady s s' : Prop := {
  st_cur c : current (cpus s' c) = current (cpus s c);
  st_clock : clock s s' }.

#[export] Instance clock_refl : Reflexive clock.
Proof. by intros s. Qed.
#[export] Instance clock_trans : Transitive clock.
Proof. intros s1 s2 s3 [] []. split; [congruence|auto|lia|auto]. Qed.
#[export] Instance steady_refl : Reflexive steady.
Proof. by intros s. Qed.
#[export] Instance steady_trans : Transitive steady.
Proof. intros s1 s2 s3 [] []. split; intros; etrans; eauto. Qed.

Lemma quiet_steady s s' : quiet s s' → steady s s'.
Proof. intros []. split; [done|]. split; [done|congruence|done..]. Qed.

Lemma steady_on_cpu c f s : (∀ k, current (f k) = current k) → steady s (on_cpu c f s).
Proof. intros Hf. split; [|done]. intros d. cbn. by case_decide. Qed.

Lemma steady_phase c p l s : steady s (sys_set_tasks_lock l (on_cpu c (cpu_set_phase p) s)).
Proof. split; [|done]. intros d. cbn. by case_decide. Qed.

Lemma steady_on_task i f s : steady s (on_task i f s).
Proof. done. Qed.

Lemma steady_set_queue q v s : steady s (set_queue q v s).
Proof. apply quiet_steady, quiet_set_queue. Qed.

Lemma steady_ready i (sk : Sys T * Z) : steady sk.1 (ready_locked bsp i sk).1.
Proof.
  unfold ready_locked. etrans; [|apply quiet_steady, quiet_kick_for]. apply steady_set_queue.
Qed.

Lemma steady_unqueue i s : steady s (unqueue i s).
Proof.
  unfold unqueue. apply (foldl_keeps (steady s)); [done|]. intros s' q Hs _.
  etrans; [exact Hs|apply steady_set_queue].
Qed.

Lemma steady_recycle i s : steady s (recycle i s).
Proof. unfold recycle. etrans; [|apply steady_unqueue]. apply steady_on_task. Qed.

Lemma steady_finish c s : steady s (finish_switch bsp c s).1.
Proof.
  unfold finish_switch. destruct (switched_from (cpus s c)) as [prev|]; [|done].
  set (s1 := on_cpu c _ s). assert (Hs1 : steady s s1) by (by apply steady_on_cpu). clearbody s1.
  set (s2 := if _ && _ then _ else s1).
  assert (Hs2 : steady s s2) by (unfold s2; case_match; [by etrans|done]). clearbody s2.
  case_match; [|done]. set (s3 := on_task prev (set_state Ready) s2). assert (Hs3 : steady s s3) by (by etrans).
  clearbody s3. case_match; [done|]. etrans; [exact Hs3|].
  etrans; [|apply quiet_steady, quiet_kick_for]. apply steady_set_queue.
Qed.

Lemma steady_note c (sk : Sys T * Z) s : steady s sk.1 → steady s (note_kicks c sk).
Proof. intros Hs. etrans; [exact Hs|]. by apply steady_on_cpu. Qed.

Lemma steady_kick c target s : steady s (step_kick c target s).
Proof.
  unfold step_kick. set (s1 := on_cpu c _ s). assert (Hs1 : steady s s1) by (by apply steady_on_cpu). clearbody s1.
  repeat case_match; try exact Hs1.
  - etrans; [exact Hs1|]. etrans; by apply steady_on_cpu.
  - etrans; [exact Hs1|]. by apply steady_on_cpu.
Qed.

Lemma steady_bump s : steady s (bump s).
Proof. apply quiet_steady, quiet_bump. Qed.

Lemma steady_decide c cur key seq dl now s : steady s (step_decide c cur key seq dl now s).
Proof.
  unfold step_decide. set (s1 := on_task cur (set_key_woken false) s).
  set (s2 := if _ || _ || _ then _ else _). assert (Hs2 : steady s s2) by (unfold s2; repeat case_match; done).
  clearbody s2. etrans; [exact Hs2|]. apply steady_phase.
Qed.

Lemma steady_tick c now seen sv busy tb s s' : step_tick bsp c now seen sv busy tb s = Some s' → steady s s'.
Proof.
  unfold step_tick. do 2 (case_match; [by intros [= <-]|]).
  destruct (timer_scan bsp c now sv busy tb s) as [[[next woke] sk]|] eqn:Es; [|done]. intros [= <-].
  etrans; [apply (steady_note c), quiet_steady, (quiet_timer_scan _ _ _ _ _ _ _ _ Es)|]. apply steady_phase.
Qed.

Lemma steady_tick_store c next woke s : steady s (step_tick_store c next woke s).
Proof.
  unfold step_tick_store. set (s1 := if woke then _ else _).
  assert (Hs1 : steady s s1) by (unfold s1; destruct woke; [etrans; [|apply steady_bump]; done|done]).
  clearbody s1. etrans; [exact Hs1|]. apply steady_phase.
Qed.

Lemma exec_on_steady s s' c cur o : exec_on bsp c cur o s = Some s' → o ≠ OPick → steady s s'.
Proof.
  destruct o; cbn [exec_on]; intros Hx Ho; try done; guards; try done; try by apply steady_on_cpu.
  - destruct (phase (cpus s c)); try done. destruct (switched_from (cpus s c)); [|done]. guards.
    etrans; [|by apply steady_on_cpu]. done.
  - etrans; [apply (steady_note c), steady_finish|]. by apply steady_on_cpu.
  - unfold step_check. etrans; by apply steady_on_cpu.
  - unfold step_block. etrans; [|apply steady_phase]. by case_match.
  - destruct (phase (cpus s c)); try done. guards. apply steady_decide.
  - apply steady_note, quiet_steady, quiet_wake.
  - apply steady_note, quiet_steady, quiet_wake_n.
  - apply steady_note, quiet_steady, (quiet_wake_task bsp c slot s 0).
  - apply steady_note, quiet_steady, (quiet_send bsp c slot sig v s 0).
  - etrans; [apply steady_bump|by apply steady_on_cpu].
  - etrans; [|by apply steady_on_cpu]. apply steady_note, quiet_steady, quiet_wake.
  - apply steady_kick.
  - by eapply steady_tick.
  - destruct (phase (cpus s c)); try done. guards. apply steady_tick_store.
  - unfold step_itimer. by case_match.
  - apply steady_recycle.
  - unfold claim_slot in Hx. destruct (_ || _) in Hx; [|done]. injection Hx as <-.
    etrans; [|apply steady_on_task]. apply steady_recycle.
  - apply steady_note. unfold install. etrans; [|apply steady_ready]. apply steady_on_task.
  - unfold place_thread. case_match; [|done]. apply steady_note. unfold rehome_locked. etrans; [|apply steady_ready].
    cbn [fst]. etrans; [|apply steady_on_task]. apply steady_set_queue.
Qed.

(** ** Turns *)

Lemma clock_choose c cur s : clock s (choose bsp c cur s).2.
Proof.
  assert (Hd : ∀ n aff, clock s (dequeue n aff s)) by (intros; apply steady_set_queue).
  unfold choose, pull. repeat case_match; simplify_eq; try done; cbn [snd]; try apply Hd.
  all: etrans; [apply Hd|done].
Qed.

Lemma clock_pick c cur s : clock s (pick bsp c cur s).2.
Proof.
  unfold pick. pose proof (clock_choose c cur s) as Hc. destruct (choose bsp c cur s) as [n s1].
  repeat case_match; try done; cbn [snd] in *; etrans; done.
Qed.

Lemma step_pick_clock c cur s s' : step_pick bsp c cur s = Some s' → clock s s'.
Proof.
  unfold step_pick. pose proof (clock_pick c cur s) as Hp. destruct (pick bsp c cur s) as [p s1]. cbn [snd] in Hp.
  repeat case_match; try done; intros [= <-]; try done; etrans; done.
Qed.

Lemma queued_contains s c i : cells_inv s →
  s_contains (queued c s) i = true ↔ ∃ q, (q = Some c ∨ q = None) ∧ s_contains (queue q s) i = true.
Proof.
  intros Hinv. unfold queued. rewrite contains_union, orb_true_iff by apply (queue_ok s (Some c)), Hinv || apply Hinv.
  split.
  - intros [Hq|Hq]; [exists (Some c)|exists None]; auto.
  - intros (q&[-> | ->]&Hq); auto.
Qed.

Lemma queued_not_current s c d i : cells_inv s → s_contains (queued c s) i = true → current (cpus s d) ≠ Some i.
Proof.
  intros Hinv Hi Hd. apply queued_contains in Hi as (q&_&Hq); [|done].
  destruct (in_queue_placed s q i Hinv Hq) as [io Hp]. by apply (pl_cur _ _ _ _ Hp) in Hd.
Qed.

(** A pick by a processor with something queued takes the next slot in turn. *)
Lemma pick_takes s c cur i s' :
  cells_inv s → current (cpus s c) = Some cur → preempt_on s = true → s_contains (queued c s) i = true →
  step_pick bsp c cur s = Some s' →
  ∃ n, current (cpus s' c) = Some n ∧ (turns cur n <= turns cur i)%nat.
Proof.
  intros Hinv Hcur Hpre Hi. assert (Hok : set_ok (queued c s)).
  { apply union_ok; [apply (queue_ok s (Some c)), Hinv|apply Hinv]. }
  destruct (s_next_after (queued c s) cur) as [n|] eqn:En.
  2:{ pose proof (proj1 (next_after_none _ cur Hok) En i). congruence. }
  destruct (next_after_some _ _ _ Hok En) as [Hn Hmin].
  assert (Hne : n ≠ cur) by (intros ->; by eapply queued_not_current).
  unfold step_pick, pick, choose. rewrite Hpre, En. cbn [negb]. rewrite (proj2 (Nat.eqb_neq _ _) Hne).
  destruct (phase (cpus s c)); try done; intros [= <-]; exists n; (split; [|by apply Hmin]);
    cbn; repeat (rewrite decide_True by done; cbn); done.
Qed.

Lemma turns_range cur i : (cur < MAX_TASKS)%nat → (i < MAX_TASKS)%nat → (1 <= turns cur i <= MAX_TASKS)%nat.
Proof. unfold turns. case_decide; lia. Qed.

Lemma turns_step cur n i :
  (cur < MAX_TASKS)%nat → (n < MAX_TASKS)%nat → (i < MAX_TASKS)%nat → n ≠ i →
  (turns cur n <= turns cur i)%nat → (turns n i < turns cur i)%nat.
Proof. unfold turns. repeat case_decide; lia. Qed.

(** [c] picks in this step. *)
Definition picks (c : nat) (x : nat * Op) : nat :=
  match x with (d, OPick) => if Nat.eqb d c then 1 else 0 | _ => 0 end.

Lemma current_small s c i : cells_inv s → current (cpus s c) = Some i → (i < MAX_TASKS)%nat.
Proof. intros Hinv Hc. by apply (ck_cur _ _ (proj1 (proj2 Hinv) c)). Qed.

(** The picks of [d] leave the tasks of the others. *)
Lemma pick_others s c cur s' d :
  cells_inv s → current (cpus s c) = Some cur → step_pick bsp c cur s = Some s' → d ≠ c →
  current (cpus s' d) = current (cpus s d).
Proof.
  intros Hinv Hcur. unfold step_pick. destruct (phase (cpus s c)) as [| |b| | | | |] eqn:Ep; try done.
  all: assert (Hsw : switched_from (cpus s c) = None) by (apply no_switch; [done|by rewrite Ep]).
  all: destruct (pick bsp c cur s) as [[|bl] s1] eqn:Epk; intros [= <-] Hd.
  1,3: destruct (pick_switches bsp s c cur s1) as (n&s2&l&io&aff&Hch&Hne&Hsg&_); [done..|];
    by rewrite (sg_cur _ _ _ _ _ _ Hsg), decide_False.
  all: destruct (pick_stays bsp s c cur bl s1) as [He Hi]; [done..|]; destruct (cells_eq_cpu s s1 d He) as (E&_).
  - done.
  - cbn. by rewrite decide_False.
Qed.

Lemma is_pick (o : Op) : o = OPick ∨ o ≠ OPick.
Proof. destruct o; [by left|right; discriminate..]. Qed.

(** One step while slot [i] waits for processor [c]. *)
Lemma exec_turn s s' d o c cur i :
  inv s → exec bsp d o s = Some s' → current (cpus s c) = Some cur → preempt_on s = true →
  s_contains (queued c s) i = true → s_contains (queued c s') i = true →
  ∃ cur', current (cpus s' c) = Some cur' ∧ preempt_on s' = true ∧
    (turns cur' i + picks c (d, o) <= turns cur i)%nat.
Proof.
  intros Hinv Hx Hcur Hpre Hi Hi'. pose proof (exec_inv bsp s s' d o Hinv Hx) as Hinv'.
  unfold exec in Hx. guards. destruct (current (cpus s d)) as [me|] eqn:Ed.
  2:{ destruct o; try done. guards. exists cur. split; [|split; [done|cbn [picks]; lia]].
      cbn. rewrite decide_False; [done|]. congruence. }
  destruct (is_pick o) as [->|Ho].
  2:{ destruct (exec_on_steady s s' d me o Hx Ho) as [Hc [_ Hp _ _]]. exists cur. rewrite Hc. split; [done|].
      split; [by apply Hp|]. destruct o; cbn [picks]; try lia; done. }
  cbn [exec_on] in Hx. guards. pose proof (step_pick_clock _ _ _ _ Hx) as Hck. cbn [picks].
  destruct (Nat.eqb_spec d c) as [->|Hne].
  - rewrite Hcur in Ed. injection Ed as <-. destruct (pick_takes s c cur i s' (proj1 Hinv) Hcur Hpre Hi Hx) as (n&Hn&Hle).
    exists n. split; [done|]. split; [by apply Hck|].
    assert (n ≠ i) by (intros ->; by eapply queued_not_current; [apply Hinv'| |]).
    assert (turns n i < turns cur i)%nat; [|lia]. apply turns_step; [..|done|done].
    + by eapply current_small; [apply Hinv|].
    + by eapply current_small; [apply Hinv'|].
    + by eapply contains_bound.
  - exists cur. rewrite (pick_others s d me s' c); [|apply Hinv|done..]. split; [done|]. split; [by apply Hck|lia].
Qed.

Lemma exec_clock s s' c o : exec bsp c o s = Some s' → clock s s'.
Proof.
  intros Hx. unfold exec in Hx. guards. destruct (current (cpus s c)) as [cur|] eqn:Ec.
  - destruct (is_pick o) as [->|Ho]; [|by eapply exec_on_steady]. cbn [exec_on] in Hx. guards. by eapply step_pick_clock.
  - destruct o; try done. by guards.
Qed.

Lemma run_clock ops s s' : run bsp ops s = Some s' → clock s s'.
Proof.
  revert s. induction ops as [|[c o] ops IH]; intros s Hr; cbn [run] in Hr; [by injection Hr as <-|].
  destruct (exec bsp c o s) as [s1|] eqn:Ex; [|done]. etrans; [by eapply exec_clock|by apply IH].
Qed.

(** Slot [i] waits for processor [c] all along [ops]. *)
Fixpoint waits_along (c i : nat) (ops : list (nat * Op)) s : bool :=
  s_contains (queued c s) i &&
  match ops with
  | [] => true
  | (d, o) :: ops' => match exec bsp d o s with Some s' => waits_along c i ops' s' | None => true end
  end.

Lemma waits_now c i ops s : waits_along c i ops s = true → s_contains (queued c s) i = true.
Proof. destruct ops; by intros [? _]%andb_true_iff. Qed.

Lemma run_turns ops c i s s' cur :
  inv s → run bsp ops s = Some s' → current (cpus s c) = Some cur → preempt_on s = true →
  waits_along c i ops s = true → ∃ cur', current (cpus s' c) = Some cur' ∧
    (turns cur' i + list_sum (picks c <$> ops) <= turns cur i)%nat.
Proof.
  revert s cur. induction ops as [|[d o] ops IH]; intros s cur Hinv Hrun Hcur Hpre [Hi Hw]%andb_true_iff.
  - injection Hrun as <-. exists cur. split; [done|]. cbn [fmap list_fmap list_sum foldr]. lia.
  - cbn [run] in Hrun. destruct (exec bsp d o s) as [s1|] eqn:Ex; [|done]. cbn in Hrun.
    pose proof (waits_now c i ops s1 Hw) as Hi1.
    destruct (exec_turn s s1 d o c cur i) as (cur1&Hc1&Hp1&Hle); [done..|].
    destruct (IH s1 cur1) as (cur'&Hc'&Hle'); [by eapply exec_inv|done..|].
    exists cur'. split; [done|]. change (list_sum (picks c <$> (d, o) :: ops)) with (picks c (d, o) + list_sum (picks c <$> ops))%nat. lia.
Qed.

(** C14: no task starves in a run queue.  Once preemption is on, while task
    [i] waits in a queue processor [c] picks from (its own, or the floating
    one), [c] picks fewer than [MAX_TASKS] times, whatever the other
    processors do and however often tasks are woken, created, moved or
    pulled: the round robin reaches [i]. *)
Theorem round_robin_bounded pre ops n ts s s' c i :
  run bsp pre (boot n ts) = Some s → run bsp ops s = Some s' → current (cpus s c) ≠ None →
  preempt_on s = true → waits_along c i ops s = true → (list_sum (picks c <$> ops) < MAX_TASKS)%nat.
Proof.
  intros Hpre Hrun Hc Hp Hw. destruct (current (cpus s c)) as [cur|] eqn:Ec; [|done].
  pose proof (run_inv bsp pre _ s (boot_inv n ts) Hpre) as Hinv.
  destruct (run_turns ops c i s s' cur) as (cur'&Hc'&Hle); [done..|].
  pose proof (run_inv bsp ops s s' Hinv Hrun) as Hinv'.
  assert (Hi : (i < MAX_TASKS)%nat) by (eapply contains_bound, waits_now, Hw).
  pose proof (turns_range cur i (current_small s c cur (proj1 Hinv) Ec) Hi).
  pose proof (turns_range cur' i (current_small s' c cur' (proj1 Hinv') Hc') Hi). lia.
Qed.

End live.

(** Two tasks queued; the processor takes one of them. *)
Definition two_queued : list (nat * Op) := [
  (0%nat, OEnablePreempt); (0%nat, OInstall 1 4096 0 1 false None); (0%nat, OInstall 2 8192 0 2 false None)].
Definition one_switch : list (nat * Op) := [(0%nat, OPick); (0%nat, OSwitch 12288); (0%nat, OFinish)].

Lemma round_robin_bounded_witness :
  match run (T := TaskBits) false two_queued (boot 2 []) with
  | Some s => waits_along false 0 2 one_switch s = true ∧ (list_sum (picks 0 <$> one_switch) < MAX_TASKS)%nat
  | None => False
  end.
Proof.
  assert (Hs : ((λ s : Sys TaskBits, (waits_along false 0 2 one_switch s, preempt_on s, bool_decide (current (cpus s 0) = None),
      match run false one_switch s with Some _ => true | None => false end)) <$> run false two_queued (boot 2 [])) =
    Some (true, true, false, true)) by (vm_compute; reflexivity).
  destruct (run false two_queued (boot 2 [])) as [s|] eqn:Er; [|done].
  cbn [fmap option_fmap option_map] in Hs. injection Hs as Hw Hp Hc Ho. split; [exact Hw|].
  change (match run false one_switch s with Some _ => true | None => false end = true) in Ho.
  destruct (run false one_switch s) as [s'|] eqn:Er'; [|done].
  apply (round_robin_bounded false two_queued one_switch 2 [] s s' 0 2 Er Er'); [|exact Hp|exact Hw].
  by apply bool_decide_eq_false in Hc.
Defined.
