(* ===== verification/SchedWake.v ===== *)
(** * Wakes

    The count of [poll]-style waiters is exact over all runs of [Sched.v], a
    wait that would miss a wake does not start, and a wake leaves no waiter
    behind. *)

From S2P Require Import Prelude TaskSet Sched SchedFacts SchedRun SchedLive.
From stdpp Require Import list.

Open Scope Z_scope.

(** ** Counting *)

Definition count {A} (f : A → bool) (l : list A) : Z := foldr (λ x n, Z.b2z (f x) + n) 0 l.

Lemma count_range {A} (f : A → bool) l : 0 <= count f l <= Z.of_nat (length l).
Proof. induction l as [|x l IH]; cbn [count foldr length]; [lia|]. unfold count in IH. destruct (f x); cbn [Z.b2z]; lia. Qed.

Lemma count_ext {A} (f g : A → bool) l : (∀ x, x ∈ l → g x = f x) → count g l = count f l.
Proof.
  induction l as [|x l IH]; intros Hfg; cbn [count foldr]; [done|]. rewrite Hfg by left. f_equal. apply IH.
  intros y Hy. apply Hfg. by right.
Qed.

Lemma count_at {A} (f g : A → bool) l x :
  NoDup l → x ∈ l → (∀ y, y ≠ x → g y = f y) → count g l = count f l - Z.b2z (f x) + Z.b2z (g x).
Proof.
  intros Hd Hx Hfg. induction Hd as [|y l Hy Hd IH]; [by apply elem_of_nil in Hx|]. cbn [count foldr].
  apply elem_of_cons in Hx as [->|Hx].
  - assert (E : count g l = count f l) by (apply count_ext; intros z Hz; apply Hfg; by intros ->).
    unfold count in E |- *. lia.
  - rewrite Hfg by (by intros ->). specialize (IH Hx). unfold count in IH |- *. lia.
Qed.

Lemma count_zero {A} (f : A → bool) l x : count f l = 0 → x ∈ l → f x = false.
Proof.
  intros Hc Hx. induction l as [|y l IH]; [by apply elem_of_nil in Hx|]. cbn [count foldr] in Hc.
  pose proof (count_range f l) as Hr. unfold count in Hr. apply elem_of_cons in Hx as [->|Hx].
  - destruct (f y); [cbn [Z.b2z] in Hc; lia|done].
  - apply IH; [|done]. unfold count. destruct (f y); cbn [Z.b2z] in Hc; lia.
Qed.

(** ** The waiters *)

Definition any_task (t : Task) : bool := bool_decide (state t = Blocked) && (wait_key t =? WAIT_ANY).
Definition any_cpu (p : Phase) : bool := match p with Blocking key _ _ => key =? WAIT_ANY | _ => false end.

(** A wake held for a switch to end has taken the key. *)
Definition held_wake (t : Task) : Prop := state t = Blocked → wake_pending t = true → wait_key t = 0.

(** The task's wait is what it was. *)
Definition same_wait (t t' : Task) : Prop := any_task t' = any_task t ∧ (held_wake t → held_wake t').

Lemma not_waiting t t' : state t' ≠ Blocked → any_task t = false → same_wait t t'.
Proof. intros Hs Ha. split; [|by intros _ ?]. rewrite Ha. unfold any_task. by rewrite bool_decide_false. Qed.

Lemma any_not_blocked t : state t ≠ Blocked → any_task t = false.
Proof. intros Hs. unfold any_task. by rewrite bool_decide_false. Qed.

Section wakes.
Context {T : Type} `{SlotSetLaws T} (bsp : bool).
Implicit Types (s : Sys T) (i c cur : nat).

Definition any_count s : Z :=
  count (λ i, any_task (tasks s i)) slots + count (λ c, any_cpu (phase (cpus s c))) all_cpus.

Record wait_inv s : Prop := {
  wi_count : any_waiters s = any_count s;
  wi_seq : wait_seq s = bumps s mod 2 ^ 64;
  wi_held i : held_wake (tasks s i) }.

Lemma slots_nodup : NoDup slots.
Proof. apply NoDup_seq. Qed.

Lemma cpus_nodup : NoDup all_cpus.
Proof. apply NoDup_seq. Qed.

Lemma any_count_range s : 0 <= any_count s < 2 ^ 64.
Proof.
  unfold any_count. pose proof (count_range (λ i, any_task (tasks s i)) slots).
  pose proof (count_range (λ c, any_cpu (phase (cpus s c))) all_cpus).
  unfold slots, all_cpus in *. rewrite !length_seq in *. unfold MAX_TASKS, MAX_CPUS in *. lia.
Qed.

(** A step that leaves every wait as it was. *)
Record same_waits s s' : Prop := {
  sw_task i : same_wait (tasks s i) (tasks s' i);
  sw_cpu c : any_cpu (phase (cpus s' c)) = any_cpu (phase (cpus s c));
  sw_any : any_waiters s' = any_waiters s }.

Lemma same_waits_inv s s' : clock s s' → same_waits s s' → wait_inv s → wait_inv s'.
Proof.
  intros [_ _ _ Hs] [Ht Hc Ha] [Hn Hq Hh]. split; [|by apply Hs|].
  - rewrite Ha, Hn. unfold any_count. f_equal; symmetry; apply count_ext; intros; [apply Ht|apply Hc].
  - intros i. by apply Ht.
Qed.

Lemma same_wait_refl t : same_wait t t.
Proof. done. Qed.

Lemma same_waits_core s s' : core_eq s s' → any_waiters s' = any_waiters s → same_waits s s'.
Proof.
  intros He Ha. split; [| |done]; intros.
  - by rewrite (ce_task _ _ He).
  - by rewrite (ce_phase _ _ He).
Qed.

#[local] Instance same_waits_trans : Transitive same_waits.
Proof.
  intros s1 s2 s3 [Ht Hc Ha] [Ht' Hc' Ha']. split; [|congruence|congruence]. intros i.
  destruct (Ht i), (Ht' i). split; [congruence|auto].
Qed.

Lemma same_waits_task i f s : same_wait (tasks s i) (f (tasks s i)) → same_waits s (on_task i f s).
Proof. intros Hf. split; [|done..]. intros j. cbn. case_decide; [by subst|done]. Qed.

Lemma same_waits_cpu c f s : any_cpu (phase (f (cpus s c))) = any_cpu (phase (cpus s c)) → same_waits s (on_cpu c f s).
Proof. intros Hf. split; [done| |done]. intros d. cbn. case_decide; [by subst|done]. Qed.

(** ** A wake *)

Lemma wake_locked_others i (sk : Sys T * Z) j : j ≠ i → tasks (wake_locked bsp i sk).1 j = tasks sk.1 j.
Proof.
  destruct sk as [s ks]. intros Hj. unfold wake_locked. case_match; [done|].
  set (s1 := if wait_key (tasks s i) =? WAIT_ANY then _ else _).
  assert (Hs1 : tasks s1 j = tasks s j) by (unfold s1; by case_match). clearbody s1.
  case_match; [cbn [fst]; by rewrite !task_ne|]. case_match.
  - cbn. by rewrite !decide_False.
  - rewrite (ce_task _ _ (core_kick_for _ _ _ _ _)). cbn [fst]. unfold enqueue. rewrite set_queue_tasks.
    by rewrite !task_ne.
Qed.

Lemma wake_locked_done i (sk : Sys T * Z) :
  let t := tasks (wake_locked bsp i sk).1 i in state t ≠ Blocked ∨ wait_key t = 0.
Proof.
  destruct sk as [s ks]. cbv zeta. unfold wake_locked. case_bool_decide as Hb; [|by left]. cbn [negb].
  set (s1 := if wait_key (tasks s i) =? WAIT_ANY then _ else _). clearbody s1.
  case_match; [right; cbn [fst]; by rewrite !task_eq|]. left. case_match.
  - cbn. by rewrite !decide_True.
  - rewrite (ce_task _ _ (core_kick_for _ _ _ _ _)). cbn [fst]. unfold enqueue. rewrite set_queue_tasks.
    by rewrite !task_eq.
Qed.

Lemma any_waiters_kick_for slot aff fs (sk : Sys T * Z) : any_waiters (kick_for bsp slot aff fs sk).1 = any_waiters sk.1.
Proof.
  unfold kick_for. set (sk1 := match home aff with Some c => if fs then sk else flag c sk | None => sk end).
  assert (E : any_waiters sk1.1 = any_waiters sk.1) by (unfold sk1; by repeat case_match). clearbody sk1.
  by repeat case_match.
Qed.

Lemma any_waiters_set_queue q v s : any_waiters (set_queue q v s) = any_waiters s.
Proof. by destruct q. Qed.

Lemma wake_locked_any i (sk : Sys T * Z) :
  any_waiters (wake_locked bsp i sk).1 =
  if any_task (tasks sk.1 i) then (any_waiters sk.1 + -1) mod 2 ^ 64 else any_waiters sk.1.
Proof.
  destruct sk as [s ks]. unfold wake_locked, any_task. cbn [fst].
  destruct (bool_decide (state (tasks s i) = Blocked)); [|done]. cbn [negb andb].
  set (s1 := if wait_key (tasks s i) =? WAIT_ANY then _ else _).
  assert (Hs1 : any_waiters s1 = if wait_key (tasks s i) =? WAIT_ANY then (any_waiters s + -1) mod 2 ^ 64 else any_waiters s)
    by (unfold s1; by case_match).
  rewrite <-Hs1. clearbody s1. clear Hs1. case_match; [done|]. case_match; [done|].
  rewrite any_waiters_kick_for. cbn [fst]. unfold enqueue. by rewrite any_waiters_set_queue.
Qed.

Lemma done_any t : state t ≠ Blocked ∨ wait_key t = 0 → any_task t = false ∧ held_wake t.
Proof.
  intros [Hs|Hk]; [split; [by apply any_not_blocked|by intros ?]|]. split; [|by intros ??].
  unfold any_task. by rewrite Hk, andb_false_r.
Qed.

Lemma wake_locked_wait i (sk : Sys T * Z) :
  (i < MAX_TASKS)%nat → wait_inv sk.1 → wait_inv (wake_locked bsp i sk).1.
Proof.
  intros Hi [Hn Hq Hh]. pose proof (quiet_wake_locked bsp i sk) as Hqt.
  destruct (done_any _ (wake_locked_done i sk)) as [Ha Hd]. split.
  - pose proof (any_count_range sk.1) as Hr. rewrite wake_locked_any, Hn. unfold any_count in *.
    rewrite (count_at (λ i, any_task (tasks sk.1 i)) (λ j, any_task (tasks (wake_locked bsp i sk).1 j)) slots i).
    + rewrite (count_ext (λ c, any_cpu (phase (cpus sk.1 c))) (λ c, any_cpu (phase (cpus (wake_locked bsp i sk).1 c))))
        by (intros; by rewrite (qu_phase _ _ Hqt)).
      rewrite Ha. destruct (any_task (tasks sk.1 i)) eqn:Et; cbn [Z.b2z]; [|lia].
      pose proof (count_zero (λ i, any_task (tasks sk.1 i)) slots i) as Hz.
      assert (count (λ i, any_task (tasks sk.1 i)) slots ≠ 0).
      { intros E. rewrite Hz in Et; [done..|by apply elem_slots]. }
      pose proof (count_range (λ i, any_task (tasks sk.1 i)) slots).
      pose proof (count_range (λ c, any_cpu (phase (cpus sk.1 c))) all_cpus).
      rewrite Z.mod_small by lia. lia.
    + apply slots_nodup.
    + by apply elem_slots.
    + intros j Hj. by rewrite wake_locked_others.
  - by apply (qu_seq _ _ Hqt).
  - intros j. destruct (decide (j = i)) as [->|Hj]; [done|]. rewrite wake_locked_others by done. apply Hh.
Qed.

Lemma bump_wait s : wait_inv s → wait_inv (bump s).
Proof. apply same_waits_inv; [apply steady_bump|done]. Qed.

Lemma harmless_wait f t : harmless f → same_wait t (f t).
Proof.
  intros Hf. destruct (Hf t) as (Es&_&_&Ep&Ek&_). unfold same_wait, any_task, held_wake. by rewrite Es, Ep, Ek.
Qed.

Lemma wait_closed : wake_closed bsp (λ sk, wait_inv sk.1).
Proof.
  split; cbn [fst].
  - intros i sk Hi Hw. by apply wake_locked_wait.
  - intros s _. apply bump_wait.
  - intros i f s _ Hf. apply same_waits_inv; [done|]. by apply same_waits_task, harmless_wait.
  - intros c s _. apply same_waits_inv; [done|]. by apply same_waits_cpu.
  - intros ts s _. apply same_waits_inv; [done|]. by apply same_waits_core.
Qed.

(** ** Every step keeps the count *)

Lemma any_waiters_choose c cur s : any_waiters (choose bsp c cur s).2 = any_waiters s.
Proof.
  unfold choose, pull, dequeue. repeat case_match; simplify_eq; try done; cbn; by rewrite any_waiters_set_queue.
Qed.

Lemma make_running_wait t : same_wait t (make_running t).
Proof.
  unfold make_running. case_bool_decide as Hr; [|done]. apply not_waiting; [done|].
  apply any_not_blocked. by rewrite Hr.
Qed.

Lemma pick_wait s c cur p s' :
  cells_inv s → current (cpus s c) = Some cur → switched_from (cpus s c) = None →
  pick bsp c cur s = (p, s') →
  (∀ i, same_wait (tasks s i) (tasks s' i)) ∧ any_waiters s' = any_waiters s ∧
  (∀ d, phase (cpus s' d) = phase (cpus s d)).
Proof.
  intros Hinv Hcur Hsw. unfold pick. case_match; [by intros [= _ <-]|].
  pose proof (any_waiters_choose c cur s) as Ha. destruct (choose bsp c cur s) as [n s1] eqn:Ech. cbn [snd] in Ha.
  apply choose_spec in Ech as [[-> ->]|(l&io&aff&Hne&Hch)]; [| |done..].
  { rewrite Nat.eqb_refl. intros [= _ <-]. split; [|done]. intros i. cbn. case_decide; [|done].
    subst. apply make_running_wait. }
  rewrite (proj2 (Nat.eqb_neq _ _) Hne). intros [= _ <-].
  set (s2 := if bool_decide (Some n = idle_slot (cpus s c)) then s1 else on_cpu c (cpu_set_cpu_idle false) s1).
  assert (Hs2 : core_eq s1 s2) by (unfold s2; case_match; [done|by apply core_on_cpu]).
  assert (Ha2 : any_waiters s2 = any_waiters s) by (unfold s2; by case_match). clearbody s2. split; [|split; [done|]].
  - intros i. cbn. repeat case_decide; subst; try done.
    + rewrite (ce_task _ _ Hs2), (cn_others _ _ _ _ _ _ _ Hch) by done. apply make_running_wait.
    + apply not_waiting; [done|]. apply any_not_blocked. by rewrite (cn_ready _ _ _ _ _ _ _ Hch).
    + by rewrite (ce_task _ _ Hs2), (cn_others _ _ _ _ _ _ _ Hch).
  - intros d. transitivity (phase (cpus s2 d)); [cbn; by repeat case_decide|].
    rewrite (ce_phase _ _ Hs2). apply (cn_cells _ _ _ _ _ _ _ Hch).
Qed.

Lemma step_pick_wait s c cur s' :
  cells_inv s → current (cpus s c) = Some cur → step_pick bsp c cur s = Some s' → wait_inv s → wait_inv s'.
Proof.
  intros Hinv Hcur Hx. apply same_waits_inv; [by eapply step_pick_clock|]. revert Hx. unfold step_pick.
  destruct (phase (cpus s c)) as [| |b| | | | |] eqn:Ep; try done.
  all: assert (Hsw : switched_from (cpus s c) = None) by (apply no_switch; [done|by rewrite Ep]).
  all: destruct (pick bsp c cur s) as [p s1] eqn:Epk; destruct (pick_wait s c cur p s1) as (Ht&Ha&Hp); [done..|].
  all: assert (Hs1 : same_waits s s1) by (split; [done| |done]; intros d; by rewrite Hp).
  all: intros [= <-]; first [etrans; [exact Hs1|]|idtac].
  - destruct p; [|by split]. apply same_waits_cpu. by rewrite Hp, Ep.
  - apply same_waits_cpu. rewrite Hp, Ep. by destruct p as [|bl]; [|destruct (b || bl)].
Qed.

Lemma same_waits_queue q v s : same_waits s (set_queue q v s).
Proof. destruct q; [by apply same_waits_cpu|done]. Qed.

Lemma same_waits_kick_for slot aff fs (sk : Sys T * Z) : same_waits sk.1 (kick_for bsp slot aff fs sk).1.
Proof. apply same_waits_core; [apply core_kick_for|apply any_waiters_kick_for]. Qed.

Lemma same_waits_ready i (sk : Sys T * Z) : same_waits sk.1 (ready_locked bsp i sk).1.
Proof. unfold ready_locked. etrans; [|apply same_waits_kick_for]. apply same_waits_queue. Qed.

Lemma same_waits_note c (sk : Sys T * Z) s : same_waits s sk.1 → same_waits s (note_kicks c sk).
Proof. intros Hs. etrans; [exact Hs|]. by apply same_waits_cpu. Qed.

Lemma same_waits_finish s c : wait_inv s → same_waits s (finish_switch bsp c s).1.
Proof.
  intros Hw. unfold finish_switch. destruct (switched_from (cpus s c)) as [prev|]; [|by apply same_waits_core].
  set (s1 := on_cpu c _ s). assert (Hs1 : same_waits s s1) by (by apply same_waits_cpu).
  assert (Ht1 : tasks s1 = tasks s) by done. rewrite Ht1. clearbody s1. pose proof (wi_held _ Hw prev) as Hh.
  destruct (_ && _) eqn:Epd; [rewrite orb_true_r|rewrite orb_false_r; destruct (bool_decide (state (tasks s prev) = Running)) eqn:Hr; [|exact Hs1]].
  all: set (s3 := on_task prev (set_state Ready) _); assert (Hs3 : same_waits s s3).
  - apply andb_true_iff in Epd as [Hb Hpd]. apply bool_decide_eq_true in Hb.
    etrans; [exact Hs1|]. split; [|done..]. intros i. cbn. rewrite !Ht1. repeat case_decide; subst; try done.
    apply not_waiting; [done|]. unfold any_task. by rewrite (Hh Hb Hpd), andb_false_r.
  - clearbody s3. case_match; [done|]. etrans; [exact Hs3|]. etrans; [|apply same_waits_kick_for]. apply same_waits_queue.
  - etrans; [exact Hs1|]. apply same_waits_task. rewrite Ht1. apply not_waiting; [done|].
    apply bool_decide_eq_true in Hr. apply any_not_blocked. by rewrite Hr.
  - clearbody s3. case_match; [done|]. etrans; [exact Hs3|]. etrans; [|apply same_waits_kick_for]. apply same_waits_queue.
Qed.

Lemma phase_finish s c d : phase (cpus (finish_switch bsp c s).1 d) = phase (cpus s d).
Proof.
  unfold finish_switch. destruct (switched_from (cpus s c)) as [prev|]; [|done].
  set (s1 := on_cpu c _ s). assert (Hs1 : phase (cpus s1 d) = phase (cpus s d)) by (cbn; by case_decide). clearbody s1.
  set (s2 := if _ && _ then _ else _). assert (Hs2 : phase (cpus s2 d) = phase (cpus s d)) by (unfold s2; by case_match).
  clearbody s2. case_match; [|done]. set (s3 := on_task prev _ s2).
  assert (Hs3 : phase (cpus s3 d) = phase (cpus s d)) by done. clearbody s3. case_match; [done|].
  rewrite (qu_phase _ _ (quiet_kick_for _ _ _ _ _)). cbn [fst]. unfold enqueue.
  by rewrite (qu_phase _ _ (quiet_set_queue _ _ _)).
Qed.

Lemma finish_wait s c : phase (cpus s c) = Arrived → wait_inv s →
  wait_inv (on_cpu c (cpu_set_phase Exec) (note_kicks c (finish_switch bsp c s))).
Proof.
  intros Hp Hw. apply (same_waits_inv s); [| |done].
  { etrans; [apply (steady_note c _ s (steady_finish bsp c s))|done]. }
  etrans; [by apply (same_waits_note c), same_waits_finish|]. apply same_waits_cpu. cbn. rewrite decide_True by done.
  cbn. by rewrite phase_finish, Hp.
Qed.

Lemma block_wait s c cur key seq dl :
  (c < MAX_CPUS)%nat → phase (cpus s c) = Exec → wait_inv s → wait_inv (step_block c cur key seq dl s).
Proof.
  intros Hc Hp [Hn Hq Hh]. split.
  - pose proof (any_count_range (step_block c cur key seq dl s)) as Hr. revert Hr.
    assert (E : any_count (step_block c cur key seq dl s) = any_count s + Z.b2z (key =? WAIT_ANY)).
    { unfold any_count. rewrite <-Z.add_assoc. f_equal.
      - apply count_ext. intros i _. unfold step_block. by case_match.
      - rewrite (count_at (λ d, any_cpu (phase (cpus s d))) _ _ c cpus_nodup).
        + rewrite Hp. unfold step_block. cbn. rewrite decide_True by done. cbn. lia.
        + by apply elem_all_cpus.
        + intros d Hd. unfold step_block. cbn. rewrite decide_False by done. by case_match. }
    rewrite E, <-Hn. unfold step_block. destruct (key =? WAIT_ANY); cbn; intros Hr; [by apply Z.mod_small|lia].
  - unfold step_block. by case_match.
  - intros i. unfold step_block. case_match; apply Hh.
Qed.

(** What [step_decide] does: it returns early, or blocks. *)
Lemma decide_cases s c cur key seq dl now :
  let s' := step_decide c cur key seq dl now s in
  (∀ i, i ≠ cur → tasks s' i = tasks s i) ∧ (∀ d, d ≠ c → cpus s' d = cpus s d) ∧
  phase (cpus s' c) = Exec ∧ wait_seq s' = wait_seq s ∧ bumps s' = bumps s ∧
  (tasks s' cur = set_key_woken false (tasks s cur) ∧
     any_waiters s' = (if key =? WAIT_ANY then (any_waiters s + -1) mod 2 ^ 64 else any_waiters s) ∨
   wait_seq s = seq ∧ state (tasks s cur) = Running ∧ any_waiters s' = any_waiters s ∧
     tasks s' cur = set_wait key dl false (set_state Blocked (set_key_woken false (tasks s cur)))).
Proof.
  cbv zeta. unfold step_decide. set (s1 := on_task cur (set_key_woken false) s).
  destruct (_ || _ || _) eqn:E.
  - split_and!; try done; [..|left].
    + intros i Hi. cbn. case_match; cbn; by rewrite decide_False.
    + intros d Hd. cbn. rewrite decide_False by done. by case_match.
    + cbn. by rewrite decide_True.
    + cbn. by case_match.
    + cbn. by case_match.
    + split; cbn; case_match; cbn; by rewrite ?decide_True.
  - apply orb_false_iff in E as [[Eq Es]%orb_false_iff _]. apply negb_false_iff, Z.eqb_eq in Eq.
    apply negb_false_iff, bool_decide_eq_true in Es. unfold s1 in Es. rewrite task_eq in Es.
    split_and!; try done; [..|right].
    + intros i Hi. cbn. case_match; cbn; by rewrite !decide_False.
    + intros d Hd. cbn. rewrite decide_False by done. by case_match.
    + cbn. by rewrite decide_True.
    + cbn. by case_match.
    + cbn. by case_match.
    + split_and!; [done|done|cbn; by case_match|]. cbn. case_match; cbn; by rewrite !decide_True.
Qed.

Lemma decide_wait s c cur key seq dl now :
  (c < MAX_CPUS)%nat → (cur < MAX_TASKS)%nat → phase (cpus s c) = Blocking key seq dl →
  wait_inv s → wait_inv (step_decide c cur key seq dl now s).
Proof.
  intros Hc Hcur Hp [Hn Hq Hh].
  destruct (decide_cases s c cur key seq dl now) as (Ht&Hd&Hpc&Hs&Hb&Hcase).
  pose proof (any_count_range (step_decide c cur key seq dl now s)) as Hr. revert Hr.
  set (s' := step_decide c cur key seq dl now s) in *. clearbody s'. split.
  - assert (E : any_count s' = any_count s - Z.b2z (any_task (tasks s cur)) + Z.b2z (any_task (tasks s' cur))
        - Z.b2z (key =? WAIT_ANY)).
    { unfold any_count. rewrite (count_at (λ i, any_task (tasks s i)) (λ i, any_task (tasks s' i)) _ cur slots_nodup).
      2:{ by apply elem_slots. } 2:{ intros i Hi. by rewrite Ht. }
      rewrite (count_at (λ d, any_cpu (phase (cpus s d))) (λ d, any_cpu (phase (cpus s' d))) _ c cpus_nodup).
      2:{ by apply elem_all_cpus. } 2:{ intros i Hi. by rewrite Hd. }
      rewrite Hp, Hpc. cbn [any_cpu Z.b2z]. lia. }
    revert Hr. rewrite E, <-Hn. destruct Hcase as [[-> ->]|(_&Hrun&->&->)].
    + change (any_task (set_key_woken false (tasks s cur))) with (any_task (tasks s cur)).
      destruct (key =? WAIT_ANY); cbn [Z.b2z]; [|lia]. intros Hr. rewrite Z.mod_small by lia. lia.
    + rewrite (any_not_blocked (tasks s cur)) by (by rewrite Hrun). intros _.
      unfold any_task. cbn [set_wait set_state state wait_key]. rewrite bool_decide_true by done. cbn [andb Z.b2z]. lia.
  - by rewrite Hs, Hb.
  - intros i. destruct (decide (i = cur)) as [->|Hi]; [|rewrite Ht by done; apply Hh].
    destruct Hcase as [[-> _]|(_&_&_&->)]; [apply Hh|]. by intros _ ?.
Qed.

Lemma tick_wait s c now seen sv busy tb s' :
  phase (cpus s c) = Exec → step_tick bsp c now seen sv busy tb s = Some s' → wait_inv s → wait_inv s'.
Proof.
  intros Hp Hx Hw. revert Hx. unfold step_tick. do 2 (case_match; [by intros [= <-]|]).
  destruct (timer_scan bsp c now sv busy tb s) as [[[next woke] sk]|] eqn:Es; [|done]. intros [= <-].
  pose proof (closed_timer_scan bsp _ wait_closed _ _ _ _ _ _ _ Hw Es) as Hscan.
  pose proof (quiet_timer_scan _ _ _ _ _ _ _ _ Es) as Hq. cbn [snd] in *.
  eapply same_waits_inv; [| |exact Hscan]; [done|]. split; [done| |done]. intros d. cbn.
  repeat case_decide; try done. subst d. cbn. by rewrite (qu_phase _ _ Hq), Hp.
Qed.

Lemma note_wait c (sk : Sys T * Z) : wait_inv sk.1 → wait_inv (note_kicks c sk).
Proof. apply same_waits_inv; [done|]. by apply same_waits_cpu. Qed.

Lemma tick_store_wait s c next woke :
  phase (cpus s c) = Ticking next woke → wait_inv s → wait_inv (step_tick_store c next woke s).
Proof.
  intros Hp. apply same_waits_inv; [apply steady_tick_store|]. unfold step_tick_store.
  split; [by destruct woke| |by destruct woke]. intros d.
  transitivity (any_cpu (if decide (d = c) then Exec else phase (cpus s d))).
  - destruct woke; cbn; by case_decide.
  - case_decide; [subst; by rewrite Hp|done].
Qed.

Lemma same_waits_unqueue i s : same_waits s (unqueue i s).
Proof.
  unfold unqueue. apply (foldl_keeps (same_waits s)); [done|]. intros s' q Hs _.
  etrans; [exact Hs|apply same_waits_queue].
Qed.

Lemma same_waits_kick s c target : same_waits s (step_kick c target s).
Proof.
  apply same_waits_core; [apply kick_core|]. unfold step_kick. by repeat case_match.
Qed.

Lemma tasks_unqueue i s j : tasks (unqueue i s) j = tasks s j.
Proof.
  unfold unqueue. apply (foldl_keeps (λ s', tasks (T := T) s' j = tasks s j)); [done|].
  intros s' q Hs _. by rewrite set_queue_tasks.
Qed.

(** A slot that waits on nothing before or after. *)
Lemma same_waits_slot i f s :
  state (tasks s i) ≠ Blocked → state (f (tasks s i)) ≠ Blocked → same_waits s (on_task i f s).
Proof. intros Hs Hs'. apply same_waits_task, not_waiting; [done|by apply any_not_blocked]. Qed.

Lemma recycle_wait i s : state (tasks s i) ≠ Blocked → same_waits s (recycle i s).
Proof.
  intros Hs. unfold recycle. etrans; [|apply (same_waits_unqueue i)]. by apply same_waits_slot.
Qed.

Lemma reapable_dead i s : reapable i s = true → state (tasks s i) ≠ Blocked.
Proof. intros E. unfold reapable in E. guards. congruence. Qed.

Lemma claim_wait i s s' : claim_slot i s = Some s' → same_waits s s'.
Proof.
  unfold claim_slot. destruct (_ || _) eqn:E; [|done]. intros [= <-].
  assert (Hs : state (tasks s i) ≠ Blocked).
  { apply orb_true_iff in E as [E|E]; [apply bool_decide_eq_true in E; by rewrite E|by apply reapable_dead]. }
  etrans; [by apply (recycle_wait i)|]. apply same_waits_slot; [|done]. by rewrite recycle_task.
Qed.

Lemma exec_on_wait s s' c cur o :
  inv s → (c < MAX_CPUS)%nat → current (cpus s c) = Some cur → exec_on bsp c cur o s = Some s' →
  wait_inv s → wait_inv s'.
Proof.
  intros [Hinv _] Hc Hcur Hx Hw. assert (Hcm : (cur < MAX_TASKS)%nat) by (by eapply current_small).
  assert (Hst : o ≠ OPick → same_waits s s' → wait_inv s').
  { intros Ho Hs. eapply same_waits_inv; [by eapply exec_on_steady|exact Hs|exact Hw]. }
  destruct o; cbn [exec_on] in Hx; guards.
  - by eapply step_pick_wait.
  - apply Hst; [discriminate|]. destruct (phase (cpus s c)) eqn:Ep; try done. destruct (switched_from (cpus s c)) as [old|]; [|done]. guards.
    etrans; [by apply (same_waits_task old (set_sp saved))|]. apply same_waits_cpu. cbn. by rewrite Ep.
  - by apply finish_wait.
  - apply Hst; [discriminate|]. apply same_waits_cpu. cbn. by rewrite H1.
  - apply Hst; [discriminate|]. by apply same_waits_cpu.
  - apply Hst; [discriminate|]. unfold step_check. etrans; [by apply (same_waits_cpu c (cpu_set_need_resched false))|]. apply same_waits_cpu. cbn.
    rewrite decide_True by done. cbn. rewrite H1. by destruct (_ && _).
  - apply Hst; [discriminate|]. apply same_waits_cpu. cbn. apply orb_true_iff in H1 as [E|E]; guards; by rewrite E.
  - by apply block_wait.
  - destruct (phase (cpus s c)) eqn:Ep; try done. injection Hx as <-. by apply decide_wait.
  - by apply note_wait, (closed_wake bsp _ wait_closed).
  - by apply note_wait, (closed_wake_n bsp _ wait_closed).
  - by apply note_wait, (closed_wake_task bsp _ wait_closed).
  - by apply note_wait, (closed_send bsp _ wait_closed).
  - apply Hst; [discriminate|]. apply same_waits_task, harmless_wait. intros t. apply take_signal_eq.
  - apply Hst; [discriminate|]. etrans; [apply (same_waits_core s (bump s)); [apply core_bump|done]|]. by apply same_waits_cpu.
  - apply Hst; [discriminate|]. by apply same_waits_cpu.
  - pose proof (note_wait c (wake bsp WAIT_ANY s) (closed_wake bsp _ wait_closed WAIT_ANY s Hw)) as Hn. revert Hn.
    generalize (note_kicks c (wake bsp WAIT_ANY s)). intros s1. apply same_waits_inv; [done|by apply same_waits_cpu].
  - apply Hst; [discriminate|]. apply same_waits_kick.
  - by eapply tick_wait.
  - destruct (phase (cpus s c)) eqn:Ep; try done. injection Hx as <-. by apply tick_store_wait.
  - apply Hst; [discriminate|]. done.
  - apply Hst; [discriminate|]. done.
  - apply Hst; [discriminate|]. unfold step_itimer. set (f := set_alarm _ _).
    assert (Hs1 : same_waits s (on_task pid f s)) by (by apply same_waits_task). case_match; [done|].
    etrans; [exact Hs1|]. by apply same_waits_core.
  - apply Hst; [discriminate|]. by apply same_waits_task.
  - apply Hst; [discriminate|]. apply same_waits_slot; [congruence|done].
  - apply Hst; [discriminate|]. by apply same_waits_task.
  - apply Hst; [discriminate|]. by apply recycle_wait, reapable_dead.
  - apply Hst; [discriminate|]. by eapply claim_wait.
  - apply Hst; [discriminate|]. apply same_waits_slot; [congruence|done].
  - apply Hst; [discriminate|]. apply same_waits_note. unfold install. etrans; [|apply same_waits_ready]. apply same_waits_slot; [cbn [fst]; intuition congruence|done].
  - apply Hst; [discriminate|]. unfold place_thread. case_match; [|by apply same_waits_core]. apply same_waits_note. unfold rehome_locked.
    etrans; [|apply same_waits_ready]. cbn [fst]. etrans; [apply same_waits_queue|by apply same_waits_task].
  - done.
  - apply Hst; [discriminate|]. by apply same_waits_cpu.
  - apply Hst; [discriminate|]. done.
Qed.

Lemma exec_wait s s' c o : inv s → exec bsp c o s = Some s' → wait_inv s → wait_inv s'.
Proof.
  intros Hinv Hx Hw. unfold exec in Hx. guards. destruct (current (cpus s c)) as [cur|] eqn:Ec.
  - by eapply exec_on_wait.
  - destruct o; try done. guards. eapply same_waits_inv; [..|exact Hw]; [done|]. unfold bring_up.
    set (s1 := on_task slot _ s). assert (Hs1 : same_waits s s1) by (apply same_waits_slot; [congruence|done]).
    etrans; [exact Hs1|]. clearbody s1. split; [done| |done]. intros d. cbn. by goal_decide.
Qed.

Lemma run_wait ops s s' : inv s → run bsp ops s = Some s' → wait_inv s → wait_inv s'.
Proof.
  revert s. induction ops as [|[c o] ops IH]; intros s Hinv Hr Hw; cbn [run] in Hr; [by injection Hr as <-|].
  destruct (exec bsp c o s) as [s1|] eqn:Ex; [|done]. apply (IH s1); [by eapply exec_inv|done|by eapply exec_wait].
Qed.

Lemma boot_wait n ts : wait_inv (boot (T := T) n ts).
Proof.
  split; [| |].
  - unfold any_count. rewrite (count_ext (λ _, false)), (count_ext (λ _, false) (λ c, any_cpu _)); [done|done|].
    intros i _. cbn. by case_decide.
  - done.
  - intros i. cbn. case_decide; by intros ?.
Qed.

(** ** No wake is missed *)

Lemma foldl_reaches {A B} (P : A → Prop) (f : A → B → A) (l : list B) x a :
  x ∈ l → (∀ a b, P a → P (f a b)) → (∀ a, P (f a x)) → P (foldl f a l).
Proof.
  intros Hx Hk Hr. revert a. induction l as [|b l IH]; intros a; [by apply elem_of_nil in Hx|]. cbn [foldl].
  apply elem_of_cons in Hx as [->|Hx]; [|by apply IH]. apply foldl_keeps; [apply Hr|]. intros. by apply Hk.
Qed.

Lemma wake_one_others i (sk : Sys T * Z) j : j ≠ i → tasks (wake_one bsp i sk).1 j = tasks sk.1 j.
Proof. intros Hj. unfold wake_one. rewrite wake_locked_others by done. by apply task_ne. Qed.

Lemma wake_key_keeps (Q : Task → Prop) key (sk : Sys T * Z) i :
  (∀ t, state t ≠ Blocked ∨ wait_key t = 0 → Q t) → Q (tasks sk.1 i) →
  Q (tasks (wake_key_locked bsp key sk).2.1 i).
Proof.
  intros Hq Hi. unfold wake_key_locked. apply (foldl_keeps (λ a : bool * (Sys T * Z), Q (tasks a.2.1 i))); [done|].
  intros [woke sk'] j Hsk _. cbn [snd] in *. case_match; [|done]. cbn [snd].
  destruct (decide (i = j)) as [->|Hij]; [apply Hq, wake_locked_done|by rewrite wake_one_others].
Qed.

Lemma waits_on_done key any t : key ≠ 0 → state t ≠ Blocked ∨ wait_key t = 0 → waits_on key any t = false.
Proof.
  intros Hk [Hs|Hz]; unfold waits_on; [by rewrite bool_decide_false|]. rewrite Hz.
  rewrite (proj2 (Z.eqb_neq 0 key)) by done. change (0 =? WAIT_ANY) with false. by rewrite andb_false_r, andb_false_r.
Qed.

Lemma wake_key_reaches key (sk : Sys T * Z) i :
  key ≠ 0 → (i < MAX_TASKS)%nat →
  waits_on key (negb (any_waiters sk.1 =? 0)) (tasks (wake_key_locked bsp key sk).2.1 i) = false.
Proof.
  intros Hk Hi. unfold wake_key_locked. set (any := negb (any_waiters sk.1 =? 0)). clearbody any.
  apply (foldl_reaches (λ a : bool * (Sys T * Z), waits_on key any (tasks a.2.1 i) = false) _ _ i).
  - by apply elem_slots.
  - intros [woke sk'] j Hsk. cbn [snd] in *. case_match; [|done]. cbn [snd].
    destruct (decide (i = j)) as [->|Hij]; [by apply waits_on_done, wake_locked_done|by rewrite wake_one_others].
  - intros [woke sk']. case_match eqn:E; [|done]. by apply waits_on_done, wake_locked_done.
Qed.

Lemma wake_leaves_none key s i :
  wait_inv s → key ≠ 0 → (i < MAX_TASKS)%nat → let t := tasks (wake bsp key s).1 i in
  state t = Blocked → wait_key t ≠ key ∧ wait_key t ≠ WAIT_ANY.
Proof.
  intros Hw Hk Hi t Hb. pose proof (wake_key_reaches key (bump s, 0) i Hk Hi) as Hr. fold (wake bsp key s) in Hr.
  fold t in Hr. unfold waits_on in Hr. rewrite bool_decide_true in Hr by done. apply orb_false_iff in Hr as [Hkey Hany].
  split; [by apply Z.eqb_neq|]. intros Ha. rewrite Ha, Z.eqb_refl, andb_true_r in Hany.
  apply negb_false_iff, Z.eqb_eq in Hany. cbn in Hany. rewrite (wi_count _ Hw) in Hany. unfold any_count in Hany.
  pose proof (count_range (λ i, any_task (tasks s i)) slots). pose proof (count_range (λ c, any_cpu (phase (cpus s c))) all_cpus).
  assert (Hz : any_task (tasks s i) = false) by (apply (count_zero (λ i, any_task (tasks s i)) slots); [lia|by apply elem_slots]).
  assert (Ht : any_task t = false).
  { apply (wake_key_keeps (λ t, any_task t = false) key (bump s, 0)); [|done]. intros. by apply done_any. }
  unfold any_task in Ht. rewrite bool_decide_true, Ha, Z.eqb_refl in Ht by done. done.
Qed.

(** The steps that wake. *)
Definition is_wake (o : Op) : bool :=
  match o with
  | OWake _ | OWakeN _ _ | OAnyBump | OAnyWake => true
  | OWakeTask slot => bool_decide (slot < MAX_TASKS)%nat
  | _ => false
  end.

Lemma note_bumps c (sk : Sys T * Z) : bumps (note_kicks c sk) = bumps sk.1.
Proof. done. Qed.

(** The bump is before the wakes. *)
Lemma bumps_closed (n : Z) : wake_closed bsp (λ sk, n <= bumps sk.1).
Proof.
  split; cbn [fst]; try done.
  - intros i sk _ Hn. etrans; [done|]. apply (qu_bumps _ _ (quiet_wake_locked bsp i sk)).
  - intros s _ Hn. cbn. lia.
Qed.

Lemma wake_bumps key s : bumps (bump s) <= bumps (wake bsp key s).1.
Proof. apply (closed_wake_key bsp _ (bumps_closed _) key (bump s, 0)). cbn [fst]. lia. Qed.

Lemma exec_bumps s s' c o : exec bsp c o s = Some s' → is_wake o = true → bumps s < bumps s'.
Proof.
  intros Hx Ho. unfold exec in Hx. guards. destruct (current (cpus s c)) as [cur|]; [|by destruct o].
  assert (Hb : ∀ s', bumps (bump s) <= bumps s' → bumps s < bumps s') by (intros s1; cbn; lia).
  destruct o; try done; cbn [exec_on] in Hx; guards; apply Hb.
  - rewrite note_bumps. apply wake_bumps.
  - rewrite note_bumps. unfold wake_n. apply (foldl_keeps (λ a : nat * (Sys T * Z), bumps (bump s) <= bumps a.2.1)); [done|].
    intros [k sk] i Hsk Hi%elem_slots. cbn [snd] in *. repeat case_match; try done.
    by apply (closed_wake_one bsp _ (bumps_closed _)).
  - rewrite note_bumps. cbn [is_wake] in Ho. unfold wake_task_locked. rewrite Ho. cbn [fst snd].
    apply bool_decide_eq_true in Ho. pose proof (quiet_wake_locked bsp slot (bump s, 0)) as Hq.
    assert (E : ∀ sk : Sys T * Z, bumps (kick_running_locked c slot sk).1 = bumps sk.1)
      by (intros sk; unfold kick_running_locked; by repeat case_match).
    rewrite E. apply (qu_bumps _ _ Hq).
  - done.
  - pose proof (wake_bumps WAIT_ANY s) as Hk. rewrite <-(note_bumps c) in Hk. exact Hk.
Qed.

Lemma run_bumps ops s s' :
  run bsp ops s = Some s' → Exists (λ x : nat * Op, is_wake x.2 = true) ops → bumps s < bumps s'.
Proof.
  intros Hr Hex. revert s Hr. induction Hex as [[c o] ops Ho|[c o] ops _ IH]; intros s Hr; cbn [run] in Hr.
  all: destruct (exec bsp c o s) as [s1|] eqn:Ex; [|done]; cbn in Hr.
  - pose proof (exec_bumps s s1 c o Ex Ho). pose proof (ck_bumps _ _ (run_clock bsp ops s1 s' Hr)). lia.
  - pose proof (ck_bumps _ _ (exec_clock bsp s s1 c o Ex)). pose proof (IH s1 Hr). lia.
Qed.

(** C13: no wake is missed.  A wake between the moment a task reads
    [WAIT_SEQ] and the moment it would block makes [block_until] return
    (unless 2^64 wakes passed in between); once it has blocked, a wake of
    its key, or any wake if it waits on [WAIT_ANY], finds it; and when
    [wake_any] skips its search for want of waiters, there are none, blocked
    or about to. *)
Theorem wake_not_missed pre n ts s0 :
  run bsp pre (boot n ts) = Some s0 →
  (∀ mid s1 c cur key dl now s2,
     run bsp mid s0 = Some s1 → Exists (λ x : nat * Op, is_wake x.2 = true) mid → bumps s1 - bumps s0 < 2 ^ 64 →
     current (cpus s1 c) = Some cur → phase (cpus s1 c) = Blocking key (wait_seq s0) dl →
     exec bsp c (ODecide now) s1 = Some s2 → state (tasks s2 cur) = state (tasks s1 cur)) ∧
  (∀ d key s1, key ≠ 0 → exec bsp d (OWake key) s0 = Some s1 → ∀ i, (i < MAX_TASKS)%nat →
     state (tasks s1 i) = Blocked → wait_key (tasks s1 i) ≠ key ∧ wait_key (tasks s1 i) ≠ WAIT_ANY) ∧
  (∀ d s1, exec bsp d OAnyRead s0 = Some s1 → any_phase (cpus s1 d) = NoAny →
     (∀ i, (i < MAX_TASKS)%nat → state (tasks s0 i) = Blocked → wait_key (tasks s0 i) ≠ WAIT_ANY) ∧
     (∀ c key seq dl, phase (cpus s0 c) = Blocking key seq dl → key ≠ WAIT_ANY)).
Proof.
  intros Hpre. pose proof (run_inv bsp pre _ s0 (boot_inv n ts) Hpre) as Hinv.
  pose proof (run_wait pre _ s0 (boot_inv n ts) Hpre (boot_wait n ts)) as Hw. split; [|split].
  - intros mid s1 c cur key dl now s2 Hmid Hex Hlt Hcur Hph Hx.
    pose proof (run_bumps mid s0 s1 Hmid Hex) as Hgt. pose proof (run_wait mid s0 s1 Hinv Hmid Hw) as Hw1.
    unfold exec in Hx. guards. rewrite Hcur in Hx. cbn [exec_on] in Hx. rewrite Hph in Hx. injection Hx as <-.
    destruct (decide_cases s1 c cur key (wait_seq s0) dl now) as (_&_&_&_&_&[[-> _]|(Heq&_)]); [done|].
    exfalso. rewrite (wi_seq _ Hw), (wi_seq _ Hw1) in Heq.
    assert (E : (bumps s1 - bumps s0) mod 2 ^ 64 = 0) by (rewrite Zminus_mod, Heq, Z.sub_diag; done).
    rewrite Z.mod_small in E by lia. lia.
  - intros d key s1 Hk Hx i Hi. unfold exec in Hx. guards. destruct (current (cpus s0 d)); [|done].
    cbn [exec_on] in Hx. guards. by apply wake_leaves_none.
  - intros d s1 Hx. unfold exec in Hx. guards. destruct (current (cpus s0 d)); [|done].
    cbn [exec_on] in Hx. guards. cbn. rewrite decide_True by done. cbn.
    destruct (any_waiters s0 =? 0) eqn:Ez; [|done]. intros _. apply Z.eqb_eq in Ez. rewrite (wi_count _ Hw) in Ez.
    unfold any_count in Ez. pose proof (count_range (λ i, any_task (tasks s0 i)) slots).
    pose proof (count_range (λ c, any_cpu (phase (cpus s0 c))) all_cpus). split.
    + intros i Hi Hb Ha. assert (Hz : any_task (tasks s0 i) = false)
        by (apply (count_zero (λ i, any_task (tasks s0 i)) slots); [lia|by apply elem_slots]).
      unfold any_task in Hz. by rewrite bool_decide_true, Ha, Z.eqb_refl in Hz.
    + intros c key seq dl Hp Ha. assert (Hc : (c < MAX_CPUS)%nat).
      { destruct (current (cpus s0 c)) as [j|] eqn:Ec; [by apply (ck_cur _ _ (proj1 (proj2 (proj1 Hinv)) c) j)|].
        apply (ck_none _ _ (proj1 (proj2 (proj1 Hinv)) c)) in Ec as [E _]. congruence. }
      assert (Hz : any_cpu (phase (cpus s0 c)) = false)
        by (apply (count_zero (λ c, any_cpu (phase (cpus s0 c))) all_cpus); [lia|by apply elem_all_cpus]).
      rewrite Hp in Hz. cbn in Hz. by rewrite Ha in Hz.
Qed.

End wakes.

Lemma wake_not_missed_witness :
  match run (T := TaskBits) false sleeper_run (boot 2 []) with
  | Some s => state (tasks s 1) = Blocked ∧
      match exec false 0 (OWake (key_pipe 3)) s with
      | Some s1 => ∀ i, (i < MAX_TASKS)%nat → state (tasks s1 i) = Blocked → wait_key (tasks s1 i) ≠ key_pipe 3
      | None => False
      end
  | None => False
  end.
Proof.
  assert (Hb : ((λ s : Sys TaskBits, state (tasks s 1)) <$> run false sleeper_run (boot 2 [])) = Some Blocked)
    by (vm_compute; reflexivity).
  assert (Hx : ((λ s : Sys TaskBits, state (tasks s 1)) <$>
    (run false sleeper_run (boot 2 []) ≫= exec false 0 (OWake (key_pipe 3)))) = Some Ready) by (vm_compute; reflexivity).
  destruct (run false sleeper_run (boot 2 [])) as [s|] eqn:Er; [|done]. split; [by injection Hb|].
  cbn in Hx. destruct (exec false 0 (OWake (key_pipe 3)) s) as [s1|] eqn:Ex; [|done]. intros i Hi Hs.
  destruct (wake_not_missed false sleeper_run 2 [] s Er) as (_&Hw&_).
  by destruct (Hw 0%nat (key_pipe 3) s1 ltac:(done) Ex i Hi Hs).
Defined.

(** Task 2 runs on processor 0, processor 1 is up. *)
Definition sigwait_start : list (nat * Op) := [
  (0%nat, OEnablePreempt); (1%nat, OBringUp 1 4096); (0%nat, OInstall 2 8192 7 2 false (Some 0%nat));
  (0%nat, OPick); (0%nat, OSwitch 12288); (0%nat, OFinish)].

(** A signal its task blocks, as one does that waits for it. *)
Definition blocked_signal : SigView :=
  {| sv_user := true; sv_blocked := true; sv_ignored := false; sv_busy := false |}.

(** The wake of a blocked signal can be missed.  [sigwait] reads
    [WAIT_SEQ] and finds nothing pending; the signal is sent then, by
    another processor, which bumps [WAIT_SEQ] only if it woke someone; and
    [sigwait] blocks, without a deadline, on a signal already pending. *)
Theorem sigwait_wake_lost :
  ∃ s0 s1 : Sys TaskBits, run false sigwait_start (boot 2 []) = Some s0 ∧
    current (cpus s0 0) = Some 2%nat ∧ sig_pending (tasks s0 2) = 0 ∧
    run false [(0%nat, OSigTake (2 ^ 10)); (1%nat, OSignal 2 10 blocked_signal);
               (0%nat, OBlock KEY_SIGNAL (wait_seq s0) 0); (0%nat, ODecide 5)] s0 = Some s1 ∧
    state (tasks s1 2) = Blocked ∧ wait_key (tasks s1 2) = KEY_SIGNAL ∧ wake_at (tasks s1 2) = 0 ∧
    Z.testbit (sig_pending (tasks s1 2)) 10 = true ∧ wait_seq s1 = wait_seq s0.
Proof.
  set (rest := λ s0 : Sys TaskBits, run false [(0%nat, OSigTake (2 ^ 10)); (1%nat, OSignal 2 10 blocked_signal);
               (0%nat, OBlock KEY_SIGNAL (wait_seq s0) 0); (0%nat, ODecide 5)] s0).
  assert (Hrun : (s0 ← run false sigwait_start (boot 2 []); s1 ← rest s0;
    Some (current (cpus s0 0), sig_pending (tasks s0 2), state (tasks s1 2), wait_key (tasks s1 2), wake_at (tasks s1 2),
      sig_pending (tasks s1 2), wait_seq s1, wait_seq s0)) =
    Some (Some 2%nat, 0, Blocked, KEY_SIGNAL, 0, 2 ^ 10, 0, 0)) by (vm_compute; reflexivity).
  destruct (run false sigwait_start (boot 2 [])) as [s0|] eqn:E0; [|discriminate Hrun].
  cbn [mbind option_bind] in Hrun. destruct (rest s0) as [s1|] eqn:E1; [|discriminate Hrun].
  injection Hrun as Hc Hp Hs Hk Hw Hb Hq Hq0. exists s0, s1. rewrite Hp, Hs, Hk, Hw, Hb, Hq, Hq0 in *.
  split_and!; try done. rewrite <-E1. unfold rest. by rewrite Hq0.
Qed.
