(* ===== verification/SchedHalt.v ===== *)
(** * Halts

    Over all runs of [Sched.v], a processor that has halted with work of its
    own queued is about to be interrupted: whoever queued it kicks it. *)

From S2P Require Import Prelude TaskSet Sched SchedFacts SchedRun SchedLive.
From stdpp Require Import list.

Open Scope Z_scope.

Lemma kick_bit_spec c d : Z.testbit (kick_bit c) (Z.of_nat d) = bool_decide (d = c).
Proof.
  unfold kick_bit. rewrite Z.shiftl_spec by lia. case_bool_decide as E.
  - subst. by rewrite Z.sub_diag.
  - destruct (decide (d < c)%nat); [by rewrite Z.testbit_neg_r by lia|].
    replace (Z.of_nat d - Z.of_nat c) with (Z.succ (Z.of_nat (d - c - 1))) by lia.
    by rewrite (Z.testbit_odd_succ 0), Z.bits_0 by lia.
Qed.

Lemma lor_bit ks ks' d : Z.testbit (Z.lor ks ks') d = Z.testbit ks d || Z.testbit ks' d.
Proof. apply Z.lor_spec. Qed.

(** Saying it is idle, until it is not. *)
Definition idling (p : Phase) : Prop := match p with Idling _ | Checking | Halted => True | _ => False end.

Section halt.
Context {T : Type} `{SlotSetLaws T} (bsp : bool).
Implicit Types (s : Sys T) (i c d cur : nat).

Definition kick_noted s d c : Prop := Z.testbit (kicks (cpus s d)) (Z.of_nat c) = true.

Record halt_inv s : Prop := {
  hi_idle c : idling (phase (cpus s c)) → cpu_idle (cpus s c) = true;
  hi_work c i : phase (cpus s c) = Halted → s_contains (runq (cpus s c)) i = true →
    ipi (cpus s c) = true ∨ ∃ d, d ≠ c ∧ kick_noted s d c }.

(** ** What is queued is kicked *)

(** Whatever [sk'] has queued and [sk] has not is kicked, and no kick is lost. *)
Record kicked (sk sk' : Sys T * Z) : Prop := {
  kd_work c i : s_contains (runq (cpus sk'.1 c)) i = true →
    s_contains (runq (cpus sk.1 c)) i = true ∨ Z.testbit sk'.2 (Z.of_nat c) = true;
  kd_bits c : Z.testbit sk.2 (Z.of_nat c) = true → Z.testbit sk'.2 (Z.of_nat c) = true }.

#[local] Instance kicked_refl : Reflexive kicked.
Proof. intros sk. split; auto. Qed.
#[local] Instance kicked_trans : Transitive kicked.
Proof.
  intros k1 k2 k3 [Hw Hb] [Hw' Hb']. split; [|auto]. intros c i Hi. destruct (Hw' c i Hi) as [Hi'|]; [|by right].
  destruct (Hw c i Hi') as [|Hk]; [by left|]. right. by apply Hb'.
Qed.

Lemma kicked_same (sk sk' : Sys T * Z) :
  (∀ c, runq (cpus sk'.1 c) = runq (cpus sk.1 c)) → sk'.2 = sk.2 → kicked sk sk'.
Proof. intros Hq Hk. split; [|by rewrite Hk]. intros c i. rewrite Hq. auto. Qed.

Lemma kicked_flag c (sk : Sys T * Z) : kicked sk (flag c sk).
Proof.
  split.
  - intros d i. cbn. case_decide; auto.
  - intros d Hd. cbn [snd flag]. by rewrite lor_bit, Hd.
Qed.

Lemma kicked_kick_for slot aff fs (sk : Sys T * Z) : kicked sk (kick_for bsp slot aff fs sk).
Proof.
  unfold kick_for. set (sk1 := match home aff with Some c => if fs then sk else flag c sk | None => sk end).
  assert (Hs1 : kicked sk sk1).
  { unfold sk1. destruct (home aff); [|done]. destruct fs; [done|apply kicked_flag]. }
  clearbody sk1. match goal with |- context [if ?b then _ else _] => destruct b end; [exact Hs1|].
  destruct (find _ _); [|exact Hs1]. etrans; [exact Hs1|apply kicked_flag].
Qed.

(** Work for a processor is work it is kicked for. *)
Lemma kick_for_home slot aff h (sk : Sys T * Z) :
  home aff = Some h → Z.testbit (kick_for bsp slot aff false sk).2 (Z.of_nat h) = true.
Proof.
  intros Hh. unfold kick_for. rewrite Hh.
  assert (Hf : Z.testbit (flag h sk).2 (Z.of_nat h) = true).
  { cbn [snd flag]. by rewrite lor_bit, kick_bit_spec, bool_decide_true, orb_true_r. }
  revert Hf. generalize (flag h sk) as sk1. intros sk1 Hf.
  repeat case_match; try done. by apply kicked_flag.
Qed.

Lemma kicked_enqueue slot aff (sk : Sys T * Z) :
  set_ok (queue (home aff) sk.1) → (slot < MAX_TASKS)%nat →
  kicked sk (kick_for bsp slot aff false (enqueue slot aff sk.1, sk.2)).
Proof.
  intros Hok Hs. split.
  - intros c i Hi. destruct (core_kick_for bsp slot aff false (enqueue slot aff sk.1, sk.2)) as [_ _ _ _ Hq _ _ _].
    rewrite Hq in Hi. cbn [fst] in Hi. apply (contains_enqueue slot aff sk.1 (Some c) i) in Hi as [[Hh _]|Hi]; [|by left|done..].
    right. by apply kick_for_home.
  - intros c Hc. by apply kicked_kick_for.
Qed.

Lemma kicked_ready i (sk : Sys T * Z) :
  (∀ q, set_ok (queue q sk.1)) → (i < MAX_TASKS)%nat → kicked sk (ready_locked bsp i sk).
Proof. intros Hok Hi. unfold ready_locked. by apply kicked_enqueue. Qed.

Lemma kicked_wake_locked i (sk : Sys T * Z) :
  cells_inv sk.1 → (i < MAX_TASKS)%nat → kicked sk (wake_locked bsp i sk).
Proof.
  destruct sk as [s ks]. cbn [fst]. intros Hinv Hi. unfold wake_locked. case_match; [done|].
  set (s1 := if wait_key (tasks s i) =? WAIT_ANY then _ else _).
  assert (Hs1 : ∀ q, queue q s1 = queue q s) by (intros q; unfold s1; by case_match). clearbody s1.
  assert (Hr : ∀ c, runq (cpus s1 c) = runq (cpus s c)) by (intros c; apply (Hs1 (Some c))).
  case_match; [by apply kicked_same|].
  set (s3 := on_task i (set_state Ready) _). assert (Hs3 : kicked (s, ks) (s3, ks)) by (by apply kicked_same).
  assert (Hok : ∀ q, set_ok (queue q s3)).
  { intros q. unfold s3. rewrite !queue_on_task, Hs1. by apply queue_ok. }
  clearbody s3. etrans; [exact Hs3|]. case_match; [apply kicked_flag|]. by apply (kicked_enqueue i _ (s3, ks)).
Qed.

(** The loops of wakes: the invariant holds all along. *)
Definition woken (sk sk' : Sys T * Z) : Prop := cells_inv sk'.1 ∧ kicked sk sk'.

Lemma woken_closed (sk0 : Sys T * Z) : wake_closed bsp (woken sk0).
Proof.
  destruct (cells_closed (T := T) bsp) as [Cw Cb Ct Ck Cs]. cbn [fst] in *. split.
  - intros i sk Hi [Hc Hk]. split; [by apply Cw|]. etrans; [exact Hk|by apply kicked_wake_locked].
  - intros s ks [Hc Hk]. split; [by apply (Cb s ks)|]. etrans; [exact Hk|by apply kicked_same].
  - intros i f s ks Hf [Hc Hk]. split; [by apply (Ct i f s ks)|]. etrans; [exact Hk|by apply kicked_same].
  - intros c s ks [Hc Hk]. split; [by apply (Ck c s ks)|]. etrans; [exact Hk|]. split.
    + intros d j. cbn. goal_decide; auto.
    + intros d Hd. cbn [snd] in *. by rewrite lor_bit, Hd.
  - intros ts s ks [Hc Hk]. split; [by apply (Cs ts s ks)|]. etrans; [exact Hk|by apply kicked_same].
Qed.

Lemma woken_start s (ks : Z) : cells_inv s → woken (s, ks) (s, ks).
Proof. by split. Qed.

(** ** Frames *)

(** Processor [me] makes a step that halts no one: the others' cells stand,
    their queues do not grow but for what it kicks, no kick is lost. *)
Lemma halt_frame s s' me :
  halt_inv s →
  (∀ c, c ≠ me → phase (cpus s' c) = phase (cpus s c) ∧ cpu_idle (cpus s' c) = cpu_idle (cpus s c) ∧
     ipi (cpus s' c) = ipi (cpus s c)) →
  (∀ c i, c ≠ me → s_contains (runq (cpus s' c)) i = true →
     s_contains (runq (cpus s c)) i = true ∨ kick_noted s' me c) →
  (∀ d c, kick_noted s d c → kick_noted s' d c) →
  (idling (phase (cpus s' me)) → cpu_idle (cpus s' me) = true) → phase (cpus s' me) ≠ Halted →
  halt_inv s'.
Proof.
  intros [Hi Hw] Ho Hq Hk Him Hnh. split.
  - intros c. destruct (decide (c = me)) as [->|Hc]; [done|]. destruct (Ho c Hc) as (->&->&_). apply Hi.
  - intros c i Hp Hr. assert (Hc : c ≠ me) by (by intros ->). destruct (Ho c Hc) as (Ep&_&Ei).
    rewrite Ep in Hp. rewrite Ei. destruct (Hq c i Hc Hr) as [Hr'|Hn]; [|right; exists me; by split].
    destruct (Hw c i Hp Hr') as [|(d&Hd&Hn)]; [by left|]. right. exists d. split; [done|by apply Hk].
Qed.

(** Steps that touch none of this. *)
Record halt_eq s s' : Prop := {
  he_phase c : phase (cpus s' c) = phase (cpus s c);
  he_cpu_idle c : cpu_idle (cpus s' c) = cpu_idle (cpus s c);
  he_ipi c : ipi (cpus s' c) = ipi (cpus s c);
  he_runq c : runq (cpus s' c) = runq (cpus s c);
  he_kicks c : kicks (cpus s' c) = kicks (cpus s c) }.

Lemma halt_eq_inv s s' : halt_eq s s' → halt_inv s → halt_inv s'.
Proof.
  intros [Ep Ec Ei Eq Ek] [Hi Hw]. split.
  - intros c. rewrite Ep, Ec. apply Hi.
  - intros c i. rewrite Ep, Eq, Ei. unfold kick_noted. setoid_rewrite Ek. apply Hw.
Qed.

Lemma halt_on_task i f s : halt_inv s → halt_inv (on_task i f s).
Proof. by apply halt_eq_inv. Qed.

(** A wake by [me], its kicks noted. *)
Lemma halt_noted s me (sk : Sys T * Z) :
  phase (cpus s me) = Exec → quiet s sk.1 → kicked (s, 0) sk → halt_inv s → halt_inv (note_kicks me sk).
Proof.
  intros Hp Hq [Hw _] Hinv. apply (halt_frame s _ me); [done|..].
  - intros c Hc. cbn. rewrite decide_False by done. split_and!; apply Hq.
  - intros c i Hc. cbn. rewrite decide_False by done. intros Hi. destruct (Hw c i Hi) as [|Hb]; [by left|]. right.
    unfold kick_noted. cbn. rewrite decide_True by done. cbn [kicks cpu_set_kicks]. by rewrite lor_bit, Hb, orb_true_r.
  - intros d c Hd. unfold kick_noted in *. cbn. case_decide; cbn [kicks cpu_set_kicks]; rewrite (qu_kicks _ _ Hq); [|done].
    by rewrite lor_bit, Hd.
  - cbn. rewrite decide_True by done. cbn. by rewrite (qu_phase _ _ Hq), Hp.
  - cbn. rewrite decide_True by done. cbn. by rewrite (qu_phase _ _ Hq), Hp.
Qed.

(** A step of [me] on its own cells. *)
Lemma halt_on_cpu s me f :
  (∀ k, runq (f k) = runq k ∧ kicks (f k) = kicks k) →
  (idling (phase (f (cpus s me))) → cpu_idle (f (cpus s me)) = true) → phase (f (cpus s me)) ≠ Halted →
  halt_inv s → halt_inv (on_cpu me f s).
Proof.
  intros Hf Hi Hh Hinv. apply (halt_frame s _ me); [done|..].
  - intros c Hc. cbn. by rewrite decide_False.
  - intros c i Hc. cbn. rewrite decide_False by done. auto.
  - intros d c. unfold kick_noted. cbn. case_decide; [|done]. by rewrite (proj2 (Hf _)).
  - cbn. by rewrite decide_True.
  - cbn. by rewrite decide_True.
Qed.

(** ** Every step keeps it *)

(** The cells kicks go by. *)
Definition lamps s s' d : Prop :=
  cpu_idle (cpus s' d) = cpu_idle (cpus s d) ∧ ipi (cpus s' d) = ipi (cpus s d) ∧ kicks (cpus s' d) = kicks (cpus s d).

Lemma lamps_set_queue q v s d : lamps s (set_queue q v s) d.
Proof. destruct q; unfold lamps; cbn; [by case_decide|done]. Qed.

Lemma lamps_choose c cur s d : lamps s (choose bsp c cur s).2 d.
Proof.
  assert (Hd : ∀ n aff, lamps s (dequeue n aff s) d) by (intros; apply lamps_set_queue).
  unfold choose, pull. repeat case_match; simplify_eq; try done; cbn [snd]; try apply Hd.
  all: match goal with |- context [dequeue ?n ?a _] => specialize (Hd n a) end; unfold lamps in *; cbn; goal_decide; done.
Qed.

Lemma choose_shrinks s c cur next s1 d i :
  cells_inv s → current (cpus s c) = Some cur → switched_from (cpus s c) = None → choose bsp c cur s = (next, s1) →
  s_contains (runq (cpus s1 d)) i = true → s_contains (runq (cpus s d)) i = true.
Proof.
  intros Hinv Hcur Hsw Hch. apply choose_spec in Hch as [[_ ->]|(l&io&aff&_&Hch)]; [done| |done..].
  intros Hi. by apply (cn_queue _ _ _ _ _ _ _ Hch (Some d)) in Hi as [? _].
Qed.

Lemma pick_halt s c cur p s' :
  cells_inv s → current (cpus s c) = Some cur → switched_from (cpus s c) = None →
  pick bsp c cur s = (p, s') →
  (∀ d, phase (cpus s' d) = phase (cpus s d)) ∧
  (∀ d, d ≠ c ∨ p ≠ Switched → cpu_idle (cpus s' d) = cpu_idle (cpus s d)) ∧
  (∀ d, ipi (cpus s' d) = ipi (cpus s d)) ∧ (∀ d, kicks (cpus s' d) = kicks (cpus s d)) ∧
  (∀ d i, s_contains (runq (cpus s' d)) i = true → s_contains (runq (cpus s d)) i = true).
Proof.
  intros Hinv Hcur Hsw. unfold pick. case_match; [by intros [= _ <-]|].
  pose proof (lamps_choose c cur s) as Hl. destruct (choose bsp c cur s) as [n s1] eqn:Ech. cbn [snd] in Hl.
  pose proof (λ d i, choose_shrinks s c cur n s1 d i Hinv Hcur Hsw Ech) as Hq.
  assert (Hp : ∀ d, phase (cpus s1 d) = phase (cpus s d)).
  { intros d. apply choose_spec in Ech as [[_ ->]|(l&io&aff&_&Hch)]; [done| |done..]. apply (cn_cells _ _ _ _ _ _ _ Hch). }
  case_match.
  - intros [= <- <-]. split_and!; try done; intros d; [intros _|..]; apply Hl.
  - intros [= <- <-]. set (s2 := if bool_decide _ then s1 else _).
    assert (Hs2 : ∀ d, phase (cpus s2 d) = phase (cpus s1 d) ∧ (d ≠ c → cpu_idle (cpus s2 d) = cpu_idle (cpus s1 d)) ∧
      ipi (cpus s2 d) = ipi (cpus s1 d) ∧ kicks (cpus s2 d) = kicks (cpus s1 d) ∧ runq (cpus s2 d) = runq (cpus s1 d)).
    { intros d. unfold s2. case_match; [done|]. cbn. goal_decide; done. }
    clearbody s2. split_and!.
    + intros d. rewrite <-Hp, <-(proj1 (Hs2 d)). cbn. repeat goal_decide; done.
    + intros d [Hd|]; [|done]. destruct (Hs2 d) as (_&E&_). rewrite <-(proj1 (Hl d)), <-E by done.
      cbn. by rewrite !decide_False.
    + intros d. destruct (Hs2 d) as (_&_&E&_). rewrite <-(proj1 (proj2 (Hl d))), <-E. cbn. repeat goal_decide; done.
    + intros d. destruct (Hs2 d) as (_&_&_&E&_). rewrite <-(proj2 (proj2 (Hl d))), <-E. cbn. repeat goal_decide; done.
    + intros d i Hi. apply Hq. destruct (Hs2 d) as (_&_&_&_&<-). revert Hi. cbn. repeat goal_decide; done.
Qed.

Lemma step_pick_halt s c cur s' :
  cells_inv s → current (cpus s c) = Some cur → step_pick bsp c cur s = Some s' → halt_inv s → halt_inv s'.
Proof.
  intros Hinv Hcur Hx Hh. revert Hx. unfold step_pick.
  destruct (phase (cpus s c)) as [| |b| | | | |] eqn:Ep; try done.
  all: assert (Hsw : switched_from (cpus s c) = None) by (apply no_switch; [done|by rewrite Ep]).
  all: destruct (pick bsp c cur s) as [p s1] eqn:Epk; destruct (pick_halt s c cur p s1) as (Hp&Hc&Hi&Hk&Hq); [done..|].
  all: intros [= <-].
  - assert (Hs1 : halt_inv s1).
    { apply (halt_frame s s1 c); [done|..].
      - intros d Hd. split_and!; [apply Hp|apply Hc; by left|apply Hi].
      - intros d i _ Hi'. left. by apply Hq.
      - intros d d'. unfold kick_noted. by rewrite Hk.
      - by rewrite Hp, Ep.
      - by rewrite Hp, Ep. }
    destruct p; [|done]. by apply halt_on_cpu.
  - apply (halt_frame s _ c); [done|..].
    + intros d Hd. cbn. rewrite decide_False by done. split_and!; [apply Hp|apply Hc; by left|apply Hi].
    + intros d i Hd. cbn. rewrite decide_False by done. intros Hi'. left. by apply Hq.
    + intros d d'. unfold kick_noted. cbn. goal_decide; cbn [kicks cpu_set_phase]; by rewrite Hk.
    + cbn. rewrite decide_True by done. cbn [phase cpu_set_phase cpu_idle]. destruct p as [|bl]; [done|].
      intros _. rewrite Hc by (by right). apply (hi_idle _ Hh). by rewrite Ep.
    + cbn. rewrite decide_True by done. cbn [phase cpu_set_phase]. destruct p as [|bl]; [done|]. by destruct (b || bl).
Qed.

Lemma check_halt s c : cells_inv s → phase (cpus s c) = Checking → halt_inv s → halt_inv (step_check c s).
Proof.
  intros Hinv Hp [Hi Hw]. unfold step_check. set (s1 := on_cpu c (cpu_set_need_resched false) s).
  assert (Hs1 : halt_inv s1).
  { eapply halt_eq_inv; [|by split]. split; intros d; cbn; goal_decide; done. }
  assert (Hok : set_ok (runq (cpus s1 c)) ∧ set_ok (float s1)).
  { cbn. rewrite decide_True by done. split; [apply (queue_ok s (Some c)), Hinv|apply Hinv]. }
  assert (Hp1 : phase (cpus s1 c) = Checking) by (cbn; by rewrite decide_True).
  clearbody s1. destruct (_ && _) eqn:Eq.
  2:{ by apply halt_on_cpu. }
  apply andb_true_iff in Eq as [_ Eq]. unfold queued_for, queued in Eq. apply negb_true_iff, negb_false_iff in Eq.
  destruct Hok as [Hok Hokf]. rewrite is_empty_spec in Eq by (by apply union_ok). split.
  - intros d. cbn. goal_decide; cbn; [|apply Hs1]. subst d. intros _. apply Hs1. by rewrite Hp1.
  - intros d i. cbn. goal_decide; cbn.
    + subst d. intros _ Hr. specialize (Eq i). rewrite contains_union, Hr in Eq by done. done.
    + intros Hpd Hr. destruct (hi_work _ Hs1 d i Hpd Hr) as [|(d'&Hd&Hn)]; [by left|]. right. exists d'. split; [done|].
      revert Hn. unfold kick_noted. cbn. by goal_decide.
Qed.

Lemma kick_cells s c target : let s' := step_kick c target s in
  (∀ d, phase (cpus s' d) = phase (cpus s d) ∧ cpu_idle (cpus s' d) = cpu_idle (cpus s d) ∧
        runq (cpus s' d) = runq (cpus s d) ∧ (ipi (cpus s d) = true → ipi (cpus s' d) = true)) ∧
  (∀ d e, kick_noted s d e → d ≠ c ∨ e ≠ target → kick_noted s' d e) ∧
  (1 < online s → kick_noted s c target → target ≠ c → cpu_idle (cpus s target) = true →
     ipi (cpus s' target) = true).
Proof.
  cbv zeta. unfold step_kick, kick_noted. set (ks := kicks (cpus s c)).
  set (s1 := on_cpu c (cpu_set_kicks (Z.ldiff ks (kick_bit target))) s).
  assert (Hs1 : ∀ d, phase (cpus s1 d) = phase (cpus s d) ∧ cpu_idle (cpus s1 d) = cpu_idle (cpus s d) ∧
    runq (cpus s1 d) = runq (cpus s d) ∧ ipi (cpus s1 d) = ipi (cpus s d)).
  { intros d. unfold s1. cbn. by goal_decide. }
  assert (Hk1 : ∀ d, kicks (cpus s1 d) = if decide (d = c) then Z.ldiff ks (kick_bit target) else kicks (cpus s d)).
  { intros d. unfold s1. cbn. by goal_decide. }
  assert (Hn : ∀ d e, Z.testbit (kicks (cpus s d)) (Z.of_nat e) = true → d ≠ c ∨ e ≠ target →
    Z.testbit (kicks (cpus s1 d)) (Z.of_nat e) = true).
  { intros d e Hb Hde. rewrite Hk1. goal_decide; [|done]. subst d. destruct Hde as [|He]; [done|].
    by rewrite Z.ldiff_spec, kick_bit_spec, (bool_decide_false (e = target)), andb_true_r. }
  assert (Ho : online s1 = online s) by done. rewrite Ho. clear Ho Hk1. clearbody s1.
  destruct ((ks =? 0) || _ || _ || _) eqn:Eg.
  - split; [intros d; destruct (Hs1 d) as (->&->&->&->); auto|]. split; [done|]. intros Hon Hb Hne.
    exfalso. apply orb_true_iff in Eg as [Eg|E]; [|by apply Nat.eqb_eq in E]. unfold kick_noted in Hb. fold ks in Hb.
    rewrite Hb, orb_false_r in Eg. apply orb_true_iff in Eg as [E|E]; [|lia]. apply Z.eqb_eq in E. by rewrite E, Z.bits_0 in Hb.
  - set (s2 := on_cpu target (cpu_set_signal_kick false) s1).
    assert (Hs2 : ∀ d, phase (cpus s2 d) = phase (cpus s d) ∧ cpu_idle (cpus s2 d) = cpu_idle (cpus s d) ∧
      runq (cpus s2 d) = runq (cpus s d) ∧ ipi (cpus s2 d) = ipi (cpus s d) ∧ kicks (cpus s2 d) = kicks (cpus s1 d)).
    { intros d. destruct (Hs1 d) as (<-&<-&<-&<-). unfold s2. cbn. by goal_decide. }
    clearbody s2. destruct (cpu_idle (cpus s2 target) || _) eqn:Ei.
    + split; [|split].
      * intros d. destruct (Hs2 d) as (<-&<-&<-&<-&_). cbn. goal_decide; cbn; auto.
      * intros d e Hb Hde. specialize (Hn d e Hb Hde). destruct (Hs2 d) as (_&_&_&_&E). rewrite <-E in Hn.
        cbn. goal_decide; done.
      * intros _ _ _ _. cbn. by rewrite decide_True.
    + split; [|split].
      * intros d. destruct (Hs2 d) as (<-&<-&<-&<-&_). auto.
      * intros d e Hb Hde. specialize (Hn d e Hb Hde). by destruct (Hs2 d) as (_&_&_&_&->).
      * intros _ _ _ Hid. destruct (Hs2 target) as (_&E&_). rewrite E, Hid in Ei. done.
Qed.

Lemma kick_halt s c target : 1 < online s → halt_inv s → halt_inv (step_kick c target s).
Proof.
  intros Hon [Hi Hw]. destruct (kick_cells s c target) as (Hc&Hk&Hipi). set (s' := step_kick c target s) in *.
  clearbody s'. split.
  - intros d. destruct (Hc d) as (->&->&_). apply Hi.
  - intros e i. destruct (Hc e) as (->&_&->&Hmono). intros Hp Hr.
    destruct (Hw e i Hp Hr) as [|(d&Hd&Hn)]; [left; auto|].
    destruct (decide (d = c)) as [->|Hdc]; [|right; exists d; split; [done|]; apply Hk; auto].
    destruct (decide (e = target)) as [->|Het]; [|right; exists c; split; [done|]; apply Hk; auto].
    left. apply Hipi; [done|done|auto|]. apply Hi. by rewrite Hp.
Qed.

Lemma finish_cells s c d : cells_inv s →
  let s' := (finish_switch bsp c s).1 in
  phase (cpus s' d) = phase (cpus s d) ∧ lamps s s' d ∧ (d ≠ c → runq (cpus s' d) = runq (cpus s d)).
Proof.
  intros Hinv. cbv zeta. unfold finish_switch. destruct (switched_from (cpus s c)) as [prev|] eqn:Esw; [|done].
  destruct (proj1 Hinv prev) as (l&io&Hp). assert (l = LeavingCpu c) as -> by (by apply (pl_mid _ _ _ _ Hp)).
  pose proof (pl_fits _ _ _ _ Hp) as (Hnear&_).
  set (same := λ x : Sys T, phase (cpus x d) = phase (cpus s d) ∧ lamps s x d ∧ runq (cpus x d) = runq (cpus s d) ∧
    affinity (tasks x prev) = affinity (tasks s prev)).
  assert (Hend : ∀ x, same x → phase (cpus x d) = phase (cpus s d) ∧ lamps s x d ∧ (d ≠ c → runq (cpus x d) = runq (cpus s d)))
    by (intros x (?&?&?&_); auto).
  set (s1 := on_cpu c _ s). assert (Hs1 : same s1) by (unfold same, lamps; cbn; by goal_decide).
  change (tasks s1 prev) with (tasks s prev). clearbody s1.
  set (s2 := if _ && _ then _ else _). assert (Hs2 : same s2).
  { unfold s2. case_match; [|done]. destruct Hs1 as (?&?&?&?). split_and!; try done. by rewrite task_eq. }
  clearbody s2. case_match; [|by apply Hend]. set (s3 := on_task prev (set_state Ready) s2).
  assert (Hs3 : same s3) by (destruct Hs2 as (?&?&?&?); split_and!; try done; unfold s3; by rewrite task_eq).
  clearbody s3. case_match; [by apply Hend|]. destruct Hs3 as (Ep&El&Er&Ea). rewrite Ea.
  pose proof (quiet_kick_for bsp prev (affinity (tasks s prev)) true (enqueue prev (affinity (tasks s prev)) s3, 0)) as Hq.
  pose proof (core_kick_for bsp prev (affinity (tasks s prev)) true (enqueue prev (affinity (tasks s prev)) s3, 0)) as Hc.
  cbn [fst] in Hq, Hc. unfold lamps. rewrite (qu_phase _ _ Hq), (qu_cpu_idle _ _ Hq), (qu_ipi _ _ Hq), (qu_kicks _ _ Hq).
  rewrite (ce_runq _ _ Hc). unfold enqueue. destruct (lamps_set_queue (home (affinity (tasks s prev)))
    (s_insert prev (queue (home (affinity (tasks s prev))) s3)) s3 d) as (->&->&->).
  rewrite (qu_phase _ _ (quiet_set_queue _ _ _)). split; [done|]. split; [done|]. intros Hd.
  destruct Hnear as [-> | ->]; cbn; [done|]. by rewrite decide_False.
Qed.

Lemma finish_halt s c : cells_inv s → halt_inv s →
  halt_inv (on_cpu c (cpu_set_phase Exec) (note_kicks c (finish_switch bsp c s))).
Proof.
  intros Hinv Hh. pose proof (finish_cells s c) as Hc. destruct (finish_switch bsp c s) as [s1 ks]. cbn [fst] in Hc.
  apply (halt_frame s _ c); [done|..].
  - intros d Hd. cbn. rewrite !decide_False by done. destruct (Hc d Hinv) as (?&(?&?&?)&?). done.
  - intros d i Hd. cbn. rewrite !decide_False by done. destruct (Hc d Hinv) as (_&_&->); [auto|done].
  - intros d e Hb. destruct (Hc d Hinv) as (_&(_&_&Ek)&_). unfold kick_noted in *. cbn.
    repeat goal_decide; cbn [kicks cpu_set_phase cpu_set_kicks]; rewrite Ek; [|done]. by rewrite lor_bit, Hb.
  - cbn. by rewrite !decide_True.
  - cbn. by rewrite !decide_True.
Qed.

(** Queues that only lose slots. *)
Lemma shrink_halt s s' me :
  phase (cpus s me) = Exec → quiet s s' →
  (∀ c i, s_contains (runq (cpus s' c)) i = true → s_contains (runq (cpus s c)) i = true) →
  halt_inv s → halt_inv s'.
Proof.
  intros Hp Hq Hs Hh. apply (halt_frame s _ me); [done|..].
  - intros c _. split_and!; apply Hq.
  - intros c i _ Hi. left. by apply Hs.
  - intros d c. unfold kick_noted. by rewrite (qu_kicks _ _ Hq).
  - by rewrite (qu_phase _ _ Hq), Hp.
  - by rewrite (qu_phase _ _ Hq), Hp.
Qed.

Lemma quiet_unqueue i s : quiet s (unqueue i s).
Proof.
  unfold unqueue. apply (foldl_keeps (quiet s)); [done|]. intros s' q Hs _. etrans; [exact Hs|apply quiet_set_queue].
Qed.

Lemma unqueue_shrinks i s c j :
  (∀ q, set_ok (queue q s)) → (i < MAX_TASKS)%nat →
  s_contains (runq (cpus (unqueue i s) c)) j = true → s_contains (runq (cpus s c)) j = true.
Proof.
  intros Hok Hi. cut ((∀ q, set_ok (queue q (unqueue i s))) ∧
    (s_contains (queue (Some c) (unqueue i s)) j = true → s_contains (queue (Some c) s) j = true)); [by intros [_ ?]|].
  unfold unqueue. apply (foldl_keeps (λ s', (∀ q, set_ok (queue q s')) ∧
    (s_contains (queue (Some c) s') j = true → s_contains (queue (Some c) s) j = true))); [done|].
  intros s' q [Hok' Hsub] _. split.
  - intros q'. rewrite queue_set. goal_decide; [by apply remove_ok|done].
  - rewrite queue_set. goal_decide; [|done]. rewrite contains_remove by done. intros [_ Hj]%andb_true_iff. apply Hsub. by subst q.
Qed.

Lemma recycle_halt s c i :
  cells_inv s → (i < MAX_TASKS)%nat → phase (cpus s c) = Exec → halt_inv s → halt_inv (recycle i s).
Proof.
  intros Hinv Hi Hp Hh. unfold recycle. set (s1 := on_task i (λ _, EMPTY) s).
  assert (Hs1 : halt_inv s1) by (by apply halt_on_task).
  apply (shrink_halt s1 _ c); [done|apply quiet_unqueue| |done]. intros d j. apply unqueue_shrinks; [|done].
  intros q. unfold s1. rewrite queue_on_task. by apply queue_ok.
Qed.

Lemma claim_halt s c i s' :
  cells_inv s → (i < MAX_TASKS)%nat → phase (cpus s c) = Exec → claim_slot i s = Some s' → halt_inv s → halt_inv s'.
Proof.
  intros Hinv Hi Hp. unfold claim_slot. destruct (_ || _); [|done]. intros [= <-] Hh.
  by eapply halt_on_task, recycle_halt.
Qed.

(** A new place for a slot, by [me]. *)
Lemma ready_halt s me i :
  (∀ q, set_ok (queue q s)) → (i < MAX_TASKS)%nat → phase (cpus s me) = Exec → halt_inv s →
  halt_inv (note_kicks me (ready_locked bsp i (s, 0))).
Proof.
  intros Hok Hi Hp Hh. apply (halt_noted s); [done| |by apply kicked_ready|done].
  unfold ready_locked. etrans; [|apply quiet_kick_for]. apply quiet_set_queue.
Qed.

Lemma install_halt s me i sp0 as0 tg rg aff :
  cells_inv s → (i < MAX_TASKS)%nat → phase (cpus s me) = Exec → halt_inv s →
  halt_inv (note_kicks me (install bsp i sp0 as0 tg rg aff (s, 0))).
Proof.
  intros Hinv Hi Hp Hh. unfold install. cbn [fst snd]. set (s1 := on_task i _ s). apply ready_halt; [|done|done|].
  - intros q. unfold s1. rewrite queue_on_task. by apply queue_ok.
  - by eapply halt_eq_inv; [|exact Hh].
Qed.

Lemma place_halt s me i aff :
  cells_inv s → (i < MAX_TASKS)%nat → phase (cpus s me) = Exec → halt_inv s →
  halt_inv (note_kicks me (rehome_locked bsp i aff (s, 0))).
Proof.
  intros Hinv Hi Hp Hh. unfold rehome_locked. cbn [fst snd]. set (s1 := dequeue i _ s).
  assert (Hq : quiet s s1) by apply quiet_set_queue.
  assert (Hs1 : halt_inv s1).
  { apply (shrink_halt s _ me); [done|done| |done]. intros c j Hj.
    apply (contains_dequeue i (affinity (tasks s i)) s (Some c)) in Hj as [? _]; [done|by apply queue_ok|done]. }
  apply ready_halt; [|done| |].
  - intros q. rewrite queue_on_task. unfold s1, dequeue. rewrite queue_set. goal_decide; [|by apply queue_ok].
    apply remove_ok; [by apply queue_ok|done].
  - cbn. by rewrite (qu_phase _ _ Hq).
  - by eapply halt_eq_inv; [|exact Hs1].
Qed.

(** The lock changes hands, the rest with a step of [me] on its own cells. *)
Lemma halt_lock l s : halt_inv s → halt_inv (sys_set_tasks_lock l s).
Proof. by apply halt_eq_inv. Qed.

Lemma tick_halt s c now seen sv busy tb s' :
  cells_inv s → phase (cpus s c) = Exec → step_tick bsp c now seen sv busy tb s = Some s' → halt_inv s → halt_inv s'.
Proof.
  intros Hinv Hp Hx Hh. revert Hx. unfold step_tick. do 2 (case_match; [by intros [= <-]|]).
  destruct (timer_scan bsp c now sv busy tb s) as [[[next woke] sk]|] eqn:Es; [|done]. intros [= <-].
  destruct (closed_timer_scan bsp _ (woken_closed _) _ _ _ _ _ _ _ (woken_start s 0 Hinv) Es) as [_ Hk].
  pose proof (quiet_timer_scan _ _ _ _ _ _ _ _ Es) as Hq. cbn [snd] in *.
  apply halt_lock, halt_on_cpu; [done..|]. by apply (halt_noted s).
Qed.

Lemma decide_halt s c cur key seq dl now : halt_inv s → halt_inv (step_decide c cur key seq dl now s).
Proof.
  intros Hh. unfold step_decide. apply halt_lock, halt_on_cpu; [done..|]. eapply halt_eq_inv; [|exact Hh].
  repeat case_match; done.
Qed.

Lemma any_wake_halt s c p :
  phase (cpus s c) = Exec → halt_inv s →
  halt_inv (on_cpu c (cpu_set_any_phase p) s).
Proof. intros Hp Hh. apply halt_on_cpu; [done| | |done]; cbn; by rewrite Hp. Qed.

Lemma exec_on_halt s s' c cur o :
  inv s → 1 < online s → current (cpus s c) = Some cur → exec_on bsp c cur o s = Some s' → halt_inv s → halt_inv s'.
Proof.
  intros [Hinv _] Hon Hcur Hx Hh. pose proof (woken_closed (s, 0)) as Hcl. pose proof (woken_start s 0 Hinv) as Hw0.
  destruct o; cbn [exec_on] in Hx; guards.
  - by eapply step_pick_halt.
  - destruct (phase (cpus s c)) eqn:Ep; try done. destruct (switched_from (cpus s c)) as [old|]; [|done]. guards.
    apply halt_on_cpu; [done..|]. by eapply halt_eq_inv; [|exact Hh].
  - by apply finish_halt.
  - by apply halt_on_cpu.
  - apply halt_on_cpu; [done| | |done]; cbn; by rewrite H1.
  - by apply check_halt.
  - by apply halt_on_cpu.
  - unfold step_block. apply halt_lock, halt_on_cpu; [done..|]. eapply halt_eq_inv; [|exact Hh]. by case_match.
  - destruct (phase (cpus s c)) eqn:Ep; try done. injection Hx as <-. by apply decide_halt.
  - apply (halt_noted s); [done|apply quiet_wake|by apply (closed_wake bsp _ Hcl)|done].
  - apply (halt_noted s); [done|apply quiet_wake_n|by apply (closed_wake_n bsp _ Hcl)|done].
  - apply (halt_noted s); [done|apply quiet_wake_task|by apply (closed_wake_task bsp _ Hcl)|done].
  - apply (halt_noted s); [done|apply quiet_send|by apply (closed_send bsp _ Hcl)|done].
  - by apply halt_on_task.
  - apply halt_on_cpu; [done| | |]; cbn; [by rewrite H2|by rewrite H2|]. by eapply halt_eq_inv; [|exact Hh].
  - by apply any_wake_halt.
  - apply any_wake_halt.
    + cbn. rewrite decide_True by done. cbn. by rewrite (qu_phase _ _ (quiet_wake bsp WAIT_ANY s)).
    + apply (halt_noted s); [done|apply quiet_wake|by apply (closed_wake bsp _ Hcl)|done].
  - by apply kick_halt.
  - by eapply tick_halt.
  - destruct (phase (cpus s c)) eqn:Ep; try done. injection Hx as <-. unfold step_tick_store.
    apply halt_lock, halt_on_cpu; [done..|]. eapply halt_eq_inv; [|exact Hh]. by case_match.
  - by eapply halt_eq_inv; [|exact Hh].
  - by eapply halt_eq_inv; [|exact Hh].
  - unfold step_itimer. set (f := set_alarm _ _). pose proof (halt_on_task pid f s Hh) as Hs1. case_match; [done|].
    by eapply halt_eq_inv; [|exact Hs1].
  - by apply halt_on_task.
  - by apply halt_on_task.
  - by apply halt_on_task.
  - by eapply recycle_halt.
  - by eapply claim_halt.
  - by apply halt_on_task.
  - by apply install_halt.
  - unfold place_thread. destruct (_ && _) eqn:E; [|done]. guards. by apply place_halt.
  - done.
  - apply halt_on_cpu; [done| | |done]; cbn [cpu_set_idle_slot phase]; by replace (phase (cpus s c)) with Exec.
  - by eapply halt_eq_inv; [|exact Hh].
Qed.

Lemma exec_halt s s' c o : inv s → 1 < online s → exec bsp c o s = Some s' → halt_inv s → halt_inv s'.
Proof.
  intros Hinv Hon Hx Hh. unfold exec in Hx. guards. destruct (current (cpus s c)) as [cur|] eqn:Ec; [by eapply exec_on_halt|].
  destruct o; try done. guards. eapply halt_eq_inv; [|exact Hh]. split; intros d; cbn; by goal_decide.
Qed.

Lemma run_halt ops s s' : inv s → 1 < online s → run bsp ops s = Some s' → halt_inv s → halt_inv s'.
Proof.
  revert s. induction ops as [|[c o] ops IH]; intros s Hinv Hon Hr Hh; cbn [run] in Hr; [by injection Hr as <-|].
  destruct (exec bsp c o s) as [s1|] eqn:Ex; [|done]. apply (IH s1); [by eapply exec_inv| |done|by eapply exec_halt].
  by rewrite (ck_online _ _ (exec_clock bsp s s1 c o Ex)).
Qed.

Lemma boot_halt n ts : halt_inv (boot (T := T) n ts).
Proof. done. Qed.

(** C15: no processor sleeps on work of its own.  With more than one
    processor up, one that has halted in the idle loop or in [block_until]
    while its run queue holds a task has an interrupt on its way: sent, or
    noted by another processor and not sent yet.  It has said it is idle, so
    the kick is not skipped. *)
Theorem no_sleep_on_work ops n ts s c i :
  1 < n → run bsp ops (boot n ts) = Some s →
  phase (cpus s c) = Halted → s_contains (runq (cpus s c)) i = true →
  cpu_idle (cpus s c) = true ∧ (ipi (cpus s c) = true ∨ ∃ d, d ≠ c ∧ kick_noted s d c).
Proof.
  intros Hn Hr Hp Hi. pose proof (run_halt ops _ s (boot_inv n ts) Hn Hr (boot_halt n ts)) as [Hid Hw].
  split; [|by apply (Hw c i)]. apply Hid. by rewrite Hp.
Qed.

End halt.

(** Processor 1 halts in its idle loop; processor 0 gives it a task. *)
Definition halted_run : list (nat * Op) := [
  (1%nat, OBringUp 1 4096); (1%nat, OIdleOn true); (1%nat, OPick); (1%nat, OCheck);
  (0%nat, OInstall 2 8192 0 2 false (Some 1%nat))].

Lemma no_sleep_on_work_witness :
  match run (T := TaskBits) false halted_run (boot 2 []) with
  | Some s => cpu_idle (cpus s 1) = true ∧ (ipi (cpus s 1) = true ∨ ∃ d, d ≠ 1%nat ∧ kick_noted s d 1)
  | None => False
  end.
Proof.
  assert (Hs : ((λ s : Sys TaskBits, (phase (cpus s 1), s_contains (runq (cpus s 1)) 2)) <$> run false halted_run (boot 2 [])) =
    Some (Halted, true)) by (vm_compute; reflexivity).
  destruct (run false halted_run (boot 2 [])) as [s|] eqn:Er; [|done]. injection Hs as Hp Hq.
  exact (no_sleep_on_work false halted_run 2 [] s 1 2 eq_refl Er Hp Hq).
Defined.
