(* ===== verification/SchedTimer.v ===== *)
(** * Deadlines

    Over all runs of [Sched.v], [NEXT_DEADLINE] is never past the deadline
    of a blocked task, so the tick that reaches it wakes the task.  For an
    armed timer the same does not hold: the tick's store can undo the
    [deadline_soon] of the processor that armed it. *)

From S2P Require Import Prelude TaskSet Sched SchedFacts SchedRun SchedLive SchedWake.
From stdpp Require Import list.

Open Scope Z_scope.

(** The deadline a task sleeps to, 0 if none. *)
Definition sleeps (t : Task) : Z := if bool_decide (state t = Blocked) then wake_at t else 0.

(** No new sleep. *)
Definition sleep_le (t t' : Task) : Prop := sleeps t' = 0 ∨ sleeps t' = sleeps t.

Lemma sleep_not_blocked t t' : state t' ≠ Blocked → sleep_le t t'.
Proof. intros Hs. left. unfold sleeps. by rewrite bool_decide_false. Qed.

Section timer.
Context {T : Type} `{SlotSetLaws T} (bsp : bool).
Implicit Types (s : Sys T) (i c d cur : nat).

Definition sleep_inv s : Prop :=
  ∀ i, (i < MAX_TASKS)%nat → sleeps (tasks s i) ≠ 0 →
    next_deadline s <= sleeps (tasks s i) ∧
    ∀ c next woke, phase (cpus s c) = Ticking next woke → next <= sleeps (tasks s i).

(** ** Steps that put no one to sleep *)

Record calm s s' : Prop := {
  cm_task i : sleep_le (tasks s i) (tasks s' i);
  cm_deadline : next_deadline s' <= next_deadline s;
  cm_phase c next woke : phase (cpus s' c) = Ticking next woke → phase (cpus s c) = Ticking next woke }.

#[local] Instance calm_refl : Reflexive calm.
Proof. intros s. split; auto; [by right|lia]. Qed.
#[local] Instance calm_trans : Transitive calm.
Proof.
  intros s1 s2 s3 [Ht Hd Hp] [Ht' Hd' Hp']. split; [|lia|auto]. intros i.
  destruct (Ht' i) as [E|E]; [by left|]. destruct (Ht i) as [E'|E']; [left|right]; congruence.
Qed.

Lemma calm_inv s s' : calm s s' → sleep_inv s → sleep_inv s'.
Proof.
  intros [Ht Hd Hp] Hs i Hi Hn. destruct (Ht i) as [E|E]; [done|]. rewrite E in *. destruct (Hs i Hi Hn) as [Hle Htk].
  split; [lia|]. intros c next woke Hc. eapply Htk. by apply Hp.
Qed.

Lemma calm_quiet s s' : quiet s s' → (∀ i, sleep_le (tasks s i) (tasks s' i)) → calm s s'.
Proof.
  intros Hq Ht. split; [done|rewrite (qu_deadline _ _ Hq); lia|]. intros c next woke. by rewrite (qu_phase _ _ Hq).
Qed.

Lemma calm_on_task i f s : sleep_le (tasks s i) (f (tasks s i)) → calm s (on_task i f s).
Proof. intros Hf. split; [|cbn; lia|done]. intros j. cbn. goal_decide; [by subst|by right]. Qed.

Lemma calm_on_cpu c f s :
  (∀ next woke, phase (f (cpus s c)) = Ticking next woke → phase (cpus s c) = Ticking next woke) →
  calm s (on_cpu c f s).
Proof. intros Hf. split; [by right|cbn; lia|]. intros d next woke. cbn. goal_decide; [subst; apply Hf|done]. Qed.

Lemma calm_set_queue q v s : calm s (set_queue q v s).
Proof. apply calm_quiet; [apply quiet_set_queue|]. intros i. right. by rewrite set_queue_tasks. Qed.

Lemma calm_kick_for slot aff fs (sk : Sys T * Z) : calm sk.1 (kick_for bsp slot aff fs sk).1.
Proof. apply calm_quiet; [apply quiet_kick_for|]. intros i. right. by rewrite (ce_task _ _ (core_kick_for _ _ _ _ _)). Qed.

Lemma calm_ready i (sk : Sys T * Z) : calm sk.1 (ready_locked bsp i sk).1.
Proof. unfold ready_locked. etrans; [|apply calm_kick_for]. apply calm_set_queue. Qed.

Lemma calm_unqueue i s : calm s (unqueue i s).
Proof.
  unfold unqueue. apply (foldl_keeps (calm s)); [done|]. intros s' q Hs _. etrans; [exact Hs|apply calm_set_queue].
Qed.

Lemma calm_note c (sk : Sys T * Z) s : calm s sk.1 → calm s (note_kicks c sk).
Proof. intros Hs. etrans; [exact Hs|]. by apply calm_on_cpu. Qed.

(** ** Wakes *)

Lemma wake_locked_at i (sk : Sys T * Z) :
  let t := tasks (wake_locked bsp i sk).1 i in state t ≠ Blocked ∨ wake_at t = 0.
Proof.
  destruct sk as [s ks]. cbv zeta. unfold wake_locked. case_bool_decide as Hb; [|by left]. cbn [negb].
  set (s1 := if wait_key (tasks s i) =? WAIT_ANY then _ else _). clearbody s1.
  case_match; [right; cbn [fst]; by rewrite !task_eq|]. left. case_match.
  - cbn. by rewrite !decide_True.
  - rewrite (ce_task _ _ (core_kick_for _ _ _ _ _)). cbn [fst]. unfold enqueue. rewrite set_queue_tasks.
    by rewrite !task_eq.
Qed.

Lemma wake_locked_sleeps i (sk : Sys T * Z) : sleeps (tasks (wake_locked bsp i sk).1 i) = 0.
Proof.
  unfold sleeps. destruct (wake_locked_at i sk) as [Hs|Hw]; [by rewrite bool_decide_false|]. by case_bool_decide.
Qed.

Lemma calm_wake_locked i (sk : Sys T * Z) : calm sk.1 (wake_locked bsp i sk).1.
Proof.
  apply calm_quiet; [apply quiet_wake_locked|]. intros j. destruct (decide (j = i)) as [->|Hj].
  - left. apply wake_locked_sleeps.
  - right. by rewrite wake_locked_others.
Qed.

Lemma calm_bump s : calm s (bump s).
Proof. apply calm_quiet; [apply quiet_bump|]. by right. Qed.

Lemma harmless_sleep f t : harmless f → sleep_le t (f t).
Proof. intros Hf. right. destruct (Hf t) as (Es&_&_&_&_&Ew). unfold sleeps. by rewrite Es, Ew. Qed.

Lemma calm_closed s0 : wake_closed bsp (λ sk, calm s0 sk.1).
Proof.
  split; cbn [fst].
  - intros i sk _ Hc. etrans; [exact Hc|apply calm_wake_locked].
  - intros s _ Hc. etrans; [exact Hc|apply calm_bump].
  - intros i f s _ Hf Hc. etrans; [exact Hc|]. by apply calm_on_task, harmless_sleep.
  - intros c s _ Hc. etrans; [exact Hc|]. by apply calm_on_cpu.
  - intros ts s _ Hc. etrans; [exact Hc|]. split; [by right|cbn; lia|done].
Qed.

(** ** The scan *)

(** Slot [i] sleeps to nothing the scan has passed over. *)
Definition scanned (now : Z) (i : nat) (st : Z * bool * (Sys T * Z)) : Prop :=
  let t := tasks st.2.1 i in sleeps t = 0 ∨ now < sleeps t ∧ st.1.1 <= sleeps t.

Lemma scanned_calm now i (st st' : Z * bool * (Sys T * Z)) :
  calm st.2.1 st'.2.1 → st'.1.1 <= st.1.1 → scanned now i st → scanned now i st'.
Proof.
  intros Hc Hn Hs. unfold scanned in *. destruct (cm_task _ _ Hc i) as [E|E]; [by left|]. rewrite E. destruct Hs; [by left|].
  right. lia.
Qed.

Lemma tick_slot_calm me now sv st i r :
  tick_slot bsp me now sv st i = Some r →
  ∃ r0, st = Some r0 ∧ calm r0.2.1 r.2.1 ∧ r.1.1 <= r0.1.1 ∧ scanned now i r.
Proof.
  intros Hr. apply tick_slot_some in Hr as (next&woke&sk&next'&sk'&->&Ha&->). exists (next, woke, sk). split; [done|].
  assert (Hcn : calm sk.1 sk'.1 ∧ next' <= next).
  { destruct Ha as [[-> ->]|(at_&Ha&->)]; [split; [done|lia]|]. split; [|lia].
    by apply (closed_alarm bsp _ (calm_closed sk.1) _ _ _ _ _ _ (calm_refl _) Ha). }
  destruct Hcn as [Hc Hn]. cbn [fst snd]. unfold scanned.
  destruct (negb _ || _) eqn:E1; [|destruct (wake_at _ <=? now) eqn:E2]; cbn [fst snd]; split_and!; try done.
  - left. unfold sleeps. apply orb_true_iff in E1 as [E|E]; [|apply Z.eqb_eq in E; by case_bool_decide].
    apply negb_true_iff in E. by rewrite E.
  - etrans; [exact Hc|apply calm_wake_locked].
  - left. apply wake_locked_sleeps.
  - lia.
  - right. apply orb_false_iff in E1 as [E _]. apply negb_false_iff in E. unfold sleeps. rewrite E. lia.
Qed.

Lemma timer_scan_next me now sv busy tb s r i :
  (i < MAX_TASKS)%nat → timer_scan bsp me now sv busy tb s = Some r → scanned now i r.
Proof.
  intros Hi. unfold timer_scan. set (x := foldl (tick_slot bsp me now sv) _ _).
  assert (Hst : ∀ st, x = Some st → scanned now i st).
  { apply (foldl_reaches (λ a, ∀ st, a = Some st → scanned now i st) _ _ i); [by apply elem_slots| |].
    - intros a j Ha st Hst. apply tick_slot_calm in Hst as (r0&E&Hc&Hn&_). eapply scanned_calm; [done..|by apply Ha].
    - intros a st Hst. by apply tick_slot_calm in Hst as (r0&_&_&_&?). }
  clearbody x. destruct x as [[[next woke] sk]|]; [|done]. specialize (Hst _ eq_refl). cbn [mbind option_bind].
  destruct (if tb then _ else _) as [[ids tnext] ts].
  set (y := foldl _ _ ids). assert (Hy : calm sk.1 y.2.1).
  { apply (foldl_keeps (λ a : bool * (Sys T * Z), calm sk.1 a.2.1)).
    - apply (wc_timers bsp _ (calm_closed sk.1) ts sk.1 sk.2). done.
    - intros [w sk'] id Hsk' _. cbn [snd] in Hsk'.
      pose proof (closed_wake_key bsp _ (calm_closed sk.1) (key_timer (Z.of_nat id)) sk' Hsk') as Hk.
      by destruct (wake_key_locked _ _ _) as [w' sk'']. }
  clearbody y. destruct y as [w sk']. cbn [snd] in Hy. intros [= <-].
  apply (scanned_calm now i (next, woke, sk)); [done|cbn; lia|done].
Qed.

(** ** Every step keeps the deadlines *)

Lemma pick_deadline c cur s : next_deadline (pick bsp c cur s).2 = next_deadline s.
Proof.
  assert (Hd : ∀ n aff, next_deadline (dequeue n aff s) = next_deadline s)
    by (intros; apply (qu_deadline _ _ (quiet_set_queue _ _ _))).
  assert (Hc : next_deadline (choose bsp c cur s).2 = next_deadline s).
  { unfold choose, pull. repeat case_match; simplify_eq; try done; cbn [snd]; apply Hd. }
  unfold pick. destruct (choose bsp c cur s) as [n s1]. by repeat case_match.
Qed.

Lemma pick_sleep s c cur p s' :
  cells_inv s → current (cpus s c) = Some cur → switched_from (cpus s c) = None →
  pick bsp c cur s = (p, s') → ∀ i, sleep_le (tasks s i) (tasks s' i).
Proof.
  intros Hinv Hcur Hsw. unfold pick. case_match; [intros [= _ <-]; by right|].
  assert (Hm : ∀ t, sleep_le t (make_running t)).
  { intros t. unfold make_running. case_bool_decide; [by apply sleep_not_blocked|by right]. }
  destruct (choose bsp c cur s) as [n s1] eqn:Ech.
  apply choose_spec in Ech as [[-> ->]|(l&io&aff&Hne&Hch)]; [| |done..].
  { rewrite Nat.eqb_refl. intros [= _ <-] i. cbn. case_decide; [subst; apply Hm|by right]. }
  rewrite (proj2 (Nat.eqb_neq _ _) Hne). intros [= _ <-] i.
  set (s2 := if bool_decide (Some n = idle_slot (cpus s c)) then s1 else on_cpu c (cpu_set_cpu_idle false) s1).
  assert (Hs2 : tasks s2 = tasks s1) by (unfold s2; by case_match). clearbody s2.
  cbn. rewrite Hs2. repeat goal_decide; subst; try (by apply sleep_not_blocked).
  - rewrite (cn_others _ _ _ _ _ _ _ Hch) by done. apply Hm.
  - rewrite (cn_others _ _ _ _ _ _ _ Hch) by done. by right.
Qed.

Lemma step_pick_calm s c cur s' :
  cells_inv s → current (cpus s c) = Some cur → step_pick bsp c cur s = Some s' → calm s s'.
Proof.
  intros Hinv Hcur. unfold step_pick. destruct (phase (cpus s c)) as [| |b| | | | |] eqn:Ep; try done.
  all: assert (Hsw : switched_from (cpus s c) = None) by (apply no_switch; [done|by rewrite Ep]).
  all: pose proof (pick_deadline c cur s) as Hd.
  all: destruct (pick bsp c cur s) as [p s1] eqn:Epk; destruct (pick_wait bsp s c cur p s1) as (_&_&Hp); [done..|].
  all: pose proof (pick_sleep s c cur p s1 Hinv Hcur Hsw Epk) as Ht; cbn [snd] in Hd.
  all: assert (Hs1 : calm s s1) by (split; [done|lia|]; intros d next woke; by rewrite Hp).
  all: intros [= <-]; etrans; [exact Hs1|].
  - destruct p; [|done]. by apply calm_on_cpu.
  - apply calm_on_cpu. intros next woke. destruct p as [|bl]; [done|]. by destruct (b || bl).
Qed.

Lemma calm_finish c s : calm s (finish_switch bsp c s).1.
Proof.
  unfold finish_switch. destruct (switched_from (cpus s c)) as [prev|]; [|done].
  set (s1 := on_cpu c _ s). assert (Hs1 : calm s s1) by (by apply calm_on_cpu).
  assert (Ht1 : tasks s1 = tasks s) by done. rewrite Ht1. clearbody s1.
  set (s2 := if _ && _ then _ else _). assert (Hs2 : calm s s2).
  { unfold s2. case_match; [|done]. etrans; [exact Hs1|]. apply calm_on_task. rewrite Ht1. by right. }
  clearbody s2. case_match; [|done]. set (s3 := on_task prev (set_state Ready) s2).
  assert (Hs3 : calm s s3) by (etrans; [exact Hs2|by apply calm_on_task, sleep_not_blocked]). clearbody s3.
  case_match; [done|]. etrans; [exact Hs3|]. etrans; [|apply calm_kick_for]. apply calm_set_queue.
Qed.

Lemma calm_kick c target s : calm s (step_kick c target s).
Proof.
  pose proof (kick_core s c target) as Hk. split.
  - intros i. right. by rewrite (ce_task _ _ Hk).
  - unfold step_kick. repeat case_match; cbn; lia.
  - intros d next woke. by rewrite (ce_phase _ _ Hk).
Qed.

Lemma calm_recycle i s : calm s (recycle i s).
Proof.
  unfold recycle. etrans; [by apply (calm_on_task i (λ _, EMPTY)), sleep_not_blocked|]. apply (calm_unqueue i).
Qed.

Lemma calm_claim i s s' : claim_slot i s = Some s' → calm s s'.
Proof.
  unfold claim_slot. destruct (_ || _); [|done]. intros [= <-].
  etrans; [apply (calm_recycle i)|]. by apply calm_on_task, sleep_not_blocked.
Qed.

(** The lock's holder blocks: no tick is between its scan and its store. *)
Lemma decide_sleep s c cur key seq dl now :
  cells_inv s → phase (cpus s c) = Blocking key seq dl → sleep_inv s →
  sleep_inv (step_decide c cur key seq dl now s).
Proof.
  intros Hinv Hp Hs. assert (Hnt : ∀ d next woke, phase (cpus s d) ≠ Ticking next woke).
  { intros d next woke Hd. assert (tasks_lock s = Some c) by (apply (ck_lock _ _ (proj1 (proj2 Hinv) c)); left; eauto).
    assert (tasks_lock s = Some d) by (apply (ck_lock _ _ (proj1 (proj2 Hinv) d)); right; eauto). congruence. }
  intros i Hi Hn. split.
  2:{ intros d next woke. unfold step_decide. cbn. goal_decide; [done|]. intros Hd. exfalso. revert Hd.
      repeat case_match; cbn; apply Hnt. }
  revert Hn. unfold step_decide. set (s1 := on_task cur (set_key_woken false) s).
  assert (Hs1 : ∀ j, sleeps (tasks s1 j) = sleeps (tasks s j)) by (intros j; unfold s1; cbn; by goal_decide).
  assert (Hd1 : next_deadline s1 = next_deadline s) by done. clearbody s1.
  destruct (_ || _ || _).
  - intros Hn. assert (Hn' : sleeps (tasks s i) ≠ 0) by (rewrite <-Hs1; revert Hn; by case_match).
    destruct (Hs i Hi Hn') as [Hle _]. rewrite <-Hs1, <-Hd1 in Hle. by case_match.
  - destruct (decide (i = cur)) as [->|Hic].
    + destruct (Z.eqb_spec dl 0) as [->|Hdl]; cbn; rewrite decide_True by done; unfold sleeps; cbn; [done|]. rewrite bool_decide_true by done. lia.
    + intros Hn. assert (Hn' : sleeps (tasks s i) ≠ 0).
      { rewrite <-Hs1. revert Hn. case_match; cbn; by rewrite decide_False. }
      destruct (Hs i Hi Hn') as [Hle _]. rewrite <-Hs1, <-Hd1 in Hle.
      case_match; cbn; rewrite decide_False by done; lia.
Qed.

Lemma tick_sleep s c now seen sv busy tb s' :
  step_tick bsp c now seen sv busy tb s = Some s' → sleep_inv s → sleep_inv s'.
Proof.
  intros Hx Hs. revert Hx. unfold step_tick. do 2 (case_match; [by intros [= <-]|]).
  destruct (timer_scan bsp c now sv busy tb s) as [[[next woke] sk]|] eqn:Es; [|done]. intros [= <-] i Hi.
  pose proof (timer_scan_next c now sv busy tb s _ i Hi Es) as Hscan.
  pose proof (closed_timer_scan bsp _ (calm_closed s) _ _ _ _ _ _ _ (calm_refl s) Es) as Hc. cbn [snd] in Hc.
  cbn. intros Hn. destruct (calm_inv _ _ Hc Hs i Hi Hn) as [Hle Ht]. split; [done|].
  intros d next' woke'. repeat goal_decide; cbn.
  - intros [= <- _]. destruct Hscan as [|[_ Hsc]]; [done|exact Hsc].
  - apply Ht.
Qed.

Lemma tick_store_sleep s c next woke :
  phase (cpus s c) = Ticking next woke → sleep_inv s → sleep_inv (step_tick_store c next woke s).
Proof.
  intros Hp Hs i Hi. unfold step_tick_store.
  assert (Et : ∀ x, tasks (sys_set_tasks_lock None (on_cpu c (cpu_set_phase Exec)
    (if woke then bump x else x))) i = tasks (T := T) x i) by (by destruct woke).
  rewrite Et. cbn [tasks sys_set_next_deadline]. intros Hn. destruct (Hs i Hi Hn) as [Hle Ht]. split.
  - destruct woke; cbn; by eapply Ht.
  - intros d next' woke'. cbn. goal_decide; [done|]. intros Hd. apply (Ht d _ woke'). by destruct woke.
Qed.

Lemma exec_on_sleep s s' c cur o :
  inv s → current (cpus s c) = Some cur → exec_on bsp c cur o s = Some s' → sleep_inv s → sleep_inv s'.
Proof.
  intros [Hinv _] Hcur Hx Hs. assert (Hst : calm s s' → sleep_inv s') by (intros; by eapply calm_inv).
  destruct o; cbn [exec_on] in Hx; guards.
  - by eapply Hst, step_pick_calm.
  - destruct (phase (cpus s c)) eqn:Ep; try done. destruct (switched_from (cpus s c)) as [old|]; [|done]. guards.
    apply Hst. etrans; [apply (calm_on_task old (set_sp saved)); by right|]. by apply calm_on_cpu.
  - apply Hst. etrans; [apply (calm_note c), calm_finish|]. by apply calm_on_cpu.
  - apply Hst. by apply calm_on_cpu.
  - apply Hst. by apply calm_on_cpu.
  - apply Hst. unfold step_check. etrans; [by apply (calm_on_cpu c (cpu_set_need_resched false))|]. apply calm_on_cpu.
    intros next woke. by destruct (_ && _).
  - apply Hst. by apply calm_on_cpu.
  - apply Hst. unfold step_block. split; [intros i; right; by case_match|case_match; cbn; lia|].
    intros d next woke. cbn. goal_decide; [done|]. by case_match.
  - destruct (phase (cpus s c)) eqn:Ep; try done. injection Hx as <-. by apply decide_sleep.
  - by apply Hst, calm_note, (closed_wake bsp _ (calm_closed s)).
  - by apply Hst, calm_note, (closed_wake_n bsp _ (calm_closed s)).
  - by apply Hst, calm_note, (closed_wake_task bsp _ (calm_closed s)).
  - by apply Hst, calm_note, (closed_send bsp _ (calm_closed s)).
  - apply Hst, calm_on_task, harmless_sleep. intros t. apply take_signal_eq.
  - apply Hst. etrans; [apply calm_bump|]. by apply calm_on_cpu.
  - apply Hst. by apply calm_on_cpu.
  - apply Hst. pose proof (closed_wake bsp _ (calm_closed s) WAIT_ANY s (calm_refl s)) as Hw.
    etrans; [by apply (calm_note c), Hw|]. by apply calm_on_cpu.
  - apply Hst, calm_kick.
  - by eapply tick_sleep.
  - destruct (phase (cpus s c)) eqn:Ep; try done. injection Hx as <-. by apply tick_store_sleep.
  - apply Hst. split; [by right|cbn; lia|done].
  - apply Hst. split; [by right|cbn; lia|done].
  - apply Hst. unfold step_itimer. set (f := set_alarm _ _).
    assert (Hs1 : calm s (on_task pid f s)) by (by apply calm_on_task, harmless_sleep).
    case_match; [done|]. etrans; [exact Hs1|]. split; [by right|cbn; lia|done].
  - apply Hst, calm_on_task. by right.
  - apply Hst. by apply calm_on_task, sleep_not_blocked.
  - apply Hst, calm_on_task. by right.
  - apply Hst, calm_recycle.
  - by eapply Hst, calm_claim.
  - apply Hst. by apply calm_on_task, sleep_not_blocked.
  - apply Hst, calm_note. unfold install. etrans; [|apply calm_ready]. by apply calm_on_task, sleep_not_blocked.
  - apply Hst. unfold place_thread. case_match; [|done]. apply calm_note. unfold rehome_locked. etrans; [|apply calm_ready]. cbn [fst].
    etrans; [apply calm_set_queue|]. apply calm_on_task. by right.
  - done.
  - apply Hst. by apply calm_on_cpu.
  - apply Hst. split; [by right|cbn; lia|done].
Qed.

Lemma exec_sleep s s' c o : inv s → exec bsp c o s = Some s' → sleep_inv s → sleep_inv s'.
Proof.
  intros Hinv Hx Hs. unfold exec in Hx. guards. destruct (current (cpus s c)) as [cur|] eqn:Ec; [by eapply exec_on_sleep|].
  destruct o; try done. guards. eapply calm_inv; [|exact Hs]. split; [|cbn; lia|].
  - intros i. cbn. goal_decide; [by apply sleep_not_blocked|by right].
  - intros d next woke. cbn. by goal_decide.
Qed.

Lemma run_sleep ops s s' : inv s → run bsp ops s = Some s' → sleep_inv s → sleep_inv s'.
Proof.
  revert s. induction ops as [|[c o] ops IH]; intros s Hinv Hr Hs; cbn [run] in Hr; [by injection Hr as <-|].
  destruct (exec bsp c o s) as [s1|] eqn:Ex; [|done]. apply (IH s1); [by eapply exec_inv|done|by eapply exec_sleep].
Qed.

Lemma boot_sleep n ts : sleep_inv (boot (T := T) n ts).
Proof. intros i _. cbn. by case_decide. Qed.

(** C16: a deadline passed to [block_until] is kept.  Whatever ran before,
    and with whatever alarms and timers, after a tick at [now] that finds
    [TASKS] free no task is blocked with a deadline at or before [now],
    whether it looked through the tasks or returned because the value of
    [NEXT_DEADLINE] is ahead of [now].  A tick that finds the lock taken
    changes nothing, so that the next one that gets it wakes the task. *)
Theorem tick_wakes_sleepers ops n ts s c now seen sv busy tb s' i :
  run bsp ops (boot n ts) = Some s → exec bsp c (OTick now seen sv busy tb) s = Some s' →
  (tasks_lock s ≠ None → s' = s) ∧
  (tasks_lock s = None → seen <= now ∨ seen = next_deadline s → (i < MAX_TASKS)%nat →
    state (tasks s' i) = Blocked → wake_at (tasks s' i) = 0 ∨ now < wake_at (tasks s' i)).
Proof.
  intros Hr Hx. split.
  { intros Hl. unfold exec in Hx. guards. destruct (current (cpus s c)) as [cur|]; [|done]. cbn [exec_on] in Hx. guards.
    unfold step_tick, unlocked in Hx. rewrite bool_decide_false in Hx by done. by destruct (now <? seen); injection Hx as <-. }
  intros Hl Hseen Hi Hb. pose proof (run_sleep ops _ s (boot_inv n ts) Hr (boot_sleep n ts)) as Hs.
  destruct (decide (wake_at (tasks s' i) = 0)) as [|Hw]; [by left|]. right.
  assert (E : ∀ t, state t = Blocked → sleeps t = wake_at t) by (intros t Ht; unfold sleeps; by rewrite bool_decide_true).
  unfold exec in Hx. guards. destruct (current (cpus s c)) as [cur|]; [|done]. cbn [exec_on] in Hx. guards.
  revert Hx. unfold step_tick, unlocked. rewrite bool_decide_true by done. destruct (Z.ltb_spec now seen) as [Hlt|Hge].
  - intros [= <-]. destruct Hseen as [|Hseen]; [lia|]. rewrite <-E in * by done. destruct (Hs i Hi Hw). lia.
  - cbn [negb]. destruct (timer_scan bsp c now sv busy tb s) as [[[next woke] sk]|] eqn:Es; [|done]. intros [= <-].
    pose proof (timer_scan_next c now sv busy tb s _ i Hi Es) as Hscan. cbn in Hb, Hw |- *. rewrite <-E in * by done.
    destruct Hscan as [|[Hsc _]]; [done|exact Hsc].
Qed.

End timer.

(** A task that gets no signal. *)
Definition no_signals (i : nat) : SigView :=
  {| sv_user := false; sv_blocked := false; sv_ignored := false; sv_busy := false |}.

(** The deadline race: timer 0 is due at 5; processor 1's tick at 10 fires
    it and is about to store the next deadline; processor 0 arms the timer
    again, for 20, and says so; the store comes last. *)
Definition lost_timer_run : list (nat * Op) := [
  (1%nat, OBringUp 1 4096); (0%nat, OArm 0 5 0); (0%nat, ODeadlineSoon 5);
  (1%nat, OTick 10 5 no_signals [] false);
  (0%nat, OArm 0 20 0); (0%nat, ODeadlineSoon 20); (1%nat, OTickStore)].

Definition disarmed : TimerState := {| next_ns := 0; interval_ns := 0; expirations := 0; timer_changes := 0 |}.

(** An armed timer's deadline can be lost.  There is a run after which
    a timer is armed for 20 ns, the lock is free, and every tick before the
    clock's last value returns at once, without looking at it. *)
Theorem timer_deadline_lost :
  ∃ ops (s : Sys TaskBits) t, run false ops (boot 2 [Some disarmed]) = Some s ∧ tasks_lock s = None ∧
    timers s = [Some t] ∧ next_ns t = 20 ∧
    ∀ c now sv busy tb s', now < U64_MAX → exec false c (OTick now (next_deadline s) sv busy tb) s = Some s' → s' = s.
Proof.
  assert (Hrun : (λ s : Sys TaskBits, (tasks_lock s, timers s, next_deadline s)) <$>
      run false lost_timer_run (boot 2 [Some disarmed]) =
    Some (None, [Some {| next_ns := 20; interval_ns := 0; expirations := 0; timer_changes := 3 |}], U64_MAX))
    by (vm_compute; reflexivity).
  destruct (run false lost_timer_run (boot 2 [Some disarmed])) as [s|] eqn:Er; [|done]. cbn in Hrun.
  injection Hrun as Hl Ht Hd. exists lost_timer_run, s. eexists. split_and!; [done|done|exact Ht|done|].
  intros c now sv busy tb s' Hn Hx. unfold exec in Hx. guards. destruct (current (cpus s c)); [|done].
  cbn [exec_on] in Hx. guards. unfold step_tick in Hx. rewrite Hd, (proj2 (Z.ltb_lt _ _) Hn) in Hx. by injection Hx as <-.
Qed.

Lemma tick_wakes_sleepers_witness :
  match run (T := TaskBits) false sleeper_run (boot 2 []) with
  | Some s => state (tasks s 1) = Blocked ∧
      match exec false 0 (OTick 60 50 no_signals [] false) s with
      | Some s' => state (tasks s' 1) = Blocked → wake_at (tasks s' 1) = 0 ∨ 60 < wake_at (tasks s' 1)
      | None => False
      end
  | None => False
  end.
Proof.
  assert (Hb : ((λ s : Sys TaskBits, state (tasks s 1)) <$> run false sleeper_run (boot 2 [])) = Some Blocked)
    by (vm_compute; reflexivity).
  assert (Hx : ((λ s : Sys TaskBits, state (tasks s 1)) <$>
    (run false sleeper_run (boot 2 []) ≫= exec false 0 (OTick 60 50 no_signals [] false))) = Some Ready) by (vm_compute; reflexivity).
  destruct (run false sleeper_run (boot 2 [])) as [s|] eqn:Er; [|done]. split; [by injection Hb|].
  cbn in Hx. destruct (exec false 0 (OTick 60 50 no_signals [] false) s) as [s'|] eqn:Ex; [|done].
  assert (Hl : ((λ s : Sys TaskBits, tasks_lock s) <$> run false sleeper_run (boot 2 [])) = Some None) by (vm_compute; reflexivity).
  rewrite Er in Hl. injection Hl as Hl.
  destruct (tick_wakes_sleepers false sleeper_run 2 [] s 0 60 50 no_signals [] false s' 1 Er Ex) as [_ H].
  apply H; [exact Hl|left; lia|unfold MAX_TASKS; lia].
Defined.

(** Task 2's alarm in 1 us, then every [u64::MAX] ns (an interval that
    [sys_itimer] saturates to). *)
Definition alarm_run : list (nat * Op) := [
  (0%nat, OEnablePreempt); (0%nat, OInstall 2 8192 7 2 false (Some 0%nat));
  (0%nat, OPick); (0%nat, OSwitch 12288); (0%nat, OFinish); (0%nat, OItimer 2 1000 U64_MAX 1)].

Definition all_signals (i : nat) : SigView :=
  {| sv_user := true; sv_blocked := false; sv_ignored := false; sv_busy := false |}.

(** A process can make the tick panic: the next expiry of an alarm with
    a long interval is computed without a check, and does not fit. *)
Theorem alarm_overflow_panics :
  ∃ ops (s : Sys TaskBits), run false ops (boot 1 []) = Some s ∧
    in_exec 0 s = true ∧ unlocked s = true ∧ next_deadline s <= 2000 ∧
    timer_scan false 0 2000 all_signals [] false s = None.
Proof.
  assert (Hrun : (s ← run false alarm_run (boot 1 []);
      Some (in_exec 0 s, unlocked s, next_deadline s,
        match timer_scan false 0 2000 all_signals [] false s with Some _ => true | None => false end)) =
    Some (true, true, 1001, false)) by (vm_compute; reflexivity).
  exists alarm_run. destruct (run (T := TaskBits) false alarm_run (boot 1 [])) as [s|]; [|discriminate Hrun].
  cbn [mbind option_bind] in Hrun. exists s. split; [done|].
  destruct (timer_scan false 0 2000 all_signals [] false s); [discriminate Hrun|].
  injection Hrun as Hi Hu Hd. by rewrite Hd.
Qed.
